(* ===== verification/_CoqProject ===== *)
-Q . S2P
Prelude.v
GoLib.v
Json.v
Protocol.v
FlowControl.v
ServerStream.v
ClientStream.v
FlowPair.v
Sha256.v
Auth.v
Session.v
SessionSpec.v
SessionTrace.v
FrameQueue.v
Allowlist.v
Grant.v
GrantRoundTrip.v
Links.v
LinkState.v
FileTree.v
Fileshare.v
PeerSet.v
Wire.v
Pairing.v
Handshake.v
ClientSession.v
ClientSessionSpec.v
ClientInbox.v
JsonRoundTrip.v
FileStream.v
FileStreamSpec.v
GoNet.v
Proxy.v
WebSocket.v
HttpLocal.v
Shell.v
ShellSpec.v
ShellOutput.v
Share.v
ShareSpec.v
TcpForward.v
TcpForwardSpec.v
ForwardConn.v
GoHttp.v
Capability.v
Listen.v
ListenSpec.v
GoTime.v
GrantDialog.v
GrantDialogSpec.v
Console.v
ConsoleSpec.v
Signaling.v
GoUrl.v
JsonIndent.v
Devices.v
GoFlag.v
Connect.v
Ice.v
Dial.v
Tmux.v
ShareFlags.v
ShareLife.v
ShareLifeSpec.v
ShareLock.v
ShareRun.v
Identity.v
LinkFile.v
LinkCmd.v
PeerLife.v
PairConnect.v
LocalDNS.v
Mirror.v
HttpRelay.v
WsBridge.v
VideoHelper.v
Serve.v
Display.v
ShareInfo.v
ShellInput.v
