(* ===== verification/Prelude.v ===== *)
(** * A verification library of BitBang

    BitBang connects a connector (a browser or [bitbang connect], [cp], ...) to a listener
    ([bitbang serve], [bitbang share]) over one WebRTC data channel. This development models the
    program's own logic, from the bytes of a frame to the decision who may reach what, as
    executable definitions, and proves what makes each part correct.

    ** The parts of the program and how they meet

    A listener takes the lock of its identity, loads the key and the link table, and registers with
    the signaling server ([startListener], Signaling.v). A connector that holds a URL proves its
    access code and learns that the device holds its key ([dial], [HandleAnswer]); one that holds
    none first pairs by a code read aloud ([pair_step], [handlePairRequestOnOpen]). The listener
    sets up a WebRTC connection for each request (PeerLife.v), queues what the peer sends until its
    session exists (FrameQueue.v), and runs the session: control messages on stream 0 (connect, PIN,
    ready), then a stream per request, with credit-based flow control in both directions. What a
    stream may do was decided when its link was authorized: the link table maps the code to a
    sentence of grants, which is intersected with what the listener offers; the handler set of the
    peer follows ([buildHandlers]), and the allowlist and the shared directory enforce it. The
    handlers carry files, HTTP and WebSockets through a proxy or into the process, shells, TCP
    forwards and video. [bitbang share] runs a worker of its own that hands out a tmux session by
    two credentials.

    ** Files, and the source each corresponds to (under src/)

    Foundations.
    - Prelude.v: records with updates, results, machine-width integers ([wrap], [u16], [u32],
      [u64]), little-endian encodings, closures of step relations, the tactics and hints of the
      development. GoLib.v: the functions of Go's strings, strconv, path/filepath and sort the code
      calls; GoNet.v net and net/textproto, GoUrl.v and GoHttp.v net/url and ServeMux, GoTime.v
      durations and dates, GoFlag.v package flag and the reordering of cmd/bitbang/args.go. Json.v,
      JsonRoundTrip.v, JsonIndent.v: encoding/json. Wire.v: base64 and hex. Sha256.v: crypto/sha256.

    Transport and session.
    - Protocol.v: internal/protocol/swsp.go, with the JSON of its messages. FlowControl.v: the interface between the two ends of a
      flow-controlled stream (classes [FlowSender] and [FlowReceiver], with their laws) and the
      system of two ends over an ordered channel; ServerStream.v (internal/session/flow.go) and
      ClientStream.v (internal/client/session.go) discharge it, FlowPair.v instantiates it both ways.
    - Session.v: internal/session; SessionSpec.v, SessionTrace.v their theorems. Auth.v:
      internal/auth. ClientSession.v, ClientSessionSpec.v, ClientInbox.v: internal/client/session.go.
    - FrameQueue.v: internal/framequeue. PeerSet.v: internal/peerset.

    Who may connect.
    - Links.v, LinkFile.v, LinkState.v: internal/links and cmd/bitbang/serve_links.go, serve_peer.go.
      LinkCmd.v: cmd/bitbang/link.go. Grant.v, GrantRoundTrip.v: internal/grant. Allowlist.v:
      internal/allowlist. GrantDialog.v: cmd/bitbang/grant.go. Identity.v: internal/identity.
    - Pairing.v: internal/pairing and the pairing of internal/peer/connection.go. Handshake.v:
      internal/sdp, internal/peer/verify.go, the payload and the control handshake of internal/client.
      PeerLife.v: internal/peer/connection.go around them. Ice.v: internal/icehelper.
    - Dial.v: internal/client/{client,peer,signaling}.go. PairConnect.v: cmd/bitbang/connect_pair.go.
      Devices.v: cmd/bitbang/devices.go. Connect.v: cmd/bitbang/{connect,cp}.go.
      LocalDNS.v: internal/localdns.

    What a session carries.
    - FileTree.v: a Unix tree with symbolic links, and the os and filepath calls on it. Fileshare.v,
      ShareInfo.v: internal/fileshare. FileStream.v: internal/streamtype/file.go and
      internal/client/fileops.go.
    - Proxy.v, HttpRelay.v: internal/streamtype/http.go. WebSocket.v, WsBridge.v: websocket.go.
      HttpLocal.v: http_local.go. Shell.v, ShellOutput.v, Mirror.v: shell.go. ShellInput.v:
      internal/client/shellops.go. TcpForward.v, ForwardConn.v: internal/tcpforward,
      internal/streamtype/tcp.go, internal/client/tcp.go and internal/bytestream. VideoHelper.v:
      internal/videohelper and internal/session/video.go.
    - Capability.v: cmd/bitbang/{capability,serve_scope,serve_words,http_dispatcher}.go.

    The programs.
    - Serve.v: the start of cmd/bitbang/serve.go with lock_unix.go, program.go and main.go. Listen.v:
      serve_listen.go and serve_pair.go. Signaling.v: internal/signaling. Console.v: console.go,
      console_cmd.go and hold.go. Display.v: serve_display.go.
    - Share.v, ShareRun.v: internal/share/{worker,worker_peer}.go. Tmux.v: internal/share/{tmux,state}.go.
      ShareFlags.v, ShareLife.v: cmd/bitbang/share.go. ShareLock.v: internal/share/lock_unix.go.

    The theorems of a file are below its definitions, or in an XSpec.v beside it where there are many. A Go struct is a record with
    the source's fields; a function with an error is a [result]; a mutex section is one definition,
    and what may happen between two sections is a step of a relation or an event, so the theorems
    quantify over every interleaving. Goroutines are steps of their own; a channel is a list with the
    places it has. Shared objects (streams held by a worker after their ID is reused, peers, releases)
    live in a store and are named by reference. Bytes are ASCII characters of 8 bits; integers of a
    fixed width wrap. What the process does not decide, its clock, random draws, RSA, the WebRTC
    stack, tmux, the operator, sockets and processes, is an argument of the definitions.

    ** What the theorems show

    - The listener's gate (SessionTrace.v): nothing privileged before the PIN, nothing dispatched
      after the session closed and its streams stopped. The stream tables (SessionSpec.v, ClientSessionSpec.v): they name
      exactly the open streams that nobody is about to stop, a stream is failed once, and its reset ends it on the wire; the
      streams of a connector's session stay in the states of the flow-control system. What a connector's caller reads is what arrived for its
      stream, in order (ClientInbox.v).
    - Flow control (FlowPair.v, ServerStream.v): an end that keeps to its credit is never reset,
      credit never deadlocks in either direction, a writer misses no wake-up, frames are delivered in
      order and once, and a stream's memory is bounded whatever the peer sends.
    - Who may connect (LinkState.v, Links.v, ListenSpec.v, Handshake.v, Pairing.v, Dial.v): in
      every state a listener reaches, a code is accepted exactly when it is the code of one unexpired
      row; expiry, removal and the poll revoke, down to running sessions; the device answers only a
      connector that proved itself and the connector speaks only to a device that did; credentials
      follow only the operator's typing of the code of that exchange; honest ends succeed. The runs
      around these are those of the programs: PeerLife.v (a connection is torn down once, whatever
      fails), PairConnect.v and Dial.v (a run ends, and with the handshake of Handshake.v).
    - The tables on the disk (LinkFile.v, LinkCmd.v, Devices.v): a file that is written reads
      back, a table that changed meanwhile is not overwritten, a removed link is gone, a device stays
      remembered under one name.
    - What a session may reach (Allowlist.v, GrantRoundTrip.v, GrantDialogSpec.v, Capability.v,
      Fileshare.v): a parsed restriction covers exactly its entries, a shown grant means what it says,
      what the operator is asked is what is granted, a peer has the handlers of its grants and no
      others, and the files that can be read, listed or written are given exactly.
    - What it carries: downloads and uploads are the file's bytes or say that they are not
      (FileStreamSpec.v); a request through the proxy gets what was read of its answer, and
      leaves the hosts of its session only by a path that spells another (HttpRelay.v, Proxy.v); a response writer implements an HTTP response (HttpLocal.v); messages of
      WebSockets, the input and output of shells and both directions of a forward arrive in order and
      once (WsBridge.v, ShellSpec.v, ShellInput.v, ShellOutput.v, TcpForwardSpec.v, ForwardConn.v); what
      a remote shell writes reaches the listener's terminal without its escape sequences (Mirror.v); a download is saved under
      its own name, and the totals of a directory are exact (ShareInfo.v).
    - The programs: a start touches nothing it does not hold (Serve.v); the console, its prompts and
      the output it holds back (ConsoleSpec.v); registration, retries and preemption
      (Signaling.v); flags may stand anywhere and the run of connect is its parts in order
      (GoFlag.v, Connect.v).
    - Shares (ShareSpec.v, ShareRun.v, Tmux.v, ShareFlags.v, ShareLifeSpec.v, ShareLock.v): one
      peer types at a time, viewers never type, slots are conserved, a worker runs as it was asked to
      and ends for a reason, no command on a share ends one that lives but the one that was asked to (the
      sweep goes by weaker evidence), and two
      commands never work on one target.
    - Before a session (FrameQueue.v, PeerSet.v): the backlog is bounded, ordered and delivered once;
      every accepted peer is reachable, forgotten or drained. Codecs: built messages parse back.

    Where the code falls short of what it means to do, a lemma shows the run. Transport:
    [syn_exhausts_window], [closed_session_dispatches], [drain_gap_strands_frame], [video_before_pin], [ready_hook_repeats],
    [dispatcher_swallows_resets], [download_truncated]. Grants, links and pairing:
    [allowOf_fails_open], [both_quotes_do_not_round_trip], [edit_revives_expired_code],
    [remove_leaves_copied_code], [challenge_failure_is_silent], [refusal_without_prompt],
    [auth_required_is_unbounded], [accepted_grant_closes_table], [accepted_grant_opens_shell],
    [days_wrap], [distant_expiry_listed_negative], [revocation_missed_while_answering],
    [lapsed_pairing_hands_empty_code], [abandoned_pairing_holds_console], [ls_makes_identity],
    [edit_seed_refused], [unreadable_identity_replaced], [open_beats_answer], [rejection_unheard].
    Handlers: [upload_follows_link], [write_through_dangling_link], [write_into_hidden_directory],
    [hidden_share_counts_nothing], [linked_share_counts_the_link], [pathname_escapes_pin],
    [request_escapes_allowlist], [bad_target_panics], [redirect_loop], [strip_follows_last_peer],
    [dynamic_socket_has_no_target], [heuristics_differ], [pinned_entry_not_found],
    [broken_response_completes], [c1_control_passes], [mirrors_mix_within_lines],
    [late_close_unhooks_successor], [open_after_close]. Programs: [displaced_while_starting],
    [answer_runs_as_command], [open_console_output_flows], [first_command_keeps_output],
    [dev_build_is_nagged], [trailing_flag_takes_target], [saved_name_blocks_reconnect],
    [short_form_loses_device_url], [early_error_lost], [candidates_hide_offer],
    [second_channel_panics], [handshake_without_end], [removed_lock_excludes_nobody],
    [sweep_takes_unpublished_share], [unlinked_socket_loses_share].

    ** Bounds and fuel

    Recursion is structural wherever the code's is. Fuel is enough by a theorem, or by what it counts:
    the JSON parser has twice the length of the document plus two (a value and its bracket are each
    consumed at a byte); scans of strings, runes, escapes, durations, versions and QR rows have the
    length of what they read, of which each turn takes one; messages of a WebSocket have one more than
    their length; the walk of a path has 255 links for filepath.EvalSymlinks and 40 for the kernel,
    which is when they give up; the walk of a shared directory has the size of the tree, which no path
    exceeds ([counts_short]); a dialogue has more turns than the operator types lines; the numbering of
    labels has one more than there are labels; flags have as many rounds as arguments; the waits of a
    share have the ticks of the timer that ends them. A dial ends in nine steps and a pairing run in
    twelve once what they wait for stops ([dial_returns], [pair_connect_returns]). The counters of flow
    control wrap at 64 bits; the flow-control system sends below [stream_bound], sixteen exbibytes less
    two windows.

    ** What is assumed

    The hypotheses of the theorems state documented behaviour: what RSA, PEM, DER and time formatting
    write they read back; WebRTC takes one answer per connection and opens channels in order; a
    listing of tmux that lacks a session is proof that it is gone, and a socket that refuses a
    connection has no server; a reader returns no more than it was asked for. Each property
    that has one is applied at a concrete instance.

    ** What is not modelled

    The bodies of WebRTC, ICE and TURN, and what only words them (internal/turnlog,
    internal/client/telemetry.go); the text of pages, help, progress, tables and errors (capbar,
    proxyweb, shellweb, templates of fileshare, most of cmd/bitbang's printing), which decides nothing;
    dialing and TLS, terminal modes and signal channels, and the system calls of other platforms than
    Unix, which are calls of the operating system around what is modelled; the multicast query of
    localdns; the sleeping of WaitDrained; the benchmark program. The tree of a shared directory does
    not change during one request, and the candidates that only reach the WebRTC stack are left out of
    the listener. *)

From Stdlib Require Export ZArith Lia Ascii.
From stdpp Require Export base numbers strings list gmap option sets.

#[global] Set Default Proof Using "Type".
#[export] Unset Program Cases.

(** * Notations of the development *)

Declare Scope go_scope.
Delimit Scope go_scope with go.

(** A Go string or byte slice: the sequence of its bytes. *)
Abbreviation bytes := (list ascii).

(** String literals of the source, as the bytes they stand for. *)
Notation "$ s" := (String.list_ascii_of_string s%string)
  (at level 1, s at level 0, format "$ s") : go_scope.
#[global] Arguments String.list_ascii_of_string _ : simpl never.
Open Scope go_scope.
Open Scope Z_scope.

(** * Results of fallible operations: Go's [(value, error)] pairs *)

Inductive result (E A : Type) : Type :=
| Ok (a : A)
| Err (e : E).
Arguments Ok {E A} a.
Arguments Err {E A} e.

Definition result_bind {E A B} (r : result E A) (f : A -> result E B) : result E B :=
  match r with
  | Ok a => f a
  | Err e => Err e
  end.

Notation "'let!' x ':=' r 'in' k" := (result_bind r (fun x => k))
  (at level 10, x pattern, r at level 100, k at level 200) : go_scope.

Definition is_ok {E A} (r : result E A) : bool :=
  match r with Ok _ => true | Err _ => false end.

Definition from_result {E A} (d : A) (r : result E A) : A :=
  match r with Ok a => a | Err _ => d end.

(** The fold of a fallible function over a list, stopping at the first error. *)
Fixpoint result_map {E A B} (f : A -> result E B) (l : list A) : result E (list B) :=
  match l with
  | [] => Ok []
  | x :: l' => let! y := f x in let! ys := result_map f l' in Ok (y :: ys)
  end.

(** * Record update: [s <| field := v |>]

    A record declares its expansion over its projections once ([Eta]); the setter of a field
    is that expansion with the projection replaced by a constant. *)

Class Eta (R : Type) := eta : R -> R.
Arguments eta R {_} /.

Class Upd {R A : Type} (f : R -> A) := upd : A -> R -> R.
Arguments upd {R A} f {_} _ _ /.

Ltac derive_upd f :=
  match type of f with
  | ?R -> ?A =>
    let e := eval cbv beta delta [eta] in (eta R) in
    let e := match e with ?c => eval unfold c in c | ?c => c end in
    let e := eval pattern f in e in
    match e with
    | ?g _ => let t := eval cbv beta in (fun (v : A) => g (fun _ => v)) in exact t
    end
  end.
#[export] Hint Extern 0 (Upd ?f) => derive_upd f : typeclass_instances.

Notation "s <| f := v |>" := (upd f v s)
  (at level 1, left associativity, f constr at level 0) : go_scope.

(** * Machine integers *)

Definition wrap (w z : Z) : Z := z mod 2 ^ w.
Definition u16 (z : Z) : Z := wrap 16 z.
Definition u32 (z : Z) : Z := wrap 32 z.
Definition u64 (z : Z) : Z := wrap 64 z.

(** * Bytes and little-endian integers *)

Definition byte_of_Z (z : Z) : ascii := ascii_of_N (Z.to_N (z mod 256)).
Definition Z_of_byte (b : ascii) : Z := Z.of_N (N_of_ascii b).

Fixpoint put_le (n : nat) (z : Z) : bytes :=
  match n with
  | O => []
  | S n' => byte_of_Z z :: put_le n' (z / 256)
  end.

Fixpoint get_le (bs : bytes) : Z :=
  match bs with
  | [] => 0
  | b :: bs' => Z_of_byte b + 256 * get_le bs'
  end.

(** Length of a byte sequence as a Go [int]. *)
Definition zlen {A} (l : list A) : Z := Z.of_nat (length l).

(** * Tactics *)

(** Case analysis on the guards of a handler, in order, with the equations kept. *)
Ltac case_step :=
  match goal with
  | |- context [if ?b then _ else _] => destruct b eqn:?
  | |- context [match ?x with _ => _ end] => destruct x eqn:?
  end.
Ltac case_step_in H :=
  match type of H with
  | context [if ?b then _ else _] => destruct b eqn:?
  | context [match ?x with _ => _ end] => destruct x eqn:?
  end.

(** Boolean comparisons of the code as propositions [lia] reads. *)
Ltac bool_to_prop :=
  repeat match goal with
  | H : (_ && _)%bool = true |- _ => apply andb_prop in H as [? ?]
  | H : (_ || _)%bool = false |- _ => apply orb_false_elim in H as [? ?]
  | H : negb _ = true |- _ => apply negb_true_iff in H
  | H : negb _ = false |- _ => apply negb_false_iff in H
  | H : (_ <? _) = true |- _ => apply Z.ltb_lt in H
  | H : (_ <? _) = false |- _ => apply Z.ltb_ge in H
  | H : (_ <=? _) = true |- _ => apply Z.leb_le in H
  | H : (_ <=? _) = false |- _ => apply Z.leb_gt in H
  | H : (_ >? _) = true |- _ => rewrite Z.gtb_ltb in H
  | H : (_ >? _) = false |- _ => rewrite Z.gtb_ltb in H
  | H : (_ >=? _) = true |- _ => rewrite Z.geb_leb in H
  | H : (_ >=? _) = false |- _ => rewrite Z.geb_leb in H
  | H : (_ =? _) = true |- _ => apply Z.eqb_eq in H
  | H : (_ =? _) = false |- _ => apply Z.eqb_neq in H
  | H : bool_decide _ = true |- _ => apply bool_decide_eq_true in H
  | H : bool_decide _ = false |- _ => apply bool_decide_eq_false in H
  end.

(** Introduces [Some x = Some y] as a substitution, leaving [x] as it is written. *)
Ltac intro_some := let E := fresh in intros E; apply (inj Some) in E; subst.

(** [settle b v]: the comparison [b] has the value [v], by arithmetic. *)
Ltac settle b v :=
  replace b with v by
    (symmetry; rewrite ?Z.gtb_ltb, ?Z.geb_leb;
     first [apply Z.ltb_lt | apply Z.ltb_ge | apply Z.leb_le | apply Z.leb_gt
           | apply Z.eqb_eq | apply Z.eqb_neq]; lia).

(** * Generic lemmas *)

Create HintDb go discriminated.
Create Rewrite HintDb go.

Lemma zlen_nonneg {A} (l : list A) : 0 <= zlen l.
Proof. unfold zlen. lia. Qed.

Lemma zlen_nil {A} : zlen (@nil A) = 0.
Proof. reflexivity. Qed.

Lemma zlen_cons {A} (x : A) l : zlen (x :: l) = 1 + zlen l.
Proof. unfold zlen. cbn [length]. lia. Qed.

Lemma zlen_app {A} (l k : list A) : zlen (l ++ k) = zlen l + zlen k.
Proof. unfold zlen. rewrite length_app. lia. Qed.

Lemma wrap_small w z : 0 <= z < 2 ^ w -> wrap w z = z.
Proof. intros H. apply Z.mod_small, H. Qed.

Lemma wrap_range w z : 0 <= w -> 0 <= wrap w z < 2 ^ w.
Proof. intros H. apply Z.mod_pos_bound. lia. Qed.

Lemma u64_small z : 0 <= z < 2 ^ 64 -> u64 z = z.
Proof. apply wrap_small. Qed.

Lemma Z_of_byte_range b : 0 <= Z_of_byte b < 256.
Proof. unfold Z_of_byte. pose proof (N_ascii_bounded b). lia. Qed.

Lemma Z_of_byte_of_Z z : Z_of_byte (byte_of_Z z) = z mod 256.
Proof.
  unfold Z_of_byte, byte_of_Z.
  pose proof (Z.mod_pos_bound z 256 ltac:(lia)).
  rewrite N_ascii_embedding by lia. lia.
Qed.

Lemma byte_of_Z_of_byte b : byte_of_Z (Z_of_byte b) = b.
Proof.
  unfold byte_of_Z. rewrite Z.mod_small by apply Z_of_byte_range.
  unfold Z_of_byte. rewrite N2Z.id. apply ascii_N_embedding.
Qed.

Lemma length_put_le n z : length (put_le n z) = n.
Proof. revert z. induction n as [|n IH]; intros z; cbn; [done|]. by rewrite IH. Qed.

Lemma get_put_le n z : get_le (put_le n z) = z mod 256 ^ Z.of_nat n.
Proof.
  revert z. induction n as [|n IH]; intros z.
  - cbn. by rewrite Z.mod_1_r.
  - cbn [put_le get_le]. rewrite IH, Z_of_byte_of_Z, Nat2Z.inj_succ, Z.pow_succ_r by lia.
    rewrite (Z.rem_mul_r z 256) by (try apply Z.pow_pos_nonneg; lia). lia.
Qed.

Lemma get_le_range bs : 0 <= get_le bs < 256 ^ zlen bs.
Proof.
  induction bs as [|b bs IH]; [done|].
  rewrite zlen_cons, Z.pow_add_r by (pose proof (zlen_nonneg bs); lia).
  cbn [get_le]. pose proof (Z_of_byte_range b). nia.
Qed.

Lemma put_get_le bs : put_le (length bs) (get_le bs) = bs.
Proof.
  induction bs as [|b bs IH]; [done|]. cbn [length put_le get_le].
  pose proof (Z_of_byte_range b). f_equal.
  - rewrite <- (byte_of_Z_of_byte b) at 2. unfold byte_of_Z. do 2 f_equal.
    replace (Z_of_byte b + 256 * get_le bs) with (Z_of_byte b + get_le bs * 256) by lia.
    by rewrite Z.mod_add by lia.
  - replace ((Z_of_byte b + 256 * get_le bs) / 256) with (get_le bs); [done|].
    replace (Z_of_byte b + 256 * get_le bs) with (Z_of_byte b + get_le bs * 256) by lia.
    rewrite Z.div_add by lia. rewrite (Z.div_small (Z_of_byte b)) by lia. lia.
Qed.

Lemma result_map_ok {E A B} (f : A -> result E B) l k :
  result_map f l = Ok k <-> Forall2 (fun x y => f x = Ok y) l k.
Proof.
  revert k. induction l as [|x l IH]; intros k; cbn.
  - split; [intros [= <-]; constructor | intros H; by inv H].
  - unfold result_bind. split.
    + intros H. destruct (f x) eqn:E1; [|done].
      destruct (result_map f l) eqn:E2; [|done]. inv H.
      constructor; [done|]. by apply IH.
    + intros H. inv H. rewrite H2. by apply IH in H4 as ->.
Qed.

Lemma filter_none {A} (P : A -> Prop) `{!forall x, Decision (P x)} l :
  (forall x, x ∈ l -> ~ P x) -> filter P l = [].
Proof.
  induction l as [|x l IH]; intros Hno; [done|]. rewrite filter_cons_False.
  - apply IH. intros y Hy. apply Hno. by right.
  - apply Hno. by left.
Qed.

Lemma length_filter_impl {A} (P Q : A -> Prop) `{!forall x, Decision (P x)} `{!forall x, Decision (Q x)} l :
  (forall x, P x -> Q x) -> (length (filter P l) <= length (filter Q l))%nat.
Proof.
  intros HPQ. induction l as [|x l IH]; [done|]. rewrite !filter_cons.
  destruct (decide (P x)) as [Hp|Hp]; [rewrite decide_True by auto; cbn; lia|].
  destruct (decide (Q x)); cbn; lia.
Qed.

Lemma NoDup_counts {A} `{EqDecision A} (l : list A) :
  (forall x, (length (filter (fun y => y = x) l) <= 1)%nat) -> NoDup l.
Proof.
  induction l as [|x l IH]; intros Hc; [constructor|]. constructor.
  - intros Hin. specialize (Hc x). rewrite filter_cons_True in Hc by done. cbn in Hc.
    assert (x ∈ filter (fun y => y = x) l) as Hf by (by apply list_elem_of_filter).
    destruct (filter (fun y => y = x) l); [by apply elem_of_nil in Hf|]. cbn in Hc. lia.
  - apply IH. intros y. specialize (Hc y). rewrite filter_cons in Hc. destruct (decide (x = y)); cbn in Hc; lia.
Qed.

(** How many elements of a log satisfy a test. *)
Fixpoint count {A} (p : A -> bool) (l : list A) : nat :=
  match l with [] => 0 | x :: l' => (if p x then 1 else 0) + count p l' end.

(** What the log holds after the first element satisfying [p]. *)
Fixpoint after {A} (p : A -> bool) (l : list A) : list A :=
  match l with [] => [] | x :: l' => if p x then l' else after p l' end.

Lemma count_app {A} (p : A -> bool) l k : count p (l ++ k) = (count p l + count p k)%nat.
Proof. induction l as [|x l IH]; cbn; lia. Qed.

Lemma after_snoc {A} (p : A -> bool) l x :
  after p (l ++ [x]) = if decide (count p l = 0)%nat then [] else after p l ++ [x].
Proof.
  induction l as [|y l IH]; cbn; [by destruct (p x)|].
  destruct (p y); cbn; [by rewrite decide_False by lia|]. rewrite IH. done.
Qed.

#[export] Hint Rewrite @zlen_nil @zlen_cons @zlen_app length_put_le : go.
#[export] Hint Resolve zlen_nonneg Z_of_byte_range : go.

(** * Transition systems *)

(** Finite runs of a step relation, used to state invariants of reachable states. *)
Section Runs.
Context {S : Type} (step : S -> S -> Prop).

Inductive steps : S -> S -> Prop :=
| steps_refl s : steps s s
| steps_cons s1 s2 s3 : step s1 s2 -> steps s2 s3 -> steps s1 s3.

Lemma steps_one s1 s2 : step s1 s2 -> steps s1 s2.
Proof. intros H. eapply steps_cons; [exact H | constructor]. Qed.

Lemma steps_trans s1 s2 s3 : steps s1 s2 -> steps s2 s3 -> steps s1 s3.
Proof. induction 1; [done|]. intros. eapply steps_cons; eauto. Qed.

Lemma steps_invariant (I : S -> Prop) :
  (forall s1 s2, I s1 -> step s1 s2 -> I s2) ->
  forall s1 s2, steps s1 s2 -> I s1 -> I s2.
Proof. intros HI s1 s2 H. induction H; eauto. Qed.

(** The same for a function run on a list of events. *)
Lemma foldl_invariant {E} (f : S -> E -> S) (I : S -> Prop) :
  (forall s e, I s -> I (f s e)) -> forall es s, I s -> I (foldl f s es).
Proof. intros HI es. induction es; cbn; eauto. Qed.
End Runs.
#[export] Hint Constructors steps : go.
