(* ===== verification/GoLib.v ===== *)
(** The functions of Go's standard library the code relies on, on byte strings: strings, strconv,
    net.SplitHostPort and path/filepath on a Unix system. Case mapping is that of ASCII. *)

From stdpp Require Import pretty.
From S2P Require Import Prelude.

(** * Characters *)

Definition code (c : ascii) : Z := Z_of_byte c.
Definition chr (z : Z) : ascii := byte_of_Z z.
Definition between (lo hi z : Z) : bool := (lo <=? z) && (z <=? hi).
Definition is_char (z : Z) (c : ascii) : bool := code c =? z.
Definition is_digit (c : ascii) : bool := between 48 57 (code c).
Definition lower (c : ascii) : ascii := if between 65 90 (code c) then chr (code c + 32) else c.

Definition slash : ascii := "/"%char.
Definition colon : ascii := ":"%char.
Definition dot : ascii := "."%char.
Definition comma : ascii := ","%char.

(** * strings *)

Fixpoint HasPrefix (s prefix : bytes) : bool :=
  match prefix, s with
  | [], _ => true
  | p :: ps, c :: cs => bool_decide (p = c) && HasPrefix cs ps
  | _, [] => false
  end.

Definition HasSuffix (s suffix : bytes) : bool := HasPrefix (rev s) (rev suffix).

Definition TrimSuffix (s suffix : bytes) : bytes :=
  if HasSuffix s suffix then take (length s - length suffix) s else s.

Definition TrimPrefix (s prefix : bytes) : bytes :=
  if HasPrefix s prefix then drop (length prefix) s else s.

Fixpoint Contains (s sub : bytes) : bool :=
  HasPrefix s sub || match s with [] => false | _ :: s' => Contains s' sub end.

Definition Count (s : bytes) (c : ascii) : Z := zlen (filter (fun x => x = c) s).

Fixpoint IndexByte (s : bytes) (c : ascii) : option nat :=
  match s with
  | [] => None
  | x :: s' => if decide (x = c) then Some 0%nat else option_map S (IndexByte s' c)
  end.

Fixpoint LastIndexByte (s : bytes) (c : ascii) : option nat :=
  match s with
  | [] => None
  | x :: s' =>
    match LastIndexByte s' c with
    | Some i => Some (S i)
    | None => if decide (x = c) then Some 0%nat else None
    end
  end.

(** [strings.Split] on a one-byte separator. *)
Fixpoint Split (s : bytes) (sep : ascii) : list bytes :=
  match s with
  | [] => [[]]
  | c :: s' =>
    if decide (c = sep) then [] :: Split s' sep
    else match Split s' sep with
         | f :: fs => (c :: f) :: fs
         | [] => [[c]]
         end
  end.

Fixpoint join (sep : bytes) (l : list bytes) : bytes :=
  match l with
  | [] => []
  | [x] => x
  | x :: l' => x ++ sep ++ join sep l'
  end.

Definition ToLower (s : bytes) : bytes := map lower s.

(** The encodings of the code points of [unicode.IsSpace]. *)
Definition spaces : list bytes :=
  map (fun l => map chr l)
    ([[9]; [10]; [11]; [12]; [13]; [32]; [194; 133]; [194; 160]; [225; 154; 128];
      [226; 128; 168]; [226; 128; 169]; [226; 128; 175]; [226; 129; 159]; [227; 128; 128]]
     ++ map (fun z => [226; 128; z]) [128; 129; 130; 131; 132; 133; 134; 135; 136; 137; 138]).

Definition leading_space (s : bytes) : option nat :=
  match filter (fun sp => HasPrefix s sp = true) spaces with sp :: _ => Some (length sp) | [] => None end.
Definition trailing_space (s : bytes) : option nat :=
  match filter (fun sp => HasSuffix s sp = true) spaces with sp :: _ => Some (length sp) | [] => None end.

Fixpoint trim_left_space (fuel : nat) (s : bytes) : bytes :=
  match fuel with
  | O => s
  | S n => match leading_space s with Some k => trim_left_space n (drop k s) | None => s end
  end.
Fixpoint trim_right_space (fuel : nat) (s : bytes) : bytes :=
  match fuel with
  | O => s
  | S n => match trailing_space s with
           | Some k => trim_right_space n (take (length s - k) s)
           | None => s
           end
  end.

Definition TrimSpace (s : bytes) : bytes :=
  trim_right_space (length s) (trim_left_space (length s) s).

(** [strings.Trim] with a cutset of ASCII characters. *)
Fixpoint trim_left (cut : list ascii) (s : bytes) : bytes :=
  match s with
  | c :: s' => if decide (c ∈ cut) then trim_left cut s' else s
  | [] => []
  end.
Definition Trim (s : bytes) (cut : list ascii) : bytes := rev (trim_left cut (rev (trim_left cut s))).

(** * strconv *)

(** The longest prefix of bytes of a class, and the rest. *)
Fixpoint span (f : ascii -> bool) (s : bytes) : bytes * bytes :=
  match s with
  | c :: s' => if f c then let '(a, b) := span f s' in (c :: a, b) else ([], s)
  | [] => ([], [])
  end.

Fixpoint digits_value (acc : Z) (s : bytes) : option Z :=
  match s with
  | [] => Some acc
  | c :: r => if is_digit c then digits_value (acc * 10 + (code c - 48)) r else None
  end.

Definition Atoi (s : bytes) : option Z :=
  let '(neg, r) := match s with
                   | c :: r => if is_char 45 c then (true, r) else if is_char 43 c then (false, r) else (false, s)
                   | [] => (false, []) end in
  match r with
  | [] => None
  | _ => match digits_value 0 r with
         | Some z => let z := if (neg : bool) then - z else z in
                     if between (- 2 ^ 63) (2 ^ 63 - 1) z then Some z else None
         | None => None
         end
  end.

Definition print_Z (z : Z) : bytes := String.list_ascii_of_string (pretty z).
Definition Itoa (z : Z) : bytes := print_Z z.

(** * net.SplitHostPort *)

Inductive addr_error := MissingPort | TooManyColons | MissingBracket | UnexpectedBracket.

Definition SplitHostPort (s : bytes) : result addr_error (bytes * bytes) :=
  match LastIndexByte s colon with
  | None => Err MissingPort
  | Some i =>
    let open := match s with c :: _ => is_char 91 c | [] => false end in
    let parts :=
      if open then
        match IndexByte s "]"%char with
        | None => Err MissingBracket
        | Some e =>
          if (S e =? length s)%nat then Err MissingPort
          else if (S e =? i)%nat then Ok (take (e - 1) (drop 1 s), 1%nat, S e)
          else match s !! S e with
               | Some c => if decide (c = colon) then Err TooManyColons else Err MissingPort
               | None => Err MissingPort
               end
        end
      else
        let host := take i s in
        match IndexByte host colon with
        | Some _ => Err TooManyColons
        | None => Ok (host, 0%nat, 0%nat)
        end in
    let! (host, j, k) := parts in
    match IndexByte (drop j s) "["%char, IndexByte (drop k s) "]"%char with
    | None, None => Ok (host, drop (S i) s)
    | _, _ => Err UnexpectedBracket
    end
  end.

(** [net.JoinHostPort] *)
Definition JoinHostPort (host port : bytes) : bytes :=
  match IndexByte host colon with
  | Some _ => $"[" ++ host ++ $"]:" ++ port
  | None => host ++ $":" ++ port
  end.

(** * path/filepath *)

Definition rooted (path : bytes) : bool := match path with c :: _ => bool_decide (c = slash) | [] => false end.

(** One element pushed on the cleaned elements, the last first. *)
Definition clean_push (root : bool) (acc : list bytes) (e : bytes) : list bytes :=
  if decide (e = [] \/ e = $".") then acc
  else if decide (e = $"..") then
    match acc with
    | [] => if root then [] else [e]
    | x :: acc' => if decide (x = $"..") then e :: acc else acc'
    end
  else e :: acc.

Definition clean_elements (path : bytes) : list bytes :=
  rev (foldl (clean_push (rooted path)) [] (Split path slash)).

Definition Clean (path : bytes) : bytes :=
  match rooted path, clean_elements path with
  | true, es => slash :: join [slash] es
  | false, [] => $"."
  | false, es => join [slash] es
  end.

(** [filepath.Join] of two paths. *)
Definition Join (a b : bytes) : bytes :=
  match a, b with
  | [], [] => []
  | [], _ => Clean b
  | _, [] => Clean a
  | _, _ => Clean (a ++ [slash] ++ b)
  end.

(** [filepath.Abs] in the working directory [cwd]. *)
Definition Abs (cwd path : bytes) : bytes := if rooted path then Clean path else Join cwd path.

(** The elements of a cleaned path. *)
Definition elements (path : bytes) : list bytes :=
  filter (fun e => e <> []) (Split path slash).

Fixpoint strip_common (a b : list bytes) : list bytes * list bytes :=
  match a, b with
  | x :: a', y :: b' => if decide (x = y) then strip_common a' b' else (a, b)
  | _, _ => (a, b)
  end.

(** [filepath.Rel]; [None] is its error. *)
Definition Rel (base targ : bytes) : option bytes :=
  let base := Clean base in
  let targ := Clean targ in
  if decide (targ = base) then Some $"." else
  let base := if decide (base = $".") then [] else base in
  if negb (Bool.eqb (rooted base) (rooted targ)) then None else
  let '(b, t) := strip_common (elements base) (elements targ) in
  match b with
  | e :: _ =>
    if decide (e = $"..") then None
    else Some (join [slash] (map (fun _ => $"..") b ++ t))
  | [] => Some (join [slash] t)
  end.

Definition Dir (path : bytes) : bytes :=
  match LastIndexByte path slash with
  | Some i => Clean (take (S i) path)
  | None => Clean []
  end.

(** [filepath.Base] *)
Definition Base (path : bytes) : bytes :=
  match path with
  | [] => $"."
  | _ =>
    match rev (elements path) with
    | e :: _ => e
    | [] => [slash]
    end
  end.

(** [sort.Strings], and sorting by a boolean order, both stable. *)
Fixpoint bytes_leb (a b : bytes) : bool :=
  match a, b with
  | [], _ => true
  | _ :: _, [] => false
  | x :: a', y :: b' => if code x <? code y then true else if code y <? code x then false else bytes_leb a' b'
  end.

Fixpoint insert_by {A} (le : A -> A -> bool) (x : A) (l : list A) : list A :=
  match l with
  | [] => [x]
  | y :: l' => if le x y then x :: l else y :: insert_by le x l'
  end.

Definition sort_by {A} (le : A -> A -> bool) (l : list A) : list A := foldr (insert_by le) [] l.
Definition sort_strings (l : list bytes) : list bytes := sort_by bytes_leb l.

Lemma insert_by_perm {A} (le : A -> A -> bool) x l : insert_by le x l ≡ₚ x :: l.
Proof. induction l as [|y l IH]; cbn; [done|]. case_step; [done|]. rewrite IH. apply Permutation_swap. Qed.

Lemma sort_by_perm {A} (le : A -> A -> bool) l : sort_by le l ≡ₚ l.
Proof. induction l as [|x l IH]; [done|]. cbn. by rewrite insert_by_perm, IH. Qed.

(** * Indices of bytes *)

Lemma IndexByte_app s c k : c ∉ s -> IndexByte (s ++ c :: k) c = Some (length s).
Proof.
  intros Hs. induction s as [|x s IH]; cbn; [by rewrite decide_True|]. apply not_elem_of_cons in Hs as [Hx Hs].
  rewrite decide_False by congruence. by rewrite IH.
Qed.

Lemma IndexByte_none s c : IndexByte s c = None <-> c ∉ s.
Proof.
  induction s as [|x s IH]; cbn; [split; [intros _; apply not_elem_of_nil|done]|]. rewrite not_elem_of_cons. case_decide.
  - split; [done|]. intros [? _]. congruence.
  - destruct (IndexByte s c); cbn; [split; [done|intros [_ Hn]; by apply IH in Hn]|]. split; [intros _; split; [congruence|by apply IH]|done].
Qed.

Lemma LastIndexByte_none s c : c ∉ s -> LastIndexByte s c = None.
Proof.
  induction s as [|x s IH]; intros Hc; [done|]. cbn. apply not_elem_of_cons in Hc as [Hne Hc]. rewrite IH by done.
  by rewrite ?decide_False by congruence.
Qed.

Lemma LastIndexByte_app s c k : c ∉ k -> LastIndexByte (s ++ c :: k) c = Some (length s).
Proof.
  intros Hk. induction s as [|x s IH]; cbn.
  - rewrite LastIndexByte_none by done. by rewrite decide_True.
  - by rewrite IH.
Qed.

Lemma Count_app s t c : Count (s ++ t) c = Count s c + Count t c.
Proof. unfold Count. by rewrite filter_app, zlen_app. Qed.

Example split_v6 : SplitHostPort $"[::1]:22" = Ok ($"::1", $"22").
Proof. reflexivity. Qed.
Example split_two_colons : SplitHostPort $"a:b:22" = Err TooManyColons.
Proof. reflexivity. Qed.
Example clean_sample : Clean $"/a/./b/../../c//d/" = $"/c/d".
Proof. vm_compute. reflexivity. Qed.
Example clean_relative : Clean $"../x/../../y" = $"../../y".
Proof. vm_compute. reflexivity. Qed.
Example rel_sample : Rel $"/a/b" $"/a/c/d" = Some $"../c/d".
Proof. vm_compute. reflexivity. Qed.
Example trim_sample : TrimSpace ($"  x y" ++ map chr [194; 160]) = $"x y".
Proof. vm_compute. reflexivity. Qed.
Example atoi_sample : Atoi $"-0443" = Some (-443).
Proof. vm_compute. reflexivity. Qed.

(** * Paths as lists of elements *)

Definition no_slash (e : bytes) : Prop := slash ∉ e.
Definition proper (e : bytes) : Prop := no_slash e /\ e <> [] /\ e <> $"." /\ e <> $"..".

Lemma Split_nonempty s c : Split s c <> [].
Proof. destruct s as [|x s]; cbn; [done|]. case_decide; [done|]. by destruct (Split s c). Qed.

Lemma Split_no_sep s c : Forall (fun e => c ∉ e) (Split s c).
Proof.
  induction s as [|x s IH]; cbn; [repeat constructor; apply not_elem_of_nil|].
  case_decide as Hx; [constructor; [apply not_elem_of_nil|done]|].
  destruct (Split s c) as [|f fs]; inv IH; repeat constructor; try done; apply not_elem_of_cons; split; try done.
  apply not_elem_of_nil.
Qed.

Lemma Split_app_sep e s c : c ∉ e -> Split (e ++ c :: s) c = e :: Split s c.
Proof.
  induction e as [|x e IH]; intros He; cbn; [by rewrite decide_True|].
  apply not_elem_of_cons in He as [Hx He]. rewrite decide_False by congruence. by rewrite IH.
Qed.

Lemma Split_whole e c : c ∉ e -> Split e c = [e].
Proof.
  induction e as [|x e IH]; intros He; cbn; [done|].
  apply not_elem_of_cons in He as [Hx He]. rewrite decide_False by congruence. by rewrite IH.
Qed.

Lemma Split_join es c : es <> [] -> Forall (fun e => c ∉ e) es -> Split (join [c] es) c = es.
Proof.
  induction es as [|e es IH]; intros Hne HF; [done|]. inv HF. destruct es as [|e' es].
  - cbn. by apply Split_whole.
  - change (join [c] (e :: e' :: es)) with (e ++ [c] ++ join [c] (e' :: es)). cbn [app].
    rewrite Split_app_sep by done. f_equal. by apply IH.
Qed.

Lemma clean_push_proper acc e :
  no_slash e -> Forall proper acc -> Forall proper (clean_push true acc e).
Proof.
  intros He HF. unfold clean_push. case_decide as H1; [done|]. case_decide as H2.
  - destruct acc as [|x acc]; [done|]. inv HF. case_decide as H5; [|done]. subst x. by destruct H3 as (_&_&_&?).
  - constructor; [|done]. split_and!; tauto.
Qed.

Lemma clean_elements_proper p : rooted p = true -> Forall proper (clean_elements p).
Proof.
  intros Hr. unfold clean_elements. rewrite Hr. apply Forall_rev.
  assert (forall l acc, Forall (fun e => slash ∉ e) l -> Forall proper acc ->
          Forall proper (foldl (clean_push true) acc l)) as H.
  { induction l as [|e l IH]; intros acc Hl Hacc; [done|]. inv Hl. apply IH; [done|].
    by apply clean_push_proper. }
  apply H; [apply Split_no_sep|done].
Qed.

Lemma elements_rooted_join es : Forall proper es -> elements (slash :: join [slash] es) = es.
Proof.
  intros HF. unfold elements. cbn [Split]. rewrite decide_True by done.
  destruct es as [|e es]; [done|]. rewrite Split_join; [|done|].
  2:{ eapply Forall_impl; [exact HF|]. by intros ? [? _]. }
  assert (forall l, Forall proper l -> filter (fun x => x <> []) l = l) as Hfil.
  { induction l as [|x l IH]; [done|]. intros Hl. inv Hl. rewrite filter_cons_True by (by destruct H1 as (_&?&_)).
    by rewrite IH. }
  rewrite filter_cons_False by (by intros []). by apply Hfil.
Qed.

Lemma elements_Clean p : rooted p = true -> elements (Clean p) = clean_elements p.
Proof.
  intros Hr. unfold Clean. rewrite Hr. by apply elements_rooted_join, clean_elements_proper.
Qed.

Lemma rooted_Clean p : rooted p = true -> rooted (Clean p) = true.
Proof. intros Hr. unfold Clean. by rewrite Hr. Qed.

Lemma clean_elements_join es :
  Forall proper es -> clean_elements (slash :: join [slash] es) = es.
Proof.
  intros HF. unfold clean_elements.
  change (rooted (slash :: join [slash] es)) with true. cbn [Split]. rewrite decide_True by done.
  assert (forall l acc, Forall proper l -> foldl (clean_push true) acc l = rev l ++ acc) as H.
  { induction l as [|x l IH]; intros acc Hl; [done|]. inv Hl. cbn [foldl].
    destruct H1 as (_ & Hx0 & Hx1 & Hx2). unfold clean_push at 2.
    rewrite decide_False by tauto. rewrite decide_False by done.
    rewrite IH by done. cbn. by rewrite <- app_assoc. }
  destruct es as [|e es]; [done|]. rewrite Split_join; [|done|].
  2:{ eapply Forall_impl; [exact HF|]. by intros ? [? _]. }
  cbn [foldl]. change (clean_push true [] []) with (@nil bytes).
  change (foldl (clean_push true) (clean_push true [] e) es) with (foldl (clean_push true) [] (e :: es)).
  rewrite H by done. rewrite app_nil_r. apply rev_involutive.
Qed.

Lemma Clean_idempotent p : rooted p = true -> Clean (Clean p) = Clean p.
Proof.
  intros Hr. pose proof (clean_elements_proper p Hr) as Hp.
  unfold Clean at 2 3. rewrite Hr. unfold Clean. cbn [rooted].
  rewrite bool_decide_true by done. by rewrite clean_elements_join.
Qed.

Lemma strip_common_spec a b :
  let '(x, y) := strip_common a b in exists p, a = p ++ x /\ b = p ++ y /\
    (forall u v x' y', x = u :: x' -> y = v :: y' -> u <> v).
Proof.
  revert b. induction a as [|u a IH]; intros [|v b]; cbn; try (exists []; by split_and!).
  case_decide as Huv; [|exists []; split_and!; try done; intros; by simplify_eq].
  specialize (IH b). destruct (strip_common a b) as [x y]. destruct IH as (p & -> & -> & H).
  subst. by exists (v :: p).
Qed.

Lemma strip_common_prefix a b : (strip_common a b).1 = [] <-> a `prefix_of` b.
Proof.
  revert b. induction a as [|u a IH]; intros b.
  - split; [intros _; apply prefix_nil|]. by destruct b.
  - destruct b as [|v b]; cbn; [split; [done|by intros ?%prefix_nil_not]|].
    case_decide as Huv; [|split; [done|by intros ?%prefix_cons_inv_1]].
    subst. rewrite IH. split; [apply prefix_cons|apply prefix_cons_inv_2].
Qed.

(** The part of a path below another: whether the relative path climbs. *)
Definition climbs (rel : bytes) : bool := bool_decide (rel = $"..") || HasPrefix rel $"../".

Lemma HasPrefix_spec s p : HasPrefix s p = true <-> exists k, s = p ++ k.
Proof.
  revert s. induction p as [|c p IH]; intros s.
  - split; [by exists s|by destruct s].
  - destruct s as [|x s]; [split; [done|by intros [? ?]]|].
    change (HasPrefix (x :: s) (c :: p)) with (bool_decide (c = x) && HasPrefix s p).
    rewrite andb_true_iff, bool_decide_eq_true, IH. cbn [app].
    split; [intros [-> [k ->]]; by exists k|intros [k [= -> ->]]; split; [done|by exists k]].
Qed.

Lemma climbs_join e t : no_slash e -> climbs (join [slash] (e :: t)) = true <-> e = $"..".
Proof.
  intros He. unfold climbs. rewrite orb_true_iff, bool_decide_eq_true, HasPrefix_spec. split.
  - assert (forall k, e ++ slash :: k = $".." -> e = $"..") as Hno.
    { intros k Hk. exfalso. assert (slash ∈ $"..") as Hin.
      { rewrite <- Hk. apply elem_of_app. right. by left. }
      vm_compute in Hin. by repeat (apply elem_of_cons in Hin as [?|Hin]; [done|]); apply not_elem_of_nil in Hin. }
    destruct t as [|x t].
    + cbn. intros [->|[k Hk]]; [done|]. exfalso. apply He. rewrite Hk. apply elem_of_app. left.
      vm_compute. do 2 right. by left.
    + change (join [slash] (e :: x :: t)) with (e ++ [slash] ++ join [slash] (x :: t)). cbn [app].
      intros [Hk|[k Hk]]; [by eapply Hno|].
      assert ($"../" = $".." ++ [slash]) as Hd by (vm_compute; done).
      rewrite Hd, <- app_assoc in Hk. cbn [app] in Hk.
      assert (forall (a b : bytes) k1 k2, slash ∉ a -> slash ∉ b -> a ++ slash :: k1 = b ++ slash :: k2 -> a = b) as Hinj.
      { clear. induction a as [|x a IH]; intros [|y b] k1 k2 Ha Hb Heq; simplify_eq/=; [done|..].
        - by apply not_elem_of_cons in Hb as [? _].
        - by apply not_elem_of_cons in Ha as [? _].
        - f_equal. apply not_elem_of_cons in Ha as [_ Ha], Hb as [_ Hb]. by eapply IH. }
      eapply Hinj; [exact He| |exact Hk]. vm_compute. intros Hin.
      by repeat (apply elem_of_cons in Hin as [?|Hin]; [done|]); apply not_elem_of_nil in Hin.
  - intros ->. destruct t as [|x t]; [by left|]. right. exists (join [slash] (x :: t)). reflexivity.
Qed.

(** [filepath.Rel] between two cleaned absolute paths climbs unless the target is below. *)
Lemma Rel_climbs base targ :
  rooted base = true -> rooted targ = true ->
  exists rel, Rel base targ = Some rel /\
    (climbs rel = false <-> elements (Clean base) `prefix_of` elements (Clean targ)).
Proof.
  intros Hb Ht. unfold Rel. destruct (decide (Clean targ = Clean base)) as [Heq|Hne].
  { exists $".". split; [done|]. rewrite Heq. by split. }
  assert (Clean base <> $".") as Hnd.
  { intros Hd. pose proof (rooted_Clean base Hb) as Hr. by rewrite Hd in Hr. }
  rewrite (decide_False (P := Clean base = $".")) by done.
  rewrite !rooted_Clean by done. cbn [Bool.eqb negb].
  rewrite !elements_Clean by done.
  pose proof (clean_elements_proper base Hb) as Pb. pose proof (clean_elements_proper targ Ht) as Pt.
  pose proof (strip_common_prefix (clean_elements base) (clean_elements targ)) as Hp.
  pose proof (strip_common_spec (clean_elements base) (clean_elements targ)) as Hs.
  destruct (strip_common _ _) as [b t]. destruct Hs as (p & Eb & Et & _). cbn [fst] in Hp.
  rewrite Eb in Pb. rewrite Et in Pt. apply Forall_app in Pb as [_ Pb]. apply Forall_app in Pt as [_ Pt].
  destruct b as [|e b].
  - eexists. split; [reflexivity|]. split; [by rewrite <- Hp|]. intros _.
    destruct t as [|x t]; [done|]. inv Pt. destruct H1 as (Hx & _ & _ & Hdd).
    apply not_true_is_false. rewrite climbs_join by done. done.
  - inv Pb. rewrite decide_False by (by destruct H1 as (_&_&_&?)). eexists. split; [reflexivity|].
    rewrite <- Hp. split; [|done]. intros Hc. exfalso.
    cbn [map app] in Hc. assert (climbs (join [slash] ($".." :: map (fun _ => $"..") b ++ t)) = true) as Hc'; [|congruence].
    apply climbs_join; [|done]. unfold no_slash. vm_compute. intros Hin.
    by repeat (apply elem_of_cons in Hin as [?|Hin]; [done|]); apply not_elem_of_nil in Hin.
Qed.

Lemma rooted_Abs cwd p : rooted cwd = true -> rooted (Abs cwd p) = true.
Proof.
  intros Hc. unfold Abs. destruct (rooted p) eqn:E; [by apply rooted_Clean|].
  unfold Join. destruct cwd as [|c cwd]; [done|]. destruct p; by apply rooted_Clean.
Qed.

Lemma Clean_Abs cwd p : rooted cwd = true -> Clean (Abs cwd p) = Abs cwd p.
Proof.
  intros Hc. unfold Abs. destruct (rooted p) eqn:E; [by apply Clean_idempotent|].
  unfold Join. destruct cwd as [|c cwd]; [done|]. destruct p; by apply Clean_idempotent.
Qed.

(** * Trimming *)

Lemma leading_space_None s : leading_space s = None <-> Forall (fun sp => HasPrefix s sp = false) spaces.
Proof.
  unfold leading_space. rewrite Forall_forall. split.
  - intros H sp Hsp. destruct (HasPrefix s sp) eqn:E; [|done].
    assert (sp ∈ filter (fun sp => HasPrefix s sp = true) spaces) as Hin by (by apply list_elem_of_filter).
    destruct (filter _ spaces); [by apply not_elem_of_nil in Hin|done].
  - intros H. destruct (filter _ spaces) as [|sp l] eqn:E; [done|].
    assert (sp ∈ filter (fun sp => HasPrefix s sp = true) spaces) as Hin by (rewrite E; by left).
    apply list_elem_of_filter in Hin as [Hp Hin]. rewrite H in Hp by done. done.
Qed.

Lemma leading_space_Some s k : leading_space s = Some k -> (1 <= k <= length s)%nat.
Proof.
  unfold leading_space. destruct (filter _ spaces) as [|sp l] eqn:E; [done|]. intros [= <-].
  assert (sp ∈ filter (fun sp => HasPrefix s sp = true) spaces) as Hin by (rewrite E; by left).
  apply list_elem_of_filter in Hin as [Hp Hin]. apply HasPrefix_spec in Hp as [r ->].
  rewrite length_app. assert (Forall (fun sp => 1 <= length sp)%nat spaces) as HF by (vm_compute; repeat constructor).
  rewrite Forall_forall in HF. specialize (HF sp Hin). lia.
Qed.

Lemma trailing_leading s : trailing_space s = None <-> Forall (fun sp => HasPrefix (rev s) (rev sp) = false) spaces.
Proof.
  unfold trailing_space, HasSuffix. rewrite Forall_forall. split.
  - intros H sp Hsp. destruct (HasPrefix (rev s) (rev sp)) eqn:E; [|done].
    assert (sp ∈ filter (fun sp => HasPrefix (rev s) (rev sp) = true) spaces) as Hin by (by apply list_elem_of_filter).
    destruct (filter _ spaces); [by apply not_elem_of_nil in Hin|done].
  - intros H. destruct (filter _ spaces) as [|sp l] eqn:E; [done|].
    assert (sp ∈ filter (fun sp => HasPrefix (rev s) (rev sp) = true) spaces) as Hin by (rewrite E; by left).
    apply list_elem_of_filter in Hin as [Hp Hin]. rewrite H in Hp by done. done.
Qed.

Lemma trailing_space_Some s k : trailing_space s = Some k -> (1 <= k <= length s)%nat.
Proof.
  unfold trailing_space, HasSuffix. destruct (filter _ spaces) as [|sp l] eqn:E; [done|]. intros [= <-].
  assert (sp ∈ filter (fun sp => HasPrefix (rev s) (rev sp) = true) spaces) as Hin by (rewrite E; by left).
  apply list_elem_of_filter in Hin as [Hp Hin]. apply HasPrefix_spec in Hp as [r Hr].
  apply (f_equal length) in Hr. rewrite length_app, !length_rev in Hr.
  assert (Forall (fun sp => 1 <= length sp)%nat spaces) as HF by (vm_compute; repeat constructor).
  rewrite Forall_forall in HF. specialize (HF sp Hin). lia.
Qed.

Lemma trim_left_space_done n s : (length s <= n)%nat -> leading_space (trim_left_space n s) = None.
Proof.
  revert s. induction n as [|n IH]; intros s Hn; cbn.
  - destruct s; [|cbn in Hn; lia]. vm_compute. done.
  - destruct (leading_space s) as [k|] eqn:E; [|done]. apply IH. apply leading_space_Some in E.
    rewrite length_drop. lia.
Qed.

Lemma trim_right_space_done n s : (length s <= n)%nat -> trailing_space (trim_right_space n s) = None.
Proof.
  revert s. induction n as [|n IH]; intros s Hn; cbn.
  - destruct s; [|cbn in Hn; lia]. vm_compute. done.
  - destruct (trailing_space s) as [k|] eqn:E; [|done]. apply IH. apply trailing_space_Some in E.
    rewrite length_take. lia.
Qed.

Lemma trim_right_space_prefix n s : exists k, s = trim_right_space n s ++ k.
Proof.
  revert s. induction n as [|n IH]; intros s; cbn; [exists []; by rewrite app_nil_r|].
  destruct (trailing_space s) as [k|]; [|exists []; by rewrite app_nil_r].
  destruct (IH (take (length s - k) s)) as [r Hr]. exists (r ++ drop (length s - k) s).
  by rewrite app_assoc, <- Hr, take_drop.
Qed.

Lemma TrimSpace_idempotent s : TrimSpace (TrimSpace s) = TrimSpace s.
Proof.
  set (l := trim_left_space (length s) s).
  assert (leading_space l = None) as Hl by (by apply trim_left_space_done).
  set (r := trim_right_space (length s) l).
  assert (TrimSpace s = r) as -> by done.
  assert (length l <= length s)%nat as Hlen.
  { subst l. clear. generalize (length s) at 1. intros n. revert s. induction n as [|n IH]; intros s; cbn; [lia|].
    destruct (leading_space s); [|lia]. specialize (IH (drop n0 s)). rewrite length_drop in IH. lia. }
  assert (trailing_space r = None) as Hr by (by apply trim_right_space_done).
  assert (leading_space r = None) as Hr2.
  { apply leading_space_None. apply leading_space_None in Hl. eapply Forall_impl; [exact Hl|].
    cbn. intros sp Hsp. apply not_true_is_false. intros Hp. apply HasPrefix_spec in Hp as [k Hk].
    destruct (trim_right_space_prefix (length s) l) as [k' Hk']. fold r in Hk'.
    assert (HasPrefix l sp = true); [|congruence]. apply HasPrefix_spec.
    exists (k ++ k'). by rewrite Hk', Hk, <- app_assoc. }
  unfold TrimSpace. assert (forall n, trim_left_space n r = r) as ->
    by (intros [|n]; cbn; [done|by rewrite Hr2]).
  destruct (length r) as [|n]; cbn; [done|]. by rewrite Hr.
Qed.
