(* ===== verification/Json.v ===== *)
(** The part of Go's [encoding/json] the protocol relies on: parsing of a document, decoding of
    its members into struct fields of type string, bool, int, uint32, uint64 and []string
    (case-insensitive member names, the last member wins, [null] leaves the field alone, a type
    mismatch is reported but does not stop the decoding), and marshalling. *)

From S2P Require Import Prelude GoLib.

#[local] Set Warnings "-register-all".

Inductive json :=
| JNull
| JBool (b : bool)
| JNumber (literal : bytes)
| JString (s : bytes)
| JArray (l : list json)
| JObject (members : list (bytes * json)).

(** * Characters *)


Definition is_space (c : ascii) : bool :=
  let z := code c in (z =? 32) || (z =? 9) || (z =? 10) || (z =? 13).

(** The value of a hexadecimal digit. *)
Definition hex_digit (c : ascii) : option Z :=
  let z := code c in
  if between 48 57 z then Some (z - 48)
  else if between 97 102 z then Some (z - 87)
  else if between 65 70 z then Some (z - 55)
  else None.

Definition to_hex (z : Z) : ascii := if z <? 10 then chr (48 + z) else chr (87 + z).

Fixpoint skip_space (s : bytes) : bytes :=
  match s with c :: s' => if is_space c then skip_space s' else s | [] => [] end.

(** * UTF-8 *)

(** The bytes of a code point. *)
Definition utf8_encode (r : Z) : bytes :=
  if r <? 128 then [chr r]
  else if r <? 2048 then [chr (192 + r / 64); chr (128 + r mod 64)]
  else if r <? 65536 then [chr (224 + r / 4096); chr (128 + r / 64 mod 64); chr (128 + r mod 64)]
  else [chr (240 + r / 262144); chr (128 + r / 4096 mod 64); chr (128 + r / 64 mod 64);
        chr (128 + r mod 64)].

Definition replacement : bytes := utf8_encode 65533.

Definition is_cont (c : ascii) : bool := between 128 191 (code c).

(** [utf8.DecodeRune]: the number of bytes of the well-formed sequence at the head, or [None]
    for an invalid byte. *)
Definition utf8_size (s : bytes) : option nat :=
  match s with
  | [] => None
  | b0 :: r =>
    let z := code b0 in
    if z <? 128 then Some 1%nat else
    match r with
    | b1 :: r1 =>
      if between 194 223 z then (if is_cont b1 then Some 2%nat else None) else
      let ok1 :=
        if z =? 224 then between 160 191 (code b1)
        else if z =? 237 then between 128 159 (code b1)
        else if z =? 240 then between 144 191 (code b1)
        else if z =? 244 then between 128 143 (code b1)
        else is_cont b1 in
      match r1 with
      | b2 :: r2 =>
        if between 224 239 z then (if ok1 && is_cont b2 then Some 3%nat else None) else
        match r2 with
        | b3 :: _ =>
          if between 240 244 z then (if ok1 && is_cont b2 && is_cont b3 then Some 4%nat else None)
          else None
        | [] => None
        end
      | [] => None
      end
    | [] => None
    end
  end.

(** * Strings *)

(** The four digits of a [\u] escape. *)
Definition hex4 (s : bytes) : option (Z * bytes) :=
  match s with
  | a :: b :: c :: d :: r =>
    match hex_digit a, hex_digit b, hex_digit c, hex_digit d with
    | Some a, Some b, Some c, Some d => Some (a * 4096 + b * 256 + c * 16 + d, r)
    | _, _, _, _ => None
    end
  | _ => None
  end.

Definition simple_escape (c : ascii) : option ascii :=
  match code c with
  | 34 => Some (chr 34) | 92 => Some (chr 92) | 47 => Some (chr 47)
  | 98 => Some (chr 8) | 102 => Some (chr 12) | 110 => Some (chr 10)
  | 114 => Some (chr 13) | 116 => Some (chr 9)
  | _ => None
  end.

(** The rest of a string after its opening quote: its value and what follows the closing quote.
    A lone surrogate and an invalid byte become U+FFFD. *)
Fixpoint parse_string (fuel : nat) (s : bytes) : option (bytes * bytes) :=
  match fuel with
  | O => None
  | S n =>
    match s with
    | [] => None
    | c :: r =>
      if code c =? 34 then Some ([], r)
      else if code c <? 32 then None
      else if code c =? 92 then
        match r with
        | [] => None
        | e :: r' =>
          if code e =? 117 then
            match hex4 r' with
            | None => None
            | Some (u, r2) =>
              if between 55296 57343 u then
                match r2 with
                | b :: e2 :: r3 =>
                  if (code b =? 92) && (code e2 =? 117) then
                    match hex4 r3 with
                    | Some (v, r4) =>
                      if (u <? 56320) && between 56320 57343 v then
                        match parse_string n r4 with
                        | Some (t, k) => Some (utf8_encode (65536 + (u - 55296) * 1024 + (v - 56320)) ++ t, k)
                        | None => None
                        end
                      else match parse_string n r2 with
                           | Some (t, k) => Some (replacement ++ t, k) | None => None end
                    | None => None
                    end
                  else match parse_string n r2 with
                       | Some (t, k) => Some (replacement ++ t, k) | None => None end
                | _ => match parse_string n r2 with
                       | Some (t, k) => Some (replacement ++ t, k) | None => None end
                end
              else match parse_string n r2 with
                   | Some (t, k) => Some (utf8_encode u ++ t, k) | None => None end
            end
          else
            match simple_escape e with
            | None => None
            | Some x => match parse_string n r' with
                        | Some (t, k) => Some (x :: t, k) | None => None end
            end
        end
      else
        match utf8_size s with
        | Some k => match parse_string n (drop k s) with
                    | Some (t, r') => Some (take k s ++ t, r') | None => None end
        | None => match parse_string n r with
                  | Some (t, r') => Some (replacement ++ t, r') | None => None end
        end
    end
  end.

(** * Numbers *)

Fixpoint take_digits (s : bytes) : bytes * bytes :=
  match s with
  | c :: r => if is_digit c then let '(d, k) := take_digits r in (c :: d, k) else ([], s)
  | [] => ([], [])
  end.


(** An optional fraction and an optional exponent after the integer digits. *)
Definition parse_fraction (s : bytes) : option (bytes * bytes) :=
  match s with
  | c :: r =>
    if is_char 46 c then
      match take_digits r with
      | ([], _) => None
      | (d, k) => Some (c :: d, k)
      end
    else Some ([], s)
  | [] => Some ([], [])
  end.

Definition parse_exponent (s : bytes) : option (bytes * bytes) :=
  match s with
  | c :: r =>
    if is_char 101 c || is_char 69 c then
      let '(sign, r1) := match r with
                         | d :: r' => if is_char 43 d || is_char 45 d then ([d], r') else ([], r)
                         | [] => ([], r) end in
      match take_digits r1 with
      | ([], _) => None
      | (d, k) => Some (c :: sign ++ d, k)
      end
    else Some ([], s)
  | [] => Some ([], [])
  end.

Definition parse_number (s : bytes) : option (bytes * bytes) :=
  let '(sign, r) := match s with
                    | c :: r => if is_char 45 c then ([c], r) else ([], s)
                    | [] => ([], s) end in
  let int := match r with
             | c :: r' => if is_char 48 c then ([c], r') else take_digits r
             | [] => ([], r) end in
  match int with
  | ([], _) => None
  | (d, r1) =>
    match parse_fraction r1 with
    | None => None
    | Some (f, r2) =>
      match parse_exponent r2 with
      | None => None
      | Some (e, r3) => Some (sign ++ d ++ f ++ e, r3)
      end
    end
  end.

(** * Documents *)

(** The nesting beyond which the scanner gives up. *)
Definition maxNestingDepth : Z := 10000.

Fixpoint strip (prefix s : bytes) : option bytes :=
  match prefix, s with
  | [], _ => Some s
  | p :: ps, c :: cs => if (code p =? code c) then strip ps cs else None
  | _, [] => None
  end.

(** A value, the rest of an array after one of its elements is due, and the rest of an object.
    Each call consumes a byte or is the only call on its byte, so [2 * length + 2] is enough. *)
Fixpoint parse_value (fuel : nat) (depth : Z) (s : bytes) : option (json * bytes) :=
  match fuel with
  | O => None
  | S n =>
    match skip_space s with
    | [] => None
    | c :: r =>
      if is_char 34 c then
        match parse_string (S (length r)) r with Some (t, k) => Some (JString t, k) | None => None end
      else if is_char 123 c then
        if depth >=? maxNestingDepth then None else
        match skip_space r with
        | d :: r' => if is_char 125 d then Some (JObject [], r')
                     else match parse_members n (depth + 1) r with
                          | Some (ms, k) => Some (JObject ms, k) | None => None end
        | [] => None
        end
      else if is_char 91 c then
        if depth >=? maxNestingDepth then None else
        match skip_space r with
        | d :: r' => if is_char 93 d then Some (JArray [], r')
                     else match parse_elements n (depth + 1) r with
                          | Some (es, k) => Some (JArray es, k) | None => None end
        | [] => None
        end
      else
        match strip $"null" (c :: r), strip $"true" (c :: r), strip $"false" (c :: r) with
        | Some k, _, _ => Some (JNull, k)
        | _, Some k, _ => Some (JBool true, k)
        | _, _, Some k => Some (JBool false, k)
        | _, _, _ => match parse_number (c :: r) with
                     | Some (l, k) => Some (JNumber l, k) | None => None end
        end
    end
  end
with parse_elements (fuel : nat) (depth : Z) (s : bytes) : option (list json * bytes) :=
  match fuel with
  | O => None
  | S n =>
    match parse_value n depth s with
    | None => None
    | Some (v, r) =>
      match skip_space r with
      | c :: r' =>
        if is_char 93 c then Some ([v], r')
        else if is_char 44 c then
          match parse_elements n depth r' with
          | Some (vs, k) => Some (v :: vs, k) | None => None end
        else None
      | [] => None
      end
    end
  end
with parse_members (fuel : nat) (depth : Z) (s : bytes) : option (list (bytes * json) * bytes) :=
  match fuel with
  | O => None
  | S n =>
    match skip_space s with
    | q :: r =>
      if is_char 34 q then
        match parse_string (S (length r)) r with
        | None => None
        | Some (key, r1) =>
          match skip_space r1 with
          | colon :: r2 =>
            if is_char 58 colon then
              match parse_value n depth r2 with
              | None => None
              | Some (v, r3) =>
                match skip_space r3 with
                | c :: r4 =>
                  if is_char 125 c then Some ([(key, v)], r4)
                  else if is_char 44 c then
                    match parse_members n depth r4 with
                    | Some (ms, k) => Some ((key, v) :: ms, k) | None => None end
                  else None
                | [] => None
                end
              end
            else None
          | [] => None
          end
        end
      else None
    | [] => None
    end
  end.

(** [json.Unmarshal] rejects trailing data. *)
Definition parse_json (s : bytes) : option json :=
  match parse_value (2 * length s + 2) 0 s with
  | Some (v, r) => if skip_space r is [] then Some v else None
  | None => None
  end.

(** * Decoding into struct fields *)

(** Folding of a member name: ASCII letters, the Kelvin sign and the long s. *)

Fixpoint fold_name (fuel : nat) (s : bytes) : bytes :=
  match fuel, s with
  | S n, a :: b :: c :: r =>
    if (code a =? 226) && (code b =? 132) && (code c =? 170) then "k"%char :: fold_name n r
    else if (code a =? 197) && (code b =? 191) then "s"%char :: fold_name n (c :: r)
    else lower a :: fold_name n (b :: c :: r)
  | S n, [a; b] => if (code a =? 197) && (code b =? 191) then $"s" else [lower a; lower b]
  | _, _ => map lower s
  end.

Definition names (field key : bytes) : bool :=
  bool_decide (fold_name (length field) field = fold_name (length key) key).

(** A decoder of one field: the new value and whether the types matched. *)
Definition decoder (A : Type) : Type := A -> json -> A * bool.

Definition decode_string : decoder bytes := fun old j =>
  match j with JString s => (s, true) | JNull => (old, true) | _ => (old, false) end.

Definition decode_bool : decoder bool := fun old j =>
  match j with JBool b => (b, true) | JNull => (old, true) | _ => (old, false) end.

(** [strconv.ParseInt(literal, 10, 64)] and [strconv.ParseUint] on a JSON number literal. *)
Definition parse_unsigned (s : bytes) : option Z :=
  match s with [] => None | _ => digits_value 0 s end.
Definition parse_signed (s : bytes) : option Z :=
  match s with
  | c :: r => if is_char 45 c
              then match parse_unsigned r with Some z => Some (- z) | None => None end
              else parse_unsigned s
  | [] => None
  end.

Definition decode_int : decoder Z := fun old j =>
  match j with
  | JNumber l => match parse_signed l with
                 | Some z => if between (- 2 ^ 63) (2 ^ 63 - 1) z then (z, true) else (old, false)
                 | None => (old, false) end
  | JNull => (old, true)
  | _ => (old, false)
  end.

Definition decode_uint (w : Z) : decoder Z := fun old j =>
  match j with
  | JNumber l => match parse_unsigned l with
                 | Some z => if z <? 2 ^ w then (z, true) else (old, false)
                 | None => (old, false) end
  | JNull => (old, true)
  | _ => (old, false)
  end.

(** A [map[string]interface{}]: any object, kept as it is. *)
Definition decode_map : decoder (option (list (bytes * json))) := fun old j =>
  match j with JObject ms => (Some ms, true) | JNull => (None, true) | _ => (old, false) end.

(** Each element is decoded into a zero value; a mismatch leaves that element empty. *)
Definition decode_strings : decoder (list bytes) := fun old j =>
  match j with
  | JArray l => (map (fun x => (decode_string [] x).1) l, forallb (fun x => (decode_string [] x).2) l)
  | JNull => ([], true)
  | _ => (old, false)
  end.

(** The field [name] of a struct, starting from its zero value. *)
Definition field {A} (d : decoder A) (zero : A) (name : bytes) (j : json) : A * bool :=
  match j with
  | JNull => (zero, true)
  | JObject ms =>
    foldl (fun '(v, ok) '(key, x) =>
             if names name key then let '(v', ok') := d v x in (v', ok && ok') else (v, ok))
          (zero, true) ms
  | _ => (zero, false)
  end.

(** * Marshalling *)

Fixpoint escape_string (fuel : nat) (s : bytes) : bytes :=
  match fuel with
  | O => []
  | S n =>
    match s with
    | [] => []
    | c :: r =>
      let z := code c in
      if (z =? 34) || (z =? 92) then chr 92 :: c :: escape_string n r
      else if z =? 8 then chr 92 :: "b"%char :: escape_string n r
      else if z =? 12 then chr 92 :: "f"%char :: escape_string n r
      else if z =? 10 then chr 92 :: "n"%char :: escape_string n r
      else if z =? 13 then chr 92 :: "r"%char :: escape_string n r
      else if z =? 9 then chr 92 :: "t"%char :: escape_string n r
      else if (z <? 32) || (z =? 60) || (z =? 62) || (z =? 38) then
        chr 92 :: "u"%char :: "0"%char :: "0"%char :: to_hex (z / 16) :: to_hex (z mod 16)
          :: escape_string n r
      else
        match utf8_size s with
        | Some k =>
          let q := take k s in
          (if decide (q = utf8_encode 8232) then chr 92 :: $"u2028"
           else if decide (q = utf8_encode 8233) then chr 92 :: $"u2029" else q)
            ++ escape_string n (drop k s)
        | None => chr 92 :: $"ufffd" ++ escape_string n r
        end
    end
  end.

Definition print_string (s : bytes) : bytes :=
  chr 34 :: escape_string (length s) s ++ [chr 34].

Fixpoint print_json (j : json) : bytes :=
  match j with
  | JNull => $"null"
  | JBool true => $"true"
  | JBool false => $"false"
  | JNumber l => l
  | JString s => print_string s
  | JArray l => $"[" ++ join $"," (map print_json l) ++ $"]"
  | JObject ms =>
      $"{" ++ join $"," (map (fun '(k, v) => print_string k ++ $":" ++ print_json v) ms) ++ $"}"
  end.

Definition JInt (z : Z) : json := JNumber (print_Z z).

(** Documents written with single quotes for the double ones. *)
Definition json_text (s : bytes) : bytes := map (fun c => if is_char 39 c then chr 34 else c) s.

Example parse_sample :
  parse_json (json_text $"{ 'k': [1, -2.5e3, 'a\u00e9', true], 'x': {} }") =
  Some (JObject [($"k", JArray [JNumber $"1"; JNumber $"-2.5e3";
                   JString ($"a" ++ utf8_encode 233); JBool true]); ($"x", JObject [])]).
Proof. vm_compute. reflexivity. Qed.

Example print_sample :
  print_json (JObject [($"type", JString $"a<b"); ($"n", JInt 42)]) =
  json_text $"{'type':'a\u003cb','n':42}".
Proof. vm_compute. reflexivity. Qed.

(** * Ranges of decoded numbers *)

Lemma digits_value_nonneg s : forall acc z, 0 <= acc -> digits_value acc s = Some z -> 0 <= z.
Proof.
  induction s as [|c r IH]; intros acc z Ha; cbn; [by intros [= <-]|]. destruct (is_digit c) eqn:Ed; [|done].
  apply IH. unfold is_digit, between in Ed. bool_to_prop. lia.
Qed.

Lemma parse_unsigned_nonneg s z : parse_unsigned s = Some z -> 0 <= z.
Proof. destruct s; [done|]. by apply digits_value_nonneg. Qed.

Lemma decode_uint_range w name j v ok : field (decode_uint w) 0 name j = (v, ok) -> 0 < 2 ^ w -> 0 <= v < 2 ^ w.
Proof.
  intros H Hw. assert (forall ms v0 b, 0 <= v0 < 2 ^ w -> 0 <= (foldl (fun '(v, ok) '(key, x) =>
    if names name key then let '(v', ok') := decode_uint w v x in (v', ok && ok') else (v, ok)) (v0, b) ms).1 < 2 ^ w) as Hf.
  { induction ms as [|[key x] ms IH]; intros v0 b Hv; [done|]. cbn [foldl]. destruct (names name key); [|by apply IH].
    assert (0 <= (decode_uint w v0 x).1 < 2 ^ w) as Hx.
    { unfold decode_uint. destruct x; try done. destruct (parse_unsigned literal) as [z|] eqn:Ep; [|done]. destruct (z <? 2 ^ w) eqn:El; [|done].
      cbn. bool_to_prop. split; [|done]. by apply parse_unsigned_nonneg in Ep. }
    destruct (decode_uint w v0 x) as [v' ok']. by apply IH. }
  unfold field in H. destruct j; try (injection H as <- <-; lia). specialize (Hf members 0 true ltac:(lia)). by rewrite H in Hf.
Qed.
