(* ===== verification/Protocol.v ===== *)
(** The data-channel wire protocol: frame codec, flow-control accounting of a
    frame and version negotiation (internal/protocol/swsp.go). *)

From S2P Require Import Prelude Json.

Definition FlagSYN : Z := 1.
Definition FlagFIN : Z := 4.
Definition FlagDAT : Z := 0.
Definition FlagMORE : Z := 2.
Definition MaxChunkSize : Z := 32768.
Definition HeaderSize : Z := 8.

Definition SWSPVersion : Z := 4.

Definition InitialStreamWindow : Z := Z.shiftl 1 20.
Definition StreamWindowUpdateThreshold : Z := InitialStreamWindow / 2.
Definition MaxQueuedStreamFrames : Z := 256.

(** The role granted to a peer ([Access], a string type with three values). *)
Inductive Access := AccessDefault | AccessControl | AccessView.

#[export] Instance Access_eq_dec : EqDecision Access.
Proof. solve_decision. Defined.

Record WindowUpdate := { wu_StreamID : Z; wu_MaxBytes : Z }.
Record StreamReset := { sr_StreamID : Z; sr_Code : string; sr_Message : string }.

Record Frame := mkFrame { StreamID : Z; Flags : Z; Payload : bytes }.

#[export] Instance Frame_eq_dec : EqDecision Frame.
Proof. solve_decision. Defined.

Inductive frame_error :=
| FrameTooShort (len : Z)
| FrameLengthMismatch (expected got : Z)
| FramePayloadTooLarge (len : Z).

(** [binary.LittleEndian.Uint32(data[0:4])] is [get_le (take 4 data)]. *)
Definition ParseFrame (data : bytes) : result frame_error Frame :=
  if zlen data <? HeaderSize then Err (FrameTooShort (zlen data)) else
  let streamID := get_le (take 4 data) in
  let flags := get_le (take 2 (drop 4 data)) in
  let length := get_le (take 2 (drop 6 data)) in
  if negb (zlen data =? HeaderSize + length)
  then Err (FrameLengthMismatch length (zlen data - HeaderSize)) else
  Ok (mkFrame streamID flags (take (Z.to_nat length) (drop 8 data))).

Definition ValidateFramePayload (payload : bytes) : result frame_error unit :=
  if zlen payload >? MaxChunkSize then Err (FramePayloadTooLarge (zlen payload)) else Ok tt.

(** [PutUint16(buf[6:8], uint16(len(payload)))] keeps the low 16 bits. *)
Definition BuildFrame (streamID flags : Z) (payload : bytes) : bytes :=
  put_le 4 streamID ++ put_le 2 flags ++ put_le 2 (u16 (zlen payload)) ++ payload.

Definition IsSYN (f : Frame) : bool := negb (Z.land (Flags f) FlagSYN =? 0).
Definition IsFIN (f : Frame) : bool := negb (Z.land (Flags f) FlagFIN =? 0).
Definition IsMORE (f : Frame) : bool := negb (Z.land (Flags f) FlagMORE =? 0).

Definition FlowBytes (f : Frame) : Z := if IsSYN f then 0 else zlen (Payload f).

Definition NegotiateSWSPVersion (peerVersion : Z) : Z :=
  if peerVersion <=? 0 then 2
  else if peerVersion >? SWSPVersion then SWSPVersion
  else peerVersion.

(** A frame that fits the wire header. *)
Definition wf_frame (f : Frame) : Prop :=
  0 <= StreamID f < 2 ^ 32 /\ 0 <= Flags f < 2 ^ 16 /\ zlen (Payload f) < 2 ^ 16.

Lemma FlowBytes_range f : 0 <= FlowBytes f <= zlen (Payload f).
Proof. unfold FlowBytes. pose proof (zlen_nonneg (Payload f)). destruct (IsSYN f); lia. Qed.
#[export] Hint Resolve FlowBytes_range : go.

Lemma InitialStreamWindow_eq : InitialStreamWindow = 1048576.
Proof. reflexivity. Qed.
Lemma Threshold_eq : StreamWindowUpdateThreshold = 524288.
Proof. reflexivity. Qed.

(** What [ParseFrame] computes on a header followed by a payload. *)
Lemma ParseFrame_layout streamID flags len payload :
  ParseFrame (put_le 4 streamID ++ put_le 2 flags ++ put_le 2 len ++ payload) =
  if zlen payload =? u16 len
  then Ok (mkFrame (u32 streamID) (u16 flags) payload)
  else Err (FrameLengthMismatch (u16 len) (zlen payload)).
Proof.
  assert (forall n z, zlen (put_le n z) = Z.of_nat n) as Hput
    by (intros; unfold zlen; by rewrite length_put_le).
  unfold ParseFrame. rewrite !zlen_app, !Hput.
  unfold HeaderSize. pose proof (zlen_nonneg payload).
  rewrite (proj2 (Z.ltb_ge _ _)) by lia.
  set (d := put_le 4 streamID ++ _).
  change (take 4 d) with (put_le 4 streamID).
  change (take 2 (drop 4 d)) with (put_le 2 flags).
  change (take 2 (drop 6 d)) with (put_le 2 len).
  change (drop 8 d) with payload.
  rewrite !get_put_le. change (256 ^ Z.of_nat 2) with (2 ^ 16).
  change (256 ^ Z.of_nat 4) with (2 ^ 32).
  fold (wrap 16 len) (wrap 16 flags) (wrap 32 streamID).
  fold (u16 len) (u16 flags) (u32 streamID).
  destruct (zlen payload =? u16 len) eqn:E; bool_to_prop.
  - rewrite (proj2 (Z.eqb_eq _ _)) by lia. cbn [negb]. rewrite <- E.
    unfold zlen. by rewrite Nat2Z.id, firstn_all.
  - rewrite (proj2 (Z.eqb_neq _ _)) by lia. cbn [negb]. do 2 f_equal. lia.
Qed.

(** Every byte sequence of at least eight bytes has that layout. *)
Lemma header_layout data :
  HeaderSize <= zlen data ->
  exists s f l p, length p = (length data - 8)%nat /\
    0 <= s < 2 ^ 32 /\ 0 <= f < 2 ^ 16 /\ 0 <= l < 2 ^ 16 /\
    data = put_le 4 s ++ put_le 2 f ++ put_le 2 l ++ p.
Proof.
  unfold HeaderSize, zlen. intros H.
  destruct data as [|b0 [|b1 [|b2 [|b3 [|b4 [|b5 [|b6 [|b7 p]]]]]]]]; cbn in H; try lia.
  exists (get_le [b0; b1; b2; b3]), (get_le [b4; b5]), (get_le [b6; b7]), p.
  split; [cbn; lia|].
  pose proof (get_le_range [b0; b1; b2; b3]). pose proof (get_le_range [b4; b5]).
  pose proof (get_le_range [b6; b7]).
  do 3 (split; [assumption|]).
  rewrite (put_get_le [b0; b1; b2; b3] : put_le 4 _ = _).
  rewrite (put_get_le [b4; b5] : put_le 2 _ = _).
  by rewrite (put_get_le [b6; b7] : put_le 2 _ = _).
Qed.

Lemma ParseFrame_BuildFrame f :
  0 <= StreamID f < 2 ^ 32 -> 0 <= Flags f < 2 ^ 16 ->
  ParseFrame (BuildFrame (StreamID f) (Flags f) (Payload f)) =
  if zlen (Payload f) <? 2 ^ 16 then Ok f
  else Err (FrameLengthMismatch (u16 (zlen (Payload f))) (zlen (Payload f))).
Proof.
  intros Hs Hf. unfold BuildFrame. rewrite ParseFrame_layout.
  pose proof (zlen_nonneg (Payload f)).
  unfold u32, u16. rewrite (wrap_small 32), (wrap_small 16 (Flags f)) by lia.
  assert (wrap 16 (wrap 16 (zlen (Payload f))) = wrap 16 (zlen (Payload f))) as ->.
  { apply wrap_small, wrap_range. lia. }
  destruct (Z.ltb_spec (zlen (Payload f)) (2 ^ 16)) as [Hl|Hl].
  - rewrite (wrap_small 16), Z.eqb_refl by lia. by destruct f.
  - rewrite (proj2 (Z.eqb_neq _ _)); [done|].
    pose proof (wrap_range 16 (zlen (Payload f)) ltac:(lia)). lia.
Qed.

(** a frame built with [BuildFrame] parses back to itself when its payload fits the
    16-bit length field, and a longer payload is refused by the parser instead of being
    read as a shorter frame. *)
Theorem parse_build_frame f :
  0 <= StreamID f < 2 ^ 32 -> 0 <= Flags f < 2 ^ 16 ->
  ParseFrame (BuildFrame (StreamID f) (Flags f) (Payload f)) =
  if zlen (Payload f) <? 2 ^ 16 then Ok f
  else Err (FrameLengthMismatch (u16 (zlen (Payload f))) (zlen (Payload f))).
Proof. apply ParseFrame_BuildFrame. Qed.

Lemma parse_build_frame_witness :
  ParseFrame (BuildFrame 7 5 $"hello") = Ok (mkFrame 7 5 $"hello").
Proof. exact (parse_build_frame (mkFrame 7 5 $"hello") ltac:(vm_compute; split; congruence)
                ltac:(vm_compute; split; congruence)). Defined.

(** the parser accepts exactly the byte sequences [BuildFrame] produces from well-formed
    frames, so every accepted message has one frame and re-encodes to the same bytes. *)
Theorem parse_frame_canonical data f :
  ParseFrame data = Ok f <->
  wf_frame f /\ data = BuildFrame (StreamID f) (Flags f) (Payload f).
Proof.
  split.
  - intros H. destruct (Z.ltb_spec (zlen data) HeaderSize) as [Hl|Hl].
    { unfold ParseFrame in H. by rewrite (proj2 (Z.ltb_lt _ _) Hl) in H. }
    destruct (header_layout data Hl) as (s & fl & l & p & _ & Hs & Hf & Hle & ->).
    rewrite ParseFrame_layout in H. unfold u16, u32 in H.
    rewrite !wrap_small in H by lia.
    destruct (zlen p =? l) eqn:E; [|done]. injection H as <-. bool_to_prop. subst l.
    unfold wf_frame, BuildFrame. cbn [StreamID Flags Payload].
    split; [lia|]. unfold u16. by rewrite wrap_small by lia.
  - intros [(Hs & Hf & Hp) ->]. rewrite ParseFrame_BuildFrame by assumption.
    by rewrite (proj2 (Z.ltb_lt _ _) Hp).
Qed.

(** The JSON of the flow-control messages on stream 0 (the [WindowUpdate] and [StreamReset] of
    internal/protocol/swsp.go), which the listener and the connector both read and write. *)

Definition omit_empty (name value : bytes) : list (bytes * json) :=
  match value with [] => [] | _ => [(name, JString value)] end.

Definition reset_json (sid : Z) (code message : bytes) : json :=
  JObject ([($"type", JString $"stream_reset"); ($"stream_id", JInt sid)]
           ++ omit_empty $"code" code ++ omit_empty $"message" message).

Definition window_update_json (sid max : Z) : json :=
  JObject [($"type", JString $"window_update"); ($"stream_id", JInt sid); ($"max_bytes", JInt max)].

Definition decode_window_update (j : json) : WindowUpdate * bool :=
  let '(_, ok0) := field decode_string [] $"type" j in
  let '(sid, ok1) := field (decode_uint 32) 0 $"stream_id" j in
  let '(max, ok2) := field (decode_uint 64) 0 $"max_bytes" j in
  ({| wu_StreamID := sid; wu_MaxBytes := max |}, ok0 && ok1 && ok2).
