(* ===== verification/FlowControl.v ===== *)
(** Credit-based flow control of one stream direction, as an interface between the
    sending and the receiving end of a SWSP v4 stream.

    [FlowSender] and [FlowReceiver] state what each end promises the other;
    ServerStream.v and ClientStream.v discharge them for the two implementations.
    [fsys] composes any sender with any receiver over the ordered data channel:
    the data frames in flight one way and the window updates in flight the other. *)

From S2P Require Import Prelude Protocol.

(** The bytes one stream direction may carry before the 64-bit counters of the code
    could wrap: sixteen exbibytes less two windows. *)
Definition stream_bound : Z := 2 ^ 64 - 2 * InitialStreamWindow.

(** What the receiving end does with a frame. *)
Inductive verdict :=
| Accepted          (* queued for the worker *)
| Violation         (* the sender used credit it was not granted *)
| Refused.          (* closed, after FIN, or no room in the queue *)

#[export] Instance verdict_eq_dec : EqDecision verdict.
Proof. solve_decision. Defined.

Class FlowSender (S : Type) := {
  used : S -> Z;                       (* bytes reserved so far *)
  cap : S -> Z;                        (* cumulative limit granted by the peer *)
  try_reserve : S -> Z -> option S;    (* None: the writer would block or fail *)
  raise : S -> Z -> S;                 (* a window update arrived *)
  sinv : S -> Prop;

  reserve_spec s n s' :
    sinv s -> 0 <= n -> used s + n < stream_bound ->
    try_reserve s n = Some s' ->
    sinv s' /\ used s + n <= cap s /\ used s' = used s + n /\ cap s' = cap s;
  reserve_enough s n :
    sinv s -> 0 <= n -> used s + n <= cap s -> is_Some (try_reserve s n);
  raise_spec s m :
    sinv s -> 0 <= m < 2 ^ 64 ->
    sinv (raise s m) /\ used (raise s m) = used s /\ cap (raise s m) = Z.max (cap s) m;
}.

Class FlowReceiver (R : Type) := {
  got : R -> Z;                        (* bytes received so far *)
  limit : R -> Z;                      (* cumulative limit granted to the peer *)
  owed : R -> option Z;                (* a window update computed and not yet sent *)
  arrive : R -> Frame -> R * verdict;
  work : R -> option Z -> R -> Prop;   (* one step of the worker; [Some m] sends an update *)
  other : R -> R -> Prop;              (* a step of another goroutine on the same stream *)
  finished : R -> Prop;                (* this direction is over *)
  rinv : R -> Prop;

  rinv_bounds r : rinv r -> 0 <= got r <= limit r;
  owed_limit r m : rinv r -> owed r = Some m -> m = limit r;
  arrive_accepted r f r' :
    rinv r -> got r + FlowBytes f < stream_bound -> arrive r f = (r', Accepted) ->
    rinv r' /\ got r' = got r + FlowBytes f /\ limit r' = limit r /\ owed r' = owed r /\
    (finished r -> finished r');
  arrive_within r f :
    rinv r -> got r + FlowBytes f <= limit r -> (arrive r f).2 <> Violation;
  work_spec r o r' :
    rinv r -> got r < stream_bound -> work r o r' ->
    rinv r' /\ got r' = got r /\ limit r <= limit r' < 2 ^ 64 /\
    (finished r -> finished r') /\
    match o with
    | Some m => owed r = Some m /\ owed r' = None /\ limit r' = limit r
    | None => (limit r' = limit r /\ owed r' = owed r) \/ owed r' = Some (limit r') \/ finished r'
    end;
  other_spec r r' :
    rinv r -> other r r' ->
    rinv r' /\ got r' = got r /\ limit r' = limit r /\ (finished r -> finished r') /\
    (owed r' = owed r \/ finished r');
  (** A worker with nothing left to do has granted more than half a window. *)
  idle_credit r :
    rinv r -> ~ finished r -> (forall o r', ~ work r o r') ->
    owed r = None /\ got r + (InitialStreamWindow - StreamWindowUpdateThreshold) < limit r;
}.

Section System.
Context {S R : Type} `{!FlowSender S} `{!FlowReceiver R}.

(** One stream direction: both ends, the frames on the wire and the window updates on
    the wire. [rejected] is set when the receiver refuses a frame and resets the stream. *)
Record fsys := mkFsys {
  sender : S;
  receiver : R;
  wire : list Frame;
  updates : list Z;
  rejected : option verdict;
}.

Fixpoint flow_sum (l : list Frame) : Z :=
  match l with [] => 0 | f :: l' => FlowBytes f + flow_sum l' end.

Inductive fstep : fsys -> fsys -> Prop :=
| fs_send s r w u f s' :
    used s + FlowBytes f < stream_bound ->
    try_reserve s (FlowBytes f) = Some s' ->
    fstep (mkFsys s r w u None) (mkFsys s' r (w ++ [f]) u None)
| fs_deliver s r w u f r' v :
    arrive r f = (r', v) ->
    fstep (mkFsys s r (f :: w) u None)
          (mkFsys s r' w u (if decide (v = Accepted) then None else Some v))
| fs_work s r w u o r' :
    work r o r' ->
    fstep (mkFsys s r w u None) (mkFsys s r' w (u ++ option_list o) None)
| fs_other s r w u r' :
    other r r' -> fstep (mkFsys s r w u None) (mkFsys s r' w u None)
| fs_update s r w u m :
    fstep (mkFsys s r w (m :: u) None) (mkFsys (raise s m) r w u None).

Fixpoint best (a : Z) (l : list Z) : Z :=
  match l with [] => a | m :: l' => best (Z.max a m) l' end.

Definition fsys_inv (x : fsys) : Prop :=
  match rejected x with
  | Some v => v <> Violation
  | None =>
    sinv (sender x) /\ rinv (receiver x) /\
    used (sender x) = got (receiver x) + flow_sum (wire x) /\
    used (sender x) < stream_bound /\ used (sender x) <= cap (sender x) /\
    cap (sender x) <= limit (receiver x) /\
    Forall (fun m => 0 <= m <= limit (receiver x) /\ m < 2 ^ 64) (updates x) /\
    (~ finished (receiver x) ->
     limit (receiver x) =
     best (cap (sender x)) (updates x ++ option_list (owed (receiver x))))
  end.

(** The state right after the SYN: both ends hold the initial window and the wire is empty. *)
Definition fsys_start (s : S) (r : R) : fsys := mkFsys s r [] [] None.

Definition opened (s : S) (r : R) : Prop :=
  sinv s /\ rinv r /\ used s = 0 /\ got r = 0 /\ owed r = None /\
  cap s = InitialStreamWindow /\ limit r = InitialStreamWindow.

Lemma flow_sum_app l k : flow_sum (l ++ k) = flow_sum l + flow_sum k.
Proof. induction l as [|f l IH]; cbn; lia. Qed.

Lemma flow_sum_nonneg l : 0 <= flow_sum l.
Proof. induction l as [|f l IH]; cbn; [lia|]. pose proof (FlowBytes_range f). lia. Qed.

Lemma best_ge a l : a <= best a l.
Proof. revert a. induction l as [|x l IH]; intros a; cbn; [lia|]. specialize (IH (Z.max a x)). lia. Qed.

Lemma best_app a l k : best a (l ++ k) = best (best a l) k.
Proof. revert a. induction l as [|x l IH]; intros a; cbn; [done|]. apply IH. Qed.

Lemma best_le a l b : a <= b -> Forall (fun m => m <= b) l -> best a l <= b.
Proof. intros Ha Hl. revert a Ha. induction Hl; intros a Ha; cbn; [done|]. apply IHHl. lia. Qed.

Lemma fsys_start_inv s r : opened s r -> fsys_inv (fsys_start s r).
Proof.
  intros (Hs & Hr & Hu & Hg & Ho & Hc & Hl).
  unfold fsys_inv, fsys_start, stream_bound. cbn. rewrite InitialStreamWindow_eq in *.
  rewrite Hu, Hg, Ho, Hc, Hl. cbn. split_and!; try assumption; try lia. constructor.
Qed.

Lemma fsys_inv_step x y : fsys_inv x -> fstep x y -> fsys_inv y.
Proof.
  intros HI Hstep. destruct Hstep as [s r w u f s' Hb Hres|s r w u f r' v Harr|s r w u o r' Hw|s r w u r' Hoth|s r w u m];
    unfold fsys_inv in HI |- *; cbn in HI |- *;
    destruct HI as (Hs & Hr & Hug & Hub & Huc & Hcl & Hup & Hbest).
  - pose proof (FlowBytes_range f).
    destruct (reserve_spec s (FlowBytes f) s' Hs ltac:(lia) Hb Hres) as (? & ? & Hu' & Hc').
    rewrite flow_sum_app, Hu', Hc'. cbn. split_and!; auto; lia.
  - pose proof (FlowBytes_range f). pose proof (flow_sum_nonneg w).
    destruct (decide (v = Accepted)) as [->|Hv].
    + destruct (arrive_accepted r f r' Hr ltac:(lia) Harr) as (? & Hg & Hl & Ho & Hfin).
      rewrite Hg, Hl, Ho. split_and!; auto; lia.
    + intros ->. pose proof (arrive_within r f Hr ltac:(lia)) as Hn. by rewrite Harr in Hn.
  - pose proof (flow_sum_nonneg w).
    destruct (work_spec r o r' Hr ltac:(lia) Hw) as (Hr' & Hg & [Hl Hl64] & Hfin & Ho).
    rewrite Hg. split_and!; auto; try lia.
    + apply Forall_app. split; [eapply Forall_impl; [exact Hup|]; cbn; lia|].
      destruct o as [m|]; cbn; constructor; [|constructor].
      destruct Ho as (Ho & _ & ->). apply owed_limit in Ho as ->; [|done].
      pose proof (rinv_bounds r Hr). lia.
    + intros Hnf. assert (~ finished r) as Hnf0 by auto.
      specialize (Hbest Hnf0). destruct o as [m|]; cbn [option_list].
      * destruct Ho as (Ho & -> & ->). rewrite Ho in Hbest. cbn in Hbest |- *.
        by rewrite app_nil_r.
      * rewrite app_nil_r. destruct Ho as [[-> ->]|[->|?]]; [done| |done].
        cbn [option_list]. rewrite best_app. cbn.
        assert (best (cap s) u <= limit r); [|lia].
        apply best_le; [lia|]. eapply Forall_impl; [exact Hup|]. cbn; lia.
  - destruct (other_spec r r' Hr Hoth) as (Hr' & -> & -> & Hfin & Ho).
    split_and!; auto. intros Hnf. destruct Ho as [->|?]; [|done]. auto.
  - inv Hup. destruct (raise_spec s m Hs ltac:(lia)) as (? & -> & ->).
    split_and!; auto; lia.
Qed.

Lemma fsys_reachable_inv s r x : opened s r -> steps fstep (fsys_start s r) x -> fsys_inv x.
Proof.
  intros Ho Hs. eapply (steps_invariant fstep fsys_inv); [apply fsys_inv_step|exact Hs|].
  by apply fsys_start_inv.
Qed.

(** A sender that only writes what it reserved is never charged with a violation. *)
Lemma fsys_no_violation s r x :
  opened s r -> steps fstep (fsys_start s r) x -> rejected x <> Some Violation.
Proof.
  intros Ho Hs Hx. pose proof (fsys_reachable_inv s r x Ho Hs) as HI.
  unfold fsys_inv in HI. by rewrite Hx in HI.
Qed.

(** Neither end can be left waiting for the other: when nothing is in flight and the
    worker has nothing to do, a full-size frame can be sent. *)
Lemma fsys_no_deadlock s r x n :
  opened s r -> steps fstep (fsys_start s r) x ->
  rejected x = None -> ~ finished (receiver x) ->
  wire x = [] -> updates x = [] -> (forall o r', ~ work (receiver x) o r') ->
  0 <= n <= MaxChunkSize ->
  is_Some (try_reserve (sender x) n).
Proof.
  intros Ho Hs Hrej Hnf Hw Hu Hidle Hn. pose proof (fsys_reachable_inv s r x Ho Hs) as HI.
  unfold fsys_inv in HI. rewrite Hrej in HI.
  destruct HI as (Hsi & Hri & Hug & _ & _ & _ & _ & Hbest).
  destruct (idle_credit _ Hri Hnf Hidle) as [Howed Hcred].
  specialize (Hbest Hnf). rewrite Hu, Howed in Hbest. cbn in Hbest. rewrite Hw in Hug. cbn in Hug.
  apply reserve_enough; [done|lia|].
  rewrite InitialStreamWindow_eq, Threshold_eq in Hcred. unfold MaxChunkSize in Hn. lia.
Qed.
End System.
Arguments fsys S R : clear implicits.
