(* ===== verification/ServerStream.v ===== *)
(** The listener's per-stream state: ordering, receive bounds and directional flow-control
    counters (internal/session/flow.go). Each definition is one critical section under the
    stream's mutex. [queue] is the buffered channel of capacity [MaxQueuedStreamFrames];
    [wakes] counts how often [sendWake] was closed and replaced, so a writer that read it
    under the lock is woken exactly when it has since grown. *)

From stdpp Require Import pretty.
From S2P Require Import Prelude Protocol FlowControl.

Record streamState := mkStream {
  id : Z;
  handler : string;
  flow : bool;
  queue : list Frame;
  done_closed : bool;
  closed : bool;
  queuedBytes : Z;
  queuedFrames : Z;
  received : Z;
  consumed : Z;
  advertised : Z;
  lastUpdate : Z;
  sent : Z;
  sendMax : Z;
  wakes : nat;
  receiveFIN : bool;
  receiveQueuedFIN : bool;
  sendFIN : bool;
  fragmenting : bool
}.

#[export] Instance eta_streamState : Eta streamState := fun s =>
  mkStream (id s) (handler s) (flow s) (queue s) (done_closed s) (closed s) (queuedBytes s)
    (queuedFrames s) (received s) (consumed s) (advertised s) (lastUpdate s) (sent s) (sendMax s)
    (wakes s) (receiveFIN s) (receiveQueuedFIN s) (sendFIN s) (fragmenting s).

Inductive stream_error :=
| errStreamClosed
| errStreamFinished
| errSessionClosed
| streamReceiveError (code message : string)
| handlerError (message : string)
| sendError (message : string).

#[export] Instance stream_error_eq_dec : EqDecision stream_error.
Proof. solve_decision. Defined.

Definition receiveErrorCode (err : stream_error) : string :=
  match err with
  | streamReceiveError code _ => code
  | _ => "receive_overflow"
  end.

Definition errorMessage (err : stream_error) : string :=
  match err with
  | errStreamClosed => "stream closed"
  | errStreamFinished => "stream direction already finished"
  | errSessionClosed => "session closed"
  | streamReceiveError _ message | handlerError message | sendError message => message
  end.

Definition newStreamState (id : Z) (handler : string) (flow : bool) : streamState :=
  mkStream id handler flow [] false false 0 0 0 0
    (if flow then InitialStreamWindow else 0) 0
    0 (if flow then InitialStreamWindow else 0) 0 false false false false.

Definition enqueue (st : streamState) (frame : Frame) : streamState * option stream_error :=
  let nbytes := zlen (Payload frame) in
  let flowBytes := FlowBytes frame in
  if closed st then (st, Some errStreamClosed) else
  if receiveQueuedFIN st then
    (st, Some (streamReceiveError "protocol_error"
           ("stream " +:+ pretty (id st) +:+ " received data after FIN"))) else
  if flow st && (flowBytes >? 0) &&
     ((received st >? advertised st) || (flowBytes >? u64 (advertised st - received st))) then
    (st, Some (streamReceiveError "flow_control_violation"
           ("stream " +:+ pretty (id st) +:+ " exceeded receive window"))) else
  if (queuedFrames st >=? MaxQueuedStreamFrames) ||
     (nbytes >? InitialStreamWindow - queuedBytes st) then
    (st, Some (streamReceiveError "receive_overflow"
           ("stream " +:+ pretty (id st) +:+ " receive queue is full"))) else
  let st1 := st <| received := u64 (received st + flowBytes) |> in
  let st2 := if IsFIN frame then st1 <| receiveQueuedFIN := true |> else st1 in
  let st3 := st2 <| queuedFrames := queuedFrames st2 + 1 |>
                 <| queuedBytes := queuedBytes st2 + nbytes |> in
  if zlen (queue st3) <? MaxQueuedStreamFrames then
    (st3 <| queue := queue st3 ++ [frame] |>, None)
  else
    let st4 := st3 <| received := u64 (received st3 - flowBytes) |> in
    let st5 := if IsFIN frame then st4 <| receiveQueuedFIN := false |> else st4 in
    (st5 <| queuedFrames := queuedFrames st5 - 1 |>
         <| queuedBytes := queuedBytes st5 - nbytes |>,
     Some (streamReceiveError "receive_overflow" "stream receive queue is full")).

Definition dequeued (st : streamState) (frame : Frame) : streamState :=
  st <| queuedFrames := queuedFrames st - 1 |>
     <| queuedBytes := queuedBytes st - zlen (Payload frame) |>.

Definition isClosed (st : streamState) : bool := closed st.

(** Reports whether this call did the work; the [done] channel is closed once. *)
Definition stopNow (st : streamState) : streamState * bool :=
  if closed st then (st, false)
  else (st <| closed := true |> <| done_closed := true |>, true).

Definition updateSendMax (st : streamState) (max : Z) : streamState :=
  if negb (closed st) && (max >? sendMax st)
  then st <| sendMax := max |> <| wakes := S (wakes st) |>
  else st.

(** One pass of the loop of [reserveSend] up to its blocking select. [Wait g] carries the
    generation of the [sendWake] channel the writer read under the lock. *)
Inductive reserve_outcome :=
| Reserved
| ReserveFailed (err : stream_error)
| Wait (gen : nat).

Definition reserveSend (st : streamState) (nbytes : Z) : streamState * reserve_outcome :=
  if negb (flow st) || (nbytes =? 0) then
    if closed st then (st, ReserveFailed errStreamClosed) else (st, Reserved)
  else if closed st then (st, ReserveFailed errStreamClosed)
  else if (sent st <=? sendMax st) && (nbytes <=? u64 (sendMax st - sent st)) then
    (st <| sent := u64 (sent st + nbytes) |>, Reserved)
  else (st, Wait (wakes st)).

(** The select a waiting writer blocks in: which of its three cases are ready. *)
Definition reserve_ready (st : streamState) (sessionDone : bool) (gen : nat) : bool :=
  (bool_decide (gen < wakes st)%nat) || done_closed st || sessionDone.

(** The stream half of [Session.sendWindowUpdate]: [None] when the stream is closed, else the
    maximum the frame announces. *)
Definition sendWindowUpdate (st : streamState) (max : Z) : streamState * option Z :=
  if closed st then (st, None)
  else (if max >? advertised st then st <| advertised := max |> else st, Some max).

(** [Session.consume]: the counters under the lock; [Some max] when an update is to be sent. *)
Definition consume (st : streamState) (nbytes : Z) : streamState * option Z :=
  if negb (flow st) || (nbytes =? 0) then (st, None)
  else if closed st then (st, None)
  else
    let st1 := st <| consumed := u64 (consumed st + nbytes) |> in
    if u64 (consumed st1 - lastUpdate st1) >=? StreamWindowUpdateThreshold then
      let st2 := st1 <| lastUpdate := consumed st1 |> in
      let st3 := st2 <| advertised := u64 (consumed st2 + InitialStreamWindow) |> in
      let update := advertised st3 in
      (st3, if update =? 0 then None else Some update)
    else (st1, None).

(** * The receiving side as a concurrent object *)

(** Where the stream worker ([Session.runStream]) is: idle, inside the handler, about to send
    a window update it computed, or about to release the frame's queue room. *)
Inductive phase := Processing | Owing (max : Z) | Handled.

Record receiver := mkReceiver { ss : streamState; current : option (Frame * phase) }.

(** One step of the worker while the handler accepts its frames: take a frame, return from the
    handler (charging the frame and computing an update), send the update, release the frame. *)
Inductive worker_step : receiver -> option Z -> receiver -> Prop :=
| ws_take st f q :
    queue st = f :: q -> closed st = false ->
    worker_step (mkReceiver st None) None (mkReceiver (st <| queue := q |>) (Some (f, Processing)))
| ws_handled_syn st f :
    IsSYN f = true ->
    worker_step (mkReceiver st (Some (f, Processing))) None (mkReceiver st (Some (f, Handled)))
| ws_handled st f st' o :
    IsSYN f = false -> consume st (FlowBytes f) = (st', o) ->
    worker_step (mkReceiver st (Some (f, Processing))) None
                (mkReceiver st' (Some (f, if o is Some m then Owing m else Handled)))
| ws_update st f m st' :
    sendWindowUpdate st m = (st', Some m) ->
    worker_step (mkReceiver st (Some (f, Owing m))) (Some m) (mkReceiver st' (Some (f, Handled)))
| ws_release st f :
    worker_step (mkReceiver st (Some (f, Handled))) None (mkReceiver (dequeued st f) None).

(** Steps of the other goroutines, and the worker's own failure exits. *)
Inductive other_step : receiver -> receiver -> Prop :=
| os_stop st c : other_step (mkReceiver st c) (mkReceiver (stopNow st).1 c)
| os_reserve st c n :
    0 <= n -> other_step (mkReceiver st c) (mkReceiver (reserveSend st n).1 c)
| os_sendmax st c m :
    0 <= m < 2 ^ 64 -> other_step (mkReceiver st c) (mkReceiver (updateSendMax st m) c)
| os_flags st c r s g :
    other_step (mkReceiver st c)
      (mkReceiver (st <| receiveFIN := r |> <| sendFIN := s |> <| fragmenting := g |>) c)
| os_handler_failed st f p :
    other_step (mkReceiver st (Some (f, p))) (mkReceiver (stopNow (dequeued st f)).1 None)
| os_take_closed st f q :
    queue st = f :: q -> closed st = true ->
    other_step (mkReceiver st None) (mkReceiver (dequeued (st <| queue := q |>) f) None).

Definition arrive_frame (r : receiver) (f : Frame) : receiver * option stream_error :=
  let (st', err) := enqueue (ss r) f in (mkReceiver st' (current r), err).

(** Any step: a frame arriving from the dispatcher, the worker, or another goroutine. *)
Inductive receiver_step : receiver -> receiver -> Prop :=
| rs_arrive r f : receiver_step r (arrive_frame r f).1
| rs_work r o r' : worker_step r o r' -> receiver_step r r'
| rs_other r r' : other_step r r' -> receiver_step r r'.

Fixpoint byte_sum (l : list Frame) : Z :=
  match l with [] => 0 | f :: l' => zlen (Payload f) + byte_sum l' end.

Definition current_frames (c : option (Frame * phase)) : list Frame :=
  if c is Some (f, _) then [f] else [].

(** Frames in the handler whose bytes are not charged yet. *)
Definition uncharged (c : option (Frame * phase)) : list Frame :=
  if c is Some (f, Processing) then [f] else [].

(** The queue accounts for exactly the frames it holds and the one being handled, within the
    two bounds. *)
Definition queue_inv (r : receiver) : Prop :=
  let held := current_frames (current r) ++ queue (ss r) in
  queuedFrames (ss r) = zlen held /\ queuedBytes (ss r) = byte_sum held /\
  zlen held <= MaxQueuedStreamFrames /\ byte_sum held <= InitialStreamWindow.

(** The flow-control counters of a v4 stream. *)
Definition credit_inv (r : receiver) : Prop :=
  let st := ss r in
  flow st = true /\
  0 <= lastUpdate st <= consumed st /\
  consumed st - lastUpdate st < StreamWindowUpdateThreshold /\
  advertised st = lastUpdate st + InitialStreamWindow /\
  consumed st <= received st <= advertised st /\
  (closed st = false ->
   received st = consumed st + flow_sum (uncharged (current r) ++ queue st)) /\
  (forall f m, current r = Some (f, Owing m) -> m = advertised st).

Lemma byte_sum_app l k : byte_sum (l ++ k) = byte_sum l + byte_sum k.
Proof. induction l as [|f l IH]; cbn; lia. Qed.

Lemma byte_sum_nonneg l : 0 <= byte_sum l.
Proof.
  induction l as [|f l IH]; cbn; [lia|]. pose proof (zlen_nonneg (Payload f)). lia.
Qed.

(** [enqueue], branch by branch, as an equation on the result. *)
Lemma enqueue_cases st f :
  let nb := zlen (Payload f) in let fb := FlowBytes f in
  match enqueue st f with
  | (st', None) =>
      closed st = false /\ receiveQueuedFIN st = false /\
      queuedFrames st < MaxQueuedStreamFrames /\ nb <= InitialStreamWindow - queuedBytes st /\
      zlen (queue st) < MaxQueuedStreamFrames /\
      (flow st = true -> 0 < fb ->
       received st <= advertised st /\ fb <= u64 (advertised st - received st)) /\
      st' = st <| received := u64 (received st + fb) |>
               <| receiveQueuedFIN := IsFIN f |>
               <| queuedFrames := queuedFrames st + 1 |>
               <| queuedBytes := queuedBytes st + nb |>
               <| queue := queue st ++ [f] |>
  | (st', Some err) =>
      (zlen (queue st) < MaxQueuedStreamFrames \/ queuedFrames st >= MaxQueuedStreamFrames -> st' = st) /\
      ((closed st = true /\ err = errStreamClosed) \/
       (closed st = false /\ receiveQueuedFIN st = true /\ receiveErrorCode err = "protocol_error") \/
       (closed st = false /\ receiveQueuedFIN st = false /\ flow st = true /\ 0 < fb /\
        (advertised st < received st \/ u64 (advertised st - received st) < fb) /\
        receiveErrorCode err = "flow_control_violation") \/
       (closed st = false /\ receiveQueuedFIN st = false /\
        receiveErrorCode err = "receive_overflow" /\
        (MaxQueuedStreamFrames <= queuedFrames st \/ InitialStreamWindow - queuedBytes st < nb \/
         MaxQueuedStreamFrames <= zlen (queue st))))
  end.
Proof.
  intros nb fb. unfold enqueue. fold nb fb.
  destruct (closed st) eqn:Ecl; [by split; [|left]|].
  destruct (receiveQueuedFIN st) eqn:Efin; [by split; [|right; left]|].
  destruct (flow st && (fb >? 0) && ((received st >? advertised st) || (fb >? u64 (advertised st - received st)))) eqn:Efl.
  { bool_to_prop. split; [done|]. right; right; left. split_and!; try done.
    apply orb_true_iff in H0 as [?|?]; bool_to_prop; auto. }
  destruct ((queuedFrames st >=? MaxQueuedStreamFrames) || (nb >? InitialStreamWindow - queuedBytes st)) eqn:Eq.
  { split; [done|]. do 3 right. split_and!; try done.
    apply orb_true_iff in Eq as [?|?]; bool_to_prop; auto. }
  bool_to_prop.
  assert (flow st = true -> 0 < fb ->
          received st <= advertised st /\ fb <= u64 (advertised st - received st)) as Hfl.
  { intros Hf Hp. rewrite Hf in Efl. cbn in Efl. destruct (fb >? 0) eqn:E; cbn in Efl;
      bool_to_prop; lia. }
  destruct (IsFIN f) eqn:EFIN; cbn;
    (destruct (Z.ltb_spec (zlen (queue st)) MaxQueuedStreamFrames);
     [split_and!; try done; try lia; destruct st; cbn in *; subst; done
     |split; [lia|]; do 3 right; split_and!; auto]).
Qed.

(** * The queue stays within its bounds *)

(** What the receiving half of the state holds; the sending operations leave it alone. *)
Definition recv_view (st : streamState) :=
  (flow st, queue st, closed st, (queuedBytes st, queuedFrames st),
   (received st, consumed st, advertised st, lastUpdate st)).

Lemma reserveSend_view st n : recv_view (reserveSend st n).1 = recv_view st.
Proof. unfold reserveSend. by repeat case_step. Qed.

Lemma updateSendMax_view st m : recv_view (updateSendMax st m) = recv_view st.
Proof. unfold updateSendMax. by case_step. Qed.

Lemma consume_queue st n :
  let st' := (consume st n).1 in
  queue st' = queue st /\ queuedBytes st' = queuedBytes st /\ queuedFrames st' = queuedFrames st.
Proof. unfold consume. cbn. by repeat case_step. Qed.

Lemma queue_inv_view st st' c :
  recv_view st' = recv_view st -> queue_inv (mkReceiver st c) -> queue_inv (mkReceiver st' c).
Proof. unfold queue_inv, recv_view. cbn. intros [= _ Hq _ Hb Hf _ _ _ _]. by rewrite Hq, Hb, Hf. Qed.

Lemma credit_inv_view st st' c :
  recv_view st' = recv_view st -> credit_inv (mkReceiver st c) -> credit_inv (mkReceiver st' c).
Proof.
  unfold credit_inv, recv_view. cbn. intros [= -> -> -> _ _ -> -> -> ->]. tauto.
Qed.

(** A refused frame leaves the state of the stream as it was. *)
Lemma enqueue_refused r f st' e :
  queue_inv r -> enqueue (ss r) f = (st', Some e) -> st' = ss r.
Proof.
  intros (Hf & _ & _ & _) He. pose proof (enqueue_cases (ss r) f) as HC. cbn in HC. rewrite He in HC.
  destruct HC as [HC _]. apply HC. rewrite zlen_app in Hf.
  pose proof (zlen_nonneg (current_frames (current r))). lia.
Qed.

Lemma queue_inv_enqueue r f : queue_inv r -> queue_inv (arrive_frame r f).1.
Proof.
  intros HI. unfold arrive_frame. destruct (enqueue (ss r) f) as [st' [e|]] eqn:E.
  - apply enqueue_refused in E as ->; [|done]. by destruct r.
  - pose proof (enqueue_cases (ss r) f) as HC. cbn in HC. rewrite E in HC.
    destruct HC as (_ & _ & Hf & Hb & _ & _ & ->). destruct HI as (H1 & H2 & H3 & H4).
    unfold queue_inv. cbn. rewrite app_assoc, zlen_app, byte_sum_app. cbn.
    rewrite zlen_cons, zlen_nil. split_and!; lia.
Qed.

Lemma queue_inv_worker r o r' : queue_inv r -> worker_step r o r' -> queue_inv r'.
Proof.
  intros HI Hw. inv Hw; unfold queue_inv in *; cbn in *.
  - rewrite H in HI. done.
  - done.
  - pose proof (consume_queue st (FlowBytes f)) as HC. rewrite H0 in HC. cbn in HC.
    destruct HC as (-> & -> & ->). done.
  - unfold sendWindowUpdate in H. repeat case_step_in H; inv H; done.
  - rewrite zlen_cons in HI. pose proof (zlen_nonneg (Payload f)). lia.
Qed.

Lemma queue_inv_other r r' : queue_inv r -> other_step r r' -> queue_inv r'.
Proof.
  intros HI Ho. inv Ho.
  - unfold stopNow. by case_step.
  - eapply queue_inv_view; [apply reserveSend_view|done].
  - eapply queue_inv_view; [apply updateSendMax_view|done].
  - done.
  - unfold queue_inv, stopNow, dequeued in *. case_step; cbn in *; rewrite zlen_cons in HI;
      pose proof (zlen_nonneg (Payload f)); lia.
  - unfold queue_inv, dequeued in *. cbn in *. rewrite H in HI. cbn in HI.
    rewrite zlen_cons in HI. pose proof (zlen_nonneg (Payload f)). lia.
Qed.

Lemma queue_inv_step r r' : queue_inv r -> receiver_step r r' -> queue_inv r'.
Proof.
  intros HI Hs. inv Hs; eauto using queue_inv_enqueue, queue_inv_worker, queue_inv_other.
Qed.

Lemma newStreamState_queue id h fl : queue_inv (mkReceiver (newStreamState id h fl) None).
Proof.
  unfold queue_inv. cbn. split_and!; done.
Qed.

(** C39: A stream never holds more than [MaxQueuedStreamFrames] frames or one window of payload
    bytes, in the handler and in the queue together, whatever the peer sends and however the
    dispatcher, the worker and the writers interleave; and a frame the stream refuses leaves its
    state untouched, so the rollback in the [default] branch of [enqueue] never runs. *)
Theorem receive_memory_bounded id h fl r :
  steps receiver_step (mkReceiver (newStreamState id h fl) None) r ->
  let held := current_frames (current r) ++ queue (ss r) in
  zlen held <= MaxQueuedStreamFrames /\ byte_sum held <= InitialStreamWindow /\
  queuedFrames (ss r) = zlen held /\ queuedBytes (ss r) = byte_sum held /\
  forall f e, (enqueue (ss r) f).2 = Some e -> (enqueue (ss r) f).1 = ss r.
Proof.
  intros Hs. assert (queue_inv r) as HI.
  { eapply (steps_invariant receiver_step queue_inv); [apply queue_inv_step|exact Hs|].
    apply newStreamState_queue. }
  pose proof HI as (H1 & H2 & H3 & H4). cbn. split_and!; try done.
  intros f e. destruct (enqueue (ss r) f) as [st' err] eqn:E. cbn. intros ->.
  by eapply enqueue_refused.
Qed.

(** * Frames reach the handler once each and in order *)

(** A run observed from outside: the frames [enqueue] accepted and the frames the worker took. *)
Record observed := mkObserved { obs : receiver; accepted : list Frame; taken : list Frame }.

Inductive observed_step : observed -> observed -> Prop :=
| ob_accept r f r' a t :
    arrive_frame r f = (r', None) ->
    observed_step (mkObserved r a t) (mkObserved r' (a ++ [f]) t)
| ob_refuse r f r' e a t :
    arrive_frame r f = (r', Some e) ->
    observed_step (mkObserved r a t) (mkObserved r' a t)
| ob_work r o r' a t :
    worker_step r o r' ->
    observed_step (mkObserved r a t)
      (mkObserved r' a (t ++ if current r is None then current_frames (current r') else []))
| ob_other r r' a t :
    other_step r r' ->
    observed_step (mkObserved r a t)
      (mkObserved r' a (t ++ take (length (queue (ss r)) - length (queue (ss r'))) (queue (ss r)))).

Definition observed_inv (x : observed) : Prop :=
  queue_inv (obs x) /\ accepted x = taken x ++ queue (ss (obs x)).

Lemma observed_inv_step x y : observed_inv x -> observed_step x y -> observed_inv y.
Proof.
  unfold observed_inv. intros [HI Hacc] Hs. destruct Hs as [r f r' a t E|r f r' e a t E|r o r' a t Hw|r r' a t Ho]; cbn in *.
  - pose proof (queue_inv_enqueue r f HI) as HI'. rewrite E in HI'. split; [done|].
    unfold arrive_frame in E. pose proof (enqueue_cases (ss r) f) as HC. cbn in HC.
    destruct (enqueue (ss r) f) as [st' err]. inv E. destruct HC as (_ & _ & _ & _ & _ & _ & ->).
    cbn. by rewrite app_assoc.
  - unfold arrive_frame in E. destruct (enqueue (ss r) f) as [st' err] eqn:Ee. inv E.
    apply enqueue_refused in Ee as ->; [|done]. by destruct r.
  - split; [by eapply queue_inv_worker|]. rewrite Hacc.
    destruct Hw as [st f q Hq Hcl|st f HS|st f st' o HS Hc|st f m st' Hu|st f]; cbn; rewrite ?app_nil_r; try done.
    + by rewrite <- app_assoc, Hq.
    + pose proof (consume_queue st (FlowBytes f)) as HC. rewrite Hc in HC. cbn in HC. by destruct HC as [-> _].
    + unfold sendWindowUpdate in Hu. repeat case_step_in Hu; by inv Hu.
  - split; [by eapply queue_inv_other|]. rewrite Hacc. rewrite <- app_assoc. f_equal.
    assert (Hv : forall st st', recv_view st' = recv_view st -> queue st' = queue st)
      by (unfold recv_view; congruence).
    destruct Ho as [st c|st c n _|st c m _|st c a' b g|st f p|st f q Hq Hcl]; cbn.
    2: rewrite (Hv _ _ (reserveSend_view st n)). 3: rewrite (Hv _ _ (updateSendMax_view st m)).
    1, 5: unfold stopNow; case_step; cbn.
    all: try by rewrite Nat.sub_diag.
    rewrite Hq. cbn. replace (S (length q) - length q)%nat with 1%nat by lia. done.
Qed.

(** Every frame a stream accepts is taken by its worker at most once and in the order of
    acceptance: at any moment the accepted frames are the taken ones followed by the queue. *)
Theorem frames_in_order id h fl x :
  steps observed_step (mkObserved (mkReceiver (newStreamState id h fl) None) [] []) x ->
  accepted x = taken x ++ queue (ss (obs x)).
Proof.
  intros Hs. eapply (steps_invariant observed_step observed_inv); [apply observed_inv_step|exact Hs|].
  split; [apply newStreamState_queue|done].
Qed.

(** * Credit *)

Definition owing (r : receiver) : option Z :=
  if current r is Some (_, Owing m) then Some m else None.

Definition arrive_verdict (r : receiver) (f : Frame) : receiver * verdict :=
  let (r', err) := arrive_frame r f in
  (r', match err with
       | None => Accepted
       | Some e => if decide (receiveErrorCode e = "flow_control_violation"%string)
                   then Violation else Refused
       end).

Lemma credit_enqueue r f r' :
  credit_inv r -> received (ss r) + FlowBytes f < stream_bound ->
  arrive_frame r f = (r', None) ->
  credit_inv r' /\ received (ss r') = received (ss r) + FlowBytes f /\
  advertised (ss r') = advertised (ss r) /\ current r' = current r /\ closed (ss r) = false.
Proof.
  intros HI Hb. unfold arrive_frame. destruct (enqueue (ss r) f) as [st' err] eqn:E.
  intros [= <- ->]. pose proof (enqueue_cases (ss r) f) as HC. cbn in HC. rewrite E in HC.
  destruct HC as (Hcl & _ & _ & _ & _ & Hw & ->).
  destruct HI as (Hf & Hlu & Hth & Had & Hre & Hsum & Hph). specialize (Hw Hf).
  pose proof (FlowBytes_range f). rewrite Threshold_eq in *. unfold stream_bound in Hb. rewrite InitialStreamWindow_eq in *.
  rewrite (u64_small (advertised (ss r) - received (ss r))) in Hw by lia.
  unfold credit_inv. cbn. rewrite u64_small by lia. rewrite app_assoc, flow_sum_app. cbn.
  split_and!; try done; try lia. intros _. specialize (Hsum Hcl). lia.
Qed.

Lemma credit_worker r o r' :
  credit_inv r -> received (ss r) < stream_bound -> worker_step r o r' ->
  credit_inv r' /\ received (ss r') = received (ss r) /\
  advertised (ss r) <= advertised (ss r') < 2 ^ 64 /\ closed (ss r') = closed (ss r) /\
  match o with
  | Some m => owing r = Some m /\ owing r' = None /\ advertised (ss r') = advertised (ss r)
  | None => (advertised (ss r') = advertised (ss r) /\ owing r' = owing r) \/
            owing r' = Some (advertised (ss r'))
  end.
Proof.
  intros HI Hb Hw. unfold stream_bound in Hb.
  destruct Hw as [st f q Hq Hcl|st f HS|st f st' o HS Hc|st f m st' Hu|st f];
    unfold credit_inv in HI |- *; cbn in HI, Hb |- *;
    destruct HI as (Hf & Hlu & Hth & Had & Hre & Hsum & Hph);
    rewrite Threshold_eq, InitialStreamWindow_eq in *.
  - rewrite Hq in Hsum. split_and!; try done; try lia; auto.
  - unfold FlowBytes in Hsum. rewrite HS in Hsum. split_and!; try done; try lia; auto.
  - unfold consume in Hc. rewrite Hf in Hc. cbn in Hc. pose proof (FlowBytes_range f).
    destruct (FlowBytes f =? 0) eqn:E0; bool_to_prop.
    { inv Hc. cbn. split_and!; try done; try lia; auto. intros Hcl. specialize (Hsum Hcl). lia. }
    destruct (closed st) eqn:Ecl.
    { inv Hc. split_and!; try done; try lia; auto. congruence. }
    specialize (Hsum eq_refl). pose proof (flow_sum_nonneg (queue st)).
    rewrite (u64_small (consumed st + _)) in Hc by lia. cbn in Hc.
    rewrite (u64_small (_ - _)) in Hc by lia.
    destruct (_ >=? _) eqn:Eth in Hc; cbn in Hc; bool_to_prop; rewrite ?Threshold_eq in *.
    + rewrite InitialStreamWindow_eq in Hc. rewrite u64_small in Hc by lia.
      rewrite (proj2 (Z.eqb_neq _ 0)) in Hc by lia. inv Hc. cbn.
      split_and!; try done; try lia; auto. intros f0 m [= -> ->]. done.
    + inv Hc. cbn. split_and!; try done; try lia; auto.
  - unfold sendWindowUpdate in Hu. destruct (closed st) eqn:Ecl; [done|].
    rewrite (Hph f m eq_refl) in *. rewrite Z.gtb_ltb, Z.ltb_irrefl in Hu. inv Hu.
    split_and!; try done; try lia; auto.
  - split_and!; try done; try lia; auto.
Qed.

Lemma credit_other r r' :
  credit_inv r -> other_step r r' ->
  credit_inv r' /\ received (ss r') = received (ss r) /\
  advertised (ss r') = advertised (ss r) /\
  (closed (ss r) = true -> closed (ss r') = true) /\
  (owing r' = owing r \/ closed (ss r') = true).
Proof.
  intros HI Ho. destruct Ho as [st c|st c n _|st c m _|st c a b g|st f p|st f q Hq Hcl].
  - unfold stopNow. destruct (closed st) eqn:E; cbn; [by split_and!; auto|].
    unfold credit_inv in *. cbn in *. split_and!; try tauto; try done.
  - pose proof (reserveSend_view st n) as Hv. split; [by eapply credit_inv_view|].
    unfold recv_view in Hv. cbn. inv Hv. split_and!; auto; congruence.
  - pose proof (updateSendMax_view st m) as Hv. split; [by eapply credit_inv_view|].
    unfold recv_view in Hv. cbn. inv Hv. split_and!; auto; congruence.
  - split_and!; auto.
  - unfold credit_inv, stopNow, dequeued in *. cbn in *.
    destruct (closed st) eqn:E; cbn; rewrite ?E; split_and!; try tauto; try done.
  - unfold credit_inv, dequeued in *. cbn in *. rewrite Hcl in *. split_and!; try tauto; try done.
Qed.

Lemma credit_idle r :
  credit_inv r -> closed (ss r) <> true -> (forall o r', ~ worker_step r o r') ->
  owing r = None /\
  received (ss r) + (InitialStreamWindow - StreamWindowUpdateThreshold) < advertised (ss r).
Proof.
  intros HI Hcl Hidle. apply not_true_is_false in Hcl.
  destruct r as [st [[f [|m|]]|]]; cbn in *.
  - destruct (IsSYN f) eqn:E; [by edestruct Hidle; apply ws_handled_syn|].
    destruct (consume st (FlowBytes f)) as [st' o] eqn:Ec. by edestruct Hidle; eapply ws_handled.
  - edestruct (Hidle (Some m)). eapply ws_update. unfold sendWindowUpdate. by rewrite Hcl.
  - edestruct Hidle. apply ws_release.
  - destruct (queue st) as [|f q] eqn:Eq; [|by edestruct Hidle; eapply ws_take].
    destruct HI as (_ & Hlu & Hth & Had & _ & Hsum & _). cbn in *.
    rewrite Eq in Hsum. specialize (Hsum Hcl). cbn in Hsum. split; [done|].
    rewrite Threshold_eq, InitialStreamWindow_eq in *. lia.
Qed.

#[export] Program Instance receiver_flow : FlowReceiver receiver := {
  got r := received (ss r);
  limit r := advertised (ss r);
  owed := owing;
  arrive := arrive_verdict;
  work := worker_step;
  other := other_step;
  finished r := closed (ss r) = true;
  rinv := credit_inv;
}.
Next Obligation. intros r (_ & ? & _ & ? & ? & _). cbn in *. rewrite InitialStreamWindow_eq in *. lia. Qed.
Next Obligation.
  intros [st [[f [|m'|]]|]] m HI; cbn; intros Hm; inv Hm. eapply HI. reflexivity.
Qed.
Next Obligation.
  intros r f r' HI Hb. unfold arrive_verdict. destruct (arrive_frame r f) as [r1 [e|]] eqn:E; intros H.
  { case_step_in H; done. }
  inv H. destruct (credit_enqueue r f r' HI Hb E) as (? & ? & ? & Hcur & Hcl).
  unfold owing. rewrite Hcur. split_and!; try done. congruence.
Qed.
Next Obligation.
  intros r f HI Hle. unfold arrive_verdict, arrive_frame.
  pose proof (enqueue_cases (ss r) f) as HC. cbn in HC.
  destruct (enqueue (ss r) f) as [st' [e|]]; cbn; [|done].
  case_step; [|done]. intros _. pose proof (FlowBytes_range f).
  destruct HI as (_ & Hlu & _ & Had & Hre & _). cbn in *. rewrite InitialStreamWindow_eq in *.
  destruct HC as [_ [[_ ->]|[(_ & _ & He)|[(_ & _ & _ & Hp & Hw & _)|(_ & _ & He & _)]]]];
    [done|congruence| |congruence].
  destruct Hw as [?|Hw]; [lia|]. unfold u64 in Hw. pose proof (wrap_small 64 (advertised (ss r) - received (ss r))).
  lia.
Qed.
Next Obligation.
  intros r o r' HI Hb Hw. destruct (credit_worker r o r' HI Hb Hw) as (? & ? & ? & Hcl & ?).
  rewrite Hcl. split_and!; try done; try tauto. destruct o; tauto.
Qed.
Next Obligation. intros r r' HI Ho. destruct (credit_other r r' HI Ho) as (? & ? & ? & ? & ?). tauto. Qed.
Next Obligation. intros r HI Hnf Hidle. by apply credit_idle. Qed.

(** * The sending half *)

Definition send_inv (st : streamState) : Prop :=
  flow st = true /\ closed st = false /\ 0 <= sent st <= sendMax st /\ sendMax st < 2 ^ 64.

(** A write of [n] bytes that the loop of [reserveSend] lets through at once. *)
Definition reserved_now (st : streamState) (n : Z) : option streamState :=
  match reserveSend st n with (st', Reserved) => Some st' | _ => None end.

#[export] Program Instance streamState_sender : FlowSender streamState := {
  used := sent; cap := sendMax; try_reserve := reserved_now;
  raise := updateSendMax; sinv := send_inv
}.
Next Obligation.
  intros st n st' (Hf & Hcl & Hs & Hm) Hn Hb. unfold reserved_now, reserveSend, stream_bound in *.
  rewrite Hf, Hcl, InitialStreamWindow_eq in *. cbn.
  destruct (n =? 0) eqn:E0; bool_to_prop.
  { intros [= <-]. subst n. unfold send_inv. split_and!; auto; lia. }
  rewrite (u64_small (sendMax st - sent st)) by lia. case_step; intros H; inv H. bool_to_prop.
  unfold send_inv. cbn. rewrite u64_small by lia. split_and!; auto; lia.
Qed.
Next Obligation.
  intros st n (Hf & Hcl & Hs & Hm) Hn Hle. unfold reserved_now, reserveSend.
  rewrite Hf, Hcl. cbn. destruct (n =? 0); [by eexists|].
  rewrite (u64_small (sendMax st - sent st)) by lia.
  rewrite (proj2 (Z.leb_le (sent st) (sendMax st))) by lia.
  rewrite (proj2 (Z.leb_le n _)) by lia. by eexists.
Qed.
Next Obligation.
  intros st m (Hf & Hcl & Hs & Hm) Hb. unfold updateSendMax, send_inv. rewrite Hcl. cbn.
  destruct (m >? sendMax st) eqn:E; bool_to_prop; cbn; split_and!; auto; lia.
Qed.

Lemma newStreamState_receiver id h :
  let r := mkReceiver (newStreamState id h true) None in queue_inv r /\ credit_inv r.
Proof.
  cbn. unfold queue_inv, credit_inv. cbn. unfold zlen. cbn. rewrite InitialStreamWindow_eq, Threshold_eq.
  split_and!; try done; lia.
Qed.

Lemma newStreamState_sender id h : send_inv (newStreamState id h true).
Proof. unfold send_inv. cbn. rewrite InitialStreamWindow_eq. split_and!; done || lia. Qed.

(** * Blocked writers *)

(** What the waiting writer relies on: the limit never falls, and it never rises without the
    wake channel being replaced; bytes once reserved stay reserved. *)
Definition wait_progress (a b : streamState) : Prop :=
  flow b = flow a /\ sent a <= sent b /\ (wakes a <= wakes b)%nat /\
  (wakes a = wakes b -> sendMax b = sendMax a) /\ (closed b = true -> done_closed b = true).

Definition writer_inv (st : streamState) : Prop :=
  flow st = true /\ 0 <= sent st <= sendMax st /\ sendMax st < 2 ^ 64 /\
  (closed st = true -> done_closed st = true).

Definition send_view (st : streamState) :=
  (flow st, closed st, done_closed st, (sent st, sendMax st, wakes st)).

Lemma writer_same a b :
  send_view b = send_view a -> writer_inv a -> writer_inv b /\ wait_progress a b.
Proof.
  unfold send_view, writer_inv, wait_progress. intros [= -> -> -> -> -> ->] (? & ? & ? & ?).
  split_and!; try done; lia.
Qed.

Lemma wait_progress_trans a b c : wait_progress a b -> wait_progress b c -> wait_progress a c.
Proof.
  unfold wait_progress. intros (Hf & Hs & Hw & Hm & Hd) (Hf' & Hs' & Hw' & Hm' & Hd').
  split_and!; try lia; try congruence; try done.
Qed.

Lemma writer_step r r' :
  writer_inv (ss r) -> receiver_step r r' -> writer_inv (ss r') /\ wait_progress (ss r) (ss r').
Proof.
  intros HI Hs. destruct Hs as [r f|r o r' Hw|r r' Ho].
  - apply writer_same; [|done]. unfold arrive_frame, enqueue. repeat case_step; simpl in *; by simplify_eq/=.
  - apply writer_same; [|done].
    destruct Hw as [st f q Hq Hcl|st f HS|st f st' o HS Hc|st f m st' Hu|st f]; try done.
    + unfold consume in Hc. repeat case_step_in Hc; by inv Hc.
    + unfold sendWindowUpdate in Hu. repeat case_step_in Hu; by inv Hu.
  - assert (Hstop : forall st, writer_inv st -> writer_inv (stopNow st).1 /\ wait_progress st (stopNow st).1).
    { intros st (? & ? & ? & ?). unfold stopNow, writer_inv, wait_progress.
      destruct (closed st) eqn:E; cbn; rewrite ?E; split_and!; try done; lia. }
    destruct Ho as [st c|st c n Hn|st c m Hm|st c a b g|st f p|st f q Hq Hcl]; cbn in *; auto.
    + pose proof HI as (Hf & Hs & Hm & Hd). unfold reserveSend. rewrite Hf. cbn.
      repeat case_step; cbn; try by apply writer_same.
      bool_to_prop. rewrite !u64_small in * by lia.
      unfold writer_inv, wait_progress. cbn. split_and!; try done; lia.
    + pose proof HI as (Hf & Hs & Hmx & Hd). unfold updateSendMax.
      case_step; [|by apply writer_same]. bool_to_prop.
      unfold writer_inv, wait_progress. cbn. split_and!; try done; lia.
    + by apply writer_same.
    + apply (Hstop (dequeued st f)). done.
    + by apply writer_same.
Qed.

(** No wake-up is lost: a writer that found too little credit and read the wake channel under
    the lock is woken by every later state in which its reservation would no longer wait, because
    credit arrived or the stream closed, whatever ran in between. *)
Theorem no_lost_wakeup r n g r' :
  writer_inv (ss r) -> 0 < n -> (reserveSend (ss r) n).2 = Wait g ->
  steps receiver_step r r' ->
  reserve_ready (ss r') false g = true \/ (reserveSend (ss r') n).2 = Wait g.
Proof.
  intros HI Hn Hw Hs.
  assert (writer_inv (ss r') /\ wait_progress (ss r) (ss r')) as [HI' (Hf & Hse & Hwk & Hmx & Hd)].
  { clear Hw. induction Hs as [r|r1 r2 r3 H12 H23 IH]; [by apply writer_same|].
    destruct (writer_step _ _ HI H12) as [HI2 P2]. destruct (IH HI2) as [HI3 P3].
    split; [done|]. by eapply wait_progress_trans. }
  unfold reserve_ready. unfold reserveSend in *.
  destruct HI as (Hf0 & Hs0 & Hm0 & _). destruct HI' as (Hf1 & Hs1 & Hm1 & _).
  rewrite Hf0 in Hw. rewrite Hf1. cbn in *.
  rewrite (proj2 (Z.eqb_neq n 0)) in * by lia.
  destruct (closed (ss r)) eqn:Ec; [done|].
  rewrite (u64_small (sendMax (ss r) - _)) in Hw by lia.
  destruct ((sent (ss r) <=? _) && _) eqn:E in Hw; cbn in Hw; [done|]. injection Hw as <-.
  destruct (closed (ss r')) eqn:Ec'.
  { left. rewrite Hd by done. by rewrite orb_true_r. }
  destruct (decide (wakes (ss r) = wakes (ss r'))) as [Heq|Hne].
  - right. rewrite (u64_small (sendMax (ss r') - _)) by lia. rewrite Hmx in * by done.
    apply andb_false_iff in E as [E|E]; bool_to_prop; [lia|].
    rewrite (proj2 (Z.leb_gt n _)) by lia. rewrite andb_false_r. cbn. by rewrite Heq.
  - left. rewrite bool_decide_true by lia. done.
Qed.

(** * What the credit does not cover *)

Lemma enqueue_accepts st f :
  closed st = false -> receiveQueuedFIN st = false -> IsFIN f = false ->
  received st <= advertised st -> FlowBytes f <= u64 (advertised st - received st) ->
  queuedFrames st < MaxQueuedStreamFrames ->
  zlen (Payload f) <= InitialStreamWindow - queuedBytes st ->
  zlen (queue st) < MaxQueuedStreamFrames ->
  enqueue st f = (st <| received := u64 (received st + FlowBytes f) |>
                     <| queuedFrames := queuedFrames st + 1 |>
                     <| queuedBytes := queuedBytes st + zlen (Payload f) |>
                     <| queue := queue st ++ [f] |>, None).
Proof.
  intros Hc Hq HF Hr Hw Hn Hb Hl. unfold enqueue. rewrite Hc, Hq, HF.
  settle (received st >? advertised st) false.
  settle (FlowBytes f >? u64 (advertised st - received st)) false. rewrite andb_false_r.
  settle (queuedFrames st >=? MaxQueuedStreamFrames) false.
  settle (zlen (Payload f) >? InitialStreamWindow - queuedBytes st) false. cbn.
  by settle (zlen (queue st) <? MaxQueuedStreamFrames) true.
Qed.

(** Data frames queued behind a SYN the worker has not taken yet. *)
Lemma enqueue_behind_syn ds : forall st,
  closed st = false -> receiveQueuedFIN st = false -> queuedFrames st = zlen (queue st) ->
  advertised st = InitialStreamWindow ->
  0 <= received st -> received st + byte_sum ds <= InitialStreamWindow ->
  0 <= queuedBytes st -> queuedBytes st + byte_sum ds <= InitialStreamWindow ->
  zlen (queue st) + zlen ds <= MaxQueuedStreamFrames ->
  Forall (fun d => IsSYN d = false /\ IsFIN d = false) ds ->
  let st' := foldl (fun s d => (enqueue s d).1) st ds in
  closed st' = false /\ receiveQueuedFIN st' = false /\ advertised st' = advertised st /\
  flow st' = flow st /\ received st' = received st + byte_sum ds /\
  queuedBytes st' = queuedBytes st + byte_sum ds.
Proof.
  induction ds as [|d ds IH]; intros st Hc Hq Hf Ha Hr0 Hr Hb0 Hb Hl Hds; cbn in *.
  { split_and!; auto; lia. }
  apply Forall_cons in Hds as [[HS HF] Hds]. rewrite zlen_cons in Hl.
  pose proof (zlen_nonneg ds). pose proof (zlen_nonneg (Payload d)). pose proof (byte_sum_nonneg ds).
  assert (FlowBytes d = zlen (Payload d)) as Hfb by (unfold FlowBytes; by rewrite HS).
  rewrite InitialStreamWindow_eq in *.
  rewrite enqueue_accepts; rewrite ?Ha, ?Hfb, ?InitialStreamWindow_eq, ?u64_small; auto; try lia.
  destruct (IH (st <| received := u64 (received st + zlen (Payload d)) |>
                   <| queuedFrames := queuedFrames st + 1 |>
                   <| queuedBytes := queuedBytes st + zlen (Payload d) |>
                   <| queue := queue st ++ [d] |>)) as (E1 & E2 & E3 & E4 & E5 & E6);
    cbn; rewrite ?u64_small, ?zlen_app, ?zlen_cons, ?zlen_nil by lia; try done; try lia.
  cbn in *. rewrite !u64_small in * by lia. split_and!; auto; lia.
Qed.

(** The credit does not cover the SYN: a connector that keeps within the window it was granted
    is still reset with [receive_overflow] when the metadata of a SYN the worker has not
    released yet and its data together exceed one window of queue room. *)
Theorem syn_exhausts_window sid h syn ds d :
  IsSYN syn = true -> IsFIN syn = false -> zlen (Payload syn) <= MaxChunkSize ->
  Forall (fun d => IsSYN d = false /\ IsFIN d = false) ds -> IsSYN d = false ->
  zlen ds < MaxQueuedStreamFrames - 1 ->
  byte_sum ds + zlen (Payload d) <= InitialStreamWindow ->
  byte_sum ds + zlen (Payload syn) <= InitialStreamWindow ->
  InitialStreamWindow < byte_sum ds + zlen (Payload d) + zlen (Payload syn) ->
  let st := foldl (fun s f => (enqueue s f).1) (newStreamState sid h true) (syn :: ds) in
  received st + FlowBytes d <= advertised st /\
  enqueue st d = (st, Some (streamReceiveError "receive_overflow"
                      ("stream " +:+ pretty (id st) +:+ " receive queue is full"))).
Proof.
  intros HS HF Hsyn Hds Hd Hn Hdat Hroom Hover. cbn [foldl].
  pose proof (zlen_nonneg (Payload syn)). pose proof (zlen_nonneg ds). pose proof (byte_sum_nonneg ds).
  assert (FlowBytes syn = 0) as Hfs by (unfold FlowBytes; by rewrite HS).
  assert (FlowBytes d = zlen (Payload d)) as Hfd by (unfold FlowBytes; by rewrite Hd).
  pose proof (zlen_nonneg (Payload d)). unfold MaxChunkSize in Hsyn.
  rewrite InitialStreamWindow_eq in *.
  rewrite enqueue_accepts; rewrite ?Hfs, ?zlen_nil; try done; cbn -[Z.mul];
    rewrite ?InitialStreamWindow_eq; try done; try lia.
  change (u64 (0 + 0)) with 0.
  set (st0 := mkStream _ _ _ _ _ _ _ _ _ _ _ _ _ _ _ _ _ _ _).
  destruct (enqueue_behind_syn ds st0) as (E1 & E2 & E3 & E4 & E5 & E6); try done; cbn;
    rewrite ?zlen_cons, ?zlen_nil, ?InitialStreamWindow_eq; try lia.
  cbn in E1, E2, E3, E4, E5, E6 |- *. set (st := foldl _ st0 ds) in *.
  split; [lia|].
  unfold enqueue. rewrite E1, E2, E3, E4, E5, E6, Hfd. cbn -[u64 Z.add Z.sub].
  rewrite u64_small by lia.
  settle (0 + byte_sum ds >? 1048576) false.
  settle (zlen (Payload d) >? 1048576 - (0 + byte_sum ds)) false. rewrite andb_false_r.
  rewrite InitialStreamWindow_eq.
  settle (zlen (Payload d) >? 1048576 - (0 + zlen (Payload syn) + byte_sum ds)) true.
  by rewrite orb_true_r.
Qed.

(** * Witnesses *)

Definition ping : Frame := mkFrame 1 FlagDAT $"ping".
Definition listener_start : receiver := mkReceiver (newStreamState 1 "tcp" true) None.

Lemma receive_memory_bounded_witness :
  let r := (arrive_frame listener_start ping).1 in
  zlen (current_frames (current r) ++ queue (ss r)) <= MaxQueuedStreamFrames.
Proof.
  apply (receive_memory_bounded 1 "tcp" true). apply steps_one. apply rs_arrive.
Defined.

Lemma frames_in_order_witness :
  let r := (arrive_frame listener_start ping).1 in [ping] = [] ++ queue (ss r).
Proof.
  apply (frames_in_order 1 "tcp" true
           (mkObserved (arrive_frame listener_start ping).1 [ping] [])).
  apply steps_one. apply (ob_accept listener_start ping _ [] []). vm_compute. reflexivity.
Defined.

Lemma no_lost_wakeup_witness :
  let r := mkReceiver (updateSendMax (ss listener_start) (2 * InitialStreamWindow)) None in
  (reserveSend (ss listener_start) (InitialStreamWindow + 1)).2 = Wait 0 /\
  (reserve_ready (ss r) false 0 = true \/
   (reserveSend (ss r) (InitialStreamWindow + 1)).2 = Wait 0).
Proof.
  split; [vm_compute; reflexivity|].
  apply (no_lost_wakeup listener_start (InitialStreamWindow + 1) 0).
  - unfold writer_inv. vm_compute. split_and!; congruence.
  - vm_compute. reflexivity.
  - vm_compute. reflexivity.
  - apply steps_one. apply rs_other. apply os_sendmax. vm_compute. split; congruence.
Defined.

(** Thirty-two full frames behind a one-byte SYN. *)
Definition one_byte_syn : Frame := mkFrame 1 FlagSYN $"x".
Definition full_frame : Frame := mkFrame 1 FlagDAT (replicate (Z.to_nat MaxChunkSize) "x"%char).

Lemma full_frame_size : zlen (Payload full_frame) = MaxChunkSize.
Proof. unfold zlen. cbn [Payload full_frame]. by rewrite length_replicate, Z2Nat.id. Qed.

Lemma byte_sum_replicate n f : byte_sum (replicate n f) = Z.of_nat n * zlen (Payload f).
Proof. induction n as [|n IH]; cbn [replicate byte_sum]; lia. Qed.

Lemma syn_exhausts_window_witness :
  let st := foldl (fun s f => (enqueue s f).1) (newStreamState 1 "tcp" true)
              (one_byte_syn :: replicate 31 full_frame) in
  received st + FlowBytes full_frame <= advertised st /\
  enqueue st full_frame = (st, Some (streamReceiveError "receive_overflow"
                      ("stream " +:+ pretty (id st) +:+ " receive queue is full"))).
Proof.
  apply (syn_exhausts_window 1 "tcp" one_byte_syn (replicate 31 full_frame) full_frame);
    rewrite ?byte_sum_replicate, ?full_frame_size; try reflexivity; try done.
  apply Forall_replicate. split; reflexivity.
Defined.
