(* ===== verification/ClientStream.v ===== *)
(** The connector's per-stream state and its delivery worker (the [stream] type of
    internal/client/session.go). [pending] is the buffered channel between the dispatcher and
    the worker; [wakes] counts how often [sendWake] was closed and replaced. *)

From S2P Require Import Prelude Protocol FlowControl.

Inductive client_error :=
| errStreamQueueFull
| errReceiveWindowExceeded
| errStreamClosed
| errStreamFinished
| errStreamNotStarted
| errDataChannelClosed
| errMessage (message : string).

#[export] Instance client_error_eq_dec : EqDecision client_error.
Proof. solve_decision. Defined.

Record stream := mkStream {
  id : Z;
  inbox_closed : bool;
  pending : list Frame;
  abandoned : bool;
  queuedBytes : Z;
  queuedFrames : Z;
  receivedBytes : Z;
  consumedBytes : Z;
  advertisedMax : Z;
  lastUpdateAt : Z;
  windowActive : bool;
  sentBytes : Z;
  sendLimit : Z;
  wakes : nat;
  streamErr : option client_error;
  inboundFIN : bool;
  inboundDelivered : bool;
  outboundFIN : bool
}.

#[export] Instance eta_stream : Eta stream := fun s =>
  mkStream (id s) (inbox_closed s) (pending s) (abandoned s) (queuedBytes s) (queuedFrames s)
    (receivedBytes s) (consumedBytes s) (advertisedMax s) (lastUpdateAt s) (windowActive s)
    (sentBytes s) (sendLimit s) (wakes s) (streamErr s) (inboundFIN s) (inboundDelivered s)
    (outboundFIN s).

(** The state [OpenStream] puts in the session's table. *)
Definition newStream (id : Z) : stream :=
  mkStream id false [] false 0 0 0 0 0 0 false 0 0 0 None false false false.

Definition release (st : stream) (frame : Frame) : stream :=
  st <| queuedFrames := queuedFrames st - 1 |>
     <| queuedBytes := queuedBytes st - zlen (Payload frame) |>.

(** The accounting under [queueMu]. *)
Definition enqueue_account (st : stream) (frame : Frame) (enforceWindow : bool) :
    result client_error stream :=
  if inboundFIN st then Err errStreamFinished else
  let flowBytes := FlowBytes frame in
  if enforceWindow && negb (windowActive st) then Err errStreamNotStarted else
  if enforceWindow && ((receivedBytes st >? advertisedMax st) ||
                       (flowBytes >? u64 (advertisedMax st - receivedBytes st)))
  then Err errReceiveWindowExceeded else
  if (queuedFrames st >=? MaxQueuedStreamFrames) ||
     (queuedBytes st + zlen (Payload frame) >? InitialStreamWindow)
  then Err errStreamQueueFull else
  let st1 := st <| queuedFrames := queuedFrames st + 1 |>
                <| queuedBytes := queuedBytes st + zlen (Payload frame) |>
                <| receivedBytes := u64 (receivedBytes st + flowBytes) |> in
  Ok (if IsFIN frame then st1 <| inboundFIN := true |> else st1).

(** [enqueue]: the accounting, then the select on the channel, [abandoned] and the default.
    When both channel operations are ready Go picks either: [pick] is that choice. *)
Definition enqueue (pick : bool) (st : stream) (frame : Frame) (enforceWindow : bool) :
    stream * option client_error :=
  match enqueue_account st frame enforceWindow with
  | Err e => (st, Some e)
  | Ok st1 =>
    let room := zlen (pending st1) <? MaxQueuedStreamFrames in
    if room && (pick || negb (abandoned st1))
    then (st1 <| pending := pending st1 ++ [frame] |>, None)
    else if abandoned st1 then (release st1 frame, Some errStreamClosed)
    else (release st1 frame, Some errStreamQueueFull)
  end.

Definition consume (st : stream) (frame : Frame) (flowControl : bool) : stream * option Z :=
  let flowBytes := FlowBytes frame in
  let st1 := release st frame in
  if negb flowControl || (flowBytes =? 0) then (st1, None) else
  let st2 := st1 <| consumedBytes := u64 (consumedBytes st1 + flowBytes) |> in
  if u64 (consumedBytes st2 - lastUpdateAt st2) <? StreamWindowUpdateThreshold then (st2, None) else
  let st3 := st2 <| lastUpdateAt := consumedBytes st2 |>
                 <| advertisedMax := u64 (InitialStreamWindow + consumedBytes st2) |> in
  (st3, Some (advertisedMax st3)).

Definition updateSendLimit (st : stream) (maxBytes : Z) : stream :=
  if maxBytes >? sendLimit st
  then st <| sendLimit := maxBytes |> <| wakes := S (wakes st) |>
  else st.

Definition activateInitialWindow (st : stream) : stream :=
  if negb (windowActive st) then
    updateSendLimit (st <| advertisedMax := InitialStreamWindow |> <| windowActive := true |>)
      InitialStreamWindow
  else st.

Definition initialWindowActive (st : stream) : bool := windowActive st.

Definition fail (st : stream) (err : client_error) : stream :=
  let st1 := if streamErr st is None
             then st <| streamErr := Some err |> <| wakes := S (wakes st) |> else st in
  st1 <| abandoned := true |>.

(** One pass of the loop of [reserveSend] up to its select. *)
Inductive reserve_outcome :=
| Reserved
| ReserveFailed (err : client_error)
| Wait (gen : nat).

Definition reserveSend (st : stream) (n : Z) : stream * reserve_outcome :=
  match streamErr st with
  | Some err => (st, ReserveFailed err)
  | None =>
    if n <=? u64 (sendLimit st - sentBytes st)
    then (st <| sentBytes := u64 (sentBytes st + n) |>, Reserved)
    else (st, Wait (wakes st))
  end.

(** The select a waiting writer blocks in: which of its cases are ready. *)
Definition reserve_ready (st : stream) (sessionDone : bool) (gen : nat) : bool :=
  bool_decide (gen < wakes st)%nat || abandoned st || sessionDone.

(** * The receiving side with its worker *)

(** Where [deliverStream] is: waiting for a frame, handing one to the caller's inbox, about to
    send the window update it computed, or returned. *)
Inductive delivery := Idle | Handing (f : Frame) | Owing (max : Z) | Exited.

Record delivered_stream := mkDelivered { st : stream; worker : delivery }.

(** The worker while the caller reads its inbox, on a session that negotiated flow control. *)
Inductive worker_step : delivered_stream -> option Z -> delivered_stream -> Prop :=
| ws_take s f q :
    pending s = f :: q ->
    worker_step (mkDelivered s Idle) None (mkDelivered (s <| pending := q |>) (Handing f))
| ws_handed s f s' o :
    IsFIN f = false -> consume s f true = (s', o) ->
    worker_step (mkDelivered s (Handing f)) None
                (mkDelivered s' (if o is Some m then Owing m else Idle))
| ws_fin s f s' o :
    IsFIN f = true -> consume s f true = (s', o) ->
    worker_step (mkDelivered s (Handing f)) None
                (mkDelivered (s' <| inboundDelivered := true |> <| inbox_closed := true |>) Exited)
| ws_update s m :
    worker_step (mkDelivered s (Owing m)) (Some m) (mkDelivered s Idle).

(** Other goroutines (a writer, the dispatcher failing the stream, the session closing) and the
    worker's early exits. *)
Inductive other_step : delivered_stream -> delivered_stream -> Prop :=
| os_fail s w e : other_step (mkDelivered s w) (mkDelivered (fail s e) w)
| os_reserve s w n :
    0 <= n -> other_step (mkDelivered s w) (mkDelivered (reserveSend s n).1 w)
| os_limit s w m :
    0 <= m < 2 ^ 64 -> other_step (mkDelivered s w) (mkDelivered (updateSendLimit s m) w)
| os_activate s w : other_step (mkDelivered s w) (mkDelivered (activateInitialWindow s) w)
| os_abandon s w : other_step (mkDelivered s w) (mkDelivered (s <| abandoned := true |>) w)
| os_fin s w b : other_step (mkDelivered s w) (mkDelivered (s <| outboundFIN := b |>) w)
| os_exit s w :
    (if w is Handing _ then False else True) ->
    other_step (mkDelivered s w) (mkDelivered (s <| inbox_closed := true |>) Exited)
| os_exit_handing s f :
    other_step (mkDelivered s (Handing f))
               (mkDelivered ((release s f) <| inbox_closed := true |>) Exited).

Definition owing (r : delivered_stream) : option Z :=
  if worker r is Owing m then Some m else None.

Definition uncharged (w : delivery) : list Frame := if w is Handing f then [f] else [].

(** The receive-credit counters of a stream whose initial window is active. *)
Definition credit_inv (r : delivered_stream) : Prop :=
  let s := st r in
  windowActive s = true /\
  0 <= lastUpdateAt s <= consumedBytes s /\
  (worker r <> Exited -> consumedBytes s - lastUpdateAt s < StreamWindowUpdateThreshold) /\
  advertisedMax s = lastUpdateAt s + InitialStreamWindow /\
  consumedBytes s <= receivedBytes s <= advertisedMax s /\
  (worker r <> Exited ->
   receivedBytes s = consumedBytes s + flow_sum (uncharged (worker r) ++ pending s)) /\
  (forall m, worker r = Owing m -> m = advertisedMax s).

(** What a refused frame leaves behind, and why it was refused. *)
Lemma client_enqueue_cases pick s f enforce :
  match enqueue pick s f enforce with
  | (s', None) =>
      inboundFIN s = false /\ (enforce = true -> windowActive s = true /\
        receivedBytes s <= advertisedMax s /\
        FlowBytes f <= u64 (advertisedMax s - receivedBytes s)) /\
      queuedFrames s < MaxQueuedStreamFrames /\
      queuedBytes s + zlen (Payload f) <= InitialStreamWindow /\
      (pick = true \/ abandoned s = false) /\
      s' = s <| queuedFrames := queuedFrames s + 1 |>
             <| queuedBytes := queuedBytes s + zlen (Payload f) |>
             <| receivedBytes := u64 (receivedBytes s + FlowBytes f) |>
             <| inboundFIN := IsFIN f |>
             <| pending := pending s ++ [f] |>
  | (s', Some e) =>
      queuedFrames s' = queuedFrames s /\ queuedBytes s' = queuedBytes s /\ pending s' = pending s /\
      (e = errReceiveWindowExceeded ->
       enforce = true /\ windowActive s = true /\
       (advertisedMax s < receivedBytes s \/
        u64 (advertisedMax s - receivedBytes s) < FlowBytes f))
  end.
Proof.
  unfold enqueue, enqueue_account.
  destruct (inboundFIN s) eqn:Efin; [by split_and!|].
  destruct (enforce && negb (windowActive s)) eqn:Ea; [by split_and!|].
  destruct (enforce && (_ || _)) eqn:Ew.
  { destruct enforce; [|done]. cbn in Ea, Ew. bool_to_prop. split_and!; try done. intros _.
    split_and!; try done. apply orb_true_iff in Ew as [?|?]; bool_to_prop; auto. }
  destruct ((queuedFrames s >=? _) || _) eqn:Eq; [by split_and!|].
  assert (enforce = true -> windowActive s = true /\ receivedBytes s <= advertisedMax s /\
          FlowBytes f <= u64 (advertisedMax s - receivedBytes s)).
  { intros ->. cbn in Ea, Ew. bool_to_prop. auto. }
  bool_to_prop. unfold release.
  destruct (IsFIN f) eqn:EFIN; cbn; destruct (zlen (pending s) <? MaxQueuedStreamFrames), pick, (abandoned s) eqn:Eab;
    cbn; split_and!; try done; try lia; auto; destruct s; cbn in *; subst; done.
Qed.

(** The fields the receiving side reads; the sending operations leave them alone. *)
Definition recv_view (s : stream) :=
  (windowActive s, pending s, (receivedBytes s, consumedBytes s, advertisedMax s, lastUpdateAt s)).

Lemma client_credit_inv_view s s' w :
  recv_view s' = recv_view s -> credit_inv (mkDelivered s w) -> credit_inv (mkDelivered s' w).
Proof. unfold credit_inv, recv_view. cbn. intros [= -> -> -> -> -> ->]. tauto. Qed.

Lemma updateSendLimit_view s m : recv_view (updateSendLimit s m) = recv_view s.
Proof. unfold updateSendLimit. by case_step. Qed.

Lemma client_reserveSend_view s n : recv_view (reserveSend s n).1 = recv_view s.
Proof. unfold reserveSend. by repeat case_step. Qed.

Lemma client_credit_enqueue pick r f s' :
  credit_inv r -> receivedBytes (st r) + FlowBytes f < stream_bound ->
  enqueue pick (st r) f true = (s', None) ->
  credit_inv (mkDelivered s' (worker r)) /\
  receivedBytes s' = receivedBytes (st r) + FlowBytes f /\
  advertisedMax s' = advertisedMax (st r).
Proof.
  intros HI Hb E. pose proof (client_enqueue_cases pick (st r) f true) as HC. rewrite E in HC.
  destruct HC as (_ & Hw & _ & _ & _ & ->). destruct (Hw eq_refl) as (_ & Hw1 & Hw2).
  destruct HI as (Ha & Hlu & Hth & Had & Hre & Hsum & Hph). pose proof (FlowBytes_range f).
  rewrite Threshold_eq in *. unfold stream_bound in Hb. rewrite InitialStreamWindow_eq in *.
  rewrite u64_small in Hw2 by lia.
  unfold credit_inv. cbn. rewrite u64_small by lia. rewrite app_assoc, flow_sum_app. cbn.
  split_and!; try done; try lia. intros Hne. specialize (Hsum Hne). lia.
Qed.

(** What charging a delivered frame does to the counters. *)
Lemma credit_consume s f s' o :
  credit_inv (mkDelivered s (Handing f)) -> receivedBytes s < stream_bound ->
  consume s f true = (s', o) ->
  windowActive s' = true /\ pending s' = pending s /\ receivedBytes s' = receivedBytes s /\
  consumedBytes s' = consumedBytes s + FlowBytes f /\ 0 <= lastUpdateAt s' <= consumedBytes s' /\
  consumedBytes s' - lastUpdateAt s' < StreamWindowUpdateThreshold /\
  advertisedMax s' = lastUpdateAt s' + InitialStreamWindow /\
  advertisedMax s <= advertisedMax s' < 2 ^ 64 /\
  match o with Some m => m = advertisedMax s' | None => advertisedMax s' = advertisedMax s end.
Proof.
  intros (Ha & Hlu & Hth & Had & Hre & Hsum & _) Hb. cbn in *.
  specialize (Hth ltac:(done)). specialize (Hsum ltac:(done)).
  pose proof (FlowBytes_range f). pose proof (flow_sum_nonneg (pending s)).
  unfold consume, release. cbn. unfold stream_bound in Hb. rewrite Threshold_eq, InitialStreamWindow_eq in *.
  destruct (FlowBytes f =? 0) eqn:E0; bool_to_prop.
  { intros [= <- <-]. cbn. split_and!; auto; lia. }
  rewrite (u64_small (consumedBytes s + _)) by lia. rewrite (u64_small (_ - _)) by lia.
  destruct (_ <? _) eqn:Et; bool_to_prop; intros [= <- <-]; cbn; [split_and!; auto; lia|].
  rewrite u64_small by lia. split_and!; auto; lia.
Qed.

Lemma client_credit_worker r o r' :
  credit_inv r -> receivedBytes (st r) < stream_bound -> worker_step r o r' ->
  credit_inv r' /\ receivedBytes (st r') = receivedBytes (st r) /\
  advertisedMax (st r) <= advertisedMax (st r') < 2 ^ 64 /\ worker r <> Exited /\
  match o with
  | Some m => owing r = Some m /\ owing r' = None /\ advertisedMax (st r') = advertisedMax (st r)
  | None => (advertisedMax (st r') = advertisedMax (st r) /\ owing r' = owing r) \/
            owing r' = Some (advertisedMax (st r')) \/ worker r' = Exited
  end.
Proof.
  intros HI Hb Hw.
  destruct Hw as [s f q Hq|s f s' o HF Hc|s f s' o HF Hc|s m].
  1, 4: unfold credit_inv, stream_bound in *; cbn in *; rewrite Threshold_eq, InitialStreamWindow_eq in *;
    destruct HI as (Ha & Hlu & Hth & Had & Hre & Hsum & Hph); specialize (Hth ltac:(done));
    specialize (Hsum ltac:(done)); split_and!; try done; try lia; auto.
  - rewrite Hq in Hsum. cbn in Hsum. lia.
  - destruct (credit_consume s f s' o HI Hb Hc) as (Ha & Hp & Hre & Hco & Hlu & Hth & Had & Hle & Ho).
    destruct HI as (_ & _ & _ & _ & Hre0 & Hsum & _). cbn in Hsum, Hre0, Hb.
    specialize (Hsum ltac:(done)). unfold credit_inv. cbn. rewrite Hp, Hre.
    pose proof (flow_sum_nonneg (pending s)).
    split_and!; try done; try lia.
    + intros _. destruct o; cbn; lia.
    + intros m Hm. destruct o; by inv Hm.
    + destruct o; [right; left; by subst|by left].
  - destruct (credit_consume s f s' o HI Hb Hc) as (Ha & Hp & Hre & Hco & Hlu & Hth & Had & Hle & Ho).
    destruct HI as (_ & _ & _ & _ & Hre0 & Hsum & _). cbn in Hsum, Hre0, Hb.
    specialize (Hsum ltac:(done)). unfold credit_inv. cbn. rewrite Hre.
    pose proof (flow_sum_nonneg (pending s)). split_and!; try done; try lia. auto.
Qed.

Lemma client_credit_other r r' :
  credit_inv r -> other_step r r' ->
  credit_inv r' /\ receivedBytes (st r') = receivedBytes (st r) /\
  advertisedMax (st r') = advertisedMax (st r) /\ (worker r = Exited -> worker r' = Exited) /\
  (owing r' = owing r \/ worker r' = Exited).
Proof.
  intros HI Ho.
  destruct Ho as [s w e|s w n _|s w m _|s w|s w|s w b|s w Hw|s f].
  - split; [|split_and!; auto; unfold fail; by repeat case_step].
    eapply client_credit_inv_view; [|done]. unfold fail. by repeat case_step.
  - pose proof (client_reserveSend_view s n) as Hv. split; [by eapply client_credit_inv_view|].
    unfold recv_view in Hv. cbn. inv Hv. split_and!; auto; congruence.
  - pose proof (updateSendLimit_view s m) as Hv. split; [by eapply client_credit_inv_view|].
    unfold recv_view in Hv. cbn. inv Hv. split_and!; auto; congruence.
  - unfold activateInitialWindow. destruct HI as [Ha HI]. cbn in Ha. rewrite Ha. cbn.
    split_and!; auto. by split.
  - by split_and!; auto.
  - by split_and!; auto.
  - unfold credit_inv in *. cbn in *. split_and!; auto; try tauto; done.
  - unfold credit_inv in *. cbn in *. split_and!; auto; try tauto; done.
Qed.

Lemma client_credit_idle r :
  credit_inv r -> worker r <> Exited -> (forall o r', ~ worker_step r o r') ->
  owing r = None /\
  receivedBytes (st r) + (InitialStreamWindow - StreamWindowUpdateThreshold) < advertisedMax (st r).
Proof.
  intros HI Hex Hidle. destruct r as [s [|f|m|]]; cbn in *; [| | |done].
  - destruct (pending s) as [|f q] eqn:Eq; [|by edestruct Hidle; eapply ws_take].
    destruct HI as (_ & Hlu & Hth & Had & _ & Hsum & _). cbn in *.
    rewrite Eq in Hsum. specialize (Hsum Hex). specialize (Hth Hex). cbn in Hsum. split; [done|].
    rewrite Threshold_eq, InitialStreamWindow_eq in *. lia.
  - destruct (consume s f true) as [s' o] eqn:Ec. destruct (IsFIN f) eqn:EF.
    + by edestruct Hidle; eapply ws_fin.
    + by edestruct Hidle; eapply ws_handed.
  - by edestruct (Hidle (Some m)); eapply ws_update.
Qed.

(** A frame from the dispatcher. [pick] resolves the select of [enqueue]. *)
Definition arrive_verdict (pick : bool) (r : delivered_stream) (f : Frame) :
    delivered_stream * verdict :=
  let (s', err) := enqueue pick (st r) f true in
  (mkDelivered s' (worker r),
   match err with
   | None => Accepted
   | Some errReceiveWindowExceeded => Violation
   | Some _ => Refused
   end).

Lemma arrive_violation pick r f :
  credit_inv r -> receivedBytes (st r) + FlowBytes f <= advertisedMax (st r) ->
  (arrive_verdict pick r f).2 <> Violation.
Proof.
  intros HI Hle. unfold arrive_verdict. pose proof (client_enqueue_cases pick (st r) f true) as HC.
  destruct (enqueue pick (st r) f true) as [s' [[]|]]; cbn; try done.
  destruct HC as (_ & _ & _ & HC). destruct (HC eq_refl) as (_ & _ & Hw). intros _.
  pose proof (FlowBytes_range f). destruct HI as (_ & Hlu & _ & Had & Hre & _).
  rewrite InitialStreamWindow_eq in *. destruct Hw as [?|Hw]; [lia|].
  pose proof (wrap_small 64 (advertisedMax (st r) - receivedBytes (st r))). unfold u64 in Hw.
  lia.
Qed.

#[export] Program Instance client_receiver (pick : bool) : FlowReceiver delivered_stream := {
  got r := receivedBytes (st r);
  limit r := advertisedMax (st r);
  owed := owing;
  arrive := arrive_verdict pick;
  work := worker_step;
  other := other_step;
  finished r := worker r = Exited;
  rinv := credit_inv;
}.
Next Obligation. intros _ r (_ & ? & _ & ? & ? & _). cbn in *. rewrite InitialStreamWindow_eq in *. lia. Qed.
Next Obligation. intros _ [s [|f|m'|]] m HI; cbn; intros Hm; inv Hm. by apply HI. Qed.
Next Obligation.
  intros pick r f r' HI Hb. unfold arrive_verdict.
  destruct (enqueue pick (st r) f true) as [s' [e|]] eqn:E; intros H.
  { by destruct e. }
  inv H. destruct (client_credit_enqueue pick r f s' HI Hb E) as (? & ? & ?). by split_and!.
Qed.
Next Obligation. intros pick r f. apply arrive_violation. Qed.
Next Obligation.
  intros _ r o r' HI Hb Hw. destruct (client_credit_worker r o r' HI Hb Hw) as (? & ? & ? & ? & ?).
  split_and!; try done; destruct o; tauto.
Qed.
Next Obligation. intros _ r r' HI Ho. destruct (client_credit_other r r' HI Ho) as (? & ? & ? & ? & ?). tauto. Qed.
Next Obligation. intros _ r HI Hnf Hidle. by apply client_credit_idle. Qed.

(** * The sending half *)

Definition send_inv (s : stream) : Prop :=
  streamErr s = None /\ 0 <= sentBytes s <= sendLimit s /\ sendLimit s < 2 ^ 64.

Definition reserved_now (s : stream) (n : Z) : option stream :=
  match reserveSend s n with (s', Reserved) => Some s' | _ => None end.

#[export] Program Instance stream_sender : FlowSender stream := {
  used := sentBytes; cap := sendLimit; try_reserve := reserved_now;
  raise := updateSendLimit; sinv := send_inv
}.
Next Obligation.
  intros s n s' (He & Hs & Hm) Hn Hb. unfold reserved_now, reserveSend, stream_bound in *.
  rewrite He, InitialStreamWindow_eq in *.
  rewrite (u64_small (sendLimit s - sentBytes s)) by lia. case_step; intros H; inv H. bool_to_prop.
  unfold send_inv. cbn. rewrite u64_small by lia. split_and!; auto; lia.
Qed.
Next Obligation.
  intros s n (He & Hs & Hm) Hn Hle. unfold reserved_now, reserveSend. rewrite He.
  rewrite (u64_small (sendLimit s - sentBytes s)) by lia.
  rewrite (proj2 (Z.leb_le n _)) by lia. by eexists.
Qed.
Next Obligation.
  intros s m (He & Hs & Hm) Hb. unfold updateSendLimit, send_inv.
  destruct (m >? sendLimit s) eqn:E; bool_to_prop; cbn; split_and!; auto; lia.
Qed.

(** The stream as the SYN leaves it: [sendFrame] activates the initial window first. *)
Definition started (id : Z) : stream := activateInitialWindow (newStream id).

Lemma started_receiver id : credit_inv (mkDelivered (started id) Idle).
Proof.
  unfold credit_inv. cbn. rewrite InitialStreamWindow_eq, Threshold_eq. split_and!; try done; lia.
Qed.

Lemma started_sender id : send_inv (started id).
Proof. unfold send_inv. cbn. rewrite InitialStreamWindow_eq. split_and!; done || lia. Qed.
