(* ===== verification/FlowPair.v ===== *)
(** The two directions of a SWSP v4 stream: the connector's sender against the listener's
    receiver and the listener's sender against the connector's receiver, as instances of the
    flow-control system of FlowControl.v. *)

From S2P Require Import Prelude Protocol FlowControl.
From S2P Require ServerStream ClientStream.

#[local] Existing Instances ServerStream.receiver_flow ServerStream.streamState_sender
  ClientStream.stream_sender.

(** * From the connector to the listener *)

Section Upload.
Variables (sid : Z) (handler : string).

Definition listener_end : ServerStream.receiver :=
  ServerStream.mkReceiver (ServerStream.newStreamState sid handler true) None.

(** Both ends once the connector's SYN is on the wire. *)
Definition upload_start : fsys ClientStream.stream ServerStream.receiver :=
  fsys_start (ClientStream.started sid) listener_end.

Lemma upload_opened : opened (ClientStream.started sid) listener_end.
Proof.
  unfold opened. split_and!; try reflexivity.
  - apply ClientStream.started_sender.
  - apply ServerStream.newStreamState_receiver.
Qed.

(** C8: A connector that writes only what its credit allows is never reset by the listener for a
    flow-control violation, in any interleaving of its writers, the two dispatchers, the
    listener's worker and the window updates in flight. *)
Theorem upload_never_violates x : steps fstep upload_start x -> rejected x <> Some Violation.
Proof. apply fsys_no_violation, upload_opened. Qed.

(** C10: No credit deadlock from connector to listener: in every reachable state with nothing in
    flight and an idle worker on an open stream, the connector can send a full-size frame. *)
Theorem upload_never_stalls x n :
  steps fstep upload_start x -> rejected x = None ->
  ServerStream.closed (ServerStream.ss (receiver x)) <> true ->
  wire x = [] -> updates x = [] ->
  (forall o r', ~ ServerStream.worker_step (receiver x) o r') ->
  0 <= n <= MaxChunkSize ->
  is_Some (ClientStream.reserved_now (sender x) n).
Proof. exact (fsys_no_deadlock _ _ x n upload_opened). Qed.
End Upload.

(** * From the listener to the connector *)

Section Download.
Variables (sid : Z) (handler : string).
(** How Go resolves the select of [enqueue] when a frame meets an abandoned stream. *)
Variable pick : bool.

#[local] Instance connector_flow : FlowReceiver ClientStream.delivered_stream :=
  ClientStream.client_receiver pick.

Definition connector_end : ClientStream.delivered_stream :=
  ClientStream.mkDelivered (ClientStream.started sid) ClientStream.Idle.

Definition download_start : fsys ServerStream.streamState ClientStream.delivered_stream :=
  fsys_start (ServerStream.newStreamState sid handler true) connector_end.

Lemma download_opened : opened (ServerStream.newStreamState sid handler true) connector_end.
Proof.
  unfold opened. split_and!; try reflexivity.
  - apply ServerStream.newStreamState_sender.
  - apply ClientStream.started_receiver.
Qed.

(** The same from the listener to the connector: a listener that reserves its credit before
    writing is never failed by the connector for exceeding the receive window. *)
Theorem download_never_violates x : steps fstep download_start x -> rejected x <> Some Violation.
Proof. apply fsys_no_violation, download_opened. Qed.

(** No credit deadlock from listener to connector, where the worker hands each frame to the
    caller's inbox before charging it. *)
Theorem download_never_stalls x n :
  steps fstep download_start x -> rejected x = None ->
  ClientStream.worker (receiver x) <> ClientStream.Exited ->
  wire x = [] -> updates x = [] ->
  (forall o r', ~ ClientStream.worker_step (receiver x) o r') ->
  0 <= n <= MaxChunkSize ->
  is_Some (ServerStream.reserved_now (sender x) n).
Proof. exact (fsys_no_deadlock _ _ x n download_opened). Qed.
End Download.

(** * Witnesses *)

(** A run that sends, delivers, handles, charges and releases one frame. *)
Definition sample_frame : Frame := mkFrame 1 FlagDAT $"ping".

Definition upload_sent : fsys ClientStream.stream ServerStream.receiver :=
  mkFsys (default (ClientStream.started 1) (ClientStream.reserved_now (ClientStream.started 1) 4))
    (listener_end 1 "tcp") [sample_frame] [] None.

Definition download_sent : fsys ServerStream.streamState ClientStream.delivered_stream :=
  mkFsys (default (ServerStream.newStreamState 1 "tcp" true)
            (ServerStream.reserved_now (ServerStream.newStreamState 1 "tcp" true) 4))
    (connector_end 1) [sample_frame] [] None.

Lemma upload_never_violates_witness : rejected upload_sent <> Some Violation.
Proof.
  apply (upload_never_violates 1 "tcp"). apply steps_one.
  apply (fs_send _ _ [] _ sample_frame); vm_compute; reflexivity.
Defined.

Lemma download_never_violates_witness : rejected download_sent <> Some Violation.
Proof.
  apply (download_never_violates 1 "tcp" true). apply steps_one.
  apply (fs_send _ _ [] _ sample_frame); vm_compute; reflexivity.
Defined.

Lemma upload_never_stalls_witness :
  is_Some (ClientStream.reserved_now (sender (upload_start 1 "tcp")) MaxChunkSize).
Proof.
  apply (upload_never_stalls 1 "tcp" (upload_start 1 "tcp") MaxChunkSize); try reflexivity.
  - apply steps_refl.
  - discriminate.
  - intros o r' H. inversion H; discriminate.
  - unfold MaxChunkSize. lia.
Defined.

Lemma download_never_stalls_witness :
  is_Some (ServerStream.reserved_now (sender (download_start 1 "tcp")) MaxChunkSize).
Proof.
  apply (download_never_stalls 1 "tcp" true (download_start 1 "tcp") MaxChunkSize); try reflexivity.
  - apply steps_refl.
  - discriminate.
  - intros o r' H. inversion H; discriminate.
  - unfold MaxChunkSize. lia.
Defined.
