(* ===== verification/Sha256.v ===== *)
(** SHA-256 (FIPS 180-4), the [Sum256] of Go's crypto/sha256, on byte sequences: PIN hashes,
    identifiers, nonce commitments and SAS codes are all digests of it. Executable. *)

From S2P Require Import Prelude.

Definition word (z : Z) : Z := u32 z.
Definition rotr (n z : Z) : Z := Z.lor (Z.shiftr z n) (word (Z.shiftl z (32 - n))).
Definition shr (n z : Z) : Z := Z.shiftr z n.
Definition Ch (x y z : Z) : Z := Z.lxor (Z.land x y) (Z.land (Z.lxor x 4294967295) z).
Definition Maj (x y z : Z) : Z := Z.lxor (Z.land x y) (Z.lxor (Z.land x z) (Z.land y z)).
Definition Sigma0 (x : Z) : Z := Z.lxor (rotr 2 x) (Z.lxor (rotr 13 x) (rotr 22 x)).
Definition Sigma1 (x : Z) : Z := Z.lxor (rotr 6 x) (Z.lxor (rotr 11 x) (rotr 25 x)).
Definition sigma0 (x : Z) : Z := Z.lxor (rotr 7 x) (Z.lxor (rotr 18 x) (shr 3 x)).
Definition sigma1 (x : Z) : Z := Z.lxor (rotr 17 x) (Z.lxor (rotr 19 x) (shr 10 x)).

Definition K : list Z :=
  [1116352408; 1899447441; 3049323471; 3921009573; 961987163; 1508970993; 2453635748; 2870763221;
   3624381080; 310598401; 607225278; 1426881987; 1925078388; 2162078206; 2614888103; 3248222580;
   3835390401; 4022224774; 264347078; 604807628; 770255983; 1249150122; 1555081692; 1996064986;
   2554220882; 2821834349; 2952996808; 3210313671; 3336571891; 3584528711; 113926993; 338241895;
   666307205; 773529912; 1294757372; 1396182291; 1695183700; 1986661051; 2177026350; 2456956037;
   2730485921; 2820302411; 3259730800; 3345764771; 3516065817; 3600352804; 4094571909; 275423344;
   430227734; 506948616; 659060556; 883997877; 958139571; 1322822218; 1537002063; 1747873779;
   1955562222; 2024104815; 2227730452; 2361852424; 2428436474; 2756734187; 3204031479; 3329325298].

Definition H0 : list Z :=
  [1779033703; 3144134277; 1013904242; 2773480762; 1359893119; 2600822924; 528734635; 1541459225].

Definition be32 (z : Z) : bytes :=
  [byte_of_Z (z / 16777216); byte_of_Z (z / 65536); byte_of_Z (z / 256); byte_of_Z z].

Fixpoint words_of (bs : bytes) : list Z :=
  match bs with
  | a :: b :: c :: d :: r =>
      Z_of_byte a * 16777216 + Z_of_byte b * 65536 + Z_of_byte c * 256 + Z_of_byte d :: words_of r
  | _ => []
  end.

(** The message schedule, kept newest first. *)
Fixpoint expand (n : nat) (w : list Z) : list Z :=
  match n with
  | O => w
  | S n' =>
      expand n' (word (sigma1 (nth 1 w 0) + nth 6 w 0 + sigma0 (nth 14 w 0) + nth 15 w 0) :: w)
  end.

Definition round (h : list Z) (kw : Z * Z) : list Z :=
  match h with
  | [a; b; c; d; e; f; g; hh] =>
      let t1 := hh + Sigma1 e + Ch e f g + kw.1 + kw.2 in
      let t2 := Sigma0 a + Maj a b c in
      [word (t1 + t2); a; b; c; word (d + t1); e; f; g]
  | _ => h
  end.

Definition compress (h : list Z) (block : list Z) : list Z :=
  let w := rev (expand 48 (rev block)) in
  zip_with (fun x y => word (x + y)) h (foldl round h (zip K w)).

Definition pad (msg : bytes) : bytes :=
  let len := zlen msg in
  let zeros := Z.to_nat ((55 - len) mod 64) in
  msg ++ [byte_of_Z 128] ++ replicate zeros zero
      ++ be32 (8 * len / 4294967296) ++ be32 (8 * len).

Fixpoint blocks (n : nat) (w : list Z) : list (list Z) :=
  match n with
  | O => []
  | S n' => match w with [] => [] | _ => take 16 w :: blocks n' (drop 16 w) end
  end.

Definition Sum256 (msg : bytes) : bytes :=
  let w := words_of (pad msg) in
  flat_map be32 (foldl compress H0 (blocks (length w) w)).

(** Lower-case hexadecimal. *)
Definition hex_char (z : Z) : ascii := byte_of_Z (if z <? 10 then 48 + z else 87 + z).
Definition EncodeToString (bs : bytes) : bytes :=
  flat_map (fun b => [hex_char (Z_of_byte b / 16); hex_char (Z_of_byte b mod 16)]) bs.

Example sha256_abc :
  EncodeToString (Sum256 $"abc") =
  $"ba7816bf8f01cfea414140de5dae2223b00361a396177a9cb410ff61f20015ad".
Proof. vm_compute. reflexivity. Qed.

(** * Digests have 32 bytes *)

Lemma length_round h kw : length h = 8%nat -> length (round h kw) = 8%nat.
Proof. intros Hh. do 9 (destruct h; try done). Qed.

Lemma length_compress h block : length h = 8%nat -> length (compress h block) = 8%nat.
Proof.
  intros Hh. unfold compress. rewrite length_zip_with.
  assert (length (foldl round h (zip K (rev (expand 48 (rev block))))) = 8%nat) as ->; [|by rewrite Hh].
  apply (foldl_invariant round (fun h => length h = 8%nat)); [|done].
  intros s e Hs. by apply length_round.
Qed.

Lemma length_Sum256 msg : length (Sum256 msg) = 32%nat.
Proof.
  unfold Sum256. set (bl := blocks _ _). clearbody bl.
  assert (length (foldl compress H0 bl) = 8%nat) as Hl.
  { apply (foldl_invariant compress (fun h => length h = 8%nat)); [|done].
    intros s e Hs. by apply length_compress. }
  clear -Hl. revert Hl. generalize (foldl compress H0 bl). intros l Hl.
  do 9 (destruct l as [|? l]; try done).
Qed.
