(* ===== verification/Auth.v ===== *)
(** PIN authentication (internal/auth/pin.go). *)

From S2P Require Import Prelude Sha256.

Record PINAuth := { pinHash : bytes; set : bool }.

(** [None] is Go's nil pointer: no PIN is configured. *)
Definition New (pin : bytes) : option PINAuth :=
  match pin with
  | [] => None
  | _ => Some {| pinHash := Sum256 pin; set := true |}
  end.

Definition Required (a : option PINAuth) : bool :=
  match a with Some a => set a | None => false end.

Definition Verify (a : option PINAuth) (attempt : bytes) : bool :=
  match a with
  | None => false
  | Some a => bool_decide (pinHash a = Sum256 attempt)
  end.

(** A configured PIN is required and accepts itself; an attempt is accepted exactly when its
    digest is the PIN's, and without a PIN nothing is required and nothing is accepted. *)
Theorem pin_verify_spec pin attempt :
  Required (New pin) = bool_decide (pin <> []) /\
  (Verify (New pin) attempt = true <-> pin <> [] /\ Sum256 attempt = Sum256 pin) /\
  (pin <> [] -> Verify (New pin) pin = true).
Proof.
  destruct pin as [|c pin]; cbn -[Sum256].
  - split; [done|]. split; [|congruence]. split; [done|]. intros [? _]. congruence.
  - split; [done|]. split.
    + rewrite bool_decide_eq_true. split; [by intros ->|by intros [_ ->]].
    + intros _. by rewrite bool_decide_true.
Qed.
