(* ===== verification/Session.v ===== *)
(** A listener's session with one peer: the stream-0 handshake, dispatch of frames to streams,
    the workers, the writers and the asynchronous resets
    (internal/session/{session,control,video,flow}.go).

    Streams live in a store ([objects], indexed by allocation number), and [streams] maps a
    stream ID to the object it names, so that a worker or a writer which still holds an object
    whose ID has been taken over by a later stream is modelled as it is. A goroutine the code
    starts is a [task]; a writer that holds a stream's [writeMu] is recorded in [writers].
    Taking a stream out of the table (under [s.mu]) and stopping it (under [st.mu]) are two
    steps: in between, the goroutine that did the first has a [Stop] among the tasks and does
    nothing else until that has run.
    [log] is everything observable: frames handed to the data channel, calls into handlers and
    hooks, and the frames that came in. *)

From stdpp Require Import pretty sorting.
From S2P Require Import Prelude Protocol Json Auth ServerStream.

Definition maxAuthFails : Z := 3.

(** A registered [StreamHandler]: its type and the optional interfaces it implements. *)
Record handler_info := mkHandler { Type_ : string; fragments : bool; resets : bool }.

Inductive output :=
| Received (data : bytes)
| Sent (owner : option nat) (sid flags : Z) (payload : bytes)
| OnConnect (handler : string) (path : bytes)
| OnSYN (ref : nat) (payload : bytes) (final : bool)
| OnDAT (ref : nat) (payload : bytes)
| OnFIN (ref : nat) (payload : bytes)
| OnFragment (ref : nat) (payload : bytes) (more : bool)
| OnReset (ref : nat) (code message : bytes)
| OnReady
| VideoStart
| VideoAnswer (sdp : bytes)
| VideoCandidate (candidate : option (list (bytes * json)))
| DCClose.

(** A goroutine that takes streams out of the table and then stops them. *)
Inductive actor := Dispatcher | Worker (ref : nat) | Writer (ref : nat) | Closer.

#[export] Instance actor_eq_dec : EqDecision actor.
Proof. solve_decision. Defined.

Inductive task :=
| Stop (who : actor) (ref : nat) (cause : option (bytes * bytes * bool))  (* [who] is about to call [stopNow] *)
| RunStream (ref : nat)                                     (* [go s.runStream(st)] *)
| Fail (ref : nat) (code message : bytes) (notify : bool)   (* the goroutine of [failStream] *)
| Notify (ref : nat) (code message : bytes)                 (* the same, past [OnReset] *)
| Reject (sid : Z) (code message : bytes) (flow : bool)     (* the goroutine of [rejectStream] *)
| Write (ref : nat) (flags : Z) (payload : bytes)           (* a writer that resolved its stream *)
| StartVideo.

(** A writer holding [writeMu]: its frame, and whether it has reserved the credit. *)
Record writer := mkWriter { w_flags : Z; w_payload : bytes; w_reserved : bool }.

Record session := mkSession {
  PIN : option PINAuth;
  access : bytes;
  handlers : list handler_info;
  connectPath : bytes;
  authenticated : bool;
  ready : bool;
  negotiatedVersion : Z;
  authFails : Z;
  streams : gmap Z nat;
  objects : list streamState;
  sclosed : bool;
  video : bool;
  videoStarted : bool;
  dc_open : bool;
  workers : gmap nat (option Frame);
  writers : gmap nat writer;
  tasks : list task;
  log : list output
}.

#[export] Instance eta_session : Eta session := fun s =>
  mkSession (PIN s) (access s) (handlers s) (connectPath s) (authenticated s) (ready s)
    (negotiatedVersion s) (authFails s) (streams s) (objects s) (sclosed s) (video s)
    (videoStarted s) (dc_open s) (workers s) (writers s) (tasks s) (log s).

Definition NewSession (pin : option PINAuth) (hs : list handler_info) (acc : bytes) (v : bool) : session :=
  mkSession pin acc hs [] false false 0 0 ∅ [] false v false true ∅ ∅ [] [].

Definition emit (o : output) (s : session) : session := s <| log := log s ++ [o] |>.
Definition spawn (t : task) (s : session) : session := s <| tasks := tasks s ++ [t] |>.

Section Environment.

(** What the handlers return to a callback and whether the data channel accepts a frame, given
    everything that happened so far; the text of a decoding error. *)
Variable callback_error : list output -> option bytes.
Variable send_error : list output -> option bytes.
Variable unmarshal_error : bytes -> bytes.

(** * Sending *)

Definition dcSend (s : session) (owner : option nat) (sid flags : Z) (payload : bytes) :
    session * option bytes :=
  match ValidateFramePayload payload with
  | Err _ => (s, Some $"frame payload too large")
  | Ok _ =>
    if negb (dc_open s) then (s, Some $"data channel closed")
    else let s' := emit (Sent owner sid flags payload) s in (s', send_error (log s'))
  end.

(** [_ = s.sendFrame(...)] on the control stream. *)
Definition sendControl (s : session) (flags : Z) (j : json) : session :=
  (dcSend s None 0 flags (print_json j)).1.

Definition sendControlError (s : session) (message : bytes) : session :=
  sendControl s (Z.lor FlagSYN FlagFIN)
    (JObject [($"message", JString message); ($"type", JString $"error")]).

Definition sendReset (s : session) (owner : option nat) (sid : Z) (code message : bytes) : session :=
  (dcSend s owner 0 FlagSYN (print_json (reset_json sid code message))).1.

Definition sendStreamError (s : session) (sid : Z) (message : bytes) : session :=
  let meta := JObject [($"headers", JObject [($"Content-Type", JString $"text/plain")]);
                       ($"status", JInt 500)] in
  let s1 := (dcSend s None sid FlagSYN (print_json meta)).1 in
  let s2 := (dcSend s1 None sid FlagDAT message).1 in
  (dcSend s2 None sid FlagFIN []).1.

(** * The stream table *)

Definition object (s : session) (ref : nat) : option streamState := objects s !! ref.
Definition put_object (s : session) (ref : nat) (st : streamState) : session :=
  s <| objects := <[ref := st]> (objects s) |>.

Definition handler_for (s : session) (t : bytes) : option handler_info :=
  find (fun h => bool_decide (String.list_ascii_of_string (Type_ h) = t)) (rev (handlers s)).

(** A goroutine with a [stopNow] still to do is nowhere else. *)
Definition busy (who : actor) (s : session) : bool :=
  existsb (fun t => match t with Stop w _ _ => bool_decide (w = who) | _ => false end) (tasks s).

(** [s.streams[st.id] != st] *)
Definition owns (s : session) (ref : nat) (st : streamState) : bool :=
  bool_decide (streams s !! id st = Some ref).

(** The first critical section of each, under [s.mu]; the second, [stopNow] under [st.mu], is the
    [Stop] left to [who]. *)
Definition finishState (s : session) (who : actor) (ref : nat) : session :=
  match object s ref with
  | None => s
  | Some st =>
    let s1 := if owns s ref st then s <| streams := delete (id st) (streams s) |> else s in
    spawn (Stop who ref None) s1
  end.

Definition failStream (s : session) (who : actor) (ref : nat) (code message : bytes) (notifyPeer : bool) : session :=
  match object s ref with
  | None => s
  | Some st =>
    if negb (owns s ref st) then s else
    spawn (Stop who ref (Some (code, message, notifyPeer))) (s <| streams := delete (id st) (streams s) |>)
  end.

Definition rejectStream (s : session) (sid : Z) (code message : bytes) : session :=
  spawn (Reject sid code message (negotiatedVersion s >=? 4)) s.

Definition error_bytes (e : stream_error) : bytes := String.list_ascii_of_string (errorMessage e).
Definition error_code (e : stream_error) : bytes := String.list_ascii_of_string (receiveErrorCode e).

(** Enqueue on an object, failing the stream when its queue refuses the frame. *)
Definition enqueue_or_fail (s : session) (ref : nat) (st : streamState) (f : Frame) : session * bool :=
  let '(st', err) := enqueue st f in
  let s1 := put_object s ref st' in
  match err with
  | Some e => (failStream s1 Dispatcher ref (error_code e) (error_bytes e) true, false)
  | None => (s1, true)
  end.

Definition peek_type (payload : bytes) : bytes :=
  match parse_json payload with
  | Some j => (field decode_string [] $"type" j).1
  | None => []
  end.

Definition handleStreamFrame (s : session) (f : Frame) : session :=
  let st := streams s !! StreamID f in
  if negb (ready s) then
    (if IsSYN f then rejectStream s (StreamID f) $"unauthenticated" $"session is not ready" else s)
  else if negb (IsSYN f) then
    match st with
    | None => s
    | Some ref => match object s ref with
                  | None => s
                  | Some o => (enqueue_or_fail s ref o f).1
                  end
    end
  else match st with
  | Some ref => failStream s Dispatcher ref $"duplicate_syn" $"duplicate SYN" true
  | None =>
    let t := peek_type (Payload f) in
    let t := match t with [] => $"http" | _ => t end in
    match handler_for s t with
    | None => rejectStream s (StreamID f) $"unsupported_stream" ($"unsupported stream type: " ++ t)
    | Some h =>
      if sclosed s then s else
      let ref := length (objects s) in
      let o := newStreamState (StreamID f) (Type_ h) (negotiatedVersion s >=? 4) in
      let s1 := s <| streams := <[StreamID f := ref]> (streams s) |>
                  <| objects := objects s ++ [o] |> in
      let '(s2, ok) := enqueue_or_fail s1 ref o f in
      if ok then spawn (RunStream ref) s2 else s2
    end
  end.

(** * Stream 0 *)

Definition sendReady (s : session) : session :=
  let caps := merge_sort String.le (map Type_ (handlers s)) in
  let s1 := sendControl s (Z.lor FlagSYN FlagFIN)
    (JObject ((match access s with [] => [] | a => [($"access", JString a)] end) ++
      [($"caps", JArray (map (fun t => JString (String.list_ascii_of_string t)) caps));
       ($"negotiated_version", JInt (negotiatedVersion s));
       ($"routing", JString $"target-prefix");
       ($"server_version", JInt SWSPVersion);
       ($"type", JString $"ready")])) in
  if video s1 && negb (videoStarted s1)
  then spawn StartVideo (s1 <| videoStarted := true |>) else s1.

Definition markReady (s : session) : session := emit OnReady s.

(** Calls every handler's [OnConnect] until one refuses. *)
Fixpoint notify_each (s : session) (hs : list handler_info) (path : bytes) : session * bool :=
  match hs with
  | [] => (s, true)
  | h :: hs' =>
    let s1 := emit (OnConnect (Type_ h) path) s in
    match callback_error (log s1) with
    | Some e => (sendControlError s1 e, false)
    | None => notify_each s1 hs' path
    end
  end.

Definition notifyHandlers (s : session) (path : bytes) : session * bool :=
  notify_each s (handlers s) path.

Definition set_ready (s : session) : session := s <| authenticated := true |> <| ready := true |>.

Definition handleConnect (s : session) (path : bytes) (peerVersion : Z) : session :=
  let path := match path with [] => $"/" | _ => path end in
  let s1 := s <| connectPath := path |> in
  let s2 := if negotiatedVersion s1 =? 0
            then s1 <| negotiatedVersion := NegotiateSWSPVersion peerVersion |> else s1 in
  if Required (PIN s2) then
    sendControl s2 FlagSYN (JObject [($"type", JString $"auth_required")])
  else
    let '(s3, ok) := notifyHandlers s2 path in
    if negb ok then s3 else sendReady (markReady (set_ready s3)).

Definition auth_result (ok : bool) : json :=
  JObject [($"success", JBool ok); ($"type", JString $"auth_result")].

Definition handleAuth (s : session) (pin : bytes) : session :=
  if negb (Required (PIN s)) then s else
  if Verify (PIN s) pin then
    let path := match connectPath s with [] => $"/" | p => p end in
    let '(s1, ok) := notifyHandlers s path in
    if negb ok then s1 else
    let s2 := markReady (set_ready s1) in
    sendReady (sendControl s2 (Z.lor FlagSYN FlagFIN) (auth_result true))
  else
    let s1 := s <| authFails := authFails s + 1 |> in
    let fails := authFails s1 in
    let s2 := sendControl s1 (Z.lor FlagSYN FlagFIN) (auth_result false) in
    if fails >=? maxAuthFails then emit DCClose (s2 <| dc_open := false |>) else s2.

Definition flow_stream (s : session) (sid : Z) : option nat :=
  match streams s !! sid with
  | Some ref =>
    match object s ref with
    | Some st => if (negotiatedVersion s >=? 4) && flow st then Some ref else None
    | None => None
    end
  | None => None
  end.

Definition applyWindowUpdate (s : session) (u : WindowUpdate) : session :=
  if wu_StreamID u =? 0 then s else
  match flow_stream s (wu_StreamID u) with
  | None => s
  | Some ref =>
    if wu_MaxBytes u =? 0
    then failStream s Dispatcher ref $"invalid_control" $"window update must grant a positive maximum" true
    else match object s ref with
         | Some st => put_object s ref (updateSendMax st (wu_MaxBytes u))
         | None => s
         end
  end.

Definition applyStreamReset (s : session) (sid : Z) (code message : bytes) : session :=
  if sid =? 0 then s else
  match flow_stream s sid with
  | Some ref => failStream s Dispatcher ref code message false
  | None => s
  end.

Definition resetMalformedControl (s : session) (payload : bytes) (j : json) : session :=
  let '(sid, ok) := field (decode_uint 32) 0 $"stream_id" j in
  if negb ok || (sid =? 0) then s else
  match flow_stream s sid with
  | Some ref => failStream s Dispatcher ref $"invalid_control" (unmarshal_error payload) true
  | None => s
  end.

Definition handleControl (s : session) (f : Frame) : session :=
  if negb (IsSYN f) then s else
  match parse_json (Payload f) with
  | None => s
  | Some j =>
    let '(type, ok) := field decode_string [] $"type" j in
    if negb ok then s
    else if decide (type = $"window_update") then
      let '(u, ok) := decode_window_update j in
      if ok then applyWindowUpdate s u else resetMalformedControl s (Payload f) j
    else if decide (type = $"stream_reset") then
      let '(sid, ok1) := field (decode_uint 32) 0 $"stream_id" j in
      let '(code, ok2) := field decode_string [] $"code" j in
      let '(message, ok3) := field decode_string [] $"message" j in
      if ok1 && ok2 && ok3 then applyStreamReset s sid code message
      else resetMalformedControl s (Payload f) j
    else
      let '(path, ok1) := field decode_string [] $"path" j in
      let '(pin, ok2) := field decode_string [] $"pin" j in
      let '(version, ok3) := field decode_int 0 $"version" j in
      let '(sdp, ok4) := field decode_string [] $"sdp" j in
      let '(cand, ok5) := field decode_map None $"candidate" j in
      if negb (ok1 && ok2 && ok3 && ok4 && ok5) then s
      else if decide (type = $"connect") then handleConnect s path version
      else if decide (type = $"auth") then handleAuth s pin
      else if decide (type = $"video_answer") then
        (if video s then emit (VideoAnswer sdp) s else s)
      else if decide (type = $"video_candidate") then
        (if video s then emit (VideoCandidate cand) s else s)
      else s
  end.

Definition HandleMessage (s : session) (data : bytes) : session :=
  if sclosed s then s else
  match ParseFrame data with
  | Err _ => s
  | Ok f => if StreamID f =? 0 then handleControl s f else handleStreamFrame s f
  end.

(** * Stream workers *)

Definition type_of (s : session) (st : streamState) : option handler_info :=
  handler_for s (String.list_ascii_of_string (handler st)).

Definition markReceiveClosed (s : session) (ref : nat) : session :=
  match object s ref with
  | None => s
  | Some st =>
    let s1 := put_object s ref (st <| receiveFIN := true |>) in
    if sendFIN st then finishState s1 (Worker ref) ref else s1
  end.

Definition markSendClosed (s : session) (ref : nat) : session :=
  match object s ref with
  | None => s
  | Some st =>
    let s1 := put_object s ref (st <| sendFIN := true |>) in
    if receiveFIN st then finishState s1 (Writer ref) ref else s1
  end.

(** [Session.consume]: the counters, then the window update when one is due. *)
Definition consume_and_update (s : session) (ref : nat) (nbytes : Z) : session * option bytes :=
  match object s ref with
  | None => (s, None)
  | Some st =>
    let '(st1, due) := consume st nbytes in
    match due with
    | None => (put_object s ref st1, None)
    | Some max =>
      let '(st2, sent) := sendWindowUpdate st1 max in
      let s1 := put_object s ref st2 in
      match sent with
      | None => (s1, Some $"stream closed")
      | Some max => dcSend s1 None 0 FlagSYN (print_json (window_update_json (id st) max))
      end
    end
  end.

(** [processStreamFrame] as far as its call into the handler: the call, or the error that comes
    before any call. *)
Definition handler_call (s : session) (ref : nat) (st : streamState) (f : Frame) : output + bytes :=
  if IsSYN f then inl (OnSYN ref (Payload f) (IsFIN f))
  else if IsFIN f then
    (if IsMORE f || fragmenting st then inr $"FIN during fragmented message"
     else inl (OnFIN ref (Payload f)))
  else if IsMORE f || fragmenting st then
    (if (match type_of s st with Some h => fragments h | None => false end)
     then inl (OnFragment ref (Payload f) (IsMORE f))
     else inr $"does not support fragmented messages")
  else inl (OnDAT ref (Payload f)).

(** [OnFragment] updates the marker whether or not it failed. *)
Definition mark_fragment (s : session) (ref : nat) (st : streamState) (f : Frame) : session :=
  if negb (IsSYN f) && negb (IsFIN f) && (IsMORE f || fragmenting st)
  then put_object s ref (st <| fragmenting := IsMORE f |>) else s.

(** The rest of [processStreamFrame], once the callback returned [err]. *)
Definition after_call (s : session) (ref : nat) (st : streamState) (f : Frame) (err : option bytes) :
    session * option bytes :=
  let s1 := mark_fragment s ref st f in
  match err with
  | Some e => (s1, Some e)
  | None =>
    if IsSYN f then ((if IsFIN f then markReceiveClosed s1 ref else s1), None)
    else
      let '(s2, e) := consume_and_update s1 ref (FlowBytes f) in
      match e with
      | Some e => (s2, Some ($"replenish receive window: " ++ e))
      | None => ((if IsFIN f then markReceiveClosed s2 ref else s2), None)
      end
  end.

Definition release_room (s : session) (ref : nat) (f : Frame) : session :=
  match object s ref with
  | Some st => put_object s ref (dequeued st f)
  | None => s
  end.

(** After [processStreamFrame]: the queue room is released and an error fails the stream. (When
    the frame ended the stream, its [stopNow] comes before the release; the two touch different
    fields, of a stream that is out of the table.) *)
Definition release_frame (s : session) (ref : nat) (f : Frame) (err : option bytes) : session :=
  let s1 := release_room s ref f in
  match err with
  | Some e => (failStream s1 (Worker ref) ref $"handler_error" e true) <| workers := delete ref (workers s1) |>
  | None => s1 <| workers := <[ref := None]> (workers s1) |>
  end.

(** [runStream] takes a frame off the queue and enters the handler. *)
Definition worker_take (s : session) (ref : nat) : option session :=
  if busy (Worker ref) s then None else
  match workers s !! ref, object s ref with
  | Some None, Some st =>
    match queue st with
    | [] => None
    | f :: q =>
      let st1 := st <| queue := q |> in
      if isClosed st1 then
        Some ((put_object s ref (dequeued st1 f)) <| workers := delete ref (workers s) |>)
      else
        let s1 := put_object s ref st1 in
        match handler_call s1 ref st1 f with
        | inl call => Some (emit call (s1 <| workers := <[ref := Some f]> (workers s1) |>))
        | inr err => Some (release_frame s1 ref f (Some err))
        end
    end
  | _, _ => None
  end.

(** The handler returns. *)
Definition worker_return (s : session) (ref : nat) : option session :=
  match workers s !! ref, object s ref with
  | Some (Some f), Some st =>
    let '(s1, err) := after_call s ref st f (callback_error (log s)) in
    Some (release_frame s1 ref f err)
  | _, _ => None
  end.

(** [runStream] leaves when the session or the stream is done. *)
Definition worker_exit (s : session) (ref : nat) : option session :=
  if busy (Worker ref) s then None else
  match workers s !! ref, object s ref with
  | Some None, Some st =>
    if sclosed s || done_closed st then Some (s <| workers := delete ref (workers s) |>) else None
  | _, _ => None
  end.

(** * Writers *)

(** [sendStreamFrame] as far as [writeMu]: the error, or the writer waiting for the lock. *)
Definition sendStreamFrame (s : session) (sid flags : Z) (payload : bytes) : session * option bytes :=
  match ValidateFramePayload payload with
  | Err _ => (s, Some $"frame payload too large")
  | Ok _ =>
    match streams s !! sid with
    | None => (s, Some $"stream closed")
    | Some ref => if sclosed s then (s, Some $"stream closed") else (spawn (Write ref flags payload) s, None)
    end
  end.

(** One pass of its reservation loop, holding the lock. [None]: the writer keeps waiting. *)
Definition write_reserve (s : session) (ref : nat) : option session :=
  match writers s !! ref, object s ref with
  | Some w, Some st =>
    if w_reserved w then None else
    let f := mkFrame (id st) (w_flags w) (w_payload w) in
    match reserveSend st (FlowBytes f) with
    | (st', Reserved) =>
        Some ((put_object s ref st') <| writers := <[ref := mkWriter (w_flags w) (w_payload w) true]> (writers s) |>)
    | (_, ReserveFailed _) => Some (s <| writers := delete ref (writers s) |>)
    | (_, Wait _) => if sclosed s then Some (s <| writers := delete ref (writers s) |>) else None
    end
  | _, _ => None
  end.

(** The frame goes on the data channel and the lock is released, after the [stopNow] when the frame
    failed or finished the stream. *)
Definition write_send (s : session) (ref : nat) : option session :=
  if busy (Writer ref) s then None else
  match writers s !! ref, object s ref with
  | Some w, Some st =>
    if negb (w_reserved w) then None else
    let f := mkFrame (id st) (w_flags w) (w_payload w) in
    let '(s1, err) := dcSend s (Some ref) (id st) (w_flags w) (w_payload w) in
    let s2 := match err with
              | Some e => failStream s1 (Writer ref) ref $"send_error" e false
              | None => if IsFIN f then markSendClosed s1 ref else s1
              end in
    Some (if busy (Writer ref) s2 then s2 else s2 <| writers := delete ref (writers s2) |>)
  | _, _ => None
  end.

(** * Goroutines *)

(** [OnReset], when the stream's handler implements it. *)
Definition call_reset (s : session) (ref : nat) (code message : bytes) : session :=
  match object s ref with
  | Some st => if (match type_of s st with Some h => resets h | None => false end)
               then emit (OnReset ref code message) s else s
  | None => s
  end.

(** [st.stopNow()] and, when this call stopped the stream, the goroutine that tells its handler
    and the peer why. *)
Definition stop_stream (s : session) (ref : nat) (cause : option (bytes * bytes * bool)) : session :=
  match object s ref with
  | None => s
  | Some st =>
    let '(st', did) := stopNow st in
    let s1 := put_object s ref st' in
    match cause with
    | Some (code, message, notify) => if did then spawn (Fail ref code message notify) s1 else s1
    | None => s1
    end
  end.

(** The goroutine goes on: a writer gives its lock back. *)
Definition resume (s : session) (who : actor) : session :=
  match who with
  | Writer ref => s <| writers := delete ref (writers s) |>
  | _ => s
  end.

Definition run_task (s : session) (t : task) : option session :=
  match t with
  | Stop who ref cause => Some (resume (stop_stream s ref cause) who)
  | RunStream ref => Some (s <| workers := <[ref := None]> (workers s) |>)
  | Fail ref code message notify =>
    let s1 := call_reset s ref code message in
    Some (if notify then spawn (Notify ref code message) s1 else s1)
  | Notify ref code message =>
    match writers s !! ref, object s ref with
    | None, Some st =>
      Some (if flow st then sendReset s (Some ref) (id st) code message
            else (dcSend s (Some ref) (id st) FlagFIN []).1)
    | _, _ => None
    end
  | Reject sid code message flow =>
    Some (if flow then sendReset s None sid code message else sendStreamError s sid message)
  | Write ref flags payload =>
    match writers s !! ref, object s ref with
    | None, Some st =>
      Some (if sendFIN st then s else s <| writers := <[ref := mkWriter flags payload false]> (writers s) |>)
    | _, _ => None
    end
  | StartVideo => Some (emit VideoStart s)
  end.

(** * Closing *)

(** The table is emptied under [s.mu]; the streams it named are stopped after that, one by one, in
    the order of the map's iteration, which is no order. *)
Definition Close (s : session) : session :=
  if sclosed s then s else
  let states := (map_to_list (streams s)).*2 in
  s <| sclosed := true |> <| streams := ∅ |>
    <| tasks := tasks s ++ map (fun ref => Stop Closer ref (Some ($"session_closed", $"session closed", false))) states |>.

Definition Goodbye (s : session) (reason : bytes) : session := Close (sendControlError s reason).

(** * Steps *)

Inductive session_step : session -> session -> Prop :=
| ss_message s data : busy Dispatcher s = false -> session_step s (HandleMessage (emit (Received data) s) data)
| ss_task s t l1 l2 s' :
    tasks s = l1 ++ t :: l2 -> run_task (s <| tasks := l1 ++ l2 |>) t = Some s' -> session_step s s'
| ss_take s ref s' : worker_take s ref = Some s' -> session_step s s'
| ss_return s ref s' : worker_return s ref = Some s' -> session_step s s'
| ss_exit s ref s' : worker_exit s ref = Some s' -> session_step s s'
| ss_write s sid flags payload : session_step s (sendStreamFrame s sid flags payload).1
| ss_reserve s ref s' : write_reserve s ref = Some s' -> session_step s s'
| ss_send s ref s' : write_send s ref = Some s' -> session_step s s'
| ss_video s j : session_step s (if videoStarted s then sendControl s FlagSYN j else s)
| ss_goodbye s reason : session_step s (Goodbye s reason)
| ss_close s : session_step s (Close s)
| ss_dc_closed s : session_step s (s <| dc_open := false |>).

End Environment.
