(* ===== verification/SessionSpec.v ===== *)
(** Correctness of the listener's session (Session.v): the stream table and its objects agree, up
    to the streams a goroutine is between taking out of the table and stopping; a failed stream is
    reset once and nothing follows the reset on the wire. *)

From S2P Require Import Prelude Protocol Json Auth ServerStream Session.

(** * The invariant *)

Definition is_stop (ref : nat) (t : task) : bool :=
  match t with Stop _ r _ => bool_decide (r = ref) | _ => false end.
(** Some goroutine has taken the stream out of the table and has not called [stopNow] yet. *)
Definition stopping (s : session) (ref : nat) : bool := existsb (is_stop ref) (tasks s).
Definition is_fail (ref : nat) (t : task) : bool :=
  match t with Fail r _ _ _ => bool_decide (r = ref) | _ => false end.
Definition is_notify (ref : nat) (t : task) : bool :=
  match t with Notify r _ _ => bool_decide (r = ref) | _ => false end.
Definition is_reset (ref : nat) (o : output) : bool :=
  match o with OnReset r _ _ => bool_decide (r = ref) | _ => false end.
Definition sent_by (ref : nat) (o : output) : bool :=
  match o with Sent (Some r) _ _ _ => bool_decide (r = ref) | _ => false end.
(** The terminal reset of a v4 stream: a control frame sent on behalf of the stream. *)
Definition is_marker (ref : nat) (o : output) : bool :=
  match o with Sent (Some r) sid _ _ => bool_decide (r = ref) && (sid =? 0) | _ => false end.

Definition closed_nat (objs : list streamState) (ref : nat) : nat :=
  match objs !! ref with Some st => if closed st then 1 else 0 | None => 0 end.

Record table_ok (strs : gmap Z nat) (objs : list streamState) (cl : bool) (ts : list task) : Prop := {
  table_live sid ref : strs !! sid = Some ref ->
    exists st, objs !! ref = Some st /\ id st = sid /\ closed st = false /\ existsb (is_stop ref) ts = false;
  live_table ref st : objs !! ref = Some st -> closed st = false -> existsb (is_stop ref) ts = false ->
    strs !! id st = Some ref;
  table_closed : cl = true -> strs = ∅;
  ids_nonzero ref st : objs !! ref = Some st -> id st <> 0;
  stops_known ref : existsb (is_stop ref) ts = true -> (ref < length objs)%nat;
}.

Record resets_ok (objs : list streamState) (wr : gmap nat writer) (ts : list task)
    (lg : list output) (ref : nat) : Prop := {
  fail_once : (count (is_fail ref) ts + count (is_reset ref) lg <= closed_nat objs ref)%nat;
  notify_once : (count (is_fail ref) ts + count (is_notify ref) ts + count (is_marker ref) lg
                 <= closed_nat objs ref)%nat;
  no_writer : (0 < count (is_marker ref) lg)%nat ->
    forall w, wr !! ref = Some w -> w_reserved w = false;
  sealed : Forall (fun o => sent_by ref o = false) (after (is_marker ref) lg);
}.

Definition session_inv (s : session) : Prop :=
  table_ok (streams s) (objects s) (sclosed s) (tasks s) /\
  forall ref, resets_ok (objects s) (writers s) (tasks s) (log s) ref.

Lemma session_inv_new pin hs acc v : session_inv (NewSession pin hs acc v).
Proof.
  split; [split; cbn; try done|]. intros ref. split; cbn; try lia. constructor.
Qed.

(** The invariant reads only these fields. *)
Definition core (s : session) :=
  (streams s, objects s, sclosed s, writers s, tasks s, log s).

Lemma inv_core s s' : core s' = core s -> session_inv s -> session_inv s'.
Proof. unfold core, session_inv. intros [= -> -> -> -> -> ->]. done. Qed.

(** Objects evolve without changing their identity. *)
Definition same_slot (a b : streamState) : Prop :=
  id b = id a /\ handler b = handler a /\ flow b = flow a /\ closed b = closed a.

Lemma inv_put s ref st st' :
  object s ref = Some st -> same_slot st st' -> session_inv s -> session_inv (put_object s ref st').
Proof.
  unfold object. intros Ho (Hid & _ & _ & Hcl) [HT HR]. split.
  - destruct HT as [T1 T2 T3 T4 T5]. split; cbn; rewrite ?length_insert; try done.
    + intros sid r Hs. destruct (T1 sid r Hs) as (o & Hr & Hi & Hc & Hp).
      destruct (decide (r = ref)) as [->|Hne].
      * simplify_eq. exists st'. rewrite list_lookup_insert_eq by (by eapply lookup_lt_Some).
        split_and!; congruence.
      * exists o. by rewrite list_lookup_insert_ne.
    + intros r o Hr Hc Hp. apply list_lookup_insert_Some in Hr as [(-> & -> & _)|(Hne & Hr)]; [|by apply T2].
      rewrite Hid. apply T2; congruence.
    + intros r o Hr. apply list_lookup_insert_Some in Hr as [(-> & -> & _)|(Hne & Hr)]; [|by eapply T4].
      rewrite Hid. by eapply T4.
  - intros r. assert (closed_nat (<[ref:=st']> (objects s)) r = closed_nat (objects s) r) as Hn.
    { unfold closed_nat. destruct (decide (r = ref)) as [->|Hne].
      - rewrite list_lookup_insert_eq by (by eapply lookup_lt_Some). by rewrite Ho, Hcl.
      - by rewrite list_lookup_insert_ne. }
    destruct (HR r) as [R1 R2 R3 R4]. split; cbn; rewrite ?Hn; done.
Qed.

(** An output that is neither a handler reset nor a frame of a stream already reset. *)
Definition neutral (s : session) (o : output) : Prop :=
  match o with
  | OnReset _ _ _ => False
  | Sent (Some ref) sid _ _ => sid <> 0 /\ count (is_marker ref) (log s) = 0%nat
  | _ => True
  end.

Lemma inv_emit s o : neutral s o -> session_inv s -> session_inv (emit o s).
Proof.
  intros Hn [HT HR]. split; [exact HT|]. intros r. destruct (HR r) as [R1 R2 R3 R4].
  assert (is_reset r o = false /\ is_marker r o = false) as [E1 E2].
  { destruct o as [|[]| | | | | | | | | | |]; try done; cbn in *. destruct Hn as [Hn _].
    split; [done|]. apply andb_false_iff. right. by apply Z.eqb_neq. }
  split; cbn; rewrite ?count_app; cbn; rewrite ?E1, ?E2; try lia.
  - rewrite Nat.add_0_r. exact R3.
  - rewrite after_snoc. case_decide as Hd; [constructor|]. apply Forall_app. split; [done|].
    constructor; [|constructor]. destruct o as [|[]| | | | | | | | | | |]; try done. cbn in *.
    case_bool_decide; [|done]. subst. tauto.
Qed.

Lemma existsb_app_false {A} (p : A -> bool) l l' :
  existsb p (l ++ l') = false <-> existsb p l = false /\ existsb p l' = false.
Proof. by rewrite existsb_app, orb_false_iff. Qed.

(** The table does not mind a task that is no stop. *)
Lemma table_tasks strs objs cl ts ts' :
  (forall ref, existsb (is_stop ref) ts' = existsb (is_stop ref) ts) ->
  table_ok strs objs cl ts -> table_ok strs objs cl ts'.
Proof.
  intros Hp [T1 T2 T3 T4 T5]. split; try done.
  - intros sid ref Hr. destruct (T1 _ _ Hr) as (st & ?). exists st. by rewrite Hp.
  - intros ref st. rewrite Hp. apply T2.
  - intros ref. rewrite Hp. apply T5.
Qed.

(** A stop of a known stream. *)
Lemma stop_known ts who ref cause (objs : list streamState) r :
  (existsb (is_stop r) ts = true -> (r < length objs)%nat) -> is_Some (objs !! ref) ->
  existsb (is_stop r) (ts ++ [Stop who ref cause]) = true -> (r < length objs)%nat.
Proof.
  rewrite existsb_app. intros HT Hr [?|H]%orb_true_iff; [auto|]. cbn in H. rewrite orb_false_r in H.
  apply bool_decide_eq_true in H as <-. by apply lookup_lt_is_Some.
Qed.

Lemma inv_spawn s t :
  (match t with Stop _ _ _ | Fail _ _ _ _ | Notify _ _ _ => False | _ => True end) ->
  session_inv s -> session_inv (spawn t s).
Proof.
  intros Ht [HT HR]. split.
  { eapply table_tasks; [|exact HT]. intros r. cbn. rewrite existsb_app. destruct t; try done; by rewrite orb_false_r. } intros r. destruct (HR r) as [R1 R2 R3 R4].
  assert (is_fail r t = false /\ is_notify r t = false) as [E1 E2] by (by destruct t).
  split; cbn; rewrite ?count_app; cbn; rewrite ?E1, ?E2; try lia; done.
Qed.

(** Taking a stream out of the table and leaving its stop to [who]. *)
Lemma inv_remove s who ref st cause :
  object s ref = Some st -> streams s !! id st = Some ref -> session_inv s ->
  session_inv (spawn (Stop who ref cause) (s <| streams := delete (id st) (streams s) |>)).
Proof.
  unfold object. intros Ho Hs [[T1 T2 T3 T4 T5] HR]. split; [split; cbn; try done|].
  - intros sid r (Hne & Hr)%lookup_delete_Some. destruct (T1 _ _ Hr) as (o & Hro & Hi & Hc & Hp).
    exists o. split_and!; try done. rewrite existsb_app, Hp. cbn. rewrite bool_decide_false; [done|].
    intros <-. congruence.
  - intros r o Hr Hc (Hp & Hq)%existsb_app_false. cbn in Hq. rewrite orb_false_r in Hq.
    apply bool_decide_eq_false in Hq. rewrite lookup_delete_ne; [by apply T2|]. intros He.
    pose proof (T2 r o Hr Hc Hp) as Hx. rewrite <- He in Hx. congruence.
  - intros Hc. apply T3 in Hc. rewrite Hc. apply delete_empty.
  - intros r. apply stop_known; [apply T5|by eexists].
  - intros r. destruct (HR r) as [R1 R2 R3 R4]. split; cbn; repeat rewrite count_app; cbn; try lia; done.
Qed.

(** A stop of a stream that is out of the table already. *)
Lemma inv_restop s who ref st cause :
  object s ref = Some st -> streams s !! id st <> Some ref -> session_inv s ->
  session_inv (spawn (Stop who ref cause) s).
Proof.
  unfold object. intros Ho Hs [[T1 T2 T3 T4 T5] HR]. split; [split; cbn; try done|].
  - intros sid r Hr. destruct (T1 _ _ Hr) as (o & Hro & Hi & Hc & Hp).
    exists o. split_and!; try done. rewrite existsb_app, Hp. cbn. rewrite bool_decide_false; [done|].
    intros <-. congruence.
  - intros r o Hr Hc (Hp & _)%existsb_app_false. by apply T2.
  - intros r. apply stop_known; [apply T5|by eexists].
  - intros r. destruct (HR r) as [R1 R2 R3 R4]. split; cbn; repeat rewrite count_app; cbn; try lia; done.
Qed.

Lemma inv_finish s who ref : session_inv s -> session_inv (finishState s who ref).
Proof.
  intros HI. unfold finishState. destruct (object s ref) as [st|] eqn:Ho; [|done].
  unfold owns. case_bool_decide as Hs; [by apply inv_remove|by eapply inv_restop].
Qed.

Lemma inv_fail s who ref code msg n : session_inv s -> session_inv (failStream s who ref code msg n).
Proof.
  intros HI. unfold failStream. destruct (object s ref) as [st|] eqn:Ho; [|done].
  unfold owns. case_bool_decide as Hs; cbn; [by apply inv_remove|done].
Qed.

(** * The operations on one stream keep its slot *)

Lemma same_slot_refl st : same_slot st st.
Proof. done. Qed.

Lemma same_slot_trans a b c : same_slot a b -> same_slot b c -> same_slot a c.
Proof. unfold same_slot. intros (?&?&?&?) (?&?&?&?). split_and!; congruence. Qed.

Lemma slot_enqueue st f : same_slot st (enqueue st f).1.
Proof. unfold enqueue. repeat case_step; cbn; simplify_eq/=; done. Qed.

Lemma slot_consume st n : same_slot st (consume st n).1.
Proof. unfold consume. repeat case_step; done. Qed.

Lemma slot_sendWindowUpdate st m : same_slot st (sendWindowUpdate st m).1.
Proof. unfold sendWindowUpdate. repeat case_step; done. Qed.

Lemma slot_reserveSend st n : same_slot st (reserveSend st n).1.
Proof. unfold reserveSend. repeat case_step; done. Qed.

Lemma slot_updateSendMax st m : same_slot st (updateSendMax st m).
Proof. unfold updateSendMax. repeat case_step; done. Qed.

Create HintDb session.
#[local] Hint Resolve same_slot_refl slot_enqueue slot_consume slot_sendWindowUpdate
  slot_reserveSend slot_updateSendMax inv_finish inv_fail : session.

Section Steps.
Variable callback_error : list output -> option bytes.
Variable send_error : list output -> option bytes.
Variable unmarshal_error : bytes -> bytes.

#[local] Abbreviation dcSend := (dcSend send_error).
#[local] Abbreviation step := (session_step callback_error send_error unmarshal_error).

Lemma inv_dcSend s owner sid flags payload :
  neutral s (Sent owner sid flags payload) -> session_inv s ->
  session_inv (dcSend s owner sid flags payload).1.
Proof. intros Hn HI. unfold Session.dcSend. repeat case_step; cbn; auto. by apply inv_emit. Qed.

Lemma inv_sendControl s flags j : session_inv s -> session_inv (sendControl send_error s flags j).
Proof. intros HI. by apply inv_dcSend. Qed.

Lemma inv_sendStreamError s sid m : session_inv s -> session_inv (sendStreamError send_error s sid m).
Proof. intros HI. unfold sendStreamError. by repeat apply inv_dcSend. Qed.

Lemma inv_enqueue_or_fail s ref st f :
  object s ref = Some st -> session_inv s -> session_inv (enqueue_or_fail s ref st f).1.
Proof.
  intros Ho HI. unfold enqueue_or_fail. pose proof (slot_enqueue st f) as Hs.
  destruct (enqueue st f) as [st' [e|]]; cbn in *; [apply inv_fail|]; by eapply inv_put.
Qed.

(** A SYN accepted by the dispatcher. *)
Lemma inv_open s sid h fl :
  streams s !! sid = None -> sid <> 0 -> sclosed s = false -> session_inv s ->
  let s' := s <| streams := <[sid := length (objects s)]> (streams s) |>
              <| objects := objects s ++ [newStreamState sid h fl] |> in
  session_inv s' /\ object s' (length (objects s)) = Some (newStreamState sid h fl).
Proof.
  intros Hs Hz Hc [HT HR]. destruct HT as [T1 T2 T3 T4 T5]. cbn.
  assert (object (s <| streams := <[sid := length (objects s)]> (streams s) |>
              <| objects := objects s ++ [newStreamState sid h fl] |>) (length (objects s)) =
          Some (newStreamState sid h fl)) as Hnew.
  { unfold object. cbn. by rewrite lookup_app_r, Nat.sub_diag by lia. }
  split; [|done]. unfold object in Hnew. cbn in Hnew. split.
  - split; cbn; try congruence.
    + intros sid' r Hr. apply lookup_insert_Some in Hr as [[<- <-]|[Hne Hr]].
      { eexists. split_and!; [done..|]. destruct (existsb _ _) eqn:E; [|done]. apply T5 in E. lia. }
      destruct (T1 _ _ Hr) as (o & Ho & ?). exists o. split; [|done]. by apply lookup_app_l_Some.
    + intros r o Hr Ho Hp. apply lookup_app_Some in Hr as [Hr|[Hge Hr]].
      * rewrite lookup_insert_ne; [by apply T2|]. intros ->. pose proof (T2 r o Hr Ho Hp). congruence.
      * apply list_lookup_singleton_Some in Hr as [Hr <-]. cbn. rewrite lookup_insert_eq. f_equal. lia.
    + intros r o Hr. apply lookup_app_Some in Hr as [Hr|[Hge Hr]]; [by eapply T4|].
      by apply list_lookup_singleton_Some in Hr as [_ <-].
    + intros r Hr%T5. rewrite length_app. lia.
  - intros r. destruct (HR r) as [R1 R2 R3 R4].
    assert (closed_nat (objects s) r <= closed_nat (objects s ++ [newStreamState sid h fl]) r)%nat.
    { unfold closed_nat. destruct (objects s !! r) eqn:E; [|lia]. by rewrite (lookup_app_l_Some _ _ _ _ E). }
    split; cbn; try lia; done.
Qed.

Lemma inv_handleStreamFrame s f :
  StreamID f <> 0 -> session_inv s -> session_inv (handleStreamFrame s f).
Proof.
  intros Hz HI. unfold handleStreamFrame, rejectStream.
  destruct (ready s); cbn; [|case_step; [by apply inv_spawn|done]].
  destruct (IsSYN f); cbn.
  - destruct (streams s !! StreamID f) as [ref|] eqn:Hs; [by apply inv_fail|].
    set (t := match peek_type _ with [] => _ | _ => _ end).
    destruct (handler_for s t) as [h|]; [|by apply inv_spawn].
    destruct (sclosed s) eqn:Hc; [done|].
    set (fl := negotiatedVersion s >=? 4).
    destruct (inv_open s (StreamID f) (Type_ h) fl Hs Hz Hc HI) as [HI' Ho].
    cbn in HI', Ho. rewrite Hc in HI', Ho. unfold upd. cbn.
    pose proof (inv_enqueue_or_fail _ _ _ f Ho HI') as HI2. destruct (enqueue_or_fail _ _ _ _) as [s2 [|]]; [|exact HI2].
    by apply inv_spawn.
  - destruct (streams s !! StreamID f) as [ref|]; [|done].
    destruct (object s ref) eqn:Ho; [|done]. by apply inv_enqueue_or_fail.
Qed.

Lemma inv_notify_each hs path : forall s,
  session_inv s -> session_inv (notify_each callback_error send_error s hs path).1.
Proof.
  induction hs as [|h hs IH]; intros s HI; cbn; [done|].
  destruct (callback_error _); cbn; [apply inv_sendControl|apply IH]; by apply inv_emit.
Qed.

Lemma inv_sendReady s : session_inv s -> session_inv (sendReady send_error s).
Proof.
  intros HI. unfold sendReady. set (j := JObject _). clearbody j.
  pose proof (inv_sendControl s (Z.lor FlagSYN FlagFIN) j HI) as HI2.
  case_step; [|done]. by apply inv_spawn.
Qed.

Lemma inv_markReady s : session_inv s -> session_inv (markReady (set_ready s)).
Proof. intros HI. by apply inv_emit. Qed.

Lemma inv_handleConnect s path v :
  session_inv s -> session_inv (handleConnect callback_error send_error s path v).
Proof.
  intros HI. unfold handleConnect. set (p := match path with [] => _ | _ => _ end).
  set (s2 := if (_ =? 0) then _ else _). assert (session_inv s2) as HI2 by (subst s2; by case_step).
  clearbody s2. case_step; [by apply inv_sendControl|].
  pose proof (inv_notify_each (handlers s2) p s2 HI2) as HI3. unfold notifyHandlers.
  destruct (notify_each _ _ _ _ _) as [s3 [|]]; cbn; [|done]. by apply inv_sendReady, inv_markReady.
Qed.

Lemma inv_handleAuth s pin :
  session_inv s -> session_inv (handleAuth callback_error send_error s pin).
Proof.
  intros HI. unfold handleAuth. destruct (Required (PIN s)); [|done]. cbn.
  destruct (Verify (PIN s) pin).
  - set (p := match connectPath s with [] => _ | q => q end).
    pose proof (inv_notify_each (handlers s) p s HI) as HI3. unfold notifyHandlers.
    destruct (notify_each _ _ _ _ _) as [s3 [|]]; cbn; [|done].
    by apply inv_sendReady, inv_sendControl, inv_markReady.
  - match goal with |- context [sendControl _ ?x _ _] => set (s1 := x) end. change (session_inv s1) in HI. clearbody s1.
    apply (inv_sendControl s1 (Z.lor FlagSYN FlagFIN) (auth_result false)) in HI.
    case_step; [|exact HI]. apply inv_emit; [exact I|]. eapply inv_core; [|exact HI]. reflexivity.
Qed.

Lemma flow_stream_object s sid ref :
  flow_stream s sid = Some ref -> exists st, object s ref = Some st /\ flow st = true /\ streams s !! sid = Some ref.
Proof. unfold flow_stream. repeat case_step; intros; simplify_eq. bool_to_prop. eauto. Qed.

Lemma inv_handleControl s f :
  session_inv s -> session_inv (handleControl callback_error send_error unmarshal_error s f).
Proof.
  intros HI. unfold handleControl, applyWindowUpdate, applyStreamReset, resetMalformedControl.
  repeat case_step; auto with session;
    try (by apply inv_handleConnect); try (by apply inv_handleAuth); try (by apply inv_emit).
  all: by eapply inv_put; [eassumption|apply slot_updateSendMax|].
Qed.

Lemma inv_HandleMessage s data :
  session_inv s -> session_inv (HandleMessage callback_error send_error unmarshal_error s data).
Proof.
  intros HI. unfold HandleMessage. destruct (sclosed s); [done|].
  destruct (ParseFrame data) as [f|]; [|done].
  destruct (StreamID f =? 0) eqn:E; bool_to_prop; [by apply inv_handleControl|].
  by apply inv_handleStreamFrame.
Qed.

(** * Workers *)

Lemma inv_update s ref st st' :
  object s ref = Some st -> same_slot st st' -> session_inv s ->
  session_inv (put_object s ref st') /\ object (put_object s ref st') ref = Some st'.
Proof.
  intros Ho Hs HI. split; [by eapply inv_put|]. unfold object, put_object in *. cbn.
  apply list_lookup_insert_eq. by eapply lookup_lt_Some.
Qed.

Lemma inv_markReceiveClosed s ref : session_inv s -> session_inv (markReceiveClosed s ref).
Proof.
  intros HI. unfold markReceiveClosed. destruct (object s ref) as [st|] eqn:Ho; [|done].
  assert (session_inv (put_object s ref (st <| receiveFIN := true |>))) by (by eapply inv_put).
  case_step; [by apply inv_finish|done].
Qed.

Lemma inv_markSendClosed s ref : session_inv s -> session_inv (markSendClosed s ref).
Proof.
  intros HI. unfold markSendClosed. destruct (object s ref) as [st|] eqn:Ho; [|done].
  assert (session_inv (put_object s ref (st <| sendFIN := true |>))) by (by eapply inv_put).
  case_step; [by apply inv_finish|done].
Qed.

Lemma inv_consume_and_update s ref n :
  session_inv s -> session_inv (consume_and_update send_error s ref n).1.
Proof.
  intros HI. unfold consume_and_update. destruct (object s ref) as [st|] eqn:Ho; [|done].
  pose proof (slot_consume st n) as H1. destruct (consume st n) as [st1 [m|]]; cbn [fst] in H1 |- *; [|by eapply inv_put].
  pose proof (slot_sendWindowUpdate st1 m) as H2.
  destruct (sendWindowUpdate st1 m) as [st2 o]. cbn [fst] in H2.
  assert (session_inv (put_object s ref st2)).
  { eapply inv_put; [exact Ho| |done]. by eapply same_slot_trans. }
  destruct o; cbn [fst]; [by apply inv_dcSend|done].
Qed.

Lemma inv_mark_fragment s ref st f :
  object s ref = Some st -> session_inv s -> session_inv (mark_fragment s ref st f).
Proof. intros Ho HI. unfold mark_fragment. case_step; [by eapply inv_put|done]. Qed.

Lemma inv_after_call s ref st f err :
  object s ref = Some st -> session_inv s -> session_inv (after_call send_error s ref st f err).1.
Proof.
  intros Ho HI. unfold after_call.
  pose proof (inv_mark_fragment s ref st f Ho HI) as HI1.
  revert HI1. generalize (mark_fragment s ref st f). intros s1 HI1.
  destruct err; [done|].
  destruct (IsSYN f); [destruct (IsFIN f); cbn; auto using inv_markReceiveClosed|].
  pose proof (inv_consume_and_update s1 ref (FlowBytes f) HI1) as HI2.
  destruct (consume_and_update _ _ ref (FlowBytes f)) as [s2 [e|]]; [done|].
  destruct (IsFIN f); cbn; auto using inv_markReceiveClosed.
Qed.

Lemma inv_release_room s ref f : session_inv s -> session_inv (release_room s ref f).
Proof. intros HI. unfold release_room. destruct (object s ref) eqn:Ho; [by eapply inv_put|done]. Qed.

Lemma inv_release_frame s ref f err : session_inv s -> session_inv (release_frame s ref f err).
Proof.
  intros HI. unfold release_frame. apply (inv_release_room s ref f) in HI.
  revert HI. generalize (release_room s ref f). intros s1 HI.
  destruct err; [|exact HI].
  eapply inv_core; [|apply (inv_fail s1 (Worker ref) ref $"handler_error" l true HI)]; reflexivity.
Qed.

Lemma inv_worker_take s ref s' : session_inv s -> worker_take s ref = Some s' -> session_inv s'.
Proof.
  intros HI. unfold worker_take. case_step; [done|].
  destruct (workers s !! ref) as [[]|] eqn:Ew; [done| |done].
  destruct (object s ref) as [st|] eqn:Ho; [|done]. destruct (queue st) as [|f q]; [done|].
  case_step.
  - intros [= <-]. assert (session_inv (put_object s ref (dequeued (st <| queue := q |>) f))) by (by eapply inv_put).
    eapply inv_core; [|eassumption]; reflexivity.
  - assert (session_inv (put_object s ref (st <| queue := q |>))) as HI1 by (by eapply inv_put).
    set (s1 := put_object s ref _) in *. clearbody s1.
    destruct (handler_call s1 ref _ f) as [call|e] eqn:Ec; intro_some; [|by apply inv_release_frame].
    apply inv_emit; [|eapply inv_core; [|exact HI1]; reflexivity].
    unfold handler_call in Ec. repeat case_step_in Ec; inv Ec; done.
Qed.

Lemma inv_worker_return s ref s' :
  session_inv s -> worker_return callback_error send_error s ref = Some s' -> session_inv s'.
Proof.
  intros HI. unfold worker_return. destruct (workers s !! ref) as [[f|]|]; try done.
  destruct (object s ref) as [st|] eqn:Ho; [|done].
  pose proof (inv_after_call s ref st f (callback_error (log s)) Ho HI) as HI1.
  destruct (after_call _ _ _ _ _ _) as [s1 err]. intro_some. by apply inv_release_frame.
Qed.

Lemma inv_worker_exit s ref s' : session_inv s -> worker_exit s ref = Some s' -> session_inv s'.
Proof.
  intros HI. unfold worker_exit. repeat case_step; intros H; inv H; exact HI.
Qed.

(** * Writers *)

Lemma reserveSend_open st n st' : reserveSend st n = (st', Reserved) -> closed st = false.
Proof. unfold reserveSend. repeat case_step; intros; simplify_eq; done. Qed.

Lemma inv_put_writer s ref w :
  (w_reserved w = true -> count (is_marker ref) (log s) = 0%nat) -> session_inv s ->
  session_inv (s <| writers := <[ref := w]> (writers s) |>).
Proof.
  intros Hw [HT HR]. split; [exact HT|]. intros r. destruct (HR r) as [R1 R2 R3 R4].
  split; cbn; try done. intros Hc w' Hl. apply lookup_insert_Some in Hl as [[<- <-]|[Hne Hl]]; [|by eapply R3].
  destruct (w_reserved w); [|done]. rewrite Hw in Hc by done. lia.
Qed.

Lemma inv_drop_writer s ref :
  session_inv s -> session_inv (s <| writers := delete ref (writers s) |>).
Proof.
  intros [HT HR]. split; [exact HT|]. intros r. destruct (HR r) as [R1 R2 R3 R4].
  split; cbn; try done. intros Hc w Hl. apply lookup_delete_Some in Hl as [_ Hl]. by eapply R3.
Qed.

Lemma marker_open s ref st :
  session_inv s -> object s ref = Some st -> closed st = false -> count (is_marker ref) (log s) = 0%nat.
Proof.
  intros [_ HR] Ho Hc. destruct (HR ref) as [_ R2 _ _]. unfold closed_nat, object in *.
  rewrite Ho, Hc in R2. lia.
Qed.

Lemma inv_write_reserve s ref s' : session_inv s -> write_reserve s ref = Some s' -> session_inv s'.
Proof.
  intros HI. unfold write_reserve. destruct (writers s !! ref) as [w|] eqn:Ew; [|done].
  destruct (object s ref) as [st|] eqn:Ho; [|done]. destruct (w_reserved w); [done|].
  pose proof (slot_reserveSend st (FlowBytes (mkFrame (id st) (w_flags w) (w_payload w)))) as Hs.
  destruct (reserveSend _ _) as [st' []] eqn:Er; cbn in Hs.
  - intros [= <-]. pose proof (marker_open s ref st HI Ho (reserveSend_open _ _ _ Er)) as Hm.
    apply (inv_put_writer (put_object s ref st')); [done|]. by eapply inv_put.
  - intros [= <-]. by apply inv_drop_writer.
  - case_step; [|done]. intros [= <-]. by apply inv_drop_writer.
Qed.

Lemma inv_write_send s ref s' :
  session_inv s -> write_send send_error s ref = Some s' -> session_inv s'.
Proof.
  intros HI. unfold write_send. case_step; [done|]. destruct (writers s !! ref) as [w|] eqn:Ew; [|done].
  destruct (object s ref) as [st|] eqn:Ho; [|done]. destruct (w_reserved w) eqn:Er; [|done]. cbn.
  pose proof (inv_dcSend s (Some ref) (id st) (w_flags w) (w_payload w)) as HI1.
  destruct (dcSend _ _ _ _ _) as [s1 err]. cbn in HI1. intros [= <-].
  assert (session_inv s1) as HI2.
  { apply HI1; [|done]. destruct HI as [HT HR]. split; [by eapply ids_nonzero|].
    destruct (HR ref) as [_ _ R3 _]. destruct (count _ _); [done|]. specialize (R3 ltac:(lia) w Ew). congruence. }
  match goal with |- context [busy _ ?x] => assert (session_inv x) as HI3; [|generalize dependent x] end.
  - destruct err; [by apply inv_fail|]. case_step; [by apply inv_markSendClosed|done].
  - intros s2 HI3. case_step; [done|]. by apply inv_drop_writer.
Qed.

(** * Goroutines *)

Lemma inv_drop_task s t l1 l2 :
  tasks s = l1 ++ t :: l2 -> (match t with Stop _ _ _ => False | _ => True end) ->
  session_inv s -> session_inv (s <| tasks := l1 ++ l2 |>).
Proof.
  intros Ht Hk [HT HR]. split.
  { eapply table_tasks; [|exact HT]. intros r. rewrite Ht. cbn. rewrite !existsb_app. cbn. by destruct t. } intros r. destruct (HR r) as [R1 R2 R3 R4].
  rewrite Ht in R1, R2. repeat rewrite count_app in R1. repeat rewrite count_app in R2. cbn in R1, R2. split; cbn; rewrite ?count_app; try lia; done.
Qed.

Lemma closed_nat_le objs ref : (closed_nat objs ref <= 1)%nat.
Proof. unfold closed_nat. repeat case_step; lia. Qed.

(** The second critical section: the stream of a [Stop] is out of the table, so that closing it
    takes nothing from the table; and only the call that closes it starts a goroutine. *)
Lemma inv_run_stop s who ref cause l1 l2 s' :
  tasks s = l1 ++ Stop who ref cause :: l2 -> session_inv s ->
  run_task send_error (s <| tasks := l1 ++ l2 |>) (Stop who ref cause) = Some s' -> session_inv s'.
Proof.
  intros Ht [[T1 T2 T3 T4 T5] HR]. cbn [run_task]. intros [= <-].
  assert (Hpend : forall r, existsb (is_stop r) (tasks s) = bool_decide (ref = r) || existsb (is_stop r) (l1 ++ l2)).
  { intros r. rewrite Ht, !existsb_app. cbn. by destruct (existsb _ l1), (bool_decide (ref = r)). }
  assert (ref < length (objects s))%nat as [st Ho]%lookup_lt_is_Some by (apply T5; by rewrite Hpend, bool_decide_true).
  enough (session_inv (stop_stream (s <| tasks := l1 ++ l2 |>) ref cause)) as HI.
  { destruct who; [exact HI|exact HI|by apply inv_drop_writer|exact HI]. }
  unfold stop_stream, object. cbn. rewrite Ho.
  assert (exists st', stopNow st = (st', negb (closed st)) /\ id st' = id st /\ closed st' = true) as (st' & -> & Hid & Hc').
  { unfold stopNow. destruct (closed st) eqn:E; eexists; split_and!; cbn; try done. }
  assert (table_ok (streams s) (<[ref := st']> (objects s)) (sclosed s) (l1 ++ l2)) as HT.
  { split; rewrite ?length_insert; try done.
    - intros sid r Hr. destruct (T1 _ _ Hr) as (o & Hro & Hi & Hc & Hp).
      rewrite Hpend in Hp. apply orb_false_iff in Hp as [Hne%bool_decide_eq_false Hp]. exists o.
      by rewrite list_lookup_insert_ne.
    - intros r o Hr Hc Hp. apply list_lookup_insert_Some in Hr as [(-> & -> & _)|(Hne & Hr)]; [congruence|].
      apply T2; [done..|]. rewrite Hpend, Hp. by rewrite bool_decide_false.
    - intros r o Hr. apply list_lookup_insert_Some in Hr as [(-> & -> & _)|(Hne & Hr)]; [|by eapply T4].
      rewrite Hid. by eapply T4.
    - intros r Hr. apply T5. rewrite Hpend, Hr. by rewrite orb_true_r. }
  assert (Hn : forall r, closed_nat (<[ref := st']> (objects s)) r = if decide (r = ref) then 1%nat else closed_nat (objects s) r).
  { intros r. unfold closed_nat. case_decide; subst.
    - rewrite list_lookup_insert_eq by (by eapply lookup_lt_Some). by rewrite Hc'.
    - by rewrite list_lookup_insert_ne. }
  assert (Hst : closed_nat (objects s) ref = if closed st then 1%nat else 0%nat) by (unfold closed_nat; by rewrite Ho).
  assert (Hres : forall r, resets_ok (<[ref := st']> (objects s)) (writers s) (l1 ++ l2) (log s) r).
  { intros r. destruct (HR r) as [R1 R2 R3 R4]. rewrite Ht in R1, R2. repeat rewrite count_app in R1. repeat rewrite count_app in R2.
    cbn in R1, R2. split; rewrite ?Hn, ?count_app; try done; case_decide; subst; rewrite ?Hst in *; try destruct (closed st); lia. }
  destruct cause as [[[code msg] n]|]; [|by split]. destruct (closed st) eqn:Ec; [by split|]. cbn.
  split; [eapply table_tasks; [|exact HT]; intros r; cbn; by rewrite existsb_app, orb_false_r|].
  intros r. destruct (HR r) as [R1 R2 R3 R4]. rewrite Ht in R1, R2. repeat rewrite count_app in R1. repeat rewrite count_app in R2.
  cbn in R1, R2. split; cbn; rewrite ?Hn, ?count_app; cbn; try done; case_decide; subst; rewrite ?Hst in *;
    rewrite ?(bool_decide_true (ref = ref)), ?(bool_decide_false (ref = r)) by done; lia.
Qed.

(** The goroutine of [failStream] turns its entry in [tasks] into a reset of the handler and, if
    asked to, a notification. *)
Lemma inv_run_fail s l1 l2 ref code msg n s' :
  tasks s = l1 ++ Fail ref code msg n :: l2 -> session_inv s ->
  run_task send_error (s <| tasks := l1 ++ l2 |>) (Fail ref code msg n) = Some s' -> session_inv s'.
Proof.
  intros Ht HI. cbn [run_task]. intros [= <-].
  assert (session_inv (if n then spawn (Notify ref code msg) (emit (OnReset ref code msg) (s <| tasks := l1 ++ l2 |>))
                       else emit (OnReset ref code msg) (s <| tasks := l1 ++ l2 |>)) /\
          session_inv (if n then spawn (Notify ref code msg) (s <| tasks := l1 ++ l2 |>)
                       else s <| tasks := l1 ++ l2 |>)) as [H1 H2];
    [|unfold call_reset; repeat case_step; done].
  pose proof (inv_drop_task s _ l1 l2 Ht I HI) as [HT _].
  destruct HI as [_ HR]. split; (split; [by destruct n; [eapply table_tasks; [|exact HT]; intros; cbn; by rewrite existsb_app, orb_false_r|]|]); intros r;
    destruct (HR r) as [R1 R2 R3 R4]; rewrite Ht in R1, R2; repeat rewrite count_app in R1; repeat rewrite count_app in R2; cbn in R1, R2;
    destruct n; split; cbn; rewrite ?count_app, ?after_snoc; cbn; try done;
    repeat case_decide; rewrite ?Nat.add_0_r; try done; try lia;
    try (apply Forall_app; split; [done|by repeat constructor]); repeat case_bool_decide; try lia.
Qed.

(** The notification goes out while no writer holds the stream. *)
Lemma inv_run_notify s l1 l2 ref code msg s' :
  tasks s = l1 ++ Notify ref code msg :: l2 -> session_inv s ->
  run_task send_error (s <| tasks := l1 ++ l2 |>) (Notify ref code msg) = Some s' -> session_inv s'.
Proof.
  intros Ht HI. pose proof HI as [HT HR]. cbn [run_task].
  change (writers (s <| tasks := l1 ++ l2 |>)) with (writers s).
  change (object (s <| tasks := l1 ++ l2 |>) ref) with (object s ref).
  destruct (writers s !! ref) eqn:Ew; [done|]. destruct (object s ref) as [st|] eqn:Ho; [|done]. intro_some.
  assert (count (is_marker ref) (log s) = 0%nat) as Hm.
  { destruct (HR ref) as [_ R2 _ _]. rewrite Ht in R2. repeat rewrite count_app in R2. cbn in R2.
    rewrite bool_decide_true in R2 by done. pose proof (closed_nat_le (objects s) ref). lia. }
  pose proof (inv_drop_task s _ l1 l2 Ht I HI) as HI1.
  destruct (flow st); [|apply inv_dcSend; [split; [by eapply ids_nonzero|done]|done]].
  unfold sendReset, Session.dcSend. repeat case_step; try done.
  set (pl := print_json _). clearbody pl. cbn [fst].
  split; [exact (proj1 HI1)|]. intros r. destruct (HR r) as [R1 R2 R3 R4]. rewrite Ht in R1, R2.
  repeat rewrite count_app in R1. repeat rewrite count_app in R2. cbn in R1, R2.
  split; cbn; rewrite ?count_app, ?after_snoc; cbn; try lia.
  - case_bool_decide; subst; cbn; lia.
  - case_bool_decide; subst; cbn; [|rewrite Nat.add_0_r; done]. intros _ w Hw. congruence.
  - destruct (decide (count (is_marker r) (log s) = 0)%nat); [constructor|].
    apply Forall_app. split; [done|]. constructor; [|constructor].
    cbn. apply bool_decide_eq_false. intros ->. done.
Qed.

Lemma inv_run_task s t l1 l2 s' :
  tasks s = l1 ++ t :: l2 -> session_inv s ->
  run_task send_error (s <| tasks := l1 ++ l2 |>) t = Some s' -> session_inv s'.
Proof.
  intros Ht HI Hr.
  destruct t as [who ref cause|ref|ref code msg n|ref code msg|sid code msg fl|ref fl pl|];
    [by eapply inv_run_stop| |by eapply inv_run_fail|by eapply inv_run_notify|..];
    pose proof (inv_drop_task s _ l1 l2 Ht I HI) as HI1; revert Hr HI1;
    set (s1 := s <| tasks := l1 ++ l2 |>); clearbody s1; cbn [run_task]; intros Hr HI1.
  - by injection Hr as <-.
  - revert Hr. intro_some. destruct fl; [by apply inv_dcSend|by apply inv_sendStreamError].
  - destruct (writers s1 !! ref); [done|]. destruct (object s1 ref); [|done]. revert Hr. intro_some.
    case_step; [done|]. by apply inv_put_writer.
  - revert Hr. intro_some. by apply inv_emit.
Qed.

(** * Closing *)

Lemma inv_Close s : session_inv s -> session_inv (Close s).
Proof.
  intros [[T1 T2 T3 T4 T5] HR]. unfold Close. destruct (sclosed s) eqn:Ec; [by split; [split; rewrite ?Ec in *|]|].
  set (f := fun ref => Stop Closer ref _). set (rs := (map_to_list (streams s)).*2).
  assert (Hin : forall r, existsb (is_stop r) (map f rs) = true <-> exists sid, streams s !! sid = Some r).
  { intros r. rewrite existsb_exists. split.
    - intros (t & (x & <- & Hx)%in_map_iff & Hb%bool_decide_eq_true). subst.
      apply list_elem_of_In, list_elem_of_fmap in Hx as ([sid x] & -> & Hx). exists sid. by apply elem_of_map_to_list.
    - intros [sid Hr]. exists (f r). split; [|by apply bool_decide_eq_true]. apply in_map, list_elem_of_In, list_elem_of_fmap.
      exists (sid, r). split; [done|]. by apply elem_of_map_to_list. }
  assert (Hno : forall p ts, (forall r, p (f r) = false) -> count p (ts ++ map f rs) = count p ts).
  { intros p ts Hp. rewrite count_app. clear - Hp. induction rs as [|x l IH]; cbn; [lia|]. rewrite Hp. lia. }
  split; [split; cbn; try done|].
  - intros r o Hr Hc (Hp & Hq)%existsb_app_false. specialize (T2 r o Hr Hc Hp).
    assert (existsb (is_stop r) (map f rs) = true) by (apply Hin; by eexists). congruence.
  - intros r. rewrite existsb_app. intros [?|[sid Hr]%Hin]%orb_true_iff; [auto|].
    destruct (T1 _ _ Hr) as (o & Ho & _). by eapply lookup_lt_Some.
  - intros r. destruct (HR r) as [R1 R2 R3 R4]. split; cbn; rewrite ?Hno by done; done.
Qed.

Lemma inv_step s s' : session_inv s -> step s s' -> session_inv s'.
Proof.
  intros HI Hs. destruct Hs.
  - by apply inv_HandleMessage, inv_emit.
  - by eapply inv_run_task.
  - by eapply inv_worker_take.
  - by eapply inv_worker_return.
  - by eapply inv_worker_exit.
  - unfold sendStreamFrame. repeat case_step; cbn; try done. by apply inv_spawn.
  - by eapply inv_write_reserve.
  - by eapply inv_write_send.
  - case_step; [by apply inv_sendControl|done].
  - by apply inv_Close, inv_sendControl.
  - by apply inv_Close.
  - done.
Qed.

Lemma inv_reachable pin hs acc v s : steps step (NewSession pin hs acc v) s -> session_inv s.
Proof.
  intros Hs. eapply (steps_invariant step session_inv); [apply inv_step|exact Hs|apply session_inv_new].
Qed.

(** C19: The stream table names exactly the streams that are open and that no goroutine is about to
    stop (it has taken the stream out of the table, under the session's lock, and not closed it yet,
    under the stream's): an entry points to such a stream with that ID, and every such stream is the
    entry of its ID, so an ID never names two. No stream uses the control stream's ID, a closed
    session's table is empty, and once every stop has run the streams still open are exactly those
    of the table. *)
Theorem stream_table_exact pin hs acc v s :
  steps step (NewSession pin hs acc v) s ->
  (forall sid ref, streams s !! sid = Some ref <->
     exists st, object s ref = Some st /\ id st = sid /\ closed st = false /\ stopping s ref = false) /\
  streams s !! 0 = None /\ (sclosed s = true -> streams s = ∅) /\
  ((forall ref, stopping s ref = false) -> forall ref st, object s ref = Some st ->
     (closed st = false <-> streams s !! id st = Some ref)).
Proof.
  intros Hs. apply inv_reachable in Hs as [[T1 T2 T3 T4 _] _]. split_and!; [| |done|].
  - intros sid ref. split; [apply T1|]. intros (st & Ho & <- & Hc & Hp). by apply T2.
  - destruct (streams s !! 0) eqn:E; [|done]. destruct (T1 _ _ E) as (st & Ho & Hi & _).
    by apply T4 in Ho.
  - intros Hq ref st Ho. split; [intros Hc; apply T2; [exact Ho|exact Hc|exact (Hq ref)]|]. intros (st' & Ho' & _ & Hc & _)%T1. unfold object in Ho. congruence.
Qed.

(** A stream is failed at most once, however many of the dispatcher, its worker, its writers,
    peer resets and the closing of the session race to do it: its handler's [OnReset] runs at
    most once, and only once the stream is closed. *)
Theorem reset_at_most_once pin hs acc v s ref :
  steps step (NewSession pin hs acc v) s ->
  (count (is_reset ref) (log s) <= 1)%nat /\
  ((0 < count (is_reset ref) (log s))%nat -> exists st, object s ref = Some st /\ closed st = true).
Proof.
  intros Hs. apply inv_reachable in Hs as [_ HR]. destruct (HR ref) as [R1 _ _ _].
  pose proof (closed_nat_le (objects s) ref). split; [lia|]. intros Hp. unfold closed_nat, object in *.
  destruct (objects s !! ref) as [st|]; [|lia]. exists st. destruct (closed st); [done|lia].
Qed.

(** The reset of a v4 stream is terminal on the wire: it is sent at most once, and no frame of
    that stream follows it on the ordered data channel, although writers and the reset are
    separate goroutines. *)
Theorem reset_is_terminal pin hs acc v s ref :
  steps step (NewSession pin hs acc v) s ->
  (count (is_marker ref) (log s) <= 1)%nat /\
  Forall (fun o => sent_by ref o = false) (after (is_marker ref) (log s)).
Proof.
  intros Hs. apply inv_reachable in Hs as [_ HR]. destruct (HR ref) as [_ R2 _ R4].
  pose proof (closed_nat_le (objects s) ref). split; [lia|done].
Qed.
End Steps.
