(* ===== verification/SessionTrace.v ===== *)
(** What a listener's session may do and when (Session.v): nothing privileged before the PIN is
    verified, nothing dispatched once it closed and its streams are stopped, one protocol version
    for its lifetime; and where it falls short of what it says of itself: the two hooks that are
    documented to run once but do not, and the dispatching that goes on while it is being closed. *)

From S2P Require Import Prelude Protocol Json Auth ServerStream Session SessionSpec.

(** Outputs that are not a call into a handler or a session hook on behalf of a live peer. *)
Definition silent (o : output) : Prop :=
  match o with
  | OnConnect _ _ | OnSYN _ _ _ | OnDAT _ _ | OnFIN _ _ | OnFragment _ _ _ | OnReady => False
  | _ => True
  end.

(** What every operation does to the session as a whole: the log only grows, by outputs in [P];
    the configuration stays; a negotiated version and the closed flag are never taken back. *)
Record grows (P : output -> Prop) (s s' : session) : Prop := {
  g_log : exists l, log s' = log s ++ l /\ Forall P l;
  g_pin : PIN s' = PIN s;
  g_handlers : handlers s' = handlers s;
  g_version : negotiatedVersion s <> 0 -> negotiatedVersion s' = negotiatedVersion s;
  g_closed : sclosed s = true -> sclosed s' = true;
}.

Lemma grows_refl P s : grows P s s.
Proof. split; try done. exists []. by rewrite app_nil_r. Qed.

Lemma grows_trans P a b c : grows P a b -> grows P b c -> grows P a c.
Proof.
  intros [(l1 & E1 & F1) A2 A3 A4 A5] [(l2 & E2 & F2) B2 B3 B4 B5]. split; try congruence; auto.
  - exists (l1 ++ l2). rewrite E2, E1, app_assoc. split; [done|]. by apply Forall_app.
  - intros Hv. rewrite B4; auto. by rewrite A4.
Qed.

Lemma grows_weaken (P Q : output -> Prop) s s' :
  (forall o, P o -> Q o) -> grows P s s' -> grows Q s s'.
Proof. intros HPQ [(l & E & F) ? ? ? ?]. split; try done. exists l. split; [done|]. by eapply Forall_impl. Qed.

(** An update of fields the relation does not read. *)
Lemma grows_same P s s' :
  log s' = log s -> PIN s' = PIN s -> handlers s' = handlers s ->
  negotiatedVersion s' = negotiatedVersion s -> sclosed s' = sclosed s -> grows P s s'.
Proof. intros E ? ? ? ?. split; try congruence. exists []. by rewrite app_nil_r. Qed.

Lemma grows_emit (P : output -> Prop) s o : P o -> grows P s (emit o s).
Proof. intros Ho. split; try done. exists [o]. split; [done|]. by constructor. Qed.

Lemma grows_put P s ref st : grows P s (put_object s ref st).
Proof. by apply grows_same. Qed.

Lemma grows_spawn P s t : grows P s (spawn t s).
Proof. by apply grows_same. Qed.

Create HintDb grows.
#[local] Hint Resolve grows_refl grows_put grows_spawn : grows.

Lemma grows_finish P s who ref : grows P s (finishState s who ref).
Proof. unfold finishState. destruct (object s ref); [|apply grows_refl]. apply grows_same; cbn; by case_step. Qed.

Lemma grows_fail P s who ref code msg n : grows P s (failStream s who ref code msg n).
Proof.
  unfold failStream. destruct (object s ref) as [st|]; [|apply grows_refl].
  case_step; [apply grows_refl|]. by apply grows_same.
Qed.

Lemma grows_enqueue_or_fail P s ref st f : grows P s (enqueue_or_fail s ref st f).1.
Proof.
  unfold enqueue_or_fail. destruct (enqueue st f) as [st' [e|]]; [|apply grows_put].
  eapply grows_trans; [apply grows_put|apply grows_fail].
Qed.

Section Steps.
Variable callback_error : list output -> option bytes.
Variable send_error : list output -> option bytes.
Variable unmarshal_error : bytes -> bytes.

#[local] Abbreviation dcSend := (dcSend send_error).
#[local] Abbreviation step := (session_step callback_error send_error unmarshal_error).
#[local] Abbreviation sendControl := (sendControl send_error).

Lemma grows_dcSend s owner sid flags payload : grows silent s (dcSend s owner sid flags payload).1.
Proof.
  unfold Session.dcSend. repeat case_step; [apply grows_refl|by apply grows_emit|apply grows_refl].
Qed.

Lemma grows_sendControl s flags j : grows silent s (sendControl s flags j).
Proof. apply grows_dcSend. Qed.

Lemma grows_sendStreamError s sid m : grows silent s (sendStreamError send_error s sid m).
Proof. unfold sendStreamError. do 2 (eapply grows_trans; [apply grows_dcSend|]). apply grows_dcSend. Qed.

Lemma grows_handleStreamFrame s f : grows silent s (handleStreamFrame s f).
Proof.
  unfold handleStreamFrame, rejectStream.
  destruct (negb (ready s)); [case_step; auto with grows|].
  destruct (negb (IsSYN f)).
  - destruct (streams s !! StreamID f); [|apply grows_refl].
    destruct (object s _); [apply grows_enqueue_or_fail|apply grows_refl].
  - destruct (streams s !! StreamID f); [apply grows_fail|].
    destruct (handler_for s _) as [h|]; [|auto with grows].
    destruct (sclosed s) eqn:Hc; [apply grows_refl|].
    match goal with |- context [enqueue_or_fail ?x ?r ?o ?g] =>
      pose proof (grows_enqueue_or_fail silent x r o g) as H; destruct (enqueue_or_fail x r o g) as [s2 ok] end.
    assert (grows silent s s2) as H2 by (eapply grows_trans; [|exact H]; by apply grows_same).
    destruct ok; [|done]. eapply grows_trans; [exact H2|apply grows_spawn].
Qed.

Lemma grows_sendReady s : grows silent s (sendReady send_error s).
Proof.
  unfold sendReady. match goal with |- context [Session.sendControl _ s ?fl ?j] =>
    pose proof (grows_sendControl s fl j) as H; revert H; generalize (sendControl s fl j) end.
  intros s1 H. case_step; [|done]. eapply grows_trans; [exact H|]. by apply grows_same.
Qed.

Lemma grows_notify_each hs path : forall s,
  grows (fun _ => True) s (notify_each callback_error send_error s hs path).1.
Proof.
  induction hs as [|h hs IH]; intros s; cbn [notify_each]; [apply grows_refl|].
  destruct (callback_error _).
  - eapply grows_trans; [by apply grows_emit|]. eapply grows_weaken; [|apply grows_sendControl]. done.
  - eapply grows_trans; [by apply grows_emit|]. apply IH.
Qed.

Lemma grows_accept s path k :
  (forall s1, grows (fun _ => True) s s1 -> grows (fun _ => True) s (k s1)) ->
  let '(s1, ok) := notifyHandlers callback_error send_error s path in
  grows (fun _ => True) s (if negb ok then s1 else k s1).
Proof.
  intros Hk. unfold notifyHandlers. pose proof (grows_notify_each (handlers s) path s) as H.
  destruct (notify_each _ _ _ _ _) as [s1 [|]]; cbn; auto.
Qed.

Lemma grows_ready s s1 :
  grows (fun _ => True) s s1 -> grows (fun _ => True) s (markReady (set_ready s1)).
Proof.
  intros H. eapply grows_trans; [exact H|]. unfold markReady.
  eapply grows_trans; [|by apply grows_emit]. by apply grows_same.
Qed.

Lemma grows_silent_then s s1 s2 :
  grows (fun _ => True) s s1 -> grows silent s1 s2 -> grows (fun _ => True) s s2.
Proof. intros H1 H2. eapply grows_trans; [exact H1|]. by eapply grows_weaken; [|exact H2]. Qed.

Lemma grows_handleConnect s path v :
  grows (fun _ => True) s (handleConnect callback_error send_error s path v).
Proof.
  unfold handleConnect. set (p := match path with [] => _ | _ => _ end).
  match goal with |- context [if Required (PIN ?x) then _ else _] => set (s2 := x) end.
  assert (grows (fun _ => True) s s2) as H2.
  { subst s2. cbn. destruct (negotiatedVersion s =? 0) eqn:E; [|by apply grows_same].
    bool_to_prop. split; try done. exists []. by rewrite app_nil_r. }
  clearbody s2. case_step; [eapply grows_silent_then; [exact H2|apply grows_sendControl]|].
  pose proof (grows_accept s2 p (fun s3 => sendReady send_error (markReady (set_ready s3)))) as H.
  destruct (notifyHandlers _ _ _ _) as [s3 ok]. eapply grows_trans; [exact H2|]. apply H.
  intros s4 H4. eapply grows_silent_then; [by apply grows_ready|apply grows_sendReady].
Qed.

Lemma grows_handleAuth s pin :
  grows (fun _ => True) s (handleAuth callback_error send_error s pin).
Proof.
  unfold handleAuth. destruct (negb _); [apply grows_refl|]. destruct (Verify (PIN s) pin).
  - set (p := match connectPath s with [] => _ | q => q end).
    pose proof (grows_accept s p (fun s1 => sendReady send_error (sendControl (markReady (set_ready s1))
      (Z.lor FlagSYN FlagFIN) (auth_result true)))) as H.
    destruct (notifyHandlers _ _ _ _) as [s3 ok]. apply H. intros s4 H4.
    eapply grows_silent_then; [|apply grows_sendReady].
    eapply grows_silent_then; [|apply grows_sendControl]. by apply grows_ready.
  - match goal with |- context [Session.sendControl _ ?x ?fl ?j] =>
      assert (grows (fun _ => True) s (sendControl x fl j)) as H
        by (eapply grows_silent_then; [|apply grows_sendControl]; by apply grows_same);
      revert H; generalize (sendControl x fl j) end.
    intros s1 H. cbv zeta. case_step; [|exact H]. eapply grows_trans; [exact H|].
    eapply grows_trans; [|by apply grows_emit]. by apply grows_same.
Qed.

Lemma grows_handleControl s f :
  grows (fun _ => True) s (handleControl callback_error send_error unmarshal_error s f).
Proof.
  unfold handleControl, applyWindowUpdate, applyStreamReset, resetMalformedControl.
  repeat case_step; try apply grows_refl; try apply grows_fail; try apply grows_put;
    try apply grows_handleConnect; try apply grows_handleAuth; try by apply grows_emit.
Qed.

Lemma grows_HandleMessage s data :
  grows (fun _ => True) s (HandleMessage callback_error send_error unmarshal_error s data).
Proof.
  unfold HandleMessage. repeat case_step; try apply grows_refl; [apply grows_handleControl|].
  eapply grows_weaken; [|apply grows_handleStreamFrame]. done.
Qed.

Lemma grows_release_frame P s ref f err : grows P s (release_frame s ref f err).
Proof.
  unfold release_frame, release_room. destruct (object s ref) as [st|].
  - destruct err; [|by apply grows_same].
    eapply grows_trans; [apply grows_put|]. eapply grows_trans; [apply grows_fail|]. by apply grows_same.
  - destruct err; [|by apply grows_same]. eapply grows_trans; [apply grows_fail|]. by apply grows_same.
Qed.

(** The worker calls a handler only for a stream that is still open. *)
Lemma grows_worker_take s ref s' :
  worker_take s ref = Some s' ->
  grows (fun o => silent o \/ exists st, object s ref = Some st /\ closed st = false) s s'.
Proof.
  unfold worker_take. case_step; [done|]. destruct (workers s !! ref) as [[]|]; try done.
  destruct (object s ref) as [st|]; [|done]. destruct (queue st) as [|f q]; [done|]. unfold isClosed.
  change (closed (st <| queue := q |>)) with (closed st).
  destruct (closed st) eqn:Ec; [intro_some; by apply grows_same|].
  destruct (handler_call _ _ _ _) as [call|e]; intro_some.
  - eapply grows_trans; [|apply grows_emit; right; by exists st]. by apply grows_same.
  - eapply grows_trans; [apply grows_put|apply grows_release_frame].
Qed.

Lemma grows_mark_closed P s ref :
  grows P s (markReceiveClosed s ref) /\ grows P s (markSendClosed s ref).
Proof.
  unfold markReceiveClosed, markSendClosed. destruct (object s ref); [|split; apply grows_refl].
  split; (case_step; [eapply grows_trans; [apply grows_put|apply grows_finish]|apply grows_put]).
Qed.

Lemma grows_consume_and_update s ref n : grows silent s (consume_and_update send_error s ref n).1.
Proof.
  unfold consume_and_update. destruct (object s ref) as [st|]; [|apply grows_refl].
  destruct (consume st n) as [st1 [m|]]; [|apply grows_put].
  destruct (sendWindowUpdate st1 m) as [st2 [m'|]]; [|apply grows_put].
  eapply grows_trans; [apply grows_put|apply grows_dcSend].
Qed.

Lemma grows_worker_return s ref s' :
  worker_return callback_error send_error s ref = Some s' -> grows silent s s'.
Proof.
  unfold worker_return. destruct (workers s !! ref) as [[f|]|]; try done.
  destruct (object s ref) as [st|]; [|done]. unfold after_call.
  assert (grows silent s (mark_fragment s ref st f)) as H by (unfold mark_fragment; case_step; auto with grows).
  revert H. generalize (mark_fragment s ref st f). intros s1 H1.
  destruct (callback_error (log s)).
  { intro_some. eapply grows_trans; [exact H1|apply grows_release_frame]. }
  destruct (IsSYN f).
  { intro_some. eapply grows_trans; [exact H1|].
    eapply grows_trans; [|apply grows_release_frame]. case_step; [apply grows_mark_closed|apply grows_refl]. }
  pose proof (grows_consume_and_update s1 ref (FlowBytes f)) as H2.
  destruct (consume_and_update _ s1 ref (FlowBytes f)) as [s2 [e|]]; intro_some;
    (eapply grows_trans; [exact H1|]); (eapply grows_trans; [exact H2|]).
  - apply grows_release_frame.
  - eapply grows_trans; [|apply grows_release_frame]. case_step; [apply grows_mark_closed|apply grows_refl].
Qed.

Lemma grows_writers s ref s' :
  write_reserve s ref = Some s' \/ write_send send_error s ref = Some s' -> grows silent s s'.
Proof.
  intros [H|H]; revert H; [unfold write_reserve|unfold write_send; case_step; [done|]];
    (destruct (writers s !! ref) as [w|]; [|done]); (destruct (object s ref) as [st|]; [|done]).
  - case_step; [done|]. destruct (reserveSend _ _) as [st' []]; [|..|case_step; [|done]];
      intro_some; by apply grows_same.
  - case_step; [done|]. pose proof (grows_dcSend s (Some ref) (id st) (w_flags w) (w_payload w)) as H.
    destruct (dcSend _ _ _ _ _) as [s1 err]. intro_some.
    match goal with |- context [busy _ ?x] => assert (grows silent s1 x) as H2; [|generalize dependent x] end.
    { destruct err; [apply grows_fail|]. case_step; [apply grows_mark_closed|apply grows_refl]. }
    intros s2 H2. eapply grows_trans; [exact H|]. eapply grows_trans; [exact H2|]. case_step; by apply grows_same.
Qed.

Lemma grows_stop P s ref cause : grows P s (stop_stream s ref cause).
Proof.
  unfold stop_stream. destruct (object s ref) as [st|]; [|apply grows_refl]. destruct (stopNow st) as [st' []];
    destruct cause as [[[code msg] n]|]; by apply grows_same.
Qed.

Lemma grows_run_task s t s' : run_task send_error s t = Some s' -> grows silent s s'.
Proof.
  destruct t as [who ref cause|ref|ref code msg n|ref code msg|sid code msg fl|ref fl pl|]; cbn [run_task].
  - intro_some. eapply grows_trans; [apply grows_stop|]. destruct who; by apply grows_same.
  - intro_some. by apply grows_same.
  - intro_some. unfold call_reset. eapply (grows_trans _ _ (call_reset s ref code msg)).
    + unfold call_reset. repeat case_step; try apply grows_refl. by apply grows_emit.
    + unfold call_reset. case_step; [apply grows_spawn|apply grows_refl].
  - destruct (writers s !! ref); [done|]. destruct (object s ref); [|done]. intro_some.
    case_step; apply grows_dcSend.
  - intro_some. case_step; [apply grows_dcSend|apply grows_sendStreamError].
  - destruct (writers s !! ref); [done|]. destruct (object s ref); [|done]. intro_some.
    case_step; [apply grows_refl|by apply grows_same].
  - intro_some. by apply grows_emit.
Qed.

Lemma grows_Close P s : grows P s (Close s).
Proof.
  unfold Close. destruct (sclosed s) eqn:Ec; [apply grows_refl|]. split; try done. exists []. by rewrite app_nil_r.
Qed.

(** Every step; and, once the session has closed, with silent outputs only. *)
Lemma grows_step s s' : step s s' -> grows (fun _ => True) s s'.
Proof.
  intros Hs.
  assert (forall t, grows silent s t -> grows (fun _ => True) s t) as Hw
    by (intros t; by apply grows_weaken).
  destruct Hs as [s data Hd|s t l1 l2 s' Ht Hr|s ref s' H|s ref s' H|s ref s' H|s sid fl pl|s ref s' H|s ref s' H|s j|s reason|s|s].
  - eapply grows_trans; [by apply grows_emit|]. apply grows_HandleMessage.
  - eapply grows_trans; [|eapply grows_weaken; [|by eapply grows_run_task]; done]. by apply grows_same.
  - eapply grows_weaken; [|by eapply grows_worker_take]. done.
  - apply Hw. by eapply grows_worker_return.
  - unfold worker_exit in H. repeat case_step_in H; inv H. by apply grows_same.
  - unfold sendStreamFrame. repeat case_step; try apply grows_refl. apply grows_spawn.
  - apply Hw. eapply grows_writers. by left.
  - apply Hw. eapply grows_writers. by right.
  - apply Hw. case_step; [apply grows_sendControl|apply grows_refl].
  - apply Hw. eapply grows_trans; [apply grows_sendControl|apply grows_Close].
  - apply grows_Close.
  - by apply grows_same.
Qed.

Lemma grows_steps s s' : steps step s s' -> grows (fun _ => True) s s'.
Proof. induction 1; [apply grows_refl|]. eapply grows_trans; [by apply grows_step|done]. Qed.

(** Every stream has been stopped. *)
Definition all_closed (s : session) : Prop := forall ref st, object s ref = Some st -> closed st = true.

Lemma closed_same s s' : objects s' = objects s -> all_closed s -> all_closed s'.
Proof. unfold all_closed, object. by intros ->. Qed.

Lemma closed_put s ref st st' :
  object s ref = Some st -> same_slot st st' -> all_closed s -> all_closed (put_object s ref st').
Proof.
  intros Ho (_ & _ & _ & Hc) HA r o Hr. apply list_lookup_insert_Some in Hr as [(-> & <- & _)|(Hne & Hr)]; [|by eapply HA].
  rewrite Hc. by eapply HA.
Qed.

Lemma objects_dcSend s owner sid flags pl : objects (dcSend s owner sid flags pl).1 = objects s.
Proof. unfold Session.dcSend. by repeat case_step. Qed.

Lemma objects_fail s who ref code msg n : objects (failStream s who ref code msg n) = objects s.
Proof. unfold failStream. by repeat case_step. Qed.

Lemma objects_finish s who ref : objects (finishState s who ref) = objects s.
Proof. unfold finishState. by repeat case_step. Qed.

Lemma closed_mark s ref :
  all_closed s -> all_closed (markReceiveClosed s ref) /\ all_closed (markSendClosed s ref).
Proof.
  intros HA. unfold markReceiveClosed, markSendClosed. destruct (object s ref) as [st|] eqn:Ho; [|done].
  split; (case_step; [eapply closed_same; [apply objects_finish|]|]); by eapply closed_put.
Qed.

Lemma closed_release s ref f err : all_closed s -> all_closed (release_frame s ref f err).
Proof.
  intros HA. assert (all_closed (release_room s ref f)) as H1.
  { unfold release_room. destruct (object s ref) as [st|] eqn:Ho; [by eapply closed_put|done]. }
  unfold release_frame. destruct err; [|by eapply closed_same; [|exact H1]].
  eapply closed_same; [|exact H1]. cbn. by rewrite objects_fail.
Qed.

Lemma closed_after_call s ref st f err :
  object s ref = Some st -> all_closed s -> all_closed (after_call send_error s ref st f err).1.
Proof.
  intros Ho HA. unfold after_call. assert (all_closed (mark_fragment s ref st f)) as H1.
  { unfold mark_fragment. case_step; [by eapply closed_put|done]. }
  revert H1. generalize (mark_fragment s ref st f). intros s1 H1. destruct err; [done|].
  destruct (IsSYN f); [destruct (IsFIN f); [by apply closed_mark|done]|].
  assert (all_closed (consume_and_update send_error s1 ref (FlowBytes f)).1) as H2.
  { unfold consume_and_update. destruct (object s1 ref) as [st1|] eqn:Ho1; [|done].
    pose proof (slot_consume st1 (FlowBytes f)) as Hc. destruct (consume _ _) as [st2 [m|]]; [|by eapply closed_put].
    pose proof (slot_sendWindowUpdate st2 m) as Hw. destruct (sendWindowUpdate st2 m) as [st3 [m'|]].
    - eapply closed_same; [apply objects_dcSend|]. eapply closed_put; [done|by eapply same_slot_trans|done].
    - eapply closed_put; [done|by eapply same_slot_trans|done]. }
  destruct (consume_and_update _ _ _ _) as [s2 [e|]]; [done|]. destruct (IsFIN f); [by apply closed_mark|done].
Qed.

Lemma closed_run_task s t s' : all_closed s -> run_task send_error s t = Some s' -> all_closed s'.
Proof.
  intros HA. destruct t as [who ref cause|ref|ref code msg n|ref code msg|sid code msg fl|ref fl pl|]; cbn [run_task].
  - intro_some. assert (all_closed (stop_stream s ref cause)) as H1; [|destruct who; exact H1].
    unfold stop_stream. destruct (object s ref) as [st|] eqn:Ho; [|done].
    assert (all_closed (put_object s ref (stopNow st).1)) as H1.
    { eapply closed_put; [done| |done]. unfold stopNow. by rewrite (HA _ _ Ho). }
    destruct (stopNow st) as [st' []]; destruct cause as [[[code msg] n]|]; exact H1.
  - by intro_some.
  - intro_some. destruct n; (eapply closed_same; [|exact HA]); unfold call_reset; by repeat case_step.
  - destruct (writers s !! ref); [done|]. destruct (object s ref); [|done]. intro_some.
    case_step; (eapply closed_same; [apply objects_dcSend|done]).
  - intro_some. case_step; (eapply closed_same; [|exact HA]); [apply objects_dcSend|].
    unfold sendStreamError. by rewrite !objects_dcSend.
  - destruct (writers s !! ref); [done|]. destruct (object s ref); [|done]. intro_some. by case_step.
  - by intro_some.
Qed.

Lemma closed_writers s ref s' :
  all_closed s -> write_reserve s ref = Some s' \/ write_send send_error s ref = Some s' -> all_closed s'.
Proof.
  intros HA [H|H]; revert H; [unfold write_reserve|unfold write_send; case_step; [done|]];
    (destruct (writers s !! ref) as [w|]; [|done]); (destruct (object s ref) as [st|] eqn:Ho; [|done]).
  - case_step; [done|]. pose proof (slot_reserveSend st (FlowBytes (mkFrame (id st) (w_flags w) (w_payload w)))) as Hsl.
    destruct (reserveSend _ _) as [st' []]; [|..|case_step; [|done]]; intro_some; try exact HA.
    exact (closed_put s ref st st' Ho Hsl HA).
  - case_step; [done|]. pose proof (objects_dcSend s (Some ref) (id st) (w_flags w) (w_payload w)) as H.
    destruct (dcSend _ _ _ _ _) as [s1 err]. intro_some. apply (closed_same _ _ H) in HA.
    assert (forall x, all_closed x -> all_closed (if busy (Writer ref) x then x else x <| writers := delete ref (writers x) |>)) as Hk
      by (intros x Hx; by case_step).
    apply Hk. destruct err; [eapply closed_same; [apply objects_fail|done]|]. case_step; [by apply closed_mark|done].
Qed.

(** The session is closed and [Close] has been through its streams: it stays so. *)
Definition quiet (s : session) : Prop := sclosed s = true /\ streams s = ∅ /\ all_closed s.

Lemma quiet_step s s' : session_inv s -> quiet s -> step s s' -> quiet s'.
Proof.
  intros HI (Hc & _ & HA) Hs. pose proof (g_closed _ _ _ (grows_step _ _ Hs) Hc) as Hc'.
  destruct (inv_step _ _ _ _ _ HI Hs) as [HT _]. split_and!; [done|by apply (table_closed _ _ _ _ HT)|].
  clear HT Hc'. destruct Hs as [s data Hd|s t l1 l2 s' Ht Hr|s ref s' H|s ref s' H|s ref s' H|s sid fl pl|s ref s' H|s ref s' H|s j|s reason|s|s].
  - unfold HandleMessage. cbn. by rewrite Hc.
  - by eapply closed_run_task; [|exact Hr].
  - unfold worker_take in H. case_step_in H; [done|]. destruct (workers s !! ref) as [[]|]; try done.
    destruct (object s ref) as [st|] eqn:Ho; [|done]. destruct (queue st) as [|f q]; [done|]. unfold isClosed in H. cbn in H.
    rewrite (HA _ _ Ho) in H. revert H. intro_some.
    match goal with |- context [dequeued ?x f] => pose proof (closed_put s ref st (dequeued x f) Ho ltac:(by (unfold same_slot; rewrite (HA _ _ Ho))) HA) end. done.
  - unfold worker_return in H. destruct (workers s !! ref) as [[f|]|]; try done. destruct (object s ref) as [st|] eqn:Ho; [|done].
    pose proof (closed_after_call s ref st f (callback_error (log s)) Ho HA) as H1. destruct (after_call _ _ _ _ _ _) as [s1 err].
    revert H. intro_some. by apply closed_release.
  - unfold worker_exit in H. by repeat case_step_in H; inv H.
  - unfold sendStreamFrame. by repeat case_step.
  - eapply closed_writers; [exact HA|by left].
  - eapply closed_writers; [exact HA|by right].
  - case_step; [by eapply closed_same; [apply objects_dcSend|]|done].
  - unfold Goodbye, Close, sendControlError, Session.sendControl.
    case_step; (eapply closed_same; [|exact HA]); cbn; apply objects_dcSend.
  - unfold Close. by rewrite Hc.
  - exact HA.
Qed.

Lemma closed_step s s' : quiet s -> step s s' -> grows silent s s'.
Proof.
  intros (Hc & Ht0 & Hall) Hs.
  destruct Hs as [s data Hd|s t l1 l2 s' Ht Hr|s ref s' H|s ref s' H|s ref s' H|s sid fl pl|s ref s' H|s ref s' H|s j|s reason|s|s].
  - unfold HandleMessage. cbn. rewrite Hc. by apply grows_emit.
  - eapply grows_trans; [|by eapply grows_run_task]. by apply grows_same.
  - eapply grows_weaken; [|by eapply grows_worker_take]. intros o [Ho|(st & Ho & Hcl)]; [done|].
    by rewrite (Hall _ _ Ho) in Hcl.
  - by eapply grows_worker_return.
  - unfold worker_exit in H. repeat case_step_in H; inv H. by apply grows_same.
  - unfold sendStreamFrame. repeat case_step; try apply grows_refl. apply grows_spawn.
  - eapply grows_writers. by left.
  - eapply grows_writers. by right.
  - case_step; [apply grows_sendControl|apply grows_refl].
  - eapply grows_trans; [apply grows_sendControl|apply grows_Close].
  - apply grows_Close.
  - by apply grows_same.
Qed.

(** Once the session is closed and no goroutine has a stream left to stop, no frame is dispatched to
    a handler, no handler sees another connect and no stream is opened, although the data channel
    is still delivering messages and the workers still hold queued frames. *)
Theorem closed_session_is_silent pin hs acc v s s' :
  steps step (NewSession pin hs acc v) s -> sclosed s = true -> (forall ref, stopping s ref = false) -> steps step s s' ->
  sclosed s' = true /\ streams s' = ∅ /\
  exists l, log s' = log s ++ l /\ Forall silent l.
Proof.
  intros H0 Hc Hq Hs. apply inv_reachable in H0.
  assert (quiet s) as HQ.
  { destruct H0 as [[T1 T2 T3 _ _] _]. split_and!; [done|by apply T3|]. intros ref st Ho.
    destruct (closed st) eqn:E; [done|]. pose proof (T2 ref st Ho E (Hq ref)) as Hx. by rewrite T3 in Hx. }
  assert (quiet s' /\ grows silent s s') as ((Hc' & He & _) & Hg).
  { clear Hc Hq. induction Hs as [s|s1 s2 s3 H12 H23 IH]; [by split; [|apply grows_refl]|].
    destruct (IH (inv_step _ _ _ _ _ H0 H12) (quiet_step _ _ H0 HQ H12)) as (? & ?). split; [done|].
    eapply grows_trans; [by apply closed_step|done]. }
  split_and!; [done..|by apply g_log in Hg].
Qed.

(** The protocol version of a session is fixed by the first connect: later connects, whatever
    version they carry, and everything else leave it as it is. *)
Theorem version_is_fixed s s' :
  steps step s s' -> negotiatedVersion s <> 0 -> negotiatedVersion s' = negotiatedVersion s.
Proof. intros Hs Hv. by apply (g_version _ _ _ (grows_steps s s' Hs)). Qed.

(** * The PIN gate *)

(** The PIN a message offers: an [auth] control frame every field of which decodes. *)
Definition auth_attempt (data : bytes) : option bytes :=
  match ParseFrame data with
  | Err _ => None
  | Ok f =>
    if negb (StreamID f =? 0) || negb (IsSYN f) then None else
    match parse_json (Payload f) with
    | None => None
    | Some j =>
      let '(type, ok) := field decode_string [] $"type" j in
      let '(pin, ok') := field decode_string [] $"pin" j in
      if ok && ok' && bool_decide (type = $"auth") then Some pin else None
    end
  end.

(** Somebody sent the right PIN. *)
Definition unlocked (s : session) : Prop :=
  exists data p, Received data ∈ log s /\ auth_attempt data = Some p /\ Verify (PIN s) p = true.

(** What a peer that never gave the PIN can cause. *)
Definition pre_auth (o : output) : Prop :=
  match o with
  | Received _ | Sent None _ _ _ | VideoAnswer _ | VideoCandidate _ | DCClose => True
  | _ => False
  end.

Definition locked (s : session) : Prop :=
  ready s = false /\ authenticated s = false /\ objects s = [] /\ streams s = ∅ /\
  workers s = ∅ /\ writers s = ∅ /\ videoStarted s = false /\
  Forall (fun t => match t with Reject _ _ _ _ => True | _ => False end) (tasks s) /\
  Forall pre_auth (log s).

Lemma locked_emit s o : pre_auth o -> locked s -> locked (emit o s).
Proof.
  intros Ho (?&?&?&?&?&?&?&?&?). unfold locked. cbn. split_and!; try done.
  apply Forall_app. split; [done|]. by constructor.
Qed.

Lemma locked_dcSend s sid flags payload : locked s -> locked (dcSend s None sid flags payload).1.
Proof. intros HL. unfold Session.dcSend. repeat case_step; try done. by apply locked_emit. Qed.

Lemma locked_flow s sid : locked s -> flow_stream s sid = None.
Proof. intros (_&_&_&Hs&_). unfold flow_stream. by rewrite Hs. Qed.

Lemma locked_window s u : locked s -> applyWindowUpdate s u = s.
Proof. intros HL. unfold applyWindowUpdate. rewrite locked_flow by done. by case_step. Qed.

Lemma locked_reset s sid code msg : locked s -> applyStreamReset s sid code msg = s.
Proof. intros HL. unfold applyStreamReset. rewrite locked_flow by done. by case_step. Qed.

Lemma locked_malformed s payload j : locked s -> resetMalformedControl unmarshal_error s payload j = s.
Proof.
  intros HL. unfold resetMalformedControl. destruct (field _ _ _ _) as [sid ok].
  rewrite locked_flow by done. by case_step.
Qed.

Lemma locked_Close s : locked s -> locked (Close s).
Proof.
  intros HL. unfold Close. case_step; [done|]. destruct HL as (?&?&?&->&?). rewrite map_to_list_empty.
  unfold locked. cbn. by rewrite app_nil_r.
Qed.

Lemma locked_handleConnect s path v :
  Required (PIN s) = true -> locked s -> locked (handleConnect callback_error send_error s path v).
Proof.
  intros Hr HL. unfold handleConnect. cbn.
  destruct (negotiatedVersion s =? 0); cbn; rewrite Hr; by apply locked_dcSend.
Qed.

Lemma locked_handleAuth s pin :
  Verify (PIN s) pin = false -> locked s -> locked (handleAuth callback_error send_error s pin).
Proof.
  intros Hv HL. unfold handleAuth. case_step; [done|]. rewrite Hv.
  match goal with |- context [Session.sendControl _ ?x ?fl ?j] =>
    assert (locked (sendControl x fl j)) as H by (by apply locked_dcSend);
    revert H; generalize (sendControl x fl j) end.
  intros s1 H. cbv zeta. case_step; [|done]. by apply locked_emit.
Qed.

Lemma locked_HandleMessage s data :
  Required (PIN s) = true -> locked s ->
  (forall p, auth_attempt data = Some p -> Verify (PIN s) p = false) ->
  locked (HandleMessage callback_error send_error unmarshal_error s data).
Proof.
  intros Hr HL Ha. unfold HandleMessage. case_step; [done|].
  unfold auth_attempt in Ha. destruct (ParseFrame data) as [f|]; [|done].
  destruct (StreamID f =? 0); cbn in Ha.
  2:{ unfold handleStreamFrame. destruct HL as (Hre & HL). rewrite Hre. cbn. destruct HL as (?&?&?&?&?&?&?&?).
      unfold rejectStream. case_step; [|done]. unfold locked. cbn. split_and!; try done.
      apply Forall_app. split; [done|]. by constructor. }
  unfold handleControl. destruct (IsSYN f); cbn in Ha |- *; [|done].
  destruct (parse_json (Payload f)) as [j|]; [|done].
  destruct (field decode_string [] $"type" j) as [type ok]. destruct ok; cbn; [|done].
  destruct (decide (type = $"window_update")); [destruct (decode_window_update j) as [u []];
    rewrite ?locked_window, ?locked_malformed by done; done|].
  destruct (decide (type = $"stream_reset")); [repeat case_step; rewrite ?locked_reset, ?locked_malformed by done; done|].
  destruct (field decode_string [] $"path" j) as [path ok1].
  destruct (field decode_string [] $"pin" j) as [pin ok2].
  destruct (field decode_int 0 _ j) as [version ok3].
  destruct (field decode_string [] $"sdp" j) as [sdp ok4].
  destruct (field decode_map None _ j) as [cand ok5].
  destruct ok1, ok2, ok3, ok4, ok5; cbn; try done.
  destruct (decide (type = $"connect")); [by apply locked_handleConnect|].
  destruct (decide (type = $"auth")).
  { apply locked_handleAuth; [|done]. apply Ha. rewrite bool_decide_true by done.
    done. }
  repeat case_step; try done; by apply locked_emit.
Qed.

Lemma unlocked_grows s s' : grows (fun _ => True) s s' -> unlocked s -> unlocked s'.
Proof.
  intros [(l & E & _) Hp _ _ _] (data & p & Hin & Ha & Hv). exists data, p. rewrite E, Hp.
  split; [|done]. apply elem_of_app. by left.
Qed.

Lemma locked_step s s' :
  Required (PIN s) = true -> locked s -> step s s' -> locked s' \/ unlocked s'.
Proof.
  intros Hr HL Hs. pose proof HL as (Hre&_&Ho&Hst&Hw&Hwr&Hvs&Ht&_).
  destruct Hs as [s data Hd|s t l1 l2 s' Ht' Hrun|s ref s' H|s ref s' H|s ref s' H|s sid fl pl|s ref s' H|s ref s' H|s j|s reason|s|s].
  - assert (locked (emit (Received data) s)) as HL' by (by apply locked_emit).
    destruct (auth_attempt data) as [p|] eqn:Ea.
    + destruct (Verify (PIN s) p) eqn:Ev.
      * right. eapply unlocked_grows; [apply grows_HandleMessage|]. exists data, p. split_and!; try done.
        cbn. apply elem_of_app. right. by apply list_elem_of_singleton.
      * left. apply locked_HandleMessage; [done|done|]. intros p'. by intros [= <-]%(eq_trans (eq_sym Ea)).
    + left. apply locked_HandleMessage; [done|done|]. intros p'. congruence.
  - left. rewrite Ht' in Ht. apply Forall_app in Ht as [Ht1 Ht2].
    apply Forall_cons in Ht2 as [Ht Ht2]. destruct t as [| | | |sid code msg fl| |]; try done.
    assert (locked (s <| tasks := l1 ++ l2 |>)) as HL'.
    { destruct HL as (?&?&?&?&?&?&?&?&?). unfold locked. cbn. split_and!; try done. by apply Forall_app. }
    cbn [run_task] in Hrun. apply (inj Some) in Hrun as <-. destruct fl; [by apply locked_dcSend|].
    unfold sendStreamError. by repeat apply locked_dcSend.
  - unfold worker_take in H. case_step_in H; [done|]. by rewrite Hw, lookup_empty in H.
  - unfold worker_return in H. by rewrite Hw, lookup_empty in H.
  - unfold worker_exit in H. case_step_in H; [done|]. by rewrite Hw, lookup_empty in H.
  - left. unfold sendStreamFrame. rewrite Hst, lookup_empty. by repeat case_step.
  - unfold write_reserve in H. by rewrite Hwr, lookup_empty in H.
  - unfold write_send in H. case_step_in H; [done|]. by rewrite Hwr, lookup_empty in H.
  - left. by rewrite Hvs.
  - left. unfold Goodbye, sendControlError. apply locked_Close. by apply locked_dcSend.
  - left. by apply locked_Close.
  - by left.
Qed.

(** Behind a PIN, nothing privileged happens before it was given. *)
Lemma locked_or_unlocked pin hs acc v s :
  Required pin = true -> steps step (NewSession pin hs acc v) s -> PIN s = pin /\ (locked s \/ unlocked s).
Proof.
  intros Hr Hs. split; [by rewrite (g_pin _ _ _ (grows_steps _ _ Hs))|].
  assert (locked (NewSession pin hs acc v) \/ unlocked (NewSession pin hs acc v)) as H0
    by (left; unfold locked; by split_and!).
  revert H0. assert (Required (PIN (NewSession pin hs acc v)) = true) as Hreq by done.
  revert Hreq. clear Hr. induction Hs as [s|s1 s2 s3 H12 H23 IH]; intros Hreq H0; [done|].
  pose proof (grows_step _ _ H12) as Hg. apply IH; [by rewrite (g_pin _ _ _ Hg)|].
  destruct H0 as [HL|HU]; [by eapply locked_step|right; by eapply unlocked_grows].
Qed.

(** C1: The PIN gate: on a listener with a PIN, whatever a peer sends and however the goroutines
    interleave, the session does not become ready, no handler is called, no stream is opened and
    no hook runs unless the peer sent an [auth] message with a PIN that verifies; before that it
    can only cause control replies, stream rejections, the closing of the channel and messages
    to the video helper. *)
Theorem pin_gate pin hs acc v s :
  Required pin = true -> steps step (NewSession pin hs acc v) s ->
  (ready s = true \/ objects s <> [] \/ exists o, o ∈ log s /\ ~ pre_auth o) ->
  exists data p, Received data ∈ log s /\ auth_attempt data = Some p /\ Verify pin p = true.
Proof.
  intros Hr Hs Hpriv.
  destruct (locked_or_unlocked _ _ _ _ _ Hr Hs) as [Hp [HL|HU]].
  - destruct HL as (Hre&_&Ho&_&_&_&_&_&Hl). destruct Hpriv as [?|[?|(o & Hin & Hn)]]; [congruence|done|].
    rewrite Forall_forall in Hl. by apply Hl in Hin.
  - unfold unlocked in HU. by rewrite Hp in HU.
Qed.
End Steps.

(** * Witnesses: runs on real wire bytes *)

Definition accepting (_ : list output) : option bytes := None.
Definition no_text (_ : bytes) : bytes := [].
Abbreviation sample_step := (session_step accepting accepting no_text).
Abbreviation sample_message s data :=
  (HandleMessage accepting accepting no_text (emit (Received data) s) data).

Definition tcp_handler : handler_info := mkHandler "tcp" false true.
Definition control (text : bytes) : bytes := BuildFrame 0 FlagSYN (json_text text).
Definition connect_msg : bytes := control $"{'type':'connect','path':'/','version':4}".
Definition auth_msg : bytes := control $"{'type':'auth','pin':'1234'}".
Definition open_msg : bytes := BuildFrame 1 FlagSYN (json_text $"{'type':'tcp','host':'h','port':22}").

Definition pin_session : session := NewSession (New $"1234") [tcp_handler] [] false.
Definition open_session : session := NewSession None [tcp_handler] [] false.

Definition asked : session := sample_message pin_session connect_msg.
Definition authed : session := sample_message asked auth_msg.
Definition connected : session := sample_message open_session connect_msg.
Definition streaming : session := sample_message connected open_msg.

(** One message, as a run of one step. *)
Lemma sample_run s data : busy Dispatcher s = false -> steps sample_step s (sample_message s data).
Proof. intros Hb. apply steps_one. exact (ss_message accepting accepting no_text s data Hb). Qed.

Lemma authed_reachable : steps sample_step pin_session authed.
Proof. exact (steps_trans _ _ asked _ (sample_run pin_session connect_msg eq_refl) (sample_run asked auth_msg ltac:(vm_compute; reflexivity))). Qed.

Lemma streaming_reachable : steps sample_step open_session streaming.
Proof.
  exact (steps_trans _ _ connected _ (sample_run open_session connect_msg eq_refl)
           (sample_run connected open_msg ltac:(vm_compute; reflexivity))).
Qed.

Lemma pin_gate_witness :
  ready authed = true /\
  exists data p, Received data ∈ log authed /\ auth_attempt data = Some p /\ Verify (New $"1234") p = true.
Proof.
  split; [vm_compute; reflexivity|].
  apply (pin_gate accepting accepting no_text (New $"1234") [tcp_handler] [] false authed).
  - vm_compute. reflexivity.
  - exact authed_reachable.
  - left. vm_compute. reflexivity.
Defined.

Lemma stream_table_exact_witness :
  streams streaming !! 1 = Some 0%nat /\ streams streaming !! 0 = None.
Proof.
  split; [vm_compute; reflexivity|].
  apply (stream_table_exact accepting accepting no_text None [tcp_handler] [] false streaming).
  exact streaming_reachable.
Defined.

(** The stream fails on a duplicate SYN, its handler is reset and the peer notified. *)
Definition failing : session := sample_message streaming open_msg.
Definition after_task (s : session) : session :=
  match tasks s with
  | t :: ts => default s (run_task accepting (s <| tasks := ts |>) t)
  | [] => s
  end.
Definition reset_done : session := after_task (after_task (after_task (after_task failing))).

Lemma after_task_step s :
  steps sample_step s (after_task s).
Proof.
  unfold after_task. destruct (tasks s) as [|t ts] eqn:E; [apply steps_refl|].
  destruct (run_task accepting (s <| tasks := ts |>) t) as [s'|] eqn:R; cbn; [|apply steps_refl].
  apply steps_one. by eapply (ss_task _ _ _ s t [] ts).
Qed.

Lemma reset_done_reachable : steps sample_step open_session reset_done.
Proof.
  refine (steps_trans _ _ streaming _ streaming_reachable _).
  refine (steps_trans _ _ failing _ (sample_run streaming open_msg ltac:(vm_compute; reflexivity)) _).
  refine (steps_trans _ _ (after_task failing) _ (after_task_step _) _).
  refine (steps_trans _ _ (after_task (after_task failing)) _ (after_task_step _) _).
  exact (steps_trans _ _ (after_task (after_task (after_task failing))) _ (after_task_step _) (after_task_step _)).
Qed.

Lemma reset_at_most_once_witness :
  count (is_reset 0) (log reset_done) = 1%nat /\ (count (is_reset 0) (log reset_done) <= 1)%nat.
Proof.
  split; [vm_compute; reflexivity|].
  apply (reset_at_most_once accepting accepting no_text None [tcp_handler] [] false reset_done 0).
  exact reset_done_reachable.
Defined.

Lemma reset_is_terminal_witness :
  count (is_marker 0) (log reset_done) = 1%nat /\
  Forall (fun o => sent_by 0 o = false) (after (is_marker 0) (log reset_done)).
Proof.
  split; [vm_compute; reflexivity|].
  apply (reset_is_terminal accepting accepting no_text None [tcp_handler] [] false reset_done 0).
  exact reset_done_reachable.
Defined.

(** The session is closed while its stream has a frame queued: [stopped] is after [Close] has been
    through its streams, [closing] before. *)
Definition closing : session := Close (after_task streaming).
Definition stopped : session := after_task closing.

Lemma closing_reachable : steps sample_step open_session closing.
Proof.
  refine (steps_trans _ _ streaming _ streaming_reachable _).
  refine (steps_trans _ _ (after_task streaming) _ (after_task_step _) _). apply steps_one.
  exact (ss_close accepting accepting no_text (after_task streaming)).
Qed.

Lemma closed_session_is_silent_witness :
  streams (sample_message stopped open_msg) = ∅.
Proof.
  apply (closed_session_is_silent accepting accepting no_text None [tcp_handler] [] false stopped).
  - exact (steps_trans _ _ closing _ closing_reachable (after_task_step _)).
  - vm_compute. reflexivity.
  - intros ref. vm_compute. reflexivity.
  - apply sample_run. vm_compute. reflexivity.
Defined.

(** "Once true it dispatches nothing further", says the session of [Closed]; but between the moment
    [Close] sets it and the moment it has stopped the stream, a worker still hands a queued frame,
    here the one that opens the stream, to the handler. *)
Lemma closed_session_dispatches :
  sclosed closing = true /\
  exists s', worker_take closing 0 = Some s' /\ exists pl final, OnSYN 0 pl final ∈ log s' /\ OnSYN 0 pl final ∉ log closing.
Proof.
  split; [vm_compute; reflexivity|]. eexists. split; [vm_compute; reflexivity|].
  eexists _, _. split; [apply list_elem_of_In; vm_compute; repeat (first [left; reflexivity|right])|].
  rewrite list_elem_of_In. vm_compute. intros H. repeat destruct H as [H|H]; try discriminate H; done.
Qed.

Lemma version_is_fixed_witness :
  negotiatedVersion connected = 4 /\
  negotiatedVersion (sample_message connected (control $"{'type':'connect','version':2}")) = 4.
Proof.
  split; [vm_compute; reflexivity|].
  apply (version_is_fixed accepting accepting no_text connected).
  - apply sample_run. vm_compute. reflexivity.
  - vm_compute. discriminate.
Defined.

(** The hook documented to run exactly once, and the [OnConnect] documented to be called once per
    session, run again on every connect that is accepted. *)
Lemma ready_hook_repeats :
  count (fun o => match o with OnReady => true | _ => false end)
    (log (sample_message connected connect_msg)) = 2%nat /\
  count (fun o => match o with OnConnect _ _ => true | _ => false end)
    (log (sample_message connected connect_msg)) = 2%nat.
Proof. vm_compute. split; reflexivity. Qed.

(** Before any PIN was given, a message for the video helper is relayed to it. *)
Lemma video_before_pin :
  let s := sample_message (NewSession (New $"1234") [tcp_handler] [] true)
             (control $"{'type':'video_answer','sdp':'x'}") in
  ready s = false /\ VideoAnswer $"x" ∈ log s.
Proof. vm_compute. split; [reflexivity|]. right. left. Qed.
