(* ===== verification/FrameQueue.v ===== *)
(** The backlog of a peer whose session does not exist yet (internal/framequeue/queue.go): each
    definition is a critical section under the queue's mutex, and [qsys] adds what runs outside
    it: the draining goroutine with its deferred last section, and the delivery a caller makes
    directly. Frames of one peer arrive on one goroutine. *)

From S2P Require Import Prelude.

Definition DefaultMaxPendingBytes : Z := Z.shiftl 256 10.

Record Queue := mkQueue {
  qclosed : bool;
  conn : bool;                (* a connection is attached *)
  published : bool;
  deliver : bool;             (* a delivery target is installed *)
  dispatching : bool;
  pending : list bytes;
  pendingBytes : Z;
  maxBytes : Z
}.

#[export] Instance eta_Queue : Eta Queue := fun q =>
  mkQueue (qclosed q) (conn q) (published q) (deliver q) (dispatching q) (pending q)
    (pendingBytes q) (maxBytes q).

Definition NewQueue (conn : bool) (maxBytes : Z) : Queue :=
  mkQueue false conn false false false [] 0
    (if maxBytes <=? 0 then DefaultMaxPendingBytes else maxBytes).

Definition SetConn (q : Queue) (c : bool) : Queue := q <| conn := c |>.
Definition SetDeliver (q : Queue) (d : bool) : Queue := q <| deliver := d |>.

(** What [Enqueue] decided under the lock. *)
Inductive enqueue_outcome :=
| Dropped           (* the queue is closed *)
| Overflow          (* the connection is closed instead of buffering *)
| Queued
| Direct.           (* the caller delivers the frame itself *)

Definition Enqueue (q : Queue) (data : bytes) : Queue * enqueue_outcome :=
  if qclosed q then (q, Dropped)
  else if negb (published q) || dispatching q then
    if pendingBytes q + zlen data >? maxBytes q then (q, Overflow)
    else (q <| pending := pending q ++ [data] |> <| pendingBytes := pendingBytes q + zlen data |>, Queued)
  else (q, Direct).

Definition takePendingLocked (q : Queue) : Queue * list bytes :=
  (q <| pending := [] |> <| pendingBytes := 0 |>, pending q).

(** [Some batch]: the goroutine draining [batch] is started. *)
Definition Publish (q : Queue) (target : bool) : Queue * option (list bytes) :=
  if qclosed q then (q, None) else
  let q1 := if target && negb (deliver q) then q <| deliver := true |> else q in
  let '(q2, batch) := takePendingLocked (q1 <| published := true |> <| dispatching := true |>) in
  (q2, Some batch).

Definition Close (q : Queue) : Queue * bool :=
  if qclosed q then (q, false)
  else (q <| qclosed := true |> <| pending := [] |> <| pendingBytes := 0 |>, true).

Definition Draining (q : Queue) : bool := dispatching q.
Definition IsClosed (q : Queue) : bool := qclosed q.

(** Where [drain] is: between frames of its batch, inside a delivery, returning with the deferred
    section still to run, or over. *)
Inductive drainer := NoDrain | Batch (l : list bytes) | Delivering (d : bytes) (l : list bytes) | Returning.

Record qsys := mkSys {
  q : Queue;
  drain : drainer;
  direct : option bytes;        (* the frame the caller of [Enqueue] is delivering *)
  accepted : list bytes;        (* frames that were queued or taken for direct delivery *)
  delivered : list bytes;
  conn_closed : bool
}.

#[export] Instance eta_qsys : Eta qsys := fun s =>
  mkSys (q s) (drain s) (direct s) (accepted s) (delivered s) (conn_closed s).

Definition enqueue_step (s : qsys) (data : bytes) : qsys :=
  let '(q', out) := Enqueue (q s) data in
  let s1 := s <| q := q' |> in
  match out with
  | Dropped => s1
  | Overflow => if conn (q s) then s1 <| conn_closed := true |> else s1
  | Queued => s1 <| accepted := accepted s ++ [data] |>
  | Direct => s1 <| accepted := accepted s ++ [data] |> <| direct := Some data |>
  end.

(** One step of [drain] as the loop takes it. *)
Definition drain_step (s : qsys) : qsys :=
  match drain s with
  | NoDrain => s
  | Batch (d :: l) =>
    if qclosed (q s) then s <| drain := Returning |>
    else if deliver (q s) then s <| drain := Delivering d l |>
    else s <| drain := Batch l |>
  | Delivering d l => s <| delivered := delivered s ++ [d] |> <| drain := Batch l |>
  | Batch [] =>
    if qclosed (q s) then s <| drain := Returning |> else
    let '(q', batch) := takePendingLocked (q s) in
    match batch with
    | [] => s <| q := q' |> <| drain := Returning |>
    | _ => s <| q := q' |> <| drain := Batch batch |>
    end
  | Returning => s <| q := (q s) <| dispatching := false |> |> <| drain := NoDrain |>
  end.

Definition publish_step (s : qsys) : qsys :=
  let '(q', started) := Publish (q s) true in
  match started with
  | Some batch => s <| q := q' |> <| drain := Batch batch |>
  | None => s <| q := q' |>
  end.

Definition close_step (s : qsys) : qsys :=
  let '(q', did) := Close (q s) in
  let s1 := s <| q := q' |> in
  if did && conn (q s) then s1 <| conn_closed := true |> else s1.

Definition direct_step (s : qsys) (d : bytes) : qsys :=
  s <| delivered := delivered s ++ [d] |> <| direct := None |>.

(** [gap_ok]: whether an [Enqueue] may fall between the two last sections of [drain]. Owners
    publish once and attach the connection before frames flow. *)
Inductive qstep (gap_ok : bool) : qsys -> qsys -> Prop :=
| q_enqueue s data :
    direct s = None -> (gap_ok = true \/ drain s <> Returning) ->
    qstep gap_ok s (enqueue_step s data)
| q_direct s d : direct s = Some d -> qstep gap_ok s (direct_step s d)
| q_drain s : qstep gap_ok s (drain_step s)
| q_publish s : published (q s) = false -> qstep gap_ok s (publish_step s)
| q_close s : qstep gap_ok s (close_step s).

Definition NewSys (maxBytes : Z) : qsys := mkSys (NewQueue true maxBytes) NoDrain None [] [] false.

(** The frames on their way, in order. *)
Definition in_flight (s : qsys) : list bytes :=
  (match drain s with Batch l => l | Delivering d l => d :: l | _ => [] end) ++ option_list (direct s)
  ++ pending (q s).

Fixpoint total (l : list bytes) : Z := match l with [] => 0 | d :: l' => zlen d + total l' end.

Lemma total_app l k : total (l ++ k) = total l + total k.
Proof. induction l as [|d l IH]; cbn; lia. Qed.

(** * Bounds, and when frames may be delivered *)

Definition queue_ok (s : qsys) : Prop :=
  pendingBytes (q s) = total (pending (q s)) /\ pendingBytes (q s) <= maxBytes (q s) /\
  0 < maxBytes (q s) /\
  (published (q s) = false ->
   drain s = NoDrain /\ direct s = None /\ delivered s = [] /\ deliver (q s) = false) /\
  (dispatching (q s) = true <-> drain s <> NoDrain) /\
  (published (q s) = true -> deliver (q s) = true).

Lemma queue_ok_new limit : queue_ok (NewSys limit).
Proof.
  unfold queue_ok. cbn. destruct (Z.leb_spec limit 0); split_and!; try done; try lia.
Qed.

#[local] Ltac queue_ok_tac :=
  unfold queue_ok; cbn; split_and!; intros; try lia; try congruence;
  intuition (congruence || lia || auto).

Lemma queue_ok_step g s s' : queue_ok s -> qstep g s s' -> queue_ok s'.
Proof.
  intros HI Hs. pose proof HI as (H1 & H2 & H3 & H4 & H5 & H6).
  destruct Hs as [s data Hd _|s d Hd|s|s Hp|s].
  - unfold enqueue_step, Enqueue. destruct (qclosed (q s)); [queue_ok_tac|].
    destruct (negb (published (q s)) || dispatching (q s)) eqn:E.
    + destruct (_ >? _) eqn:Eo; bool_to_prop; [case_step; queue_ok_tac|].
      unfold queue_ok. cbn. rewrite total_app. cbn. split_and!; try done; lia.
    + bool_to_prop. queue_ok_tac.
  - unfold direct_step. queue_ok_tac.
  - unfold drain_step, takePendingLocked. destruct (published (q s)) eqn:Hp.
    + destruct (drain s) as [|[|d l]|d l|] eqn:Edr; [done|..]; repeat case_step; queue_ok_tac.
    + destruct (H4 eq_refl) as [-> _]. done.
  - unfold publish_step, Publish, takePendingLocked. destruct (H4 Hp) as (Hdr & Hdi & Hde & Hdl).
    destruct (qclosed (q s)); [queue_ok_tac|]. rewrite Hdl. queue_ok_tac.
  - unfold close_step, Close. destruct (qclosed (q s)); [queue_ok_tac|]. case_step; queue_ok_tac.
Qed.

(** Whatever arrives and whenever, the backlog of a peer without a session holds at most
    [maxBytes] bytes (256 KiB unless the owner asks otherwise), its byte count is exact, and no
    frame is delivered before the session is published. *)
Theorem backlog_bounded limit g s :
  steps (qstep g) (NewSys limit) s ->
  total (pending (q s)) <= maxBytes (q s) /\
  pendingBytes (q s) = total (pending (q s)) /\
  (delivered s <> [] -> published (q s) = true).
Proof.
  intros Hs. assert (queue_ok s) as (H1 & H2 & _ & H4 & _).
  { eapply (steps_invariant (qstep g) queue_ok); [apply queue_ok_step|exact Hs|apply queue_ok_new]. }
  split_and!; [lia|done|]. intros Hd. destruct (published (q s)); [done|]. destruct (H4 eq_refl) as (_&_&?&_). done.
Qed.

(** * Order *)

(** Until the queue closes nothing is lost or reordered, and the direct path is open only when
    nothing is queued. *)
Definition order_ok (s : qsys) : Prop :=
  queue_ok s /\
  (qclosed (q s) = false -> accepted s = delivered s ++ in_flight s) /\
  (qclosed (q s) = false -> drain s = Returning -> pending (q s) = []) /\
  (direct s <> None -> dispatching (q s) = false /\ published (q s) = true /\ pending (q s) = [] /\ drain s = NoDrain) /\
  (qclosed (q s) = false -> published (q s) = true -> drain s = NoDrain -> pending (q s) = []).

#[local] Ltac open_queue Hord Hret Hidle :=
  specialize (Hord eq_refl); specialize (Hret eq_refl); specialize (Hidle eq_refl).

Lemma order_ok_step s s' : order_ok s -> qstep false s s' -> order_ok s'.
Proof.
  intros HO Hs. pose proof HO as (HI & Hord & Hret & Hdir & Hidle). pose proof (queue_ok_step _ _ _ HI Hs) as HI'.
  pose proof HI as (_ & _ & _ & H4 & H5 & H6). split; [exact HI'|]. clear HI'.
  destruct Hs as [s data Hd Hg|s d Hd|s|s Hp|s].
  - destruct Hg as [?|Hg]; [done|]. unfold enqueue_step, Enqueue.
    destruct (qclosed (q s)) eqn:Ec; [cbn; split_and!; congruence|]. open_queue Hord Hret Hidle.
    destruct (negb (published (q s)) || dispatching (q s)) eqn:E.
    + destruct (_ >? _); [case_step; cbn; split_and!; auto|]. unfold in_flight in *. cbn. rewrite Hd in *.
      rewrite Hord. rewrite <- !app_assoc. split_and!; try done. intros _ Hp Hn. rewrite Hp in E. cbn in E.
      apply H5 in E. done.
    + bool_to_prop. unfold in_flight in *. cbn. rewrite Hd in Hord.
      assert (drain s = NoDrain) as Hn by (destruct (drain s); [done|..]; exfalso; assert (dispatching (q s) = true) by (by apply H5); congruence).
      rewrite Hn in *. rewrite Hord, Hidle by done. cbn. rewrite !app_nil_r. split_and!; try done.
  - destruct Hdir as (? & ? & Hpe & Hn); [congruence|]. unfold in_flight, direct_step in *. cbn.
    rewrite Hd, Hn, Hpe in *. cbn in *. split_and!; try done. intros Hc. rewrite Hord by done. by rewrite app_nil_r.
  - unfold drain_step, takePendingLocked.
    destruct (drain s) as [|[|d l]|d l|] eqn:Edr; [exact (proj2 HO)|..];
      (destruct (direct s) eqn:Hd; [by destruct Hdir as (_&_&_&?)|]);
      unfold in_flight in *; rewrite Edr, Hd in Hord; cbn in Hord.
    + destruct (qclosed (q s)) eqn:Ec; [by cbn; rewrite ?Hd, ?Ec; split_and!|].
      specialize (Hord eq_refl). destruct (pending (q s)) eqn:Ep; cbn; rewrite Hd, Hord, ?app_nil_r; by split_and!.
    + destruct (qclosed (q s)) eqn:Ec; [by cbn; rewrite ?Hd, ?Ec; split_and!|].
      assert (deliver (q s) = true) as -> by (apply H6; destruct (published (q s)); [done|]; by destruct H4).
      cbn. rewrite Hd, Hord by done. by split_and!.
    + cbn. rewrite Hd. split_and!; try done. intros Hc. rewrite Hord by done. by rewrite <- app_assoc.
    + cbn. rewrite Hd. split_and!; try done. intros Hc _ _. by apply Hret.
  - destruct (H4 Hp) as (Hdr & Hdi & Hde & Hdl). unfold publish_step, Publish, takePendingLocked.
    unfold in_flight in *. rewrite Hdr, Hdi in *. cbn in Hord.
    destruct (qclosed (q s)) eqn:Ec; [by cbn; rewrite ?Hdr, ?Hdi, ?Ec; split_and!|].
    rewrite Hdl. cbn. rewrite Hdi, Hord by done. rewrite app_nil_r. by split_and!.
  - unfold close_step, Close. destruct (qclosed (q s)) eqn:Ec; [by cbn; rewrite ?Ec; split_and!|].
    cbn. case_step; cbn; split_and!; try done; intros; destruct Hdir as (?&?&?&?); done.
Qed.

(** While the queue is open, frames are delivered in the order they arrived and none is lost or
    duplicated: the frames accepted so far are the delivered ones followed by the ones in flight,
    in every interleaving in which no frame arrives between the two last critical sections of
    [drain]. *)
Theorem backlog_in_order limit s :
  steps (qstep false) (NewSys limit) s -> qclosed (q s) = false ->
  accepted s = delivered s ++ in_flight s.
Proof.
  intros Hs. assert (order_ok s) as (_ & Ho & _); [|exact Ho].
  eapply (steps_invariant (qstep false) order_ok); [apply order_ok_step|exact Hs|].
  split; [apply queue_ok_new|]. by split_and!.
Qed.

(** A frame that arrives between those two sections is queued after the drain has looked for
    the last time: it stays in the backlog of an open, published, idle queue, and frames that
    arrive later are delivered before it. *)
Theorem drain_gap_strands_frame :
  exists s, steps (qstep true) (NewSys 0) s /\
    qclosed (q s) = false /\ published (q s) = true /\ dispatching (q s) = false /\
    drain s = NoDrain /\ direct s = None /\
    accepted s = [$"a"; $"b"] /\ delivered s = [$"b"] /\ pending (q s) = [$"a"].
Proof.
  exists (direct_step (enqueue_step (drain_step (enqueue_step (drain_step (publish_step (NewSys 0))) $"a")) $"b") $"b").
  split; [|vm_compute; by split_and!].
  eapply steps_cons; [by apply q_publish|]. eapply steps_cons; [apply q_drain|].
  eapply steps_cons; [apply (q_enqueue true _ $"a"); [done|by left]|]. eapply steps_cons; [apply q_drain|].
  eapply steps_cons; [apply (q_enqueue true _ $"b"); [done|by left]|].
  apply steps_one. by apply q_direct.
Qed.

(** After [Close] at most the frames already inside a delivery are delivered: the rest of the
    backlog is not. *)
Theorem close_stops_delivery g s s' :
  steps (qstep g) s s' -> qclosed (q s) = true ->
  (length (delivered s') + length (option_list (direct s')) +
     (match drain s' with Delivering _ _ => 1 | _ => 0 end) <=
   length (delivered s) + length (option_list (direct s)) +
     (match drain s with Delivering _ _ => 1 | _ => 0 end))%nat /\
  qclosed (q s') = true.
Proof.
  intros Hs. induction Hs as [s|s1 s2 s3 H12 H23 IH]; intros Hc; [done|].
  assert ((length (delivered s2) + length (option_list (direct s2)) +
     (match drain s2 with Delivering _ _ => 1 | _ => 0 end) <=
   length (delivered s1) + length (option_list (direct s1)) +
     (match drain s1 with Delivering _ _ => 1 | _ => 0 end))%nat /\ qclosed (q s2) = true) as [Hle Hc2].
  { destruct H12 as [s data Hd _|s d Hd|s|s Hp|s].
    - unfold enqueue_step, Enqueue. by rewrite Hc.
    - unfold direct_step. cbn. rewrite Hd, length_app. cbn. split; [lia|done].
    - unfold drain_step. rewrite Hc. destruct (drain s) as [|[|d l]|d l|] eqn:Edr; cbn; rewrite ?Edr, ?length_app; cbn;
        split; try done; lia.
    - unfold publish_step, Publish. by rewrite Hc.
    - unfold close_step, Close. by rewrite Hc. }
  destruct (IH Hc2). split; [lia|done].
Qed.

(** * Witnesses *)

Definition sample_sys : qsys := publish_step (enqueue_step (NewSys 0) $"hello").

Lemma sample_sys_reachable g : steps (qstep g) (NewSys 0) sample_sys.
Proof.
  eapply steps_cons; [apply (q_enqueue g _ $"hello"); [done|by right]|].
  apply steps_one. by apply q_publish.
Qed.

Lemma backlog_bounded_witness :
  total (pending (q sample_sys)) <= maxBytes (q sample_sys).
Proof. apply (backlog_bounded 0 true sample_sys). apply sample_sys_reachable. Defined.

Lemma backlog_in_order_witness : accepted sample_sys = delivered sample_sys ++ [$"hello"].
Proof. apply (backlog_in_order 0 sample_sys); [apply sample_sys_reachable|reflexivity]. Defined.

Lemma close_stops_delivery_witness :
  qclosed (q (drain_step (close_step sample_sys))) = true.
Proof.
  apply (close_stops_delivery true (close_step sample_sys)); [|reflexivity].
  apply steps_one. apply q_drain.
Defined.
