(* ===== verification/Allowlist.v ===== *)
(** Which host:port targets a listener reaches on a requester's behalf
    (internal/allowlist/allowlist.go). *)

From S2P Require Import Prelude GoLib.

(** One allowed target; port 0 is any port of the host. *)
Record entry := mkEntry { host : bytes; port : Z }.

#[export] Instance entry_eq_dec : EqDecision entry.
Proof. solve_decision. Defined.

Abbreviation List := (list entry).

Inductive target_error := EmptyTarget | InvalidTarget (spec : bytes) | InvalidPort (spec : bytes).

Definition normalizeHost (h : bytes) : bytes :=
  ToLower (TrimSuffix (Trim (TrimSpace h) $"[]") $".").

Definition parseEntry (spec : bytes) : result target_error entry :=
  let spec := TrimSpace spec in
  match spec with
  | [] => Err EmptyTarget
  | _ =>
    match SplitHostPort spec with
    | Err _ =>
      if (Count spec colon >? 0) && negb (HasPrefix spec $"[") then Err (InvalidTarget spec)
      else Ok (mkEntry (normalizeHost spec) 0)
    | Ok (h, portStr) =>
      match Atoi portStr with
      | Some p =>
        if (p <? 1) || (p >? 65535) then Err (InvalidPort spec)
        else match h with
             | [] => Err (InvalidTarget spec)
             | _ => Ok (mkEntry (normalizeHost h) p)
             end
      | None => Err (InvalidPort spec)
      end
    end
  end.

Definition Parse (specs : list bytes) : result target_error List := result_map parseEntry specs.

Definition Empty (l : List) : bool := match l with [] => true | _ => false end.

Definition Permits (l : List) (h : bytes) (p : Z) : bool :=
  if Empty l then true else
  existsb (fun e => bool_decide (host e = normalizeHost h) && ((port e =? 0) || (port e =? p))) l.

Definition PermitsTarget (l : List) (target : bytes) : bool :=
  if Empty l then true else
  match SplitHostPort target with
  | Err _ => Permits l target 0
  | Ok (h, portStr) =>
    match Atoi portStr with
    | None => false
    | Some p => Permits l h p
    end
  end.

Definition ListString (l : List) : bytes :=
  join $", " (map (fun e =>
    let h := if Contains (host e) $":" then $"[" ++ host e ++ $"]" else host e in
    if port e =? 0 then h ++ $":*" else h ++ $":" ++ Itoa (port e)) l).

(** * What a list permits *)

(** An entry covers a target. *)
Definition covers (e : entry) (h : bytes) (p : Z) : Prop :=
  host e = normalizeHost h /\ (port e = 0 \/ port e = p).

Lemma permits_covers l h p :
  Permits l h p = true <-> l = [] \/ Exists (fun e => covers e h p) l.
Proof.
  unfold Permits. destruct l as [|e l]; cbn [Empty]; [by split; [left|]|].
  rewrite existsb_exists, Exists_exists. setoid_rewrite andb_true_iff. setoid_rewrite orb_true_iff.
  setoid_rewrite bool_decide_eq_true. setoid_rewrite Z.eqb_eq. unfold covers.
  split; [intros (x & Hx & ?); right; exists x; by rewrite list_elem_of_In|].
  intros [?|(x & Hx & ?)]; [done|]. exists x. by rewrite <- list_elem_of_In.
Qed.

Lemma permits_cons e l h p : Permits (e :: l) h p = true <-> Exists (fun e => covers e h p) (e :: l).
Proof. rewrite permits_covers. split; [by intros [?|?]|by right]. Qed.

(** A restriction is a restriction: parsing a non-empty list of targets either fails or gives a
    list that restricts, with as many entries, each a normalised host with a port between 0 and
    65535; and what such a list permits is covered by one of the entries it was written as. *)
Theorem parse_restricts specs l :
  Parse specs = Ok l -> specs <> [] ->
  Empty l = false /\ length l = length specs /\
  Forall (fun e => 0 <= port e <= 65535 /\ exists h, host e = normalizeHost h) l /\
  forall h p, Permits l h p = true <->
    exists spec e, spec ∈ specs /\ parseEntry spec = Ok e /\ covers e h p.
Proof.
  intros HP Hne. apply result_map_ok in HP. split_and!.
  - destruct HP; done.
  - by erewrite <- Forall2_length.
  - clear Hne. induction HP as [|spec e specs l He _ IH]; constructor; [|done].
    unfold parseEntry in He. repeat case_step_in He; inv He; cbn; bool_to_prop; (split; [lia|by eexists]).
  - intros h p. assert (l <> []) as Hl by (by intros ->; inv HP).
    rewrite permits_covers, Exists_exists. split.
    + intros [?|(e & He & Hc)]; [done|]. apply list_elem_of_lookup in He as [i Hi].
      destruct (Forall2_lookup_r _ _ _ _ _ HP Hi) as (spec & Hs & Hp).
      exists spec, e. split_and!; try done. by eapply list_elem_of_lookup_2.
    + intros (spec & e & Hs & Hp & Hc). right. apply list_elem_of_lookup in Hs as [i Hi].
      destruct (Forall2_lookup_l _ _ _ _ _ HP Hi) as (e' & He & Hp'). rewrite Hp in Hp'. inv Hp'.
      exists e'. split; [|done]. by eapply list_elem_of_lookup_2.
Qed.

(** * Narrowing *)

(** The requester's target is judged as it would be parsed. *)
Lemma permitted_target_covers l t e h p :
  TrimSpace t = t -> l <> [] -> PermitsTarget l t = true -> parseEntry t = Ok e ->
  covers e h p -> Permits l h p = true.
Proof.
  intros Ht Hl HP He [Hh Hp]. unfold PermitsTarget in HP. unfold parseEntry in He. rewrite Ht in He.
  destruct l as [|e0 l0]; [done|]. cbn [Empty] in HP. destruct t as [|c t0]; [done|].
  destruct (SplitHostPort (c :: t0)) as [[h0 ps]|].
  - destruct (Atoi ps) as [p0|]; [|done]. destruct ((p0 <? 1) || _) eqn:Er; [done|]. bool_to_prop.
    destruct h0 as [|]; [done|]. inv He. cbn in *.
    apply permits_cons in HP. apply permits_cons. eapply Exists_impl; [exact HP|].
    intros x [Hx Hxp]. split; [congruence|]. destruct Hp as [?|<-]; [lia|]. tauto.
  - case_step_in He; [done|]. inv He. cbn in *.
    apply permits_cons in HP. apply permits_cons. eapply Exists_impl; [exact HP|].
    intros x [Hx Hxp]. split; [congruence|]. left. tauto.
Qed.

Lemma parse_restricts_witness :
  exists l, Parse [$"db:5432"; $"[::1]"] = Ok l /\ Empty l = false.
Proof.
  eexists. split; [vm_compute; reflexivity|].
  apply (parse_restricts [$"db:5432"; $"[::1]"]); [vm_compute; reflexivity|discriminate].
Defined.
