(* ===== verification/Grant.v ===== *)
(** What a listener offers and what a link may reach, in one vocabulary
    (internal/grant/grant.go), and the allowlist a handler enforces for it
    (cmd/bitbang/capability.go). *)

From S2P Require Import Prelude GoLib Json Allowlist.

Inductive scope := ScopeFiles | ScopeProxy | ScopeForward | ScopeShell.

#[export] Instance scope_eq_dec : EqDecision scope.
Proof. solve_decision. Defined.

#[export] Program Instance scope_countable : Countable scope := {
  encode s := match s with ScopeFiles => 1 | ScopeProxy => 2 | ScopeForward => 3 | ScopeShell => 4 end%positive;
  decode p := match p with 1 => Some ScopeFiles | 2 => Some ScopeProxy | 3 => Some ScopeForward
                         | 4 => Some ScopeShell | _ => None end%positive
}.
Next Obligation. by intros []. Qed.

(** Presentation order, and the word that names each scope. *)
Definition Order : list scope := [ScopeFiles; ScopeProxy; ScopeForward; ScopeShell].

Definition word_of (s : scope) : bytes :=
  match s with
  | ScopeFiles => $"files" | ScopeProxy => $"proxy"
  | ScopeForward => $"forward" | ScopeShell => $"shell"
  end.

Definition words (w : bytes) : option scope :=
  if decide (w = $"shell") then Some ScopeShell
  else if decide (w = $"files") then Some ScopeFiles
  else if decide (w = $"proxy") then Some ScopeProxy
  else if decide (w = $"forward") then Some ScopeForward
  else None.

(** [Caps = None] is the nil map of an unspecified grant. *)
Record Spec := mkSpec {
  Caps : option (gset scope);
  ShellArgv : list bytes;
  FilesPath : bytes;
  ProxyTargets : list bytes;
  ForwardTargets : list bytes
}.

#[export] Instance eta_Spec : Eta Spec := fun s =>
  mkSpec (Caps s) (ShellArgv s) (FilesPath s) (ProxyTargets s) (ForwardTargets s).

Definition no_spec : Spec := mkSpec None [] [] [] [].
Definition caps (s : Spec) : gset scope := default ∅ (Caps s).
Definition Has (s : Spec) (c : scope) : bool := bool_decide (c ∈ caps s).

Definition Everything : Spec :=
  mkSpec (Some (list_to_set Order)) [] [] [] [].

Inductive grant_error :=
| NotAWord (w : bytes)
| NamedTwice (w : bytes)
| Unbalanced (quote : ascii)
| NotServed (s : scope)
| OtherCommand
| NotInside
| BadTargets (s : scope)
| OutsideTargets (t : bytes).

(** * Splitting a line *)

(** The state of the loop of [splitFields]: the tokens so far, the current one, the open quote and
    whether a token is open. *)
Record split_state := mkSplit { out : list bytes; cur : bytes; quote : option ascii; open : bool }.

Definition squote : ascii := chr 39.
Definition dquote : ascii := chr 34.
Definition is_blank (c : ascii) : bool :=
  bool_decide (c ∈ [" "%char; chr 9; chr 10; chr 13]).

Definition split_rune (st : split_state) (r : bytes) : split_state :=
  match r with
  | [c] =>
    match quote st with
    | Some q =>
      if decide (c = q) then mkSplit (out st) (cur st) None (open st)
      else mkSplit (out st) (cur st ++ r) (quote st) true
    | None =>
      if decide (c = squote \/ c = dquote) then mkSplit (out st) (cur st) (Some c) true
      else if is_blank c then
        (if open st then mkSplit (out st ++ [cur st]) [] None false else st)
      else mkSplit (out st) (cur st ++ r) None true
    end
  | _ => mkSplit (out st) (cur st ++ r) (quote st) true
  end.

(** [for _, r := range s]: the encodings of the runes of a string. *)
Fixpoint runes (fuel : nat) (s : bytes) : list bytes :=
  match fuel with
  | O => []
  | S n =>
    match s with
    | [] => []
    | _ => match utf8_size s with
           | Some k => take k s :: runes n (drop k s)
           | None => replacement :: runes n (drop 1 s)
           end
    end
  end.

Definition splitFields (s : bytes) : result grant_error (list bytes) :=
  let st := foldl split_rune (mkSplit [] [] None false) (runes (length s) s) in
  match quote st with
  | Some q => Err (Unbalanced q)
  | None => Ok (if open st then out st ++ [cur st] else out st)
  end.

Definition splitList (arg : bytes) : list bytes :=
  match arg with
  | [] => []
  | _ => filter (fun p => p <> []) (map TrimSpace (Split arg comma))
  end.

(** * The grammar *)

Definition set_argument (spec : Spec) (sc : scope) (arg : bytes) : result grant_error Spec :=
  match sc with
  | ScopeShell =>
    match arg with
    | [] => Ok spec
    | _ => let! argv := splitFields arg in Ok (spec <| ShellArgv := argv |>)
    end
  | ScopeFiles => Ok (spec <| FilesPath := arg |>)
  | ScopeProxy => Ok (spec <| ProxyTargets := splitList arg |>)
  | ScopeForward => Ok (spec <| ForwardTargets := splitList arg |>)
  end.

(** The loop of [parse]: a word, then the next token unless that is a word itself. *)
Fixpoint parse_words (spec : Spec) (args : list bytes) : result grant_error Spec :=
  match args with
  | [] => Ok spec
  | word :: rest =>
    match words word with
    | None => Err (NotAWord word)
    | Some sc =>
      if decide (sc ∈ caps spec) then Err (NamedTwice word) else
      let spec1 := spec <| Caps := Some ({[sc]} ∪ caps spec) |> in
      match rest with
      | arg :: rest' =>
        match words arg with
        | None => let! spec2 := set_argument spec1 sc arg in parse_words spec2 rest'
        | Some _ => let! spec2 := set_argument spec1 sc [] in parse_words spec2 rest
        end
      | [] => set_argument spec1 sc []
      end
    end
  end.

Definition parse (args : list bytes) : result grant_error Spec :=
  match args with
  | [] => Ok no_spec
  | _ => parse_words (mkSpec (Some ∅) [] [] [] []) args
  end.

Definition ParseString (s : bytes) : result grant_error Spec :=
  let! fields := splitFields s in parse fields.

(** * Rendering *)

Definition quoteField (s : bytes) : bytes :=
  match s with
  | [] => [dquote; dquote]
  | _ =>
    if negb (existsb (fun c => is_blank c || bool_decide (c = squote) || bool_decide (c = dquote)) s) then s
    else if negb (existsb (fun c => bool_decide (c = dquote)) s) then dquote :: s ++ [dquote]
    else squote :: s ++ [squote]
  end.

Definition quoteCommand (argv : list bytes) : bytes := quoteField (join $" " (map quoteField argv)).

Definition render_argument (s : Spec) (sc : scope) : list bytes :=
  match sc with
  | ScopeShell => match ShellArgv s with [] => [] | a => [quoteCommand a] end
  | ScopeFiles => match FilesPath s with [] => [] | p => [quoteField p] end
  | ScopeProxy => match ProxyTargets s with [] => [] | t => [join $"," t] end
  | ScopeForward => match ForwardTargets s with [] => [] | t => [join $"," t] end
  end.

Definition SpecString (s : Spec) : bytes :=
  join $" " (flat_map (fun sc => if Has s sc then word_of sc :: render_argument s sc else []) Order).

Definition Words (s : Spec) : list bytes :=
  map word_of (filter (fun sc => Has s sc = true) Order).

(** * Narrowing *)

Definition Intersect (s offered : Spec) : Spec :=
  match Caps s with
  | None => s
  | Some c => s <| Caps := Some (c ∩ caps offered) |>
  end.

Definition narrowTargets (sc : scope) (listener link : list bytes) : result grant_error (list bytes) :=
  match link, listener with
  | [], _ => Ok listener
  | _, [] => Ok link
  | _, _ =>
    match Parse listener with
    | Err _ => Err (BadTargets sc)
    | Ok allowed =>
      let! _ := result_map (fun t => if PermitsTarget allowed t then Ok tt else Err (OutsideTargets t)) link in
      Ok link
    end
  end.

Section Directory.
(** The working directory of the listener. *)
Variable cwd : bytes.

Definition isWithin (parent child : bytes) : bool :=
  match Rel (Abs cwd parent) (Abs cwd child) with
  | None => false
  | Some rel => negb (climbs rel)
  end.

Definition narrow_shell (listener link : list bytes) : result grant_error (list bytes) :=
  match link, listener with
  | [], _ => Ok listener
  | _, [] => Ok link
  | _, _ => if decide (join $" " link = join $" " listener) then Ok listener else Err OtherCommand
  end.

Definition narrow_files (listener link : bytes) : result grant_error bytes :=
  match link, listener with
  | [], _ => Ok listener
  | _, [] => Ok link
  | _, _ => if isWithin listener link then Ok link else Err NotInside
  end.

Definition Narrow (s link : Spec) : result grant_error Spec :=
  let link := match Caps link with None => link <| Caps := Caps s |> | Some _ => link end in
  let! _ := result_map (fun sc => if Has link sc && negb (Has s sc) then Err (NotServed sc) else Ok tt) Order in
  let! argv := narrow_shell (ShellArgv s) (ShellArgv link) in
  let! path := narrow_files (FilesPath s) (FilesPath link) in
  let! proxy := narrowTargets ScopeProxy (ProxyTargets s) (ProxyTargets link) in
  let! forward := narrowTargets ScopeForward (ForwardTargets s) (ForwardTargets link) in
  Ok (mkSpec (Some (caps link ∩ list_to_set Order)) argv path proxy forward).

(** [allowOf]: the allowlist a handler is given; a parse error leaves it empty. *)
Definition allowOf (targets : list bytes) : List := from_result [] (Parse targets).

(** * A link only takes away *)

Definition trimmed (t : bytes) : Prop := TrimSpace t = t.

Lemma narrowTargets_narrows sc listener link o L K :
  narrowTargets sc listener link = Ok o -> listener <> [] -> Parse listener = Ok L ->
  Forall trimmed link -> Parse o = Ok K ->
  forall h p, Permits K h p = true -> Permits L h p = true.
Proof.
  intros HN Hne HL Ht HK h p. unfold narrowTargets in HN.
  assert (L <> []) as HLne by (intros ->; apply result_map_ok in HL; by inv HL).
  destruct link as [|t link]; [inv HN; congruence|]. destruct listener as [|x listener]; [done|].
  rewrite HL in HN. unfold result_bind in HN. case_step_in HN; [|done]. inv HN.
  apply result_map_ok in HK. match goal with H : result_map _ _ = Ok _ |- _ => apply result_map_ok in H as HP end.
  assert (K <> []) as HKne by (by intros ->; inv HK).
  rewrite permits_covers, Exists_exists. intros [?|(e & He & Hc)]; [done|].
  apply list_elem_of_lookup in He as [i Hi]. destruct (Forall2_lookup_r _ _ _ _ _ HK Hi) as (t' & Ht' & Hp').
  destruct (Forall2_lookup_l _ _ _ _ _ HP Ht') as (u & _ & Hu). case_step_in Hu; [|done].
  eapply permitted_target_covers; [|exact HLne|eassumption|exact Hp'|exact Hc].
  rewrite Forall_forall in Ht. apply Ht. by eapply list_elem_of_lookup_2.
Qed.

(** What a grant [o] reaches lies within what the grant [s] reaches: no capability of its own; the
    command of [s] where that is pinned; a directory inside the one of [s] where that is set; and
    where [s] names targets, no host and port its allowlist does not permit. *)
Definition targets_within (o s : list bytes) : Prop :=
  forall L K h p, s <> [] -> Parse s = Ok L -> Parse o = Ok K -> Permits K h p = true -> Permits L h p = true.

Record within (o s : Spec) : Prop := {
  within_caps : caps o ⊆ caps s;
  within_shell : ShellArgv s <> [] -> ShellArgv o = ShellArgv s;
  within_files : FilesPath s <> [] -> elements (Abs cwd (FilesPath s)) `prefix_of` elements (Abs cwd (FilesPath o));
  within_proxy : targets_within (ProxyTargets o) (ProxyTargets s);
  within_forward : targets_within (ForwardTargets o) (ForwardTargets s)
}.

Lemma isWithin_prefix parent child :
  rooted cwd = true ->
  isWithin parent child = true <-> elements (Abs cwd parent) `prefix_of` elements (Abs cwd child).
Proof.
  intros Hc. unfold isWithin.
  destruct (Rel_climbs (Abs cwd parent) (Abs cwd child)) as (rel & -> & Hr);
    [by apply rooted_Abs..|].
  rewrite !Clean_Abs in Hr by done. by rewrite negb_true_iff.
Qed.

Lemma Narrow_within s link o :
  rooted cwd = true ->
  Forall trimmed (ProxyTargets link) -> Forall trimmed (ForwardTargets link) ->
  Narrow s link = Ok o -> within o s.
Proof.
  intros Hcwd Hp Hf. unfold Narrow. set (l := match Caps link with None => _ | Some _ => _ end).
  assert (ShellArgv l = ShellArgv link /\ FilesPath l = FilesPath link /\
          ProxyTargets l = ProxyTargets link /\ ForwardTargets l = ForwardTargets link) as (-> & -> & -> & ->)
    by (subst l; by destruct (Caps link)).
  clearbody l. unfold result_bind.
  destruct (result_map _ Order) eqn:Ec; [|done].
  destruct (narrow_shell _ _) as [argv|] eqn:Es; [|done].
  destruct (narrow_files _ _) as [path|] eqn:Ef; [|done].
  destruct (narrowTargets ScopeProxy _ _) as [pt|] eqn:Ep; [|done].
  destruct (narrowTargets ScopeForward _ _) as [ft|] eqn:Eft; [|done].
  intros [= <-]. split; cbn [Caps ShellArgv FilesPath ProxyTargets ForwardTargets].
  - intros sc. change (sc ∈ caps l ∩ list_to_set Order -> sc ∈ caps s). rewrite elem_of_intersection, elem_of_list_to_set. intros [Hl Ho].
    apply result_map_ok in Ec. apply list_elem_of_lookup in Ho as [i Hi].
    destruct (Forall2_lookup_l _ _ _ _ _ Ec Hi) as (u & _ & Hu). case_step_in Hu; [done|].
    unfold Has in *. destruct (decide (sc ∈ caps s)); [done|].
    rewrite (bool_decide_true (sc ∈ caps l)), (bool_decide_false (sc ∈ caps s)) in Heqb by done. done.
  - intros Hne. unfold narrow_shell in Es. destruct (ShellArgv link), (ShellArgv s); try done; [by inv Es|].
    case_decide; by inv Es.
  - intros Hne. unfold narrow_files in Ef. destruct (FilesPath link) as [|c q], (FilesPath s) as [|d r]; try done.
    + by inv Ef.
    + destruct (isWithin (d :: r) (c :: q)) eqn:Ew; [|done]. inv Ef. by apply isWithin_prefix.
  - intros L K h p Hne HL HK. exact (narrowTargets_narrows _ _ _ _ _ _ Ep Hne HL Hp HK h p).
  - intros L K h p Hne HL HK. exact (narrowTargets_narrows _ _ _ _ _ _ Eft Hne HL Hf HK h p).
Qed.

End Directory.

(** The grammar only produces trimmed targets. *)
Lemma splitList_trimmed arg : Forall trimmed (splitList arg).
Proof.
  unfold splitList. destruct arg; [constructor|]. apply Forall_forall. intros t Ht.
  apply list_elem_of_filter in Ht as [_ Ht]. apply list_elem_of_fmap in Ht as (x & -> & _).
  apply TrimSpace_idempotent.
Qed.

Definition targets_trimmed (s : Spec) : Prop :=
  Forall trimmed (ProxyTargets s) /\ Forall trimmed (ForwardTargets s).

Lemma set_argument_trimmed s sc arg s' :
  set_argument s sc arg = Ok s' -> targets_trimmed s -> targets_trimmed s'.
Proof.
  unfold targets_trimmed. intros H [Hp Hf]. destruct sc; cbn in H.
  - by inv H.
  - inv H. cbn. split; [apply splitList_trimmed|done].
  - inv H. cbn. split; [done|apply splitList_trimmed].
  - destruct arg; [by inv H|]. unfold result_bind in H. case_step_in H; by inv H.
Qed.

Lemma parse_words_trimmed args : forall s s',
  parse_words s args = Ok s' -> targets_trimmed s -> targets_trimmed s'.
Proof.
  assert (forall n args s s', (length args <= n)%nat -> parse_words s args = Ok s' ->
            targets_trimmed s -> targets_trimmed s') as H; [|intros; by eapply H].
  induction n as [|n IH]; intros l s s' Hn Hp Hs; (destruct l as [|w rest]; [by inv Hp|]); cbn in Hn; [lia|].
  cbn [parse_words] in Hp. destruct (words w) as [sc|]; [|done]. case_decide; [done|].
  set (s1 := s <| Caps := _ |>) in Hp. assert (targets_trimmed s1) as Hs1 by done. clearbody s1.
  destruct rest as [|arg rest]; [by eapply set_argument_trimmed|]. unfold result_bind in Hp.
  destruct (words arg).
  - destruct (set_argument s1 sc []) as [s2|] eqn:E; [|done].
    eapply IH; [|exact Hp|by eapply set_argument_trimmed]. lia.
  - destruct (set_argument s1 sc arg) as [s2|] eqn:E; [|done].
    eapply IH; [|exact Hp|by eapply set_argument_trimmed]. cbn in Hn. lia.
Qed.

Lemma ParseString_trimmed str s : ParseString str = Ok s -> targets_trimmed s.
Proof.
  unfold ParseString, result_bind. destruct (splitFields str) as [fs|]; [|done].
  destruct fs; [by intros [= <-]|]. intros H. by eapply parse_words_trimmed.
Qed.

(** A listener pinned to the host [db], whatever the port, and a link that names a port of that host
    which is no port: the narrowing accepts the link, [Parse] then refuses the target, and the
    handler is left with the empty allowlist, which permits every target. The link reaches hosts
    the listener does not. *)
Lemma allowOf_fails_open :
  let listener := from_result no_spec (ParseString $"forward db") in
  exists o, result_bind (ParseString $"forward db:99999") (fun link => Narrow $"/" listener link) = Ok o /\
    Permits (allowOf (ForwardTargets listener)) $"secret" 22 = false /\
    Permits (allowOf (ForwardTargets o)) $"secret" 22 = true.
Proof. eexists. split; [vm_compute; reflexivity|]. by split; vm_compute. Qed.
