(* ===== verification/GrantRoundTrip.v ===== *)
(** Rendering a grant and parsing it back (internal/grant/grant.go): [ParseString] inverts
    [Spec.String] on the grants the grammar can express, and what it cannot. *)

From S2P Require Import Prelude GoLib Json Allowlist Grant.

(** * Splitting ASCII text *)

Definition ascii_text (s : bytes) : Prop := Forall (fun c => code c < 128) s.

Definition run (st : split_state) (s : bytes) : split_state := foldl split_rune st (map (fun c => [c]) s).

Lemma runes_ascii s : ascii_text s -> runes (length s) s = map (fun c => [c]) s.
Proof.
  induction 1 as [|c s Hc Hs IH]; [done|]. cbn [length runes map].
  assert (utf8_size (c :: s) = Some 1%nat) as ->; [|cbn; by rewrite take_0, drop_0, IH].
  unfold utf8_size. by settle (code c <? 128) true.
Qed.

Lemma run_app st s k : run st (s ++ k) = run (run st s) k.
Proof. unfold run. by rewrite map_app, foldl_app. Qed.

Definition special (c : ascii) : bool :=
  is_blank c || bool_decide (c = squote) || bool_decide (c = dquote).

(** Text outside quotes without blanks or quotes is kept as it is. *)
Lemma run_plain s : forall o c b,
  forallb (fun x => negb (special x)) s = true ->
  run (mkSplit o c None b) s = mkSplit o (c ++ s) None (b || negb (bool_decide (s = []))).
Proof.
  induction s as [|x s IH]; intros o c b Hs.
  - cbn. by rewrite app_nil_r, orb_false_r.
  - cbn in Hs. apply andb_prop in Hs as [Hx Hs]. unfold special in Hx.
    rewrite negb_true_iff in Hx. apply orb_false_elim in Hx as [Hx Hd]. apply orb_false_elim in Hx as [Hb Hq].
    bool_to_prop. cbn [run map foldl split_rune quote]. rewrite decide_False by tauto. rewrite Hb.
    cbn [out cur]. change (foldl split_rune ?st (map _ s)) with (run st s). rewrite IH by done.
    rewrite <- app_assoc. cbn. by rewrite orb_true_r.
Qed.

(** Text inside quotes is kept whatever it holds but the quote. *)
Lemma run_quoted q s : forall o c,
  forallb (fun x => negb (bool_decide (x = q))) s = true ->
  run (mkSplit o c (Some q) true) s = mkSplit o (c ++ s) (Some q) true.
Proof.
  induction s as [|x s IH]; intros o c Hs; [cbn; by rewrite app_nil_r|].
  cbn in Hs. apply andb_prop in Hs as [Hx Hs]. bool_to_prop.
  cbn [run map foldl split_rune quote]. rewrite decide_False by done. cbn [out cur].
  change (foldl split_rune ?st (map _ s)) with (run st s). rewrite IH by done. by rewrite <- app_assoc.
Qed.

(** A printed field and the token it reads as. *)
Definition reads (p t : bytes) : Prop :=
  ascii_text p /\ forall o, run (mkSplit o [] None false) p = mkSplit o t None true.

(** A field [quoteField] can protect: one kind of quote at most. *)
Definition quotable (s : bytes) : Prop :=
  ascii_text s /\
  (forallb (fun c => negb (bool_decide (c = dquote))) s = true \/
   forallb (fun c => negb (bool_decide (c = squote))) s = true).

Lemma reads_plain s :
  s <> [] -> ascii_text s -> forallb (fun x => negb (special x)) s = true -> reads s s.
Proof.
  intros Hne Ha Hs. split; [done|]. intros o. rewrite run_plain by done. cbn.
  by rewrite bool_decide_false.
Qed.

Lemma existsb_negb {A} (p : A -> bool) l : negb (existsb p l) = forallb (fun x => negb (p x)) l.
Proof. induction l as [|x l IH]; cbn; [done|]. by rewrite negb_orb, IH. Qed.

Lemma reads_wrapped q s :
  (q = squote \/ q = dquote) -> ascii_text s ->
  forallb (fun c => negb (bool_decide (c = q))) s = true -> reads (q :: s ++ [q]) s.
Proof.
  intros Hq Ha Hs. assert (code q < 128) as Hc by (by destruct Hq as [-> | ->]).
  split; [apply Forall_cons; split; [done|]; apply Forall_app; split; [done|by repeat constructor]|].
  intros o. change (q :: s ++ [q]) with ([q] ++ s ++ [q]). rewrite run_app, run_app.
  assert (run (mkSplit o [] None false) [q] = mkSplit o [] (Some q) true) as ->.
  { cbn [run map foldl split_rune quote]. by rewrite decide_True. }
  rewrite run_quoted by done. cbn [run map foldl split_rune quote]. by rewrite decide_True.
Qed.

Lemma reads_quoteField s : quotable s -> reads (quoteField s) s.
Proof.
  intros [Ha Hq]. destruct s as [|c s].
  { change (quoteField []) with (dquote :: [] ++ [dquote]). apply reads_wrapped; auto. }
  unfold quoteField. rewrite !existsb_negb.
  match goal with |- reads (if ?b then _ else _) _ => destruct b eqn:E1 end; [by apply reads_plain|].
  destruct (forallb (fun x => negb (bool_decide (x = dquote))) (c :: s)) eqn:E2.
  - apply reads_wrapped; auto.
  - apply reads_wrapped; [by left|done|]. by destruct Hq as [Hq|Hq]; [congruence|].
Qed.

Lemma run_blank o t : run (mkSplit o t None true) $" " = mkSplit (o ++ [t]) [] None false.
Proof. reflexivity. Qed.

Lemma run_join ps : forall ts o,
  Forall2 reads ps ts -> ps <> [] ->
  exists t o', run (mkSplit o [] None false) (join $" " ps) = mkSplit o' t None true /\ o' ++ [t] = o ++ ts.
Proof.
  induction ps as [|p ps IH]; intros ts o HF Hne; [done|]. inv HF. destruct H1 as [Ha Hr].
  destruct ps as [|p' ps].
  - inv H3. exists y, o. cbn. split; [apply Hr|done].
  - change (join $" " (p :: p' :: ps)) with (p ++ $" " ++ join $" " (p' :: ps)).
    rewrite run_app, Hr, run_app, run_blank.
    destruct (IH _ (o ++ [y]) H3 ltac:(done)) as (t & o' & -> & Ho). exists t, o'.
    split; [done|]. by rewrite Ho, <- app_assoc.
Qed.

Lemma ascii_join sep ps : ascii_text sep -> Forall ascii_text ps -> ascii_text (join sep ps).
Proof.
  intros Hs. induction 1 as [|p ps Hp Hps IH]; [constructor|]. destruct ps as [|p' ps]; [done|].
  change (join sep (p :: p' :: ps)) with (p ++ sep ++ join sep (p' :: ps)). by repeat (apply Forall_app; split).
Qed.

Lemma splitFields_join ps ts : Forall2 reads ps ts -> splitFields (join $" " ps) = Ok ts.
Proof.
  intros HF. assert (ascii_text (join $" " ps)) as Ha.
  { apply ascii_join; [by repeat constructor|]. clear -HF. induction HF as [|p t ps ts [Hp _] _ IH]; by constructor. }
  unfold splitFields. rewrite runes_ascii by done. fold (run (mkSplit [] [] None false) (join $" " ps)).
  destruct ps as [|p ps]; [by inv HF|].
  destruct (run_join (p :: ps) ts [] HF ltac:(done)) as (t & o' & -> & Ho). cbn. by rewrite Ho.
Qed.

(** * Grants the grammar expresses *)

(** An argument list that survives being written with commas. *)
Definition listable (ts : list bytes) : Prop :=
  ts = [] \/ (splitList (join $"," ts) = ts /\ ascii_text (join $"," ts) /\
              forallb (fun x => negb (special x)) (join $"," ts) = true /\
              words (join $"," ts) = None /\ join $"," ts <> []).

Record expressible (s : Spec) : Prop := {
  ex_caps : exists c, Caps s = Some c /\ c <> ∅;
  ex_shell : ShellArgv s <> [] -> Has s ScopeShell = true /\ Forall quotable (ShellArgv s) /\
    quotable (join $" " (map quoteField (ShellArgv s))) /\
    words (join $" " (map quoteField (ShellArgv s))) = None;
  ex_files : FilesPath s <> [] -> Has s ScopeFiles = true /\ quotable (FilesPath s) /\ words (FilesPath s) = None;
  ex_proxy : listable (ProxyTargets s) /\ (ProxyTargets s <> [] -> Has s ScopeProxy = true);
  ex_forward : listable (ForwardTargets s) /\ (ForwardTargets s <> [] -> Has s ScopeForward = true);
}.

(** The tokens of a rendered grant, unquoted. *)
Definition argument (s : Spec) (sc : scope) : list bytes :=
  match sc with
  | ScopeShell => match ShellArgv s with [] => [] | a => [join $" " (map quoteField a)] end
  | ScopeFiles => match FilesPath s with [] => [] | p => [p] end
  | ScopeProxy => match ProxyTargets s with [] => [] | t => [join $"," t] end
  | ScopeForward => match ForwardTargets s with [] => [] | t => [join $"," t] end
  end.

Definition tokens (s : Spec) (scs : list scope) : list bytes :=
  flat_map (fun sc => if Has s sc then word_of sc :: argument s sc else []) scs.

Lemma words_word sc : words (word_of sc) = Some sc.
Proof. by destruct sc. Qed.

Lemma reads_word sc : reads (word_of sc) (word_of sc).
Proof. destruct sc; (apply reads_plain; [done|by repeat constructor|done]). Qed.

Lemma argument_reads s sc : expressible s -> Forall2 reads (render_argument s sc) (argument s sc).
Proof.
  intros [Hc Hsh Hf [Hp _] [Hfw _]]. destruct sc; cbn [render_argument argument].
  - destruct (FilesPath s) as [|c p] eqn:E; [constructor|]. constructor; [|constructor].
    destruct Hf as (_ & Hq & _); [done|]. by apply reads_quoteField.
  - destruct (ProxyTargets s) as [|t ts] eqn:E; [constructor|]. constructor; [|constructor].
    destruct Hp as [?|(_ & Ha & Hs & _ & Hne)]; [done|]. by apply reads_plain.
  - destruct (ForwardTargets s) as [|t ts] eqn:E; [constructor|]. constructor; [|constructor].
    destruct Hfw as [?|(_ & Ha & Hs & _ & Hne)]; [done|]. by apply reads_plain.
  - destruct (ShellArgv s) as [|t ts] eqn:E; [constructor|]. constructor; [|constructor].
    destruct Hsh as (_ & _ & Hq & _); [done|]. by apply reads_quoteField.
Qed.

Lemma render_reads s scs :
  expressible s ->
  Forall2 reads (flat_map (fun sc => if Has s sc then word_of sc :: render_argument s sc else []) scs)
                (tokens s scs).
Proof.
  intros He. induction scs as [|sc scs IH]; [constructor|]. cbn. apply Forall2_app; [|exact IH].
  destruct (Has s sc); [|constructor]. constructor; [apply reads_word|by apply argument_reads].
Qed.

Lemma argument_not_word s sc a : expressible s -> argument s sc = [a] -> words a = None.
Proof.
  intros [Hc Hsh Hf [Hp _] [Hfw _]]. destruct sc; cbn.
  - destruct (FilesPath s); [done|]. intros [= <-]. by apply Hf.
  - destruct (ProxyTargets s); [done|]. intros [= <-]. by destruct Hp as [?|(_&_&_&?&_)].
  - destruct (ForwardTargets s); [done|]. intros [= <-]. by destruct Hfw as [?|(_&_&_&?&_)].
  - destruct (ShellArgv s); [done|]. intros [= <-]. by apply Hsh.
Qed.

(** Reading back one scope copies its argument. *)
Definition copy (s : Spec) (acc : Spec) (sc : scope) : Spec :=
  match sc with
  | ScopeShell => mkSpec (Caps acc) (ShellArgv s) (FilesPath acc) (ProxyTargets acc) (ForwardTargets acc)
  | ScopeFiles => mkSpec (Caps acc) (ShellArgv acc) (FilesPath s) (ProxyTargets acc) (ForwardTargets acc)
  | ScopeProxy => mkSpec (Caps acc) (ShellArgv acc) (FilesPath acc) (ProxyTargets s) (ForwardTargets acc)
  | ScopeForward => mkSpec (Caps acc) (ShellArgv acc) (FilesPath acc) (ProxyTargets acc) (ForwardTargets s)
  end.

Lemma set_argument_copy s acc sc :
  expressible s -> (sc = ScopeShell -> ShellArgv acc = []) ->
  set_argument acc sc (match argument s sc with a :: _ => a | [] => [] end) = Ok (copy s acc sc).
Proof.
  intros [Hc Hsh Hf [Hp _] [Hfw _]] Hacc. destruct sc; cbn [set_argument argument copy].
  - by destruct (FilesPath s).
  - destruct (ProxyTargets s) eqn:E; [done|]. destruct Hp as [?|(Hs&_)]; [done|]. rewrite Hs. done.
  - destruct (ForwardTargets s) eqn:E; [done|]. destruct Hfw as [?|(Hs&_)]; [done|]. rewrite Hs. done.
  - destruct (ShellArgv s) as [|a l] eqn:E.
    + destruct acc. cbn in *. by rewrite Hacc.
    + destruct Hsh as (_ & Hq & _ & _); [done|]. set (j := join $" " _).
      assert (splitFields j = Ok (a :: l)) as Hj.
      { apply splitFields_join. clear -Hq. induction Hq as [|x xs Hx Hl IH]; constructor; [|done].
        by apply reads_quoteField. }
      destruct j as [|c j0] eqn:Ej; [done|]. by rewrite Hj.
Qed.

Lemma tokens_head s scs :
  tokens s scs = [] \/ exists sc r, tokens s scs = word_of sc :: r.
Proof.
  induction scs as [|sc scs IH]; [by left|]. cbn. destruct (Has s sc); [right; by eexists _, _|exact IH].
Qed.

Lemma parse_one s acc sc rest :
  expressible s -> sc ∉ caps acc -> ShellArgv acc = [] \/ sc <> ScopeShell ->
  (rest = [] \/ exists sc' r, rest = word_of sc' :: r) ->
  parse_words acc (word_of sc :: argument s sc ++ rest) =
  parse_words (copy s (acc <| Caps := Some ({[sc]} ∪ caps acc) |>) sc) rest.
Proof.
  intros He Hsc Hsh Hrest. cbn [parse_words]. rewrite words_word, decide_False by done.
  set (acc1 := acc <| Caps := _ |>).
  pose proof (set_argument_copy s acc1 sc He ltac:(intros ->; by destruct Hsh)) as Hset.
  destruct (argument s sc) as [|a [|]] eqn:Ea.
  - cbn [app]. destruct Hrest as [->|(sc' & r & ->)]; [exact Hset|].
    rewrite words_word. by rewrite Hset.
  - cbn [app]. rewrite (argument_not_word s sc a) by done. by rewrite Hset.
  - exfalso. clear -Ea. destruct sc; cbn in Ea; by case_step_in Ea.
Qed.

(** What parsing the tokens of [s] for the scopes [scs] makes of [acc]. *)
Definition accumulate (s : Spec) (acc : Spec) (scs : list scope) : Spec :=
  foldl (fun acc sc => if Has s sc then copy s (acc <| Caps := Some ({[sc]} ∪ caps acc) |>) sc else acc) acc scs.

Lemma copy_caps s acc sc : caps (copy s acc sc) = caps acc.
Proof. by destruct sc. Qed.

Lemma copy_shell s acc sc : sc <> ScopeShell -> ShellArgv (copy s acc sc) = ShellArgv acc.
Proof. by destruct sc. Qed.

Lemma parse_tokens s scs : forall acc,
  expressible s -> NoDup scs -> (forall sc, sc ∈ scs -> sc ∉ caps acc) ->
  (ScopeShell ∈ scs -> ShellArgv acc = []) ->
  parse_words acc (tokens s scs) = Ok (accumulate s acc scs).
Proof.
  induction scs as [|sc scs IH]; intros acc He Hnd Hin Hsh; [done|].
  apply NoDup_cons in Hnd as [Hni Hnd]. cbn [tokens flat_map accumulate foldl].
  destruct (Has s sc); [|apply IH; try done; intros; apply Hin || apply Hsh; by right].
  cbn [app]. rewrite parse_one; try done.
  - apply IH; try done.
    + intros sc' Hsc'. rewrite copy_caps. unfold caps at 1. cbn. intros [->%elem_of_singleton|Hx]%elem_of_union; [done|].
      by apply (Hin sc' (list_elem_of_further _ _ _ Hsc')).
    + intros Hs. rewrite copy_shell by (by intros ->). cbn. apply Hsh. by right.
  - apply Hin. by left.
  - destruct (decide (sc = ScopeShell)) as [->|?]; [left; apply Hsh; by left|by right].
  - apply tokens_head.
Qed.

Lemma absent_argument s :
  expressible s ->
  (Has s ScopeShell = false -> ShellArgv s = []) /\ (Has s ScopeFiles = false -> FilesPath s = []) /\
  (Has s ScopeProxy = false -> ProxyTargets s = []) /\ (Has s ScopeForward = false -> ForwardTargets s = []).
Proof.
  intros [_ Hsh Hf [_ Hp] [_ Hfw]]. split_and!; intros Hh.
  - destruct (ShellArgv s); [done|]. destruct Hsh; [done|congruence].
  - destruct (FilesPath s); [done|]. destruct Hf; [done|congruence].
  - destruct (ProxyTargets s); [done|]. rewrite Hp in Hh; done.
  - destruct (ForwardTargets s); [done|]. rewrite Hfw in Hh; done.
Qed.

Lemma accumulate_all s :
  expressible s -> accumulate s (mkSpec (Some ∅) [] [] [] []) Order = s.
Proof.
  intros He. destruct (absent_argument s He) as (H1 & H2 & H3 & H4). destruct He as [(c & Hc & _) _ _ _ _].
  assert (forall sc, sc ∈ c <-> Has s sc = true) as HH.
  { intros sc. unfold Has, caps. by rewrite Hc, bool_decide_eq_true. }
  destruct s as [cs sh fp pt ft]. cbn in Hc. subst cs. cbn in H1, H2, H3, H4.
  unfold accumulate, Order. cbn [foldl].
  assert (forall X : gset scope, (forall sc, sc ∈ X <-> Has (mkSpec (Some c) sh fp pt ft) sc = true) ->
    Some X = Some c) as Hset by (intros X HX; f_equal; apply set_eq; intros sc; by rewrite HX, HH).
  destruct (Has _ ScopeFiles) eqn:E1, (Has _ ScopeProxy) eqn:E2, (Has _ ScopeForward) eqn:E3, (Has _ ScopeShell) eqn:E4;
    cbn; rewrite ?H1, ?H2, ?H3, ?H4 by done; f_equal; apply Hset;
    intros sc; destruct sc; rewrite ?E1, ?E2, ?E3, ?E4; unfold caps; cbn; clear; rewrite ?elem_of_union, ?elem_of_singleton, ?elem_of_empty; intuition congruence.
Qed.

(** The tokens of a grant the grammar can express parse as that grant. *)
Lemma parse_tokens_all s : expressible s -> parse (tokens s Order) = Ok s.
Proof.
  intros He. assert (tokens s Order <> []) as Hnn.
  { destruct He as [(c & Hc & Hne) _ _ _ _]. apply set_choose_L in Hne as [sc Hsc].
    assert (Has s sc = true) as Hh by (unfold Has, caps; rewrite Hc; by apply bool_decide_eq_true).
    unfold tokens, Order. cbn. destruct sc; rewrite Hh; repeat case_step; done. }
  destruct (tokens s Order) as [|t ts] eqn:Et; [done|]. unfold parse. rewrite <- Et.
  rewrite parse_tokens; [by rewrite accumulate_all|done| | |done].
  - apply (bool_decide_unpack _). by vm_compute.
  - intros sc _. unfold caps. cbn. set_solver.
Qed.

Lemma fields_of_rendered s : expressible s -> splitFields (SpecString s) = Ok (tokens s Order).
Proof. intros He. exact (splitFields_join _ _ (render_reads s Order He)). Qed.

(** C17: A grant shown the way it would be typed means the same grant: parsing what [String] renders
    gives the grant back, for every grant the grammar can express (ASCII arguments that use one
    kind of quote, targets without blanks), whatever combination of capabilities and arguments. *)
Theorem grant_round_trip s : expressible s -> ParseString (SpecString s) = Ok s.
Proof. intros He. unfold ParseString. rewrite fields_of_rendered by done. by apply parse_tokens_all. Qed.

Definition sample_grant : Spec :=
  mkSpec (Some {[ScopeShell; ScopeForward; ScopeFiles]}) [$"/opt/my app/bin"; $"--login"] $"~/my share"
    [] [$"db:5432"; $"[::1]:22"].

Lemma sample_grant_expressible : expressible sample_grant.
Proof.
  split; cbn.
  - eexists. split; [done|]. by vm_compute.
  - intros _. split_and!; try (vm_compute; done); repeat constructor; try (vm_compute; done); by left.
  - intros _. split_and!; try (vm_compute; done); repeat constructor; try (vm_compute; done); by left.
  - split; [by left|done].
  - split; [|done]. right. split_and!; try (vm_compute; done). repeat constructor; by vm_compute.
Qed.

Lemma grant_round_trip_witness :
  SpecString sample_grant =
    $"files " ++ [dquote] ++ $"~/my share" ++ [dquote] ++ $" forward db:5432,[::1]:22 shell '"
      ++ [dquote] ++ $"/opt/my app/bin" ++ [dquote] ++ $" --login'" /\
  ParseString (SpecString sample_grant) = Ok sample_grant.
Proof. split; [vm_compute; reflexivity|]. apply grant_round_trip. exact sample_grant_expressible. Defined.

(** [quoteField] is not an inverse for a path that holds both kinds of quote: what it renders does
    not parse. *)
Lemma both_quotes_do_not_round_trip :
  let path := [dquote; squote] in
  let s := mkSpec (Some {[ScopeFiles]}) [] path [] [] in
  SpecString s = $"files '" ++ path ++ $"'" /\ ParseString (SpecString s) = Err (Unbalanced squote).
Proof. vm_compute. done. Qed.
