(* ===== verification/Links.v ===== *)
(** The per-link access table: terms, lookup, and the passes that keep codes honest
    (internal/links/terms.go, internal/links/table.go). *)

From S2P Require Import Prelude GoLib Json Allowlist Grant.

(** An instant, in nanoseconds. [Before] is [<]. *)
Abbreviation Time := Z (only parsing).

Record Terms := mkTerms { Label : bytes; Code : bytes; GrantText : bytes; Expires : option Time }.

#[export] Instance eta_Terms : Eta Terms := fun t => mkTerms (Label t) (Code t) (GrantText t) (Expires t).
#[export] Instance Terms_eq_dec : EqDecision Terms.
Proof. solve_decision. Defined.

Definition OwnerLabel : bytes := $"owner".

Inductive link_error :=
| Expired (label : bytes)
| BadGrant (label : bytes) (e : grant_error)
| NoLabel (n : nat)
| ReservedLabel
| DuplicateLabel (label : bytes)
| NoRandomness.

Definition Check (t : Terms) (now : Time) : result link_error unit :=
  match Expires t with
  | Some e => if now <? e then Ok tt else Err (Expired (Label t))
  | None => Ok tt
  end.

Definition TermsSpec (t : Terms) : result link_error Spec :=
  match ParseString (GrantText t) with
  | Ok s => Ok s
  | Err e => Err (BadGrant (Label t) e)
  end.

Section Directory.
(** The working directory of the listener. *)
Variable cwd : bytes.

Definition Effective (t : Terms) (offered : Spec) : result link_error Spec :=
  let! spec := TermsSpec t in
  match Narrow cwd offered (Intersect spec offered) with
  | Ok eff => Ok eff
  | Err e => Err (BadGrant (Label t) e)
  end.

Definition SameGrants (a b : Terms) (offered : Spec) : bool :=
  match Effective a offered, Effective b offered with
  | Ok ea, Ok eb => bool_decide (SpecString ea = SpecString eb)
  | _, _ => false
  end.

(** [Validate]: the value-level rules of the file. *)
Definition Validate (entries : list Terms) : result link_error unit :=
  let! _ := result_map (fun ne =>
    match TrimSpace (Label ne.2) with
    | [] => Err (NoLabel (S ne.1))
    | _ => let! _ := TermsSpec ne.2 in Ok tt
    end) (imap pair entries) in
  Ok tt.

(** * The table *)

Record Table := mkTable { entries : list Terms; offered : Spec }.

Inductive warning :=
| NarrowFails (e : link_error)
| NotOffered (label : bytes) (missing : list bytes).

Definition missing_words (spec off : Spec) : list bytes :=
  sort_strings (map word_of (filter (fun sc => Has off sc = false) (filter (fun sc => Has spec sc = true) Order))).

Definition warn (off : Spec) (e : Terms) : list warning :=
  match TermsSpec e with
  | Err _ => []
  | Ok spec =>
    match Effective e off with
    | Err err => [NarrowFails err]
    | Ok _ =>
      match missing_words spec off with
      | [] => []
      | missing => [NotOffered (Label e) missing]
      end
    end
  end.

Fixpoint check_labels (seen : gset bytes) (all : list Terms) : result link_error unit :=
  match all with
  | [] => Ok tt
  | e :: all' =>
    if decide (Label e ∈ seen) then
      (if decide (Label e = OwnerLabel) then Err ReservedLabel else Err (DuplicateLabel (Label e)))
    else check_labels ({[Label e]} ∪ seen) all'
  end.

Definition Build (es : list Terms) (off : Spec) (identityCode : bytes) : result link_error (Table * list warning) :=
  let all := mkTerms OwnerLabel identityCode [] None :: es in
  let! _ := check_labels ∅ all in
  Ok (mkTable all off, flat_map (warn off) es).

Definition ByLabel (t : Table) (label : bytes) : option Terms :=
  snd <$> list_find (fun e => Label e = label) (entries t).

Definition ByCode (t : Table) (code : bytes) : option Terms :=
  match code with
  | [] => None
  | _ => snd <$> list_find (fun e => Code e = code) (entries t)
  end.

(** The loop of [Authorize] has no early exit: the last matching row wins. *)
Definition match_code (code : bytes) (matched : option Terms) (e : Terms) : option Terms :=
  match Code e with
  | [] => matched
  | _ => if decide (code = Code e) then Some e else matched
  end.

Definition Authorize (t : Table) (code : bytes) (now : Time) : option Terms :=
  match foldl (match_code code) None (entries t) with
  | None => None
  | Some e => match Check e now with Ok _ => Some e | Err _ => None end
  end.

(** * The passes over the file *)

Record CodeConflict := mkConflict { ConflictLabels : list bytes; Reserved : bool }.

(** The rows of [byCode[code]]. *)
Definition rows (es : list Terms) (code : bytes) : list Terms := filter (fun e => Code e = code) es.

Definition is_reserved (identityCode code : bytes) : bool :=
  bool_decide (identityCode <> []) && bool_decide (code = identityCode).

Definition conflicted (es : list Terms) (identityCode code : bytes) : bool :=
  bool_decide (code <> []) &&
  ((2 <=? zlen (rows es code)) || is_reserved identityCode code).

Definition clear_code (t : Terms) : Terms := t <| Code := [] |>.

(** [byCode] is a map, so the conflicts come out in no order of its own; they are then sorted by
    their first label. *)
Definition DedupeCodes (es : list Terms) (identityCode : bytes) : list Terms * list CodeConflict :=
  (map (fun e => if conflicted es identityCode (Code e) then clear_code e else e) es,
   sort_by (fun c d => bytes_leb (hd [] (ConflictLabels c)) (hd [] (ConflictLabels d)))
     (map (fun code => mkConflict (sort_strings (map Label (rows es code))) (is_reserved identityCode code))
        (filter (fun code => conflicted es identityCode code = true) (remove_dups (map Code es))))).

Definition retires (now : Time) (t : Terms) : bool :=
  bool_decide (Code t <> []) && negb (is_ok (Check t now)).

Definition RetireExpired (es : list Terms) (now : Time) : list Terms * list bytes :=
  (map (fun t => if retires now t then clear_code t else t) es,
   map Label (filter (fun t => retires now t = true) es)).

(** [gen] is called once per row that needs a code; [supply] are the codes it returns, [None] where
    it fails. *)
Fixpoint Mint (es : list Terms) (now : Time) (supply : list (option bytes)) : result link_error (list Terms * list bytes) :=
  match es with
  | [] => Ok ([], [])
  | t :: es' =>
    if bool_decide (Code t <> []) || negb (is_ok (Check t now)) then
      let! r := Mint es' now supply in Ok (t :: r.1, r.2)
    else
      match supply with
      | Some code :: supply' =>
        let! r := Mint es' now supply' in Ok (t <| Code := code |> :: r.1, Label t :: r.2)
      | _ => Err NoRandomness
      end
  end.

(** * What a link reaches *)

(** Whatever sentence a link's entry holds, what its holder reaches on a listener lies within what
    the listener offers: no capability of its own, the listener's command where that is pinned, a
    directory inside the listener's share, and no target outside the listener's. *)
Theorem link_within_listener t off o :
  rooted cwd = true -> Effective t off = Ok o -> within cwd o off.
Proof.
  intros Hc. unfold Effective, TermsSpec, result_bind.
  destruct (ParseString (GrantText t)) as [s|] eqn:Ep; [|done].
  destruct (Narrow cwd off (Intersect s off)) as [eff|] eqn:En; [|done]. intros [= <-].
  apply ParseString_trimmed in Ep as [Hp Hf].
  eapply Narrow_within; [done| | |exact En]; unfold Intersect; by destruct (Caps s).
Qed.
End Directory.

(** * Codes *)

(** No two rows share a code. *)
Definition codes_unique (es : list Terms) : Prop :=
  forall i j e f, es !! i = Some e -> es !! j = Some f -> Code e = Code f -> Code e <> [] -> i = j.

Lemma match_code_last code es : forall m e,
  foldl (match_code code) m es = Some e -> m = Some e \/ (e ∈ es /\ Code e = code /\ code <> []).
Proof.
  induction es as [|x es IH]; intros m e; cbn [foldl]; [by left|]. intros H.
  apply IH in H as [H|(H & ? & ?)]; [|right; split; [by right|done]].
  unfold match_code in H. destruct (Code x) as [|c cs] eqn:Ex; [by left|].
  destruct (decide (code = c :: cs)) as [->|]; [|by left]. inv H. right. split; [by left|]. by rewrite Ex.
Qed.

Lemma match_code_finds code es : forall m e,
  e ∈ es -> Code e = code -> code <> [] -> is_Some (foldl (match_code code) m es).
Proof.
  assert (forall es m, is_Some m -> is_Some (foldl (match_code code) m es)) as Hsome.
  { clear. induction es as [|x es IH]; intros m Hm; [done|]. cbn. apply IH. unfold match_code.
    destruct (Code x); [done|]. by case_decide. }
  induction es as [|x es IH]; intros m e He Hc Hne; [by apply elem_of_nil in He|]. cbn [foldl].
  apply elem_of_cons in He as [->|He]; [|by eapply IH].
  apply Hsome. unfold match_code. destruct (Code x) eqn:Ex; [congruence|]. by rewrite decide_True.
Qed.

Lemma authorize_sound t code now e :
  Authorize t code now = Some e -> e ∈ entries t /\ Code e = code /\ code <> [] /\ Check e now = Ok tt.
Proof.
  unfold Authorize. destruct (foldl _ None _) as [x|] eqn:E; [|done].
  destruct (Check x now) as [[]|] eqn:Ec; [|done]. intros [= <-].
  apply match_code_last in E as [|(? & ? & ?)]; done.
Qed.

Lemma authorize_exact t code now e :
  codes_unique (entries t) ->
  Authorize t code now = Some e <-> e ∈ entries t /\ Code e = code /\ code <> [] /\ Check e now = Ok tt.
Proof.
  intros Hu. split; [apply authorize_sound|]. intros (He & Hc & Hne & Hok). unfold Authorize.
  destruct (match_code_finds code (entries t) None e He Hc Hne) as [x Hx]. rewrite Hx.
  apply match_code_last in Hx as [|(Hx & Hcx & _)]; [done|].
  apply list_elem_of_lookup in He as [i Hi], Hx as [j Hj].
  assert (i = j) as <- by (eapply Hu; [exact Hi|exact Hj|congruence|congruence]).
  rewrite Hi in Hj. inv Hj. by rewrite Hok.
Qed.

Lemma byCode_exact t code e :
  codes_unique (entries t) ->
  ByCode t code = Some e <-> e ∈ entries t /\ Code e = code /\ code <> [].
Proof.
  intros Hu. unfold ByCode. destruct code as [|c cs]; [by split; [|intros (_ & _ & ?)]|].
  split.
  - destruct (list_find _ _) as [[i x]|] eqn:E; [|done]. intros [= <-].
    apply list_find_Some in E as (Hi & Hx & _). split_and!; try done. by eapply list_elem_of_lookup_2.
  - intros (He & Hc & _). apply list_elem_of_lookup in He as [i Hi].
    destruct (list_find (fun e => Code e = c :: cs) (entries t)) as [[j x]|] eqn:E; cbn.
    + apply list_find_Some in E as (Hj & Hx & _).
      assert (i = j) as <- by (eapply Hu; [exact Hi|exact Hj|congruence|by rewrite Hc]). congruence.
    + apply list_find_None in E. rewrite Forall_forall in E. exfalso. eapply E; [|exact Hc]. by eapply list_elem_of_lookup_2.
Qed.

Lemma check_labels_ok es : forall seen,
  check_labels seen es = Ok tt -> NoDup (map Label es) /\ forall e, e ∈ es -> Label e ∉ seen.
Proof.
  induction es as [|x es IH]; intros seen H; cbn in H; [by split; [constructor|intros e ?%elem_of_nil]|].
  destruct (decide (Label x ∈ seen)) as [|Hx]; [by case_decide|]. apply IH in H as [Hnd Hs]. cbn. split.
  - constructor; [|done]. intros (e & He & Hin)%list_elem_of_fmap. apply (Hs e Hin).
    rewrite <- He. apply elem_of_union_l. by apply elem_of_singleton.
  - intros e [->|He]%elem_of_cons; [done|]. intros Hin. apply (Hs e He). by apply elem_of_union_r.
Qed.

Lemma Build_ok es off code t ws cwd :
  Build cwd es off code = Ok (t, ws) ->
  entries t = mkTerms OwnerLabel code [] None :: es /\ offered t = off /\ NoDup (map Label (entries t)).
Proof.
  unfold Build, result_bind. destruct (check_labels _ _) as [[]|] eqn:E; [|done]. intros [= <- <-].
  apply check_labels_ok in E as [? _]. done.
Qed.

Lemma ByLabel_find t label e :
  NoDup (map Label (entries t)) -> ByLabel t label = Some e <-> e ∈ entries t /\ Label e = label.
Proof.
  intros Hnd. unfold ByLabel. split.
  - destruct (list_find _ _) as [[i x]|] eqn:E; [|done]. intros [= <-].
    apply list_find_Some in E as (Hi & Hx & _). split; [by eapply list_elem_of_lookup_2|done].
  - intros (He & Hl). apply list_elem_of_lookup in He as [i Hi].
    destruct (list_find _ _) as [[j x]|] eqn:E; cbn.
    + apply list_find_Some in E as (Hj & Hx & _).
      assert (i = j) as <-; [|congruence]. apply (NoDup_lookup _ i j label Hnd); rewrite list_lookup_fmap.
      * rewrite Hi. cbn. by rewrite Hl.
      * rewrite Hj. cbn. by rewrite Hx.
    + apply list_find_None in E. rewrite Forall_forall in E. exfalso. eapply E; [|exact Hl]. by eapply list_elem_of_lookup_2.
Qed.

Definition sample_link : Terms := mkTerms $"web" $"K1" $"forward WEB.:80,db:5432 files share/pub/../x" None.
Definition sample_offer : Spec :=
  mkSpec (Some {[ScopeForward; ScopeFiles]}) [] $"share" [] [$"db:5432"; $"web"].
Definition sample_reach : Spec := from_result no_spec (Effective $"/srv" sample_link sample_offer).

Lemma link_within_listener_witness :
  ForwardTargets sample_reach = [$"WEB.:80"; $"db:5432"] /\ within $"/srv" sample_reach sample_offer.
Proof.
  split; [vm_compute; reflexivity|].
  apply (link_within_listener $"/srv" sample_link sample_offer sample_reach); vm_compute; reflexivity.
Defined.
