(* ===== verification/LinkState.v ===== *)
(** The listener's link table over its lifetime (cmd/bitbang/serve_links.go), the file it is kept in
    (internal/links/file.go: Load, Validate, Save) and the poll that closes sessions whose link no
    longer permits them (cmd/bitbang/serve_peer.go). *)

From S2P Require Import Prelude GoLib Json Allowlist Grant Links.

(** The link file: absent, or what [Parse] makes of its bytes ([None] where it refuses them) and its
    modification time. *)
Abbreviation file := (option (option (list Terms) * Time)) (only parsing).

Inductive state_error :=
| Unparsable
| BadEntries (e : link_error)
| ChangedOnDisk
| WriteFailed
| Refused (e : link_error)
| Ephemeral
| LabelTaken (label : bytes)
| NoSuchLabel (label : bytes)
| OwnerRefused.

(** What the world answers during one operation: the clock, the codes [identity.NewAccessCode]
    returns, whether the write succeeds and the modification time it gets. *)
Record env := mkEnv { now : Time; supply : list (option bytes); write_ok : bool; write_time : Time }.

Record linkState := mkLinkState {
  lsOffered : Spec;
  lsCode : bytes;
  readOnly : bool;
  table : option Table;
  modtime : option Time;
  disk : file
}.

#[export] Instance eta_linkState : Eta linkState := fun s =>
  mkLinkState (lsOffered s) (lsCode s) (readOnly s) (table s) (modtime s) (disk s).

(** The zero [time.Time] of a missing file is [None]. *)
Definition Load (f : file) : result state_error (list Terms * option Time) :=
  match f with
  | None => Ok ([], None)
  | Some (None, _) => Err Unparsable
  | Some (Some es, m) =>
    match Validate es with
    | Ok _ => Ok (es, Some m)
    | Err e => Err (BadEntries e)
    end
  end.

Definition Save (e : env) (f : file) (es : list Terms) (loadedMod : option Time) : file * result state_error unit :=
  if bool_decide (snd <$> f = loadedMod) then
    (if write_ok e then (Some (Some es, write_time e), Ok tt) else (f, Err WriteFailed))
  else (f, Err ChangedOnDisk).

Section Directory.
(** The working directory of the listener. *)
Variable cwd : bytes.

(** The three passes, in the order [reload] and [mutate] make them; what [reload] found to be
    worth writing back. *)
Definition refresh (es : list Terms) (code : bytes) (e : env) : result link_error (list Terms * list bytes) :=
  let d := DedupeCodes es code in
  let shared := flat_map ConflictLabels (filter (fun c => Reserved c = false) d.2) in
  let r := RetireExpired d.1 (now e) in
  let! m := Mint r.1 (now e) (supply e) in
  Ok (m.1, shared ++ r.2 ++ m.2).

Definition install (s : linkState) (es : list Terms) (m : option Time) : linkState * result state_error unit :=
  match Build cwd es (lsOffered s) (lsCode s) with
  | Err err => (s, Err (Refused err))
  | Ok (t, _) => (s <| table := Some t |> <| modtime := m |>, Ok tt)
  end.

(** [if _, m, err := links.Load(ls.path); err == nil { mod = m }] *)
Definition restat (f : file) (m : option Time) : option Time :=
  match Load f with Ok r => r.2 | Err _ => m end.

Definition reload (e : env) (s : linkState) : linkState * result state_error unit :=
  match (if readOnly s then Ok ([], None) else Load (disk s)) with
  | Err err => (s, Err err)
  | Ok ([], m) => install s [] m
  | Ok (es, m) =>
    match refresh es (lsCode s) e with
    | Err err => (s, Err (Refused err))
    | Ok (es', []) => install s es' m
    | Ok (es', _) =>
      match Save e (disk s) es' m with
      | (_, Err err) => (s, Err err)
      | (f, Ok _) => install (s <| disk := f |>) es' (restat f m)
      end
    end
  end.

Definition mutate (e : env) (fn : list Terms -> result state_error (list Terms)) (s : linkState) :
  linkState * result state_error unit :=
  if readOnly s then (s, Err Ephemeral) else
  match Load (disk s) with
  | Err err => (s, Err err)
  | Ok (es, m) =>
    match fn es with
    | Err err => (s, Err err)
    | Ok es1 =>
      match refresh es1 (lsCode s) e with
      | Err err => (s, Err (Refused err))
      | Ok (es', _) =>
        match Save e (disk s) es' m with
        | (_, Err err) => (s, Err err)
        | (f, Ok _) => install (s <| disk := f |>) es' (restat f m)
        end
      end
    end
  end.

Definition add_entry (entry : Terms) (es : list Terms) : result state_error (list Terms) :=
  if existsb (fun e => bool_decide (Label e = Label entry)) es then Err (LabelTaken (Label entry))
  else Ok (es ++ [entry]).

Definition add (e : env) (entry : Terms) (s : linkState) : linkState * result state_error bytes :=
  if bool_decide (Label entry = OwnerLabel) then (s, Err OwnerRefused) else
  let entry := clear_code entry in
  match mutate e (add_entry entry) s with
  | (s', Err err) => (s', Err err)
  | (s', Ok _) => (s', Ok (default [] (Code <$> (table s' ≫= fun t => ByLabel t (Label entry)))))
  end.

Definition remove_entry (label : bytes) (es : list Terms) : result state_error (list Terms) :=
  if existsb (fun e => bool_decide (Label e = label)) es then Ok (filter (fun e => Label e <> label) es)
  else Err (NoSuchLabel label).

Definition remove (e : env) (label : bytes) (s : linkState) : linkState * result state_error unit :=
  if bool_decide (label = OwnerLabel) then (s, Err OwnerRefused) else mutate e (remove_entry label) s.

(** The loop of [replace]: the assignment to the captured entry's code persists from row to row. *)
Fixpoint replace_rows (oldLabel : bytes) (entry : Terms) (found : bool) (es : list Terms) : result state_error (list Terms) :=
  match es with
  | [] => if found then Ok [] else Err (NoSuchLabel oldLabel)
  | e :: es' =>
    if decide (Label e = oldLabel) then
      let entry := entry <| Code := Code e |> in
      let! out := replace_rows oldLabel entry true es' in Ok (entry :: out)
    else if decide (Label e = Label entry) then Err (LabelTaken (Label entry))
    else let! out := replace_rows oldLabel entry found es' in Ok (e :: out)
  end.

Definition replace (e : env) (oldLabel : bytes) (entry : Terms) (s : linkState) : linkState * result state_error unit :=
  if bool_decide (oldLabel = OwnerLabel \/ Label entry = OwnerLabel) then (s, Err OwnerRefused)
  else mutate e (replace_rows oldLabel entry false) s.

(** * The poll *)

Inductive verdict := Keep | Revoke (why : bytes).

Definition whyGone (t : Table) (label : bytes) (now : Time) : bytes :=
  match ByLabel t label with
  | None => $"this link was revoked"
  | Some entry =>
    if bool_decide (Code entry = []) && negb (is_ok (Check entry now)) then $"this link has expired"
    else $"this link was reissued; ask for the new URL"
  end.

(** What [pollPeers] decides for a peer that connected under [label] and the terms [had]. *)
Definition poll_peer (t : Table) (now : Time) (label : bytes) (had : Terms) : verdict :=
  match label with
  | [] => Keep
  | _ =>
    match ByCode t (Code had) with
    | None => Revoke (whyGone t label now)
    | Some current =>
      if negb (is_ok (Check current now)) then Revoke $"this link has expired"
      else if negb (SameGrants cwd had current (offered t)) then Revoke $"this link's permissions changed; reconnect"
      else Keep
    end
  end.

Definition pollPeers (peers : list (bytes * Terms)) (t : Table) (now : Time) : list verdict :=
  map (fun p => poll_peer t now p.1 p.2) peers.

(** * The codes in a list of rows *)

Definition codes (es : list Terms) : list bytes := filter (fun c => c <> []) (map Code es).

Lemma elem_of_codes es c : c ∈ codes es <-> c <> [] /\ exists e, e ∈ es /\ Code e = c.
Proof.
  unfold codes. rewrite list_elem_of_filter, list_elem_of_fmap. split.
  - intros [? (e & -> & ?)]. eauto.
  - intros [? (e & ? & <-)]. eauto.
Qed.

Lemma codes_cons e es : codes (e :: es) = match Code e with [] => codes es | c => c :: codes es end.
Proof.
  unfold codes. cbn [map]. destruct (Code e) as [|c cs].
  - by rewrite filter_cons_False by (intros H; by apply H).
  - by rewrite filter_cons_True.
Qed.

Lemma NoDup_codes_unique es : NoDup (codes es) -> codes_unique es.
Proof.
  induction es as [|x es IH]; intros Hnd i j e f; [done|]. rewrite codes_cons in Hnd.
  assert (NoDup (codes es)) as Hnd' by (destruct (Code x); [done|by apply NoDup_cons in Hnd as [_ ?]]).
  assert (forall k y, es !! k = Some y -> Code y = Code x -> Code x <> [] -> False) as Hno.
  { intros k y Hk Hy Hne. destruct (Code x) as [|c cs]; [done|]. apply NoDup_cons in Hnd as [Hni _].
    apply Hni, elem_of_codes. split; [done|]. exists y. split; [by eapply list_elem_of_lookup_2|done]. }
  destruct i as [|i], j as [|j]; cbn; intros Hi Hj Hc Hne; try done.
  - inv Hi. exfalso. by eapply Hno.
  - inv Hj. exfalso. eapply Hno; [exact Hi|done|congruence].
  - f_equal. by eapply IH.
Qed.

(** * The passes *)

(** A pass leaves a row as it is except for its code. *)
Definition same_row (e e' : Terms) : Prop :=
  Label e' = Label e /\ GrantText e' = GrantText e /\ Expires e' = Expires e.

#[export] Instance same_row_trans : Transitive same_row.
Proof. intros x y z (? & ? & ?) (? & ? & ?). repeat split; congruence. Qed.

Lemma same_row_check e e' n : same_row e e' -> is_ok (Check e' n) = is_ok (Check e n).
Proof. intros (_ & _ & He). unfold Check. rewrite He. by destruct (Expires e) as [x|]; [destruct (n <? x)|]. Qed.

Lemma same_rows_clear (f : Terms -> bool) es :
  Forall2 same_row es (map (fun e => if f e then clear_code e else e) es).
Proof. induction es as [|x es IH]; constructor; [by destruct (f x)|done]. Qed.

Lemma clear_some_codes (f : Terms -> bool) es c :
  c ∈ codes (map (fun e => if f e then clear_code e else e) es) <->
  c <> [] /\ exists e, e ∈ es /\ Code e = c /\ f e = false.
Proof.
  rewrite elem_of_codes. split; intros [Hne H]; (split; [done|]).
  - destruct H as (e & He & Hc). apply list_elem_of_fmap in He as (x & -> & Hx). destruct (f x) eqn:E; [by subst c|eauto].
  - destruct H as (e & He & Hc & Hf). exists e. split; [|done]. apply list_elem_of_fmap. exists e. by rewrite Hf.
Qed.

Lemma codes_clear (f : Terms -> bool) es :
  codes (map (fun e => if f e then clear_code e else e) es) = map Code (filter (fun e => f e = false /\ Code e <> []) es).
Proof.
  induction es as [|e es IH]; [done|]. cbn [map]. rewrite codes_cons, IH, filter_cons.
  destruct (f e) eqn:Ef; cbn [Code clear_code upd].
  - by rewrite decide_False by (intros [? _]; done).
  - destruct (Code e) as [|c cs] eqn:Ec.
    + by rewrite decide_False by (by intros [_ ?]).
    + rewrite decide_True by done. cbn. by rewrite Ec.
Qed.

Lemma codes_clear_sub (f : Terms -> bool) es : NoDup (codes es) ->
  NoDup (codes (map (fun e => if f e then clear_code e else e) es)).
Proof.
  intros Hnd. rewrite codes_clear. induction es as [|e es IH]; [constructor|]. rewrite codes_cons in Hnd.
  rewrite filter_cons. case_decide as Hd.
  - destruct Hd as [Hf Hne]. destruct (Code e) as [|c cs] eqn:Ec; [done|]. apply NoDup_cons in Hnd as [Hni Hnd].
    cbn. rewrite Ec. constructor; [|by apply IH]. intros (y & Hy & Hin)%list_elem_of_fmap.
    apply list_elem_of_filter in Hin as [_ Hin]. apply Hni, elem_of_codes. split; [done|]. by exists y.
  - apply IH. destruct (Code e); [done|by apply NoDup_cons in Hnd as [_ ?]].
Qed.

Lemma conflicted_false es code c :
  c <> [] -> conflicted es code c = false -> (length (rows es c) <= 1)%nat /\ is_reserved code c = false.
Proof.
  unfold conflicted. intros Hne. rewrite bool_decide_true by done. cbn. intros [H1 H2]%orb_false_elim.
  apply Z.leb_gt in H1. split; [unfold zlen in H1; lia|done].
Qed.

Lemma dedupe_codes es code :
  NoDup (codes (DedupeCodes es code).1) /\
  (code <> [] -> code ∉ codes (DedupeCodes es code).1) /\
  forall e, e ∈ (DedupeCodes es code).1 -> Code e <> [] ->
    e ∈ es /\ forall f, f ∈ es -> Code f = Code e -> f = e.
Proof.
  cbn [DedupeCodes fst]. split_and!.
  - apply NoDup_counts. intros c. rewrite codes_clear.
    set (P := fun e : Terms => conflicted es code (Code e) = false /\ Code e <> []).
    assert (forall l, (length (filter (fun y => y = c) (map Code (filter P l))) <= length (filter (fun e => Code e = c /\ P e) l))%nat) as Hlen.
    { intros l. induction l as [|e l IH]; [done|]. rewrite !filter_cons. destruct (decide (P e)) as [Hp|Hp].
      - cbn [map]. rewrite filter_cons. destruct (decide (Code e = c)).
        + rewrite decide_True by done. cbn. lia.
        + rewrite decide_False by (by intros [? _]). done.
      - by rewrite decide_False by (by intros [_ ?]). }
    etrans; [apply Hlen|].
    destruct (decide (c = [])) as [->|Hne].
    { rewrite filter_none; [cbn; lia|]. intros x _ [H [_ H']]. done. }
    destruct (conflicted es code c) eqn:Ec.
    { rewrite filter_none; [cbn; lia|]. intros x _ [H [H' _]]. congruence. }
    apply conflicted_false in Ec as [Hr _]; [|done]. etrans; [|exact Hr]. apply length_filter_impl. by intros x [? _].
  - intros Hcode (_ & e & _ & Hc & Hf)%clear_some_codes. subst code. apply conflicted_false in Hf as [_ Hr]; [|done].
    unfold is_reserved in Hr. by rewrite !bool_decide_true in Hr.
  - intros e He Hne. apply list_elem_of_fmap in He as (x & -> & Hx).
    destruct (conflicted es code (Code x)) eqn:Hf; [done|]. split; [done|]. intros f Hf' Hcf. rename x into e, Hx into He.
    apply conflicted_false in Hf as [Hr _]; [|done].
    assert (e ∈ rows es (Code e)) as H1 by (by apply list_elem_of_filter).
    assert (f ∈ rows es (Code e)) as H2 by (by apply list_elem_of_filter).
    destruct (rows es (Code e)) as [|y [|z l]]; [by apply elem_of_nil in H1| |cbn in Hr; lia].
    apply list_elem_of_singleton in H1, H2. congruence.
Qed.

(** The codes [identity.NewAccessCode] returns are new: never empty, never the identity's, never one
    of the file, never the same twice. *)
Record fresh (code : bytes) (es : list Terms) (sup : list (option bytes)) : Prop := {
  fresh_nodup : NoDup (omap id sup);
  fresh_new : forall c, Some c ∈ sup -> c <> [] /\ c <> code /\ c ∉ map Code es
}.

Lemma Mint_codes n es : forall sup r,
  Mint es n sup = Ok r ->
  Forall2 same_row es r.1 /\
  exists used rest, sup = map Some used ++ rest /\
    ((forall c, c ∈ used -> c <> []) -> codes r.1 ≡ₚ codes es ++ used) /\
    (forall e, e ∈ r.1 -> is_ok (Check e n) = true -> Code e <> [] \/ [] ∈ used) /\
    (forall e, e ∈ r.1 -> is_ok (Check e n) = false -> e ∈ es).
Proof.
  induction es as [|t es IH]; intros sup r; cbn [Mint].
  { intros [= <-]. split; [constructor|]. exists [], sup. split_and!; try done; intros e ?%elem_of_nil; done. }
  destruct (bool_decide (Code t <> []) || negb (is_ok (Check t n))) eqn:Eg.
  - unfold result_bind. destruct (Mint es n sup) as [r'|] eqn:E; [|done]. intros [= <-].
    apply IH in E as (Hs & used & rest & -> & Hp & Hlive & Hdead). cbn [fst snd].
    split; [by constructor|]. exists used, rest. split_and!; [done|..].
    + intros Hu. rewrite !codes_cons. destruct (Code t); [by apply Hp|]. by rewrite (Hp Hu).
    + intros e [->|He]%elem_of_cons Hok; [|by apply Hlive]. rewrite Hok, orb_false_r in Eg. left. by bool_to_prop.
    + intros e [->|He]%elem_of_cons Hok; [by left|]. right. by apply Hdead.
  - bool_to_prop. destruct sup as [|[c|] sup]; try done. unfold result_bind.
    destruct (Mint es n sup) as [r'|] eqn:E; [|done]. intros [= <-].
    apply IH in E as (Hs & used & rest & -> & Hp & Hlive & Hdead). cbn [fst snd].
    split; [by constructor|]. exists (c :: used), rest. split_and!; [done|..].
    + intros Hu. rewrite !codes_cons. cbn [Code upd]. destruct (Code t) as [|]; [|exfalso; apply H; done].
      assert (codes r'.1 ≡ₚ codes es ++ used) as Hperm by (apply Hp; intros c' Hc'; apply Hu; by right).
      destruct c as [|a cs]; [by destruct (Hu [] ltac:(by left))|]. rewrite Hperm. apply Permutation_middle.
    + intros e [->|He]%elem_of_cons Hok; cbn.
      * destruct c; [right; by left|by left].
      * destruct (Hlive e He Hok); [by left|]. right. by right.
    + intros e [->|He]%elem_of_cons Hok; [|right; by apply Hdead].
      exfalso. change (is_ok (Check t n) = false) in Hok. congruence.
Qed.

(** A row without a code stays without one or gets one from the supply. *)
Definition newly_coded (sup : list (option bytes)) (x y : Terms) : Prop :=
  Code x = [] -> Code y = [] \/ Some (Code y) ∈ sup.

Lemma Mint_new n es : forall sup r, Mint es n sup = Ok r -> Forall2 (newly_coded sup) es r.1.
Proof.
  induction es as [|x es IH]; intros sup r; cbn [Mint]; [intros [= <-]; constructor|]. unfold result_bind.
  case_step.
  - destruct (Mint es n sup) as [r'|] eqn:E; [|done]. intros [= <-]. constructor; [by left|by eapply IH].
  - destruct sup as [|[c|] sup]; [done| |done]. destruct (Mint es n sup) as [r'|] eqn:E; [|done]. intros [= <-].
    constructor; [right; cbn; by left|]. eapply Forall2_impl; [by eapply IH|].
    intros a b H Ha. destruct (H Ha) as [|H2]; [by left|right; by right].
Qed.

Lemma clear_new (f : Terms -> bool) sup es es' :
  Forall2 (newly_coded sup) (map (fun e => if f e then clear_code e else e) es) es' -> Forall2 (newly_coded sup) es es'.
Proof.
  revert es'. induction es as [|x es IH]; intros es' H; inv H; constructor; [|by apply IH].
  match goal with H : newly_coded _ _ _ |- _ => intros Hx; apply H; by destruct (f x) end.
Qed.

(** What the passes establish. *)
Record honest (code : bytes) (e : env) (es es' : list Terms) : Prop := {
  honest_rows : Forall2 same_row es es';
  honest_codes : NoDup (codes es');
  honest_owner : code <> [] -> code ∉ codes es';
  honest_expired : forall x, x ∈ es' -> is_ok (Check x (now e)) = false -> Code x = [];
  honest_live : forall x, x ∈ es' -> is_ok (Check x (now e)) = true -> Code x <> [];
  honest_source : forall c, c ∈ codes es' -> c ∈ map Code es \/ Some c ∈ supply e;
  honest_kept : forall c, c ∈ codes es' -> c ∈ map Code es ->
    exists x, x ∈ es /\ Code x = c /\ is_ok (Check x (now e)) = true /\ forall f, f ∈ es -> Code f = c -> f = x;
  honest_new : Forall2 (newly_coded (supply e)) es es'
}.

Lemma refresh_honest es code e es' ch :
  fresh code es (supply e) -> refresh es code e = Ok (es', ch) -> honest code e es es'.
Proof.
  intros [Hnd Hnew]. unfold refresh, result_bind.
  destruct (dedupe_codes es code) as (Hd1 & Hd2 & Hd3).
  assert (Forall2 same_row es (DedupeCodes es code).1) as Hrows1.
  { apply same_rows_clear. }
  pose proof (clear_new (fun x => conflicted es code (Code x)) (supply e) es) as Hfirst.
  change (map _ es) with (DedupeCodes es code).1 in Hfirst.
  revert Hd1 Hd2 Hd3 Hrows1 Hfirst. generalize (DedupeCodes es code). intros [d conf]. cbn [fst snd]. intros Hd1 Hd2 Hd3 Hrows1 Hfirst.
  set (r := (RetireExpired d (now e)).1).
  assert (Forall2 same_row d r) as Hrows2.
  { apply same_rows_clear. }
  assert (NoDup (codes r)) as Hr1 by (by apply codes_clear_sub).
  assert (forall c, c ∈ codes r -> exists x, x ∈ d /\ Code x = c /\ c <> [] /\ is_ok (Check x (now e)) = true) as Hr2.
  { intros c (Hne & x & Hx & Hc & Hf)%clear_some_codes. exists x. split_and!; try done. unfold retires in Hf.
    rewrite bool_decide_true in Hf by congruence. by apply negb_false_iff in Hf. }
  assert (forall x, x ∈ r -> is_ok (Check x (now e)) = false -> Code x = []) as Hr3.
  { intros x Hx Hok. subst r. cbn in Hx. apply list_elem_of_fmap in Hx as (y & -> & _).
    destruct (retires (now e) y) eqn:Ef; [done|]. unfold retires in Ef. rewrite Hok, andb_true_r in Ef.
    bool_to_prop. by apply dec_stable. }
  destruct (Mint r (now e) (supply e)) as [m|] eqn:Em; [|done]. intros [= <- <-].
  pose proof (Hfirst _ (clear_new _ _ _ _ (Mint_new _ _ _ _ Em))) as Hnewly.
  apply Mint_codes in Em as (Hrows3 & used & rest & Hsup & Hp & Hlive & Hdead).
  assert (forall c, c ∈ used -> c <> [] /\ c <> code /\ c ∉ map Code es) as Hused.
  { intros c Hc. apply Hnew. rewrite Hsup. apply elem_of_app. left. apply list_elem_of_fmap. by exists c. }
  specialize (Hp (fun c Hc => proj1 (Hused c Hc))).
  assert (NoDup used) as Hnu.
  { assert (omap id (map Some used) = used) as Hom by (clear; induction used as [|? l IH]; [done|]; cbn; by rewrite IH).
    rewrite Hsup, omap_app, Hom in Hnd. by apply NoDup_app in Hnd as [Hnd _]. }
  assert (forall c, c ∈ codes r -> exists x, x ∈ es /\ Code x = c /\ is_ok (Check x (now e)) = true /\ forall f, f ∈ es -> Code f = c -> f = x) as Hback.
  { intros c Hc. destruct (Hr2 c Hc) as (x & Hx & Hcx & Hne & Hok).
    destruct (Hd3 x Hx) as (Hxe & Huniq); [congruence|]. exists x. split_and!; try done. intros; apply Huniq; congruence. }
  split.
  - etrans; [exact Hrows1|]. etrans; [exact Hrows2|exact Hrows3].
  - rewrite Hp. apply NoDup_app. split_and!; [done| |done]. intros c Hc Hu.
    destruct (Hback c Hc) as (x & Hx & Hcx & _). destruct (Hused c Hu) as (_ & _ & Hni). apply Hni.
    apply list_elem_of_fmap. by exists x.
  - intros Hcode. rewrite Hp, elem_of_app. intros [Hc|Hc]; [|by destruct (Hused _ Hc) as (_ & ? & _)].
    destruct (Hr2 _ Hc) as (x & Hx & Hcx & Hne & _). apply (Hd2 Hcode), elem_of_codes. split; [done|by exists x].
  - intros x Hx Hok. apply Hr3; [by apply Hdead|done].
  - intros x Hx Hok. destruct (Hlive x Hx Hok); [done|]. by destruct (Hused [] H).
  - intros c. rewrite Hp, elem_of_app. intros [Hc|Hc].
    + left. destruct (Hback c Hc) as (x & Hx & <- & _). apply list_elem_of_fmap. by exists x.
    + right. rewrite Hsup. apply elem_of_app. left. apply list_elem_of_fmap. by exists c.
  - intros c Hc Hold. rewrite Hp, elem_of_app in Hc. destruct Hc as [Hc|Hc]; [by apply Hback|].
    by destruct (Hused _ Hc) as (_ & _ & ?).
  - exact Hnewly.
Qed.

(** * The operations *)

Definition owner_row (code : bytes) : Terms := mkTerms OwnerLabel code [] None.

(** A table over the rows [es'], for an identity whose code is [code]. *)
Record table_of (code : bytes) (off : Spec) (es' : list Terms) (t : Table) : Prop := {
  table_entries : entries t = owner_row code :: es';
  table_offered : offered t = off;
  table_labels : NoDup (map Label (entries t))
}.

Definition same_config (s s' : linkState) : Prop :=
  lsCode s' = lsCode s /\ lsOffered s' = lsOffered s /\ readOnly s' = readOnly s.

Definition disk_rows (s : linkState) : list Terms :=
  match disk s with Some (Some es, _) => es | _ => [] end.

Lemma Load_rows s es m : Load (disk s) = Ok (es, m) -> es = disk_rows s.
Proof.
  unfold Load, disk_rows. destruct (disk s) as [[[l|] m']|]; [|done|by intros [= <- <-]].
  destruct (Validate l); [|done]. by intros [= <- <-].
Qed.

(** What an operation that ends in installing the rows [es'] leaves. *)
Definition installs (s : linkState) (e : env) (es es' : list Terms) (s' : linkState) : Prop :=
  same_config s s' /\ honest (lsCode s) e es es' /\
  exists t, table s' = Some t /\ table_of (lsCode s) (lsOffered s) es' t.

Definition keeps_table (s s' : linkState) : Prop := same_config s s' /\ table s' = table s.

Lemma install_cases s es m s' r :
  install s es m = (s', r) ->
  same_config s s' /\ disk s' = disk s /\
  match r with
  | Ok _ => exists t, table s' = Some t /\ table_of (lsCode s) (lsOffered s) es t
  | Err _ => table s' = table s
  end.
Proof.
  unfold install. destruct (Build _ _ _ _) as [[t ws]|] eqn:E; intros [= <- <-]; [|done].
  split; [done|]. split; [done|]. apply Build_ok in E as (? & ? & ?). exists t. by split.
Qed.

Lemma honest_nil code e : honest code e [] [].
Proof. split; [constructor|constructor|intros _ H; by apply elem_of_nil in H|..]; try (intros ? H; by apply elem_of_nil in H). constructor. Qed.

Lemma fresh_sub code es es1 sup :
  fresh code es sup -> (forall x, x ∈ es1 -> Code x <> [] -> Code x ∈ map Code es) -> fresh code es1 sup.
Proof.
  intros [Hnd Hnew] Hsub. split; [done|]. intros c Hc. destruct (Hnew c Hc) as (? & ? & Hni).
  split_and!; [done|done|]. intros (x & -> & Hx)%list_elem_of_fmap. by apply Hni, Hsub.
Qed.

Lemma Save_ok e f es m f' : Save e f es m = (f', Ok tt) -> f' = Some (Some es, write_time e).
Proof. unfold Save. repeat case_match; congruence. Qed.

(** The rows an operation works on: those [reload] or [mutate] found on disk, after the change. *)
Lemma reload_cases e s s' r :
  fresh (lsCode s) (disk_rows s) (supply e) -> reload e s = (s', r) ->
  match r with
  | Ok _ => exists es es', (readOnly s = false -> es = disk_rows s) /\ installs s e es es' s' /\
      (disk_rows s' = es' \/ disk s' = disk s /\ (es = [] \/ refresh es (lsCode s) e = Ok (es', [])))
  | Err _ => keeps_table s s'
  end.
Proof.
  intros Hf. unfold reload.
  destruct (if readOnly s then _ else _) as [[es m]|] eqn:El; [|by intros [= <- <-]].
  assert (es = [] \/ readOnly s = false /\ es = disk_rows s) as Hes.
  { destruct (readOnly s); [left; congruence|right]. split; [done|]. by eapply Load_rows. }
  destruct es as [|x l].
  - intros (Hc & Hd & Hi)%install_cases. destruct r as [u|]; [|by split].
    exists [], []. split; [|split; [|by right; split; [done|left]]].
    + intros Hro. rewrite Hro in El. by apply Load_rows in El.
    + split; [done|]. split; [apply honest_nil|done].
  - destruct Hes as [|[Hro Hes]]; [done|]. rewrite <- Hes in Hf. revert Hes Hf. generalize (x :: l). clear x l El. intros es Hes Hf.
    destruct (refresh es (lsCode s) e) as [[es' ch]|] eqn:Er; [|by intros [= <- <-]].
    pose proof (refresh_honest _ _ _ _ _ Hf Er) as Hh. destruct ch as [|c ch].
    + intros (Hc & Hd & Hi)%install_cases. destruct r as [u|]; [|by split].
      exists es, es'. split; [done|]. split; [|by right; split; [|right]]. done.
    + destruct (Save e (disk s) es' m) as [f [[]|]] eqn:Es; [|by intros [= <- <-]].
      apply Save_ok in Es. subst f. intros (Hc & Hd & Hi)%install_cases. destruct r as [u|]; [|by split].
      exists es, es'. split; [done|]. split; [done|]. left. unfold disk_rows. by rewrite Hd.
Qed.

Lemma mutate_cases e fn s s' r :
  fresh (lsCode s) (disk_rows s) (supply e) ->
  (forall es es1 x, fn es = Ok es1 -> x ∈ es1 -> Code x <> [] -> Code x ∈ map Code es) ->
  mutate e fn s = (s', r) ->
  match r with
  | Ok _ => exists es1 es', fn (disk_rows s) = Ok es1 /\ installs s e es1 es' s' /\ disk_rows s' = es'
  | Err _ => keeps_table s s'
  end.
Proof.
  intros Hf Hfn. unfold mutate.
  destruct (readOnly s); [by intros [= <- <-]|].
  destruct (Load (disk s)) as [[es m]|] eqn:El; [|by intros [= <- <-]]. apply Load_rows in El. subst es.
  destruct (fn (disk_rows s)) as [es1|] eqn:E1; [|by intros [= <- <-]].
  destruct (refresh es1 (lsCode s) e) as [[es' ch]|] eqn:Er; [|by intros [= <- <-]].
  assert (fresh (lsCode s) es1 (supply e)) as Hf1 by (eapply fresh_sub; [exact Hf|]; intros x; by apply Hfn).
  pose proof (refresh_honest _ _ _ _ _ Hf1 Er) as Hh.
  destruct (Save e (disk s) es' m) as [f [[]|]] eqn:Es; [|by intros [= <- <-]].
  apply Save_ok in Es. subst f. intros (Hc & Hd & Hi)%install_cases. destruct r as [u|]; [|by split].
  exists es1, es'. split; [done|]. split; [done|]. unfold disk_rows. by rewrite Hd.
Qed.

Lemma add_entry_codes entry es es1 x :
  add_entry (clear_code entry) es = Ok es1 -> x ∈ es1 -> Code x <> [] -> Code x ∈ map Code es.
Proof.
  unfold add_entry. case_match; [done|]. intros [= <-] [Hx| ->%list_elem_of_singleton]%elem_of_app Hc; [|done].
  apply list_elem_of_fmap. by exists x.
Qed.

Lemma remove_entry_codes label es es1 x :
  remove_entry label es = Ok es1 -> x ∈ es1 -> Code x <> [] -> Code x ∈ map Code es.
Proof.
  unfold remove_entry. case_match; [|done]. intros [= <-] [_ Hx]%list_elem_of_filter _.
  apply list_elem_of_fmap. by exists x.
Qed.

Lemma replace_rows_codes old es : forall entry found es1 x,
  replace_rows old entry found es = Ok es1 -> x ∈ es1 -> Code x <> [] -> Code x ∈ map Code es.
Proof.
  induction es as [|y es IH]; intros entry found es1 x; cbn [replace_rows map].
  - destruct found; [|done]. intros [= <-] H. by apply elem_of_nil in H.
  - unfold result_bind. destruct (decide (Label y = old)).
    + destruct (replace_rows old _ true es) as [out|] eqn:E; [|done]. intros [= <-] [->|Hx]%elem_of_cons Hc; [by left|].
      right. by eapply IH.
    + case_decide; [done|]. destruct (replace_rows old entry found es) as [out|] eqn:E; [|done].
      intros [= <-] [->|Hx]%elem_of_cons Hc; [by left|]. right. by eapply IH.
Qed.

Inductive op := Reload | Add (entry : Terms) | Remove (label : bytes) | Replace (old : bytes) (entry : Terms).

Definition exec (e : env) (o : op) (s : linkState) : linkState :=
  match o with
  | Reload => (reload e s).1
  | Add entry => (add e entry s).1
  | Remove label => (remove e label s).1
  | Replace old entry => (replace e old entry s).1
  end.

(** A listener's life: its operations, and edits of the file behind its back. *)
Inductive lstep : linkState -> linkState -> Prop :=
| lstep_op e o s : fresh (lsCode s) (disk_rows s) (supply e) -> lstep s (exec e o s)
| lstep_edit f s : lstep s (s <| disk := f |>).

Lemma exec_cases e o s :
  fresh (lsCode s) (disk_rows s) (supply e) ->
  keeps_table s (exec e o s) \/ exists es es', installs s e es es' (exec e o s).
Proof.
  intros Hf. destruct o as [|entry|label|old entry]; cbn [exec].
  - destruct (reload e s) as [s' r] eqn:E. apply reload_cases in E; [|done]. destruct r; [right|by left].
    destruct E as (es & es' & _ & H & _). by exists es, es'.
  - unfold add. case_bool_decide; [by left|]. destruct (mutate _ _ _) as [s' r] eqn:E.
    apply mutate_cases in E; [|done|intros; by eapply add_entry_codes].
    destruct r; [right|by left]. destruct E as (es & es' & _ & H' & _). by exists es, es'.
  - unfold remove. case_bool_decide; [by left|]. destruct (mutate _ _ _) as [s' r] eqn:E.
    apply mutate_cases in E; [|done|intros; by eapply remove_entry_codes].
    destruct r; [right|by left]. destruct E as (es & es' & _ & H' & _). by exists es, es'.
  - unfold replace. case_bool_decide; [by left|]. destruct (mutate _ _ _) as [s' r] eqn:E.
    apply mutate_cases in E; [|done|intros; by eapply replace_rows_codes].
    destruct r; [right|by left]. destruct E as (es & es' & _ & H' & _). by exists es, es'.
Qed.

(** * What a listener's table promises *)

Definition table_good (s : linkState) : Prop :=
  lsCode s <> [] /\
  forall t, table s = Some t ->
    codes_unique (entries t) /\ entries t !! 0%nat = Some (owner_row (lsCode s)) /\ NoDup (map Label (entries t)).

Lemma installs_good s e es es' s' : lsCode s <> [] -> installs s e es es' s' -> table_good s'.
Proof.
  intros Hc ((Hc' & _) & Hh & t & Ht & Hof). split; [congruence|]. intros t' Ht'. rewrite Ht in Ht'. inv Ht'.
  destruct Hof as [He _ Hl]. split_and!; [|by rewrite He, Hc'|done]. apply NoDup_codes_unique. rewrite He, codes_cons.
  cbn. destruct (lsCode s) as [|c cs] eqn:E; [done|]. constructor; [|apply Hh]. by apply Hh.
Qed.

Lemma reachable_good s0 s : lsCode s0 <> [] -> table s0 = None -> steps lstep s0 s -> table_good s.
Proof.
  intros Hc Hn Hr. refine (steps_invariant lstep table_good _ s0 s Hr _).
  - intros s1 s2 Hg Hs. destruct Hs as [e o s1 Hf|f s1]; [|exact Hg].
    destruct (exec_cases e o s1 Hf) as [[(H & _) Ht]|(es & es' & Hi)].
    + destruct Hg as [Hg1 Hg2]. split; [congruence|]. rewrite H, Ht. exact Hg2.
    + eapply installs_good; [apply Hg|exact Hi].
  - split; [done|]. rewrite Hn. by intros t [=].
Qed.

(** C2: At every moment of a listener's life, whatever was written into the link file behind its back
    (rows copied with their codes, the identity's own code pasted into a row), a presented code is
    accepted exactly when it is the code of an unexpired row, it then selects that one row, and the
    identity's own code selects the owner's. *)
Theorem authorize_exact_always s0 s t :
  lsCode s0 <> [] -> table s0 = None -> steps lstep s0 s -> table s = Some t ->
  (forall code n e, Authorize t code n = Some e <-> e ∈ entries t /\ Code e = code /\ code <> [] /\ Check e n = Ok tt) /\
  (forall n, Authorize t (lsCode s) n = Some (owner_row (lsCode s))).
Proof.
  intros Hc Hn Hr Ht. destruct (reachable_good _ _ Hc Hn Hr) as [Hcs Hg]. destruct (Hg t Ht) as (Hu & Ho & _).
  split; [intros; by apply authorize_exact|]. intros n. apply authorize_exact; [done|].
  split_and!; try done. by eapply list_elem_of_lookup_2.
Qed.

(** A code that is neither the identity's nor kept by the passes opens nothing. *)
Lemma dead_code s e es es' s' t c :
  installs s e es es' s' -> table s' = Some t -> c <> lsCode s -> c ∉ codes es' ->
  ByCode t c = None /\ forall n, Authorize t c n = None.
Proof.
  intros (_ & _ & t' & Ht' & [He _ _]) Ht Hc Hni. rewrite Ht' in Ht. inv Ht.
  assert (forall x, x ∈ entries t -> Code x = c -> c <> [] -> False) as Hno.
  { intros x Hx Hcx Hne. rewrite He in Hx. apply elem_of_cons in Hx as [->|Hx]; [done|].
    apply Hni, elem_of_codes. split; [done|by exists x]. }
  split.
  - unfold ByCode. destruct c as [|a c]; [done|]. destruct (list_find _ _) as [[i x]|] eqn:E; [|done].
    apply list_find_Some in E as (Hi & Hx & _). exfalso. eapply Hno; [by eapply list_elem_of_lookup_2|done|done].
  - intros n. destruct (Authorize t c n) as [x|] eqn:E; [|done].
    apply authorize_sound in E as (Hx & Hcx & Hne & _). by destruct (Hno x).
Qed.

Lemma Check_dead x n : is_ok (Check x n) = false -> Check x n <> Ok tt.
Proof. by destruct (Check x n). Qed.

Lemma flat_map_nonempty {A B} (f : A -> list B) l x : x ∈ l -> f x <> [] -> flat_map f l <> [].
Proof.
  intros Hx Hf. induction l as [|y l IH]; [by apply elem_of_nil in Hx|]. cbn. apply elem_of_cons in Hx as [->|Hx].
  - by destruct (f y).
  - intros [_ H]%app_eq_nil. by apply IH.
Qed.

(** A row that loses its code, other than to the identity, makes the passes report a change. *)
Lemma refresh_reports es code e es' ch x :
  refresh es code e = Ok (es', ch) -> x ∈ es -> Code x <> [] -> Code x <> code ->
  is_ok (Check x (now e)) = false -> ch <> [].
Proof.
  unfold refresh, result_bind. destruct (Mint _ _ _) as [m|]; [|done]. intros [= _ <-] Hx Hne Hcode Hok.
  intros [H1 [H2 _]%app_eq_nil]%app_eq_nil. destruct (conflicted es code (Code x)) eqn:Ec.
  - eapply flat_map_nonempty; [| |exact H1].
    + apply list_elem_of_filter. split; [|cbn; rewrite sort_by_perm; apply list_elem_of_fmap; exists (Code x); split; [reflexivity|]].
      * cbn. unfold is_reserved. rewrite (bool_decide_false (Code x = code)) by done. by rewrite andb_false_r.
      * apply list_elem_of_filter. split; [done|]. apply elem_of_remove_dups, list_elem_of_fmap. by exists x.
    + cbn. unfold sort_strings. intros Hs. assert (Label x ∈ sort_by bytes_leb (map Label (rows es (Code x)))) as Hin.
      { rewrite sort_by_perm. apply list_elem_of_fmap. exists x. split; [done|]. by apply list_elem_of_filter. }
      rewrite Hs in Hin. by apply elem_of_nil in Hin.
  - cbn in H2. apply map_eq_nil in H2. refine (filter_nil_not_elem_of _ _ x H2 _ _).
    + cbv beta. unfold retires. rewrite bool_decide_true by done. by rewrite Hok.
    + apply list_elem_of_fmap. exists x. by rewrite Ec.
Qed.

(** An expired code dies rather than sleeps. Once a reload has seen a row expired, its code is gone
    from the table and from the file, so it opens nothing at any later time, and extending the row
    afterwards does not bring it back: not even when another, live row was a copy of it. *)
Theorem expired_code_dies e s s' x t :
  fresh (lsCode s) (disk_rows s) (supply e) -> readOnly s = false ->
  reload e s = (s', Ok tt) -> table s' = Some t ->
  x ∈ disk_rows s -> Check x (now e) <> Ok tt -> Code x <> [] -> Code x <> lsCode s ->
  (forall n, Authorize t (Code x) n = None) /\ ByCode t (Code x) = None /\ Code x ∉ map Code (disk_rows s').
Proof.
  intros Hf Hro Hr Ht Hx Hexp Hne Hc.
  assert (is_ok (Check x (now e)) = false) as Hok by (by destruct (Check x (now e)) as [[]|]).
  apply reload_cases in Hr; [|done]. destruct Hr as (es & es' & Hes & Hi & Hd). specialize (Hes Hro). subst es.
  assert (Code x ∉ codes es') as Hni.
  { destruct Hi as (_ & Hh & _). intros Hin.
    destruct (honest_kept _ _ _ _ Hh _ Hin) as (y & Hy & _ & Hyok & Hyu).
    { apply list_elem_of_fmap. by exists x. }
    rewrite (Hyu x Hx eq_refl) in Hok. congruence. }
  destruct (dead_code _ _ _ _ _ _ _ Hi Ht Hc Hni) as [Hb Ha]. split_and!; [done|done|].
  destruct Hd as [->|[_ [Hnil|Hch]]].
  - intros (y & Hcy & Hy)%list_elem_of_fmap. apply Hni, elem_of_codes. split; [done|by exists y].
  - rewrite Hnil in Hx. by apply elem_of_nil in Hx.
  - by eapply refresh_reports in Hch.
Qed.

(** Removing a link revokes it. When [remove] succeeds, no row carries the label any more, the
    removed row's code opens nothing, and the poll closes every session that presented it, provided
    no other row of the file was a copy of the removed one's code. *)
Theorem remove_revokes e label s s' x t :
  fresh (lsCode s) (disk_rows s) (supply e) ->
  remove e label s = (s', Ok tt) -> table s' = Some t ->
  x ∈ disk_rows s -> Label x = label -> Code x <> [] -> Code x <> lsCode s ->
  (forall y, y ∈ disk_rows s -> Code y = Code x -> Label y = label) ->
  ByLabel t label = None /\ (forall n, Authorize t (Code x) n = None) /\
  forall n l had, l <> [] -> Code had = Code x -> poll_peer t n l had <> Keep.
Proof.
  intros Hf Hr Ht Hx Hl Hne Hc Huniq. unfold remove in Hr. case_bool_decide as Hol; [done|].
  apply mutate_cases in Hr; [|done|intros; by eapply remove_entry_codes].
  destruct Hr as (es1 & es' & H1 & Hi & _). unfold remove_entry in H1. case_match; [|done]. inv H1.
  assert (Code x ∉ codes es') as Hni.
  { intros Hin. pose proof Hi as (_ & Hh & _). destruct (decide (Code x ∈ map Code (filter (fun e => Label e <> Label x) (disk_rows s)))) as [Hold|Hnew].
    - apply list_elem_of_fmap in Hold as (y & Hy & [Hyl Hyin]%list_elem_of_filter). by apply Hyl, Huniq.
    - destruct (honest_source _ _ _ _ Hh _ Hin) as [|Hs]; [done|].
      destruct (fresh_new _ _ _ Hf _ Hs) as (_ & _ & Hno). apply Hno, list_elem_of_fmap. by exists x. }
  destruct (dead_code _ _ _ _ _ _ _ Hi Ht Hc Hni) as [Hb Ha]. split_and!; [|done|].
  - destruct Hi as (_ & Hh & t' & Ht' & [He _ _]). rewrite Ht' in Ht. inv Ht. unfold ByLabel.
    destruct (list_find _ _) as [[i y]|] eqn:Ef; [|done]. apply list_find_Some in Ef as (Hy & Hl & _).
    exfalso. apply list_elem_of_lookup_2 in Hy. rewrite He in Hy. apply elem_of_cons in Hy as [->|Hy]; [done|].
    apply list_elem_of_lookup in Hy as [j Hy].
    destruct (Forall2_lookup_r _ _ _ _ _ (honest_rows _ _ _ _ Hh) Hy) as (z & Hz & Hlz & _).
    apply list_elem_of_lookup_2, list_elem_of_filter in Hz as [Hz _]. congruence.
  - intros n l had Hne' Hcode. unfold poll_peer. destruct l; [done|]. by rewrite Hcode, Hb.
Qed.

(** The poll closes exactly the sessions whose link no longer permits them: a session is kept
    when, and only when, the code it presented is still the code of an unexpired row that reaches
    the same grant. The row's label plays no part, so renaming a link disconnects nobody. *)
Theorem poll_keeps_iff s0 s t n label had :
  lsCode s0 <> [] -> table s0 = None -> steps lstep s0 s -> table s = Some t -> label <> [] ->
  poll_peer t n label had = Keep <->
  exists cur a b, cur ∈ entries t /\ Code cur = Code had /\ Code had <> [] /\ Check cur n = Ok tt /\
    Effective cwd had (offered t) = Ok a /\ Effective cwd cur (offered t) = Ok b /\ SpecString a = SpecString b.
Proof.
  intros Hc Hn Hr Ht Hl. destruct (reachable_good _ _ Hc Hn Hr) as [_ Hg]. destruct (Hg t Ht) as (Hu & _ & _).
  unfold poll_peer. destruct label as [|l ls]; [done|].
  destruct (ByCode t (Code had)) as [cur|] eqn:Eb.
  - apply byCode_exact in Eb as (Hin & Hcc & Hne); [|done]. unfold SameGrants. split.
    + destruct (Check cur n) as [[]|] eqn:Ec; [cbn|done].
      destruct (Effective cwd had (offered t)) as [a|] eqn:Ea; [|done].
      destruct (Effective cwd cur (offered t)) as [b|] eqn:Ee; [|done].
      case_bool_decide; [|done]. intros _. by exists cur, a, b.
    + intros (cur' & a & b & Hin' & Hcc' & _ & Hok & Ha & Hb & Hs).
      assert (cur' = cur) as ->.
      { apply list_elem_of_lookup in Hin as [i Hi], Hin' as [j Hj].
        assert (i = j) as <- by (eapply Hu; [exact Hi|exact Hj|congruence|congruence]). congruence. }
      rewrite Hok, Ha, Hb. cbn. by rewrite bool_decide_true.
  - split; [done|]. intros (cur & a & b & Hin & Hcc & Hne & _).
    assert (ByCode t (Code had) = Some cur) as Hb by (by apply byCode_exact). congruence.
Qed.
End Directory.

(** * A listener at work *)

Lemma fresh_intro code es cs :
  NoDup cs -> Forall (fun c => c <> [] /\ c <> code /\ c ∉ map Code es) cs -> fresh code es (map Some cs).
Proof.
  intros Hnd Hf. split.
  - clear Hf. replace (omap id (map Some cs)) with cs; [done|]. clear. induction cs as [|c cs IH]; [done|].
    cbn. by rewrite <- IH.
  - intros c (x & [= ->] & Hx)%list_elem_of_fmap. rewrite Forall_forall in Hf. by apply Hf.
Qed.

Definition start_state : linkState := mkLinkState Everything $"ME" false None None None.

(** Two rows share a code, one of them expired; one asks for a code; one was pasted over the
    identity's own. *)
Definition sample_rows : list Terms :=
  [mkTerms $"ana" $"C1" $"files" (Some 50); mkTerms $"bob" $"C1" $"shell" None;
   mkTerms $"cat" [] $"forward db:5432" (Some 900); mkTerms $"dan" $"ME" [] None; mkTerms $"eve" $"C2" [] None].
Definition edited_state : linkState := start_state <| disk := Some (Some sample_rows, 1) |>.
Definition first_env : env := mkEnv 100 (map Some [$"N1"; $"N2"; $"N3"]) true 2.
Definition loaded_state : linkState := (reload $"/" first_env edited_state).1.
Definition loaded_table : Table := default (mkTable [] no_spec) (table loaded_state).

Lemma first_env_fresh : fresh (lsCode edited_state) (disk_rows edited_state) (supply first_env).
Proof. apply fresh_intro; apply (bool_decide_unpack _); vm_compute; reflexivity. Qed.

Lemma loaded_reachable : steps (lstep $"/") start_state loaded_state.
Proof.
  eapply steps_cons; [exact (lstep_edit $"/" (Some (Some sample_rows, 1)) start_state)|].
  eapply steps_one. exact (lstep_op $"/" first_env Reload edited_state first_env_fresh).
Qed.

Example loaded_entries :
  map (fun t => (Label t, Code t)) (entries loaded_table) =
  [($"owner", $"ME"); ($"ana", []); ($"bob", $"N1"); ($"cat", $"N2"); ($"dan", $"N3"); ($"eve", $"C2")].
Proof. vm_compute. reflexivity. Qed.

Lemma authorize_exact_always_witness :
  Authorize loaded_table $"ME" 7 = Some (owner_row $"ME") /\ Authorize loaded_table $"C1" 7 = None.
Proof.
  pose proof (authorize_exact_always $"/" start_state loaded_state loaded_table) as H. split.
  - apply H; [done|done|exact loaded_reachable|vm_compute; reflexivity].
  - vm_compute. reflexivity.
Defined.

Lemma expired_code_dies_witness :
  (forall n, Authorize loaded_table $"C1" n = None) /\ $"C1" ∉ map Code (disk_rows loaded_state).
Proof.
  destruct (expired_code_dies $"/" first_env edited_state loaded_state (mkTerms $"ana" $"C1" $"files" (Some 50)) loaded_table)
    as (H1 & _ & H2); [exact first_env_fresh|done|vm_compute; reflexivity|vm_compute; reflexivity|by left|done|done|done|].
  split; [exact H1|exact H2].
Defined.

Definition second_env : env := mkEnv 200 (map Some [$"N4"]) true 3.
Definition removed_state : linkState := (remove $"/" second_env $"eve" loaded_state).1.
Definition removed_table : Table := default (mkTable [] no_spec) (table removed_state).

Lemma second_env_fresh : fresh (lsCode loaded_state) (disk_rows loaded_state) (supply second_env).
Proof. apply fresh_intro; apply (bool_decide_unpack _); vm_compute; reflexivity. Qed.

Lemma remove_revokes_witness :
  Authorize loaded_table $"C2" 200 <> None /\ forall n, Authorize removed_table $"C2" n = None.
Proof.
  split; [vm_compute; done|].
  destruct (remove_revokes $"/" second_env $"eve" loaded_state removed_state (mkTerms $"eve" $"C2" [] None) removed_table)
    as (_ & H & _); [exact second_env_fresh|vm_compute; reflexivity|vm_compute; reflexivity| | | | | |exact H].
  - apply (bool_decide_unpack _). vm_compute. reflexivity.
  - reflexivity.
  - vm_compute. done.
  - vm_compute. done.
  - assert (Forall (fun y => Code y = $"C2" -> Label y = $"eve") (disk_rows loaded_state)) as Hf
      by (apply (bool_decide_unpack _); vm_compute; reflexivity).
    rewrite Forall_forall in Hf. exact Hf.
Defined.

Lemma poll_keeps_iff_witness :
  poll_peer $"/" loaded_table 300 $"old name" (mkTerms $"old name" $"N2" $"forward db:5432" None) = Keep.
Proof.
  apply (poll_keeps_iff $"/" start_state loaded_state loaded_table); [done|done|exact loaded_reachable|vm_compute; reflexivity|done|].
  exists (mkTerms $"cat" $"N2" $"forward db:5432" (Some 900)).
  exists (from_result no_spec (Effective $"/" (mkTerms $"cat" $"N2" $"forward db:5432" (Some 900)) Everything)).
  exists (from_result no_spec (Effective $"/" (mkTerms $"cat" $"N2" $"forward db:5432" (Some 900)) Everything)).
  split_and!; try (vm_compute; reflexivity); [|done].
  apply (bool_decide_unpack _). vm_compute. reflexivity.
Defined.

(** * Where the console's edits fall short *)

(** A link that expired since the file was last read is renewed at the console: [replace] carries
    the code across before [RetireExpired] looks, so the code that had expired opens the link
    again. *)
Lemma edit_revives_expired_code :
  let row := mkTerms $"ana" $"C1" $"files" (Some 150) in
  let s := (reload $"/" first_env (start_state <| disk := Some (Some [row], 1) |>)).1 in
  let s' := (replace $"/" second_env $"ana" (row <| Expires := Some 900 |>) s).1 in
  (forall t, table s = Some t -> Authorize t $"C1" 200 = None) /\
  (forall t, table s' = Some t -> exists e, Authorize t $"C1" 200 = Some e /\ Label e = $"ana").
Proof.
  split; intros t; vm_compute; intros [= <-]; [done|]. eexists. split; reflexivity.
Qed.

(** A row whose code was copied into another row by hand is removed at the console before the file
    has been re-read: [remove] takes it out before [DedupeCodes] looks, so the copy keeps the code
    and the removed link's URL still works, with the other row's grant. *)
Lemma remove_leaves_copied_code :
  let rows := [mkTerms $"ana" $"C1" $"files" None; mkTerms $"bob" $"C1" $"shell" None] in
  let s := start_state <| disk := Some (Some rows, 1) |> in
  let r := remove $"/" second_env $"ana" s in
  r.2 = Ok tt /\ forall t, table r.1 = Some t -> exists e, Authorize t $"C1" 200 = Some e /\ Label e = $"bob".
Proof. split; [vm_compute; reflexivity|]. intros t. vm_compute. intros [= <-]. eexists. split; reflexivity. Qed.
