(* ===== verification/FileTree.v ===== *)
(** A Unix file tree as the program sees it: lookup, symbolic links, [filepath.EvalSymlinks], [os.Stat],
    [os.Open] and [os.Create] of the standard library, over paths as lists of elements. *)

From S2P Require Import Prelude GoLib.

(** What lives at a path: a directory, a file with its bytes, or a symbolic link. The second argument
    is the modification time. *)
Inductive node := NDir (mtime : Z) | NFile (data : bytes) (mtime : Z) | NLink (target : bytes).

(** The nodes below the root, by the elements of their path from it. *)
Abbreviation tree := (gmap (list bytes) node).

Definition node_at (fs : tree) (p : list bytes) : option node :=
  match p with [] => Some (NDir 0) | _ => fs !! p end.

Definition path_of (es : list bytes) : bytes := slash :: join [slash] es.

(** The walk along a path from the directory [dest], following at most [links] symbolic links. *)
Fixpoint walk (fs : tree) (links : nat) : list bytes -> list bytes -> option (list bytes) :=
  fix go (dest todo : list bytes) {struct todo} : option (list bytes) :=
    match todo with
    | [] => Some dest
    | e :: rest =>
      if decide (e = [] \/ e = $".") then go dest rest
      else if decide (e = $"..") then go (take (length dest - 1) dest) rest
      else
        let dest' := dest ++ [e] in
        match node_at fs dest' with
        | None => None
        | Some (NDir _) => go dest' rest
        | Some (NFile _ _) => match rest with [] => Some dest' | _ => None end
        | Some (NLink t) =>
          match links with
          | O => None
          | S n => walk fs n (if rooted t then [] else dest) (Split t slash ++ rest)
          end
        end
    end.

(** [filepath.EvalSymlinks] gives up after 255 links, the kernel after 40. *)
Definition EvalSymlinks (fs : tree) (path : bytes) : option (list bytes) := walk fs 255 [] (Split path slash).
Definition kernel_links : nat := 40.

(** [os.Stat]: the node a path leads to. *)
Definition Stat (fs : tree) (path : bytes) : option node :=
  walk fs kernel_links [] (Split path slash) ≫= node_at fs.

Definition is_dir (n : node) : bool := match n with NDir _ => true | _ => false end.

(** [os.Open] for reading: the place that is read. *)
Definition Open (fs : tree) (path : bytes) : option (list bytes) := walk fs kernel_links [] (Split path slash).

(** [os.Create] follows links like any open, and makes the last element where only that is missing:
    the place that is written. *)
Fixpoint walk_create (fs : tree) (links : nat) : list bytes -> list bytes -> option (list bytes) :=
  fix go (dest todo : list bytes) {struct todo} : option (list bytes) :=
    match todo with
    | [] => Some dest
    | e :: rest =>
      if decide (e = [] \/ e = $".") then go dest rest
      else if decide (e = $"..") then go (take (length dest - 1) dest) rest
      else
        let dest' := dest ++ [e] in
        match node_at fs dest' with
        | None => match rest with [] => Some dest' | _ => None end
        | Some (NDir _) => go dest' rest
        | Some (NFile _ _) => match rest with [] => Some dest' | _ => None end
        | Some (NLink t) =>
          match links with
          | O => None
          | S n => walk_create fs n (if rooted t then [] else dest) (Split t slash ++ rest)
          end
        end
    end.

Definition Create (fs : tree) (path : bytes) : option (list bytes) :=
  p ← walk_create fs kernel_links [] (Split path slash);
  match node_at fs p with Some (NDir _) => None | _ => Some p end.

(** The tree once [data] is written where [Create] opened. *)
Definition write_file (fs : tree) (p : list bytes) (data : bytes) (mtime : Z) : tree := <[p := NFile data mtime]> fs.

(** [Readdirnames(-1)] *)
Definition Readdirnames (fs : tree) (p : list bytes) : list bytes :=
  omap (fun kv => match strip_common p kv.1 with ([], [e]) => Some e | _ => None end) (map_to_list fs).

(** * Paths and their elements *)

Lemma Split_join_app a k c :
  a <> [] -> Forall (fun e => c ∉ e) a -> Split (join [c] a ++ c :: k) c = a ++ Split k c.
Proof.
  induction a as [|e a IH]; intros Hne Ha; [done|]. inv Ha. destruct a as [|e' a].
  - cbn [join]. by rewrite Split_app_sep.
  - change (join [c] (e :: e' :: a)) with (e ++ [c] ++ join [c] (e' :: a)).
    rewrite <- !app_assoc. cbn [app]. rewrite Split_app_sep by done. by rewrite IH.
Qed.

Lemma join_app a b c : a <> [] -> b <> [] -> join [c] (a ++ b) = join [c] a ++ c :: join [c] b.
Proof.
  induction a as [|e a IH]; intros Ha Hb; [done|]. destruct a as [|e' a].
  - destruct b; [done|]. reflexivity.
  - change (join [c] ((e :: e' :: a) ++ b)) with (e ++ [c] ++ join [c] ((e' :: a) ++ b)). rewrite IH by done.
    change (join [c] (e :: e' :: a)) with (e ++ [c] ++ join [c] (e' :: a)). by rewrite <- !app_assoc.
Qed.

Lemma proper_no_slash a : Forall proper a -> Forall (fun e => slash ∉ e) a.
Proof. intros H. eapply Forall_impl; [exact H|]. by intros ? [? _]. Qed.

Lemma Split_path_of a : Forall proper a -> Split (path_of a) slash = [] :: (match a with [] => [[]] | _ => a end).
Proof.
  intros Ha. unfold path_of. cbn [Split]. rewrite decide_True by done. f_equal. destruct a; [done|].
  apply Split_join; [done|by apply proper_no_slash].
Qed.

Lemma Split_trailing s c : Split (s ++ [c]) c = Split s c ++ [[]].
Proof.
  induction s as [|d s IH]; cbn; [by rewrite decide_True|]. rewrite IH. case_decide; [done|].
  pose proof (Split_nonempty s c). by destruct (Split s c).
Qed.

Lemma path_of_no_trailing a x : Forall proper a -> a <> [] -> path_of a <> x ++ [slash].
Proof.
  intros Ha Hne H. unfold path_of in H. destruct x as [|c x].
  - cbn in H. inv H. destruct a as [|e [|e' a]]; [done| |].
    + cbn in H1. inv Ha. by destruct H2 as (_ & ? & _).
    + inv Ha. destruct H2 as (_ & ? & _). by destruct e.
  - cbn in H. inv H. apply (f_equal (fun s => Split s slash)) in H2.
    rewrite Split_join in H2 by (done || by apply proper_no_slash).
    rewrite Split_trailing in H2. rewrite H2 in Ha. apply Forall_app in Ha as [_ Ha]. inv Ha.
    by destruct H1 as (_ & ? & _).
Qed.

Lemma path_of_inj a b : Forall proper a -> Forall proper b -> path_of a = path_of b -> a = b.
Proof.
  intros Ha Hb H. apply (f_equal elements) in H. unfold path_of in H. by rewrite !elements_rooted_join in H.
Qed.

Lemma Clean_path_of a : Forall proper a -> Clean (path_of a) = path_of a.
Proof. intros Ha. unfold path_of, Clean. cbn [rooted]. rewrite bool_decide_true by done. by rewrite clean_elements_join. Qed.

Lemma Abs_path_of cwd p : rooted cwd = true ->
  exists es, Forall proper es /\ Abs cwd p = path_of es /\ elements (Abs cwd p) = es.
Proof.
  intros Hc. pose proof (rooted_Abs cwd p Hc) as Hr. rewrite <- (Clean_Abs cwd p Hc).
  exists (clean_elements (Abs cwd p)). split; [by apply clean_elements_proper|]. split; [|by apply elements_Clean].
  unfold Clean. by rewrite Hr.
Qed.

(** * Walks *)

Lemma walk_eq fs links dest todo :
  walk fs links dest todo =
  match todo with
  | [] => Some dest
  | e :: rest =>
    if decide (e = [] \/ e = $".") then walk fs links dest rest
    else if decide (e = $"..") then walk fs links (take (length dest - 1) dest) rest
    else
      match node_at fs (dest ++ [e]) with
      | None => None
      | Some (NDir _) => walk fs links (dest ++ [e]) rest
      | Some (NFile _ _) => match rest with [] => Some (dest ++ [e]) | _ => None end
      | Some (NLink t) =>
        match links with
        | O => None
        | S n => walk fs n (if rooted t then [] else dest) (Split t slash ++ rest)
        end
      end
  end.
Proof. by destruct links, todo. Qed.

Definition is_link (n : option node) : bool := match n with Some (NLink _) => true | _ => false end.

(** A place free of links: every prefix of it exists and is not a link, and all but the last are
    directories. *)
Definition resolved (fs : tree) (p : list bytes) : Prop :=
  Forall proper p /\
  (forall q r, p = q ++ r -> is_Some (node_at fs q) /\ is_link (node_at fs q) = false) /\
  (forall q e r, p = q ++ e :: r -> exists m, node_at fs q = Some (NDir m)).

Lemma resolved_nil fs : resolved fs [].
Proof.
  split; [constructor|]. split.
  - intros q r H. symmetry in H. apply app_eq_nil in H as [-> ->]. split; [by eexists|done].
  - intros q e r H. symmetry in H. by apply app_eq_nil in H as [_ ?].
Qed.

Lemma resolved_prefix fs q r : resolved fs (q ++ r) -> resolved fs q.
Proof.
  intros (Hp & Hn & Hd). split; [by apply Forall_app in Hp as [? _]|]. split.
  - intros q' r' ->. apply (Hn q' (r' ++ r)). by rewrite app_assoc.
  - intros q' e r' ->. apply (Hd q' e (r' ++ r)). by rewrite <- app_assoc.
Qed.

Lemma resolved_snoc fs d e m n :
  resolved fs d -> node_at fs d = Some (NDir m) -> proper e ->
  node_at fs (d ++ [e]) = Some n -> is_link (Some n) = false -> resolved fs (d ++ [e]).
Proof.
  intros (Hp & Hn & Hd) Hm He Hne Hl. split; [by apply Forall_app; rewrite Forall_singleton|]. split.
  - intros q r H. destruct r as [|x r] using rev_ind.
    + rewrite app_nil_r in H. subst q. rewrite Hne. split; [by eexists|done].
    + rewrite app_assoc in H. apply app_inj_tail in H as [-> ->]. by eapply Hn.
  - intros q x r H. destruct r as [|y r _] using rev_ind.
    + apply app_inj_tail in H as [<- <-]. by exists m.
    + change (x :: r ++ [y]) with ((x :: r) ++ [y]) in H. rewrite app_assoc in H.
      apply app_inj_tail in H as [-> _]. by eapply Hd.
Qed.

Lemma take_parent {A} (d : list A) : exists r, d = take (length d - 1) d ++ r.
Proof. exists (drop (length d - 1) d). by rewrite take_drop. Qed.

(** Whatever links it follows, a walk ends at a place free of links. *)
Lemma walk_resolved fs links : forall todo dest p m,
  resolved fs dest -> node_at fs dest = Some (NDir m) -> Forall no_slash todo ->
  walk fs links dest todo = Some p -> resolved fs p.
Proof.
  induction links as [links IHl] using lt_wf_ind. induction todo as [|e rest IH]; intros dest p m Hr Hm Ht Hw;
    rewrite walk_eq in Hw; [by inv Hw|]. inv Ht.
  case_decide as E1; [exact (IH _ _ _ Hr Hm H2 Hw)|]. case_decide as E2.
  - destruct (take_parent dest) as [r Hdr]. pose proof Hr as Hr'. rewrite Hdr in Hr'.
    apply resolved_prefix in Hr'. destruct r as [|x r].
    + rewrite app_nil_r in Hdr. rewrite <- Hdr in Hw. exact (IH _ _ _ Hr Hm H2 Hw).
    + destruct Hr as (_ & _ & Hd). destruct (Hd _ _ _ Hdr) as [m' Hm']. exact (IH _ _ _ Hr' Hm' H2 Hw).
  - assert (proper e) as He by (split_and!; tauto).
    destruct (node_at fs (dest ++ [e])) as [[m'|data m'|t]|] eqn:En; [| | |done].
    + eapply IH; [|exact En|done|exact Hw]. by eapply resolved_snoc.
    + destruct rest; [|done]. inv Hw. by eapply resolved_snoc.
    + destruct links as [|n]; [done|]. destruct (rooted t).
      * eapply (IHl n); [lia|apply resolved_nil|reflexivity| |exact Hw].
        apply Forall_app. split; [|done]. apply Split_no_sep.
      * eapply (IHl n); [lia|exact Hr|exact Hm| |exact Hw].
        apply Forall_app. split; [|done]. apply Split_no_sep.
Qed.

(** A walk along a place free of links follows none and stays there. *)
Lemma walk_stays fs links : forall r q, resolved fs (q ++ r) -> walk fs links q r = Some (q ++ r).
Proof.
  induction r as [|e r IH]; intros q Hr; rewrite walk_eq; [by rewrite app_nil_r|].
  pose proof Hr as (Hp & Hn & Hd). apply Forall_app in Hp as [_ Hp]. inv Hp. destruct H1 as (_ & H1 & H3 & H4).
  rewrite decide_False by tauto. rewrite decide_False by done.
  destruct (Hn (q ++ [e]) r) as [[nd Hnd] Hl]; [by rewrite <- app_assoc|]. rewrite Hnd in *.
  destruct nd as [m|data m|t]; [| |done].
  - rewrite IH; [by rewrite <- app_assoc|by rewrite <- app_assoc].
  - destruct r as [|x r]; [done|]. destruct (Hd (q ++ [e]) x r) as [m' Hm']; [by rewrite <- app_assoc|]. congruence.
Qed.

Lemma EvalSymlinks_resolved fs path p : EvalSymlinks fs path = Some p -> resolved fs p.
Proof.
  intros H. eapply walk_resolved; [apply resolved_nil|reflexivity| |exact H]. apply Split_no_sep.
Qed.

Lemma Open_resolved fs p : resolved fs p -> Open fs (path_of p) = Some p.
Proof.
  intros Hr. pose proof Hr as [Hp _]. unfold Open. rewrite Split_path_of by done. rewrite walk_eq.
  rewrite decide_True by auto. destruct p as [|e p]; [done|]. by apply (walk_stays fs kernel_links (e :: p) []).
Qed.

Lemma Stat_resolved fs p : resolved fs p -> Stat fs (path_of p) = node_at fs p.
Proof. intros Hr. unfold Stat. change (Open fs (path_of p) ≫= node_at fs = node_at fs p). by rewrite Open_resolved. Qed.

Lemma walk_create_eq fs links dest todo :
  walk_create fs links dest todo =
  match todo with
  | [] => Some dest
  | e :: rest =>
    if decide (e = [] \/ e = $".") then walk_create fs links dest rest
    else if decide (e = $"..") then walk_create fs links (take (length dest - 1) dest) rest
    else
      match node_at fs (dest ++ [e]) with
      | None => match rest with [] => Some (dest ++ [e]) | _ => None end
      | Some (NDir _) => walk_create fs links (dest ++ [e]) rest
      | Some (NFile _ _) => match rest with [] => Some (dest ++ [e]) | _ => None end
      | Some (NLink t) =>
        match links with
        | O => None
        | S n => walk_create fs n (if rooted t then [] else dest) (Split t slash ++ rest)
        end
      end
  end.
Proof. by destruct links, todo. Qed.

(** Creating below a place free of links, under a name that is not a link, writes right there. *)
Lemma walk_create_stays fs links e m : forall r q,
  resolved fs (q ++ r) -> node_at fs (q ++ r) = Some (NDir m) -> proper e ->
  is_link (node_at fs (q ++ r ++ [e])) = false -> walk_create fs links q (r ++ [e]) = Some (q ++ r ++ [e]).
Proof.
  induction r as [|x r IH]; intros q Hr Hm He Hl; cbn [app]; rewrite walk_create_eq.
  - destruct He as (_ & H1 & H3 & H4). rewrite decide_False by tauto. rewrite decide_False by done.
    cbn [app] in Hl. destruct (node_at fs (q ++ [e])) as [[]|]; try done. by rewrite walk_create_eq.
  - pose proof Hr as (Hp & Hn & Hd). apply Forall_app in Hp as [_ Hp]. inv Hp. destruct H1 as (_ & H1 & H3 & H4).
    rewrite decide_False by tauto. rewrite decide_False by done.
    assert (exists m', node_at fs (q ++ [x]) = Some (NDir m')) as [m' ->].
    { destruct r as [|y r]; [by exists m|]. apply (Hd _ y r). by rewrite <- app_assoc. }
    rewrite IH; rewrite <- ?app_assoc; cbn [app]; try done.
Qed.

Lemma Create_stays fs d e m p :
  resolved fs d -> node_at fs d = Some (NDir m) -> proper e -> is_link (node_at fs (d ++ [e])) = false ->
  Create fs (path_of (d ++ [e])) = Some p -> p = d ++ [e].
Proof.
  intros Hr Hm He Hl. unfold Create. pose proof Hr as [Hp _].
  rewrite Split_path_of by (by apply Forall_app; rewrite Forall_singleton). rewrite walk_create_eq, decide_True by auto.
  assert (match d ++ [e] with [] => [[]] | _ => d ++ [e] end = d ++ [e]) as -> by (by destruct d).
  rewrite (walk_create_stays fs kernel_links e m d []) by done. cbn [app mbind option_bind].
  destruct (node_at fs (d ++ [e])) as [[]|]; [done|..]; by intros [= <-].
Qed.

Lemma Create_resolved fs p q : resolved fs p -> Create fs (path_of p) = Some q -> q = p.
Proof.
  intros Hr. destruct p as [|e d _] using rev_ind.
  - done.
  - pose proof Hr as (Hp & Hn & Hd). apply Forall_app in Hp as [_ Hp]. inv Hp. destruct (Hd d e []) as [m Hm]; [done|].
    eapply Create_stays; [by eapply resolved_prefix|exact Hm|done|]. by apply (Hn (d ++ [e]) []); rewrite app_nil_r.
Qed.

(** Creating opens what exists, or a place where nothing exists. *)
Lemma walk_create_walk fs links : forall todo dest p,
  walk_create fs links dest todo = Some p ->
  walk fs links dest todo = Some p \/ walk fs links dest todo = None /\ node_at fs p = None.
Proof.
  induction links as [links IHl] using lt_wf_ind. induction todo as [|e rest IH]; intros dest p Hw;
    rewrite walk_create_eq in Hw; rewrite walk_eq; [by left|].
  case_decide as E1; [by apply IH|]. case_decide as E2; [by apply IH|].
  destruct (node_at fs (dest ++ [e])) as [[m'|data m'|t]|] eqn:En.
  - by apply IH.
  - by left.
  - destruct links as [|n]; [done|]. apply (IHl n); [lia|done].
  - destruct rest; [|done]. inv Hw. by right.
Qed.

Lemma Create_new fs path p : Stat fs path = None -> Create fs path = Some p -> node_at fs p = None.
Proof.
  unfold Stat, Create. intros Hs Hc.
  destruct (walk_create fs kernel_links [] (Split path slash)) as [q|] eqn:E; [|done]. cbn in Hc.
  assert (q = p) as -> by (destruct (node_at fs q) as [[]|]; by inv Hc).
  destruct (walk_create_walk _ _ _ _ _ E) as [Hw|[_ Hn]]; [|done]. by rewrite Hw in Hs.
Qed.

Lemma Join_path_of d e : Forall proper d -> proper e -> Join (path_of d) e = path_of (d ++ [e]).
Proof.
  intros Hd He. pose proof He as (Hs & Hne & H1 & H2). unfold Join. change (path_of d) with (slash :: join [slash] d).
  cbv iota beta. destruct e as [|c e]; [done|]. set (x := c :: e) in *. unfold Clean.
  assert (rooted ((slash :: join [slash] d) ++ [slash] ++ x) = true) as -> by reflexivity.
  assert (clean_elements ((slash :: join [slash] d) ++ [slash] ++ x) = d ++ [x]) as ->; [|done].
  rewrite <- (clean_elements_join (d ++ [x])) by (by apply Forall_app; rewrite Forall_singleton).
  destruct d as [|y d].
  - cbn [join app]. unfold clean_elements. cbn [rooted]. rewrite bool_decide_true by done.
    cbn [Split]. rewrite !decide_True by done. rewrite Split_whole by done. reflexivity.
  - rewrite (join_app (y :: d) [x] slash) by done. reflexivity.
Qed.

Lemma Base_path_of d e : Forall proper d -> proper e -> Base (path_of (d ++ [e])) = e.
Proof.
  intros Hd He. unfold Base, path_of. rewrite elements_rooted_join by (by apply Forall_app; rewrite Forall_singleton).
  by rewrite rev_app_distr.
Qed.

(** * Containment *)

Lemma HasSuffix_slash a : Forall proper a -> HasSuffix (path_of a) [slash] = bool_decide (a = []).
Proof.
  intros Ha. case_bool_decide as Hn; [by subst|]. apply not_true_is_false. unfold HasSuffix. intros [k Hk]%HasPrefix_spec.
  apply (f_equal (@rev _)) in Hk. rewrite rev_involutive, rev_app_distr in Hk. cbn in Hk.
  by apply path_of_no_trailing in Hk.
Qed.
