(* ===== verification/Fileshare.v ===== *)
(** The shared directory: which paths may be read, listed and written
    (internal/fileshare/safepath.go, filesystem.go and the handlers of fileshare.go). *)

From S2P Require Import Prelude GoLib FileTree.

Definition systemFiles : list bytes :=
  [$".DS_Store"; $"Thumbs.db"; $"desktop.ini"; $".git"; $"__pycache__"; $".env"].

Definition withinBase (path base : bytes) : bool :=
  if bool_decide (path = base) then true
  else if HasSuffix base [slash] then HasPrefix path base
  else HasPrefix path (base ++ [slash]).

(** The comparison of strings is containment of paths, for a base that is the root of the file system
    as well. *)
Lemma withinBase_prefix a b :
  Forall proper a -> Forall proper b -> withinBase (path_of b) (path_of a) = true <-> a `prefix_of` b.
Proof.
  intros Ha Hb. unfold withinBase. case_bool_decide as He.
  { rewrite (path_of_inj _ _ Hb Ha He). by split. }
  rewrite HasSuffix_slash by done. case_bool_decide as Hn.
  { subst a. split; [intros _; apply prefix_nil|]. intros _. apply HasPrefix_spec. by exists (join [slash] b). }
  rewrite HasPrefix_spec. split.
  - intros [k Hk]. rewrite <- app_assoc in Hk. unfold path_of in Hk. cbn [app] in Hk. inv Hk.
    apply (f_equal (fun s => Split s slash)) in H0. rewrite (Split_join_app a) in H0 by (done || by apply proper_no_slash).
    destruct b as [|e b].
    + exfalso. destruct a as [|x a]; [done|]. apply Forall_inv in Ha as (_ & Hne & _). cbn in H0. congruence.
    + rewrite Split_join in H0 by (done || by apply proper_no_slash). rewrite H0. by eexists.
  - intros [c ->]. destruct c as [|x c]; [by rewrite app_nil_r in He|]. unfold path_of.
    rewrite join_app by done. exists (join [slash] (x :: c)). by rewrite <- app_assoc.
Qed.

Definition ShouldShow (name : bytes) (showHidden : bool) : bool :=
  if bool_decide (name ∈ systemFiles) then false
  else if negb showHidden && HasPrefix name $"." then false
  else true.

Lemma forallb_shows below :
  Forall proper below ->
  forallb (fun part => bool_decide (part = [] \/ part = $".") || ShouldShow part false) below = true <->
  Forall (fun e => ShouldShow e false = true) below.
Proof.
  induction 1 as [|e l (_ & H1 & H2 & _) _ IH]; [by split|]. cbn [forallb].
  rewrite bool_decide_false by tauto. cbn [orb]. rewrite andb_true_iff, IH. by rewrite Forall_cons.
Qed.

Inductive Mode := ModeBrowse | ModeSend.

#[export] Instance Mode_eq_dec : EqDecision Mode.
Proof. solve_decision. Defined.

Record FileShare := mkFileShare { BasePath : bytes; ShareMode : Mode; FileName : bytes; UploadEnabled : bool }.

#[export] Instance eta_FileShare : Eta FileShare := fun f =>
  mkFileShare (BasePath f) (ShareMode f) (FileName f) (UploadEnabled f).

Inductive fs_error := ErrNotFound | ErrExists | SendMode | NoUploads | PathTraversal | NoParent | InvalidFilename | IOError.

Record FileStat := mkStat { StatName : bytes; IsDirectory : bool; Modified : Z; Size : Z; Mime : bytes }.

Section Share.
(** The tree, the working directory of the process, and the system's table of media types by file
    extension. *)
Variable fs : tree.
Variable cwd : bytes.
Variable TypeByExtension : bytes -> bytes.

Definition SafePath (baseDir relPath : bytes) : option (list bytes) :=
  let base := Abs cwd baseDir in
  let requested := Abs cwd (Join base relPath) in
  if negb (withinBase requested base) then None else
  match EvalSymlinks fs base with
  | None => None
  | Some realBase =>
    match EvalSymlinks fs requested with
    | None => None
    | Some realPath => if withinBase (path_of realPath) (path_of realBase) then Some realPath else None
    end
  end.

Definition NewShare (p : bytes) : option FileShare :=
  let abs := Abs cwd p in
  match Stat fs abs with
  | None => None
  | Some n =>
    Some (if is_dir n then mkFileShare abs ModeBrowse [] false else mkFileShare abs ModeSend (Base abs) false)
  end.

(** [filepath.Ext] *)
Definition Ext (path : bytes) : bytes :=
  match LastIndexByte path dot, LastIndexByte path slash with
  | Some i, Some j => if (j <? i)%nat then drop i path else []
  | Some i, None => drop i path
  | None, _ => []
  end.

Definition statForInfo (name : bytes) (n : node) : FileStat :=
  match n with
  | NDir m => mkStat name true m 0 []
  | NFile data m => mkStat name false m (zlen data) (TypeByExtension (Ext name))
  | NLink t => mkStat name false 0 (zlen t) (TypeByExtension (Ext name))
  end.

Definition visibleUnder (baseDir : bytes) (abs : bytes) : bool :=
  let base := Abs cwd baseDir in
  let base := match EvalSymlinks fs base with Some real => path_of real | None => base end in
  match Rel base abs with
  | None => false
  | Some rel =>
    if bool_decide (rel = $".") then true
    else forallb (fun part => bool_decide (part = [] \/ part = $".") || ShouldShow part false) (Split rel slash)
  end.

Definition resolveForRead (f : FileShare) (relPath : bytes) : option bytes :=
  match ShareMode f with
  | ModeSend =>
    if bool_decide (relPath = [] \/ relPath = $"/" \/ relPath = $"." \/ relPath = FileName f) then Some (BasePath f) else None
  | ModeBrowse =>
    match SafePath (BasePath f) relPath with
    | None => None
    | Some abs => if visibleUnder (BasePath f) (path_of abs) then Some (path_of abs) else None
    end
  end.

Definition StatPath (f : FileShare) (relPath : bytes) : result fs_error FileStat :=
  match resolveForRead f relPath with
  | None => Err ErrNotFound
  | Some abs =>
    match Stat fs abs with
    | None => Err ErrNotFound
    | Some n => Ok (statForInfo (Base abs) n)
    end
  end.

(** The entries [ListPath] and the listing of the browser page make of the names of a directory. *)
Definition list_entries (abs : bytes) (names : list bytes) : list FileStat :=
  omap (fun name => if ShouldShow name false then statForInfo name <$> Stat fs (Join abs name) else None) names.

Definition ListPath (f : FileShare) (relPath : bytes) : result fs_error (list FileStat) :=
  if bool_decide (ShareMode f = ModeSend) then Err SendMode else
  match resolveForRead f relPath with
  | None => Err ErrNotFound
  | Some abs =>
    match Stat fs abs with
    | Some (NDir _) =>
      match Open fs abs with
      | None => Err IOError
      | Some p => Ok (list_entries abs (Readdirnames fs p))
      end
    | _ => Err ErrNotFound
    end
  end.

(** The place whose bytes the reader delivers, and what is said about it. *)
Definition OpenRead (f : FileShare) (relPath : bytes) : result fs_error (list bytes * FileStat) :=
  match resolveForRead f relPath with
  | None => Err ErrNotFound
  | Some abs =>
    match Stat fs abs with
    | None | Some (NDir _) => Err ErrNotFound
    | Some n =>
      match Open fs abs with
      | None => Err IOError
      | Some p => Ok (p, statForInfo (Base abs) n)
      end
    end
  end.

Definition resolveForWrite (f : FileShare) (relPath : bytes) : result fs_error bytes :=
  let base := Abs cwd (BasePath f) in
  let requested := Abs cwd (Join base relPath) in
  if negb (withinBase requested base) then Err PathTraversal else
  match EvalSymlinks fs base with
  | None => Err IOError
  | Some realBase =>
    match EvalSymlinks fs requested with
    | Some realPath =>
      if withinBase (path_of realPath) (path_of realBase) then Ok (path_of realPath) else Err PathTraversal
    | None =>
      match EvalSymlinks fs (Dir requested) with
      | None => Err NoParent
      | Some realParent =>
        match Stat fs (path_of realParent) with
        | Some (NDir _) =>
          if withinBase (path_of realParent) (path_of realBase) then Ok (Join (path_of realParent) (Base requested))
          else Err PathTraversal
        | _ => Err NoParent
        end
      end
    end
  end.

(** The place [OpenWrite] truncates or makes. *)
Definition OpenWrite (f : FileShare) (relPath : bytes) (overwrite : bool) : result fs_error (list bytes) :=
  if bool_decide (ShareMode f = ModeSend) then Err SendMode else
  if negb (UploadEnabled f) then Err NoUploads else
  let! abs := resolveForWrite f relPath in
  if negb overwrite && bool_decide (is_Some (Stat fs abs)) then Err ErrExists else
  if negb (ShouldShow (Base abs) false) then Err InvalidFilename else
  match Create fs abs with
  | None => Err IOError
  | Some p => Ok p
  end.

(** * The browser's routes *)

Inductive Response :=
| NotFound
| HTTPError (status : Z)
| Listing (path : bytes) (entries : list FileStat)
| ServeFile (path : bytes)
| Attachment (name path : bytes)
| Uploaded (filename : bytes) (at_place : list bytes).

(** Directories first, then by name whatever the case. *)
Definition entry_before (a b : FileStat) : bool :=
  if negb (Bool.eqb (IsDirectory a) (IsDirectory b)) then IsDirectory a
  else bytes_leb (ToLower (StatName a)) (ToLower (StatName b)).

Definition listFiles (f : FileShare) (relPath : bytes) : Response :=
  if bool_decide (ShareMode f = ModeSend) then NotFound else
  match resolveForRead f relPath with
  | None => HTTPError 403
  | Some abs =>
    match Stat fs abs with
    | Some (NDir _) =>
      match Open fs abs with
      | None => HTTPError 403
      | Some p =>
        Listing (match relPath with [] => [slash] | _ => relPath end)
          (sort_by entry_before (list_entries abs (Readdirnames fs p)))
      end
    | _ => HTTPError 400
    end
  end.

Definition downloadSingle (f : FileShare) : Response :=
  if bool_decide (ShareMode f = ModeSend) then Attachment (FileName f) (BasePath f) else NotFound.

Definition downloadFile (f : FileShare) (relPath : bytes) : Response :=
  if bool_decide (ShareMode f = ModeSend) then NotFound else
  match resolveForRead f relPath with
  | None => NotFound
  | Some abs =>
    match Stat fs abs with
    | None | Some (NDir _) => NotFound
    | Some _ => Attachment (Base abs) abs
    end
  end.

Definition previewFile (f : FileShare) (relPath : bytes) : Response :=
  if bool_decide (ShareMode f = ModeSend) then NotFound else
  match resolveForRead f relPath with
  | None => NotFound
  | Some abs =>
    match Stat fs abs with
    | None | Some (NDir _) => NotFound
    | Some _ => ServeFile abs
    end
  end.

(** A POST of a form with a file; [relPath] and [header_filename] are its fields. *)
Definition uploadFile (f : FileShare) (relPath header_filename : bytes) : Response :=
  if bool_decide (ShareMode f = ModeSend) || negb (UploadEnabled f) then NotFound else
  match header_filename with
  | [] => HTTPError 400
  | _ =>
    match (match relPath with [] => Some (BasePath f) | _ => resolveForRead f relPath end) with
    | None => HTTPError 403
    | Some targetDir =>
      match Stat fs targetDir with
      | Some (NDir _) =>
        let filename := Base header_filename in
        if bool_decide (filename = [] \/ filename = $".") || HasPrefix filename $"." then HTTPError 400 else
        match Create fs (Join targetDir filename) with
        | None => HTTPError 500
        | Some p => Uploaded filename p
        end
      | _ => HTTPError 403
      end
    end
  end.

(** * What a reader reaches *)

Section Absolute.
Hypothesis cwd_rooted : rooted cwd = true.

(** The lexical part of the request: where a path asked for lies, before any link is followed. *)
Definition requested (f : FileShare) (relPath : bytes) : bytes := Abs cwd (Join (Abs cwd (BasePath f)) relPath).
Definition real_base (f : FileShare) (rb : list bytes) : Prop := EvalSymlinks fs (Abs cwd (BasePath f)) = Some rb.
Definition lexically_inside (f : FileShare) (relPath : bytes) : Prop :=
  elements (Abs cwd (BasePath f)) `prefix_of` elements (requested f relPath).

Lemma lexical f relPath :
  withinBase (requested f relPath) (Abs cwd (BasePath f)) = true <-> lexically_inside f relPath.
Proof using cwd_rooted.
  unfold lexically_inside, requested.
  destruct (Abs_path_of cwd (BasePath f) cwd_rooted) as (a & Ha & -> & ->).
  destruct (Abs_path_of cwd (Join (path_of a) relPath) cwd_rooted) as (b & Hb & -> & ->).
  by apply withinBase_prefix.
Qed.

Lemma SafePath_spec f relPath p :
  SafePath (BasePath f) relPath = Some p <->
  lexically_inside f relPath /\ EvalSymlinks fs (requested f relPath) = Some p /\
  exists rb, real_base f rb /\ rb `prefix_of` p.
Proof using cwd_rooted.
  unfold SafePath, real_base. rewrite <- lexical. fold (requested f relPath).
  destruct (withinBase (requested f relPath) _); cbn [negb]; [|by split; [|intros [? _]]].
  destruct (EvalSymlinks fs (Abs cwd _)) as [rb|] eqn:Eb; [|by split; [|intros (_ & _ & ? & ? & _)]].
  destruct (EvalSymlinks fs (requested f relPath)) as [q|] eqn:Er; [|by split; [|intros (_ & ? & _)]].
  pose proof (withinBase_prefix rb q (proj1 (EvalSymlinks_resolved _ _ _ Eb)) (proj1 (EvalSymlinks_resolved _ _ _ Er))) as Hw.
  destruct (withinBase (path_of q) (path_of rb)).
  - split; [intros [= <-]; split_and!; try done; exists rb; split; [done|by apply Hw]|by intros (_ & ? & _)].
  - split; [done|]. intros (_ & [= <-] & rb' & [= <-] & Hp). apply Hw in Hp. done.
Qed.

(** Below [rb], nothing hidden. *)
Definition visible (rb p : list bytes) : Prop :=
  exists below, p = rb ++ below /\ Forall (fun e => ShouldShow e false = true) below.

Lemma visibleUnder_spec f rb p :
  real_base f rb -> Forall proper p -> rb `prefix_of` p ->
  visibleUnder (BasePath f) (path_of p) = true <-> visible rb p.
Proof.
  intros Hrb Hp [below ->]. unfold visibleUnder, visible. rewrite Hrb.
  pose proof Hp as [Hrbp Hbp]%Forall_app.
  assert (Rel (path_of rb) (path_of (rb ++ below)) = Some (match below with [] => $"." | _ => join [slash] below end)) as ->.
  { unfold Rel. rewrite !Clean_path_of by done. destruct below as [|e below].
    - rewrite app_nil_r. by rewrite decide_True.
    - rewrite decide_False by (intros H; apply path_of_inj in H; [|done..];
        rewrite <- (app_nil_r rb) in H at 2; by apply app_inv_head in H).
      rewrite (decide_False (P := path_of rb = $".")) by done. cbn [rooted path_of Bool.eqb negb].
      unfold path_of. rewrite !elements_rooted_join by done.
      rewrite bool_decide_true by done. cbn [Bool.eqb negb].
      pose proof (strip_common_prefix rb (rb ++ e :: below)) as Hs.
      pose proof (strip_common_spec rb (rb ++ e :: below)) as Hc. destruct (strip_common _ _) as [x y].
      destruct Hc as (q & H1 & H2 & _). cbn [fst] in Hs. rewrite (proj2 Hs) in * by (by eexists).
      rewrite app_nil_r in H1. subst q. apply app_inv_head in H2. by subst y. }
  destruct below as [|e below].
  { rewrite bool_decide_true by done. split; [|done]. intros _. exists []. by rewrite app_nil_r. }
  rewrite bool_decide_false.
  2:{ intros H. apply (f_equal (fun s => Split s slash)) in H.
      rewrite Split_join in H by (done || by apply proper_no_slash).
      assert (Split $"." slash = [$"."]) as Hd by reflexivity. rewrite Hd in H. inv H.
      apply Forall_inv in Hbp as (_ & _ & ? & _). done. }
  rewrite Split_join by (done || by apply proper_no_slash). rewrite forallb_shows by done. split.
  - intros Hf. by exists (e :: below).
  - intros (b & Hb & Hf). apply app_inv_head in Hb. by subst b.
Qed.

Lemma resolveForRead_spec f relPath abs :
  ShareMode f = ModeBrowse ->
  resolveForRead f relPath = Some abs <->
  exists p rb, abs = path_of p /\ lexically_inside f relPath /\ EvalSymlinks fs (requested f relPath) = Some p /\
    real_base f rb /\ visible rb p.
Proof using cwd_rooted.
  intros Hm. unfold resolveForRead. rewrite Hm. split.
  - destruct (SafePath (BasePath f) relPath) as [p|] eqn:Es; [|done].
    apply SafePath_spec in Es as (Hl & He & rb & Hrb & Hp).
    destruct (visibleUnder _ _) eqn:Ev; [|done]. intros [= <-].
    apply (visibleUnder_spec f rb) in Ev; [|done|by apply EvalSymlinks_resolved in He as [? _]|done].
    by exists p, rb.
  - intros (p & rb & -> & Hl & He & Hrb & Hv).
    assert (rb `prefix_of` p) as Hp by (destruct Hv as (below & -> & _); by eexists).
    assert (SafePath (BasePath f) relPath = Some p) as -> by (apply SafePath_spec; split_and!; [done..|by exists rb]).
    apply (visibleUnder_spec f rb) in Hv; [by rewrite Hv|done|by apply EvalSymlinks_resolved in He as [? _]|done].
Qed.

(** C11: What a connector can read of a shared directory, exactly: a request opens the file [p] when, and
    only when, the path asked for does not climb out of the share, leads to [p] once every link is
    followed, [p] lies in the (resolved) share, no element of [p] below the share is hidden or a
    system file, and [p] is a file. Links inside the share that point out of it, names that hide
    behind a link, and [..] are all refused, and nothing else is. *)
Theorem OpenRead_exact f relPath p st :
  ShareMode f = ModeBrowse ->
  OpenRead f relPath = Ok (p, st) <->
  exists rb n, real_base f rb /\ lexically_inside f relPath /\ EvalSymlinks fs (requested f relPath) = Some p /\
    visible rb p /\ node_at fs p = Some n /\ is_dir n = false /\ st = statForInfo (Base (path_of p)) n.
Proof using cwd_rooted.
  intros Hm. unfold OpenRead. split.
  - destruct (resolveForRead f relPath) as [abs|] eqn:Er; [|done].
    apply resolveForRead_spec in Er as (q & rb & -> & Hl & He & Hrb & Hv); [|done].
    pose proof (EvalSymlinks_resolved _ _ _ He) as Hres.
    rewrite Stat_resolved, Open_resolved by done.
    destruct (node_at fs q) as [n|] eqn:En; [|done].
    destruct n; [done|..]; intros [= <- <-]; by exists rb; eexists.
  - intros (rb & n & Hrb & Hl & He & Hv & Hn & Hd & ->).
    assert (resolveForRead f relPath = Some (path_of p)) as -> by (apply resolveForRead_spec; [done|by exists p, rb]).
    pose proof (EvalSymlinks_resolved _ _ _ He) as Hres. rewrite Stat_resolved, Open_resolved, Hn by done.
    by destruct n.
Qed.

Lemma Readdirnames_spec p e : e ∈ Readdirnames fs p <-> is_Some (fs !! (p ++ [e])).
Proof.
  unfold Readdirnames. rewrite list_elem_of_omap. split.
  - intros ([q n] & Hq & He). apply elem_of_map_to_list in Hq. cbn in He.
    pose proof (strip_common_spec p q) as Hs. destruct (strip_common p q) as [x y].
    destruct Hs as (r & -> & -> & _). destruct x as [|]; [|done]. destruct y as [|y [|]]; [done| |done].
    inv He. rewrite app_nil_r. by exists n.
  - intros [n Hn]. exists (p ++ [e], n). split; [by apply elem_of_map_to_list|]. cbn.
    pose proof (strip_common_prefix p (p ++ [e])) as Hp. pose proof (strip_common_spec p (p ++ [e])) as Hs.
    destruct (strip_common _ _) as [x y]. cbn [fst] in Hp. rewrite (proj2 Hp) in * by (by eexists).
    destruct Hs as (r & H1 & H2 & _). rewrite app_nil_r in H1. subst r. apply app_inv_head in H2. by subst y.
Qed.

(** What a listing of a directory shows: its entries whose names are neither hidden nor system files
    and that can be looked at, each once under its own name, and nothing else. *)
Theorem ListPath_exact f relPath l :
  map_Forall (fun p _ => Forall proper p) fs ->
  ListPath f relPath = Ok l ->
  exists rb p m, real_base f rb /\ visible rb p /\ EvalSymlinks fs (requested f relPath) = Some p /\
    node_at fs p = Some (NDir m) /\
    forall st, st ∈ l <-> exists e n, is_Some (fs !! (p ++ [e])) /\ ShouldShow e false = true /\
      Stat fs (path_of (p ++ [e])) = Some n /\ st = statForInfo e n.
Proof using cwd_rooted.
  intros Hok. unfold ListPath. case_bool_decide as Hm; [done|].
  assert (ShareMode f = ModeBrowse) as Hm' by (by destruct (ShareMode f)).
  destruct (resolveForRead f relPath) as [abs|] eqn:Er; [|done].
  apply resolveForRead_spec in Er as (p & rb & -> & Hl & He & Hrb & Hv); [|done].
  pose proof (EvalSymlinks_resolved _ _ _ He) as Hres. rewrite Stat_resolved, Open_resolved by done.
  destruct (node_at fs p) as [[m| |]|] eqn:En; try done. intros [= <-].
  exists rb, p, m. split_and!; try done. intros st. unfold list_entries. rewrite list_elem_of_omap.
  assert (forall e, is_Some (fs !! (p ++ [e])) -> Join (path_of p) e = path_of (p ++ [e])) as HJ.
  { intros e [n Hn]. pose proof (Hok _ _ Hn) as Hq. cbn beta in Hq. apply Forall_app in Hq as [Hp He'].
    apply Join_path_of; [exact Hp|exact (Forall_inv He')]. }
  split.
  - intros (e & Hin & Hst). apply Readdirnames_spec in Hin. destruct (ShouldShow e false) eqn:Es; [|done].
    rewrite HJ in Hst by done. apply fmap_Some in Hst as (n & Hn & ->). by exists e, n.
  - intros (e & n & Hin & Hs & Hn & ->). exists e. split; [by apply Readdirnames_spec|]. by rewrite Hs, HJ, Hn.
Qed.

(** * What an upload reaches *)

Lemma Dir_requested a : Forall proper a -> a <> [] ->
  exists d e, a = d ++ [e] /\ Dir (path_of a) = path_of d /\ Base (path_of a) = e /\ Forall proper d /\ proper e.
Proof.
  intros Ha Hne. destruct a as [|e d _] using rev_ind; [done|]. apply Forall_app in Ha as [Hd He].
  apply Forall_inv in He. exists d, e. split; [done|]. split; [|split; [by apply Base_path_of|done]].
  unfold Dir.
  assert (forall s, slash ∉ e -> LastIndexByte (s ++ slash :: e) slash = Some (length s)) as Hlast.
  { clear. intros s He. assert (LastIndexByte e slash = None) as Hn.
    { induction e as [|c e IH]; [done|]. apply not_elem_of_cons in He as [Hc He]. cbn. rewrite (IH He).
      by rewrite decide_False by congruence. }
    induction s as [|c s IH]; cbn; [rewrite Hn; by rewrite decide_True|]. by rewrite IH. }
  destruct He as (Hs & He). destruct d as [|x d].
  - unfold path_of. cbn [app join]. rewrite (Hlast [] Hs : LastIndexByte (slash :: e) slash = _). reflexivity.
  - unfold path_of. rewrite (join_app (x :: d) [e] slash) by done. change (join [slash] [e]) with e.
    rewrite (Hlast (slash :: join [slash] (x :: d)) Hs : LastIndexByte (slash :: join [slash] (x :: d) ++ slash :: e) slash = _).
    assert (take (S (length (slash :: join [slash] (x :: d)))) (slash :: join [slash] (x :: d) ++ slash :: e) =
            (slash :: join [slash] (x :: d)) ++ [slash]) as ->.
    { change (slash :: join [slash] (x :: d) ++ slash :: e) with ((slash :: join [slash] (x :: d)) ++ [slash] ++ e).
      rewrite app_assoc. apply take_app_length'. rewrite length_app. cbn [length]. lia. }
    unfold Clean. change (rooted ((slash :: join [slash] (x :: d)) ++ [slash])) with true. cbv iota.
    assert (clean_elements ((slash :: join [slash] (x :: d)) ++ [slash]) = x :: d) as ->; [|done].
    rewrite <- (clean_elements_join (x :: d)) at 2 by done. unfold clean_elements.
    change (rooted ((slash :: join [slash] (x :: d)) ++ [slash])) with true.
    change (rooted (slash :: join [slash] (x :: d))) with true. rewrite Split_trailing. by rewrite foldl_app.
Qed.

Lemma Create_not_dir path p : Create fs path = Some p -> forall m, node_at fs p <> Some (NDir m).
Proof.
  unfold Create. destruct (walk_create _ _ _ _) as [q|]; [|done]. cbn. intros H m Hm.
  destruct (node_at fs q) as [[]|] eqn:E; inv H; congruence.
Qed.

(** A new file's name is already taken by a link that leads nowhere. *)
Definition dangling (f : FileShare) (relPath : bytes) : Prop :=
  EvalSymlinks fs (requested f relPath) = None /\
  exists d, EvalSymlinks fs (Dir (requested f relPath)) = Some d /\
    is_link (node_at fs (d ++ [Base (requested f relPath)])) = true.

(** Where an upload through the file stream lands: inside the (resolved) share, under a name that is
    neither hidden nor a system file, and, unless it was asked to overwrite, where nothing was
    before. The one exception to the first is a link already in the share under the very name
    written, whose target does not exist. *)
Theorem OpenWrite_lands f relPath overwrite p :
  OpenWrite f relPath overwrite = Ok p ->
  (overwrite = false -> node_at fs p = None) /\
  (~ dangling f relPath ->
   exists rb, real_base f rb /\ rb `prefix_of` p /\ (p <> [] -> ShouldShow (Base (path_of p)) false = true)).
Proof using cwd_rooted.
  unfold OpenWrite, result_bind. case_bool_decide; [done|]. destruct (UploadEnabled f); cbn [negb]; [|done].
  destruct (resolveForWrite f relPath) as [abs|] eqn:Er; [|done].
  destruct (negb overwrite && _) eqn:Eo; [done|]. destruct (ShouldShow (Base abs) false) eqn:Es; cbn [negb]; [|done].
  destruct (Create fs abs) as [q|] eqn:Ec; [|done]. intros [= ->]. split.
  { intros ->. cbn [negb andb] in Eo. bool_to_prop. apply eq_None_not_Some in Eo. by eapply Create_new. }
  intros Hnd. unfold resolveForWrite in Er. fold (requested f relPath) in Er.
  destruct (withinBase (requested f relPath) _); cbn [negb] in Er; [|done].
  destruct (EvalSymlinks fs (Abs cwd (BasePath f))) as [rb|] eqn:Eb; [|done].
  pose proof (EvalSymlinks_resolved _ _ _ Eb) as [Hrb _].
  destruct (EvalSymlinks fs (requested f relPath)) as [rp|] eqn:Ep.
  - destruct (withinBase _ _) eqn:Ew; [|done]. inv Er. pose proof (EvalSymlinks_resolved _ _ _ Ep) as Hrp.
    apply withinBase_prefix in Ew; [|done|apply Hrp]. apply Create_resolved in Ec; [|done]. subst p. by exists rb.
  - destruct (EvalSymlinks fs (Dir (requested f relPath))) as [d|] eqn:Ed; [|done].
    pose proof (EvalSymlinks_resolved _ _ _ Ed) as Hd. rewrite Stat_resolved in Er by done.
    destruct (node_at fs d) as [[m| |]|] eqn:En; try done. destruct (withinBase _ _) eqn:Ew; [|done].
    assert (abs = Join (path_of d) (Base (requested f relPath))) as -> by congruence.
    apply withinBase_prefix in Ew; [|done|apply Hd].
    destruct (Abs_path_of cwd (Join (Abs cwd (BasePath f)) relPath) cwd_rooted) as (a & Ha & Hreq & _).
    fold (requested f relPath) in Hreq.
    destruct (decide (a = [])) as [->|Hne]; [by rewrite Hreq in Ep|].
    destruct (Dir_requested a Ha Hne) as (d0 & e & -> & _ & Hbase & _ & He).
    assert (is_link (node_at fs (d ++ [e])) = false) as Hl.
    { apply not_true_is_false. intros Hl. apply Hnd. split; [done|]. exists d. rewrite Hreq, Hbase. by rewrite <- Hreq. }
    rewrite Hreq, Hbase, Join_path_of in Ec, Es by (done || apply Hd).
    apply (Create_stays fs d e m) in Ec; [|done..]. subst p. exists rb. split; [done|]. split; [|done].
    by apply prefix_app_r.
Qed.

Lemma Base_name h : Base h = $"." \/ Base h = [slash] \/ no_slash (Base h) /\ Base h <> [].
Proof.
  unfold Base. destruct h as [|c h]; [by left|]. right. destruct (rev (elements (c :: h))) as [|e l] eqn:E; [by left|right].
  assert (e ∈ elements (c :: h)) as He by (apply list_elem_of_In, in_rev; rewrite E; by left).
  apply list_elem_of_filter in He as [Hne He]. split; [|done].
  pose proof (Split_no_sep (c :: h) slash) as Hs. rewrite Forall_forall in Hs. by apply Hs.
Qed.

Lemma Join_slash d : Forall proper d -> Join (path_of d) [slash] = path_of d.
Proof.
  intros Hd. change (Join (path_of d) [slash]) with (Clean ((slash :: join [slash] d) ++ [slash] ++ [slash])).
  unfold Clean. change (rooted ((slash :: join [slash] d) ++ [slash] ++ [slash])) with true. cbv iota.
  assert (clean_elements ((slash :: join [slash] d) ++ [slash] ++ [slash]) = d) as ->; [|done].
  rewrite <- (clean_elements_join d) at 2 by done. unfold clean_elements.
  change (rooted ((slash :: join [slash] d) ++ [slash] ++ [slash])) with true.
  change (rooted (slash :: join [slash] d)) with true. rewrite app_assoc, !Split_trailing. by rewrite !foldl_app.
Qed.

(** A browser's upload into a directory of the share is written in that directory, which is inside
    the share and not hidden, under a name that does not begin with a dot; provided the name is not
    taken by a link. *)
Theorem uploadFile_lands f relPath h name p :
  relPath <> [] -> uploadFile f relPath h = Uploaded name p ->
  exists rb d, real_base f rb /\ visible rb d /\ EvalSymlinks fs (requested f relPath) = Some d /\
    HasPrefix name $"." = false /\
    (is_link (node_at fs (d ++ [name])) = false -> p = d ++ [name]).
Proof using cwd_rooted.
  intros Hne. unfold uploadFile. destruct (bool_decide _ || _) eqn:Em; [done|]. bool_to_prop.
  assert (ShareMode f = ModeBrowse) as Hm by (by destruct (ShareMode f)).
  destruct h as [|c h]; [done|]. destruct relPath as [|x rel]; [done|].
  destruct (resolveForRead f (x :: rel)) as [abs|] eqn:Er; [|done].
  apply resolveForRead_spec in Er as (d & rb & -> & _ & He & Hrb & Hv); [|done].
  pose proof (EvalSymlinks_resolved _ _ _ He) as Hd. rewrite Stat_resolved by done.
  destruct (node_at fs d) as [[m| |]|] eqn:En; try done. destruct (_ || _) eqn:Eb; [done|]. bool_to_prop.
  destruct (Create _ _) as [q|] eqn:Ec; [|done]. intros [= <- <-].
  exists rb, d. split_and!; try done. intros Hl. destruct (Base_name (c :: h)) as [E|[E|[Hs Hn0]]].
  - rewrite E in *. done.
  - rewrite E, Join_slash in Ec by apply Hd. pose proof (Create_not_dir _ _ Ec m) as Hnd.
    apply Create_resolved in Ec; [|done]. by subst q.
  - assert (proper (Base (c :: h))) as Hp.
    { clear TypeByExtension. split_and!; [done|done|tauto|]. intros Hd2. by rewrite Hd2 in *. }
    rewrite Join_path_of in Ec by (done || apply Hd). by apply (Create_stays fs d _ m) in Ec.
Qed.
End Absolute.
End Share.

(** * A share *)

Definition no_types (ext : bytes) : bytes := [].
Definition elems (l : list bytes) (n : node) : list bytes * node := (l, n).

(** A share with a hidden file, a link out of it, a link to a hidden file, and a dangling link. *)
Definition sample_tree : tree := list_to_map [
  elems [$"srv"] (NDir 1);
  elems [$"srv"; $"pub"] (NDir 1);
  elems [$"srv"; $"pub"; $"a.txt"] (NFile $"hello" 5);
  elems [$"srv"; $"pub"; $".env"] (NFile $"KEY=1" 5);
  elems [$"srv"; $"pub"; $"peek"] (NLink $".env");
  elems [$"srv"; $"pub"; $"out"] (NLink $"/etc/passwd");
  elems [$"srv"; $"pub"; $"new"] (NLink $"/etc/cron");
  elems [$"srv"; $"pub"; $".git"] (NDir 1);
  elems [$"share"] (NLink $"srv/pub");
  elems [$"etc"] (NDir 1);
  elems [$"etc"; $"passwd"] (NFile $"root" 1)].
Definition sample_share : FileShare := mkFileShare $"/share" ModeBrowse [] true.

Example read_sample :
  map (fun r => is_ok (OpenRead sample_tree $"/" no_types sample_share r))
    [$"a.txt"; $"/a.txt"; $"x/../a.txt"; $".env"; $"peek"; $"out"; $"../../etc/passwd"; $""] =
  [true; true; true; false; false; false; false; false].
Proof. vm_compute. reflexivity. Qed.

Lemma OpenRead_exact_witness :
  OpenRead sample_tree $"/" no_types sample_share $"a.txt" = Ok ([$"srv"; $"pub"; $"a.txt"], mkStat $"a.txt" false 5 5 []).
Proof.
  apply (OpenRead_exact sample_tree $"/" no_types); [done|done|].
  exists [$"srv"; $"pub"], (NFile $"hello" 5). split_and!; try (vm_compute; reflexivity).
  - unfold lexically_inside. apply (bool_decide_unpack _). vm_compute. reflexivity.
  - exists [$"a.txt"]. split; [reflexivity|]. constructor; [vm_compute; reflexivity|constructor].
Defined.

Definition sample_listing : list FileStat := from_result [] (ListPath sample_tree $"/" no_types sample_share $"").

Lemma ListPath_exact_witness :
  map StatName sample_listing ≡ₚ [$"a.txt"; $"peek"; $"out"] /\
  (forall st, st ∈ sample_listing -> ShouldShow (StatName st) false = true).
Proof.
  split; [apply (bool_decide_unpack _); vm_compute; reflexivity|].
  destruct (ListPath_exact sample_tree $"/" no_types eq_refl sample_share $"" sample_listing) as (rb & p & m & _ & _ & _ & _ & H).
  - apply (bool_decide_unpack _). vm_compute. reflexivity.
  - vm_compute. reflexivity.
  - intros st (e & n & _ & Hs & _ & ->)%H. by destruct n.
Defined.

Lemma OpenWrite_lands_witness :
  OpenWrite sample_tree $"/" sample_share $"b.txt" false = Ok [$"srv"; $"pub"; $"b.txt"] /\
  node_at sample_tree [$"srv"; $"pub"; $"b.txt"] = None.
Proof.
  split; [vm_compute; reflexivity|].
  apply (OpenWrite_lands sample_tree $"/" eq_refl sample_share $"b.txt" false); [vm_compute; reflexivity|reflexivity].
Defined.

Lemma uploadFile_lands_witness :
  uploadFile sample_tree $"/" sample_share $"." $"x/c.txt" = Uploaded $"c.txt" [$"srv"; $"pub"; $"c.txt"] /\
  HasPrefix $"c.txt" $"." = false.
Proof.
  split; [vm_compute; reflexivity|].
  destruct (uploadFile_lands sample_tree $"/" eq_refl sample_share $"." $"x/c.txt" $"c.txt" [$"srv"; $"pub"; $"c.txt"])
    as (rb & d & _ & _ & _ & H & _); [done|vm_compute; reflexivity|exact H].
Defined.

(** * Writes that leave the share *)

(** A browser's upload under a name that is a link in the share follows it: the file written is the
    link's target, outside the share. The file stream's [OpenWrite] refuses the same name. *)
Lemma upload_follows_link :
  uploadFile sample_tree $"/" sample_share $"" $"out" = Uploaded $"out" [$"etc"; $"passwd"] /\
  OpenWrite sample_tree $"/" sample_share $"out" true = Err PathTraversal.
Proof. split; vm_compute; reflexivity. Qed.

(** [OpenWrite] under the name of a link whose target does not exist makes the target, outside the
    share. *)
Lemma write_through_dangling_link :
  OpenWrite sample_tree $"/" sample_share $"new" false = Ok [$"etc"; $"cron"].
Proof. vm_compute. reflexivity. Qed.

(** [OpenWrite] looks at the last element only: a file inside a hidden directory, which can be
    neither listed nor read, can be written. *)
Lemma write_into_hidden_directory :
  OpenWrite sample_tree $"/" sample_share $".git/config" true = Ok [$"srv"; $"pub"; $".git"; $"config"] /\
  StatPath sample_tree $"/" no_types sample_share $".git" = Err ErrNotFound.
Proof. split; vm_compute; reflexivity. Qed.
