(* ===== verification/PeerSet.v ===== *)
(** The registry of peers in flight and the deadline of a handshake (internal/peerset/peerset.go). *)

From S2P Require Import Prelude.

Section Registry.
(** The owner's peer type, comparable. *)
Context {T : Type} `{EqDecision T}.

Record Set_ := mkSet { peers : gmap bytes T; closed : bool }.

Definition NewSet : Set_ := mkSet ∅ false.

Definition AddLimited (s : Set_) (clientID : bytes) (p : T) (max : Z) : Set_ * bool :=
  if closed s then (s, false)
  else if (0 <? max) && (max <=? Z.of_nat (size (peers s))) then (s, false)
  else match peers s !! clientID with
       | Some _ => (s, false)
       | None => (mkSet (<[clientID := p]> (peers s)) (closed s), true)
       end.

Definition Add (s : Set_) (clientID : bytes) (p : T) : Set_ * bool := AddLimited s clientID p 0.

Definition Get (s : Set_) (clientID : bytes) : option T := peers s !! clientID.
Definition Has (s : Set_) (clientID : bytes) : bool := bool_decide (is_Some (peers s !! clientID)).

Definition Forget (s : Set_) (clientID : bytes) (p : T) : Set_ :=
  match peers s !! clientID with
  | Some cur => if decide (cur = p) then mkSet (delete clientID (peers s)) (closed s) else s
  | None => s
  end.

Definition All (s : Set_) : list T := (map_to_list (peers s)).*2.

Definition CloseSet (s : Set_) : Set_ * list T := (mkSet ∅ true, All s).

Definition Len (s : Set_) : Z := Z.of_nat (size (peers s)).

(** * A listener's use of the registry

    Next to the registry, what the callers hold: the peers [Add] accepted, with their client IDs;
    those forgotten; and those [Close] handed back to be torn down. *)
Record usage := mkUsage { set : Set_; accepted : list (bytes * T); forgotten : list (bytes * T); drained : list T }.

(** A peer is a fresh object, so it is registered at most once. Whoever forgets a peer presents the
    peer it holds; it may do so late, twice, or under an ID that was reused. *)
Inductive use (max : Z) : usage -> usage -> Prop :=
| use_add u id p s' : p ∉ (accepted u).*2 -> AddLimited (set u) id p max = (s', true) ->
    use max u (mkUsage s' ((id, p) :: accepted u) (forgotten u) (drained u))
| use_refused u id p s' : AddLimited (set u) id p max = (s', false) ->
    use max u (mkUsage s' (accepted u) (forgotten u) (drained u))
| use_forget u id p :
    use max u (mkUsage (Forget (set u) id p) (accepted u)
      (if decide (Get (set u) id = Some p) then (id, p) :: forgotten u else forgotten u) (drained u))
| use_close u s' l : CloseSet (set u) = (s', l) ->
    use max u (mkUsage s' (accepted u) (forgotten u) (l ++ drained u)).

Definition start_usage : usage := mkUsage NewSet [] [] [].

Lemma All_spec s p : p ∈ All s <-> exists id, Get s id = Some p.
Proof.
  unfold All, Get. rewrite list_elem_of_fmap. split.
  - intros ([id q] & -> & Hq). apply elem_of_map_to_list in Hq. by exists id.
  - intros [id Hid]. exists (id, p). by rewrite elem_of_map_to_list.
Qed.

Definition accounted (max : Z) (u : usage) : Prop :=
  NoDup (accepted u).*2 /\
  (forall id p, Get (set u) id = Some p -> (id, p) ∈ accepted u /\ ((id, p) ∉ forgotten u) /\ p ∉ drained u) /\
  (forall id p, (id, p) ∈ accepted u -> Get (set u) id = Some p \/ (id, p) ∈ forgotten u \/ p ∈ drained u) /\
  (forall id p, (id, p) ∈ forgotten u -> (id, p) ∈ accepted u /\ p ∉ drained u) /\
  (forall p, p ∈ drained u -> p ∈ (accepted u).*2) /\
  (closed (set u) = true -> peers (set u) = ∅) /\
  (0 < max -> Len (set u) <= max).

Lemma accepted_inj (l : list (bytes * T)) id id' p :
  NoDup l.*2 -> (id, p) ∈ l -> (id', p) ∈ l -> id = id'.
Proof.
  intros Hnd (i & Hi)%list_elem_of_lookup (j & Hj)%list_elem_of_lookup.
  assert (i = j) as <-; [|congruence]. apply (NoDup_lookup l.*2 i j p Hnd); rewrite list_lookup_fmap; by rewrite ?Hi, ?Hj.
Qed.

Lemma Get_Forget s id p x q :
  Get (Forget s id p) x = Some q <-> Get s x = Some q /\ (x = id -> Get s id <> Some p).
Proof.
  unfold Get, Forget. destruct (peers s !! id) as [cur|] eqn:E.
  - destruct (decide (cur = p)) as [->|Hne]; cbn.
    + destruct (decide (x = id)) as [->|Hx].
      * rewrite lookup_delete_eq. split; [done|]. intros [_ H]. by destruct (H eq_refl).
      * rewrite lookup_delete_ne by done. split; [intros ?; split; done|by intros [? _]].
    + split; [intros ?; split; [done|]|by intros [? _]]. intros _ [= ->]. done.
  - split; [intros ?; split; done|by intros [? _]].
Qed.

Lemma use_accounted max u u' : accounted max u -> use max u u' -> accounted max u'.
Proof.
  intros (Hnd & Hreg & Hacc & Hfor & Hdr & Hcl & Hmax) Hu. destruct Hu as [u id p s' Hp Ha|u id p s' Ha|u id p|u s' l Hc].
  - unfold AddLimited in Ha. destruct (closed (set u)) eqn:Ec; [done|].
    destruct ((0 <? max) && (max <=? Z.of_nat (size (peers (set u))))) eqn:El; [done|].
    destruct (peers (set u) !! id) as [q|] eqn:Eid; [done|]. inv Ha. unfold accounted, Get in *; cbn.
    assert (forall x, (x, p) ∉ accepted u) as Hfresh.
    { intros x Hx. apply Hp, list_elem_of_fmap. by exists (x, p). }
    split_and!.
    + by constructor.
    + intros x q. destruct (decide (x = id)) as [->|Hx].
      * rewrite lookup_insert_eq. intros [= <-]. split; [by left|]. split.
        -- intros H. apply Hfor in H as [H _]. by apply (Hfresh id).
        -- intros H. by apply Hp, Hdr.
      * rewrite lookup_insert_ne by done. intros H. destruct (Hreg _ _ H) as (? & ? & ?). split; [by right|done].
    + intros x q [Hx|Hx]%elem_of_cons.
      * inv Hx. left. by rewrite lookup_insert_eq.
      * destruct (Hacc _ _ Hx) as [H|[H|H]]; [|by right; left|by right; right]. left.
        rewrite lookup_insert_ne; [done|]. intros ->. congruence.
    + intros x q H. destruct (Hfor _ _ H). split; [by right|done].
    + intros q H. right. by apply Hdr.
    + congruence.
    + intros Hm. unfold Len in *. cbn. rewrite map_size_insert_None by done.
      apply andb_false_iff in El as [El|El]; bool_to_prop; lia.
  - assert (s' = set u) as ->; [|by destruct u]. unfold AddLimited in Ha. by repeat case_match; inv Ha.
  - unfold accounted. cbn. split_and!; try done.
    + intros x q [Hx Hxp]%Get_Forget. destruct (Hreg _ _ Hx) as (? & ? & ?). split_and!; try done.
      destruct (decide (Get (set u) id = Some p)) as [Hg|]; [|done].
      intros [[= -> ->]|?]%elem_of_cons; [|done]. by apply (Hxp eq_refl).
    + intros x q Hx. destruct (Hacc _ _ Hx) as [H|[H|H]]; [| |by right; right].
      * destruct (decide (x = id /\ q = p)) as [[-> ->]|Hne].
        -- right; left. rewrite decide_True by done. by left.
        -- left. apply Get_Forget. split; [done|]. intros -> Hg. apply Hne. split; [done|]. congruence.
      * right; left. case_decide; [by right|done].
    + intros x q Hx. destruct (decide (Get (set u) id = Some p)) as [Hg|]; [|by apply Hfor].
      apply elem_of_cons in Hx as [[= -> ->]|Hx]; [|by apply Hfor]. by destruct (Hreg _ _ Hg) as (? & _ & ?).
    + unfold Forget. intros H. destruct (peers (set u) !! id) eqn:E; [|by apply Hcl].
      case_decide; cbn in *; rewrite (Hcl H) in *; done.
    + intros Hm. specialize (Hmax Hm). unfold Len, Forget in *. destruct (peers (set u) !! id) eqn:E; [|done].
      case_decide; cbn; [|done]. rewrite map_size_delete_Some by (by eexists). lia.
  - inv Hc. unfold accounted, Get. cbn. split_and!; try done.
    + intros x q Hx. destruct (Hacc _ _ Hx) as [H|[H|H]]; [|by right; left|]; right; right; apply elem_of_app; [|by right].
      left. apply All_spec. by exists x.
    + intros x q Hx. destruct (Hfor _ _ Hx) as [Ha Hd]. split; [done|]. intros [Hin|Hin]%elem_of_app; [|done].
      apply All_spec in Hin as [y Hy]. destruct (Hreg _ _ Hy) as (Hay & Hfy & _).
      by rewrite (accepted_inj _ _ _ _ Hnd Ha Hay) in Hx.
    + intros q [Hin|Hin]%elem_of_app; [|by apply Hdr]. apply All_spec in Hin as [y Hy].
      destruct (Hreg _ _ Hy) as (Hay & _). apply list_elem_of_fmap. by exists (y, q).
    + unfold Len. cbn. rewrite map_size_empty. lia.
Qed.

(** No peer is lost and none is torn down by mistake. Whatever the order of registrations, teardowns
    (late, repeated, under an ID that was reused) and the shutdown, every peer the registry accepted
    is either still registered under its own ID, or was forgotten by its own holder, or was handed
    back by [Close], and only one of the three; after [Close] the registry stays empty; and no more
    than the limit are ever registered at once. *)
Theorem every_peer_accounted max u :
  steps (use max) start_usage u ->
  (forall id p, (id, p) ∈ accepted u ->
     (Get (set u) id = Some p /\ ((id, p) ∉ forgotten u) /\ p ∉ drained u) \/
     (Get (set u) id <> Some p /\ (id, p) ∈ forgotten u /\ p ∉ drained u) \/
     (Get (set u) id <> Some p /\ ((id, p) ∉ forgotten u) /\ p ∈ drained u)) /\
  (closed (set u) = true -> All (set u) = []) /\
  (0 < max -> Len (set u) <= max).
Proof.
  intros Hs. assert (accounted max u) as (Hnd & Hreg & Hacc & Hfor & Hdr & Hcl & Hmax).
  { refine (steps_invariant (use max) (accounted max) _ _ _ Hs _).
    - intros u1 u2. apply use_accounted.
    - unfold accounted, start_usage, Get, Len. cbn. split_and!; try done.
      + constructor.
      + by intros ? ? H%elem_of_nil.
      + by intros ? ? H%elem_of_nil.
      + rewrite map_size_empty. lia. }
  split_and!; [|intros Hc; unfold All; by rewrite (Hcl Hc), map_to_list_empty|done].
  intros id p Hin. destruct (Hacc _ _ Hin) as [H|[H|H]].
  - left. by destruct (Hreg _ _ H) as (_ & ? & ?).
  - right; left. destruct (Hfor _ _ H) as [_ Hd]. split_and!; try done. intros Hg. by destruct (Hreg _ _ Hg) as (_ & ? & _).
  - right; right. split_and!; [|intros Hf; by destruct (Hfor _ _ Hf)|done].
    intros Hg. by destruct (Hreg _ _ Hg) as (_ & _ & ?).
Qed.
End Registry.
Arguments Set_ T : clear implicits.
Arguments usage T : clear implicits.

(** An ID reused after a teardown: the late [Forget] of the first peer spares the second. *)
Definition reused : usage Z :=
  mkUsage (Forget (mkSet {[$"a" := 2]} false) $"a" 1) [($"a", 2); ($"a", 1)] [($"a", 1)] [].

Lemma reused_reachable : steps (use 3) start_usage reused.
Proof.
  eapply steps_cons.
  { apply (use_add 3 start_usage $"a" 1 (mkSet {[$"a" := 1]} false)); [apply not_elem_of_nil|vm_compute; reflexivity]. }
  eapply steps_cons; [exact (use_forget 3 _ $"a" 1)|]. cbn [set accepted forgotten drained].
  eapply steps_cons.
  { apply (use_add 3 _ $"a" 2 (mkSet {[$"a" := 2]} false)); [|vm_compute; reflexivity].
    cbn. intros H. by apply list_elem_of_singleton in H. }
  eapply steps_one. exact (use_forget 3 (mkUsage (mkSet {[$"a" := 2]} false) [($"a", 2); ($"a", 1)] [($"a", 1)] []) $"a" 1).
Qed.

Lemma every_peer_accounted_witness : Get (set reused) $"a" = Some 2 /\ Len (set reused) <= 3.
Proof.
  split; [vm_compute; reflexivity|].
  refine (proj2 (proj2 (every_peer_accounted 3 reused reused_reachable)) _). lia.
Defined.

(** * The deadline *)

(** [done] is the flag the two sides race for with a compare-and-swap; the timer may already have
    started its callback when it is stopped. *)
Inductive timer := Armed | Stopped | Fired.
Record Deadline := mkDeadline { done_flag : bool; dtimer : timer; callbacks : nat; expirations : nat; cancels : nat }.

Definition NewDeadline : Deadline := mkDeadline false Armed 0 0 0.

(** The timer fires: its callback is running, before its compare-and-swap. *)
Definition fire (d : Deadline) : Deadline :=
  match dtimer d with
  | Armed => mkDeadline (done_flag d) Fired (S (callbacks d)) (expirations d) (cancels d)
  | _ => d
  end.

(** The callback's [CompareAndSwap], and [expire] if it wins. *)
Definition callback (d : Deadline) : Deadline :=
  match callbacks d with
  | O => d
  | S n =>
    if done_flag d then mkDeadline true (dtimer d) n (expirations d) (cancels d)
    else mkDeadline true (dtimer d) n (S (expirations d)) (cancels d)
  end.

Definition Done (d : Deadline) : Deadline :=
  if done_flag d then d
  else mkDeadline true (match dtimer d with Armed => Stopped | t => t end) (callbacks d) (expirations d) (S (cancels d)).

Inductive dstep : Deadline -> Deadline -> Prop :=
| dstep_fire d : dstep d (fire d)
| dstep_callback d : dstep d (callback d)
| dstep_done d : dstep d (Done d).

Definition one_winner (d : Deadline) : Prop :=
  (expirations d + cancels d = (if done_flag d then 1 else 0))%nat /\
  (dtimer d = Armed -> callbacks d = 0%nat).

Lemma dstep_one_winner d d' : one_winner d -> dstep d d' -> one_winner d'.
Proof.
  intros (Hw & Ht) Hs. destruct Hs as [d|d|d]; destruct d as [f t c e k]; cbn in *.
  - unfold fire. destruct t; cbn; [|by split..]. split; [done|by intros].
  - unfold callback. destruct c as [|c]; cbn; [by split|].
    assert (t <> Armed) as Hna by (intros ->; by specialize (Ht eq_refl)).
    destruct f; split; cbn in *; try lia; by intros.
  - unfold Done. destruct f; cbn; [by split|]. split; cbn; [lia|]. destruct t; cbn; [done|by intros..].
Qed.

(** Expiry and cancellation race and exactly one wins: in every interleaving of the timer, its
    callback and any number of [Done]s, as soon as one of them has reached the compare-and-swap
    either [expire] has run, once, and no [Done] counts, or one [Done] has won and [expire] never
    runs. *)
Theorem deadline_one_winner d d' :
  steps dstep NewDeadline d -> steps dstep d d' -> done_flag d = true ->
  ((expirations d' = 1 /\ cancels d' = 0) \/ (expirations d' = 0 /\ cancels d' = 1))%nat /\
  (expirations d' = expirations d /\ cancels d' = cancels d)%nat.
Proof.
  intros Hr Hs Hd.
  assert (forall a b, steps dstep a b -> one_winner a -> one_winner b) as Hinv.
  { intros a b. apply steps_invariant. apply dstep_one_winner. }
  assert (one_winner d) as Hw by (eapply Hinv; [exact Hr|by split]).
  assert (done_flag d' = true /\ expirations d' = expirations d /\ cancels d' = cancels d) as (Hd' & He & Hc).
  { refine (steps_invariant dstep (fun x => done_flag x = true /\ expirations x = expirations d /\ cancels x = cancels d)
      _ d d' Hs _); [|done].
    intros a b (Ha & He & Hc) Hab. destruct Hab as [a|a|a]; destruct a as [f t c e k]; cbn in *; subst.
    - unfold fire. by destruct t.
    - unfold callback. by destruct c.
    - done. }
  split; [|done]. destruct (Hinv _ _ Hs Hw) as [H _]. rewrite Hd' in H. lia.
Qed.

(** The timer has started its callback when [Done] is called: [Done] wins. *)
Lemma deadline_one_winner_witness :
  (expirations (callback (Done (fire NewDeadline))) = 0 /\ cancels (callback (Done (fire NewDeadline))) = 1)%nat.
Proof.
  destruct (deadline_one_winner (Done (fire NewDeadline)) (callback (Done (fire NewDeadline)))) as [_ H];
    [|apply steps_one, dstep_callback|reflexivity|exact H].
  eapply steps_cons; [apply dstep_fire|]. apply steps_one, dstep_done.
Defined.
