(* ===== verification/Wire.v ===== *)
(** What the pairing and verification messages are made of: [encoding/base64]'s standard encoding, and
    flat JSON objects of strings, with the lemmas that they are read back as they were written. *)

From S2P Require Import Prelude GoLib Json.

(** * Base64 (StdEncoding) *)

Definition enc6 (z : Z) : ascii :=
  if z <? 26 then chr (65 + z) else if z <? 52 then chr (71 + z) else if z <? 62 then chr (z - 4)
  else if z =? 62 then chr 43 else chr 47.

Definition dec6 (c : ascii) : option Z :=
  let z := code c in
  if between 65 90 z then Some (z - 65) else if between 97 122 z then Some (z - 71)
  else if between 48 57 z then Some (z + 4) else if z =? 43 then Some 62 else if z =? 47 then Some 63 else None.

Definition pad_char : ascii := "="%char.

Fixpoint encode64 (s : bytes) : bytes :=
  match s with
  | a :: b :: c :: r =>
    let v := code a * 65536 + code b * 256 + code c in
    enc6 (v / 262144) :: enc6 (v / 4096 mod 64) :: enc6 (v / 64 mod 64) :: enc6 (v mod 64) :: encode64 r
  | [a; b] =>
    let v := code a * 65536 + code b * 256 in
    [enc6 (v / 262144); enc6 (v / 4096 mod 64); enc6 (v / 64 mod 64); pad_char]
  | [a] =>
    let v := code a * 65536 in [enc6 (v / 262144); enc6 (v / 4096 mod 64); pad_char; pad_char]
  | [] => []
  end.

(** The decoder takes four characters at a time, padding only at the very end; it skips line breaks. *)
Fixpoint decode_quads (s : bytes) : option bytes :=
  match s with
  | [] => Some []
  | a :: b :: c :: d :: r =>
    match dec6 a, dec6 b with
    | Some x, Some y =>
      match dec6 c, dec6 d with
      | Some z, Some w =>
        let v := x * 262144 + y * 4096 + z * 64 + w in
        t ← decode_quads r; Some (chr (v / 65536) :: chr (v / 256 mod 256) :: chr (v mod 256) :: t)
      | Some z, None =>
        let v := x * 262144 + y * 4096 + z * 64 in
        if decide (d = pad_char /\ r = []) then Some [chr (v / 65536); chr (v / 256 mod 256)] else None
      | None, _ =>
        let v := x * 262144 + y * 4096 in
        if decide (c = pad_char /\ d = pad_char /\ r = []) then Some [chr (v / 65536)] else None
      end
    | _, _ => None
    end
  | _ => None
  end.

Definition decode64 (s : bytes) : option bytes :=
  decode_quads (filter (fun c => c <> chr 10 /\ c <> chr 13) s).

Lemma between_true lo hi z : lo <= z <= hi -> between lo hi z = true.
Proof. intros H. unfold between. apply andb_true_intro. split; by apply Z.leb_le; lia. Qed.

Lemma code_range c : 0 <= code c < 256.
Proof. apply Z_of_byte_range. Qed.

Lemma code_chr z : 0 <= z < 256 -> code (chr z) = z.
Proof. intros H. unfold code, chr. rewrite Z_of_byte_of_Z. by apply Z.mod_small. Qed.

Lemma chr_code c z : z = code c -> chr z = c.
Proof. intros ->. apply byte_of_Z_of_byte. Qed.

Lemma sextets (P : Z -> Prop) : (forall n, (n < 64)%nat -> P (Z.of_nat n)) -> forall z, 0 <= z < 64 -> P z.
Proof. intros H z Hz. rewrite <- (Z2Nat.id z) by lia. apply H. lia. Qed.

Lemma dec_enc6 z : 0 <= z < 64 -> dec6 (enc6 z) = Some z.
Proof. revert z. apply sextets. intros n Hn. do 64 (destruct n as [|n]; [vm_compute; reflexivity|]). lia. Qed.

(** A character that JSON writes as it is. *)
Definition plain_char (c : ascii) : Prop :=
  32 <= code c < 127 /\ code c <> 34 /\ code c <> 92 /\ code c <> 60 /\ code c <> 62 /\ code c <> 38.
Definition plain (s : bytes) : Prop := Forall plain_char s.

#[export] Instance plain_char_dec c : Decision (plain_char c).
Proof. unfold plain_char. apply _. Defined.

Lemma enc6_plain z : 0 <= z < 64 -> plain_char (enc6 z).
Proof.
  revert z. apply sextets. intros n Hn.
  do 64 (destruct n as [|n]; [apply (bool_decide_unpack _); vm_compute; reflexivity|]). lia.
Qed.

Lemma encode64_ind (P : bytes -> Prop) :
  P [] -> (forall a, P [a]) -> (forall a b, P [a; b]) -> (forall a b c r, P r -> P (a :: b :: c :: r)) -> forall s, P s.
Proof.
  intros H0 H1 H2 H3. assert (forall n s, (length s <= n)%nat -> P s) as H; [|intros s; by eapply H].
  induction n as [|n IH]; intros [|a [|b [|c r]]] Hn; cbn in Hn; try lia; auto. apply H3, IH. lia.
Qed.

Lemma pad_plain : plain_char pad_char.
Proof. apply (bool_decide_unpack _). vm_compute. reflexivity. Qed.

Lemma encode64_plain s : plain (encode64 s).
Proof.
  induction s as [|a|a b|a b c r IH] using encode64_ind; cbn [encode64]; [constructor|..];
    pose proof (code_range a); try pose proof (code_range b); try pose proof (code_range c);
    repeat (apply Forall_cons; split); try apply enc6_plain; try exact pad_plain; try done; try constructor;
    Z.div_mod_to_equations; lia.
Qed.

Lemma dec6_pad : dec6 pad_char = None.
Proof. vm_compute. reflexivity. Qed.

Lemma decode_quads_encode s : decode_quads (encode64 s) = Some s.
Proof.
  induction s as [|a|a b|a b c r IH] using encode64_ind; [done|..]; cbn [encode64 decode_quads];
    pose proof (code_range a); try pose proof (code_range b); try pose proof (code_range c);
    rewrite !dec_enc6 by (Z.div_mod_to_equations; lia); rewrite ?dec6_pad, ?IH;
    rewrite ?decide_True by done; cbn [mbind option_bind]; f_equal; repeat f_equal; apply chr_code;
    Z.div_mod_to_equations; lia.
Qed.

Lemma decode64_encode64 s : decode64 (encode64 s) = Some s.
Proof.
  unfold decode64. assert (filter (fun c => c <> chr 10 /\ c <> chr 13) (encode64 s) = encode64 s) as ->;
    [|apply decode_quads_encode].
  pose proof (encode64_plain s) as Hp. induction Hp as [|c l (Hc & _) _ IH]; [done|].
  rewrite filter_cons_True; [by rewrite IH|]. split; intros ->; vm_compute in Hc; destruct Hc as [Hc _]; by apply Hc.
Qed.

(** * Flat objects of plain strings *)

Lemma plain_cons c s : plain (c :: s) <-> plain_char c /\ plain s.
Proof. apply Forall_cons. Qed.

Lemma utf8_size_ascii c s : code c < 128 -> utf8_size (c :: s) = Some 1%nat.
Proof. intros H. cbn. by settle (code c <? 128) true. Qed.

Lemma escape_plain s : forall n, (length s <= n)%nat -> plain s -> escape_string n s = s.
Proof.
  induction s as [|c s IH]; intros n Hn Hp; [by destruct n|]. destruct n as [|n]; [cbn in Hn; lia|].
  apply plain_cons in Hp as [(Hr & H1 & H2 & H3 & H4 & H5) Hp]. cbn [escape_string].
  settle (code c =? 34) false. settle (code c =? 92) false. settle (code c =? 8) false.
  settle (code c =? 12) false. settle (code c =? 10) false. settle (code c =? 13) false.
  settle (code c =? 9) false. settle (code c <? 32) false. settle (code c =? 60) false.
  settle (code c =? 62) false. settle (code c =? 38) false. cbn [orb].
  rewrite utf8_size_ascii by lia. change (take 1 (c :: s)) with [c]. change (drop 1 (c :: s)) with s.
  assert (code c < 128) as Hlt by lia.
  rewrite !decide_False; [cbn; f_equal; apply IH; [cbn in Hn; lia|done]|..].
  - intros E. vm_compute in E. congruence.
  - intros E. vm_compute in E. congruence.
Qed.

Lemma print_plain s : plain s -> print_string s = chr 34 :: s ++ [chr 34].
Proof. intros Hp. unfold print_string. by rewrite escape_plain. Qed.

Lemma parse_plain s k : forall n, (length s < n)%nat -> plain s ->
  parse_string n (s ++ chr 34 :: k) = Some (s, k).
Proof.
  induction s as [|c s IH]; intros n Hn Hp; (destruct n as [|n]; [cbn in Hn; lia|]); cbn [app parse_string].
  - by rewrite code_chr.
  - apply plain_cons in Hp as [(Hr & H1 & H2 & _) Hp].
    settle (code c =? 34) false. settle (code c <? 32) false. settle (code c =? 92) false.
    rewrite utf8_size_ascii by lia. change (drop 1 (c :: s ++ chr 34 :: k)) with (s ++ chr 34 :: k).
    rewrite IH by (cbn in Hn; lia || done). reflexivity.
Qed.

Lemma skip_not_space c s : is_space c = false -> skip_space (c :: s) = c :: s.
Proof. cbn. by intros ->. Qed.

(** The members of a flat object. *)
Definition flat (ms : list (bytes * bytes)) : list (bytes * json) := map (fun kv => (kv.1, JString kv.2)) ms.
Definition flat_ok (ms : list (bytes * bytes)) : Prop := Forall (fun kv => plain kv.1 /\ plain kv.2) ms.

Definition print_member (kv : bytes * json) : bytes := print_string kv.1 ++ $":" ++ print_json kv.2.

Lemma print_flat_cons k v ms rest : plain k -> plain v ->
  join $"," (map print_member (flat ((k, v) :: ms))) ++ rest =
  chr 34 :: k ++ chr 34 :: chr 58 :: chr 34 :: v ++ chr 34 ::
    match ms with [] => rest | _ => chr 44 :: join $"," (map print_member (flat ms)) ++ rest end.
Proof.
  intros Hk Hv. unfold flat. cbn [map fst snd]. set (tl := map print_member _).
  assert (print_member (k, JString v) = chr 34 :: k ++ chr 34 :: chr 58 :: chr 34 :: v ++ [chr 34]) as ->.
  { unfold print_member. cbn [fst snd print_json]. rewrite !print_plain by done.
    cbn [app]. rewrite <- app_assoc. reflexivity. }
  destruct ms as [|kv ms].
  - subst tl. cbn [map join]. cbn [app]. rewrite <- !app_assoc. cbn [app]. rewrite <- app_assoc. reflexivity.
  - assert (join $"," ((chr 34 :: k ++ chr 34 :: chr 58 :: chr 34 :: v ++ [chr 34]) :: tl) =
            (chr 34 :: k ++ chr 34 :: chr 58 :: chr 34 :: v ++ [chr 34]) ++ chr 44 :: join $"," tl) as -> by reflexivity.
    cbn [app]. rewrite <- !app_assoc. cbn [app]. rewrite <- !app_assoc. reflexivity.
Qed.

Lemma parse_members_flat ms : forall n depth rest,
  ms <> [] -> flat_ok ms -> (2 * length ms <= n)%nat ->
  parse_members n depth (join $"," (map print_member (flat ms)) ++ chr 125 :: rest) = Some (flat ms, rest).
Proof.
  induction ms as [|[k v] ms IH]; intros n depth rest Hne Hok Hn; [done|].
  apply Forall_cons in Hok as [[Hk Hv] Hok]. cbn [fst snd] in Hk, Hv.
  rewrite print_flat_cons by done.
  destruct n as [|n]; [cbn in Hn; lia|]. cbn [parse_members].
  rewrite skip_not_space by reflexivity. change (is_char 34 (chr 34)) with true. cbv iota.
  rewrite parse_plain by (done || rewrite length_app; lia).
  rewrite skip_not_space by reflexivity. change (is_char 58 (chr 58)) with true. cbv iota.
  destruct n as [|n]; [cbn in Hn; lia|]. cbn [parse_value].
  rewrite skip_not_space by reflexivity. change (is_char 34 (chr 34)) with true. cbv iota.
  rewrite parse_plain by (done || rewrite length_app; lia).
  destruct ms as [|kv ms].
  - rewrite skip_not_space by reflexivity. reflexivity.
  - rewrite skip_not_space by reflexivity. change (is_char 125 (chr 44)) with false.
    change (is_char 44 (chr 44)) with true. cbv iota.
    rewrite IH; [reflexivity|done|done|cbn in Hn |- *; lia].
Qed.

Lemma print_object ms : print_json (JObject ms) = $"{" ++ join $"," (map print_member ms) ++ $"}".
Proof. cbn [print_json]. do 3 f_equal. induction ms as [|[k v] ms IH]; [done|]. cbn [map]. by rewrite IH. Qed.

Lemma length_join_members ms : (length ms <= length (join $"," (map print_member ms)))%nat.
Proof.
  induction ms as [|kv ms IH]; [done|]. cbn [map].
  assert (1 <= length (print_member kv))%nat by (unfold print_member, print_string; cbn; lia).
  destruct (map print_member ms) as [|m l] eqn:E.
  - apply map_eq_nil in E. subst. cbn. lia.
  - change (join $"," (print_member kv :: m :: l)) with (print_member kv ++ $"," ++ join $"," (m :: l)).
    rewrite !length_app. cbn [length] in *. lia.
Qed.

Lemma parse_print_flat ms : flat_ok ms -> parse_json (print_json (JObject (flat ms))) = Some (JObject (flat ms)).
Proof.
  intros Hok. rewrite print_object. unfold parse_json.
  destruct ms as [|kv ms]; [reflexivity|]. set (m := kv :: ms) in *.
  set (body := join $"," (map print_member (flat m))).
  assert (length m <= length body)%nat as Hlen.
  { subst body. pose proof (length_join_members (flat m)) as H. unfold flat in H at 1. by rewrite length_map in H. }
  change ($"{" ++ body ++ $"}") with (chr 123 :: body ++ [chr 125]).
  assert (length (chr 123 :: body ++ [chr 125]) = length body + 2)%nat as -> by (cbn; rewrite length_app; cbn; lia).
  replace (2 * (length body + 2) + 2)%nat with (S (2 * length body + 5)) by lia. cbn [parse_value].
  rewrite skip_not_space by reflexivity. change (is_char 34 (chr 123)) with false. change (is_char 123 (chr 123)) with true.
  change (0 >=? maxNestingDepth) with false. cbv iota.
  assert (exists t, body ++ [chr 125] = chr 34 :: t) as [t Ht].
  { subst body m. destruct kv as [k v]. apply Forall_cons in Hok as [[Hk Hv] _]. rewrite print_flat_cons by done. by eexists. }
  rewrite Ht. rewrite skip_not_space by reflexivity. change (is_char 125 (chr 34)) with false. cbv iota. rewrite <- Ht.
  rewrite (parse_members_flat m _ _ []) by (done || lia). reflexivity.
Qed.
