(* ===== verification/Pairing.v ===== *)
(** Pairing by code: the commitment, the short authentication string and the messages
    (internal/pairing/commit.go), the operator's prompt (internal/pairing/listener.go), the device's
    side of the exchange (internal/peer/connection.go, handlePairRequestOnOpen) and the connector's
    (cmd/bitbang/connect_pair.go, runPairConnect, from the open data channel on). *)

From S2P Require Import Prelude GoLib Json Sha256 Wire.

Definition NonceLen : nat := 32.

Definition Commitment (nonce : bytes) : bytes := encode64 (Sum256 nonce).
Definition VerifyCommitment (commit nonce : bytes) : bool := bool_decide (commit = Commitment nonce).

(** [strings.ToUpper] on the ASCII text of a fingerprint. *)
Definition upper (c : ascii) : ascii := if between 97 122 (code c) then chr (code c - 32) else c.
Definition ToUpper (s : bytes) : bytes := map upper s.

(** [fmt.Sprintf("%06d", code)] *)
Definition six_digits (z : Z) : bytes :=
  map (fun d => chr (48 + z / d mod 10)) [100000; 10000; 1000; 100; 10; 1].

Definition get_be32 (s : bytes) : Z := foldl (fun acc c => acc * 256 + code c) 0 (take 4 s).

Definition ComputeSAS (rc rd localFp remoteFp : bytes) : bytes :=
  let fps := sort_strings [ToUpper localFp; ToUpper remoteFp] in
  let sum := Sum256 (rc ++ rd ++ join $"|" fps) in
  six_digits (get_be32 sum mod 1000000).

(** * Messages *)

(** One field of a message: what [json.Unmarshal] into a struct with that field gives, and whether it
    reports an error. *)
Definition unmarshal_field (name data : bytes) : bytes * bool :=
  match parse_json data with
  | Some j => field decode_string [] name j
  | None => ([], false)
  end.

Definition PairMessageType (data : bytes) : bytes := (unmarshal_field $"type" data).1.

Definition MsgPairCommit : bytes := $"pair_commit".
Definition MsgPairChallenge : bytes := $"pair_challenge".
Definition MsgPairReveal : bytes := $"pair_reveal".
Definition MsgPairCredentials : bytes := $"pair_credentials".

(** A map marshals with its keys in order. *)
Definition BuildPairCommit (commit : bytes) : bytes :=
  print_json (JObject (flat [($"commit", commit); ($"type", MsgPairCommit)])).
Definition BuildPairChallenge (nonceD : bytes) : bytes :=
  print_json (JObject (flat [($"nonce_d", encode64 nonceD); ($"type", MsgPairChallenge)])).
Definition BuildPairReveal (nonceC : bytes) : bytes :=
  print_json (JObject (flat [($"nonce_c", encode64 nonceC); ($"type", MsgPairReveal)])).
Definition BuildPairCredentials (uid publicKey accessCode : bytes) : bytes :=
  print_json (JObject (flat [($"access_code", accessCode); ($"public_key", publicKey);
    ($"type", MsgPairCredentials); ($"uid", uid)])).

Definition decodeNonce (s : bytes) : option bytes :=
  n ← decode64 s; if decide (length n = NonceLen) then Some n else None.

Definition ParsePairCommit (data : bytes) : option bytes :=
  match unmarshal_field $"commit" data with
  | (c :: s, true) => Some (c :: s)
  | _ => None
  end.

Definition parse_nonce (name data : bytes) : option bytes :=
  let '(s, ok) := unmarshal_field name data in if ok then decodeNonce s else None.
Definition ParsePairChallenge (data : bytes) : option bytes := parse_nonce $"nonce_d" data.
Definition ParsePairReveal (data : bytes) : option bytes := parse_nonce $"nonce_c" data.

Definition ParsePairCredentials (data : bytes) : option (bytes * bytes * bytes) :=
  let '(uid, ok1) := unmarshal_field $"uid" data in
  let '(pk, ok2) := unmarshal_field $"public_key" data in
  let '(code, ok3) := unmarshal_field $"access_code" data in
  if ok1 && ok2 && ok3 && negb (bool_decide (uid = [])) then Some (uid, pk, code) else None.

(** * The operator *)

Definition MaxSASAttempts : nat := 3.
Inductive PromptStatus := PromptOK | PromptAbort | PromptTimeout.

(** The attempts from the [attempt]th on, [left] of them: [None] is success, [Some reason] a refusal. *)
Fixpoint prompt_loop (expected : bytes) (prompt : nat -> bytes * PromptStatus) (attempt left : nat) : option bytes :=
  match left with
  | O => Some $"sas_mismatch"
  | S left' =>
    match prompt attempt with
    | (_, PromptAbort) => Some $"user_declined"
    | (_, PromptTimeout) => Some $"timeout"
    | (typed, PromptOK) =>
      if decide (TrimSpace typed = expected) then None else prompt_loop expected prompt (S attempt) left'
    end
  end.

Definition PromptForSAS (expected : bytes) (prompt : nat -> bytes * PromptStatus) : option bytes :=
  prompt_loop expected prompt 1 MaxSASAttempts.

(** * The device *)

(** [PairDone] is the return that runs the deferred [OnPairDone], when one is installed. *)
Inductive device_action :=
| SendDC (data : bytes)
| PairRejected (reason : bytes)
| PairApproved
| CloseConnection
| PairDone.

(** What the rest of the world gives one run on the device: the fingerprints of the two descriptions,
    the two frames received ([None] on a timeout), the nonce drawn, whether the challenge could be
    sent, the operator, and the credential granted: the identity's own code without a hook, else
    what the hook answers. *)
Record device_run := mkDeviceRun {
  localFp : bytes; remoteFp : bytes;
  recv_commit : option bytes; drawn : option bytes; challenge_sent : bool; recv_reveal : option bytes;
  prompt : nat -> bytes * PromptStatus;
  grant_hook : option (option bytes);
  dev_uid : bytes; dev_public : bytes; dev_code : bytes
}.

Definition reject (reason : bytes) : list device_action := [PairRejected reason; CloseConnection; PairDone].

Definition handlePairRequestOnOpen (r : device_run) : list device_action :=
  if bool_decide (localFp r = [] \/ remoteFp r = []) then reject $"user_declined" else
  match recv_commit r with
  | None => reject $"timeout"
  | Some data =>
    if negb (bool_decide (PairMessageType data = MsgPairCommit)) then reject $"timeout" else
    match ParsePairCommit data with
    | None => reject $"user_declined"
    | Some commit =>
      match drawn r with
      | None => reject $"user_declined"
      | Some rd =>
        if negb (challenge_sent r) then [CloseConnection; PairDone] else
        SendDC (BuildPairChallenge rd) ::
        match recv_reveal r with
        | None => reject $"timeout"
        | Some data =>
          if negb (bool_decide (PairMessageType data = MsgPairReveal)) then reject $"timeout" else
          match ParsePairReveal data with
          | None => reject $"sas_mismatch"
          | Some rc =>
            if negb (VerifyCommitment commit rc) then reject $"sas_mismatch" else
            let sas := ComputeSAS rc rd (localFp r) (remoteFp r) in
            match PromptForSAS sas (prompt r) with
            | Some reason => reject reason
            | None =>
              match (match grant_hook r with None => Some (dev_code r) | Some g => g end) with
              | None => reject $"user_declined"
              | Some code =>
                [SendDC (BuildPairCredentials (dev_uid r) (dev_public r) code); PairApproved; CloseConnection; PairDone]
              end
            end
          end
        end
      end
    end
  end.

(** * The connector *)

Inductive connector_action := Sent (data : bytes) | Display (sas : bytes).
Inductive outcome := Paired (uid code : bytes) | Failed.

(** From the open data channel: the nonce drawn, the challenge and the verdict received over the data
    channel ([None]: a rejection, an error or the deadline came first), and its own fingerprints. *)
Definition runPairConnect (rc : bytes) (challenge : option bytes) (myFp peerFp : bytes) (verdict : option bytes) :
  list connector_action * outcome :=
  let sent := [Sent (BuildPairCommit (Commitment rc))] in
  match challenge with
  | None => (sent, Failed)
  | Some data =>
    match ParsePairChallenge data with
    | None => (sent, Failed)
    | Some rd =>
      if negb (bool_decide (PairMessageType data = MsgPairChallenge)) then (sent, Failed) else
      let sent := sent ++ [Sent (BuildPairReveal rc)] in
      if bool_decide (myFp = [] \/ peerFp = []) then (sent, Failed) else
      let sent := sent ++ [Display (ComputeSAS rc rd myFp peerFp)] in
      match verdict with
      | None => (sent, Failed)
      | Some data =>
        if negb (bool_decide (PairMessageType data = MsgPairCredentials)) then (sent, Failed) else
        match ParsePairCredentials data with
        | None => (sent, Failed)
        | Some (uid, _, code) => (sent, Paired uid code)
        end
      end
    end
  end.

#[local] Opaque Sum256.

(** * Messages are read back as they were written *)

Lemma unmarshal_flat name ms : flat_ok ms ->
  unmarshal_field name (print_json (JObject (flat ms))) = field decode_string [] name (JObject (flat ms)).
Proof. intros Hok. unfold unmarshal_field. by rewrite parse_print_flat. Qed.

Lemma plain_lit s : bool_decide (plain s) = true -> plain s.
Proof. apply bool_decide_eq_true. Qed.

Ltac flat_tac := repeat (apply Forall_cons; split); try apply Forall_nil; cbn [fst snd]; try done;
  try (split; first [apply encode64_plain | assumption | apply plain_lit; vm_compute; reflexivity]).

Lemma decodeNonce_encode n : length n = NonceLen -> decodeNonce (encode64 n) = Some n.
Proof. intros Hn. unfold decodeNonce. rewrite decode64_encode64. cbn. by rewrite decide_True. Qed.

Lemma Commitment_nonempty n : Commitment n <> [].
Proof.
  unfold Commitment. pose proof (length_Sum256 n) as Hl. destruct (Sum256 n) as [|a [|b [|c r]]]; done.
Qed.

Lemma commit_round_trip n :
  PairMessageType (BuildPairCommit (Commitment n)) = MsgPairCommit /\
  ParsePairCommit (BuildPairCommit (Commitment n)) = Some (Commitment n).
Proof.
  unfold PairMessageType, ParsePairCommit, BuildPairCommit.
  rewrite !unmarshal_flat by (flat_tac; apply encode64_plain). pose proof (Commitment_nonempty n) as Hne.
  revert Hne. generalize (Commitment n). intros [|c s] Hne; [done|]. split; vm_compute; reflexivity.
Qed.

Lemma nonce_round_trip n :
  length n = NonceLen ->
  (PairMessageType (BuildPairChallenge n) = MsgPairChallenge /\ ParsePairChallenge (BuildPairChallenge n) = Some n) /\
  (PairMessageType (BuildPairReveal n) = MsgPairReveal /\ ParsePairReveal (BuildPairReveal n) = Some n).
Proof.
  intros Hn. pose proof (decodeNonce_encode n Hn) as Hd.
  unfold PairMessageType, ParsePairChallenge, ParsePairReveal, parse_nonce, BuildPairChallenge, BuildPairReveal.
  rewrite !unmarshal_flat by flat_tac. revert Hd. generalize (encode64 n). intros e Hd.
  split; (split; [vm_compute; reflexivity|exact Hd]).
Qed.

Lemma credentials_round_trip uid pk code :
  plain uid -> plain pk -> plain code -> uid <> [] ->
  PairMessageType (BuildPairCredentials uid pk code) = MsgPairCredentials /\
  ParsePairCredentials (BuildPairCredentials uid pk code) = Some (uid, pk, code).
Proof.
  intros Hu Hp Hc Hne. unfold PairMessageType, ParsePairCredentials, BuildPairCredentials.
  rewrite !unmarshal_flat by flat_tac. split; [vm_compute; reflexivity|].
  destruct uid; [done|]. vm_compute. reflexivity.
Qed.

(** The messages of the exchange mean what they were built from: a commitment, the two nonces and
    the credentials are read back exactly, and each message is recognised as its own kind. *)
Theorem pair_messages_round_trip nc nd uid pk code :
  length nc = NonceLen -> length nd = NonceLen -> plain uid -> plain pk -> plain code -> uid <> [] ->
  ParsePairCommit (BuildPairCommit (Commitment nc)) = Some (Commitment nc) /\
  ParsePairChallenge (BuildPairChallenge nd) = Some nd /\
  ParsePairReveal (BuildPairReveal nc) = Some nc /\
  ParsePairCredentials (BuildPairCredentials uid pk code) = Some (uid, pk, code) /\
  map PairMessageType [BuildPairCommit (Commitment nc); BuildPairChallenge nd; BuildPairReveal nc;
    BuildPairCredentials uid pk code] = [MsgPairCommit; MsgPairChallenge; MsgPairReveal; MsgPairCredentials].
Proof.
  intros Hc Hd Hu Hp Hco Hne. destruct (commit_round_trip nc) as [T1 P1].
  destruct (nonce_round_trip nd Hd) as [[T2 P2] _]. destruct (nonce_round_trip nc Hc) as [_ [T3 P3]].
  destruct (credentials_round_trip uid pk code Hu Hp Hco Hne) as [T4 P4].
  split; [exact P1|]. split; [exact P2|]. split; [exact P3|]. split; [exact P4|].
  cbn [map]. by rewrite T1, T2, T3, T4.
Qed.

(** * The short authentication string *)

Lemma bytes_leb_total a : forall b, bytes_leb a b = false -> bytes_leb b a = true.
Proof.
  induction a as [|x a IH]; intros [|y b]; cbn; try done.
  destruct (code x <? code y) eqn:E1; [done|]. destruct (code y <? code x) eqn:E2; [done|]. by apply IH.
Qed.

Lemma bytes_leb_antisym a : forall b, bytes_leb a b = true -> bytes_leb b a = true -> a = b.
Proof.
  induction a as [|x a IH]; intros [|y b]; cbn; try done.
  destruct (code x <? code y) eqn:E1; [bool_to_prop; settle (code y <? code x) false; done|].
  destruct (code y <? code x) eqn:E2; [done|]. bool_to_prop. intros Ha Hb.
  assert (x = y) as -> by (rewrite <- (chr_code x (code y)); [by apply chr_code|lia]).
  f_equal. by apply IH.
Qed.

Lemma sort_pair a b : sort_strings [a; b] = sort_strings [b; a].
Proof.
  unfold sort_strings, sort_by. cbn [foldr insert_by].
  destruct (bytes_leb a b) eqn:E1, (bytes_leb b a) eqn:E2; try done.
  - by rewrite (bytes_leb_antisym a b).
  - apply bytes_leb_total in E1. congruence.
Qed.

Lemma ComputeSAS_sym rc rd a b : ComputeSAS rc rd a b = ComputeSAS rc rd b a.
Proof. unfold ComputeSAS. by rewrite sort_pair. Qed.

Lemma code_upper_lower c : code (upper c) = if between 97 122 (code c) then code c - 32 else code c.
Proof.
  unfold upper. destruct (between 97 122 (code c)) eqn:E; [|done]. unfold between in E. bool_to_prop.
  apply code_chr. lia.
Qed.

Lemma six_digits_digits z : length (six_digits z) = 6%nat /\ Forall (fun c => is_digit c = true) (six_digits z).
Proof.
  split; [done|]. apply Forall_forall. intros c (d & -> & _)%list_elem_of_fmap. unfold is_digit.
  pose proof (Z.mod_pos_bound (z / d) 10 ltac:(lia)). rewrite code_chr by lia. apply between_true. lia.
Qed.

Lemma sas_swap rc rd a b a' b' :
  ToUpper a' = ToUpper a -> ToUpper b' = ToUpper b -> ComputeSAS rc rd b' a' = ComputeSAS rc rd a b.
Proof. intros Ha Hb. rewrite ComputeSAS_sym. unfold ComputeSAS. by rewrite Ha, Hb. Qed.

(** The two ends compute the same six decimal digits from the same nonces and fingerprints, though
    each calls its own fingerprint local and the other's remote, and whatever the case of the
    hexadecimal. *)
Theorem sas_agreement rc rd a b a' b' :
  ToUpper a' = ToUpper a -> ToUpper b' = ToUpper b ->
  ComputeSAS rc rd b' a' = ComputeSAS rc rd a b /\
  length (ComputeSAS rc rd a b) = 6%nat /\ Forall (fun c => is_digit c = true) (ComputeSAS rc rd a b).
Proof.
  intros Ha Hb. split; [by apply sas_swap|apply six_digits_digits].
Qed.

#[local] Opaque ComputeSAS.

(** * What the operator decides *)

Lemma prompt_loop_ok expected prompt left : forall attempt,
  prompt_loop expected prompt attempt left = None <->
  exists k, (k < left)%nat /\
    (exists typed, prompt (attempt + k)%nat = (typed, PromptOK) /\ TrimSpace typed = expected) /\
    forall j, (j < k)%nat -> exists typed, prompt (attempt + j)%nat = (typed, PromptOK) /\ TrimSpace typed <> expected.
Proof.
  induction left as [|left IH]; intros attempt; cbn [prompt_loop]; [split; [done|intros (k & Hk & _); lia]|].
  destruct (prompt attempt) as [typed []] eqn:Ep.
  - destruct (decide (TrimSpace typed = expected)) as [He|He].
    + split; [|done]. intros _. exists 0%nat. split_and!; [lia|exists typed; by rewrite Nat.add_0_r|intros; lia].
    + rewrite IH. split; intros (k & Hk & Hok & Hj).
      * exists (S k). split_and!; [lia|by rewrite Nat.add_succ_r|]. intros [|j] Hlt.
        -- exists typed. by rewrite Nat.add_0_r.
        -- rewrite Nat.add_succ_r. apply Hj. lia.
      * destruct k as [|k].
        -- destruct Hok as (t & Ht & Hte). rewrite Nat.add_0_r, Ep in Ht. congruence.
        -- exists k. split_and!; [lia|by rewrite Nat.add_succ_r in Hok|]. intros j Hlt.
           specialize (Hj (S j) ltac:(lia)). by rewrite Nat.add_succ_r in Hj.
  - split; [done|]. intros (k & _ & (t & Ht & _) & Hj). destruct k as [|k].
    + rewrite Nat.add_0_r, Ep in Ht. done.
    + destruct (Hj 0%nat ltac:(lia)) as (t' & Ht' & _). rewrite Nat.add_0_r, Ep in Ht'. done.
  - split; [done|]. intros (k & _ & (t & Ht & _) & Hj). destruct k as [|k].
    + rewrite Nat.add_0_r, Ep in Ht. done.
    + destruct (Hj 0%nat ltac:(lia)) as (t' & Ht' & _). rewrite Nat.add_0_r, Ep in Ht'. done.
Qed.

Lemma prompt_loop_mismatch expected prompt left : forall attempt,
  (forall k, exists typed, prompt k = (typed, PromptOK) /\ TrimSpace typed <> expected) ->
  prompt_loop expected prompt attempt left = Some $"sas_mismatch".
Proof.
  induction left as [|left IH]; intros attempt H; [done|]. cbn [prompt_loop].
  destruct (H attempt) as (t & -> & Hne). rewrite decide_False by done. by apply IH.
Qed.

(** * What the device gives away *)

(** The run reached the operator: commitment, nonce and reveal were in order and the reveal opens the
    commitment that came first. *)
Definition exchanged (r : device_run) (rc rd : bytes) : Prop :=
  localFp r <> [] /\ remoteFp r <> [] /\
  (exists d1 commit, recv_commit r = Some d1 /\ PairMessageType d1 = MsgPairCommit /\
    ParsePairCommit d1 = Some commit /\ commit = Commitment rc) /\
  drawn r = Some rd /\ challenge_sent r = true /\
  (exists d2, recv_reveal r = Some d2 /\ PairMessageType d2 = MsgPairReveal /\ ParsePairReveal d2 = Some rc).

Definition granted (r : device_run) : option bytes :=
  match grant_hook r with None => Some (dev_code r) | Some g => g end.

Definition sas_of (r : device_run) (rc rd : bytes) : bytes := ComputeSAS rc rd (localFp r) (remoteFp r).

Lemma exchanged_run r rc rd :
  exchanged r rc rd ->
  handlePairRequestOnOpen r =
  SendDC (BuildPairChallenge rd) ::
    match PromptForSAS (sas_of r rc rd) (prompt r) with
    | Some reason => reject reason
    | None =>
      match granted r with
      | None => reject $"user_declined"
      | Some code =>
        [SendDC (BuildPairCredentials (dev_uid r) (dev_public r) code); PairApproved; CloseConnection; PairDone]
      end
    end.
Proof.
  intros (H1 & H2 & (d1 & commit & Hd1 & Ht1 & Hp1 & ->) & Hrd & Hs & d2 & Hd2 & Ht2 & Hp2).
  unfold handlePairRequestOnOpen. rewrite bool_decide_false by tauto.
  rewrite Hd1, Hp1, Hrd, Hs, Hd2, Hp2. rewrite !bool_decide_true by done. cbn [negb].
  unfold VerifyCommitment. by rewrite bool_decide_true.
Qed.

(** Every other run. *)
Lemma handle_cases r :
  (exists rc rd, exchanged r rc rd) \/
  (exists reason, handlePairRequestOnOpen r = reject reason) \/
  handlePairRequestOnOpen r = [CloseConnection; PairDone] \/
  (exists rd reason, drawn r = Some rd /\ handlePairRequestOnOpen r = SendDC (BuildPairChallenge rd) :: reject reason).
Proof.
  unfold handlePairRequestOnOpen, exchanged.
  destruct (bool_decide (localFp r = [] \/ remoteFp r = [])) eqn:E1; [right; left; by eexists|].
  apply bool_decide_eq_false in E1.
  destruct (recv_commit r) as [d1|]; [|right; left; by eexists].
  destruct (bool_decide (PairMessageType d1 = _)) eqn:E2; cbn [negb]; [|right; left; by eexists].
  apply bool_decide_eq_true in E2.
  destruct (ParsePairCommit d1) as [commit|] eqn:Ec; [|right; left; by eexists].
  destruct (drawn r) as [rd|]; [|right; left; by eexists].
  destruct (challenge_sent r); cbn [negb]; [|by right; right; left].
  destruct (recv_reveal r) as [d2|]; [|right; right; right; by eexists _, _].
  destruct (bool_decide (PairMessageType d2 = _)) eqn:E3; cbn [negb]; [|right; right; right; by eexists _, _].
  apply bool_decide_eq_true in E3.
  destruct (ParsePairReveal d2) as [rc|] eqn:Er; [|right; right; right; by eexists _, _].
  unfold VerifyCommitment. destruct (bool_decide (commit = _)) eqn:E4; cbn [negb]; [|right; right; right; by eexists _, _].
  apply bool_decide_eq_true in E4. left. exists rc, rd. split_and!; try tauto.
  - exists d1, commit. done.
  - by exists d2.
Qed.

(** Within three attempts, and before cancelling, the operator typed [sas]. *)
Definition operator_types (prompt : nat -> bytes * PromptStatus) (sas : bytes) : Prop :=
  exists k, (k < MaxSASAttempts)%nat /\
    (exists typed, prompt (1 + k)%nat = (typed, PromptOK) /\ TrimSpace typed = sas) /\
    forall j, (j < k)%nat -> exists typed, prompt (1 + j)%nat = (typed, PromptOK) /\ TrimSpace typed <> sas.

Definition approval (r : device_run) (rd code : bytes) : list device_action :=
  [SendDC (BuildPairChallenge rd); SendDC (BuildPairCredentials (dev_uid r) (dev_public r) code);
   PairApproved; CloseConnection; PairDone].

Lemma approved_run r rc rd code :
  exchanged r rc rd -> operator_types (prompt r) (sas_of r rc rd) -> granted r = Some code ->
  handlePairRequestOnOpen r = approval r rd code.
Proof.
  intros He Ho Hg. rewrite (exchanged_run r rc rd He).
  assert (PromptForSAS (sas_of r rc rd) (prompt r) = None) as -> by (by apply prompt_loop_ok). by rewrite Hg.
Qed.

(** A run that ends without approval: what it sent over the data channel was at most the challenge. *)
Definition refusal (r : device_run) (acts : list device_action) : Prop :=
  ~ PairApproved ∈ acts /\
  (forall data, SendDC data ∈ acts -> exists rd, drawn r = Some rd /\ data = BuildPairChallenge rd) /\
  exists l, acts = l ++ [CloseConnection; PairDone].

Lemma reject_refusal r reason : refusal r (reject reason).
Proof.
  split; [|split; [|by exists [PairRejected reason]]].
  - intros H. repeat (apply elem_of_cons in H as [H|H]; [done|]). by apply elem_of_nil in H.
  - intros data H. repeat (apply elem_of_cons in H as [H|H]; [done|]). by apply elem_of_nil in H.
Qed.

Lemma challenge_refusal r rd acts :
  drawn r = Some rd -> refusal r acts -> refusal r (SendDC (BuildPairChallenge rd) :: acts).
Proof.
  intros Hd (H1 & H2 & l & H3). split; [|split].
  - by intros [?|H]%elem_of_cons.
  - intros data [[= ->]|H]%elem_of_cons; [by exists rd|by apply H2].
  - exists (SendDC (BuildPairChallenge rd) :: l). by rewrite H3.
Qed.

Lemma handle_verdict r :
  (exists rc rd code, exchanged r rc rd /\ operator_types (prompt r) (sas_of r rc rd) /\ granted r = Some code /\
     handlePairRequestOnOpen r = approval r rd code) \/
  refusal r (handlePairRequestOnOpen r).
Proof.
  destruct (handle_cases r) as [(rc & rd & He)|[[reason ->]|[->|(rd & reason & Hd & ->)]]].
  - pose proof He as (_ & _ & _ & Hd & _).
    destruct (PromptForSAS (sas_of r rc rd) (prompt r)) as [reason|] eqn:Ep.
    + right. rewrite (exchanged_run r rc rd He), Ep. apply challenge_refusal; [done|apply reject_refusal].
    + apply prompt_loop_ok in Ep as Ho. destruct (granted r) as [code|] eqn:Eg.
      * left. exists rc, rd, code. split_and!; [done..|by apply approved_run with rc].
      * right. rewrite (exchanged_run r rc rd He), Ep, Eg. apply challenge_refusal; [done|apply reject_refusal].
  - right. apply reject_refusal.
  - right. split; [|split; [|by exists []]].
    + intros H. repeat (apply elem_of_cons in H as [H|H]; [done|]). by apply elem_of_nil in H.
    + intros data H. repeat (apply elem_of_cons in H as [H|H]; [done|]). by apply elem_of_nil in H.
  - right. apply challenge_refusal; [done|apply reject_refusal].
Qed.

(** C5: The device approves a pairing exactly when the connector committed to its nonce before it saw
    the device's, opened that very commitment, the operator typed (within three attempts, without
    cancelling) the string the device computed from the two nonces and its own two fingerprints,
    and the grant was not declined. In every other run nothing but the challenge is sent over the
    data channel, so no credential leaves; and every run ends with the connection closed. *)
Theorem credentials_need_sas r :
  (PairApproved ∈ handlePairRequestOnOpen r <->
     exists rc rd code, exchanged r rc rd /\ operator_types (prompt r) (sas_of r rc rd) /\ granted r = Some code /\
       handlePairRequestOnOpen r = approval r rd code) /\
  (~ PairApproved ∈ handlePairRequestOnOpen r -> forall data, SendDC data ∈ handlePairRequestOnOpen r ->
     exists rd, drawn r = Some rd /\ data = BuildPairChallenge rd) /\
  exists acts, handlePairRequestOnOpen r = acts ++ [CloseConnection; PairDone].
Proof.
  assert (forall rd code, PairApproved ∈ approval r rd code) as Hin by (intros; do 2 right; by left).
  destruct (handle_verdict r) as [(rc & rd & code & He & Ho & Hg & Hr)|(Hna & Hs & Hl)].
  - split_and!.
    + split; [by intros _; exists rc, rd, code|by intros (? & ? & ? & _ & _ & _ & ->)].
    + rewrite Hr. intros H. by destruct H.
    + rewrite Hr. by exists [SendDC (BuildPairChallenge rd); SendDC (BuildPairCredentials (dev_uid r) (dev_public r) code); PairApproved].
  - split_and!; [|done|done]. split; [done|]. intros (rc & rd & code & _ & _ & _ & Hr). exfalso. apply Hna. by rewrite Hr.
Qed.

(** * A whole pairing *)

(** The two ends of one data channel, each with the fingerprints of its own descriptions; [rc] and [rd]
    are the nonces drawn, and [prompt] is the device's operator. *)
Definition device_end (rc rd fpDevice fpConnector : bytes) (prompt : nat -> bytes * PromptStatus)
  (hook : option (option bytes)) (uid pk code : bytes) : device_run :=
  mkDeviceRun fpDevice fpConnector (Some (BuildPairCommit (Commitment rc))) (Some rd) true
    (Some (BuildPairReveal rc)) prompt hook uid pk code.

Lemma device_end_exchanged rc rd fd fc p hook uid pk code :
  length rc = NonceLen -> fd <> [] -> fc <> [] -> exchanged (device_end rc rd fd fc p hook uid pk code) rc rd.
Proof.
  intros Hrc Hd Hc. destruct (commit_round_trip rc) as [T1 P1]. destruct (nonce_round_trip rc Hrc) as [_ [T2 P2]].
  split; [exact Hd|]. split; [exact Hc|].
  split; [exists (BuildPairCommit (Commitment rc)), (Commitment rc); exact (conj eq_refl (conj T1 (conj P1 eq_refl)))|].
  split; [reflexivity|]. split; [reflexivity|]. exists (BuildPairReveal rc). exact (conj eq_refl (conj T2 P2)).
Qed.

(** An honest pairing works. When the two ends share the data channel they think they share (each
    sees the other's fingerprint, whatever the case) and the device's operator types what the
    connector displays, the device approves, and the connector ends with the device's name and the
    code that was granted. *)
Theorem pairing_completes rc rd fd fc fd' fc' p hook uid pk code c :
  length rc = NonceLen -> length rd = NonceLen -> fd <> [] -> fc <> [] ->
  ToUpper fd' = ToUpper fd -> ToUpper fc' = ToUpper fc ->
  plain uid -> plain pk -> plain c -> uid <> [] ->
  granted (device_end rc rd fd fc p hook uid pk code) = Some c ->
  operator_types p (ComputeSAS rc rd fc' fd') ->
  handlePairRequestOnOpen (device_end rc rd fd fc p hook uid pk code) =
    [SendDC (BuildPairChallenge rd); SendDC (BuildPairCredentials uid pk c); PairApproved; CloseConnection; PairDone] /\
  runPairConnect rc (Some (BuildPairChallenge rd)) fc' fd' (Some (BuildPairCredentials uid pk c)) =
    ([Sent (BuildPairCommit (Commitment rc)); Sent (BuildPairReveal rc); Display (ComputeSAS rc rd fc' fd')], Paired uid c).
Proof.
  intros Hrc Hrd Hfd Hfc Hd Hc Hu Hp Hco Hne Hg Ho.
  assert (fc' <> []) as H1 by (clear -Hc Hfc; intros ->; by destruct fc).
  assert (fd' <> []) as H2 by (clear -Hd Hfd; intros ->; by destruct fd). split.
  - refine (approved_run (device_end rc rd fd fc p hook uid pk code) rc rd c _ _ Hg).
    { exact (device_end_exchanged rc rd fd fc p hook uid pk code Hrc Hfd Hfc). }
    unfold sas_of. cbn [localFp remoteFp device_end prompt]. rewrite <- (sas_swap rc rd fd fc fd' fc' Hd Hc). exact Ho.
  - unfold runPairConnect. destruct (nonce_round_trip rd Hrd) as [[T1 P1] _].
    destruct (credentials_round_trip uid pk c Hu Hp Hco Hne) as [T2 P2].
    rewrite P1, T1, bool_decide_true by done. cbn [negb]. rewrite bool_decide_false by tauto.
    rewrite T2, bool_decide_true by done. cbn [negb]. by rewrite P2.
Qed.

(** A relay in the middle is noticed. Whatever nonce the relay revealed to the device and whatever
    fingerprints it presented, if the string the device computes differs from the one the connector
    displays, the operator who types what is read out is refused with [sas_mismatch] and no
    credential is sent. *)
Theorem relay_is_refused r rc rd shown :
  exchanged r rc rd -> sas_of r rc rd <> shown ->
  (forall k, exists typed, prompt r k = (typed, PromptOK) /\ TrimSpace typed = shown) ->
  handlePairRequestOnOpen r =
    [SendDC (BuildPairChallenge rd); PairRejected $"sas_mismatch"; CloseConnection; PairDone].
Proof.
  intros He Hne Hp. rewrite (exchanged_run r rc rd He). unfold PromptForSAS.
  rewrite prompt_loop_mismatch; [done|]. intros k. destruct (Hp k) as (t & Ht & Hs). exists t. split; [done|congruence].
Qed.

(** * A pairing on paper *)

Definition nonce_a : bytes := replicate 32 "a"%char.
Definition nonce_b : bytes := replicate 32 "b"%char.
Definition fp_device : bytes := $"AB:01".
Definition fp_connector : bytes := $"CD:02".
Definition shown_sas : bytes := ComputeSAS nonce_a nonce_b $"cd:02" $"ab:01".

(** Two slips, then the right digits with a blank. *)
Definition operator (k : nat) : bytes * PromptStatus :=
  match k with 3%nat => (shown_sas ++ $" ", PromptOK) | _ => ($"oops", PromptOK) end.

Lemma operator_types_shown : operator_types operator shown_sas.
Proof.
  exists 2%nat. split_and!; [vm_compute; lia|exists (shown_sas ++ $" "); split; [done|vm_compute; reflexivity]|].
  intros [|[|j]] Hj; [| |lia]; (exists $"oops"; split; [done|vm_compute; done]).
Qed.

Lemma pairing_completes_witness :
  (runPairConnect nonce_a (Some (BuildPairChallenge nonce_b)) $"cd:02" $"ab:01"
    (Some (BuildPairCredentials $"dev" $"key" $"code"))).2 = Paired $"dev" $"code".
Proof.
  destruct (pairing_completes nonce_a nonce_b fp_device fp_connector $"ab:01" $"cd:02" operator (Some (Some $"code"))
    $"dev" $"key" $"master" $"code") as [_ H];
    [reflexivity|reflexivity|done|done|vm_compute; reflexivity|vm_compute; reflexivity|apply plain_lit; vm_compute; reflexivity
    |apply plain_lit; vm_compute; reflexivity|apply plain_lit; vm_compute; reflexivity|done|reflexivity
    |exact operator_types_shown|by rewrite H].
Defined.

Lemma relay_is_refused_witness :
  handlePairRequestOnOpen (device_end nonce_a nonce_b fp_device $"EE:03" (fun _ => (shown_sas, PromptOK)) None $"dev" $"key" $"master") =
  [SendDC (BuildPairChallenge nonce_b); PairRejected $"sas_mismatch"; CloseConnection; PairDone].
Proof.
  apply (relay_is_refused (device_end nonce_a nonce_b fp_device $"EE:03" (fun _ => (shown_sas, PromptOK)) None $"dev" $"key" $"master")
    nonce_a nonce_b shown_sas).
  - by apply device_end_exchanged.
  - vm_compute. done.
  - intros k. exists shown_sas. split; [done|vm_compute; reflexivity].
Defined.

Lemma sas_agreement_witness :
  ComputeSAS nonce_a nonce_b $"CD:02" $"AB:01" = ComputeSAS nonce_a nonce_b $"ab:01" $"cd:02".
Proof. apply (sas_agreement nonce_a nonce_b $"ab:01" $"cd:02" $"AB:01" $"CD:02"); vm_compute; reflexivity. Defined.

Lemma pair_messages_round_trip_witness : ParsePairReveal (BuildPairReveal nonce_a) = Some nonce_a.
Proof.
  destruct (pair_messages_round_trip nonce_a nonce_b $"dev" $"key" $"code") as (_ & _ & H & _);
    [reflexivity|reflexivity|apply plain_lit; vm_compute; reflexivity|apply plain_lit; vm_compute; reflexivity
    |apply plain_lit; vm_compute; reflexivity|done|exact H].
Defined.

(** A challenge that cannot be sent ends the run without a rejection over signaling. *)
Lemma challenge_failure_is_silent :
  handlePairRequestOnOpen (mkDeviceRun fp_device fp_connector (Some (BuildPairCommit (Commitment nonce_a))) (Some nonce_b)
    false None operator None $"dev" $"key" $"master") = [CloseConnection; PairDone].
Proof. vm_compute. reflexivity. Qed.
