(* ===== verification/Handshake.v ===== *)
(** The bidirectional verification of a connection: the fingerprints of the descriptions
    (internal/sdp/fingerprint.go), the device's side (internal/peer/connection.go: HandleAnswer,
    handleRequestOnOpen, SetOnClose, fireClose; internal/peer/verify.go), the payload the connector
    encrypts (internal/client/peer.go) and the connector's control handshake
    (internal/client/session.go: recvControl, handshake, setNegotiatedVersion). *)

From S2P Require Import Prelude GoLib Protocol Json Sha256 Wire Pairing.

(** * Fingerprints *)

(** [strings.TrimRight(line, cut)] on one character. *)
Definition trim_right (c : ascii) (s : bytes) : bytes := rev (trim_left [c] (rev s)).

(** The literal head of the pattern, whatever the case; the [s] of [sha] folds with the long s. *)
Fixpoint fold_literal (pat s : bytes) : option bytes :=
  match pat with
  | [] => Some s
  | p :: pat' =>
    match s with
    | c :: s' =>
      if decide (lower c = p) then fold_literal pat' s'
      else match s' with
           | d :: s'' => if (code p =? 115) && (code c =? 197) && (code d =? 191) then fold_literal pat' s'' else None
           | [] => None
           end
    | [] => None
    end
  end.

(** [\s] *)
Definition re_space (c : ascii) : bool := bool_decide (c ∈ [chr 9; chr 10; chr 12; chr 13; chr 32]).
Definition re_hex (c : ascii) : bool := is_digit c || between 97 102 (code (lower c)) || is_char 58 c.

(** The group of [fingerprintLine] in a line. *)
Definition fingerprintLine (line : bytes) : option bytes :=
  r ← fold_literal $"a=fingerprint:sha-256" line;
  let '(blanks, r) := span re_space r in
  let '(group, r) := span re_hex r in
  if bool_decide (blanks <> [] /\ group <> [] /\ (span re_space r).2 = []) then Some group else None.

Fixpoint first_fingerprint (lines : list bytes) : bytes :=
  match lines with
  | [] => []
  | line :: lines' =>
    match fingerprintLine (trim_right (chr 13) line) with
    | Some group => ToUpper group
    | None => first_fingerprint lines'
    end
  end.

Definition ExtractFingerprint (sdp : bytes) : bytes := first_fingerprint (Split sdp (chr 10)).

(** [strings.EqualFold], one side of which is an extracted fingerprint: its letters fold with no rune
    outside ASCII. *)
Definition FingerprintsEqual (a b : bytes) : bool := bool_decide (ToLower a = ToLower b).

(** * The device *)

Record Connection := mkConn {
  conn_nonce : option bytes; verifyFailed : bool; conn_access : option bytes;
  conn_closed : bool; onCloseSet : bool; onClose : bool;
  conn_log : list (bytes + nat)
}.
(** [conn_log] holds, newest first, the frames sent ([inl]) and the runs of the teardown callback
    ([inr], with the number of the callback that ran). *)

#[export] Instance eta_Connection : Eta Connection := fun c =>
  mkConn (conn_nonce c) (verifyFailed c) (conn_access c) (conn_closed c) (onCloseSet c) (onClose c) (conn_log c).

Definition NewConnection : Connection := mkConn None false None false false false [].

(** A callback that may be nil ([false]); the first one installed is the only one. *)
Definition SetOnClose (c : Connection) (fn : bool) : Connection :=
  if onCloseSet c then c else
  let c := c <| onCloseSet := true |> in
  if negb (conn_closed c) then c <| onClose := fn |>
  else if fn then c <| conn_log := inr 0%nat :: conn_log c |> else c.

Definition fireClose (c : Connection) : Connection :=
  if conn_closed c then c else
  let c := c <| conn_closed := true |> in
  if onClose c then c <| conn_log := inr 0%nat :: conn_log c |> else c.

Definition nonceHash (nonce : bytes) : bytes := encode64 (Sum256 nonce).

Definition buildVerifyNonceHashFrame (nonce : bytes) : bytes :=
  BuildFrame 0 FlagSYN (print_json (JObject (flat [($"type", $"verify_nonce_hash"); ($"hash", nonceHash nonce)]))).

Definition handleRequestOnOpen (sends : bool) (c : Connection) : Connection :=
  if verifyFailed c then fireClose c else
  match conn_nonce c with
  | None => fireClose c
  | Some nonce =>
    if sends then c <| conn_log := inl (buildVerifyNonceHashFrame nonce) :: conn_log c |> else fireClose c
  end.

Inductive answer_error := RemoteDescription | MissingPayload | BadBase64 | BadCiphertext | BadJSON | BadCode | NoFingerprint | FingerprintMismatch.

Section Device.
(** The device's private key operation, the check of a code, and the identity's own code. *)
Variable Decrypt : bytes -> option bytes.
Variable Authorize : option (bytes -> option bytes).
Variable own_code : bytes.

Definition authorized (code : bytes) : option (option bytes) :=
  match Authorize with
  | Some f => Some <$> f code
  | None => if decide (code = own_code) then Some None else None
  end.

Definition markVerifyFailed (c : Connection) : Connection := c <| verifyFailed := true |>.

(** [desc_ok]: whether the WebRTC stack takes the description. *)
Definition HandleAnswer (desc_ok : bool) (sdp encryptedRequestB64 : bytes) (c : Connection) :
  Connection * result answer_error unit :=
  if negb desc_ok then (c, Err RemoteDescription) else
  match encryptedRequestB64 with
  | [] => (markVerifyFailed c, Err MissingPayload)
  | _ =>
    match decode64 encryptedRequestB64 with
    | None => (markVerifyFailed c, Err BadBase64)
    | Some ciphertext =>
      match Decrypt ciphertext with
      | None => (markVerifyFailed c, Err BadCiphertext)
      | Some plaintext =>
        let '(fp, ok1) := unmarshal_field $"fingerprint" plaintext in
        let '(nonce64, ok2) := unmarshal_field $"nonce" plaintext in
        let '(code, ok3) := unmarshal_field $"code" plaintext in
        if negb (ok1 && ok2 && ok3) then (markVerifyFailed c, Err BadJSON) else
        match authorized code with
        | None => (markVerifyFailed c, Err BadCode)
        | Some access =>
          let c := match access with Some _ => c <| conn_access := access |> | None => c end in
          match decode64 nonce64 with
          | None => (markVerifyFailed c, Err BadBase64)
          | Some nonce =>
            let actual := ExtractFingerprint sdp in
            if bool_decide (actual = []) then (markVerifyFailed c, Err NoFingerprint)
            else if negb (FingerprintsEqual actual fp) then (markVerifyFailed c, Err FingerprintMismatch)
            else (c <| conn_nonce := Some nonce |>, Ok tt)
          end
        end
      end
    end
  end.

(** One event of the connection's life, in any order and number. *)
Inductive conn_step : Connection -> Connection -> Prop :=
| step_answer ok sdp enc c : conn_step c (HandleAnswer ok sdp enc c).1
| step_open sends c : conn_step c (handleRequestOnOpen sends c)
| step_set fn c : conn_step c (SetOnClose c fn)
| step_close c : conn_step c (fireClose c).

(** The answer [sdp] with the payload [enc] proves what it must: it decrypts, its code is authorized
    and the fingerprint in it is the one of the description. *)
Definition proven (sdp enc nonce : bytes) : Prop :=
  exists ct pt n64 code fp, decode64 enc = Some ct /\ Decrypt ct = Some pt /\
    unmarshal_field $"fingerprint" pt = (fp, true) /\ unmarshal_field $"nonce" pt = (n64, true) /\
    unmarshal_field $"code" pt = (code, true) /\ is_Some (authorized code) /\
    decode64 n64 = Some nonce /\ ExtractFingerprint sdp <> [] /\ FingerprintsEqual (ExtractFingerprint sdp) fp = true.

Lemma HandleAnswer_spec ok sdp enc c :
  let r := HandleAnswer ok sdp enc c in
  conn_log r.1 = conn_log c /\ (verifyFailed c = true -> verifyFailed r.1 = true) /\
  (conn_nonce r.1 = conn_nonce c \/ exists n, conn_nonce r.1 = Some n /\ proven sdp enc n) /\
  conn_closed r.1 = conn_closed c /\ onClose r.1 = onClose c /\ onCloseSet r.1 = onCloseSet c.
Proof.
  unfold HandleAnswer. destruct ok; cbn [negb]; [|by split_and!; auto].
  destruct enc as [|e enc]; [by split_and!; auto|]. set (enc' := e :: enc).
  destruct (decode64 enc') as [ct|] eqn:E1; [|by split_and!; auto].
  destruct (Decrypt ct) as [pt|] eqn:E2; [|by split_and!; auto].
  destruct (unmarshal_field $"fingerprint" pt) as [fp ok1] eqn:E3, (unmarshal_field $"nonce" pt) as [n64 ok2] eqn:E4,
    (unmarshal_field $"code" pt) as [code ok3] eqn:E5.
  destruct (ok1 && ok2 && ok3) eqn:Eok; cbn [negb]; [|by split_and!; auto].
  apply andb_prop in Eok as [Eok ->]. apply andb_prop in Eok as [-> ->].
  destruct (authorized code) as [access|] eqn:E6; [|by split_and!; auto].
  set (c1 := match access with Some _ => _ | None => _ end).
  assert (conn_log c1 = conn_log c /\ verifyFailed c1 = verifyFailed c /\ conn_nonce c1 = conn_nonce c /\
    conn_closed c1 = conn_closed c /\ onClose c1 = onClose c /\ onCloseSet c1 = onCloseSet c) as (H1 & H2 & H3 & H4 & H5 & H6)
    by (subst c1; by destruct access).
  clearbody c1.
  destruct (decode64 n64) as [nonce|] eqn:E7; [|by split_and!; auto].
  destruct (bool_decide (ExtractFingerprint sdp = [])) eqn:E8; [by split_and!; auto|].
  destruct (FingerprintsEqual _ fp) eqn:E9; cbn [negb]; [|by split_and!; auto].
  split_and!; try done; [by rewrite <- H2|]. right. exists nonce. split; [done|].
  bool_to_prop. exists ct, pt, n64, code, fp. by split_and!.
Qed.
End Device.

(** * The connector *)

(** The JSON of [encryptVerifyPayload], before it is encrypted. *)
Definition verifyPayload (fingerprint nonce code : bytes) : bytes :=
  print_json (JObject (flat ([($"fingerprint", fingerprint); ($"nonce", encode64 nonce)] ++
    match code with [] => [] | _ => [($"code", code)] end))).

Definition encryptVerifyPayload (Encrypt : bytes -> option bytes) (fingerprint nonce code : bytes) : option bytes :=
  encode64 <$> Encrypt (verifyPayload fingerprint nonce code).

(** How one wait for a control frame goes: a frame ([Some]) or the closed channel ([None]) is already
    in the queue, or arrives, or the data channel closes first, or the timer fires. *)
Inductive waited := Buffered (m : option bytes) | Arrived (m : option bytes) | Dropped | TimedOut.

Inductive handshake_error :=
| ChannelClosed | ListenerClosed | HandshakeTimeout | BadVerifyFrame | NotVerify | VerifyFailed | SendFailed
| BadControlFrame | NonControlFrame | NoPrompt | PromptFailed | TooManyPINs | ListenerError (message : bytes)
| UnsupportedVersion (v : Z) | InvalidVersion (v : Z) | NilPrompt | NotFinished.

Definition recvControl (w : waited) : result handshake_error bytes :=
  match w with
  | Buffered (Some m) | Arrived (Some m) => Ok m
  | Buffered None | Arrived None => Err ChannelClosed
  | Dropped => Err ListenerClosed
  | TimedOut => Err HandshakeTimeout
  end.

Record Client := mkClient {
  ServerCaps : list bytes; ServerVersion : Z; NegotiatedVersion : Z; ServerAccess : bytes;
  sent : list bytes; pins : nat
}.
(** [sent] holds the control payloads sent, oldest first; [pins] counts the PINs among them. *)

#[export] Instance eta_Client : Eta Client := fun s =>
  mkClient (ServerCaps s) (ServerVersion s) (NegotiatedVersion s) (ServerAccess s) (sent s) (pins s).

Definition NewClient : Client := mkClient [] 0 0 [] [] 0.

Definition setNegotiatedVersion (s : Client) (serverVersion negotiatedVersion : Z) : Client * result handshake_error unit :=
  let serverVersion := if serverVersion =? 0 then 2 else serverVersion in
  let maxVersion := NegotiateSWSPVersion serverVersion in
  if maxVersion <? 2 then (s, Err (UnsupportedVersion serverVersion)) else
  let install v := (s <| ServerVersion := serverVersion |> <| NegotiatedVersion := v |>, Ok tt) in
  if negotiatedVersion =? 0 then install maxVersion
  else if (negotiatedVersion <? 2) || (negotiatedVersion >? maxVersion) then (s, Err (InvalidVersion negotiatedVersion))
  else install negotiatedVersion.

Section Connector.
(** The nonce put in the payload, whether the [n]th control frame can be sent, and the user at the
    prompt: no prompt at all, or the PIN typed at each retry, if any. *)
Variable nonce : bytes.
Variable send_ok : nat -> bool.
Variable pinPrompt : option (nat -> option bytes).
Variables (path : bytes) (caps : option (list bytes)).

Definition sendControl (s : Client) (payload : bytes) : Client * bool :=
  if send_ok (length (sent s)) then (s <| sent := sent s ++ [payload] |>, true) else (s, false).

Definition authMsg (pin : bytes) : bytes := print_json (JObject [($"pin", JString pin); ($"type", JString $"auth")]).

(** Asking for a PIN and sending it. *)
Definition try_pin (s : Client) (retry : nat) (prompt : nat -> option bytes) : Client * result handshake_error unit :=
  match prompt retry with
  | None => (s, Err PromptFailed)
  | Some pin =>
    let '(s', ok) := sendControl s (authMsg pin) in
    if ok then (s' <| pins := S (pins s') |>, Ok tt) else (s', Err SendFailed)
  end.

Definition control_field {A} (d : decoder A) (zero : A) (name payload : bytes) : A :=
  match parse_json payload with Some j => (field d zero name j).1 | None => zero end.

(** The loop that drains stream 0, one wait after another. *)
Fixpoint control_loop (ws : list waited) (s : Client) (retry : nat) : Client * result handshake_error unit :=
  match ws with
  | [] => (s, Err NotFinished)
  | w :: ws' =>
    match recvControl w with
    | Err e => (s, Err e)
    | Ok msg =>
      match ParseFrame msg with
      | Err _ => (s, Err BadControlFrame)
      | Ok f =>
        if negb (StreamID f =? 0) then (s, Err NonControlFrame)
        else if negb (IsSYN f) then control_loop ws' s retry
        else
          let type := control_field decode_string [] $"type" (Payload f) in
          if bool_decide (type = $"ready") then
            let s := s <| ServerCaps := control_field decode_strings [] $"caps" (Payload f) |>
                       <| ServerAccess := control_field decode_string [] $"access" (Payload f) |> in
            setNegotiatedVersion s (control_field decode_int 0 $"server_version" (Payload f))
              (control_field decode_int 0 $"negotiated_version" (Payload f))
          else if bool_decide (type = $"auth_required") then
            match pinPrompt with
            | None => (s, Err NoPrompt)
            | Some prompt =>
              match try_pin s retry prompt with
              | (s', Ok _) => control_loop ws' s' (S retry)
              | (s', Err e) => (s', Err e)
              end
            end
          else if bool_decide (type = $"auth_result") then
            if control_field decode_bool false $"success" (Payload f) then control_loop ws' s retry
            else if (3 <=? retry)%nat then (s, Err TooManyPINs)
            else
              match pinPrompt with
              | None => (s, Err NilPrompt)
              | Some prompt =>
                match try_pin s retry prompt with
                | (s', Ok _) => control_loop ws' s' (S retry)
                | (s', Err e) => (s', Err e)
                end
              end
          else if bool_decide (type = $"error") then
            (s, Err (ListenerError (control_field decode_string [] $"message" (Payload f))))
          else control_loop ws' s retry
      end
    end
  end.

Definition connectMsg : bytes :=
  print_json (JObject [($"caps", match caps with Some l => JArray (map JString l) | None => JNull end); ($"path", JString path); ($"type", JString $"connect");
    ($"version", JInt SWSPVersion)]).

(** What the first frame must be. *)
Definition verifies (msg : bytes) : result handshake_error unit :=
  match ParseFrame msg with
  | Err _ => Err BadVerifyFrame
  | Ok f =>
    if negb (StreamID f =? 0) || negb (IsSYN f) then Err NotVerify else
    let '(type, ok1) := unmarshal_field $"type" (Payload f) in
    let '(hash, ok2) := unmarshal_field $"hash" (Payload f) in
    if negb (ok1 && ok2) then Err BadVerifyFrame
    else if negb (bool_decide (type = $"verify_nonce_hash")) then Err NotVerify
    else if negb (bool_decide (hash = nonceHash nonce)) then Err VerifyFailed
    else Ok tt
  end.

Definition handshake (ws : list waited) : Client * result handshake_error unit :=
  match ws with
  | [] => (NewClient, Err NotFinished)
  | w :: ws' =>
    match (let! first := recvControl w in verifies first) with
    | Err e => (NewClient, Err e)
    | Ok _ =>
      let '(s, ok) := sendControl NewClient connectMsg in
      if ok then control_loop ws' s 0 else (s, Err SendFailed)
    end
  end.

(** * What the connector does *)

Lemma sendControl_eq s p s' ok :
  sendControl s p = (s', ok) -> NegotiatedVersion s' = NegotiatedVersion s /\ pins s' = pins s /\
    sent s' = if ok then sent s ++ [p] else sent s.
Proof. unfold sendControl. destruct (send_ok _); by intros [= <- <-]. Qed.

(** The version and the PINs, one wait at a time. *)
Definition is_type (t : bytes) (w : waited) : bool :=
  match recvControl w with
  | Ok msg => match ParseFrame msg with
              | Ok f => bool_decide (control_field decode_string [] $"type" (Payload f) = t)
              | Err _ => false
              end
  | Err _ => false
  end.
Definition asks (ws : list waited) : nat := length (filter (fun w => is_type $"auth_required" w = true) ws).

Lemma setNegotiatedVersion_spec s v n s' r :
  setNegotiatedVersion s v n = (s', r) ->
  sent s' = sent s /\ pins s' = pins s /\
  (r = Ok tt -> 2 <= NegotiatedVersion s' <= NegotiateSWSPVersion (ServerVersion s') /\ NegotiatedVersion s' <= SWSPVersion).
Proof.
  unfold setNegotiatedVersion. set (v' := if v =? 0 then 2 else v).
  assert (NegotiateSWSPVersion v' <= SWSPVersion) as Hle.
  { unfold NegotiateSWSPVersion, SWSPVersion. repeat case_step; bool_to_prop; lia. }
  destruct (NegotiateSWSPVersion v' <? 2) eqn:E1; [by intros [= <- <-]|]. bool_to_prop.
  destruct (n =? 0) eqn:E2; [intros [= <- <-]; cbn; split_and!; try done; lia|].
  destruct ((n <? 2) || (n >? NegotiateSWSPVersion v')) eqn:E3; [by intros [= <- <-]|]. bool_to_prop.
  intros [= <- <-]. cbn. split_and!; try done; lia.
Qed.

Lemma try_pin_eq s retry prompt s' r :
  try_pin s retry prompt = (s', r) ->
  sent s `prefix_of` sent s' /\ (pins s' <= S (pins s))%nat /\ (r = Ok tt -> pins s' = S (pins s)) /\
  (r <> Ok tt -> pins s' = pins s).
Proof.
  unfold try_pin. destruct (prompt retry) as [pin|]; [|intros [= <- <-]; split_and!; try done; lia].
  destruct (sendControl s (authMsg pin)) as [s1 ok] eqn:E. apply sendControl_eq in E as (_ & Hp & Hs).
  destruct ok; intros [= <- <-]; cbn; rewrite ?Hs, ?Hp; split_and!; try done; try lia. by eexists.
Qed.

(** One turn of the loop either ends it or goes on, with at most one more PIN, and beyond the third
    only at the listener's request. *)
Lemma control_loop_turn w ws s retry :
  pins s = retry ->
  (exists e s', control_loop (w :: ws) s retry = (s', Err e) /\ sent s `prefix_of` sent s' /\ pins s' = pins s) \/
  (exists s' v n, control_loop (w :: ws) s retry = setNegotiatedVersion s' v n /\ sent s' = sent s /\ pins s' = pins s) \/
  (exists s' retry', control_loop (w :: ws) s retry = control_loop ws s' retry' /\ sent s `prefix_of` sent s' /\
     pins s' = retry' /\ (retry' = retry \/ retry' = S retry /\ (retry < 3 \/ is_type $"auth_required" w = true)%nat)).
Proof.
  intros Hp. cbn [control_loop]. unfold is_type. destruct (recvControl w) as [msg|e] eqn:Er; [|left; by eexists _, _].
  destruct (ParseFrame msg) as [f|e] eqn:Ef; [|left; by eexists _, _].
  destruct (negb (StreamID f =? 0)); [left; by eexists _, _|].
  destruct (negb (IsSYN f)); [right; right; exists s, retry; split_and!; auto|].
  set (type := control_field decode_string [] $"type" (Payload f)).
  destruct (bool_decide (type = $"ready")); [right; left; by eexists _, _, _|].
  destruct (bool_decide (type = $"auth_required")) eqn:Ea.
  - destruct pinPrompt as [prompt|]; [|left; by eexists _, _].
    destruct (try_pin s retry prompt) as [s1 r1] eqn:Et. apply try_pin_eq in Et as (H1 & H2 & H3 & H4).
    destruct r1 as [[]|e]; [|left; eexists _, _; split_and!; [reflexivity|done|by apply H4]].
    right; right. exists s1, (S retry). split_and!; [done|done|rewrite H3 by done; congruence|]. right. split; [done|]. by right.
  - destruct (bool_decide (type = $"auth_result")).
    + destruct (control_field decode_bool _ _ _); [right; right; exists s, retry; split_and!; auto|].
      destruct (3 <=? retry)%nat eqn:E3; [left; by eexists _, _|]. apply Nat.leb_gt in E3.
      destruct pinPrompt as [prompt|]; [|left; by eexists _, _].
      destruct (try_pin s retry prompt) as [s1 r1] eqn:Et. apply try_pin_eq in Et as (H1 & H2 & H3 & H4).
      destruct r1 as [[]|e]; [|left; eexists _, _; split_and!; [reflexivity|done|by apply H4]].
      right; right. exists s1, (S retry). split_and!; [done|done|rewrite H3 by done; congruence|]. right. split; [done|]. by left.
    + destruct (bool_decide (type = $"error")); [left; by eexists _, _|].
      right; right. exists s, retry. split_and!; auto.
Qed.

Lemma control_loop_inv ws : forall s retry s' r,
  control_loop ws s retry = (s', r) -> pins s = retry ->
  (sent s `prefix_of` sent s') /\
  (r = Ok tt -> 2 <= NegotiatedVersion s' <= NegotiateSWSPVersion (ServerVersion s') /\ NegotiatedVersion s' <= SWSPVersion) /\
  (pins s' <= max 3 retry + asks ws)%nat.
Proof.
  induction ws as [|w ws IH]; intros s retry s' r H Hp.
  { cbn in H. inv H. split_and!; [done|done|cbn; lia]. }
  assert (asks (w :: ws) = asks ws + (if is_type $"auth_required" w then 1 else 0))%nat as Ha.
  { unfold asks. rewrite filter_cons. destruct (is_type _ w); [rewrite decide_True by done|rewrite decide_False by done]; cbn; lia. }
  destruct (control_loop_turn w ws s retry Hp) as [(e & s1 & Ht & Hs & Hpp)|[(s1 & v & n & Ht & Hs & Hpp)|(s1 & r1 & Ht & Hs & Hp1 & Hr)]];
    rewrite Ht in H.
  - inv H. split_and!; [done|done|lia].
  - apply setNegotiatedVersion_spec in H as (H1 & H2 & H3). rewrite H1, Hs. split_and!; [done|done|lia].
  - destruct (IH _ _ _ _ H Hp1) as (H1 & H2 & H3). split_and!; [by etrans|done|].
    destruct Hr as [->|[-> [Hlt|Hty]]]; [lia|lia|]. rewrite Hty in Ha. lia.
Qed.

Lemma verifies_spec msg : verifies msg = Ok tt ->
  exists f, ParseFrame msg = Ok f /\ StreamID f = 0 /\ IsSYN f = true /\
    unmarshal_field $"type" (Payload f) = ($"verify_nonce_hash", true) /\
    unmarshal_field $"hash" (Payload f) = (encode64 (Sum256 nonce), true).
Proof.
  unfold verifies. destruct (ParseFrame msg) as [f|] eqn:Ef; [|done].
  destruct (StreamID f =? 0) eqn:E0, (IsSYN f) eqn:Es; cbn [negb orb]; try done.
  destruct (unmarshal_field $"type" (Payload f)) as [type []] eqn:Et, (unmarshal_field $"hash" (Payload f)) as [hash []] eqn:Eh; cbn [negb andb]; try done.
  case_bool_decide as Hty; [|done]. case_bool_decide as Hh; [|done]. intros _. exists f. split_and!; [done|lia|done|congruence|].
  unfold nonceHash in Hh. congruence.
Qed.

(** C18: The connector says nothing to a device that has not proved itself. Whatever frames arrive, no control frame leaves
    unless the first one, waiting already or arrived in time, is a SYN on stream 0 that says [verify_nonce_hash] and carries
    the base64 of the SHA-256 of the nonce the connector encrypted to the device's key: not the path, not a PIN. What
    leaves then starts with [connect]. *)
Theorem nothing_sent_unverified ws s r :
  handshake ws = (s, r) -> sent s <> [] ->
  exists msg ws' f, (ws = Buffered (Some msg) :: ws' \/ ws = Arrived (Some msg) :: ws') /\
    ParseFrame msg = Ok f /\ StreamID f = 0 /\ IsSYN f = true /\
    unmarshal_field $"type" (Payload f) = ($"verify_nonce_hash", true) /\
    unmarshal_field $"hash" (Payload f) = (encode64 (Sum256 nonce), true) /\
    [connectMsg] `prefix_of` sent s.
Proof.
  unfold handshake, result_bind. destruct ws as [|w ws]; [by intros [= <- <-]|].
  destruct (recvControl w) as [msg|] eqn:Ew; [|by intros [= <- <-]].
  destruct (verifies msg) as [[]|] eqn:Ev; [|by intros [= <- <-]].
  destruct (sendControl NewClient connectMsg) as [s1 ok] eqn:Es. apply sendControl_eq in Es as (_ & Hp & Hs).
  intros H Hne. destruct (verifies_spec msg Ev) as (f & Hf). exists msg, ws, f. split; [|split_and!; try apply Hf].
  - destruct w as [[]|[]| |]; cbn in Ew; try done; injection Ew as ->; [by left|by right].
  - destruct ok; [|injection H as <- <-; by rewrite Hs in Hne].
    apply control_loop_inv in H as (H & _); [|done]. by rewrite Hs in H.
Qed.

(** What a completed handshake leaves, and how many PINs it may have cost: the version is one both
    ends speak, at least 2 and no more than what the listener announced; and the user was asked at
    most three times, plus once for each [auth_required] the listener sent. *)
Theorem handshake_outcome ws s r :
  handshake ws = (s, r) ->
  (r = Ok tt -> 2 <= NegotiatedVersion s <= SWSPVersion /\ NegotiatedVersion s <= NegotiateSWSPVersion (ServerVersion s)) /\
  (pins s <= 3 + asks ws)%nat.
Proof.
  unfold handshake, result_bind. destruct ws as [|w ws]; [intros [= <- <-]; split; [done|cbn; lia]|].
  destruct (recvControl w) as [msg|] eqn:Ew; [|intros [= <- <-]; split; [done|cbn; lia]].
  destruct (verifies msg) as [[]|] eqn:Ev; [|intros [= <- <-]; split; [done|cbn; lia]].
  destruct (sendControl NewClient connectMsg) as [s1 ok] eqn:Es. apply sendControl_eq in Es as (_ & Hp & Hs).
  assert (asks ws <= asks (w :: ws))%nat as Hm by (unfold asks; rewrite filter_cons; case_decide; cbn; lia).
  cbn in Hp. destruct ok; intros H.
  - apply control_loop_inv in H as (_ & H1 & H2); [|done]. split; [|lia]. intros Hr. destruct (H1 Hr). lia.
  - inv H. split; [done|lia].
Qed.
End Connector.

(** * What the device answers *)

Section DeviceRuns.
Variable Decrypt : bytes -> option bytes.
Variable Authorize : option (bytes -> option bytes).
Variable own_code : bytes.
Abbreviation conn_step := (conn_step Decrypt Authorize own_code).
Abbreviation proven := (proven Decrypt Authorize own_code).

Definition frames (c : Connection) : list bytes := omap (fun x => match x with inl f => Some f | inr _ => None end) (conn_log c).
Definition teardowns (c : Connection) : nat := length (omap (fun x => match x with inl _ => None | inr n => Some n end) (conn_log c)).

Record conn_inv (c : Connection) : Prop := {
  inv_nonce : forall n, conn_nonce c = Some n -> exists sdp enc, proven sdp enc n;
  inv_frames : forall f, f ∈ frames c -> exists sdp enc n, proven sdp enc n /\ f = buildVerifyNonceHashFrame n;
  inv_set : onClose c = true -> onCloseSet c = true;
  inv_teardown : (teardowns c <= (if conn_closed c && onCloseSet c then 1 else 0))%nat
}.

#[local] Opaque buildVerifyNonceHashFrame.

Lemma fireClose_inv c : conn_inv c -> conn_inv (fireClose c) /\ frames (fireClose c) = frames c /\ verifyFailed (fireClose c) = verifyFailed c.
Proof.
  intros [H1 H2 H3 H4]. unfold fireClose. destruct (conn_closed c) eqn:Ec; [split; [split; rewrite ?Ec; done|done]|]. cbn in H4. cbn [onClose upd].
  destruct (onClose c) eqn:Eo; (split; [|done]); split; cbn; try done.
  - unfold teardowns in *. cbn. rewrite H3 by done. cbn. lia.
  - unfold teardowns in *. cbn. lia.
Qed.

Lemma conn_step_inv c c' :
  conn_step c c' -> conn_inv c ->
  conn_inv c' /\ (verifyFailed c = true -> verifyFailed c' = true /\ frames c' = frames c).
Proof.
  intros Hs Hi. destruct Hs as [ok sdp enc c|sends c|fn c|c].
  - destruct (HandleAnswer_spec Decrypt Authorize own_code ok sdp enc c) as (Hl & Hv & Hn & Hc & Ho & Hset).
    destruct Hi as [H1 H2 H3 H4]. unfold frames, teardowns in *. rewrite Hl. split; [|by auto].
    split; unfold frames, teardowns; rewrite ?Hl, ?Hc, ?Ho, ?Hset; try done.
    intros n Hn'. destruct Hn as [Hn|(m & Hm & Hp)]; [by apply H1; rewrite <- Hn|].
    exists sdp, enc. congruence.
  - unfold handleRequestOnOpen. destruct (verifyFailed c) eqn:Ev.
    + destruct (fireClose_inv c Hi) as (H1 & H2 & H3). split; [done|]. intros _. by rewrite H3.
    + destruct (conn_nonce c) as [nonce|] eqn:En; [|split; [by apply fireClose_inv|done]].
      destruct sends; [|split; [by apply fireClose_inv|done]]. split; [|done]. destruct Hi as [H1 H2 H3 H4].
      pose proof (H1 nonce En) as (sdp & enc & Hp). split; [exact H1| |exact H3|exact H4].
      intros f [->|Hf]%elem_of_cons; [by exists sdp, enc, nonce|by apply H2].
  - unfold SetOnClose. destruct (onCloseSet c) eqn:Es; [by split|]. destruct Hi as [H1 H2 H3 H4].
    rewrite Es, andb_false_r in H4. cbn [conn_closed upd]. destruct (conn_closed c) eqn:Ec; cbn [negb].
    + destruct fn; (split; [|done]); split; cbn; rewrite ?Ec; try done; unfold teardowns in *; cbn; lia.
    + split; [|done]. split; cbn; rewrite ?Ec; try done.
  - destruct (fireClose_inv c Hi) as (H1 & H2 & H3). split; [done|]. by rewrite H3.
Qed.

(** C4: The device proves itself only to a connector that proved itself. In whatever order answers,
    openings of the channel and teardowns come, and however often, the nonce reply goes out only
    for an answer whose payload decrypts with the device's key, carries an authorized code, and
    names the very fingerprint of the description it came with; after one failed answer none goes
    out any more; and the teardown callback runs at most once. *)
Theorem verify_reply_earned c c' :
  steps conn_step NewConnection c -> steps conn_step c c' ->
  (forall f, f ∈ frames c -> exists sdp enc n, proven sdp enc n /\ f = buildVerifyNonceHashFrame n) /\
  (verifyFailed c = true -> frames c' = frames c) /\
  (teardowns c <= 1)%nat.
Proof.
  intros Hr Hs.
  assert (conn_inv c) as Hi.
  { refine (steps_invariant _ conn_inv _ _ _ Hr _); [intros a b Ha Hab; by apply (conn_step_inv a b)|].
    split; try done. intros f Hf. by apply elem_of_nil in Hf. }
  split; [apply Hi|]. split.
  - intros Hv. refine (proj2 (proj2 (steps_invariant _
      (fun x => conn_inv x /\ verifyFailed x = true /\ frames x = frames c) _ _ _ Hs _))); [|done].
    intros a b (Ha & Hav & Haf) Hab. destruct (conn_step_inv a b Hab Ha) as [Hb H]. destruct (H Hav) as [? Hf].
    split; [done|]. split; [done|]. by rewrite Hf.
  - pose proof (inv_teardown _ Hi). destruct (_ && _); lia.
Qed.

(** * Both ends together *)

Lemma span_all f s : Forall (fun c => f c = true) (span f s).1.
Proof. induction s as [|c s IH]; cbn; [constructor|]. destruct (f c) eqn:E; [|constructor]. destruct (span f s); by constructor. Qed.

Lemma re_hex_plain c : re_hex c = true -> plain_char (upper c).
Proof.
  intros H. apply (bool_decide_unpack _). revert H. destruct c as [[] [] [] [] [] [] [] []]; vm_compute; done.
Qed.

Lemma fingerprintLine_hex line g : fingerprintLine line = Some g -> Forall (fun c => re_hex c = true) g.
Proof.
  unfold fingerprintLine. generalize $"a=fingerprint:sha-256". intros lit.
  destruct (fold_literal lit line) as [r|]; [|intros [=]]. cbn [mbind option_bind].
  destruct (span re_space r) as [b r1]. pose proof (span_all re_hex r1) as Hs.
  destruct (span re_hex r1) as [g' r2]. cbn [fst] in Hs. case_bool_decide; intros [= <-]. exact Hs.
Qed.

Lemma first_fingerprint_plain lines : plain (first_fingerprint lines).
Proof.
  induction lines as [|line l IH]; [constructor|]. cbn [first_fingerprint].
  pose proof (fingerprintLine_hex (trim_right (chr 13) line)) as H.
  destruct (fingerprintLine _) as [g|]; [|exact IH]. specialize (H g eq_refl).
  unfold plain, ToUpper. apply Forall_fmap. eapply Forall_impl; [exact H|]. intros c. apply re_hex_plain.
Qed.

Lemma ExtractFingerprint_plain sdp : plain (ExtractFingerprint sdp).
Proof. apply first_fingerprint_plain. Qed.

#[local] Opaque Sum256.
#[local] Transparent buildVerifyNonceHashFrame.

Lemma verifyPayload_fields fp nonce code :
  plain fp -> plain code ->
  unmarshal_field $"fingerprint" (verifyPayload fp nonce code) = (fp, true) /\
  unmarshal_field $"nonce" (verifyPayload fp nonce code) = (encode64 nonce, true) /\
  unmarshal_field $"code" (verifyPayload fp nonce code) = (code, true).
Proof.
  intros Hf Hc. unfold verifyPayload. pose proof (encode64_plain nonce) as Hn.
  revert Hn. generalize (encode64 nonce). intros e Hn.
  rewrite !unmarshal_flat by (apply Forall_app; split; [flat_tac|destruct code; flat_tac]).
  destruct code; (split; [|split]); vm_compute; reflexivity.
Qed.

Lemma encode64_nonempty l : l <> [] -> encode64 l <> [].
Proof. destruct l as [|a [|b [|c l]]]; [congruence| | |]; intros _ H; discriminate H. Qed.

Lemma zlen_nonceHash nonce : zlen (nonceHash nonce) = 44.
Proof.
  unfold nonceHash. pose proof (length_Sum256 nonce) as H. generalize dependent (Sum256 nonce). intros l Hl.
  do 32 (destruct l as [|? l]; [done|]). destruct l; [|done]. reflexivity.
Qed.

Definition hash_payload (h : bytes) : bytes := print_json (JObject (flat [($"type", $"verify_nonce_hash"); ($"hash", h)])).

Lemma hash_payload_small h : plain h -> zlen h = 44 -> zlen (hash_payload h) < 2 ^ 16.
Proof.
  intros Hp Hl. unfold hash_payload. rewrite print_object. cbn [flat map]. unfold print_member. cbn [fst snd print_json].
  rewrite !print_plain by (assumption || (apply plain_lit; vm_compute; reflexivity)).
  cbn [join]. repeat (rewrite ?zlen_app, ?zlen_cons). rewrite Hl. vm_compute. reflexivity.
Qed.

Lemma hash_payload_fields h :
  plain h ->
  unmarshal_field $"type" (hash_payload h) = ($"verify_nonce_hash", true) /\
  unmarshal_field $"hash" (hash_payload h) = (h, true).
Proof. intros Hp. unfold hash_payload. rewrite !unmarshal_flat by flat_tac. split; vm_compute; reflexivity. Qed.

Lemma parse_control payload :
  zlen payload < 2 ^ 16 -> ParseFrame (BuildFrame 0 FlagSYN payload) = Ok (mkFrame 0 FlagSYN payload).
Proof.
  intros Hs. pose proof (ParseFrame_BuildFrame (mkFrame 0 FlagSYN payload) ltac:(cbn; lia) ltac:(cbn; unfold FlagSYN; lia)) as Hf.
  cbn [StreamID Flags Payload] in Hf. rewrite Hf. by rewrite (proj2 (Z.ltb_lt _ _) Hs).
Qed.

Lemma verify_frame_verifies_gen nonce h :
  plain h -> zlen h = 44 -> nonceHash nonce = h -> verifies nonce (BuildFrame 0 FlagSYN (hash_payload h)) = Ok tt.
Proof.
  intros Hp Hl Hh. unfold verifies. rewrite (parse_control _ (hash_payload_small h Hp Hl)).
  destruct (hash_payload_fields h Hp) as [H1 H2].
  change (negb (0 =? 0) || negb (IsSYN (mkFrame 0 FlagSYN (hash_payload h)))) with false. cbv iota. cbn [Payload StreamID].
  rewrite H1, H2, Hh. rewrite !bool_decide_true by reflexivity. reflexivity.
Qed.

Lemma verify_frame_verifies nonce : verifies nonce (buildVerifyNonceHashFrame nonce) = Ok tt.
Proof.
  exact (verify_frame_verifies_gen nonce (nonceHash nonce) (encode64_plain (Sum256 nonce)) (zlen_nonceHash nonce) eq_refl).
Qed.

#[local] Opaque buildVerifyNonceHashFrame.

(** Two honest ends verify each other. Given an encryption the device's key undoes, the payload the
    connector builds from its own description, its nonce and its code is accepted by the device
    that receives that description, provided the code is authorized, and the frame the device then
    sends on opening is one the connector accepts as the proof. *)
Theorem verification_completes (Encrypt : bytes -> option bytes) sdp nonce code enc :
  (forall p ct, Encrypt p = Some ct -> Decrypt ct = Some p /\ ct <> []) ->
  ExtractFingerprint sdp <> [] -> plain code -> is_Some (authorized Authorize own_code code) ->
  encryptVerifyPayload Encrypt (ExtractFingerprint sdp) nonce code = Some enc ->
  let r := HandleAnswer Decrypt Authorize own_code true sdp enc NewConnection in
  r.2 = Ok tt /\
  frames (handleRequestOnOpen true r.1) = [buildVerifyNonceHashFrame nonce] /\
  verifies nonce (buildVerifyNonceHashFrame nonce) = Ok tt.
Proof.
  intros Henc Hfp Hc [access Ha] He r. unfold encryptVerifyPayload in He. apply fmap_Some in He as (ct & Hct & ->).
  destruct (Henc _ _ Hct) as [Hd Hne].
  destruct (verifyPayload_fields (ExtractFingerprint sdp) nonce code (ExtractFingerprint_plain sdp) Hc) as (F1 & F2 & F3).
  pose proof (encode64_nonempty ct Hne) as Hne'.
  assert (exists c1, r = (c1 <| conn_nonce := Some nonce |>, Ok tt) /\ conn_log c1 = [] /\ verifyFailed c1 = false) as (c1 & Hr & Hl & Hv).
  { subst r. unfold HandleAnswer. cbn [negb]. destruct (encode64 ct) as [|e l] eqn:Ee; [done|]. rewrite <- Ee.
    rewrite decode64_encode64, Hd, F1, F2, F3. cbn [andb negb]. rewrite Ha, decode64_encode64.
    rewrite bool_decide_false by done. unfold FingerprintsEqual. rewrite bool_decide_true by done. cbn [negb].
    destruct access; (eexists; split; [reflexivity|split; reflexivity]). }
  rewrite Hr. cbn [fst snd]. split; [done|]. split; [|apply verify_frame_verifies].
  unfold handleRequestOnOpen. cbn [verifyFailed upd conn_nonce]. rewrite Hv. unfold frames. cbn. by rewrite Hl.
Qed.
End DeviceRuns.

(** * Concrete runs *)

Definition demo_sdp : bytes := $"v=0" ++ [chr 13; chr 10] ++ $"a=Fingerprint:SHA-256 ab:cd:01" ++ [chr 13; chr 10].
Definition demo_nonce : bytes := $"sixteen byte nce".
(** A cipher that prefixes a byte. *)
Definition demo_encrypt (p : bytes) : option bytes := Some (chr 1 :: p).
Definition demo_decrypt (c : bytes) : option bytes := match c with _ :: p => Some p | [] => None end.
Definition demo_enc : bytes := default [] (encryptVerifyPayload demo_encrypt (ExtractFingerprint demo_sdp) demo_nonce $"swordfish").

Definition control (members : list (bytes * json)) : bytes := BuildFrame 0 FlagSYN (print_json (JObject members)).
Definition ready_frame : bytes :=
  control [($"type", JString $"ready"); ($"server_version", JInt 3); ($"caps", JArray [JString $"proxy"])].
Definition auth_required_frame : bytes := control [($"type", JString $"auth_required")].
Definition auth_failed_frame : bytes := control [($"type", JString $"auth_result"); ($"success", JBool false)].
Definition auth_passed_frame : bytes := control [($"type", JString $"auth_result"); ($"success", JBool true)].
Definition demo_prompt (retry : nat) : option bytes := Some (if decide (retry = 0)%nat then $"0000" else $"1234").

(** A device that asks for a PIN, refuses the first and takes the second. *)
Definition demo_ws : list waited :=
  [Buffered (Some (buildVerifyNonceHashFrame demo_nonce)); Arrived (Some auth_required_frame);
   Arrived (Some auth_failed_frame); Arrived (Some auth_passed_frame); Arrived (Some ready_frame)].
Definition demo_run := handshake demo_nonce (fun _ => true) (Some demo_prompt) $"/files" (Some [$"proxy"]) demo_ws.

Example demo_run_runs :
  demo_run = (mkClient [$"proxy"] 3 3 [] [connectMsg $"/files" (Some [$"proxy"]); authMsg $"0000"; authMsg $"1234"] 2, Ok tt).
Proof. vm_compute. reflexivity. Qed.

Lemma nothing_sent_unverified_witness :
  sent demo_run.1 <> [] /\
  exists msg f, hd_error demo_ws = Some (Buffered (Some msg)) /\ ParseFrame msg = Ok f /\
    unmarshal_field $"hash" (Payload f) = (encode64 (Sum256 demo_nonce), true).
Proof.
  assert (sent demo_run.1 <> []) as Hs by (vm_compute; discriminate). split; [exact Hs|].
  destruct (nothing_sent_unverified demo_nonce (fun _ => true) (Some demo_prompt) $"/files" (Some [$"proxy"]) demo_ws demo_run.1 demo_run.2
    (surjective_pairing _) Hs) as (msg & ws' & f & [E|E] & Hf & _ & _ & _ & Hh & _); [|discriminate E].
  exists msg, f. split; [|split; [exact Hf|exact Hh]]. rewrite E. reflexivity.
Defined.

Lemma handshake_outcome_witness :
  asks demo_ws = 1%nat /\ pins demo_run.1 = 2%nat /\
  ((demo_run.2 = Ok tt -> 2 <= NegotiatedVersion demo_run.1 <= SWSPVersion /\
     NegotiatedVersion demo_run.1 <= NegotiateSWSPVersion (ServerVersion demo_run.1)) /\
   (pins demo_run.1 <= 3 + asks demo_ws)%nat).
Proof.
  split; [vm_compute; reflexivity|]. split; [vm_compute; reflexivity|].
  exact (handshake_outcome demo_nonce (fun _ => true) (Some demo_prompt) $"/files" (Some [$"proxy"]) demo_ws demo_run.1 demo_run.2
    (surjective_pairing _)).
Defined.

(** The demo's device: one good answer, the channel opens, then a bad answer and a second opening. *)
Definition demo_c1 : Connection := (HandleAnswer demo_decrypt None $"swordfish" true demo_sdp demo_enc NewConnection).1.
Definition demo_c2 : Connection := handleRequestOnOpen true demo_c1.
Definition demo_c3 : Connection := (HandleAnswer demo_decrypt None $"swordfish" true demo_sdp $"!!" demo_c2).1.
Definition demo_c4 : Connection := handleRequestOnOpen true demo_c3.

Lemma verify_reply_earned_witness :
  frames demo_c3 = [buildVerifyNonceHashFrame demo_nonce] /\ verifyFailed demo_c3 = true /\ conn_closed demo_c4 = true /\
  (verifyFailed demo_c3 = true -> frames demo_c4 = frames demo_c3) /\
  (exists sdp enc n, proven demo_decrypt None $"swordfish" sdp enc n /\
     buildVerifyNonceHashFrame demo_nonce = buildVerifyNonceHashFrame n).
Proof.
  assert (frames demo_c3 = [buildVerifyNonceHashFrame demo_nonce]) as Hf by (vm_compute; reflexivity).
  assert (steps (conn_step demo_decrypt None $"swordfish") NewConnection demo_c3) as H1.
  { refine (steps_trans _ _ _ _ (steps_one _ _ _ (step_answer _ _ _ true demo_sdp demo_enc NewConnection)) _).
    refine (steps_trans _ _ _ _ (steps_one _ _ _ (step_open _ _ _ true demo_c1)) _).
    exact (steps_one _ _ _ (step_answer demo_decrypt None $"swordfish" true demo_sdp $"!!" demo_c2)). }
  destruct (verify_reply_earned demo_decrypt None $"swordfish" demo_c3 demo_c4 H1 (steps_one _ _ _ (step_open _ _ _ true demo_c3)))
    as (E1 & E2 & _).
  split; [exact Hf|]. split; [vm_compute; reflexivity|]. split; [vm_compute; reflexivity|]. split; [exact E2|].
  apply E1. rewrite Hf. apply list_elem_of_singleton. reflexivity.
Defined.

Lemma verification_completes_witness :
  (HandleAnswer demo_decrypt None $"swordfish" true demo_sdp demo_enc NewConnection).2 = Ok tt /\
  frames (handleRequestOnOpen true (HandleAnswer demo_decrypt None $"swordfish" true demo_sdp demo_enc NewConnection).1) =
    [buildVerifyNonceHashFrame demo_nonce] /\
  verifies demo_nonce (buildVerifyNonceHashFrame demo_nonce) = Ok tt.
Proof.
  refine (verification_completes demo_decrypt None $"swordfish" demo_encrypt demo_sdp demo_nonce $"swordfish" demo_enc _ _ _ _ _).
  - intros p ct [= <-]. split; [reflexivity|discriminate].
  - vm_compute. discriminate.
  - apply plain_lit. vm_compute. reflexivity.
  - exists None. vm_compute. reflexivity.
  - vm_compute. reflexivity.
Defined.

(** A refused PIN that was never asked for, where the connector has no prompt, calls a nil function. *)
Lemma refusal_without_prompt :
  (handshake demo_nonce (fun _ => true) None $"/" None
    [Buffered (Some (buildVerifyNonceHashFrame demo_nonce)); Arrived (Some auth_failed_frame)]).2 = Err NilPrompt.
Proof. vm_compute. reflexivity. Qed.

(** [auth_required] starts another round without a limit: the cap of three stops refusals only. *)
Lemma auth_required_turn ws s retry :
  exists s', control_loop (fun _ => true) (Some demo_prompt) (Arrived (Some auth_required_frame) :: ws) s retry =
    control_loop (fun _ => true) (Some demo_prompt) ws s' (S retry) /\ pins s' = S (pins s).
Proof.
  cbn [control_loop recvControl].
  assert (ParseFrame auth_required_frame = Ok (mkFrame 0 1 (print_json (JObject [($"type", JString $"auth_required")])))) as ->
    by (vm_compute; reflexivity).
  cbn [StreamID Payload]. change (negb (0 =? 0)) with false. cbv iota.
  change (IsSYN (mkFrame 0 1 (print_json (JObject [($"type", JString $"auth_required")])))) with true. cbn [negb]. cbv iota.
  assert (control_field decode_string [] $"type" (print_json (JObject [($"type", JString $"auth_required")])) = $"auth_required") as ->
    by (vm_compute; reflexivity).
  rewrite bool_decide_false by (vm_compute; discriminate). rewrite bool_decide_true by reflexivity.
  unfold try_pin, sendControl, demo_prompt at 1. eexists. split; reflexivity.
Qed.

Lemma auth_required_is_unbounded n :
  pins (handshake demo_nonce (fun _ => true) (Some demo_prompt) $"/" None
    (Buffered (Some (buildVerifyNonceHashFrame demo_nonce)) :: repeat (Arrived (Some auth_required_frame)) n)).1 = n.
Proof.
  assert (forall s retry, pins (control_loop (fun _ => true) (Some demo_prompt) (repeat (Arrived (Some auth_required_frame)) n) s retry).1
    = (pins s + n)%nat) as Hl.
  { induction n as [|n IH]; intros s retry; [cbn; lia|]. cbn [repeat].
    destruct (auth_required_turn (repeat (Arrived (Some auth_required_frame)) n) s retry) as (s' & -> & Hp). rewrite IH, Hp. lia. }
  unfold handshake, result_bind. cbn [recvControl]. rewrite verify_frame_verifies.
  unfold sendControl. rewrite Hl. reflexivity.
Qed.
