(* ===== verification/ClientSession.v ===== *)
(** The connector's session once its handshake is done (internal/client/session.go): the stream table,
    the dispatcher of inbound frames, the delivery workers, the writers, failures and resets.

    Streams live in a store ([objs], indexed by allocation) and [table] maps a stream ID to its object.
    The dispatcher looks a frame's stream up and enqueues the frame in two sections, with the frame it
    holds in between in [dispatching]. A goroutine the code starts is a [task], and so is what a goroutine
    still has to do once it has left the session's lock ([Fail], [Settle], [Abandon]): until then it is [busy].
    [workers] holds where each [deliverStream] is, [writers] who holds each stream's [writeMu]. [log] is
    what is observable. *)

From S2P Require Import Prelude Protocol FlowControl ClientStream Json.

Inductive output :=
| Received (data : bytes)
| Routed (ref : nat) (f : Frame)                  (* the dispatcher found the stream of a frame *)
| Delivered (ref : nat) (f : Frame)               (* the caller took a frame off the inbox *)
| Sent (owner : option nat) (sid flags : Z) (payload : bytes)
| DCClose.

(** Who runs [failStream] or [detachFinishedStream]. *)
Inductive actor := Dispatcher | Worker (ref : nat) | Writer (ref : nat) | Caller.

#[export] Instance client_actor_eq_dec : EqDecision actor.
Proof. solve_decision. Defined.

Inductive task :=
| Write (ref : nat) (flags : Z) (payload : bytes) (* a writer that resolved its stream, before [writeMu] *)
| Fail (who : actor) (ref : nat) (err : client_error) (reset : option (bytes * bytes)) (* past [detachStream], before [stream.fail] *)
| Settle (who : actor) (ref : nat)                (* the end of a direction is noted, before [detachFinishedStream] *)
| Reset (ref : nat) (code message : bytes)        (* the goroutine of [failStream] *)
| Finish                                          (* [finishStreams] past [markClosed] *)
| Abandon (ref : nat).                            (* its loop, at a stream it took out of the table *)

(** Where [deliverStream] is: in its select, handing a frame to the caller, past that and before the
    accounting, about to send a window update, past its stream's FIN. No entry: it returned. *)
Inductive delivering := WIdle | WHanding (f : Frame) | WCharging (f : Frame) | WOwing (max : Z) | WEnding.

(** A writer holding [writeMu]: its frame, and whether its credit is reserved. *)
Record writer := mkWriter { w_flags : Z; w_payload : bytes; w_reserved : bool }.

Record Session := mkSession {
  NegotiatedVersion : Z;
  nextStreamID : Z;
  table : gmap Z nat;
  objs : list stream;
  sclosed : bool;
  dc_open : bool;
  dispatching : option (nat * Frame);
  workers : gmap nat delivering;
  writers : gmap nat writer;
  tasks : list task;
  log : list output
}.

#[export] Instance eta_Session : Eta Session := fun s =>
  mkSession (NegotiatedVersion s) (nextStreamID s) (table s) (objs s) (sclosed s) (dc_open s)
    (dispatching s) (workers s) (writers s) (tasks s) (log s).

Definition newSession (version : Z) : Session := mkSession version 1 ∅ [] false true None ∅ ∅ [] [].

Definition emit (o : output) (s : Session) : Session := s <| log := log s ++ [o] |>.
Definition spawn (t : task) (s : Session) : Session := s <| tasks := tasks s ++ [t] |>.
Definition put (s : Session) (ref : nat) (st : stream) : Session := s <| objs := <[ref := st]> (objs s) |>.
Definition set_worker (s : Session) (ref : nat) (w : delivering) : Session := s <| workers := <[ref := w]> (workers s) |>.
Definition busy (who : actor) (s : Session) : bool :=
  existsb (fun t => match t with Fail w _ _ _ | Settle w _ => bool_decide (w = who) | _ => false end) (tasks s).
Definition unlock (s : Session) (ref : nat) : Session := s <| writers := delete ref (writers s) |>.

Definition flowControlEnabled (s : Session) : bool := NegotiatedVersion s >=? 4.

Definition error_text (e : client_error) : string :=
  match e with
  | errStreamQueueFull => "stream receive queue full"
  | errReceiveWindowExceeded => "stream receive window exceeded"
  | errStreamClosed => "stream closed"
  | errStreamFinished => "stream direction already finished"
  | errStreamNotStarted => "stream has not sent SYN"
  | errDataChannelClosed => "data channel closed"
  | errMessage m => m
  end.

Definition text (s : string) : bytes := String.list_ascii_of_string s.

Section Environment.
(** Whether the data channel takes a frame, given everything so far, and the text of a decoding error. *)
Variable send_error : list output -> option string.
Variable unmarshal_error : bytes -> string.

(** * Sending *)

Definition sendRawFrame (s : Session) (owner : option nat) (sid flags : Z) (payload : bytes) :
    Session * option string :=
  match ValidateFramePayload payload with
  | Err _ => (s, Some "frame payload too large"%string)
  | Ok _ =>
    if sclosed s || negb (dc_open s) then (s, Some "data channel closed"%string)
    else let s' := emit (Sent owner sid flags payload) s in (s', send_error (log s'))
  end.

Definition sendControlSYN (s : Session) (owner : option nat) (payload : bytes) : Session * option string :=
  sendRawFrame s owner 0 FlagSYN payload.

Definition sendWindowUpdate (s : Session) (sid max : Z) : Session * option string :=
  sendControlSYN s None (print_json (window_update_json sid max)).

Definition sendStreamReset (s : Session) (owner : option nat) (sid : Z) (code message : bytes) : Session * option string :=
  sendControlSYN s owner (print_json (reset_json sid code message)).

(** * The stream table *)

Definition findStream (s : Session) (sid : Z) : option nat := table s !! sid.

(** [detachStream]: whether the entry was there, and the table without it. *)
Definition detachStream (s : Session) (ref : nat) (st : stream) : Session * bool :=
  if decide (table s !! id st = Some ref) then (s <| table := delete (id st) (table s) |>, true) else (s, false).

Definition detachFinishedStream (s : Session) (ref : nat) : Session :=
  match objs s !! ref with
  | Some st => if inboundDelivered st && outboundFIN st then (detachStream s ref st).1 else s
  | None => s
  end.

(** [failStream] as far as the table. *)
Definition failStream (s : Session) (who : actor) (ref : nat) (code message : bytes) (notifyPeer : bool) : Session :=
  match objs s !! ref with
  | None => s
  | Some st =>
    let '(s1, removed) := detachStream s ref st in
    if negb removed then s1 else
    spawn (Fail who ref (errMessage (String.string_of_list_ascii message)) (if notifyPeer then Some (code, message) else None)) s1
  end.

(** The rest: the stream fails, and the goroutine of its reset starts. *)
Definition fail_detached (s : Session) (ref : nat) (err : client_error) (reset : option (bytes * bytes)) : Session :=
  match objs s !! ref with
  | None => s
  | Some st =>
    let s1 := put s ref (fail st err) in
    match reset with Some (code, message) => spawn (Reset ref code message) s1 | None => s1 end
  end.

Definition OpenStream (s : Session) : Session * nat :=
  let sid := nextStreamID s in
  let ref := length (objs s) in
  let s1 := s <| nextStreamID := u32 (sid + 2) |> in
  let st := newStream sid in
  if sclosed s1 then
    (s1 <| objs := objs s ++ [(fail st errDataChannelClosed) <| inbox_closed := true |>] |>, ref)
  else
    (set_worker (s1 <| objs := objs s ++ [st] |> <| table := <[sid := ref]> (table s) |>) ref WIdle, ref).

(** * The end of the session *)

Definition markClosed (s : Session) : Session := s <| sclosed := true |>.

Definition abandon (st : stream) : stream := st <| abandoned := true |>.

(** The streams are taken out of the table, to be abandoned one by one. *)
Definition abandon_listed (s : Session) : Session :=
  s <| table := ∅ |> <| tasks := tasks s ++ map Abandon (map_to_list (table s)).*2 |>.

Definition finishStreams (s : Session) : Session := spawn Finish (markClosed s).

Definition Close (s : Session) : Session := emit DCClose (finishStreams s <| dc_open := false |>).

(** * The dispatcher *)

Definition resetMalformedControl (s : Session) (payload : bytes) (j : json) : Session :=
  let '(sid, ok) := field (decode_uint 32) 0 $"stream_id" j in
  if negb ok || (sid =? 0) then s else
  match findStream s sid with
  | Some ref => failStream s Dispatcher ref $"invalid_control" (text (unmarshal_error payload)) true
  | None => s
  end.

Definition applyWindowUpdate (s : Session) (u : WindowUpdate) : Session :=
  match findStream s (wu_StreamID u) with
  | None => s
  | Some ref =>
    if (wu_StreamID u =? 0) || (wu_MaxBytes u =? 0)
    then failStream s Dispatcher ref $"invalid_control" $"invalid stream window update" true
    else match objs s !! ref with
         | Some st => put s ref (updateSendLimit st (wu_MaxBytes u))
         | None => s
         end
  end.

Definition reset_message (code message : bytes) : bytes :=
  match message with
  | [] => match code with [] => $"stream reset by peer" | _ => code end
  | _ => message
  end.

Definition handleControl (s : Session) (f : Frame) : Session :=
  if negb (IsSYN f) then s else
  match parse_json (Payload f) with
  | None => s
  | Some j =>
    let '(type, ok) := field decode_string [] $"type" j in
    if negb ok then s
    else if decide (type = $"window_update") then
      let '(u, ok) := decode_window_update j in
      if ok then applyWindowUpdate s u else resetMalformedControl s (Payload f) j
    else if decide (type = $"error") then finishStreams s
    else if decide (type = $"stream_reset") then
      let '(sid, ok1) := field (decode_uint 32) 0 $"stream_id" j in
      let '(code, ok2) := field decode_string [] $"code" j in
      let '(message, ok3) := field decode_string [] $"message" j in
      if ok1 && ok2 && ok3 then
        match findStream s sid with
        | Some ref => failStream s Dispatcher ref code (reset_message code message) false
        | None => s
        end
      else resetMalformedControl s (Payload f) j
    else s
  end.

(** One message as far as the lookup of its stream. *)
Definition dispatch (s : Session) (data : bytes) : Session :=
  match ParseFrame data with
  | Err _ => s
  | Ok f =>
    if StreamID f =? 0 then (if flowControlEnabled s then handleControl s f else s)
    else match findStream s (StreamID f) with
         | None => s
         | Some ref => emit (Routed ref f) (s <| dispatching := Some (ref, f) |>)
         end
  end.

Definition refusal_code (e : client_error) : bytes :=
  match e with
  | errReceiveWindowExceeded => $"flow_control_violation"
  | errStreamFinished | errStreamNotStarted => $"protocol_error"
  | _ => $"receive_overflow"
  end.

(** The rest: the frame is queued, or its stream fails. *)
Definition dispatch_enqueue (pick : bool) (s : Session) : option Session :=
  match dispatching s with
  | None => None
  | Some (ref, f) =>
    match objs s !! ref with
    | None => None
    | Some st =>
      let '(st', err) := enqueue pick st f (flowControlEnabled s) in
      let s1 := put (s <| dispatching := None |>) ref st' in
      Some match err with
           | None | Some errStreamClosed => s1
           | Some e => failStream s1 Dispatcher ref (refusal_code e) (text (error_text e)) true
           end
    end
  end.

(** * Delivery workers *)

(** [deliverStream] returns: the inbox is closed. *)
Definition leave (s : Session) (ref : nat) (st : stream) : Session :=
  (put s ref (st <| inbox_closed := true |>)) <| workers := delete ref (workers s) |>.

(** What a goroutine does next, once it is done with a stream it failed or settled. *)
Definition resume (s : Session) (who : actor) : Session :=
  match who with
  | Worker ref =>
    match workers s !! ref, objs s !! ref with
    | Some (WOwing _), Some st | Some WEnding, Some st => leave s ref st
    | _, _ => s
    end
  | Writer ref => unlock s ref
  | Dispatcher | Caller => s
  end.

Definition worker_take (s : Session) (ref : nat) : option Session :=
  match workers s !! ref, objs s !! ref with
  | Some WIdle, Some st =>
    match pending st with
    | f :: q => Some (set_worker (put s ref (st <| pending := q |>)) ref (WHanding f))
    | [] => None
    end
  | _, _ => None
  end.

Definition worker_hand (s : Session) (ref : nat) : option Session :=
  match workers s !! ref with
  | Some (WHanding f) => Some (emit (Delivered ref f) (set_worker s ref (WCharging f)))
  | _ => None
  end.

Definition worker_charge (s : Session) (ref : nat) : option Session :=
  match workers s !! ref, objs s !! ref with
  | Some (WCharging f), Some st =>
    let '(st1, update) := consume st f (flowControlEnabled s) in
    if IsFIN f then Some (spawn (Settle (Worker ref) ref) (set_worker (put s ref (st1 <| inboundDelivered := true |>)) ref WEnding))
    else Some (set_worker (put s ref st1) ref (match update with Some max => WOwing max | None => WIdle end))
  | _, _ => None
  end.

Definition worker_update (s : Session) (ref : nat) : option Session :=
  if busy (Worker ref) s then None else
  match workers s !! ref, objs s !! ref with
  | Some (WOwing max), Some st =>
    let '(s1, err) := sendWindowUpdate s (id st) max in
    match err with
    | Some e => let s2 := failStream s1 (Worker ref) ref $"control_send_failed" (text e) false in
                Some (if busy (Worker ref) s2 then s2 else resume s2 (Worker ref))
    | None => Some (set_worker s1 ref WIdle)
    end
  | _, _ => None
  end.

(** Its early returns, once the stream is abandoned or the session done. *)
Definition worker_quit (s : Session) (ref : nat) : option Session :=
  match workers s !! ref, objs s !! ref with
  | Some WIdle, Some st => if abandoned st || sclosed s then Some (leave s ref st) else None
  | Some (WHanding f), Some st => if abandoned st || sclosed s then Some (leave s ref (release st f)) else None
  | _, _ => None
  end.

(** * Writers *)

(** [sendFrame] on a stream as far as [writeMu]. *)
Definition sendFrame (s : Session) (sid flags : Z) (payload : bytes) : Session :=
  match ValidateFramePayload payload with
  | Err _ => s
  | Ok _ => match findStream s sid with Some ref => spawn (Write ref flags payload) s | None => s end
  end.

(** Past the lock: the checks, and the initial window for a SYN. *)
Definition write_start (s : Session) (ref : nat) (flags : Z) (payload : bytes) : option Session :=
  match writers s !! ref, objs s !! ref with
  | None, Some st =>
    let f := mkFrame (id st) flags payload in
    Some (
      if outboundFIN st then s
      else if negb (flowControlEnabled s) then s <| writers := <[ref := mkWriter flags payload true]> (writers s) |>
      else if negb (IsSYN f) && negb (initialWindowActive st) then s
      else
        let s1 := if IsSYN f then put s ref (activateInitialWindow st) else s in
        s1 <| writers := <[ref := mkWriter flags payload false]> (writers s1) |>)
  | _, _ => None
  end.

(** One pass of the reservation loop. [None]: the writer keeps waiting. *)
Definition write_reserve (s : Session) (ref : nat) : option Session :=
  match writers s !! ref, objs s !! ref with
  | Some w, Some st =>
    if w_reserved w then None else
    match reserveSend st (FlowBytes (mkFrame (id st) (w_flags w) (w_payload w))) with
    | (st', Reserved) =>
      Some (put (s <| writers := <[ref := mkWriter (w_flags w) (w_payload w) true]> (writers s) |>) ref st')
    | (_, ReserveFailed _) => Some (unlock s ref)
    | (_, Wait _) => if abandoned st || sclosed s then Some (unlock s ref) else None
    end
  | _, _ => None
  end.

Definition write_send (s : Session) (ref : nat) : option Session :=
  if busy (Writer ref) s then None else
  match writers s !! ref, objs s !! ref with
  | Some w, Some st =>
    if negb (w_reserved w) then None else
    let f := mkFrame (id st) (w_flags w) (w_payload w) in
    let '(s1, err) := sendRawFrame s (Some ref) (id st) (w_flags w) (w_payload w) in
    let s2 := match err with
              | Some e => if flowControlEnabled s && IsSYN f then failStream s1 (Writer ref) ref $"send_error" (text e) false else s1
              | None => if IsFIN f then spawn (Settle (Writer ref) ref) (put s1 ref (st <| outboundFIN := true |>)) else s1
              end in
    Some (if busy (Writer ref) s2 then s2 else unlock s2 ref)
  | _, _ => None
  end.

(** [Stream.Close] *)
Definition CloseStream (s : Session) (ref : nat) : Session :=
  match objs s !! ref with
  | None => s
  | Some st =>
    if flowControlEnabled s || negb (outboundFIN st) then failStream s Caller ref $"cancelled" $"stream closed" true
    else let '(s1, removed) := detachStream s ref st in
         if removed then spawn (Fail Caller ref errStreamClosed None) s1 else s1
  end.

Definition run_task (s : Session) (t : task) : option Session :=
  match t with
  | Write ref flags payload => write_start s ref flags payload
  | Fail who ref err reset => Some (resume (fail_detached s ref err reset) who)
  | Settle who ref => Some (resume (detachFinishedStream s ref) who)
  | Reset ref code message =>
    match writers s !! ref, objs s !! ref with
    | None, Some st =>
      Some (if flowControlEnabled s then (sendStreamReset s (Some ref) (id st) code message).1
            else (sendRawFrame s (Some ref) (id st) FlagFIN []).1)
    | _, _ => None
    end
  | Finish => Some (abandon_listed s)
  | Abandon ref => match objs s !! ref with Some st => Some (put s ref (abandon st)) | None => None end
  end.

(** * Steps *)

Inductive session_step : Session -> Session -> Prop :=
| ss_message s data : dispatching s = None -> busy Dispatcher s = false -> session_step s (dispatch (emit (Received data) s) data)
| ss_enqueue pick s s' : dispatch_enqueue pick s = Some s' -> session_step s s'
| ss_take s ref s' : worker_take s ref = Some s' -> session_step s s'
| ss_hand s ref s' : worker_hand s ref = Some s' -> session_step s s'
| ss_charge s ref s' : worker_charge s ref = Some s' -> session_step s s'
| ss_update s ref s' : worker_update s ref = Some s' -> session_step s s'
| ss_quit s ref s' : worker_quit s ref = Some s' -> session_step s s'
| ss_task s t l1 l2 s' :
    tasks s = l1 ++ t :: l2 -> run_task (s <| tasks := l1 ++ l2 |>) t = Some s' -> session_step s s'
| ss_write s sid flags payload : session_step s (sendFrame s sid flags payload)
| ss_reserve s ref s' : write_reserve s ref = Some s' -> session_step s s'
| ss_send s ref s' : write_send s ref = Some s' -> session_step s s'
| ss_open s : session_step s (OpenStream s).1
| ss_close_stream s ref : session_step s (CloseStream s ref)
| ss_gone s : session_step s (finishStreams s)
| ss_close s : session_step s (Close s)
| ss_dc_closed s : session_step s (s <| dc_open := false |>).

Definition opened_session (version : Z) (s : Session) : Prop := steps session_step (newSession version) s.
End Environment.
