(* ===== verification/ClientSessionSpec.v ===== *)
(** Correctness of the connector's session (ClientSession.v): each of its streams stays in the states of
    ClientStream.v, its table names the streams still open that nobody is about to take out, and a
    reset ends its stream on the wire. *)

From S2P Require Import Prelude Protocol FlowControl ClientStream Json ClientSession.

Definition owned_by (ref : nat) (o : output) : bool :=
  match o with Sent (Some r) _ _ _ => bool_decide (r = ref) | _ => false end.
Definition is_reset_frame (ref : nat) (o : output) : bool :=
  match o with Sent (Some r) sid _ _ => bool_decide (r = ref) && (sid =? 0) | _ => false end.
Definition is_reset_task (ref : nat) (t : task) : bool :=
  match t with Reset r _ _ => bool_decide (r = ref) | _ => false end.

Definition is_fail_task (ref : nat) (t : task) : bool :=
  match t with Fail _ r _ _ => bool_decide (r = ref) | _ => false end.
Definition is_settle_task (ref : nat) (t : task) : bool :=
  match t with Settle _ r => bool_decide (r = ref) | _ => false end.
(** A goroutine has taken the stream out of the table and is about to fail or abandon it. *)
Definition is_leaving_task (ref : nat) (t : task) : bool :=
  match t with Fail _ r _ _ | Abandon r => bool_decide (r = ref) | _ => false end.
Definition leaving (s : Session) (ref : nat) : nat := count (is_leaving_task ref) (tasks s).

(** A stream that has neither failed nor been abandoned; one that has finished in both directions; one that is
    open and has not finished. *)
Definition intact (st : stream) : bool := bool_decide (streamErr st = None) && negb (abandoned st).
Definition finished (st : stream) : bool := inboundDelivered st && outboundFIN st.
Definition live (st : stream) : bool := intact st && negb (finished st).
Definition failed_nat (objs : list stream) (ref : nat) : nat :=
  match objs !! ref with Some st => if decide (streamErr st = None) then 0 else 1 | None => 0 end.

(** Before the 32-bit counter of stream IDs wraps. *)
Definition few (s : Session) : Prop := zlen (objs s) <= 2 ^ 31.

Record table_ok (s : Session) : Prop := {
  next_id : nextStreamID s = u32 (1 + 2 * zlen (objs s));
  object_id k st : objs s !! k = Some st -> id st = u32 (1 + 2 * Z.of_nat k);
  table_live sid ref : table s !! sid = Some ref -> exists st, objs s !! ref = Some st /\ id st = sid /\ intact st = true /\
    leaving s ref = 0%nat /\ (finished st = true -> (0 < count (is_settle_task ref) (tasks s))%nat);
  live_table ref st : few s -> objs s !! ref = Some st -> live st = true -> leaving s ref = 0%nat -> table s !! id st = Some ref;
  leaving_known ref : (0 < leaving s ref)%nat -> (ref < length (objs s))%nat;
  table_closed : sclosed s = true -> table s = ∅ \/ Finish ∈ tasks s;
}.

Record resets_ok (s : Session) (ref : nat) : Prop := {
  fail_once : (count (is_fail_task ref) (tasks s) + failed_nat (objs s) ref <= 1)%nat;
  reset_once : (count (is_reset_task ref) (tasks s) + count (is_reset_frame ref) (log s) <= failed_nat (objs s) ref)%nat;
  no_writer : flowControlEnabled s = true -> (0 < count (is_reset_frame ref) (log s))%nat ->
    forall w, writers s !! ref = Some w -> w_reserved w = false;
  sealed : flowControlEnabled s = true -> Forall (fun o => owned_by ref o = false) (after (is_reset_frame ref) (log s));
}.

Definition sess_inv (s : Session) : Prop := table_ok s /\ forall ref, resets_ok s ref.

Lemma sess_inv_new v : sess_inv (newSession v).
Proof. split; [split; cbn; try done; intros; lia|]. intros ref. split; unfold failed_nat; cbn; rewrite ?lookup_nil; try done; lia. Qed.

(** The invariant reads only these fields. *)
Definition core (s : Session) :=
  (NegotiatedVersion s, nextStreamID s, table s, objs s, sclosed s, (writers s, tasks s, log s)).

Lemma client_inv_core s s' : core s' = core s -> sess_inv s -> sess_inv s'.
Proof.
  unfold core, sess_inv, few. intros [= E1 E2 E3 E4 E5 E6 E7 E8] [[T1 T2 T3 T4 T5 T6] HR]. split.
  - split; unfold few, leaving; rewrite ?E2, ?E3, ?E4, ?E5, ?E7; auto.
  - intros r. destruct (HR r) as [R0 R1 R2 R3].
    split; unfold flowControlEnabled; rewrite ?E1, ?E4, ?E6, ?E7, ?E8; auto.
Qed.

Definition same_slot (a b : stream) : Prop :=
  id b = id a /\ streamErr b = streamErr a /\ abandoned b = abandoned a /\ finished b = finished a.

Lemma same_slot_intact a b : same_slot a b -> intact b = intact a /\ live b = live a.
Proof. unfold same_slot, live, intact. by intros (_ & -> & -> & ->). Qed.

Lemma client_same_slot_trans a b c : same_slot a b -> same_slot b c -> same_slot a c.
Proof. unfold same_slot. intuition congruence. Qed.

Lemma odd_id_inj j k : 0 <= j < 2 ^ 31 -> 0 <= k < 2 ^ 31 -> u32 (1 + 2 * j) = u32 (1 + 2 * k) -> j = k.
Proof. intros Hj Hk. unfold u32. rewrite !wrap_small by lia. lia. Qed.

Lemma odd_id_nonzero k : u32 (1 + 2 * k) <> 0.
Proof.
  unfold u32, wrap. intros H. apply Z.mod_divide in H; [|done]. destruct H as [q Hq].
  change (2 ^ 32) with (2 * 2 ^ 31) in Hq. lia.
Qed.

Lemma zlen_insert {A} (l : list A) k x : zlen (<[k := x]> l) = zlen l.
Proof. unfold zlen. by rewrite length_insert. Qed.

(** Objects may evolve in place. *)
Lemma client_inv_put s ref st st' :
  objs s !! ref = Some st -> same_slot st st' -> sess_inv s -> sess_inv (put s ref st').
Proof.
  intros Ho Hsl [[T1 T2 T3 T4 T5 T6] HR]. destruct (same_slot_intact _ _ Hsl) as [Hin Hl]. destruct Hsl as (Hid & He & _ & Hfi). split.
  - split; cbn; unfold few, leaving; cbn; rewrite ?zlen_insert, ?length_insert; try done.
    + intros k o Hk. apply list_lookup_insert_Some in Hk as [(-> & -> & _)|[_ Hk]]; [rewrite Hid|]; auto.
    + intros sid r Hs. destruct (T3 sid r Hs) as (o & Hr & Hi & Hlv & Hz & Hf). destruct (decide (r = ref)) as [->|Hne].
      * simplify_eq. exists st'. rewrite list_lookup_insert_eq by (by eapply lookup_lt_Some). split_and!; [done|congruence|congruence|done|by rewrite Hfi].
      * exists o. by rewrite list_lookup_insert_ne.
    + intros r o Hf Hr Hlv. apply list_lookup_insert_Some in Hr as [(-> & -> & _)|[_ Hr]]; [|by apply T4].
      rewrite Hid. apply T4; [done|done|congruence].
  - intros r. assert (failed_nat (<[ref := st']> (objs s)) r = failed_nat (objs s) r) as Hn.
    { unfold failed_nat. destruct (decide (r = ref)) as [->|Hne].
      - rewrite list_lookup_insert_eq by (by eapply lookup_lt_Some). by rewrite Ho, He.
      - by rewrite list_lookup_insert_ne. }
    destruct (HR r) as [R0 R1 R2 R3]. split; cbn; rewrite ?Hn; done.
Qed.

(** An output that is no frame of a stream, or one of a stream not reset yet. *)
Definition neutral (s : Session) (o : output) : Prop :=
  match o with
  | Sent (Some ref) sid _ _ => sid <> 0 /\ (flowControlEnabled s = true -> count (is_reset_frame ref) (log s) = 0%nat)
  | _ => True
  end.

Lemma client_inv_emit s o : neutral s o -> sess_inv s -> sess_inv (emit o s).
Proof.
  intros Hn [HT HR]. split; [destruct HT; by split|]. intros r. destruct (HR r) as [R0 R1 R2 R3].
  assert (is_reset_frame r o = false) as E.
  { destruct o as [| | |[]|]; try done. destruct Hn as [Hn _]. cbn. apply andb_false_iff. right. by apply Z.eqb_neq. }
  split; cbn; rewrite ?count_app; cbn; rewrite ?E; try lia.
  - rewrite Nat.add_0_r. exact R2.
  - change (flowControlEnabled (emit o s)) with (flowControlEnabled s). intros Hv. rewrite after_snoc.
    case_decide as Hd; [constructor|]. apply Forall_app. split; [by apply R3|]. constructor; [|constructor].
    destruct o as [| | |[]|]; try done. cbn in *. case_bool_decide; [|done]. subst. destruct Hn as [_ Hn]. specialize (Hn Hv). lia.
Qed.

(** A task of its own that neither resets nor leaves a stream. *)
Lemma client_inv_spawn s t : (match t with Reset _ _ _ | Fail _ _ _ _ | Abandon _ => False | _ => True end) -> sess_inv s -> sess_inv (spawn t s).
Proof.
  intros Ht [[T1 T2 T3 T4 T5 T6] HR].
  assert (forall r, is_leaving_task r t = false /\ is_fail_task r t = false /\ is_reset_task r t = false) as E by (intros r; by destruct t).
  assert (forall r, leaving (spawn t s) r = leaving s r) as El.
  { intros r. unfold leaving. cbn. rewrite count_app. cbn. destruct (E r) as (-> & _ & _). lia. }
  split.
  - split; try done.
    + intros sid r Hs. destruct (T3 sid r Hs) as (o & ? & ? & ? & ? & Hf). exists o. rewrite El. split_and!; try done.
      intros Hfin. cbn. rewrite count_app. specialize (Hf Hfin). lia.
    + intros r o ? ? ?. rewrite El. by apply T4.
    + intros r. rewrite El. apply T5.
    + cbn. intros Hc. destruct (T6 Hc) as [?|?]; [by left|right]. apply elem_of_app. by left.
  - intros r. destruct (HR r) as [R0 R1 R2 R3]. destruct (E r) as (_ & E1 & E2).
    split; cbn; rewrite ?count_app; cbn; rewrite ?E1, ?E2; try lia; done.
Qed.

Lemma failed_nat_fail objs ref st e :
  objs !! ref = Some st -> failed_nat (<[ref := fail st e]> objs) ref = 1%nat.
Proof.
  intros Ho. unfold failed_nat. rewrite list_lookup_insert_eq by (by eapply lookup_lt_Some).
  unfold fail. destruct (streamErr st) eqn:E; cbn; by rewrite ?E.
Qed.

Lemma failed_nat_le objs ref : (failed_nat objs ref <= 1)%nat.
Proof. unfold failed_nat. repeat case_match; lia. Qed.

Lemma intact_fail st e : intact (fail st e) = false.
Proof. unfold intact. replace (abandoned (fail st e)) with true by (unfold fail; by case_match). by rewrite andb_false_r. Qed.

Lemma id_fail st e : id (fail st e) = id st.
Proof. unfold fail. by case_match. Qed.

Lemma intact_failed s ref st : objs s !! ref = Some st -> intact st = true -> failed_nat (objs s) ref = 0%nat.
Proof. intros Ho Hi. unfold failed_nat. rewrite Ho. unfold intact in Hi. destruct (decide _); [done|]. by rewrite bool_decide_false in Hi. Qed.

Lemma fail_leaving ref l : (count (is_fail_task ref) l <= count (is_leaving_task ref) l)%nat.
Proof. induction l as [|[] l IH]; cbn in *; try lia; case_bool_decide; lia. Qed.

(** A stream leaves the table, to be failed. *)
Lemma inv_detach s ref st who err reset :
  objs s !! ref = Some st -> table s !! id st = Some ref -> sess_inv s ->
  sess_inv (spawn (Fail who ref err reset) (s <| table := delete (id st) (table s) |>)).
Proof.
  intros Ho Ht [HT HR]. pose proof HT as [T1 T2 T3 T4 T5 T6].
  destruct (T3 _ _ Ht) as (o & Ho' & _ & Hin & Hz & _). assert (o = st) as -> by congruence.
  assert (forall i r, delete (id st) (table s) !! i = Some r -> r <> ref /\ table s !! i = Some r) as Hsub.
  { intros i r [Hne Hi]%lookup_delete_Some. split; [|done]. intros ->. destruct (T3 _ _ Hi) as (o & Ho2 & Hi' & _). congruence. }
  set (s' := spawn _ _). assert (forall r, leaving s' r = (leaving s r + if bool_decide (ref = r) then 1 else 0)%nat) as El.
  { intros r. unfold leaving, s'. cbn. rewrite count_app. cbn. case_bool_decide; lia. }
  split.
  - split; try done.
    + intros sid r Hs. destruct (Hsub _ _ Hs) as [Hne Hs']. destruct (T3 sid r Hs') as (o & ? & ? & ? & ? & Hf). exists o. rewrite El.
      rewrite bool_decide_false by done. split_and!; try done; [lia|]. intros H'. unfold s'. cbn. rewrite count_app. specialize (Hf H'). lia.
    + intros r o Hfew Hr Hl. rewrite El. intros Hle. case_bool_decide as E; [lia|]. assert (table s !! id o = Some r) as Htr by (apply T4; [done|done|done|lia]).
      cbn. apply lookup_delete_Some. split; [|done]. intros E'. rewrite <- E' in Htr. congruence.
    + intros r. rewrite El. case_bool_decide; [subst; intros _; by eapply lookup_lt_Some|]. intros Hr. apply T5. lia.
    + cbn. intros Hc. destruct (T6 Hc) as [E|?]; [by rewrite E in Ht|right]. apply elem_of_app. by left.
  - intros r. destruct (HR r) as [R0 R1 R2 R3]. split; cbn; rewrite ?count_app; cbn; try done; [|lia].
    case_bool_decide; [subst r|lia]. rewrite (intact_failed s ref st Ho Hin). pose proof (fail_leaving ref (tasks s)). unfold leaving in Hz. lia.
Qed.

Lemma inv_failStream s who ref code message notify : sess_inv s -> sess_inv (failStream s who ref code message notify).
Proof.
  intros Hi. unfold failStream, detachStream. destruct (objs s !! ref) as [st|] eqn:Ho; [|done].
  case_decide as Hd; [|done]. cbn [negb]. by apply inv_detach.
Qed.

(** A direction ends, and its goroutine is about to look whether both have. *)
Lemma inv_settle s who ref st st' :
  objs s !! ref = Some st -> id st' = id st -> streamErr st' = streamErr st -> abandoned st' = abandoned st ->
  (finished st = true -> finished st' = true) -> sess_inv s -> sess_inv (spawn (Settle who ref) (put s ref st')).
Proof.
  intros Ho Hid He Ha Hf [[T1 T2 T3 T4 T5 T6] HR]. assert (intact st' = intact st) as Hin by (unfold intact; by rewrite He, Ha).
  set (s' := spawn _ _). assert (forall r, leaving s' r = leaving s r) as El.
  { intros r. unfold leaving, s'. cbn. rewrite count_app. cbn. lia. }
  assert (forall r, count (is_settle_task r) (tasks s') = (count (is_settle_task r) (tasks s) + if bool_decide (ref = r) then 1 else 0)%nat) as Es.
  { intros r. unfold s'. cbn. rewrite count_app. cbn. case_bool_decide; lia. }
  split.
  - split.
    + cbn. by rewrite zlen_insert.
    + intros k o Hk. apply list_lookup_insert_Some in Hk as [(-> & -> & _)|[_ Hk]]; [rewrite Hid|]; auto.
    + intros sid r Hs. destruct (T3 sid r Hs) as (o & Hr & Hi & Hlv & Hz & Hfi). rewrite El, Es. cbn. destruct (decide (r = ref)) as [->|Hne].
      * simplify_eq. exists st'. rewrite list_lookup_insert_eq by (by eapply lookup_lt_Some). rewrite bool_decide_true by done. split_and!; try congruence. lia.
      * exists o. rewrite list_lookup_insert_ne by done. split_and!; try done. intros H'. specialize (Hfi H'). lia.
    + intros r o Hfew Hr Hlv. unfold few in Hfew. cbn in Hfew, Hr. rewrite zlen_insert in Hfew. rewrite El. cbn. apply list_lookup_insert_Some in Hr as [(-> & -> & _)|[_ Hr]]; [|by apply T4].
      rewrite Hid. apply T4; [done|done|]. unfold live in *. rewrite Hin in Hlv. apply andb_true_iff in Hlv as [-> Hlv]. cbn.
      destruct (finished st); [by rewrite Hf in Hlv|done].
    + intros r. rewrite El. cbn. rewrite length_insert. apply T5.
    + cbn. intros Hc. destruct (T6 Hc) as [?|?]; [by left|right]. apply elem_of_app. by left.
  - intros r. assert (failed_nat (<[ref := st']> (objs s)) r = failed_nat (objs s) r) as Hn.
    { unfold failed_nat. destruct (decide (r = ref)) as [->|Hne].
      - rewrite list_lookup_insert_eq by (by eapply lookup_lt_Some). by rewrite Ho, He.
      - by rewrite list_lookup_insert_ne. }
    destruct (HR r) as [R0 R1 R2 R3]. split; cbn; rewrite ?count_app, ?Hn; cbn; try done; lia.
Qed.

(** Dropping a task that leaves no stream, and the writers' table. *)
Lemma client_inv_drop_task s t l1 l2 :
  (match t with Fail _ _ _ _ | Settle _ _ | Abandon _ => False | _ => True end) ->
  tasks s = l1 ++ t :: l2 -> (t = Finish -> table s = ∅ \/ Finish ∈ l1 ++ l2) -> sess_inv s -> sess_inv (s <| tasks := l1 ++ l2 |>).
Proof.
  intros Hk Ht Hfin [[T1 T2 T3 T4 T5 T6] HR].
  assert (forall f : task -> bool, f t = false -> count f (l1 ++ l2) = count f (tasks s)) as E.
  { intros f Hf. rewrite Ht, !count_app. cbn. rewrite Hf. lia. }
  assert (forall r, leaving (s <| tasks := l1 ++ l2 |>) r = leaving s r) as El by (intros r; apply E; by destruct t).
  split.
  - split; try done.
    + intros sid r Hs. destruct (T3 sid r Hs) as (o & ? & ? & ? & ? & Hf). exists o. rewrite El. split_and!; try done.
      cbn. rewrite E by (by destruct t). done.
    + intros r o ? ? ?. rewrite El. by apply T4.
    + intros r. rewrite El. apply T5.
    + cbn. intros Hc. destruct (T6 Hc) as [?|Hin]; [by left|]. rewrite Ht in Hin.
      apply elem_of_app in Hin as [?|[<-|?]%elem_of_cons]; [right|by apply Hfin|right]; apply elem_of_app; auto.
  - intros r. destruct (HR r) as [R0 R1 R2 R3]. rewrite Ht, count_app in R1. cbn in R1.
    split; cbn; [|rewrite count_app; destruct (is_reset_task r t); lia|done|done]. rewrite E by (by destruct t). done.
Qed.

(** A stream that has left the table fails, or is abandoned. *)
Lemma inv_run_leave s t ref st st' l1 l2 :
  tasks s = l1 ++ t :: l2 -> is_leaving_task ref t = true -> objs s !! ref = Some st -> id st' = id st -> intact st' = false ->
  (count (is_fail_task ref) [t] + failed_nat (objs s) ref = failed_nat (<[ref := st']> (objs s)) ref)%nat ->
  sess_inv s -> sess_inv (put (s <| tasks := l1 ++ l2 |>) ref st') /\
  (count (is_reset_task ref) (l1 ++ l2) + count (is_reset_frame ref) (log s) <= failed_nat (objs s) ref)%nat.
Proof.
  intros Ht Hleave Ho Hid Hin Hfn [[T1 T2 T3 T4 T5 T6] HR].
  assert (forall r, leaving s r = (leaving (put (s <| tasks := l1 ++ l2 |>) ref st') r + if bool_decide (ref = r) then 1 else 0)%nat) as El.
  { intros r. unfold leaving. cbn. rewrite Ht, !count_app. cbn.
    replace (is_leaving_task r t) with (bool_decide (ref = r)); [case_bool_decide; lia|].
    destruct t; cbn in *; try done; apply bool_decide_eq_true in Hleave; by subst. }
  assert (forall f : task -> bool, f t = false -> count f (l1 ++ l2) = count f (tasks s)) as E.
  { intros f Hf. rewrite Ht, !count_app. cbn. rewrite Hf. lia. }
  assert (forall r, failed_nat (<[ref := st']> (objs s)) r = (if bool_decide (ref = r) then failed_nat (<[ref := st']> (objs s)) r else failed_nat (objs s) r)) as Hn.
  { intros r. case_bool_decide; [done|]. unfold failed_nat. by rewrite list_lookup_insert_ne. }
  split; [split|].
  - split.
    + cbn. by rewrite zlen_insert.
    + cbn. intros k o Hk. apply list_lookup_insert_Some in Hk as [(-> & -> & _)|[_ Hk]]; [rewrite Hid|]; auto.
    + cbn. intros sid r Hs. destruct (T3 sid r Hs) as (o & Hr & Hi & Hlv & Hz & Hf). rewrite El in Hz.
      case_bool_decide as Hne; [lia|]. exists o. rewrite list_lookup_insert_ne by done. split_and!; try done; [unfold leaving in *; cbn in *; lia|].
      rewrite E by (by destruct t). done.
    + intros r o Hfew Hr Hlv Hz. unfold few in Hfew. cbn in Hfew, Hr. rewrite zlen_insert in Hfew. cbn.
      apply list_lookup_insert_Some in Hr as [(-> & -> & _)|[Hne Hr]]; [unfold live in Hlv; by rewrite Hin in Hlv|].
      apply T4; [done|done|done|]. rewrite El, Hz. by rewrite bool_decide_false.
    + cbn. intros r Hr. rewrite length_insert. apply T5. rewrite El. unfold leaving in *. cbn in *. lia.
    + cbn. intros Hc. destruct (T6 Hc) as [?|Hi]; [by left|right]. rewrite Ht in Hi.
      apply elem_of_app in Hi as [?|[<-|?]%elem_of_cons]; [|done|]; apply elem_of_app; auto.
  - intros r. destruct (HR r) as [R0 R1 R2 R3]. split; cbn; try done.
    + rewrite Hn. rewrite Ht, count_app in R0. cbn in R0. rewrite count_app. case_bool_decide as Er; [subst r; rewrite <- Hfn; cbn; lia|].
      destruct (is_fail_task r t); lia.
    + rewrite Hn. rewrite E by (by destruct t). case_bool_decide; [subst r; rewrite <- Hfn; lia|done].
  - destruct (HR ref) as [R0 R1 _ _]. by rewrite E by (by destruct t).
Qed.

Lemma client_inv_run_fail s who ref err reset l1 l2 :
  tasks s = l1 ++ Fail who ref err reset :: l2 -> sess_inv s -> sess_inv (fail_detached (s <| tasks := l1 ++ l2 |>) ref err reset).
Proof.
  intros Ht Hi. unfold fail_detached. change (objs (s <| tasks := l1 ++ l2 |>)) with (objs s). destruct (objs s !! ref) as [st|] eqn:Ho.
  2:{ exfalso. apply lookup_ge_None in Ho. destruct Hi as [[_ _ _ _ T5 _] _]. specialize (T5 ref). unfold leaving in T5. rewrite Ht, count_app in T5. cbn in T5.
      rewrite bool_decide_true in T5 by done. lia. }
  assert (failed_nat (objs s) ref = 0%nat) as Hz.
  { destruct (proj2 Hi ref) as [R0 _ _ _]. rewrite Ht, count_app in R0. cbn in R0. rewrite bool_decide_true in R0 by done. lia. }
  destruct (inv_run_leave s _ ref st (fail st err) l1 l2 Ht) as [[HT HR] Hr]; try done.
  - cbn. by rewrite bool_decide_true.
  - apply id_fail.
  - apply intact_fail.
  - rewrite (failed_nat_fail _ _ _ _ Ho), Hz. cbn. by rewrite bool_decide_true.
  - set (s1 := put _ ref _) in *. destruct reset as [[code message]|]; [|by split].
    assert (forall f : task -> bool, f (Reset ref code message) = false -> count f (tasks (spawn (Reset ref code message) s1)) = count f (tasks s1)) as E.
    { intros f Hf. cbn. rewrite count_app. cbn. rewrite Hf. lia. }
    assert (forall r, leaving (spawn (Reset ref code message) s1) r = leaving s1 r) as El by (intros r; by apply E).
    split.
    + destruct HT as [T1 T2 T3 T4 T5 T6]. split; try done.
      * intros sid r Hs. destruct (T3 sid r Hs) as (o & ? & ? & ? & ? & Hf). exists o. rewrite El, E by done. by split_and!.
      * intros r o ? ? ?. rewrite El. by apply T4.
      * intros r. rewrite El. apply T5.
      * cbn. intros Hc. destruct (T6 Hc) as [?|?]; [by left|right]. apply elem_of_app. by left.
    + intros r. destruct (HR r) as [R0 R1 R2 R3]. split; try done.
      * rewrite E by done. exact R0.
      * cbn in *. rewrite count_app. cbn. case_bool_decide; [subst r|lia]. rewrite (failed_nat_fail _ _ _ _ Ho). lia.
Qed.

Lemma inv_run_abandon s ref st l1 l2 :
  tasks s = l1 ++ Abandon ref :: l2 -> objs s !! ref = Some st -> sess_inv s -> sess_inv (put (s <| tasks := l1 ++ l2 |>) ref (abandon st)).
Proof.
  intros Ht Ho Hi. refine (proj1 (inv_run_leave s _ ref st (abandon st) l1 l2 Ht _ Ho eq_refl _ _ Hi)).
  - cbn. by rewrite bool_decide_true.
  - unfold intact. cbn. by rewrite andb_false_r.
  - unfold failed_nat. by rewrite list_lookup_insert_eq, Ho by (by eapply lookup_lt_Some).
Qed.

(** A goroutine looks whether its stream has finished. *)
Lemma inv_run_settle s who ref l1 l2 :
  tasks s = l1 ++ Settle who ref :: l2 -> sess_inv s -> sess_inv (detachFinishedStream (s <| tasks := l1 ++ l2 |>) ref).
Proof.
  intros Ht [[T1 T2 T3 T4 T5 T6] HR]. set (s0 := s <| tasks := l1 ++ l2 |>).
  assert (forall f : task -> bool, f (Settle who ref) = false -> count f (l1 ++ l2) = count f (tasks s)) as E.
  { intros f Hf. rewrite Ht, !count_app. cbn. rewrite Hf. lia. }
  assert (forall tbl, (forall sid r, tbl !! sid = Some r -> table s !! sid = Some r /\ (r = ref -> forall st, objs s !! ref = Some st -> finished st = false)) ->
    (forall sid r, table s !! sid = Some r -> tbl !! sid = Some r \/ (r = ref /\ exists st, objs s !! ref = Some st /\ finished st = true)) ->
    sess_inv (s0 <| table := tbl |>)) as K.
  { intros tbl Hsub Hkeep. split.
    - split; try done.
      + intros sid r Hs. destruct (Hsub _ _ Hs) as [Hs' Hfi]. destruct (T3 sid r Hs') as (o & Ho & ? & ? & ? & Hf). exists o. split_and!; try done.
        * unfold leaving. cbn. by rewrite E.
        * intros Hd. destruct (decide (r = ref)) as [->|Hne]; [by rewrite Hfi in Hd|]. cbn. rewrite E; [by apply Hf|]. cbn. by rewrite bool_decide_false.
      + intros r o Hfew Hr Hl Hz. unfold leaving in Hz. cbn in Hz. rewrite E in Hz by done. destruct (Hkeep (id o) r) as [?|(-> & st & Ho & Hd)]; [by apply T4|done|].
        exfalso. cbn in Hr. assert (o = st) as -> by congruence. unfold live in Hl. by rewrite Hd, andb_false_r in Hl.
      + intros r. unfold leaving. cbn. rewrite E by done. apply T5.
      + cbn. intros Hc. destruct (T6 Hc) as [Hem|Hi].
        * left. apply map_eq. intros i. rewrite lookup_empty. destruct (tbl !! i) eqn:Ei; [|done]. apply Hsub in Ei as [Ei _]. by rewrite Hem in Ei.
        * right. rewrite Ht in Hi. apply elem_of_app in Hi as [?|[?|?]%elem_of_cons]; [|done|]; apply elem_of_app; auto.
    - intros r. destruct (HR r) as [R0 R1 R2 R3]. split; cbn; rewrite ?E by done; done. }
  assert (s0 = s0 <| table := table s |>) as Es0 by done.
  unfold detachFinishedStream. change (objs s0) with (objs s). destruct (objs s !! ref) as [st|] eqn:Ho.
  - change (inboundDelivered st && outboundFIN st) with (finished st). destruct (finished st) eqn:Hfi.
    + unfold detachStream. change (table s0) with (table s). destruct (decide (table s !! id st = Some ref)) as [Hd|Hd]; cbn [fst].
      * apply K.
        -- intros sid r [Hne Hs]%lookup_delete_Some. split; [done|]. intros ->. destruct (T3 _ _ Hs) as (o & Ho' & Hid & _). congruence.
        -- intros sid r Hs. destruct (decide (sid = id st)) as [->|Hne]; [right|left; by rewrite lookup_delete_ne]. assert (r = ref) as -> by congruence. eauto.
      * rewrite Es0. apply K; [|auto]. intros sid r Hs. split; [done|]. intros ->. destruct (T3 _ _ Hs) as (o & Ho' & Hid & _). exfalso. apply Hd. congruence.
    + rewrite Es0. apply K; [|auto]. intros sid r Hs. split; [done|]. intros -> o [= <-]. done.
  - rewrite Es0. apply K; [|auto]. intros sid r Hs. split; [done|]. intros -> o Ho'. congruence.
Qed.

Lemma inv_writers s wr :
  (forall ref w, wr !! ref = Some w -> writers s !! ref = Some w \/ w_reserved w = false \/
     (flowControlEnabled s = true -> count (is_reset_frame ref) (log s) = 0%nat)) ->
  sess_inv s -> sess_inv (s <| writers := wr |>).
Proof.
  intros Hw [HT HR]. split; [destruct HT; by split|]. intros r. destruct (HR r) as [R0 R1 R2 R3]. split; [done|done| |done].
  cbn. intros Hv Hc w Hl. destruct (Hw _ _ Hl) as [?|[?|Hz]]; [by eapply R2|done|]. specialize (Hz Hv). lia.
Qed.

Lemma inv_sendRawFrame send_error s owner sid flags payload :
  match owner with Some ref => sid <> 0 /\ (flowControlEnabled s = true -> count (is_reset_frame ref) (log s) = 0%nat) | None => True end ->
  sess_inv s -> sess_inv (sendRawFrame send_error s owner sid flags payload).1.
Proof.
  intros Hn Hi. unfold sendRawFrame. destruct (ValidateFramePayload _); [|done]. destruct (_ || _); [done|].
  apply client_inv_emit; [|done]. by destruct owner.
Qed.

Lemma sendRawFrame_frame send_error s owner sid flags payload :
  core ((sendRawFrame send_error s owner sid flags payload).1 <| log := log s |>) = core s /\
  workers (sendRawFrame send_error s owner sid flags payload).1 = workers s /\
  dispatching (sendRawFrame send_error s owner sid flags payload).1 = dispatching s.
Proof. unfold sendRawFrame. destruct (ValidateFramePayload _); [|by destruct s]. by destruct (_ || _); destruct s. Qed.

Lemma inv_OpenStream s : sess_inv s -> sess_inv (OpenStream s).1.
Proof.
  intros [[T1 T2 T3 T4 T5 T6] HR]. unfold OpenStream. set (sid := nextStreamID s).
  assert (forall o k st, (objs s ++ [o]) !! k = Some st -> objs s !! k = Some st \/ (k = length (objs s) /\ st = o)) as Hlk.
  { intros o k st Hk. destruct (decide (k < length (objs s))%nat); [rewrite lookup_app_l in Hk by done; by left|].
    right. rewrite lookup_app_r in Hk by lia. destruct (k - length (objs s))%nat eqn:E; [|done]. cbn in Hk. injection Hk as <-. split; [lia|done]. }
  assert (leaving s (length (objs s)) = 0%nat) as Hnew by (destruct (decide (leaving s (length (objs s)) = 0)%nat); [done|]; specialize (T5 (length (objs s))); lia).
  assert (forall o r, (failed_nat (objs s) r <= failed_nat (objs s ++ [o]) r)%nat /\
    (count (is_fail_task r) (tasks s) + failed_nat (objs s ++ [o]) r <= 1)%nat) as Hfn.
  { intros o r. destruct (HR r) as [R0 _ _ _]. unfold failed_nat in *. destruct (objs s !! r) eqn:E; [rewrite (lookup_app_l_Some _ _ _ _ E); lia|]. split; [lia|].
    destruct ((objs s ++ [o]) !! r) eqn:E'; [|lia]. apply Hlk in E' as [?|[-> ->]]; [congruence|].
    pose proof (fail_leaving (length (objs s)) (tasks s)). unfold leaving in Hnew. case_decide; lia. }
  assert (u32 (sid + 2) = u32 (1 + 2 * (zlen (objs s) + 1))) as Hnext.
  { unfold sid. rewrite T1. unfold u32, wrap. rewrite Z.add_mod_idemp_l by done. f_equal. lia. }
  assert (forall o s', objs s' = objs s ++ [o] -> tasks s' = tasks s -> log s' = log s -> writers s' = writers s -> NegotiatedVersion s' = NegotiatedVersion s ->
    forall r, resets_ok s' r) as HR'.
  { intros o s' Eo Et El Ew Ev r. destruct (HR r) as [R0 R1 R2 R3]. destruct (Hfn o r) as [F1 F2].
    split; unfold flowControlEnabled; rewrite ?Eo, ?Et, ?El, ?Ew, ?Ev; try done. lia. }
  cbn [fst sclosed upd]. destruct (sclosed s) eqn:Ec.
  - split; [|by eapply HR'].
    split; cbn; unfold few; cbn; rewrite ?zlen_app, ?zlen_cons, ?zlen_nil; try done; rewrite ?Ec.
    + intros k st Hk. apply Hlk in Hk as [Hk|[-> ->]]; [by apply T2|]. cbn. exact T1.
    + intros i r Hi. destruct (T3 i r Hi) as (o & Ho & ?). exists o. by rewrite (lookup_app_l_Some _ _ _ _ Ho).
    + intros r st Hf Hr Hl. apply Hlk in Hr as [Hr|[-> ->]]; [|done]. apply T4; [unfold few; lia|done|done].
    + intros r Hr. rewrite length_app. cbn. specialize (T5 r Hr). lia.
  - split; [|by eapply HR'].
    split; cbn; unfold few; cbn; rewrite ?zlen_app, ?zlen_cons, ?zlen_nil; try done; rewrite ?Ec; try done.
    + intros k st Hk. apply Hlk in Hk as [Hk|[-> ->]]; [by apply T2|]. cbn. exact T1.
    + intros i r Hi. apply lookup_insert_Some in Hi as [[<- <-]|[_ Hi]].
      * exists (newStream sid). by rewrite lookup_app_r, Nat.sub_diag by lia.
      * destruct (T3 i r Hi) as (o & Ho & ?). exists o. by rewrite (lookup_app_l_Some _ _ _ _ Ho).
    + intros r st Hf Hr Hl Hz. apply Hlk in Hr as [Hr|[-> ->]]; [|cbn; apply lookup_insert_eq].
      rewrite lookup_insert_ne; [by apply T4; [unfold few; lia| | |]|]. rewrite (T2 _ _ Hr). unfold sid. rewrite T1.
      intros E. apply odd_id_inj in E; apply lookup_lt_Some in Hr; unfold zlen in *; lia.
    + intros r Hr. rewrite length_app. cbn. specialize (T5 r Hr). lia.
Qed.

(** * Each operation preserves it *)

Ltac slot := unfold same_slot, finished; by repeat case_step.

Lemma slot_release st f : same_slot st (release st f).
Proof. by unfold same_slot. Qed.

Lemma client_slot_enqueue pick st f b : same_slot st (enqueue pick st f b).1.
Proof. unfold enqueue, enqueue_account, release. slot. Qed.

Lemma client_slot_consume st f b : same_slot st (consume st f b).1.
Proof. unfold consume, release. slot. Qed.

Lemma consume_flags st f b :
  id (consume st f b).1 = id st /\ streamErr (consume st f b).1 = streamErr st /\ abandoned (consume st f b).1 = abandoned st /\
  inboundDelivered (consume st f b).1 = inboundDelivered st /\ outboundFIN (consume st f b).1 = outboundFIN st.
Proof. unfold consume, release. by repeat case_step. Qed.

Lemma slot_limit st m : same_slot st (updateSendLimit st m).
Proof. unfold updateSendLimit. slot. Qed.

Lemma slot_activate st : same_slot st (activateInitialWindow st).
Proof. unfold activateInitialWindow. destruct (negb _); [|by unfold same_slot]. refine (client_same_slot_trans _ _ _ _ (slot_limit _ _)). by unfold same_slot. Qed.

Lemma slot_reserve st n : same_slot st (reserveSend st n).1.
Proof. unfold reserveSend. destruct (streamErr st) eqn:E; [by unfold same_slot|]. by destruct (_ <=? _). Qed.

Lemma inv_finishStreams s : sess_inv s -> sess_inv (finishStreams s).
Proof.
  intros Hi. destruct (client_inv_spawn s Finish I Hi) as [[T1 T2 T3 T4 T5 T6] HR]. split; [|intros r; by destruct (HR r) as [R0 R1 R2 R3]; split].
  split; try done. intros _. right. apply elem_of_app. right. by apply list_elem_of_singleton.
Qed.

Lemma inv_abandon_listed s : sess_inv s -> sess_inv (abandon_listed s).
Proof.
  intros [[T1 T2 T3 T4 T5 T6] HR]. unfold abandon_listed. set (listed := (map_to_list (table s)).*2).
  assert (forall (f : task -> bool), (forall r, f (Abandon r) = false) -> count f (tasks s ++ map Abandon listed) = count f (tasks s)) as E.
  { intros f Hf. rewrite count_app. assert (count f (map Abandon listed) = 0%nat) as ->; [|lia]. induction listed; cbn; [done|]. by rewrite Hf. }
  assert (forall r, (0 < count (is_leaving_task r) (map Abandon listed))%nat <-> r ∈ listed) as Hl.
  { intros r. clear. induction listed as [|x l IH]; cbn; [split; [lia|by intros ?%elem_of_nil]|]. rewrite elem_of_cons. case_bool_decide; [subst; split; [auto|lia]|].
    cbn. rewrite IH. intuition congruence. }
  split.
  - split; try done.
    + intros r o Hf Hr Hlv Hz. unfold leaving in Hz. cbn in Hz. rewrite count_app in Hz.
      assert (table s !! id o = Some r) as Ht by (apply T4; [done|done|done|unfold leaving; lia]).
      assert (r ∈ listed) as Hin by (apply list_elem_of_fmap; exists (id o, r); split; [done|by apply elem_of_map_to_list]).
      apply Hl in Hin. lia.
    + intros r Hr. unfold leaving in Hr. cbn in Hr. rewrite count_app in Hr. destruct (decide (leaving s r = 0)%nat) as [Hz|Hz]; [|cbn; apply T5; lia].
      assert (r ∈ listed) as Hin by (apply Hl; unfold leaving in Hz; lia).
      apply list_elem_of_fmap in Hin as ([sid x] & -> & Hin%elem_of_map_to_list). destruct (T3 _ _ Hin) as (o & Ho & _). cbn. by eapply lookup_lt_Some.
    + intros _. by left.
  - intros r. destruct (HR r) as [R0 R1 R2 R3]. split; cbn; rewrite ?E by done; done.
Qed.

Lemma inv_unlock s ref : sess_inv s -> sess_inv (unlock s ref).
Proof. apply inv_writers. intros r w [_ ?]%lookup_delete_Some. by left. Qed.

Lemma inv_leave s ref st st' : objs s !! ref = Some st -> same_slot st st' -> sess_inv s -> sess_inv (leave s ref st').
Proof.
  intros Ho Hs Hi. set (st2 := st' <| inbox_closed := true |>). assert (same_slot st st2) as Hs2 by exact Hs.
  refine (client_inv_core (put s ref st2) _ _ (client_inv_put s ref st st2 Ho Hs2 Hi)). reflexivity.
Qed.

Lemma inv_resume s who : sess_inv s -> sess_inv (resume s who).
Proof.
  intros Hi. destruct who as [|ref|ref|]; cbn [resume]; [done| |by apply inv_unlock|done].
  destruct (workers s !! ref) as [[| | | |]|]; try done; (destruct (objs s !! ref) as [st|] eqn:Ho; [|done]); by apply (inv_leave s ref st).
Qed.

Section Steps.
Variable send_error : list output -> option string.
Variable unmarshal_error : bytes -> string.
Abbreviation session_step := (session_step send_error unmarshal_error).

Lemma inv_resetMalformed s payload j : sess_inv s -> sess_inv (resetMalformedControl unmarshal_error s payload j).
Proof.
  intros Hi. unfold resetMalformedControl. destruct (field _ _ _ _). destruct (_ || _); [done|].
  destruct (findStream _ _); [by apply inv_failStream|done].
Qed.

Lemma client_inv_handleControl s f : sess_inv s -> sess_inv (handleControl unmarshal_error s f).
Proof.
  intros Hi. unfold handleControl. destruct (negb _); [done|]. destruct (parse_json _) as [j|]; [|done].
  destruct (field _ _ _ j) as [type ok]. destruct (negb ok); [done|]. case_decide.
  { destruct (decode_window_update j) as [u [|]]; [|by apply inv_resetMalformed]. unfold applyWindowUpdate.
    destruct (findStream _ _) as [ref|]; [|done]. destruct (_ || _); [by apply inv_failStream|].
    destruct (objs s !! ref) eqn:Ho; [|done]. eapply client_inv_put; eauto using slot_limit. }
  case_decide; [by apply inv_finishStreams|]. case_decide; [|done].
  destruct (field _ _ _ j) as [sid ok1], (field _ _ _ j) as [code ok2], (field _ _ _ j) as [message ok3].
  destruct (_ && _); [|by apply inv_resetMalformed]. destruct (findStream _ _); [by apply inv_failStream|done].
Qed.

Lemma inv_dispatch s data : sess_inv s -> sess_inv (dispatch unmarshal_error s data).
Proof.
  intros Hi. unfold dispatch. destruct (ParseFrame data) as [f|]; [|done].
  destruct (_ =? 0); [destruct (flowControlEnabled s); [by apply client_inv_handleControl|done]|].
  destruct (findStream _ _); [|done]. apply client_inv_emit; [done|]. by refine (client_inv_core s _ _ Hi).
Qed.

Lemma inv_enqueue pick s s' : dispatch_enqueue pick s = Some s' -> sess_inv s -> sess_inv s'.
Proof.
  unfold dispatch_enqueue. intros H Hi. destruct (dispatching s) as [[ref f]|]; [|done].
  destruct (objs s !! ref) as [st|] eqn:Ho; [|done].
  pose proof (client_slot_enqueue pick st f (flowControlEnabled s)) as Hsl. destruct (enqueue _ _ _ _) as [st' err].
  assert (sess_inv (put (s <| dispatching := None |>) ref st')) as Hp by (apply (client_inv_put (s <| dispatching := None |>) ref st); [done|done|by refine (client_inv_core s _ _ Hi)]).
  injection H as <-. destruct err as [[]|]; try exact Hp; by apply inv_failStream.
Qed.

Lemma inv_worker s s' ref :
  worker_take s ref = Some s' \/ worker_hand s ref = Some s' \/ worker_charge s ref = Some s' \/
  worker_update send_error s ref = Some s' \/ worker_quit s ref = Some s' ->
  sess_inv s -> sess_inv s'.
Proof.
  intros H Hi. destruct H as [H|[H|[H|[H|H]]]].
  - unfold worker_take in H. destruct (workers s !! ref) as [[]|]; try done. destruct (objs s !! ref) as [st|] eqn:Ho; [|done].
    destruct (pending st); [done|]. injection H as <-. set (st2 := st <| pending := l |>). assert (same_slot st st2) as Hs by done.
    by refine (client_inv_core _ _ _ (client_inv_put s ref st st2 Ho Hs Hi)).
  - unfold worker_hand in H. destruct (workers s !! ref) as [[]|]; try done. injection H as <-. apply client_inv_emit; [done|]. by refine (client_inv_core s _ _ Hi).
  - unfold worker_charge in H. destruct (workers s !! ref) as [[| |f| |]|]; try done. destruct (objs s !! ref) as [st|] eqn:Ho; [|done].
    pose proof (consume_flags st f (flowControlEnabled s)) as (F1 & F2 & F3 & F4 & F5).
    pose proof (client_slot_consume st f (flowControlEnabled s)) as Hsl. destruct (consume st f _) as [st1 u]. cbn [fst] in *.
    destruct (IsFIN f); injection H as <-.
    + set (st2 := st1 <| inboundDelivered := true |>). refine (client_inv_core (spawn (Settle (Worker ref) ref) (put s ref st2)) _ _ _); [reflexivity|].
      apply (inv_settle s (Worker ref) ref st st2); try done. unfold finished. cbn. rewrite F5. by intros [_ ->]%andb_true_iff.
    + by refine (client_inv_core _ _ _ (client_inv_put s ref st st1 Ho Hsl Hi)).
  - unfold worker_update in H. destruct (busy _ _); [done|]. destruct (workers s !! ref) as [[| | |m|]|]; try done. destruct (objs s !! ref) as [st|] eqn:Ho; [|done].
    assert (sess_inv (sendWindowUpdate send_error s (id st) m).1) as Hs by (by apply inv_sendRawFrame).
    destruct (sendWindowUpdate _ _ _ _) as [s1 [e|]]; [|injection H as <-; by refine (client_inv_core s1 _ _ Hs)].
    pose proof (inv_failStream s1 (Worker ref) ref $"control_send_failed" (text e) false Hs) as Hf.
    injection H as <-. destruct (busy _ _); [done|exact (inv_resume _ (Worker ref) Hf)].
  - unfold worker_quit in H. destruct (workers s !! ref) as [[| | | |]|]; try done; (destruct (objs s !! ref) as [st|] eqn:Ho; [|done]);
      (destruct (_ || _); [|done]); injection H as <-; by apply (inv_leave s ref st).
Qed.

Lemma object_nonzero s ref st : sess_inv s -> objs s !! ref = Some st -> id st <> 0.
Proof. intros [[_ T2 _ _ _] _] Ho. rewrite (T2 _ _ Ho). apply odd_id_nonzero. Qed.

Lemma inv_write_start s ref flags payload s' : write_start s ref flags payload = Some s' -> sess_inv s -> sess_inv s'.
Proof.
  unfold write_start. intros H Hi. destruct (writers s !! ref); [done|]. destruct (objs s !! ref) as [st|] eqn:Ho; [|done]. injection H as <-.
  destruct (outboundFIN st); [done|]. destruct (flowControlEnabled s) eqn:Ev; cbn [negb].
  - destruct (_ && _); [done|]. set (s1 := if IsSYN _ then _ else s).
    assert (sess_inv s1) as Hi1 by (subst s1; destruct (IsSYN _); [exact (client_inv_put s ref st _ Ho (slot_activate st) Hi)|done]).
    clearbody s1. apply inv_writers; [|done].
    intros r w [[<- <-]|[_ ?]]%lookup_insert_Some; [right; by left|by left].
  - apply inv_writers; [|done]. intros r w [[<- <-]|[_ ?]]%lookup_insert_Some; [|by left]. right; right. congruence.
Qed.

Lemma unreset_writer s ref w :
  sess_inv s -> writers s !! ref = Some w -> w_reserved w = true ->
  flowControlEnabled s = true -> count (is_reset_frame ref) (log s) = 0%nat.
Proof.
  intros [_ HR] Hw Hr Hv. destruct (HR ref) as [_ _ R2 _]. destruct (count _ _) eqn:E; [done|].
  rewrite (R2 Hv ltac:(lia) w Hw) in Hr. done.
Qed.

Lemma client_inv_write_reserve s ref s' : write_reserve s ref = Some s' -> sess_inv s -> sess_inv s'.
Proof.
  unfold write_reserve. intros H Hi. destruct (writers s !! ref) as [w|] eqn:Hw; [|done]. destruct (objs s !! ref) as [st|] eqn:Ho; [|done].
  destruct (w_reserved w); [done|]. pose proof (slot_reserve st (FlowBytes (mkFrame (id st) (w_flags w) (w_payload w)))) as Hs.
  destruct (reserveSend st _) as [st' []] eqn:Er.
  - injection H as <-. set (wr := <[ref := _]> (writers s)).
    set (s0 := s <| writers := wr |>). assert (sess_inv s0) as Hi'.
    { apply inv_writers; [|done]. intros r x [[<- <-]|[_ ?]]%lookup_insert_Some; [|by left]. right; right. intros _.
      destruct (proj2 Hi ref) as [_ R1 _ _]. unfold reserveSend in Er.
      destruct (streamErr st) eqn:Ee; [done|]. unfold failed_nat in R1. rewrite Ho, decide_True in R1 by done. lia. }
    exact (client_inv_put s0 ref st st' Ho Hs Hi').
  - injection H as <-. by apply inv_unlock.
  - destruct (_ || _); [|done]. injection H as <-. by apply inv_unlock.
Qed.

Lemma sendRawFrame_objs s owner sid flags payload : objs (sendRawFrame send_error s owner sid flags payload).1 = objs s.
Proof. destruct (sendRawFrame_frame send_error s owner sid flags payload) as (E & _ & _). unfold core in E. cbn in E. congruence. Qed.

Lemma client_inv_write_send s ref s' : write_send send_error s ref = Some s' -> sess_inv s -> sess_inv s'.
Proof.
  unfold write_send. intros H Hi. destruct (busy _ _); [done|]. destruct (writers s !! ref) as [w|] eqn:Hw; [|done]. destruct (objs s !! ref) as [st|] eqn:Ho; [|done].
  destruct (w_reserved w) eqn:Hr; [|done]. cbn [negb] in H.
  assert (sess_inv (sendRawFrame send_error s (Some ref) (id st) (w_flags w) (w_payload w)).1) as Hs.
  { apply inv_sendRawFrame; [|done]. split; [by eapply object_nonzero|by eapply unreset_writer]. }
  pose proof (sendRawFrame_objs s (Some ref) (id st) (w_flags w) (w_payload w)) as Hobjs.
  destruct (sendRawFrame _ _ _ _ _ _) as [s1 err]. cbn [fst] in *. set (s2 := match err with Some _ => _ | None => _ end) in H.
  assert (sess_inv s2) as H2; [|injection H as <-; destruct (busy _ _); [done|by apply inv_unlock]]. subst s2. destruct err.
  - destruct (_ && _); [by apply inv_failStream|done].
  - destruct (IsFIN _); [|done]. set (st' := st <| outboundFIN := true |>).
    apply (inv_settle s1 (Writer ref) ref st st'); try reflexivity; [by rewrite Hobjs| |done]. unfold finished. cbn. by intros [-> _]%andb_true_iff.
Qed.

Lemma inv_CloseStream s ref : sess_inv s -> sess_inv (CloseStream s ref).
Proof.
  intros Hi. unfold CloseStream. destruct (objs s !! ref) as [st|] eqn:Ho; [|done]. destruct (_ || _); [by apply inv_failStream|].
  unfold detachStream. case_decide as Hd; [|done]. by apply inv_detach.
Qed.

(** The reset goes out: the one that was due, while no writer holds the stream. *)
Lemma inv_reset s ref code message l1 l2 payload :
  tasks s = l1 ++ Reset ref code message :: l2 -> writers s !! ref = None -> sess_inv s ->
  sess_inv (emit (Sent (Some ref) 0 FlagSYN payload) (s <| tasks := l1 ++ l2 |>)).
Proof.
  intros Ht Hw [HT HR]. split.
  - assert (sess_inv (s <| tasks := l1 ++ l2 |>)) as [HT' _] by (by apply (client_inv_drop_task s (Reset ref code message) l1 l2)).
    destruct HT' as [T1 T2 T3 T4 T5 T6]. by split.
  - intros r. destruct (HR r) as [R0 R1 R2 R3]. rewrite Ht in R0, R1. rewrite count_app in R0, R1. cbn in R0, R1.
    pose proof (failed_nat_le (objs s) r). split; cbn; rewrite ?count_app; cbn.
    + lia.
    + destruct (decide (r = ref)) as [->|Hne]; [rewrite !bool_decide_true in * by done|rewrite !bool_decide_false in * by congruence]; cbn in *; lia.
    + intros Hv Hc w Hl. destruct (decide (r = ref)) as [->|Hne]; [congruence|]. rewrite bool_decide_false in Hc by congruence.
      apply (R2 Hv); [cbn in Hc; lia|done].
    + intros Hv. rewrite after_snoc. destruct (decide (count (is_reset_frame r) (log s) = 0)%nat) as [Hz|Hz]; [constructor|]. apply Forall_app. split; [exact (R3 Hv)|]. constructor; [|constructor]. cbn.
      destruct (decide (ref = r)) as [->|Hne]; [rewrite bool_decide_true in R1 by done; lia|]. by apply bool_decide_false.
Qed.

Lemma client_inv_run_task s t l1 l2 s' :
  tasks s = l1 ++ t :: l2 -> run_task send_error (s <| tasks := l1 ++ l2 |>) t = Some s' -> sess_inv s -> sess_inv s'.
Proof.
  intros Ht H Hi. set (s0 := s <| tasks := l1 ++ l2 |>) in *.
  destruct t as [ref flags payload|who ref err reset|who ref|ref code message| |ref]; cbn [run_task] in H.
  - apply (inv_write_start s0 ref flags payload); [done|]. by apply (client_inv_drop_task s (Write ref flags payload) l1 l2).
  - injection H as <-. by apply inv_resume, (client_inv_run_fail s who).
  - injection H as <-. by apply inv_resume, (inv_run_settle s who).
  - assert (sess_inv s0) as Hi0 by (by apply (client_inv_drop_task s (Reset ref code message) l1 l2)).
    destruct (writers s0 !! ref) eqn:Hw; [done|]. destruct (objs s0 !! ref) as [st|] eqn:Ho; [|done]. apply Some_inj in H. subst s'.
    destruct (flowControlEnabled s0) eqn:Ev.
    + unfold sendStreamReset, sendControlSYN, sendRawFrame. generalize (print_json (reset_json (id st) code message)) as payload.
      intros payload. destruct (ValidateFramePayload payload); [|exact Hi0]. destruct (sclosed s0 || negb (dc_open s0)); [exact Hi0|].
      exact (inv_reset s ref code message l1 l2 payload Ht Hw Hi).
    + apply inv_sendRawFrame; [|done]. split; [by eapply object_nonzero|congruence].
  - injection H as <-. set (listed := map Abandon (map_to_list (table s)).*2).
    refine (client_inv_core ((abandon_listed s) <| tasks := l1 ++ (l2 ++ listed) |>) _ _ _); [unfold abandon_listed, core; cbn; by rewrite app_assoc|].
    apply (client_inv_drop_task (abandon_listed s) Finish l1 (l2 ++ listed)); [done|unfold abandon_listed; cbn; by rewrite Ht, <- app_assoc|by left|by apply inv_abandon_listed].
  - destruct (objs s0 !! ref) as [st|] eqn:Ho; [|done]. injection H as <-. by apply (inv_run_abandon s ref st).
Qed.

Lemma client_inv_step s s' : session_step s s' -> sess_inv s -> sess_inv s'.
Proof.
  intros H Hi. destruct H.
  - apply inv_dispatch. by apply client_inv_emit.
  - by eapply inv_enqueue.
  - refine (inv_worker s s' ref _ Hi). auto.
  - refine (inv_worker s s' ref _ Hi). auto.
  - refine (inv_worker s s' ref _ Hi). auto.
  - refine (inv_worker s s' ref _ Hi). auto.
  - refine (inv_worker s s' ref _ Hi). auto 6.
  - by eapply client_inv_run_task.
  - unfold sendFrame. destruct (ValidateFramePayload _); [|done]. destruct (findStream _ _); [|done]. by apply client_inv_spawn.
  - by eapply client_inv_write_reserve.
  - by eapply client_inv_write_send.
  - by apply inv_OpenStream.
  - by apply inv_CloseStream.
  - by apply inv_finishStreams.
  - apply client_inv_emit; [done|]. refine (client_inv_core (finishStreams s) _ _ _); [reflexivity|]. by apply inv_finishStreams.
  - by refine (client_inv_core s _ _ Hi).
Qed.

Lemma client_inv_reachable version s : opened_session send_error unmarshal_error version s -> sess_inv s.
Proof. intros H. refine (steps_invariant _ sess_inv _ _ _ H (sess_inv_new version)). intros a b Ha Hab. by eapply client_inv_step. Qed.
End Steps.

(** * Each stream of the session is a stream of ClientStream.v *)

(** What may happen to one stream under flow control. *)
Inductive stream_step : delivered_stream -> delivered_stream -> Prop :=
| st_enqueue pick d f : stream_step d (mkDelivered (enqueue pick (st d) f true).1 (worker d))
| st_worker d o d' : worker_step d o d' -> stream_step d d'
| st_other d d' : other_step d d' -> stream_step d d'.

Definition delivery_of (w : option delivering) : delivery :=
  match w with
  | None => Exited
  | Some WIdle => Idle
  | Some (WHanding f) | Some (WCharging f) => Handing f
  | Some (WOwing m) => Owing m
  | Some WEnding => Exited
  end.

(** A worker past the FIN of its stream closes the inbox, and does nothing else. *)
Definition shut (w : option delivering) (st : stream) : stream :=
  match w with Some WEnding => st <| inbox_closed := true |> | _ => st end.

Definition project (s : Session) (ref : nat) : option delivered_stream :=
  (fun o => mkDelivered (shut (workers s !! ref) o) (delivery_of (workers s !! ref))) <$> objs s !! ref.

(** A stream as [OpenStream] leaves it: fresh, or dead when the session is closed. *)
Definition fresh (d : delivered_stream) : Prop :=
  exists sid, d = mkDelivered (newStream sid) Idle \/
    d = mkDelivered ((fail (newStream sid) errDataChannelClosed) <| inbox_closed := true |>) Exited.

Definition evolves (s s' : Session) : Prop :=
  NegotiatedVersion s' = NegotiatedVersion s /\ length (objs s') = length (objs s) /\
  (forall r, (length (objs s) <= r)%nat -> workers s !! r = None -> workers s' !! r = None) /\
  forall r d, project s r = Some d -> exists d', project s' r = Some d' /\ steps stream_step d d'.

Lemma evolves_refl s : evolves s s.
Proof. split_and!; try done. intros r d Hd. exists d. split; [done|constructor]. Qed.

Lemma evolves_trans s1 s2 s3 : evolves s1 s2 -> evolves s2 s3 -> evolves s1 s3.
Proof.
  intros (E1 & L1 & W1 & H1) (E2 & L2 & W2 & H2). split_and!; try congruence.
  { intros r Hr Hw. apply W2; [lia|]. by apply W1. }
  intros r d Hd. destruct (H1 r d Hd) as (d2 & Hd2 & S1).
  destruct (H2 r d2 Hd2) as (d3 & Hd3 & S2). exists d3. split; [done|]. by eapply steps_trans.
Qed.

(** Nothing but bookkeeping. *)
Lemma evolves_same s s' :
  NegotiatedVersion s' = NegotiatedVersion s -> objs s' = objs s -> workers s' = workers s -> evolves s s'.
Proof.
  intros Hv Ho Hw. split_and!; try done; [by rewrite Ho|by rewrite Hw|].
  intros r d Hd. exists d. split; [|constructor]. revert Hd. unfold project. by rewrite Ho, Hw.
Qed.

(** One stream moves. *)
Lemma evolves_at s s' ref st st' :
  NegotiatedVersion s' = NegotiatedVersion s -> objs s !! ref = Some st -> objs s' = <[ref := st']> (objs s) ->
  (forall r, r <> ref -> workers s' !! r = workers s !! r) ->
  steps stream_step (mkDelivered (shut (workers s !! ref) st) (delivery_of (workers s !! ref)))
    (mkDelivered (shut (workers s' !! ref) st') (delivery_of (workers s' !! ref))) ->
  evolves s s'.
Proof.
  intros Hv Ho Ho' Hw Hst. pose proof (lookup_lt_Some _ _ _ Ho) as Hlt. split_and!; [done|by rewrite Ho', length_insert| |].
  { intros r Hr Hn. by rewrite Hw by lia. }
  intros r d Hd. unfold project in *. rewrite Ho'. destruct (decide (r = ref)) as [->|Hne].
  - rewrite Ho in Hd. injection Hd as <-. rewrite (list_lookup_insert_eq _ _ _ Hlt). eauto.
  - rewrite list_lookup_insert_ne by done. rewrite (Hw r Hne). exists d. split; [done|constructor].
Qed.

Lemma other_one d d' : other_step d d' -> steps stream_step d d'.
Proof. intros H. by apply steps_one, st_other. Qed.

Lemma evolves_detach s ref st : evolves s (detachStream s ref st).1.
Proof. unfold detachStream. case_decide; [by apply evolves_same|apply evolves_refl]. Qed.

Lemma evolves_failStream s who ref code message notify : evolves s (failStream s who ref code message notify).
Proof.
  unfold failStream, detachStream. destruct (objs s !! ref) as [st|] eqn:Ho; [|apply evolves_refl].
  case_decide; cbn [negb]; [by apply evolves_same|apply evolves_refl].
Qed.

Lemma evolves_detachFinished s ref : evolves s (detachFinishedStream s ref).
Proof.
  unfold detachFinishedStream. destruct (objs s !! ref); [|apply evolves_refl]. destruct (_ && _); [apply evolves_detach|apply evolves_refl].
Qed.

Lemma evolves_leave s ref st st' :
  objs s !! ref = Some st ->
  steps stream_step (mkDelivered (shut (workers s !! ref) st) (delivery_of (workers s !! ref))) (mkDelivered (st' <| inbox_closed := true |>) Exited) ->
  evolves s (leave s ref st').
Proof.
  intros Ho Hst. apply (evolves_at s (leave s ref st') ref st (st' <| inbox_closed := true |>)); try done.
  - intros r Hne. cbn. by rewrite lookup_delete_ne.
  - cbn. by rewrite lookup_delete_eq.
Qed.

Lemma evolves_set s ref st st' w :
  objs s !! ref = Some st ->
  steps stream_step (mkDelivered (shut (workers s !! ref) st) (delivery_of (workers s !! ref))) (mkDelivered (shut (Some w) st') (delivery_of (Some w))) ->
  evolves s (set_worker (put s ref st') ref w).
Proof.
  intros Ho Hst. apply (evolves_at s _ ref st st'); try done.
  - intros r Hne. cbn. by rewrite lookup_insert_ne.
  - cbn. by rewrite lookup_insert_eq.
Qed.

(** An operation on a stream that does not look whether its inbox is closed. *)
Lemma evolves_put s ref (op : stream -> stream) st :
  objs s !! ref = Some st -> (forall w o, steps stream_step (mkDelivered o w) (mkDelivered (op o) w)) ->
  op (st <| inbox_closed := true |>) = (op st) <| inbox_closed := true |> -> evolves s (put s ref (op st)).
Proof.
  intros Ho Hst Hop. apply (evolves_at s _ ref st (op st)); try done. cbn.
  assert (shut (workers s !! ref) (op st) = op (shut (workers s !! ref) st)) as ->; [|apply Hst].
  by destruct (workers s !! ref) as [[]|].
Qed.

Lemma evolves_fail_detached s ref err reset : evolves s (fail_detached s ref err reset).
Proof.
  unfold fail_detached. destruct (objs s !! ref) as [st|] eqn:Ho; [|apply evolves_refl].
  assert (evolves s (put s ref (fail st err))) as Hp.
  { apply (evolves_put s ref (fun o => fail o err) st Ho); [intros w o; apply other_one, os_fail|]. by destruct st as [? ? ? ? ? ? ? ? ? ? ? ? ? ? []]. }
  destruct reset as [[]|]; [|done]. refine (evolves_trans _ _ _ Hp _). by apply evolves_same.
Qed.

Lemma evolves_resume s who : evolves s (resume s who).
Proof.
  destruct who as [|ref|ref|]; cbn [resume]; try apply evolves_refl; [|by apply evolves_same].
  destruct (workers s !! ref) as [[| | |m|]|] eqn:Hw; try apply evolves_refl; (destruct (objs s !! ref) as [st|] eqn:Ho; [|apply evolves_refl]);
    (eapply evolves_leave; [exact Ho|]); rewrite Hw; cbn; [|constructor]. apply other_one. by constructor.
Qed.

Section Refines.
Variable send_error : list output -> option string.
Variable unmarshal_error : bytes -> string.
Abbreviation session_step := (session_step send_error unmarshal_error).

Lemma evolves_send s owner sid flags payload : evolves s (sendRawFrame send_error s owner sid flags payload).1.
Proof.
  destruct (sendRawFrame_frame send_error s owner sid flags payload) as (E & Hw & _). unfold core in E. cbn in E.
  apply evolves_same; congruence.
Qed.

Lemma evolves_resetMalformed s payload j : evolves s (resetMalformedControl unmarshal_error s payload j).
Proof.
  unfold resetMalformedControl. destruct (field _ _ _ _). destruct (_ || _); [apply evolves_refl|].
  destruct (findStream _ _); [apply evolves_failStream|apply evolves_refl].
Qed.

Lemma decode_window_update_range j u ok : decode_window_update j = (u, ok) -> 0 <= wu_MaxBytes u < 2 ^ 64.
Proof.
  unfold decode_window_update. destruct (field decode_string _ _ j), (field (decode_uint 32) _ _ j).
  destruct (field (decode_uint 64) 0 $"max_bytes" j) as [m okm] eqn:E. intros [= <- _]. cbn. by eapply decode_uint_range.
Qed.

Lemma evolves_handleControl s f : evolves s (handleControl unmarshal_error s f).
Proof.
  unfold handleControl. destruct (negb _); [apply evolves_refl|]. destruct (parse_json _) as [j|]; [|apply evolves_refl].
  destruct (field _ _ _ j) as [type ok]. destruct (negb ok); [apply evolves_refl|]. case_decide.
  { destruct (decode_window_update j) as [u ok'] eqn:Eu. apply decode_window_update_range in Eu.
    destruct ok'; [|apply evolves_resetMalformed]. unfold applyWindowUpdate.
    destruct (findStream _ _) as [ref|]; [|apply evolves_refl]. destruct (_ || _); [apply evolves_failStream|].
    destruct (objs s !! ref) eqn:Ho; [|apply evolves_refl]. apply (evolves_put s ref (fun o => updateSendLimit o (wu_MaxBytes u)) _ Ho); [intros w o; by apply other_one, os_limit|].
    unfold updateSendLimit. cbn. by destruct (_ >? sendLimit _). }
  case_decide; [by apply evolves_same|]. case_decide; [|apply evolves_refl].
  destruct (field _ _ _ j) as [sid ok1], (field _ _ _ j) as [code ok2], (field _ _ _ j) as [message ok3].
  destruct (_ && _); [|apply evolves_resetMalformed]. destruct (findStream _ _); [apply evolves_failStream|apply evolves_refl].
Qed.

Lemma evolves_dispatch s data : evolves s (dispatch unmarshal_error s data).
Proof.
  unfold dispatch. destruct (ParseFrame data) as [f|]; [|apply evolves_refl].
  destruct (_ =? 0); [destruct (flowControlEnabled s); [apply evolves_handleControl|apply evolves_refl]|].
  destruct (findStream _ _); [by apply evolves_same|apply evolves_refl].
Qed.

Lemma enqueue_shut pick o f b :
  enqueue pick (o <| inbox_closed := true |>) f b = (((enqueue pick o f b).1) <| inbox_closed := true |>, (enqueue pick o f b).2).
Proof.
  assert (enqueue_account (o <| inbox_closed := true |>) f b =
    match enqueue_account o f b with Ok o' => Ok (o' <| inbox_closed := true |>) | Err e => Err e end) as E.
  { unfold enqueue_account. cbn. destruct (inboundFIN o); [done|]. destruct (_ && _); [done|]. destruct (_ && _); [done|]. destruct (_ || _); [done|]. by destruct (IsFIN f). }
  unfold enqueue. rewrite E. destruct (enqueue_account o f b) as [o'|]; [|done]. cbn. destruct (_ && _); [done|]. destruct o'. cbn. by case_step.
Qed.

Lemma evolves_enqueue pick s s' : flowControlEnabled s = true -> dispatch_enqueue pick s = Some s' -> evolves s s'.
Proof.
  intros Hv H. unfold dispatch_enqueue in H. destruct (dispatching s) as [[ref f]|]; [|done].
  destruct (objs s !! ref) as [st|] eqn:Ho; [|done]. rewrite Hv in H.
  assert (evolves s (put (s <| dispatching := None |>) ref (enqueue pick st f true).1)) as Hp.
  { refine (evolves_trans _ (s <| dispatching := None |>) _ _ _); [by apply evolves_same|].
    apply (evolves_put _ ref (fun o => (enqueue pick o f true).1) st Ho).
    - intros w o. exact (steps_one _ _ _ (st_enqueue pick (mkDelivered o w) f)).
    - by rewrite enqueue_shut. }
  destruct (enqueue pick st f true) as [st' err]. cbn in Hp.
  apply Some_inj in H. subst s'. destruct err as [[]|]; try exact Hp; (refine (evolves_trans _ _ _ Hp _); apply evolves_failStream).
Qed.

Lemma evolves_worker s ref s' :
  flowControlEnabled s = true ->
  worker_take s ref = Some s' \/ worker_hand s ref = Some s' \/ worker_charge s ref = Some s' \/
  worker_update send_error s ref = Some s' \/ worker_quit s ref = Some s' -> evolves s s'.
Proof.
  intros Hv H. destruct H as [H|[H|[H|[H|H]]]].
  - unfold worker_take in H. destruct (workers s !! ref) as [[]|] eqn:Hw; try done. destruct (objs s !! ref) as [st|] eqn:Ho; [|done].
    destruct (pending st) as [|f q] eqn:Hq; [done|]. injection H as <-. eapply evolves_set; [exact Ho|]. rewrite Hw.
    apply steps_one. refine (st_worker _ None _ (ws_take st f q Hq)).
  - unfold worker_hand in H. destruct (workers s !! ref) as [[]|] eqn:Hw; try done. injection H as <-. split_and!; try done.
    + intros r _ Hr. cbn. by rewrite lookup_insert_ne by congruence.
    + intros r d Hd. exists d. split; [|constructor]. revert Hd. unfold project. cbn.
      destruct (decide (r = ref)) as [->|]; [by rewrite lookup_insert_eq, Hw|by rewrite lookup_insert_ne].
  - unfold worker_charge in H. destruct (workers s !! ref) as [[| |f| |]|] eqn:Hw; try done. destruct (objs s !! ref) as [st|] eqn:Ho; [|done].
    rewrite Hv in H. destruct (consume st f true) as [st1 u] eqn:Ec. destruct (IsFIN f) eqn:Ef; injection H as <-.
    + refine (evolves_trans _ (set_worker (put s ref (st1 <| inboundDelivered := true |>)) ref WEnding) _ _ _); [|by apply evolves_same].
      eapply evolves_set; [exact Ho|]. rewrite Hw. apply steps_one. refine (st_worker _ None _ _). by eapply ws_fin.
    + eapply evolves_set; [exact Ho|]. rewrite Hw. apply steps_one. refine (st_worker _ None _ _).
      pose proof (ws_handed st f st1 u Ef Ec) as Hd. by destruct u.
  - unfold worker_update in H. destruct (busy _ _); [done|]. destruct (workers s !! ref) as [[| | |m|]|] eqn:Hw; try done. destruct (objs s !! ref) as [st|] eqn:Ho; [|done].
    pose proof (evolves_send s None 0 FlagSYN (print_json (window_update_json (id st) m))) as Hs.
    destruct (sendRawFrame_frame send_error s None 0 FlagSYN (print_json (window_update_json (id st) m))) as (Hc & Hw1 & _).
    unfold sendWindowUpdate, sendControlSYN in H. destruct (sendRawFrame _ _ _ _ _ _) as [s1 err]. cbn [fst] in *.
    assert (objs s1 = objs s) as Ho1 by (unfold core in Hc; cbn in Hc; congruence). apply (evolves_trans _ _ _ Hs). destruct err as [e|].
    + apply Some_inj in H. subst s'. refine (evolves_trans _ _ _ (evolves_failStream s1 (Worker ref) ref $"control_send_failed" (text e) false) _).
      destruct (busy _ _); [apply evolves_refl|apply (evolves_resume _ (Worker ref))].
    + injection H as <-. rewrite <- Ho1 in Ho.
      refine (evolves_at s1 (set_worker s1 ref WIdle) ref st st _ Ho _ _ _); [done|by rewrite list_insert_id| |].
      * intros r Hne. cbn. by rewrite lookup_insert_ne.
      * rewrite Hw1, Hw. cbn. rewrite lookup_insert_eq. apply steps_one. refine (st_worker _ (Some m) _ _). apply ws_update.
  - unfold worker_quit in H. destruct (workers s !! ref) as [[|f| | |]|] eqn:Hw; try done; (destruct (objs s !! ref) as [st|] eqn:Ho; [|done]);
      (destruct (_ || _); [|done]); injection H as <-; (eapply evolves_leave; [exact Ho|]); rewrite Hw; apply other_one; by constructor.
Qed.

Lemma evolves_tasks s ts : evolves s (s <| tasks := ts |>).
Proof. by apply evolves_same. Qed.

Lemma evolves_writers s wr : evolves s (s <| writers := wr |>).
Proof. by apply evolves_same. Qed.

Lemma evolves_run_task s t s' : flowControlEnabled s = true -> run_task send_error s t = Some s' -> evolves s s'.
Proof.
  intros Hv H. destruct t as [ref flags payload|who ref err reset|who ref|ref code message| |ref]; cbn [run_task] in H.
  - unfold write_start in H. destruct (writers s !! ref); [done|]. destruct (objs s !! ref) as [st|] eqn:Ho; [|done]. injection H as <-.
    destruct (outboundFIN st); [apply evolves_refl|]. rewrite Hv. cbn [negb]. destruct (_ && _); [apply evolves_refl|].
    refine (evolves_trans _ _ _ _ (evolves_writers _ _)). destruct (IsSYN _); [|apply evolves_refl].
    apply (evolves_put s ref activateInitialWindow st Ho); [intros w o; apply other_one, os_activate|].
    unfold activateInitialWindow, updateSendLimit. cbn. by repeat case_step.
  - injection H as <-. exact (evolves_trans _ _ _ (evolves_fail_detached s ref err reset) (evolves_resume _ who)).
  - injection H as <-. exact (evolves_trans _ _ _ (evolves_detachFinished s ref) (evolves_resume _ who)).
  - destruct (writers s !! ref); [done|]. destruct (objs s !! ref); [|done]. apply Some_inj in H. subst s'.
    destruct (flowControlEnabled s); apply evolves_send.
  - injection H as <-. by apply evolves_same.
  - destruct (objs s !! ref) as [st|] eqn:Ho; [|done]. injection H as <-.
    apply (evolves_put s ref abandon st Ho); [intros w o; apply other_one, os_abandon|done].
Qed.

Lemma evolves_write_reserve s ref s' : write_reserve s ref = Some s' -> evolves s s'.
Proof.
  unfold write_reserve. intros H. destruct (writers s !! ref) as [w|] eqn:Hw; [|done]. destruct (objs s !! ref) as [st|] eqn:Ho; [|done].
  destruct (w_reserved w); [done|]. set (f := mkFrame (id st) (w_flags w) (w_payload w)) in *.
  set (wr := <[ref := mkWriter (w_flags w) (w_payload w) true]> (writers s)) in *.
  assert (evolves s (put (s <| writers := wr |>) ref (reserveSend st (FlowBytes f)).1)) as Hp.
  { apply (evolves_trans _ _ _ (evolves_writers s wr)).
    apply (evolves_put (s <| writers := wr |>) ref (fun o => (reserveSend o (FlowBytes f)).1) st Ho).
    - intros w' o. apply other_one, os_reserve, FlowBytes_range.
    - destruct st. unfold reserveSend. cbn. by repeat case_step. }
  destruct (reserveSend st (FlowBytes f)) as [st' []].
  - by injection H as <-.
  - injection H as <-. apply evolves_writers.
  - destruct (_ || _); [|done]. injection H as <-. apply evolves_writers.
Qed.

Lemma evolves_write_send s ref s' : write_send send_error s ref = Some s' -> evolves s s'.
Proof.
  unfold write_send. intros H. destruct (busy _ _); [done|]. destruct (writers s !! ref) as [w|] eqn:Hw; [|done]. destruct (objs s !! ref) as [st|] eqn:Ho; [|done].
  destruct (negb _); [done|]. pose proof (evolves_send s (Some ref) (id st) (w_flags w) (w_payload w)) as Hs.
  pose proof (sendRawFrame_objs send_error s (Some ref) (id st) (w_flags w) (w_payload w)) as Hobjs.
  destruct (sendRawFrame _ _ _ _ _ _) as [s1 err]. cbn [fst] in *. set (s2 := match err with Some _ => _ | None => _ end) in H.
  apply (evolves_trans _ _ _ Hs). assert (evolves s1 s2) as H2.
  { subst s2. destruct err; [destruct (_ && _); [apply evolves_failStream|apply evolves_refl]|]. destruct (IsFIN _); [|apply evolves_refl].
    refine (evolves_trans _ (put s1 ref (st <| outboundFIN := true |>)) _ _ _); [|by apply evolves_same].
    apply (evolves_put s1 ref (fun o => o <| outboundFIN := true |>)); [by rewrite Hobjs| |done]. intros w' o. apply other_one, os_fin. }
  injection H as <-. apply (evolves_trans _ _ _ H2). destruct (busy _ _); [apply evolves_refl|apply evolves_writers].
Qed.

Lemma evolves_CloseStream s ref : evolves s (CloseStream s ref).
Proof.
  unfold CloseStream, detachStream. destruct (objs s !! ref) as [st|] eqn:Ho; [|apply evolves_refl]. destruct (_ || _); [apply evolves_failStream|].
  case_decide; [by apply evolves_same|apply evolves_refl].
Qed.

Lemma evolves_sendFrame s sid flags payload : evolves s (sendFrame s sid flags payload).
Proof.
  unfold sendFrame. destruct (ValidateFramePayload _); [|apply evolves_refl]. destruct (findStream _ _); [by apply evolves_same|apply evolves_refl].
Qed.

(** A new stream appears behind the others, which do not change. *)
Lemma OpenStream_projects s :
  (forall r, (length (objs s) <= r)%nat -> workers s !! r = None) ->
  NegotiatedVersion (OpenStream s).1 = NegotiatedVersion s /\
  (forall r, (length (objs (OpenStream s).1) <= r)%nat -> workers (OpenStream s).1 !! r = None) /\
  forall r d, project (OpenStream s).1 r = Some d -> project s r = Some d \/ fresh d.
Proof.
  intros Hw. unfold OpenStream, project. cbn [fst sclosed upd]. destruct (sclosed s); cbn; split_and!; try done.
  - intros r. rewrite length_app. cbn. intros. apply Hw. lia.
  - intros r d Hd. destruct (decide (r < length (objs s))%nat); [rewrite lookup_app_l in Hd by done; by left|].
    right. rewrite (Hw r) in Hd by lia. rewrite lookup_app_r in Hd by lia.
    destruct (r - length (objs s))%nat; [|done]. cbn in Hd. injection Hd as <-. eexists. by right.
  - intros r. rewrite length_app. cbn. intros. rewrite lookup_insert_ne by lia. apply Hw. lia.
  - intros r d Hd. destruct (decide (r < length (objs s))%nat).
    + rewrite lookup_app_l, lookup_insert_ne in Hd by lia. by left.
    + right. rewrite lookup_app_r in Hd by lia. destruct (r - length (objs s))%nat eqn:E; [|done].
      replace r with (length (objs s)) in Hd by lia. rewrite lookup_insert_eq in Hd. cbn in Hd. injection Hd as <-. eexists. by left.
Qed.

Lemma step_evolves s s' :
  flowControlEnabled s = true -> session_step s s' -> evolves s s' \/ s' = (OpenStream s).1.
Proof.
  intros Hv H. destruct H.
  - left. refine (evolves_trans _ (emit (Received data) s) _ _ (evolves_dispatch _ _)). by apply evolves_same.
  - left. by eapply evolves_enqueue.
  - left. apply (evolves_worker s ref); auto.
  - left. apply (evolves_worker s ref); auto.
  - left. apply (evolves_worker s ref); auto.
  - left. apply (evolves_worker s ref); auto.
  - left. apply (evolves_worker s ref); auto 6.
  - left. refine (evolves_trans _ _ _ (evolves_tasks s (l1 ++ l2)) _). by eapply evolves_run_task.
  - left. apply evolves_sendFrame.
  - left. by eapply evolves_write_reserve.
  - left. by eapply evolves_write_send.
  - by right.
  - left. apply evolves_CloseStream.
  - left. by apply evolves_same.
  - left. by apply evolves_same.
  - left. by apply evolves_same.
Qed.

(** What every reachable state of a flow-controlled session says of its streams. *)
Definition simulated (version : Z) (s : Session) : Prop :=
  NegotiatedVersion s = version /\
  (forall r, (length (objs s) <= r)%nat -> workers s !! r = None) /\
  forall r d, project s r = Some d -> exists d0, fresh d0 /\ steps stream_step d0 d.

Lemma simulated_reachable version s :
  4 <= version -> opened_session send_error unmarshal_error version s -> simulated version s.
Proof.
  intros Hv H. refine (steps_invariant _ (simulated version) _ _ _ H _); [|by split_and!].
  intros a b (Ea & Wa & Sa) Hab. assert (flowControlEnabled a = true) as Hf by (unfold flowControlEnabled; lia).
  destruct (step_evolves a b Hf Hab) as [(Eb & Lb & Wb & Sb)| -> ].
  - split_and!; [congruence| |].
    + intros r Hr. rewrite Lb in Hr. auto.
    + intros r d Hd. destruct (project a r) as [d1|] eqn:E1.
      * destruct (Sa _ _ E1) as (d0 & Hd0 & Hs0). destruct (Sb _ _ E1) as (d' & Hd' & Hs'). rewrite Hd in Hd'. injection Hd' as <-.
        exists d0. split; [done|]. by eapply steps_trans.
      * exfalso. unfold project in *. apply fmap_Some in Hd as (o & Ho & _). apply fmap_None in E1.
        apply lookup_lt_Some in Ho. apply lookup_ge_None in E1. lia.
  - destruct (OpenStream_projects a Wa) as (Eo & Wo & So). split_and!; [congruence|done|].
    intros r d Hd. destruct (So r d Hd) as [Hd'|Hd']; [by apply Sa with r|]. exists d. split; [done|constructor].
Qed.
End Refines.

(** * The memory a stream holds *)

Definition holding (w : delivery) : list Frame := match w with Handing f => [f] | _ => [] end.

Fixpoint payload_sum (fs : list Frame) : Z :=
  match fs with [] => 0 | f :: fs' => zlen (Payload f) + payload_sum fs' end.

Lemma payload_sum_app l k : payload_sum (l ++ k) = payload_sum l + payload_sum k.
Proof. induction l as [|f l IH]; cbn; [done|]. rewrite IH. lia. Qed.

Lemma payload_sum_nonneg l : 0 <= payload_sum l.
Proof. induction l as [|f l IH]; cbn; [done|]. pose proof (zlen_nonneg (Payload f)). lia. Qed.

(** The queue counters of a stream are those of the frames it holds. *)
Definition queue_ok (d : delivered_stream) : Prop :=
  let frames := holding (worker d) ++ pending (st d) in
  queuedFrames (st d) = zlen frames /\ queuedBytes (st d) = payload_sum frames /\
  queuedFrames (st d) <= MaxQueuedStreamFrames /\ queuedBytes (st d) <= InitialStreamWindow.

(** The fields it reads. *)
Definition queue_view (s : stream) := (pending s, queuedFrames s, queuedBytes s).

Lemma queue_ok_view s s' w w' :
  queue_view s' = queue_view s -> holding w' = holding w -> queue_ok (mkDelivered s w) -> queue_ok (mkDelivered s' w').
Proof. unfold queue_ok, queue_view. cbn. by intros [= -> -> ->] ->. Qed.

Lemma queue_ok_release s f :
  queue_ok (mkDelivered s (Handing f)) -> forall w, holding w = [] -> queue_ok (mkDelivered (release s f) w).
Proof.
  unfold queue_ok. cbn. intros (H1 & H2 & H3 & H4) w ->. rewrite zlen_cons in H1. pose proof (zlen_nonneg (Payload f)).
  cbn. split_and!; lia.
Qed.

Lemma queue_ok_consume s f o s' :
  consume s f true = (s', o) -> queue_ok (mkDelivered s (Handing f)) -> forall w, holding w = [] -> queue_ok (mkDelivered s' w).
Proof.
  intros Hc Hq w Hw. refine (queue_ok_view (release s f) s' w w _ eq_refl (queue_ok_release s f Hq w Hw)).
  unfold consume in Hc. destruct (negb true || _); [by injection Hc as <- _|].
  destruct (_ <? _); by injection Hc as <- _.
Qed.

Lemma queue_ok_enqueue pick d f : queue_ok d -> queue_ok (mkDelivered (enqueue pick (st d) f true).1 (worker d)).
Proof.
  destruct d as [s w]. cbn [st worker]. intros Hq. pose proof (client_enqueue_cases pick s f true) as Hc.
  destruct (enqueue pick s f true) as [s' [e|]]; cbn [fst].
  - destruct Hc as (E1 & E2 & E3 & _). refine (queue_ok_view s s' w w _ eq_refl Hq). unfold queue_view. congruence.
  - destruct Hc as (_ & _ & Hn & Hb & _ & ->). destruct Hq as (H1 & H2 & _ & _). unfold queue_ok. cbn in *.
    rewrite app_assoc, zlen_app, payload_sum_app. cbn. change (zlen [f]) with 1. split_and!; lia.
Qed.

Lemma queue_view_fail s e : queue_view (fail s e) = queue_view s.
Proof. unfold fail. by case_match. Qed.

Lemma client_queue_ok_step d d' : stream_step d d' -> queue_ok d -> queue_ok d'.
Proof.
  intros [pick x f|x o x' Hw|x x' Ho] Hq; [by apply queue_ok_enqueue| |].
  - destruct Hw as [s f q Hp|s f s' o _ Hc|s f s' o _ Hc|s m].
    + unfold queue_ok in *. cbn in *. by rewrite Hp in Hq.
    + eapply (queue_ok_consume s f o s' Hc Hq). by destruct o.
    + refine (queue_ok_view s' _ Exited Exited _ eq_refl _); [done|]. by eapply queue_ok_consume.
    + done.
  - destruct Ho as [s w e|s w n _|s w m _|s w|s w|s w b|s w Hw|s f]; try (refine (queue_ok_view s _ w w _ eq_refl Hq)).
    + apply queue_view_fail.
    + unfold reserveSend. by repeat case_step.
    + unfold updateSendLimit. by case_step.
    + unfold activateInitialWindow, updateSendLimit. by repeat case_step.
    + done.
    + done.
    + refine (queue_ok_view s _ w Exited _ _ Hq); [done|by destruct w].
    + refine (queue_ok_view (release s f) _ Exited Exited eq_refl eq_refl _). by apply queue_ok_release.
Qed.

Lemma queue_ok_fresh d : fresh d -> queue_ok d.
Proof. intros (sid & [->| ->]); unfold queue_ok; vm_compute; split_and!; done. Qed.

(** * Properties *)

(** The connector's session keeps each of its streams in the states of ClientStream.v: whatever messages arrive and
    however its goroutines interleave, a stream is in a state that it reaches by the steps of that file from the
    one in which [OpenStream] created it, an inbox counting as closed once its worker is past the FIN. *)
Theorem session_refines_streams send_error unmarshal_error version s ref st :
  4 <= version -> opened_session send_error unmarshal_error version s -> objs s !! ref = Some st ->
  exists d0, fresh d0 /\ steps stream_step d0 (mkDelivered (shut (workers s !! ref) st) (delivery_of (workers s !! ref))).
Proof.
  intros Hv Hs Ho. destruct (simulated_reachable _ _ _ _ Hv Hs) as (_ & _ & Hsim). apply (Hsim ref).
  unfold project. by rewrite Ho.
Qed.

(** In every reachable state of a flow-controlled session, the frames a stream holds for its caller,
    queued or in its worker's hands, are at most [MaxQueuedStreamFrames] and their payloads at most one
    window, whatever the device sends. *)
Theorem client_memory_bounded send_error unmarshal_error version s ref st :
  4 <= version -> opened_session send_error unmarshal_error version s -> objs s !! ref = Some st ->
  let frames := holding (delivery_of (workers s !! ref)) ++ pending st in
  zlen frames <= MaxQueuedStreamFrames /\ payload_sum frames <= InitialStreamWindow.
Proof.
  intros Hv Hs Ho. destruct (simulated_reachable _ _ _ _ Hv Hs) as (_ & _ & Hsim).
  destruct (Hsim ref (mkDelivered (shut (workers s !! ref) st) (delivery_of (workers s !! ref)))) as (d0 & Hf & Hst); [unfold project; by rewrite Ho|].
  pose proof (steps_invariant _ queue_ok (fun a b Ha Hab => client_queue_ok_step a b Hab Ha) _ _ Hst (queue_ok_fresh _ Hf)) as Hq.
  unfold queue_ok in Hq. cbn [ClientStream.st ClientStream.worker] in Hq.
  assert (queue_view (shut (workers s !! ref) st) = queue_view st) as Ev by (by destruct (workers s !! ref) as [[]|]).
  unfold queue_view in Ev. injection Ev as E1 E2 E3. rewrite E1, E2, E3 in Hq. destruct Hq as (H1 & H2 & H3 & H4).
  cbn zeta. rewrite <- H1, <- H2. by split.
Qed.

(** The connector's table: each entry points to a stream of that ID that has neither failed nor been abandoned, that nobody
    is about to fail or abandon, and that has not finished in both directions unless a goroutine is about to find
    so; and while stream IDs have not wrapped every stream that is open in this sense and has not finished is the
    entry of its ID. So once no such task is left the table names exactly the live streams. ID 0, the control stream,
    is never in it, and a closed session whose [finishStreams] emptied it has an empty table. *)
Theorem client_table_exact send_error unmarshal_error version s :
  opened_session send_error unmarshal_error version s -> few s ->
  (forall sid ref, table s !! sid = Some ref -> exists st, objs s !! ref = Some st /\ id st = sid /\ intact st = true /\
     leaving s ref = 0%nat /\ (finished st = true -> (0 < count (is_settle_task ref) (tasks s))%nat)) /\
  (forall ref st, objs s !! ref = Some st -> live st = true -> leaving s ref = 0%nat -> table s !! id st = Some ref) /\
  ((forall ref, leaving s ref = 0%nat /\ count (is_settle_task ref) (tasks s) = 0%nat) ->
   forall sid ref, table s !! sid = Some ref <-> exists st, objs s !! ref = Some st /\ id st = sid /\ live st = true) /\
  table s !! 0 = None /\
  (sclosed s = true -> Finish ∉ tasks s -> table s = ∅).
Proof.
  intros Hs Hf. pose proof (client_inv_reachable _ _ _ _ Hs) as Hi. pose proof (proj1 Hi) as HT. split_and!.
  - apply (table_live _ HT).
  - intros ref st. by apply (live_table _ HT).
  - intros Hq sid ref. destruct (Hq ref) as [Hl Hst]. split.
    + intros (st & Ho & Hid & Hin & _ & Hd)%(table_live _ HT). exists st. split_and!; [done|done|]. unfold live. rewrite Hin. cbn.
      destruct (finished st); [specialize (Hd eq_refl); lia|done].
    + intros (st & Ho & <- & Hlv). by apply (live_table _ HT).
  - destruct (table s !! 0) as [ref|] eqn:E; [|done]. destruct (table_live _ HT _ _ E) as (st & Ho & Hid & _).
    exfalso. by apply (object_nonzero s ref st Hi Ho).
  - intros Hc Hn. destruct (table_closed _ HT Hc); done.
Qed.

(** The connector resets a stream at most once, and after the reset it sends no further frame of that
    stream, whatever arrives and however writers and failures interleave. *)
Theorem client_reset_terminal send_error unmarshal_error version s ref :
  4 <= version -> opened_session send_error unmarshal_error version s ->
  (count (is_reset_frame ref) (log s) <= 1)%nat /\
  forall o, o ∈ after (is_reset_frame ref) (log s) -> owned_by ref o = false.
Proof.
  intros Hv Hs. destruct (simulated_reachable _ _ _ _ Hv Hs) as (Ev & _).
  destruct (proj2 (client_inv_reachable _ _ _ _ Hs) ref) as [_ R1 _ R3]. pose proof (failed_nat_le (objs s) ref). split; [lia|].
  apply Forall_forall. apply R3. unfold flowControlEnabled. lia.
Qed.

(** A session with one stream, that its caller closes. *)
Definition closing_stream : Session := CloseStream (OpenStream (newSession 4)).1 0.
Definition stream_close : task := Fail Caller 0 (errMessage "stream closed") (Some ($"cancelled", $"stream closed")).
Definition example_session : Session := match run_task (fun _ => None) (closing_stream <| tasks := [] |>) stream_close with Some s => s | None => closing_stream end.

Lemma example_reachable : opened_session (fun _ => None) (fun _ => EmptyString) 4 example_session.
Proof.
  eapply steps_cons; [apply ss_open|]. eapply steps_cons; [apply (ss_close_stream _ _ _ 0)|]. apply steps_one.
  apply (ss_task _ _ closing_stream stream_close [] []); vm_compute; reflexivity.
Defined.

Lemma session_refines_streams_witness :
  exists st, objs example_session !! 0%nat = Some st /\
  exists d0, fresh d0 /\ steps stream_step d0 (mkDelivered (shut (workers example_session !! 0%nat) st) (delivery_of (workers example_session !! 0%nat))).
Proof.
  eexists. split; [vm_compute; reflexivity|].
  apply (session_refines_streams (fun _ => None) (fun _ => EmptyString) 4); [lia|apply example_reachable|vm_compute; reflexivity].
Defined.

Lemma client_memory_bounded_witness :
  exists st, objs example_session !! 0%nat = Some st /\
  zlen (holding (delivery_of (workers example_session !! 0%nat)) ++ pending st) <= MaxQueuedStreamFrames.
Proof.
  eexists. split; [vm_compute; reflexivity|].
  apply (client_memory_bounded (fun _ => None) (fun _ => EmptyString) 4 example_session); [lia|apply example_reachable|vm_compute; reflexivity].
Defined.

Lemma client_table_exact_witness :
  let s := (OpenStream (newSession 4)).1 in
  table s !! 1 = Some 0%nat /\ exists st, objs s !! 0%nat = Some st /\ id st = 1 /\ live st = true.
Proof.
  split; [vm_compute; reflexivity|].
  apply (client_table_exact (fun _ => None) (fun _ => EmptyString) 4 (OpenStream (newSession 4)).1);
    [apply steps_one, ss_open|vm_compute; discriminate|intros ref; by split|vm_compute; reflexivity].
Defined.

Lemma client_reset_terminal_witness :
  exists s, count (is_reset_frame 0) (log s) = 1%nat /\ opened_session (fun _ => None) (fun _ => EmptyString) 4 s /\
  forall o, o ∈ after (is_reset_frame 0) (log s) -> owned_by 0 o = false.
Proof.
  pose (t := Reset 0 $"cancelled" $"stream closed").
  pose (s := sendStreamReset (fun _ => None) (example_session <| tasks := [] |>) (Some 0%nat) 1 $"cancelled" $"stream closed").
  assert (opened_session (fun _ => None) (fun _ => EmptyString) 4 s.1) as Hs.
  { refine (steps_trans _ _ _ _ example_reachable (steps_one _ _ _ _)).
    apply (ss_task _ _ example_session t [] []); vm_compute; reflexivity. }
  exists s.1. split_and!; [vm_compute; reflexivity|exact Hs|].
  apply (client_reset_terminal (fun _ => None) (fun _ => EmptyString) 4 s.1 0); [lia|exact Hs].
Defined.
