(* ===== verification/ClientInbox.v ===== *)
(** What the caller of a connector's stream reads (ClientSession.v): the frames its worker hands over are
    the first of those that arrived with the stream's ID since it was opened, in order, none twice and none
    skipped, and none of another stream's. *)

From S2P Require Import Prelude Protocol FlowControl ClientStream Json ClientSession ClientSessionSpec.

Definition routed_of (ref : nat) (o : output) : list Frame :=
  match o with Routed r f => if decide (r = ref) then [f] else [] | _ => [] end.
Definition delivered_of (ref : nat) (o : output) : list Frame :=
  match o with Delivered r f => if decide (r = ref) then [f] else [] | _ => [] end.

(** The frames the dispatcher routed to a stream, and those its caller read. *)
Definition routed (ref : nat) (l : list output) : list Frame := l ≫= routed_of ref.
Definition delivered (ref : nat) (l : list output) : list Frame := l ≫= delivered_of ref.

(** The frames that arrived with an ID. *)
Definition arrived_with (sid : Z) (o : output) : list Frame :=
  match o with
  | Received data => match ParseFrame data with Ok f => if decide (StreamID f = sid) then [f] else [] | Err _ => [] end
  | _ => []
  end.
Definition arrived (sid : Z) (l : list output) : list Frame := l ≫= arrived_with sid.

#[global] Arguments arrived : simpl never.
#[global] Arguments routed : simpl never.
#[global] Arguments delivered : simpl never.

Lemma routed_snoc ref l o : routed ref (l ++ [o]) = routed ref l ++ routed_of ref o.
Proof. unfold routed. rewrite bind_app. cbn. by rewrite app_nil_r. Qed.

Lemma delivered_snoc ref l o : delivered ref (l ++ [o]) = delivered ref l ++ delivered_of ref o.
Proof. unfold delivered. rewrite bind_app. cbn. by rewrite app_nil_r. Qed.

Lemma routed_app ref l k : routed ref (l ++ k) = routed ref l ++ routed ref k.
Proof. apply bind_app. Qed.

Lemma delivered_app ref l k : delivered ref (l ++ k) = delivered ref l ++ delivered ref k.
Proof. apply bind_app. Qed.

Lemma arrived_app sid l k : arrived sid (l ++ k) = arrived sid l ++ arrived sid k.
Proof. apply bind_app. Qed.

(** What a worker took and has not handed over. *)
Definition unread (w : delivering) : list Frame := match w with WHanding f => [f] | _ => [] end.

(** No frame can be routed to the stream any more. *)
Definition gone (s : Session) (ref : nat) : Prop := forall sid, table s !! sid <> Some ref.

(** The routed frames that were not queued: the one being dispatched, or any once the stream is gone. *)
Definition unqueued (s : Session) (ref : nat) (rest : list Frame) : Prop :=
  match dispatching s with
  | Some (r, f) => if decide (r = ref) then rest = [f] else rest = [] \/ gone s ref
  | None => rest = [] \/ gone s ref
  end.

Definition inbox_ok (s : Session) (ref : nat) : Prop :=
  match workers s !! ref with
  | None => delivered ref (log s) `prefix_of` routed ref (log s)
  | Some w => exists st rest, objs s !! ref = Some st /\ unqueued s ref rest /\
      routed ref (log s) = delivered ref (log s) ++ unread w ++ pending st ++ rest
  end.

Definition unborn (s : Session) (ref : nat) : Prop :=
  workers s !! ref = None /\ routed ref (log s) = [] /\ delivered ref (log s) = [] /\
  forall f, dispatching s <> Some (ref, f).

Definition inbox_inv (s : Session) : Prop :=
  forall ref, inbox_ok s ref /\ ((length (objs s) <= ref)%nat -> unborn s ref).

(** Steps that leave the inboxes alone, except that a worker may return. *)
Record quiet (s s' : Session) : Prop := {
  q_objs : pending <$> objs s' = pending <$> objs s;
  q_grows : exists k, log s' = log s ++ k /\ (forall ref, routed ref k = [] /\ delivered ref k = []) /\ forall sid, arrived sid k = [];
  q_dispatching : dispatching s' = dispatching s;
  q_workers ref : workers s' !! ref = None \/ unread <$> workers s' !! ref = unread <$> workers s !! ref;
  q_table sid ref : table s' !! sid = Some ref -> table s !! sid = Some ref;
}.

Lemma q_log s s' ref : quiet s s' -> routed ref (log s') = routed ref (log s) /\ delivered ref (log s') = delivered ref (log s).
Proof.
  intros H. destruct (q_grows _ _ H) as (k & -> & Hk & _). destruct (Hk ref) as [E1 E2].
  by rewrite routed_app, delivered_app, E1, E2, !app_nil_r.
Qed.

(** A step that says nothing. *)
Lemma silent s s' : log s' = log s ->
  exists k, log s' = log s ++ k /\ (forall ref, routed ref k = [] /\ delivered ref k = []) /\ forall sid, arrived sid k = [].
Proof. intros E. exists []. by rewrite app_nil_r. Qed.

#[local] Hint Resolve silent : core.

Lemma quiet_refl s : quiet s s.
Proof. split; auto. Qed.

Lemma quiet_trans s1 s2 s3 : quiet s1 s2 -> quiet s2 s3 -> quiet s1 s3.
Proof.
  intros [O1 L1 D1 W1 T1] [O2 L2 D2 W2 T2]. split; [congruence| |congruence| |auto].
  - destruct L2 as (k2 & -> & A2 & B2), L1 as (k1 & -> & A1 & B1). exists (k1 ++ k2). rewrite app_assoc. split_and!; [done| |].
    + intros r. destruct (A1 r) as [E1 E2], (A2 r) as [E3 E4]. by rewrite routed_app, delivered_app, E1, E2, E3, E4.
    + intros i. by rewrite arrived_app, B1, B2.
  - intros r. destruct (W2 r) as [?|E2]; [by left|]. destruct (W1 r) as [E1|E1]; [|right; congruence].
    left. rewrite E1 in E2. by destruct (workers s3 !! r).
Qed.

Lemma quiet_inbox s s' : quiet s s' -> inbox_inv s -> inbox_inv s'.
Proof.
  intros Hq Hi ref. destruct (Hi ref) as [Hok Hun]. destruct (q_log _ _ ref Hq) as [Lr Ld]. destruct Hq as [O _ D W T].
  assert (gone s ref -> gone s' ref) as Hg by (intros Hg sid Hs; by apply (Hg sid), T).
  assert (length (objs s') = length (objs s)) as Hlen.
  { pose proof (f_equal length O) as E. by rewrite !length_fmap in E. }
  split.
  - unfold inbox_ok in *. rewrite Lr, Ld. destruct (W ref) as [->|Ew].
    + destruct (workers s !! ref); [|done]. destruct Hok as (st & rest & _ & _ & ->). by eexists.
    + destruct (workers s !! ref) as [w|], (workers s' !! ref) as [w'|]; try done.
      destruct Hok as (st & rest & Ho & Hu & Hr). cbn in Ew. apply Some_inj in Ew.
      assert (pending <$> objs s' !! ref = Some (pending st)) as Hp by (by rewrite <- list_lookup_fmap, O, list_lookup_fmap, Ho).
      apply fmap_Some in Hp as (st' & Ho' & Hp). exists st', rest. rewrite <- Hp, Ew. split_and!; [done| |done].
      unfold unqueued in *. rewrite D. destruct (dispatching s) as [[r f]|]; [|tauto]. case_decide; tauto.
  - rewrite Hlen. intros Hlt. destruct (Hun Hlt) as (H1 & H2 & H3 & H4). unfold unborn. rewrite Lr, Ld, D. split_and!; try done.
    destruct (W ref) as [?|Ew]; [done|]. rewrite H1 in Ew. by destruct (workers s' !! ref).
Qed.

(** * The operations that are quiet *)

Lemma quiet_same s s' :
  objs s' = objs s -> log s' = log s -> dispatching s' = dispatching s -> workers s' = workers s -> table s' = table s -> quiet s s'.
Proof. intros E1 E2 E3 E4 E5. split; rewrite ?E1, ?E2, ?E3, ?E4, ?E5; auto. Qed.

Lemma quiet_put s ref st st' : objs s !! ref = Some st -> pending st' = pending st -> quiet s (put s ref st').
Proof.
  intros Ho Hp. split; cbn; auto. rewrite list_fmap_insert, Hp. apply list_insert_id. by rewrite list_lookup_fmap, Ho.
Qed.

Lemma quiet_emit s o : (forall ref, routed_of ref o = [] /\ delivered_of ref o = []) -> (forall sid, arrived_with sid o = []) -> quiet s (emit o s).
Proof.
  intros Ho Ha. split; cbn; auto. exists [o]. split_and!; [done| |].
  - intros ref. destruct (Ho ref) as [E1 E2]. unfold routed, delivered. cbn. by rewrite E1, E2.
  - intros sid. unfold arrived. cbn. by rewrite Ha.
Qed.

Lemma quiet_table s sid : quiet s (s <| table := delete sid (table s) |>).
Proof. split; cbn; auto. intros i r [_ ?]%lookup_delete_Some. done. Qed.

Lemma pending_fail st e : pending (fail st e) = pending st.
Proof. unfold fail. by case_match. Qed.

Lemma pending_consume st f b : pending (consume st f b).1 = pending st.
Proof. unfold consume. by repeat case_step. Qed.

Lemma quiet_spawned s sid t : quiet s (spawn t (s <| table := delete sid (table s) |>)).
Proof. refine (quiet_trans _ _ _ (quiet_table s sid) _). by apply quiet_same. Qed.

Lemma quiet_failStream s who ref code message notify : quiet s (failStream s who ref code message notify).
Proof.
  unfold failStream, detachStream. destruct (objs s !! ref) as [st|]; [|apply quiet_refl]. case_decide; cbn [negb]; [apply quiet_spawned|apply quiet_refl].
Qed.

Lemma quiet_fail_detached s ref err reset : quiet s (fail_detached s ref err reset).
Proof.
  unfold fail_detached. destruct (objs s !! ref) as [st|] eqn:Ho; [|apply quiet_refl].
  pose proof (quiet_put s ref st (fail st err) Ho (pending_fail st err)) as Hp. destruct reset as [[]|]; [|done].
  refine (quiet_trans _ _ _ Hp _). by apply quiet_same.
Qed.

Lemma quiet_detachFinished s ref : quiet s (detachFinishedStream s ref).
Proof.
  unfold detachFinishedStream, detachStream. destruct (objs s !! ref); [|apply quiet_refl]. destruct (_ && _); [|apply quiet_refl].
  case_decide; [apply quiet_table|apply quiet_refl].
Qed.

Lemma quiet_leave s ref st st' : objs s !! ref = Some st -> pending st' = pending st -> quiet s (leave s ref st').
Proof.
  intros Ho Hp. unfold leave. set (st1 := st' <| inbox_closed := true |>).
  refine (quiet_trans _ _ _ (quiet_put s ref st st1 Ho Hp) _). split; cbn; auto. intros r. destruct (decide (r = ref)) as [->|]; [left; apply lookup_delete_eq|right; by rewrite lookup_delete_ne].
Qed.

Lemma quiet_set_worker s ref w : unread <$> workers s !! ref = Some (unread w) -> quiet s (set_worker s ref w).
Proof.
  intros Hw. split; cbn; auto. intros r. right. destruct (decide (r = ref)) as [->|]; [by rewrite lookup_insert_eq|by rewrite lookup_insert_ne].
Qed.

Lemma quiet_resume s who : quiet s (resume s who).
Proof.
  destruct who as [|ref|ref|]; cbn [resume]; try apply quiet_refl; [|by apply quiet_same].
  destruct (workers s !! ref) as [[]|]; try apply quiet_refl; (destruct (objs s !! ref) as [st|] eqn:Ho; [|apply quiet_refl]); by apply (quiet_leave s ref st).
Qed.

Section Environment.
Variable send_error : list output -> option string.
Variable unmarshal_error : bytes -> string.

Lemma quiet_send s owner sid flags payload : quiet s (sendRawFrame send_error s owner sid flags payload).1.
Proof.
  unfold sendRawFrame. destruct (ValidateFramePayload _); [|apply quiet_refl]. destruct (_ || _); [apply quiet_refl|]. by apply quiet_emit.
Qed.

Lemma quiet_handleControl s f : quiet s (handleControl unmarshal_error s f).
Proof.
  assert (forall payload j, quiet s (resetMalformedControl unmarshal_error s payload j)) as Hm.
  { intros payload j. unfold resetMalformedControl. destruct (field _ _ _ _). destruct (_ || _); [apply quiet_refl|].
    destruct (findStream _ _); [apply quiet_failStream|apply quiet_refl]. }
  unfold handleControl. destruct (negb _); [apply quiet_refl|]. destruct (parse_json _) as [j|]; [|apply quiet_refl].
  destruct (field _ _ _ j) as [type ok]. destruct (negb ok); [apply quiet_refl|]. case_decide.
  { destruct (decode_window_update j) as [u []]; [|apply Hm]. unfold applyWindowUpdate.
    destruct (findStream _ _) as [ref|]; [|apply quiet_refl]. destruct (_ || _); [apply quiet_failStream|].
    destruct (objs s !! ref) eqn:Ho; [|apply quiet_refl]. eapply quiet_put; [exact Ho|]. unfold updateSendLimit. by case_step. }
  case_decide; [by apply quiet_same|]. case_decide; [|apply quiet_refl].
  destruct (field _ _ _ j) as [sid ok1], (field _ _ _ j) as [code ok2], (field _ _ _ j) as [message ok3].
  destruct (_ && _); [|apply Hm]. destruct (findStream _ _); [apply quiet_failStream|apply quiet_refl].
Qed.

Lemma quiet_worker s ref s' :
  worker_charge s ref = Some s' \/ worker_update send_error s ref = Some s' \/ worker_quit s ref = Some s' -> quiet s s'.
Proof.
  intros [H|[H|H]].
  - unfold worker_charge in H. destruct (workers s !! ref) as [[| |f| |]|] eqn:Hw; try done. destruct (objs s !! ref) as [st|] eqn:Ho; [|done].
    pose proof (pending_consume st f (flowControlEnabled s)) as Hp. destruct (consume st f _) as [st1 u]. cbn [fst] in Hp.
    destruct (IsFIN f); injection H as <-.
    + set (st2 := st1 <| inboundDelivered := true |>). refine (quiet_trans _ (set_worker (put s ref st2) ref WEnding) _ _ _); [|by apply quiet_same].
      refine (quiet_trans _ _ _ (quiet_put s ref st st2 Ho Hp) _). apply quiet_set_worker. cbn. by rewrite Hw.
    + refine (quiet_trans _ _ _ (quiet_put s ref st st1 Ho Hp) _). apply quiet_set_worker. cbn. rewrite Hw. by destruct u.
  - unfold worker_update in H. destruct (busy _ _); [done|]. destruct (workers s !! ref) as [[| | |m|]|] eqn:Hw; try done. destruct (objs s !! ref) as [st|] eqn:Ho; [|done].
    pose proof (quiet_send s None 0 FlagSYN (print_json (window_update_json (id st) m))) as Hs.
    destruct (sendRawFrame_frame send_error s None 0 FlagSYN (print_json (window_update_json (id st) m))) as (_ & Hw1 & _).
    unfold sendWindowUpdate, sendControlSYN in H. destruct (sendRawFrame _ _ _ _ _ _) as [s1 err]. cbn [fst] in *.
    refine (quiet_trans _ _ _ Hs _). destruct err as [e|].
    + apply Some_inj in H. subst s'. refine (quiet_trans _ _ _ (quiet_failStream s1 (Worker ref) ref $"control_send_failed" (text e) false) _).
      destruct (busy _ _); [apply quiet_refl|apply (quiet_resume _ (Worker ref))].
    + injection H as <-. apply quiet_set_worker. by rewrite Hw1, Hw.
  - unfold worker_quit in H. destruct (workers s !! ref) as [[|f| | |]|] eqn:Hw; try done; (destruct (objs s !! ref) as [st|] eqn:Ho; [|done]);
      (destruct (_ || _); [|done]); injection H as <-; by eapply quiet_leave.
Qed.

Lemma quiet_writers s wr : quiet s (s <| writers := wr |>).
Proof. by apply quiet_same. Qed.

Lemma quiet_run_task s t s' : run_task send_error s t = Some s' -> quiet s s'.
Proof.
  intros H. destruct t as [ref flags payload|who ref err reset|who ref|ref code message| |ref]; cbn [run_task] in H.
  - unfold write_start in H. destruct (writers s !! ref); [done|]. destruct (objs s !! ref) as [st|] eqn:Ho; [|done]. injection H as <-.
    destruct (outboundFIN st); [apply quiet_refl|]. destruct (negb _); [apply quiet_writers|]. destruct (_ && _); [apply quiet_refl|].
    refine (quiet_trans _ _ _ _ (quiet_writers _ _)). destruct (IsSYN _); [|apply quiet_refl].
    eapply quiet_put; [exact Ho|]. unfold activateInitialWindow, updateSendLimit. by repeat case_step.
  - injection H as <-. exact (quiet_trans _ _ _ (quiet_fail_detached s ref err reset) (quiet_resume _ who)).
  - injection H as <-. exact (quiet_trans _ _ _ (quiet_detachFinished s ref) (quiet_resume _ who)).
  - destruct (writers s !! ref); [done|]. destruct (objs s !! ref); [|done]. apply Some_inj in H. subst s'.
    destruct (flowControlEnabled s); apply quiet_send.
  - injection H as <-. split; cbn; auto. by intros ? ? ?%lookup_empty_Some.
  - destruct (objs s !! ref) as [st|] eqn:Ho; [|done]. injection H as <-. by eapply quiet_put.
Qed.

Lemma quiet_writing s ref s' : write_reserve s ref = Some s' \/ write_send send_error s ref = Some s' -> quiet s s'.
Proof.
  intros [H|H].
  - unfold write_reserve in H. destruct (writers s !! ref) as [w|]; [|done]. destruct (objs s !! ref) as [st|] eqn:Ho; [|done].
    destruct (w_reserved w); [done|]. assert (forall n, pending (reserveSend st n).1 = pending st) as Hp
      by (intros n; unfold reserveSend; by repeat case_step).
    specialize (Hp (FlowBytes (mkFrame (id st) (w_flags w) (w_payload w)))). destruct (reserveSend st _) as [st' []].
    + injection H as <-. refine (quiet_trans _ _ _ (quiet_writers s _) _). by eapply quiet_put.
    + injection H as <-. apply quiet_writers.
    + destruct (_ || _); [|done]. injection H as <-. apply quiet_writers.
  - unfold write_send in H. destruct (busy _ _); [done|]. destruct (writers s !! ref) as [w|]; [|done]. destruct (objs s !! ref) as [st|] eqn:Ho; [|done].
    destruct (negb _); [done|]. pose proof (quiet_send s (Some ref) (id st) (w_flags w) (w_payload w)) as Hs.
    pose proof (sendRawFrame_objs send_error s (Some ref) (id st) (w_flags w) (w_payload w)) as Hobjs.
    destruct (sendRawFrame _ _ _ _ _ _) as [s1 err]. cbn [fst] in *. set (s2 := match err with Some _ => _ | None => _ end) in H.
    assert (quiet s1 s2) as H2.
    { subst s2. destruct err; [destruct (_ && _); [apply quiet_failStream|apply quiet_refl]|]. destruct (IsFIN _); [|apply quiet_refl].
      refine (quiet_trans _ (put s1 ref (st <| outboundFIN := true |>)) _ _ _); [eapply quiet_put; [by rewrite Hobjs|done]|by apply quiet_same]. }
    injection H as <-. refine (quiet_trans _ _ _ Hs (quiet_trans _ _ _ H2 _)). destruct (busy _ _); [apply quiet_refl|by apply quiet_same].
Qed.

Lemma quiet_CloseStream s ref : quiet s (CloseStream s ref).
Proof.
  unfold CloseStream, detachStream. destruct (objs s !! ref) as [st|]; [|apply quiet_refl]. destruct (_ || _); [apply quiet_failStream|].
  case_decide; [apply quiet_spawned|apply quiet_refl].
Qed.

(** * The steps that move frames *)

Lemma inbox_received s data : inbox_inv s -> inbox_inv (emit (Received data) s).
Proof.
  intros Hi r. destruct (Hi r) as [Hok Hun]. unfold inbox_ok, unborn, unqueued in *. cbn. rewrite routed_snoc, delivered_snoc. cbn.
  by rewrite !app_nil_r.
Qed.

(** The dispatcher found the stream of a frame. *)
Lemma inbox_routed s ref f :
  sess_inv s -> dispatching s = None -> (exists sid, table s !! sid = Some ref) -> inbox_inv s ->
  inbox_inv (emit (Routed ref f) (s <| dispatching := Some (ref, f) |>)).
Proof.
  intros Hs Hd (sid & Ht) Hi r. destruct (Hi r) as [Hok Hun]. destruct (table_live s (proj1 Hs) _ _ Ht) as (o & Ho & _).
  apply lookup_lt_Some in Ho. unfold inbox_ok, unborn, unqueued in *. cbn in *. rewrite routed_snoc, delivered_snoc. cbn.
  rewrite Hd in Hok. rewrite app_nil_r. destruct (decide (ref = r)) as [<-|Hne].
  - split; [|lia]. destruct (workers s !! ref) as [w|].
    + destruct Hok as (st & rest & Hst & [->|Hg] & ->); [|by destruct (Hg sid)]. exists st, [f]. split_and!; [done|done|].
      by rewrite app_nil_r, <- !app_assoc.
    + by apply prefix_app_r.
  - rewrite app_nil_r. split; [done|]. intros Hlt. destruct (Hun Hlt) as (H1 & H2 & H3 & _). split_and!; try done. congruence.
Qed.

Lemma inbox_dispatch s data : sess_inv s -> dispatching s = None -> inbox_inv s -> inbox_inv (dispatch unmarshal_error s data).
Proof.
  intros Hs Hd Hi. unfold dispatch. destruct (ParseFrame data) as [f|]; [|done].
  destruct (_ =? 0).
  - destruct (flowControlEnabled s); [|done]. exact (quiet_inbox _ _ (quiet_handleControl s f) Hi).
  - unfold findStream. destruct (table s !! StreamID f) as [ref|] eqn:Ht; [|done]. apply inbox_routed; eauto.
Qed.

Lemma failStream_gone s who ref code message notify : sess_inv s -> gone (failStream s who ref code message notify) ref.
Proof.
  intros Hs sid Ht. assert (table s !! sid = Some ref) as Ht0 by (eapply q_table; [apply quiet_failStream|exact Ht]).
  destruct (table_live s (proj1 Hs) _ _ Ht0) as (st & Ho & <- & _). revert Ht. unfold failStream, detachStream.
  rewrite Ho, decide_True by done. cbn [negb]. cbn. by rewrite lookup_delete_eq.
Qed.

Lemma enqueue_pending pick st f b st' err :
  enqueue pick st f b = (st', err) ->
  pending st' = pending st ++ (if err is None then [f] else []) /\ (err = Some errStreamClosed -> abandoned st = true) /\
  same_slot st st'.
Proof.
  intros E. pose proof (client_enqueue_cases pick st f b) as Hc. pose proof (client_slot_enqueue pick st f b) as Hsl. rewrite E in Hc, Hsl. cbn in Hsl.
  split_and!; [|intros ->|done].
  - destruct err; [destruct Hc as (_ & _ & -> & _); by rewrite app_nil_r|destruct Hc as (_ & _ & _ & _ & _ & ->); done].
  - destruct (abandoned st) eqn:Ea; [done|]. unfold enqueue in E. destruct (enqueue_account st f b) as [st1|] eqn:E1.
    + assert (abandoned st1 = abandoned st) as Ea1.
      { unfold enqueue_account in E1. repeat (case_step_in E1; try done); by injection E1 as <-. }
      rewrite Ea1, Ea, orb_true_r in E. destruct (_ <? _); done.
    + unfold enqueue_account in E1. repeat (case_step_in E1; try done); injection E1 as <-; done.
Qed.

(** The frame in hand is queued, or its stream is gone. *)
Lemma inbox_put s ref f st st' b :
  dispatching s = Some (ref, f) -> objs s !! ref = Some st -> pending st' = pending st ++ (if b : bool then [f] else []) ->
  (b = false -> gone s ref) -> inbox_inv s -> inbox_inv (put (s <| dispatching := None |>) ref st').
Proof.
  intros Hd Ho Hp Hg Hi r. destruct (Hi r) as [Hok Hun]. pose proof (lookup_lt_Some _ _ _ Ho) as Hlt. split.
  - unfold inbox_ok, unqueued in *. cbn in *. rewrite Hd in Hok. destruct (workers s !! r) as [w|]; [|done].
    destruct Hok as (o & rest & Hr & Hu & E). destruct (decide (ref = r)) as [<-|Hne].
    + subst rest. assert (o = st) as -> by congruence. rewrite (list_lookup_insert_eq _ _ _ Hlt). destruct b.
      * exists st', []. split_and!; [done|by left|]. by rewrite E, Hp, app_nil_r.
      * exists st', [f]. split_and!; [done|right; by apply Hg|]. by rewrite E, Hp, app_nil_r.
    + rewrite list_lookup_insert_ne by done. exists o, rest. by split_and!.
  - unfold unborn in *. cbn. rewrite length_insert. intros Hr. destruct (Hun Hr) as (? & ? & ? & _). by split_and!.
Qed.

(** The frame in hand is refused and its stream fails. *)
Lemma failStream_put s who ref st st' code message notify :
  objs s !! ref = Some st -> id st' = id st -> pending st' = pending st ->
  let t := failStream s who ref code message notify in
  let t' := failStream (put (s <| dispatching := None |>) ref st') who ref code message notify in
  table t' = table t /\ log t' = log t /\ workers t' = workers t /\ dispatching t' = None /\
  pending <$> objs t' = pending <$> objs t.
Proof.
  intros Ho Hid Hp t t'. set (s0 := s <| dispatching := None |>) in *.
  pose proof (q_objs _ _ (quiet_failStream s who ref code message notify)) as E.
  pose proof (q_objs _ _ (quiet_failStream (put s0 ref st') who ref code message notify)) as E'.
  pose proof (q_objs _ _ (quiet_put s0 ref st st' Ho Hp)) as E0.
  split_and!; try exact (eq_trans E' (eq_trans E0 (eq_sym E)));
    unfold t', t, failStream, detachStream; cbn [put objs upd s0];
    rewrite (list_lookup_insert_eq _ _ _ (lookup_lt_Some _ _ _ Ho)), ?Ho, Hid; cbn [table put upd s0];
    (destruct (decide (table s !! id st = Some ref)); [|done]); done.
Qed.

Lemma inbox_refused s who ref f st st' code message notify :
  sess_inv s -> dispatching s = Some (ref, f) -> objs s !! ref = Some st -> id st' = id st -> pending st' = pending st -> inbox_inv s ->
  inbox_inv (failStream (put (s <| dispatching := None |>) ref st') who ref code message notify).
Proof.
  intros Hs Hd Ho Hid Hp Hi r. pose proof (quiet_failStream s who ref code message notify) as Hq.
  pose proof (failStream_gone s who ref code message notify Hs) as Hg. destruct (quiet_inbox _ _ Hq Hi r) as [Hok Hun].
  destruct (failStream_put s who ref st st' code message notify Ho Hid Hp) as (E1 & E2 & E3 & E5 & E6).
  pose proof (q_dispatching _ _ Hq) as Ed. rewrite Hd in Ed.
  set (t := failStream s who ref code message notify) in *. set (t' := failStream (put _ ref st') who ref code message notify) in *. clearbody t t'.
  assert (length (objs t') = length (objs t)) as E4 by (pose proof (f_equal length E6) as E; by rewrite !length_fmap in E).
  unfold inbox_ok, unborn, unqueued in *. rewrite E2, E3, E4, E5. rewrite Ed in *.
  split; [|intros Hl; destruct (Hun Hl) as (?&?&?&_); by split_and!].
  destruct (workers t !! r) as [w|]; [|done]. destruct Hok as (o & rest & Hr & Hu & E).
  assert (pending <$> objs t' !! r = Some (pending o)) as Hr' by (by rewrite <- list_lookup_fmap, E6, list_lookup_fmap, Hr).
  apply fmap_Some in Hr' as (o' & Hr' & Ep). exists o', rest. rewrite <- Ep. split_and!; [done| |done].
  unfold gone in *. rewrite E1. case_decide; [subst r; by right|done].
Qed.

Lemma inbox_enqueue pick s s' : sess_inv s -> dispatch_enqueue pick s = Some s' -> inbox_inv s -> inbox_inv s'.
Proof.
  unfold dispatch_enqueue. intros Hs H Hi. destruct (dispatching s) as [[ref f]|] eqn:Hd; [|done].
  destruct (objs s !! ref) as [st|] eqn:Ho; [|done]. destruct (enqueue pick st f _) as [st' err] eqn:Ee. apply Some_inj in H.
  destruct (enqueue_pending _ _ _ _ _ _ Ee) as (Hp & Hc & Hid & _). destruct err as [e|].
  - assert (pending st' = pending st) as Hp' by (by rewrite Hp, app_nil_r).
    destruct e; subst s'; try (by apply (inbox_refused s Dispatcher ref f st st')).
    apply (inbox_put s ref f st st' false Hd Ho Hp); [|done]. intros _ sid Ht.
    destruct (table_live s (proj1 Hs) _ _ Ht) as (o & Ho' & _ & Hl & _). assert (o = st) as -> by congruence.
    unfold intact in Hl. by rewrite (Hc eq_refl), andb_false_r in Hl.
  - subst s'. by apply (inbox_put s ref f st st' true Hd Ho Hp).
Qed.

Lemma inbox_take s ref s' : worker_take s ref = Some s' -> inbox_inv s -> inbox_inv s'.
Proof.
  unfold worker_take. intros H Hi. destruct (workers s !! ref) as [[]|] eqn:Hw; try done. destruct (objs s !! ref) as [st|] eqn:Ho; [|done].
  destruct (pending st) as [|f q] eqn:Hq; [done|]. injection H as <-. pose proof (lookup_lt_Some _ _ _ Ho) as Hlt. intros r. destruct (Hi r) as [Hok Hun].
  unfold inbox_ok, unborn, unqueued in *. cbn in *. rewrite length_insert. destruct (decide (r = ref)) as [->|Hne].
  - split; [|lia]. rewrite Hw in Hok. rewrite lookup_insert_eq, (list_lookup_insert_eq _ _ _ Hlt).
    destruct Hok as (o & rest & Hr & Hu & E). assert (o = st) as -> by congruence. exists (st <| pending := q |>), rest. split_and!; [done|done|].
    rewrite E, Hq. done.
  - rewrite lookup_insert_ne, list_lookup_insert_ne by done. done.
Qed.

Lemma inbox_hand s ref s' : worker_hand s ref = Some s' -> inbox_inv s -> inbox_inv s'.
Proof.
  unfold worker_hand. intros H Hi. destruct (workers s !! ref) as [[|f| | |]|] eqn:Hw; try done. injection H as <-. intros r. destruct (Hi r) as [Hok Hun].
  unfold inbox_ok, unborn, unqueued in *. cbn in *. rewrite routed_snoc, delivered_snoc. cbn. rewrite app_nil_r.
  destruct (decide (ref = r)) as [<-|Hne].
  - rewrite Hw in Hok. rewrite lookup_insert_eq. split; [|intros Hl; by destruct (Hun Hl) as [? _]; congruence].
    destruct Hok as (o & rest & Hr & Hu & E). exists o, rest. split_and!; [done|done|]. rewrite E. cbn. by rewrite <- app_assoc.
  - rewrite lookup_insert_ne by done. by rewrite app_nil_r.
Qed.

Lemma inbox_open s : inbox_inv s -> inbox_inv (OpenStream s).1.
Proof.
  intros Hi r. destruct (Hi r) as [Hok Hun]. unfold OpenStream, inbox_ok, unborn, unqueued, gone in *. cbn [fst sclosed upd].
  destruct (sclosed s); cbn in *; rewrite length_app; cbn.
  - split; [|intros Hl; apply Hun; lia]. destruct (workers s !! r); [|done]. destruct Hok as (o & rest & Ho & Hu & E).
    exists o, rest. by rewrite lookup_app_l by (by eapply lookup_lt_Some).
  - destruct (decide (r = length (objs s))) as [->|Hne].
    + split; [|lia]. destruct (Hun ltac:(lia)) as (_ & Hr & Hdl & Hdi). rewrite lookup_insert_eq, lookup_app_r by lia.
      rewrite Nat.sub_diag. exists (newStream (nextStreamID s)), []. split_and!; [done| |by rewrite Hr, Hdl].
      destruct (dispatching s) as [[r f]|]; [|by left]. case_decide; [subst|by left]. by destruct (Hdi f).
    + rewrite lookup_insert_ne by done. split; [|intros Hl; apply Hun; lia]. destruct (workers s !! r); [|done].
      destruct Hok as (o & rest & Ho & Hu & E). exists o, rest. rewrite lookup_app_l by (by eapply lookup_lt_Some).
      split_and!; [done| |done].
      assert ((forall sid, table s !! sid <> Some r) -> forall sid, <[nextStreamID s:=length (objs s)]> (table s) !! sid <> Some r) as Hg.
      { intros Hg sid [[_ ?]|[_ Ht]]%lookup_insert_Some; [done|by apply (Hg sid)]. }
      destruct (dispatching s) as [[r' f]|]; [case_decide; tauto|tauto].
Qed.

Lemma inbox_step s s' : session_step send_error unmarshal_error s s' -> sess_inv s -> inbox_inv s -> inbox_inv s'.
Proof.
  intros H Hs Hi. destruct H.
  - apply inbox_dispatch; [by apply client_inv_emit|done|]. by apply inbox_received.
  - by eapply inbox_enqueue.
  - by eapply inbox_take.
  - by eapply inbox_hand.
  - refine (quiet_inbox _ _ _ Hi). apply (quiet_worker s ref). auto.
  - refine (quiet_inbox _ _ _ Hi). apply (quiet_worker s ref). auto.
  - refine (quiet_inbox _ _ _ Hi). apply (quiet_worker s ref). auto.
  - refine (quiet_inbox _ _ _ Hi). refine (quiet_trans s (s <| tasks := l1 ++ l2 |>) s' _ _); [by apply quiet_same|by eapply quiet_run_task].
  - refine (quiet_inbox _ _ _ Hi). unfold sendFrame. destruct (ValidateFramePayload _); [|apply quiet_refl].
    destruct (findStream _ _); [by apply quiet_same|apply quiet_refl].
  - refine (quiet_inbox _ _ _ Hi). apply (quiet_writing s ref). auto.
  - refine (quiet_inbox _ _ _ Hi). apply (quiet_writing s ref). auto.
  - by apply inbox_open.
  - refine (quiet_inbox _ _ _ Hi). apply quiet_CloseStream.
  - refine (quiet_inbox _ _ _ Hi). by apply quiet_same.
  - refine (quiet_inbox _ _ _ Hi). refine (quiet_trans s (finishStreams s <| dc_open := false |>) _ _ _); [by apply quiet_same|by apply quiet_emit].
  - refine (quiet_inbox _ _ _ Hi). by apply quiet_same.
Qed.

(** ** Arrivals *)

Definition sid_of (ref : nat) : Z := u32 (1 + 2 * Z.of_nat ref).

(** A step adds to what a stream was routed just the frames that arrived with its ID, as long as the table has
    the stream, and nothing once it has not. *)
Definition routes (ref : nat) (s s' : Session) : Prop :=
  exists k, log s' = log s ++ k /\ (table s' !! sid_of ref = Some ref -> table s !! sid_of ref = Some ref) /\
    ((routed ref k = arrived (sid_of ref) k /\ (routed ref k = [] \/ table s !! sid_of ref = Some ref)) \/
     (routed ref k = [] /\ table s' !! sid_of ref <> Some ref)).

Lemma quiet_routes ref s s' : quiet s s' -> routes ref s s'.
Proof.
  intros H. destruct (q_grows _ _ H) as (k & E & Hr & Ha). exists k. split_and!; [done|apply (q_table _ _ H)|].
  left. destruct (Hr ref) as [-> _]. rewrite Ha. auto.
Qed.

Lemma routes_same ref s s' :
  log s' = log s -> (table s' !! sid_of ref = Some ref -> table s !! sid_of ref = Some ref) -> routes ref s s'.
Proof. intros E T. exists []. rewrite app_nil_r. split_and!; [done|done|]. by left; split; [|left]. Qed.

Lemma quiet_emitted o s s' k :
  quiet (emit o s) s' -> k = [o] -> exists l, log s' = log s ++ k ++ l /\
    (forall ref, routed ref l = []) /\ (forall sid, arrived sid l = []) /\ forall sid ref, table s' !! sid = Some ref -> table s !! sid = Some ref.
Proof.
  intros H ->. destruct (q_grows _ _ H) as (l & E & Hr & Ha). exists l. split_and!; [by rewrite E; cbn; rewrite <- app_assoc| |done|apply (q_table _ _ H)].
  intros r. apply Hr.
Qed.

Lemma dispatch_routes ref s data :
  sess_inv s -> (ref < length (objs s))%nat -> routes ref s (dispatch unmarshal_error (emit (Received data) s) data).
Proof.
  intros Hs Hlt. assert (sid_of ref <> 0) as Hnz by apply odd_id_nonzero.
  assert (forall i, table s !! i = Some ref -> i = sid_of ref) as Hid.
  { intros i Ht. destruct (table_live s (proj1 Hs) _ _ Ht) as (st & Ho & <- & _). apply (object_id s (proj1 Hs) _ _ Ho). }
  assert (forall s', quiet (emit (Received data) s) s' -> arrived (sid_of ref) [Received data] = [] \/ table s !! sid_of ref <> Some ref -> routes ref s s') as Hq.
  { intros s' Hq Ha. destruct (quiet_emitted _ _ _ _ Hq eq_refl) as (l & E & Hr & Hal & Ht). exists ([Received data] ++ l). split_and!; [done|apply Ht|].
    rewrite routed_app, arrived_app, Hr, Hal, app_nil_r. destruct Ha as [-> |Hn]; [by left; split; [|left]|right]. split; [done|]. intros E'. by apply Hn, Ht. }
  unfold dispatch. destruct (ParseFrame data) as [f|] eqn:Ef.
  2: { apply Hq; [apply quiet_refl|left]. unfold arrived. cbn. by rewrite Ef. }
  assert (arrived (sid_of ref) [Received data] = if decide (StreamID f = sid_of ref) then [f] else []) as Ea.
  { unfold arrived. cbn. rewrite Ef. by case_decide. }
  destruct (Z.eqb_spec (StreamID f) 0) as [E0|_].
  { apply Hq; [destruct (flowControlEnabled _); [apply quiet_handleControl|apply quiet_refl]|left]. rewrite Ea, decide_False by congruence. done. }
  unfold findStream. change (table (emit (Received data) s)) with (table s). destruct (table s !! StreamID f) as [r|] eqn:Et.
  - exists [Received data; Routed r f]. split_and!; [cbn; by rewrite <- app_assoc|done|].
    change [Received data; Routed r f] with ([Received data] ++ [Routed r f]). rewrite routed_app, arrived_app, Ea.
    change (arrived (sid_of ref) [Routed r f]) with (@nil Frame). rewrite app_nil_r. unfold routed. cbn. rewrite app_nil_r.
    destruct (decide (r = ref)) as [->|Hne].
    + pose proof (Hid _ Et) as E. rewrite decide_True by exact E. left. split; [done|right; congruence].
    + case_decide as E; [|by left; split; [|left]]. right. split; [done|]. cbn. rewrite <- E, Et. congruence.
  - apply Hq; [apply quiet_refl|]. rewrite Ea. case_decide as E; [right; rewrite <- E, Et; done|by left].
Qed.

Lemma step_routes ref s s' :
  session_step send_error unmarshal_error s s' -> sess_inv s -> (ref < length (objs s))%nat -> routes ref s s'.
Proof.
  intros H Hs Hlt. destruct H.
  - by apply dispatch_routes.
  - unfold dispatch_enqueue in H. destruct (dispatching s) as [[r f]|]; [|done]. destruct (objs s !! r) as [st|]; [|done].
    destruct (enqueue pick st f _) as [st' err]. apply Some_inj in H. set (s1 := put (s <| dispatching := None |>) r st') in *.
    assert (forall t, quiet s1 t -> routes ref s t) as Hq.
    { intros t Hq. destruct (quiet_routes ref _ _ Hq) as (k & E & T & Hk). by exists k. }
    subst s'. destruct err as [[]|]; apply Hq; (apply quiet_refl || apply quiet_failStream).
  - unfold worker_take in H. destruct (workers s !! ref0) as [[]|]; try done. destruct (objs s !! ref0) as [st|]; [|done].
    destruct (pending st); [done|]. injection H as <-. by apply routes_same.
  - unfold worker_hand in H. destruct (workers s !! ref0) as [[|f| | |]|]; try done. injection H as <-.
    exists [Delivered ref0 f]. split_and!; [done|done|]. by left; split; [|left].
  - apply quiet_routes, (quiet_worker s ref0). auto.
  - apply quiet_routes, (quiet_worker s ref0). auto.
  - apply quiet_routes, (quiet_worker s ref0). auto.
  - apply quiet_routes. refine (quiet_trans s (s <| tasks := l1 ++ l2 |>) s' _ _); [by apply quiet_same|by eapply quiet_run_task].
  - apply quiet_routes. unfold sendFrame. destruct (ValidateFramePayload _); [|apply quiet_refl].
    destruct (findStream _ _); [by apply quiet_same|apply quiet_refl].
  - apply quiet_routes, (quiet_writing s ref0). auto.
  - apply quiet_routes, (quiet_writing s ref0). auto.
  - apply routes_same; unfold OpenStream; cbn; destruct (sclosed s); cbn; try done. intros [[_ ?]|[_ ?]]%lookup_insert_Some; [lia|done].
  - apply quiet_routes, quiet_CloseStream.
  - apply quiet_routes. by apply quiet_same.
  - apply quiet_routes. refine (quiet_trans s (finishStreams s <| dc_open := false |>) _ _ _); [by apply quiet_same|by apply quiet_emit].
  - apply quiet_routes. by apply quiet_same.
Qed.

(** What a stream was routed since it was opened behind the log [pre]. *)
Definition since (ref : nat) (pre : list output) (s : Session) : Prop :=
  exists l, log s = pre ++ l /\ routed ref l `prefix_of` arrived (sid_of ref) l /\
    (table s !! sid_of ref = Some ref -> routed ref l = arrived (sid_of ref) l).

Lemma routes_since ref pre s s' : routes ref s s' -> since ref pre s -> since ref pre s'.
Proof.
  intros (k & E & T & Hk) (l & El & Hp & He). exists (l ++ k). rewrite E, El, app_assoc, routed_app, arrived_app. split; [done|].
  destruct Hk as [[Ek [E0|Ht]]|[E0 Hn]].
  - rewrite <- Ek, E0, !app_nil_r. split; [done|]. intros H. by apply He, T.
  - rewrite <- Ek, (He Ht). by split.
  - rewrite E0, app_nil_r. split; [by apply prefix_app_r|]. done.
Qed.

(** Every stream was opened in some state, and its frames are those that arrived since. *)
Definition routed_since (version : Z) (s : Session) : Prop :=
  opened_session send_error unmarshal_error version s /\ sess_inv s /\ inbox_inv s /\
  forall ref, (ref < length (objs s))%nat ->
  exists s0, opened_session send_error unmarshal_error version s0 /\ length (objs s0) = ref /\ routed ref (log s0) = [] /\
    steps (session_step send_error unmarshal_error) (OpenStream s0).1 s /\ since ref (log s0) s.

Lemma quiet_length s s' : quiet s s' -> length (objs s') = length (objs s).
Proof. intros H. pose proof (f_equal length (q_objs _ _ H)) as E. by rewrite !length_fmap in E. Qed.

Lemma step_objects s s' :
  session_step send_error unmarshal_error s s' -> length (objs s') = length (objs s) \/ s' = (OpenStream s).1.
Proof.
  intros H. destruct H; try (left; reflexivity).
  - left. unfold dispatch. destruct (ParseFrame data) as [f|]; [|done]. destruct (_ =? 0).
    + destruct (flowControlEnabled _); [|done]. exact (quiet_length _ _ (quiet_handleControl (emit (Received data) s) f)).
    + by destruct (findStream _ _).
  - left. unfold dispatch_enqueue in H. destruct (dispatching s) as [[r f]|]; [|done]. destruct (objs s !! r) as [st|]; [|done].
    destruct (enqueue pick st f _) as [st' err]. apply Some_inj in H. subst s'.
    assert (forall t, quiet (put (s <| dispatching := None |>) r st') t -> length (objs t) = length (objs s)) as Hq.
    { intros t Hq. rewrite (quiet_length _ _ Hq). cbn. apply length_insert. }
    destruct err as [[]|]; apply Hq; (apply quiet_refl || apply quiet_failStream).
  - left. unfold worker_take in H. destruct (workers s !! ref) as [[]|]; try done. destruct (objs s !! ref) as [st|]; [|done].
    destruct (pending st); [done|]. injection H as <-. cbn. apply length_insert.
  - left. unfold worker_hand in H. destruct (workers s !! ref) as [[|f| | |]|]; try done. by injection H as <-.
  - left. apply quiet_length, (quiet_worker s ref). auto.
  - left. apply quiet_length, (quiet_worker s ref). auto.
  - left. apply quiet_length, (quiet_worker s ref). auto.
  - left. apply quiet_length. refine (quiet_trans s (s <| tasks := l1 ++ l2 |>) s' _ _); [by apply quiet_same|by eapply quiet_run_task].
  - left. apply quiet_length. unfold sendFrame. destruct (ValidateFramePayload _); [|apply quiet_refl].
    destruct (findStream _ _); [by apply quiet_same|apply quiet_refl].
  - left. apply quiet_length, (quiet_writing s ref). auto.
  - left. apply quiet_length, (quiet_writing s ref). auto.
  - by right.
  - left. apply quiet_length, quiet_CloseStream.
Qed.

Lemma open_length s : length (objs (OpenStream s).1) = S (length (objs s)).
Proof. unfold OpenStream. destruct (sclosed _); cbn; rewrite length_app; cbn; lia. Qed.

Lemma open_log s : log (OpenStream s).1 = log s.
Proof. unfold OpenStream. by destruct (sclosed _). Qed.

Lemma routed_since_step version s s' : session_step send_error unmarshal_error s s' -> routed_since version s -> routed_since version s'.
Proof.
  intros H (Ho & Hs & Hi & Hr). split_and!.
  - exact (steps_trans _ _ _ _ Ho (steps_one _ _ _ H)).
  - by eapply client_inv_step.
  - by eapply inbox_step.
  - intros ref Hlt. destruct (decide (ref < length (objs s))%nat) as [Hold|Hnew].
    + destruct (Hr ref Hold) as (s0 & Ho0 & El & Er & Hst & Hsi). exists s0. split_and!; try done.
      * exact (steps_trans _ _ _ _ Hst (steps_one _ _ _ H)).
      * exact (routes_since _ _ _ _ (step_routes ref s s' H Hs Hold) Hsi).
    + destruct (step_objects s s' H) as [E| ->]; [lia|]. rewrite open_length in Hlt. assert (length (objs s) = ref) as E by lia.
      exists s. split_and!; [done|done| |apply steps_refl|].
      * destruct (Hi ref) as [_ Hun]. apply Hun. lia.
      * exists []. rewrite open_log, app_nil_r. by split_and!.
Qed.

Lemma routed_since_reachable version s : opened_session send_error unmarshal_error version s -> routed_since version s.
Proof.
  intros H. refine (steps_invariant _ (routed_since version) _ _ _ H _).
  - intros a b Ha Hab. by eapply routed_since_step.
  - split_and!; [apply steps_refl|apply sess_inv_new| |cbn; lia]. intros r. split; [|intros _; by split_and!]. unfold inbox_ok. cbn. by exists [].
Qed.
End Environment.

(** C31: What a caller reads of its stream is what arrived for it. In every reachable state of the connector's
    session, each stream was created by an [OpenStream] of the run, and the frames its caller has read
    are a prefix of the frames that arrived from then on in a message that parses and carries the stream's
    ID: in the order of their arrival, none twice, none left out and none of another stream. And as long as
    the stream is in the table and its worker has not returned, none is lost: all that arrived is what the
    caller read, then the frame its worker holds, then the queue, then the frame the dispatcher holds for it. *)
Theorem session_delivers_arrivals send_error unmarshal_error version s ref st :
  opened_session send_error unmarshal_error version s -> objs s !! ref = Some st ->
  exists s0 l, opened_session send_error unmarshal_error version s0 /\ (OpenStream s0).2 = ref /\
    steps (session_step send_error unmarshal_error) (OpenStream s0).1 s /\ log s = log s0 ++ l /\
    delivered ref (log s) `prefix_of` arrived (id st) l /\
    (forall w, workers s !! ref = Some w -> table s !! id st = Some ref ->
       arrived (id st) l = delivered ref (log s) ++ unread w ++ pending st ++
         match dispatching s with Some (r, f) => if decide (r = ref) then [f] else [] | None => [] end).
Proof.
  intros Hs Ho. destruct (routed_since_reachable _ _ _ _ Hs) as (_ & Hi & Hb & Hr).
  destruct (Hr ref (lookup_lt_Some _ _ _ Ho)) as (s0 & Ho0 & El & Er & Hst & l & E & Hp & He). destruct (Hb ref) as [Hok _].
  assert (id st = sid_of ref) as Hid by apply (object_id s (proj1 Hi) _ _ Ho).
  assert (routed ref (log s) = routed ref l) as Erl by (by rewrite E, routed_app, Er).
  unfold inbox_ok in Hok. rewrite Erl in Hok. rewrite <- Hid in *. exists s0, l. split_and!; try done.
  - unfold OpenStream. by destruct (sclosed _).
  - refine (transitivity _ Hp). destruct (workers s !! ref) as [w|]; [|done]. destruct Hok as (? & rest & _ & _ & ->). by eexists.
  - intros w Hw Ht. rewrite Hw in Hok. destruct Hok as (st' & rest & Ho' & Hu & Eq). assert (st' = st) as -> by congruence.
    rewrite <- (He Ht), Eq. do 3 f_equal. unfold unqueued in Hu. destruct (dispatching s) as [[r f]|].
    + case_decide; [done|]. destruct Hu as [->|Hg]; [done|]. by destruct (Hg _ Ht).
    + destruct Hu as [->|Hg]; [done|]. by destruct (Hg _ Ht).
Qed.

(** Two streams are open, a frame arrives for each, and the caller of the first reads the one that is its own. *)
Lemma session_delivers_arrivals_witness :
  exists s st, objs s !! 0%nat = Some st /\ Payload <$> delivered 0 (log s) = [$"hi"] /\
  exists s0 l, opened_session (fun _ => None) (fun _ => EmptyString) 3 s0 /\ log s = log s0 ++ l /\
    delivered 0 (log s) `prefix_of` arrived (id st) l.
Proof.
  pose (run := fun o : option Session => match o with Some s => s | None => newSession 3 end).
  pose (s1 := (OpenStream (OpenStream (newSession 3)).1).1).
  pose (other := BuildFrame 3 FlagSYN $"no"). pose (m := BuildFrame 1 FlagSYN $"hi").
  pose (s2 := dispatch (fun _ => EmptyString) (emit (Received other) s1) other). pose (s3 := run (dispatch_enqueue true s2)).
  pose (s4 := dispatch (fun _ => EmptyString) (emit (Received m) s3) m). pose (s5 := run (dispatch_enqueue true s4)).
  pose (s6 := run (worker_take s5 0)). pose (s7 := run (worker_hand s6 0)).
  assert (opened_session (fun _ => None) (fun _ => EmptyString) 3 s7) as Hs.
  { do 2 (eapply steps_cons; [apply ss_open|]). eapply steps_cons; [apply (ss_message _ _ s1 other); vm_compute; reflexivity|].
    eapply steps_cons; [apply (ss_enqueue _ _ true s2 s3); vm_compute; reflexivity|].
    eapply steps_cons; [apply (ss_message _ _ s3 m); vm_compute; reflexivity|].
    eapply steps_cons; [apply (ss_enqueue _ _ true s4 s5); vm_compute; reflexivity|].
    eapply steps_cons; [apply (ss_take _ _ s5 0 s6); vm_compute; reflexivity|].
    apply steps_one, (ss_hand _ _ s6 0 s7). vm_compute; reflexivity. }
  exists s7. eexists. split_and!; [vm_compute; reflexivity|vm_compute; reflexivity|].
  destruct (session_delivers_arrivals (fun _ => None) (fun _ => EmptyString) 3 s7 0 _ Hs eq_refl) as (s0 & l & H0 & _ & _ & E & Hp & _).
  exists s0, l. split_and!; [exact H0|exact E|exact Hp].
Defined.
