(* ===== verification/JsonRoundTrip.v ===== *)
(** Round trip of encoding/json: what [Marshal] writes for a value with integer numbers is what
    [Unmarshal] reads back, its strings with invalid bytes replaced ([coerce]). The messages of the
    stream types are built on it. *)

From stdpp Require Import pretty.
From S2P Require Import Prelude GoLib Json Wire.

#[local] Set Warnings "-register-all".

(** * Valid UTF-8 *)

Inductive utf8_valid : bytes -> Prop :=
| utf8_nil : utf8_valid []
| utf8_rune s k : utf8_size s = Some k -> utf8_valid (drop k s) -> utf8_valid s.

Lemma utf8_size_bounds s k : utf8_size s = Some k -> (1 <= k <= length s)%nat.
Proof.
  unfold utf8_size. destruct s as [|b0 r]; [done|]. destruct (_ <? _); [intros [= <-]; cbn; lia|].
  destruct r as [|b1 r1]; [done|]. destruct (between _ _ _); [destruct (is_cont b1); [intros [= <-]; cbn; lia|done]|].
  destruct r1 as [|b2 r2]; [done|]. destruct (between 224 239 _); [case_match; [intros [= <-]; cbn; lia|done]|].
  destruct r2 as [|b3 r3]; [done|]. destruct (between 240 244 _); [case_match; [intros [= <-]; cbn; lia|done]|done].
Qed.

(** The size of the rune at the head is decided by its own bytes. *)
Lemma utf8_size_take s k t : utf8_size s = Some k -> utf8_size (take k s ++ t) = Some k.
Proof.
  intros H. pose proof (utf8_size_bounds _ _ H) as [_ Hl]. revert H Hl. unfold utf8_size. destruct s as [|b0 r]; [done|].
  destruct (code b0 <? 128) eqn:E0; [intros [= <-] _; cbn; by rewrite E0|].
  destruct r as [|b1 r1]; [done|]. destruct (between 194 223 (code b0)) eqn:E1.
  { destruct (is_cont b1) eqn:E2; [|done]. intros [= <-] _. cbn. by rewrite E0, E1, E2. }
  destruct r1 as [|b2 r2]; [done|]. destruct (between 224 239 (code b0)) eqn:E3.
  { match goal with |- (if ?c then _ else _) = _ -> _ => destruct c eqn:E4; [|done] end. intros [= <-] _. cbn. by rewrite E0, E1, E3, E4. }
  destruct r2 as [|b3 r3]; [done|]. destruct (between 240 244 (code b0)) eqn:E5; [|done].
  match goal with |- (if ?c then _ else _) = _ -> _ => destruct c eqn:E4; [|done] end. intros [= <-] _. cbn. by rewrite E0, E1, E3, E5, E4.
Qed.

Lemma utf8_valid_cons_ascii c s : code c < 128 -> utf8_valid (c :: s) <-> utf8_valid s.
Proof.
  intros Hc. split; intros H; [|apply (utf8_rune _ 1); [by apply utf8_size_ascii|done]].
  inv H. rewrite utf8_size_ascii in H0 by done. by injection H0 as <-.
Qed.

Lemma plain_valid s : plain s -> utf8_valid s.
Proof.
  induction s as [|c s IH]; [constructor|]. intros [Hc Hs]%plain_cons. apply utf8_valid_cons_ascii; [|by apply IH].
  destruct Hc as [Hc _]. lia.
Qed.

(** Every invalid byte becomes U+FFFD. *)
Fixpoint to_valid (n : nat) (s : bytes) : bytes :=
  match n, s with
  | S n', c :: r => match utf8_size s with
                    | Some k => take k s ++ to_valid n' (drop k s)
                    | None => replacement ++ to_valid n' r
                    end
  | _, _ => []
  end.
Definition coerce (s : bytes) : bytes := to_valid (length s) s.

Lemma to_valid_enough s : forall n, (length s <= n)%nat -> to_valid n s = coerce s.
Proof.
  unfold coerce. induction s as [s IH] using (induction_ltof1 _ (@length ascii)). unfold ltof in IH. intros n Hn.
  destruct s as [|c s]; [by destruct n|]. destruct n as [|n]; [cbn in Hn; lia|]. cbn [length] in *. cbn [to_valid].
  destruct (utf8_size (c :: s)) as [k|] eqn:E.
  - pose proof (utf8_size_bounds _ _ E) as [? ?]. assert (length (drop k (c :: s)) <= length s)%nat as Hd by (rewrite length_drop; cbn; lia).
    f_equal. rewrite IH by lia. symmetry. apply IH; lia.
  - f_equal. rewrite IH by lia. symmetry. apply IH; lia.
Qed.

Lemma coerce_rune s k : utf8_size s = Some k -> coerce s = take k s ++ coerce (drop k s).
Proof.
  intros E. pose proof (utf8_size_bounds _ _ E) as [? ?]. unfold coerce at 1. destruct s as [|c s]; [done|]. cbn [length to_valid].
  rewrite E, to_valid_enough; [done|]. rewrite length_drop. cbn. lia.
Qed.

Lemma coerce_invalid c s : utf8_size (c :: s) = None -> coerce (c :: s) = replacement ++ coerce s.
Proof. intros E. unfold coerce. cbn [length to_valid]. by rewrite E. Qed.

Lemma coerce_ascii c s : code c < 128 -> coerce (c :: s) = c :: coerce s.
Proof. intros H. by rewrite (coerce_rune _ 1) by (by apply utf8_size_ascii). Qed.

Lemma coerce_valid s : utf8_valid s -> coerce s = s.
Proof. induction 1 as [|s k E _ IH]; [done|]. by rewrite (coerce_rune s k E), IH, take_drop. Qed.

(** * Strings *)

Lemma hex_digit_to_hex z : 0 <= z < 16 -> hex_digit (to_hex z) = Some z.
Proof.
  intros Hz. rewrite <- (Z2Nat.id z) by lia. assert (Z.to_nat z < 16)%nat as Hn by lia. revert Hn. generalize (Z.to_nat z) as n.
  intros n Hn. do 16 (destruct n as [|n]; [reflexivity|]). lia.
Qed.

Lemma parse_string_u00 n z k :
  0 <= z < 128 -> parse_string (S n) (chr 92 :: "u"%char :: "0"%char :: "0"%char :: to_hex (z / 16) :: to_hex (z mod 16) :: k) =
  match parse_string n k with Some (t, r) => Some (chr z :: t, r) | None => None end.
Proof.
  intros Hz. cbn [parse_string]. change (code (chr 92) =? 34) with false. change (code (chr 92) <? 32) with false.
  change (code (chr 92) =? 92) with true. change (code "u" =? 117) with true. cbv iota.
  unfold hex4. change (hex_digit "0") with (Some 0). cbv iota. rewrite !hex_digit_to_hex by (Z.div_mod_to_equations; lia).
  replace (0 * 4096 + 0 * 256 + z / 16 * 16 + z mod 16) with z by (Z.div_mod_to_equations; lia).
  unfold between. settle (55296 <=? z) false. cbn [andb]. unfold utf8_encode. settle (z <? 128) true. done.
Qed.

Lemma parse_string_simple n e x k : e <> "u"%char -> simple_escape e = Some x ->
  parse_string (S n) (chr 92 :: e :: k) = match parse_string n k with Some (t, r) => Some (x :: t, r) | None => None end.
Proof.
  intros He Hx. cbn [parse_string]. change (code (chr 92) =? 34) with false. change (code (chr 92) <? 32) with false.
  change (code (chr 92) =? 92) with true. cbv iota. destruct (code e =? 117) eqn:E; [|by rewrite Hx].
  exfalso. apply He. bool_to_prop. rewrite <- (byte_of_Z_of_byte e). unfold code in E. rewrite E. reflexivity.
Qed.

Lemma char_of_code c z : code c = z -> c = chr z.
Proof. intros <-. symmetry. by apply chr_code. Qed.

(** The printer and the parser on the rest of a string, by the kind of its first rune. *)
Section Step.
Variables (m n : nat) (k : bytes).
Hypothesis reads_rest : forall s', (length s' <= m)%nat -> (length (escape_string m s') < n)%nat ->
  parse_string n (escape_string m s' ++ chr 34 :: k) = Some (coerce s', k).

Lemma read_simple e z c s :
  (length s <= m)%nat -> code c = z -> z < 128 -> e <> "u"%char -> simple_escape e = Some (chr z) ->
  (length (chr 92 :: e :: escape_string m s) < S n)%nat ->
  parse_string (S n) ((chr 92 :: e :: escape_string m s) ++ chr 34 :: k) = Some (coerce (c :: s), k).
Proof using reads_rest.
  intros Hm Hc Hz He Hx Hl. cbn [app length] in *. rewrite (parse_string_simple _ _ _ _ He Hx).
  rewrite reads_rest by lia. by rewrite coerce_ascii, (char_of_code c z Hc) by lia.
Qed.

Lemma read_u2028 s j e : utf8_size s = Some j -> (length (drop j s) <= m)%nat ->
  (take j s = utf8_encode 8232 /\ e = chr 92 :: $"u2028" \/ take j s = utf8_encode 8233 /\ e = chr 92 :: $"u2029") ->
  (length (e ++ escape_string m (drop j s)) < S n)%nat ->
  parse_string (S n) ((e ++ escape_string m (drop j s)) ++ chr 34 :: k) = Some (coerce s, k).
Proof using reads_rest.
  intros Ej Hd He Hl. rewrite (coerce_rune s j Ej). set (d := drop j s) in *.
  assert (parse_string (S n) ((e ++ escape_string m d) ++ chr 34 :: k) =
    match parse_string n (escape_string m d ++ chr 34 :: k) with Some (t, r) => Some (take j s ++ t, r) | None => None end) as ->
    by (destruct He as [[-> ->]|[-> ->]]; reflexivity).
  rewrite length_app in Hl. assert (length e = 6)%nat as Hle by (destruct He as [[_ ->]|[_ ->]]; reflexivity).
  by rewrite reads_rest by lia.
Qed.

Lemma read_copied c s j :
  (code c =? 34) = false -> (code c <? 32) = false -> (code c =? 92) = false ->
  utf8_size (c :: s) = Some j -> (length (drop j (c :: s)) <= m)%nat ->
  (length (take j (c :: s) ++ escape_string m (drop j (c :: s))) < S n)%nat ->
  parse_string (S n) (take j (c :: s) ++ escape_string m (drop j (c :: s)) ++ chr 34 :: k) = Some (coerce (c :: s), k).
Proof using reads_rest.
  intros E34 E32 E92 Ej Hd Hn. rewrite (coerce_rune _ j Ej). pose proof (utf8_size_bounds _ _ Ej) as [Hj1 Hj2].
  set (q := take j (c :: s)) in *. set (d := drop j (c :: s)) in *.
  assert (exists q', q = c :: q') as [q' Hq] by (subst q; destruct j; [lia|by eexists]).
  assert (utf8_size (q ++ escape_string m d ++ chr 34 :: k) = Some j) as Hsz by (by apply utf8_size_take).
  assert (length q = j) as Hlq by (subst q; rewrite length_take; lia).
  rewrite length_app in Hn.
  assert (drop j (q ++ escape_string m d ++ chr 34 :: k) = escape_string m d ++ chr 34 :: k) as Hdrop by (rewrite <- Hlq; apply drop_app_length).
  assert (take j (q ++ escape_string m d ++ chr 34 :: k) = q) as Htake by (rewrite <- Hlq; apply take_app_length).
  transitivity (match parse_string n (drop j (q ++ escape_string m d ++ chr 34 :: k)) with
                | Some (t, r') => Some (take j (q ++ escape_string m d ++ chr 34 :: k) ++ t, r') | None => None end).
  - rewrite Hq in Hsz |- *. cbn [app parse_string] in Hsz |- *. by rewrite E34, E32, E92, Hsz.
  - rewrite Hdrop, Htake. by rewrite reads_rest by lia.
Qed.

Lemma read_step c s : (length (c :: s) <= S m)%nat -> (length (escape_string (S m) (c :: s)) < S n)%nat ->
  parse_string (S n) (escape_string (S m) (c :: s) ++ chr 34 :: k) = Some (coerce (c :: s), k).
Proof using reads_rest.
  intros Hm Hn. pose proof (code_range c) as Hrange. cbn [length] in Hm. apply le_S_n in Hm. cbn [escape_string] in *.
  destruct ((code c =? 34) || (code c =? 92)) eqn:E1.
  { apply orb_true_iff in E1 as [E|E]; bool_to_prop.
    - apply (read_simple c 34); try done. all: apply char_of_code in E as ->; vm_compute; done.
    - apply (read_simple c 92); try done. all: apply char_of_code in E as ->; vm_compute; done. }
  destruct (code c =? 8) eqn:E2; [bool_to_prop; by apply (read_simple _ 8)|].
  destruct (code c =? 12) eqn:E3; [bool_to_prop; by apply (read_simple _ 12)|].
  destruct (code c =? 10) eqn:E4; [bool_to_prop; by apply (read_simple _ 10)|].
  destruct (code c =? 13) eqn:E5; [bool_to_prop; by apply (read_simple _ 13)|].
  destruct (code c =? 9) eqn:E6; [bool_to_prop; by apply (read_simple _ 9)|].
  destruct ((code c <? 32) || (code c =? 60) || (code c =? 62) || (code c =? 38)) eqn:E7.
  { assert (code c < 128) as Hlt by (rewrite !orb_true_iff in E7; destruct E7 as [[[?|?]|?]|?]; bool_to_prop; lia).
    cbn [app length] in *. rewrite parse_string_u00 by lia. rewrite reads_rest by lia. by rewrite coerce_ascii, (chr_code c (code c)) by done. }
  apply orb_false_iff in E1 as [E34 E92]. apply orb_false_iff in E7 as [[[E32 _]%orb_false_iff _]%orb_false_iff _].
  destruct (utf8_size (c :: s)) as [j|] eqn:Ej.
  - pose proof (utf8_size_bounds _ _ Ej) as [Hj1 Hj2].
    assert (length (drop j (c :: s)) <= m)%nat as Hd by (rewrite length_drop; cbn in *; lia).
    destruct (decide (_ = utf8_encode 8232)); [by apply read_u2028; auto|].
    destruct (decide (_ = utf8_encode 8233)); [by apply read_u2028; auto|].
    rewrite <- app_assoc. by apply read_copied.
  - rewrite (coerce_invalid _ _ Ej). cbn [length] in Hn. rewrite length_app in Hn.
    change (parse_string (S n) ((chr 92 :: $"ufffd" ++ escape_string m s) ++ chr 34 :: k)) with
      (match parse_string n (escape_string m s ++ chr 34 :: k) with Some (t, r) => Some (replacement ++ t, r) | None => None end).
    change (length $"ufffd") with 5%nat in Hn. by rewrite reads_rest by lia.
Qed.
End Step.

Lemma parse_escape m : forall s n k, (length s <= m)%nat -> (length (escape_string m s) < n)%nat ->
  parse_string n (escape_string m s ++ chr 34 :: k) = Some (coerce s, k).
Proof.
  induction m as [|m IH]; intros [|c s] [|n] k Hm Hn; cbn [length] in *; try lia; try (cbn; by rewrite code_chr by lia).
  apply read_step; [|cbn; lia|done]. intros s' Hs' Hl. by apply IH.
Qed.

(** * Numbers *)

Definition digits_of (ds : bytes) (z : Z) : Prop :=
  Forall (fun c => is_digit c = true) ds /\ (exists c r, ds = c :: r /\ is_char 48 c = false) /\
  forall a t, digits_value a (ds ++ t) = digits_value (a * 10 ^ zlen ds + z) t.

Lemma digit_char n : (n < 10)%N -> is_digit (pretty_N_char n) = true /\ code (pretty_N_char n) - 48 = Z.of_N n /\
  (is_char 48 (pretty_N_char n) = false <-> n <> 0%N).
Proof.
  intros Hn. destruct n as [|p]; [by vm_compute|]. do 4 try destruct p as [p|p|]; try lia; clear Hn; split_and!; by vm_compute.
Qed.

Lemma go_digits x : (0 < x)%N -> exists ds, (forall s, $(pretty_N_go x s) = ds ++ $s) /\ digits_of ds (Z.of_N x).
Proof.
  induction (N.lt_wf_0 x) as [x _ IH]. intros Hx. destruct (digit_char (x `mod` 10)) as (Hd & Hc & Hz); [apply N.mod_lt; lia|].
  set (c := pretty_N_char (x `mod` 10)) in *. assert (Z.of_N x = Z.of_N (x `div` 10) * 10 + Z.of_N (x `mod` 10)) as Ex.
  { rewrite N2Z.inj_div, N2Z.inj_mod. pose proof (Z.div_mod (Z.of_N x) 10). lia. }
  destruct (decide (x < 10)%N) as [Hs|Hs].
  - exists [c]. rewrite N.mod_small in * by done. split; [|split_and!].
    + intros s. rewrite pretty_N_go_step by done. rewrite N.div_small, pretty_N_go_0 by done. reflexivity.
    + by repeat constructor.
    + exists c, []. split; [done|]. apply Hz. lia.
    + intros a t. cbn. rewrite Hd. f_equal. change (zlen [c]) with 1. lia.
  - destruct (IH (x `div` 10)%N) as (ds & Hp & HF & (e & r & -> & He) & Hv); [apply N.div_lt; lia|apply N.div_str_pos; lia|].
    exists ((e :: r) ++ [c]). split; [|split_and!].
    + intros s. rewrite pretty_N_go_step by done. rewrite Hp, <- app_assoc. reflexivity.
    + apply Forall_app. split; [done|]. by repeat constructor.
    + exists e, (r ++ [c]). done.
    + intros a t. rewrite <- app_assoc, Hv. change ([c] ++ t) with (c :: t). cbn [digits_value]. rewrite Hd, zlen_app, Z.pow_add_r by (apply zlen_nonneg || done).
      f_equal. change (10 ^ zlen [c]) with 10. lia.
Qed.

(** A number and what may follow it in a document. *)
Definition ends (k : bytes) : Prop := match k with [] => True | c :: _ => c = chr 44 \/ c = chr 93 \/ c = chr 125 \/ c = chr 10 end.

Lemma take_digits_app ds k : Forall (fun c => is_digit c = true) ds -> ends k -> take_digits (ds ++ k) = (ds, k).
Proof.
  intros HF Hk. induction HF as [|c ds Hc _ IH]; cbn; [|by rewrite Hc, IH].
  destruct k as [|c k]; [done|]. cbn in *. by destruct Hk as [->|[->|[->| ->]]].
Qed.

Lemma parse_ends k : ends k -> parse_fraction k = Some ([], k) /\ parse_exponent k = Some ([], k).
Proof. destruct k as [|c k]; [done|]. by intros [->|[->|[->| ->]]]. Qed.

Lemma digit_not_minus c : is_digit c = true -> is_char 45 c = false.
Proof. unfold is_digit, is_char, between. intros H. bool_to_prop. by settle (code c =? 45) false. Qed.

Lemma print_Z_digits z : 0 < z -> digits_of (print_Z z) z.
Proof.
  intros Hz. destruct z as [|p|p]; [lia| |lia]. destruct (go_digits (N.pos p)) as (ds & Hp & Hd); [lia|].
  assert (print_Z (Z.pos p) = ds) as ->; [|done]. specialize (Hp EmptyString). by rewrite app_nil_r in Hp.
Qed.

Lemma parse_unsigned_print z : 0 <= z -> parse_unsigned (print_Z z) = Some z.
Proof.
  intros Hz. destruct (decide (z = 0)) as [->|]; [reflexivity|]. destruct (print_Z_digits z) as (_ & (c & r & E & _) & Hv); [lia|].
  unfold parse_unsigned. rewrite E. cbv iota. rewrite <- E. specialize (Hv 0 []). rewrite app_nil_r in Hv. rewrite Hv. cbn. f_equal; lia.
Qed.

Lemma print_Z_neg z : 0 < z -> print_Z (- z) = chr 45 :: print_Z z.
Proof. intros Hz. destruct z as [|p|p]; [lia| |lia]. reflexivity. Qed.

Lemma parse_signed_print z : parse_signed (print_Z z) = Some z.
Proof.
  destruct (decide (z < 0)) as [Hn|Hn].
  - rewrite <- (Z.opp_involutive z), print_Z_neg by lia. cbn [parse_signed]. change (is_char 45 (chr 45)) with true. cbv iota.
    by rewrite parse_unsigned_print by lia.
  - destruct (decide (z = 0)) as [->|]; [reflexivity|]. destruct (print_Z_digits z) as (HF & (c & r & E & _) & _); [lia|].
    rewrite E in HF. apply Forall_cons in HF as [Hc _]. unfold parse_signed. rewrite E. cbv iota.
    rewrite (digit_not_minus _ Hc), <- E. apply parse_unsigned_print. lia.
Qed.

Lemma parse_number_print z k : ends k -> parse_number (print_Z z ++ k) = Some (print_Z z, k).
Proof.
  intros Hk. destruct (parse_ends k Hk) as [Hf He].
  assert (forall z sign, 0 <= z -> match (match print_Z z ++ k with c :: r' => if is_char 48 c then ([c], r') else take_digits (print_Z z ++ k) | [] => ([], print_Z z ++ k) end) with
     | ([], _) => None | (d, r1) => match parse_fraction r1 with None => None | Some (f, r2) => match parse_exponent r2 with None => None
       | Some (e, r3) => Some (sign ++ d ++ f ++ e, r3) end end end = Some (sign ++ print_Z z, k)) as H.
  { clear z. intros z sign Hz. destruct (decide (z = 0)) as [->|].
    - change (print_Z 0) with [chr 48]. cbn [app]. change (is_char 48 (chr 48)) with true. cbv iota. by rewrite Hf, He.
    - destruct (print_Z_digits z) as (HF & (c & r & E & H0) & _); [lia|]. rewrite E in *. cbn [app]. rewrite H0.
      pose proof (take_digits_app (c :: r) k HF Hk) as Ht. cbn [app] in Ht. by rewrite Ht, Hf, He, !app_nil_r. }
  unfold parse_number. destruct (decide (z < 0)) as [Hn|Hn].
  - rewrite <- (Z.opp_involutive z), print_Z_neg by lia. cbn [app]. change (is_char 45 (chr 45)) with true. cbv iota. apply (H (- z) [chr 45]). lia.
  - destruct (print_Z z ++ k) as [|c t] eqn:E.
    + exfalso. destruct (decide (z = 0)) as [->|]; [done|]. destruct (print_Z_digits z) as (_ & (c & r & E' & _) & _); [lia|]. by rewrite E' in E.
    + assert (is_char 45 c = false) as Hc.
      { destruct (decide (z = 0)) as [->|]; [by injection E as <- _|]. destruct (print_Z_digits z) as (HF & (d & r & E' & _) & _); [lia|].
        rewrite E' in E, HF. apply Forall_cons in HF as [HF _]. injection E as <- _. by apply digit_not_minus. }
      rewrite Hc. specialize (H z [] ltac:(lia)). rewrite E in H. exact H.
Qed.

(** * Documents *)

(** Values that come back: valid strings, integers, and a nesting depth. *)
Fixpoint json_depth (j : json) : Z :=
  match j with
  | JArray l => 1 + foldr (fun x d => Z.max (json_depth x) d) 0 l
  | JObject ms => 1 + foldr (fun kv d => Z.max (json_depth kv.2) d) 0 ms
  | _ => 0
  end.

Inductive json_ok : json -> Prop :=
| ok_null : json_ok JNull
| ok_bool b : json_ok (JBool b)
| ok_int z : json_ok (JInt z)
| ok_string s : json_ok (JString s)
| ok_array l : Forall json_ok l -> json_ok (JArray l)
| ok_object ms : Forall (fun kv => json_ok kv.2) ms -> json_ok (JObject ms).

Fixpoint coerce_json (j : json) : json :=
  match j with
  | JString s => JString (coerce s)
  | JArray l => JArray (map coerce_json l)
  | JObject ms => JObject (map (fun '(k, v) => (coerce k, coerce_json v)) ms)
  | _ => j
  end.

Definition reads_back (j : json) : Prop := forall n depth k,
  ends k -> (2 * length (print_json j) <= n)%nat -> depth + json_depth j <= maxNestingDepth ->
  parse_value n depth (print_json j ++ k) = Some (coerce_json j, k).

Lemma json_ok_ind' (P : json -> Prop) :
  P JNull -> (forall b, P (JBool b)) -> (forall z, P (JInt z)) -> (forall s, P (JString s)) ->
  (forall l, Forall P l -> P (JArray l)) -> (forall ms, Forall (fun kv => P kv.2) ms -> P (JObject ms)) ->
  forall j, json_ok j -> P j.
Proof.
  intros H1 H2 H3 H4 H5 H6. fix IH 2. intros j [|b|z|s|l Hl|ms Hms]; auto.
  - apply H5. induction Hl as [|x l Hx _ IHl]; constructor; auto.
  - apply H6. induction Hms as [|x l Hx _ IHl]; constructor; auto.
Qed.

Lemma json_depth_nonneg j : 0 <= json_depth j.
Proof.
  destruct j as [| | | |l|ms]; cbn; try lia.
  - assert (0 <= foldr (fun x d => Z.max (json_depth x) d) 0 l); [|lia]. induction l; cbn; lia.
  - assert (0 <= foldr (fun kv d => Z.max (json_depth kv.2) d) 0 ms); [|lia]. induction ms as [|kv ms IH]; cbn [foldr]; lia.
Qed.

(** The first byte of a value is neither white space nor a closing bracket. *)
Lemma print_json_head j : json_ok j -> exists c r, print_json j = c :: r /\ is_space c = false /\ is_char 93 c = false.
Proof.
  intros [|[]|z|s|l _|ms _]; try (eexists _, _; split_and!; [reflexivity|reflexivity|reflexivity]).
  cbn [JInt print_json]. destruct (decide (z < 0)) as [Hn|Hn].
  - rewrite <- (Z.opp_involutive z), print_Z_neg by lia. eexists _, _. by split_and!.
  - destruct (decide (z = 0)) as [->|]; [eexists _, _; by split_and!|].
    destruct (print_Z_digits z) as (HF & (c & r & E & _) & _); [lia|]. rewrite E in *. apply Forall_cons in HF as [Hc _].
    exists c, r. unfold is_digit, is_space, is_char, between in *. bool_to_prop. split_and!; [done|..].
    + settle (code c =? 32) false. settle (code c =? 9) false. settle (code c =? 10) false. by settle (code c =? 13) false.
    + by settle (code c =? 93) false.
Qed.

Lemma skip_space_head j k : json_ok j -> skip_space (print_json j ++ k) = print_json j ++ k.
Proof. intros Hj. destruct (print_json_head j Hj) as (c & r & -> & Hc & _). by apply skip_not_space. Qed.

Lemma parse_print_string s n k : (length (print_string s) <= n)%nat ->
  exists r, print_string s ++ k = chr 34 :: r /\ parse_string n r = Some (coerce s, k).
Proof.
  intros Hn. unfold print_string in *. eexists. split; [cbn [app]; reflexivity|]. cbn [length] in Hn. rewrite length_app in Hn. cbn in Hn.
  rewrite <- app_assoc. apply parse_escape; lia.
Qed.

Lemma reads_int z : reads_back (JInt z).
Proof.
  intros n depth k Hk Hn _. cbn [JInt print_json] in *. pose proof (parse_number_print z k Hk) as Hp.
  destruct (print_json_head (JInt z) (ok_int z)) as (c & r & E & Hs & _). cbn in E. rewrite E in *.
  destruct n as [|n]; [cbn in Hn; lia|]. cbn [app parse_value]. rewrite skip_not_space by done.
  assert (is_digit c = true \/ c = chr 45) as Hc.
  { destruct (decide (z < 0)); [right|left].
    - rewrite <- (Z.opp_involutive z), print_Z_neg in E by lia. by injection E as <- _.
    - destruct (decide (z = 0)) as [->|]; [by injection E as <- _|].
      destruct (print_Z_digits z) as (HF & _); [lia|]. rewrite E in HF. by apply Forall_cons in HF as [? _]. }
  assert (forall v, (v < 45 \/ 45 < v < 48 \/ 57 < v) -> is_char v c = false) as Hne.
  { intros v Hv. destruct Hc as [Hc| ->]; unfold is_char; [|change (code (chr 45)) with 45; by settle (45 =? v) false].
    unfold is_digit, between in Hc. bool_to_prop. by settle (code c =? v) false. }
  rewrite !Hne by lia.
  assert (forall p l s, is_char (code p) c = false -> strip (p :: l) (c :: s) = None) as Hstrip.
  { intros p l s Hp'. unfold is_char in Hp'. cbn. by rewrite Z.eqb_sym, Hp'. }
  change $"null" with ("n"%char :: $"ull"). change $"true" with ("t"%char :: $"rue"). change $"false" with ("f"%char :: $"alse").
  rewrite !Hstrip by (apply Hne; right; right; vm_compute; reflexivity). cbn [app] in Hp. unfold JInt. by rewrite Hp, E.
Qed.

Lemma reads_string s : reads_back (JString s).
Proof.
  intros n depth k Hk Hn _. cbn [print_json] in *.
  destruct n as [|n]; [unfold print_string in Hn; cbn in Hn; lia|]. unfold print_string. cbn [app parse_value].
  rewrite skip_not_space by reflexivity. change (is_char 34 (chr 34)) with true. cbv iota.
  rewrite <- app_assoc. cbn [app]. rewrite parse_escape; [done|lia|rewrite length_app; cbn; lia].
Qed.

(** The elements of a list, and the members of an object. *)
Lemma parse_elements_print l : forall n depth k,
  l <> [] -> Forall json_ok l -> Forall reads_back l -> Forall (fun j => depth + json_depth j <= maxNestingDepth) l ->
  (2 * length (join $"," (map print_json l)) + 1 <= n)%nat ->
  parse_elements n depth (join $"," (map print_json l) ++ chr 93 :: k) = Some (map coerce_json l, k).
Proof.
  induction l as [|j l IH]; intros n depth k Hne Hok Hr Hd Hn; [done|].
  apply Forall_cons in Hok as [Hj Hok]. apply Forall_cons in Hr as [Hrj Hr]. apply Forall_cons in Hd as [Hdj Hd].
  destruct n as [|n]; [lia|]. cbn [parse_elements map]. destruct l as [|j' l].
  - cbn [map join] in *. rewrite Hrj; [|cbn; auto|lia|done]. by rewrite skip_not_space.
  - change (join $"," (print_json j :: map print_json (j' :: l))) with (print_json j ++ chr 44 :: join $"," (map print_json (j' :: l))) in *.
    cbn [map] in Hn. change (join $"," (print_json j :: print_json j' :: map print_json l)) with (print_json j ++ chr 44 :: join $"," (map print_json (j' :: l))) in Hn.
    rewrite length_app in Hn. cbn [length] in Hn. rewrite <- app_assoc. cbn [app].
    rewrite Hrj; [|cbn; auto|lia|done]. rewrite skip_not_space by done. change (is_char 93 (chr 44)) with false. change (is_char 44 (chr 44)) with true. cbv iota.
    rewrite IH; [done|done|done|done|done|]. destruct (print_json_head j Hj) as (c & r & E & _). rewrite E in Hn. cbn [length] in Hn. lia.
Qed.

Lemma parse_members_print ms : forall n depth k,
  ms <> [] -> Forall (fun kv => json_ok kv.2) ms -> Forall (fun kv => reads_back kv.2) ms ->
  Forall (fun kv => depth + json_depth kv.2 <= maxNestingDepth) ms ->
  (2 * length (join $"," (map print_member ms)) + 1 <= n)%nat ->
  parse_members n depth (join $"," (map print_member ms) ++ chr 125 :: k) =
    Some (map (fun '(k, v) => (coerce k, coerce_json v)) ms, k).
Proof.
  induction ms as [|[key j] ms IH]; intros n depth k Hne Hok Hr Hd Hn; [done|].
  apply Forall_cons in Hok as [Hj Hok]. apply Forall_cons in Hr as [Hrj Hr]. apply Forall_cons in Hd as [Hdj Hd]. cbn [fst snd] in *.
  destruct n as [|n]; [lia|]. cbn [map] in *.
  set (rest := match ms with [] => chr 125 :: k | _ => chr 44 :: join $"," (map print_member ms) ++ chr 125 :: k end).
  assert (join $"," (print_member (key, j) :: map print_member ms) ++ chr 125 :: k = print_string key ++ chr 58 :: print_json j ++ rest) as E.
  { assert (print_member (key, j) = print_string key ++ chr 58 :: print_json j) as Em by reflexivity. subst rest. destruct ms as [|m ms].
    - cbn [map join]. rewrite Em, <- app_assoc. reflexivity.
    - change (join $"," (print_member (key, j) :: map print_member (m :: ms))) with (print_member (key, j) ++ chr 44 :: join $"," (map print_member (m :: ms))).
      rewrite Em, <- !app_assoc. cbn [app]. by rewrite <- ?app_assoc. }
  assert (length (join $"," (print_member (key, j) :: map print_member ms)) =
    length (print_string key) + 1 + length (print_json j) + match ms with [] => 0 | _ => 1 + length (join $"," (map print_member ms)) end)%nat as El.
  { pose proof (f_equal length E) as El. rewrite !length_app in El. cbn [length] in El. rewrite length_app in El. subst rest.
    destruct ms; cbn [length] in *; rewrite ?length_app in El; cbn [length] in *; lia. }
  rewrite E. assert (ends rest) as He by (subst rest; destruct ms; cbn; auto).
  cbn [parse_members]. rewrite El in Hn.
  destruct (parse_print_string key (S (length (escape_string (length key) key ++ chr 34 :: chr 58 :: print_json j ++ rest))) (chr 58 :: print_json j ++ rest)) as (r & Ek & Hk).
  { unfold print_string. cbn [length]. rewrite !length_app. cbn [length]. lia. }
  assert (r = escape_string (length key) key ++ chr 34 :: chr 58 :: print_json j ++ rest) as Er.
  { unfold print_string in Ek. cbn [app] in Ek. injection Ek as <-. by rewrite <- app_assoc. }
  rewrite Ek. rewrite skip_not_space by reflexivity. change (is_char 34 (chr 34)) with true. cbv iota. rewrite Er in Hk |- *. rewrite Hk.
  rewrite skip_not_space by reflexivity. change (is_char 58 (chr 58)) with true. cbv iota.
  rewrite Hrj; [|done|lia|done].
  assert (length (print_string key) >= 2)%nat as Hq by (unfold print_string; cbn [length]; rewrite length_app; cbn; lia).
  subst rest. destruct ms as [|m ms]; rewrite skip_not_space by reflexivity; [done|].
  change (is_char 125 (chr 44)) with false. change (is_char 44 (chr 44)) with true. cbv iota.
  rewrite IH; [done|done|done|done|done|lia].
Qed.

Lemma foldr_max_le {A} (f : A -> Z) l b : foldr (fun x d => Z.max (f x) d) 0 l <= b -> Forall (fun x => f x <= b) l.
Proof. intros H. induction l as [|x l IH]; [constructor|]. cbn in H. constructor; [lia|]. apply IH. lia. Qed.

Lemma reads_array l : Forall json_ok l -> Forall reads_back l -> reads_back (JArray l).
Proof.
  intros Hok Hr n depth k Hk Hn Hd. cbn [print_json json_depth] in *.
  change ($"[" ++ join $"," (map print_json l) ++ $"]") with (chr 91 :: join $"," (map print_json l) ++ [chr 93]) in *.
  destruct n as [|n]; [cbn in Hn; lia|].
  cbn [app parse_value]. rewrite skip_not_space by reflexivity. change (is_char 34 (chr 91)) with false. change (is_char 123 (chr 91)) with false.
  change (is_char 91 (chr 91)) with true. cbv iota. rewrite Z.geb_leb.
  assert (0 <= foldr (fun x d => Z.max (json_depth x) d) 0 l) by (clear; induction l; cbn; lia).
  settle (maxNestingDepth <=? depth) false. rewrite <- app_assoc. cbn [app]. destruct l as [|j0 l]; [reflexivity|].
  assert (exists c r, join $"," (map print_json (j0 :: l)) = c :: r /\ is_space c = false /\ is_char 93 c = false) as (c & r & E & Hs & H93).
  { apply Forall_cons in Hok as [H0 _]. destruct (print_json_head j0 H0) as (c & r & E & ?). cbn [map].
    destruct (map print_json l); cbn [join]; rewrite E; by eexists _, _. }
  cbn [length] in Hn. rewrite length_app in Hn. cbn [length] in Hn.
  assert (parse_elements n (depth + 1) (join $"," (map print_json (j0 :: l)) ++ chr 93 :: k) = Some (map coerce_json (j0 :: l), k)) as Hp.
  { apply parse_elements_print; try done; [|lia]. eapply Forall_impl; [apply (foldr_max_le json_depth _ (maxNestingDepth - depth - 1)); lia|]. cbn. intros; lia. }
  rewrite E in *. cbn [app] in *. rewrite skip_not_space by done. by rewrite H93, Hp.
Qed.

Lemma reads_object ms : Forall (fun kv => json_ok kv.2) ms -> Forall (fun kv => reads_back kv.2) ms -> reads_back (JObject ms).
Proof.
  intros Hok Hr n depth k Hk Hn Hd. rewrite print_object in *. cbn [json_depth] in *.
  change ($"{" ++ join $"," (map print_member ms) ++ $"}") with (chr 123 :: join $"," (map print_member ms) ++ [chr 125]) in *.
  destruct n as [|n]; [cbn in Hn; lia|]. cbn [app parse_value]. rewrite skip_not_space by reflexivity. change (is_char 34 (chr 123)) with false.
  change (is_char 123 (chr 123)) with true. cbv iota. rewrite Z.geb_leb.
  assert (0 <= foldr (fun kv d => Z.max (json_depth kv.2) d) 0 ms) by (clear; induction ms as [|kv ms IH]; cbn [foldr]; lia).
  settle (maxNestingDepth <=? depth) false. rewrite <- app_assoc. cbn [app]. destruct ms as [|[key j0] ms]; [reflexivity|].
  assert (exists r, join $"," (map print_member ((key, j0) :: ms)) = chr 34 :: r) as (r & E).
  { cbn [map]. unfold print_member at 1. unfold print_string. destruct (map print_member ms); cbn; by eexists. }
  cbn [length] in Hn. rewrite length_app in Hn. cbn [length] in Hn.
  assert (parse_members n (depth + 1) (join $"," (map print_member ((key, j0) :: ms)) ++ chr 125 :: k) =
    Some (map (fun '(k, v) => (coerce k, coerce_json v)) ((key, j0) :: ms), k)) as Hp.
  { apply parse_members_print; try done; [|lia].
    eapply Forall_impl; [apply (foldr_max_le (fun kv => json_depth kv.2) _ (maxNestingDepth - depth - 1)); lia|]. cbn. intros; lia. }
  rewrite E in *. cbn [app] in *. rewrite skip_not_space by done. change (is_char 125 (chr 34)) with false. cbv iota. by rewrite Hp.
Qed.

Lemma reads_back_ok j : json_ok j -> reads_back j.
Proof.
  intros Hj. assert (json_ok j /\ reads_back j) as [_ H]; [|exact H]. revert Hj.
  apply (json_ok_ind' (fun j => json_ok j /\ reads_back j)).
  - split; [constructor|]. intros [|n] depth k Hk Hn _; [vm_compute in Hn; lia|]. reflexivity.
  - intros b. split; [constructor|]. intros [|n] depth k Hk Hn _; [destruct b; vm_compute in Hn; lia|]. by destruct b.
  - intros z. split; [constructor|apply reads_int].
  - intros s. split; [constructor|apply reads_string].
  - intros l Hl. apply Forall_and in Hl as [Hok Hr]. split; [by constructor|by apply reads_array].
  - intros ms Hms. apply Forall_and in Hms as [Hok Hr]. split; [by constructor|by apply reads_object].
Qed.

Lemma parse_print_json j : json_ok j -> json_depth j <= maxNestingDepth -> parse_json (print_json j) = Some (coerce_json j).
Proof.
  intros Hj Hd. unfold parse_json. pose proof (reads_back_ok j Hj (2 * length (print_json j) + 2)%nat 0 [] I ltac:(lia) ltac:(lia)) as H.
  rewrite app_nil_r in H. by rewrite H.
Qed.
