(* ===== verification/FileStream.v ===== *)
(** File streams, both ends: the handler behind [bitbang serve files] (internal/streamtype/file.go) and
    the get and put of [bitbang cp] (internal/client/fileops.go).

    The handler's state is its stream table and the [filePending] objects; the goroutine of a get or a
    put is the [routine] of its object and moves a step at a time, so a reset may come between any two
    of its calls. [in_flight] is what a caller of the pipe's Write still blocks on. The file system,
    the readers and writers it hands out and the data channel are arguments of the steps. *)

From S2P Require Import Prelude GoLib Protocol Json Wire JsonRoundTrip.

(** What a Filesystem's operations may fail with. *)
Inductive file_error := ErrNotFound | ErrExists | ErrOther (message : bytes).

Record FileStat := mkStat { fs_Name : bytes; fs_Type : bytes; fs_Size : Z; fs_Modified : Z; fs_Mime : bytes }.

Record FileOp := mkOp { op_Op : bytes; op_Path : bytes; op_Overwrite : bool }.

(** The frames a handler writes to its stream. *)
Inductive reply := WriteSYN (payload : bytes) | WriteDAT (payload : bytes) | WriteFIN (payload : bytes).

(** How a Read or a copy ended. *)
Inductive stop := EOF | Broken (message : bytes).

(** io.Pipe, as far as its closing goes. *)
Inductive pipe := PipeOpen | PipeEOF | PipeCanceled.

#[export] Instance pipe_eq_dec : EqDecision pipe.
Proof. solve_decision. Defined.

Inductive routine :=
| Opening                                   (* handleGet before [OpenRead] *)
| Header (stat : FileStat)                  (* ... before the response SYN *)
| Reading                                   (* ... at the read of its loop *)
| Sending (chunk : bytes) (err : option stop) (* ... with a chunk to send *)
| Copying                                   (* handlePut in [io.Copy] *)
| Writing (chunk : bytes)                   (* ... with a chunk to write *)
| Copied (err : option bytes)               (* ... past it *)
| Finishing                                 (* the deferred [finishStream] *)
| Returned.

Record filePending := mkPending {
  sid : Z;
  op : bytes;
  path : bytes;
  pw : option pipe;
  closer : bool;       (* a file is attached and open *)
  closed : bool;       (* [close] ran *)
  in_flight : bytes;
  work : routine
}.

#[export] Instance eta_filePending : Eta filePending := fun p =>
  mkPending (sid p) (op p) (path p) (pw p) (closer p) (closed p) (in_flight p) (work p).

(** What is observable of a handler: the frames it writes, with the object they belong to if there is one,
    the bytes and the end that its pipes take, and what passes through the files. *)
Inductive event :=
| Reply (id : Z) (ref : option nat) (r : reply)
| Took (ref : nat) (payload : bytes)
| Ended (ref : nat)
| Gave (ref : nat) (chunk : bytes) (err : option stop)
| Kept (ref : nat) (chunk : bytes).

Record FileHandler := mkHandler {
  streams : gmap Z nat;
  pendings : list filePending;
  log : list event
}.

#[export] Instance eta_FileHandler : Eta FileHandler := fun h => mkHandler (streams h) (pendings h) (log h).

Definition NewFile : FileHandler := mkHandler ∅ [] [].

Definition emit (e : event) (h : FileHandler) : FileHandler := h <| log := log h ++ [e] |>.
Definition write (id : Z) (ref : option nat) (r : reply) (h : FileHandler) : FileHandler := emit (Reply id ref r) h.
Definition put (h : FileHandler) (ref : nat) (p : filePending) : FileHandler := h <| pendings := <[ref := p]> (pendings h) |>.

(** [json.Marshal] of a map of strings: the keys are sorted. *)
Definition status_ok : bytes := print_json (JObject [($"status", JString $"ok")]).
Definition status_error (msg : bytes) : bytes := print_json (JObject [($"error", JString msg); ($"status", JString $"error")]).

Definition sendFileError (h : FileHandler) (id : Z) (ref : option nat) (msg : bytes) : FileHandler :=
  write id ref (WriteFIN []) (write id ref (WriteSYN (status_error msg)) h).

Definition fileErrMessage (e : file_error) (path : bytes) : bytes :=
  match e with
  | ErrNotFound => $"not found: " ++ path
  | ErrExists => $"exists: " ++ path
  | ErrOther m => m
  end.

(** The fields of the request, and whether [json.Unmarshal] succeeds. *)
Definition decode_ints : decoder unit := fun old j =>
  match j with JArray l => (old, forallb (fun x => (decode_int 0 x).2) l) | JNull => (old, true) | _ => (old, false) end.

Definition decode_op (payload : bytes) : option FileOp :=
  match parse_json payload with
  | None => None
  | Some j =>
    let '(_, ok0) := field decode_string [] $"type" j in
    let '(o, ok1) := field decode_string [] $"op" j in
    let '(p, ok2) := field decode_string [] $"path" j in
    let '(_, ok3) := field decode_int 0 $"size" j in
    let '(w, ok4) := field decode_bool false $"overwrite" j in
    let '(_, ok5) := field decode_ints tt $"range" j in
    if (match j with JObject _ | JNull => true | _ => false end) && ok0 && ok1 && ok2 && ok3 && ok4 && ok5
    then Some (mkOp o p w) else None
  end.

(** * The table and the life of an object *)

Definition close (p : filePending) : filePending :=
  if closed p then p else
  p <| closed := true |> <| closer := false |>
    <| pw := match pw p with Some PipeOpen => Some PipeCanceled | x => x end |>.

Definition close_ref (h : FileHandler) (ref : nat) : FileHandler :=
  match pendings h !! ref with Some p => put h ref (close p) | None => h end.

Definition trackStream (h : FileHandler) (id : Z) (p : filePending) : FileHandler :=
  let h1 := h <| streams := <[id := length (pendings h)]> (streams h) |> <| pendings := pendings h ++ [p] |> in
  match streams h !! id with Some old => close_ref h1 old | None => h1 end.

Definition finishStream (h : FileHandler) (id : Z) (want : nat) : FileHandler :=
  let h1 := if decide (streams h !! id = Some want) then h <| streams := delete id (streams h) |> else h in
  close_ref h1 want.

Definition setCloser (p : filePending) : filePending * bool :=
  if closed p then (p, false) else (p <| closer := true |>, true).

(** * The handler's callbacks *)

Definition handleList (h : FileHandler) (id : Z) (path : bytes) (entries : result file_error (list FileStat)) (syn_ok : bool) : FileHandler :=
  match entries with
  | Err e => sendFileError h id None (fileErrMessage e path)
  | Ok es =>
    let entry e := JObject ([($"name", JString (fs_Name e)); ($"type", JString (fs_Type e))] ++
      (if fs_Size e =? 0 then [] else [($"size", JInt (fs_Size e))]) ++ [($"modified", JInt (fs_Modified e))] ++
      (match fs_Mime e with [] => [] | m => [($"mime", JString m)] end)) in
    let body := print_json (JObject [($"entries", JArray (map entry es))]) in
    match ValidateFramePayload body with
    | Err _ => sendFileError h id None $"directory listing is too large"
    | Ok _ =>
      let h1 := write id None (WriteSYN status_ok) h in
      if syn_ok then write id None (WriteFIN []) (write id None (WriteDAT body) h1) else h1
    end
  end.

(** [listed] and [opened] are what the file system answers, [bad] the text of a decoding error. *)
Definition OnSYN (h : FileHandler) (id : Z) (payload : bytes) (final : bool) (bad : bytes)
    (listed : result file_error (list FileStat)) (opened : result file_error unit) (syn_ok : bool) : FileHandler :=
  match decode_op payload with
  | None => sendFileError h id None ($"bad request: " ++ bad)
  | Some o =>
    if decide (op_Op o = $"get") then
      trackStream h id (mkPending id $"get" (op_Path o) None false false [] Opening)
    else if decide (op_Op o = $"list") then handleList h id (op_Path o) listed syn_ok
    else if decide (op_Op o = $"put") then
      match opened with
      | Err e => sendFileError h id None (fileErrMessage e (op_Path o))
      | Ok _ =>
        if final then write id None (WriteFIN []) (write id None (WriteSYN status_ok) h) else
        let ref := length (pendings h) in
        write id (Some ref) (WriteSYN status_ok)
          (trackStream h id (mkPending id $"put" (op_Path o) (Some PipeOpen) true false [] Copying))
      end
    else sendFileError h id None ($"unknown op: " ++ op_Op o)
  end.

(** The pipe's Write as far as it blocks: nothing is taken once the pipe is closed. *)
Definition pipe_write (h : FileHandler) (ref : nat) (payload : bytes) : FileHandler :=
  match pendings h !! ref with
  | Some p => if bool_decide (pw p = Some PipeOpen) then put (emit (Took ref payload) h) ref (p <| in_flight := payload |>) else h
  | None => h
  end.

Definition target (h : FileHandler) (id : Z) : option nat :=
  match streams h !! id with
  | Some ref => match pendings h !! ref with
                | Some p => if decide (op p = $"put") then Some ref else None
                | None => None end
  | None => None
  end.

Definition OnDAT (h : FileHandler) (id : Z) (payload : bytes) : FileHandler :=
  match target h id, payload with
  | Some ref, _ :: _ => pipe_write h ref payload
  | _, _ => h
  end.

(** [OnFIN] past its write: the pipe is closed, unless it is already. *)
Definition pipe_close (h : FileHandler) (ref : nat) : FileHandler :=
  match pendings h !! ref with
  | Some p => if bool_decide (pw p = Some PipeOpen) then put (emit (Ended ref) h) ref (p <| pw := Some PipeEOF |>) else h
  | None => h
  end.

Definition OnReset (h : FileHandler) (id : Z) : FileHandler :=
  let h1 := h <| streams := delete id (streams h) |> in
  match streams h !! id with Some ref => close_ref h1 ref | None => h1 end.

(** * The goroutine of a get *)

Definition get_meta (stat : FileStat) : bytes :=
  print_json (JObject [($"mime", JString (fs_Mime stat)); ($"modified", JInt (fs_Modified stat));
                       ($"size", JInt (fs_Size stat)); ($"status", JString $"ok")]).

(** One call of [handleGet] at a time. [event] is what the call answers. *)
Inductive get_event :=
| Opened (r : result file_error FileStat)
| Wrote (ok : bool)
| Read (chunk : bytes) (err : option stop)
| Waited.                                   (* the data channel stays full until the stream is done *)

Definition handleGet (h : FileHandler) (ref : nat) (e : get_event) : option FileHandler :=
  match pendings h !! ref with
  | None => None
  | Some p =>
    let id := sid p in
    match work p, e with
    | Opening, Opened (Err err) =>
      Some (put (sendFileError h id (Some ref) (fileErrMessage err (path p))) ref (p <| work := Finishing |>))
    | Opening, Opened (Ok stat) =>
      let '(p1, live) := setCloser p in
      Some (put h ref (p1 <| work := if live then Header stat else Finishing |>))
    | Header stat, Wrote ok =>
      Some (put (write id (Some ref) (WriteSYN (get_meta stat)) h) ref (p <| work := if ok then Reading else Finishing |>))
    | Reading, Read chunk err =>
      let h1 := emit (Gave ref chunk err) h in
      Some match chunk, err with
           | [], None => h1
           | [], Some _ => put (write id (Some ref) (WriteFIN []) h1) ref (p <| work := Finishing |>)
           | _, _ => put h1 ref (p <| work := Sending chunk err |>)
           end
    | Sending chunk err, Waited => if closed p then Some (put h ref (p <| work := Finishing |>)) else None
    | Sending chunk err, Wrote ok =>
      let h1 := write id (Some ref) (WriteDAT chunk) h in
      Some (if ok then
              match err with
              | None => put h1 ref (p <| work := Reading |>)
              | Some _ => put (write id (Some ref) (WriteFIN []) h1) ref (p <| work := Finishing |>)
              end
            else put h1 ref (p <| work := Finishing |>))
    | Finishing, _ => Some (finishStream (put h ref (p <| work := Returned |>)) id ref)
    | _, _ => None
    end
  end.

(** * The goroutine of a put *)

(** The buffer of [io.Copy]. *)
Definition copy_buffer : nat := Z.to_nat 32768.

Inductive put_event :=
| Next                                      (* any call but the file's *)
| Stored (n : nat) (err : option bytes).    (* the file's Write *)

Definition write_result (err : option bytes) : bytes :=
  match err with None => status_ok | Some m => status_error ($"write failed: " ++ m) end.

Definition handlePut (h : FileHandler) (ref : nat) (e : put_event) : option FileHandler :=
  match pendings h !! ref with
  | None => None
  | Some p =>
    match work p, e with
    | Copying, Next =>
      match pw p with
      | Some PipeOpen =>
        match in_flight p with
        | [] => None
        | b => Some (put h ref (p <| work := Writing (take copy_buffer b) |> <| in_flight := drop copy_buffer b |>))
        end
      | Some PipeEOF => Some (put h ref (p <| work := Copied None |>))
      | _ => Some (put h ref (p <| work := Copied (Some $"context canceled") |>))
      end
    | Writing chunk, Stored n err =>
      if decide (n <= length chunk)%nat then
        Some (put (emit (Kept ref (take n chunk)) h) ref (p <| work :=
          match err with
          | Some m => Copied (Some m)
          | None => if decide (n = length chunk) then Copying else Copied (Some $"short write")
          end |>))
      else None
    | Copied err, Next =>
      Some (put (write (sid p) (Some ref) (WriteFIN (write_result err)) h) ref (p <| work := Finishing |>))
    | Finishing, Next => Some (finishStream (put h ref (p <| work := Returned |>)) (sid p) ref)
    | _, _ => None
    end
  end.

(** A blocked Write returns: its bytes were taken, or the pipe is closed. *)
Definition unblock (h : FileHandler) (ref : nat) : option FileHandler :=
  match pendings h !! ref with
  | Some p => if bool_decide (pw p = Some PipeOpen) then None else Some (put h ref (p <| in_flight := [] |>))
  | None => None
  end.

(** * Steps

    The frames of one stream reach the handler one after another: a callback starts when no Write of the
    stream blocks. [OnFIN] writes its payload, then closes the pipe. *)

Definition idle (h : FileHandler) (id : Z) : Prop :=
  forall ref p, target h id = Some ref -> pendings h !! ref = Some p -> in_flight p = [].

Inductive file_step : FileHandler -> FileHandler -> Prop :=
| fh_syn h id payload final bad listed opened syn_ok : file_step h (OnSYN h id payload final bad listed opened syn_ok)
| fh_dat h id payload : idle h id -> file_step h (OnDAT h id payload)
| fh_fin h id ref : idle h id -> target h id = Some ref -> file_step h (pipe_close h ref)
| fh_reset h id : file_step h (OnReset h id)
| fh_get h ref p e h' : pendings h !! ref = Some p -> op p = $"get" -> handleGet h ref e = Some h' -> file_step h h'
| fh_put h ref p e h' : pendings h !! ref = Some p -> op p = $"put" -> handlePut h ref e = Some h' -> file_step h h'
| fh_unblock h ref h' : unblock h ref = Some h' -> file_step h h'.

Definition serving (h : FileHandler) : Prop := steps file_step NewFile h.

(** * The connector's side (internal/client/fileops.go) *)

Record fileStatus := mkStatus { Status : bytes; Error : bytes; st_Size : Z }.

(** [json.Unmarshal] into a fileStatus. *)
Definition decode_status (payload : bytes) : option fileStatus :=
  match parse_json payload with
  | None => None
  | Some j =>
    let '(s, ok1) := field decode_string [] $"status" j in
    let '(e, ok2) := field decode_string [] $"error" j in
    let '(n, ok3) := field decode_int 0 $"size" j in
    let '(_, ok4) := field decode_int 0 $"modified" j in
    let '(_, ok5) := field decode_string [] $"mime" j in
    if (match j with JObject _ | JNull => true | _ => false end) && ok1 && ok2 && ok3 && ok4 && ok5
    then Some (mkStatus s e n) else None
  end.

Definition statusErr (s : fileStatus) : bytes :=
  match Error s, Status s with
  | [], [] => $"unknown error"
  | [], st => st
  | e, _ => e
  end.

Inductive op_error :=
| SendFailed (message : bytes)
| ClosedBeforeResponse
| ExpectedSYN (flags : Z)
| BadResponse
| Server (message : bytes)
| LocalFailed (message : bytes)
| ClosedWithoutFIN.

(** The wait for the first response. *)
Definition first_response (inbox : list Frame) : result op_error (fileStatus * Frame * list Frame) :=
  match inbox with
  | [] => Err ClosedBeforeResponse
  | f :: rest =>
    if negb (IsSYN f) then Err (ExpectedSYN (Flags f)) else
    match decode_status (Payload f) with
    | None => Err BadResponse
    | Some st => if decide (Status st = $"ok") then Ok (st, f, rest) else Err (Server (statusErr st))
    end
  end.

Section Connector.
(** The local writer: how much it takes of a chunk after what it took before, and its error; and the
    stream's writes: the error of the frame just written. *)
Variable local : bytes -> bytes -> nat * option bytes.
Variable send_error : list reply -> option bytes.

Fixpoint drain (written : bytes) (inbox : list Frame) : bytes * result op_error unit :=
  match inbox with
  | [] => (written, Err ClosedWithoutFIN)
  | f :: rest =>
    if IsFIN f then
      (written,
       match Payload f with
       | [] => Ok tt
       | _ => match decode_status (Payload f) with
              | Some fin => if decide (Error fin = []) then Ok tt else Err (Server (Error fin))
              | None => Ok tt
              end
       end)
    else
      match Payload f with
      | [] => drain written rest
      | p => let '(n, err) := local written p in
             match err with
             | Some m => (written ++ take n p, Err (LocalFailed m))
             | None => drain (written ++ take n p) rest
             end
      end
  end.

(** [inbox]: every frame the stream delivers before it closes. *)
Definition Get (send : option bytes) (inbox : list Frame) : bytes * result op_error Z :=
  match send with
  | Some m => ([], Err (SendFailed m))
  | None =>
    match first_response inbox with
    | Err e => ([], Err e)
    | Ok (st, f, rest) =>
      if IsFIN f then ([], Ok (st_Size st)) else
      let '(written, r) := drain [] rest in
      (written, match r with Ok _ => Ok (st_Size st) | Err e => Err e end)
    end
  end.

Definition put_syn (path : bytes) (overwrite : bool) : bytes :=
  print_json (JObject ([($"type", JString $"file"); ($"op", JString $"put"); ($"path", JString path)] ++
    (if overwrite then [($"overwrite", JBool true)] else []))).

(** The loop over the local file: its reads. *)
Fixpoint pump (sent : list reply) (reads : list (bytes * option stop)) : list reply * result op_error unit :=
  match reads with
  | [] => (sent, Ok tt)
  | (chunk, err) :: rest =>
    let sent1 := match chunk with [] => sent | _ => sent ++ [WriteDAT chunk] end in
    match chunk, send_error sent1 with
    | _ :: _, Some m => (sent1, Err (SendFailed m))
    | _, _ =>
      match err with
      | Some EOF => (sent1, Ok tt)
      | Some (Broken m) => (sent1, Err (LocalFailed m))
      | None => pump sent1 rest
      end
    end
  end.

Fixpoint put_result (inbox : list Frame) : result op_error unit :=
  match inbox with
  | [] => Err ClosedWithoutFIN
  | f :: rest =>
    if negb (IsFIN f) then put_result rest else
    match Payload f with
    | [] => Ok tt
    | p => match decode_status p with
           | None => Err BadResponse
           | Some fin => if decide (Status fin = $"ok") then Ok tt else Err (Server (statusErr fin))
           end
    end
  end.

Definition Put (path : bytes) (overwrite : bool) (reads : list (bytes * option stop)) (inbox : list Frame) :
    list reply * result op_error unit :=
  let sent := [WriteSYN (put_syn path overwrite)] in
  match send_error sent with
  | Some m => (sent, Err (SendFailed m))
  | None =>
    match first_response inbox with
    | Err e => (sent, Err e)
    | Ok (_, _, rest) =>
      match pump sent reads with
      | (sent1, Err e) => (sent1, Err e)
      | (sent1, Ok _) =>
        let sent2 := sent1 ++ [WriteFIN []] in
        match send_error sent2 with
        | Some m => (sent2, Err (SendFailed m))
        | None => (sent2, put_result rest)
        end
      end
    end
  end.
End Connector.

(** * Observations of a run *)

Definition replies (h : FileHandler) (ref : nat) : list reply :=
  log h ≫= fun e => match e with Reply _ (Some r) x => if decide (r = ref) then [x] else [] | _ => [] end.
Definition took (h : FileHandler) (ref : nat) : bytes :=
  log h ≫= fun e => match e with Took r p => if decide (r = ref) then p else [] | _ => [] end.
Definition kept (h : FileHandler) (ref : nat) : bytes :=
  log h ≫= fun e => match e with Kept r p => if decide (r = ref) then p else [] | _ => [] end.
Definition gave (h : FileHandler) (ref : nat) : bytes :=
  log h ≫= fun e => match e with Gave r p _ => if decide (r = ref) then p else [] | _ => [] end.
Definition stops (h : FileHandler) (ref : nat) : list stop :=
  log h ≫= fun e => match e with Gave r _ (Some x) => if decide (r = ref) then [x] else [] | _ => [] end.
Definition ended (h : FileHandler) (ref : nat) : list unit :=
  log h ≫= fun e => match e with Ended r => if decide (r = ref) then [tt] else [] | _ => [] end.

(** A reply as the connector's stream delivers it. *)
Definition frame_of (id : Z) (r : reply) : Frame :=
  match r with
  | WriteSYN p => mkFrame id FlagSYN p
  | WriteDAT p => mkFrame id FlagDAT p
  | WriteFIN p => mkFrame id FlagFIN p
  end.
