(* ===== verification/FileStreamSpec.v ===== *)
(** Correctness of file streams (FileStream.v): what an acknowledged upload stored and what a download
    that reports success received, in every interleaving of the handler's goroutines, the frames of the
    connector and resets. *)

From S2P Require Import Prelude GoLib Protocol Json Wire JsonRoundTrip FileStream.

(** What a run shows of one object. *)
Record view := mkView {
  v_replies : list reply; v_took : bytes; v_kept : bytes; v_gave : bytes; v_stops : list stop; v_ended : list unit }.

Definition view_of (h : FileHandler) (ref : nat) : view :=
  mkView (replies h ref) (took h ref) (kept h ref) (gave h ref) (stops h ref) (ended h ref).

Definition empty_view : view := mkView [] [] [] [] [] [].

(** The view after one more event. *)
Definition see (ref : nat) (e : event) (v : view) : view :=
  match e with
  | Reply _ (Some r) x => if decide (r = ref) then mkView (v_replies v ++ [x]) (v_took v) (v_kept v) (v_gave v) (v_stops v) (v_ended v) else v
  | Reply _ None _ => v
  | Took r p => if decide (r = ref) then mkView (v_replies v) (v_took v ++ p) (v_kept v) (v_gave v) (v_stops v) (v_ended v) else v
  | Kept r p => if decide (r = ref) then mkView (v_replies v) (v_took v) (v_kept v ++ p) (v_gave v) (v_stops v) (v_ended v) else v
  | Gave r p err => if decide (r = ref) then
      mkView (v_replies v) (v_took v) (v_kept v) (v_gave v ++ p) (v_stops v ++ match err with Some x => [x] | None => [] end) (v_ended v) else v
  | Ended r => if decide (r = ref) then mkView (v_replies v) (v_took v) (v_kept v) (v_gave v) (v_stops v) (v_ended v ++ [tt]) else v
  end.

Lemma view_emit h e ref : view_of (emit e h) ref = see ref e (view_of h ref).
Proof.
  unfold view_of, replies, took, kept, gave, stops, ended. cbn [emit log upd]. rewrite !bind_app.
  destruct e as [id [r|] x|r p|r|r p [x|]|r p]; cbn; try destruct (decide (r = ref)); cbn; by rewrite ?app_nil_r.
Qed.

Lemma view_log h h' ref : log h' = log h -> view_of h' ref = view_of h ref.
Proof. unfold view_of, replies, took, kept, gave, stops, ended. by intros ->. Qed.

Lemma view_put h ref p r : view_of (put h ref p) r = view_of h r.
Proof. by apply view_log. Qed.

(** * The invariant *)

Definition finished_get (v : view) : Prop :=
  v_replies v = [] \/
  (exists m, v_replies v = [WriteSYN (status_error m); WriteFIN []]) \/
  (exists stat ds, v_replies v = WriteSYN (get_meta stat) :: map WriteDAT ds /\ concat ds `prefix_of` v_gave v) \/
  (exists stat ds, v_replies v = WriteSYN (get_meta stat) :: map WriteDAT ds ++ [WriteFIN []] /\ concat ds = v_gave v /\ v_stops v <> []).

Definition get_ok (v : view) (p : filePending) : Prop :=
  match work p with
  | Opening | Header _ => v_replies v = [] /\ v_gave v = [] /\ v_stops v = []
  | Reading => exists stat ds, v_replies v = WriteSYN (get_meta stat) :: map WriteDAT ds /\ concat ds = v_gave v /\ v_stops v = []
  | Sending c err => exists stat ds, v_replies v = WriteSYN (get_meta stat) :: map WriteDAT ds /\ concat ds ++ c = v_gave v /\
      v_stops v = match err with Some x => [x] | None => [] end
  | Finishing | Returned => finished_get v
  | _ => False
  end.

Definition not_fin (r : reply) : Prop := match r with WriteFIN _ => False | _ => True end.

(** What the final frame of an upload says. *)
Definition fin_means (s : pipe) (v : view) (r : reply) : Prop :=
  match r with
  | WriteFIN p => (exists m, p = status_error m) \/ (p = status_ok /\ s = PipeEOF /\ v_took v = v_kept v)
  | _ => True
  end.

Definition put_ok (v : view) (p : filePending) : Prop :=
  exists s, pw p = Some s /\
  match work p with
  | Copying => (exists rest, v_took v = v_kept v ++ rest /\ (s <> PipeCanceled -> rest = in_flight p)) /\ Forall not_fin (v_replies v)
  | Writing c => (exists rest, v_took v = v_kept v ++ c ++ rest /\ (s <> PipeCanceled -> rest = in_flight p)) /\ Forall not_fin (v_replies v)
  | Copied None => s = PipeEOF /\ v_took v = v_kept v /\ Forall not_fin (v_replies v)
  | Copied (Some _) => v_kept v `prefix_of` v_took v /\ Forall not_fin (v_replies v)
  | Finishing | Returned => v_kept v `prefix_of` v_took v /\ Forall (fin_means s v) (v_replies v)
  | _ => False
  end /\
  (s = PipeEOF -> in_flight p = [] /\ v_ended v <> []).

Lemma fin_open v v' s l : Forall (fin_means PipeOpen v) l -> Forall (fin_means s v') l.
Proof. intros H. eapply Forall_impl; [exact H|]. intros [| |x]; cbn; [done|done|]. intros [?|(_ & ? & _)]; [by left|done]. Qed.

Lemma fin_none s v l : Forall not_fin l -> Forall (fin_means s v) l.
Proof. intros H. eapply Forall_impl; [exact H|]. by intros []. Qed.

Definition obj_ok (v : view) (p : filePending) : Prop :=
  (op p = $"get" /\ get_ok v p) \/ (op p = $"put" /\ put_ok v p).

Definition inv (h : FileHandler) : Prop :=
  forall ref, match pendings h !! ref with Some p => obj_ok (view_of h ref) p | None => view_of h ref = empty_view end.

Lemma get_not_put : $"get" <> $"put".
Proof. vm_compute. discriminate. Qed.

Lemma status_error_not_ok m : status_error m <> status_ok.
Proof. unfold status_error, status_ok. intros H. apply (f_equal (fun l => l !! 2%nat)) in H. lazy in H. discriminate. Qed.

#[local] Opaque status_ok status_error get_meta print_json.

(** * It is preserved *)

Lemma inv_same h h' : pendings h' = pendings h -> (forall ref, view_of h' ref = view_of h ref) -> inv h -> inv h'.
Proof. intros Hp Hv Hi ref. rewrite Hp, Hv. apply Hi. Qed.

(** One object moves. *)
Lemma file_inv_put h h' ref p p' :
  inv h -> pendings h !! ref = Some p -> pendings h' = <[ref := p']> (pendings h) ->
  (forall r, r <> ref -> view_of h' r = view_of h r) -> (obj_ok (view_of h ref) p -> obj_ok (view_of h' ref) p') -> inv h'.
Proof.
  intros Hi Ho Hp Hv Hok r. rewrite Hp. destruct (decide (r = ref)) as [->|Hne].
  - rewrite list_lookup_insert_eq by (by eapply lookup_lt_Some). apply Hok. specialize (Hi ref). by rewrite Ho in Hi.
  - rewrite list_lookup_insert_ne, Hv by done. apply Hi.
Qed.

Lemma obj_close v p : obj_ok v p -> obj_ok v (close p).
Proof.
  unfold close. destruct (closed p); [done|]. intros [[Ho Hg]|[Ho (s & Hs & Hw & He)]]; [left|right]; (split; [done|]).
  - unfold get_ok in *. cbn in *. by destruct (work p).
  - rewrite Hs. exists (match s with PipeOpen => PipeCanceled | x => x end). split; [cbn; by destruct s|]. cbn. destruct s; split; try done.
    destruct (work p) as [| | | | |c|[m|]| |]; try done.
    + destruct Hw as [(rest & E & _) Hn]. split; [|done]. by exists rest.
    + destruct Hw as [(rest & E & _) Hn]. split; [|done]. by exists rest.
    + by destruct Hw.
    + destruct Hw as [Hk Hf]. split; [done|]. by eapply fin_open.
    + destruct Hw as [Hk Hf]. split; [done|]. by eapply fin_open.
Qed.

Lemma inv_close h ref : inv h -> inv (close_ref h ref).
Proof.
  intros Hi. unfold close_ref. destruct (pendings h !! ref) as [p|] eqn:Ho; [|done].
  apply (file_inv_put h (put h ref (close p)) ref p (close p) Hi Ho eq_refl); [intros r _; apply view_put|]. rewrite view_put. apply obj_close.
Qed.

Lemma inv_streams h m : inv h -> inv (h <| streams := m |>).
Proof. intros Hi. apply (inv_same h); [done| |done]. intros r. by apply view_log. Qed.

Lemma file_inv_finish h id ref : inv h -> inv (finishStream h id ref).
Proof. intros Hi. unfold finishStream. apply inv_close. case_decide; [by apply inv_streams|done]. Qed.

Lemma inv_track h id p : inv h -> obj_ok empty_view p -> inv (trackStream h id p).
Proof.
  intros Hi Hp. unfold trackStream. set (h1 := _ <| pendings := _ |>).
  assert (inv h1) as H1; [|destruct (streams h !! id); [by apply inv_close|done]].
  intros r. rewrite (view_log h h1) by done. change (pendings h1) with (pendings h ++ [p]). specialize (Hi r).
  destruct (decide (r < length (pendings h))%nat); [by rewrite lookup_app_l|].
  rewrite lookup_ge_None_2 in Hi by lia. rewrite lookup_app_r, Hi by lia. by destruct (r - length (pendings h))%nat as [|[]].
Qed.

(** A reply that belongs to no object, and a reply that does. *)
Lemma inv_write_none h id x : inv h -> inv (write id None x h).
Proof. intros Hi. apply (inv_same h); [done| |done]. intros r. unfold write. by rewrite view_emit. Qed.

Lemma inv_error_none h id m : inv h -> inv (sendFileError h id None m).
Proof. intros Hi. by apply inv_write_none, inv_write_none. Qed.

(** A tracked object is there, whatever it replaced. *)
Lemma tracked h id p : exists q, pendings (trackStream h id p) !! length (pendings h) = Some q /\ op q = op p.
Proof.
  unfold trackStream. set (h1 := _ <| pendings := _ |>).
  assert (pendings h1 !! length (pendings h) = Some p) as H1 by (cbn; by rewrite lookup_app_r, Nat.sub_diag).
  destruct (streams h !! id) as [old|]; [|by exists p]. unfold close_ref. destruct (pendings h1 !! old) as [q|] eqn:Eq; [|by exists p].
  cbn [put pendings upd]. destruct (decide (old = length (pendings h))) as [->|]; [|rewrite list_lookup_insert_ne by done; by exists p].
  rewrite list_lookup_insert_eq by (by eapply lookup_lt_Some). assert (q = p) as -> by congruence. exists (close p). split; [done|].
  unfold close. by destruct (closed p).
Qed.

(** The acknowledgement of an upload. *)
Lemma inv_syn h id ref x p : inv h -> pendings h !! ref = Some p -> op p = $"put" -> inv (write id (Some ref) (WriteSYN x) h).
Proof.
  intros Hi Ho Hop r. unfold write. rewrite view_emit. cbn [emit pendings upd]. specialize (Hi r).
  cbn [see]. destruct (decide (ref = r)) as [<-|]; [|done]. rewrite Ho in Hi |- *.
  destruct Hi as [[Hg _]|[_ (s & Hs & Hw & He)]]; [exfalso; apply get_not_put; congruence|]. right. split; [done|]. exists s. split; [done|]. split; [|done].
  assert (forall P : reply -> Prop, P (WriteSYN x) -> forall l, Forall P l -> Forall P (l ++ [WriteSYN x])) as Hl
    by (intros P Hx l Hl; apply Forall_app; by split; [|constructor]).
  destruct (work p) as [| | | | |c|[m|]| |]; cbn [v_replies v_took v_kept] in *; try done;
    repeat match goal with H : _ /\ _ |- _ => destruct H | |- _ /\ _ => split end; try done; by apply Hl.
Qed.

Lemma inv_OnSYN h id payload final bad listed opened syn_ok : inv h -> inv (OnSYN h id payload final bad listed opened syn_ok).
Proof.
  intros Hi. unfold OnSYN. destruct (decode_op payload) as [o|]; [|by apply inv_error_none].
  case_decide; [apply inv_track; [done|left; by split_and!]|]. case_decide.
  { unfold handleList. destruct listed; [|by apply inv_error_none]. destruct (ValidateFramePayload _); [|by apply inv_error_none].
    destruct syn_ok; repeat apply inv_write_none; done. }
  case_decide; [|by apply inv_error_none]. destruct opened; [|by apply inv_error_none].
  destruct final; [by repeat apply inv_write_none|].
  set (p := mkPending _ _ _ _ _ _ _ _). assert (inv (trackStream h id p)) as Ht.
  { apply inv_track; [done|]. right. split; [done|]. exists PipeOpen. split; [done|]. split; [|done]. split; [by exists []|constructor]. }
  destruct (tracked h id p) as (q & Hq & Hop). by apply (inv_syn _ _ _ _ q).
Qed.

(** * The callbacks *)

Lemma inv_pipe_write h ref payload :
  inv h -> (forall p, pendings h !! ref = Some p -> op p = $"put" /\ in_flight p = []) -> inv (pipe_write h ref payload).
Proof.
  intros Hi Hid. unfold pipe_write. destruct (pendings h !! ref) as [p|] eqn:Ho; [|done].
  destruct (bool_decide _) eqn:Epw; [|done]. apply bool_decide_eq_true in Epw. destruct (Hid p eq_refl) as [Hop Hfl].
  set (p' := p <| in_flight := payload |>). apply (file_inv_put h (put (emit (Took ref payload) h) ref p') ref p p' Hi Ho eq_refl).
  { intros r Hne. rewrite view_put, view_emit. cbn. by rewrite decide_False by congruence. }
  rewrite view_put, view_emit. cbn [see]. rewrite decide_True by done.
  intros [[Hg _]|[_ (s & Hs & Hw & He)]]; [exfalso; apply get_not_put; congruence|]. right. split; [done|].
  assert (s = PipeOpen) as -> by congruence. exists PipeOpen. split; [done|]. split; [|done]. cbn in *. rewrite Hfl in Hw.
  destruct (work p) as [| | | | |c|[m|]| |]; try done.
  - destruct Hw as [(rest & -> & Hr) Hn]. split; [|done]. exists payload. split; [|done]. by rewrite (Hr ltac:(done)), app_nil_r.
  - destruct Hw as [(rest & -> & Hr) Hn]. split; [|done]. exists payload. split; [|done]. by rewrite (Hr ltac:(done)), app_nil_r, <- app_assoc.
  - destruct Hw as [Hk Hn]. split; [by apply prefix_app_r|done].
  - by destruct Hw.
  - destruct Hw as [Hk Hn]. split; [by apply prefix_app_r|]. by eapply fin_open.
  - destruct Hw as [Hk Hn]. split; [by apply prefix_app_r|]. by eapply fin_open.
Qed.

Lemma target_put h id ref p : target h id = Some ref -> pendings h !! ref = Some p -> op p = $"put".
Proof.
  unfold target. destruct (streams h !! id) as [r|]; [|done]. destruct (pendings h !! r) as [q|] eqn:E; [|done].
  case_decide; [|done]. intros [= <-] Hp. congruence.
Qed.

Lemma inv_OnDAT h id payload : idle h id -> inv h -> inv (OnDAT h id payload).
Proof.
  intros Hid Hi. unfold OnDAT. destruct (target h id) as [ref|] eqn:Et; [|done]. destruct payload; [done|]. apply inv_pipe_write; [done|].
  intros p Hp. split; [by eapply target_put|by eapply Hid].
Qed.

Lemma inv_pipe_close h id ref : idle h id -> target h id = Some ref -> inv h -> inv (pipe_close h ref).
Proof.
  intros Hid Ht Hi. unfold pipe_close. destruct (pendings h !! ref) as [p|] eqn:Ho; [|done].
  destruct (bool_decide _) eqn:Epw; [|done]. apply bool_decide_eq_true in Epw.
  set (p' := p <| pw := Some PipeEOF |>). apply (file_inv_put h (put (emit (Ended ref) h) ref p') ref p p' Hi Ho eq_refl).
  { intros r Hne. rewrite view_put, view_emit. cbn. by rewrite decide_False by congruence. }
  rewrite view_put, view_emit. cbn [see]. rewrite decide_True by done.
  pose proof (target_put _ _ _ _ Ht Ho) as Hop. pose proof (Hid _ _ Ht Ho) as Hfl.
  intros [[Hg _]|[_ (s & Hs & Hw & _)]]; [exfalso; apply get_not_put; congruence|]. right. split; [done|].
  assert (s = PipeOpen) as -> by congruence. exists PipeEOF. split; [done|]. split; [|split; [done|cbn; intros [_ ?]%app_eq_nil; done]]. cbn in *.
  destruct (work p) as [| | | | |c|[m|]| |]; try done.
  - destruct Hw as [(rest & E & Hr) Hn]. split; [|done]. exists rest. split; [done|]. intros _. by apply Hr.
  - destruct Hw as [(rest & E & Hr) Hn]. split; [|done]. exists rest. split; [done|]. intros _. by apply Hr.
  - by destruct Hw.
  - destruct Hw as [Hk Hn]. split; [done|]. by eapply fin_open.
  - destruct Hw as [Hk Hn]. split; [done|]. by eapply fin_open.
Qed.

Lemma inv_unblock h ref h' : unblock h ref = Some h' -> inv h -> inv h'.
Proof.
  unfold unblock. intros H Hi. destruct (pendings h !! ref) as [p|] eqn:Ho; [|done]. destruct (bool_decide _) eqn:Epw; [done|].
  apply bool_decide_eq_false in Epw. injection H as <-. set (p' := p <| in_flight := [] |>).
  apply (file_inv_put h (put h ref p') ref p p' Hi Ho eq_refl); [intros r _; apply view_put|]. rewrite view_put.
  intros [[Hop Hg]|[Hop (s & Hs & Hw & He)]]; [left; by split|right]. split; [done|]. exists s. split; [done|]. cbn.
  split; [|intros Es; split; [done|by apply He]]. assert (s = PipeCanceled \/ s = PipeEOF) as Hse by (destruct s; auto; congruence).
  destruct (work p) as [| | | | |c|[m|]| |]; try done; destruct Hw as [(rest & E & Hr) Hn]; (split; [|done]); exists rest; (split; [done|]);
    intros Hc; destruct Hse as [?|Es]; try done; rewrite Hr by done; by apply He.
Qed.

(** * The goroutines *)

(** An object's goroutine moved: what it did to its object's view. *)
Lemma inv_work h ref p p' es :
  inv h -> pendings h !! ref = Some p ->
  Forall (fun e => forall r v, r <> ref -> see r e v = v) es ->
  (obj_ok (view_of h ref) p -> obj_ok (foldl (fun v e => see ref e v) (view_of h ref) es) p') ->
  inv (put (foldl (fun h e => emit e h) h es) ref p').
Proof.
  intros Hi Ho Hes Hok. set (h1 := foldl (fun h e => emit e h) h es).
  assert (pendings h1 = pendings h /\ forall r, view_of h1 r = foldl (fun v e => see r e v) (view_of h r) es) as [Hp Hv].
  { subst h1. clear. revert h. induction es as [|e es IH]; intros h; [done|]. cbn [foldl]. destruct (IH (emit e h)) as [-> Hv].
    split; [done|]. intros r. by rewrite Hv, view_emit. }
  apply (file_inv_put h (put h1 ref p') ref p p' Hi Ho); [cbn; by rewrite Hp| |].
  - intros r Hne. rewrite view_put, Hv. clear -Hes Hne. generalize (view_of h r). induction Hes as [|e es He _ IH]; intros v; [done|].
    cbn. by rewrite He.
  - by rewrite view_put, Hv.
Qed.

Lemma see_other_reply ref id x r v : r <> ref -> see r (Reply id (Some ref) x) v = v.
Proof. intros. cbn. by rewrite decide_False by congruence. Qed.
Lemma see_other_gave ref c err r v : r <> ref -> see r (Gave ref c err) v = v.
Proof. intros. cbn. by rewrite decide_False by congruence. Qed.
Lemma see_other_kept ref c r v : r <> ref -> see r (Kept ref c) v = v.
Proof. intros. cbn. by rewrite decide_False by congruence. Qed.

Ltac others := repeat constructor; intros; first [by apply see_other_reply | by apply see_other_gave | by apply see_other_kept].

Lemma map_snoc {A B} (f : A -> B) l x : map f l ++ [f x] = map f (l ++ [x]).
Proof. by rewrite map_app. Qed.

Lemma concat_snoc {A} (l : list (list A)) x : concat (l ++ [x]) = concat l ++ x.
Proof. rewrite concat_app. cbn. by rewrite app_nil_r. Qed.

(** The object invariant of a get, on the work it does next. *)
Lemma get_keeps v p p' : op p = $"get" -> op p' = op p -> (get_ok v p -> get_ok v p') -> obj_ok v p -> obj_ok v p'.
Proof. intros Ho Ho' H [[_ Hg]|[Hb _]]; [left; split; [congruence|auto]|exfalso; apply get_not_put; congruence]. Qed.

Lemma get_moves v v' p p' : op p = $"get" -> op p' = op p -> (get_ok v p -> get_ok v' p') -> obj_ok v p -> obj_ok v' p'.
Proof. intros Ho Ho' H [[_ Hg]|[Hb _]]; [left; split; [congruence|auto]|exfalso; apply get_not_put; congruence]. Qed.

Lemma put_moves v v' p p' : op p = $"put" -> op p' = op p -> (put_ok v p -> put_ok v' p') -> obj_ok v p -> obj_ok v' p'.
Proof. intros Ho Ho' H [[Hb _]|[_ Hg]]; [exfalso; apply get_not_put; congruence|right; split; [congruence|auto]]. Qed.

Lemma op_setCloser p : op (setCloser p).1 = op p.
Proof. unfold setCloser. by destruct (closed p). Qed.

Lemma inv_handleGet h ref p e h' : pendings h !! ref = Some p -> op p = $"get" -> handleGet h ref e = Some h' -> inv h -> inv h'.
Proof.
  intros Ho Hop H Hi. unfold handleGet in H. rewrite Ho in H. destruct (work p) as [|stat| |c err| | | | |] eqn:Ew; try done.
  - destruct e as [[stat|m]| | |]; try done.
    + pose proof (op_setCloser p) as Hs. destruct (setCloser p) as [p1 live]. cbn [fst] in Hs. injection H as <-.
      apply (inv_work h ref p _ [] Hi Ho); [constructor|]. apply get_moves; [done|done|]. unfold get_ok. rewrite Ew. cbn.
      destruct live; [done|]. intros (E & _). by left.
    + injection H as <-. set (p' := p <| work := Finishing |>). set (msg := fileErrMessage m (path p)).
      apply (inv_work h ref p _ [Reply (sid p) (Some ref) (WriteSYN (status_error msg)); Reply (sid p) (Some ref) (WriteFIN [])] Hi Ho); [others|].
      apply get_moves; [done|done|]. unfold get_ok. rewrite Ew. cbn. rewrite !decide_True by done. intros (E & _). right. left. exists msg. cbn. by rewrite E.
  - destruct e as [|ok| |]; try done. injection H as <-.
    apply (inv_work h ref p _ [Reply (sid p) (Some ref) (WriteSYN (get_meta stat))] Hi Ho); [others|].
    apply get_moves; [done|done|]. unfold get_ok. rewrite Ew. cbn. rewrite decide_True by done. intros (E & Eg & Es). rewrite E. destruct ok.
    + by exists stat, [].
    + right; right; left. exists stat, []. cbn. split; [done|]. by eexists.
  - destruct e as [| |c err|]; try done. injection H as <-. destruct c as [|a c]; [destruct err as [x|]|].
    + apply (inv_work h ref p _ [Gave ref [] (Some x); Reply (sid p) (Some ref) (WriteFIN [])] Hi Ho); [others|].
      apply get_moves; [done|done|]. unfold get_ok. rewrite Ew. cbn. rewrite !decide_True by done. intros (stat & ds & E & Ec & _). cbn.
      right; right; right. exists stat, ds. cbn. rewrite E, app_nil_r. split_and!; [done|done|]. by intros [_ ?]%app_eq_nil.
    + apply (inv_same h); [done| |done]. intros r. rewrite view_emit. cbn. case_decide; [|done]. by rewrite !app_nil_r.
    + apply (inv_work h ref p _ [Gave ref (a :: c) err] Hi Ho); [others|].
      apply get_moves; [done|done|]. unfold get_ok. rewrite Ew. cbn. rewrite !decide_True by done. intros (stat & ds & E & Ec & Es). cbn.
      exists stat, ds. rewrite Ec, Es. split_and!; done.
  - destruct e as [|ok| |]; try done.
    + injection H as <-. destruct ok; [destruct err as [x|]|].
      * apply (inv_work h ref p _ [Reply (sid p) (Some ref) (WriteDAT c); Reply (sid p) (Some ref) (WriteFIN [])] Hi Ho); [others|].
        apply get_moves; [done|done|]. unfold get_ok. rewrite Ew. cbn. rewrite !decide_True by done. intros (stat & ds & E & Ec & Es). cbn.
        right; right; right. exists stat, (ds ++ [c]). cbn. rewrite E, Es, concat_snoc, <- map_snoc. split_and!; done.
      * apply (inv_work h ref p _ [Reply (sid p) (Some ref) (WriteDAT c)] Hi Ho); [others|].
        apply get_moves; [done|done|]. unfold get_ok. rewrite Ew. cbn. rewrite !decide_True by done. intros (stat & ds & E & Ec & Es). cbn.
        exists stat, (ds ++ [c]). rewrite E, concat_snoc, <- map_snoc. split_and!; done.
      * apply (inv_work h ref p _ [Reply (sid p) (Some ref) (WriteDAT c)] Hi Ho); [others|].
        apply get_moves; [done|done|]. unfold get_ok. rewrite Ew. cbn. rewrite !decide_True by done. intros (stat & ds & E & Ec & Es). cbn.
        right; right; left. exists stat, (ds ++ [c]). cbn. rewrite E, concat_snoc, <- map_snoc, Ec. split; [done|]. reflexivity.
    + destruct (closed p) eqn:Ecl; [|done]. injection H as <-. apply (inv_work h ref p _ [] Hi Ho); [constructor|].
      apply get_moves; [done|done|]. unfold get_ok. rewrite Ew. cbn. intros (stat & ds & E & Ec & Es).
      right; right; left. exists stat, ds. split; [done|]. cbn. rewrite <- Ec. by eexists.
  - injection H as <-. apply file_inv_finish. apply (inv_work h ref p _ [] Hi Ho); [constructor|].
    apply get_moves; [done|done|]. unfold get_ok. by rewrite Ew.
Qed.

Lemma inv_handlePut h ref p e h' : pendings h !! ref = Some p -> op p = $"put" -> handlePut h ref e = Some h' -> inv h -> inv h'.
Proof.
  intros Ho Hop H Hi. unfold handlePut in H. rewrite Ho in H. destruct (work p) as [| | | | |c|err| |] eqn:Ew; try done.
  - destruct e as [|]; [|done]. destruct (pw p) as [[]|] eqn:Epw.
    + destruct (in_flight p) as [|a b] eqn:Efl; [done|]. set (bs := a :: b) in *. clearbody bs. injection H as <-. apply (inv_work h ref p _ [] Hi Ho); [constructor|].
      apply put_moves; [done|done|]. generalize (view_of h ref) as v. intros v. unfold put_ok. rewrite Ew, Epw, Efl. intros (s & [= <-] & [(rest & E & Hr) Hn] & He). exists PipeOpen.
      split; [done|]. split; [|done]. cbn. split; [|done]. exists (drop copy_buffer bs). split; [|done]. by rewrite E, (Hr ltac:(done)), take_drop.
    + injection H as <-. apply (inv_work h ref p _ [] Hi Ho); [constructor|]. apply put_moves; [done|done|]. generalize (view_of h ref) as v. intros v. unfold put_ok. rewrite Ew, Epw.
      intros (s & [= <-] & [(rest & E & Hr) Hn] & He). exists PipeEOF. split; [done|]. cbn. split; [|done]. split_and!; [done| |done].
      by rewrite E, (Hr ltac:(done)), (proj1 (He eq_refl)), app_nil_r.
    + injection H as <-. apply (inv_work h ref p _ [] Hi Ho); [constructor|]. apply put_moves; [done|done|]. generalize (view_of h ref) as v. intros v. unfold put_ok. rewrite Ew, Epw.
      intros (s & [= <-] & [(rest & E & Hr) Hn] & He). exists PipeCanceled. split; [done|]. cbn. split; [|done]. split; [by exists rest|done].
    + injection H as <-. apply (inv_work h ref p _ [] Hi Ho); [constructor|]. apply put_moves; [done|done|]. generalize (view_of h ref) as v. intros v. unfold put_ok. rewrite Epw. by intros (s & ? & _).
  - destruct e as [|n err]; [done|]. case_decide as Hle; [|done]. injection H as <-. apply (inv_work h ref p _ [Kept ref (take n c)] Hi Ho); [others|].
    apply put_moves; [done|done|]. generalize (view_of h ref) as v. intros v. unfold put_ok. rewrite Ew. cbn. destruct (decide (ref = ref)); [|done]. cbn.
    intros (s & Hs & [(rest & E & Hr) Hn] & He). exists s. split; [done|]. split; [|done].
    assert (v_kept v ++ take n c `prefix_of` v_took v) as Hpre.
    { exists (drop n c ++ rest). rewrite E. rewrite <- !app_assoc. by rewrite (app_assoc (take n c)), take_drop. }
    destruct err as [m|]; [by split; [apply Hpre|]|]. case_decide as Hn'; [|by split; [apply Hpre|]].
    split; [|done]. exists rest. split; [|done]. rewrite E. subst n. by rewrite firstn_all, <- app_assoc.
  - destruct e as [|]; [|done]. injection H as <-. apply (inv_work h ref p _ [Reply (sid p) (Some ref) (WriteFIN (write_result err))] Hi Ho); [others|].
    apply put_moves; [done|done|]. generalize (view_of h ref) as v. intros v. unfold put_ok. rewrite Ew. cbn. rewrite !decide_True by done. cbn.
    intros (s & Hs & Hw & He). exists s. split; [done|]. split; [|done]. destruct err as [m|]; cbn.
    + destruct Hw as [Hk Hn]. split; [done|]. apply Forall_app. split; [by apply fin_none|]. constructor; [left; by eexists|done].
    + destruct Hw as (-> & E & Hn). split; [by rewrite E|]. apply Forall_app. split; [by apply fin_none|]. constructor; [by right|done].
  - destruct e as [|]; [|done]. injection H as <-. apply file_inv_finish. apply (inv_work h ref p _ [] Hi Ho); [constructor|].
    apply put_moves; [done|done|]. generalize (view_of h ref) as v. intros v. unfold put_ok. by rewrite Ew.
Qed.

Lemma file_inv_step h h' : file_step h h' -> inv h -> inv h'.
Proof.
  intros [] Hi.
  - by apply inv_OnSYN.
  - by apply inv_OnDAT.
  - by eapply inv_pipe_close.
  - unfold OnReset. destruct (streams h0 !! id); [apply inv_close|]; by apply inv_streams.
  - by eapply inv_handleGet.
  - by eapply inv_handlePut.
  - by eapply inv_unblock.
Qed.

Lemma inv_serving h : serving h -> inv h.
Proof. intros H. refine (steps_invariant _ inv _ _ _ H _); [intros a b Ha Hab; by eapply file_inv_step|]. by intros ref. Qed.

(** * The life of an object *)

(** A closed object's pipe is closed; a goroutine that returned has closed its object; and an object in the
    table is there under its own stream, its goroutine still running. *)
Definition life_ok (p : filePending) : Prop :=
  (closed p = true -> pw p <> Some PipeOpen) /\ (work p = Returned -> closed p = true).

Definition alive (h : FileHandler) : Prop :=
  (forall ref p, pendings h !! ref = Some p -> life_ok p) /\
  (forall id ref, streams h !! id = Some ref -> exists p, pendings h !! ref = Some p /\ sid p = id /\ work p <> Returned).

Lemma close_life p : (work p = Returned -> closed p = true) \/ True -> (closed p = true -> pw p <> Some PipeOpen) -> life_ok (close p).
Proof.
  intros _ Hc. unfold close. destruct (closed p) eqn:E; [split; auto|]. split; cbn; [|done]. intros _. destruct (pw p) as [[]|]; done.
Qed.

Lemma close_keeps p : sid (close p) = sid p /\ work (close p) = work p /\ closed (close p) = true.
Proof. unfold close. by destruct (closed p) eqn:E. Qed.

Lemma alive_put h h' ref p p' :
  alive h -> pendings h !! ref = Some p -> pendings h' = <[ref := p']> (pendings h) -> streams h' = streams h ->
  sid p' = sid p -> (work p <> Returned -> work p' <> Returned) -> life_ok p' -> alive h'.
Proof.
  intros [Hl Ht] Ho Hp Hs Hsid Hw Hp'. split.
  - intros r q. rewrite Hp. intros [(_ & <- & _)|[_ Hr]]%list_lookup_insert_Some; [done|by eapply Hl].
  - intros id r. rewrite Hs, Hp. intros (q & Hq & Hqs & Hqw)%Ht. destruct (decide (r = ref)) as [->|Hne].
    + assert (q = p) as -> by congruence. exists p'. rewrite list_lookup_insert_eq by (by eapply lookup_lt_Some). split_and!; [done|congruence|auto].
    + exists q. by rewrite list_lookup_insert_ne.
Qed.

Lemma alive_same h h' : pendings h' = pendings h -> (forall id ref, streams h' !! id = Some ref -> streams h !! id = Some ref) -> alive h -> alive h'.
Proof. intros Hp Hs [Hl Ht]. split; rewrite Hp; [done|]. intros id ref H. by apply Ht, Hs. Qed.

Lemma alive_close h ref : alive h -> alive (close_ref h ref).
Proof.
  intros Ha. unfold close_ref. destruct (pendings h !! ref) as [p|] eqn:Ho; [|done]. destruct (close_keeps p) as (E1 & E2 & E3).
  apply (alive_put h (put h ref (close p)) ref p (close p) Ha Ho); try done; [by rewrite E2|]. apply close_life; [by right|]. by apply (proj1 Ha ref).
Qed.

Lemma alive_finish h ref p : alive h -> pendings h !! ref = Some p -> alive (finishStream (put h ref (p <| work := Returned |>)) (sid p) ref).
Proof.
  intros [Hl Ht] Ho. unfold finishStream. set (p1 := p <| work := Returned |>).
  set (h1 := if decide _ then _ else _).
  assert (pendings h1 = <[ref := p1]> (pendings h) /\ forall id r, streams h1 !! id = Some r -> r <> ref /\ streams h !! id = Some r) as [Ep Es].
  { subst h1. cbn [put streams upd]. case_decide as Hd; (split; [done|]); cbn; intros id r.
    - intros [Hne Hr]%lookup_delete_Some. split; [|done]. intros ->. destruct (Ht _ _ Hr) as (q & Hq & Hqs & _). congruence.
    - intros Hr. split; [|done]. intros ->. destruct (Ht _ _ Hr) as (q & Hq & Hqs & _). congruence. }
  clearbody h1. pose proof (lookup_lt_Some _ _ _ Ho) as Hlt. unfold close_ref. rewrite Ep, list_lookup_insert_eq by done.
  destruct (close_keeps p1) as (E1 & E2 & E3). split; cbn; rewrite Ep, list_insert_insert_eq.
  - intros r q [(_ & <- & _)|[_ Hr]]%list_lookup_insert_Some; [|by eapply Hl]. apply close_life; [by right|]. exact (proj1 (Hl _ _ Ho)).
  - intros id r [Hne Hr]%Es. destruct (Ht _ _ Hr) as (q & Hq & ?). exists q. by rewrite list_lookup_insert_ne.
Qed.

Lemma alive_track h id p : alive h -> sid p = id -> work p <> Returned -> closed p = false -> alive (trackStream h id p).
Proof.
  intros [Hl Ht] Hsid Hw Hc. unfold trackStream. set (h1 := _ <| pendings := _ |>).
  assert (alive h1) as H1; [|destruct (streams h !! id); [by apply alive_close|done]].
  split; cbn.
  - intros r q [Hr|(_ & Hr)]%lookup_app_Some; [by eapply Hl|]. apply list_lookup_singleton_Some in Hr as [_ <-]. split; [congruence|done].
  - intros i r [[<- <-]|[Hne Hr]]%lookup_insert_Some.
    + exists p. by rewrite lookup_app_r, Nat.sub_diag.
    + destruct (Ht _ _ Hr) as (q & Hq & ?). exists q. by rewrite lookup_app_l by (by eapply lookup_lt_Some).
Qed.

Lemma alive_handleGet h ref p e h' : pendings h !! ref = Some p -> handleGet h ref e = Some h' -> alive h -> alive h'.
Proof.
  intros Ho H Ha. pose proof (proj1 Ha ref p Ho) as [L1 L2]. unfold handleGet in H. rewrite Ho in H.
  assert (forall h0 w, streams h0 = streams h -> pendings h0 = pendings h -> w <> Returned -> alive (put h0 ref (p <| work := w |>))) as Hput.
  { intros h0 w Es Ep Hw. set (p' := p <| work := w |>). apply (alive_put h (put h0 ref p') ref p p' Ha Ho); [cbn; by rewrite Ep|done|done|done|]. split; [done|]. by intros ?%Hw. }
  destruct (work p) eqn:Ew; try done.
  - destruct e as [[stat|m]| | |]; try done.
    + unfold setCloser in H. destruct (closed p) eqn:Ec; injection H as <-; [by apply Hput|].
      set (p' := p <| closer := true |> <| work := Header stat |>). apply (alive_put h (put h ref p') ref p p' Ha Ho); try done. split; [cbn; congruence|done].
    + injection H as <-. by apply Hput.
  - destruct e as [|ok| |]; try done. injection H as <-. apply Hput; [done|done|by destruct ok].
  - destruct e as [| |c err|]; try done. injection H as <-. destruct c as [|a c]; [destruct err|]; [by apply Hput|by apply (alive_same h)|by apply Hput].
  - destruct e as [|ok| |]; try done; [|destruct (closed p); [|done]; injection H as <-; by apply Hput].
    injection H as <-. destruct ok; [destruct err|]; by apply Hput.
  - injection H as <-. by apply alive_finish.
Qed.

Lemma alive_handlePut h ref p e h' : pendings h !! ref = Some p -> handlePut h ref e = Some h' -> alive h -> alive h'.
Proof.
  intros Ho H Ha. pose proof (proj1 Ha ref p Ho) as [L1 L2]. unfold handlePut in H. rewrite Ho in H.
  assert (forall h0 w, streams h0 = streams h -> pendings h0 = pendings h -> w <> Returned -> alive (put h0 ref (p <| work := w |>))) as Hput.
  { intros h0 w Es Ep Hw. set (p' := p <| work := w |>). apply (alive_put h (put h0 ref p') ref p p' Ha Ho); [cbn; by rewrite Ep|done|done|done|]. split; [done|]. by intros ?%Hw. }
  destruct (work p) eqn:Ew; try done.
  - destruct e as [|]; [|done]. destruct (pw p) as [[]|] eqn:Epw; [destruct (in_flight p) as [|a b]; [done|]|..]; apply Some_inj in H; subst h'; [|by apply Hput..].
    set (p' := _ <| in_flight := _ |>). apply (alive_put h (put h ref p') ref p p' Ha Ho); try done. split; [by cbn; rewrite Epw|done].
  - destruct e as [|n err]; [done|]. case_decide; [|done]. apply Some_inj in H; subst h'. apply Hput; [done|done|]. destruct err; [done|]. by case_decide.
  - destruct e as [|]; [|done]. apply Some_inj in H; subst h'. by apply Hput.
  - destruct e as [|]; [|done]. apply Some_inj in H; subst h'. by apply alive_finish.
Qed.

Lemma alive_step h h' : file_step h h' -> alive h -> alive h'.
Proof.
  intros [] Ha.
  - unfold OnSYN. assert (forall x i r y, alive x -> alive (write i r y x)) as Hw by (intros x i r y Hx; by apply (alive_same x)).
    assert (forall i m, alive (sendFileError h0 i None m)) as He by (intros; by apply Hw, Hw).
    destruct (decode_op payload); [|done]. case_decide; [by apply alive_track|]. case_decide.
    { unfold handleList. destruct listed; [|done]. destruct (ValidateFramePayload _); [|done]. destruct syn_ok; repeat apply Hw; done. }
    case_decide; [|done]. destruct opened; [|done]. destruct final; [by apply Hw, Hw|]. apply Hw. by apply alive_track.
  - unfold OnDAT. destruct (target h0 id) as [ref|] eqn:Et; [|done]. destruct payload as [|a r]; [done|]. unfold pipe_write.
    destruct (pendings h0 !! ref) as [p|] eqn:Ho; [|done]. destruct (bool_decide _); [|done]. set (p' := _ <| in_flight := _ |>).
    apply (alive_put h0 _ ref p p' Ha Ho); try done. exact (proj1 Ha ref p Ho).
  - unfold pipe_close. destruct (pendings h0 !! ref) as [p|] eqn:Ho; [|done]. destruct (bool_decide _); [|done]. set (p' := _ <| pw := _ |>).
    apply (alive_put h0 _ ref p p' Ha Ho); try done. split; [done|]. exact (proj2 (proj1 Ha ref p Ho)).
  - unfold OnReset. assert (alive (h0 <| streams := delete id (streams h0) |>)) as H1
      by (apply (alive_same h0); [done| |done]; cbn; by intros i r [_ ?]%lookup_delete_Some).
    destruct (streams h0 !! id); [by apply alive_close|done].
  - by eapply alive_handleGet.
  - by eapply alive_handlePut.
  - unfold unblock in H. destruct (pendings h0 !! ref) as [p|] eqn:Ho; [|done]. destruct (bool_decide _); [done|]. injection H as <-.
    set (p' := p <| in_flight := [] |>). apply (alive_put h0 (put h0 ref p') ref p p' Ha Ho); try done. exact (proj1 Ha ref p Ho).
Qed.

Lemma alive_serving h : serving h -> alive h.
Proof. intros H. refine (steps_invariant _ alive _ _ _ H _); [intros a b Ha Hab; by eapply alive_step|]. split; [done|]. intros id ref Hs. cbn in Hs. by apply lookup_empty_Some in Hs. Qed.

(** * Both ends *)

(** The status an error response carries. *)
Lemma decode_status_error m st : decode_status (status_error m) = Some st -> Status st = $"error".
Proof.
  unfold decode_status. Transparent status_error. unfold status_error. Opaque status_error.
  rewrite parse_print_json; [|repeat constructor|vm_compute; discriminate].
  cbn [coerce_json map]. generalize (coerce m) as x. intros x.
  replace (coerce $"error") with $"error" by (vm_compute; reflexivity). replace (coerce $"status") with $"status" by (vm_compute; reflexivity).
  intros H. lazy in H. apply Some_inj in H. subst st. reflexivity.
Qed.

Lemma status_error_nonempty m : status_error m <> [].
Proof. Transparent status_error. unfold status_error. rewrite print_object. discriminate. Qed.
#[local] Opaque status_error.

Lemma first_response_ok inbox st f rest : first_response inbox = Ok (st, f, rest) ->
  inbox = f :: rest /\ decode_status (Payload f) = Some st /\ Status st = $"ok".
Proof.
  unfold first_response. destruct inbox as [|g r]; [done|]. destruct (negb _); [done|]. destruct (decode_status (Payload g)) as [s|] eqn:E; [|done].
  case_decide; [|done]. by intros [= -> -> ->].
Qed.

(** What the pipe of an upload was given, its end as [None], and what the connector's stream sent of it. *)
Definition inputs (h : FileHandler) (ref : nat) : list (option bytes) :=
  log h ≫= fun e => match e with
    | Took r p => if decide (r = ref) then [Some p] else []
    | Ended r => if decide (r = ref) then [None] else []
    | _ => [] end.

Definition sent_inputs (sent : list reply) : list (option bytes) :=
  sent ≫= fun r => match r with WriteSYN _ => [] | WriteDAT p => [Some p] | WriteFIN _ => [None] end.

(** The bytes of a local file, as its reads return them. *)
Fixpoint contents (reads : list (bytes * option stop)) : bytes :=
  match reads with
  | [] => []
  | (c, Some _) :: _ => c
  | (c, None) :: rest => c ++ contents rest
  end.

Lemma took_inputs h ref : took h ref = inputs h ref ≫= fun x => match x with Some p => p | None => [] end.
Proof.
  unfold took, inputs. induction (log h) as [|e l IH]; [done|]. cbn [mbind list_bind]. rewrite bind_app, <- IH. f_equal.
  destruct e; try done; cbn; case_decide; cbn; by rewrite ?app_nil_r.
Qed.

Lemma ended_inputs h ref : ended h ref <> [] -> None ∈ inputs h ref.
Proof.
  unfold ended, inputs. induction (log h) as [|e l IH]; [done|]. cbn [mbind list_bind]. intros H. apply elem_of_app.
  destruct e; try (right; apply IH; exact H). cbn in *. case_decide; [left; by constructor|by right; apply IH].
Qed.

(** A put that succeeds read a final frame saying so. *)
Lemma put_result_ok inbox : put_result inbox = Ok tt ->
  exists f, f ∈ inbox /\ IsFIN f = true /\ (Payload f = [] \/ exists st, decode_status (Payload f) = Some st /\ Status st = $"ok").
Proof.
  induction inbox as [|f l IH]; [done|]. cbn [put_result]. destruct (IsFIN f) eqn:E; cbn [negb].
  - intros H. exists f. split; [by left|]. split; [done|]. destruct (Payload f) as [|c q]; [by left|]. right.
    destruct (decode_status (c :: q)) as [st|]; [|done]. case_decide; [|done]. by exists st.
  - intros (g & Hg & ?)%IH. exists g. split; [by right|done].
Qed.

Lemma pump_ok send_error reads : forall sent sent1, pump send_error sent reads = (sent1, Ok tt) ->
  exists ds, sent1 = sent ++ map WriteDAT ds /\ concat ds = contents reads.
Proof.
  induction reads as [|[c err] reads IH]; intros sent sent1 H; cbn [pump contents] in *.
  - injection H as <-. exists []. by rewrite app_nil_r.
  - destruct c as [|a c].
    + destruct err as [[]|]; [injection H as <-; exists []; by rewrite app_nil_r|done|]. by apply IH in H.
    + destruct (send_error _); [done|]. destruct err as [[]|]; [|done|].
      * injection H as <-. exists [a :: c]. cbn. by rewrite app_nil_r.
      * apply IH in H as (ds & -> & E). exists ((a :: c) :: ds). cbn. rewrite <- E. by rewrite <- app_assoc.
Qed.

Section Ends.
Variable local : bytes -> bytes -> nat * option bytes.
Variable send_error : list reply -> option bytes.
(** io.Writer: a Write that takes less than it was given has an error. *)
Hypothesis local_full : forall w c n, local w c = (n, None) -> (length c <= n)%nat.

Lemma drain_dats id ds rest : forall w w', drain local w (map (frame_of id) (map WriteDAT ds) ++ rest) = (w', Ok tt) ->
  drain local (w ++ concat ds) rest = (w', Ok tt).
Proof using local_full.
  induction ds as [|c ds IH]; intros w w' H; [by rewrite app_nil_r|]. cbn [map app frame_of drain] in H.
  change (IsFIN (mkFrame id FlagDAT c)) with false in H. cbn [Payload] in H. destruct c as [|a c]; [by apply IH in H|].
  cbn [concat]. destruct (local w (a :: c)) as [n [m|]] eqn:El; [done|]. apply local_full in El. rewrite firstn_all2 in H by done.
  apply IH in H. by rewrite <- app_assoc in H.
Qed.

Lemma drain_no_fin id ds l : forall w w', l `prefix_of` map (frame_of id) (map WriteDAT ds) -> drain local w l <> (w', Ok tt).
Proof using local_full.
  intros w w' [k E] H. assert (exists ds', l = map (frame_of id) (map WriteDAT ds')) as [ds' ->].
  { clear H. revert l E. induction ds as [|d ds IH]; intros [|x l] E; try (by exists []). cbn in E. injection E as <- E.
    destruct (IH l E) as [ds' ->]. by exists (d :: ds'). }
  rewrite <- (app_nil_r (map _ _)) in H. by apply drain_dats in H.
Qed.

(** C32: A download that reports success received the file: whatever the handler's goroutines and resets do,
    and wherever the stream is cut, when [Get] returns without an error the bytes written locally are
    exactly the bytes the shared file gave to its reader, which had come to its end. *)
Theorem get_faithful h ref p inbox written size :
  serving h -> pendings h !! ref = Some p -> op p = $"get" ->
  inbox `prefix_of` map (frame_of (sid p)) (replies h ref) ->
  Get local None inbox = (written, Ok size) -> written = gave h ref /\ stops h ref <> [].
Proof using local_full.
  intros Hs Ho Hop Hin HG. pose proof (inv_serving h Hs ref) as Hi. rewrite Ho in Hi.
  destruct Hi as [[_ Hg]|[Hb _]]; [|exfalso; apply get_not_put; congruence].
  assert (v_replies (view_of h ref) = [] \/ (exists m, v_replies (view_of h ref) = [WriteSYN (status_error m); WriteFIN []]) \/
    (exists stat ds, v_replies (view_of h ref) = WriteSYN (get_meta stat) :: map WriteDAT ds) \/
    (exists stat ds, v_replies (view_of h ref) = WriteSYN (get_meta stat) :: map WriteDAT ds ++ [WriteFIN []] /\
       concat ds = gave h ref /\ stops h ref <> [])) as Hshape.
  { unfold get_ok in Hg. destruct (work p); try done; try (left; by destruct Hg); try (destruct Hg as (stat & ds & E & _); right; right; left; eauto);
      (destruct Hg as [?|[?|[(stat & ds & ? & _)|?]]]; eauto 6). }
  change (replies h ref) with (v_replies (view_of h ref)) in Hin. unfold Get in HG.
  destruct (first_response inbox) as [[[st f] rest]|] eqn:Ef; [|done]. apply first_response_ok in Ef as (-> & Hd & Hst).
  destruct Hin as [k Hin]. destruct Hshape as [E|[(m & E)|[(stat & ds & E)|(stat & ds & E & Ec & Es)]]]; rewrite E in Hin.
  - done.
  - injection Hin as <- _. cbn [Payload] in Hd. apply decode_status_error in Hd. rewrite Hst in Hd. by vm_compute in Hd.
  - cbn [map] in Hin. injection Hin as <- Hin. change (IsFIN _) with false in HG. destruct (drain local [] rest) as [w [[]|]] eqn:Edr; [|done].
    exfalso. apply (drain_no_fin (sid p) ds rest [] w); [|done]. by exists k.
  - cbn [map] in Hin. injection Hin as <- Hin. change (IsFIN _) with false in HG. destruct (drain local [] rest) as [w [[]|]] eqn:Edr; [|done].
    injection HG as <- _. split; [|done]. rewrite map_app in Hin. destruct k as [|g k _] using rev_ind.
    + rewrite app_nil_r in Hin. subst rest. apply drain_dats in Edr. cbn in Edr. change (IsFIN _) with true in Edr. injection Edr as <-. by rewrite Ec.
    + exfalso. rewrite app_assoc in Hin. apply app_inj_tail in Hin as [Hin _]. apply (drain_no_fin (sid p) ds rest [] w); [by exists k|done].
Qed.

(** C33: An upload that reports success stored the file: when [Put] returns without an error, and the pipe of
    its object was given the connector's frames in order, the bytes the shared file took are exactly the
    bytes of the local one. *)
Theorem put_faithful h ref p path overwrite reads inbox sent :
  serving h -> pendings h !! ref = Some p -> op p = $"put" ->
  inbox `prefix_of` map (frame_of (sid p)) (replies h ref) ->
  inputs h ref `prefix_of` sent_inputs sent ->
  Put send_error path overwrite reads inbox = (sent, Ok tt) -> kept h ref = contents reads.
Proof.
  intros Hs Ho Hop Hin Hord HP. pose proof (inv_serving h Hs ref) as Hi. rewrite Ho in Hi.
  destruct Hi as [[Hb _]|[_ (s & Hpw & Hw & He)]]; [exfalso; apply get_not_put; congruence|].
  unfold Put in HP. destruct (send_error _); [done|]. destruct (first_response inbox) as [[[st f] rest]|] eqn:Ef; [|done].
  apply first_response_ok in Ef as (-> & _ & _). destruct (pump _ _ _) as [sent1 [[]|]] eqn:Epu; [|done]. destruct (send_error _); [done|].
  injection HP as <- Hres. apply pump_ok in Epu as (ds & -> & <-). apply put_result_ok in Hres as (g & Hg & Hfin & Hpay).
  assert (Forall (fin_means s (view_of h ref)) (replies h ref)) as Hmeans.
  { destruct (work p) as [| | | | |c|[m|]| |]; try done; (try by apply fin_none, Hw); by destruct Hw. }
  assert (g ∈ map (frame_of (sid p)) (replies h ref)) as Hg' by (destruct Hin as [k ->]; apply elem_of_app; left; by right).
  apply list_elem_of_fmap in Hg' as (r & -> & Hr). rewrite Forall_forall in Hmeans. specialize (Hmeans r Hr).
  destruct r as [x|x|x]; try done. cbn [fin_means frame_of Payload] in *.
  assert (s = PipeEOF /\ took h ref = kept h ref) as [-> Htk].
  { destruct Hmeans as [(m & ->)|(_ & ? & ?)]; [|done]. exfalso. destruct Hpay as [Hp|(st' & Hd & Hst)]; [by apply (status_error_nonempty m)|].
    apply decode_status_error in Hd. rewrite Hst in Hd. by vm_compute in Hd. }
  destruct (He eq_refl) as [_ Hend]. apply ended_inputs in Hend. rewrite <- Htk, took_inputs.
  unfold sent_inputs in Hord. rewrite !bind_app in Hord. cbn [mbind list_bind app] in Hord.
  assert (forall l : list bytes, (map WriteDAT l ≫= fun r => match r with WriteSYN _ => [] | WriteDAT p => [Some p] | WriteFIN _ => [None] end) = map Some l) as Em
    by (intros l; induction l as [|d l IH]; [done|]; cbn; by rewrite <- IH).
  rewrite Em in Hord. assert (inputs h ref = map Some ds ++ [None]) as ->.
  { destruct Hord as [k Hk]. destruct k as [|y k _] using rev_ind; [by rewrite app_nil_r in Hk|]. exfalso.
    rewrite app_assoc in Hk. apply app_inj_tail in Hk as [Hk _].
    assert (None ∈ map Some ds) as Hno by (rewrite Hk; apply elem_of_app; by left). by apply list_elem_of_fmap in Hno as (? & ? & _). }
  rewrite bind_app. cbn. rewrite app_nil_r. clear. induction ds as [|d ds IH]; [done|]. cbn. by rewrite IH.
Qed.
End Ends.

(** No frame handler blocks for good: while bytes of an upload wait in its pipe, a goroutine of the
    handler can go on, or the pipe is closed and the wait ends; and the table holds only transfers whose
    goroutine still runs, each under its own stream. *)
Theorem upload_never_stuck h ref p :
  serving h -> pendings h !! ref = Some p -> op p = $"put" -> in_flight p <> [] ->
  (is_Some (unblock h ref) \/ is_Some (handlePut h ref Next) \/ forall n err, (n <= match work p with Writing c => length c | _ => 0 end)%nat -> is_Some (handlePut h ref (Stored n err))) /\
  (forall id r, streams h !! id = Some r -> exists q, pendings h !! r = Some q /\ sid q = id /\ work q <> Returned).
Proof.
  intros Hs Ho Hop Hfl. destruct (alive_serving h Hs) as [Hl Ht]. split; [|done]. destruct (Hl _ _ Ho) as [L1 L2].
  pose proof (inv_serving h Hs ref) as Hi. rewrite Ho in Hi. destruct Hi as [[Hb _]|[_ (s & Hpw & Hw & He)]]; [exfalso; apply get_not_put; congruence|].
  unfold unblock, handlePut. rewrite Ho. destruct (decide (pw p = Some PipeOpen)) as [E|E]; [rewrite bool_decide_true by done|left; rewrite bool_decide_false by done; by eexists].
  right. destruct (work p) as [| | | | |c|err| |]; try done.
  - left. rewrite E. destruct (in_flight p); [done|]. by eexists.
  - right. intros n err Hn. rewrite decide_True by done. by eexists.
  - left. by eexists.
  - left. by eexists.
  - exfalso. by apply L1; [apply L2|].
Qed.

(** A download the share refuses fails at the connector with the reason: when the file cannot be opened,
    [Get] over the handler's reply writes nothing and returns the handler's message. *)
Theorem refusal_reported local h ref p e :
  serving h -> pendings h !! ref = Some p -> op p = $"get" -> work p = Opening ->
  exists h', handleGet h ref (Opened (Err e)) = Some h' /\
  Get local None (map (frame_of (sid p)) (replies h' ref)) =
    ([], Err (Server (statusErr (mkStatus $"error" (coerce (fileErrMessage e (path p))) 0)))).
Proof.
  intros Hs Ho Hop Hw. pose proof (inv_serving h Hs ref) as Hi. rewrite Ho in Hi.
  destruct Hi as [[_ Hg]|[Hb _]]; [|exfalso; apply get_not_put; congruence]. unfold get_ok in Hg. rewrite Hw in Hg. destruct Hg as [Hr _].
  unfold handleGet. rewrite Ho, Hw. eexists. split; [reflexivity|]. set (m := fileErrMessage e (path p)).
  assert (replies (sendFileError h (sid p) (Some ref) m) ref = [WriteSYN (status_error m); WriteFIN []]) as Er.
  { change (v_replies (view_of (sendFileError h (sid p) (Some ref) m) ref) = [WriteSYN (status_error m); WriteFIN []]).
    unfold sendFileError, write. rewrite !view_emit. cbn [see]. rewrite !decide_True by done. cbn [v_replies]. by rewrite Hr. }
  match goal with |- Get _ _ (map _ (replies (put ?h0 _ ?q) _)) = _ => change (replies (put h0 ref q) ref) with (replies h0 ref) end.
  rewrite Er. cbn [map frame_of Get first_response]. change (negb (IsSYN _)) with false. cbn [Payload].
  assert (decode_status (status_error m) = Some (mkStatus $"error" (coerce m) 0)) as ->.
  { unfold decode_status. Transparent status_error. unfold status_error. Opaque status_error.
    rewrite parse_print_json; [|repeat constructor|vm_compute; discriminate]. cbn [coerce_json map]. generalize (coerce m) as x. intros x.
    replace (coerce $"error") with $"error" by (vm_compute; reflexivity). replace (coerce $"status") with $"status" by (vm_compute; reflexivity).
    lazy. reflexivity. }
  rewrite decide_False; [done|]. cbn [Status]. intros Hc. by vm_compute in Hc.
Qed.

(** * Runs *)

Definition or_new (o : option FileHandler) : FileHandler := match o with Some h => h | None => NewFile end.
Definition whole (written chunk : bytes) : nat * option bytes := (length chunk, None).
Definition no_error (sent : list reply) : option bytes := None.
Definition a_stat : FileStat := mkStat $"f" $"file" 4 0 $"text/plain".

Definition get_request : bytes := json_text $"{'type':'file','op':'get','path':'f'}".
Definition asked : FileHandler := OnSYN NewFile 1 get_request true [] (Ok []) (Ok tt) true.
Definition answering : FileHandler := or_new (handleGet (or_new (handleGet asked 0 (Opened (Ok a_stat)))) 0 (Wrote true)).
Definition half_sent : FileHandler := or_new (handleGet (or_new (handleGet answering 0 (Read $"ab" None))) 0 (Wrote true)).
Definition all_sent : FileHandler := or_new (handleGet (or_new (handleGet half_sent 0 (Read $"cd" (Some EOF)))) 0 (Wrote true)).

Lemma asked_serving : serving asked.
Proof. apply steps_one, fh_syn. Defined.

Definition runs (kind : bytes) (h : FileHandler) (ref : nat) : bool :=
  match pendings h !! ref with Some p => bool_decide (op p = kind) | None => false end.

Lemma get_run h ref e : runs $"get" h ref = true -> serving h -> serving (or_new (handleGet h ref e)).
Proof.
  unfold runs. destruct (pendings h !! ref) as [p|] eqn:Ho; [|done]. intros Hop%bool_decide_eq_true Hs.
  destruct (handleGet h ref e) as [h'|] eqn:E; [|constructor]. exact (steps_trans _ _ _ _ Hs (steps_one _ _ _ (fh_get _ _ _ _ _ Ho Hop E))).
Defined.

Lemma put_run h ref e : runs $"put" h ref = true -> serving h -> serving (or_new (handlePut h ref e)).
Proof.
  unfold runs. destruct (pendings h !! ref) as [p|] eqn:Ho; [|done]. intros Hop%bool_decide_eq_true Hs.
  destruct (handlePut h ref e) as [h'|] eqn:E; [|constructor]. exact (steps_trans _ _ _ _ Hs (steps_one _ _ _ (fh_put _ _ _ _ _ Ho Hop E))).
Defined.

Ltac run := repeat first [apply get_run; [vm_compute; reflexivity|] | apply put_run; [vm_compute; reflexivity|]].

Lemma half_sent_serving : serving half_sent.
Proof. unfold half_sent, answering. run. apply asked_serving. Defined.

Lemma get_faithful_witness :
  Get whole None (map (frame_of 1) (replies all_sent 0)) = ($"abcd", Ok 4) /\ $"abcd" = gave all_sent 0 /\ stops all_sent 0 <> [].
Proof.
  assert (Get whole None (map (frame_of 1) (replies all_sent 0)) = ($"abcd", Ok 4)) as HG by (vm_compute; reflexivity).
  assert (serving all_sent) as Hs by (unfold all_sent; run; apply asked_serving).
  split; [exact HG|].
  refine (get_faithful whole _ all_sent 0 (mkPending 1 $"get" $"f" None true false [] Finishing) _ $"abcd" 4 Hs _ _ _ HG).
  - intros w c n H. injection H as <-. lia.
  - vm_compute. reflexivity.
  - reflexivity.
  - exists []. by rewrite app_nil_r.
Defined.

(** A file whose second read fails: [Get] returns without an error although only its first half came. *)
Lemma download_truncated :
  let h := or_new (handleGet half_sent 0 (Read [] (Some (Broken $"input/output error")))) in
  serving h /\ Get whole None (map (frame_of 1) (replies h 0)) = ($"ab", Ok 4) /\ stops h 0 = [Broken $"input/output error"].
Proof.
  split_and!; [run; apply asked_serving|vm_compute; reflexivity|vm_compute; reflexivity].
Qed.

Lemma refusal_reported_witness :
  exists h', handleGet asked 0 (Opened (Err ErrNotFound)) = Some h' /\
  Get whole None (map (frame_of 1) (replies h' 0)) = ([], Err (Server $"not found: f")).
Proof.
  destruct (refusal_reported whole asked 0 (mkPending 1 $"get" $"f" None false false [] Opening) ErrNotFound asked_serving) as (h' & E & HG);
    [vm_compute; reflexivity|reflexivity|reflexivity|].
  exists h'. split; [exact E|]. cbn [sid path] in HG. rewrite HG. vm_compute. reflexivity.
Defined.

Definition put_request : bytes := put_syn $"f" true.
Definition accepting : FileHandler := OnSYN NewFile 1 put_request false [] (Ok []) (Ok tt) true.
Definition uploading : FileHandler := OnDAT accepting 1 $"abc".
Definition stored : FileHandler :=
  or_new (handlePut (or_new (handlePut (pipe_close (or_new (handlePut (or_new (handlePut uploading 0 Next)) 0 (Stored 3 None))) 0) 0 Next)) 0 Next).

Lemma accepting_idle : idle accepting 1.
Proof. intros ref p Ht Hp. vm_compute in Ht. injection Ht as <-. vm_compute in Hp. injection Hp as <-. reflexivity. Defined.

Lemma uploading_serving : serving uploading.
Proof. eapply steps_cons; [apply (fh_syn NewFile 1 put_request false [] (Ok []) (Ok tt) true)|]. apply steps_one, fh_dat, accepting_idle. Defined.

Lemma put_faithful_witness :
  (Put no_error $"f" true [($"abc", Some EOF)] (map (frame_of 1) (replies stored 0))).2 = Ok tt /\ kept stored 0 = $"abc".
Proof.
  assert (serving stored) as Hs.
  { unfold stored. do 2 (apply put_run; [vm_compute; reflexivity|]). refine (steps_trans _ _ _ _ _ (steps_one _ _ _ (fh_fin _ 1 0 _ _))).
    - do 2 (apply put_run; [vm_compute; reflexivity|]). apply uploading_serving.
    - intros ref p Ht Hp. vm_compute in Ht. injection Ht as <-. vm_compute in Hp. injection Hp as <-. reflexivity.
    - vm_compute. reflexivity. }
  split; [vm_compute; reflexivity|].
  refine (put_faithful no_error stored 0 (mkPending 1 $"put" $"f" (Some PipeEOF) true false [] Finishing) $"f" true
    [($"abc", Some EOF)] (map (frame_of 1) (replies stored 0)) [WriteSYN (put_syn $"f" true); WriteDAT $"abc"; WriteFIN []] Hs _ _ _ _ _).
  - vm_compute. reflexivity.
  - reflexivity.
  - exists []. by rewrite app_nil_r.
  - exists []. vm_compute. reflexivity.
  - vm_compute. reflexivity.
Defined.

Lemma upload_never_stuck_witness :
  exists p, pendings uploading !! 0%nat = Some p /\ in_flight p = $"abc" /\
  (is_Some (unblock uploading 0) \/ is_Some (handlePut uploading 0 Next) \/
   forall n err, (n <= match work p with Writing c => length c | _ => 0 end)%nat -> is_Some (handlePut uploading 0 (Stored n err))).
Proof.
  exists (mkPending 1 $"put" $"f" (Some PipeOpen) true false $"abc" Copying).
  assert (pendings uploading !! 0%nat = Some (mkPending 1 $"put" $"f" (Some PipeOpen) true false $"abc" Copying)) as Hp by (vm_compute; reflexivity).
  split; [exact Hp|]. split; [reflexivity|].
  apply (upload_never_stuck uploading 0 _ uploading_serving Hp); [reflexivity|vm_compute; discriminate].
Defined.
