(* ===== verification/GoNet.v ===== *)
(** The part of Go's net, net/http and net/url the proxy relies on: IP addresses, canonical header keys
    and the host a URL names. *)

From S2P Require Import Prelude GoLib Json.

(** * IP addresses: sixteen bytes, the last four behind ::ffff: for IPv4 *)

Abbreviation IP := (list Z).

Definition v4_prefix : IP := [0; 0; 0; 0; 0; 0; 0; 0; 0; 0; 255; 255].

Definition To4 (ip : IP) : option (list Z) :=
  if decide (take 12 ip = v4_prefix) then Some (drop 12 ip) else None.

Definition v4_field (s : bytes) : option Z :=
  match s with
  | [] => None
  | c :: r =>
    if (zlen s >? 3) || (is_char 48 c && negb (bool_decide (r = []))) then None else
    match digits_value 0 s with Some z => if z <=? 255 then Some z else None | None => None end
  end.

Definition parse_v4 (s : bytes) : option (list Z) :=
  match Split s dot with
  | [a; b; c; d] =>
    match v4_field a, v4_field b, v4_field c, v4_field d with
    | Some a, Some b, Some c, Some d => Some [a; b; c; d]
    | _, _, _, _ => None
    end
  | _ => None
  end.

(** The hexadecimal digits at the head: how many, and their value. *)
Fixpoint hex_run (acc : Z) (n : nat) (s : bytes) : nat * Z * bytes :=
  match s with
  | c :: r => match hex_digit c with Some d => hex_run (acc * 16 + d) (S n) r | None => (n, acc, s) end
  | [] => (n, acc, [])
  end.

(** The groups from index [length acc] on: the bytes so far and the place of the ellipsis. *)
Fixpoint parse_groups (fuel : nat) (acc : list Z) (ellipsis : option nat) (s : bytes) : option (list Z * option nat) :=
  match fuel with
  | O => match s with [] => Some (acc, ellipsis) | _ => None end
  | S n =>
    if (16 <=? length acc)%nat then match s with [] => Some (acc, ellipsis) | _ => None end else
    let '(k, v, r) := hex_run 0 0 s in
    if (k =? 0)%nat || (4 <? k)%nat then None else
    match r with
    | c :: r' =>
      if is_char 46 c then
        if match ellipsis with None => negb (length acc =? 12)%nat | Some _ => (12 <? length acc)%nat end then None else
        match parse_v4 s with Some ds => Some (acc ++ ds, ellipsis) | None => None end
      else if is_char 58 c then
        let acc1 := acc ++ [v / 256; v mod 256] in
        match r' with
        | [] => None
        | d :: r2 =>
          if is_char 58 d then
            match ellipsis with
            | Some _ => None
            | None => match r2 with
                      | [] => Some (acc1, Some (length acc1))
                      | _ => parse_groups n acc1 (Some (length acc1)) r2
                      end
            end
          else parse_groups n acc1 ellipsis r'
        end
      else None
    | [] => Some (acc ++ [v / 256; v mod 256], ellipsis)
    end
  end.

Definition expand (r : list Z * option nat) : option IP :=
  let '(bs, ellipsis) := r in
  match ellipsis with
  | None => if (length bs =? 16)%nat then Some bs else None
  | Some e => if (length bs <? 16)%nat then Some (take e bs ++ repeat 0 (16 - length bs) ++ drop e bs) else None
  end.

Definition parse_v6 (s : bytes) : option IP :=
  match s with
  | a :: b :: r =>
    if is_char 58 a && is_char 58 b
    then match r with [] => Some (repeat 0 16) | _ => parse_groups 8 [] (Some 0%nat) r ≫= expand end
    else parse_groups 8 [] None s ≫= expand
  | _ => None
  end.

(** The first of [.], [:] and [%] decides. A zone is refused. *)
Definition ParseIP (s : bytes) : option IP :=
  if decide ("%"%char ∈ s) then None else
  match filter (fun c => c = dot \/ c = colon) s with
  | [] => None
  | c :: _ => if decide (c = dot) then (fun ds => v4_prefix ++ ds) <$> parse_v4 s else parse_v6 s
  end.

Definition print_hex (z : Z) : bytes :=
  let ds := [z / 4096; z / 256 mod 16; z / 16 mod 16; z mod 16] in
  match (fix skip (l : list Z) := match l with 0 :: l' => skip l' | _ => l end) ds with [] => $"0" | l => map to_hex l end.

Fixpoint groups (ip : IP) : list Z :=
  match ip with a :: b :: r => (a * 256 + b) :: groups r | _ => [] end.

Fixpoint zero_run (l : list Z) : nat := match l with 0 :: l' => S (zero_run l') | _ => 0 end.

(** The first longest run of zero groups of length two at least: its start and end. *)
Definition longest_zeros (gs : list Z) : nat * nat :=
  foldl (fun '(b, e) i => let j := (i + zero_run (drop i gs))%nat in
           if (2 <=? j - i)%nat && (e - b <? j - i)%nat then (i, j) else (b, e)) (255, 255)%nat (seq 0 8).

Definition print_v6 (gs : list Z) : bytes :=
  let '(b, e) := longest_zeros gs in
  if (b =? 255)%nat then join $":" (map print_hex gs)
  else join $":" (map print_hex (take b gs)) ++ $"::" ++ join $":" (map print_hex (drop e gs)).

Definition IPString (ip : IP) : bytes :=
  match To4 ip with
  | Some ds => join $"." (map Itoa ds)
  | None => print_v6 (groups ip)
  end.

Definition IsLoopback (ip : IP) : bool :=
  match To4 ip with Some (a :: _) => a =? 127 | Some [] => false | None => bool_decide (ip = repeat 0 15 ++ [1]) end.
Definition IsPrivate (ip : IP) : bool :=
  match To4 ip, ip with
  | Some (a :: b :: _), _ => (a =? 10) || ((a =? 172) && (Z.land b 240 =? 16)) || ((a =? 192) && (b =? 168))
  | Some _, _ => false
  | None, a :: _ => Z.land a 254 =? 252
  | None, [] => false
  end.
Definition IsLinkLocalUnicast (ip : IP) : bool :=
  match To4 ip, ip with
  | Some (a :: b :: _), _ => (a =? 169) && (b =? 254)
  | Some _, _ => false
  | None, a :: b :: _ => (a =? 254) && (Z.land b 192 =? 128)
  | None, _ => false
  end.

Example parse_ip_samples :
  (IPString <$> ParseIP $"192.168.1.10", IPString <$> ParseIP $"2001:DB8:0:0:1:0:0:1", IPString <$> ParseIP $"::ffff:10.0.0.1",
   ParseIP $"1.2.3.04", ParseIP $"fe80::1%eth0", IPString <$> ParseIP $"::1", ParseIP $"1::2::3") =
  (Some $"192.168.1.10", Some $"2001:db8::1:0:0:1", Some $"10.0.0.1", None, None, Some $"::1", None).
Proof. vm_compute. reflexivity. Qed.

(** * http.Header *)

Definition token_char (c : ascii) : bool :=
  is_digit c || between 65 90 (code c) || between 97 122 (code c) ||
  bool_decide (c ∈ $"!#$%&'*+-.^_`|~").

Definition upper_char (c : ascii) : ascii := if between 97 122 (code c) then chr (code c - 32) else c.

Fixpoint canonical_word (start : bool) (s : bytes) : bytes :=
  match s with
  | [] => []
  | c :: r => (if start then upper_char c else lower c) :: canonical_word (is_char 45 c) r
  end.

(** [textproto.CanonicalMIMEHeaderKey]: a key with other bytes than a token's is left alone. *)
Definition CanonicalKey (k : bytes) : bytes := if forallb token_char k then canonical_word true k else k.

(** A header with at most one value per key, as [Set] and [Del] leave it. *)
Abbreviation Header := (gmap bytes bytes).
Definition hSet (h : Header) (k v : bytes) : Header := <[CanonicalKey k := v]> h.
Definition hDel (h : Header) (k : bytes) : Header := delete (CanonicalKey k) h.

(** * net/url *)

(** The authority of the rest of a URL after [scheme://]: up to a slash, a question mark or a number sign. *)
Fixpoint authority (s : bytes) : bytes :=
  match s with
  | [] => []
  | c :: r => if decide (c ∈ $"/?#") then [] else c :: authority r
  end.

(** [URL.Host]: what follows the user information. *)
Definition url_host (s : bytes) : bytes :=
  let a := authority s in
  match LastIndexByte a "@"%char with Some i => drop (S i) a | None => a end.

Lemma lower_canonical s : forall b, ToLower (canonical_word b s) = ToLower s.
Proof.
  assert (forall c, lower (lower c) = lower c /\ lower (upper_char c) = lower c) as H
    by (intros [[] [] [] [] [] [] [] []]; split; vm_compute; reflexivity).
  induction s as [|c s IH]; intros b; [done|]. cbn. rewrite IH. f_equal. destruct b; apply H.
Qed.

Lemma lower_CanonicalKey k : ToLower (CanonicalKey k) = ToLower k.
Proof. unfold CanonicalKey. destruct (forallb _ _); [apply lower_canonical|done]. Qed.

(** A host without the delimiters of a URL is the host of any URL that goes on with a slash. *)
Definition host_chars (h : bytes) : Prop := Forall (fun c => c ∉ $"/?#@") h.

Lemma authority_host h rest : host_chars h -> authority (h ++ slash :: rest) = h.
Proof.
  induction 1 as [|c h Hc _ IH]; cbn [app authority].
  - rewrite decide_True; [done|]. vm_compute. left.
  - rewrite decide_False; [by rewrite IH|]. intros Hin. apply Hc. change $"/?#@" with ($"/?#" ++ $"@"). apply elem_of_app. by left.
Qed.

Lemma url_host_plain h rest : host_chars h -> url_host (h ++ slash :: rest) = h.
Proof.
  intros Hh. unfold url_host. rewrite authority_host by done. rewrite LastIndexByte_none; [done|].
  intros Hin. unfold host_chars in Hh. rewrite Forall_forall in Hh. apply (Hh _ Hin). vm_compute. repeat constructor.
Qed.
