(* ===== verification/Proxy.v ===== *)
(** The HTTP proxy of a session: which host it talks to and what it sends there
    (the HTTPHandler of internal/streamtype/http.go, and the target of internal/streamtype/websocket.go).

    Sessions are states; [dials] records every host a connection was opened to. What a target answers, and
    url.Parse's checks beyond the port's digits, are arguments. *)

From S2P Require Import Prelude GoLib Json GoNet Allowlist.

Record HTTPHandler := mkProxy {
  Target : bytes;
  UID : bytes;
  Server : bytes;
  BrowserIP : bytes;
  Allow : List;
  connTarget : bytes;
  targetPrefix : bytes;
  connectPrefix : bytes;
  connScheme : bytes;
  dials : list bytes
}.

#[export] Instance eta_HTTPHandler : Eta HTTPHandler := fun h =>
  mkProxy (Target h) (UID h) (Server h) (BrowserIP h) (Allow h) (connTarget h) (targetPrefix h) (connectPrefix h) (connScheme h) (dials h).

Definition NewHTTPProxy (target uid server browserIP : bytes) (allow : List) : HTTPHandler :=
  mkProxy target uid server browserIP allow [] [] [] [] [].

Definition dial (host : bytes) (h : HTTPHandler) : HTTPHandler := h <| dials := dials h ++ [host] |>.

(** * Targets in paths *)

Definition schemes : list bytes := [$"https"; $"http"].
Definition separators : list bytes := [$"://"; $":/"; $"%3A%2F%2F"; $"%3a%2f%2f"; $"%3A%2F"; $"%3a%2f"].

Definition EqualFold (a b : bytes) : bool := bool_decide (ToLower a = ToLower b).

Definition stripScheme (s : bytes) : bytes :=
  match filter (fun p => (zlen s >? zlen p) && EqualFold (take (length p) s) p = true)
          (schemes ≫= fun scheme => map (fun sep => scheme ++ sep) separators) with
  | p :: _ => drop (length p) s
  | [] => s
  end.

Definition looksLikeHostPort (seg : bytes) : bool :=
  match seg with [] => false | _ => negb (HasSuffix seg $":") && Contains seg $":" end.

Definition parseTargetFromPath (path : bytes) : bytes * bytes :=
  let trimmed := stripScheme (TrimSpace (TrimPrefix path $"/")) in
  match trimmed with
  | [] => ([], $"/")
  | _ =>
    let '(target, remainder) := match IndexByte trimmed slash with
                                | Some i => (take i trimmed, drop i trimmed)
                                | None => (trimmed, $"/")
                                end in
    if Contains target $":" || Contains target $"." || bool_decide (target = $"localhost")
    then (target, remainder) else ([], path)
  end.

Definition hostOnly (hostPort : bytes) : bytes :=
  Trim (match SplitHostPort hostPort with Ok (h, _) => h | Err _ => hostPort end) $"[]".

Definition sameHostname (a b : bytes) : bool := EqualFold (hostOnly a) (hostOnly b).

Definition IsLocalName (host : bytes) : bool := HasSuffix (ToLower (TrimSuffix host $".")) $".local".

Definition isLocalHost (target : bytes) : bool :=
  let host := hostOnly target in
  match host with
  | [] => false
  | _ =>
    let lower := ToLower host in
    if bool_decide (lower = $"localhost") || HasSuffix lower $".localhost" then true
    else if IsLocalName host then true
    else match ParseIP host with
         | None => negb (Contains host $".")
         | Some ip =>
           if IsLoopback ip || IsPrivate ip || IsLinkLocalUnicast ip then true
           else match To4 ip with
                | Some (a :: b :: _) => (a =? 100) && (b >=? 64) && (b <=? 127)
                | _ => false
                end
         end
  end.

Definition scheme (h : HTTPHandler) : bytes := match connScheme h with [] => $"http" | s => s end.
Definition skipVerify (h : HTTPHandler) : bool := bool_decide (scheme h = $"https") && isLocalHost (connTarget h).

Definition allowRebind (h : HTTPHandler) (host : bytes) : bool :=
  if negb (PermitsTarget (Allow h) host) then false else
  match Target h with [] => true | t => sameHostname host t end.

Definition rebind (h : HTTPHandler) (host : bytes) : HTTPHandler :=
  h <| connTarget := host |> <| targetPrefix := slash :: host |>.

Definition orSlash (remainder : bytes) : bytes := match remainder with [] => $"/" | r => r end.

Definition resolveTarget (h : HTTPHandler) (requestPath : bytes) : bytes * bytes * HTTPHandler :=
  if negb (bool_decide (Target h = [])) then (connTarget h, requestPath, h) else
  if negb (bool_decide (targetPrefix h = [])) && HasPrefix requestPath (targetPrefix h)
  then (connTarget h, orSlash (drop (length (targetPrefix h)) requestPath), h) else
  let trimmed := stripScheme (TrimPrefix requestPath $"/") in
  let fallback :=
    if negb (bool_decide (connectPrefix h = [])) && negb (bool_decide (connectPrefix h = targetPrefix h))
       && HasPrefix requestPath (connectPrefix h)
    then (connTarget h, orSlash (drop (length (connectPrefix h)) requestPath), h)
    else (connTarget h, requestPath, h) in
  match IndexByte trimmed slash with
  | Some (S i) =>
    let firstSeg := take (S i) trimmed in
    if looksLikeHostPort firstSeg then (firstSeg, drop (S i) trimmed, rebind h firstSeg) else fallback
  | _ => if looksLikeHostPort trimmed then (trimmed, $"/", rebind h trimmed) else fallback
  end.

Section Upstream.
(** url.Parse's checks of a URL, apart from the digits of its port. *)
Variable url_valid : bytes -> bool.

(** The port of a host is made of digits. *)
Definition validOptionalPort (host : bytes) : bool :=
  match host with
  | c :: _ => if is_char 91 c then true else
      match LastIndexByte host colon with Some i => forallb is_digit (drop (S i) host) | None => true end
  | [] => true
  end.

(** [scheme://rest] as url.Parse takes it: the host a request for it goes to. *)
Definition url_target (rest : bytes) : option bytes :=
  if validOptionalPort (url_host rest) && url_valid rest then Some (url_host rest) else None.

(** * OnConnect *)

(** What the network answers to the probes: a redirect (its host, and whether to https), a plaintext answer
    below 400, any answer at all; then a TLS handshake, and a bare connection. *)
Record probe := mkProbe { redirected : option (bytes * bool); plaintextOK : bool; answered : bool; tls : bool; tcp : bool }.

Inductive connect_outcome := Connected | NotAllowed (target : bytes) | NotHTTP (target : bytes) | Unreachable (target : bytes) | Panicked.

Definition select_target (h : HTTPHandler) (path : bytes) : HTTPHandler :=
  match Target h with
  | [] =>
    match (parseTargetFromPath path).1 with
    | [] => h <| connTarget := [] |> <| targetPrefix := [] |>
    | target => h <| connTarget := target |> <| targetPrefix := slash :: target |> <| connectPrefix := slash :: target |>
    end
  | t => h <| connTarget := t |> <| targetPrefix := [] |>
  end.

(** The probe's CheckRedirect: the target moves if it may, the redirect is not followed. *)
Definition probe_redirect (h : HTTPHandler) (r : option (bytes * bool)) : HTTPHandler :=
  match r with
  | Some (host, _) =>
    if negb (bool_decide (host = [])) && negb (bool_decide (host = connTarget h)) && allowRebind h host then rebind h host else h
  | None => h
  end.

Definition OnConnect (h : HTTPHandler) (path : bytes) (p : probe) : HTTPHandler * connect_outcome :=
  let h1 := select_target h path in
  match connTarget h1 with
  | [] => (h1, Connected)
  | target =>
    if negb (PermitsTarget (Allow h1) target) then (h1, NotAllowed target) else
    match url_target (target ++ $"/") with
    | None => (h1, Panicked)     (* the error of http.NewRequest is dropped and its nil request used *)
    | Some host =>
      let h2 := probe_redirect (dial host (h1 <| connScheme := $"http" |>)) (redirected p) in
      if match redirected p with Some (_, https) => https | None => false end then (h2 <| connScheme := $"https" |>, Connected)
      else if plaintextOK p then (h2, Connected)
      else
        let h3 := dial (connTarget h2) h2 in
        if tls p then (h3 <| connScheme := $"https" |>, Connected)
        else if answered p then (h3, Connected)
        else (dial (connTarget h3) h3, (if tcp p then NotHTTP (connTarget h3) else Unreachable (connTarget h3)))
    end
  end.

(** * A request *)

Record Request := mkRequest { r_Method : bytes; r_Pathname : bytes; r_ContentType : bytes; r_Headers : option (list (bytes * bytes)) }.

Definition skipHeaders : list bytes :=
  [$"host"; $"origin"; $"referer"; $"content-length"; $"x-forwarded-for"; $"x-real-ip"; $"x-forwarded-host";
   $"x-forwarded-proto"; $"x-forwarded-port"; $"forwarded"].

Definition client_headers (req : Request) : Header :=
  match r_Headers req with
  | Some l => foldl (fun h '(k, v) => if bool_decide (ToLower k ∈ skipHeaders) then h else hSet h k v) ∅ l
  | None => match r_ContentType req with [] => ∅ | ct => hSet ∅ $"Content-Type" ct end
  end.

(** The headers a target sees; [scheme] and [target] are those of the request. *)
Definition upstream_headers (h : HTTPHandler) (req : Request) (target : bytes) : Header :=
  let h1 := hSet (client_headers req) $"X-Forwarded-Host" (Server h) in
  let h2 := hSet h1 $"X-Forwarded-Proto" $"https" in
  let h3 := match ParseIP (BrowserIP h) with
            | Some ip => hSet h2 $"X-Forwarded-For" (IPString ip)
            | None => hDel h2 $"X-Forwarded-For" end in
  hSet h3 $"Referer" (scheme h ++ $"://" ++ target ++ $"/").

(** The client's redirects: followed while they lead to another host that the session may move to. *)
Fixpoint follow (h : HTTPHandler) (target : bytes) (hops : list bytes) : HTTPHandler :=
  match hops with
  | [] => h
  | host :: rest =>
    if negb (bool_decide (host = [])) && negb (bool_decide (host = target)) && allowRebind h host
    then follow (dial host (rebind h host)) target rest
    else h
  end.

Inductive request_outcome := Landing | BadURL | Sent (host_header : bytes) (header : Header).

(** [proxyRequestContext] up to the response: [hops] are the hosts of the redirects the targets answer with. *)
Definition proxyRequest (h : HTTPHandler) (req : Request) (hops : list bytes) : HTTPHandler * request_outcome :=
  match connTarget h with
  | [] => (h, Landing)
  | _ =>
    let '(target, pathname, h1) := resolveTarget h (r_Pathname req) in
    match (if forallb token_char (r_Method req) then url_target (target ++ pathname) else None) with
    | None => (h1, BadURL)
    | Some host => (follow (dial host h1) target hops, Sent target (upstream_headers h1 req target))
    end
  end.

(** [WSHandler.bridge] up to its connection: the dialed host and whether with TLS. *)
Definition bridge_dial (h : HTTPHandler) (pathname : bytes) : HTTPHandler * option (bytes * bool) :=
  let '(target, wsPath, h1) := resolveTarget h pathname in
  match url_target (target ++ wsPath) with
  | Some host => (dial host h1, Some (host, bool_decide (scheme h1 = $"https")))
  | None => (h1, None)
  end.
(** What the requests and sockets of a session do, in any interleaving: one resolves its target and connects,
    or a target answers with a redirect. *)
Inductive proxy_step : HTTPHandler -> HTTPHandler -> Prop :=
| p_request h req : proxy_step h (proxyRequest h req []).1
| p_redirect h target host : proxy_step h (follow h target [host])
| p_socket h pathname : proxy_step h (bridge_dial h pathname).1.

End Upstream.

(** * A response *)

Definition droppedHeaders : list bytes := [$"X-Frame-Options"; $"Content-Security-Policy"; $"Content-Security-Policy-Report-Only"].

(** The headers relayed to the browser; [request_uri] is url.Parse and RequestURI of a location. *)
Definition response_headers (request_uri : bytes -> option bytes) (header : list (bytes * list bytes)) : list (bytes * json) :=
  header ≫= fun '(key, values) =>
    if bool_decide (key ∈ droppedHeaders) then [] else
    match values with
    | [] => []
    | v :: _ =>
      if (1 <? length values)%nat && bool_decide (key = $"Set-Cookie") then [(key, JArray (map JString values))] else
      if bool_decide (key = $"Location") && negb (bool_decide (v = []))
      then [(key, JString (default v (request_uri v)))]
      else [(key, JString v)]
    end.

(** * Headers *)

Definition stamped (h : HTTPHandler) (target k : bytes) : option bytes :=
  if decide (k = $"Referer") then Some (scheme h ++ $"://" ++ target ++ $"/")
  else if decide (k = $"X-Forwarded-For") then IPString <$> ParseIP (BrowserIP h)
  else if decide (k = $"X-Forwarded-Proto") then Some $"https"
  else if decide (k = $"X-Forwarded-Host") then Some (Server h)
  else None.

Lemma client_headers_skip req k : ToLower k ∈ skipHeaders -> client_headers req !! k = None.
Proof.
  intros Hk. unfold client_headers. destruct (r_Headers req) as [l|].
  - assert (forall l (h : Header), h !! k = None ->
      foldl (fun h '(k', v) => if bool_decide (ToLower k' ∈ skipHeaders) then h else hSet h k' v) h l !! k = None) as H; [|by apply H].
    clear l. induction l as [|[k' v] l IH]; intros h Hh; [done|]. cbn [foldl]. apply IH. case_bool_decide as Hs; [done|].
    unfold hSet. rewrite lookup_insert_ne; [done|]. intros <-. apply Hs. by rewrite lower_CanonicalKey in Hk.
  - destruct (r_ContentType req) as [|c ct]; [done|]. unfold hSet. rewrite lookup_insert_ne; [done|]. intros <-. revert Hk.
    replace (ToLower (CanonicalKey $"Content-Type")) with $"content-type" by (vm_compute; reflexivity).
    intros Hk. apply (bool_decide_pack _) in Hk. by vm_compute in Hk.
Qed.

(** A connector cannot forge where its requests come from: whatever header map it sends, each of the
    origin headers ([Host], [Origin], [Referer], [Forwarded], [X-Real-IP] and the [X-Forwarded] ones, in any
    spelling) reaches the target only as the listener stamps it, [X-Forwarded-For] with the address the
    signaling server reported if that is one. *)
Theorem origin_headers_stamped h req target k :
  ToLower k ∈ skipHeaders -> upstream_headers h req target !! k = stamped h target k.
Proof.
  intros Hk. pose proof (client_headers_skip req k Hk) as Hc. unfold upstream_headers, stamped, hSet, hDel.
  replace (CanonicalKey $"X-Forwarded-Host") with $"X-Forwarded-Host" by (vm_compute; reflexivity).
  replace (CanonicalKey $"X-Forwarded-Proto") with $"X-Forwarded-Proto" by (vm_compute; reflexivity).
  replace (CanonicalKey $"X-Forwarded-For") with $"X-Forwarded-For" by (vm_compute; reflexivity).
  replace (CanonicalKey $"Referer") with $"Referer" by (vm_compute; reflexivity).
  destruct (decide (k = $"Referer")) as [->|H1]; [apply lookup_insert_eq|]. rewrite lookup_insert_ne by congruence.
  destruct (decide (k = $"X-Forwarded-For")) as [->|H2].
  { destruct (ParseIP (BrowserIP h)); [apply lookup_insert_eq|apply lookup_delete_eq]. }
  assert (forall m : Header, match ParseIP (BrowserIP h) with Some ip => <[$"X-Forwarded-For" := IPString ip]> m | None => delete $"X-Forwarded-For" m end !! k = m !! k) as ->
    by (intros m; destruct (ParseIP (BrowserIP h)); [rewrite lookup_insert_ne by congruence|rewrite lookup_delete_ne by congruence]; done).
  destruct (decide (k = $"X-Forwarded-Proto")) as [->|H3]; [apply lookup_insert_eq|]. rewrite lookup_insert_ne by congruence.
  destruct (decide (k = $"X-Forwarded-Host")) as [->|H4]; [apply lookup_insert_eq|]. by rewrite lookup_insert_ne by congruence.
Qed.

(** * Hosts *)







(** ** What an allowlist permits is a host *)
















(** ** The run of a session *)






Section Runs.
Variables (url_valid : bytes -> bool) (h : HTTPHandler).














End Runs.

Lemma select_target_keeps h path : Target (select_target h path) = Target h /\ Allow (select_target h path) = Allow h /\
  dials (select_target h path) = dials h /\ (Target h <> [] -> connTarget (select_target h path) = Target h).
Proof. unfold select_target. destruct (Target h) eqn:E; [destruct (parseTargetFromPath path).1|]; by split_and!. Qed.



(** A target outside the allowlist is refused before anything is dialed. *)
Theorem refused_before_dial url_valid h path p :
  connTarget (select_target h path) <> [] -> PermitsTarget (Allow h) (connTarget (select_target h path)) = false ->
  OnConnect url_valid h path p = (select_target h path, NotAllowed (connTarget (select_target h path))) /\
  dials (select_target h path) = dials h.
Proof.
  intros Hne Hp. destruct (select_target_keeps h path) as (_ & EA & ED & _). split; [|done]. unfold OnConnect.
  rewrite EA. destruct (connTarget (select_target h path)) as [|c ct]; [done|]. by rewrite Hp.
Qed.

(** * Runs *)

Definition any_url (rest : bytes) : bool := true.
Definition plain_probe : probe := mkProbe None true true false true.
Definition get (pathname : bytes) : Request := mkRequest $"GET" pathname [] None.
Definition pinned : HTTPHandler := NewHTTPProxy $"localhost:8080" $"dev" $"bitba.ng" [] [mkEntry $"localhost" 8080].
Definition open_proxy (allow : List) : HTTPHandler := NewHTTPProxy [] $"dev" $"bitba.ng" [] allow.
Definition connected (h : HTTPHandler) (path : bytes) : HTTPHandler := (OnConnect any_url h path plain_probe).1.


Lemma refused_before_dial_witness :
  OnConnect any_url (open_proxy [mkEntry $"nas.local" 80]) $"/db.local:5432/x" plain_probe =
    (select_target (open_proxy [mkEntry $"nas.local" 80]) $"/db.local:5432/x", NotAllowed $"db.local:5432").
Proof.
  refine (proj1 (refused_before_dial any_url (open_proxy [mkEntry $"nas.local" 80]) $"/db.local:5432/x" plain_probe _ _)).
  - vm_compute. discriminate.
  - vm_compute. reflexivity.
Defined.

Lemma origin_headers_stamped_witness :
  upstream_headers pinned (mkRequest $"GET" $"/" [] (Some [($"x-FORWARDED-for", $"127.0.0.1")])) $"localhost:8080" !! $"X-Forwarded-For" = None.
Proof.
  rewrite (origin_headers_stamped pinned _ $"localhost:8080" $"X-Forwarded-For"); [vm_compute; reflexivity|].
  apply (bool_decide_unpack _). vm_compute. reflexivity.
Defined.

(** A request path that is no path: the pinned target becomes the user information of a URL. *)
Lemma pathname_escapes_pin :
  dials (proxyRequest any_url (connected pinned $"/") (get $"@db.local:5432/") []).1 = [$"localhost:8080"; $"db.local:5432"] /\
  PermitsTarget (Allow pinned) $"db.local:5432" = false.
Proof. split; vm_compute; reflexivity. Qed.

(** A request path that names another host, when no target is pinned: the allowlist is not asked. *)
Lemma request_escapes_allowlist :
  let h := open_proxy [mkEntry $"nas.local" 80] in
  dials (proxyRequest any_url (connected h $"/nas.local:80/") (get $"/db.local:5432/") []).1 = [$"nas.local:80"; $"db.local:5432"] /\
  PermitsTarget (Allow h) $"db.local:5432" = false.
Proof. split; vm_compute; reflexivity. Qed.

(** A connect path whose port is no number: the request that could not be built is used. *)
Lemma bad_target_panics : OnConnect any_url (open_proxy []) $"/foo:bar" plain_probe = (select_target (open_proxy []) $"/foo:bar", Panicked).
Proof. vm_compute. reflexivity. Qed.

(** Two ports of the pinned host that redirect to each other: the redirects are followed without end. *)
Lemma redirect_loop n :
  let h := connected (NewHTTPProxy $"nas:80" $"dev" $"bitba.ng" [] []) $"/" in
  length (dials (follow h $"nas:80" (concat (repeat [$"nas:81"; $"nas:82"] n)))) = (1 + 2 * n)%nat.
Proof.
  intros h. assert (forall n h, Target h = $"nas:80" -> Allow h = [] ->
    length (dials (follow h $"nas:80" (concat (repeat [$"nas:81"; $"nas:82"] n)))) = (length (dials h) + 2 * n)%nat) as H.
  { clear. induction n as [|n IH]; intros h Ht Ha; [cbn; lia|]. cbn [repeat concat app follow].
    assert (forall g host, Target g = $"nas:80" -> Allow g = [] -> host = $"nas:81" \/ host = $"nas:82" ->
      negb (bool_decide (host = [])) && negb (bool_decide (host = $"nas:80")) && allowRebind g host = true) as Hg.
    { intros g host Hgt Hga [->| ->]; unfold allowRebind; rewrite Hga, Hgt; vm_compute; reflexivity. }
    rewrite (Hg h) by auto. rewrite (Hg (dial $"nas:81" (rebind h $"nas:81"))) by auto.
    rewrite IH by done. cbn. rewrite !length_app. cbn. lia. }
  rewrite H by reflexivity. vm_compute (length (dials h)). lia.
Qed.
