(* ===== verification/WebSocket.v ===== *)
(** WebSocket streams (internal/streamtype/websocket.go) and [WriteFull] (internal/bytestream): one message
    travels as frames whose first byte, in the first frame only, is its type, all but the last marked MORE. *)

From S2P Require Import Prelude GoLib Protocol.

Definition TextMessage : Z := 1.
Definition BinaryMessage : Z := 2.

(** * The upstream connection *)

Inductive ws_error := NotConnected | MissingType | InvalidType (b : Z) | WriteFailed (message : bytes) | InvalidCount | NoProgress.

(** What the target got: whole messages, and the one its writer is on. *)
Record wsStream := mkWs {
  connected : bool;
  canceled : bool;
  writer : option (Z * bytes);
  messages : list (Z * bytes)
}.

#[export] Instance eta_wsStream : Eta wsStream := fun w => mkWs (connected w) (canceled w) (writer w) (messages w).

Section Writing.
(** How much of a chunk the connection takes, given what this message took before, and its error. *)
Variable take_some : bytes -> bytes -> Z * option bytes.

(** [WriteFull] from what is written so far; the measure is the rest. *)
Fixpoint WriteFull (fuel : nat) (written p : bytes) : bytes * option ws_error :=
  match p, fuel with
  | [], _ => (written, None)
  | _, O => (written, Some NoProgress)
  | _, S k =>
    let '(n, err) := take_some written p in
    if (n <? 0) || (n >? zlen p) then (written, Some InvalidCount) else
    let m := Z.to_nat n in
    let written1 := written ++ take m p in
    match err with
    | Some e => (written1, Some (WriteFailed e))
    | None => if n =? 0 then (written1, Some NoProgress) else WriteFull k written1 (drop m p)
    end
  end.

(** [next] is the error of NextWriter, [closing] that of closing the message's writer. *)
Definition writeFragment (ws : wsStream) (payload : bytes) (more : bool) (next closing : option bytes) : wsStream * option ws_error :=
  if negb (connected ws) then (ws, Some NotConnected) else
  let started :=
    match writer ws with
    | Some w => Ok (w, payload)
    | None =>
      match payload with
      | [] => Err MissingType
      | b :: data =>
        let z := code b in
        if (z =? 0) || (z =? 1) then
          match next with Some e => Err (WriteFailed e) | None => Ok ((if z =? 1 then BinaryMessage else TextMessage, []), data) end
        else Err (InvalidType z)
      end
    end in
  match started with
  | Err e => (ws, Some e)
  | Ok ((kind, written), data) =>
    let '(written1, err) := WriteFull (length data) written data in
    match err with
    | Some e => (ws <| writer := Some (kind, written1) |>, Some e)
    | None =>
      if more then (ws <| writer := Some (kind, written1) |>, None)
      else match closing with
           | Some e => (ws <| writer := None |>, Some (WriteFailed e))
           | None => (ws <| writer := None |> <| messages := messages ws ++ [(kind, written1)] |>, None)
           end
    end
  end.
End Writing.

Definition setConn (ws : wsStream) : wsStream * bool :=
  if canceled ws then (ws, false) else (ws <| connected := true |>, true).

(** [close]: a message that was not finished is ended by its writer's Close on a closed connection. *)
Definition close (ws : wsStream) : wsStream := ws <| canceled := true |> <| writer := None |>.

(** * The handler's table *)

Record WSHandler := mkHandler { streams : gmap Z nat; sockets : list wsStream }.

#[export] Instance eta_WSHandler : Eta WSHandler := fun h => mkHandler (streams h) (sockets h).

Definition NewWebSocket : WSHandler := mkHandler ∅ [].

Definition close_ref (h : WSHandler) (ref : nat) : WSHandler := h <| sockets := alter close ref (sockets h) |>.

(** [parsed]: the open request decoded. *)
Definition OnSYN (h : WSHandler) (id : Z) (parsed : bool) : WSHandler :=
  if negb parsed then h else
  let h1 := h <| streams := <[id := length (sockets h)]> (streams h) |> <| sockets := sockets h ++ [mkWs false false None []] |> in
  match streams h !! id with Some old => close_ref h1 old | None => h1 end.

Definition OnFragment (take_some : bytes -> bytes -> Z * option bytes) (h : WSHandler) (id : Z) (payload : bytes) (more : bool)
    (next closing : option bytes) : WSHandler * option ws_error :=
  match streams h !! id with
  | None => (h, None)
  | Some ref =>
    match sockets h !! ref with
    | None => (h, None)
    | Some ws =>
      let '(ws1, err) := writeFragment take_some ws payload more next closing in
      match err with
      | None => (h <| sockets := <[ref := ws1]> (sockets h) |>, None)
      | Some e => (h <| sockets := <[ref := close ws1]> (sockets h) |>, Some e)
      end
    end
  end.

Definition OnFIN (h : WSHandler) (id : Z) : WSHandler :=
  let h1 := h <| streams := delete id (streams h) |> in
  match streams h !! id with Some ref => close_ref h1 ref | None => h1 end.

Definition OnReset (h : WSHandler) (id : Z) : WSHandler := OnFIN h id.

Definition remove (h : WSHandler) (id : Z) (want : nat) : WSHandler :=
  if decide (streams h !! id = Some want) then h <| streams := delete id (streams h) |> else h.

(** * From the target to the stream *)

Inductive frame := Fragment (payload : bytes) (more : bool).

(** What is left of the buffer after the type byte. *)
Definition room (head : bytes) : nat := (Z.to_nat MaxChunkSize - length head)%nat.

(** The loop of [writeWSReader]. *)
Fixpoint fragments (fuel : nat) (head : bytes) (data : bytes) : list frame :=
  match fuel with
  | O => []
  | S k =>
    if (length data <=? room head)%nat then [Fragment (head ++ data) false]
    else Fragment (head ++ take (room head) data) true :: fragments k [] (drop (room head) data)
  end.

Definition writeWSReader (msgType : Z) (data : bytes) : list frame :=
  fragments (S (length data)) [chr (if msgType =? BinaryMessage then 1 else 0)] data.

(** Frames written one after another to a connected stream. *)
Fixpoint write_all (take_some : bytes -> bytes -> Z * option bytes) (ws : wsStream) (fs : list frame) : wsStream * option ws_error :=
  match fs with
  | [] => (ws, None)
  | Fragment p more :: rest =>
    match writeFragment take_some ws p more None None with
    | (ws1, None) => write_all take_some ws1 rest
    | r => r
    end
  end.

(** * WriteFull *)

(** A writer that takes between one byte and all of a chunk, and never fails. *)
Definition honest (take_some : bytes -> bytes -> Z * option bytes) : Prop :=
  forall w p, p <> [] -> exists n, take_some w p = (n, None) /\ 1 <= n <= zlen p.

Lemma WriteFull_prefix take_some k : forall p written, (length p <= k)%nat ->
  let '(w, err) := WriteFull take_some k written p in exists q, w = written ++ q /\ q `prefix_of` p /\ (err = None -> q = p).
Proof.
  induction k as [|k IH]; intros p written Hp; (destruct p as [|c p]; [exists []; by rewrite app_nil_r|]); [cbn in Hp; lia|].
  cbn [WriteFull]. set (s := c :: p) in *.
  assert (exists q, written = written ++ q /\ q `prefix_of` s /\ (@Some ws_error InvalidCount = None -> q = s)) as H0
    by (exists []; rewrite app_nil_r; split_and!; [done|by exists s|done]).
  destruct (take_some written s) as [n err]. destruct ((n <? 0) || (n >? zlen s)) eqn:En; [exact H0|].
  apply orb_false_iff in En as [En1 En2]. bool_to_prop. set (m := Z.to_nat n).
  destruct err as [e|]; [exists (take m s); split_and!; [done|apply prefix_take|done]|].
  destruct (n =? 0) eqn:Ez; [exists (take m s); split_and!; [done|apply prefix_take|done]|]. bool_to_prop.
  specialize (IH (drop m s) (written ++ take m s)). destruct (WriteFull take_some k (written ++ take m s) (drop m s)) as [w e].
  destruct IH as (q & -> & [t Ht] & Hq); [rewrite length_drop; unfold zlen in *; cbn in *; lia|]. exists (take m s ++ q). split_and!.
  - by rewrite app_assoc.
  - exists t. by rewrite <- app_assoc, <- Ht, take_drop.
  - intros ->%Hq. by rewrite take_drop.
Qed.

Lemma WriteFull_honest take_some k : honest take_some -> forall p written, (length p <= k)%nat ->
  WriteFull take_some k written p = (written ++ p, None).
Proof.
  intros Hh. induction k as [|k IH]; intros p written Hp; (destruct p as [|c p]; [cbn; by rewrite app_nil_r|]); [cbn in Hp; lia|].
  cbn [WriteFull]. set (s := c :: p) in *. destruct (Hh written s) as (n & -> & Hn); [done|].
  settle (n <? 0) false. settle (n >? zlen s) false. cbn [orb]. settle (n =? 0) false.
  rewrite IH; [by rewrite <- app_assoc, take_drop|]. rewrite length_drop. unfold zlen in Hn. cbn in *. lia.
Qed.

(** [WriteFull] terminates with everything written for every writer that makes progress, however short its
    writes; and whatever the writer does, what was written is a beginning of what was given, all of it when
    no error is returned. *)
Theorem WriteFull_total take_some written p :
  (honest take_some -> WriteFull take_some (length p) written p = (written ++ p, None)) /\
  (let '(w, err) := WriteFull take_some (length p) written p in
   exists q, w = written ++ q /\ q `prefix_of` p /\ (err = None -> q = p)).
Proof. split; [intros Hh; by apply WriteFull_honest|by apply WriteFull_prefix]. Qed.

(** * Messages *)

Definition frame_payload (f : frame) : bytes := match f with Fragment p _ => p end.
Definition frame_more (f : frame) : bool := match f with Fragment _ more => more end.

(** What [fragments] makes: bounded frames, MORE on all but the last, the data put together again. *)
Lemma fragments_shape fuel : forall head data, (length head <= 1)%nat -> (length data < fuel)%nat ->
  let fs := fragments fuel head data in
  concat (map frame_payload fs) = head ++ data /\ Forall (fun f => zlen (frame_payload f) <= MaxChunkSize) fs /\
  exists init last, fs = init ++ [last] /\ Forall (fun f => frame_more f = true) init /\ frame_more last = false.
Proof.
  induction fuel as [|k IH]; intros head data Hh Hd fs; [lia|]. subst fs. cbn [fragments].
  assert (1 <= room head /\ room head + length head = Z.to_nat MaxChunkSize)%nat as [Hr Hm] by (unfold room, MaxChunkSize; lia).
  revert Hr Hm. generalize (room head) as room. intros room Hr Hm. destruct (length data <=? room)%nat eqn:El.
  - apply Nat.leb_le in El. split_and!.
    + cbn. by rewrite app_nil_r.
    + constructor; [|constructor]. cbn. unfold zlen. rewrite length_app. unfold MaxChunkSize in *. lia.
    + by exists [], (Fragment (head ++ data) false).
  - apply Nat.leb_gt in El. destruct (IH [] (drop room data)) as (E & HF & init & last & Ei & Hi & Hl); [cbn; lia|rewrite length_drop; lia|].
    split_and!.
    + cbn [map concat frame_payload]. rewrite E. cbn [app]. by rewrite <- app_assoc, take_drop.
    + constructor; [|done]. cbn. unfold zlen. rewrite length_app, length_take. unfold MaxChunkSize in *. lia.
    + exists (Fragment (head ++ take room data) true :: init), last. rewrite Ei. split_and!; [done|by constructor|done].
Qed.

Lemma fragments_head k b data p more fs : fragments (S k) [b] data = Fragment p more :: fs -> exists p', p = b :: p'.
Proof. cbn [fragments]. destruct (_ <=? _)%nat; intros [= <- _ _]; by eexists. Qed.

Section Honest.
Variable take_some : bytes -> bytes -> Z * option bytes.
Hypothesis progress : honest take_some.

(** The frames of a message that is being written. *)
Lemma write_rest kind fs : forall ws written,
  connected ws = true -> writer ws = Some (kind, written) ->
  (exists init last, fs = init ++ [last] /\ Forall (fun f => frame_more f = true) init /\ frame_more last = false) ->
  write_all take_some ws fs =
    (ws <| writer := None |> <| messages := messages ws ++ [(kind, written ++ concat (map frame_payload fs))] |>, None).
Proof using progress.
  induction fs as [|[p more] fs IH]; intros ws written Hc Hw (init & last & E & Hi & Hl); [by destruct init|].
  cbn [write_all]. unfold writeFragment. rewrite Hc, Hw. cbn [negb]. rewrite WriteFull_honest by done.
  destruct init as [|f init].
  - cbn in E. injection E as <- ->. cbn in Hl. subst more. cbn [write_all map concat frame_payload]. by rewrite app_nil_r.
  - cbn in E. injection E as <- E. apply Forall_cons in Hi as [Hm Hi]. cbn in Hm. subst more.
    set (ws1 := ws <| writer := Some (kind, written ++ p) |>). rewrite (IH ws1 (written ++ p)); [|done|done|by exists init, last].
    cbn. by rewrite app_assoc.
Qed.

(** A message crosses the stream unchanged: the frames [writeWSReader] makes of it are each within the
    frame limit, all but the last marked MORE, and writing them to a connection gives back exactly one
    message, of the same type and with the same bytes. *)
Theorem ws_message_round_trip ws msgType data :
  connected ws = true -> writer ws = None -> msgType = TextMessage \/ msgType = BinaryMessage ->
  let fs := writeWSReader msgType data in
  write_all take_some ws fs = (ws <| messages := messages ws ++ [(msgType, data)] |>, None) /\
  Forall (fun f => zlen (frame_payload f) <= MaxChunkSize) fs /\
  exists init last, fs = init ++ [last] /\ Forall (fun f => frame_more f = true) init /\ frame_more last = false.
Proof using progress.
  intros Hc Hw Ht. cbv zeta. unfold writeWSReader. set (b := chr (if msgType =? BinaryMessage then 1 else 0)).
  destruct (fragments_shape (S (length data)) [b] data) as (E & HF & Hsh); [cbn; lia|lia|]. split; [|by split]. clear HF.
  destruct (fragments (S (length data)) [b] data) as [|[p more] fs'] eqn:Ef; [by destruct Hsh as ([] & ? & ? & _)|]. cbn [map concat frame_payload] in E.
  apply fragments_head in Ef as [p' ->]. cbn in E. injection E as E. cbn [write_all]. unfold writeFragment. rewrite Hc, Hw. cbn [negb].
  assert ((code b =? 0) || (code b =? 1) = true /\ (if code b =? 1 then BinaryMessage else TextMessage) = msgType) as [-> ->]
    by (subst b; destruct Ht as [->| ->]; split; reflexivity).
  rewrite WriteFull_honest by done. cbn [app]. destruct Hsh as (init & last & El & Hi & Hl). destruct init as [|f init].
  - cbn in El. injection El as <- ->. cbn in Hl. subst more. cbn in E. rewrite app_nil_r in E. subst p'. cbn. destruct ws; cbn in *; by subst.
  - cbn in El. injection El as <- El. apply Forall_cons in Hi as [Hm Hi]. cbn in Hm. subst more.
    set (ws1 := ws <| writer := Some (msgType, p') |>). rewrite (write_rest msgType fs' ws1 p'); [|done|done|by exists init, last].
    rewrite E. cbn. destruct ws; cbn in *; by subst.
Qed.
End Honest.

(** * Runs *)

(** A writer of at most two bytes at a time. *)
Definition short_writes (written p : bytes) : Z * option bytes := (Z.min 2 (zlen p), None).

Lemma short_writes_honest : honest short_writes.
Proof.
  intros w p Hp. exists (Z.min 2 (zlen p)). split; [done|]. destruct p as [|c p]; [done|]. rewrite zlen_cons. pose proof (zlen_nonneg p). lia.
Defined.

Lemma WriteFull_total_witness : WriteFull short_writes 5 [] $"hello" = ($"hello", None).
Proof. apply (proj1 (WriteFull_total short_writes [] $"hello")), short_writes_honest. Defined.

Lemma ws_message_round_trip_witness :
  write_all short_writes (mkWs true false None []) (writeWSReader BinaryMessage $"hello") =
    (mkWs true false None [(BinaryMessage, $"hello")], None).
Proof. apply (ws_message_round_trip short_writes short_writes_honest (mkWs true false None [])); [reflexivity|reflexivity|by right]. Defined.
