(* ===== verification/HttpLocal.v ===== *)
(** HTTP requests served in the process (internal/streamtype/http_local.go): the table of running requests
    with their body pipes, which internal/streamtype/http.go repeats, and the response writer. *)

From S2P Require Import Prelude GoLib Protocol Json.

(** * Running requests *)

Inductive pipe := PipeOpen | PipeEOF | PipeCanceled.

#[export] Instance pipe_eq_dec : EqDecision pipe.
Proof. solve_decision. Defined.

(** A request that runs: its body's pipe if it has one, what a Write of the pipe still blocks on, whether its
    context is canceled and whether its goroutine returned. *)
Record pending := mkPending { pw : option pipe; in_flight : bytes; canceled : bool; returned : bool }.

#[export] Instance eta_pending : Eta pending := fun p => mkPending (pw p) (in_flight p) (canceled p) (returned p).

Record HTTPStreams := mkStreams { streams : gmap Z nat; pendings : list pending }.

#[export] Instance eta_HTTPStreams : Eta HTTPStreams := fun h => mkStreams (streams h) (pendings h).

Definition NewHTTPStreams : HTTPStreams := mkStreams ∅ [].

Definition close (p : pending) : pending :=
  p <| canceled := true |> <| pw := match pw p with Some PipeOpen => Some PipeCanceled | x => x end |>.

Definition close_ref (h : HTTPStreams) (ref : nat) : HTTPStreams := h <| pendings := alter close ref (pendings h) |>.

(** Past the parsing of the request. *)
Definition OnSYN (h : HTTPStreams) (id : Z) (final : bool) : HTTPStreams :=
  let ps := mkPending (if final then None else Some PipeOpen) [] false false in
  let h1 := h <| streams := <[id := length (pendings h)]> (streams h) |> <| pendings := pendings h ++ [ps] |> in
  match streams h !! id with Some old => close_ref h1 old | None => h1 end.

Definition with_open_pipe (f : pending -> pending) (p : pending) : pending := if decide (pw p = Some PipeOpen) then f p else p.

Definition on_body (h : HTTPStreams) (id : Z) (f : pending -> pending) : HTTPStreams :=
  match streams h !! id with Some ref => h <| pendings := alter (with_open_pipe f) ref (pendings h) |> | None => h end.

(** As far as the pipe's Write blocks. *)
Definition OnDAT (h : HTTPStreams) (id : Z) (payload : bytes) : HTTPStreams :=
  match payload with [] => h | _ => on_body h id (fun p => p <| in_flight := payload |>) end.

(** Past the write of its payload. *)
Definition OnFIN (h : HTTPStreams) (id : Z) : HTTPStreams := on_body h id (fun p => p <| pw := Some PipeEOF |>).

Definition OnReset (h : HTTPStreams) (id : Z) : HTTPStreams :=
  let h1 := h <| streams := delete id (streams h) |> in
  match streams h !! id with Some ref => close_ref h1 ref | None => h1 end.

Definition finishStream (h : HTTPStreams) (id : Z) (want : nat) : HTTPStreams :=
  let h1 := if decide (streams h !! id = Some want) then h <| streams := delete id (streams h) |> else h in
  close_ref h1 want.

(** A request's goroutine returns, and a blocked Write ends: its bytes were read, or the pipe is closed. *)
Definition return_ref (h : HTTPStreams) (id : Z) (ref : nat) : HTTPStreams :=
  finishStream (h <| pendings := alter (fun p => p <| returned := true |>) ref (pendings h) |>) id ref.

Inductive http_step : HTTPStreams -> HTTPStreams -> Prop :=
| h_syn h id final : http_step h (OnSYN h id final)
| h_dat h id payload : http_step h (OnDAT h id payload)
| h_fin h id : http_step h (OnFIN h id)
| h_reset h id : http_step h (OnReset h id)
| h_read h ref n : http_step h (h <| pendings := alter (fun p => p <| in_flight := drop n (in_flight p) |>) ref (pendings h) |>)
| h_return h id ref p : pendings h !! ref = Some p -> returned p = false -> (streams h !! id = Some ref \/ canceled p = true) ->
    http_step h (return_ref h id ref).

(** * The response writer *)

Inductive reply := WriteSYN (payload : bytes) | WriteDAT (payload : bytes) | WriteFIN (payload : bytes).

Record swspResponseWriter := mkWriter {
  status : Z;
  headers : list (bytes * list bytes);
  headerSent : bool;
  closed : bool;
  writeErr : bool;
  out : list reply
}.

#[export] Instance eta_swspResponseWriter : Eta swspResponseWriter := fun w =>
  mkWriter (status w) (headers w) (headerSent w) (closed w) (writeErr w) (out w).

Definition new_writer : swspResponseWriter := mkWriter 200 [] false false false [].

Definition header_json (hs : list (bytes * list bytes)) : list (bytes * json) :=
  sort_by (fun a b => bytes_leb a.1 b.1) (hs ≫= fun '(k, v) =>
    match v with
    | [] => []
    | x :: _ => [(k, if (1 <? length v)%nat && bool_decide (k = $"Set-Cookie") then JArray (map JString v) else JString x)]
    end).

Definition response_meta (status : Z) (hs : list (bytes * list bytes)) : bytes :=
  print_json (JObject [($"headers", JObject (header_json hs)); ($"status", JInt status)]).

Definition error_meta (status : Z) : bytes := response_meta status [($"Content-Type", [$"text/plain"])].

Definition sendStreamError (status : Z) (message : bytes) : list reply :=
  WriteSYN (error_meta status) :: match message with [] => [] | _ => [WriteDAT message] end ++ [WriteFIN []].

Definition chunk_size : nat := Z.to_nat MaxChunkSize.

(** The pieces of a write. *)
Fixpoint pieces (fuel : nat) (p : bytes) : list bytes :=
  match fuel, p with
  | S k, _ :: _ => take chunk_size p :: pieces k (drop chunk_size p)
  | _, _ => []
  end.

Section Stream.
(** Whether the stream takes a frame, given all of them. *)
Variable takes : list reply -> bool.

Definition sendHeader (w : swspResponseWriter) : swspResponseWriter :=
  let meta := response_meta (status w) (headers w) in
  let w1 := w <| headerSent := true |> in
  match ValidateFramePayload meta with
  | Err _ => w1 <| writeErr := true |> <| closed := true |> <| out := out w ++ sendStreamError 502 $"Response headers are too large" |>
  | Ok _ =>
    let w2 := w1 <| out := out w ++ [WriteSYN meta] |> in
    if takes (out w2) then w2 else w2 <| writeErr := true |> <| closed := true |>
  end.

Definition WriteHeader (w : swspResponseWriter) (s : Z) : swspResponseWriter :=
  if headerSent w then w else sendHeader (w <| status := s |>).

Fixpoint send_pieces (w : swspResponseWriter) (ps : list bytes) : swspResponseWriter :=
  match ps with
  | [] => w
  | p :: rest =>
    let w1 := w <| out := out w ++ [WriteDAT p] |> in
    if takes (out w1) then send_pieces w1 rest else w1
  end.

(** [full]: the data channel stays full until the request is canceled. *)
Definition write (w : swspResponseWriter) (p : bytes) (full : bool) : swspResponseWriter :=
  let w1 := if headerSent w then w else sendHeader w in
  if writeErr w1 then w1 else
  match p with
  | [] => w1
  | _ => if full then w1 else send_pieces w1 (pieces (length p) p)
  end.

Definition Close (w : swspResponseWriter) : swspResponseWriter :=
  let w1 := if headerSent w then w else sendHeader w in
  if closed w1 then w1 else w1 <| closed := true |> <| out := out w1 ++ [WriteFIN []] |>.

(** What a handler does with its writer. *)
Inductive handler_call := SetHeader (k : bytes) (v : list bytes) | CallWriteHeader (s : Z) | CallWrite (p : bytes) (full : bool).

Definition call (w : swspResponseWriter) (c : handler_call) : swspResponseWriter :=
  match c with
  | SetHeader k v => w <| headers := filter (fun kv => kv.1 <> k) (headers w) ++ [(k, v)] |>
  | CallWriteHeader s => WriteHeader w s
  | CallWrite p full => write w p full
  end.

(** [dispatch]: the handler runs, then the response is closed. *)
Definition dispatch (cs : list handler_call) : swspResponseWriter := Close (foldl call new_writer cs).
End Stream.

(** * The specification of a response: its status and headers when the first byte or status is written, and its body *)

Record response := mkResponse { s_status : Z; s_headers : list (bytes * list bytes); s_started : bool; s_body : bytes }.

Definition spec_call (r : response) (c : handler_call) : response :=
  match c with
  | SetHeader k v =>
    if s_started r then r else mkResponse (s_status r) (filter (fun kv => kv.1 <> k) (s_headers r) ++ [(k, v)]) false (s_body r)
  | CallWriteHeader s => if s_started r then r else mkResponse s (s_headers r) true (s_body r)
  | CallWrite p _ => mkResponse (s_status r) (s_headers r) true (s_body r ++ p)
  end.

Definition specified (cs : list handler_call) : response := foldl spec_call (mkResponse 200 [] false []) cs.

(** * The table *)

Definition table_ok (h : HTTPStreams) : Prop :=
  (forall ref p, pendings h !! ref = Some p -> canceled p = true -> pw p <> Some PipeOpen) /\
  (forall ref p, pendings h !! ref = Some p -> returned p = true -> canceled p = true) /\
  (forall id ref, streams h !! id = Some ref -> exists p, pendings h !! ref = Some p /\ canceled p = false) /\
  (forall id id' ref, streams h !! id = Some ref -> streams h !! id' = Some ref -> id = id').

Lemma close_facts p : canceled (close p) = true /\ pw (close p) <> Some PipeOpen /\ returned (close p) = returned p.
Proof. unfold close. cbn. split_and!; [done| |done]. by destruct (pw p) as [[]|]. Qed.

(** An object that no stream names is closed. *)
Lemma table_close h ref : (forall id, streams h !! id <> Some ref) -> table_ok h -> table_ok (close_ref h ref).
Proof.
  intros Hno (H1 & H2 & H3 & H4). unfold close_ref. split_and!; cbn; [| | |done].
  - intros r p. destruct (decide (r = ref)) as [->|Hne]; [|rewrite list_lookup_alter_ne by done; by apply H1].
    rewrite list_lookup_alter_eq. intros (q & Hq & ->)%fmap_Some _. apply close_facts.
  - intros r p. destruct (decide (r = ref)) as [->|Hne]; [|rewrite list_lookup_alter_ne by done; by apply H2].
    rewrite list_lookup_alter_eq. intros (q & Hq & ->)%fmap_Some _. apply close_facts.
  - intros id r Hr. destruct (H3 id r Hr) as (p & Hp & Hc). exists p. split; [|done]. rewrite list_lookup_alter_ne; [done|]. intros ->. by apply (Hno id).
Qed.

Lemma table_alter h ref f :
  (forall p, canceled (f p) = canceled p /\ returned (f p) = returned p /\ (pw p <> Some PipeOpen -> pw (f p) <> Some PipeOpen)) ->
  table_ok h -> table_ok (h <| pendings := alter f ref (pendings h) |>).
Proof.
  intros Hf (H1 & H2 & H3 & H4). split_and!; cbn; [| | |done].
  - intros r p. destruct (decide (r = ref)) as [->|Hne]; [|rewrite list_lookup_alter_ne by done; by apply H1].
    rewrite list_lookup_alter_eq. intros (q & Hq & ->)%fmap_Some Hc. destruct (Hf q) as (E1 & E2 & E3). apply E3, (H1 _ _ Hq). congruence.
  - intros r p. destruct (decide (r = ref)) as [->|Hne]; [|rewrite list_lookup_alter_ne by done; by apply H2].
    rewrite list_lookup_alter_eq. intros (q & Hq & ->)%fmap_Some Hc. destruct (Hf q) as (E1 & E2 & E3). rewrite E1. apply (H2 _ _ Hq). congruence.
  - intros id r Hr. destruct (H3 id r Hr) as (p & Hp & Hc). destruct (decide (r = ref)) as [->|Hne].
    + exists (f p). rewrite list_lookup_alter_eq, Hp. split; [done|]. destruct (Hf p) as (E1 & _). congruence.
    + exists p. by rewrite list_lookup_alter_ne.
Qed.

Lemma table_delete h id : table_ok h -> table_ok (h <| streams := delete id (streams h) |>).
Proof.
  intros (H1 & H2 & H3 & H4). split_and!; cbn; try done.
  - intros i r [_ Hr]%lookup_delete_Some. by apply (H3 i).
  - intros i j r [_ Hi]%lookup_delete_Some [_ Hj]%lookup_delete_Some. by apply (H4 i j r).
Qed.

Lemma table_step h h' : http_step h h' -> table_ok h -> table_ok h'.
Proof.
  intros Hst Ht. pose proof Ht as (H1 & H2 & H3 & H4). destruct Hst as [h id final|h id payload|h id|h id|h ref n|h id ref p Hp Hr Hd].
  - unfold OnSYN. set (ps := mkPending _ _ _ _). set (h1 := _ <| pendings := _ |>).
    assert (forall i r, streams h1 !! i = Some r -> (i = id /\ r = length (pendings h)) \/ (i <> id /\ streams h !! i = Some r /\ (r < length (pendings h))%nat)) as Hs.
    { intros i r. cbn. intros [[<- <-]|[Hne Hi]]%lookup_insert_Some; [by left|right]. destruct (H3 _ _ Hi) as (p & Hp & _). by apply lookup_lt_Some in Hp. }
    assert (table_ok h1) as T1.
    { split_and!.
      - cbn. intros r p [Hr|(_ & Hr)]%lookup_app_Some; [by eapply H1|]. by apply list_lookup_singleton_Some in Hr as [_ <-].
      - cbn. intros r p [Hr|(_ & Hr)]%lookup_app_Some; [by eapply H2|]. by apply list_lookup_singleton_Some in Hr as [_ <-].
      - intros i r [[-> ->]|(_ & Hi & Hlt)]%Hs; cbn.
        + exists ps. by rewrite lookup_app_r, Nat.sub_diag.
        + destruct (H3 _ _ Hi) as (p & Hp & ?). exists p. by rewrite lookup_app_l.
      - intros i j r [[-> Hr]|(Hi & Hi' & Hlt)]%Hs [[-> Hr']|(Hj & Hj' & Hlt')]%Hs; try done; try lia. by apply (H4 i j r). }
    destruct (streams h !! id) as [old|] eqn:Eo; [|done]. apply table_close; [|done]. intros i [[-> ->]|(Hi & Hi' & _)]%Hs.
    + destruct (H3 _ _ Eo) as (p & Hp & _). apply lookup_lt_Some in Hp. lia.
    + apply Hi. by apply (H4 i id old).
  - unfold OnDAT, on_body. destruct payload; [done|]. destruct (streams h !! id); [|done]. apply table_alter; [|done].
    intros p. unfold with_open_pipe. case_decide; split_and!; cbn; congruence.
  - unfold OnFIN, on_body. destruct (streams h !! id); [|done]. apply table_alter; [|done]. intros p. unfold with_open_pipe. case_decide; split_and!; cbn; congruence.
  - unfold OnReset. destruct (streams h !! id) as [ref|] eqn:E; [|by apply table_delete]. apply table_close; [|by apply table_delete].
    cbn. intros i [Hne Hi]%lookup_delete_Some. apply Hne. by apply (H4 id i ref).
  - by apply table_alter.
  - unfold return_ref, finishStream. set (h0 := h <| pendings := _ |>). set (h1 := if decide _ then _ else _).
    assert (forall i, streams h1 !! i <> Some ref) as Hno.
    { intros i. subst h1 h0. cbn. case_decide as E; cbn.
      - intros [Hne Hi]%lookup_delete_Some. apply Hne. by apply (H4 id i ref).
      - intros Hi. destruct Hd as [?|Hc]; [done|]. destruct (H3 _ _ Hi) as (q & Hq & Hcq). congruence. }
    assert (pendings h1 = alter (fun p => p <| returned := true |>) ref (pendings h) /\ forall i r, streams h1 !! i = Some r -> streams h !! i = Some r) as [Ep Es].
    { clear Hno. subst h1 h0. case_decide; (split; [done|]); cbn; intros i r Hi; [by apply lookup_delete_Some in Hi as [_ ?]|exact Hi]. }
    clearbody h1. unfold close_ref. split_and!; cbn; rewrite ?Ep, <- ?list_alter_compose.
    + intros r q. destruct (decide (r = ref)) as [->|Hne]; [|rewrite !list_lookup_alter_ne by done; by apply H1].
      rewrite !list_lookup_alter_eq. intros (x & _ & ->)%fmap_Some _. apply close_facts.
    + intros r q. destruct (decide (r = ref)) as [->|Hne]; [|rewrite !list_lookup_alter_ne by done; by apply H2].
      rewrite !list_lookup_alter_eq. intros (x & _ & ->)%fmap_Some _. apply close_facts.
    + intros i r Hi. destruct (H3 i r (Es _ _ Hi)) as (q & Hq & Hc). exists q. split; [|done]. rewrite !list_lookup_alter_ne; [done|intros ->; by apply (Hno i)..].
    + intros i j r Hi Hj. by apply (H4 i j r); apply Es.
Qed.

(** A reset ends its request: in every state the request handlers reach, each stream in the table names one
    running request that is not canceled, and a reset takes the stream out of the table, cancels the request
    and closes its body, so that no Write of the body blocks any longer. *)
Theorem reset_ends_request h id :
  steps http_step NewHTTPStreams h ->
  (forall i ref, streams h !! i = Some ref -> exists p, pendings h !! ref = Some p /\ canceled p = false /\ returned p = false) /\
  streams (OnReset h id) !! id = None /\
  (forall ref, streams h !! id = Some ref -> exists p, pendings (OnReset h id) !! ref = Some p /\ canceled p = true /\ pw p <> Some PipeOpen).
Proof.
  intros Hs. assert (table_ok h) as (H1 & H2 & H3 & H4).
  { refine (steps_invariant _ table_ok _ _ _ Hs _); [intros a b Ha Hab; by eapply table_step|]. by split_and!. }
  split_and!.
  - intros i ref Hi. destruct (H3 _ _ Hi) as (p & Hp & Hc). exists p. split_and!; [done|done|]. destruct (returned p) eqn:Er; [|done]. by rewrite (H2 _ _ Hp Er) in Hc.
  - unfold OnReset. destruct (streams h !! id); cbn; apply lookup_delete_eq.
  - intros ref Hr. destruct (H3 _ _ Hr) as (p & Hp & Hc). unfold OnReset. rewrite Hr. cbn. rewrite list_lookup_alter_eq, Hp.
    exists (close p). split; [done|]. split; apply close_facts.
Qed.

(** * Responses *)

Lemma chunk_size_spec : (1 <= chunk_size)%nat /\ Z.of_nat chunk_size = MaxChunkSize.
Proof. unfold chunk_size, MaxChunkSize. lia. Qed.

#[local] Opaque chunk_size MaxChunkSize print_json.

Lemma pieces_spec fuel : forall p, (length p <= fuel)%nat ->
  concat (pieces fuel p) = p /\ Forall (fun c => c <> [] /\ zlen c <= MaxChunkSize) (pieces fuel p).
Proof.
  destruct chunk_size_spec as [Hm Hz]. induction fuel as [|k IH]; intros p Hp; (destruct p as [|c p]; [split; [done|constructor]|]); [cbn in Hp; lia|].
  cbn [pieces]. set (s := c :: p) in *. destruct (IH (drop chunk_size s)) as [E HF]; [rewrite length_drop; cbn in *; lia|].
  cbn [concat]. rewrite E, take_drop. split; [done|]. constructor; [|done]. split.
  - subst s. destruct chunk_size; [lia|done].
  - unfold zlen. rewrite length_take. lia.
Qed.

Definition always (l : list reply) : bool := true.

Lemma send_pieces_always w ps : send_pieces always w ps = w <| out := out w ++ map WriteDAT ps |>.
Proof.
  revert w. induction ps as [|p ps IH]; intros w; [by destruct w; cbn; rewrite app_nil_r|]. cbn [send_pieces always map].
  rewrite IH. cbn. by rewrite <- app_assoc.
Qed.

Definition fits (r : response) : Prop := zlen (response_meta (s_status r) (s_headers r)) <= MaxChunkSize.

(** The writer as the specification sees it. *)
Definition shows (w : swspResponseWriter) (r : response) : Prop :=
  headerSent w = s_started r /\ writeErr w = false /\ closed w = false /\
  if s_started r
  then exists chunks, out w = WriteSYN (response_meta (s_status r) (s_headers r)) :: map WriteDAT chunks /\ concat chunks = s_body r /\
         Forall (fun c => c <> [] /\ zlen c <= MaxChunkSize) chunks
  else out w = [] /\ status w = s_status r /\ headers w = s_headers r /\ s_body r = [].

Lemma spec_frozen cs : forall r, s_started r = true ->
  s_status (foldl spec_call r cs) = s_status r /\ s_headers (foldl spec_call r cs) = s_headers r.
Proof.
  induction cs as [|c cs IH]; intros r Hr; [done|]. cbn [foldl]. destruct c as [k v|s|p full]; cbn [spec_call]; rewrite ?Hr; try by apply IH.
  apply (IH (mkResponse (s_status r) (s_headers r) true (s_body r ++ p)) eq_refl).
Qed.

Lemma sendHeader_shows w r : s_started r = false -> shows w r -> fits r ->
  sendHeader always w = w <| headerSent := true |> <| out := [WriteSYN (response_meta (s_status r) (s_headers r))] |>.
Proof.
  unfold shows, fits. intros -> (_ & _ & _ & Ho & Hs & Hh & _) Hf. unfold sendHeader, ValidateFramePayload. rewrite Hs, Hh, Ho.
  generalize dependent (response_meta (s_status r) (s_headers r)). intros m Hf. rewrite Z.gtb_ltb, (proj2 (Z.ltb_ge _ _)) by lia. done.
Qed.

Lemma call_shows w r c : shows w r -> (forall p, c <> CallWrite p true) -> (s_started (spec_call r c) = true -> fits (spec_call r c)) ->
  shows (call always w c) (spec_call r c).
Proof.
  intros Hsh Hc Hf. pose proof Hsh as (H1 & H2 & H3 & H4). destruct c as [k v|s|p full]; cbn [call spec_call] in *.
  - destruct (s_started r) eqn:Es; unfold shows; cbn; rewrite ?Es; [by split_and!|]. destruct H4 as (Ho & Hs & Hh & Hb). split_and!; try done. by rewrite Hh.
  - unfold WriteHeader. rewrite H1. destruct (s_started r) eqn:Es; [by rewrite <- Es in *|].
    set (r1 := mkResponse s (s_headers r) true (s_body r)) in *. set (w0 := w <| status := s |>).
    destruct H4 as (Ho & Hs & Hh & Hb). rewrite (sendHeader_shows w0 (mkResponse s (s_headers r) false [])); [|done|by split_and!|by apply Hf].
    split_and!; try done. cbn. exists []. by rewrite Hb.
  - destruct full; [by destruct (Hc p)|]. specialize (Hf eq_refl). unfold write. rewrite H1. set (r1 := mkResponse _ _ true _) in *.
    assert (exists w1 chunks, (if s_started r then w else sendHeader always w) = w1 /\ headerSent w1 = true /\ writeErr w1 = false /\ closed w1 = false /\
      out w1 = WriteSYN (response_meta (s_status r) (s_headers r)) :: map WriteDAT chunks /\ concat chunks = s_body r /\
      Forall (fun c => c <> [] /\ zlen c <= MaxChunkSize) chunks) as (w1 & chunks & -> & E1 & E2 & E3 & E4 & E5 & E6).
    { destruct (s_started r) eqn:Es.
      - destruct H4 as (chunks & ? & ? & ?). exists w, chunks. by split_and!.
      - rewrite (sendHeader_shows w r Es Hsh Hf). eexists _, []. destruct H4 as (_ & _ & _ & ->). by split_and!. }
    rewrite E2. destruct p as [|a p].
    + split_and!; try done. exists chunks. cbn. by rewrite app_nil_r.
    + rewrite send_pieces_always. destruct (pieces_spec (length (a :: p)) (a :: p) ltac:(done)) as [Ep Fp].
      split_and!; try done. exists (chunks ++ pieces (length (a :: p)) (a :: p)). split_and!.
      * cbn [out upd]. rewrite E4, map_app. done.
      * rewrite concat_app, E5, Ep. done.
      * by apply Forall_app.
Qed.

Lemma calls_show cs : forall w r, shows w r -> Forall (fun c => forall p, c <> CallWrite p true) cs ->
  fits (foldl spec_call r cs) -> shows (foldl (call always) w cs) (foldl spec_call r cs).
Proof.
  induction cs as [|c cs IH]; intros w r Hsh Hcs Hf; [done|]. apply Forall_cons in Hcs as [Hc Hcs]. cbn [foldl] in *.
  apply IH; [|done|done]. apply call_shows; [done|done|]. intros Hs. destruct (spec_frozen cs _ Hs) as [E1 E2]. unfold fits in *. by rewrite <- E1, <- E2.
Qed.

(** The response writer implements an HTTP response: whatever calls a handler makes, in whatever order,
    the stream gets one SYN with the status and the headers as they were when the response began, then the
    body in frames within the frame limit, exactly the bytes written in their order, then one FIN. *)
Theorem response_refines cs :
  Forall (fun c => forall p, c <> CallWrite p true) cs -> fits (specified cs) ->
  exists chunks, out (dispatch always cs) =
    WriteSYN (response_meta (s_status (specified cs)) (s_headers (specified cs))) :: map WriteDAT chunks ++ [WriteFIN []] /\
  concat chunks = s_body (specified cs) /\ Forall (fun c => c <> [] /\ zlen c <= MaxChunkSize) chunks.
Proof.
  intros Hcs Hf. unfold dispatch, specified in *. assert (shows new_writer (mkResponse 200 [] false [])) as H0 by (by split_and!).
  pose proof (calls_show cs _ _ H0 Hcs Hf) as Hsh. set (w := foldl (call always) _ cs) in *. set (r := foldl spec_call _ cs) in *. clearbody w r.
  pose proof Hsh as (H1 & H2 & H3 & H4). unfold Close. rewrite H1. destruct (s_started r) eqn:Es.
  - rewrite H3. destruct H4 as (chunks & E & Ec & Fc). exists chunks. cbn. by rewrite E.
  - rewrite (sendHeader_shows w r Es Hsh Hf). cbn. rewrite H3. destruct H4 as (_ & _ & _ & ->). exists []. by split_and!.
Qed.

(** * Runs *)

Definition sample_calls : list handler_call :=
  [SetHeader $"Content-Type" [$"text/plain"]; CallWriteHeader 404; SetHeader $"X" [$"late"]; CallWrite $"not " false; CallWrite $"found" false].

Lemma response_refines_witness :
  exists chunks, out (dispatch always sample_calls) =
    WriteSYN (response_meta 404 [($"Content-Type", [$"text/plain"])]) :: map WriteDAT chunks ++ [WriteFIN []] /\ concat chunks = $"not found".
Proof.
  destruct (response_refines sample_calls) as (chunks & E & Ec & _).
  - repeat constructor; discriminate.
  - apply Z.leb_le. vm_compute. reflexivity.
  - exists chunks. split; [exact E|exact Ec].
Defined.

Lemma reset_ends_request_witness :
  let h := OnDAT (OnSYN NewHTTPStreams 1 false) 1 $"body" in
  streams h !! 1 = Some 0%nat /\ exists p, pendings (OnReset h 1) !! 0%nat = Some p /\ canceled p = true /\ pw p <> Some PipeOpen.
Proof.
  split; [vm_compute; reflexivity|].
  refine (proj2 (proj2 (reset_ends_request (OnDAT (OnSYN NewHTTPStreams 1 false) 1 $"body") 1 _)) 0%nat _).
  - eapply steps_cons; [apply (h_syn _ 1 false)|]. apply steps_one, (h_dat _ 1 $"body").
  - vm_compute. reflexivity.
Defined.
