(* ===== verification/Shell.v ===== *)
(** Shell streams (internal/streamtype/shell.go): the admission of shells across sessions, the start of a
    process, its input and its end; and the connector's side (internal/client/shellops.go).

    Handlers, shell sessions and admissions live in stores. A call of [OnSYN] holds no lock between its
    sections, so it is a sequence of steps, and [opening] holds where each call is; [tasks] holds the
    goroutines that end shells early. What the platform answers is an argument of the step. *)

From S2P Require Import Prelude GoLib Protocol Json.

(** * Requests *)

Record shellOpen := mkOpen { Argv : list bytes; PTY : bool; Cols : Z; Rows : Z; Env : gmap bytes bytes; Cwd : bytes }.

Definition decode_env : decoder (gmap bytes bytes) := fun old j =>
  match j with
  | JObject ms => foldl (fun '(m, ok) '(k, x) => let '(v, ok') := decode_string [] x in (<[k := v]> m, ok && ok')) (old, true) ms
  | JNull => (∅, true)
  | _ => (old, false)
  end.

Definition decode_open (payload : bytes) : option shellOpen :=
  match parse_json payload with
  | None => None
  | Some j =>
    let '(_, ok0) := field decode_string [] $"type" j in
    let '(argv, ok1) := field decode_strings [] $"argv" j in
    let '(pty, ok2) := field decode_bool false $"pty" j in
    let '(cols, ok3) := field decode_int 0 $"cols" j in
    let '(rows, ok4) := field decode_int 0 $"rows" j in
    let '(env, ok5) := field decode_env ∅ $"env" j in
    let '(cwd, ok6) := field decode_string [] $"cwd" j in
    if ok0 && ok1 && ok2 && ok3 && ok4 && ok5 && ok6 then Some (mkOpen argv pty cols rows env cwd) else None
  end.

(** * State *)

(** [evict]: the session whose end it is. *)
Record shellAdmission := mkAdmission { evict : option nat; protected : bool }.

#[export] Instance eta_shellAdmission : Eta shellAdmission := fun a => mkAdmission (evict a) (protected a).

Record ShellHandler := mkShell {
  ForcedArgv : list bytes;
  ForcedEnv : option (list bytes);
  OwnerCredential : bool;
  ViewOnly : bool;
  AcquireSlot : bool;
  MaxConcurrent : Z;
  streams : gmap Z nat;
  closed : bool
}.

#[export] Instance eta_ShellHandler : Eta ShellHandler := fun h =>
  mkShell (ForcedArgv h) (ForcedEnv h) (OwnerCredential h) (ViewOnly h) (AcquireSlot h) (MaxConcurrent h) (streams h) (closed h).

(** What a shell holds while it runs, by the call that took it: nothing, the caller's slot, a place in the
    process-wide list. *)
Inductive slot := NoSlot | Callers | Listed (adm : nat).

(** An inherited environment and what the request adds to it. *)
Record command := mkCommand { argv : list bytes; env : list bytes; added : gmap bytes bytes; dir : bytes }.

Inductive exit_status := Exited (code : Z) | Signaled (code : Z) (signal : bytes) | Unknown.

(** [waitAndFinish] from its Wait on. *)
Inductive life := Starting | Waiting | Detached | Released_ | Finished.

Record shellSession := mkSession {
  handler : nat;
  stream : Z;
  call : nat;
  holds : slot;
  cmd : command;
  terminal : option (Z * Z);     (* the PTY and its size *)
  stdin : bool;                  (* the stdin pipe *)
  input : bytes;
  signals : list bytes;
  hangups : nat;
  killed : bool;
  exited : option exit_status;
  cancelled : bool;
  pumps : list Z;
  at_ : life
}.

#[export] Instance eta_shellSession : Eta shellSession := fun s =>
  mkSession (handler s) (stream s) (call s) (holds s) (cmd s) (terminal s) (stdin s) (input s) (signals s) (hangups s)
    (killed s) (exited s) (cancelled s) (pumps s) (at_ s).

Inductive stage := Displacing (adm : nat) | Ready | Spawned (s : nat).

(** A call of [OnSYN] past its admission. *)
Record opening_call := mkOpening { c_handler : nat; c_stream : Z; c_open : shellOpen; c_final : bool; c_slot : slot; c_stage : stage }.

#[export] Instance eta_opening_call : Eta opening_call := fun o =>
  mkOpening (c_handler o) (c_stream o) (c_open o) (c_final o) (c_slot o) (c_stage o).

Inductive reply := WriteSYN (payload : bytes) | WriteDAT (payload : bytes) | WriteFIN (payload : bytes).

(** A frame of a stream, by the session that sends it once there is one; what a pump reads; the end of a
    call's hold on its slot. *)
Inductive event :=
| Reply (h : nat) (id : Z) (s : option nat) (r : reply)
| Output (s : nat) (tag : Z) (chunk : bytes)
| Released (call : nat).

Inductive task := Evict (s : nat) | Terminate (s : nat) | Reap (ss : list nat).

Record Shells := mkShells {
  admissions : list shellAdmission;
  live : list nat;
  handlers : list ShellHandler;
  sessions : list shellSession;
  opening : gmap nat opening_call;
  calls : nat;
  tasks : list task;
  log : list event
}.

#[export] Instance eta_Shells : Eta Shells := fun w =>
  mkShells (admissions w) (live w) (handlers w) (sessions w) (opening w) (calls w) (tasks w) (log w).

Definition start (hs : list ShellHandler) : Shells := mkShells [] [] hs [] ∅ 0 [] [].

Definition NewShell (argv : list bytes) : ShellHandler := mkShell argv None false false false 0 ∅ false.

Definition emit (e : event) (w : Shells) : Shells := w <| log := log w ++ [e] |>.
Definition spawn (t : task) (w : Shells) : Shells := w <| tasks := tasks w ++ [t] |>.
Definition on_session (s : nat) (f : shellSession -> shellSession) (w : Shells) : Shells := w <| sessions := alter f s (sessions w) |>.

Definition sendShellError (w : Shells) (h : nat) (id : Z) (s : option nat) (msg : bytes) : Shells :=
  emit (Reply h id s (WriteFIN [])) (emit (Reply h id s (WriteSYN (print_json (JObject [($"error", JString msg)])))) w).

(** * Admission *)

Definition is_protected (w : Shells) (a : nat) : bool := match admissions w !! a with Some x => protected x | None => false end.

Definition oldestDisplaceable (w : Shells) (owner : bool) : option nat :=
  fst <$> list_find (fun a => owner || negb (is_protected w a) = true) (live w).

(** The new admission, and the one displaced. *)
Definition admission (w : Shells) (max : Z) (owner : bool) : Shells * option (nat * option nat) :=
  let adm := length (admissions w) in
  let enter l w := w <| admissions := admissions w ++ [mkAdmission None owner] |> <| live := l ++ [adm] |> in
  if (0 <? max) && (max <=? zlen (live w)) then
    match oldestDisplaceable w owner with
    | None => (w, None)
    | Some i => (enter (delete i (live w)) w, Some (adm, live w !! i))
    end
  else (enter (live w) w, Some (adm, None)).

Definition release (w : Shells) (a : nat) : Shells :=
  match list_find (fun x => x = a) (live w) with
  | Some (i, _) => w <| live := delete i (live w) |>
  | None => w
  end.

Definition setEvict (w : Shells) (a s : nat) : Shells := w <| admissions := alter (fun x => x <| evict := Some s |>) a (admissions w) |>.

Definition release_slot (w : Shells) (c : nat) (x : slot) : Shells :=
  emit (Released c) match x with Listed a => release w a | _ => w end.

(** * OnSYN *)

Definition begin (w : Shells) (o : opening_call) : Shells :=
  w <| opening := <[calls w := o]> (opening w) |> <| calls := S (calls w) |>.

(** As far as the slot. [acquired]: what the caller's policy says, [bad] the text of a decoding error. *)
Definition syn_admit (w : Shells) (h : nat) (id : Z) (payload : bytes) (final : bool) (acquired : option bytes) (bad : bytes) : Shells :=
  match handlers w !! h with
  | None => w
  | Some H =>
    match decode_open payload with
    | None => sendShellError w h id None ($"bad shell request: " ++ bad)
    | Some o =>
      if AcquireSlot H then
        match acquired with
        | Some msg => sendShellError w h id None msg
        | None => begin w (mkOpening h id o final Callers Ready)
        end
      else if 0 <? MaxConcurrent H then
        match admission w (MaxConcurrent H) (OwnerCredential H) with
        | (w1, None) => sendShellError w1 h id None $"the device owner is using the shell; try again later"
        | (w1, Some (a, displaced)) =>
          begin w1 (mkOpening h id o final (Listed a) match displaced with Some d => Displacing d | None => Ready end)
        end
      else begin w (mkOpening h id o final NoSlot Ready)
    end
  end.

Definition set_stage (w : Shells) (c : nat) (x : stage) : Shells :=
  w <| opening := alter (fun o => o <| c_stage := x |>) c (opening w) |>.

(** [evictFunc], and the goroutine it starts. *)
Definition syn_evict (w : Shells) (c : nat) : option Shells :=
  match opening w !! c with
  | Some o =>
    match c_stage o with
    | Displacing d =>
      let w1 := set_stage w c Ready in
      Some match admissions w !! d with
           | Some a => match evict a with Some s => spawn (Evict s) w1 | None => w1 end
           | None => w1
           end
    | _ => None
    end
  | None => None
  end.

(** [OnSYN] returns early: the deferred release runs. *)
Definition refuse (w : Shells) (c : nat) (o : opening_call) (msg : bytes) : Shells :=
  let w1 := sendShellError w (c_handler o) (c_stream o) None msg in
  release_slot (w1 <| opening := delete c (opening w) |>) c (c_slot o).

Section Platform.
(** The listener's environment, and its $SHELL. *)
Variable Environ : list bytes.
Variable SHELL : bytes.

Definition defaultShellArgv : list bytes := match SHELL with [] => [$"/bin/sh"] | s => [s] end.

Definition restricted (H : ShellHandler) : bool := negb (bool_decide (ForcedArgv H = [])).

Definition command_of (H : ShellHandler) (o : shellOpen) : command :=
  let argv := match ForcedArgv H with [] => match Argv o with [] => defaultShellArgv | l => l end | l => l end in
  if restricted H then mkCommand argv (default Environ (ForcedEnv H)) ∅ [] else mkCommand argv Environ (Env o) (Cwd o).

(** The process starts and is registered, or why not ([failed]). *)
Definition syn_spawn (w : Shells) (c : nat) (failed : option bytes) : option Shells :=
  match opening w !! c with
  | None => None
  | Some o =>
    match c_stage o, handlers w !! c_handler o with
    | Ready, Some H =>
      Some (
        if restricted H && negb (bool_decide (Argv (c_open o) = [])) then
          refuse w c o ($"this listener runs a fixed command and does not accept one (it runs: " ++ join $" " (ForcedArgv H) ++ $")")
        else if closed H then refuse w c o $"connection is closed"
        else match streams H !! c_stream o with
        | Some _ => refuse w c o $"a shell is already open on this stream"
        | None =>
          match failed with
          | Some msg => refuse w c o msg
          | None =>
            let size := (if Cols (c_open o) =? 0 then 80 else Cols (c_open o), if Rows (c_open o) =? 0 then 24 else Rows (c_open o)) in
            let pty := PTY (c_open o) in
            let s := length (sessions w) in
            let x := mkSession (c_handler o) (c_stream o) c (c_slot o) (command_of H (c_open o)) (if pty then Some size else None) (negb pty)
                       [] [] 0 false None false [] Starting in
            set_stage (w <| sessions := sessions w ++ [x] |>
                         <| handlers := <[c_handler o := H <| streams := <[c_stream o := s]> (streams H) |>]> (handlers w) |>) c (Spawned s)
          end
        end)
    | _, _ => None
    end
  end.

Definition lookup_session (w : Shells) (h : nat) (id : Z) : option nat :=
  match handlers w !! h with Some H => streams H !! id | None => None end.

Definition closeInput (s : shellSession) : shellSession := s <| stdin := false |>.

Definition closeStdin (w : Shells) (h : nat) (id : Z) : Shells :=
  match lookup_session w h id with Some s => on_session s closeInput w | None => w end.

Definition view_only (w : Shells) (h : nat) : bool := match handlers w !! h with Some H => ViewOnly H | None => false end.

Definition stdout_tag : Z := 1.
Definition stderr_tag : Z := 2.

(** The rest of [OnSYN]: the evict function, the pumps and the wait. *)
Definition syn_register (w : Shells) (c : nat) : option Shells :=
  match opening w !! c with
  | None => None
  | Some o =>
    match c_stage o with
    | Spawned s =>
      let w1 := match c_slot o with Listed a => setEvict w a s | _ => w end in
      let w2 := on_session s (fun x => x <| pumps := match terminal x with Some _ => [stdout_tag] | None => [stdout_tag; stderr_tag] end |> <| at_ := Waiting |>) w1 in
      let w3 := w2 <| opening := delete c (opening w) |> in
      Some (if c_final o && negb (view_only w (c_handler o)) then closeStdin w3 (c_handler o) (c_stream o) else w3)
    | _ => None
    end
  end.

(** * Input *)

Definition signalFromName (name : bytes) : option bytes :=
  let base := TrimPrefix name $"SIG" in
  if bool_decide (base ∈ [$"INT"; $"TERM"; $"QUIT"; $"HUP"; $"USR1"; $"USR2"; $"KILL"]) then Some base else None.

Definition writeInput (body : bytes) (s : shellSession) : shellSession :=
  match terminal s with
  | Some _ => s <| input := input s ++ body |>
  | None => if stdin s then s <| input := input s ++ body |> else s
  end.

Definition resize (cols rows : Z) (s : shellSession) : shellSession :=
  match terminal s with Some _ => s <| terminal := Some (cols, rows) |> | None => s end.

Definition OnDAT (w : Shells) (h : nat) (id : Z) (payload : bytes) : Shells :=
  match payload with
  | [] => w
  | tag :: body =>
    match lookup_session w h id with
    | None => w
    | Some s =>
      if code tag =? 0 then (if view_only w h then w else on_session s (writeInput body) w)
      else if code tag =? 3 then
        if view_only w h then w else
        match signalFromName body with Some sig => on_session s (fun x => x <| signals := signals x ++ [sig] |>) w | None => w end
      else if code tag =? 4 then
        if (length body <? 4)%nat then w
        else on_session s (resize (get_le (take 2 body)) (get_le (take 2 (drop 2 body)))) w
      else w
    end
  end.

Definition OnFIN (w : Shells) (h : nat) (id : Z) : Shells := if view_only w h then w else closeStdin w h id.

Definition hangup (s : shellSession) : shellSession := s <| hangups := S (hangups s) |>.

Definition OnReset (w : Shells) (h : nat) (id : Z) : Shells :=
  match lookup_session w h id with
  | Some s => on_session s (fun x => closeInput (hangup (x <| cancelled := true |>))) w
  | None => w
  end.

(** * The end of a shell *)

(** [Close]: every registered process is asked to end; those that have not after the grace are killed. *)
Definition Close (w : Shells) (h : nat) : Shells :=
  match handlers w !! h with
  | None => w
  | Some H =>
    if closed H then w else
    let ss := (map_to_list (streams H)).*2 in
    let w1 := w <| handlers := <[h := H <| closed := true |>]> (handlers w) |> in
    match ss with [] => w1 | _ => w1 <| tasks := tasks w1 ++ map Terminate ss ++ [Reap ss] |> end
  end.

Definition is_done (s : shellSession) : bool := match at_ s with Released_ | Finished => true | _ => false end.

Definition run_task (w : Shells) (t : task) : Shells :=
  match t with
  | Evict s =>
    match sessions w !! s with
    | Some x => on_session s hangup (sendShellError w (handler x) (stream x) (Some s) $"another connection took the shell")
    | None => w
    end
  | Terminate s => on_session s hangup w
  | Reap ss => foldl (fun w s => on_session s (fun x => if is_done x then x else x <| killed := true |>) w) w ss
  end.

(** One read of an output pump. *)
Definition pump (w : Shells) (s : nat) (tag : Z) (chunk : bytes) (wrote eof : bool) : option Shells :=
  match sessions w !! s with
  | None => None
  | Some x =>
    if bool_decide (tag ∈ pumps x) && (zlen chunk <=? MaxChunkSize - 1) then
      let ends w := on_session s (fun x => x <| pumps := filter (fun t => t <> tag) (pumps x) |>) w in
      Some match chunk with
           | [] => if eof then ends w else w
           | _ =>
             let w1 := emit (Output s tag chunk) w in
             if cancelled x then ends w1 else
             let w2 := emit (Reply (handler x) (stream x) (Some s) (WriteDAT (chr tag :: chunk))) w1 in
             if negb wrote || eof then ends w2 else w2
           end
    else None
  end.

Definition fin_payload (e : exit_status) : bytes :=
  match e with
  | Exited n => print_json (JObject [($"exit_code", JInt n)])
  | Signaled n sig => print_json (JObject [($"exit_code", JInt n); ($"signal", JString sig)])
  | Unknown => print_json (JObject [($"exit_code", JInt (-1))])
  end.

Definition wait_detach (w : Shells) (s : nat) : option Shells :=
  match sessions w !! s with
  | Some x =>
    match at_ x, exited x, handlers w !! handler x with
    | Waiting, Some _, Some H =>
      Some (on_session s (fun x => x <| terminal := None |> <| at_ := Detached |>)
             (w <| handlers := <[handler x := H <| streams := delete (stream x) (streams H) |>]> (handlers w) |>))
    | _, _, _ => None
    end
  | None => None
  end.

Definition wait_release (w : Shells) (s : nat) : option Shells :=
  match sessions w !! s with
  | Some x => match at_ x with Detached => Some (on_session s (fun x => x <| at_ := Released_ |>) (release_slot w (call x) (holds x))) | _ => None end
  | None => None
  end.

(** The output is drained, or given up on; then the trailer. *)
Definition wait_finish (w : Shells) (s : nat) (timeout : bool) : option Shells :=
  match sessions w !! s with
  | Some x =>
    match at_ x, exited x with
    | Released_, Some e =>
      if bool_decide (pumps x = []) || timeout then
        Some (emit (Reply (handler x) (stream x) (Some s) (WriteFIN (fin_payload e)))
               (on_session s (fun x => x <| at_ := Finished |> <| cancelled := cancelled x || negb (bool_decide (pumps x = [])) |>) w))
      else None
    | _, _ => None
    end
  | None => None
  end.

(** * Steps *)

Inductive shell_step : Shells -> Shells -> Prop :=
| sh_admit w h id payload final acquired bad : shell_step w (syn_admit w h id payload final acquired bad)
| sh_evict w c w' : syn_evict w c = Some w' -> shell_step w w'
| sh_spawn w c failed w' : syn_spawn w c failed = Some w' -> shell_step w w'
| sh_register w c w' : syn_register w c = Some w' -> shell_step w w'
| sh_dat w h id payload : shell_step w (OnDAT w h id payload)
| sh_fin w h id : shell_step w (OnFIN w h id)
| sh_reset w h id : shell_step w (OnReset w h id)
| sh_close w h : shell_step w (Close w h)
| sh_task w t ts1 ts2 : tasks w = ts1 ++ t :: ts2 -> shell_step w (run_task (w <| tasks := ts1 ++ ts2 |>) t)
| sh_pump w s tag chunk wrote eof w' : pump w s tag chunk wrote eof = Some w' -> shell_step w w'
| sh_exit w s e : shell_step w (on_session s (fun x => match exited x with None => x <| exited := Some e |> | Some _ => x end) w)
| sh_detach w s w' : wait_detach w s = Some w' -> shell_step w w'
| sh_release w s w' : wait_release w s = Some w' -> shell_step w w'
| sh_finish w s timeout w' : wait_finish w s timeout = Some w' -> shell_step w w'.

Definition running (hs : list ShellHandler) (w : Shells) : Prop := steps shell_step (start hs) w.
End Platform.

(** * The connector (internal/client/shellops.go) *)

Record ShellOptions := mkOptions { oArgv : list bytes; oPTY : bool; oCols : Z; oRows : Z; oEnv : list (bytes * bytes); oCwd : bytes }.

Record ShellResult := mkResult { ExitCode : Z; Signal : bytes }.

(** The SYN: [oEnv] in the order of its keys. *)
Definition shell_syn (o : ShellOptions) : bytes :=
  let opt (b : bool) m := if b then [m] else [] in
  print_json (JObject (
    opt (negb (bool_decide (oArgv o = []))) ($"argv", JArray (map JString (oArgv o))) ++
    opt (oCols o >? 0) ($"cols", JInt (oCols o)) ++
    opt (negb (bool_decide (oCwd o = []))) ($"cwd", JString (oCwd o)) ++
    opt (negb (bool_decide (oEnv o = []))) ($"env", JObject (map (fun '(k, v) => (k, JString v)) (oEnv o))) ++
    [($"pty", JBool (oPTY o))] ++
    opt (oRows o >? 0) ($"rows", JInt (oRows o)) ++
    [($"type", JString $"shell")])).

(** A field of a payload whose errors are ignored. *)
Definition lenient {A} (d : decoder A) (zero : A) (name : bytes) (payload : bytes) : A :=
  match parse_json payload with Some j => (field d zero name j).1 | None => zero end.

(** The inbox, as far as it was delivered before it closed; what [Stdout] and [Stderr] got. *)
Fixpoint drain (out err : bytes) (inbox : list Frame) : bytes * bytes * result bytes ShellResult :=
  match inbox with
  | [] => (out, err, Ok (mkResult 0 []))
  | f :: rest =>
    if IsSYN f then
      match parse_json (Payload f) with
      | Some j =>
        match field decode_string [] $"error" j with
        | ((_ :: _) as msg, true) => (out, err, Err msg)
        | _ => drain out err rest
        end
      | None => drain out err rest
      end
    else if IsFIN f then
      (out, err,
       match Payload f with
       | [] => Ok (mkResult 0 [])
       | p =>
         match lenient decode_string [] $"error" p with
         | [] => Ok (mkResult (lenient decode_int 0 $"exit_code" p) (lenient decode_string [] $"signal" p))
         | msg => Err msg
         end
       end)
    else
      match Payload f with
      | [] => drain out err rest
      | tag :: body =>
        if code tag =? stdout_tag then drain (out ++ body) err rest
        else if code tag =? stderr_tag then drain out (err ++ body) rest
        else drain out err rest
      end
  end.

(** A frame the connector's stream delivers. *)
Definition frame_of (id : Z) (r : reply) : Frame :=
  match r with
  | WriteSYN p => mkFrame id FlagSYN p
  | WriteDAT p => mkFrame id FlagDAT p
  | WriteFIN p => mkFrame id FlagFIN p
  end.
