(* ===== verification/ShellSpec.v ===== *)
(** What shell admission and shell sessions promise, for every interleaving of calls, evictions, input,
    process exits and teardown. *)

From S2P Require Import Prelude GoLib Protocol Json Shell.

(** * Accounting of slots *)

Definition is_release (c : nat) (e : event) : bool := match e with Released c' => bool_decide (c' = c) | _ => false end.

(** How often call [c] gave its slot back. *)
Definition released (w : Shells) (c : nat) : nat := count (is_release c) (log w).

Definition unreleased (l : life) : bool := match l with Starting | Waiting | Detached => true | _ => false end.

Definition key (x : shellSession) : nat * slot * life := (call x, holds x, at_ x).

(** Call [c] holds [x]: it is still being served, or its process runs. *)
Definition holding (w : Shells) (c : nat) (x : slot) : Prop :=
  (exists o, opening w !! c = Some o /\ c_slot o = x) \/
  (exists s l, key <$> sessions w !! s = Some (c, x, l) /\ unreleased l = true).

Record slots_ok (w : Shells) : Prop := {
  k_opening c o : opening w !! c = Some o -> (c < calls w)%nat /\ released w c = 0%nat /\
    (forall s, c_stage o = Spawned s -> key <$> sessions w !! s = Some (c, c_slot o, Starting)) /\
    (forall s x l, key <$> sessions w !! s = Some (c, x, l) -> c_stage o = Spawned s);
  k_session s c x l : key <$> sessions w !! s = Some (c, x, l) -> (c < calls w)%nat /\
    released w c = (if unreleased l then 0 else 1)%nat /\ (l = Starting -> is_Some (opening w !! c));
  k_once s s' c x x' l l' : key <$> sessions w !! s = Some (c, x, l) -> key <$> sessions w !! s' = Some (c, x', l') -> s = s';
  k_calls c : ((calls w <= c)%nat -> released w c = 0%nat) /\
    ((c < calls w)%nat -> released w c = 1%nat \/ released w c = 0%nat /\ exists x, holding w c x);
  k_live : NoDup (live w) /\ forall a, a ∈ live w -> (a < length (admissions w))%nat /\ exists c, holding w c (Listed a)
}.

(** What the accounting depends on. *)
Lemma slots_same w w' :
  opening w' = opening w -> calls w' = calls w -> live w' = live w -> length (admissions w') = length (admissions w) ->
  (forall s, key <$> sessions w' !! s = key <$> sessions w !! s) -> (forall c, released w' c = released w c) ->
  slots_ok w -> slots_ok w'.
Proof.
  intros Eo Ec El Ea Es Er [H1 H2 H3 H4 [H5 H6]].
  assert (forall c x, holding w' c x <-> holding w c x) as Eh.
  { intros c x. unfold holding. rewrite Eo. by setoid_rewrite Es. }
  constructor.
  - intros c o. rewrite Eo, Ec, Er. intros (? & ? & Hs & Hn)%H1. split_and!; [done|done|intros s; rewrite Es; apply Hs|intros s x l; rewrite Es; apply Hn].
  - intros s c x l. rewrite Es, Ec, Er, Eo. apply H2.
  - intros s s' c x x' l l'. rewrite !Es. apply H3.
  - intros c. rewrite Ec, Er. destruct (H4 c) as [Ha Hb]. split; [done|]. intros [|[? [x ?]]]%Hb; [by left|right]. split; [done|]. exists x. by apply Eh.
  - rewrite El. split; [done|]. intros a [? [c ?]]%H6. split; [lia|]. exists c. by apply Eh.
Qed.

Lemma key_alter w s f : (forall x, key (f x) = key x) -> forall s', key <$> sessions (on_session s f w) !! s' = key <$> sessions w !! s'.
Proof.
  intros Hf s'. cbn. destruct (decide (s' = s)) as [->|Hne]; [|by rewrite list_lookup_alter_ne].
  rewrite list_lookup_alter_eq. destruct (sessions w !! s); cbn; [by rewrite Hf|done].
Qed.

Lemma slots_session w s f : (forall x, key (f x) = key x) -> slots_ok w -> slots_ok (on_session s f w).
Proof. intros Hf. apply slots_same; [done..|by apply key_alter|done]. Qed.

Lemma slots_session_if w b f : (forall x, key (f x) = key x) -> slots_ok w -> slots_ok match b : option nat with Some s' => on_session s' f w | None => w end.
Proof. intros Hf Hw. destruct b; [by apply slots_session|done]. Qed.

Lemma slots_emit w e : (forall c, is_release c e = false) -> slots_ok w -> slots_ok (emit e w).
Proof. intros He. apply slots_same; try done. intros c. unfold released. cbn. rewrite count_app. cbn. rewrite He. lia. Qed.

Lemma slots_error w h id s msg : slots_ok w -> slots_ok (sendShellError w h id s msg).
Proof. intros Hw. unfold sendShellError. by repeat (apply slots_emit; [done|]). Qed.

Lemma slots_handlers w hs : slots_ok w -> slots_ok (w <| handlers := hs |>).
Proof. by apply slots_same. Qed.

Lemma slots_tasks w ts : slots_ok w -> slots_ok (w <| tasks := ts |>).
Proof. by apply slots_same. Qed.

(** A new call begins; the list of live shells may change with it. *)
Lemma slots_begin w w' o :
  opening w' = <[calls w := o]> (opening w) -> calls w' = S (calls w) -> sessions w' = sessions w -> log w' = log w ->
  NoDup (live w') -> (forall a, a ∈ live w' -> (a < length (admissions w'))%nat /\ (a ∈ live w \/ c_slot o = Listed a)) ->
  (forall s, c_stage o <> Spawned s) -> slots_ok w -> slots_ok w'.
Proof.
  intros Eo Ec Es El Hnd Hl Hst [H1 H2 H3 H4 [H5 H6]].
  assert (forall c, released w' c = released w c) as Er by (intros c; unfold released; by rewrite El).
  assert (opening w !! calls w = None) as Hnone. { destruct (opening w !! calls w) eqn:E; [|done]. apply H1 in E as (? & _). lia. }
  assert (forall c x, holding w c x -> holding w' c x) as Hh.
  { intros c x [(q & Hq & Hx)|Hs]; [left|right; by rewrite Es]. exists q. rewrite Eo, lookup_insert_ne; [done|]. intros <-. congruence. }
  assert (holding w' (calls w) (c_slot o)) as Ho by (left; exists o; by rewrite Eo, lookup_insert_eq).
  constructor.
  - intros c q. rewrite Eo, Ec, Er, Es. intros [[<- <-]|[_ Hq]]%lookup_insert_Some.
    + split_and!; [lia|apply (H4 (calls w)); lia|by intros s ?%Hst|]. intros s x l Hx. apply H2 in Hx as (? & _). lia.
    + destruct (H1 c q Hq) as (? & ? & ? & ?). split_and!; [lia|done..].
  - intros s c x l. rewrite Es, Ec, Er, Eo. intros Hx. destruct (H2 _ _ _ _ Hx) as (? & ? & Hi). split_and!; [lia|done|].
    intros [q Hq]%Hi. exists q. rewrite lookup_insert_ne by lia. done.
  - intros s s' c x x' l l'. rewrite Es. apply H3.
  - intros c. rewrite Ec, Er. destruct (H4 c) as [Ha Hb]. split; [intros ?; apply Ha; lia|]. intros Hc.
    destruct (decide (c = calls w)) as [->|Hne].
    + right. split; [apply Ha; lia|]. by exists (c_slot o).
    + destruct Hb as [?|[? [x ?]]]; [lia|by left|right]. split; [done|]. exists x. by apply Hh.
  - split; [done|]. intros a Ha. destruct (Hl a Ha) as [Hlt [Hin|Hx]]; (split; [done|]).
    + destruct (H6 a Hin) as [_ [c ?]]. exists c. by apply Hh.
    + exists (calls w). by rewrite <- Hx.
Qed.

Lemma admit_spec w max owner w1 r : admission w max owner = (w1, r) ->
  opening w1 = opening w /\ calls w1 = calls w /\ sessions w1 = sessions w /\ log w1 = log w /\ handlers w1 = handlers w /\ tasks w1 = tasks w /\
  match r with
  | None => w1 = w
  | Some (a, d) => a = length (admissions w) /\ admissions w1 = admissions w ++ [mkAdmission None owner] /\
      exists l, live w1 = l ++ [a] /\ l `sublist_of` live w /\ (0 < max -> zlen (live w) <= max -> zlen (live w1) <= max) /\
      (forall x, x ∈ live w -> x ∉ l -> d = Some x /\ (owner = true \/ is_protected w x = false))
  end.
Proof.
  unfold admission. destruct ((0 <? max) && (max <=? zlen (live w))) eqn:Ef; [destruct (oldestDisplaceable w owner) as [i|] eqn:Ei|];
    intros [= <- <-]; (split_and!; [done..|]); [|done|].
  - exists (delete i (live w)). unfold oldestDisplaceable in Ei. apply fmap_Some in Ei as ([j x] & Hf & ->).
    apply list_find_Some in Hf as (Hx & Hp & _). cbn.
    assert (i_lt : (j < length (live w))%nat) by by eapply lookup_lt_Some. split_and!; [done|apply sublist_delete| |].
    + intros _ Hm. unfold zlen in *. rewrite length_app, length_delete by by eexists. cbn. lia.
    + intros y Hy Hn. assert (y = x) as ->; [|split; [done|]].
      * apply list_elem_of_lookup in Hy as [k Hk]. destruct (decide (k = j)) as [->|Hne]; [congruence|]. exfalso. apply Hn.
        rewrite delete_take_drop. apply elem_of_app. destruct (decide (k < j)%nat).
        -- left. apply list_elem_of_lookup. exists k. by rewrite lookup_take_lt.
        -- right. apply list_elem_of_lookup. exists (k - S j)%nat. rewrite lookup_drop. rewrite <- Hk. f_equal. lia.
      * apply orb_true_iff in Hp as [?|?%negb_true_iff]; [by left|by right].
  - exists (live w). split_and!; [done..| |done].
    intros Hm Hl. apply andb_false_iff in Ef as [?%Z.ltb_ge|?%Z.leb_gt]; [lia|]. cbn. rewrite zlen_app. unfold zlen at 2. cbn. lia.
Qed.

Lemma slots_admit w h id payload final acquired bad : slots_ok w -> slots_ok (syn_admit w h id payload final acquired bad).
Proof.
  intros Hw. unfold syn_admit. destruct (handlers w !! h) as [H|]; [|done]. destruct (decode_open payload) as [o|]; [|by apply slots_error].
  assert (forall x, (forall a, x <> Listed a) -> slots_ok (begin w (mkOpening h id o final x Ready))) as Hb.
  { intros x Hx. apply (slots_begin w _ (mkOpening h id o final x Ready)); [done..|apply Hw| |done|done].
    intros a Ha. destruct (proj2 (k_live _ Hw) a Ha). split; [done|by left]. }
  destruct (AcquireSlot H); [destruct acquired; [by apply slots_error|by apply Hb]|].
  destruct (0 <? MaxConcurrent H); [|by apply Hb].
  destruct (admission w (MaxConcurrent H) (OwnerCredential H)) as [w1 r] eqn:Ea. pose proof (admit_spec _ _ _ _ _ Ea) as (E1 & E2 & E3 & E4 & E5 & E6 & Hr).
  destruct r as [[a d]|]; [|apply slots_error; by rewrite Hr]. destruct Hr as (-> & E7 & l & E8 & Hl & _).
  destruct (k_live _ Hw) as [Hnd Hlive]. pose proof (fun x Hx => proj1 (Hlive x Hx)) as Hlt.
  set (o' := mkOpening h id o final (Listed (length (admissions w))) match d with Some d => Displacing d | None => Ready end).
  apply (slots_begin w _ o'); [cbn; by rewrite E1, E2|cbn; by rewrite E2|done|done| | | |done].
  - cbn. rewrite E8. apply NoDup_app. split_and!; [by eapply sublist_NoDup| |apply NoDup_singleton].
    intros x Hx ->%list_elem_of_singleton. apply (elem_of_sublist _ _ _ Hx) in Hl. apply Hlt in Hl. lia.
  - intros x. cbn. rewrite E7, E8, length_app. cbn. intros [Hx|Hx]%elem_of_app.
    + apply (elem_of_sublist _ _ _ Hx) in Hl. specialize (Hlt x Hl). split; [lia|by left].
    + apply list_elem_of_singleton in Hx as ->. split; [lia|by right].
  - subst o'. by destruct d.
Qed.

Lemma release_spec w a : NoDup (live w) ->
  exists l, release w a = w <| live := l |> /\ NoDup l /\ forall b, b ∈ l <-> b ∈ live w /\ b <> a.
Proof.
  intros Hnd. unfold release. destruct (list_find (fun x => x = a) (live w)) as [[i b]|] eqn:Ef.
  - apply list_find_Some in Ef as (Hi & -> & _). exists (delete i (live w)). split; [done|].
    assert (NoDup (a :: delete i (live w))) as [Ha Hd]%NoDup_cons by (by rewrite <- (delete_Permutation _ _ _ Hi)).
    split; [done|]. intros b. pose proof (elem_of_Permutation_proper b _ _ (delete_Permutation _ _ _ Hi)) as Eb. rewrite elem_of_cons in Eb. rewrite Eb. split.
    + intros Hb. split; [by right|]. by intros ->.
    + by intros [[->|?] ?].
  - exists (live w). split; [by destruct w|]. split; [done|]. intros b. split; [|by intros [? _]]. intros Hb. split; [done|]. intros ->.
    apply list_find_None in Ef. rewrite Forall_forall in Ef. by apply (Ef a).
Qed.

Lemma release_slot_spec w c x : NoDup (live w) ->
  exists l, release_slot w c x = w <| live := l |> <| log := log w ++ [Released c] |> /\ NoDup l /\
    forall b, b ∈ l <-> b ∈ live w /\ x <> Listed b.
Proof.
  intros Hnd. unfold release_slot. destruct x as [| |a].
  1,2: exists (live w); split; [by destruct w|]; split; [done|]; intros b; split; [by intros ?; split|by intros [? _]].
  destruct (release_spec w a Hnd) as (l & -> & Hl & Hb). exists l. split; [done|]. split; [done|]. intros b. rewrite Hb.
  split; intros [? Hn]; (split; [done|]); congruence.
Qed.

Lemma released_snoc w w' c c' : log w' = log w ++ [Released c] ->
  released w' c' = (released w c' + if decide (c' = c) then 1 else 0)%nat.
Proof.
  intros E. unfold released. rewrite E, count_app. cbn. case_bool_decide; case_decide; try congruence; lia.
Qed.

(** A call that is still being served gives its slot back. *)
Lemma slots_drop_call w c o : opening w !! c = Some o -> c_stage o = Ready -> slots_ok w ->
  slots_ok (release_slot (w <| opening := delete c (opening w) |>) c (c_slot o)).
Proof.
  intros Ho Hst Hw. set (w0 := w <| opening := delete c (opening w) |>).
  destruct (release_slot_spec w0 c (c_slot o) (proj1 (k_live _ Hw))) as (l & -> & Hnd & Hl).
  set (w' := _ <| log := _ |>). pose proof (fun c' => released_snoc w w' c c' eq_refl) as Er.
  assert (opening w' = delete c (opening w) /\ calls w' = calls w /\ sessions w' = sessions w /\ live w' = l /\ admissions w' = admissions w)
    as (Eo & Ec & Es & El & Ead) by done. clearbody w'. change (live w0) with (live w) in Hl. destruct Hw as [H1 H2 H3 H4 [H5 H6]].
  destruct (H1 _ _ Ho) as (Hc & Hr & _ & Hno).
  assert (forall s x lf, key <$> sessions w !! s = Some (c, x, lf) -> False) as Hns by (intros s x lf Hx; apply Hno in Hx; congruence).
  assert (forall c' x, c' <> c -> holding w c' x -> holding w' c' x) as Hh.
  { intros c' x Hne [(q & Hq & Hx)|Hs]; [left; exists q; by rewrite Eo, lookup_delete_ne|right; by rewrite Es]. }
  constructor.
  - intros c' q. rewrite Eo, Ec, Es. intros [Hne Hq]%lookup_delete_Some. rewrite Er, decide_False by done. destruct (H1 _ _ Hq) as (? & ? & ? & ?). split_and!; [done|lia|done|done].
  - intros s c' x lf. rewrite Es, Er, Ec, Eo. intros Hx. destruct (decide (c' = c)) as [->|Hne]; [by destruct (Hns _ _ _ Hx)|].
    destruct (H2 _ _ _ _ Hx) as (? & ? & Hi). split_and!; [done|lia|]. intros [q Hq]%Hi. exists q. by rewrite lookup_delete_ne.
  - intros s s' c' x x' l1 l2. rewrite Es. apply H3.
  - intros c'. rewrite Er, Ec. destruct (H4 c') as [Ha Hb]. destruct (decide (c' = c)) as [->|Hne]; [split; [lia|left; lia]|].
    split; [intros ?; rewrite Ha; lia|]. intros [?|[? [x ?]]]%Hb; [left; lia|right]. split; [lia|]. exists x. by apply Hh.
  - rewrite El, Ead. split; [done|]. intros a [Hin Hx]%Hl. destruct (H6 a Hin) as [Hlt [c' Hc']]. split; [done|]. exists c'. apply Hh; [|done].
    intros ->. destruct Hc' as [(q & Hq & Hq')|(s & lf & Hs & _)]; [|by apply Hns in Hs]. congruence.
Qed.

Lemma slots_refuse w c o msg : opening w !! c = Some o -> c_stage o = Ready -> slots_ok w -> slots_ok (refuse w c o msg).
Proof. intros Ho Hst Hw. apply (slots_drop_call (sendShellError w (c_handler o) (c_stream o) None msg)); [done|done|by apply slots_error]. Qed.

(** A shell whose process ended gives its slot back. *)
Lemma slots_wait_release w s w' : wait_release w s = Some w' -> slots_ok w -> slots_ok w'.
Proof.
  unfold wait_release. destruct (sessions w !! s) as [x|] eqn:Es; [|done]. destruct (at_ x) eqn:Ea; try done. intros [= <-] Hw.
  destruct (release_slot_spec w (call x) (holds x) (proj1 (k_live _ Hw))) as (l & -> & Hnd & Hl). set (f := fun y => y <| at_ := Released_ |>).
  set (w0 := w <| live := l |> <| log := log w ++ [Released (call x)] |>). set (w' := on_session s f w0). change (slots_ok w'). pose proof (fun c' => released_snoc w w' (call x) c' eq_refl) as Er.
  assert (forall s', key <$> sessions w' !! s' = if decide (s' = s) then Some (call x, holds x, Released_) else key <$> sessions w !! s') as Ek.
  { intros s'. cbn. case_decide; [subst s'; rewrite list_lookup_alter_eq, Es; done|by rewrite list_lookup_alter_ne]. }
  assert (opening w' = opening w /\ calls w' = calls w /\ live w' = l /\ admissions w' = admissions w) as (Eo & Ec & El & Ead) by done. clearbody w'.
  assert (key <$> sessions w !! s = Some (call x, holds x, Detached)) as Hs by (rewrite Es; cbn; unfold key; by rewrite Ea).
  destruct Hw as [H1 H2 H3 H4 [H5 H6]]. destruct (H2 _ _ _ _ Hs) as (Hc & Hr & _).
  assert (opening w !! call x = None) as Hno.
  { destruct (opening w !! call x) as [q|] eqn:E; [|done]. destruct (H1 _ _ E) as (_ & _ & Hsp & Hn). pose proof (Hsp _ (Hn _ _ _ Hs)). congruence. }
  assert (forall c' y, c' <> call x -> holding w c' y -> holding w' c' y) as Hh.
  { intros c' y Hne [Ho|(s' & lf & Hx & Hu)]; [left; by rewrite Eo|right]. exists s', lf. rewrite Ek, decide_False; [done|]. intros ->. congruence. }
  constructor.
  - intros c' q. rewrite Eo, Er, Ec. intros Hq. destruct (H1 c' q Hq) as (? & ? & Hsp & Hn). assert (c' <> call x) as Hne by (intros ->; congruence).
    rewrite decide_False by done. split_and!; [done|lia| |].
    + intros s' Hst. rewrite Ek. case_decide; [subst s'; apply Hsp in Hst; congruence|by apply Hsp].
    + intros s' y lf. rewrite Ek. case_decide; [congruence|apply Hn].
  - intros s' c' y lf. rewrite Ek, Er, Ec, Eo. case_decide as Hd.
    + intros [= <- <- <-]. rewrite decide_True by done. rewrite Hr. by split_and!.
    + intros Hx. destruct (H2 _ _ _ _ Hx) as (? & Hr' & ?). rewrite decide_False; [by rewrite Hr', Nat.add_0_r|]. intros ->. apply Hd. by apply (H3 s' s (call x) y (holds x) lf Detached).
  - intros s1 s2 c' y y' l1 l2. rewrite !Ek. assert (forall y lf s', key <$> sessions w !! s' = Some (call x, y, lf) -> s' = s) as Hu
      by (intros ? ? ? Hk; by apply (H3 _ _ _ _ _ _ _ Hk Hs)).
    repeat case_decide; subst; try done; [intros [= <- _ _] Hk|intros Hk [= <- _ _]|apply H3]; [symmetry|]; by eapply Hu.
  - intros c'. rewrite Er, Ec. destruct (H4 c') as [Ha Hb]. destruct (decide (c' = call x)) as [->|Hne]; [split; [lia|left; cbn in Hr; lia]|].
    split; [intros ?; rewrite Ha; lia|]. intros [?|[? [y ?]]]%Hb; [left; lia|right]. split; [lia|]. exists y. by apply Hh.
  - rewrite El, Ead. split; [done|]. intros a [Hin Hx]%Hl. destruct (H6 a Hin) as [Hlt [c' Hc']]. split; [done|]. exists c'. apply Hh; [|done].
    intros ->. destruct Hc' as [(q & Hq & Hq')|(s' & lf & Hk & _)]; [congruence|]. pose proof (H3 _ _ _ _ _ _ _ Hk Hs) as ->. congruence.
Qed.

(** The process of a call starts. *)
Lemma slots_new_session w w' c o x :
  opening w !! c = Some o -> c_stage o = Ready -> key x = (c, c_slot o, Starting) ->
  opening w' = <[c := o <| c_stage := Spawned (length (sessions w)) |>]> (opening w) -> sessions w' = sessions w ++ [x] ->
  calls w' = calls w -> live w' = live w -> admissions w' = admissions w -> log w' = log w -> slots_ok w -> slots_ok w'.
Proof.
  intros Ho Hst Hk Eo Es Ec El Ea Elog [H1 H2 H3 H4 [H5 H6]].
  assert (forall c', released w' c' = released w c') as Er by (intros c'; unfold released; by rewrite Elog).
  destruct (H1 _ _ Ho) as (Hc & Hr & _ & Hno).
  assert (forall s y l, key <$> sessions w !! s = Some (c, y, l) -> False) as Hns by (intros s y l Hx; apply Hno in Hx; congruence).
  assert (forall s k, key <$> sessions w' !! s = Some k <-> key <$> sessions w !! s = Some k \/ s = length (sessions w) /\ k = key x) as Ek.
  { intros s k. rewrite Es, lookup_app. destruct (sessions w !! s) as [y|] eqn:Ey; cbn.
    - split; [by left|]. intros [?|[-> _]]; [done|]. by rewrite lookup_ge_None_2 in Ey.
    - apply lookup_ge_None in Ey. destruct (decide (s = length (sessions w))) as [->|Hne].
      + rewrite Nat.sub_diag. cbn. split; [intros [= <-]; by right|]. by intros [?|[_ ->]].
      + rewrite lookup_ge_None_2 by (cbn; lia). split; [done|]. by intros [?|[? _]]. }
  assert (forall c' y, holding w c' y -> holding w' c' y) as Hh.
  { intros c' y [(q & Hq & Hy)|(s & l & Hx & Hu)]; [left|right; exists s, l; split; [apply Ek; by left|done]].
    destruct (decide (c' = c)) as [->|Hne]; rewrite Eo; [|exists q; by rewrite lookup_insert_ne].
    eexists. rewrite lookup_insert_eq. split; [done|]. cbn. congruence. }
  constructor.
  - intros c' q. rewrite Eo, Ec, Er. intros [[<- <-]|[Hne Hq]]%lookup_insert_Some.
    + split_and!; [done|done| |]; cbn.
      * intros s [= <-]. apply Ek. right. by rewrite Hk.
      * intros s y l [Hy|[-> _]]%Ek; [by destruct (Hns _ _ _ Hy)|done].
    + destruct (H1 c' q Hq) as (? & ? & Hsp & Hn). split_and!; [done|done|intros s ?; apply Ek; left; by apply Hsp|].
      intros s y l [?|[_ Hy]]%Ek; [by eapply Hn|]. congruence.
  - intros s c' y l. rewrite Ec, Er, Eo. intros [Hy|[-> Hy]]%Ek.
    + destruct (H2 _ _ _ _ Hy) as (? & ? & Hi). split_and!; [done|done|]. intros [q Hq]%Hi.
      exists q. rewrite lookup_insert_ne; [done|]. intros <-. by destruct (Hns _ _ _ Hy).
    + rewrite Hk in Hy. injection Hy as -> -> ->. split_and!; [done|done|]. intros _. rewrite lookup_insert_eq. by eexists.
  - intros s1 s2 c' y y' l1 l2 [Hy1|[-> Hy1]]%Ek [Hy2|[-> Hy2]]%Ek; [by eapply H3| | |done]; rewrite Hk in *; simplify_eq; by edestruct Hns.
  - intros c'. rewrite Ec, Er. destruct (H4 c') as [Ha Hb]. split; [done|]. intros [|[? [y ?]]]%Hb; [by left|right]. split; [done|]. exists y. by apply Hh.
  - rewrite El, Ea. split; [done|]. intros a [? [c' ?]]%H6. split; [done|]. exists c'. by apply Hh.
Qed.

Lemma alter_known {A} (m : gmap nat A) f i x : m !! i = Some x -> alter f i m = <[i := f x]> m.
Proof. intros H. rewrite <- (insert_id m i x H) at 1. apply alter_insert_eq. Qed.

Lemma slots_spawn Environ SHELL w c failed w' : syn_spawn Environ SHELL w c failed = Some w' -> slots_ok w -> slots_ok w'.
Proof.
  unfold syn_spawn. destruct (opening w !! c) as [o|] eqn:Eo; [|done]. destruct (c_stage o) eqn:Est; try done.
  destruct (handlers w !! c_handler o) as [H|]; [|done]. intros [= <-] Hw.
  destruct (restricted H && _); [by apply slots_refuse|]. destruct (closed H); [by apply slots_refuse|].
  destruct (streams H !! c_stream o); [by apply slots_refuse|]. destruct failed; [by apply slots_refuse|].
  eapply (slots_new_session w _ c o); [done|done| |cbn; by rewrite (alter_known _ _ c o)|done..]. done.
Qed.

(** Past the start: the call is over, the session waits for its process. *)
Lemma slots_register_core w w' c s o x :
  opening w !! c = Some o -> c_stage o = Spawned s -> sessions w !! s = Some x ->
  opening w' = delete c (opening w) ->
  (forall s', key <$> sessions w' !! s' = if decide (s' = s) then Some (c, c_slot o, Waiting) else key <$> sessions w !! s') ->
  calls w' = calls w -> live w' = live w -> length (admissions w') = length (admissions w) -> log w' = log w -> slots_ok w -> slots_ok w'.
Proof.
  intros Ho Hst Hx Eo Ek Ec El Ea Elog [H1 H2 H3 H4 [H5 H6]].
  assert (forall c', released w' c' = released w c') as Er by (intros c'; unfold released; by rewrite Elog).
  destruct (H1 _ _ Ho) as (Hc & Hr & Hsp & Hno). pose proof (Hsp s Hst) as Hs.
  assert (forall s' y l, key <$> sessions w !! s' = Some (c, y, l) -> s' = s) as Hu by (intros s' y l Hk; by apply (H3 _ _ _ _ _ _ _ Hk Hs)).
  assert (forall c' y, holding w c' y -> holding w' c' y) as Hh.
  { intros c' y [(q & Hq & Hy)|(s' & l & Hk & Hl)].
    - destruct (decide (c' = c)) as [->|Hne]; [right|left; exists q; by rewrite Eo, lookup_delete_ne].
      exists s, Waiting. rewrite Ek, decide_True by done. split; [|done]. congruence.
    - right. destruct (decide (s' = s)) as [->|Hne]; [|exists s', l; by rewrite Ek, decide_False].
      exists s, Waiting. rewrite Ek, decide_True by done. split; [|done]. congruence. }
  constructor.
  - intros c' q. rewrite Eo, Ec, Er. intros [Hne Hq]%lookup_delete_Some. destruct (H1 _ _ Hq) as (? & ? & Hsp' & Hno'). split_and!; [done|done| |].
    + intros s' Hs'%Hsp'. rewrite Ek, decide_False; [done|]. intros ->. congruence.
    + intros s' y l. rewrite Ek. case_decide; [congruence|apply Hno'].
  - intros s' c' y l. rewrite Ek, Ec, Er, Eo. case_decide as Hd.
    + intros [= <- <- <-]. by split_and!.
    + intros Hk. destruct (H2 _ _ _ _ Hk) as (? & ? & Hi). split_and!; [done|done|]. intros [q Hq]%Hi. exists q. rewrite lookup_delete_ne; [done|].
      intros <-. by apply Hd, (Hu _ _ _ Hk).
  - intros s1 s2 c' y y' l1 l2. rewrite !Ek. repeat case_decide; subst; try done; [intros [= <- _ _] Hk|intros Hk [= <- _ _]|apply H3]; [symmetry|]; by eapply Hu.
  - intros c'. rewrite Ec, Er. destruct (H4 c') as [Ha Hb]. split; [done|]. intros [|[? [y ?]]]%Hb; [by left|right]. split; [done|]. exists y. by apply Hh.
  - rewrite El, Ea. split; [done|]. intros a [? [c' ?]]%H6. split; [done|]. exists c'. by apply Hh.
Qed.

Lemma slots_register w c w' : syn_register w c = Some w' -> slots_ok w -> slots_ok w'.
Proof.
  unfold syn_register. destruct (opening w !! c) as [o|] eqn:Eo; [|done]. destruct (c_stage o) as [| |s] eqn:Est; try done. intros [= <-] Hw.
  set (w1 := match c_slot o with Listed a => _ | _ => w end).
  assert (opening w1 = opening w /\ sessions w1 = sessions w /\ calls w1 = calls w /\ live w1 = live w /\ log w1 = log w /\
    length (admissions w1) = length (admissions w)) as (E1 & E2 & E3 & E4 & E5 & E6).
  { subst w1. destruct (c_slot o); try done. split_and!; try done. apply length_alter. }
  clearbody w1. set (f := fun x => _). set (w3 := on_session s f w1 <| opening := delete c (opening w) |>).
  pose proof (proj1 (proj2 (proj2 (k_opening _ Hw _ _ Eo))) s Est) as Hs.
  apply fmap_Some in Hs as (x & Hx & Hk). injection Hk as Hk1 Hk2 Hk3.
  assert (slots_ok w3) as H3.
  { apply (slots_register_core w w3 c s o x); try done.
    intros s'. cbn. rewrite E2. case_decide; [subst s'; rewrite list_lookup_alter_eq, Hx; cbn; unfold key; cbn; congruence|by rewrite list_lookup_alter_ne]. }
  destruct (c_final o && _); [|done]. by apply slots_session_if.
Qed.

(** A call moves between stages before its process starts. *)
Lemma slots_stage w c o : opening w !! c = Some o -> (forall s, c_stage o <> Spawned s) -> slots_ok w -> slots_ok (set_stage w c Ready).
Proof.
  intros Ho Hst Hw. unfold set_stage. rewrite (alter_known _ _ c o) by done. set (o' := o <| c_stage := Ready |>). destruct Hw as [H1 H2 H3 H4 [H5 H6]].
  destruct (H1 _ _ Ho) as (? & ? & _ & Hno). set (w' := w <| opening := <[c := o']> (opening w) |>).
  assert (forall c' y, holding w c' y -> holding w' c' y) as Hh.
  { intros c' y [(q & Hq & Hy)|Hs]; [left|by right]. destruct (decide (c' = c)) as [->|Hne]; cbn; [|exists q; by rewrite lookup_insert_ne].
    exists o'. rewrite lookup_insert_eq. split; [done|]. cbn. congruence. }
  constructor.
  - intros c' q. cbn. intros [[<- <-]|[Hne Hq]]%lookup_insert_Some; [|by apply H1]. split_and!; [done|done|done|].
    intros s x l Hx. by destruct (Hst s (Hno _ _ _ Hx)).
  - intros s c' x l Hx. destruct (H2 _ _ _ _ Hx) as (? & ? & Hi). split_and!; [done|done|]. intros [q Hq]%Hi.
    cbn. destruct (decide (c' = c)) as [->|Hne]; [rewrite lookup_insert_eq; by eexists|rewrite lookup_insert_ne by done; by eexists].
  - exact H3.
  - intros c'. destruct (H4 c') as [Ha Hb]. split; [done|]. intros [|[? [y ?]]]%Hb; [by left|right]. split; [done|]. exists y. by apply Hh.
  - split; [done|]. intros a [? [c' ?]]%H6. split; [done|]. exists c'. by apply Hh.
Qed.

(** A started session moves on without giving its slot back. *)
Lemma slots_life w w' s c x l l' :
  key <$> sessions w !! s = Some (c, x, l) -> unreleased l' = unreleased l -> l <> Starting -> l' <> Starting ->
  (forall s', key <$> sessions w' !! s' = if decide (s' = s) then Some (c, x, l') else key <$> sessions w !! s') ->
  opening w' = opening w -> calls w' = calls w -> live w' = live w -> admissions w' = admissions w ->
  (forall c', released w' c' = released w c') -> slots_ok w -> slots_ok w'.
Proof.
  intros Hs Hu Hl Hl' Ek Eo Ec El Ea Er [H1 H2 H3 H4 [H5 H6]].
  assert (forall c' y, holding w c' y -> holding w' c' y) as Hh.
  { intros c' y [Ho|(s' & lf & Hk & Hlf)]; [left; by rewrite Eo|right]. destruct (decide (s' = s)) as [->|Hne]; [|exists s', lf; by rewrite Ek, decide_False].
    exists s, l'. rewrite Ek, decide_True by done. rewrite Hs in Hk. injection Hk as <- <- <-. by rewrite Hu. }
  constructor.
  - intros c' q. rewrite Eo, Ec, Er. intros Hq. destruct (H1 _ _ Hq) as (? & ? & Hsp & Hno). split_and!; [done|done| |].
    + intros s' Hs'. rewrite Ek. case_decide; [subst s'; apply Hsp in Hs'; congruence|by apply Hsp].
    + intros s' y lf. rewrite Ek. case_decide; [|apply Hno]. intros [= <- _ _]. subst s'. by apply (Hno _ _ _ Hs).
  - intros s' c' y lf. rewrite Ek, Ec, Er, Eo. case_decide; [|apply H2]. intros [= <- <- <-]. destruct (H2 _ _ _ _ Hs) as (? & Hr & _). rewrite Hu. by split_and!.
  - intros s1 s2 c' y y' l1 l2. rewrite !Ek. repeat case_decide; subst; try done; [intros [= <- _ _] Hk|intros Hk [= <- _ _]|apply H3]; [symmetry|]; by apply (H3 _ _ _ _ _ _ _ Hk Hs).
  - intros c'. rewrite Ec, Er. destruct (H4 c') as [Ha Hb]. split; [done|]. intros [|[? [y ?]]]%Hb; [by left|right]. split; [done|]. exists y. by apply Hh.
  - rewrite El, Ea. split; [done|]. intros a [? [c' ?]]%H6. split; [done|]. exists c'. by apply Hh.
Qed.

Lemma key_at w s x f l : sessions w !! s = Some x -> key (f x) = (call x, holds x, l) ->
  forall s', key <$> sessions (on_session s f w) !! s' = if decide (s' = s) then Some (call x, holds x, l) else key <$> sessions w !! s'.
Proof.
  intros Hx Hf s'. cbn. case_decide; [subst s'; rewrite list_lookup_alter_eq, Hx; cbn; by rewrite Hf|by rewrite list_lookup_alter_ne].
Qed.

Lemma slots_detach w s w' : wait_detach w s = Some w' -> slots_ok w -> slots_ok w'.
Proof.
  unfold wait_detach. destruct (sessions w !! s) as [x|] eqn:Ex; [|done]. destruct (at_ x) eqn:Ea; try done. destruct (exited x); [|done].
  destruct (handlers w !! handler x) as [H|]; [|done]. intros [= <-] Hw. set (w0 := w <| handlers := <[handler x := H <| streams := delete (stream x) (streams H) |>]> (handlers w) |>).
  apply (slots_life w0 _ s (call x) (holds x) Waiting Detached); try done; [cbn; rewrite Ex; cbn; unfold key; by rewrite Ea|by apply key_at|by apply slots_handlers].
Qed.

Lemma slots_finish w s timeout w' : wait_finish w s timeout = Some w' -> slots_ok w -> slots_ok w'.
Proof.
  unfold wait_finish. destruct (sessions w !! s) as [x|] eqn:Ex; [|done]. destruct (at_ x) eqn:Ea; try done. destruct (exited x) as [e|]; [|done].
  destruct (bool_decide _ || _); [|done]. intros [= <-] Hw. apply slots_emit; [done|].
  apply (slots_life w _ s (call x) (holds x) Released_ Finished); try done; [rewrite Ex; cbn; unfold key; by rewrite Ea|by apply key_at].
Qed.

Lemma slots_pump w s tag chunk wrote eof w' : pump w s tag chunk wrote eof = Some w' -> slots_ok w -> slots_ok w'.
Proof.
  unfold pump. destruct (sessions w !! s) as [x|] eqn:Ex; [|done]. destruct (bool_decide _ && _); [|done]. intros [= <-] Hw.
  repeat case_match; repeat first [done | apply slots_session; [done|] | apply slots_emit; [done|]].
Qed.

Lemma slots_task w t : slots_ok w -> slots_ok (run_task w t).
Proof.
  intros Hw. destruct t as [s|s|ss]; cbn [run_task].
  - destruct (sessions w !! s); [|done]. apply slots_session; [done|]. by apply slots_error.
  - by apply slots_session.
  - apply (foldl_invariant (fun w s => on_session s (fun x => if is_done x then x else x <| killed := true |>) w) slots_ok); [|done].
    intros v s Hv. apply slots_session; [|done]. intros x. by destruct (is_done x).
Qed.

Lemma slots_step Environ SHELL w w' : shell_step Environ SHELL w w' -> slots_ok w -> slots_ok w'.
Proof.
  intros Hst Hw. destruct Hst as [w h id payload final acquired bad|w c w' E|w c failed w' E|w c w' E|w h id payload|w h id|w h id|w h|w t ts1 ts2 Et|w s tag chunk wrote eof w' E|w s e|w s w' E|w s w' E|w s timeout w' E].
  - by apply slots_admit.
  - unfold syn_evict in E. destruct (opening w !! c) as [o|] eqn:Eo; [|done]. destruct (c_stage o) as [d| |] eqn:Es; try done. injection E as <-.
    assert (slots_ok (set_stage w c Ready)) as H by (apply (slots_stage w c o); [done| |done]; intros s; congruence).
    destruct (admissions w !! d) as [a|]; [|done]. destruct (evict a); [by apply slots_tasks|done].
  - by eapply slots_spawn.
  - by eapply slots_register.
  - unfold OnDAT. destruct payload as [|tag body]; [done|]. destruct (lookup_session w h id) as [s|]; [|done].
    repeat case_match; try done; apply slots_session; try done; intros x; unfold writeInput, resize; by repeat case_match.
  - unfold OnFIN, closeStdin. destruct (view_only w h); [done|]. by apply slots_session_if.
  - by apply slots_session_if.
  - unfold Close. repeat case_match; try done; by repeat first [apply slots_tasks | apply slots_handlers].
  - by apply slots_task, slots_tasks.
  - by eapply slots_pump.
  - apply slots_session; [|done]. intros x. by destruct (exited x).
  - by eapply slots_detach.
  - by eapply slots_wait_release.
  - by eapply slots_finish.
Qed.

Lemma slots_start hs : slots_ok (start hs).
Proof.
  constructor; cbn; try done.
  - intros c. split; [done|lia].
  - split; [constructor|]. by intros a ?%elem_of_nil.
Qed.

(** * What runs, and what reaches it *)

(** A handler as it was made. *)
Definition config (H : ShellHandler) : ShellHandler := H <| streams := ∅ |> <| closed := false |>.

Section Commands.
Variable Environ : list bytes.
Variable SHELL : bytes.
Variable hs : list ShellHandler.

(** The command of a session is the one its handler is pinned to, if it is, and a viewer sends it nothing. *)
Definition session_ok (x : shellSession) : Prop :=
  exists H, hs !! handler x = Some H /\
    (ForcedArgv H <> [] -> cmd x = mkCommand (ForcedArgv H) (default Environ (ForcedEnv H)) ∅ []) /\
    (ViewOnly H = true -> input x = [] /\ signals x = []).

Record commands_ok (w : Shells) : Prop := {
  g_config h : config <$> handlers w !! h = config <$> hs !! h;
  g_streams h H id s : handlers w !! h = Some H -> streams H !! id = Some s -> exists x, sessions w !! s = Some x /\ handler x = h;
  g_sessions s x : sessions w !! s = Some x -> session_ok x
}.

Lemma commands_same w w' : handlers w' = handlers w -> sessions w' = sessions w -> commands_ok w -> commands_ok w'.
Proof. intros Eh Es [H1 H2 H3]. constructor; rewrite ?Eh, ?Es; done. Qed.

Lemma commands_handlers w h H H' :
  handlers w !! h = Some H -> config H' = config H -> (forall id s, streams H' !! id = Some s -> streams H !! id = Some s) ->
  commands_ok w -> commands_ok (w <| handlers := <[h := H']> (handlers w) |>).
Proof.
  intros Hh Hc Hs [H1 H2 H3]. constructor; cbn.
  - intros k. destruct (decide (k = h)) as [->|Hne]; [|by rewrite list_lookup_insert_ne].
    rewrite list_lookup_insert_eq by (by eapply lookup_lt_Some). rewrite <- H1, Hh. cbn. by rewrite Hc.
  - intros k K id s. destruct (decide (k = h)) as [->|Hne]; [|rewrite list_lookup_insert_ne by done; apply H2].
    rewrite list_lookup_insert_eq by (by eapply lookup_lt_Some). intros [= <-] Hid. by apply (H2 h H id s), Hs.
  - exact H3.
Qed.

Lemma commands_session w s f :
  (forall x, sessions w !! s = Some x -> handler (f x) = handler x /\ (session_ok x -> session_ok (f x))) ->
  commands_ok w -> commands_ok (on_session s f w).
Proof.
  intros Hf [H1 H2 H3]. constructor; cbn; [done| |].
  - intros h H id s' Hh Hs. destruct (H2 _ _ _ _ Hh Hs) as (x & Hx & Hk). destruct (decide (s' = s)) as [->|Hne]; [|exists x; by rewrite list_lookup_alter_ne].
    rewrite list_lookup_alter_eq, Hx. eexists. split; [done|]. by rewrite (proj1 (Hf _ Hx)).
  - intros s' x. destruct (decide (s' = s)) as [->|Hne]; [|rewrite list_lookup_alter_ne by done; apply H3].
    rewrite list_lookup_alter_eq. intros (y & Hy & ->)%fmap_Some. by apply (Hf _ Hy), (H3 s).
Qed.

(** A change that concerns neither the command nor the input. *)
Definition aside (f : shellSession -> shellSession) : Prop :=
  forall x, handler (f x) = handler x /\ cmd (f x) = cmd x /\ input (f x) = input x /\ signals (f x) = signals x.

Lemma commands_aside w s f : aside f -> commands_ok w -> commands_ok (on_session s f w).
Proof.
  intros Hf. apply commands_session. intros x _. destruct (Hf x) as (E1 & E2 & E3 & E4). split; [done|].
  intros (H & HH & Ha & Hb). exists H. by rewrite E1, E2, E3, E4.
Qed.

Lemma commands_aside_if w b f : aside f -> commands_ok w -> commands_ok match b : option nat with Some s => on_session s f w | None => w end.
Proof. intros Hf Hw. destruct b; [by apply commands_aside|done]. Qed.

Lemma lookup_session_spec w h id s : commands_ok w -> lookup_session w h id = Some s -> exists x, sessions w !! s = Some x /\ handler x = h.
Proof. intros Hw. unfold lookup_session. destruct (handlers w !! h) as [H|] eqn:E; [|done]. by apply g_streams. Qed.

Lemma view_only_spec w h H : commands_ok w -> hs !! h = Some H -> view_only w h = ViewOnly H.
Proof.
  intros Hw HH. unfold view_only. pose proof (g_config _ Hw h) as Hc. rewrite HH in Hc. cbn in Hc.
  apply fmap_Some in Hc as (K & -> & Hc). by apply (f_equal ViewOnly) in Hc.
Qed.

(** What a connector sends to a stream, when its handler is not for viewers. *)
Lemma commands_input w h id s f :
  commands_ok w -> lookup_session w h id = Some s -> view_only w h = false ->
  (forall x, handler (f x) = handler x /\ cmd (f x) = cmd x) -> commands_ok (on_session s f w).
Proof.
  intros Hw Hs Hv Hf. destruct (lookup_session_spec _ _ _ _ Hw Hs) as (x & Hx & Hk). apply commands_session; [|done].
  intros y Hy. rewrite Hx in Hy. injection Hy as <-. destruct (Hf x) as [E1 E2]. split; [done|].
  intros (H & HH & Ha & Hb). exists H. rewrite E1, E2. split_and!; [done|done|]. rewrite Hk in HH. rewrite (view_only_spec w h H Hw HH) in Hv. congruence.
Qed.

Lemma commands_spawn w c failed w' : syn_spawn Environ SHELL w c failed = Some w' -> commands_ok w -> commands_ok w'.
Proof.
  unfold syn_spawn. destruct (opening w !! c) as [o|]; [|done]. destruct (c_stage o); try done.
  destruct (handlers w !! c_handler o) as [H|] eqn:EH; [|done]. intros [= <-] Hw.
  assert (forall msg, commands_ok (refuse w c o msg)) as Hr.
  { intros msg. refine (commands_same w _ _ _ Hw); unfold refuse, release_slot, release; by repeat case_match. }
  destruct (restricted H && _) eqn:Er; [done|]. destruct (closed H); [done|]. destruct (streams H !! c_stream o) eqn:Ei; [done|].
  destruct failed; [done|]. set (x := mkSession _ _ _ _ _ _ _ _ _ _ _ _ _ _ _). set (H' := H <| streams := <[c_stream o := length (sessions w)]> (streams H) |>).
  pose proof (g_config _ Hw (c_handler o)) as Hc. rewrite EH in Hc. cbn in Hc. symmetry in Hc. apply fmap_Some in Hc as (K & HK & Hc).
  assert (session_ok x) as Hx.
  { exists K. split_and!; [done| |done]. intros HF. subst x. cbn. unfold command_of, restricted.
    assert (ForcedArgv H = ForcedArgv K /\ ForcedEnv H = ForcedEnv K) as [-> ->] by (split; [by apply (f_equal ForcedArgv) in Hc|by apply (f_equal ForcedEnv) in Hc]).
    destruct (ForcedArgv K); [done|]. by rewrite bool_decide_false. }
  destruct Hw as [H1 H2 H3]. constructor; cbn.
  - intros h. destruct (decide (h = c_handler o)) as [->|Hne]; [|by rewrite list_lookup_insert_ne].
    rewrite list_lookup_insert_eq by (by eapply lookup_lt_Some). by rewrite <- H1, EH.
  - intros h K' id s. assert (forall s, (exists y, sessions w !! s = Some y /\ handler y = h) -> exists y, (sessions w ++ [x]) !! s = Some y /\ handler y = h) as Hkeep.
    { intros s' (y & Hy & ?). exists y. split; [by apply lookup_app_l_Some|done]. }
    destruct (decide (h = c_handler o)) as [->|Hne]; [|rewrite list_lookup_insert_ne by done; intros; apply Hkeep; by eapply H2].
    rewrite list_lookup_insert_eq by (by eapply lookup_lt_Some). intros [= <-]. subst H'. cbn.
    intros [[<- <-]|[_ Hid]]%lookup_insert_Some; [|apply Hkeep; by eapply H2]. exists x. split; [|done]. by rewrite lookup_app_r, Nat.sub_diag.
  - intros s y [Hy|[_ Hy]]%lookup_app_Some; [by eapply H3|]. apply list_lookup_singleton_Some in Hy as [_ <-]. done.
Qed.

Lemma commands_step w w' : shell_step Environ SHELL w w' -> commands_ok w -> commands_ok w'.
Proof.
  intros Hst Hw. destruct Hst as [w h id payload final acquired bad|w c w' E|w c failed w' E|w c w' E|w h id payload|w h id|w h id|w h|w t ts1 ts2 Et|w s tag chunk wrote eof w' E|w s e|w s w' E|w s w' E|w s timeout w' E].
  - unfold syn_admit. destruct (handlers w !! h) as [H|]; [|done]. destruct (decode_open payload); [|by apply (commands_same w)].
    destruct (AcquireSlot H); [destruct acquired; by apply (commands_same w)|]. destruct (0 <? MaxConcurrent H); [|by apply (commands_same w)].
    destruct (admission w (MaxConcurrent H) (OwnerCredential H)) as [w1 r] eqn:Ea. destruct (admit_spec _ _ _ _ _ Ea) as (_ & _ & E3 & _ & E5 & _).
    destruct r as [[a d]|]; by apply (commands_same w).
  - unfold syn_evict in E. repeat case_match; simplify_eq; by apply (commands_same w).
  - by eapply commands_spawn.
  - unfold syn_register in E. destruct (opening w !! c) as [o|]; [|done]. destruct (c_stage o) as [| |s]; try done. injection E as <-.
    set (w1 := match c_slot o with Listed a => _ | _ => w end). assert (commands_ok w1) as H1 by (subst w1; destruct (c_slot o); by apply (commands_same w)).
    set (f := fun x => x <| pumps := match terminal x with Some _ => [stdout_tag] | None => [stdout_tag; stderr_tag] end |> <| at_ := Waiting |>). assert (commands_ok (on_session s f w1)) as H2 by by apply commands_aside.
    set (w3 := on_session s f w1 <| opening := delete c (opening w) |>). assert (commands_ok w3) as H3 by by apply (commands_same (on_session s f w1)).
    destruct (c_final o && _); [|done]. by apply commands_aside_if.
  - unfold OnDAT. destruct payload as [|tag body]; [done|]. destruct (lookup_session w h id) as [s|] eqn:Es; [|done].
    destruct (view_only w h) eqn:Ev.
    + repeat case_match; try done. apply commands_aside; [|done]. intros x. unfold resize. by destruct (terminal x).
    + repeat case_match; try done; apply (commands_input w h id s _ Hw Es Ev); intros x; unfold writeInput, resize; by repeat case_match.
  - unfold OnFIN, closeStdin. destruct (view_only w h); [done|]. by apply commands_aside_if.
  - unfold OnReset. by apply commands_aside_if.
  - unfold Close. destruct (handlers w !! h) as [H|] eqn:EH; [|done]. destruct (closed H); [done|].
    set (w1 := w <| handlers := <[h := H <| closed := true |>]> (handlers w) |>). assert (commands_ok w1) as H1 by by eapply commands_handlers.
    destruct (map_to_list (streams H)).*2; [done|by apply (commands_same w1)].
  - set (w1 := w <| tasks := ts1 ++ ts2 |>). assert (commands_ok w1) as H1 by by apply (commands_same w). clearbody w1. destruct t as [s|s|ss]; cbn [run_task].
    + destruct (sessions w1 !! s) as [x|]; [|done]. apply commands_aside; [done|]. by apply (commands_same w1).
    + by apply commands_aside.
    + apply (foldl_invariant (fun w s => on_session s (fun x => if is_done x then x else x <| killed := true |>) w) commands_ok); [|done].
      intros v s Hv. apply commands_aside; [|done]. intros x. by destruct (is_done x).
  - unfold pump in E. destruct (sessions w !! s) as [x|]; [|done]. destruct (bool_decide _ && _); [|done]. injection E as <-.
    repeat case_match; try done; repeat first [apply commands_aside; [done|] | by apply (commands_same w)].
  - apply commands_aside; [|done]. intros x. by destruct (exited x).
  - unfold wait_detach in E. destruct (sessions w !! s) as [x|]; [|done]. destruct (at_ x); try done. destruct (exited x); [|done].
    destruct (handlers w !! handler x) as [H|] eqn:EH; [|done]. injection E as <-. apply commands_aside; [done|].
    eapply commands_handlers; [done|done| |done]. cbn. by intros id s' [_ ?]%lookup_delete_Some.
  - unfold wait_release in E. destruct (sessions w !! s) as [x|]; [|done]. destruct (at_ x); try done. injection E as <-. apply commands_aside; [done|].
    apply (commands_same w); [| |done]; unfold release_slot, release; by repeat case_match.
  - unfold wait_finish in E. destruct (sessions w !! s) as [x|]; [|done]. destruct (at_ x); try done. destruct (exited x); [|done].
    destruct (bool_decide _ || _); [|done]. injection E as <-.
    set (f := fun x => _). apply (commands_same (on_session s f w)); [done|done|by apply commands_aside].
Qed.

(** No handler made has a stream. *)
Definition fresh_handlers : Prop := Forall (fun H => streams H = ∅) hs.

Lemma commands_running w : fresh_handlers -> running Environ SHELL hs w -> commands_ok w.
Proof.
  intros Hf Hr. refine (steps_invariant _ commands_ok _ _ _ Hr _); [intros a b Ha Hab; by eapply commands_step|].
  constructor; cbn; [done| |done]. intros h H id s HH. rewrite (Forall_lookup_1 _ _ _ _ Hf HH). by rewrite lookup_empty.
Qed.
End Commands.

(** * The list of live shells *)

(** How one step changes the list: a handler's call is admitted, or a call gives its place back. *)
Definition live_change (w w' : Shells) : Prop :=
  (exists h H w1 a d, handlers w !! h = Some H /\ AcquireSlot H = false /\ 0 < MaxConcurrent H /\
     admission w (MaxConcurrent H) (OwnerCredential H) = (w1, Some (a, d)) /\ live w' = live w1 /\ calls w' = S (calls w)) \/
  live w' = live w \/
  (exists c a, holding w c (Listed a) /\ live w' = live (release w a) /\ released w' c = S (released w c)).

Lemma live_drop w w0 c x : live w0 = live w -> log w0 = log w \/ (exists e1 e2, log w0 = log w ++ [e1; e2] /\ is_release c e1 = false /\ is_release c e2 = false) ->
  holding w c x -> live_change w (release_slot w0 c x).
Proof.
  intros El Elog Hh. assert (released (release_slot w0 c x) c = S (released w c)) as Er.
  { assert (log (release_slot w0 c x) = log w0 ++ [Released c]) as El' by (unfold release_slot, release; by repeat case_match).
    unfold released. rewrite El', count_app. cbn. rewrite bool_decide_true by done. destruct Elog as [->|(e1 & e2 & -> & E1 & E2)]; [lia|].
    rewrite count_app. cbn. rewrite E1, E2. lia. }
  destruct x as [| |a]; [by right; left..|]. right; right. exists c, a. split_and!; [done| |done].
  unfold release_slot, release. cbn. rewrite El. by repeat case_match.
Qed.

Lemma live_step Environ SHELL w w' : shell_step Environ SHELL w w' -> live_change w w'.
Proof.
  intros Hst. destruct Hst as [w h id payload final acquired bad|w c w' E|w c failed w' E|w c w' E|w h id payload|w h id|w h id|w h|w t ts1 ts2 Et|w s tag chunk wrote eof w' E|w s e|w s w' E|w s w' E|w s timeout w' E].
  - unfold syn_admit. destruct (handlers w !! h) as [H|] eqn:EH; [|by right; left]. destruct (decode_open payload); [|by right; left].
    destruct (AcquireSlot H) eqn:Es; [destruct acquired; by right; left|]. destruct (0 <? MaxConcurrent H) eqn:Em; [|by right; left]. bool_to_prop.
    destruct (admission w (MaxConcurrent H) (OwnerCredential H)) as [w1 r] eqn:Ea. destruct (admit_spec _ _ _ _ _ Ea) as (_ & E2 & _ & _ & _ & _ & Er).
    destruct r as [[a d]|]; [|right; left; by rewrite Er]. left. exists h, H, w1, a, d. split_and!; try done. cbn. by rewrite E2.
  - right; left. unfold syn_evict in E. by repeat case_match; simplify_eq.
  - unfold syn_spawn in E. destruct (opening w !! c) as [o|] eqn:Eo; [|done]. destruct (c_stage o); try done. destruct (handlers w !! c_handler o); [|done]. injection E as <-.
    assert (forall msg, live_change w (refuse w c o msg)) as Hr.
    { intros msg. apply live_drop; [done| |left; by exists o]. right. do 2 eexists. split; [cbn; rewrite <- app_assoc; reflexivity|done]. }
    repeat case_match; first [by right; left | apply Hr].
  - right; left. unfold syn_register, closeStdin in E. destruct (opening w !! c) as [o|]; [|done]. destruct (c_stage o); try done. injection E as <-.
    destruct (c_slot o), (c_final o && _); cbn; try done; by case_match.
  - right; left. unfold OnDAT. by repeat case_match.
  - right; left. unfold OnFIN, closeStdin. by repeat case_match.
  - right; left. unfold OnReset. by repeat case_match.
  - right; left. unfold Close. by repeat case_match.
  - right; left. destruct t; cbn; [by case_match|done|]. refine (foldl_invariant _ (fun v => live v = live w) _ ss _ _); [|done]. by intros v s <-.
  - right; left. unfold pump in E. destruct (sessions w !! s); [|done]. destruct (bool_decide _ && _); [|done]. injection E as <-. by repeat case_match.
  - by right; left.
  - right; left. unfold wait_detach in E. by repeat case_match; simplify_eq.
  - unfold wait_release in E. destruct (sessions w !! s) as [x|] eqn:Ex; [|done]. destruct (at_ x) eqn:Ea; try done. injection E as <-.
    assert (live_change w (release_slot w (call x) (holds x))) as H; [|exact H].
    apply live_drop; [done|by left|]. right. exists s, Detached. split; [|done]. rewrite Ex. cbn. unfold key. by rewrite Ea.
  - right; left. unfold wait_finish in E. repeat case_match; by simplify_eq.
Qed.

(** Every handler that the process-wide limit governs has the same one. *)
Definition one_limit (max : Z) (hs : list ShellHandler) : Prop := Forall (fun H => AcquireSlot H = false -> 0 < MaxConcurrent H -> MaxConcurrent H = max) hs.

Lemma release_shorter w a : zlen (live (release w a)) <= zlen (live w).
Proof. unfold release. destruct (list_find _ _) as [[i b]|] eqn:E; [|done]. cbn. unfold zlen. pose proof (sublist_length _ _ (sublist_delete (live w) i)). lia. Qed.

Lemma limit_running Environ SHELL max hs w : fresh_handlers hs -> one_limit max hs -> 0 < max -> running Environ SHELL hs w -> zlen (live w) <= max.
Proof.
  intros Hf Hm Hmax Hr. assert (commands_ok Environ hs w /\ zlen (live w) <= max) as [_ ?]; [|done].
  refine (steps_invariant _ (fun w => commands_ok Environ hs w /\ zlen (live w) <= max) _ _ _ Hr _).
  - intros a b [Ha Hl] Hab. split; [by eapply commands_step|]. destruct (live_step _ _ _ _ Hab) as [(h & H & w1 & n & d & HH & Hs & Hp & Had & -> & _)|[->|(c & n & _ & -> & _)]].
    + pose proof (g_config _ _ _ Ha h) as Hc. rewrite HH in Hc. cbn in Hc. symmetry in Hc. apply fmap_Some in Hc as (K & HK & Hc).
      pose proof (Forall_lookup_1 _ _ _ _ Hm HK) as HmK. cbn in HmK.
      assert (AcquireSlot H = AcquireSlot K /\ MaxConcurrent H = MaxConcurrent K) as [E1 E2] by (split; [by apply (f_equal AcquireSlot) in Hc|by apply (f_equal MaxConcurrent) in Hc]).
      rewrite E1, E2 in *. rewrite HmK in * by done.
      destruct (admit_spec _ _ _ _ _ Had) as (_ & _ & _ & _ & _ & _ & _ & _ & l & _ & _ & Hb & _). by apply Hb.
    + done.
    + pose proof (release_shorter a n). lia.
  - split; [|cbn; unfold zlen; cbn; lia]. apply (commands_running Environ SHELL); [done|constructor].
Qed.

(** Shell places are accounted for exactly. However calls, evictions, exits and teardowns interleave, at
    most the configured number of shells is listed as live, each listed one belongs to a call being served or
    to a process that has not been released, and every call that got a slot gives it back exactly once, and
    only when it is refused or its process has ended. *)
Theorem shell_slots_exact Environ SHELL max hs w :
  fresh_handlers hs -> one_limit max hs -> 0 < max -> running Environ SHELL hs w ->
  zlen (live w) <= max /\ NoDup (live w) /\ (forall a, a ∈ live w -> exists c, holding w c (Listed a)) /\
  (forall c, (c < calls w)%nat -> released w c = 0%nat /\ (exists x, holding w c x) \/ released w c = 1%nat /\ forall x, ~ holding w c x).
Proof.
  intros Hf Hm Hmax Hr. assert (slots_ok w) as Hw.
  { refine (steps_invariant _ slots_ok _ _ _ Hr (slots_start hs)). intros a b Ha Hab. by eapply slots_step. }
  split_and!; [by eapply limit_running|apply Hw|intros a Ha; by apply (k_live _ Hw)|].
  intros c Hc. destruct (proj2 (k_calls _ Hw c) Hc) as [H1|[H0 Hh]]; [right|by left]. split; [done|].
  intros x [(o & Ho & _)|(s & l & Hs & Hl)].
  - apply (k_opening _ Hw) in Ho as (_ & ? & _). lia.
  - apply (k_session _ Hw) in Hs as (_ & Hs & _). rewrite Hl in Hs. lia.
Qed.

(** A link cannot end the device owner's shell. A live shell held on the owner's own credential leaves the
    list only when its own call gives the place back or another shell of the owner is admitted; and the
    owner is never refused for want of a place. *)
Theorem owner_keeps_shell Environ SHELL hs w :
  fresh_handlers hs -> running Environ SHELL hs w ->
  (forall w' a, shell_step Environ SHELL w w' -> a ∈ live w -> is_protected w a = true -> a ∉ live w' ->
     (exists c, holding w c (Listed a) /\ released w' c = S (released w c)) \/
     (exists h H, hs !! h = Some H /\ OwnerCredential H = true /\ calls w' = S (calls w))) /\
  (forall h H id payload o final acquired bad, handlers w !! h = Some H -> OwnerCredential H = true -> AcquireSlot H = false ->
     decode_open payload = Some o -> calls (syn_admit w h id payload final acquired bad) = S (calls w)).
Proof.
  intros Hf Hr. pose proof (commands_running _ _ _ _ Hf Hr) as Hw. split.
  - intros w' a Hst Ha Hp Hn. destruct (live_step _ _ _ _ Hst) as [(h & H & w1 & n & d & HH & _ & _ & Had & El & Ec)|[El|(c & n & Hh & El & Er)]].
    + right. rewrite El in Hn. destruct (admit_spec _ _ _ _ _ Had) as (_ & _ & _ & _ & _ & _ & _ & _ & l & E & _ & _ & Hx).
      rewrite E in Hn. destruct (Hx a Ha) as [_ [Ho|Ho]]; [intros ?; apply Hn; apply elem_of_app; by left| |congruence].
      pose proof (g_config _ _ _ Hw h) as Hc. rewrite HH in Hc. cbn in Hc. symmetry in Hc. apply fmap_Some in Hc as (K & HK & Hc).
      exists h, K. split_and!; [done| |done]. apply (f_equal OwnerCredential) in Hc. cbn in Hc. congruence.
    + congruence.
    + left. exists c. destruct (decide (a = n)) as [->|Hne]; [done|]. exfalso. apply Hn. rewrite El. unfold release.
      destruct (list_find _ _) as [[i b]|] eqn:E; [|done]. apply list_find_Some in E as (Hi & -> & _). cbn.
      pose proof (elem_of_Permutation_proper a _ _ (delete_Permutation _ _ _ Hi)) as Eb. rewrite elem_of_cons in Eb. by destruct (proj1 Eb Ha).
  - intros h H id payload o final acquired bad HH Ho Hs Hd. unfold syn_admit. rewrite HH, Hd, Hs. destruct (0 <? MaxConcurrent H); [|done]. rewrite Ho.
    destruct (admission w (MaxConcurrent H) true) as [w1 [[a d]|]] eqn:Ea; destruct (admit_spec _ _ _ _ _ Ea) as (_ & E2 & _ & _ & _ & _ & Er); [by cbn; rewrite E2|].
    exfalso. unfold admission in Ea. destruct (_ && _) eqn:Eb; [|done]. unfold oldestDisplaceable in Ea.
    destruct (list_find _ (live w)) as [[i b]|] eqn:El; [done|]. apply list_find_None in El. apply andb_true_iff in Eb as [E1 E3].
    destruct (live w) as [|n l]; [unfold zlen in E3; cbn in E3; bool_to_prop; lia|]. apply Forall_cons in El as [El _]. by apply El.
Qed.

(** A listener's shell configuration binds every connector. Whatever a connector sends and however the steps
    interleave, a handler pinned to a command runs that command, in the environment it was given and the
    listener's own directory, and nothing else; and no input or signal of a view-only connector ever
    reaches a process. *)
Theorem shell_configuration_binds Environ SHELL hs w s x H :
  fresh_handlers hs -> running Environ SHELL hs w -> sessions w !! s = Some x -> hs !! handler x = Some H ->
  (ForcedArgv H <> [] -> cmd x = mkCommand (ForcedArgv H) (default Environ (ForcedEnv H)) ∅ []) /\
  (ViewOnly H = true -> input x = [] /\ signals x = []).
Proof.
  intros Hf Hr Hs HH. destruct (g_sessions _ _ _ (commands_running _ _ _ _ Hf Hr) _ _ Hs) as (K & HK & Ha & Hb). rewrite HH in HK. by injection HK as <-.
Qed.

(** * Runs *)

Definition a_link : ShellHandler := mkShell [] None false false false 1 ∅ false.
Definition the_owner : ShellHandler := mkShell [] None true false false 1 ∅ false.
Definition a_viewer : ShellHandler := mkShell [$"tmux"; $"attach"] None false true false 1 ∅ false.

(** Two connectors ask before either shell has started. *)
Definition two_asked (hs : list ShellHandler) : Shells :=
  syn_admit (syn_admit (start hs) 0 1 $"{}" false None []) 1 1 $"{}" false None [].
Definition first_displaced (hs : list ShellHandler) : Shells := default (two_asked hs) (syn_evict (two_asked hs) 1).
Definition started (c : nat) (w : Shells) : Shells := default w (syn_spawn [] [] w c None ≫= fun w1 => syn_register w1 c).
Definition both_started : Shells := started 1 (started 0 (first_displaced [a_link; a_link])).

Lemma started_running hs c w : running [] [] hs w -> running [] [] hs (started c w).
Proof.
  intros Hr. unfold started. destruct (syn_spawn [] [] w c None) as [w1|] eqn:E1; [|done]. cbn [mbind option_bind].
  destruct (syn_register w1 c) as [w2|] eqn:E2; [|done]. refine (steps_trans _ _ _ _ Hr _).
  eapply steps_cons; [by eapply sh_spawn|]. by eapply steps_one, sh_register.
Qed.

Lemma asked_running hs : running [] [] hs (first_displaced hs).
Proof.
  assert (running [] [] hs (two_asked hs)) as H by (eapply steps_cons; [apply sh_admit|]; eapply steps_one, sh_admit).
  unfold first_displaced. destruct (syn_evict (two_asked hs) 1) as [w|] eqn:E; [|done]. refine (steps_trans _ _ _ _ H _). by eapply steps_one, sh_evict.
Qed.

(** A shell displaced before its process started is not ended: with a limit of one, two shells run, no
    goroutine is left to end either, and only the second is on the list. *)
Lemma displaced_while_starting :
  running [] [] [a_link; a_link] both_started /\ live both_started = [1%nat] /\ tasks both_started = [] /\ opening both_started = ∅ /\
  map at_ (sessions both_started) = [Waiting; Waiting] /\ map hangups (sessions both_started) = [0; 0]%nat /\ map killed (sessions both_started) = [false; false].
Proof. split; [by apply started_running, started_running, asked_running|]. by vm_compute. Qed.

Lemma shell_slots_exact_witness : zlen (live both_started) <= 1 /\ released both_started 0 = 0%nat.
Proof.
  destruct (shell_slots_exact [] [] 1 [a_link; a_link] both_started) as (H & _ & _ & _).
  - by repeat constructor.
  - by repeat constructor.
  - lia.
  - by apply started_running, started_running, asked_running.
  - split; [exact H|]. vm_compute. reflexivity.
Defined.

Definition owner_first : Shells := started 0 (syn_admit (start [the_owner; a_link]) 0 1 $"{}" false None []).

Lemma owner_first_running : running [] [] [the_owner; a_link] owner_first.
Proof. apply started_running. eapply steps_one, sh_admit. Qed.

Lemma owner_keeps_shell_witness :
  live owner_first = [0%nat] /\ is_protected owner_first 0 = true /\
  calls (syn_admit owner_first 0 2 $"{}" false None []) = 2%nat /\ live (syn_admit owner_first 1 1 $"{}" false None []) = [0%nat].
Proof.
  split; [vm_compute; reflexivity|]. split; [vm_compute; reflexivity|]. split; [|vm_compute; reflexivity].
  refine (proj2 (owner_keeps_shell [] [] [the_owner; a_link] owner_first _ owner_first_running) 0%nat (the_owner <| streams := {[1 := 0%nat]} |>) 2 $"{}" (mkOpen [] false 0 0 ∅ []) false None [] _ _ _ _); try reflexivity; vm_compute; try reflexivity; repeat constructor.
Defined.

Definition watching : Shells := OnDAT (started 0 (syn_admit (start [a_viewer]) 0 1 (json_text $"{'pty':true}") false None [])) 0 1 (chr 0 :: $"rm -rf /").

Lemma shell_configuration_binds_witness : exists x, sessions watching !! 0%nat = Some x /\ argv (cmd x) = [$"tmux"; $"attach"] /\ input x = [].
Proof.
  destruct (sessions watching !! 0%nat) as [x|] eqn:E; [|vm_compute in E; discriminate]. exists x. split; [reflexivity|].
  assert (handler x = 0%nat) as Eh by (vm_compute in E; injection E as <-; reflexivity).
  destruct (shell_configuration_binds [] [] [a_viewer] watching 0 x a_viewer) as [H1 H2].
  - by repeat constructor.
  - unfold watching. refine (steps_trans _ _ _ _ (started_running [a_viewer] 0 _ _) _); [eapply steps_one, sh_admit|eapply steps_one, sh_dat].
  - exact E.
  - rewrite Eh. reflexivity.
  - split; [rewrite H1 by done; reflexivity|apply H2; reflexivity].
Defined.
