(* ===== verification/ShellOutput.v ===== *)
(** A command run over a stream, end to end: what the listener's pumps read is what the connector's Shell
    writes out, and the exit status is the process's. *)

From S2P Require Import Prelude GoLib Protocol Json Wire JsonRoundTrip Shell ShellSpec.

(** What a session sent, and what its pumps read. *)
Definition replies_of (s : nat) (e : event) : list reply := match e with Reply _ _ (Some s') r => if decide (s' = s) then [r] else [] | _ => [] end.
Definition output_of (s : nat) (tag : Z) (e : event) : bytes := match e with Output s' t c => if decide (s' = s /\ t = tag) then c else [] | _ => [] end.
Definition replies (w : Shells) (s : nat) : list reply := log w ≫= replies_of s.
Definition output (w : Shells) (s : nat) (tag : Z) : bytes := log w ≫= output_of s tag.

Definition dat (c : Z * bytes) : reply := WriteDAT (chr c.1 :: c.2).
Definition tagged (tag : Z) (cs : list (Z * bytes)) : bytes := cs ≫= fun c => if decide (c.1 = tag) then c.2 else [].

(** An error in the middle of a session: it was displaced. *)
Definition is_error (r : reply) : Prop := match r with WriteSYN _ => True | _ => False end.

Definition trailer (x : shellSession) : list reply :=
  match at_ x, exited x with Finished, Some e => [WriteFIN (fin_payload e)] | _, _ => [] end.

Definition output_ok (w : Shells) (s : nat) (x : shellSession) : Prop :=
  cancelled x = false -> Forall (fun r => ~ is_error r) (replies w s) ->
  (at_ x = Finished -> pumps x = []) /\ (forall t, t ∈ pumps x -> t = stdout_tag \/ t = stderr_tag) /\
  exists cs, replies w s = map dat cs ++ trailer x /\ Forall (fun c => (c.1 = stdout_tag \/ c.1 = stderr_tag) /\ c.2 <> []) cs /\
    forall tag, output w s tag = tagged tag cs.

Record run_ok (w : Shells) : Prop := {
  r_sessions s x : sessions w !! s = Some x -> output_ok w s x;
  r_none s : (length (sessions w) <= s)%nat -> replies w s = [] /\ forall tag, output w s tag = [];
  r_exited s x : sessions w !! s = Some x -> at_ x <> Starting -> at_ x <> Waiting -> is_Some (exited x)
}.

(** * Changes that do not concern the output *)

Definition silent (e : event) : Prop := forall s, replies_of s e = [] /\ forall tag, output_of s tag e = [].

Lemma silent_log w w' es : log w' = log w ++ es -> Forall silent es -> forall s, replies w' s = replies w s /\ forall tag, output w' s tag = output w s tag.
Proof.
  intros El Hs s. unfold replies, output. rewrite El. setoid_rewrite bind_app.
  assert (es ≫= replies_of s = [] /\ forall tag, es ≫= output_of s tag = []) as [-> H].
  { clear El. induction Hs as [|e es He _ [IH1 IH2]]; [done|]. cbn. destruct (He s) as [-> H]. split; [done|]. intros tag. by rewrite H, IH2. }
  rewrite app_nil_r. split; [done|]. intros tag. by rewrite H, app_nil_r.
Qed.

Lemma run_quiet w w' es : sessions w' = sessions w -> log w' = log w ++ es -> Forall silent es -> run_ok w -> run_ok w'.
Proof.
  intros Es El Hs [H1 H2 H3]. pose proof (silent_log w w' es El Hs) as E. constructor; rewrite Es; [|intros s Hn; destruct (E s) as [-> E']; setoid_rewrite E'; by apply H2|done].
  intros s x Hx. specialize (H1 s x Hx). unfold output_ok in *. destruct (E s) as [-> E']. by setoid_rewrite E'.
Qed.

Lemma run_same w w' : sessions w' = sessions w -> log w' = log w -> run_ok w -> run_ok w'.
Proof. intros Es El. apply (run_quiet w w' []); [done|by rewrite app_nil_r|constructor]. Qed.

Lemma run_session w s f :
  (forall x, sessions w !! s = Some x -> (output_ok w s x -> output_ok w s (f x)) /\ (at_ (f x) <> Starting -> at_ (f x) <> Waiting -> is_Some (exited x) -> is_Some (exited (f x))) /\
     (at_ (f x) <> Starting -> at_ (f x) <> Waiting -> at_ x <> Starting /\ at_ x <> Waiting \/ is_Some (exited x))) ->
  run_ok w -> run_ok (on_session s f w).
Proof.
  intros Hf [H1 H2 H3]. constructor; cbn.
  - intros s' x. destruct (decide (s' = s)) as [->|Hne]; [|rewrite list_lookup_alter_ne by done; apply H1].
    rewrite list_lookup_alter_eq. intros (y & Hy & ->)%fmap_Some. apply (Hf y Hy). by apply H1.
  - intros s'. rewrite length_alter. apply H2.
  - intros s' x. destruct (decide (s' = s)) as [->|Hne]; [|rewrite list_lookup_alter_ne by done; apply H3].
    rewrite list_lookup_alter_eq. intros (y & Hy & ->)%fmap_Some Ha Hb. destruct (Hf y Hy) as (_ & He & Hs). apply He; [done..|].
    destruct (Hs Ha Hb) as [[? ?]|?]; [by eapply H3|done].
Qed.

(** The input side of a session, its end and its cancellation. *)
Definition mild (f : shellSession -> shellSession) : Prop := forall x,
  (cancelled (f x) = false -> cancelled x = false) /\ (forall t, t ∈ pumps (f x) -> t ∈ pumps x) /\ at_ (f x) = at_ x /\
  (exited (f x) = exited x \/ exited x = None).

Lemma run_mild w s f : mild f -> run_ok w -> run_ok (on_session s f w).
Proof.
  intros Hf Hw. apply run_session; [|done]. intros x Hx. destruct (Hf x) as (Hc & Hp & Ha & He). split_and!.
  - intros Ho Hcf Hr. destruct (Ho (Hc Hcf) Hr) as (Hpu & Ht & cs & Hcs). rewrite Ha. split_and!.
    + intros Hfin. destruct (pumps (f x)) as [|t l] eqn:E; [done|]. specialize (Hp t). rewrite (Hpu Hfin) in Hp. by apply elem_of_nil in Hp; [|left].
    + intros t ?%Hp. by apply Ht.
    + exists cs. assert (trailer (f x) = trailer x) as ->; [|done]. unfold trailer. rewrite Ha. destruct (at_ x) eqn:Ea; try done.
      destruct He as [->|He]; [done|]. destruct (r_exited _ Hw s x Hx) as [? ?]; congruence.
  - intros Hs1 Hs2 [e Hex]. destruct He as [->|He]; [by eexists|congruence].
  - rewrite Ha. by left.
Qed.

Lemma mild_refl f : (forall x, cancelled (f x) = cancelled x /\ pumps (f x) = pumps x /\ at_ (f x) = at_ x /\ exited (f x) = exited x) -> mild f.
Proof. intros Hf x. destruct (Hf x) as (-> & -> & -> & ->). split_and!; try done. by left. Qed.

Lemma run_mild_if w b f : mild f -> run_ok w -> run_ok match b : option nat with Some s => on_session s f w | None => w end.
Proof. intros Hf Hw. destruct b; [by apply run_mild|done]. Qed.

(** * Steps *)

Lemma silent_reply h id r : silent (Reply h id None r).
Proof. done. Qed.
Lemma silent_released c : silent (Released c).
Proof. done. Qed.

Lemma run_error w h id msg : run_ok w -> run_ok (sendShellError w h id None msg).
Proof. eapply run_quiet; [done|cbn; by rewrite <- app_assoc|by repeat constructor]. Qed.

Lemma release_slot_log w c x : sessions (release_slot w c x) = sessions w /\ log (release_slot w c x) = log w ++ [Released c].
Proof. unfold release_slot, release. by repeat case_match. Qed.

Lemma run_release w c x : run_ok w -> run_ok (release_slot w c x).
Proof. destruct (release_slot_log w c x) as [Es El]. apply (run_quiet w _ _ Es El). by repeat constructor. Qed.

Lemma run_new_session w w' x :
  sessions w' = sessions w ++ [x] -> log w' = log w -> at_ x = Starting -> pumps x = [] -> run_ok w -> run_ok w'.
Proof.
  intros Es El Ha Hp [H1 H2 H3]. unfold replies, output in *. constructor; unfold output_ok, replies, output; rewrite ?Es, ?El.
  - intros s y [Hy|[Hlen Hy]]%lookup_app_Some; [by apply H1|]. apply list_lookup_singleton_Some in Hy as [_ <-].
    intros _ _. destruct (H2 s) as [Er Eo]; [lia|]. rewrite Ha, Hp. split_and!; [done|by intros t ?%elem_of_nil|].
    exists []. rewrite Er. unfold trailer. rewrite Ha. split_and!; [done|constructor|done].
  - intros s. rewrite length_app. cbn. intros ?. apply H2. lia.
  - intros s y [Hy|[_ Hy]]%lookup_app_Some; [by eapply H3|]. apply list_lookup_singleton_Some in Hy as [_ <-]. congruence.
Qed.

(** A session's next frame. *)
Lemma run_emit w s x h id r :
  sessions w !! s = Some x -> run_ok w ->
  (output_ok w s x -> cancelled x = false -> Forall (fun r => ~ is_error r) (replies w s) -> ~ is_error r ->
    output_ok (emit (Reply h id (Some s) r) w) s x) ->
  run_ok (emit (Reply h id (Some s) r) w).
Proof.
  intros Hx [H1 H2 H3] Ho. set (w' := emit _ w).
  assert (forall s', replies w' s' = replies w s' ++ if decide (s = s') then [r] else []) as Er.
  { intros s'. unfold replies, w'. cbn. rewrite bind_app. cbn. case_decide; cbn; by rewrite ?app_nil_r. }
  assert (forall s' tag, output w' s' tag = output w s' tag) as Eo by (intros s' tag; unfold output, w'; cbn; rewrite bind_app; cbn; by rewrite app_nil_r).
  constructor; [|intros s' Hs'; rewrite Er, decide_False, app_nil_r|exact H3].
  - intros s' y Hy. change (sessions w') with (sessions w) in Hy. destruct (decide (s = s')) as [<-|Hne].
    + rewrite Hx in Hy. injection Hy as <-. intros Hc Hr. specialize (Er s). rewrite decide_True in Er by done. rewrite Er in Hr.
      apply Forall_app in Hr as [Hr Hr1]. apply Forall_cons in Hr1 as [Hr1 _]. apply (Ho (H1 _ _ Hx) Hc Hr Hr1 Hc). fold w'. rewrite Er. apply Forall_app. split; [done|by apply Forall_singleton].
    + specialize (H1 s' y Hy). unfold output_ok in *. rewrite Er, decide_False, app_nil_r by done. by setoid_rewrite Eo.
  - setoid_rewrite Eo. by apply H2.
  - intros ->. apply lookup_lt_Some in Hx. change (sessions w') with (sessions w) in Hs'. lia.
Qed.

Lemma run_evict w s x h id msg : sessions w !! s = Some x -> run_ok w -> run_ok (sendShellError w h id (Some s) msg).
Proof.
  intros Hx Hw. unfold sendShellError. set (m := print_json _). clearbody m. apply (run_emit _ s x); [done| |].
  - apply (run_emit _ s x); [done|done|]. intros _ _ _ H. by destruct H.
  - intros _ _ Hr _. exfalso. unfold replies in Hr. cbn in Hr. rewrite bind_app in Hr. apply Forall_app in Hr as [_ Hr]. cbn in Hr.
    rewrite decide_True in Hr by done. apply Forall_cons in Hr as [Hr _]. by apply Hr.
Qed.

(** A read of a pump that goes out. *)
Lemma run_read w s x tag chunk :
  sessions w !! s = Some x -> tag ∈ pumps x -> chunk <> [] -> cancelled x = false -> run_ok w ->
  run_ok (emit (Reply (handler x) (stream x) (Some s) (WriteDAT (chr tag :: chunk))) (emit (Output s tag chunk) w)).
Proof.
  intros Hx Ht Hc Hca [H1 H2 H3]. set (w' := emit _ (emit _ w)).
  assert (forall s', replies w' s' = replies w s' ++ if decide (s = s') then [dat (tag, chunk)] else []) as Er.
  { intros s'. unfold replies, w'. cbn. rewrite !bind_app. cbn. rewrite app_nil_r. case_decide; cbn; by rewrite ?app_nil_r. }
  assert (forall s' t, output w' s' t = output w s' t ++ if decide (s = s' /\ tag = t) then chunk else []) as Eo.
  { intros s' t. unfold output, w'. cbn. rewrite !bind_app. cbn. by rewrite !app_nil_r. }
  constructor; [|intros s' Hs'; rewrite Er|exact H3].
  - intros s' y Hy. change (sessions w') with (sessions w) in Hy. destruct (decide (s = s')) as [<-|Hne].
    + rewrite Hx in Hy. injection Hy as <-. intros _ Hr. specialize (Er s). rewrite decide_True in Er by done. rewrite Er in Hr.
      apply Forall_app in Hr as [Hr _]. destruct (H1 s x Hx Hca Hr) as (Hpu & Hpt & cs & Ecs & Hcs & Ho). split_and!; [done|done|].
      assert (trailer x = []) as Etr. { unfold trailer. destruct (at_ x); try done. rewrite Hpu in Ht by done. by apply elem_of_nil in Ht. }
      exists (cs ++ [(tag, chunk)]). rewrite Er, Ecs, Etr, map_app, !app_nil_r. split_and!; [done| |].
      * apply Forall_app. split; [done|]. apply Forall_singleton. split; [by apply Hpt|done].
      * intros t. rewrite Eo, Ho. unfold tagged. rewrite bind_app. cbn. rewrite app_nil_r. f_equal. repeat case_decide; first [done | exfalso; tauto].
    + specialize (H1 s' y Hy). unfold output_ok in *. rewrite Er, decide_False, app_nil_r by done.
      assert (forall t, output w' s' t = output w s' t) as E by (intros t; rewrite Eo, decide_False, app_nil_r by tauto; done). by setoid_rewrite E.
  - apply lookup_lt_Some in Hx. change (sessions w') with (sessions w) in Hs'. assert (s <> s') by lia.
    rewrite decide_False, app_nil_r by done. destruct (H2 s' Hs') as [-> E]. split; [done|]. intros t. rewrite Eo, E, decide_False by tauto. done.
Qed.

(** A read after the cancellation, which goes nowhere. *)
Lemma run_lost w s x tag chunk : sessions w !! s = Some x -> cancelled x = true -> run_ok w -> run_ok (emit (Output s tag chunk) w).
Proof.
  intros Hx Hc [H1 H2 H3]. set (w' := emit _ w). assert (forall s', replies w' s' = replies w s') as Er
    by (intros s'; unfold replies, w'; cbn; rewrite bind_app; cbn; by rewrite app_nil_r).
  assert (forall s' t, s' <> s -> output w' s' t = output w s' t) as Eo.
  { intros s' t Hne. unfold output, w'. cbn. rewrite bind_app. cbn. rewrite decide_False by (intros [? _]; congruence). by rewrite app_nil_r. }
  constructor; [|intros s' Hs'; rewrite Er|exact H3].
  - intros s' y Hy. change (sessions w') with (sessions w) in Hy. destruct (decide (s' = s)) as [->|Hne]; [intros ?; congruence|].
    specialize (H1 s' y Hy). unfold output_ok in *. rewrite Er. assert (forall t, output w' s' t = output w s' t) as E by (intros t; by apply Eo). by setoid_rewrite E.
  - apply lookup_lt_Some in Hx. change (sessions w') with (sessions w) in Hs'. destruct (H2 s' Hs') as [-> E]. split; [done|]. intros t. rewrite Eo; [done|lia].
Qed.

Lemma run_life w s f x :
  sessions w !! s = Some x -> at_ x <> Finished -> at_ (f x) <> Finished -> is_Some (exited x) ->
  cancelled (f x) = cancelled x -> pumps (f x) = pumps x -> exited (f x) = exited x -> run_ok w -> run_ok (on_session s f w).
Proof.
  intros Hx Ha Ha' He Ec Ep Ee. apply run_session. intros y Hy. rewrite Hx in Hy. injection Hy as <-. rewrite Ee. split_and!; [|done|by right].
  unfold output_ok. rewrite Ec, Ep. assert (trailer (f x) = trailer x) as Et by (unfold trailer; by destruct (at_ x), (at_ (f x))).
  rewrite Et. intros Ho Hc Hr. destruct (Ho Hc Hr) as (_ & Ht & Hcs). by split_and!.
Qed.

Lemma run_finish w s x e timeout w' :
  sessions w !! s = Some x -> wait_finish w s timeout = Some w' -> at_ x = Released_ -> exited x = Some e -> run_ok w -> run_ok w'.
Proof.
  intros Hx E Ha Ee Hw. unfold wait_finish in E. rewrite Hx, Ha, Ee in E. destruct (bool_decide _ || _); [|done]. injection E as <-.
  set (f := fun y => _). set (y := f x). assert (sessions (on_session s f w) !! s = Some y) as Hy by (cbn; by rewrite list_lookup_alter_eq, Hx).
  destruct Hw as [H1 H2 H3]. set (w' := emit _ _).
  assert (forall s', replies w' s' = replies w s' ++ if decide (s = s') then [WriteFIN (fin_payload e)] else []) as Er.
  { intros s'. unfold replies, w'. cbn. rewrite bind_app. cbn. case_decide; cbn; by rewrite ?app_nil_r. }
  assert (forall s' tag, output w' s' tag = output w s' tag) as Eo by (intros s' tag; unfold output, w'; cbn; rewrite bind_app; cbn; by rewrite app_nil_r).
  constructor.
  - intros s' z Hz. change (sessions w') with (sessions (on_session s f w)) in Hz. destruct (decide (s' = s)) as [->|Hne].
    + rewrite Hy in Hz. injection Hz as <-. intros Hc Hr. rewrite Er, decide_True in Hr by done. apply Forall_app in Hr as [Hr _].
      cbn in Hc. apply orb_false_iff in Hc as [Hc Hp%negb_false_iff%bool_decide_eq_true]. destruct (H1 s x Hx Hc Hr) as (_ & Ht & cs & Ecs & Hcs & Ho).
      split_and!; [done|done|]. exists cs. rewrite Er, decide_True, Ecs by done. assert (trailer x = []) as -> by (unfold trailer; by rewrite Ha).
      assert (trailer y = [WriteFIN (fin_payload e)]) as -> by (unfold trailer; cbn; by rewrite Ee). rewrite app_nil_r.
      split_and!; [done|done|]. intros tag. by rewrite Eo.
    + cbn in Hz. rewrite list_lookup_alter_ne in Hz by done. specialize (H1 s' z Hz). unfold output_ok in *. rewrite Er, decide_False, app_nil_r by done. by setoid_rewrite Eo.
  - intros s'. change (length (sessions w')) with (length (alter f s (sessions w))). rewrite length_alter. intros Hs'. rewrite Er, decide_False, app_nil_r; [setoid_rewrite Eo; by apply H2|].
    intros ->. apply lookup_lt_Some in Hx. lia.
  - intros s' z Hz. change (sessions w') with (sessions (on_session s f w)) in Hz. destruct (decide (s' = s)) as [->|Hne].
    + rewrite Hy in Hz. injection Hz as <-. cbn. by rewrite Ee.
    + cbn in Hz. rewrite list_lookup_alter_ne in Hz by done. by eapply H3.
Qed.

Lemma run_step Environ SHELL w w' : shell_step Environ SHELL w w' -> slots_ok w -> run_ok w -> run_ok w'.
Proof.
  intros Hst Hk Hw. destruct Hst as [w h id payload final acquired bad|w c w' E|w c failed w' E|w c w' E|w h id payload|w h id|w h id|w h|w t ts1 ts2 Et|w s tag chunk wrote eof w' E|w s e|w s w' E|w s w' E|w s timeout w' E].
  - unfold syn_admit. destruct (handlers w !! h) as [H|]; [|done]. destruct (decode_open payload); [|by apply run_error].
    destruct (AcquireSlot H); [destruct acquired; [by apply run_error|by apply (run_same w)]|]. destruct (0 <? MaxConcurrent H); [|by apply (run_same w)].
    destruct (admission w (MaxConcurrent H) (OwnerCredential H)) as [w1 r] eqn:Ea. destruct (admit_spec _ _ _ _ _ Ea) as (_ & _ & E3 & E4 & _).
    destruct r as [[a d]|]; [by apply (run_same w)|]. apply run_error. by apply (run_same w).
  - unfold syn_evict in E. repeat case_match; simplify_eq; by apply (run_same w).
  - unfold syn_spawn in E. destruct (opening w !! c) as [o|]; [|done]. destruct (c_stage o); try done. destruct (handlers w !! c_handler o); [|done]. injection E as <-.
    assert (forall msg, run_ok (refuse w c o msg)) as Hr.
    { intros msg. unfold refuse. apply run_release. apply (run_same (sendShellError w (c_handler o) (c_stream o) None msg)); [done|done|]. by apply run_error. }
    repeat case_match; first [apply Hr | by eapply run_new_session].
  - unfold syn_register in E. destruct (opening w !! c) as [o|] eqn:Eo; [|done]. destruct (c_stage o) as [| |s] eqn:Es; try done. injection E as <-.
    pose proof (proj1 (proj2 (proj2 (k_opening _ Hk _ _ Eo))) s Es) as Hkey. apply fmap_Some in Hkey as (x & Hx & Hkx). injection Hkx as _ _ Hax.
    set (w1 := match c_slot o with Listed a => _ | _ => w end). assert (run_ok w1) as H1 by (subst w1; destruct (c_slot o); by apply (run_same w)).
    assert (sessions w1 = sessions w) as E1 by (subst w1; by destruct (c_slot o)). clearbody w1.
    set (f := fun x => x <| pumps := match terminal x with Some _ => [stdout_tag] | None => [stdout_tag; stderr_tag] end |> <| at_ := Waiting |>).
    assert (run_ok (on_session s f w1)) as H2.
    { apply run_session; [|done]. intros y Hy. rewrite E1, Hx in Hy. injection Hy as <-. split_and!; [|done|done].
      intros Ho Hc Hr. destruct (Ho Hc Hr) as (_ & _ & cs & E & Hcs). unfold trailer in *. rewrite <- Hax in E. split_and!; [done| |by exists cs].
      cbn. intros t. intros Ht. destruct (terminal x); repeat (apply elem_of_cons in Ht as [->|Ht]; [by auto|]); by apply elem_of_nil in Ht. }
    set (w3 := on_session s f w1 <| opening := delete c (opening w) |>). assert (run_ok w3) as H3 by by apply (run_same (on_session s f w1)).
    destruct (c_final o && _); [|done]. apply run_mild_if; [by apply mild_refl|done].
  - unfold OnDAT. destruct payload as [|tag body]; [done|]. destruct (lookup_session w h id) as [s|]; [|done].
    repeat case_match; try done; apply run_mild; try done; intros x; unfold writeInput, resize; repeat case_match; split_and!; try done; by left.
  - unfold OnFIN. destruct (view_only w h); [done|]. apply run_mild_if; [by apply mild_refl|done].
  - apply run_mild_if; [|done]. intros x. split_and!; try done. by left.
  - unfold Close. repeat case_match; try done; by apply (run_same w).
  - set (w1 := w <| tasks := ts1 ++ ts2 |>). assert (run_ok w1) as H1 by by apply (run_same w). clearbody w1. destruct t as [s|s|ss]; cbn [run_task].
    + destruct (sessions w1 !! s) as [x|] eqn:Ex; [|done]. apply run_mild; [by apply mild_refl|]. by eapply run_evict.
    + apply run_mild; [by apply mild_refl|done].
    + apply (foldl_invariant (fun w s => on_session s (fun x => if is_done x then x else x <| killed := true |>) w) run_ok); [|done].
      intros v s Hv. apply run_mild; [|done]. intros x. destruct (is_done x); split_and!; try done; by left.
  - unfold pump in E. destruct (sessions w !! s) as [x|] eqn:Ex; [|done]. destruct (bool_decide (tag ∈ pumps x)) eqn:Et; [|done]. cbn [andb] in E.
    destruct (zlen chunk <=? _); [|done]. injection E as <-. apply bool_decide_eq_true in Et.
    assert (forall v, run_ok v -> run_ok (on_session s (fun x => x <| pumps := filter (fun t => t <> tag) (pumps x) |>) v)) as He.
    { intros v. apply run_mild. intros y. split_and!; [done| |done|by left]. by intros t [_ ?]%list_elem_of_filter. }
    destruct chunk as [|c chunk]; [destruct eof; [by apply He|done]|]. destruct (cancelled x) eqn:Ec; [apply He; by eapply run_lost|].
    destruct (negb wrote || eof); [apply He|]; by apply run_read.
  - apply run_mild; [|done]. intros x. destruct (exited x) eqn:Ex; split_and!; try done; [by left|by right].
  - unfold wait_detach in E. destruct (sessions w !! s) as [x|] eqn:Ex; [|done]. destruct (at_ x) eqn:Ea; try done. destruct (exited x) as [e|] eqn:Ee; [|done].
    destruct (handlers w !! handler x) as [H|]; [|done]. injection E as <-. apply (run_life _ s _ x); first [done | congruence | by eexists | by apply (run_same w)].
  - unfold wait_release in E. destruct (sessions w !! s) as [x|] eqn:Ex; [|done]. destruct (at_ x) eqn:Ea; try done. injection E as <-.
    destruct (release_slot_log w (call x) (holds x)) as [Es _]. pose proof (r_exited _ Hw s x Ex) as He. apply (run_life _ s _ x); first [done | congruence | by rewrite Es | by apply run_release | apply He; congruence].
  - pose proof E as E'. unfold wait_finish in E'. destruct (sessions w !! s) as [x|] eqn:Ex; [|done]. destruct (at_ x) eqn:Ea; try done.
    destruct (exited x) as [e|] eqn:Ee; [|done]. by eapply run_finish.
Qed.

Lemma run_running Environ SHELL hs w : running Environ SHELL hs w -> run_ok w.
Proof.
  intros Hr. assert (slots_ok w /\ run_ok w) as [_ ?]; [|done].
  refine (steps_invariant _ (fun w => slots_ok w /\ run_ok w) _ _ _ Hr _).
  - intros a b [Ha Hb] Hab. split; [by eapply slots_step|by eapply run_step].
  - split; [apply slots_start|]. by constructor.
Qed.

(** * The connector *)

Lemma tagged_cons tag t c cs : tagged tag ((t, c) :: cs) = (if decide (t = tag) then c else []) ++ tagged tag cs.
Proof. done. Qed.

Lemma shell_drain_dats id cs rest : Forall (fun c => (c.1 = stdout_tag \/ c.1 = stderr_tag) /\ c.2 <> []) cs -> forall out err,
  drain out err (map (frame_of id) (map dat cs) ++ rest) = drain (out ++ tagged stdout_tag cs) (err ++ tagged stderr_tag cs) rest.
Proof.
  induction 1 as [|[t c] cs [Ht Hc] _ IH]; intros out err; [by rewrite !app_nil_r|].
  change (map (frame_of id) (map dat ((t, c) :: cs)) ++ rest) with (mkFrame id FlagDAT (chr t :: c) :: map (frame_of id) (map dat cs) ++ rest).
  cbn [drain]. change (IsSYN (mkFrame id FlagDAT (chr t :: c))) with false. change (IsFIN (mkFrame id FlagDAT (chr t :: c))) with false.
  cbn [Payload]. rewrite !tagged_cons. cbn in Ht. destruct Ht as [->| ->].
  - change (code (chr stdout_tag) =? stdout_tag) with true. rewrite decide_True, decide_False by done. cbv iota. rewrite IH. by rewrite <- app_assoc.
  - change (code (chr stderr_tag) =? stdout_tag) with false. change (code (chr stderr_tag) =? stderr_tag) with true.
    rewrite decide_False, decide_True by done. cbv iota. rewrite IH. by rewrite <- app_assoc.
Qed.

(** The result a status becomes. *)
Definition result_of (e : exit_status) : ShellResult :=
  match e with
  | Exited n => mkResult n []
  | Signaled n sig => mkResult n (coerce sig)
  | Unknown => mkResult (-1) []
  end.

Definition status_code (e : exit_status) : Z := match e with Exited n | Signaled n _ => n | Unknown => -1 end.

Lemma fin_payload_reads e : parse_json (fin_payload e) = Some (JObject (($"exit_code", JInt (status_code e)) ::
  match e with Signaled _ sig => [($"signal", JString (coerce sig))] | _ => [] end)).
Proof.
  assert (coerce $"exit_code" = $"exit_code" /\ coerce $"signal" = $"signal") as [E1 E2] by (split; vm_compute; reflexivity).
  destruct e as [n|n sig|]; unfold fin_payload; (rewrite parse_print_json; [|repeat constructor|vm_compute; discriminate]); cbn [coerce_json map]; rewrite E1, ?E2; reflexivity.
Qed.

Lemma drain_fin id out err e : - 2 ^ 63 <= status_code e < 2 ^ 63 ->
  drain out err [mkFrame id FlagFIN (fin_payload e)] = (out, err, Ok (result_of e)).
Proof.
  intros He. cbn [drain]. change (IsSYN (mkFrame id FlagFIN (fin_payload e))) with false. change (IsFIN (mkFrame id FlagFIN (fin_payload e))) with true.
  cbn [Payload]. unfold lenient. destruct (fin_payload e) eqn:Ep; [pose proof (fin_payload_reads e) as H; by rewrite Ep in H|]. rewrite <- Ep, fin_payload_reads. clear Ep.
  set (rest := match e with Signaled _ sig => _ | _ => _ end). set (z := status_code e) in *.
  assert (forall l, field decode_int 0 $"exit_code" (JObject (($"exit_code", JInt z) :: l)) = field decode_int z $"exit_code" (JObject l)) as E1.
  { intros k. unfold field. cbn [foldl]. change (names $"exit_code" $"exit_code") with true. cbv iota. unfold decode_int at 2, JInt.
    rewrite parse_signed_print. unfold between. rewrite (proj2 (Z.leb_le _ _)), (proj2 (Z.leb_le _ _)) by lia. reflexivity. }
  assert (forall l, field decode_string [] $"error" (JObject (($"exit_code", JInt z) :: l)) = field decode_string [] $"error" (JObject l)) as E2 by done.
  assert (forall l, field decode_string [] $"signal" (JObject (($"exit_code", JInt z) :: l)) = field decode_string [] $"signal" (JObject l)) as E3 by done.
  rewrite E1, E2, E3. subst rest z. destruct e as [n|n sig|]; cbn [status_code]; [reflexivity| |reflexivity]. cbn [result_of]. generalize (coerce sig). intros v. reflexivity.
Qed.

(** C36: A command run over a stream reports faithfully. However pumps, input and teardown interleave, once a session
    has ended without being cancelled or displaced, a connector that receives its frames has written out exactly
    the bytes the listener read from the process's output and from its error output, each in order, and
    returns the exit code and signal the process ended with. *)
Theorem shell_run_faithful Environ SHELL hs w s x e :
  running Environ SHELL hs w -> sessions w !! s = Some x -> at_ x = Finished -> exited x = Some e -> cancelled x = false ->
  Forall (fun r => ~ is_error r) (replies w s) -> - 2 ^ 63 <= status_code e < 2 ^ 63 ->
  pumps x = [] /\
  drain [] [] (map (frame_of (stream x)) (replies w s)) = (output w s stdout_tag, output w s stderr_tag, Ok (result_of e)).
Proof.
  intros Hr Hx Ha He Hc Hn Hz. destruct (r_sessions _ (run_running _ _ _ _ Hr) s x Hx Hc Hn) as (Hp & _ & cs & Ecs & Hcs & Ho).
  split; [by apply Hp|]. rewrite Ecs. unfold trailer. rewrite Ha, He, map_app. cbn [map frame_of].
  rewrite (shell_drain_dats _ cs _ Hcs), drain_fin by done. by rewrite !Ho.
Qed.

(** * A run *)

Definition one_shell : list ShellHandler := [mkShell [] None true false false 1 ∅ false].
Definition opened : Shells := syn_admit (start one_shell) 0 1 (json_text $"{'argv':['false']}") false None [].
Definition spawned : Shells := default opened (syn_spawn [] [] opened 0 None).
Definition registered : Shells := default spawned (syn_register spawned 0).
Definition read_out : Shells := default registered (pump registered 0 stdout_tag $"hi" true true).
Definition read_err : Shells := default read_out (pump read_out 0 stderr_tag $"oops" true true).
Definition process_exited : Shells := on_session 0 (fun x => match exited x with None => x <| exited := Some (Exited 1) |> | Some _ => x end) read_err.
Definition detached : Shells := default process_exited (wait_detach process_exited 0).
Definition let_go : Shells := default detached (wait_release detached 0).
Definition ended_shell : Shells := default let_go (wait_finish let_go 0 false).

Lemma next w o : running [] [] one_shell w -> (forall v, o = Some v -> shell_step [] [] w v) -> running [] [] one_shell (default w o).
Proof. intros Hw Ho. destruct o as [v|]; [|done]. exact (steps_trans _ _ _ _ Hw (steps_one _ _ _ (Ho v eq_refl))). Qed.

Lemma ended_running : running [] [] one_shell ended_shell.
Proof.
  unfold ended_shell. apply next; [|intros v; by apply sh_finish]. unfold let_go. apply next; [|intros v; by apply sh_release].
  unfold detached. apply next; [|intros v; by apply sh_detach]. refine (steps_trans _ _ _ _ _ (steps_one _ _ _ (sh_exit [] [] read_err 0 (Exited 1)))).
  unfold read_err. apply next; [|intros v; by apply sh_pump]. unfold read_out. apply next; [|intros v; by apply sh_pump].
  unfold registered. apply next; [|intros v; by apply sh_register]. unfold spawned. apply next; [|intros v; by apply sh_spawn].
  apply steps_one, sh_admit.
Qed.

Lemma shell_run_faithful_witness :
  drain [] [] (map (frame_of 1) (replies ended_shell 0)) = ($"hi", $"oops", Ok (mkResult 1 [])).
Proof.
  destruct (sessions ended_shell !! 0%nat) as [x|] eqn:E; [|vm_compute in E; discriminate].
  assert (stream x = 1 /\ at_ x = Finished /\ exited x = Some (Exited 1) /\ cancelled x = false) as (E1 & E2 & E3 & E4)
    by (vm_compute in E; injection E as <-; repeat split).
  destruct (shell_run_faithful [] [] one_shell ended_shell 0 x (Exited 1) ended_running E E2 E3 E4) as [_ H].
  - vm_compute. repeat constructor; intros [].
  - cbn. lia.
  - rewrite E1 in H. rewrite H. vm_compute. reflexivity.
Defined.
