(* ===== verification/Share.v ===== *)
(** The worker of a shared terminal (internal/share/worker.go, worker_peer.go): credentials and roles, the
    single controller and the viewer slots, admission, preemption, teardown and shutdown.

    Peers and reservations live in stores. The signaling loop runs one handler at a time, but peers close,
    time out and are preempted while it does, so a handler is a sequence of steps between its critical
    sections, and [loop] holds where it is; [tasks] holds the other goroutines. *)

From S2P Require Import Prelude GoLib Protocol PeerSet.

(** * Credentials *)

(** [distinctAccessCode]: at most eight draws. *)
Fixpoint distinctAccessCode (tries : nat) (exclude : bytes) (generate : list (option bytes)) : option bytes :=
  match tries, generate with
  | S n, Some code :: rest => if decide (code <> exclude) then Some code else distinctAccessCode n exclude rest
  | _, _ => None
  end.

Record WorkerConfig := mkConfig { SessionID : bytes; MgmtSession : bytes; StateDir : bytes; Socket : bytes; TTL : Z; MaxViewers_ : Z; ReadOnly : bool }.

Definition MaxViewers : Z := 1024.
Definition MaxTTL : Z := 365 * 24 * 3600 * 1000000000.
Definition Second : Z := 1000000000.

(** A share as it was made: the codes, and the command of each role. *)
Record Share := mkShare { cfg : WorkerConfig; controlCode : bytes; viewCode : bytes; controlArgv : list bytes; viewArgv : list bytes }.

Inductive worker_error := Incomplete | BadMaxViewers | BadTTL | NoDistinctCode.

(** [code]: the code of the ephemeral identity. *)
Definition NewWorker (c : WorkerConfig) (code : bytes) (generate : list (option bytes)) : result worker_error Share :=
  if bool_decide (SessionID c = []) || bool_decide (MgmtSession c = []) || bool_decide (StateDir c = []) then Err Incomplete
  else if (MaxViewers_ c <? 0) || (MaxViewers_ c >? MaxViewers) then Err BadMaxViewers
  else if (TTL c <? 0) || (TTL c >? MaxTTL) || negb (TTL c mod Second =? 0) then Err BadTTL
  else
    let codes := if ReadOnly c then Some ([], code)
                 else match distinctAccessCode 8 code generate with Some v => Some (code, v) | None => None end in
    match codes with
    | None => Err NoDistinctCode
    | Some (control, view) =>
      let tmuxBase := $"tmux" :: match Socket c with [] => [] | s => [$"-S"; s] end in
      Ok (mkShare c control view (tmuxBase ++ [$"attach-session"; $"-t"; SessionID c]) (tmuxBase ++ [$"attach-session"; $"-r"; $"-t"; SessionID c]))
    end.

Definition authorize (sh : Share) (code : bytes) : Access * bool :=
  let controlProbe := if ReadOnly (cfg sh) then viewCode sh else controlCode sh in
  let isControl := bool_decide (code = controlProbe) in
  let isView := bool_decide (code = viewCode sh) in
  if isControl && negb (ReadOnly (cfg sh)) then (AccessControl, true)
  else if isView then (AccessView, true)
  else (AccessDefault, false).

(** * State *)

(** A release function: whose slot it gives back, and whether it already did. *)
Record reservation := mkReservation { role : Access; owner : nat; spent : bool }.

#[export] Instance eta_reservation : Eta reservation := fun r => mkReservation (role r) (owner r) (spent r).

(** [shell]: the command its terminals run and whether they only watch, or why it was refused. *)
Inductive shell_handler := Terminal (argv : list bytes) (viewOnly : bool) | Refused (busy : bytes).

Record sharePeer := mkPeer {
  clientID : bytes;
  answered : bool;
  presented : bytes;
  access : Access;
  closed : bool;
  releases : list nat;
  shell : option shell_handler;
  establishment : option bool;
  refusal : bool;
  streamTaken : bool
}.

#[export] Instance eta_sharePeer : Eta sharePeer := fun p =>
  mkPeer (clientID p) (answered p) (presented p) (access p) (closed p) (releases p) (shell p) (establishment p) (refusal p) (streamTaken p).

Definition newSharePeer (id : bytes) : sharePeer := mkPeer id false [] AccessDefault false [] None None false false.

(** Where a handler of the signaling loop is: building a connection; past [AddLimited]; in [buildSession]
    before the slot, before [hold] with what it took, before [publish], before [armRefusal]. *)
Inductive handling :=
| Creating (id : bytes)
| Arming (p : nat)
| Admitting (p : nat)
| Holding (p : nat) (release : nat)
| Publishing (p : nat) (busy : option bytes)
| Refusing (p : nat).

Inductive task :=
| Preempt (p : nat)
| Drain (p : nat)                                      (* shutdown's teardown of a peer *)
| Cleanup (p : nat) (rest : list nat) (forget : bool). (* teardown past its critical section *)

Record Worker := mkWorker {
  share : Share;
  peers : @Set_ nat;
  objs : list sharePeer;
  holder : option nat;
  used : Z;
  slots : list reservation;
  loop : option handling;
  tasks : list task;
  stopped : bool
}.

#[export] Instance eta_Worker : Eta Worker := fun w =>
  mkWorker (share w) (peers w) (objs w) (holder w) (used w) (slots w) (loop w) (tasks w) (stopped w).

Definition start (sh : Share) : Worker := mkWorker sh NewSet [] None 0 [] None [] false.

Definition on_peer (p : nat) (f : sharePeer -> sharePeer) (w : Worker) : Worker := w <| objs := alter f p (objs w) |>.
Definition spawn (t : task) (w : Worker) : Worker := w <| tasks := tasks w ++ [t] |>.
Definition goto (l : option handling) (w : Worker) : Worker := w <| loop := l |>.

(** * Slots *)

Definition control_disabled : bytes := $"this share is view-only".
Definition viewers_busy (w : Worker) : bytes := $"share is full (max " ++ Itoa (MaxViewers_ (cfg (share w))) ++ $" viewers)".

(** [controlSlot.take]: the release and the evicted peer. *)
Definition take (w : Worker) (p : nat) : Worker * option (nat * option nat) :=
  if ReadOnly (cfg (share w)) then (w, None)
  else (w <| holder := Some p |> <| slots := slots w ++ [mkReservation AccessControl p false] |>, Some (length (slots w), holder w)).

(** [roleSlots.acquire] *)
Definition acquire (w : Worker) (p : nat) : Worker * option nat :=
  if used w >=? MaxViewers_ (cfg (share w)) then (w, None)
  else (w <| used := used w + 1 |> <| slots := slots w ++ [mkReservation AccessView p false] |>, Some (length (slots w))).

(** A release function runs. *)
Definition release (w : Worker) (r : nat) : Worker :=
  match slots w !! r with
  | None => w
  | Some x =>
    if spent x then w else
    let w1 := w <| slots := <[r := x <| spent := true |>]> (slots w) |> in
    match role x with
    | AccessView => w1 <| used := used w - 1 |>
    | _ => if decide (holder w = Some (owner x)) then w1 <| holder := None |> else w1
    end
  end.

(** * Teardown *)

(** [teardown] and [dropPeer]: what follows the critical section is a goroutine's. *)
Definition teardown (w : Worker) (p : nat) (forget : bool) : Worker :=
  match objs w !! p with
  | None => w
  | Some x =>
    if closed x then w else
    spawn (Cleanup p (releases x) forget) (on_peer p (fun x => x <| closed := true |> <| releases := [] |>) w)
  end.

Definition dropPeer (w : Worker) (p : nat) : Worker := teardown w p true.

Definition shutdown (w : Worker) : Worker :=
  if stopped w then w else
  let '(s, l) := CloseSet (peers w) in
  w <| stopped := true |> <| peers := s |> <| tasks := tasks w ++ map Drain l |>.

Definition run_task (w : Worker) (t : task) : Worker :=
  match t with
  | Preempt p => dropPeer w p
  | Drain p => teardown w p false
  | Cleanup p (r :: rest) forget => spawn (Cleanup p rest forget) (release w r)
  | Cleanup p [] forget =>
    match objs w !! p with
    | Some x => if forget then w <| peers := Forget (peers w) (clientID x) p |> else w
    | None => w
    end
  end.

(** * The signaling loop *)

Definition maxPeers (w : Worker) : Z := MaxViewers_ (cfg (share w)) + 5.

(** [handleRequest] as far as the connection. *)
Definition request (w : Worker) (id : bytes) : option Worker :=
  match loop w with
  | Some _ => None
  | None =>
    Some match id with
         | [] => w
         | _ => if (Len (peers w) >=? maxPeers w) || Has (peers w) id then w else goto (Some (Creating id)) w
         end
  end.

(** The connection is built, or not; then [AddLimited]. *)
Definition request_add (w : Worker) (built : bool) : option Worker :=
  match loop w with
  | Some (Creating id) =>
    Some (
      if negb built then goto None w else
      let p := length (objs w) in
      let w1 := w <| objs := objs w ++ [newSharePeer id] |> in
      match AddLimited (peers w) id p (maxPeers w) with
      | (s, true) => goto (Some (Arming p)) (w1 <| peers := s |>)
      | (_, false) => goto None w1
      end)
  | _ => None
  end.

(** [armEstablishment] *)
Definition request_arm (w : Worker) : option Worker :=
  match loop w with
  | Some (Arming p) => Some (goto None (on_peer p (fun x => if closed x then x else x <| establishment := Some false |>) w))
  | _ => None
  end.

(** [handleAnswer]: [code] is the code of an answer that verifies otherwise. The WebRTC stack takes one answer
    a connection; a connection whose answer is refused is closed, and takes no other. *)
Definition answer (w : Worker) (id : bytes) (code : option bytes) : option Worker :=
  match loop w with
  | Some _ => None
  | None =>
    Some match Get (peers w) id with
         | None => w
         | Some p =>
           match objs w !! p with
           | None => w
           | Some x =>
             let rejected := dropPeer (on_peer p (fun x => x <| answered := true |>) w) p in
             match code with
             | None => rejected
             | Some c =>
               if answered x then rejected else
               let '(a, ok) := authorize (share w) c in
               if ok then goto (Some (Admitting p)) (on_peer p (fun x => x <| answered := true |> <| presented := c |> <| access := a |>) w)
               else rejected
             end
           end
         end
  end.

(** [buildSession] *)
Definition admission (w : Worker) : option Worker :=
  match loop w with
  | Some (Admitting p) =>
    match objs w !! p with
    | None => None
    | Some x =>
      Some match access x with
           | AccessControl =>
             match take w p with
             | (w1, None) => goto (Some (Publishing p (Some control_disabled))) w1
             | (w1, Some (r, evicted)) =>
               goto (Some (Holding p r)) match evicted with Some e => spawn (Preempt e) w1 | None => w1 end
             end
           | AccessView =>
             match acquire w p with
             | (w1, None) => goto (Some (Publishing p (Some (viewers_busy w)))) w1
             | (w1, Some r) => goto (Some (Holding p r)) w1
             end
           | AccessDefault => goto None (dropPeer w p)
           end
    end
  | _ => None
  end.

Definition hold (w : Worker) : option Worker :=
  match loop w with
  | Some (Holding p r) =>
    match objs w !! p with
    | None => None
    | Some x => Some (if closed x then goto None (release w r)
                      else goto (Some (Publishing p None)) (on_peer p (fun x => x <| releases := releases x ++ [r] |>) w))
    end
  | _ => None
  end.

Definition shell_of (w : Worker) (x : sharePeer) (busy : option bytes) : shell_handler :=
  match busy, access x with
  | Some b, _ => Refused b
  | None, AccessControl => Terminal (controlArgv (share w)) false
  | None, _ => Terminal (viewArgv (share w)) true
  end.

Definition publish (w : Worker) : option Worker :=
  match loop w with
  | Some (Publishing p busy) =>
    match objs w !! p with
    | None => None
    | Some x => Some (if closed x then goto None w
                      else goto match busy with Some _ => Some (Refusing p) | None => None end (on_peer p (fun x => x <| shell := Some (shell_of w x busy) |>) w))
    end
  | _ => None
  end.

Definition armRefusal (w : Worker) : option Worker :=
  match loop w with
  | Some (Refusing p) => Some (goto None (on_peer p (fun x => if closed x then x else x <| refusal := true |>) w))
  | _ => None
  end.

(** * The rest *)

Definition markEstablished (w : Worker) (p : nat) : Worker :=
  on_peer p (fun x => match establishment x with Some _ => x <| establishment := Some true |> | None => x end) w.

(** [AcquireSlot]: a stream asks for the peer's terminal. *)
Definition AcquireSlot (w : Worker) (p : nat) : Worker * result bytes shell_handler :=
  match objs w !! p with
  | None => (w, Err [])
  | Some x =>
    match shell x with
    | None => (w, Err [])
    | Some (Refused busy) => (w, Err busy)
    | Some (Terminal argv viewOnly) =>
      if closed x then (w, Err $"this connection is closing")
      else if streamTaken x then (w, Err $"this connection already has a terminal open")
      else (on_peer p (fun x => x <| streamTaken := true |>) w, Ok (Terminal argv viewOnly))
    end
  end.

Definition release_stream (w : Worker) (p : nat) : Worker := on_peer p (fun x => x <| streamTaken := false |>) w.

(** * Steps

    A connection may close, and its deadlines pass, at any time. *)

Inductive share_step : Worker -> Worker -> Prop :=
| s_request w id w' : request w id = Some w' -> share_step w w'
| s_add w built w' : request_add w built = Some w' -> share_step w w'
| s_arm w w' : request_arm w = Some w' -> share_step w w'
| s_answer w id code w' : answer w id code = Some w' -> share_step w w'
| s_admit w w' : admission w = Some w' -> share_step w w'
| s_hold w w' : hold w = Some w' -> share_step w w'
| s_publish w w' : publish w = Some w' -> share_step w w'
| s_refusal w w' : armRefusal w = Some w' -> share_step w w'
| s_drop w p : share_step w (dropPeer w p)
| s_ready w p : share_step w (markEstablished w p)
| s_terminal w p : share_step w (AcquireSlot w p).1
| s_stream_end w p : share_step w (release_stream w p)
| s_shutdown w : share_step w (shutdown w)
| s_task w t ts1 ts2 : tasks w = ts1 ++ t :: ts2 -> share_step w (run_task (w <| tasks := ts1 ++ ts2 |>) t).

Definition running (sh : Share) (w : Worker) : Prop := steps share_step (start sh) w.

(** * The source session *)

(** [listsSession] *)
Definition listsSession (listing sessionID : bytes) : bool :=
  existsb (fun line => bool_decide (TrimSpace line = sessionID)) (Split listing (chr 10)).
