(* ===== verification/ShareSpec.v ===== *)
(** What a shared terminal promises: slots are exact, one connection types, and a stopped share lets go of
    everything. *)

From S2P Require Import Prelude GoLib Protocol PeerSet Share.

(** A peer without what no promise depends on. *)
Definition view (x : sharePeer) : sharePeer := x <| establishment := None |> <| refusal := false |> <| streamTaken := false |>.

Definition peer (w : Worker) (p : nat) : option sharePeer := view <$> objs w !! p.

Definition is_view (x : reservation) : bool := bool_decide (role x = AccessView) && negb (spent x).

(** What the share's codes gave a peer, and what its terminals run. *)
Definition access_ok (sh : Share) (x : sharePeer) : Prop :=
  (access x = AccessControl -> presented x = controlCode sh /\ ReadOnly (cfg sh) = false) /\
  (access x = AccessView -> presented x = viewCode sh) /\
  (forall argv vo, shell x = Some (Terminal argv vo) -> (answered x = true /\ (closed x = true \/ releases x <> [])) /\
     if vo then access x = AccessView /\ argv = viewArgv sh else access x = AccessControl /\ argv = controlArgv sh).

Record share_ok (w : Worker) : Prop := {
  k_loc r x : slots w !! r = Some x -> spent x = false ->
    loop w = Some (Holding (owner x) r) \/
    (exists p, peer w (owner x) = Some p /\ r ∈ releases p) \/
    (exists rest f, Cleanup (owner x) rest f ∈ tasks w /\ r ∈ rest);
  k_used : used w = Z.of_nat (count is_view (slots w)) /\ used w <= Z.max 0 (MaxViewers_ (cfg (share w)));
  k_holder p : holder w = Some p -> exists r x, slots w !! r = Some x /\ spent x = false /\ role x = AccessControl /\ owner x = p;
  k_role r x : slots w !! r = Some x -> exists p, peer w (owner x) = Some p /\ access p = role x /\ answered p = true /\ role x <> AccessDefault;
  k_once r r' x x' : slots w !! r = Some x -> slots w !! r' = Some x' -> owner x = owner x' -> r = r';
  k_fresh p : loop w = Some (Admitting p) ->
    (exists x, peer w p = Some x /\ answered x = true /\ access x <> AccessDefault) /\ forall r x, slots w !! r = Some x -> owner x <> p;
  k_evict r x : slots w !! r = Some x -> spent x = false -> role x = AccessControl -> holder w <> Some (owner x) ->
    (exists p, peer w (owner x) = Some p /\ closed p = true) \/ Preempt (owner x) ∈ tasks w;
  k_rel p x r : peer w p = Some x -> r ∈ releases x -> closed x = false /\ exists y, slots w !! r = Some y /\ owner y = p /\ spent y = false;
  k_holding p r : loop w = Some (Holding p r) -> exists y x, slots w !! r = Some y /\ owner y = p /\ peer w p = Some x /\ (closed x = false -> spent y = false);
  k_access p x : peer w p = Some x -> access_ok (share w) x;
  k_pub p : loop w = Some (Publishing p None) -> exists x, peer w p = Some x /\ answered x = true /\ (closed x = true \/ releases x <> []) /\ access x <> AccessDefault;
  k_cleanup p rest f : Cleanup p rest f ∈ tasks w -> exists x, peer w p = Some x /\ closed x = true /\ forall r, r ∈ rest -> exists y, slots w !! r = Some y /\ owner y = p
}.

(** A position of the signaling loop that the slots do not depend on. *)
Definition idle (l : option handling) : Prop :=
  match l with Some (Admitting _) | Some (Holding _ _) | Some (Publishing _ None) => False | _ => True end.

(** The loop holds no reservation that is in use. *)
Definition empty_handed (w : Worker) : Prop := forall p r x, loop w = Some (Holding p r) -> slots w !! r = Some x -> spent x = true.

(** The tasks of [w'] do what those of [w] have to. *)
Record tasks_follow (w w' : Worker) : Prop := {
  t_loc r x rest f : slots w !! r = Some x -> spent x = false -> Cleanup (owner x) rest f ∈ tasks w -> r ∈ rest ->
    exists rest' f', Cleanup (owner x) rest' f' ∈ tasks w' /\ r ∈ rest';
  t_evict p : Preempt p ∈ tasks w -> Preempt p ∈ tasks w' \/ forall x, peer w p = Some x -> closed x = true;
  t_cleanup p rest f : Cleanup p rest f ∈ tasks w' -> exists rest', Cleanup p rest' f ∈ tasks w /\ forall r, r ∈ rest -> r ∈ rest'
}.

Lemma share_frame w w' :
  share w' = share w -> slots w' = slots w -> holder w' = holder w -> used w' = used w -> (forall p, peer w' p = peer w p) ->
  tasks_follow w w' -> loop w' = loop w \/ empty_handed w /\ idle (loop w') -> share_ok w -> share_ok w'.
Proof.
  intros Esh Es Eh Eu Ep [Ht1 Ht2 Ht3] Hl [H1 H2 H3 H4 H5 H6 H7 H8 H9 H10 H11 H12].
  assert (forall l, l = loop w' -> ~ idle l -> loop w = l) as Hl'.
  { intros l -> Hn. destruct Hl as [->|[_ Hi]]; [done|]. by destruct Hn. }
  constructor; rewrite ?Esh, ?Es, ?Eh, ?Eu; try done.
  - intros r x Hr Hs. destruct (H1 r x Hr Hs) as [El|[(p & Hp & Hin)|(rest & f & Hin & Hr')]].
    + left. destruct Hl as [->|[Hn _]]; [done|]. rewrite (Hn _ _ _ El Hr) in Hs. done.
    + right; left. exists p. by rewrite Ep.
    + right; right. by eapply Ht1.
  - intros r x Hr. rewrite Ep. by apply H4 in Hr.
  - intros p Hp. rewrite Ep. apply H6, Hl'; [done|by intros []].
  - intros r x Hr Hs Hro Hh. rewrite Ep. destruct (H7 r x Hr Hs Hro Hh) as [?|?]; [by left|].
    destruct (Ht2 (owner x)) as [?|Hc]; [done|by right|left]. destruct (H4 r x Hr) as (q & Hq & _). exists q. split; [done|by apply Hc].
  - intros p x r. rewrite Ep. apply H8.
  - intros p r Hp. setoid_rewrite Ep. apply H9, Hl'; [done|by intros []].
  - intros p x. rewrite Ep. apply H10.
  - intros p Hp. setoid_rewrite Ep. apply H11, Hl'; [done|by intros []].
  - intros p rest f Hp. setoid_rewrite Ep. destruct (Ht3 _ _ _ Hp) as (rest' & Hp' & Hin). destruct (H12 _ _ _ Hp') as (x & ? & ? & Hr).
    exists x. split_and!; [done|done|]. intros r ?%Hin. by apply Hr.
Qed.

Lemma tasks_same w w' : tasks w' = tasks w -> tasks_follow w w'.
Proof. intros E. constructor; rewrite E; [by intros; do 2 eexists|by left|]. intros p rest f ?. by exists rest. Qed.

Lemma share_goto w l : empty_handed w -> idle l -> share_ok w -> share_ok (goto l w).
Proof. intros Hn Hl. apply share_frame; try done; [by apply tasks_same|by right]. Qed.

Lemma peer_alter w p f q : peer (on_peer p f w) q = if decide (q = p) then view ∘ f <$> objs w !! p else peer w q.
Proof. unfold peer. cbn. case_decide; [subst q; rewrite list_lookup_alter_eq; by destruct (objs w !! p)|by rewrite list_lookup_alter_ne]. Qed.

Lemma share_neutral w p f : (forall x, view (f x) = view x) -> share_ok w -> share_ok (on_peer p f w).
Proof.
  intros Hf. apply share_frame; try done; [|by apply tasks_same|by left]. intros q. rewrite peer_alter. case_decide; [|done]. subst q. unfold peer.
  destruct (objs w !! p) as [x|]; cbn; [by rewrite Hf|done].
Qed.

(** * Slots *)

Lemma count_alter_spent l r x : l !! r = Some x -> spent x = false ->
  (count is_view (<[r := x <| spent := true |>]> l) + (if decide (role x = AccessView) then 1 else 0))%nat = count is_view l.
Proof.
  intros Hr Hs. set (x' := x <| spent := true |>). assert (is_view x' = false) as Hx' by apply andb_false_r.
  assert ((if decide (role x = AccessView) then 1 else 0)%nat = if is_view x then 1%nat else 0%nat) as ->.
  { unfold is_view. rewrite Hs, andb_true_r. by repeat case_match; try case_bool_decide. }
  clearbody x'. revert r Hr. induction l as [|y l IH]; intros [|r] Hr; try done.
  - injection Hr as ->. cbn. rewrite Hx'. lia.
  - change (<[S r := x']> (y :: l)) with (y :: <[r := x']> l). cbn [count]. specialize (IH r Hr). lia.
Qed.

(** A reservation of a peer that is torn down is given back. *)
Lemma share_release w r :
  (forall x, slots w !! r = Some x -> exists p, peer w (owner x) = Some p /\ closed p = true) -> share_ok w -> share_ok (release w r).
Proof.
  intros Hcl Hw. unfold release. destruct (slots w !! r) as [x|] eqn:Er; [|done]. destruct (spent x) eqn:Es; [done|].
  destruct (Hcl x eq_refl) as (q & Hq & Hcq). clear Hcl. set (x' := x <| spent := true |>). pose proof Hw as [H1 H2 H3 H4 H5 H6 H7 H8 H9 H10 H11 H12].
  pose proof (count_alter_spent _ _ _ Er Es) as Hcount. fold x' in Hcount.
  set (w1 := w <| slots := <[r := x']> (slots w) |>).
  set (w2 := match role x with AccessView => _ | _ => _ end).
  assert (share w2 = share w /\ (forall p, peer w2 p = peer w p) /\ tasks w2 = tasks w /\ loop w2 = loop w /\ slots w2 = <[r := x']> (slots w)) as (Esh & Ep & Et & El & Esl)
    by (clear Hcount; subst w2; destruct (role x); try case_decide; by split_and!).
  assert (used w2 = Z.of_nat (count is_view (<[r := x']> (slots w)))) as Eu.
  { destruct H2 as [H2 _]. subst w2. destruct (role x); cbn in Hcount; repeat case_decide; cbn in *; try done; lia. }
  assert (used w2 <= used w) as Eu' by (clear Hcount; subst w2; destruct (role x); try case_decide; cbn; lia).
  assert (forall p, holder w2 = Some p <-> holder w = Some p /\ p <> owner x) as Eh.
  { intros p. subst w2. destruct (role x) eqn:Ero.
    1,2: case_decide as Hd; cbn; [rewrite Hd; split; [done|intros [[= ->] ?]; done]|split; [intros Hp; split; [done|]|by intros [? _]]; intros ->; done].
    cbn. split; [intros Hp; split; [done|]|by intros [? _]]. intros ->. destruct (H3 _ Hp) as (r' & y & Hy & _ & Hry & Hoy).
    assert (r' = r) as -> by by eapply H5. rewrite Er in Hy. injection Hy as <-. congruence. }
  assert (forall i y, slots w2 !! i = Some y -> exists z, slots w !! i = Some z /\ owner z = owner y /\ role z = role y /\ (spent y = false -> z = y /\ i <> r)) as Hsl.
  { intros i y. rewrite Esl. destruct (decide (i = r)) as [->|Hne]; [|rewrite list_lookup_insert_ne by done; exists y; by split_and!].
    rewrite list_lookup_insert_eq by (by eapply lookup_lt_Some). intros [= <-]. exists x. by split_and!. }
  assert (forall i z, slots w !! i = Some z -> exists y, slots w2 !! i = Some y /\ owner y = owner z /\ (i <> r -> y = z)) as Hsl'.
  { intros i z Hz. rewrite Esl. destruct (decide (i = r)) as [->|Hne]; [|rewrite list_lookup_insert_ne by done; exists z; by split_and!].
    rewrite list_lookup_insert_eq by (by eapply lookup_lt_Some). exists x'. rewrite Er in Hz. injection Hz as <-. by split_and!. }
  clearbody w2. constructor; rewrite ?Esh, ?Et, ?El.
  - intros i y Hy Hs. destruct (Hsl _ _ Hy) as (z & Hz & _ & _ & [-> Hne]%(fun H => H Hs)). setoid_rewrite Ep. by apply H1.
  - split; [by rewrite Eu, Esl|]. destruct H2. lia.
  - intros p [Hp Hne]%Eh. destruct (H3 p Hp) as (i & y & Hy & Hs & Hr & Ho). exists i, y. destruct (Hsl' _ _ Hy) as (z & Hz & _ & Hz').
    rewrite Hz' in Hz by (intros ->; congruence). by split_and!.
  - intros i y Hy. destruct (Hsl _ _ Hy) as (z & Hz & Ho & Hr & _). rewrite Ep, <- Ho, <- Hr. by eapply H4.
  - intros i j y z (y' & Hy & Hoy & _)%Hsl (z' & Hz & Hoz & _)%Hsl Ho. apply (H5 i j y' z' Hy Hz). congruence.
  - intros p Hp. rewrite Ep. destruct (H6 p Hp) as [Ha Hb]. split; [done|]. intros i y (z & Hz & <- & _)%Hsl. by eapply Hb.
  - intros i y Hy Hs Hr Hh. destruct (Hsl _ _ Hy) as (z & Hz & _ & _ & [-> Hne]%(fun H => H Hs)). rewrite Ep. apply (H7 i y Hz Hs Hr).
    intros Hh'. apply Hh, Eh. split; [done|]. intros Ho. by apply Hne, (H5 _ _ _ _ Hz Er).
  - intros p y i Hp Hi. rewrite Ep in Hp. destruct (H8 _ _ _ Hp Hi) as (Hc & z & Hz & Ho & Hs). split; [done|].
    destruct (Hsl' _ _ Hz) as (y' & Hy' & Ho' & He). exists y'. rewrite He in * by (intros ->; congruence). by split_and!.
  - intros p i Hp. destruct (H9 p i Hp) as (y & z & Hy & Ho & Hz & Hs). destruct (Hsl' _ _ Hy) as (y' & Hy' & Ho' & He).
    exists y', z. rewrite Ep. split_and!; [done|congruence|done|]. intros Hc. rewrite He; [by apply Hs|]. intros ->. congruence.
  - intros p y. rewrite Ep. apply H10.
  - intros p Hp. setoid_rewrite Ep. by apply H11.
  - intros p rest f Hp. setoid_rewrite Ep. destruct (H12 _ _ _ Hp) as (y & Hy & Hc & Hr). exists y. split_and!; [done|done|].
    intros i (z & Hz & Ho)%Hr. destruct (Hsl' _ _ Hz) as (y' & ? & ? & _). exists y'. split; [done|congruence].
Qed.

(** * Peers *)

(** The tasks [ts] are in [w], and what else is there only adds to them. *)
Lemma tasks_add w w' t : tasks w' = tasks w ++ [t] -> (forall p rest f, t <> Cleanup p rest f) -> tasks_follow w w'.
Proof.
  intros E Ht. constructor; rewrite E.
  - intros r x rest f _ _ Hin Hr. exists rest, f. split; [apply elem_of_app; by left|done].
  - intros p Hp. left. apply elem_of_app. by left.
  - intros p rest f [?|H%list_elem_of_singleton]%elem_of_app; [by exists rest|]. by destruct (Ht p rest f).
Qed.

Lemma share_spawn w t : (forall p rest f, t <> Cleanup p rest f) -> share_ok w -> share_ok (spawn t w).
Proof. intros Ht. apply share_frame; try done; [by eapply tasks_add|by left]. Qed.

Lemma share_teardown w p forget : share_ok w -> share_ok (teardown w p forget).
Proof.
  intros Hw. unfold teardown. destruct (objs w !! p) as [x|] eqn:Ex; [|done]. destruct (closed x) eqn:Ec; [done|].
  set (f := fun x => x <| closed := true |> <| releases := [] |>). set (w' := spawn _ _). destruct Hw as [H1 H2 H3 H4 H5 H6 H7 H8 H9 H10 H11 H12].
  assert (peer w p = Some (view x)) as Hp by (unfold peer; by rewrite Ex).
  assert (forall q, peer w' q = if decide (q = p) then Some (f (view x)) else peer w q) as Ep.
  { intros q. change (peer w' q) with (peer (on_peer p f w) q). rewrite peer_alter, Ex. by case_decide. }
  assert (forall q y, peer w q = Some y -> exists z, peer w' q = Some z /\ access z = access y /\ answered z = answered y /\ (closed y = true -> closed z = true) /\
    (q <> p -> z = y) /\ (q = p -> closed z = true)) as Hk.
  { intros q y Hy. rewrite Ep. case_decide; [subst q; rewrite Hp in Hy; injection Hy as <-; exists (f (view x)); by split_and!|].
    exists y. by split_and!. }
  constructor.
  - intros r y Hr Hs. destruct (H1 r y Hr Hs) as [?|[(q & Hq & Hin)|(rest & g & Hin & Hr')]]; [by left| |].
    + right. destruct (decide (owner y = p)) as [Ho|Hne]; [right|left; exists q; by rewrite Ep, decide_False].
      exists (releases x), forget. rewrite Ho, Hp in Hq. injection Hq as <-. split; [|done]. rewrite Ho. cbn. apply elem_of_app. right. by left.
    + right; right. exists rest, g. split; [cbn; apply elem_of_app; by left|done].
  - exact H2.
  - exact H3.
  - intros r y Hr. destruct (H4 r y Hr) as (q & Hq & Ha & Hb & Hc). destruct (Hk _ _ Hq) as (z & Hz & Hza & Hzb & _). exists z. split_and!; [done|congruence|congruence|done].
  - exact H5.
  - intros q Hq. destruct (H6 q Hq) as [(y & Hy & Ha & Hb) Hn]. split; [|done]. destruct (Hk _ _ Hy) as (z & Hz & Hza & Hzb & _). exists z. split_and!; [done|congruence|congruence].
  - intros r y Hr Hs Hro Hh. destruct (H7 r y Hr Hs Hro Hh) as [(q & Hq & Hc)|?]; [left|right; cbn; apply elem_of_app; by left].
    destruct (Hk _ _ Hq) as (z & Hz & _ & _ & Hzc & _). exists z. split; [done|by apply Hzc].
  - intros q y r. rewrite Ep. case_decide; [|apply H8]. intros [= <-] Hr. cbn in Hr. by apply elem_of_nil in Hr.
  - intros q r Hq. destruct (H9 q r Hq) as (y & z & Hy & Ho & Hz & Hs). destruct (Hk _ _ Hz) as (z' & Hz' & _ & _ & Hzc & _). exists y, z'. split_and!; [done|done|done|].
    intros Hf. apply Hs. destruct (closed z) eqn:E; [|done]. by rewrite Hzc in Hf.
  - intros q y. rewrite Ep. case_decide; [|apply H10]. intros [= <-]. destruct (H10 _ _ Hp) as (Ha & Hb & Hc). split_and!; [done|done|].
    intros argv vo Hs. destruct (Hc argv vo Hs) as [[? _] ?]. split; [split; [done|by left]|done].
  - intros q Hq. destruct (H11 q Hq) as (y & Hy & Hans & Hcr & Ha). rewrite Ep. case_decide; [|by exists y]. subst q. rewrite Hp in Hy. injection Hy as <-.
    exists (f (view x)). split_and!; [done|done|by left|done].
  - intros q rest g. cbn. intros [Hq|Hq%list_elem_of_singleton]%elem_of_app.
    + destruct (H12 _ _ _ Hq) as (y & Hy & Hc & Hr). destruct (Hk _ _ Hy) as (z & Hz & _ & _ & Hzc & _). exists z. split_and!; [done|by apply Hzc|done].
    + injection Hq as -> -> ->. rewrite Ep, decide_True by done. eexists. split_and!; [done|done|]. intros r Hr. destruct (H8 p (view x) r Hp Hr) as (_ & y & ? & ? & _). by exists y.
Qed.

(** A peer whose record changes, and nothing else. *)
Lemma share_peer w w' p x x' :
  share w' = share w -> slots w' = slots w -> holder w' = holder w -> used w' = used w -> tasks w' = tasks w ->
  peer w p = Some x -> (forall q, peer w' q = if decide (q = p) then Some x' else peer w q) ->
  closed x' = closed x -> releases x' = releases x -> access_ok (share w) x' ->
  ((forall r y, slots w !! r = Some y -> owner y <> p) \/ access x' = access x /\ answered x' = answered x) ->
  (loop w' = loop w /\ access x' = access x /\ answered x' = answered x \/
   empty_handed w /\ (idle (loop w') \/ loop w' = Some (Admitting p) /\ answered x' = true /\ access x' <> AccessDefault /\ forall r y, slots w !! r = Some y -> owner y <> p)) ->
  share_ok w -> share_ok w'.
Proof.
  intros Esh Es Eh Eu Et Hp Ep Ec Er Hacc Hid Hl [H1 H2 H3 H4 H5 H6 H7 H8 H9 H10 H11 H12].
  assert (forall q y, peer w q = Some y -> exists z, peer w' q = Some z /\ closed z = closed y /\ releases z = releases y /\
    ((exists r s, slots w !! r = Some s /\ owner s = q) -> access z = access y /\ answered z = answered y)) as Hk.
  { intros q y Hy. rewrite Ep. case_decide; [|exists y; by split_and!]. subst q. rewrite Hp in Hy. injection Hy as <-. exists x'. split_and!; [done|done|done|].
    intros (r & s & Hs & Ho). destruct Hid as [Hn|?]; [by destruct (Hn _ _ Hs)|done]. }
  assert (forall l, l = loop w' -> ~ idle l -> loop w = l /\ access x' = access x /\ answered x' = answered x \/ l = Some (Admitting p)) as Hl'.
  { intros l -> Hn. destruct Hl as [(-> & ? & ?)|[_ [?|(-> & _)]]]; [by left|done|by right]. }
  constructor; rewrite ?Esh, ?Es, ?Eh, ?Eu, ?Et; try done.
  - intros r y Hr Hs. destruct (H1 r y Hr Hs) as [El|[(q & Hq & Hin)|?]]; [|right; left|by right; right].
    + left. destruct Hl as [(-> & _)|[Hn _]]; [done|]. by rewrite (Hn _ _ _ El Hr) in Hs.
    + destruct (Hk _ _ Hq) as (z & Hz & _ & Hzr & _). exists z. by rewrite Hzr.
  - intros r y Hr. destruct (H4 r y Hr) as (q & Hq & Ha & Hb & Hc). destruct (Hk _ _ Hq) as (z & Hz & _ & _ & Hza). exists z.
    destruct Hza as [Hza Hzb]; [by exists r, y|]. split_and!; [done|congruence|congruence|done].
  - intros q Hq. destruct (Hl' _ (eq_sym Hq)) as [(El & Ea & Eb)|[= ->]]; [by intros []| |].
    + destruct (H6 q El) as [(y & Hy & Ha & Hb) Hn]. split; [|done]. rewrite Ep. case_decide; [|by exists y]. subst q. rewrite Hp in Hy. injection Hy as <-.
      exists x'. split_and!; [done|congruence|congruence].
    + destruct Hl as [(El & Ea & Eb)|[_ [Hi|(_ & ? & ? & ?)]]]; [|by rewrite Hq in Hi|split; [exists x'; by rewrite Ep, decide_True|done]].
      rewrite El in Hq. destruct (H6 p Hq) as [(y & Hy & Ha & Hb) Hn]. rewrite Hp in Hy. injection Hy as <-. split; [|done].
      exists x'. rewrite Ep, decide_True by done. split_and!; [done|congruence|congruence].
  - intros r y Hr Hs Hro Hh. destruct (H7 r y Hr Hs Hro Hh) as [(q & Hq & Hc)|?]; [left|by right]. destruct (Hk _ _ Hq) as (z & Hz & Hzc & _). exists z. split; [done|congruence].
  - intros q y r. rewrite Ep. case_decide; [|apply H8]. intros [= <-]. rewrite Er, Ec. subst q. by apply H8.
  - intros q r Hq. destruct (Hl' _ (eq_sym Hq)) as [(El & _)|]; [by intros []| |done]. destruct (H9 q r El) as (y & z & Hy & Ho & Hz & Hs).
    destruct (Hk _ _ Hz) as (z' & Hz' & Hzc & _). exists y, z'. rewrite Hzc. by split_and!.
  - intros q y. rewrite Ep. case_decide; [by intros [= <-]|apply H10].
  - intros q Hq. destruct (Hl' _ (eq_sym Hq)) as [(El & Ea & Eb)|]; [by intros []| |done]. destruct (H11 q El) as (y & Hy & Hans & Hcr & Ha).
    rewrite Ep. case_decide; [|by exists y]. subst q. rewrite Hp in Hy. injection Hy as <-. exists x'. rewrite Ec, Er, Ea, Eb. by split_and!.
  - intros q rest g Hq. destruct (H12 _ _ _ Hq) as (y & Hy & Hc & Hr). destruct (Hk _ _ Hy) as (z & Hz & Hzc & _). exists z. split_and!; [done|congruence|done].
Qed.

(** A connection is built and registered. *)
Lemma share_append w w' id :
  share w' = share w -> slots w' = slots w -> holder w' = holder w -> used w' = used w -> tasks w' = tasks w ->
  objs w' = objs w ++ [newSharePeer id] -> empty_handed w -> idle (loop w') -> share_ok w -> share_ok w'.
Proof.
  intros Esh Es Eh Eu Et Eo Hn Hl [H1 H2 H3 H4 H5 H6 H7 H8 H9 H10 H11 H12].
  assert (forall q y, peer w q = Some y -> peer w' q = Some y) as Hk.
  { intros q y. unfold peer. rewrite Eo. intros (z & Hz & ->)%fmap_Some. by rewrite lookup_app_l, Hz by (by eapply lookup_lt_Some). }
  assert (forall q y, peer w' q = Some y -> peer w q = Some y \/ y = view (newSharePeer id)) as Hk'.
  { intros q y. unfold peer. rewrite Eo. intros (z & [Hz|[_ Hz]]%lookup_app_Some & ->)%fmap_Some; [left; by rewrite Hz|].
    right. by apply list_lookup_singleton_Some in Hz as [_ <-]. }
  assert (forall l, loop w' = l -> ~ idle l -> False) as Hl' by (by intros l <-).
  constructor; rewrite ?Esh, ?Es, ?Eh, ?Eu, ?Et; try done.
  - intros r y Hr Hs. destruct (H1 r y Hr Hs) as [El|[(q & Hq & Hin)|?]]; [by rewrite (Hn _ _ _ El Hr) in Hs|right; left|by right; right].
    exists q. split; [by apply Hk|done].
  - intros r y Hr. destruct (H4 r y Hr) as (q & Hq & ?). exists q. split; [by apply Hk|done].
  - intros q Hq. destruct (Hl' _ Hq). by intros [].
  - intros r y Hr Hs Hro Hh. destruct (H7 r y Hr Hs Hro Hh) as [(q & Hq & Hc)|?]; [left|by right]. exists q. split; [by apply Hk|done].
  - intros q y r [Hq| ->]%Hk' Hr; [by eapply H8|by apply elem_of_nil in Hr].
  - intros q r Hq. destruct (Hl' _ Hq). by intros [].
  - intros q y [Hq| ->]%Hk'; [by eapply H10|done].
  - intros q Hq. destruct (Hl' _ Hq). by intros [].
  - intros q rest g Hq. destruct (H12 _ _ _ Hq) as (y & Hy & ?). exists y. split; [by apply Hk|done].
Qed.

(** * Admission *)

(** A peer takes a slot: a viewer's, or the keyboard from whoever held it. *)
Lemma share_grant w w' p x ro :
  loop w = Some (Admitting p) -> peer w p = Some x -> access x = ro -> ro <> AccessDefault ->
  share w' = share w -> (forall q, peer w' q = peer w q) -> loop w' = Some (Holding p (length (slots w))) ->
  slots w' = slots w ++ [mkReservation ro p false] ->
  used w' = used w + (if decide (ro = AccessView) then 1 else 0) -> used w' <= Z.max 0 (MaxViewers_ (cfg (share w))) ->
  holder w' = (if decide (ro = AccessControl) then Some p else holder w) ->
  (forall q, holder w = Some q -> ro = AccessControl -> Preempt q ∈ tasks w') ->
  (forall t, t ∈ tasks w -> t ∈ tasks w') -> (forall t, t ∈ tasks w' -> t ∈ tasks w \/ exists q, t = Preempt q) ->
  share_ok w -> share_ok w'.
Proof.
  intros El Hp Ha Hro Esh Ep El' Es Eu Eu' Eh Hev Ht Ht' [H1 H2 H3 H4 H5 H6 H7 H8 H9 H10 H11 H12].
  destruct (H6 p El) as [(x' & Hx' & Hans & _) Hnone]. rewrite Hp in Hx'. apply Some_inj in Hx'. subst x'.
  assert (forall r y, slots w' !! r = Some y -> slots w !! r = Some y \/ r = length (slots w) /\ y = mkReservation ro p false) as Hs.
  { intros r y. rewrite Es. intros [?|[Hr Hy]]%lookup_app_Some; [by left|right]. apply list_lookup_singleton_Some in Hy as [? ?]. split; [lia|done]. }
  assert (forall r y, slots w !! r = Some y -> slots w' !! r = Some y) as Hs'.
  { intros r y Hy. rewrite Es, lookup_app_l; [done|by eapply lookup_lt_Some]. }
  assert (slots w' !! length (slots w) = Some (mkReservation ro p false)) as Hnew by (by rewrite Es, list_lookup_middle).
  constructor; rewrite ?Esh; try setoid_rewrite Ep.
  - intros r y [Hr|[-> ->]]%Hs Hf; [|by left]. destruct (H1 r y Hr Hf) as [E|[?|(rest & g & Hin & ?)]]; [congruence|by right; left|].
    right; right. exists rest, g. split; [by apply Ht|done].
  - split; [|done]. rewrite Eu, Es, count_app. destruct H2 as [-> _].
    replace (count is_view [mkReservation ro p false]) with (if decide (ro = AccessView) then 1 else 0)%nat by by destruct ro. clear; case_decide; lia.
  - intros q. rewrite Eh. case_decide; [intros [= <-]; by eexists _, _|]. intros (r & y & Hr & ?)%H3. exists r, y. split; [by apply Hs'|done].
  - intros r y [Hr|[-> ->]]%Hs; [by eapply H4|]. exists x. by split_and!.
  - intros r r' y y' [Hr|[-> ->]]%Hs [Hr'|[-> ->]]%Hs Ho; cbn in Ho; [by eapply H5|by destruct (Hnone _ _ Hr)|by destruct (Hnone _ _ Hr')|done].
  - intros q Hq. congruence.
  - intros r y [Hr|[-> ->]]%Hs Hf Hy Hh; [|cbn in *; by rewrite Eh, decide_True in Hh].
    destruct (decide (holder w = Some (owner y))) as [E|E].
    + right. apply Hev; [done|]. rewrite Eh in Hh. by case_decide.
    + destruct (H7 r y Hr Hf Hy E) as [?|?]; [by left|right; by apply Ht].
  - intros q y r Hq Hr. destruct (H8 q y r Hq Hr) as (? & z & Hz & ?). split; [done|]. exists z. split; [by apply Hs'|done].
  - intros q r Hq. rewrite El' in Hq. injection Hq as <- <-. eexists _, x. by split_and!.
  - intros q y. apply H10.
  - intros q Hq. congruence.
  - intros q rest g [Hq|[? ?]]%Ht'; [|done]. destruct (H12 _ _ _ Hq) as (y & Hy & Hc & Hr). exists y. split_and!; [done|done|]. intros r (z & Hz & ?)%Hr. exists z. split; [by apply Hs'|done].
Qed.

Lemma admit_ok w w' : admission w = Some w' -> share_ok w -> share_ok w'.
Proof.
  unfold admission. destruct (loop w) as [[| |p|?|?|?]|] eqn:El; try done. destruct (objs w !! p) as [x|] eqn:Ex; [|done]. intros [= <-] Hw.
  assert (peer w p = Some (view x)) as Hp by (unfold peer; by rewrite Ex).
  assert (empty_handed w) as Hn by (intros ???; congruence).
  destruct (access x) eqn:Ea.
  - apply share_goto; [|done|by apply share_teardown]. intros ???. unfold dropPeer, teardown. rewrite Ex. destruct (closed x); cbn; congruence.
  - unfold take. destruct (ReadOnly _); [by apply share_goto|]. pose proof (k_used w Hw) as [_ Hu].
    apply (share_grant w _ p (view x) AccessControl); destruct (holder w) as [q|] eqn:Eh; try done; cbn.
    all: try (rewrite Z.add_0_r; done).
    + intros q' [= <-] _. apply elem_of_app. right. by left.
    + intros t Ht. apply elem_of_app. by left.
    + intros t [Ht|Ht%list_elem_of_singleton]%elem_of_app; [by left|right]. by exists q.
    + by left.
  - unfold acquire. destruct (used w >=? _) eqn:Eu; [by apply share_goto|]. bool_to_prop.
    apply (share_grant w _ p (view x) AccessView); try done; cbn.
    + lia.
    + by left.
Qed.

Lemma release_keeps w r : loop (release w r) = loop w /\ objs (release w r) = objs w /\ tasks (release w r) = tasks w /\ share (release w r) = share w /\
  PeerSet.peers (peers (release w r)) = PeerSet.peers (peers w) /\ stopped (release w r) = stopped w /\ peers (release w r) = peers w.
Proof. unfold release. by repeat case_match. Qed.

Lemma release_spent w r y : slots (release w r) !! r = Some y -> spent y = true.
Proof.
  unfold release. destruct (slots w !! r) as [x|] eqn:Er; [|congruence]. destruct (spent x) eqn:Es; [congruence|].
  assert (forall l : list reservation, is_Some (l !! r) -> <[r := x <| spent := true |>]> l !! r = Some y -> spent y = true) as H.
  { intros l Hl. rewrite list_lookup_insert_eq by (by apply lookup_lt_is_Some). by intros [= <-]. }
  destruct (role x); [| |]; try case_decide; by apply H.
Qed.

(** [hold] moves the reservation from the handler to the peer. *)
Lemma share_hold w p r x : loop w = Some (Holding p r) -> peer w p = Some x -> closed x = false -> share_ok w ->
  share_ok (goto (Some (Publishing p None)) (on_peer p (fun x => x <| releases := releases x ++ [r] |>) w)).
Proof.
  intros El Hp Hc Hw. set (f := fun x => x <| releases := releases x ++ [r] |>). set (w' := goto _ _). destruct Hw as [H1 H2 H3 H4 H5 H6 H7 H8 H9 H10 H11 H12].
  destruct (H9 p r El) as (s & x0 & Hs & Ho & Hp0 & Hsp). rewrite Hp in Hp0. injection Hp0 as <-. specialize (Hsp Hc).
  assert (forall q, peer w' q = if decide (q = p) then Some (f x) else peer w q) as Ep.
  { intros q. change (peer w' q) with (peer (on_peer p f w) q). rewrite peer_alter. case_decide; [|done]. unfold peer in Hp.
    destruct (objs w !! p); [|done]. cbn in *. by injection Hp as <-. }
  assert (forall q y, peer w q = Some y -> exists z, peer w' q = Some z /\ closed z = closed y /\ access z = access y /\ answered z = answered y /\ (forall i, i ∈ releases y -> i ∈ releases z)) as Hk.
  { intros q y Hy. rewrite Ep. case_decide; [|exists y; by split_and!]. subst q. rewrite Hp in Hy. injection Hy as <-. exists (f x). split_and!; try done.
    intros i ?. cbn. apply elem_of_app. by left. }
  assert (forall l, loop w' = l -> l = Some (Publishing p None)) as El' by (by intros l <-).
  constructor; try done.
  - intros i y Hi Hs'. destruct (H1 i y Hi Hs') as [E|[(q & Hq & Hin)|?]]; [|right; left|by right; right].
    + rewrite El in E. injection E as E1 E2. subst i. right; left. exists (f x). rewrite Ep, decide_True by done. split; [done|]. cbn. apply elem_of_app. right. by left.
    + destruct (Hk _ _ Hq) as (z & Hz & _ & _ & _ & Hr). exists z. split; [done|by apply Hr].
  - intros i y Hi. destruct (H4 i y Hi) as (q & Hq & Ha & Hb & Hd). destruct (Hk _ _ Hq) as (z & Hz & _ & Hza & Hzb & _). exists z. split_and!; [done|congruence|congruence|done].
  - intros i y Hi Hs' Hro Hh. destruct (H7 i y Hi Hs' Hro Hh) as [(q & Hq & Hd)|?]; [left|by right]. destruct (Hk _ _ Hq) as (z & Hz & Hzc & _). exists z. split; [done|congruence].
  - intros q y i. rewrite Ep. case_decide; [|apply H8]. intros [= <-] [Hi|Hi%list_elem_of_singleton]%elem_of_app; [subst q; by apply (H8 p x i)|]. subst q i. split; [done|]. by exists s.
  - intros q y. rewrite Ep. case_decide; [|apply H10]. intros [= <-]. destruct (H10 _ _ Hp) as (Ha & Hb & Hd). split_and!; [done|done|].
    intros argv vo Hsh. destruct (Hd argv vo Hsh) as [[? [?|Hne]] ?]; (split; [|done]); (split; [done|]); [by left|right]. cbn. by intros [??]%app_nil.
  - intros q Hq. apply El' in Hq. injection Hq as Hq. subst q. exists (f x). rewrite Ep, decide_True by done.
    destruct (H4 r s Hs) as (z & Hz & Ha & Hb & Hd). rewrite Ho, Hp in Hz. injection Hz as <-. split_and!; [done|done|right; cbn; by intros [??]%app_nil|cbn; congruence].
  - intros q rest g Hq. destruct (H12 _ _ _ Hq) as (y & Hy & Hd & Hr). destruct (Hk _ _ Hy) as (z & Hz & Hzc & _). exists z. split_and!; [done|congruence|done].
Qed.

Lemma hold_ok w w' : hold w = Some w' -> share_ok w -> share_ok w'.
Proof.
  unfold hold. destruct (loop w) as [[| | |p r|?|?]|] eqn:El; try done. destruct (objs w !! p) as [x|] eqn:Ex; [|done]. intros [= <-] Hw.
  assert (peer w p = Some (view x)) as Hp by (unfold peer; by rewrite Ex). destruct (closed x) eqn:Ec; [|by apply (share_hold _ _ _ (view x))].
  destruct (k_holding w Hw p r El) as (s & y & Hs & Ho & Hy & _). apply share_goto; [|done|].
  - intros q i z. destruct (release_keeps w r) as [-> _]. rewrite El. intros [= _ <-] Hz. by eapply release_spent.
  - apply share_release; [|done]. intros z Hz. rewrite Hs in Hz. injection Hz as <-. exists (view x). by rewrite Ho.
Qed.

Lemma publish_ok w w' : publish w = Some w' -> share_ok w -> share_ok w'.
Proof.
  unfold publish. destruct (loop w) as [[| | | |p busy|?]|] eqn:El; try done. destruct (objs w !! p) as [x|] eqn:Ex; [|done]. intros [= <-] Hw.
  assert (empty_handed w) as Hn by (intros ???; congruence). destruct (closed x) eqn:Ec; [by apply share_goto|].
  assert (peer w p = Some (view x)) as Hp by (unfold peer; by rewrite Ex).
  apply (share_peer w _ p (view x) (view (x <| shell := Some (shell_of w x busy) |>))); try done.
  - intros q. change (peer (goto ?l ?v) q) with (peer v q). rewrite peer_alter, Ex. done.
  - destruct (k_access w Hw _ _ Hp) as (Ha & Hb & _). split_and!; [done|done|]. intros argv vo. cbn. unfold shell_of. destruct busy; [done|].
    destruct (k_pub w Hw p El) as (y & Hy & Hans & Hcr & Hd). rewrite Hp in Hy. injection Hy as <-. cbn in *.
    destruct (access x); intros [= <- <-]; by split.
  - by right.
  - right. split; [done|]. left. by destruct busy.
Qed.

Lemma answer_ok w w' id code : answer w id code = Some w' -> share_ok w -> share_ok w'.
Proof.
  unfold answer. destruct (loop w) eqn:El; [done|]. intros [= <-] Hw. destruct (Get (peers w) id) as [p|]; [|done].
  destruct (objs w !! p) as [x|] eqn:Ex; [|done]. set (g := fun x : sharePeer => x <| answered := true |>).
  assert (peer w p = Some (view x)) as Hp by (unfold peer; by rewrite Ex).
  assert (empty_handed w) as Hn by (intros ???; congruence).
  assert (share_ok (dropPeer (on_peer p g w) p)) as Hrej.
  { apply share_teardown, (share_peer w _ p (view x) (view (g x))); try done; [| | |].
    - intros q. by rewrite peer_alter, Ex.
    - destruct (k_access w Hw _ _ Hp) as (? & ? & Hsh). split_and!; [done|done|]. intros argv vo Ht. destruct (Hsh argv vo Ht) as [[_ ?] ?]. by split.
    - destruct (answered x) eqn:Ea; [by right|left]. intros r y Hr Ho.
      destruct (k_role w Hw r y Hr) as (q & Hq & _ & Hans & _). rewrite Ho, Hp in Hq. injection Hq as <-. cbn in Hans. congruence.
    - right. split; [done|left]. cbn. by rewrite El. }
  destruct code as [c|]; [|done]. destruct (answered x) eqn:Ea; [done|].
  assert (forall r y, slots w !! r = Some y -> owner y <> p) as Hfresh.
  { intros r y Hr Ho. destruct (k_role w Hw r y Hr) as (q & Hq & _ & Hans & _). rewrite Ho, Hp in Hq. injection Hq as <-. cbn in Hans. congruence. }
  destruct (k_access w Hw _ _ Hp) as (Hc & Hv & Hsh).
  assert (releases x = [] \/ closed x = true) as Hrel.
  { destruct (releases x) as [|r l] eqn:Er; [by left|]. destruct (k_rel w Hw p (view x) r Hp) as (_ & y & Hy & Ho & _); [cbn; rewrite Er; by left|]. by destruct (Hfresh r y Hy). }
  destruct (authorize (share w) c) as [a ok] eqn:Eau.
  set (f := fun x => x <| answered := true |> <| presented := c |> <| access := a |>).
  assert (forall argv vo, shell x <> Some (Terminal argv vo)) as Hno.
  { intros argv vo Hx. destruct (Hsh argv vo Hx) as [[? _] _]. cbn in *. congruence. }
  destruct ok; [|done].
  apply (share_peer w _ p (view x) (view (f x))); try done; [| |by left|right; split; [done|right; split_and!; try done]].
  - intros q. change (peer (goto ?l ?v) q) with (peer v q). by rewrite peer_alter, Ex.
  - unfold authorize in Eau. split_and!; cbn; [| |by intros argv vo ?%Hno]; intros ->; repeat case_match; bool_to_prop; simplify_eq; done.
  - unfold authorize in Eau. cbn. repeat case_match; by simplify_eq.
Qed.

(** * Other goroutines *)

(** A task is done: what it had to do is done, or another task has it to do. *)
Lemma share_swap w t ts1 ts2 ts3 s b :
  tasks w = ts1 ++ t :: ts2 -> (forall p rest f, Cleanup p rest f ∈ ts3 -> exists rest', t = Cleanup p rest' f /\ forall r, r ∈ rest -> r ∈ rest') ->
  match t with
  | Preempt p => forall x, peer w p = Some x -> closed x = true
  | Cleanup p rest f => forall r x, r ∈ rest -> slots w !! r = Some x -> spent x = false -> exists rest' f', Cleanup p rest' f' ∈ ts3 /\ r ∈ rest'
  | Drain _ => True
  end ->
  share_ok w -> share_ok (w <| tasks := ts1 ++ ts2 ++ ts3 |> <| peers := s |> <| stopped := b |>).
Proof.
  intros Et Hn Ht Hw. apply (share_frame w); try done; [|by left]. constructor; cbn.
  - intros r x rest f Hr Hs Hin Hrr. rewrite Et in Hin. apply elem_of_app in Hin as [Hin|[<-|Hin]%elem_of_cons].
    1,3: exists rest, f; split; [|done]; rewrite !elem_of_app; tauto.
    destruct (Ht r x Hrr Hr Hs) as (rest' & f' & ? & ?). exists rest', f'. split; [|done]. rewrite !elem_of_app. tauto.
  - intros p Hp. rewrite Et in Hp. apply elem_of_app in Hp as [Hp|[<-|Hp]%elem_of_cons]; [left; rewrite !elem_of_app; tauto|by right|left; rewrite !elem_of_app; tauto].
  - intros p rest f. rewrite !elem_of_app. rewrite Et. intros [Hp|[Hp|Hp]].
    1,2: exists rest; split; [|done]; rewrite elem_of_app, elem_of_cons; tauto.
    destruct (Hn _ _ _ Hp) as (rest' & -> & ?). exists rest'. split; [|done]. rewrite elem_of_app, elem_of_cons. tauto.
Qed.

(** The tasks a teardown leaves. *)
Definition left_over (w : Worker) (p : nat) (forget : bool) : list task :=
  match objs w !! p with Some x => if closed x then [] else [Cleanup p (releases x) forget] | None => [] end.

Lemma teardown_tasks w p forget ts :
  teardown (w <| tasks := ts |>) p forget = (teardown w p forget) <| tasks := ts ++ left_over w p forget |> /\
  tasks (teardown w p forget) = tasks w ++ left_over w p forget.
Proof.
  unfold teardown, left_over. cbn. destruct (objs w !! p) as [x|]; [destruct (closed x)|]; cbn; rewrite ?app_nil_r; split; try done; by destruct w.
Qed.

Lemma teardown_closes w p forget x : peer (teardown w p forget) p = Some x -> closed x = true.
Proof.
  unfold teardown. destruct (objs w !! p) as [y|] eqn:Ey; [|unfold peer; by rewrite Ey].
  destruct (closed y) eqn:Ec; [unfold peer; rewrite Ey; by intros [= <-]|].
  change (peer (spawn ?t ?v) p) with (peer v p). rewrite peer_alter, Ey, decide_True by done. by intros [= <-].
Qed.

Lemma release_tasks w r ts : release (w <| tasks := ts |>) r = (release w r) <| tasks := ts |>.
Proof. unfold release. cbn. by repeat case_match. Qed.

Lemma share_dismiss w t ts1 ts2 p forget :
  tasks w = ts1 ++ t :: ts2 -> (t = Preempt p \/ t = Drain p) -> share_ok w -> share_ok (teardown (w <| tasks := ts1 ++ ts2 |>) p forget).
Proof.
  intros Et Ht Hw. destruct (teardown_tasks w p forget (ts1 ++ ts2)) as [-> Et']. pose proof (share_teardown w p forget Hw) as Hv.
  pose proof (teardown_closes w p forget) as Hcl. set (v := teardown w p forget) in *. clearbody v. rewrite Et, <- app_assoc in Et'. cbn in Et'.
  pose proof (share_swap v t ts1 (ts2 ++ left_over w p forget) [] (peers v) (stopped v) Et') as H. rewrite app_nil_r in H.
  rewrite <- app_assoc. destruct v. apply H; [by intros ??? ?%elem_of_nil| |done].
  by destruct Ht as [-> | ->].
Qed.

Lemma run_task_ok w t ts1 ts2 : tasks w = ts1 ++ t :: ts2 -> share_ok w -> share_ok (run_task (w <| tasks := ts1 ++ ts2 |>) t).
Proof.
  intros Et Hw. destruct t as [p|p|p [|r rest] forget]; unfold run_task, dropPeer.
  - eapply share_dismiss; [done|by left|done].
  - eapply share_dismiss; [done|by right|done].
  - assert (forall s, share_ok (w <| tasks := ts1 ++ ts2 |> <| peers := s |>)) as H.
    { intros s. pose proof (share_swap w _ ts1 ts2 [] s (stopped w) Et) as H. rewrite app_nil_r in H. destruct w.
      apply H; [by intros ??? ?%elem_of_nil|by intros ?? ?%elem_of_nil|done]. }
    cbn. destruct (objs w !! p) as [x|]; [destruct forget; [apply H|]|]; specialize (H (peers w)); by destruct w.
  - destruct (k_cleanup w Hw p (r :: rest) forget) as (x & Hx & Hc & Hr); [rewrite Et; apply elem_of_app; right; by left|].
    assert (share_ok (release w r)) as Hv.
    { apply share_release; [|done]. intros y Hy. destruct (Hr r) as (z & Hz & Ho); [by left|]. rewrite Hy in Hz. injection Hz as <-. exists x. by rewrite Ho. }
    rewrite release_tasks. destruct (release_keeps w r) as (_ & _ & Et' & _). pose proof (release_spent w r) as Hsp. rewrite Et in Et'.
    set (v := release w r) in *. clearbody v. pose proof (share_swap v _ ts1 ts2 [Cleanup p rest forget] (peers v) (stopped v) Et') as H.
    unfold spawn. cbn. rewrite <- app_assoc. destruct v. apply H; [| |done].
    + intros q rest' f [= -> -> ->]%list_elem_of_singleton. exists (r :: rest). split; [done|]. intros i ?. by right.
    + intros i y [-> |Hi]%elem_of_cons Hy Hs; [by rewrite (Hsp _ Hy) in Hs|]. exists rest, forget. split; [by left|done].
Qed.

Lemma shutdown_ok w : share_ok w -> share_ok (shutdown w).
Proof.
  unfold shutdown. destruct (stopped w); [done|]. cbn. apply share_frame; try done; [|by left]. constructor; cbn.
  - intros r x rest f _ _ ? ?. exists rest, f. rewrite elem_of_app. tauto.
  - intros p ?. left. rewrite elem_of_app. tauto.
  - intros p rest f [?|(q & ? & _)%list_elem_of_fmap]%elem_of_app; [by exists rest|done].
Qed.

Lemma share_step_ok w w' : share_ok w -> share_step w w' -> share_ok w'.
Proof.
  intros Hw Hs. destruct Hs as [w id w' H|w built w' H|w w' H|w id code w' H|w w' H|w w' H|w w' H|w w' H|w p|w p|w p|w p|w|w t ts1 ts2 H].
  - unfold request in H. destruct (loop w) eqn:El; [done|]. apply Some_inj in H. subst w'. destruct id; [done|]. case_match; [done|]. apply share_goto; [|done..]. intros ???. congruence.
  - unfold request_add in H. destruct (loop w) as [[id| | | | |]|] eqn:El; try done. apply Some_inj in H. subst w'.
    assert (empty_handed w) as Hn by (intros ???; congruence). destruct built; [|by apply share_goto]. cbn [negb].
    destruct (AddLimited _ _ _ _) as [s [|]]; by apply (share_append w _ id).
  - unfold request_arm in H. destruct (loop w) as [[|p| | | |]|] eqn:El; try done. apply Some_inj in H. subst w'.
    apply share_goto; [|done|]; [intros ???; cbn; congruence|]. apply share_neutral; [|done]. intros x. by destruct (closed x).
  - by eapply answer_ok.
  - by eapply admit_ok.
  - by eapply hold_ok.
  - by eapply publish_ok.
  - unfold armRefusal in H. destruct (loop w) as [[| | | | |p]|] eqn:El; try done. apply Some_inj in H. subst w'.
    apply share_goto; [|done|]; [intros ???; cbn; congruence|]. apply share_neutral; [|done]. intros x. by destruct (closed x).
  - by apply share_teardown.
  - apply share_neutral; [|done]. intros x. by destruct (establishment x).
  - unfold AcquireSlot. repeat case_match; try done. by apply share_neutral.
  - by apply share_neutral.
  - by apply shutdown_ok.
  - by apply run_task_ok.
Qed.

Lemma start_ok sh : share_ok (start sh).
Proof. constructor; try done; cbn; [split; [done|lia]|by intros ??? ?%elem_of_nil]. Qed.

(** * The registry *)

Definition busy_with (l : option handling) (p : nat) : Prop :=
  match l with
  | Some (Arming q) | Some (Admitting q) | Some (Holding q _) | Some (Publishing q _) | Some (Refusing q) => q = p
  | _ => False
  end.

Record registry_ok (w : Worker) : Prop := {
  g_reg id p : Get (peers w) id = Some p -> exists x, objs w !! p = Some x /\ clientID x = id;
  g_open p x : objs w !! p = Some x -> closed x = false -> answered x = true -> Get (peers w) (clientID x) = Some p \/ Drain p ∈ tasks w;
  g_stop : stopped w = true -> PeerSet.peers (peers w) = ∅ /\ PeerSet.closed (peers w) = true;
  g_loop p : busy_with (loop w) p -> is_Some (objs w !! p);
  g_len : 0 <= MaxViewers_ (cfg (share w)) -> Len (peers w) <= maxPeers w
}.

(** A peer that keeps its identity, and is not answered or opened again. *)
Definition evolves (x x' : sharePeer) : Prop := clientID x' = clientID x /\ (closed x' = false -> closed x = false /\ (answered x' = true -> answered x = true)).

Lemma registry_frame w w' :
  share w' = share w -> peers w' = peers w -> stopped w' = stopped w -> (forall p, option_Forall2 evolves (objs w !! p) (objs w' !! p)) ->
  (forall p, Drain p ∈ tasks w -> Drain p ∈ tasks w' \/ forall x, objs w' !! p = Some x -> closed x = true) ->
  (forall p, busy_with (loop w') p -> is_Some (objs w !! p)) -> registry_ok w -> registry_ok w'.
Proof.
  intros Esh Ep Es Ho Ht Hl [H1 H2 H3 H4 H5]. constructor; unfold maxPeers in *; rewrite ?Esh, ?Ep, ?Es; try done.
  - intros id p (x & Hx & Hid)%H1. specialize (Ho p). rewrite Hx in Ho. inversion Ho as [? x' [He ?] E1 Heq|]; subst. exists x'. split; [done|congruence].
  - intros p x' Hx' Hc Ha. pose proof (Ho p) as Hop. rewrite Hx' in Hop. inversion Hop as [x ? [He Hr] Heq E1|]; subst. destruct (Hr Hc) as [Hc' Ha'].
    destruct (H2 p x) as [?|Hd]; [done|done|by apply Ha'|left; by rewrite He|]. destruct (Ht p Hd) as [?|Hcl]; [by right|]. by rewrite (Hcl x' Hx') in Hc.
  - intros p Hp. destruct (Hl p Hp) as [x Hx]. specialize (Ho p). rewrite Hx in Ho. inversion Ho; subst; by eexists.
Qed.

Lemma peer_evolves_refl o : option_Forall2 evolves o o.
Proof. destruct o; constructor. done. Qed.

Lemma evolves_alter w p f q : (forall x, evolves x (f x)) -> option_Forall2 evolves (objs w !! q) (objs (on_peer p f w) !! q).
Proof.
  intros Hf. cbn. destruct (decide (q = p)) as [->|]; [rewrite list_lookup_alter_eq|rewrite list_lookup_alter_ne by done; apply peer_evolves_refl].
  destruct (objs w !! p); constructor. apply Hf.
Qed.

#[local] Hint Resolve peer_evolves_refl : core.

Lemma registry_alter w p f l : (forall x, evolves x (f x)) -> (forall q, busy_with l q -> is_Some (objs w !! q)) -> registry_ok w -> registry_ok (goto l (on_peer p f w)).
Proof. intros Hf Hl. apply registry_frame; try done; [intros q; by apply evolves_alter|by left]. Qed.

Lemma registry_goto w l : (forall q, busy_with l q -> is_Some (objs w !! q)) -> registry_ok w -> registry_ok (goto l w).
Proof. intros Hl. apply registry_frame; try done; by left. Qed.

Lemma goto_self w : goto (loop w) w = w.
Proof. by destruct w. Qed.

Lemma registry_teardown w p forget : registry_ok w -> registry_ok (teardown w p forget).
Proof.
  intros Hw. unfold teardown. destruct (objs w !! p) as [x|] eqn:Ex; [|done]. destruct (closed x) eqn:Ec; [done|].
  apply (registry_frame w); try done; [intros q; by apply (evolves_alter w p)|left; apply elem_of_app; by left|by apply (g_loop w)].
Qed.

Lemma registry_run_task w t ts1 ts2 : tasks w = ts1 ++ t :: ts2 -> share_ok w -> registry_ok w -> registry_ok (run_task (w <| tasks := ts1 ++ ts2 |>) t).
Proof.
  intros Et Hs Hw.
  assert (forall p, Drain p ∈ tasks w -> t = Drain p \/ Drain p ∈ ts1 ++ ts2) as Hin.
  { intros p. rewrite Et, !elem_of_app, elem_of_cons. intros [?|[->|?]]; tauto. }
  assert (forall p forget, (t = Preempt p \/ t = Drain p) -> registry_ok (teardown (w <| tasks := ts1 ++ ts2 |>) p forget)) as Hdis.
  { intros p forget Ht. destruct (teardown_tasks w p forget (ts1 ++ ts2)) as [-> _]. pose proof (registry_teardown w p forget Hw) as Hv.
    pose proof (teardown_closes w p forget) as Hcl. pose proof (teardown_tasks w p forget []) as [_ Et'].
    apply (registry_frame (teardown w p forget)); [done|done|done|by intros q; apply peer_evolves_refl| |by apply (g_loop _ Hv)|done]. intros q. rewrite Et'. cbn. rewrite !elem_of_app. intros [[Hq|?]%Hin|?]; [|left; apply elem_of_app in H; tauto|tauto].
    destruct Ht as [-> | ->]; [done|injection Hq as ->]. right. intros x Hx. apply (Hcl (view x)). unfold peer. by rewrite Hx. }
  destruct t as [p|p|p [|r rest] forget]; unfold run_task, dropPeer; [by apply Hdis; left|by apply Hdis; right| |].
  - cbn. set (v := w <| tasks := ts1 ++ ts2 |>).
    assert (registry_ok v) as Hv by (apply (registry_frame w); [done|done|done|by intros q; apply peer_evolves_refl| |by apply (g_loop w)|done]; intros q [?|?]%Hin; [done|by left]).
    destruct (objs w !! p) as [x|] eqn:Ex; [|done]. destruct forget; [|done].
    destruct (k_cleanup w Hs p [] true) as (x' & Hx' & Hc & _); [rewrite Et; apply elem_of_app; right; by left|].
    unfold peer in Hx'. rewrite Ex in Hx'. injection Hx' as <-. cbn in Hc. destruct Hv as [H1 H2 H3 H4 H5]. constructor; try done; cbn.
    + intros id q [Hg _]%Get_Forget. by apply H1.
    + intros q y Hy Hcy Ha. destruct (H2 q y Hy Hcy Ha) as [Hg|?]; [left|by right]. apply Get_Forget. split; [done|]. intros E Hg'. cbn in Hg. rewrite E, Hg' in Hg. injection Hg as ->. cbn in Hy. rewrite Ex in Hy. congruence.
    + intros Hst. destruct (H3 Hst) as [He Hcs]. unfold Forget. cbn in *. rewrite He, lookup_empty. done.
    + intros Hm. specialize (H5 Hm). unfold maxPeers, Len in *. cbn in *. unfold Forget. destruct (PeerSet.peers (peers w) !! clientID x) eqn:E; [|done]. case_decide; [|done]. cbn.
      rewrite map_size_delete_Some by done. lia.
  - rewrite release_tasks. destruct (release_keeps w r) as (El & Eo & Et' & Esh & _ & Est & Epe).
    apply (registry_frame w); cbn; rewrite ?Esh, ?Epe, ?Est, ?Eo, ?El; try done; [|by apply g_loop].
    intros q [?|?]%Hin; [done|left]. apply elem_of_app. by left.
Qed.

Lemma registry_shutdown w : registry_ok w -> registry_ok (shutdown w).
Proof.
  intros Hw. unfold shutdown. destruct (stopped w); [done|]. destruct Hw as [H1 H2 H3 H4 H5]. cbn. constructor; try done; cbn.
  - intros p x Hx Hc Ha. right. apply elem_of_app. destruct (H2 p x Hx Hc Ha) as [Hg|?]; [right|by left].
    apply list_elem_of_fmap. exists p. split; [done|]. apply All_spec. by eexists.
  - intros Hm. specialize (H5 Hm). unfold Len, maxPeers in *. cbn in *. rewrite map_size_empty. lia.
Qed.

Lemma registry_append w built w' : request_add w built = Some w' -> registry_ok w -> registry_ok w'.
Proof.
  intros H Hw. unfold request_add in H. destruct (loop w) as [[i| | | | |]|] eqn:El; try done. apply Some_inj in H. subst w'.
  destruct built; [|by apply registry_goto]. cbn [negb]. set (p := length (objs w)). set (w1 := w <| objs := objs w ++ [newSharePeer i] |>).
  assert (forall q x, objs w !! q = Some x -> objs w1 !! q = Some x) as Hk by (intros q x Hx; cbn; by apply lookup_app_l_Some).
  assert (forall q x, objs w1 !! q = Some x -> objs w !! q = Some x \/ answered x = false) as Hk'.
  { intros q x [?|[_ Hx]]%lookup_app_Some; [by left|right]. apply list_lookup_singleton_Some in Hx as [_ <-]. done. }
  assert (objs w1 !! p = Some (newSharePeer i)) as Hnew by (cbn; by rewrite list_lookup_middle).
  assert (registry_ok (goto None w1)) as Hrefused.
  { destruct Hw as [H1 H2 H3 H4 H5]. constructor; try done; cbn.
    - intros d q (x & Hx & ?)%H1. exists x. split; [by apply Hk|done].
    - intros q x [Hx|Hx]%Hk' Hc Ha; [by apply H2|congruence]. }
  destruct (AddLimited _ _ _ _) as [s ok] eqn:Ea. destruct ok; [|done]. unfold AddLimited in Ea. cbn in Ea.
  destruct (PeerSet.closed (peers w)) eqn:Ec; [done|]. destruct (_ && _) eqn:Em; [done|]. destruct (PeerSet.peers (peers w) !! i) eqn:Ei; [done|]. injection Ea as <-.
  destruct Hrefused as [H1 H2 H3 H4 H5]. constructor; cbn.
  - intros d q. unfold Get. cbn. intros [[<- <-]|[? Hq]]%lookup_insert_Some; [by eexists|by apply H1].
  - intros q x Hx Hc Ha. destruct (H2 q x Hx Hc Ha) as [Hg|?]; [left|by right]. unfold Get in *. cbn in *. apply lookup_insert_Some. right. split; [|done]. congruence.
  - intros Hst. destruct (H3 Hst) as [_ Hcl]. cbn in Hcl. congruence.
  - intros q <-. by eexists.
  - intros Hm. specialize (H5 Hm). unfold Len, maxPeers in *. cbn in *. rewrite map_size_insert_None by done. apply andb_false_iff in Em as [Em|Em]; bool_to_prop; lia.
Qed.

Lemma registry_step w w' : share_ok w -> registry_ok w -> share_step w w' -> registry_ok w'.
Proof.
  intros Hs Hw H. pose proof (g_loop w Hw) as Hl. destruct H as [w id w' H|w built w' H|w w' H|w id code w' H|w w' H|w w' H|w w' H|w w' H|w p|w p|w p|w p|w|w t ts1 ts2 H].
  - unfold request in H. destruct (loop w); [done|]. apply Some_inj in H. subst w'. destruct id; [done|]. case_match; [done|]. by apply registry_goto.
  - by eapply registry_append.
  - unfold request_arm in H. destruct (loop w) as [[|p| | | |]|] eqn:El; try done. apply Some_inj in H. subst w'. apply registry_alter; [|done..]. intros x. by destruct (closed x) eqn:E; split.
  - unfold answer in H. destruct (loop w) eqn:El; [done|]. apply Some_inj in H. subst w'. destruct (Get (peers w) id) as [p|] eqn:Eg; [|done].
    destruct (objs w !! p) as [x|] eqn:Ex; [|done].
    assert (forall f, (forall y, clientID (f y) = clientID y /\ closed (f y) = closed y) -> forall l, (forall q, busy_with l q -> q = p) -> registry_ok (goto l (on_peer p f w))) as Hf.
    { intros f Hf l Hlp. destruct Hw as [H1 H2 H3 H4 H5]. constructor; try done; cbn.
      - intros d q (y & Hy & Hd)%H1. destruct (decide (q = p)) as [->|]; [|exists y; by rewrite list_lookup_alter_ne by done].
        exists (f y). rewrite list_lookup_alter_eq, Hy. split; [done|]. destruct (Hf y). congruence.
      - intros q y. destruct (decide (q = p)) as [->|]; [|rewrite list_lookup_alter_ne by done; apply H2]. rewrite list_lookup_alter_eq, Ex. intros [= <-] _ _. left.
        destruct (Hf x) as [-> _]. destruct (H1 _ _ Eg) as (x' & Hx' & <-). by simplify_eq.
      - intros q ->%Hlp. rewrite list_lookup_alter_eq, Ex. by eexists. }
    assert (registry_ok (dropPeer (on_peer p (fun y => y <| answered := true |>) w) p)) as Hrej.
    { apply registry_teardown. assert (on_peer p (fun y => y <| answered := true |>) w = goto None (on_peer p (fun y => y <| answered := true |>) w)) as -> by (by destruct w; cbn in *; rewrite El). by apply Hf. }
    destruct code as [c|]; [|done]. destruct (answered x); [done|]. destruct (authorize _ _) as [a [|]]; [|done]. apply Hf; [done|]. by intros q <-.
  - unfold admission in H. destruct (loop w) as [[| |p| | |]|] eqn:El; try done. destruct (objs w !! p) as [x|] eqn:Ex; [|done]. apply Some_inj in H. subst w'.
    assert (forall l v, objs v = objs w -> share v = share w -> peers v = peers w -> stopped v = stopped w -> (forall t, t ∈ tasks w -> t ∈ tasks v) -> (forall q, busy_with l q -> q = p) -> registry_ok (goto l v)) as Hg.
    { intros l v Eo Esh Ep Est Ht Hlp. apply (registry_frame w); try done; cbn; [intros q; rewrite Eo; apply peer_evolves_refl|intros q ?; left; by apply Ht|]. intros q ->%Hlp. by eexists. }
    destruct (access x).
    + apply registry_goto; [done|]. by apply registry_teardown.
    + unfold take. destruct (ReadOnly _); [by apply Hg|]. destruct (holder w); (apply Hg; try done). intros t ?. apply elem_of_app. by left.
    + unfold acquire. destruct (used w >=? _); by apply Hg.
  - unfold hold in H. destruct (loop w) as [[| | |p r| |]|] eqn:El; try done. destruct (objs w !! p) as [x|] eqn:Ex; [|done]. apply Some_inj in H. subst w'.
    destruct (closed x); [|apply registry_alter; [done|by intros q <-|done]].
    destruct (release_keeps w r) as (_ & Eo & Et & Esh & _ & Est & Ep). apply (registry_frame w); cbn; rewrite ?Eo, ?Et, ?Esh, ?Est, ?Ep; try done; by left.
  - unfold publish in H. destruct (loop w) as [[| | | |p b|]|] eqn:El; try done. destruct (objs w !! p) as [x|] eqn:Ex; [|done]. apply Some_inj in H. subst w'.
    destruct (closed x); [by apply registry_goto|]. apply registry_alter; [done| |done]. by destruct b; [intros q <-|].
  - unfold armRefusal in H. destruct (loop w) as [[| | | | |p]|] eqn:El; try done. apply Some_inj in H. subst w'. apply registry_alter; [|done..]. intros x. by destruct (closed x) eqn:E; split.
  - by apply registry_teardown.
  - rewrite <- (goto_self w). apply (registry_alter w); [|done..]. intros x. by destruct (establishment x); split.
  - unfold AcquireSlot. repeat case_match; try done. rewrite <- (goto_self w). by apply (registry_alter w).
  - rewrite <- (goto_self w). by apply (registry_alter w).
  - by apply registry_shutdown.
  - by apply registry_run_task.
Qed.

Lemma running_ok sh w : running sh w -> share_ok w /\ registry_ok w /\ share w = sh.
Proof.
  intros H. apply (steps_invariant share_step (fun w => share_ok w /\ registry_ok w /\ share w = sh)) with (s1 := start sh); [|done|].
  - clear. intros w w' (Hs & Hr & <-) H. split; [by eapply share_step_ok|split; [by eapply registry_step|]].
    destruct H; unfold request, request_add, request_arm, answer, admission, hold, publish, armRefusal, AcquireSlot, shutdown, run_task, dropPeer, take, acquire, teardown in *;
    repeat (case_match; simplify_eq; try done); unfold teardown; try (by repeat case_match); cbn;
    match goal with |- context [release ?v ?r] => by destruct (release_keeps v r) as (_ & _ & _ & -> & _) end.
  - split; [apply start_ok|]. split; [|done]. constructor; try done. intros Hm. unfold Len, maxPeers. cbn in *. rewrite map_size_empty. lia.
Qed.

(** * Credentials *)

Lemma distinct_code tries exclude gen code : distinctAccessCode tries exclude gen = Some code -> code <> exclude.
Proof. revert gen. induction tries as [|n IH]; intros [|[c|] gen]; cbn; try done. case_decide; [by intros [= <-]|apply IH]. Qed.

(** A worker's two codes are told apart, each is worth its role and nothing else is worth one; a read-only share
    has no control code. *)
Lemma share_authorize_exact c code gen sh k :
  NewWorker c code gen = Ok sh ->
  authorize sh k = (if decide (ReadOnly c = false /\ k = controlCode sh) then (AccessControl, true) else if decide (k = viewCode sh) then (AccessView, true) else (AccessDefault, false)) /\
  (ReadOnly c = false -> controlCode sh = code /\ viewCode sh <> code) /\ (ReadOnly c = true -> viewCode sh = code) /\ 0 <= MaxViewers_ (cfg sh) <= MaxViewers.
Proof.
  unfold NewWorker. destruct (_ || _ || _); [done|]. destruct (_ || _) eqn:Em; [done|]. destruct (_ || _ || _); [done|]. bool_to_prop.
  destruct (ReadOnly c) eqn:Er; [|destruct (distinctAccessCode 8 code gen) as [v|] eqn:Ev; [apply distinct_code in Ev|done]]; intros Hsh; injection Hsh as <-; unfold authorize; cbn; rewrite Er.
  - rewrite andb_false_r, decide_False by (by intros []). case_decide; [rewrite bool_decide_true by done|rewrite bool_decide_false by done]; by split_and!.
  - rewrite andb_true_r. case_decide as Hk; [rewrite bool_decide_true by tauto; by split_and!|]. rewrite bool_decide_false by tauto.
    case_decide; [rewrite bool_decide_true by done|rewrite bool_decide_false by done]; by split_and!.
Qed.

(** * What a share promises *)

(** The slots are exact. From the start of a share, whatever connections come, answer, are refused, close, time
    out and are preempted, in whatever order, a well-formed share stays one: at most [MaxViewers_] viewers hold a slot,
    [used] is the number of viewer reservations that were not given back, no peer ever gets a second reservation
    or one its credential does not name, at most [MaxViewers_ + 5] connections are registered, and when nothing is in
    progress every reservation belongs to a peer that is open and will give it back. *)
Theorem share_slots_exact sh w :
  0 <= MaxViewers_ (cfg sh) -> running sh w ->
  0 <= used w <= MaxViewers_ (cfg sh) /\ used w = Z.of_nat (count is_view (slots w)) /\ Len (peers w) <= MaxViewers_ (cfg sh) + 5 /\
  (forall r x, slots w !! r = Some x -> (exists p, objs w !! owner x = Some p /\ access p = role x /\ role x <> AccessDefault) /\
     (forall r' x', slots w !! r' = Some x' -> owner x' = owner x -> r' = r) /\
     (loop w = None -> tasks w = [] -> spent x = false -> exists p, objs w !! owner x = Some p /\ closed p = false /\ r ∈ releases p)).
Proof.
  intros Hm Hr. destruct (running_ok _ _ Hr) as (Hs & Hg & <-). destruct (k_used w Hs) as [Hu Hle]. split_and!; [lia|lia|done|by apply (g_len w Hg)|].
  assert (forall q y, peer w q = Some y -> exists x, objs w !! q = Some x /\ y = view x) as Hview.
  { intros q y. unfold peer. intros (x & Hx & ->)%fmap_Some. by exists x. }
  intros r x Hx. split_and!.
  - destruct (k_role w Hs r x Hx) as (p & (y & Hy & ->)%Hview & Ha & _ & Hd). by exists y.
  - intros r' x' Hx' Ho. by eapply (k_once w Hs).
  - intros El Et Hf. destruct (k_loc w Hs r x Hx Hf) as [E|[(p & Hp & Hin)|(rest & f & Hin & _)]]; [congruence| |rewrite Et in Hin; by apply elem_of_nil in Hin].
    destruct (k_rel w Hs _ _ _ Hp Hin) as [Hc _]. destruct (Hview _ _ Hp) as (y & Hy & ->). by exists y.
Qed.

(** C28: One connection has the keyboard. A terminal that types runs the control command for a connection that presented
    the control code of a share that is not read-only, and while that connection is open it is the controller, or
    its preemption is under way: two such connections are never left side by side. *)
Theorem one_keyboard sh w p x argv :
  running sh w -> objs w !! p = Some x -> shell x = Some (Terminal argv false) ->
  argv = controlArgv sh /\ presented x = controlCode sh /\ ReadOnly (cfg sh) = false /\
  (closed x = false -> Preempt p ∉ tasks w -> holder w = Some p).
Proof.
  intros Hr Hx Hsh. destruct (running_ok _ _ Hr) as (Hs & Hg & <-). assert (peer w p = Some (view x)) as Hp by (unfold peer; by rewrite Hx).
  destruct (k_access w Hs _ _ Hp) as (Hc & _ & Ht). destruct (Ht argv false Hsh) as [[Hans Hcr] [Ha ->]]. destruct (Hc Ha) as [Hpr Hro].
  split_and!; [done|done|done|]. intros Ho Hn. destruct Hcr as [?|Hne]; [cbn in *; congruence|].
  destruct (releases (view x)) as [|r l] eqn:Er; [done|]. destruct (k_rel w Hs p (view x) r Hp) as (_ & y & Hy & Hoy & Hsp); [rewrite Er; by left|].
  destruct (k_role w Hs r y Hy) as (q & Hq & Haq & _). rewrite Hoy, Hp in Hq. injection Hq as <-.
  destruct (decide (holder w = Some p)) as [|Hnh]; [done|]. destruct (k_evict w Hs r y Hy Hsp) as [(q & Hq & Hcq)|?]; [congruence|congruence| |congruence].
  rewrite Hoy, Hp in Hq. injection Hq as <-. cbn in *. congruence.
Qed.

(** What is left to do once the share has stopped: its goroutines, and the handler that runs. *)
Inductive finishing : Worker -> Worker -> Prop :=
| f_add w built w' : request_add w built = Some w' -> finishing w w'
| f_arm w w' : request_arm w = Some w' -> finishing w w'
| f_admit w w' : admission w = Some w' -> finishing w w'
| f_hold w w' : hold w = Some w' -> finishing w w'
| f_publish w w' : publish w = Some w' -> finishing w w'
| f_refusal w w' : armRefusal w = Some w' -> finishing w w'
| f_task w t ts1 ts2 : tasks w = ts1 ++ t :: ts2 -> finishing w (run_task (w <| tasks := ts1 ++ ts2 |>) t).

Lemma finishing_step w w' : finishing w w' -> share_step w w'.
Proof. intros [v b v' H|v v' H|v v' H|v v' H|v v' H|v v' H|v t ts1 ts2 H]; eauto using s_add, s_arm, s_admit, s_hold, s_publish, s_refusal. by apply s_task. Qed.

Definition task_work (t : task) : nat := match t with Cleanup _ rest _ => S (length rest) | _ => 1 end.
Definition peer_work (x : sharePeer) : nat := if closed x then 0 else 2 + length (releases x).
Definition loop_work (l : option handling) : nat :=
  match l with
  | Some (Creating _) => 5 | Some (Arming _) => 1 | Some (Admitting _) => 6 | Some (Holding _ _) => 4 | Some (Publishing _ _) => 2 | Some (Refusing _) => 1 | None => 0
  end.
Definition work (w : Worker) : nat := loop_work (loop w) + sum_list_with task_work (tasks w) + sum_list_with peer_work (objs w).

Lemma sum_alter f l p x : l !! p = Some x -> (sum_list_with peer_work (alter f p l) + peer_work x = sum_list_with peer_work l + peer_work (f x))%nat.
Proof.
  revert p. induction l as [|y l IH]; intros [|p] Hp; try done.
  - injection Hp as ->. cbn. lia.
  - change (alter f (S p) (y :: l)) with (y :: alter f p l). cbn. specialize (IH p Hp). lia.
Qed.

Lemma teardown_work w p forget : (work (teardown w p forget) <= work w)%nat.
Proof.
  unfold teardown. destruct (objs w !! p) as [x|] eqn:Ex; [|done]. destruct (closed x) eqn:Ec; [done|].
  set (f := fun x => x <| closed := true |> <| releases := [] |>). pose proof (sum_alter f _ _ _ Ex) as H. unfold work. cbn. rewrite sum_list_with_app. cbn.
  assert (peer_work x = 2 + length (releases x))%nat as Hx by (unfold peer_work; by rewrite Ec). change (peer_work (f x)) with 0%nat in H. lia.
Qed.

(** Changing a peer that is not opened by it, and keeps its releases, is no work. *)
Lemma alter_work w p f : (forall x, closed (f x) = closed x /\ releases (f x) = releases x) -> sum_list_with peer_work (alter f p (objs w)) = sum_list_with peer_work (objs w).
Proof.
  intros Hf. destruct (objs w !! p) as [x|] eqn:Ex; [|f_equal; etrans; [apply (list_alter_ext f id _ (objs w)); [intros x Hx; by rewrite Ex in Hx|done]|by apply list_alter_id]].
  pose proof (sum_alter f _ _ _ Ex). destruct (Hf x) as [Hc Hr]. unfold peer_work in H at 2 4. rewrite Hc, Hr in H. lia.
Qed.

Lemma finishing_work w w' : finishing w w' -> (work w' < work w)%nat.
Proof.
  destruct 1 as [w built w' H|w w' H|w w' H|w w' H|w w' H|w w' H|w t ts1 ts2 H].
  - unfold request_add in H. destruct (loop w) as [[i| | | | |]|] eqn:El; try done. apply Some_inj in H. subst w'. unfold work. rewrite El.
    destruct built; cbn; [|lia]. destruct (AddLimited _ _ _ _) as [s [|]]; cbn; rewrite sum_list_with_app; cbn; lia.
  - unfold request_arm in H. destruct (loop w) as [[|p| | | |]|] eqn:El; try done. apply Some_inj in H. subst w'. unfold work. rewrite El. cbn.
    rewrite (alter_work w); [lia|]. intros x. by destruct (closed x) eqn:E.
  - unfold admission in H. destruct (loop w) as [[| |p| | |]|] eqn:El; try done. destruct (objs w !! p) as [x|] eqn:Ex; [|done]. apply Some_inj in H. subst w'.
    destruct (access x).
    + pose proof (teardown_work w p true) as Hw. assert (loop (teardown w p true) = Some (Admitting p)) as E by (unfold teardown; rewrite Ex; by destruct (closed x)).
      unfold dropPeer. revert Hw E. generalize (teardown w p true) as v. intros v Hw E. unfold work in *. rewrite E, El in *. cbn in *. lia.
    + unfold take. destruct (ReadOnly _); [unfold work; rewrite El; cbn; lia|]. destruct (holder w); unfold work; rewrite El; cbn; rewrite ?sum_list_with_app; cbn; lia.
    + unfold acquire. destruct (used w >=? _); unfold work; rewrite El; cbn; lia.
  - unfold hold in H. destruct (loop w) as [[| | |p r| |]|] eqn:El; try done. destruct (objs w !! p) as [x|] eqn:Ex; [|done]. apply Some_inj in H. subst w'. destruct (closed x) eqn:Ec.
    + destruct (release_keeps w r) as (_ & Eo & Et & _). unfold work. rewrite El. cbn. rewrite Eo, Et. lia.
    + set (f := fun x => x <| releases := releases x ++ [r] |>). unfold work. rewrite El. cbn. pose proof (sum_alter f _ _ _ Ex) as H.
      assert (peer_work (f x) = S (peer_work x)) as E by (unfold peer_work; cbn; rewrite Ec, length_app; cbn; lia). lia.
  - unfold publish in H. destruct (loop w) as [[| | | |p b|]|] eqn:El; try done. destruct (objs w !! p) as [x|] eqn:Ex; [|done]. apply Some_inj in H. subst w'.
    unfold work. rewrite El. destruct (closed x); cbn; [lia|]. rewrite (alter_work w) by done. destruct b; cbn; lia.
  - unfold armRefusal in H. destruct (loop w) as [[| | | | |p]|] eqn:El; try done. apply Some_inj in H. subst w'. unfold work. rewrite El. cbn.
    rewrite (alter_work w); [lia|]. intros x. by destruct (closed x) eqn:E.
  - assert (forall p forget, (task_work t > 0)%nat -> (work (teardown (w <| tasks := ts1 ++ ts2 |>) p forget) < work w)%nat) as Hdis.
    { intros p forget Ht. pose proof (teardown_work (w <| tasks := ts1 ++ ts2 |>) p forget) as Hw. unfold work in *. rewrite H. cbn in *. rewrite !sum_list_with_app in *. cbn. lia. }
    destruct t as [p|p|p [|r rest] forget]; unfold run_task, dropPeer; [apply Hdis; cbn; lia|apply Hdis; cbn; lia| |].
    + unfold work. rewrite H. cbn. destruct (objs w !! p) as [x|]; [destruct forget|]; cbn; rewrite !sum_list_with_app; cbn; lia.
    + rewrite release_tasks. destruct (release_keeps w r) as (El & Eo & _). unfold work. cbn. rewrite El, Eo, H, !sum_list_with_app. cbn. lia.
Qed.

(** C30: A stopped share ends, and lets go of everything. However its goroutines are scheduled, what is left to do
    after the shutdown ends; when nothing is left, every connection that had been answered is closed, no slot is taken,
    nobody has the keyboard, and the registry is empty. *)
Theorem share_shutdown_terminates sh w :
  running sh w -> stopped w = true ->
  Acc (fun w2 w1 => finishing w1 w2) w /\
  forall w', steps finishing w w' -> (forall w2, ~ finishing w' w2) ->
    loop w' = None /\ tasks w' = [] /\ used w' = 0 /\ holder w' = None /\ PeerSet.peers (peers w') = ∅ /\
    (forall r x, slots w' !! r = Some x -> spent x = true) /\ forall p x, objs w' !! p = Some x -> answered x = true -> closed x = true.
Proof.
  intros Hr Hst. split.
  - clear Hr Hst. induction w as [w IH] using (well_founded_induction (Wf_nat.well_founded_ltof _ work)). constructor. intros w2 H. by apply IH, finishing_work.
  - intros w' Hs Hno.
    assert (running sh w') as Hr' by (eapply steps_trans; [exact Hr|]; clear -Hs; induction Hs; [constructor|econstructor; [by apply finishing_step|done]]).
    assert (stopped w' = true) as Hst'.
    { clear Hr Hno Hr'. induction Hs as [|w w1 w2 H _ IH]; [done|]. apply IH. clear IH. rewrite <- Hst.
      destruct H; unfold request_add, request_arm, admission, hold, publish, armRefusal, run_task, dropPeer, take, acquire, teardown in *;
      repeat (case_match; simplify_eq; try done); unfold teardown; try (by repeat case_match); cbn;
      match goal with |- context [release ?v ?r] => by destruct (release_keeps v r) as (_ & _ & _ & _ & _ & -> & _) end. }
    destruct (running_ok _ _ Hr') as (Hok & Hg & _). clear Hr Hr' Hs Hst w.
    assert (tasks w' = []) as Et.
    { destruct (tasks w') as [|t ts] eqn:E; [done|]. destruct (Hno (run_task (w' <| tasks := [] ++ ts |>) t)). by apply f_task. }
    assert (loop w' = None) as El.
    { pose proof (g_loop w' Hg) as Hl. destruct (loop w') as [l|] eqn:E; [exfalso|done].
      assert (forall q, busy_with (Some l) q -> exists x, objs w' !! q = Some x) as Hl' by exact Hl.
      destruct l as [i|p|p|p r|p b|p]; try (destruct (Hl' p eq_refl) as [x Hx]).
      - eapply Hno, (f_add _ false). unfold request_add. by rewrite E.
      - eapply Hno, f_arm. unfold request_arm. by rewrite E.
      - eapply Hno, f_admit. unfold admission. by rewrite E, Hx.
      - eapply Hno, f_hold. unfold hold. by rewrite E, Hx.
      - eapply Hno, f_publish. unfold publish. by rewrite E, Hx.
      - eapply Hno, f_refusal. unfold armRefusal. by rewrite E. }
    destruct (g_stop w' Hg Hst') as [Hemp _].
    assert (forall p x, objs w' !! p = Some x -> answered x = true -> closed x = true) as Hcl.
    { intros p x Hx Ha. destruct (closed x) eqn:Ec; [done|]. destruct (g_open w' Hg p x Hx Ec Ha) as [Hgt|Hd]; [unfold Get in Hgt; by rewrite Hemp, lookup_empty in Hgt|rewrite Et in Hd; by apply elem_of_nil in Hd]. }
    assert (forall r x, slots w' !! r = Some x -> spent x = true) as Hsp.
    { intros r x Hx. destruct (spent x) eqn:Es; [done|]. destruct (k_loc w' Hok r x Hx Es) as [?|[(p & Hp & Hin)|(rest & f & Hin & _)]]; [congruence| |rewrite Et in Hin; by apply elem_of_nil in Hin].
      destruct (k_rel w' Hok _ _ _ Hp Hin) as [Hc _]. destruct (k_role w' Hok r x Hx) as (q & Hq & _ & Hans & _). rewrite Hp in Hq. injection Hq as <-.
      unfold peer in Hp. apply fmap_Some in Hp as (y & Hy & ->). cbn in *. by rewrite (Hcl _ _ Hy Hans) in Hc. }
    split_and!; try done.
    + destruct (k_used w' Hok) as [-> _]. assert (forall l, (forall r x, l !! r = Some x -> spent x = true) -> count is_view l = 0%nat) as ->; [|done|exact Hsp].
      clear. induction l as [|x l IH]; intros Hl; [done|]. cbn. rewrite IH by (intros r y Hy; by apply (Hl (S r))). unfold is_view. by rewrite (Hl 0%nat x eq_refl), andb_false_r.
    + destruct (holder w') as [p|] eqn:Eh; [|done]. destruct (k_holder w' Hok p Eh) as (r & x & Hx & Hs & _). by rewrite (Hsp _ _ Hx) in Hs.
Qed.

(** * Witnesses *)

Definition sh0 : Share := mkShare (mkConfig $"$1" $"m" $"/tmp" [] 0 1 false) $"ctl" $"view" [$"tmux"; $"attach-session"] [$"tmux"; $"attach-session"; $"-r"].

(** A connection comes, answers with [code], and is served. *)
Definition served (id code : bytes) (w : Worker) : option Worker :=
  w ← request w id; w ← request_add w true; w ← request_arm w; w ← answer w id (Some code); w ← admission w; w ← hold w; publish w.

Lemma served_steps id code w w' : served id code w = Some w' -> steps share_step w w'.
Proof.
  unfold served. intros H. do 6 (apply bind_Some in H as (? & ? & H)).
  eapply steps_cons; [by eapply s_request|]. eapply steps_cons; [by eapply s_add|]. eapply steps_cons; [by eapply s_arm|]. eapply steps_cons; [by eapply s_answer|].
  eapply steps_cons; [by eapply s_admit|]. eapply steps_cons; [by eapply s_hold|]. apply steps_one. by eapply s_publish.
Qed.

Lemma served_running w id code v : running sh0 w -> served id code w = Some v -> running sh0 v.
Proof. intros Hw H. by eapply steps_trans, served_steps. Qed.

(** A controller, a viewer, and a second controller. *)
Definition alone : Worker := default (start sh0) (served $"a" $"ctl" (start sh0)).
Definition pair : Worker := default alone (served $"b" $"view" alone).
Definition crowd : Worker := default pair (served $"c" $"ctl" pair).

Lemma crowd_runs : running sh0 crowd.
Proof.
  apply (served_running pair $"c" $"ctl"); [|by vm_compute]. apply (served_running alone $"b" $"view"); [|by vm_compute].
  apply (served_running (start sh0) $"a" $"ctl"); [constructor|by vm_compute].
Qed.

(** The newcomer types; the first controller's preemption is under way. *)
Lemma one_keyboard_witness : holder crowd = Some 2%nat /\ Preempt 0 ∈ tasks crowd.
Proof.
  split; [|vm_compute; by left]. destruct (one_keyboard sh0 crowd 2 (default (newSharePeer []) (objs crowd !! 2%nat)) (controlArgv sh0)) as (_ & _ & _ & H);
    [exact crowd_runs|by vm_compute|by vm_compute|]. apply H; [by vm_compute|].
  assert (tasks crowd = [Preempt 0]) as -> by by vm_compute. by rewrite list_elem_of_singleton.
Defined.

Lemma share_slots_exact_witness : used crowd = 1 /\ used crowd <= 1.
Proof.
  destruct (share_slots_exact sh0 crowd) as ([_ H] & _); [done|exact crowd_runs|]. split; [by vm_compute|exact H].
Defined.

Definition ended : Worker := shutdown crowd.

Lemma share_shutdown_terminates_witness : Acc (fun w2 w1 => finishing w1 w2) ended.
Proof.
  apply (share_shutdown_terminates sh0 ended); [|by vm_compute]. apply (steps_trans _ _ crowd); [exact crowd_runs|]. apply steps_one, s_shutdown.
Defined.
