(* ===== verification/TcpForward.v ===== *)
(** TCP forwarding: the targets of [-L] (internal/tcpforward, cmd/bitbang/connect.go), the byte pump
    (internal/bytestream), the listener's tcp streams (internal/streamtype/tcp.go) and the connector's
    local forwards (internal/client/tcp.go).

    The streams of a handler live in a store; [OnSYN] starts one goroutine for each, and [phase] is where it
    is. What a socket or a dial does is an input. *)

From S2P Require Import Prelude GoLib GoNet Json Protocol WebSocket Allowlist.

(** * Targets *)

Record Forward := mkForward { LocalPort : Z; Host : bytes; Port : Z }.

#[export] Instance Forward_eq_dec : EqDecision Forward.
Proof. solve_decision. Defined.

Definition TargetAddress (f : Forward) : bytes := JoinHostPort (Host f) (Itoa (Port f)).
Definition BindAddress (f : Forward) (gateway : bool) : bytes :=
  JoinHostPort (if gateway then $"0.0.0.0" else $"127.0.0.1") (Itoa (LocalPort f)).
Definition ForwardString (f : Forward) : bytes := Itoa (LocalPort f) ++ $":" ++ TargetAddress f.

(** [netip.ParseAddr]: the address without its zone, which only an IPv6 address may have. *)
Definition ParseAddr (s : bytes) : option IP :=
  match filter (fun c => c = dot \/ c = colon \/ c = "%"%char) s with
  | [] => None
  | c :: _ =>
    if decide (c = dot) then ParseIP s
    else if decide (c = colon) then
      match IndexByte s "%"%char with
      | None => ParseIP s
      | Some i => match drop (S i) s with [] => None | _ => ParseIP (take i s) end
      end
    else None
  end.

(** [Is6]: written as an IPv6 address. *)
Definition Is6 (s : bytes) : bool :=
  match ParseAddr s, filter (fun c => c = dot \/ c = colon) s with
  | Some _, c :: _ => bool_decide (c = colon)
  | _, _ => false
  end.

(** The code points of [unicode.IsControl], encoded: below 32, 127, and 128 to 159. *)
Definition leading_control (s : bytes) : bool :=
  match s with
  | c :: s' => (code c <? 32) || (code c =? 127) || (code c =? 194) && match s' with d :: _ => between 128 159 (code d) | [] => false end
  | [] => false
  end.

(** A rune of [s] is a space or a control character. *)
Fixpoint has_blank (s : bytes) : bool :=
  match s with
  | [] => false
  | _ :: s' => bool_decide (is_Some (leading_space s)) || leading_control s || has_blank s'
  end.

Inductive target_error := BadPort (p : Z) | EmptyHost | InvalidHost (h : bytes).

Definition ValidateTarget (host : bytes) (port : Z) : option target_error :=
  if (port <? 1) || (port >? 65535) then Some (BadPort port)
  else match host with
       | [] => Some EmptyHost
       | _ =>
         match ParseAddr host with
         | Some _ => None
         | None =>
           if bool_decide (TrimSpace host <> host) || bool_decide (Exists (fun c => c ∈ chr 0 :: $":/\[]") host) then Some (InvalidHost host)
           else if has_blank host then Some (InvalidHost host) else None
         end
       end.

Inductive forward_error := BadForm | BadLocalPort | BadTarget (e : addr_error) | BadBracket (h : bytes) | BadRemotePort | Rejected (e : target_error).

Definition parseForwardPort (value : bytes) : option Z :=
  match value with
  | [] => None
  | _ =>
    if negb (forallb is_digit value) then None
    else match Atoi value with
         | Some p => if (p <? 1) || (p >? 65535) then None else Some p
         | None => None
         end
  end.

Definition parseLocalForward (value : bytes) : result forward_error Forward :=
  match IndexByte value colon with
  | None => Err BadForm
  | Some i =>
    if bool_decide (i = O) || bool_decide (S i = length value) then Err BadForm
    else match parseForwardPort (take i value) with
         | None => Err BadLocalPort
         | Some local =>
           let target := drop (S i) value in
           match SplitHostPort target with
           | Err e => Err (BadTarget e)
           | Ok (host, port) =>
             if HasPrefix target $"[" && negb (Is6 host) then Err (BadBracket host)
             else match parseForwardPort port with
                  | None => Err BadRemotePort
                  | Some p => match ValidateTarget host p with Some e => Err (Rejected e) | None => Ok (mkForward local host p) end
                  end
           end
         end
  end.

(** * The pump *)

Definition FrameSize : nat := Z.to_nat (32 * 1024).

(** What a read of the source gives: bytes, or the end of that direction; or the session ended meanwhile. *)
Inductive read := Chunk (data : bytes) | Last (data : bytes) (eof : bool) | Canceled.

Inductive sent := DAT (data : bytes) | FIN.

(** [Pump] over the reads of the source, of at most [FrameSize] bytes each: the frames that are sent, and whether it
    ends without an error. [refused]: the stream does not take the frame. *)
Fixpoint Pump (refused : sent -> bool) (reads : list read) : list sent * bool :=
  match reads with
  | [] => ([], false)
  | Canceled :: _ => ([], false)
  | Chunk data :: rest =>
    match data with
    | [] => Pump refused rest
    | _ => if refused (DAT data) then ([], false) else let '(l, ok) := Pump refused rest in (DAT data :: l, ok)
    end
  | Last data eof :: _ =>
    match data with
    | [] => if refused FIN then ([], false) else ([FIN], eof)
    | _ => if refused (DAT data) then ([], false) else if refused FIN then ([DAT data], false) else ([DAT data; FIN], eof)
    end
  end.

(** * The listener's streams *)

Record TCPOpen := mkTCPOpen { oHost : bytes; oPort : Z }.

Definition decode_tcp_open (payload : bytes) : option TCPOpen :=
  match parse_json payload with
  | None => None
  | Some j =>
    let '(_, ok0) := field decode_string [] $"type" j in
    let '(h, ok1) := field decode_string [] $"host" j in
    let '(p, ok2) := field decode_int 0 $"port" j in
    if ok0 && ok1 && ok2 then Some (mkTCPOpen h p) else None
  end.

(** What the connector opens a stream with, and the two answers. *)
Definition tcp_request (f : Forward) : bytes := print_json (JObject [($"type", JString $"tcp"); ($"host", JString (Host f)); ($"port", JInt (Port f))]).
Definition tcp_ack : bytes := print_json (JObject [($"status", JString $"ok")]).
Definition tcp_error (message : bytes) : bytes := print_json (JObject [($"error", JString message); ($"status", JString $"error")]).

(** Where the goroutine of a stream is: dialing; connected, before the answer; pumping; past the end of the target's
    direction; past the last close, before [remove]; gone. *)
Inductive tcp_phase := Dialing | Answering | Pumping | Waiting | Removing | Gone.

#[export] Instance tcp_phase_eq_dec : EqDecision tcp_phase.
Proof. solve_decision. Defined.

(** [received]: what the target got; [write_closed]: its end of the direction. *)
Record tcpStream := mkTcp {
  sid : Z;
  open : TCPOpen;
  last : bool;
  canceled : bool;
  ready : bool;
  conn : bool;
  conn_closed : bool;
  received : bytes;
  write_closed : bool;
  writeDone : bool;
  phase : tcp_phase
}.

#[export] Instance eta_tcpStream : Eta tcpStream := fun t =>
  mkTcp (sid t) (open t) (last t) (canceled t) (ready t) (conn t) (conn_closed t) (received t) (write_closed t) (writeDone t) (phase t).

Inductive tcp_event := Opened (s : nat) | Failed (id : Z) (message : bytes) | Sent (s : nat) (f : sent).

Record TCPHandler := mkTCP {
  Allow : List;
  MaxConcurrent : Z;
  stopped : bool;
  streams : gmap Z nat;
  objs : list tcpStream;
  active : Z;
  log : list tcp_event
}.

#[export] Instance eta_TCPHandler : Eta TCPHandler := fun h =>
  mkTCP (Allow h) (MaxConcurrent h) (stopped h) (streams h) (objs h) (active h) (log h).

Definition DefaultTCPMaxConcurrent : Z := 64.

Definition NewTCP (allow : List) : TCPHandler := mkTCP allow DefaultTCPMaxConcurrent false ∅ [] 0 [].

Definition on_stream (s : nat) (f : tcpStream -> tcpStream) (h : TCPHandler) : TCPHandler := h <| objs := alter f s (objs h) |>.
Definition emit (e : tcp_event) (h : TCPHandler) : TCPHandler := h <| log := log h ++ [e] |>.

(** [tcpStream.close] *)
Definition closed (t : tcpStream) : tcpStream := if conn t then t <| canceled := true |> <| conn_closed := true |> else t <| canceled := true |>.
Definition close (s : nat) (h : TCPHandler) : TCPHandler := on_stream s closed h.

Definition not_allowed (h : TCPHandler) (o : TCPOpen) : bytes :=
  oHost o ++ $":" ++ Itoa (oPort o) ++ $" is not one of the allowed forwards for your link (" ++ ListString (Allow h) ++ $")".
Definition busy (h : TCPHandler) : bytes := $"listener is busy (max " ++ Itoa (MaxConcurrent h) ++ $" concurrent TCP connections)".

(** [bad], [invalid]: the texts of a decoding and of a validation error. *)
Definition OnSYN (h : TCPHandler) (id : Z) (payload : bytes) (final : bool) (bad : bytes) (invalid : target_error -> bytes) : TCPHandler :=
  match decode_tcp_open payload with
  | None => emit (Failed id ($"bad tcp request: " ++ bad)) h
  | Some o =>
    match ValidateTarget (oHost o) (oPort o) with
    | Some e => emit (Failed id (invalid e)) h
    | None =>
      if negb (Permits (Allow h) (oHost o) (oPort o)) then emit (Failed id (not_allowed h o)) h
      else if (0 <? MaxConcurrent h) && (active h >=? MaxConcurrent h) then emit (Failed id (busy h)) h
      else
        let s := length (objs h) in
        let h1 := h <| objs := objs h ++ [mkTcp id o final (stopped h) false false false [] false false Dialing] |> <| streams := <[id := s]> (streams h) |> <| active := active h + 1 |> in
        match streams h !! id with Some old => close old h1 | None => h1 end
    end
  end.

(** [waitConn]: the connection is there ([Some true]), will not be ([Some false]), or the caller waits. When the dial
    is over and the stream canceled, [prefer] says which the select takes. *)
Definition waitConn (t : tcpStream) (prefer : bool) : option bool :=
  if ready t && negb (canceled t && prefer) then Some (conn t)
  else if canceled t then Some false else None.

Section Target.
(** How much of a chunk a target's connection takes, given what it took before, and its error. *)
Variable take_some : bytes -> bytes -> Z * option bytes.

(** [tcpStream.write] past [waitConn]. *)
Definition write (t : tcpStream) (payload : bytes) : tcpStream * bool :=
  if conn_closed t || write_closed t then (t, false)
  else let '(got, err) := WriteFull take_some (length payload) (received t) payload in (t <| received := got |>, match err with None => true | Some _ => false end).

(** [OnDAT], when the dispatcher need not wait for the dial; [false]: it returns an error. *)
Definition OnDAT (h : TCPHandler) (id : Z) (payload : bytes) (prefer : bool) : option (TCPHandler * bool) :=
  match streams h !! id with
  | None => Some (h, true)
  | Some s =>
    match objs h !! s with
    | None => None
    | Some t =>
      match waitConn t prefer with
      | None => None
      | Some false => Some (close s h, false)
      | Some true => let '(t1, ok) := write t payload in
                     let h1 := on_stream s (fun _ => t1) h in
                     Some (if ok then (h1, true) else (close s h1, false))
      end
    end
  end.

(** [closeWrite]: the connection's direction is ended, [ok] says how that went, and the goroutine is told. *)
Definition close_write (t : tcpStream) : tcpStream := t <| write_closed := true |> <| writeDone := true |>.

Definition end_write (h : TCPHandler) (s : nat) (prefer ok : bool) : option (TCPHandler * bool) :=
  match objs h !! s with
  | None => None
  | Some t =>
    match waitConn t prefer with
    | None => None
    | Some false => Some (close s h, false)
    | Some true => let h1 := on_stream s close_write h in Some (if ok then (h1, true) else (close s h1, false))
    end
  end.

Definition OnFIN (h : TCPHandler) (id : Z) (payload : bytes) (prefer ok : bool) : option (TCPHandler * bool) :=
  match streams h !! id with
  | None => Some (h, true)
  | Some s =>
    match (match payload with [] => Some (h, true) | _ => OnDAT h id payload prefer end) with
    | None => None
    | Some (h1, false) => Some (h1, false)
    | Some (h1, true) => end_write h1 s prefer ok
    end
  end.

Definition OnReset (h : TCPHandler) (id : Z) : TCPHandler := match streams h !! id with Some s => close s h | None => h end.

(** [CloseAll] cancels every context, then closes the streams it finds. *)
Definition cancel_all (h : TCPHandler) : TCPHandler := h <| stopped := true |> <| objs := map (fun t => t <| canceled := true |>) (objs h) |>.
Definition close_streams (h : TCPHandler) : TCPHandler := foldr close h (map_to_list (streams h)).*2.
Definition CloseAll (h : TCPHandler) : TCPHandler := close_streams (cancel_all h).

(** * [runStream] *)

Definition goto (s : nat) (p : tcp_phase) (h : TCPHandler) : TCPHandler := on_stream s (fun t => t <| phase := p |>) h.

(** The dial returned; [finishDial]. *)
Definition dialed (h : TCPHandler) (s : nat) (r : option bytes) : option TCPHandler :=
  match objs h !! s with
  | Some t =>
    if decide (phase t <> Dialing) then None else
    Some match r with
         | Some message =>
           let h1 := if canceled t then h else emit (Failed (sid t) ($"dial " ++ JoinHostPort (oHost (open t)) (Itoa (oPort (open t))) ++ $": " ++ message)) h in
           on_stream s (fun t => t <| ready := true |> <| canceled := true |> <| phase := Removing |>) h1
         | None =>
           if canceled t then on_stream s (fun t => t <| ready := true |> <| phase := Removing |>) h
           else on_stream s (fun t => t <| ready := true |> <| conn := true |> <| phase := Answering |>) h
         end
  | None => None
  end.

(** The answer, which the stream takes or not; a stream opened by its last frame has its direction ended. *)
Definition answered (h : TCPHandler) (s : nat) (taken prefer ok : bool) : option TCPHandler :=
  match objs h !! s with
  | Some t =>
    if decide (phase t <> Answering) then None
    else if negb taken then Some (goto s Removing (close s h))
    else let h1 := emit (Opened s) h in
         if last t then
           match end_write h1 s prefer ok with
           | Some (h2, true) => Some (goto s Pumping h2)
           | Some (h2, false) => Some (goto s Removing h2)
           | None => None
           end
         else Some (goto s Pumping h1)
  | None => None
  end.

(** [Pump] sends a frame, or is over. *)
Definition pumped (h : TCPHandler) (s : nat) (f : sent) : option TCPHandler :=
  match objs h !! s with
  | Some t => if decide (phase t <> Pumping) then None else Some (emit (Sent s f) h)
  | None => None
  end.

Definition pump_over (h : TCPHandler) (s : nat) (ok : bool) : option TCPHandler :=
  match objs h !! s with
  | Some t => if decide (phase t <> Pumping) then None else Some (if ok then goto s Waiting h else goto s Removing (close s h))
  | None => None
  end.

Definition waited (h : TCPHandler) (s : nat) : option TCPHandler :=
  match objs h !! s with
  | Some t => if decide (phase t = Waiting) then if writeDone t || canceled t then Some (goto s Removing (close s h)) else None else None
  | None => None
  end.

Definition remove (h : TCPHandler) (s : nat) : option TCPHandler :=
  match objs h !! s with
  | Some t =>
    if decide (phase t <> Removing) then None
    else let h1 := if decide (streams h !! sid t = Some s) then h <| streams := delete (sid t) (streams h) |> else h in
         Some (goto s Gone (h1 <| active := active h - 1 |>))
  | None => None
  end.

Inductive tcp_step : TCPHandler -> TCPHandler -> Prop :=
| t_syn h id payload final bad invalid : tcp_step h (OnSYN h id payload final bad invalid)
| t_dat h id payload prefer h' ok : OnDAT h id payload prefer = Some (h', ok) -> tcp_step h h'
| t_fin h id payload prefer okc h' ok : OnFIN h id payload prefer okc = Some (h', ok) -> tcp_step h h'
| t_reset h id : tcp_step h (OnReset h id)
| t_cancel h : tcp_step h (cancel_all h)
| t_close h : tcp_step h (close_streams h)
| t_dialed h s r h' : dialed h s r = Some h' -> tcp_step h h'
| t_answered h s taken prefer ok h' : answered h s taken prefer ok = Some h' -> tcp_step h h'
| t_pumped h s f h' : pumped h s f = Some h' -> tcp_step h h'
| t_over h s ok h' : pump_over h s ok = Some h' -> tcp_step h h'
| t_waited h s h' : waited h s = Some h' -> tcp_step h h'
| t_remove h s h' : remove h s = Some h' -> tcp_step h h'.

(** * The connector's forwards *)

(** [receiveTCP] over the frames of the stream's inbox, which is then closed: what the local connection got, whether
    its direction was ended, and whether that is how it returned. *)
Fixpoint receiveTCP (inbox : list Frame) (written : bytes) : bytes * bool * bool :=
  match inbox with
  | [] => (written, false, false)
  | f :: rest =>
    if IsFIN f then (written, true, true)
    else if IsSYN f || bool_decide (Payload f = []) then receiveTCP rest written
    else match WriteFull take_some (length (Payload f)) written (Payload f) with
         | (w, None) => receiveTCP rest w
         | (w, Some _) => (w, false, false)
         end
  end.
End Target.

(** What a forward makes of the first frame of its stream. *)
Inductive setup := Established | SetupFailed (why : bytes).

Definition tcpStatus (payload : bytes) : option (bytes * bytes) :=
  match parse_json payload with
  | None => None
  | Some j =>
    let '(st, ok0) := field decode_string [] $"status" j in
    let '(e, ok1) := field decode_string [] $"error" j in
    if ok0 && ok1 then Some (st, e) else None
  end.

(** [bad]: the text of a decoding error. *)
Definition forward_setup (first : option Frame) (bad : bytes) : setup :=
  match first with
  | None => SetupFailed $"stream closed before tcp response"
  | Some f =>
    if negb (IsSYN f) then SetupFailed ($"expected tcp SYN response, got flags 0x" ++ print_hex (Flags f))
    else match tcpStatus (Payload f) with
         | None => SetupFailed ($"parse tcp response: " ++ bad)
         | Some (st, e) =>
           if decide (st = $"ok") then if IsFIN f then SetupFailed $"tcp stream closed during setup" else Established
           else SetupFailed match e with [] => st | _ => e end
         end
  end.

(** [StartLocalForwarding]: the bound addresses, or the error. [bind] is what the system says of an address, given
    those the process has bound; [bound] is released on failure. *)
Inductive bind_error := BadLocal (f : Forward) | BadRemote (f : Forward) (e : target_error) | BindFailed (address : bytes).

Fixpoint bind_all (bind : list bytes -> bytes -> bool) (gateway : bool) (bound : list bytes) (forwards : list Forward) : list bytes * option bind_error :=
  match forwards with
  | [] => (bound, None)
  | f :: rest =>
    if (LocalPort f <? 1) || (LocalPort f >? 65535) then ([], Some (BadLocal f))
    else match ValidateTarget (Host f) (Port f) with
         | Some e => ([], Some (BadRemote f e))
         | None =>
           let a := BindAddress f gateway in
           if bind bound a then bind_all bind gateway (bound ++ [a]) rest else ([], Some (BindFailed a))
         end
  end.

(** A forwarder and its goroutines: the accept loops still running, the connections it tracks and those being served
    ([connWG]), those closed, and how far [Close] is: cancelled, past the wait for the accept loops, past the closing of
    the connections, returned. *)
Inductive closing := NotClosing | Cancelled | AcceptsOver | ConnsClosed | Returned.

#[export] Instance closing_eq_dec : EqDecision closing.
Proof. solve_decision. Defined.

Record LocalForwarder := mkForwarder { accepting : gset nat; conns : gset nat; serving : gset nat; accepted : nat; shut : gset nat; stage : closing }.

#[export] Instance eta_LocalForwarder : Eta LocalForwarder := fun f =>
  mkForwarder (accepting f) (conns f) (serving f) (accepted f) (shut f) (stage f).

(** [StartLocalForwarding], once the addresses are bound. *)
Definition start_forwarder (bound : list bytes) : LocalForwarder := mkForwarder (list_to_set (seq 0 (length bound))) ∅ ∅ 0 ∅ NotClosing.

(** A turn of [acceptLoop] ([None]: Accept failed); [track] refuses once the forwarder is cancelled. *)
Definition accept_turn (f : LocalForwarder) (i : nat) (arrived : bool) : option LocalForwarder :=
  if decide (i ∈ accepting f) then
    Some (if negb arrived then f <| accepting := accepting f ∖ {[i]} |>
          else let c := accepted f in
               if decide (stage f = NotClosing) then f <| accepted := S c |> <| conns := conns f ∪ {[c]} |> <| serving := serving f ∪ {[c]} |>
               else f <| accepted := S c |> <| shut := shut f ∪ {[c]} |> <| accepting := accepting f ∖ {[i]} |>)
  else None.

(** A served connection is over: closed, and not tracked any more. *)
Definition served (f : LocalForwarder) (c : nat) : option LocalForwarder :=
  if decide (c ∈ serving f) then Some (f <| shut := shut f ∪ {[c]} |> <| conns := conns f ∖ {[c]} |> <| serving := serving f ∖ {[c]} |>) else None.

(** The next step of [Close]. *)
Definition close_forwarder (f : LocalForwarder) : option LocalForwarder :=
  match stage f with
  | NotClosing => Some (f <| stage := Cancelled |>)
  | Cancelled => if decide (accepting f = ∅) then Some (f <| stage := AcceptsOver |>) else None
  | AcceptsOver => Some (f <| shut := shut f ∪ conns f |> <| stage := ConnsClosed |>)
  | ConnsClosed => if decide (serving f = ∅) then Some (f <| stage := Returned |>) else None
  | Returned => None
  end.

Inductive forwarder_step : LocalForwarder -> LocalForwarder -> Prop :=
| w_accept f i arrived f' : accept_turn f i arrived = Some f' -> forwarder_step f f'
| w_served f c f' : served f c = Some f' -> forwarder_step f f'
| w_close f f' : close_forwarder f = Some f' -> forwarder_step f f'.
