(* ===== verification/TcpForwardSpec.v ===== *)
(** What TCP forwarding promises: a target is what was written and what the link allows, bytes and the end of
    each direction cross as they are, and nothing is left behind. *)

From S2P Require Import Prelude GoLib GoNet Json JsonRoundTrip Protocol WebSocket Allowlist TcpForward.

#[local] Set Warnings "-clear-no-such-hyp".

(** * Targets *)

Definition port_ok (p : Z) : Prop := 1 <= p <= 65535.

Lemma port_digits p : port_ok p -> parseForwardPort (Itoa p) = Some p /\ Forall (fun c => is_digit c = true) (Itoa p) /\ Itoa p <> [].
Proof.
  intros Hp. unfold Itoa. destruct (print_Z_digits p) as (HF & (c & r & E & Hc) & Hv); [unfold port_ok in Hp; lia|]. rewrite E in *.
  split; [|done]. unfold parseForwardPort. rewrite (proj2 (forallb_forall _ _)) by (intros x Hx; by apply (proj1 (Forall_forall _ _) HF), list_elem_of_In).
  cbn [negb]. unfold Atoi. assert (is_digit c = true) as Hdc by (by apply Forall_cons in HF as [? _]).
  assert (is_char 45 c = false /\ is_char 43 c = false) as [-> ->].
  { unfold is_digit, between, is_char in *. bool_to_prop. split; apply Z.eqb_neq; lia. }
  specialize (Hv 0 []). rewrite app_nil_r in Hv. rewrite Hv. cbn [digits_value]. unfold port_ok in Hp.
  replace (0 * 10 ^ zlen (c :: r) + p) with p by lia. unfold between. settle (- 2 ^ 63 <=? p) true. settle (p <=? 2 ^ 63 - 1) true. cbn [andb].
  settle (p <? 1) false. settle (p >? 65535) false. done.
Qed.

Lemma digits_plain ds c : Forall (fun c => is_digit c = true) ds -> is_digit c = false -> c ∉ ds.
Proof. intros HF Hc Hin. rewrite Forall_forall in HF. by rewrite HF in Hc. Qed.

(** * Parsing a forward *)

Abbreviation lb := ("["%char : ascii).
Abbreviation rb := ("]"%char : ascii).

Definition bracket_free (h : bytes) : Prop := (lb ∉ h) /\ (rb ∉ h).

Lemma Split_host h p : bracket_free h -> bracket_free p -> colon ∉ p -> SplitHostPort (JoinHostPort h p) = Ok (h, p).
Proof.
  intros [Hh1 Hh2] [Hp1 Hp2] Hp. unfold JoinHostPort. destruct (IndexByte h colon) as [i|] eqn:Ei.
  - set (s := $"[" ++ h ++ $"]:" ++ p). assert (s = (lb :: h) ++ rb :: colon :: p) as Es by done. unfold SplitHostPort.
    assert (LastIndexByte s colon = Some (length h + 2)%nat) as ->.
    { rewrite Es, (cons_middle rb), app_assoc, LastIndexByte_app by done. rewrite length_app. cbn. f_equal. lia. }
    change (match s with c :: _ => is_char 91 c | [] => false end) with true. cbv iota beta.
    assert (IndexByte s rb = Some (S (length h))) as -> by (rewrite Es, IndexByte_app by (rewrite not_elem_of_cons; done); done).
    assert (length s = length h + 3 + length p)%nat as El by (rewrite Es, length_app; cbn; lia).
    rewrite (proj2 (Nat.eqb_neq _ _)) by lia. rewrite (proj2 (Nat.eqb_eq _ _)) by lia. cbn [result_bind].
    assert (drop 1 s = h ++ rb :: colon :: p) as -> by done. replace (S (length h) - 1)%nat with (length h) by lia. rewrite take_app_length.
    rewrite (proj2 (IndexByte_none _ lb)) by (rewrite elem_of_app, !elem_of_cons; intros [?|[?|[?|?]]]; done).
    assert (drop (S (S (length h))) s = colon :: p) as -> by (rewrite Es, drop_app_ge by (cbn; lia); by replace (S (S (length h)) - length (lb :: h))%nat with 1%nat by (cbn; lia)).
    rewrite (proj2 (IndexByte_none _ rb)) by (rewrite elem_of_cons; intros [?|?]; done).
    assert (drop (S (length h + 2)) s = p) as ->; [|done]. rewrite Es, drop_app_ge by (cbn; lia).
    by replace (S (length h + 2) - length (lb :: h))%nat with 2%nat by (cbn; lia).
  - apply IndexByte_none in Ei. unfold SplitHostPort. assert (LastIndexByte (h ++ $":" ++ p) colon = Some (length h)) as -> by (by apply LastIndexByte_app).
    assert (match h ++ $":" ++ p with c :: _ => is_char 91 c | [] => false end = false) as ->.
    { destruct h as [|c h]; [done|]. cbn. apply not_elem_of_cons in Hh1 as [Hne _]. unfold is_char. apply Z.eqb_neq. intros E. apply Hne.
      rewrite <- (byte_of_Z_of_byte c). unfold code in E. by rewrite E. }
    rewrite take_app_length, (proj2 (IndexByte_none _ colon)) by done. cbn [result_bind]. rewrite !drop_0.
    assert (forall c, c ∉ h -> c ∉ p -> c <> colon -> IndexByte (h ++ $":" ++ p) c = None) as Hn.
    { intros c ???. apply IndexByte_none. change ($":" ++ p) with (colon :: p). rewrite elem_of_app, elem_of_cons. intros [?|[?|?]]; done. }
    rewrite !Hn by done. do 2 f_equal. rewrite drop_app_ge by lia. by replace (S (length h) - length h)%nat with 1%nat by lia.
Qed.

Lemma v4_no_colon s ds : parse_v4 s = Some ds -> colon ∉ s.
Proof.
  unfold parse_v4. intros H. assert (Forall (fun e => colon ∉ e) (Split s dot)) as HF.
  { destruct (Split s dot) as [|a [|b [|c [|d [|]]]]]; try done.
    assert (forall e z, v4_field e = Some z -> colon ∉ e) as Hf.
    { intros e z He. destruct e as [|x e]; [apply not_elem_of_nil|]. unfold v4_field in He. case_match; [done|]. destruct (digits_value 0 (x :: e)) as [v|] eqn:Ev; [|done].
      clear -Ev. assert (forall l acc v, digits_value acc l = Some v -> colon ∉ l) as Hl; [|by eapply Hl].
      induction l as [|y l IH]; intros acc w Hw; [apply not_elem_of_nil|]. cbn in Hw. destruct (is_digit y) eqn:Ey; [|done]. apply not_elem_of_cons.
      split; [intros <-; by vm_compute in Ey|by eapply IH]. }
    destruct (v4_field a) eqn:?, (v4_field b) eqn:?, (v4_field c) eqn:?, (v4_field d) eqn:?; try done. by repeat constructor; try eapply Hf. }
  clear H. intros Hin. assert (exists e, e ∈ Split s dot /\ colon ∈ e) as (e & He & Hc); [|rewrite Forall_forall in HF; by eapply HF].
  clear HF ds. induction s as [|x s IH]; [by apply elem_of_nil in Hin|]. cbn. case_decide as Hx.
  - apply elem_of_cons in Hin as [<-|Hin]; [done|]. destruct (IH Hin) as (e & He & Hc). exists e. split; [by right|done].
  - pose proof (Split_nonempty s dot) as Hne. destruct (Split s dot) as [|e es]; [done|]. apply elem_of_cons in Hin as [Hin|Hin].
    + exists (x :: e). split; [by left|]. rewrite Hin. by left.
    + destruct (IH Hin) as (e' & [->|He]%elem_of_cons & Hc); [exists (x :: e)|exists e']; (split; [|by try right]); [by left|by right].
Qed.

Lemma filter_head {A} (P Q : A -> Prop) `{!forall x, Decision (P x)} `{!forall x, Decision (Q x)} l d l' :
  (forall x, P x -> Q x) -> filter Q l = d :: l' -> P d -> exists l2, filter P l = d :: l2.
Proof.
  intros HPQ. induction l as [|x l IH]; [done|]. rewrite !filter_cons. case_decide as Hq.
  - intros [= -> _] Hd. rewrite decide_True by done. by eexists.
  - intros Hl Hd. rewrite decide_False by (intros ?%HPQ; done). by apply IH.
Qed.

Lemma Is6_colon h : colon ∈ h -> is_Some (ParseAddr h) -> Is6 h = true.
Proof.
  intros Hc Hp. unfold Is6. destruct (ParseAddr h) as [ip|] eqn:Ep; [|by destruct Hp]. clear Hp. unfold ParseAddr in Ep.
  destruct (filter (fun c => c = dot \/ c = colon \/ c = "%"%char) h) as [|d l] eqn:E; [done|].
  assert (forall c, d = c -> c = dot \/ c = colon -> exists l2, filter (fun c => c = dot \/ c = colon) h = c :: l2) as Hf.
  { intros c -> Hd. eapply (filter_head (fun c => c = dot \/ c = colon)); [|exact E|exact Hd]. intros ?. tauto. }
  case_decide as H1; [|case_decide as H2; [|done]].
  - exfalso. destruct (Hf _ H1) as [l2 E2]; [by left|]. unfold ParseIP in Ep. destruct (decide _); [done|]. rewrite E2, decide_True in Ep by done.
    destruct (parse_v4 h) as [ds|] eqn:E4; [|done]. by apply v4_no_colon in E4.
  - destruct (Hf _ H2) as [l2 ->]; [by right|]. by apply bool_decide_eq_true.
Qed.

Lemma valid_colon h p : ValidateTarget h p = None -> colon ∈ h -> is_Some (ParseAddr h).
Proof.
  unfold ValidateTarget. destruct (_ || _); [done|]. destruct h as [|c h]; [done|]. destruct (ParseAddr _); [by eexists|].
  destruct (_ || _) eqn:E; [done|]. intros _ Hc. apply orb_false_iff in E as [_ E]. bool_to_prop. exfalso. apply E, Exists_exists. exists colon. split; [done|].
  change (chr 0 :: $":/\[]") with (chr 0 :: colon :: $"/\[]"). right. by left.
Qed.

(** What [-L] accepts is a usable forward, written as it is shown: a parsed forward has a local and a remote port
    between 1 and 65535 and a remote host that the listener will accept; and every such forward, IPv6 targets included,
    is parsed back from its rendering. *)
Theorem forward_round_trip :
  (forall v f, parseLocalForward v = Ok f -> 1 <= LocalPort f <= 65535 /\ ValidateTarget (Host f) (Port f) = None) /\
  (forall f, 1 <= LocalPort f <= 65535 -> bracket_free (Host f) -> ValidateTarget (Host f) (Port f) = None -> parseLocalForward (ForwardString f) = Ok f).
Proof.
  split.
  - intros v f. unfold parseLocalForward. destruct (IndexByte v colon) as [i|]; [|done]. destruct (_ || _); [done|].
    destruct (parseForwardPort (take i v)) as [lp|] eqn:El; [|done]. destruct (SplitHostPort _) as [[h p]|]; [|done]. destruct (_ && _); [done|].
    destruct (parseForwardPort p) as [rp|]; [|done]. destruct (ValidateTarget h rp) eqn:Ev; [done|]. intros [= <-]. split; [|done]. cbn.
    unfold parseForwardPort in El. destruct (take i v); [done|]. destruct (negb _); [done|]. destruct (Atoi _); [|done]. destruct (_ || _) eqn:E; [done|]. bool_to_prop. simplify_eq. lia.
  - intros [lp h rp] Hl [Hh1 Hh2] Hv. cbn in *. destruct (port_digits lp Hl) as (El & HFl & Hnl).
    assert (port_ok rp) as Hrp.
    { unfold ValidateTarget in Hv. destruct (_ || _) eqn:E; [done|]. bool_to_prop. unfold port_ok. lia. }
    destruct (port_digits rp Hrp) as (Er & HFr & _).
    unfold ForwardString, parseLocalForward. cbn [LocalPort]. change ($":" ++ ?k) with (colon :: k).
    rewrite IndexByte_app by (by apply digits_plain). set (t := TargetAddress _).
    assert (t <> []) as Ht. { unfold t, TargetAddress, JoinHostPort. cbn. destruct (IndexByte h colon); [done|]. intros E. apply app_nil in E as [_ E]. done. }
    rewrite bool_decide_false by (by intros ?%nil_length_inv). rewrite bool_decide_false; [|rewrite length_app; cbn; destruct t; [done|cbn; lia]].
    cbn [orb]. rewrite take_app_length, El. cbv zeta. rewrite drop_app_ge by lia. replace (S (length (Itoa lp)) - length (Itoa lp))%nat with 1%nat by lia.
    change (drop 1 (colon :: t)) with t. unfold t at 1, TargetAddress. cbn [Host Port]. rewrite Split_host; [|done|split; by apply digits_plain|by apply digits_plain].
    destruct (HasPrefix t $"[" && negb (Is6 h)) eqn:Eb.
    + exfalso. apply andb_true_iff in Eb as [Hpre Hn]. apply negb_true_iff in Hn. assert (colon ∈ h) as Hc.
      { destruct (decide (colon ∈ h)) as [|Hc]; [done|exfalso]. unfold t, TargetAddress, JoinHostPort in Hpre. cbn [Host Port] in Hpre.
        rewrite (proj2 (IndexByte_none h colon) Hc) in Hpre. apply HasPrefix_spec in Hpre as [k E]. destruct h as [|c h]; [done|]. injection E as -> _. apply Hh1. by left. }
      by rewrite (Is6_colon h Hc (valid_colon _ _ Hv Hc)) in Hn.
    + by rewrite Er, Hv.
Qed.

(** * The streams of a session *)

Definition running (t : tcpStream) : bool := bool_decide (phase t <> Gone).

(** A stream is where its goroutine says it is. *)
Record stream_ok (t : tcpStream) : Prop := {
  l_ready : conn t = true -> ready t = true;
  l_dialing : phase t = Dialing -> ready t = false /\ conn t = false;
  l_conn : phase t = Answering \/ phase t = Pumping \/ phase t = Waiting -> conn t = true;
  l_over : phase t = Removing \/ phase t = Gone -> conn t = true -> conn_closed t = true
}.

(** Nothing of the stream is open, and nothing will be. *)
Definition dead (t : tcpStream) : Prop := canceled t = true /\ (conn t = true -> conn_closed t = true).

(** A change of one stream: it stays the same stream, is not finished by it, and what is dead stays dead. *)
Record goes (t t' : tcpStream) : Prop := {
  e_same : sid t' = sid t /\ open t' = open t /\ running t' = running t;
  e_ok : stream_ok t -> stream_ok t';
  e_canceled : canceled t = true -> canceled t' = true;
  e_dead : dead t -> dead t'
}.

Record tcp_ok (h : TCPHandler) : Prop := {
  o_active : active h = Z.of_nat (count running (objs h)) /\ (0 < MaxConcurrent h -> active h <= MaxConcurrent h);
  o_map id s : streams h !! id = Some s -> exists t, objs h !! s = Some t /\ sid t = id /\ phase t <> Gone;
  o_obj s t : objs h !! s = Some t -> stream_ok t /\ ValidateTarget (oHost (open t)) (oPort (open t)) = None /\ Permits (Allow h) (oHost (open t)) (oPort (open t)) = true;
  o_reach s t : objs h !! s = Some t -> phase t <> Gone -> streams h !! sid t = Some s \/ dead t;
  o_stopped s t : stopped h = true -> objs h !! s = Some t -> canceled t = true
}.

Lemma goes_refl t : goes t t.
Proof. by constructor. Qed.

Lemma goes_trans t1 t2 t3 : goes t1 t2 -> goes t2 t3 -> goes t1 t3.
Proof. intros [(?&?&?) ???] [(?&?&?) ???]. constructor; [split_and!; congruence|eauto..]. Qed.

(** Streams change one by one, and nothing else but the log. *)
Record streams_go (h h' : TCPHandler) : Prop := {
  m_same : Allow h' = Allow h /\ MaxConcurrent h' = MaxConcurrent h /\ stopped h' = stopped h /\ streams h' = streams h /\ active h' = active h;
  m_objs : Forall2 goes (objs h) (objs h')
}.

Lemma streams_go_refl h : streams_go h h.
Proof. constructor; [done|]. apply Forall_Forall2_diag, Forall_forall. intros t _. apply goes_refl. Qed.

Lemma streams_go_trans h1 h2 h3 : streams_go h1 h2 -> streams_go h2 h3 -> streams_go h1 h3.
Proof. intros [(?&?&?&?&?) Ho1] [(?&?&?&?&?) Ho2]. constructor; [split_and!; congruence|]. revert Ho2. generalize (objs h3). clear -Ho1.
  induction Ho1 as [|t1 t2 l1 l2 Ht _ IH]; intros l3 Ho; inv Ho; constructor; [by eapply goes_trans|by apply IH]. Qed.

Lemma go_stream h s f : (forall t, objs h !! s = Some t -> goes t (f t)) -> streams_go h (on_stream s f h).
Proof.
  intros Hf. constructor; [done|]. apply Forall2_same_length_lookup_2; [cbn; by rewrite length_alter|]. cbn. intros i t t' Ht Ht'.
  destruct (decide (i = s)) as [->|Hne]; [rewrite list_lookup_alter_eq, Ht in Ht'; injection Ht' as <-; by apply Hf|].
  rewrite list_lookup_alter_ne, Ht in Ht' by done. injection Ht' as <-. apply goes_refl.
Qed.

Lemma go_emit h h' e : streams_go h h' -> streams_go h (emit e h').
Proof. intros [? ?]. by constructor. Qed.

Lemma streams_go_ok h h' : streams_go h h' -> tcp_ok h -> tcp_ok h'.
Proof.
  intros [(Ea & Em & Es & Et & Eac) Ho] [H1 H2 H3 H4 H5].
  assert (forall s t', objs h' !! s = Some t' -> exists t, objs h !! s = Some t /\ goes t t') as Hb.
  { intros s t' Ht'. destruct (Forall2_lookup_r _ _ _ _ _ Ho Ht') as (t & ? & ?). by exists t. }
  assert (forall t t', goes t t' -> phase t <> Gone -> phase t' <> Gone) as Hg.
  { intros t t' [(_ & _ & Hr) _ _ _] Hp. unfold running in Hr. rewrite (bool_decide_eq_true_2 (phase t <> Gone)) in Hr by done. by apply bool_decide_eq_true in Hr. }
  assert (forall t t', goes t t' -> phase t' <> Gone -> phase t <> Gone) as Hg'.
  { intros t t' [(_ & _ & Hr) _ _ _] Hp. unfold running in Hr. rewrite (bool_decide_eq_true_2 (phase t' <> Gone)) in Hr by done. symmetry in Hr. by apply bool_decide_eq_true in Hr. }
  constructor; rewrite ?Ea, ?Em, ?Es, ?Et, ?Eac.
  - destruct H1 as [-> Hm]. split; [|done]. f_equal. clear -Ho. induction Ho as [|t t' l l' [(_ & _ & Hr) _ _ _] _ IH]; [done|]. cbn. by rewrite Hr, IH.
  - intros id s (t & Ht & Hid & Hp)%H2. destruct (Forall2_lookup_l _ _ _ _ _ Ho Ht) as (t' & Ht' & Hgo). exists t'. split_and!; [done| |by eapply Hg].
    destruct Hgo as [(-> & _) _ _ _]. done.
  - intros s t' (t & Ht & Hgo)%Hb. destruct (H3 s t Ht) as (Hok & Hv & Hp). destruct Hgo as [(_ & -> & _) He _ _]. split_and!; [by apply He|done|done].
  - intros s t' Ht' Hp. destruct (Hb _ _ Ht') as (t & Ht & Hgo). destruct (H4 s t Ht (Hg' _ _ Hgo Hp)) as [?|?]; [left|right; by apply (e_dead _ _ Hgo)].
    by destruct Hgo as [(-> & _) _ _ _].
  - intros s t' Hst (t & Ht & Hgo)%Hb. apply (e_canceled _ _ Hgo). by eapply H5.
Qed.

Ltac goes_by := constructor; [by split_and!|intros [?l1 ?l2 ?l3 ?l4]; constructor; cbn; try done; try tauto|try done|unfold dead; cbn; try tauto].

Lemma goes_closed t : goes t (closed t).
Proof. unfold closed. destruct (conn t) eqn:E; goes_by. Qed.

Lemma go_close h s : streams_go h (close s h).
Proof. apply go_stream. intros t _. apply goes_closed. Qed.

Lemma go_over h s : (forall t, objs h !! s = Some t -> phase t <> Gone) -> streams_go h (goto s Removing (close s h)).
Proof.
  intros Hp. assert (goto s Removing (close s h) = on_stream s (fun t => (closed t) <| phase := Removing |>) h) as ->.
  { unfold goto, close, on_stream. cbn. by rewrite list_alter_alter_eq. }
  apply go_stream. intros t Ht. specialize (Hp t Ht). constructor.
  - unfold running. rewrite !bool_decide_true; [by destruct t as [????? []]|done|done].
  - intros Hok. unfold closed. destruct (conn t) eqn:Ec; constructor; cbn; try done; try (by intros [|[|]]); [intros _; by apply (l_ready t)|congruence..].
  - intros _. unfold closed. by destruct (conn t).
  - intros _. unfold dead, closed. destruct (conn t) eqn:Ec; cbn; by rewrite ?Ec.
Qed.

Lemma go_phase h s p : (forall t, objs h !! s = Some t -> phase t <> Gone /\ (stream_ok t -> conn t = true)) -> p = Pumping \/ p = Waiting -> streams_go h (goto s p h).
Proof.
  intros Hp Hpp. apply go_stream. intros t Ht. destruct (Hp t Ht) as [Hg Hc]. constructor.
  - unfold running. rewrite !bool_decide_true; [done|done|]. by destruct Hpp as [-> | ->].
  - intros Hok. specialize (Hc Hok). destruct Hok as [l1 l2 l3 l4]. constructor; cbn; [done|by destruct Hpp as [-> | ->]..|]. destruct Hpp as [-> | ->]; by intros [].
  - done.
  - done.
Qed.

Lemma go_OnDAT take_some h id payload prefer h' ok : OnDAT take_some h id payload prefer = Some (h', ok) -> streams_go h h'.
Proof.
  unfold OnDAT. destruct (streams h !! id) as [s|]; [|intros [= <- _]; apply streams_go_refl]. destruct (objs h !! s) as [t|] eqn:Et; [|done].
  destruct (waitConn t prefer) as [[|]|]; [|intros [= <- _]; apply go_close|done].
  assert (goes t (write take_some t payload).1) as Hg.
  { unfold write. destruct (_ || _); [apply goes_refl|]. destruct (WriteFull _ _ _ _). goes_by. }
  destruct (write _ _ _) as [t1 ok1]. cbn in Hg. assert (streams_go h (on_stream s (fun _ => t1) h)) as H1.
  { apply go_stream. intros t' Ht'. rewrite Et in Ht'. by injection Ht' as <-. }
  destruct ok1; intros H; apply Some_inj in H; injection H as <- _; [done|]. eapply streams_go_trans; [done|apply go_close].
Qed.

Lemma go_end_write h s prefer okc h' ok : end_write h s prefer okc = Some (h', ok) ->
  streams_go h h' /\ (ok = false -> exists h1, h' = close s h1 /\ streams_go h h1).
Proof.
  unfold end_write. destruct (objs h !! s) as [t|] eqn:Et; [|done]. assert (streams_go h (on_stream s close_write h)) as H1.
  { apply go_stream. intros t' _. goes_by. }
  destruct (waitConn t prefer) as [[|]|]; [destruct okc| |done]; intros H; apply Some_inj in H; injection H as <- <-.
  - done.
  - split; [eapply streams_go_trans; [done|apply go_close]|]. intros _. by eexists.
  - split; [apply go_close|]. intros _. exists h. split; [done|apply streams_go_refl].
Qed.

Lemma go_OnFIN take_some h id payload prefer okc h' ok : OnFIN take_some h id payload prefer okc = Some (h', ok) -> streams_go h h'.
Proof.
  unfold OnFIN. destruct (streams h !! id) as [s|]; [|intros [= <- _]; apply streams_go_refl].
  assert (forall o, o = match payload with [] => Some (h, true) | _ => OnDAT take_some h id payload prefer end -> forall h1 ok1, o = Some (h1, ok1) -> streams_go h h1) as Ho.
  { intros o -> h1 ok1. destruct payload; [intros [= <- _]; apply streams_go_refl|apply go_OnDAT]. }
  destruct (match payload with [] => _ | _ => _ end) as [[h1 [|]]|]; [| |done]; specialize (Ho _ eq_refl _ _ eq_refl).
  - intros [H _]%go_end_write. by eapply streams_go_trans.
  - intros [= <- _]. done.
Qed.

(** The phase of a stream is not changed by what the dispatcher does. *)
Lemma goes_running h h' s t' : streams_go h h' -> objs h' !! s = Some t' -> exists t, objs h !! s = Some t /\ goes t t'.
Proof. intros [_ Ho] Ht. destruct (Forall2_lookup_r _ _ _ _ _ Ho Ht) as (t & ? & ?). by exists t. Qed.

Lemma go_dialed h s r h' : dialed h s r = Some h' -> streams_go h h'.
Proof.
  unfold dialed. destruct (objs h !! s) as [t|] eqn:Et; [|done]. case_decide as Hp; [done|]. assert (phase t = Dialing) as Hd by (by destruct (phase t)).
  assert (forall f h0, objs h0 = objs h -> streams_go h h0 -> goes t (f t) -> streams_go h (on_stream s f h0)) as Hs.
  { intros f h0 E H0 Hf. eapply streams_go_trans; [exact H0|]. apply go_stream. intros t' Ht'. rewrite E, Et in Ht'. by injection Ht' as <-. }
  intros H; apply Some_inj in H; subst h'. destruct r as [message|].
  - apply Hs; [by destruct (canceled t)|destruct (canceled t); [apply streams_go_refl|apply go_emit, streams_go_refl]|].
    constructor; [unfold running; by rewrite Hd|intros [l1 l2 l3 l4]; destruct (l2 Hd) as [_ Hc]; constructor; cbn; try done; try (by intros [|[|]]); congruence|done|intros [Hc ?]; by split].
  - destruct (canceled t) eqn:Ec; (apply Hs; [done|apply streams_go_refl|]).
    + constructor; [unfold running; by rewrite Hd|intros [l1 l2 l3 l4]; destruct (l2 Hd) as [_ Hc]; constructor; cbn; try done; try (by intros [|[|]]); congruence|done|done].
    + constructor; [unfold running; by rewrite Hd|intros _; constructor; cbn; try done; by intros []|done|intros [? _]; congruence].
Qed.

Lemma go_answered h s taken prefer okc h' : answered h s taken prefer okc = Some h' -> streams_go h h'.
Proof.
  unfold answered. destruct (objs h !! s) as [t|] eqn:Et; [|done]. case_decide as Hp; [done|]. assert (phase t = Answering) as Ha by (by destruct (phase t)).
  assert (forall h1, streams_go h h1 -> forall t', objs h1 !! s = Some t' -> phase t' <> Gone) as Hrun.
  { intros h1 Hg t' Ht'. destruct (goes_running _ _ _ _ Hg Ht') as (t0 & Ht0 & [(_ & _ & Hr) _ _ _]). rewrite Et in Ht0. injection Ht0 as <-.
    unfold running in Hr. rewrite Ha in Hr. rewrite (bool_decide_eq_true_2 (Answering <> Gone)) in Hr by done. by apply bool_decide_eq_true in Hr. }
  destruct taken; cbn [negb]; [|intros H; apply Some_inj in H; subst h'; apply go_over; by apply (Hrun h), streams_go_refl].
  assert (forall h1, streams_go h h1 -> (forall t', objs h1 !! s = Some t' -> stream_ok t' -> conn t' = true) -> streams_go h (goto s Pumping h1)) as Hpump.
  { intros h1 Hg Hc. eapply streams_go_trans; [exact Hg|]. apply go_phase; [|by left]. intros t' Ht'. split; [by apply (Hrun h1)|by apply Hc]. }
  destruct (last t).
  - destruct (end_write (emit (Opened s) h) s prefer okc) as [[h2 [|]]|] eqn:Ew; [| |done]; intros H; apply Some_inj in H; subst h'.
    + pose proof Ew as [Hg _]%go_end_write. apply Hpump; [eapply streams_go_trans; [apply go_emit, streams_go_refl|exact Hg]|]. intros t' Ht' Hok. unfold end_write in Ew. cbn in Ew. rewrite Et in Ew.
      destruct (waitConn t prefer) as [[|]|]; [|done|done]. destruct okc; [|done]. injection Ew as <-. cbn in Ht'. rewrite list_lookup_alter_eq, Et in Ht'.
      injection Ht' as <-. apply (l_conn _ Hok). by left.
    + apply go_end_write in Ew as [Hg Hc]. destruct (Hc eq_refl) as (h1 & -> & Hg1). assert (goto s Removing (close s h1) = goto s Removing (close s (close s h1))) as ->.
      { unfold goto, close, on_stream. cbn. f_equal. rewrite !list_alter_alter_eq. apply list_alter_ext; [|done]. intros x _. cbn. unfold closed. by destruct (conn x) eqn:E; cbn; rewrite E. }
      assert (streams_go h (close s h1)) as Hg' by (eapply streams_go_trans; [apply go_emit, streams_go_refl|exact Hg]).
      eapply streams_go_trans; [exact Hg'|]. apply go_over. by apply Hrun.
  - intros H; apply Some_inj in H; subst h'. apply Hpump; [apply go_emit, streams_go_refl|]. intros t' Ht' Hok. cbn in Ht'. rewrite Et in Ht'. injection Ht' as <-. apply (l_conn _ Hok). by left.
Qed.

Lemma go_pump_over h s ok h' : pump_over h s ok = Some h' -> streams_go h h'.
Proof.
  unfold pump_over. destruct (objs h !! s) as [t|] eqn:Et; [|done]. case_decide as Hp; [done|]. assert (phase t = Pumping) as Hd by (by destruct (phase t)).
  intros H; apply Some_inj in H; subst h'. destruct ok; [apply go_phase; [|by right]|apply go_over]; intros t' Ht'; rewrite Et in Ht'; injection Ht' as <-; [|congruence].
  split; [congruence|]. intros Hok. apply (l_conn _ Hok). tauto.
Qed.

Lemma go_waited h s h' : waited h s = Some h' -> streams_go h h'.
Proof.
  unfold waited. destruct (objs h !! s) as [t|] eqn:Et; [|done]. case_decide as Hp; [|done]. destruct (_ || _); [|done]. intros H; apply Some_inj in H; subst h'.
  apply go_over. intros t' Ht'. rewrite Et in Ht'. injection Ht' as <-. congruence.
Qed.

Lemma go_close_streams h : streams_go h (close_streams h).
Proof. unfold close_streams. generalize (map_to_list (streams h)).*2 as l. induction l as [|s l IH]; cbn; [apply streams_go_refl|]. eapply streams_go_trans; [exact IH|apply go_close]. Qed.

Lemma cancel_ok h : tcp_ok h -> tcp_ok (cancel_all h).
Proof.
  intros Hh. assert (tcp_ok ((cancel_all h) <| stopped := stopped h |>)) as [H1 H2 H3 H4 H5].
  { apply (streams_go_ok h); [|done]. constructor; [by split_and!|]. cbn. clear. induction (objs h) as [|t l IH]; constructor; [goes_by|done]. }
  constructor; try done. intros s t _ Ht. cbn in Ht. rewrite list_lookup_fmap in Ht. by apply fmap_Some in Ht as (? & _ & ->).
Qed.

Lemma remove_ok h s h' : remove h s = Some h' -> tcp_ok h -> tcp_ok h'.
Proof.
  unfold remove. destruct (objs h !! s) as [t|] eqn:Et; [|done]. case_decide as Hp; [done|]. assert (phase t = Removing) as Hd by (by destruct (phase t)).
  intros H Hh. apply Some_inj in H. subst h'. destruct Hh as [H1 H2 H3 H4 H5]. set (m := if decide (streams h !! sid t = Some s) then delete (sid t) (streams h) else streams h).
  set (f := fun t => t <| phase := Gone |>). set (h' := goto _ _ _).
  assert (Allow h' = Allow h /\ MaxConcurrent h' = MaxConcurrent h /\ stopped h' = stopped h /\ streams h' = m /\ active h' = active h - 1 /\ objs h' = alter f s (objs h)) as (Ea & Em & Es & Est & Eac & Eo)
    by (subst h' m; case_decide; by split_and!).
  assert (forall id i, m !! id = Some i -> streams h !! id = Some i /\ i <> s) as Hm.
  { subst m. intros id i. case_decide as Hs; [intros [Hne Hi]%lookup_delete_Some|intros Hi]; (split; [done|]); intros ->; destruct (H2 _ _ Hi) as (t0 & Ht0 & Hid & _); simplify_eq; done. }
  assert (forall id i, streams h !! id = Some i -> i <> s -> m !! id = Some i) as Hm'.
  { subst m. intros id i Hi Hne. case_decide as Hs; [|done]. rewrite lookup_delete_ne; [done|]. intros <-. congruence. }
  assert (forall i x, objs h' !! i = Some x -> i = s /\ x = f t \/ i <> s /\ objs h !! i = Some x) as Hx.
  { intros i x. rewrite Eo. destruct (decide (i = s)) as [->|]; [rewrite list_lookup_alter_eq, Et; intros [= <-]; by left|rewrite list_lookup_alter_ne by done; by right]. }
  clearbody m h'. constructor; rewrite ?Ea, ?Em, ?Es, ?Est, ?Eac.
  - destruct H1 as [Hc Hmax]. rewrite Eo. assert (count running (alter f s (objs h)) + 1 = count running (objs h))%nat as Hn; [|lia].
    assert (running t = true) as Hr by (apply bool_decide_eq_true; congruence). assert (running (f t) = false) as Hr' by done. clearbody f. revert Et. clear -Hr Hr'. revert s.
    induction (objs h) as [|x l IH]; intros [|s] Et; try done; [injection Et as ->; change (alter f 0%nat (t :: l)) with (f t :: l); cbn [count]; rewrite Hr, Hr'; lia|].
    change (alter f (S s) (x :: l)) with (x :: alter f s l). cbn [count]. specialize (IH s Et). lia.
  - intros id i [Hi Hne]%Hm. destruct (H2 id i Hi) as (x & Hxi & ?). exists x. split; [|done]. by rewrite Eo, list_lookup_alter_ne.
  - intros i x [[-> ->]|[_ Hi]]%Hx; [|by apply (H3 i)]. destruct (H3 s t Et) as ([l1 l2 l3 l4] & Hv & Ha). split_and!; [|done|done].
    constructor; cbn; [done|done|by intros [|[|]]|]. intros _. apply l4. by left.
  - intros i x [[-> ->]|[Hne Hi]]%Hx Hg; [done|]. destruct (H4 i x Hi Hg) as [?|?]; [left; by apply Hm'|by right].
  - intros i x Hst [[-> ->]|[_ Hi]]%Hx; [by apply (H5 s t)|by apply (H5 i)].
Qed.

(** A stream is entered under an ID whose former stream is dead. *)
Lemma enter_ok h id t :
  (forall old x, streams h !! id = Some old -> objs h !! old = Some x -> dead x) ->
  sid t = id -> stream_ok t -> phase t = Dialing -> (stopped h = true -> canceled t = true) ->
  ValidateTarget (oHost (open t)) (oPort (open t)) = None -> Permits (Allow h) (oHost (open t)) (oPort (open t)) = true ->
  (0 < MaxConcurrent h -> active h < MaxConcurrent h) -> tcp_ok h ->
  tcp_ok (h <| objs := objs h ++ [t] |> <| streams := <[id := length (objs h)]> (streams h) |> <| active := active h + 1 |>).
Proof.
  intros Hold Hid Hok Hph Hst Hv Hp Hm [H1 H2 H3 H4 H5]. set (h1 := h <| objs := _ |> <| streams := _ |> <| active := _ |>). set (s := length (objs h)).
  assert (forall i x, objs h1 !! i = Some x -> objs h !! i = Some x \/ i = s /\ x = t) as Hx.
  { intros i x [?|[Hi Hx]]%lookup_app_Some; [by left|right]. apply list_lookup_singleton_Some in Hx as [? <-]. split; [subst s; lia|done]. }
  assert (forall i x, objs h !! i = Some x -> objs h1 !! i = Some x) as Hx' by (intros i x ?; by apply lookup_app_l_Some).
  assert (objs h1 !! s = Some t) as Hs by (cbn; by rewrite list_lookup_middle).
  constructor; cbn [Allow MaxConcurrent stopped active upd h1].
  - destruct H1 as [Ha Hmax]. split; [|intros ?%Hm; cbn; lia]. cbn. rewrite count_app. cbn. replace (running t) with true by (symmetry; apply bool_decide_eq_true; congruence). lia.
  - intros i k Hk. cbn in Hk. apply lookup_insert_Some in Hk as [[<- <-]|[Hne Hk]]; [exists t; split_and!; [done|done|congruence]|]. destruct (H2 i k Hk) as (x & ? & ?). exists x. split; [by apply Hx'|done].
  - intros i x [Hi|[-> ->]]%Hx; [by apply (H3 i)|by split_and!].
  - intros i x [Hi|[-> ->]]%Hx Hg; [|left; cbn; by rewrite Hid, lookup_insert_eq]. destruct (H4 i x Hi Hg) as [Hm'|?]; [|by right].
    destruct (decide (sid x = id)) as [E|Hne]; [right|left; cbn; by rewrite lookup_insert_ne]. apply (Hold i x); [by rewrite <- E|done].
  - intros i x Hst' [Hi|[-> ->]]%Hx; [by apply (H5 i)|by apply Hst].
Qed.

Lemma syn_ok h id payload final bad invalid : tcp_ok h -> tcp_ok (OnSYN h id payload final bad invalid).
Proof.
  intros Hh. unfold OnSYN. assert (forall e, tcp_ok (emit e h)) as He by (intros e; apply (streams_go_ok h); [apply go_emit, streams_go_refl|done]).
  destruct (decode_tcp_open payload) as [o|]; [|apply He]. destruct (ValidateTarget _ _) eqn:Ev; [apply He|]. destruct (Permits _ _ _) eqn:Ep; [|apply He]. cbn [negb].
  destruct (_ && _) eqn:Em; [apply He|]. assert (0 < MaxConcurrent h -> active h < MaxConcurrent h) as Hm.
  { intros H. apply andb_false_iff in Em as [?|?]; bool_to_prop; lia. }
  set (t := mkTcp _ _ _ _ _ _ _ _ _ _ _). assert (stream_ok t) as Ht by (constructor; cbn; try done; by intros [|[|]]).
  destruct (streams h !! id) as [old|] eqn:Eold; [|apply enter_ok; try done; intros old x; congruence].
  set (h0 := close old h). assert (tcp_ok h0) as Hh0 by (apply (streams_go_ok h); [apply go_close|done]).
  destruct (o_map h Hh id old Eold) as (y & Hy & _).
  assert (forall s, close old (h <| objs := objs h ++ [t] |> <| streams := <[id := s]> (streams h) |> <| active := active h + 1 |>)
    = h0 <| objs := objs h0 ++ [t] |> <| streams := <[id := s]> (streams h0) |> <| active := active h0 + 1 |>) as ->.
  { intros s. subst h0. unfold close, on_stream. cbn. by rewrite alter_app_l by (by eapply lookup_lt_Some). }
  assert (length (objs h) = length (objs h0)) as -> by (cbn; by rewrite length_alter).
  apply enter_ok; try done. intros k x Hk Hx. cbn in Hk. rewrite Eold in Hk. injection Hk as <-. cbn in Hx. rewrite list_lookup_alter_eq, Hy in Hx. injection Hx as <-.
  unfold dead, closed. by destruct (conn y) eqn:E; cbn; rewrite ?E.
Qed.

Lemma tcp_step_ok take_some h h' : tcp_step take_some h h' -> tcp_ok h -> tcp_ok h'.
Proof.
  intros [h0 id payload final bad invalid|h0 id payload prefer h1 ok H|h0 id payload prefer okc h1 ok H|h0 id|h0|h0|h0 s r h1 H|h0 s taken prefer ok h1 H|h0 s f h1 H|h0 s ok h1 H|h0 s h1 H|h0 s h1 H] Hh.
  - by apply syn_ok.
  - eapply streams_go_ok; [by eapply go_OnDAT|done].
  - eapply streams_go_ok; [by eapply go_OnFIN|done].
  - apply (streams_go_ok h0); [|done]. unfold OnReset. destruct (streams h0 !! id); [apply go_close|apply streams_go_refl].
  - by apply cancel_ok.
  - eapply streams_go_ok; [apply go_close_streams|done].
  - eapply streams_go_ok; [by eapply go_dialed|done].
  - eapply streams_go_ok; [by eapply go_answered|done].
  - apply (streams_go_ok h0); [|done]. unfold pumped in H. destruct (objs h0 !! s); [|done]. case_decide; [done|]. apply Some_inj in H. subst h1. apply go_emit, streams_go_refl.
  - eapply streams_go_ok; [by eapply go_pump_over|done].
  - eapply streams_go_ok; [by eapply go_waited|done].
  - by eapply remove_ok.
Qed.

(** * Closing *)

Definition all_dead (h : TCPHandler) : Prop := stopped h = true /\ forall s t, objs h !! s = Some t -> dead t.

Lemma go_dead h h' : streams_go h h' -> all_dead h -> all_dead h'.
Proof. intros [(_ & _ & E & _) Ho] [Hs Hd]. split; [congruence|]. intros s t' Ht'. destruct (Forall2_lookup_r _ _ _ _ _ Ho Ht') as (t & Ht & Hg). apply (e_dead _ _ Hg). by eapply Hd. Qed.

Lemma syn_dead h id payload final bad invalid : all_dead h -> all_dead (OnSYN h id payload final bad invalid).
Proof.
  intros [Hs Hd]. unfold OnSYN. destruct (decode_tcp_open payload) as [o|]; [|done]. destruct (ValidateTarget _ _); [done|]. destruct (Permits _ _ _); [|done]. cbn [negb].
  destruct (_ && _); [done|]. set (h1 := h <| objs := _ |> <| streams := _ |> <| active := _ |>). assert (all_dead h1) as H1.
  { split; [done|]. intros s t [?|[_ Ht]]%lookup_app_Some; [by eapply Hd|]. apply list_lookup_singleton_Some in Ht as [_ <-]. split; cbn; [done|]. done. }
  destruct (streams h !! id); [|done]. eapply go_dead; [apply go_close|done].
Qed.

Lemma dead_step take_some h h' : tcp_step take_some h h' -> all_dead h -> all_dead h'.
Proof.
  intros [h0 id payload final bad invalid|h0 id payload prefer h1 ok H|h0 id payload prefer okc h1 ok H|h0 id|h0|h0|h0 s r h1 H|h0 s taken prefer ok h1 H|h0 s f h1 H|h0 s ok h1 H|h0 s h1 H|h0 s h1 H] Hh.
  - by apply syn_dead.
  - eapply go_dead; [by eapply go_OnDAT|done].
  - eapply go_dead; [by eapply go_OnFIN|done].
  - apply (go_dead h0); [|done]. unfold OnReset. destruct (streams h0 !! id); [apply go_close|apply streams_go_refl].
  - destruct Hh as [_ Hd]. split; [done|]. intros s t Ht. cbn in Ht. rewrite list_lookup_fmap in Ht. apply fmap_Some in Ht as (x & Hx & ->). split; [done|]. by apply (Hd s x).
  - eapply go_dead; [apply go_close_streams|done].
  - eapply go_dead; [by eapply go_dialed|done].
  - eapply go_dead; [by eapply go_answered|done].
  - unfold pumped in H. destruct (objs h0 !! s); [|done]. case_decide; [done|]. apply Some_inj in H. by subst h1.
  - eapply go_dead; [by eapply go_pump_over|done].
  - eapply go_dead; [by eapply go_waited|done].
  - unfold remove in H. destruct (objs h0 !! s) as [x|] eqn:Ex; [|done]. case_decide; [done|]. apply Some_inj in H. subst h1. destruct Hh as [Hs Hd].
    split; [by case_decide|]. intros i t Ht. assert (objs (goto s Gone h0) !! i = Some t) as Ht' by (by case_decide). cbn in Ht'. clear Ht.
    destruct (decide (i = s)) as [->|]; [rewrite list_lookup_alter_eq, Ex in Ht'; injection Ht' as <-; by apply (Hd s x)|rewrite list_lookup_alter_ne in Ht' by done; by eapply Hd].
Qed.

Lemma CloseAll_dead h : tcp_ok h -> all_dead (CloseAll h).
Proof.
  intros Hh. pose proof (cancel_ok h Hh) as Hc. set (h1 := cancel_all h) in *. split; [destruct (go_close_streams h1) as [(_ & _ & E & _) _]; exact E|].
  assert (forall l s t, objs (foldr close h1 l) !! s = Some t -> canceled t = true /\ (s ∈ l -> conn t = true -> conn_closed t = true)) as Hl.
  { induction l as [|a l IH]; cbn; intros s t Ht.
    - split; [by apply (o_stopped h1 Hc s)|by intros ?%elem_of_nil].
    - destruct (decide (s = a)) as [->|Hne]; [rewrite list_lookup_alter_eq in Ht; apply fmap_Some in Ht as (x & Hx & ->); unfold closed; by destruct (conn x) eqn:E; cbn; rewrite ?E|].
      rewrite list_lookup_alter_ne in Ht by done. destruct (IH s t Ht) as [? Hin]. split; [done|]. intros [?|?]%elem_of_cons; [done|by apply Hin]. }
  intros s t Ht. destruct (Hl _ _ _ Ht) as [Hca Hcl]. split; [done|]. pose proof (go_close_streams h1) as Hg. pose proof (streams_go_ok _ _ Hg Hc) as Hok.
  intros Hcn. destruct (decide (phase t = Gone)) as [Hp|Hp]; [by apply (l_over _ (proj1 (o_obj _ Hok s t Ht))); [right|]|].
  destruct (o_reach _ Hok s t Ht Hp) as [Hm|[_ Hd]]; [|by apply Hd]. apply Hcl; [|done]. destruct Hg as [(_ & _ & _ & Es & _) _]. unfold CloseAll in Hm. rewrite Es in Hm.
  apply list_elem_of_fmap. exists (sid t, s). split; [done|]. by apply elem_of_map_to_list.
Qed.

Lemma tcp_reachable take_some allow h : steps (tcp_step take_some) (NewTCP allow) h -> tcp_ok h /\ Allow h = allow /\ MaxConcurrent h = DefaultTCPMaxConcurrent.
Proof.
  intros H. apply (steps_invariant (tcp_step take_some) (fun h => tcp_ok h /\ Allow h = allow /\ MaxConcurrent h = DefaultTCPMaxConcurrent)) with (s1 := NewTCP allow); [|done|by split; [constructor; try done|]].
  clear H h. intros h h' (Hh & <- & Hm) Hs. split; [by eapply tcp_step_ok|]. rewrite <- Hm.
  assert (streams_go h h' -> Allow h' = Allow h /\ MaxConcurrent h' = MaxConcurrent h) as Hg by (by intros [(-> & -> & _) _]).
  destruct Hs as [h0 id payload final bad invalid|h0 id payload prefer h1 ok H|h0 id payload prefer okc h1 ok H|h0 id|h0|h0|h0 s r h1 H|h0 s taken prefer ok h1 H|h0 s f h1 H|h0 s ok h1 H|h0 s h1 H|h0 s h1 H].
  - unfold OnSYN. by repeat case_match.
  - by eapply Hg, go_OnDAT.
  - by eapply Hg, go_OnFIN.
  - unfold OnReset. by case_match.
  - done.
  - apply Hg, go_close_streams.
  - by eapply Hg, go_dialed.
  - by eapply Hg, go_answered.
  - unfold pumped in H. repeat case_match; by simplify_eq.
  - by eapply Hg, go_pump_over.
  - by eapply Hg, go_waited.
  - unfold remove in H. repeat case_match; by simplify_eq.
Qed.

(** The listener's tcp streams are accounted for. Whatever a connector sends and however dials, targets and
    goroutines behave, at most 64 streams run at once and [active] counts them; a target is dialed only when it is valid
    and the link permits it; and a connection to a target is closed unless its stream runs and is in the table, so that
    a reset reaches it. Once the session is closed every connection is closed, and none is opened later. *)
Theorem tcp_streams_exact take_some allow h :
  steps (tcp_step take_some) (NewTCP allow) h ->
  active h = Z.of_nat (count running (objs h)) /\ active h <= 64 /\
  (forall s t, objs h !! s = Some t ->
     ValidateTarget (oHost (open t)) (oPort (open t)) = None /\ Permits allow (oHost (open t)) (oPort (open t)) = true /\
     (conn t = true -> conn_closed t = true \/ running t = true /\ streams h !! sid t = Some s)) /\
  (forall h', steps (tcp_step take_some) (CloseAll h) h' -> forall s t, objs h' !! s = Some t -> conn t = true -> conn_closed t = true).
Proof.
  intros (Hh & Ea & Em)%tcp_reachable. destruct (o_active h Hh) as [Hc Hm]. split_and!; [done| | |].
  - rewrite Em in Hm. by apply Hm.
  - intros s t Ht. destruct (o_obj h Hh s t Ht) as (Hok & Hv & Hp). rewrite Ea in Hp. split_and!; [done|done|]. intros Hcn.
    destruct (decide (phase t = Gone)) as [Hg|Hg]; [left; by apply (l_over t Hok); [right|]|].
    destruct (o_reach h Hh s t Ht Hg) as [?|[_ Hd]]; [right|left; by apply Hd]. split; [by apply bool_decide_eq_true|done].
  - intros h' Hs s t Ht. apply (steps_invariant (tcp_step take_some) all_dead) in Hs; [|intros ????; by eapply dead_step|by apply CloseAll_dead]. by apply (proj2 Hs s t Ht).
Qed.

(** * The bytes *)

(** What a source gives before its direction ends. *)
Fixpoint source (reads : list read) : bytes :=
  match reads with
  | Chunk data :: rest => data ++ source rest
  | Last data _ :: _ => data
  | _ => []
  end.

(** The source ends by itself. *)
Fixpoint ends_itself (reads : list read) : Prop :=
  match reads with
  | Chunk _ :: rest => ends_itself rest
  | Last _ _ :: _ => True
  | _ => False
  end.

Definition never (_ : sent) : bool := false.

Lemma Pump_frames reads : ends_itself reads -> exists datas, (Pump never reads).1 = map DAT datas ++ [FIN] /\ concat datas = source reads /\ Forall (fun d => d <> []) datas.
Proof.
  induction reads as [|[data|data eof|] reads IH]; intros He; try done.
  - destruct (IH He) as (ds & E & Ec & HF). destruct data as [|c data]; [by exists ds|]. exists ((c :: data) :: ds). cbn. destruct (Pump never reads) as [l ok]. cbn in *. subst l.
    split_and!; [done|by rewrite Ec|by constructor].
  - destruct data as [|c data]; [by exists []|]. exists [c :: data]. cbn. rewrite app_nil_r. split_and!; [done|done|by repeat constructor].
Qed.

(** A frame of the pump as it arrives at the connector. *)
Definition arrives (id : Z) (f : sent) : Frame := match f with DAT data => mkFrame id FlagDAT data | FIN => mkFrame id FlagFIN [] end.

(** The frames of the pump as the listener's dispatcher hands them over. *)
Fixpoint deliver (take_some : bytes -> bytes -> Z * option bytes) (h : TCPHandler) (id : Z) (fs : list sent) : option (TCPHandler * bool) :=
  match fs with
  | [] => Some (h, true)
  | f :: rest =>
    match (match f with DAT data => OnDAT take_some h id data false | FIN => OnFIN take_some h id [] false true end) with
    | Some (h1, true) => deliver take_some h1 id rest
    | r => r
    end
  end.

(** A stream that takes what the connector sends. *)
Definition open_stream (h : TCPHandler) (id : Z) (s : nat) (t : tcpStream) : Prop :=
  streams h !! id = Some s /\ objs h !! s = Some t /\ ready t = true /\ conn t = true /\ canceled t = false /\ conn_closed t = false /\ write_closed t = false.

Section Honest.
Context (take_some : bytes -> bytes -> Z * option bytes) (Hhonest : honest take_some).

Lemma receive_datas id ds rest w : Forall (fun d => d <> []) ds ->
  receiveTCP take_some (map (arrives id) (map DAT ds ++ rest)) w = receiveTCP take_some (map (arrives id) rest) (w ++ concat ds).
Proof using Hhonest.
  intros HF. revert w. induction HF as [|d ds Hd _ IH]; intros w; [by rewrite app_nil_r|]. cbn [map app receiveTCP arrives].
  change (IsFIN (mkFrame id FlagDAT d)) with false. change (IsSYN (mkFrame id FlagDAT d)) with false. cbn [orb Payload]. rewrite bool_decide_false by done.
  rewrite (WriteFull_honest _ _ Hhonest) by done. rewrite IH. cbn. by rewrite <- app_assoc.
Qed.

Lemma deliver_datas id s ds rest : forall h t, open_stream h id s t ->
  exists h', open_stream h' id s (t <| received := received t ++ concat ds |>) /\ deliver take_some h id (map DAT ds ++ rest) = deliver take_some h' id rest.
Proof using Hhonest.
  induction ds as [|d ds IH]; intros h t (Hs & Ht & Hr & Hc & Hca & Hcl & Hw).
  - exists h. split; [|done]. unfold open_stream. rewrite app_nil_r. split_and!; try done. rewrite Ht. by destruct t.
  - set (t1 := t <| received := received t ++ d |>). set (h1 := on_stream s (fun _ => t1) h).
    assert (open_stream h1 id s t1) as H1 by (split_and!; try done; cbn; by rewrite list_lookup_alter_eq, Ht).
    destruct (IH h1 t1 H1) as (h' & Hh' & E). exists h'. split; [cbn in *; by rewrite app_assoc|].
    cbn [map app deliver]. unfold OnDAT. rewrite Hs, Ht. unfold waitConn. rewrite Hr, andb_false_r. cbn [negb andb]. rewrite Hc. unfold write. rewrite Hcl, Hw. cbn [orb].
    rewrite (WriteFull_honest _ _ Hhonest) by done. exact E.
Qed.
End Honest.

(** C40: Forwarded bytes are the bytes of the source. However a source is read and however little a socket takes at a
    time, after any number of the frames its pump sends the other side has written a prefix of what the source gave, in
    both directions; its direction is ended only after the last byte, and is ended once the source is. *)
Theorem tcp_relay_faithful take_some reads id k :
  honest take_some -> ends_itself reads ->
  let frames := (Pump never reads).1 in
  let over := bool_decide (length frames <= k)%nat in
  exists w, w `prefix_of` source reads /\ (over = true -> w = source reads) /\
    receiveTCP take_some (map (arrives id) (take k frames)) [] = (w, over, over) /\
    forall h s t, open_stream h id s t -> exists h',
      deliver take_some h id (take k frames) = Some (h', true) /\
      objs h' !! s = Some (t <| received := received t ++ w |> <| write_closed := over |> <| writeDone := over || writeDone t |>).
Proof.
  intros Hh He frames over. destruct (Pump_frames reads He) as (ds & E & Ec & HF). subst over. fold frames in E.
  destruct (decide (length ds < k)%nat) as [Hk|Hk].
  - assert (length frames <= k)%nat as Hl by (rewrite E, length_app, length_map; cbn; lia). rewrite bool_decide_true by done. rewrite take_ge by done.
    exists (source reads). split_and!; [done|done| |].
    + rewrite E, (receive_datas _ Hh) by done. cbn. by rewrite Ec.
    + intros h s t Ho. destruct (deliver_datas _ Hh id s ds [FIN] h t Ho) as (h' & (Hs & Ht & Hr & Hc & Hca & Hcl & Hw) & Ed). rewrite E, Ed. cbn [deliver].
      unfold OnFIN. rewrite Hs. unfold end_write. rewrite Ht. unfold waitConn. rewrite Hr, andb_false_r. cbn [negb andb]. rewrite Hc.
      eexists. split; [done|]. cbn. rewrite list_lookup_alter_eq, Ht, <- Ec. done.
  - assert (~ (length frames <= k)%nat) as Hl by (rewrite E, length_app, length_map; cbn; lia). rewrite bool_decide_false by done.
    assert (take k frames = map DAT (take k ds)) as -> by (rewrite E, take_app_le by (rewrite length_map; lia); by rewrite firstn_map).
    exists (concat (take k ds)). split_and!; [|done| |].
    + rewrite <- Ec. exists (concat (drop k ds)). by rewrite <- concat_app, take_drop.
    + rewrite <- (app_nil_r (map DAT _)), (receive_datas _ Hh) by by apply Forall_take. done.
    + intros h s t Ho. destruct (deliver_datas _ Hh id s (take k ds) [] h t Ho) as (h' & (Hs & Ht & Hr & Hc & Hca & Hcl & Hw) & Ed). rewrite app_nil_r in Ed. rewrite Ed.
      exists h'. split; [done|]. rewrite Ht. cbn in *. by destruct t; cbn in *; subst.
Qed.

(** * The connector's forwards *)

(** All the forwards are bound, valid, and on the addresses they name; or none is. *)
Lemma forwards_all_or_nothing bind gateway forwards :
  match bind_all bind gateway [] forwards with
  | (bound, None) => bound = map (fun f => BindAddress f gateway) forwards /\ Forall (fun f => 1 <= LocalPort f <= 65535 /\ ValidateTarget (Host f) (Port f) = None) forwards
  | (bound, Some _) => bound = []
  end.
Proof.
  assert (forall done, match bind_all bind gateway done forwards with
    | (bound, None) => bound = done ++ map (fun f => BindAddress f gateway) forwards /\ Forall (fun f => 1 <= LocalPort f <= 65535 /\ ValidateTarget (Host f) (Port f) = None) forwards
    | (bound, Some _) => bound = [] end) as H; [|apply (H [])].
  induction forwards as [|f forwards IH]; intros done; cbn; [by rewrite app_nil_r|]. destruct (_ || _) eqn:Ep; [done|]. destruct (ValidateTarget _ _) eqn:Ev; [done|].
  destruct (bind done _); [|done]. specialize (IH (done ++ [BindAddress f gateway])). destruct (bind_all _ _ _ _) as [bound [e|]]; [done|]. destruct IH as [-> HF].
  bool_to_prop. split; [by rewrite <- app_assoc|]. constructor; [|done]. split; [lia|done].
Qed.

Record forwarder_ok (f : LocalForwarder) : Prop := {
  f_conn c : (c < accepted f)%nat -> c ∈ shut f \/ c ∈ conns f;
  f_serving c : c ∈ conns f -> c ∈ serving f;
  f_accepts : stage f <> NotClosing -> stage f <> Cancelled -> accepting f = ∅;
  f_closed : stage f = ConnsClosed \/ stage f = Returned -> conns f ⊆ shut f;
  f_waited : stage f = Returned -> serving f = ∅
}.

Lemma forwarder_step_ok f f' : forwarder_step f f' -> forwarder_ok f -> forwarder_ok f'.
Proof.
  intros [f0 i arrived f1 H|f0 c f1 H|f0 f1 H] [H1 H2 H3 H4 H5].
  - unfold accept_turn in H. case_decide as Hi; [|done]. apply Some_inj in H. subst f1.
    assert (stage f0 = NotClosing \/ stage f0 = Cancelled) as Hst.
    { destruct (stage f0); auto; exfalso; rewrite H3 in Hi by done; by apply elem_of_empty in Hi. }
    destruct arrived; cbn [negb]; [case_decide as Hd|]; constructor; cbn; try (intros; destruct Hst; congruence); try (destruct Hst as [-> | ->]; by intros []); try done.
    + intros c Hc. destruct (decide (c = accepted f0)) as [->|]; [set_solver|]. destruct (H1 c); [lia|set_solver|set_solver].
    + intros c. set_solver.
    + intros c Hc. destruct (decide (c = accepted f0)) as [->|]; [set_solver|]. destruct (H1 c); [lia|set_solver|set_solver].
  - unfold served in H. case_decide; [|done]. apply Some_inj in H. subst f1. constructor; cbn; try done.
    + intros x Hx. destruct (decide (x = c)) as [->|]; [set_solver|]. destruct (H1 x Hx); set_solver.
    + intros x Hx. set_solver.
    + intros Hs. specialize (H4 Hs). set_solver.
    + intros Hs. specialize (H5 Hs). set_solver.
  - unfold close_forwarder in H. destruct (stage f0) eqn:Es; try done; try case_decide; try done; apply Some_inj in H; subst f1; constructor; cbn; try done; try (by intros []).
    all: first [intros c Hc; destruct (H1 c Hc); set_solver | intros _; set_solver | intros _; apply H4; by left].
Qed.

(** Close, once it returns, has closed every connection the forwarder ever accepted and left no goroutine; until then
    it waits only for accept loops that will fail and connections that it closed. *)
Lemma forwarder_close_complete bound f :
  steps forwarder_step (start_forwarder bound) f ->
  (stage f = Returned -> accepting f = ∅ /\ serving f = ∅ /\ forall c, (c < accepted f)%nat -> c ∈ shut f) /\
  (stage f <> NotClosing -> stage f <> Returned -> exists f', forwarder_step f f' /\ f' <> f).
Proof.
  intros Hs. assert (forwarder_ok f) as [H1 H2 H3 H4 H5].
  { apply (steps_invariant forwarder_step forwarder_ok) in Hs; [done|intros ????; by eapply forwarder_step_ok|]. constructor; cbn; try done; try lia; by intros []. }
  split.
  - intros Hst. split_and!; [apply H3; congruence|by apply H5|]. intros c Hc. destruct (H1 c Hc) as [|Hin]; [done|]. apply H4 in Hin; [done|by right].
  - intros Hn Hr. destruct (stage f) eqn:Est; try done.
    + destruct (decide (accepting f = ∅)) as [He|He].
      * eexists. split; [apply w_close; unfold close_forwarder; by rewrite Est, decide_True|]. intros E. apply (f_equal stage) in E. cbn in E. congruence.
      * apply set_choose_L in He as [i Hi]. eexists. split; [apply (w_accept f i false); unfold accept_turn; by rewrite decide_True|]. intros E. apply (f_equal accepting) in E. cbn in E. set_solver.
    + eexists. split; [apply w_close; unfold close_forwarder; by rewrite Est|]. intros E. apply (f_equal stage) in E. cbn in E. congruence.
    + destruct (decide (serving f = ∅)) as [He|He].
      * eexists. split; [apply w_close; unfold close_forwarder; by rewrite Est, decide_True|]. intros E. apply (f_equal stage) in E. cbn in E. congruence.
      * apply set_choose_L in He as [c Hc]. eexists. split; [apply (w_served f c); unfold served; by rewrite decide_True|]. intros E. apply (f_equal serving) in E. cbn in E. set_solver.
Qed.

(** The two ends agree on what is asked and on the answer; a refusal keeps its reason. *)
Lemma tcp_setup_agrees id f m bad : 0 <= Port f < 2 ^ 63 ->
  decode_tcp_open (tcp_request f) = Some (mkTCPOpen (coerce (Host f)) (Port f)) /\
  forward_setup (Some (mkFrame id FlagSYN tcp_ack)) bad = Established /\
  forward_setup (Some (mkFrame id (Z.lor FlagSYN FlagFIN) (tcp_error m))) bad = SetupFailed (match coerce m with [] => $"error" | e => e end).
Proof.
  intros Hp. split_and!.
  - unfold decode_tcp_open, tcp_request. rewrite parse_print_json; [|repeat constructor|vm_compute; discriminate]. cbn [coerce_json map].
    generalize (coerce (Host f)) as h. intros h. set (j := JObject _).
    assert (field decode_int 0 $"port" j = decode_int 0 (JInt (Port f))) as ->.
    { destruct (decode_int 0 (JInt (Port f))) as [v ok] eqn:E. unfold field, j. cbn [foldl map].
      change (names $"port" (coerce $"type")) with false. cbv beta iota. change (names $"port" (coerce $"host")) with false. cbv beta iota.
      change (names $"port" (coerce $"port")) with true. change (coerce_json (JInt (Port f))) with (JInt (Port f)). cbv beta iota. by rewrite E. }
    assert (field decode_string [] $"type" j = ($"tcp", true)) as -> by reflexivity. assert (field decode_string [] $"host" j = (h, true)) as -> by reflexivity.
    unfold decode_int, JInt. rewrite parse_signed_print. unfold between. settle (- 2 ^ 63 <=? Port f) true. settle (Port f <=? 2 ^ 63 - 1) true. done.
  - unfold forward_setup. cbn [Flags Payload]. by vm_compute.
  - unfold forward_setup. set (fr := mkFrame _ _ _). change (negb (IsSYN fr)) with false. change (IsFIN fr) with true. cbv iota. change (Payload fr) with (tcp_error m).
    unfold tcpStatus, tcp_error. rewrite parse_print_json; [|repeat constructor|vm_compute; discriminate]. cbn [coerce_json map]. generalize (coerce m) as e. intros e. by destruct e.
Qed.

(** * Witnesses *)

Definition db : Forward := mkForward 15432 $"db" 5432.

(** A link that permits one target; a stream to it is opened and connected, and one elsewhere refused. *)
Definition tcp_open : TCPHandler := OnSYN (NewTCP [mkEntry $"db" 5432]) 3 (tcp_request db) false [] (fun _ => []).
Definition tcp_connected : TCPHandler := default tcp_open (dialed tcp_open 0 None).
Definition tcp_refused : TCPHandler := OnSYN tcp_connected 5 (tcp_request (mkForward 1 $"db" 22)) false [] (fun _ => []).

Lemma tcp_streams_exact_witness : active tcp_refused = 1 /\ streams tcp_refused !! 3 = Some 0%nat /\ streams tcp_refused !! 5 = None.
Proof.
  assert (steps (tcp_step short_writes) (NewTCP [mkEntry $"db" 5432]) tcp_refused) as Hs.
  { apply (steps_cons _ _ tcp_open); [apply t_syn|]. apply (steps_cons _ _ tcp_connected); [apply (t_dialed _ tcp_open 0 None); vm_compute; reflexivity|]. apply steps_one, t_syn. }
  destruct (tcp_streams_exact _ _ _ Hs) as (-> & _). by vm_compute.
Defined.

Definition two_reads : list read := [Chunk $"select"; Chunk []; Last $" 1" true].

Lemma tcp_relay_faithful_witness : receiveTCP short_writes (map (arrives 3) (Pump never two_reads).1) [] = ($"select 1", true, true).
Proof.
  destruct (tcp_relay_faithful short_writes two_reads 3 9) as (w & _ & Hall & Hr & _); [apply short_writes_honest|done|].
  rewrite Hall in Hr by by vm_compute. rewrite take_ge in Hr by (vm_compute; lia). exact Hr.
Defined.

Lemma forward_round_trip_witness : parseLocalForward $"8080:[::1]:80" = Ok (mkForward 8080 $"::1" 80).
Proof. apply (proj2 forward_round_trip (mkForward 8080 $"::1" 80)); [cbn; lia|split; apply (proj1 (bool_decide_eq_true (_ ∉ _))); by vm_compute|by vm_compute]. Defined.
