(* ===== verification/ForwardConn.v ===== *)
(** One connection of a local forward (internal/client/tcp.go: [LocalForwarder.forward] with [Pump] and [receiveTCP]),
    from the accepted socket to its end. The forwarder around it, which accepts and closes connections, and the answer
    of the listener are in TcpForward.v.

    The goroutine itself, its two pumps, its watcher, the session that delivers frames and the forwarder that stops are
    interleaved; [seen] and [heard] keep what was read from the socket and taken from the stream. *)

From S2P Require Import Prelude GoLib Protocol TcpForward.

(** Where [forward] is, and where a pump is. *)
Inductive forward_at := Opening | Awaiting | Relaying | Over (why : option bytes).
Inductive pump_at := Running | Ended (ok : bool).

(** [canceled]: the context of the connection; [stopping]: the forwarder's. [finished]: the channel [done]. *)
Record connection := mkConnection {
  stage : forward_at; canceled : bool; stopping : bool; inbox : list Frame; inbox_closed : bool;
  wire : list sent; stream_closed : bool; socket_closed : bool;
  up : pump_at; seen : list bytes; down : pump_at; heard : list Frame; written : bytes; write_closed : bool;
  finished : list bool; collected : nat
}.

#[export] Instance eta_connection : Eta connection := fun c =>
  mkConnection (stage c) (canceled c) (stopping c) (inbox c) (inbox_closed c) (wire c) (stream_closed c) (socket_closed c) (up c) (seen c)
    (down c) (heard c) (written c) (write_closed c) (finished c) (collected c).

Definition accepted : connection := mkConnection Opening false false [] false [] false false Running [] Running [] [] false [] 0.

(** [ctx.Err() != nil] *)
Definition ended (c : connection) : bool := stopping c || canceled c.

Definition frame_data (f : sent) : bytes := match f with DAT d => d | FIN => [] end.

(** A write to the stream, which [taken] says it takes if it is not closed. *)
Definition put (f : sent) (taken : bool) (c : connection) : connection * bool :=
  if taken && negb (stream_closed c) then (c <| wire := wire c ++ [f] |>, true) else (c, false).

(** The return of [forward], with what it deferred. *)
Definition leave (why : option bytes) (c : connection) : connection :=
  c <| stage := Over why |> <| canceled := true |> <| stream_closed := true |> <| socket_closed := true |>.

(** A return before the connection is established. *)
Definition abandon (why : bytes) (fin : bool) (c : connection) : connection := leave (Some why) (put FIN fin c).1.

(** The frame of the answer, if the forwarder has not stopped. *)
Definition await (stop fin : bool) (c : connection) : option connection :=
  if stop then if stopping c then Some (abandon $"context canceled" fin c) else None
  else match inbox c with
       | [] => if inbox_closed c then Some (abandon $"stream closed before tcp response" fin c) else None
       | f :: rest =>
         let c := c <| inbox := rest |> in
         Some match forward_setup (Some f) $"invalid" with
              | Established => c <| stage := Relaying |>
              | SetupFailed why => abandon why fin c
              end
       end.

Definition up_over (ok : bool) (c : connection) : connection := c <| up := Ended ok |> <| finished := finished c ++ [ok] |>.
Definition down_over (ok : bool) (c : connection) : connection := c <| down := Ended ok |> <| finished := finished c ++ [ok] |>.

(** A turn of [Pump]: what a read gives, and whether the stream takes the data and the FIN. *)
Definition pump_turn (r : read) (data_taken fin_taken : bool) (c : connection) : connection :=
  let after (d : bytes) (k : connection -> connection) :=
    match d with
    | [] => k c
    | _ => if ended c then up_over false c else
           let '(c', ok) := put (DAT d) data_taken (c <| seen := seen c ++ [d] |>) in if ok then k c' else up_over false c'
    end in
  match r with
  | Canceled => if ended c then up_over false c else c
  | Chunk d => after d (fun c => c)
  | Last d eof => after d (fun c => if ended c then up_over false c else let '(c', ok) := put FIN fin_taken c in up_over (eof && ok) c')
  end.

(** A turn of [receiveTCP]; [room]: how many bytes the socket takes of a frame before it fails, or [None] for all. *)
Definition receive_turn (stop closes : bool) (room : option nat) (c : connection) : option connection :=
  if stop then if ended c then Some (down_over false c) else None
  else match inbox c with
       | [] => if inbox_closed c then Some (down_over false c) else None
       | f :: rest =>
         let c := c <| inbox := rest |> <| heard := heard c ++ [f] |> in
         Some (if IsFIN f then down_over closes (c <| write_closed := closes |>)
               else if IsSYN f || bool_decide (Payload f = []) then c
               else match room with
                    | None => c <| written := written c ++ Payload f |>
                    | Some n => down_over false (c <| written := written c ++ take n (Payload f) |>)
                    end)
       end.

(** [forward] takes the result of a pump. *)
Definition collect (c : connection) : option connection :=
  match finished c with
  | [] => None
  | ok :: rest =>
    let c := c <| finished := rest |> <| collected := S (collected c) |> in
    let c := if negb ok && negb (ended c) then c <| canceled := true |> <| socket_closed := true |> else c in
    Some (if decide (collected c = 2%nat) then leave None c else c)
  end.

(** The events: the session delivers a frame or closes the inbox, the forwarder stops, and the goroutines take turns. *)
Inductive event :=
| Delivers (f : Frame) | InboxCloses | Stops
| Opens (taken fin : bool) | Awaits (stop fin : bool)
| Pumps (r : read) (data_taken fin_taken : bool) | Receives (stop closes : bool) (room : option nat)
| Collects | Watches.

Definition exec (e : event) (c : connection) : option connection :=
  match e, stage c with
  | Delivers f, _ => if inbox_closed c then None else Some (c <| inbox := inbox c ++ [f] |>)
  | InboxCloses, _ => Some (c <| inbox_closed := true |>)
  | Stops, _ => Some (c <| stopping := true |>)
  | Opens taken fin, Opening => Some (if taken then c <| stage := Awaiting |> else abandon $"open stream" fin c)
  | Awaits stop fin, Awaiting => await stop fin c
  | Pumps r d f, Relaying => match up c with Running => Some (pump_turn r d f c) | Ended _ => None end
  | Receives stop closes room, Relaying => match down c with Running => receive_turn stop closes room c | Ended _ => None end
  | Collects, Relaying => collect c
  | Watches, Relaying => if ended c then Some (c <| stream_closed := true |> <| socket_closed := true |>) else None
  | _, _ => None
  end.

Fixpoint run (es : list event) (c : connection) : option connection :=
  match es with [] => Some c | e :: es => match exec e c with Some c' => run es c' | None => None end end.

(** * What the two sides get *)

(** The bytes of frames that are written to the socket. *)
Definition frame_bytes (f : Frame) : bytes := if IsFIN f || IsSYN f then [] else Payload f.
Definition relayed (fs : list Frame) : bytes := concat (map frame_bytes fs).
#[local] Arguments relayed : simpl never.

(** The stream has got the beginning of what was read, and all of it with its end if the pump went well. *)
Definition up_ok (c : connection) : Prop :=
  match up c with
  | Running => wire c = map DAT (seen c)
  | Ended ok => exists ds rest fin, seen c = ds ++ rest /\ wire c = map DAT ds ++ fin /\ (fin = [] \/ fin = [FIN]) /\ (ok = true -> rest = [] /\ fin = [FIN])
  end.

(** The socket has got the beginning of what was sent, and all of it with its end if the pump went well. *)
Definition down_ok (c : connection) : Prop :=
  match down c with
  | Running => written c = relayed (heard c) /\ Forall (fun f => IsFIN f = false) (heard c)
  | Ended ok => written c `prefix_of` relayed (heard c) /\
      (ok = true -> written c = relayed (heard c) /\ write_closed c = true /\ exists fs f, heard c = fs ++ [f] /\ IsFIN f = true /\ Forall (fun f => IsFIN f = false) fs)
  end.

Definition over_count (p : pump_at) : nat := match p with Running => 0 | Ended _ => 1 end.
Definition went_wrong (c : connection) : Prop := up c = Ended false \/ down c = Ended false.

(** A connection that no data has passed. *)
Definition untouched (c : connection) : Prop :=
  up c = Running /\ down c = Running /\ seen c = [] /\ heard c = [] /\ written c = [].

Definition all_closed (c : connection) : Prop := stream_closed c = true /\ socket_closed c = true.

Record relaying (c : connection) : Prop := {
  rel_up : up_ok c; rel_down : down_ok c;
  rel_count : (over_count (up c) + over_count (down c) = length (finished c) + collected c)%nat;
  rel_pending : (collected c < 2)%nat;
  rel_bad : (false ∈ finished c \/ canceled c = true) -> went_wrong c;
  rel_closed : (stream_closed c = true \/ socket_closed c = true) -> ended c = true }.

Definition forward_inv (c : connection) : Prop :=
  match stage c with
  | Opening | Awaiting => untouched c /\ wire c = [] /\ finished c = [] /\ collected c = 0%nat /\ canceled c = false /\ stream_closed c = false /\ socket_closed c = false
  | Relaying => relaying c
  | Over None => up_ok c /\ down_ok c /\ over_count (up c) = 1%nat /\ over_count (down c) = 1%nat /\ all_closed c
  | Over (Some _) => untouched c /\ wire c `prefix_of` [FIN] /\ all_closed c
  end.

Lemma relayed_snoc fs f : relayed (fs ++ [f]) = relayed fs ++ frame_bytes f.
Proof. unfold relayed. rewrite map_app, concat_app. cbn. by rewrite app_nil_r. Qed.

Lemma abandon_inv why fin c : untouched c -> wire c = [] -> forward_inv (abandon why fin c).
Proof.
  intros Hu Hw. unfold abandon, put. destruct (fin && negb (stream_closed c)); cbn; (split; [exact Hu|]); rewrite Hw; (split; [|done]).
  - done.
  - by exists [FIN].
Qed.

(** The two states differ at most in what passed upwards. *)
Definition same_but_up (c c' : connection) : Prop :=
  stage c' = Relaying /\ down c' = down c /\ heard c' = heard c /\ written c' = written c /\ write_closed c' = write_closed c /\
  finished c' = finished c /\ collected c' = collected c /\ canceled c' = canceled c /\ stopping c' = stopping c /\
  stream_closed c' = stream_closed c /\ socket_closed c' = socket_closed c.

Lemma up_over_inv ok c c' : relaying c -> up c = Running -> same_but_up c c' -> up_ok (up_over ok c') -> forward_inv (up_over ok c').
Proof.
  intros [Hu Hd Hn Hp Hb Hc] Hr (E1 & E2 & E3 & E4 & E5 & E6 & E7 & E8 & E9 & E10 & E11) Hok.
  rewrite Hr in Hn. cbn [over_count] in Hn. unfold forward_inv. cbn [up_over stage]. cbn. rewrite E1. split.
  - exact Hok.
  - unfold down_ok in *. cbn. rewrite E2, E3, E4, E5. exact Hd.
  - cbn. rewrite E2, E6, E7, length_app. cbn. lia.
  - cbn. rewrite E7. exact Hp.
  - cbn. rewrite E6, E8. unfold went_wrong. cbn. rewrite E2.
    assert (false ∈ finished c \/ canceled c = true -> down c = Ended false) as Hb'.
    { intros [H|H]%Hb; [by rewrite Hr in H|done]. }
    intros [[Hin|Hin]%elem_of_app|Hca]; [by right; auto| |by right; auto].
    apply list_elem_of_singleton in Hin as <-. by left.
  - cbn. rewrite E10, E11. unfold ended in *. cbn. rewrite E8, E9. exact Hc.
Qed.

Lemma pumped_inv r d f c : relaying c -> stage c = Relaying -> up c = Running -> forward_inv (pump_turn r d f c).
Proof.
  intros R Hs Hr. pose proof (rel_up _ R) as Hu. unfold up_ok in Hu. rewrite Hr in Hu.
  assert (forall ok c' ds rest fin, same_but_up c c' -> seen c' = ds ++ rest -> wire c' = map DAT ds ++ fin -> (fin = [] \/ fin = [FIN]) ->
    (ok = true -> rest = [] /\ fin = [FIN]) -> forward_inv (up_over ok c')) as Hover.
  { intros ok c' ds rest fin Hsame E1 E2 Hf Hok. eapply up_over_inv; [done|done|done|]. unfold up_ok. cbn. by exists ds, rest, fin. }
  (* the data of a read, then what follows it *)
  assert (forall c' (k : bool), same_but_up c c' -> up c' = Running -> wire c' = map DAT (seen c') ->
    forward_inv (if ended c' then up_over false c' else let '(c'', ok) := put FIN f c' in up_over (k && ok) c'')) as Hend.
  { intros c' k Hsame Hr' Hw. assert (wire c' = map DAT (seen c') ++ []) as Hw0 by by rewrite app_nil_r.
    assert (seen c' = seen c' ++ []) as Hs0 by by rewrite app_nil_r.
    destruct (ended c').
    - by eapply (Hover false c' (seen c') [] []); [..|by left|done].
    - unfold put. destruct (f && negb (stream_closed c')); cbn.
      + eapply (Hover _ _ (seen c') [] [FIN]); [done|done|cbn; by rewrite Hw|by right|done].
      + rewrite andb_false_r. by eapply (Hover false c' (seen c') [] []); [..|by left|done]. }
  assert (forall c', same_but_up c c' -> up c' = Running -> wire c' = map DAT (seen c') -> forward_inv c') as Hgo.
  { intros c' (E1 & E2 & E3 & E4 & E5 & E6 & E7 & E8 & E9 & E10 & E11) Hr' Hw. destruct R as [_ Hd Hn Hp Hb Hc].
    unfold forward_inv. rewrite E1. split.
    - unfold up_ok. by rewrite Hr'.
    - unfold down_ok in *. by rewrite E2, E3, E4, E5.
    - by rewrite Hr', E2, E6, E7, <- Hr.
    - by rewrite E7.
    - unfold went_wrong. by rewrite E6, E8, Hr', E2, <- Hr.
    - unfold ended. by rewrite E8, E9, E10, E11. }
  assert (same_but_up c c) as Hcc by (unfold same_but_up; tauto).
  assert (forall dd k, dd <> [] -> (forall c', same_but_up c c' -> up c' = Running -> wire c' = map DAT (seen c') -> forward_inv (k c')) ->
    forward_inv (if ended c then up_over false c else let '(c', ok) := put (DAT dd) d (c <| seen := seen c ++ [dd] |>) in if ok then k c' else up_over false c')) as Hdat.
  { intros dd k _ Hk. destruct (ended c).
    - eapply (Hover false c (seen c) [] []); [done|by rewrite app_nil_r|by rewrite app_nil_r|by left|done].
    - unfold put. destruct (d && negb (stream_closed (c <| seen := seen c ++ [dd] |>))).
      + apply Hk; [exact Hcc|exact Hr|]. cbn. by rewrite Hu, map_app.
      + eapply (Hover false _ (seen c) [dd] []); [exact Hcc|done|cbn; by rewrite app_nil_r|by left|done]. }
  destruct r as [dd|dd eof|]; cbn [pump_turn].
  - destruct dd as [|a dd]; [by apply Hgo|]. by apply (Hdat (a :: dd) (fun c => c)).
  - destruct dd as [|a dd]; [by apply Hend|].
    apply (Hdat (a :: dd) (fun c => if ended c then up_over false c else let '(c', ok) := put FIN f c in up_over (eof && ok) c')); [done|].
    intros c' H1 H2 H3. by apply Hend.
  - destruct (ended c); [|by apply Hgo].
    eapply (Hover false c (seen c) [] []); [done|by rewrite app_nil_r|by rewrite app_nil_r|by left|done].
Qed.

Lemma received_inv stop closes room c c' : relaying c -> stage c = Relaying -> down c = Running -> receive_turn stop closes room c = Some c' -> forward_inv c'.
Proof.
  intros R Hs Hr E. pose proof (rel_down _ R) as Hd. unfold down_ok in Hd. rewrite Hr in Hd. destruct Hd as [Hw HF].
  (* the pump ends, having written [w] of what it heard *)
  assert (forall ok i h w wc, w `prefix_of` relayed h ->
    (ok = true -> w = relayed h /\ wc = true /\ exists fs f, h = fs ++ [f] /\ IsFIN f = true /\ Forall (fun f => IsFIN f = false) fs) ->
    forward_inv (down_over ok (c <| inbox := i |> <| heard := h |> <| written := w |> <| write_closed := wc |>))) as Hover.
  { intros ok i h w wc Hp Hok. destruct R as [Hu _ Hn Hlt Hb Hc]. rewrite Hr in Hn. unfold forward_inv. cbn. rewrite Hs. split.
    - exact Hu.
    - by split.
    - cbn. rewrite length_app. cbn in *. lia.
    - exact Hlt.
    - unfold went_wrong. cbn. assert (false ∈ finished c \/ canceled c = true -> up c = Ended false) as Hb'.
      { intros [H|H]%Hb; [done|by rewrite Hr in H]. }
      intros [[Hin|Hin]%elem_of_app|Hca]; [by left; auto| |by left; auto].
      apply list_elem_of_singleton in Hin as <-. by right.
    - exact Hc. }
  assert (forall i h w, w = relayed h -> Forall (fun f => IsFIN f = false) h ->
    forward_inv (c <| inbox := i |> <| heard := h |> <| written := w |>)) as Hgo.
  { intros i h w E1 E2. destruct R as [Hu _ Hn Hlt Hb Hc]. unfold forward_inv. cbn. rewrite Hs.
    split; [exact Hu| |exact Hn|exact Hlt|exact Hb|exact Hc]. unfold down_ok. cbn. by rewrite Hr. }
  assert (forward_inv (down_over false c)) as Hbad.
  { destruct c. by apply (Hover false inbox0 heard0 written0 write_closed0); [cbn in *; subst|]. }
  unfold receive_turn in E. destruct stop; [destruct (ended c); [|done]; by injection E as <-|].
  destruct (inbox c) as [|f rest]; [destruct (inbox_closed c); [|done]; by injection E as <-|].
  cbn zeta in E. apply (inj Some) in E. subst c'. pose proof (relayed_snoc (heard c) f) as Hsn. unfold frame_bytes in Hsn.
  destruct (IsFIN f) eqn:Hf; cbn [orb] in Hsn.
  - destruct c. cbn in *. apply Hover.
    + by rewrite Hsn, app_nil_r, Hw.
    + intros ->. split_and!; [by rewrite Hsn, app_nil_r, Hw|done|by exists heard0, f].
  - assert (Forall (fun f => IsFIN f = false) (heard c ++ [f])) as HF' by (apply Forall_app; auto).
    destruct (IsSYN f); cbn [orb].
    + destruct c. cbn in *. by apply Hgo; [rewrite Hsn, app_nil_r|].
    + case_bool_decide as He.
      * destruct c. cbn in *. by apply Hgo; [rewrite Hsn, He, app_nil_r|].
      * destruct room as [n|].
        -- destruct c. cbn in *. apply Hover; [|done]. rewrite Hsn, Hw. apply prefix_app, prefix_take.
        -- by apply Hgo; [cbn; rewrite Hsn, Hw|].
Qed.

Lemma collected_inv c c' : relaying c -> stage c = Relaying -> collect c = Some c' -> forward_inv c'.
Proof.
  intros [Hu Hd Hn Hp Hb Hc] Hs E. unfold collect in E. destruct (finished c) as [|ok rest] eqn:Ef; [done|]. cbn zeta in E.
  apply (inj Some) in E. subst c'. cbn [length] in Hn.
  set (c1 := if negb ok && negb _ then _ else _).
  assert (stage c1 = Relaying /\ up c1 = up c /\ down c1 = down c /\ finished c1 = rest /\ collected c1 = S (collected c) /\
    up_ok c1 /\ down_ok c1 /\ (canceled c1 = true -> ok = false \/ canceled c = true) /\
    (stream_closed c1 = true \/ socket_closed c1 = true -> ended c1 = true)) as (E1 & E2 & E3 & E4 & E5 & Hu' & Hd' & Hk & Hc').
  { subst c1. destruct ok; cbn [negb andb].
    - cbn. split_and!; auto.
    - destruct (negb (ended _)); cbn; split_and!; auto. unfold ended. cbn. by rewrite orb_true_r. }
  clearbody c1. rewrite E5. destruct (decide (S (collected c) = 2%nat)) as [Hd2|Hd2].
  - unfold leave, forward_inv. cbn. assert (over_count (up c) <= 1 /\ over_count (down c) <= 1)%nat as [? ?] by (destruct (up c), (down c); cbn; lia).
    unfold up_ok, down_ok, all_closed in *. cbn. rewrite E2, E3 in *. split_and!; [exact Hu'|exact Hd'|lia|lia|done|done].
  - unfold forward_inv. rewrite E1. split; [exact Hu'|exact Hd'|rewrite E2, E3, E4, E5; cbn in *; lia|lia| |exact Hc'].
    unfold went_wrong. rewrite E2, E3, E4. intros [Hin|Hca]; apply Hb; [left; by right|].
    destruct (Hk Hca) as [->|]; [left; by left|by right].
Qed.

Lemma forward_exec_inv e c c' : forward_inv c -> exec e c = Some c' -> forward_inv c'.
Proof.
  intros H E. unfold forward_inv in H.
  assert (forall i b s, forward_inv (c <| inbox := i |> <| inbox_closed := b |> <| stopping := stopping c || s |>)) as Hout.
  { intros i b s. unfold forward_inv. cbn. destruct (stage c) as [| | |[w|]]; try exact H. destruct H as [Hu Hd Hn Hp Hb Hc].
    split; [exact Hu|exact Hd|exact Hn|exact Hp|exact Hb|]. unfold ended. cbn. intros Hcl%Hc. unfold ended in Hcl.
    by destruct (stopping c), s, (canceled c). }
  destruct e; cbn [exec] in E.
  - destruct (inbox_closed c) eqn:Hic; [done|]. injection E as <-. specialize (Hout (inbox c ++ [f]) false false). rewrite orb_false_r in Hout.
    destruct c. cbn in *. by subst.
  - injection E as <-. specialize (Hout (inbox c) true false). rewrite orb_false_r in Hout. by destruct c.
  - injection E as <-. specialize (Hout (inbox c) (inbox_closed c) true). rewrite orb_true_r in Hout. by destruct c.
  - destruct (stage c) eqn:Hs; try done. injection E as <-. destruct H as (Hu & Hw & H). destruct taken; [|by apply abandon_inv].
    unfold forward_inv. by cbn.
  - destruct (stage c) eqn:Hs; try done. destruct H as (Hu & Hw & H1 & H2 & H3 & H4 & H5). unfold await in E. destruct stop.
    + destruct (stopping c); [|done]. injection E as <-. by apply abandon_inv.
    + destruct (inbox c) as [|f rest]; [destruct (inbox_closed c); [|done]; injection E as <-; by apply abandon_inv|].
      cbn zeta in E. apply (inj Some) in E. subst c'. destruct (forward_setup _ _); [|by apply abandon_inv].
      destruct Hu as (U1 & U2 & U3 & U4 & U5). unfold forward_inv. cbn. split; unfold up_ok, down_ok, went_wrong; cbn.
      * by rewrite U1, U3.
      * rewrite U2, U4, U5. by split.
      * by rewrite U1, U2, H1, H2.
      * rewrite H2. lia.
      * rewrite H1, H3. intros [Hin|]; [|done]. by apply elem_of_nil in Hin.
      * rewrite H4, H5. by intros [|].
  - destruct (stage c) eqn:Hs; try done. destruct (up c) eqn:Hr; [|done]. injection E as <-. by apply pumped_inv.
  - destruct (stage c) eqn:Hs; try done. destruct (down c) eqn:Hr; [|done]. by eapply received_inv.
  - destruct (stage c) eqn:Hs; try done. by eapply collected_inv.
  - destruct (stage c) eqn:Hs; try done. destruct (ended c) eqn:He; [|done]. injection E as <-. destruct H as [Hu Hd Hn Hp Hb Hc].
    unfold forward_inv. cbn. rewrite Hs. by split.
Qed.

Lemma forward_run_inv es : forall c c', forward_inv c -> run es c = Some c' -> forward_inv c'.
Proof.
  induction es as [|e es IH]; intros c c' H E; cbn [run] in E; [by injection E as <-|].
  destruct (exec e c) as [c1|] eqn:E1; [|done]. eapply IH; [|exact E]. by eapply forward_exec_inv.
Qed.

Lemma accepted_inv : forward_inv accepted.
Proof. unfold forward_inv, accepted, untouched. cbn. by split_and!. Qed.

(** * How a connection ends *)

(** A run from its first events to a return. *)
Lemma forward_run_app es1 es2 c : run (es1 ++ es2) c = match run es1 c with Some c' => run es2 c' | None => None end.
Proof. revert c. induction es1 as [|e es1 IH]; intros c; cbn; [done|]. destruct (exec e c); [apply IH|done]. Qed.

Lemma collects_finish c : stage c = Relaying -> relaying c -> over_count (up c) = 1%nat -> over_count (down c) = 1%nat ->
  exists es c', run es c = Some c' /\ stage c' = Over None.
Proof.
  intros Hs R H1 H2. pose proof (rel_count _ R) as Hn. pose proof (rel_pending _ R) as Hp. rewrite H1, H2 in Hn.
  assert (forall c ok, finished c = [ok] -> stage c = Relaying -> collected c = 1%nat -> exists c', run [Collects] c = Some c' /\ stage c' = Over None) as Hone.
  { clear. intros c ok E Hs Hc. cbn [run exec]. rewrite Hs. unfold collect. rewrite E. cbn zeta. eexists. split; [reflexivity|].
    destruct (negb ok && negb _); cbn; by rewrite Hc. }
  destruct (finished c) as [|a [|b [|]]] eqn:Ef; cbn [length] in Hn; try lia.
  - destruct (Hone c a Ef Hs) as (c' & E & E'); [lia|]. by exists [Collects], c'.
  - destruct (exec Collects c) as [c1|] eqn:E1; [|by cbn in E1; rewrite Hs in E1; unfold collect in E1; rewrite Ef in E1].
    assert (finished c1 = [b] /\ stage c1 = Relaying /\ collected c1 = 1%nat) as (F1 & F2 & F3).
    { cbn in E1. rewrite Hs in E1. unfold collect in E1. rewrite Ef in E1. cbn zeta in E1. apply (inj Some) in E1. subst c1.
      assert (collected c = 0)%nat as H0 by lia. destruct (negb a && negb _); cbn; rewrite H0; cbn; by rewrite Hs. }
    destruct (Hone c1 b F1 F2 F3) as (c' & E & E'). exists [Collects; Collects], c'. split; [|done]. change (run [Collects; Collects] c) with
      (match exec Collects c with Some c1 => run [Collects] c1 | None => None end). by rewrite E1.
Qed.

(** A connection that is canceled, or whose pumps are over, can return: nothing it waits for can keep it. *)
Lemma forward_returns c : stage c = Relaying -> relaying c -> ended c = true \/ (over_count (up c) = 1 /\ over_count (down c) = 1)%nat ->
  exists es c', run es c = Some c' /\ stage c' = Over None.
Proof.
  intros Hs R [He|[H1 H2]]; [|by apply collects_finish].
  assert (exists c1, run (match up c with Running => [Pumps Canceled true true] | Ended _ => [] end) c = Some c1 /\ stage c1 = Relaying /\ relaying c1 /\
    ended c1 = true /\ over_count (up c1) = 1%nat) as (c1 & E1 & Hs1 & R1 & He1 & Hu1).
  { destruct (up c) eqn:Hr; [|exists c; by rewrite Hr].
    eexists. cbn [run exec]. rewrite Hs, Hr. cbn [pump_turn]. rewrite He. split; [reflexivity|].
    pose proof (pumped_inv Canceled true true c R Hs Hr) as Hi. cbn [pump_turn] in Hi. rewrite He in Hi.
    unfold forward_inv in Hi. cbn [up_over stage] in Hi. cbn in Hi. rewrite Hs in Hi. by cbn. }
  assert (exists c2, run (match down c1 with Running => [Receives true true None] | Ended _ => [] end) c1 = Some c2 /\ stage c2 = Relaying /\ relaying c2 /\
    over_count (up c2) = 1%nat /\ over_count (down c2) = 1%nat) as (c2 & E2 & Hs2 & R2 & Hu2 & Hd2).
  { destruct (down c1) eqn:Hr; [|exists c1; by rewrite Hr].
    assert (receive_turn true true None c1 = Some (down_over false c1)) as E by (unfold receive_turn; by rewrite He1).
    exists (down_over false c1). cbn [run exec]. rewrite Hs1, Hr, E. split; [done|].
    pose proof (received_inv true true None c1 _ R1 Hs1 Hr E) as Hi. unfold forward_inv in Hi. cbn in Hi. rewrite Hs1 in Hi. by cbn. }
  destruct (collects_finish c2 Hs2 R2 Hu2 Hd2) as (es & c' & E3 & Hend).
  eexists _, c'. split; [|exact Hend]. rewrite forward_run_app, E1, forward_run_app, E2. exact E3.
Qed.

Lemma data_of_wire ds : concat (map frame_data (map DAT ds)) = concat ds.
Proof. by induction ds as [|d ds IH]; cbn; [|rewrite IH]. Qed.

Lemma data_of_end fin : (fin = [] \/ fin = [FIN]) -> concat (map frame_data fin) = [].
Proof. by intros [-> | ->]. Qed.

(** However a forwarded connection is scheduled, the stream gets the beginning of what the local program wrote, and the
    local program the beginning of what the device sent; a direction that ends well has passed everything, and passes
    its end; one direction ending well closes neither the socket nor the stream, which are closed only when the
    connection is over or is canceled, by the forwarder or as a direction failed; a connection that is over has closed
    both; and one that is canceled, or has both directions ended, can always come to its end. *)
Theorem forward_faithful es c : run es accepted = Some c ->
  concat (map frame_data (wire c)) `prefix_of` concat (seen c) /\ written c `prefix_of` relayed (heard c) /\
  (up c = Ended true -> wire c = map DAT (seen c) ++ [FIN]) /\
  (down c = Ended true -> written c = relayed (heard c) /\ write_closed c = true) /\
  (stream_closed c = true \/ socket_closed c = true -> stopping c = true \/ went_wrong c \/ exists why, stage c = Over why) /\
  ((exists why, stage c = Over why) -> all_closed c) /\
  (stage c = Relaying -> ended c = true \/ (over_count (up c) = 1 /\ over_count (down c) = 1)%nat ->
    exists es' c', run es' c = Some c' /\ stage c' = Over None).
Proof.
  intros E. pose proof (forward_run_inv es _ _ accepted_inv E) as H.
  assert (forall P : Prop, untouched c /\ wire c `prefix_of` [FIN] -> P -> (concat (map frame_data (wire c)) `prefix_of` concat (seen c) /\ written c `prefix_of` relayed (heard c) /\
    (up c = Ended true -> wire c = map DAT (seen c) ++ [FIN]) /\ (down c = Ended true -> written c = relayed (heard c) /\ write_closed c = true) /\ P)) as Hun.
  { intros P [(U1 & U2 & U3 & U4 & U5) Hw] HP. rewrite U1, U2, U3, U4, U5. split_and!; [|done|done|done|exact HP].
    destruct Hw as [k Hk]. destruct (wire c) as [|w [|]]; cbn in Hk; [done| |done]. by injection Hk as <- _. }
  assert (forall P : Prop, up_ok c -> down_ok c -> P -> (concat (map frame_data (wire c)) `prefix_of` concat (seen c) /\ written c `prefix_of` relayed (heard c) /\
    (up c = Ended true -> wire c = map DAT (seen c) ++ [FIN]) /\ (down c = Ended true -> written c = relayed (heard c) /\ write_closed c = true) /\ P)) as Hok.
  { intros P Hu Hd HP. unfold up_ok, down_ok in *. split_and!; [| | | |exact HP].
    - destruct (up c); [rewrite Hu, data_of_wire; done|]. destruct Hu as (ds & rest & fin & E1 & E2 & Hf & _).
      rewrite E1, E2, map_app, !concat_app, data_of_wire, (data_of_end fin Hf), app_nil_r. by eexists.
    - destruct (down c); [by destruct Hd as [-> _]|by destruct Hd].
    - intros Hr. rewrite Hr in Hu. destruct Hu as (ds & rest & fin & E1 & E2 & _ & Hl). destruct (Hl eq_refl) as [-> ->].
      by rewrite E1, app_nil_r.
    - intros Hr. rewrite Hr in Hd. destruct Hd as [_ Hl]. by destruct (Hl eq_refl) as (? & ? & _). }
  unfold forward_inv in H. destruct (stage c) as [| | |[w|]] eqn:Hs.
  - destruct H as (Hu & Hw & _ & _ & _ & C1 & C2). apply Hun; [split; [done|rewrite Hw; apply prefix_nil]|]. rewrite C1, C2. split_and!; [by intros [|]|by intros [? [=]]|done].
  - destruct H as (Hu & Hw & _ & _ & _ & C1 & C2). apply Hun; [split; [done|rewrite Hw; apply prefix_nil]|]. rewrite C1, C2. split_and!; [by intros [|]|by intros [? [=]]|done].
  - apply Hok; [by apply rel_up|by apply rel_down|]. split_and!; [|by intros [? [=]]|].
    + intros Hc%(rel_closed _ H). unfold ended in Hc. apply orb_prop in Hc as [Hc|Hc]; [by left|]. right. left. apply (rel_bad _ H). by right.
    + intros _ He. by apply forward_returns.
  - destruct H as (Hu & Hw & Hc). apply Hun; [by split|]. split_and!; [intros _; right; right; by eexists|done|done].
  - destruct H as (Hu & Hd & H1 & H2 & Hc). apply Hok; [done|done|]. split_and!; [intros _; right; right; by eexists|done|done].
Qed.

(** A connection through a forward, whose request ends before its answer does. *)
Definition paper_answer : Frame := mkFrame 1 FlagSYN tcp_ack.
Lemma forward_faithful_witness : exists c,
  run [Opens true true; Delivers paper_answer; Awaits false true; Pumps (Last $"get" true) true true; Delivers (mkFrame 1 0 $"page"); Collects;
       Receives false true None; Delivers (mkFrame 1 FlagFIN []); Receives false true None; Collects] accepted = Some c /\
  wire c = [DAT $"get"; FIN] /\ written c = $"page" /\ all_closed c.
Proof.
  assert (exists c, run [Opens true true; Delivers paper_answer; Awaits false true; Pumps (Last $"get" true) true true; Delivers (mkFrame 1 0 $"page"); Collects;
       Receives false true None; Delivers (mkFrame 1 FlagFIN []); Receives false true None; Collects] accepted = Some c /\
    wire c = [DAT $"get"; FIN] /\ stage c = Over None /\ up c = Ended true /\ down c = Ended true /\ written c = $"page") as (c & E & E1 & E2 & E3 & E4 & E5).
  { eexists. vm_compute. split_and!; reflexivity. }
  exists c. pose proof (forward_faithful _ c E) as (_ & _ & _ & _ & _ & Hc & _). split_and!; [exact E|exact E1|exact E5|]. apply Hc. by exists None.
Defined.
