(* ===== verification/GoHttp.v ===== *)
(** The part of Go's net/url and net/http.ServeMux the listener's browser front-end relies on: the escaped
    form of a path, path cleaning, and the matching of subtree patterns. *)

From S2P Require Import Prelude GoLib Json GoNet.

(** * Paths of URLs *)

(** A request URL, as far as its path goes: [RawPath] is empty when the default encoding is the one used. *)
Record URL := mkURL { Path : bytes; RawPath : bytes }.

Definition alnum (c : ascii) : bool := is_digit c || between 65 90 (code c) || between 97 122 (code c).

(** [shouldEscape] in a path. *)
Definition shouldEscape (c : ascii) : bool := negb (alnum c || bool_decide (c ∈ $"-_.~$&+,/:;=@")).

Fixpoint escape (s : bytes) : bytes :=
  match s with
  | [] => []
  | c :: r =>
    (if shouldEscape c then ["%"%char; upper_char (to_hex (code c / 16)); upper_char (to_hex (code c mod 16))] else [c])
      ++ escape r
  end.

(** [url.PathUnescape]. *)
Fixpoint unescape (s : bytes) : option bytes :=
  match s with
  | [] => Some []
  | "%"%char :: r =>
    match r with
    | a :: b :: r' =>
      match hex_digit a, hex_digit b with
      | Some x, Some y => (fun t => chr (x * 16 + y) :: t) <$> unescape r'
      | _, _ => None
      end
    | _ => None
    end
  | c :: r => (fun t => c :: t) <$> unescape r
  end.

Definition validEncoded (s : bytes) : bool :=
  forallb (fun c => bool_decide (c ∈ $"!$&'()*+,;=:@[]%") || negb (shouldEscape c)) s.

Definition EscapedPath (u : URL) : bytes :=
  if bool_decide (RawPath u <> []) && validEncoded (RawPath u) && bool_decide (unescape (RawPath u) = Some (Path u))
  then RawPath u
  else if decide (Path u = $"*") then $"*" else escape (Path u).

(** * ServeMux *)

(** [cleanPath]: a trailing slash stays. *)
Definition cleanPath (p : bytes) : bytes :=
  match p with
  | [] => [slash]
  | _ =>
    let p := if rooted p then p else slash :: p in
    let np := Clean p in
    if HasSuffix p [slash] && negb (bool_decide (np = [slash])) then np ++ [slash] else np
  end.

(** What a mux finds: the pattern "/name/" of a registered name, the pattern "/", nothing, or a redirect. *)
Inductive muxed := Mount (name : bytes) | Root | NoMatch | Redirect (path : bytes).

(** Where the path goes: its first segment, unescaped, and whether more follows. *)
Definition first_segment (path : bytes) : bytes * bool :=
  match Split (drop 1 path) slash with
  | [] => ([], false)
  | seg :: rest => (default seg (unescape seg), negb (bool_decide (rest = [])))
  end.

(** The match of the routing tree: a path "/name" without what follows is left to "/". *)
Definition tree_match (names : list bytes) (path : bytes) : muxed :=
  match path with
  | [] => NoMatch
  | _ => let '(seg, more) := first_segment path in
         if more && bool_decide (seg ∈ names) then Mount seg else Root
  end.

(** A path without its trailing slash is redirected when the rest of a pattern would match nothing else of it. *)
Definition wants_slash (names : list bytes) (path : bytes) : bool :=
  negb (HasSuffix path [slash]) &&
  match tree_match names (path ++ [slash]) with
  | Mount _ => Count (path ++ [slash]) slash =? 2
  | Root => Count (path ++ [slash]) slash =? 1
  | _ => false
  end.

(** [ServeMux.findHandler] with the patterns "/" and "/name/" for each name: a CONNECT request is matched as it is,
    any other by its cleaned path, and redirected to that when it differs. *)
Definition findHandler (names : list bytes) (connect : bool) (u : URL) : muxed :=
  let escaped := EscapedPath u in
  let path := if connect then escaped else cleanPath escaped in
  if wants_slash names path then Redirect (cleanPath (Path u) ++ [slash])
  else if negb connect && negb (bool_decide (path = escaped)) then Redirect path
  else tree_match names path.

(** [http.StripPrefix]; [None] is its 404. *)
Definition StripPrefix (prefix : bytes) (u : URL) : option URL :=
  if decide (prefix = []) then Some u else
  if HasPrefix (Path u) prefix && (bool_decide (RawPath u = []) || HasPrefix (RawPath u) prefix)
  then Some (mkURL (TrimPrefix (Path u) prefix) (TrimPrefix (RawPath u) prefix))
  else None.

Example mux_samples :
  let names := [$"shell"; $"files"] in
  map (findHandler names false) [mkURL $"/files/a b" []; mkURL $"/files" []; mkURL $"//files" []; mkURL $"/filesystem/" [];
                                 mkURL $"/a/../files/x" []; mkURL $"/files/x" $"/%66iles/x"] =
  [Mount $"files"; Redirect $"/files/"; Redirect $"/files/"; Root; Redirect $"/files/x"; Mount $"files"].
Proof. vm_compute. reflexivity. Qed.

Example escape_samples :
  (escape $"/a b!", EscapedPath (mkURL $"/a!" $"/a!"), EscapedPath (mkURL $"/a!" $"/b!"), unescape $"%7eX%2", StripPrefix $"/files" (mkURL $"/files/x" $"/%66iles/x")) =
  ($"/a%20b%21", $"/a!", $"/a%21", None, None).
Proof. vm_compute. reflexivity. Qed.

(** A mux only finds what was registered. *)
Lemma tree_match_names names path n : tree_match names path = Mount n -> n ∈ names.
Proof. unfold tree_match. destruct path; [done|]. destruct (first_segment _) as [s m]. case_step; [|done]. intros [= <-]. by apply andb_prop in Heqb as [_ ?%bool_decide_eq_true]. Qed.

Lemma findHandler_names names connect u n : findHandler names connect u = Mount n -> n ∈ names.
Proof. unfold findHandler. destruct (wants_slash _ _); [done|]. case_step; [done|]. apply tree_match_names. Qed.

(** Bytes that need no escaping. *)
Definition plain (s : bytes) : Prop := Forall (fun c => shouldEscape c = false) s.

Lemma url_escape_plain s : plain s -> escape s = s.
Proof. induction 1 as [|c s Hc _ IH]; [done|]. cbn [escape]. rewrite Hc, IH. done. Qed.

Lemma unescape_plain s : plain s -> unescape s = Some s.
Proof.
  induction 1 as [|c s Hc _ IH]; [done|]. cbn [unescape].
  destruct (decide (c = "%"%char)) as [->|Hne]; [done|].
  rewrite IH. destruct c as [[] [] [] [] [] [] [] []]; try done; by destruct Hne.
Qed.

(** A canonical path below a registered name is found there, and handed on without the name. *)
Definition under (m rest : bytes) : URL := mkURL (slash :: m ++ slash :: rest) [].

Lemma slash_plain : shouldEscape slash = false.
Proof. by vm_compute. Qed.

Lemma EscapedPath_under m rest : plain m -> plain rest -> EscapedPath (under m rest) = Path (under m rest).
Proof.
  intros Hm Hr. unfold EscapedPath, under. cbn [RawPath Path]. rewrite bool_decide_false by naive_solver. cbn [andb].
  rewrite decide_False.
  - apply url_escape_plain. constructor; [apply slash_plain|]. apply Forall_app; split; [done|]. by constructor; [apply slash_plain|].
  - intros [= H _].
Qed.

Lemma Count_nonneg s c : 0 <= Count s c.
Proof. apply zlen_nonneg. Qed.

Lemma Count_cons_eq s c : Count (c :: s) c = 1 + Count s c.
Proof. unfold Count. rewrite filter_cons, decide_True by done. by rewrite zlen_cons. Qed.

Lemma tree_match_under names m rest : plain m -> slash ∉ m -> m ∈ names -> tree_match names (Path (under m rest)) = Mount m.
Proof.
  intros Hp Hs Hin. cbn [Path under]. unfold tree_match, first_segment.
  change (drop 1 (slash :: m ++ slash :: rest)) with (m ++ slash :: rest).
  rewrite Split_app_sep by done. rewrite unescape_plain by done. cbn [default].
  rewrite (bool_decide_false (Split rest slash = [])) by apply Split_nonempty. by rewrite bool_decide_true.
Qed.

Lemma findHandler_under names m rest :
  plain m -> slash ∉ m -> plain rest -> m ∈ names -> cleanPath (Path (under m rest)) = Path (under m rest) ->
  findHandler names false (under m rest) = Mount m.
Proof.
  intros Hm Hs Hr Hin Hc. unfold findHandler. rewrite EscapedPath_under, Hc by done. cbn [negb andb].
  rewrite (bool_decide_true (Path _ = Path _)) by done. cbn [negb].
  assert (wants_slash names (Path (under m rest)) = false) as ->; [|by apply tree_match_under].
  unfold wants_slash. cbn [Path under]. destruct (HasSuffix _ _) eqn:E; [done|]. cbn [negb andb].
  assert (3 <= Count ((slash :: m ++ slash :: rest) ++ [slash]) slash) as Hcount.
  { cbn [app]. rewrite Count_cons_eq, !Count_app, !Count_cons_eq. pose proof (Count_nonneg m slash). pose proof (Count_nonneg rest slash).
    pose proof (Count_nonneg [] slash). lia. }
  destruct (tree_match _ _); try done; apply Z.eqb_neq; lia.
Qed.

Lemma StripPrefix_under m rest : StripPrefix (slash :: m) (under m rest) = Some (mkURL (slash :: rest) []).
Proof.
  unfold StripPrefix, under. rewrite decide_False by done. cbn [Path RawPath].
  assert (HasPrefix (slash :: m ++ slash :: rest) (slash :: m) = true) as H by (apply HasPrefix_spec; eexists; done).
  unfold TrimPrefix. rewrite H. rewrite (bool_decide_true ([] = [])) by done. cbn [andb orb].
  assert (HasPrefix [] (slash :: m) = false) as -> by done. f_equal. f_equal.
  change (slash :: m ++ slash :: rest) with ((slash :: m) ++ slash :: rest). by rewrite drop_app_length.
Qed.
