(* ===== verification/Capability.v ===== *)
(** What one peer of [bitbang serve] gets: the listener's configuration, the table of capabilities, the stream
    handlers built for a grant and the browser front-end over them
    (cmd/bitbang/capability.go, serve_scope.go, http_dispatcher.go, serve_words.go, and [exposureNotice] and
    [resolveFSPath] of serve.go).

    The directory share of the listener is one object that every peer of the listener points at: shares live in a
    store and are named by reference. *)

From S2P Require Import Prelude GoLib Links Json Session Shell TcpForward GoNet GoHttp Allowlist Grant FileTree Fileshare Proxy.

(** * The listener's configuration *)

(** [serveConfig], the fields that decide what is served. *)
Record serveConfig := mkConfig {
  cfg_server : bytes;
  cfg_target : bytes;
  cfg_proxyClientIP : bool;
  cfg_offered : Spec;
  cfg_caps : gset scope;
  cfg_shellArgv : list bytes;
  cfg_shellMaxSessions : Z;
  cfg_disableShellMirror : bool;
  cfg_filesPath : bytes;
  cfg_filesUpload : bool
}.

#[export] Instance eta_serveConfig : Eta serveConfig := fun c =>
  mkConfig (cfg_server c) (cfg_target c) (cfg_proxyClientIP c) (cfg_offered c) (cfg_caps c) (cfg_shellArgv c)
    (cfg_shellMaxSessions c) (cfg_disableShellMirror c) (cfg_filesPath c) (cfg_filesUpload c).

Definition cfg_has (cfg : serveConfig) (s : scope) : bool := bool_decide (s ∈ cfg_caps cfg).

Definition defaultShellMaxSessions : Z := 10.

(** [applySpec]; an error names the word whose target is bad. *)
Definition applySpec (cfg : serveConfig) (spec : Spec) : result (scope * target_error) serveConfig :=
  let spec := match Caps spec with None => Everything | Some _ => spec end in
  let cfg := cfg <| cfg_offered := spec |> <| cfg_caps := Grant.caps spec |> <| cfg_shellArgv := ShellArgv spec |>
                 <| cfg_filesPath := FilesPath spec |> in
  let cfg := match ProxyTargets spec with [t] => cfg <| cfg_target := t |> | _ => cfg end in
  match Parse (ProxyTargets spec) with
  | Err e => Err (ScopeProxy, e)
  | Ok _ =>
    match Parse (ForwardTargets spec) with
    | Err e => Err (ScopeForward, e)
    | Ok _ => Ok cfg
    end
  end.

Definition flag_needs : list (bytes * scope) :=
  [($"shell-max-sessions", ScopeShell); ($"disable-shell-mirror", ScopeShell);
   ($"files-upload", ScopeFiles); ($"proxy-client-ip", ScopeProxy)].

(** The flags given that need a capability the listener does not serve; the process exits when there is one. *)
Definition rejectFlagsWithoutCapability (set : list bytes) (cfg : serveConfig) : list (bytes * scope) :=
  filter (fun '(name, s) => bool_decide (name ∈ set) && negb (cfg_has cfg s) = true) flag_needs.

(** [home]: the home directory, where the system knows one. *)
Definition resolveFSPath (cwd : bytes) (home : option bytes) (path : bytes) : option bytes :=
  if decide (path = $"~") then (fun h => Join h []) <$> home
  else if HasPrefix path $"~/" then (fun h => Join h (TrimPrefix (drop 1 path) $"/")) <$> home
  else Some (Abs cwd path).

Definition warning_line (bold what reset bound : bytes) : bytes :=
  bold ++ $"Warning: anyone with this URL " ++ what ++ $"." ++ reset ++ [chr 10] ++ $"  " ++ bound ++ [chr 10].

Definition exposureNotice (cfg : serveConfig) (pinned : bool) (bold reset : bytes) : bytes * bool :=
  if pinned then ($"PIN protection enabled." ++ [chr 10], false)
  else if cfg_has cfg ScopeShell then
    (warning_line bold $"gets a shell on this machine" reset
       $"Use --pin <PIN> for a second factor, or pick a non-shell mode.", true)
  else if cfg_has cfg ScopeForward && bool_decide (ForwardTargets (cfg_offered cfg) = []) then
    (warning_line bold $"can open a TCP connection to any host this machine can reach" reset
       $"Name targets after `forward` to bound it, or use --pin <PIN>.", true)
  else ([], false).

(** Every request goes straight to the one target. *)
Definition fixedTargetMode (cfg : serveConfig) : bool :=
  cfg_has cfg ScopeProxy && negb (bool_decide (cfg_target cfg = [])) &&
  negb (cfg_has cfg ScopeShell) && negb (cfg_has cfg ScopeFiles).

(** * Shares, in a store *)

(** [capbar.Item]. *)
Record Item := mkItem { Label : bytes; ItemPath : bytes }.

Record shareObj := mkShare { so_share : FileShare; so_capBar : list Item }.

#[export] Instance eta_shareObj : Eta shareObj := fun s => mkShare (so_share s) (so_capBar s).

Abbreviation store := (list shareObj).

(** [FileShare.CapBar]. *)
Definition CapBar (items : list Item) (share : nat) (st : store) : store := alter (fun s => s <| so_capBar := items |>) share st.

(** * What a capability is made of *)

Record capContext := mkContext {
  x_cfg : serveConfig;
  x_share : option nat;
  x_uid : bytes;
  x_browserIP : bytes;
  x_eff : Spec;
  x_owner : bool;
  x_capBar : list Item
}.

#[export] Instance eta_capContext : Eta capContext := fun x =>
  mkContext (x_cfg x) (x_share x) (x_uid x) (x_browserIP x) (x_eff x) (x_owner x) (x_capBar x).

(** The pages of the browser front-end. *)
Inductive web := ShellWeb (bar : list Item) | FilesWeb (share : nat) | LandingWeb (bar : list Item) (targets : list bytes).

(** What [buildServeHTTPHandler] composes: the page for a link with none, one page at every path, or each page at its
    mount with one of them at the root. *)
Inductive front := NoBrowser (what server : bytes) | Single (w : web) | Launcher (live : list (scope * web)) (root : web).

Record httpDispatcher := mkDispatcher { d_local : front; d_proxy : option HTTPHandler; d_chosen : option bool }.

#[export] Instance eta_httpDispatcher : Eta httpDispatcher := fun d => mkDispatcher (d_local d) (d_proxy d) (d_chosen d).

(** The stream handlers of package streamtype a peer can be given. [mirror]: whether the shell echoes its output on the
    console; [resolver]: the HTTP proxy a websocket asks for its target. *)
Inductive StreamHandler :=
| ShellStream (h : ShellHandler) (mirror : bool)
| TCPStream (h : TCPHandler)
| FileStream (share : nat)
| ProxyStream (h : HTTPHandler)
| WebSocketStream (resolver : HTTPHandler) (browserIP : bytes)
| Dispatcher (d : httpDispatcher).

Definition HandlerType (h : StreamHandler) : string :=
  match h with
  | ShellStream _ _ => "shell" | TCPStream _ => "tcp" | FileStream _ => "file"
  | ProxyStream _ | Dispatcher _ => "http" | WebSocketStream _ _ => "websocket"
  end.

(** The session's view of a handler: its type, and whether it is a FragmentHandler and a ResetHandler. *)
Definition info (h : StreamHandler) : handler_info :=
  mkHandler (HandlerType h) (match h with WebSocketStream _ _ => true | _ => false end)
    (match h with Dispatcher _ => false | _ => true end).

Definition dynamicProxy (x : capContext) : HTTPHandler :=
  NewHTTPProxy [] (x_uid x) (cfg_server (x_cfg x)) [] (allowOf (ProxyTargets (x_eff x))).

Definition buildProxyHandlers (x : capContext) : list StreamHandler :=
  if negb (fixedTargetMode (x_cfg x)) then [WebSocketStream (dynamicProxy x) []]
  else
    let xffIP := if cfg_proxyClientIP (x_cfg x) then x_browserIP x else [] in
    let p := NewHTTPProxy (cfg_target (x_cfg x)) (x_uid x) (cfg_server (x_cfg x)) xffIP (allowOf (ProxyTargets (x_eff x))) in
    [ProxyStream p; WebSocketStream p xffIP].

(** The table [capabilities], a column at a time, in its order. *)
Definition capabilities : list scope := [ScopeShell; ScopeForward; ScopeFiles; ScopeProxy].

Definition cap_build (s : scope) (x : capContext) : list StreamHandler :=
  match s with
  | ScopeShell =>
    let sh := (NewShell (ShellArgv (x_eff x))) <| Shell.MaxConcurrent := cfg_shellMaxSessions (x_cfg x) |>
                <| OwnerCredential := x_owner x |> in
    [ShellStream sh (negb (cfg_disableShellMirror (x_cfg x)))]
  | ScopeForward => [TCPStream (NewTCP (allowOf (ForwardTargets (x_eff x))))]
  | ScopeFiles => match x_share x with None => [] | Some r => [FileStream r] end
  | ScopeProxy => buildProxyHandlers x
  end.

(** The name of the mount: "/shell/" is [shell]. *)
Definition cap_mount (s : scope) : bytes :=
  match s with ScopeShell => $"shell" | ScopeFiles => $"files" | ScopeProxy => $"proxy" | ScopeForward => [] end.

Definition cap_web (s : scope) (x : capContext) (st : store) : store * option web :=
  match s with
  | ScopeShell => (st, Some (ShellWeb []))
  | ScopeForward => (st, None)
  | ScopeFiles => match x_share x with None => (st, None) | Some r => (CapBar (x_capBar x) r st, Some (FilesWeb r)) end
  | ScopeProxy => (st, Some (LandingWeb (x_capBar x) (ProxyTargets (x_eff x))))
  end.

Definition cap_menu (s : scope) (x : capContext) : option Item :=
  match s with
  | ScopeShell => if cfg_shellMaxSessions (x_cfg x) =? 1 then None else Some (mkItem $"Shell" $"/")
  | ScopeForward => None
  | ScopeFiles => match x_share x with None => None | Some _ => Some (mkItem $"Files" $"/files/") end
  | ScopeProxy => Some (mkItem $"Proxy" $"/proxy/")
  end.

Definition target_item (i : Item) (t : bytes) : Item := mkItem (Label i ++ $" " ++ t) (ItemPath i ++ t ++ $"/").

(** The entries of one capability: a pinned proxy has one per target. *)
Definition cap_items (x : capContext) (s : scope) : list Item :=
  match cap_menu s x with
  | None => []
  | Some i =>
    match s, ProxyTargets (x_eff x) with
    | ScopeProxy, [t] => if fixedTargetMode (x_cfg x) then [i] else [target_item i t]
    | ScopeProxy, t :: ts => map (target_item i) (t :: ts)
    | _, _ => [i]
    end
  end.

Definition granted (x : capContext) : list scope := filter (fun s => Has (x_eff x) s = true) capabilities.

Definition capBarItems (x : capContext) : list Item := granted x ≫= cap_items x.

(** * The browser front-end *)

(** The loop that builds the pages, in table order. *)
Fixpoint build_live (x : capContext) (cs : list scope) (st : store) : store * list (scope * web) :=
  match cs with
  | [] => (st, [])
  | c :: cs' =>
    let '(st1, w) := cap_web c x st in
    let '(st2, live) := build_live x cs' st1 in
    (st2, match w with Some w => (c, w) :: live | None => live end)
  end.

Definition noBrowserPage (x : capContext) : front :=
  let what := join $", " (map word_of (granted x)) in
  NoBrowser (match what with [] => $"nothing this listener offers" | _ => what end) (cfg_server (x_cfg x)).

Definition buildServeHTTPHandler (x : capContext) (st : store) : store * front :=
  let items := capBarItems x in
  let x := if zlen items >? 1 then x <| x_capBar := items |> else x in
  let '(st1, live) := build_live x (granted x) st in
  (st1, match live with
        | [] => noBrowserPage x
        | [(_, w)] => Single w
        | (_, w) :: _ => Launcher live (if Has (x_eff x) ScopeShell then ShellWeb (x_capBar x) else w)
        end).

(** A response of the front-end: a page asked for a path, the page of a link with none (with the host to install from),
    a redirect or a 404. *)
Inductive served := Page (w : web) (u : URL) | NothingToShow (what host : bytes) | Moved (path : bytes) | NotFound.

Definition mounts (live : list (scope * web)) : list bytes := map (fun '(c, _) => cap_mount c) live.

Definition mount_of (live : list (scope * web)) (name : bytes) : option web :=
  match list_find (fun '(c, _) => cap_mount c = name) live with Some (_, (_, w)) => Some w | None => None end.

(** The trailing slash the front-end adds before its mux: the path of a root is plain, so its encoding is itself. *)
Definition normalize (live : list (scope * web)) (u : URL) : URL :=
  if bool_decide (Path u ∈ map (fun n => slash :: n) (mounts live)) then mkURL (Path u ++ [slash]) (RawPath u) else u.

Definition serve_front (f : front) (host : bytes) (connect : bool) (u : URL) : served :=
  match f with
  | NoBrowser what server => NothingToShow what (match host with [] => server | _ => host end)
  | Single w => Page w u
  | Launcher live root =>
    let u := normalize live u in
    match findHandler (mounts live) connect u with
    | NoMatch => NotFound
    | Redirect p => Moved p
    | Root => Page root u
    | Mount n => match mount_of live n, StripPrefix (slash :: n) u with
                 | Some w, Some u' => Page w u'
                 | _, _ => NotFound
                 end
    end
  end.

(** [LandingHandler]: whether the page is there, and whether its form is live. *)
Definition landing (targets : list bytes) (path : bytes) : option bool :=
  if decide (path = $"/" \/ path = $"/proxy/") then Some (bool_decide (targets = [])) else None.

(** * The dispatcher *)

Definition newHTTPDispatcher (local : front) (proxy : option HTTPHandler) : httpDispatcher := mkDispatcher local proxy None.

Definition looksLikeProxyTarget (path : bytes) : bool :=
  let trimmed := TrimPrefix (TrimPrefix (TrimPrefix path $"/") $"http://") $"https://" in
  match trimmed with
  | [] => false
  | _ => let first := match IndexByte trimmed slash with Some i => take i trimmed | None => trimmed end in
         Contains first $":" || Contains first $"." || bool_decide (first = $"localhost")
  end.

(** [httpDispatcher.OnConnect]: the choice is made, and made once per session; [true] is the proxy. *)
Definition dispatch_connect (url_valid : bytes -> bool) (d : httpDispatcher) (path : bytes) (p : probe) : httpDispatcher * connect_outcome :=
  match d_proxy d with
  | Some h =>
    if looksLikeProxyTarget path then
      let '(h', o) := Proxy.OnConnect url_valid h path p in
      (d <| d_proxy := Some h' |> <| d_chosen := Some true |>, o)
    else (d <| d_chosen := Some false |>, Connected)
  | None => (d <| d_chosen := Some false |>, Connected)
  end.

(** The handlers that outlive a stream and are closed by the connection: [sessionHandlers]. *)
Record sessionHandlers := mkHandlers { h_all : list StreamHandler; h_shell : bool; h_tcp : bool }.

Definition buildHandlers (x : capContext) (st : store) : store * sessionHandlers :=
  let all := granted x ≫= fun c => cap_build c x in
  let shell := existsb (fun h => match h with ShellStream _ _ => true | _ => false end) all in
  let tcp := existsb (fun h => match h with TCPStream _ => true | _ => false end) all in
  if fixedTargetMode (x_cfg x) then (st, mkHandlers all shell tcp)
  else
    let proxyHTTP := if Has (x_eff x) ScopeProxy then Some (dynamicProxy x) else None in
    let '(st1, f) := buildServeHTTPHandler x st in
    (st1, mkHandlers (all ++ [Dispatcher (newHTTPDispatcher f proxyHTTP)]) shell tcp).

(** * The Sharing block *)

Section Sharing.
(** The name of the platform's default shell. *)
Variable defaultShellLabel : bytes.

Definition describeShell (x : capContext) : bytes :=
  let cfg := x_cfg x in
  $"  • shell  (" ++
  (match cfg_shellArgv cfg with [] => defaultShellLabel | argv => join $" " argv ++ $" only" end) ++
  (if cfg_shellMaxSessions cfg =? 0 then $", unlimited concurrent sessions"
   else if negb (cfg_shellMaxSessions cfg =? defaultShellMaxSessions)
   then $", max " ++ print_Z (cfg_shellMaxSessions cfg) ++ $" concurrent sessions" else []) ++
  (if cfg_disableShellMirror cfg then [] else $", mirroring to console") ++ $")" ++ [chr 10].

Definition describeForward (x : capContext) : bytes :=
  let allow := allowOf (ForwardTargets (cfg_offered (x_cfg x))) in
  let reach := if Empty allow then $"unrestricted targets" else ListString allow in
  $"  • forward (" ++ reach ++ $", chosen by connect -L; max " ++ print_Z DefaultTCPMaxConcurrent ++
  $" concurrent connections per session; loopback-bound on connector by default)" ++ [chr 10].

Definition describeFiles (x : capContext) (st : store) : bytes :=
  match x_share x ≫= fun r => st !! r with
  | None => []
  | Some s =>
    match ShareMode (so_share s) with
    | ModeSend => $"  • files  (" ++ FileName (so_share s) ++ $" — single file)" ++ [chr 10]
    | ModeBrowse => $"  • files  (" ++ BasePath (so_share s) ++
                    (if UploadEnabled (so_share s) then $", uploads enabled" else []) ++ $")" ++ [chr 10]
    end
  end.

Definition describeProxy (x : capContext) : bytes :=
  match cfg_target (x_cfg x) with
  | [] =>
    let allow := allowOf (ProxyTargets (cfg_offered (x_cfg x))) in
    if Empty allow then $"  • proxy  (target chosen in browser)" ++ [chr 10]
    else $"  • proxy  (target chosen in browser, from " ++ ListString allow ++ $")" ++ [chr 10]
  | t => $"  • proxy  (" ++ t ++ $")" ++ [chr 10]
  end.

Definition describe (s : scope) (x : capContext) (st : store) : bytes :=
  match s with
  | ScopeShell => describeShell x | ScopeForward => describeForward x
  | ScopeFiles => describeFiles x st | ScopeProxy => describeProxy x
  end.

Definition printSharingBlock (cfg : serveConfig) (share : option nat) (st : store) (isTTY : bool) : bytes :=
  let x := mkContext cfg share [] [] no_spec false [] in
  $"Sharing:" ++ [chr 10] ++
  concat (map (fun s => if cfg_has cfg s then describe s x st else []) capabilities) ++ (if isTTY then [chr 10] else []).
End Sharing.

(** What a peer of [bitbang serve] is given stays within its link's grant and the listener's own, and its pages are
    those of the capabilities the link reaches. *)

#[local] Set Warnings "-clear-no-such-hyp".

(** * The handlers *)

Definition has (x : capContext) (c : scope) : bool := Has (x_eff x) c.

Lemma elem_of_granted x c : c ∈ granted x <-> Has (x_eff x) c = true.
Proof.
  unfold granted. rewrite list_elem_of_filter. split; [by intros [? _]|].
  intros H. split; [done|]. destruct c; vm_compute; repeat constructor.
Qed.

(** What the handler of a peer is made from. *)
Definition made_for (x : capContext) (h : StreamHandler) : Prop :=
  match h with
  | ShellStream sh mirror =>
    has x ScopeShell = true /\ ForcedArgv sh = ShellArgv (x_eff x) /\ Shell.MaxConcurrent sh = cfg_shellMaxSessions (x_cfg x) /\
    OwnerCredential sh = x_owner x /\ ViewOnly sh = false /\ mirror = negb (cfg_disableShellMirror (x_cfg x))
  | TCPStream t => has x ScopeForward = true /\ t = NewTCP (allowOf (ForwardTargets (x_eff x)))
  | FileStream r => has x ScopeFiles = true /\ x_share x = Some r
  | ProxyStream p => has x ScopeProxy = true /\ fixedTargetMode (x_cfg x) = true /\ Target p = cfg_target (x_cfg x) /\
                     Proxy.Allow p = allowOf (ProxyTargets (x_eff x))
  | WebSocketStream p _ => has x ScopeProxy = true /\ Proxy.Allow p = allowOf (ProxyTargets (x_eff x))
  | Dispatcher d => fixedTargetMode (x_cfg x) = false /\ d_chosen d = None /\
                    match d_proxy d with
                    | Some p => has x ScopeProxy = true /\ p = dynamicProxy x
                    | None => has x ScopeProxy = false
                    end
  end.

Lemma cap_build_made x c h : Has (x_eff x) c = true -> h ∈ cap_build c x -> made_for x h.
Proof.
  intros Hc. unfold made_for, has. destruct c; cbn [cap_build].
  - destruct (x_share x); [|by rewrite elem_of_nil]. by intros ->%list_elem_of_singleton.
  - unfold buildProxyHandlers. destruct (fixedTargetMode (x_cfg x)) eqn:E; cbn [negb].
    + rewrite elem_of_cons, list_elem_of_singleton. by intros [->| ->].
    + by intros ->%list_elem_of_singleton.
  - by intros ->%list_elem_of_singleton.
  - by intros ->%list_elem_of_singleton.
Qed.

Lemma dispatcher_made x f :
  fixedTargetMode (x_cfg x) = false ->
  made_for x (Dispatcher (newHTTPDispatcher f (if Has (x_eff x) ScopeProxy then Some (dynamicProxy x) else None))).
Proof. intros H. cbn. unfold has. split; [done|]. split; [done|]. by destruct (Has _ _). Qed.

Lemma handlers_made x st h : h ∈ h_all (buildHandlers x st).2 -> made_for x h.
Proof.
  intros H.
  assert (h ∈ granted x ≫= (fun c => cap_build c x) -> made_for x h) as Hcaps.
  { intros (c & Hb & Hc)%list_elem_of_bind. apply (cap_build_made x c); [by apply elem_of_granted|done]. }
  unfold buildHandlers in H. destruct (fixedTargetMode (x_cfg x)) eqn:E; [by apply Hcaps|].
  destruct (buildServeHTTPHandler x st) as [st1 f]. cbn in H. apply elem_of_app in H as [H|H]; [by apply Hcaps|].
  apply list_elem_of_singleton in H as ->. by apply dispatcher_made.
Qed.

(** The types a peer's session advertises, in order. *)
Definition advertised (x : capContext) : list string :=
  (if has x ScopeShell then ["shell"] else []) ++ (if has x ScopeForward then ["tcp"] else []) ++
  (if has x ScopeFiles && bool_decide (is_Some (x_share x)) then ["file"] else []) ++
  (if has x ScopeProxy then if fixedTargetMode (x_cfg x) then ["http"; "websocket"] else ["websocket"] else []) ++
  (if fixedTargetMode (x_cfg x) then [] else ["http"]).

(** The handlers of the capabilities, capability by capability. *)
Lemma built_eq x :
  granted x ≫= (fun c => cap_build c x) = concat (map (fun c => if has x c then cap_build c x else []) capabilities).
Proof.
  unfold granted. induction capabilities as [|c cs IH]; [done|]. rewrite filter_cons. cbn [map concat]. unfold has at 1.
  destruct (Has (x_eff x) c) eqn:Hc; [rewrite decide_True by done|rewrite decide_False by done; exact IH].
  cbn [mbind list_bind]. f_equal. exact IH.
Qed.

(** Whichever way the front-end comes out, the dispatcher is the last handler. *)
Lemma handlers_built x st :
  exists d, h_all (buildHandlers x st).2 =
            (granted x ≫= fun c => cap_build c x) ++ (if fixedTargetMode (x_cfg x) then [] else [Dispatcher d]) /\
    h_shell (buildHandlers x st).2 = has x ScopeShell /\ h_tcp (buildHandlers x st).2 = has x ScopeForward.
Proof.
  unfold buildHandlers. rewrite !built_eq. cbn [map concat capabilities cap_build]. unfold buildProxyHandlers, has.
  destruct (buildServeHTTPHandler x st) as [st1 f]. exists (newHTTPDispatcher f (if Has (x_eff x) ScopeProxy then Some (dynamicProxy x) else None)).
  destruct (Has _ ScopeShell), (Has _ ScopeForward), (Has _ ScopeFiles), (Has _ ScopeProxy), (x_share x), (fixedTargetMode (x_cfg x)); done.
Qed.

(** C13: A peer's session has one handler for each capability its link reaches, in a fixed order and never two of a
    type, each made from the link's own grant: the command, the targets and the share of the narrowed grant, the
    owner's mark of the presented code. A capability the link does not reach has no handler at all, and the
    dispatcher has a proxy exactly when the link reaches one. *)
Theorem session_offers_grant x st :
  map HandlerType (h_all (buildHandlers x st).2) = advertised x /\ NoDup (advertised x) /\
  Forall (made_for x) (h_all (buildHandlers x st).2) /\
  h_shell (buildHandlers x st).2 = has x ScopeShell /\ h_tcp (buildHandlers x st).2 = has x ScopeForward.
Proof.
  destruct (handlers_built x st) as (d & Hall & Hs & Ht). split_and!; [..|exact Hs|exact Ht].
  - rewrite Hall, built_eq. cbn [map concat capabilities cap_build]. unfold buildProxyHandlers, advertised.
    by destruct (has x ScopeShell), (has x ScopeForward), (has x ScopeFiles), (has x ScopeProxy), (x_share x), (fixedTargetMode (x_cfg x)).
  - unfold advertised. apply (bool_decide_unpack _).
    destruct (has x ScopeShell), (has x ScopeForward), (has x ScopeFiles), (has x ScopeProxy),
      (bool_decide (is_Some (x_share x))), (fixedTargetMode (x_cfg x)); vm_compute; exact I.
  - apply Forall_forall. intros h. apply handlers_made.
Qed.

(** * Within the listener *)

Lemma allowOf_parsed ts L : Parse ts = Ok L -> allowOf ts = L.
Proof. unfold allowOf. by intros ->. Qed.

Lemma applySpec_ok cfg0 spec cfg :
  applySpec cfg0 spec = Ok cfg ->
  cfg_caps cfg = Grant.caps (cfg_offered cfg) /\ cfg_shellArgv cfg = ShellArgv (cfg_offered cfg) /\ cfg_filesPath cfg = FilesPath (cfg_offered cfg) /\
  (exists P, Parse (ProxyTargets (cfg_offered cfg)) = Ok P) /\ (exists F, Parse (ForwardTargets (cfg_offered cfg)) = Ok F) /\
  (forall t, ProxyTargets (cfg_offered cfg) = [t] -> cfg_target cfg = t).
Proof.
  unfold applySpec. set (s := match Caps spec with None => Everything | Some _ => spec end). clearbody s.
  destruct (Parse (ProxyTargets s)) as [P|] eqn:EP; [|done]. destruct (Parse (ForwardTargets s)) as [F|] eqn:EF; [|done].
  intros [= <-]. destruct (ProxyTargets s) as [|t [|t' ts]] eqn:Es; cbn; rewrite ?Es, ?EF, ?EP; split_and!; eauto; by intros ? [=].
Qed.

(** A host and port an allowlist permits are permitted by the one of the listener, where that names any. *)
Definition dials_within (allow : List) (listener : list bytes) : Prop :=
  forall h p, listener <> [] -> Permits allow h p = true -> Permits (allowOf listener) h p = true.

Definition within_listener (cfg : serveConfig) (x : capContext) (h : StreamHandler) : Prop :=
  let off := cfg_offered cfg in
  match h with
  | ShellStream sh _ => ScopeShell ∈ cfg_caps cfg /\ (ShellArgv off <> [] -> ForcedArgv sh = ShellArgv off)
  | TCPStream t => ScopeForward ∈ cfg_caps cfg /\ dials_within (TcpForward.Allow t) (ForwardTargets off)
  | FileStream r => ScopeFiles ∈ cfg_caps cfg
  | ProxyStream p | WebSocketStream p _ => ScopeProxy ∈ cfg_caps cfg /\ dials_within (Proxy.Allow p) (ProxyTargets off)
  | Dispatcher d => match d_proxy d with
                    | Some p => ScopeProxy ∈ cfg_caps cfg /\ dials_within (Proxy.Allow p) (ProxyTargets off)
                    | None => True
                    end
  end.

Lemma parsed_within o off K :
  (exists L, Parse off = Ok L) -> targets_within o off -> Parse o = Ok K -> dials_within (allowOf o) off.
Proof.
  intros [L HL] Hw HK h p Hne. rewrite (allowOf_parsed _ _ HL), (allowOf_parsed _ _ HK). by apply Hw.
Qed.

(** C12: From the command line to the handlers: whatever a link's grant says, the handlers of a peer that presents its code
    reach no capability the listener does not serve, run no other command where the listener names one, and dial no
    host and port outside the targets it names, provided the targets the link itself names can be parsed. *)
Theorem peer_within_listener cwd cfg0 spec cfg t eff x st P F :
  rooted cwd = true -> applySpec cfg0 spec = Ok cfg -> Effective cwd t (cfg_offered cfg) = Ok eff ->
  x_cfg x = cfg -> x_eff x = eff -> Parse (ProxyTargets eff) = Ok P -> Parse (ForwardTargets eff) = Ok F ->
  Forall (within_listener cfg x) (h_all (buildHandlers x st).2).
Proof.
  intros Hcwd Hcfg Heff Hxc Hxe HP HF. destruct (applySpec_ok _ _ _ Hcfg) as (Hcaps & _ & _ & HPo & HFo & _).
  assert (Grant.within cwd eff (cfg_offered cfg)) as W by (eapply link_within_listener; done).
  assert (forall c, has x c = true -> c ∈ cfg_caps cfg) as Hhas.
  { intros c Hc. rewrite Hcaps. apply (within_caps _ _ _ W). unfold has, Has in Hc. rewrite Hxe in Hc. by apply bool_decide_eq_true in Hc. }
  assert (dials_within (allowOf (ProxyTargets eff)) (ProxyTargets (cfg_offered cfg))) as DP by (eapply parsed_within; [done|apply W|done]).
  assert (dials_within (allowOf (ForwardTargets eff)) (ForwardTargets (cfg_offered cfg))) as DF by (eapply parsed_within; [done|apply W|done]).
  apply Forall_forall. intros h Hh%handlers_made. unfold made_for, within_listener in *. rewrite Hxe, ?Hxc in Hh. destruct h.
  - destruct Hh as (H & -> & _). split; [by apply Hhas|]. intros Hne. by apply W.
  - destruct Hh as (H & ->). split; [by apply Hhas|done].
  - by apply Hhas, Hh.
  - destruct Hh as (H & _ & _ & ->). split; [by apply Hhas|done].
  - destruct Hh as (H & ->). split; [by apply Hhas|done].
  - destruct Hh as (_ & _ & H). destruct (d_proxy d); [|done]. destruct H as (H & ->). split; [by apply Hhas|].
    cbn. by rewrite Hxe.
Qed.

(** * The pages *)

Definition web_scope (w : web) : scope := match w with ShellWeb _ => ScopeShell | FilesWeb _ => ScopeFiles | LandingWeb _ _ => ScopeProxy end.

(** A page of the front-end of [x]: of a capability the link reaches, over its own share. *)
Definition page_of (x : capContext) (w : web) : Prop :=
  Has (x_eff x) (web_scope w) = true /\ match w with FilesWeb r => x_share x = Some r | LandingWeb _ ts => ts = ProxyTargets (x_eff x) | ShellWeb _ => True end.

(** The granted capabilities that have a page, and the pages they get. *)
Definition has_page (x : capContext) (c : scope) : bool :=
  match c with ScopeForward => false | ScopeFiles => bool_decide (is_Some (x_share x)) | _ => true end.

Definition paged (x : capContext) : list scope := filter (fun c => has_page x c = true) (granted x).

Definition page_for (x : capContext) (c : scope) : web :=
  match c with
  | ScopeShell | ScopeForward => ShellWeb []
  | ScopeFiles => FilesWeb (default 0%nat (x_share x))
  | ScopeProxy => LandingWeb (x_capBar x) (ProxyTargets (x_eff x))
  end.

(** The context the pages are built with: the strip is there when it has more than one entry. *)
Definition with_bar (x : capContext) : capContext := if zlen (capBarItems x) >? 1 then x <| x_capBar := capBarItems x |> else x.

Lemma build_live_eq x cs : forall st, (build_live x cs st).2 = map (fun c => (c, page_for x c)) (filter (fun c => has_page x c = true) cs).
Proof.
  induction cs as [|c cs IH]; intros st; [done|]. cbn [build_live]. rewrite filter_cons.
  destruct (cap_web c x st) as [st1 wo] eqn:Ew. specialize (IH st1). destruct (build_live x cs st1) as [st2 live]. cbn [snd] in *.
  destruct c; cbn [cap_web has_page page_for] in *; [destruct (x_share x) eqn:Es; inv Ew|inv Ew..].
  - rewrite decide_True by (by apply bool_decide_eq_true). cbn [map page_for]. by rewrite Es.
  - rewrite decide_False by (by vm_compute). done.
  - rewrite decide_True by done. done.
  - by rewrite decide_False by done.
  - rewrite decide_True by done. done.
Qed.

Lemma paged_page x c : c ∈ paged x -> Has (x_eff x) c = true /\ page_of (with_bar x) (page_for (with_bar x) c) /\ web_scope (page_for (with_bar x) c) = c.
Proof.
  unfold paged. rewrite list_elem_of_filter, elem_of_granted. intros [Hp Hc]. split; [done|].
  assert (x_eff (with_bar x) = x_eff x /\ x_share (with_bar x) = x_share x) as [E1 E2] by (unfold with_bar; by case_step).
  unfold page_of, page_for. rewrite E1, E2. destruct c; cbn in *; try done.
  apply bool_decide_eq_true in Hp as [r ->]. done.
Qed.

(** The front-end, by the pages there are. *)
Lemma front_eq x st :
  (buildServeHTTPHandler x st).2 =
  match paged x with
  | [] => noBrowserPage x
  | [c] => Single (page_for (with_bar x) c)
  | c :: cs => Launcher (map (fun c => (c, page_for (with_bar x) c)) (c :: cs))
                 (if has x ScopeShell then ShellWeb (x_capBar (with_bar x)) else page_for (with_bar x) c)
  end.
Proof.
  unfold buildServeHTTPHandler. fold (with_bar x). pose proof (build_live_eq (with_bar x) (granted x) st) as E.
  assert (x_eff (with_bar x) = x_eff x) as Hx by (unfold with_bar; by case_step).
  assert (granted (with_bar x) = granted x) as -> by (unfold granted; by rewrite Hx).
  destruct (build_live _ _ _) as [st1 live]. cbn [snd] in E |- *. 
  assert (filter (fun c => has_page (with_bar x) c = true) (granted x) = paged x) as Hf.
  { unfold paged. apply list_filter_iff. intros c. unfold with_bar. by case_step. }
  rewrite Hf in E. rewrite E.
  destruct (paged x) as [|c [|c' cs]]; cbn [map]; [|done|].
  - unfold noBrowserPage, granted, with_bar. by destruct (zlen (capBarItems x) >? 1).
  - by rewrite Hx.
Qed.

Lemma cap_mount_inj c c' : cap_mount c = cap_mount c' -> c = c'.
Proof. destruct c, c'; done. Qed.

Lemma mount_of_page (page : scope -> web) cs c :
  c ∈ cs -> mount_of (map (fun c => (c, page c)) cs) (cap_mount c) = Some (page c).
Proof.
  unfold mount_of. induction cs as [|c' cs IH]; [by rewrite elem_of_nil|]. intros Hin. cbn [map list_find].
  destruct (decide (cap_mount c' = cap_mount c)) as [->%cap_mount_inj|Hne]; [done|].
  apply elem_of_cons in Hin as [->|Hin]; [done|]. specialize (IH Hin).
  destruct (list_find _ _) as [[k [c2 w]]|]; [|done]. exact IH.
Qed.

Lemma mounts_pages (page : scope -> web) cs : mounts (map (fun c => (c, page c)) cs) = map cap_mount cs.
Proof. unfold mounts. by rewrite map_map. Qed.

Lemma mount_plain c : plain (cap_mount c) /\ slash ∉ cap_mount c.
Proof. split; [|apply (bool_decide_unpack _); by destruct c; vm_compute]. apply Forall_forall. intros a Ha. destruct c; cbn in Ha; repeat (apply elem_of_cons in Ha as [->|Ha]; [by vm_compute|]); by apply elem_of_nil in Ha. Qed.

Lemma normalize_under (page : scope -> web) cs c rest :
  normalize (map (fun c => (c, page c)) cs) (under (cap_mount c) rest) = under (cap_mount c) rest.
Proof.
  unfold normalize. rewrite bool_decide_false; [done|]. rewrite mounts_pages. cbn [Path under].
  intros (n & [= H] & Hn)%list_elem_of_fmap. apply list_elem_of_fmap in Hn as (c' & -> & _).
  apply (proj2 (mount_plain c')). rewrite <- H. apply elem_of_app. right. left.
Qed.

(** The pages of a front-end are the pages of the capabilities its link reaches. *)
Lemma front_pages x st host connect u w u' :
  serve_front (buildServeHTTPHandler x st).2 host connect u = Page w u' -> page_of (with_bar x) w.
Proof.
  assert (forall c, c ∈ paged x -> page_of (with_bar x) (page_for (with_bar x) c)) as Hp by (by intros c (_ & ? & _)%paged_page).
  rewrite front_eq. destruct (paged x) as [|c [|c' cs]]; cbn [serve_front]; [done| |].
  - intros [= <- _]. apply Hp. left.
  - destruct (findHandler _ _ _) as [n| | |]; try done.
    + unfold mount_of. destruct (list_find _ _) as [[k [c2 w2]]|] eqn:E; [|done]. destruct (StripPrefix _ _); [|done].
      intros [= <- _]. apply list_find_Some in E as (E & _ & _). apply list_elem_of_lookup_2, list_elem_of_fmap in E as (c3 & [= -> ->] & H).
      by apply Hp.
    + intros [= <- _]. destruct (has x ScopeShell) eqn:E; [|apply Hp; left].
      split; [|done]. unfold with_bar. by case_step.
Qed.

(** The browser side of a link. Every page it serves, whatever the request, belongs to a capability the link reaches;
    a link whose capabilities have no page answers every request with the explanation, a link with one page serves
    it at every path, and with more each page serves exactly the canonical paths under its mount, the mount taken off. *)
Theorem front_serves_grant x st :
  let f := (buildServeHTTPHandler x st).2 in
  (forall host connect u w u', serve_front f host connect u = Page w u' -> page_of (with_bar x) w) /\
  (paged x = [] -> forall host connect u, exists what h, serve_front f host connect u = NothingToShow what h) /\
  (forall c, paged x = [c] -> forall host connect u, serve_front f host connect u = Page (page_for (with_bar x) c) u) /\
  (forall c rest host, c ∈ paged x -> (2 <= length (paged x))%nat -> plain rest ->
     cleanPath (Path (under (cap_mount c) rest)) = Path (under (cap_mount c) rest) ->
     serve_front f host false (under (cap_mount c) rest) = Page (page_for (with_bar x) c) (mkURL (slash :: rest) [])).
Proof.
  cbn zeta. split_and!; [intros *; apply front_pages|rewrite front_eq..].
  - intros ->. intros. eexists _, _. done.
  - by intros c ->.
  - intros c rest host Hc Hlen Hr Hclean. destruct (paged x) as [|c1 [|c2 cs]]; [by apply elem_of_nil in Hc|cbn in Hlen; lia|].
    destruct (mount_plain c) as [Hm Hs]. set (cs' := c1 :: c2 :: cs) in *. cbn [serve_front].
    rewrite normalize_under, mounts_pages, findHandler_under by (try done; by apply list_elem_of_fmap_2).
    by rewrite mount_of_page, StripPrefix_under.
Qed.

(** * The dispatcher *)

(** A path of which the browser's spellings are not in the way: no scheme in front, no blank at its ends. *)
Definition bare (path : bytes) : Prop :=
  let t := TrimPrefix path $"/" in
  TrimSpace t = t /\ stripScheme t = t /\ TrimPrefix (TrimPrefix t $"http://") $"https://" = t.

(** On a path without a scheme and without blanks at its ends, the dispatcher hands a session to the proxy exactly when
    the proxy finds a target in that path; a session handed over is pinned to that target, and every session is
    handed to one of the two, a link without a proxy always to its pages. *)
Theorem dispatcher_agrees url_valid d path p :
  bare path ->
  (looksLikeProxyTarget path = true <-> (parseTargetFromPath path).1 <> []) /\
  (forall h, d_proxy d = Some h -> looksLikeProxyTarget path = true ->
     dispatch_connect url_valid d path p =
       (d <| d_proxy := Some (Proxy.OnConnect url_valid h path p).1 |> <| d_chosen := Some true |>, (Proxy.OnConnect url_valid h path p).2) /\
     (Target h = [] -> connTarget (select_target h path) = (parseTargetFromPath path).1)) /\
  (d_proxy d = None \/ looksLikeProxyTarget path = false -> dispatch_connect url_valid d path p = (d <| d_chosen := Some false |>, Connected)).
Proof.
  intros (Hs & Hsch & Ht).
  assert (looksLikeProxyTarget path = true <-> (parseTargetFromPath path).1 <> []) as Heq.
  { unfold looksLikeProxyTarget, parseTargetFromPath. rewrite Ht, Hs, Hsch. destruct (TrimPrefix path $"/") as [|c t] eqn:Et; [done|].
    destruct (IndexByte (c :: t) slash) as [i|] eqn:Ei.
    - destruct (_ || _ || _) eqn:Eb; cbn [fst]; split; try done. intros _. destruct i; [|done].
      cbn [take] in Eb. vm_compute in Eb. done.
    - destruct (_ || _ || _) eqn:Eb; cbn [fst]; by split. }
  split; [done|]. split.
  - intros h Hh Hl. unfold dispatch_connect. rewrite Hh, Hl. split; [by destruct (Proxy.OnConnect _ _ _ _)|].
    intros HT. unfold select_target. rewrite HT. by destruct ((parseTargetFromPath path).1) eqn:E.
  - unfold dispatch_connect. intros [-> | ->]; [done|]. by destruct (d_proxy d).
Qed.

(** Outside those paths the two heuristics differ: an encoded scheme, which the proxy undoes, hides the target from the
    dispatcher, and the pages answer for it. *)
Lemma heuristics_differ :
  let path := $"/http%3A%2F%2Flocalhost" in
  looksLikeProxyTarget path = false /\ (parseTargetFromPath path).1 = $"localhost".
Proof. split; vm_compute; reflexivity. Qed.

(** * What the operator is told *)

(** A listener that starts with no notice at all has no PIN, no shell, and forwards, if it does, only to the targets it
    names; a PIN silences both warnings, and a warning always asks for one. *)
Theorem silence_is_bounded cfg pinned bold reset :
  ((exposureNotice cfg pinned bold reset).1 = [] ->
     pinned = false /\ (ScopeShell ∉ cfg_caps cfg) /\ (ScopeForward ∈ cfg_caps cfg -> ForwardTargets (cfg_offered cfg) <> [])) /\
  ((exposureNotice cfg pinned bold reset).2 = true ->
     pinned = false /\ (ScopeShell ∈ cfg_caps cfg \/ ScopeForward ∈ cfg_caps cfg /\ ForwardTargets (cfg_offered cfg) = [])).
Proof.
  unfold exposureNotice, cfg_has. destruct pinned; [by split|].
  destruct (decide (ScopeShell ∈ cfg_caps cfg)); [rewrite bool_decide_true by done; split; cbn; [|by auto]|].
  { unfold warning_line. intros H. by apply app_eq_nil in H as [_ ?]. }
  rewrite (bool_decide_false (ScopeShell ∈ _)) by done.
  destruct (decide (ScopeForward ∈ cfg_caps cfg)); [rewrite (bool_decide_true (ScopeForward ∈ _)) by done|].
  2:{ rewrite (bool_decide_false (ScopeForward ∈ _)) by done. cbn. split; [|done]. by intros _. }
  cbn [andb]. destruct (bool_decide _) eqn:E.
  - apply bool_decide_eq_true in E. split; cbn; [|by auto]. unfold warning_line. intros H. by apply app_eq_nil in H as [_ ?].
  - apply bool_decide_eq_false in E. by split; cbn.
Qed.

(** * Samples *)

Definition no_config : serveConfig := mkConfig $"bitba.ng" [] false no_spec ∅ [] defaultShellMaxSessions false [] false.
Definition spec_of (s : bytes) : Spec := from_result no_spec (ParseString s).
Definition config_of (s : bytes) : serveConfig := from_result no_config (applySpec no_config (spec_of s)).
Definition link_of (cfg : serveConfig) (label grant : bytes) : Spec :=
  from_result no_spec (Effective $"/" (mkTerms label $"K" grant None) (cfg_offered cfg)).

(** A listener of files and two proxied hosts, its one share, and the contexts of three links. *)
Definition sample_config : serveConfig := config_of $"files /srv proxy nas.lan:8096,pi.lan:80 forward db:5432".
Definition sample_store : store := [mkShare (mkFileShare $"/srv" ModeBrowse [] false) []].
Definition peer (grant : bytes) : capContext := mkContext sample_config (Some 0%nat) $"dev" $"9.9.9.9" (link_of sample_config $"x" grant) false [].

Example sample_peers :
  map (fun g => (map HandlerType (h_all (buildHandlers (peer g) sample_store).2), paged (peer g))) [$"files"; $"forward db:5432"; $"proxy pi.lan:80 files"] =
  [(["file"; "http"]%string, [ScopeFiles]); (["tcp"; "http"]%string, []); (["file"; "websocket"; "http"]%string, [ScopeFiles; ScopeProxy])].
Proof. vm_compute. reflexivity. Qed.

Example sample_sharing :
  printSharingBlock $"sh" sample_config (Some 0%nat) sample_store false =
  $"Sharing:" ++ [chr 10] ++
  $"  • forward (db:5432, chosen by connect -L; max 64 concurrent connections per session; loopback-bound on connector by default)" ++ [chr 10] ++
  $"  • files  (/srv)" ++ [chr 10] ++ $"  • proxy  (target chosen in browser, from nas.lan:8096, pi.lan:80)" ++ [chr 10].
Proof. vm_compute. reflexivity. Qed.

Lemma peer_within_listener_witness :
  Forall (within_listener sample_config (peer $"proxy pi.lan:80 files")) (h_all (buildHandlers (peer $"proxy pi.lan:80 files") sample_store).2).
Proof.
  apply (peer_within_listener $"/" no_config (spec_of $"files /srv proxy nas.lan:8096,pi.lan:80 forward db:5432") sample_config
           (mkTerms $"x" $"K" $"proxy pi.lan:80 files" None) (link_of sample_config $"x" $"proxy pi.lan:80 files")
           (peer $"proxy pi.lan:80 files") sample_store [mkEntry $"pi.lan" 80] [mkEntry $"db" 5432]); vm_compute; reflexivity.
Defined.

Lemma front_serves_grant_witness :
  serve_front (buildServeHTTPHandler (peer $"proxy pi.lan:80 files") sample_store).2 $"h" false (under $"files" $"api/list") =
  Page (FilesWeb 0%nat) (mkURL $"/api/list" []).
Proof.
  apply (proj2 (proj2 (proj2 (front_serves_grant (peer $"proxy pi.lan:80 files") sample_store))) ScopeFiles $"api/list" $"h").
  - apply (bool_decide_unpack _). vm_compute. exact I.
  - vm_compute. lia.
  - apply Forall_forall. intros c Hc. apply (bool_decide_unpack _). revert c Hc. apply Forall_forall. repeat constructor.
  - vm_compute. reflexivity.
Defined.

Lemma dispatcher_agrees_witness :
  looksLikeProxyTarget $"/nas.lan:8096/web" = true <-> (parseTargetFromPath $"/nas.lan:8096/web").1 <> [].
Proof. apply (dispatcher_agrees any_url (newHTTPDispatcher (NoBrowser [] []) None) $"/nas.lan:8096/web" plain_probe). split_and!; vm_compute; reflexivity. Defined.

Lemma silence_is_bounded_witness : ScopeShell ∉ cfg_caps sample_config.
Proof. apply (silence_is_bounded sample_config false [] []). vm_compute. reflexivity. Defined.

(** * Where the wiring falls short *)

(** The strip lives in the share, and every peer of the listener points at the same one: a peer of a files-only link is
    shown the entries of whoever connected last, with the targets of that link. *)
Lemma strip_follows_last_peer :
  let '(st1, h1) := buildHandlers (peer $"files") sample_store in
  let '(st2, _) := buildHandlers (peer $"files proxy") st1 in
  so_capBar <$> (st1 !! 0%nat) = Some [] /\
  so_capBar <$> (st2 !! 0%nat) = Some [mkItem $"Files" $"/files/"; mkItem $"Proxy nas.lan:8096" $"/proxy/nas.lan:8096/"; mkItem $"Proxy pi.lan:80" $"/proxy/pi.lan:80/"] /\
  FileStream 0 ∈ h_all h1.
Proof. vm_compute. split_and!; [reflexivity..|]. left. Qed.

(** The entry of a pinned target opens a path neither half of the session serves: it does not look like a proxy target, and
    the landing page below its mount answers two paths only. *)
Lemma pinned_entry_not_found :
  let x := peer $"files proxy pi.lan:80" in
  mkItem $"Proxy pi.lan:80" $"/proxy/pi.lan:80/" ∈ capBarItems x /\ looksLikeProxyTarget $"/proxy/pi.lan:80/" = false /\
  exists w u, serve_front (buildServeHTTPHandler x sample_store).2 $"h" false (mkURL $"/proxy/pi.lan:80/" []) = Page w u /\
    web_scope w = ScopeProxy /\ landing (ProxyTargets (x_eff x)) (Path u) = None.
Proof. vm_compute. split_and!; [right; left|done|]. eexists _, _. split_and!; reflexivity. Qed.

(** The dispatcher is no ResetHandler, though both handlers behind it are: a reset stream's request runs on. *)
Lemma dispatcher_swallows_resets x st d :
  Dispatcher d ∈ h_all (buildHandlers x st).2 -> resets (info (Dispatcher d)) = false /\ forall p, resets (info (ProxyStream p)) = true.
Proof. done. Qed.

(** A websocket of a dynamic proxy asks a resolver that no connect message ever reached: for a path of the proxied page it
    has no host to dial, where the proxy itself has one. *)
Lemma dynamic_socket_has_no_target :
  let x := peer $"files proxy pi.lan:80" in
  let proxied := (dispatch_connect any_url (newHTTPDispatcher (NoBrowser [] []) (Some (dynamicProxy x))) $"/pi.lan:80/" plain_probe).1 in
  WebSocketStream (dynamicProxy x) [] ∈ h_all (buildHandlers x sample_store).2 /\
  (fun h => (resolveTarget h $"/socket").1.1) <$> d_proxy proxied = Some $"pi.lan:80" /\
  (resolveTarget (dynamicProxy x) $"/socket").1.1 = [].
Proof. vm_compute. split_and!; [right; left|reflexivity..]. Qed.
