(* ===== verification/Listen.v ===== *)
(** The listener of [bitbang serve]: the requests, answers and pairings the signaling server hands it, the peers they make,
    and the poll that ends the sessions of a link (cmd/bitbang/serve_listen.go, serve_peer.go; the console's hold of
    console.go).

    A listener is a transition system. One goroutine takes the signals, a section at a time ([stage]); every other
    goroutine is a thread of actions on one peer, run in any order: the body of [servePeer.close] and the connection's
    close callback are written as the actions they are made of. Sessions, frame queues, deadlines, the peer set, the link
    table and the connections are those of their own files. *)

From S2P Require Import Prelude GoLib Json Wire Auth Session FrameQueue Grant Links LinkState FileTree Fileshare PeerSet Pairing Handshake Proxy Capability.

Definition maxUnauthSessions : Z := 10.

Record servePeer := mkPeer {
  p_client : bytes;
  p_pairing : bool;
  p_browserIP : bytes;
  p_q : Queue;
  p_conn : Connection;
  p_opened : bool;              (* the data channel has opened *)
  p_described : bool;           (* an answer's description was set *)
  p_held : bool;                (* [release] is there and has not run *)
  p_deadline : Deadline;
  p_label : bytes;
  p_terms : Terms;
  p_sess : option session;
  p_hold : bool                 (* the console hold of a pairing, not given back *)
}.

#[export] Instance eta_servePeer : Eta servePeer := fun p =>
  mkPeer (p_client p) (p_pairing p) (p_browserIP p) (p_q p) (p_conn p) (p_opened p) (p_described p) (p_held p)
    (p_deadline p) (p_label p) (p_terms p) (p_sess p) (p_hold p).

Definition no_terms : Terms := mkTerms [] [] [] None.

(** A peer as its request leaves it, connection and deadline attached. *)
Definition newServePeer (clientID browserIP : bytes) (pairing held hold : bool) : servePeer :=
  mkPeer clientID pairing browserIP (SetConn (NewQueue false 0) true) NewConnection false false held NewDeadline [] no_terms None hold.

(** The steps of [close], of the connection's callback and of what follows them. *)
Inductive action := CloseQueue | CancelDeadline | CloseSession | ReleaseSlot | CloseConn | ForgetPeer.

Abbreviation thread := (nat * list action)%type.

(** What the signaling goroutine is in the middle of: a peer without its close callback yet; an answer whose code was
    looked up, with the terms found; a peer whose answer was accepted. *)
Inductive stage := Idle | Installing (r : nat) | Granting (r : nat) (terms : option Terms) (sdp enc : bytes) | Admitting (r : nat).

(** A poll in progress: the peers it listed, and then the table and the time it reads. *)
Record poll := mkPoll { poll_peers : list nat; poll_table : option (Table * Time) }.

Record listener := mkListener {
  l_cfg : serveConfig;
  l_uid : bytes;
  l_pin : option PINAuth;
  l_share : option nat;
  l_console : bool;             (* there is a terminal to ask on *)
  l_links : linkState;
  l_peers : @Set_ nat;
  l_objs : list servePeer;
  l_shares : store;
  l_unauth : Z;
  l_pending : Z;                (* the console's outstanding holds *)
  l_stage : stage;
  l_threads : list thread;
  l_polls : list poll
}.

#[export] Instance eta_listener : Eta listener := fun l =>
  mkListener (l_cfg l) (l_uid l) (l_pin l) (l_share l) (l_console l) (l_links l) (l_peers l) (l_objs l) (l_shares l)
    (l_unauth l) (l_pending l) (l_stage l) (l_threads l) (l_polls l).

Definition start (cfg : serveConfig) (uid : bytes) (pin : option PINAuth) (share : option nat) (console : bool) (links : linkState) (shares : store) : listener :=
  mkListener cfg uid pin share console links NewSet [] shares 0 0 Idle [] [].

Definition on_peer (f : servePeer -> servePeer) (r : nat) (l : listener) : listener := l <| l_objs := alter f r (l_objs l) |>.
Definition spawn (r : nat) (as_ : list action) (l : listener) : listener := l <| l_threads := l_threads l ++ [(r, as_)] |>.

(** * Teardown *)

Definition fires (c : Connection) : bool := negb (conn_closed c) && onClose c.

(** The callback given to [SetOnClose]. *)
Definition on_close : list action := [CloseQueue; ForgetPeer].

(** [p.release]: once. *)
Definition release (r : nat) (l : listener) : listener :=
  match l_objs l !! r with
  | Some p => if p_held p then on_peer (fun p => p <| p_held := false |>) r l <| l_unauth := l_unauth l - 1 |> else l
  | None => l
  end.

(** One action, and the actions it calls for first. *)
Definition act (a : action) (r : nat) (p : servePeer) (l : listener) : listener * list action :=
  match a with
  | CloseQueue =>
    let '(q, did) := FrameQueue.Close (p_q p) in
    (on_peer (fun p => p <| p_q := q |>) r l, if did then [CancelDeadline; CloseSession; ReleaseSlot; CloseConn] else [])
  | CancelDeadline => (on_peer (fun p => p <| p_deadline := Done (p_deadline p) |>) r l, [])
  | CloseSession => (on_peer (fun p => p <| p_sess := Session.Close <$> p_sess p |>) r l, [])
  | ReleaseSlot => (release r l, [])
  | CloseConn => (on_peer (fun p => p <| p_conn := fireClose (p_conn p) |>) r l, if fires (p_conn p) then on_close else [])
  | ForgetPeer => (l <| l_peers := Forget (l_peers l) (p_client p) r |>, [])
  end.

Definition run_thread (t : thread) (l : listener) : listener * list thread :=
  match t with
  | (r, []) => (l, [])
  | (r, a :: as_) =>
    match l_objs l !! r with
    | None => (l, [])
    | Some p => let '(l', more) := act a r p l in (l', [(r, more ++ as_)])
    end
  end.

(** * Signals *)

(** [handleRequest] up to the peer's place in the table; [conn_ok]: the connection could be made. *)
Definition handleRequest (clientID browserIP : bytes) (conn_ok : bool) (l : listener) : listener :=
  if bool_decide (clientID = []) || Has (l_peers l) clientID then l
  else if l_unauth l >=? maxUnauthSessions then l
  else if negb conn_ok then l
  else
    let r := length (l_objs l) in
    let l := l <| l_objs := l_objs l ++ [newServePeer clientID browserIP false true false] |> <| l_unauth := l_unauth l + 1 |> in
    let '(peers, ok) := Add (l_peers l) clientID r in
    if ok then l <| l_peers := peers |> <| l_stage := Installing r |> else spawn r [CloseQueue] l.

(** [console.Hold]. *)
Definition Hold (l : listener) : listener := if l_console l then l <| l_pending := l_pending l + 1 |> else l.
Definition Unhold (l : listener) : listener := if l_console l then l <| l_pending := l_pending l - 1 |> else l.

Definition handlePairRequest (clientID : bytes) (conn_ok : bool) (l : listener) : listener :=
  if bool_decide (clientID = []) || Has (l_peers l) clientID then l
  else
    let l := Hold l in
    if negb conn_ok then Unhold l
    else
      let r := length (l_objs l) in
      let l := l <| l_objs := l_objs l ++ [newServePeer clientID [] true false true] |> in
      let '(peers, ok) := Add (l_peers l) clientID r in
      if ok then l <| l_peers := peers |> <| l_stage := Installing r |> else spawn r [CloseQueue] l.

(** [conn.SetOnClose] at the end of both: the callback runs at once when the connection is gone already. *)
Definition install_close (r : nat) (p : servePeer) (l : listener) : listener :=
  let l := on_peer (fun p => p <| p_conn := SetOnClose (p_conn p) true |>) r l <| l_stage := Idle |> in
  if conn_closed (p_conn p) && negb (onCloseSet (p_conn p)) then spawn r on_close l else l.

(** [done] of a pairing: once. *)
Definition pair_done (r : nat) (l : listener) : listener :=
  match l_objs l !! r with
  | Some p => if p_hold p then Unhold (on_peer (fun p => p <| p_hold := false |>) r l) else l
  | None => l
  end.

Section Serving.
(** The working directory, the device's private key operation, the session's handlers and channel, and the tree the
    shares lie in at a given time. *)
Variable cwd : bytes.
Variable Decrypt : bytes -> option bytes.
Variable callback_error : list output -> option bytes.
Variable send_error : list output -> option bytes.
Variable unmarshal_error : bytes -> bytes.

(** The code an answer presents, where its payload can be read at all. *)
Definition presented (enc : bytes) : option bytes :=
  match enc with
  | [] => None
  | _ => match decode64 enc ≫= Decrypt with
         | None => None
         | Some plaintext =>
           let '(_, ok1) := unmarshal_field $"fingerprint" plaintext in
           let '(_, ok2) := unmarshal_field $"nonce" plaintext in
           let '(code, ok3) := unmarshal_field $"code" plaintext in
           if ok1 && ok2 && ok3 then Some code else None
         end
  end.

(** The hook [conn.Authorize], up to the terms: the table as it stands. *)
Definition authorize_hook (l : listener) (now : Time) (code : bytes) : option Terms :=
  table (l_links l) ≫= fun t => Authorize t code now.

(** [handleAnswer]: the peer is looked up; an answer of a pairing only sets its description. The description is set before
    anything of the answer is read. *)
Definition handleAnswer (clientID sdp enc : bytes) (desc_ok : bool) (now : Time) (l : listener) : listener :=
  match Get (l_peers l) clientID with
  | None => l
  | Some r =>
    match l_objs l !! r with
    | None => l
    | Some p =>
      if negb desc_ok then spawn r [CloseQueue] l
      else
        let l := on_peer (fun p => p <| p_described := true |>) r l in
        if p_pairing p then l
        else l <| l_stage := Granting r (presented enc ≫= authorize_hook l now) sdp enc |>
    end
  end.

(** The rest of [HandleAnswer]: the grant of the terms found, and the checks of the answer. *)
Definition grant (r : nat) (terms : option Terms) (sdp enc : bytes) (l : listener) : listener :=
  match l_objs l !! r with
  | None => l <| l_stage := Idle |>
  | Some p =>
    let hook := fun _ : bytes => match terms with Some _ => Some ([] : bytes) | None => None end in
    let '(conn, res) := HandleAnswer Decrypt (Some hook) [] true sdp enc (p_conn p) in
    let l := on_peer (fun p => let p := p <| p_conn := conn |> in
                               match terms with Some t => p <| p_label := Links.Label t |> <| p_terms := t |> | None => p end) r l in
    match res with
    | Err _ => spawn r [CloseQueue] (l <| l_stage := Idle |>)
    | Ok _ => l <| l_stage := Admitting r |>
    end
  end.

(** The share a peer reaches: a view of its own where the link narrows to a directory; [None] when that is gone. *)
Definition share_for (fs : tree) (eff : Spec) (l : listener) : option (store * option nat) :=
  if negb (bool_decide (FilesPath eff = [])) && negb (bool_decide (FilesPath eff = cfg_filesPath (l_cfg l))) then
    match NewShare fs cwd (FilesPath eff) with
    | None => None
    | Some s => Some (l_shares l ++ [mkShare (s <| UploadEnabled := cfg_filesUpload (l_cfg l) |>) []], Some (length (l_shares l)))
    end
  else Some (l_shares l, l_share l).

Definition peer_context (l : listener) (p : servePeer) (share : option nat) (eff : Spec) : capContext :=
  mkContext (l_cfg l) share (l_uid l) (p_browserIP p) eff (bool_decide (p_label p = OwnerLabel)) [].

(** [servePeer.admit]. *)
Definition admit_peer (r : nat) (p : servePeer) (s : session) (l : listener) : listener :=
  match Publish (p_q p) true with
  | (_, None) => l                  (* teardown won: the session is closed and dropped *)
  | (q, Some _) => on_peer (fun p => p <| p_q := q |> <| p_sess := Some s |>) r l
  end.

(** The rest of [handleAnswer]: the terms become a handler set, and that a session. *)
Definition admission (r : nat) (fs : tree) (l : listener) : listener :=
  let l := l <| l_stage := Idle |> in
  match l_objs l !! r with
  | None => l
  | Some p =>
    if bool_decide (p_label p = []) then spawn r [CloseQueue] l else
    match Effective cwd (p_terms p) (cfg_offered (l_cfg l)) with
    | Err _ => spawn r [CloseQueue] l
    | Ok eff =>
      match share_for fs eff l with
      | None => spawn r [CloseQueue] l
      | Some (shares, share) =>
        let '(shares, h) := buildHandlers (peer_context l p share eff) shares in
        admit_peer r p (NewSession (l_pin l) (map info (h_all h)) [] false) (l <| l_shares := shares |>)
      end
    end
  end.

(** * The poll *)

Definition begin_poll (l : listener) : listener := l <| l_polls := l_polls l ++ [mkPoll (All (l_peers l)) None] |>.

(** [servePeer.revoke]: the session is told and serves nothing further; the peer is closed once the goodbye has drained. *)
Definition revoke (r : nat) (p : servePeer) (why : bytes) (l : listener) : listener :=
  let l := match p_sess p with
           | Some s => on_peer (fun p => p <| p_sess := Some (Goodbye send_error s why) |>) r l
           | None => l
           end in
  spawn r [CloseQueue] l.

(** The turn of [pollPeers] for one peer. *)
Definition poll_turn (t : Table) (now : Time) (r : nat) (l : listener) : listener :=
  match l_objs l !! r with
  | None => l
  | Some p => match poll_peer cwd t now (p_label p) (p_terms p) with
              | Keep => l
              | Revoke why => revoke r p why l
              end
  end.

(** * The listener's life *)

Definition ready_count (s : session) : nat := count (fun o => match o with OnReady => true | _ => false end) (log s).

(** A move of a session; when it becomes ready the deadline is cancelled and the slot given back. *)
Definition session_moves (r : nat) (s s' : session) (l : listener) : listener :=
  let l := on_peer (fun p => p <| p_sess := Some s' |>) r l in
  if (ready_count s <? ready_count s')%nat then spawn r [CancelDeadline; ReleaseSlot] l else l.

(** A frame arrives; an overflow closes the connection. *)
Definition frame_arrives (r : nat) (p : servePeer) (data : bytes) (l : listener) : listener :=
  let '(q, out) := Enqueue (p_q p) data in
  let l := on_peer (fun p => p <| p_q := q |>) r l in
  match out with Overflow => spawn r [CloseConn] l | _ => l end.

(** The connection fails or is closed from the other side. *)
Definition conn_gone (r : nat) (p : servePeer) (l : listener) : listener := spawn r [CloseConn] l.

(** The deadline's timer fires, or its callback runs and closes the peer if it wins. *)
Definition deadline_callback (r : nat) (p : servePeer) (l : listener) : listener :=
  let d := callback (p_deadline p) in
  let l := on_peer (fun p => p <| p_deadline := d |>) r l in
  if (expirations (p_deadline p) <? expirations d)%nat then spawn r [CloseQueue] l else l.

Inductive lsn_step : listener -> listener -> Prop :=
| t_request l clientID ip ok : l_stage l = Idle -> lsn_step l (handleRequest clientID ip ok l)
| t_pair l clientID ok : l_stage l = Idle -> lsn_step l (handlePairRequest clientID ok l)
| t_install l r p : l_stage l = Installing r -> l_objs l !! r = Some p -> lsn_step l (install_close r p l)
| t_answer l clientID sdp enc ok now :
    l_stage l = Idle ->
    (forall r p, Get (l_peers l) clientID = Some r -> l_objs l !! r = Some p -> p_described p = true -> ok = false) ->
    lsn_step l (handleAnswer clientID sdp enc ok now l)
| t_grant l r terms sdp enc : l_stage l = Granting r terms sdp enc -> lsn_step l (grant r terms sdp enc l)
| t_admit l r fs : l_stage l = Admitting r -> lsn_step l (admission r fs l)
| t_open l r p : l_objs l !! r = Some p -> conn_closed (p_conn p) = false -> p_described p = true ->
    lsn_step l (on_peer (fun p => p <| p_opened := true |>) r l)
| t_pair_done l r p : l_objs l !! r = Some p -> p_pairing p = true -> p_opened p = true -> lsn_step l (pair_done r l)
| t_frame l r p data : l_objs l !! r = Some p -> p_opened p = true -> lsn_step l (frame_arrives r p data l)
| t_session l r p s s' : l_objs l !! r = Some p -> p_sess p = Some s ->
    session_step callback_error send_error unmarshal_error s s' -> lsn_step l (session_moves r s s' l)
| t_gone l r p : l_objs l !! r = Some p -> lsn_step l (conn_gone r p l)
| t_fire l r p : l_objs l !! r = Some p -> lsn_step l (on_peer (fun p => p <| p_deadline := fire (p_deadline p) |>) r l)
| t_callback l r p : l_objs l !! r = Some p -> lsn_step l (deadline_callback r p l)
| t_thread l a t b : l_threads l = a ++ t :: b ->
    lsn_step l (let '(l', more) := run_thread t (l <| l_threads := a ++ b |>) in l' <| l_threads := l_threads l' ++ more |>)
| t_links l ls : lstep cwd (l_links l) ls -> lsn_step l (l <| l_links := ls |>)
| t_poll l : lsn_step l (begin_poll l)
| t_poll_read l a p b now t : l_polls l = a ++ p :: b -> poll_table p = None -> table (l_links l) = Some t ->
    lsn_step l (l <| l_polls := a ++ mkPoll (poll_peers p) (Some (t, now)) :: b |>)
| t_poll_turn l a r rs t now b : l_polls l = a ++ mkPoll (r :: rs) (Some (t, now)) :: b ->
    lsn_step l (poll_turn t now r (l <| l_polls := a ++ mkPoll rs (Some (t, now)) :: b |>)).
End Serving.
