(* ===== verification/ListenSpec.v ===== *)
(** The listener of [bitbang serve]: the slots of unready peers are exact and bounded, whoever has a session was admitted
    under a code of the table, the peer set holds the open peers, and a revocation ends the session. *)

From S2P Require Import Prelude GoLib Json Wire Auth Session SessionTrace FrameQueue Grant Links LinkState FileTree Fileshare PeerSet Pairing Handshake Proxy Capability Listen.

#[local] Set Warnings "-clear-no-such-hyp".
#[local] Set Default Proof Using "All".

Section Listening.
Variable cwd : bytes.
Variable Decrypt : bytes -> option bytes.
Variable callback_error : list output -> option bytes.
Variable send_error : list output -> option bytes.
Variable unmarshal_error : bytes -> bytes.

#[local] Abbreviation step := (lsn_step cwd Decrypt callback_error send_error unmarshal_error).
#[local] Abbreviation session_step := (session_step callback_error send_error unmarshal_error).

(** What the listener was started with. *)
Variables (cfg : serveConfig) (uid : bytes) (pin : option PINAuth) (own : option nat) (console : bool).
Variables (links0 : linkState) (shares0 : store).

#[local] Abbreviation started := (start cfg uid pin own console links0 shares0).

(** * What a peer was given *)

(** These terms are those of a code that a table of this listener accepted at some time. *)
Definition vouched (t : Terms) : Prop :=
  exists ls tab code now, steps (lstep cwd) links0 ls /\ table ls = Some tab /\ Authorize tab code now = Some t.

(** The session [s] of a peer: run from the handlers of its terms' reach on this listener. *)
Definition served_by (p : servePeer) (s : session) : Prop :=
  exists eff share st,
    Effective cwd (p_terms p) (cfg_offered cfg) = Ok eff /\
    steps session_step (NewSession pin (map info (h_all (buildHandlers
      (mkContext cfg share uid (p_browserIP p) eff (bool_decide (p_label p = OwnerLabel)) []) st).2)) [] false) s.

Definition is_ready (p : servePeer) : Prop := exists s, p_sess p = Some s /\ OnReady ∈ log s.

(** A peer that needs its slot no more. *)
Definition over (p : servePeer) : Prop := qclosed (p_q p) = true \/ is_ready p.

Definition pending (l : listener) (r : nat) (a : action) : Prop := exists as_, (r, as_) ∈ l_threads l /\ a ∈ as_.

(** A thread gives back only a slot that is over, and forgets a peer only after closing it. *)
Record thread_ok (p : servePeer) (as_ : list action) : Prop := {
  th_release : ReleaseSlot ∈ as_ -> over p;
  th_forget : forall pre post, as_ = pre ++ ForgetPeer :: post -> qclosed (p_q p) = true \/ CloseQueue ∈ pre
}.

Definition installing (l : listener) (r : nat) : Prop := l_stage l = Installing r.

Record peer_ok (l : listener) (r : nat) (p : servePeer) : Prop := {
  k_pairing : p_pairing p = true -> p_held p = false /\ p_sess p = None /\ p_label p = [];
  k_sess : forall s, p_sess p = Some s -> p_described p = true /\ p_label p <> [] /\ served_by p s;
  k_vouched : p_label p <> [] -> p_label p = Links.Label (p_terms p) /\ vouched (p_terms p);
  k_spent : p_pairing p = false -> p_held p = false -> over p;
  k_leak : qclosed (p_q p) = true -> p_held p = true -> pending l r ReleaseSlot;
  k_thread : forall as_, (r, as_) ∈ l_threads l -> thread_ok p as_;
  k_conn : qclosed (p_q p) = true -> conn_closed (p_conn p) = true \/ pending l r CloseConn;
  k_set : qclosed (p_q p) = false -> Get (l_peers l) (p_client p) = Some r;
  k_gone : conn_closed (p_conn p) = true -> Get (l_peers l) (p_client p) = Some r -> installing l r \/ pending l r ForgetPeer;
  k_install : ~ installing l r -> onCloseSet (p_conn p) = true /\ (conn_closed (p_conn p) = false -> onClose (p_conn p) = true);
  k_installing : installing l r -> onCloseSet (p_conn p) = false /\ onClose (p_conn p) = false
}.

Definition answering (l : listener) (r : nat) : Prop :=
  exists p, l_objs l !! r = Some p /\ p_described p = true /\ p_sess p = None /\ p_pairing p = false.

Record listener_ok (l : listener) : Prop := {
  g_peers : forall r p, l_objs l !! r = Some p -> peer_ok l r p;
  g_count : l_unauth l = Z.of_nat (count p_held (l_objs l));
  g_bound : l_unauth l <= maxUnauthSessions;
  g_threads : forall r as_, (r, as_) ∈ l_threads l -> (r < length (l_objs l))%nat;
  g_open_set : closed (l_peers l) = false;
  g_set : forall id r, Get (l_peers l) id = Some r -> exists p, l_objs l !! r = Some p /\ p_client p = id;
  g_links : steps (lstep cwd) links0 (l_links l);
  g_config : l_cfg l = cfg /\ l_uid l = uid /\ l_pin l = pin /\ l_share l = own /\ l_console l = console;
  g_stage : match l_stage l with
            | Idle => True
            | Installing r => (r < length (l_objs l))%nat
            | Granting r terms _ _ => answering l r /\ forall t, terms = Some t -> vouched t
            | Admitting r => answering l r
            end
}.

(** * Frames *)

(** What another peer sees of a step: nothing. *)
Record undisturbed (l l' : listener) (r : nat) (p : servePeer) : Prop := {
  u_threads : forall as_, (r, as_) ∈ l_threads l' <-> (r, as_) ∈ l_threads l;
  u_set : Get (l_peers l') (p_client p) = Some r <-> Get (l_peers l) (p_client p) = Some r;
  u_stage : installing l' r <-> installing l r
}.

Lemma pending_same l l' r p a : undisturbed l l' r p -> pending l r a -> pending l' r a.
Proof. intros U (as_ & Hin & Ha). exists as_. split; [by apply (u_threads _ _ _ _ U)|done]. Qed.

Lemma peer_undisturbed l l' r p : undisturbed l l' r p -> peer_ok l r p -> peer_ok l' r p.
Proof.
  intros U [K1 K2 K3 K4 K5 K6 K7 K8 K9 K10 K11]. split; try done.
  - intros Hq Hh. eapply pending_same; [exact U|by apply K5].
  - intros as_ Hin. apply K6. by apply (u_threads _ _ _ _ U).
  - intros Hq. destruct (K7 Hq); [by left|right]. by eapply pending_same.
  - intros Hq. apply (u_set _ _ _ _ U). by apply K8.
  - intros Hc Hg. apply (u_set _ _ _ _ U) in Hg. destruct (K9 Hc Hg); [left; by apply (u_stage _ _ _ _ U)|right]. by eapply pending_same.
  - intros Hn. apply K10. intros Hi. apply Hn. by apply (u_stage _ _ _ _ U).
  - intros Hi. apply K11. by apply (u_stage _ _ _ _ U).
Qed.

Lemma count_alter f r (objs : list servePeer) p :
  objs !! r = Some p ->
  Z.of_nat (count p_held (alter f r objs)) = Z.of_nat (count p_held objs) + (if p_held (f p) then 1 else 0) - (if p_held p then 1 else 0).
Proof.
  revert objs. induction r as [|r IH]; intros [|q objs] H; try done.
  - injection H as ->. cbn. destruct (p_held p), (p_held (f p)); lia.
  - change (alter f (S r) (q :: objs)) with (q :: alter f r objs). cbn [count]. specialize (IH objs H). destruct (p_held q); lia.
Qed.

(** A step about the one peer [r]: what it leaves alone. *)
Record moves (l l' : listener) (r : nat) (f : servePeer -> servePeer) : Prop := {
  m_objs : l_objs l' = alter f r (l_objs l);
  m_threads : forall r' as_, r' <> r -> (r', as_) ∈ l_threads l' <-> (r', as_) ∈ l_threads l;
  m_stage : l_stage l' = l_stage l \/ l_stage l' = Idle /\ (l_stage l = Installing r \/ forall r', ~ installing l r') \/
            (exists t sdp enc, l_stage l' = Granting r t sdp enc) /\ l_stage l = Idle \/ l_stage l' = Admitting r /\ forall r', ~ installing l r';
  m_links : l_links l' = l_links l;
  m_config : l_cfg l' = l_cfg l /\ l_uid l' = l_uid l /\ l_pin l' = l_pin l /\ l_share l' = l_share l /\ l_console l' = l_console l
}.

Lemma moves_installing l l' r f r' : moves l l' r f -> r' <> r -> installing l' r' <-> installing l r'.
Proof.
  intros M Hne. unfold installing. destruct (m_stage _ _ _ _ M) as [->|[(-> & [->|Hn])|[((t & sdp & enc & ->) & ->)|(-> & Hn)]]];
    try done; try (split; [congruence|]); try congruence; intros H; by destruct (Hn r').
Qed.

Lemma moved_ok l l' r p f :
  listener_ok l -> l_objs l !! r = Some p -> moves l l' r f ->
  p_client (f p) = p_client p -> (p_held (f p) = true -> p_held p = true) ->
  l_unauth l' = l_unauth l + (if p_held (f p) then 1 else 0) - (if p_held p then 1 else 0) ->
  closed (l_peers l') = false ->
  (forall id r', Get (l_peers l') id = Some r' -> Get (l_peers l) id = Some r') ->
  (forall id r', r' <> r -> Get (l_peers l) id = Some r' -> Get (l_peers l') id = Some r') ->
  (l_stage l' = l_stage l /\ (answering l r -> answering l' r) \/ l_stage l' = Idle \/
   (exists t sdp enc, l_stage l' = Granting r t sdp enc /\ answering l' r /\ forall x, t = Some x -> vouched x) \/
   l_stage l' = Admitting r /\ answering l' r) ->
  peer_ok l' r (f p) -> listener_ok l'.
Proof.
  intros HI Hr M Hcl Hheld Hun Hclosed Hget Hget' Hstage HP. destruct HI as [G1 G2 G3 G4 G5 G6 G7 G8 G9].
  pose proof (lookup_lt_Some _ _ _ Hr) as Hlt.
  assert (forall r' p', r' <> r -> l_objs l !! r' = Some p' -> undisturbed l l' r' p') as Hun'.
  { intros r' p' Hne Hp'. split.
    - intros as_. by apply (m_threads _ _ _ _ M).
    - split; [apply Hget|]. intros H. by apply Hget'.
    - by eapply moves_installing. }
  assert (forall r' q, l_objs l' !! r' = Some q -> r' <> r -> l_objs l !! r' = Some q) as Hother.
  { intros r' q. rewrite (m_objs _ _ _ _ M). intros H Hne. by rewrite list_lookup_alter_ne in H by done. }
  assert (l_objs l' !! r = Some (f p)) as Hself by (rewrite (m_objs _ _ _ _ M), list_lookup_alter_eq, Hr; done).
  assert (length (l_objs l') = length (l_objs l)) as Hlen by (rewrite (m_objs _ _ _ _ M); apply length_alter).
  split.
  - intros r' q Hq. destruct (decide (r' = r)) as [->|Hne].
    + by replace q with (f p) by congruence.
    + specialize (Hother _ _ Hq Hne). eapply peer_undisturbed; [by apply Hun'|by apply G1].
  - rewrite Hun, G2, (m_objs _ _ _ _ M). by rewrite (count_alter f r _ p) by done.
  - rewrite Hun. destruct (p_held (f p)) eqn:E; [rewrite Hheld by done|destruct (p_held p)]; lia.
  - intros r' as_ Hin. rewrite Hlen. destruct (decide (r' = r)) as [->|Hne]; [done|]. apply (m_threads _ _ _ _ M) in Hin; [|done]. by eapply G4.
  - done.
  - intros id r' H. specialize (G6 id r' (Hget _ _ H)) as (q & Hq & Hid). destruct (decide (r' = r)) as [->|Hne].
    + exists (f p). split; [done|]. replace q with p in Hid by congruence. by rewrite Hcl.
    + exists q. split; [|done]. rewrite (m_objs _ _ _ _ M). by rewrite list_lookup_alter_ne.
  - by rewrite (m_links _ _ _ _ M).
  - destruct (m_config _ _ _ _ M) as (-> & -> & -> & -> & ->). done.
  - destruct Hstage as [(E & Hans)|[->|[(t & sdp & enc & -> & HA)|(-> & HA)]]]; [|done..].
    assert (forall r', answering l r' -> answering l' r') as HA.
    { intros r' (q & Hq & HH). destruct (decide (r' = r)) as [->|Hne]; [by apply Hans; exists q|].
      exists q. split; [|done]. rewrite (m_objs _ _ _ _ M). by rewrite list_lookup_alter_ne. }
    rewrite E. destruct (l_stage l); [done|by rewrite Hlen|destruct G9 as [G9 G9']; split; [by apply HA|done]|by apply HA].
Qed.

(** The same, for a step that leaves the peer set and the slots alone. *)
Lemma moved_quietly l l' r p f :
  listener_ok l -> l_objs l !! r = Some p -> moves l l' r f -> l_peers l' = l_peers l -> l_unauth l' = l_unauth l -> l_stage l' = l_stage l ->
  p_client (f p) = p_client p -> p_held (f p) = p_held p -> p_pairing (f p) = p_pairing p -> (p_described p = true -> p_described (f p) = true) ->
  (answering l r -> p_sess (f p) = None) ->
  peer_ok l' r (f p) -> listener_ok l'.
Proof.
  intros HI Hr M Hpeers Hun Hst Hcl Hh Hpair Hd Hs HP. eapply (moved_ok l l' r p f); try done.
  - by rewrite Hh.
  - rewrite Hun, Hh. lia.
  - rewrite Hpeers. apply HI.
  - by rewrite Hpeers.
  - by rewrite Hpeers.
  - left. split; [done|]. intros HA. pose proof HA as (q & Hq & H1 & H2 & H3). replace q with p in * by congruence.
    exists (f p). rewrite (m_objs _ _ _ _ M), list_lookup_alter_eq, Hr. split_and!; [done|by apply Hd|by apply Hs|by rewrite Hpair].
Qed.

(** * The peer a step is about *)

(** How a peer's session may have gone on. *)
Definition session_goes (p p' : servePeer) : Prop :=
  p_sess p' = p_sess p \/ exists s s', p_sess p = Some s /\ p_sess p' = Some s' /\ steps session_step s s'.

Lemma ready_goes p p' : session_goes p p' -> is_ready p -> is_ready p'.
Proof.
  intros [E|(s & s' & E & E' & Hs)] (s0 & H0 & Hin); [exists s0; by rewrite E|].
  exists s'. split; [done|]. replace s0 with s in * by congruence.
  destruct (g_log _ _ _ (grows_steps _ _ _ _ _ Hs)) as (k & -> & _). apply elem_of_app. by left.
Qed.

Lemma served_goes p p' : session_goes p p' -> p_terms p' = p_terms p -> p_label p' = p_label p -> p_browserIP p' = p_browserIP p ->
  (forall s, p_sess p = Some s -> served_by p s) -> forall s, p_sess p' = Some s -> served_by p' s.
Proof.
  intros Hg Ht Hl Hb H s Hs. unfold served_by. rewrite Ht, Hl, Hb. destruct Hg as [E|(s1 & s2 & E1 & E2 & Hst)].
  - apply H. congruence.
  - destruct (H s1 E1) as (eff & sh & st & He & Hr). exists eff, sh, st. split; [done|].
    replace s with s2 by congruence. by eapply steps_trans.
Qed.

(** A change of a peer that keeps its identity, its grant, and whether its queue and its connection are closed. *)
Record minor (p p' : servePeer) : Prop := {
  n_client : p_client p' = p_client p;
  n_ip : p_browserIP p' = p_browserIP p;
  n_pairing : p_pairing p' = p_pairing p;
  n_closed : qclosed (p_q p') = qclosed (p_q p);
  n_conn : p_conn p' = p_conn p;
  n_held : p_held p' = p_held p;
  n_label : p_label p' = p_label p;
  n_terms : p_terms p' = p_terms p;
  n_described : p_described p = true -> p_described p' = true;
  n_sess : session_goes p p'
}.

Lemma over_minor p p' : minor p p' -> over p -> over p'.
Proof. intros M [H|H]; [left; by rewrite (n_closed _ _ M)|right]. eapply ready_goes; [apply M|done]. Qed.

Lemma thread_minor p p' as_ : minor p p' -> thread_ok p as_ -> thread_ok p' as_.
Proof.
  intros M [H1 H2]. split; [intros H; eapply over_minor; [done|by apply H1]|].
  intros pre post E. rewrite (n_closed _ _ M). by eapply H2.
Qed.

(** What the threads of [r] still have to do after a step. *)
Definition threads_kept (l l' : listener) (r : nat) : Prop :=
  forall a, a = ReleaseSlot \/ a = CloseConn \/ a = ForgetPeer -> pending l r a -> pending l' r a.

Lemma minor_ok l l' r p p' :
  peer_ok l r p -> minor p p' ->
  (forall as_, (r, as_) ∈ l_threads l' -> (r, as_) ∈ l_threads l \/ thread_ok p' as_) -> threads_kept l l' r ->
  (installing l' r <-> installing l r) -> (Get (l_peers l') (p_client p) = Some r <-> Get (l_peers l) (p_client p) = Some r) ->
  peer_ok l' r p'.
Proof.
  intros [K1 K2 K3 K4 K5 K6 K7 K8 K9 K10 K11] M Hth Hk Hi Hg. pose proof M as [M1 M2 M3 M4 M5 M6 M7 M8 M9 M10].
  assert (forall s, p_sess p' = Some s -> exists s0, p_sess p = Some s0) as Hs0.
  { intros s Hs. destruct M10 as [E|(s1 & s2 & E1 & _)]; [exists s; congruence|by exists s1]. }
  split.
  - rewrite M3, M6, M7. intros H. destruct (K1 H) as (? & Hn & ?). split_and!; try done.
    destruct (p_sess p') as [s|] eqn:E; [|done]. destruct (Hs0 s eq_refl) as [s0 ?]. congruence.
  - intros s Hs. destruct (Hs0 s Hs) as [s0 Hs1]. destruct (K2 s0 Hs1) as (Hd & Hl & _). split_and!; [by apply M9|by rewrite M7|].
    eapply served_goes; [exact M10|done..| |exact Hs]. intros x Hx. by apply K2.
  - rewrite M7, M8. done.
  - rewrite M3, M6. intros H1 H2. eapply over_minor; [done|by apply K4].
  - rewrite M4, M6. intros H1 H2. apply Hk; [by auto|by apply K5].
  - intros as_ Hin. destruct (Hth as_ Hin) as [H|H]; [|done]. eapply thread_minor; [done|by apply K6].
  - rewrite M4, M5. intros H. destruct (K7 H); [by left|right; apply Hk; auto].
  - rewrite M4, M1. intros H. by apply Hg, K8.
  - rewrite M5, M1. intros H1 H2%Hg. destruct (K9 H1 H2); [left; by apply Hi|right; apply Hk; auto].
  - rewrite M5. intros H. apply K10. intros Hx. by apply H, Hi.
  - rewrite M5. intros H. by apply K11, Hi.
Qed.

Lemma elem_of_spawned l r as_ r' bs : (r', bs) ∈ l_threads (spawn r as_ l) <-> (r', bs) ∈ l_threads l \/ (r' = r /\ bs = as_).
Proof. cbn. rewrite elem_of_app, list_elem_of_singleton. split; intros [H|H]; [by left|right; by inv H|by left|right]. destruct H as [-> ->]. done. Qed.

Lemma spawned_kept l r as_ : threads_kept l (spawn r as_ l) r.
Proof. intros a _ (bs & Hin & Ha). exists bs. split; [|done]. apply elem_of_spawned. by left. Qed.

(** Threads that neither give back a slot nor forget a peer they did not close. *)
Lemma close_thread_ok p : thread_ok p [CloseQueue].
Proof.
  split; [by intros [?|?%elem_of_nil]%elem_of_cons|]. intros pre post E. destruct pre as [|a [|b pre]]; by inv E.
Qed.

Lemma conn_thread_ok p : thread_ok p [CloseConn].
Proof.
  split; [by intros [?|?%elem_of_nil]%elem_of_cons|]. intros pre post E. destruct pre as [|a [|b pre]]; by inv E.
Qed.

Lemma on_close_ok p : thread_ok p on_close.
Proof.
  split; [by intros [?|[?|?%elem_of_nil]%elem_of_cons]%elem_of_cons|].
  intros pre post E. right. unfold on_close in E. destruct pre as [|a pre]; inv E. left.
Qed.

(** A minor change, and at most one new thread. *)
Lemma minor_step l r p f as_ :
  listener_ok l -> l_objs l !! r = Some p -> minor p (f p) -> (p_sess p = None -> p_sess (f p) = None) -> thread_ok (f p) as_ ->
  listener_ok (on_peer f r l) /\ listener_ok (spawn r as_ (on_peer f r l)).
Proof.
  intros HI Hr M Hsn Hth.
  assert (forall b, moves l (if b : bool then spawn r as_ (on_peer f r l) else on_peer f r l) r f) as Hm.
  { intros b. split; [by destruct b| |left; by destruct b|by destruct b|by destruct b].
    intros r' bs Hne. destruct b; [|done]. rewrite elem_of_spawned. cbn. split; [intros [?|[? _]]; done|by left]. }
  assert (forall b : bool, listener_ok (if b then spawn r as_ (on_peer f r l) else on_peer f r l)) as H.
  { intros b. eapply (moved_quietly l _ r p f); try done.
    - by destruct b.
    - by destruct b.
    - by destruct b.
    - apply M.
    - apply M.
    - apply M.
    - apply M.
    - intros (q & Hq & _ & Hs & _). apply Hsn. congruence.
    - eapply (minor_ok l); [by apply HI|done| | |by destruct b|by destruct b].
      + intros bs. destruct b; [|by left]. rewrite elem_of_spawned. intros [?|[_ ->]]; [by left|by right].
      + destruct b; [|intros a _ Ha; exact Ha]. intros a Ha. by apply (spawned_kept (on_peer f r l)). }
  split; [apply (H false)|apply (H true)].
Qed.

(** * The actions of the threads *)

(** The thread of [r] whose first action [a] runs, and the threads afterwards. *)
Record runs (l l' : listener) (r : nat) (a : action) (rest more : list action) : Prop := {
  rn_head : (r, a :: rest) ∈ l_threads l;
  rn_old : forall r' as_, (r', as_) ∈ l_threads l' -> (r', as_) ∈ l_threads l \/ r' = r /\ as_ = more ++ rest;
  rn_new : (r, more ++ rest) ∈ l_threads l';
  rn_kept : forall r' as_, (r', as_) ∈ l_threads l -> (r', as_) ∈ l_threads l' \/ r' = r /\ as_ = a :: rest
}.

Lemma runs_pending l l' r a rest more x : runs l l' r a rest more -> pending l r x -> x = a \/ pending l' r x.
Proof.
  intros [H1 H2 H3 H4] (bs & Hin & Hx). destruct (H4 r bs Hin) as [H|[_ ->]]; [right; by exists bs|].
  apply elem_of_cons in Hx as [->|Hx]; [by left|right]. exists (more ++ rest). split; [done|]. apply elem_of_app. by right.
Qed.

Lemma runs_others l l' r a rest more : runs l l' r a rest more -> forall r' as_, r' <> r -> (r', as_) ∈ l_threads l' <-> (r', as_) ∈ l_threads l.
Proof.
  intros [H1 H2 H3 H4] r' bs Hne. split; intros H; [by destruct (H2 _ _ H) as [?|[? _]]|by destruct (H4 _ _ H) as [?|[? _]]].
Qed.

Lemma thread_as p p' as_ : p_q p' = p_q p -> p_sess p' = p_sess p -> thread_ok p as_ -> thread_ok p' as_.
Proof.
  intros Hq Hs [H1 H2]. split; [|by rewrite Hq]. intros H. unfold over, is_ready. rewrite Hq, Hs. by apply H1.
Qed.

Lemma thread_tail p a rest : thread_ok p (a :: rest) -> (a = CloseQueue -> qclosed (p_q p) = true) -> thread_ok p rest.
Proof.
  intros [H1 H2] Ha. split; [intros H; apply H1; by right|]. intros pre post ->.
  destruct (H2 (a :: pre) post eq_refl) as [?|[<-|?]%elem_of_cons]; [by left|left; by apply Ha|by right].
Qed.

Lemma closing_thread p as_ : qclosed (p_q p) = true -> thread_ok p as_.
Proof. intros H. split; [by left|by left]. Qed.

Lemma runs_threads l l' r a rest more p' :
  runs l l' r a rest more -> (forall as_, (r, as_) ∈ l_threads l -> thread_ok p' as_) -> thread_ok p' (more ++ rest) ->
  forall as_, (r, as_) ∈ l_threads l' -> thread_ok p' as_.
Proof. intros R H1 H2 as_ H. destruct (rn_old _ _ _ _ _ _ R _ _ H) as [?|[_ ->]]; [by apply H1|done]. Qed.

(** Closing the queue. *)
Lemma act_close_queue l l' r p rest :
  listener_ok l -> l_objs l !! r = Some p ->
  runs l l' r CloseQueue rest (act CloseQueue r p l).2 -> moves l l' r (fun p => p <| p_q := (FrameQueue.Close (p_q p)).1 |>) ->
  l_peers l' = l_peers l -> l_unauth l' = l_unauth l -> l_stage l' = l_stage l -> listener_ok l'.
Proof.
  intros HI Hr R M Hp Hu Hs. pose proof (g_peers _ HI _ _ Hr) as HP. set (f := fun p : servePeer => p <| p_q := (FrameQueue.Close (p_q p)).1 |>) in *.
  assert (qclosed (p_q (f p)) = true) as Hc by (unfold f, FrameQueue.Close; cbn; by destruct (qclosed (p_q p)) eqn:E).
  eapply (moved_quietly l l' r p f); try done; [by intros (q & Hq & _ & Hsn & _); replace p with q by congruence|].
  assert (more_spec : forall x, qclosed (p_q p) = false -> x ∈ [CancelDeadline; CloseSession; ReleaseSlot; CloseConn] -> pending l' r x).
  { intros x E Hx. exists ((act CloseQueue r p l).2 ++ rest). split; [by apply R|]. apply elem_of_app. left.
    unfold act, FrameQueue.Close. by rewrite E. }
  assert (installing l' r <-> installing l r) as Hi by (unfold installing; by rewrite Hs).
  destruct HP as [K1 K2 K3 K4 K5 K6 K7 K8 K9 K10 K11]. split; try done.
  - intros _ _. by left.
  - intros _ Hh. destruct (qclosed (p_q p)) eqn:E; [|apply more_spec; [done|set_solver]].
    destruct (runs_pending _ _ _ _ _ _ _ R (K5 eq_refl Hh)) as [?|?]; done.
  - intros as_ _. by apply closing_thread.
  - intros _. destruct (qclosed (p_q p)) eqn:E; [|right; apply more_spec; [done|set_solver]].
    destruct (K7 eq_refl) as [?|Hpd]; [by left|right]. by destruct (runs_pending _ _ _ _ _ _ _ R Hpd).
  - congruence.
  - intros Hcc Hg. rewrite Hp in Hg. destruct (K9 Hcc Hg) as [?|Hpd]; [left; by apply Hi|right]. by destruct (runs_pending _ _ _ _ _ _ _ R Hpd).
  - intros Hn. apply K10. intros Hx. by apply Hn, Hi.
  - intros Hx. by apply K11, Hi.
Qed.

(** Cancelling the deadline, closing the session. *)
Lemma act_minor l l' r p f a rest :
  listener_ok l -> l_objs l !! r = Some p -> a = CancelDeadline \/ a = CloseSession ->
  runs l l' r a rest [] -> moves l l' r f -> minor p (f p) -> (p_sess p = None -> p_sess (f p) = None) ->
  l_peers l' = l_peers l -> l_unauth l' = l_unauth l -> l_stage l' = l_stage l -> listener_ok l'.
Proof.
  intros HI Hr Ha R M N Hsn Hp Hu Hs. pose proof (g_peers _ HI _ _ Hr) as HP.
  eapply (moved_quietly l l' r p f); try done; [apply N..| |].
  - intros (q & Hq & _ & Hq' & _). apply Hsn. congruence.
  - eapply (minor_ok l); [done|done| | | |by rewrite Hp].
    + intros as_ Hin. destruct (rn_old _ _ _ _ _ _ R _ _ Hin) as [?|[_ ->]]; [by left|right].
      eapply (thread_tail _ a); [eapply thread_minor; [done|by apply (k_thread _ _ _ HP), R]|]. intros ->. by destruct Ha.
    + intros x Hx Hpd. destruct (runs_pending _ _ _ _ _ _ _ R Hpd) as [->|?]; [|done]. destruct Ha as [->| ->], Hx as [?|[?|?]]; done.
    + unfold installing. by rewrite Hs.
Qed.

(** Giving back the slot. *)
Lemma act_release l l' r p rest :
  listener_ok l -> l_objs l !! r = Some p -> runs l l' r ReleaseSlot rest [] ->
  moves l l' r (fun p => p <| p_held := false |>) -> l_peers l' = l_peers l -> l_stage l' = l_stage l ->
  l_unauth l' = l_unauth l - (if p_held p then 1 else 0) -> listener_ok l'.
Proof.
  intros HI Hr R M Hp Hs Hu. pose proof (g_peers _ HI _ _ Hr) as HP.
  assert (thread_ok p (ReleaseSlot :: rest)) as Hth by apply (k_thread _ _ _ HP), R.
  assert (over p) as Hov by (apply Hth; left).
  assert (installing l' r <-> installing l r) as Hi by (unfold installing; by rewrite Hs).
  eapply (moved_ok l l' r p); try done; [cbn; lia|rewrite Hp; apply HI|by rewrite Hp|by rewrite Hp| |].
  { left. split; [done|]. intros (q & Hq & H). exists (q <| p_held := false |>). split; [|done].
    rewrite (m_objs _ _ _ _ M), list_lookup_alter_eq, Hq. done. }
  destruct HP as [K1 K2 K3 K4 K5 K6 K7 K8 K9 K10 K11]. split; try done.
  - intros H. destruct (K1 H) as (_ & ?). done.
  - intros as_ Hin. apply (runs_threads _ _ _ _ _ _ _ R); [intros bs Hb; apply (thread_as p); [done..|by apply K6]| |exact Hin].
    apply (thread_as p); [done..|]. by eapply thread_tail.
  - intros H. destruct (K7 H) as [?|Hpd]; [by left|right]. by destruct (runs_pending _ _ _ _ _ _ _ R Hpd).
  - rewrite Hp. done.
  - rewrite Hp. intros H1 H2. destruct (K9 H1 H2) as [?|Hpd]; [left; by apply Hi|right]. by destruct (runs_pending _ _ _ _ _ _ _ R Hpd).
  - intros Hn. apply K10. intros Hx. by apply Hn, Hi.
  - intros Hx. by apply K11, Hi.
Qed.

Lemma installing_dec l r : installing l r \/ ~ installing l r.
Proof.
  unfold installing. destruct (l_stage l) as [|r'|r' t a b|r']; try (by right).
  destruct (decide (r' = r)) as [->|Hne]; [by left|right]. congruence.
Qed.

Lemma fireClose_facts c :
  conn_closed (fireClose c) = true /\ onCloseSet (fireClose c) = onCloseSet c /\ onClose (fireClose c) = onClose c.
Proof. unfold fireClose. destruct (conn_closed c) eqn:E; [by rewrite E|]. cbn. by destruct (onClose c) eqn:E2. Qed.

(** Closing the connection: its callback, when there is one, runs now. *)
Lemma act_close_conn l l' r p rest :
  listener_ok l -> l_objs l !! r = Some p -> runs l l' r CloseConn rest (if fires (p_conn p) then on_close else []) ->
  moves l l' r (fun p => p <| p_conn := fireClose (p_conn p) |>) ->
  l_peers l' = l_peers l -> l_unauth l' = l_unauth l -> l_stage l' = l_stage l -> listener_ok l'.
Proof.
  intros HI Hr R M Hp Hu Hs. pose proof (g_peers _ HI _ _ Hr) as HP.
  eapply (moved_quietly l l' r p); try done; [by intros (q & Hq & _ & Hsn & _); replace p with q by congruence|].
  assert (thread_ok p (CloseConn :: rest)) as Hth by apply (k_thread _ _ _ HP), R.
  destruct (fireClose_facts (p_conn p)) as (F1 & F2 & F3).
  assert (installing l' r <-> installing l r) as Hi by (unfold installing; by rewrite Hs).
  destruct HP as [K1 K2 K3 K4 K5 K6 K7 K8 K9 K10 K11]. split; cbn -[fireClose]; try done.
  - intros H1 H2. by destruct (runs_pending _ _ _ _ _ _ _ R (K5 H1 H2)).
  - intros as_ Hin. apply (runs_threads _ _ _ _ _ _ _ R); [intros bs Hb; apply (thread_as p); [done..|by apply K6]| |exact Hin].
    apply (thread_as p); [done..|]. assert (thread_ok p rest) as T by (by eapply thread_tail). pose proof T as [T1 T2].
    destruct (fires _); [|exact T]. split.
    + intros [?|[?|H]%elem_of_cons]%elem_of_cons; [done..|]. by apply T1.
    + intros pre post E. right. destruct pre as [|a pre]; inv E. left.
  - by left.
  - by rewrite Hp.
  - rewrite Hp. intros _ Hg. destruct (conn_closed (p_conn p)) eqn:E.
    + destruct (K9 eq_refl Hg) as [?|Hpd]; [left; by apply Hi|right]. by destruct (runs_pending _ _ _ _ _ _ _ R Hpd).
    + destruct (onClose (p_conn p)) eqn:E2.
      * right. eexists. split; [apply R|]. unfold fires. rewrite E, E2. right. left.
      * left. apply Hi. destruct (installing_dec l r) as [?|Hn]; [done|]. destruct (K10 Hn) as [_ H]. by specialize (H eq_refl).
  - intros Hn. rewrite F1, F2. split; [|done]. apply K10. intros Hx. by apply Hn, Hi.
  - intros Hx. rewrite F2, F3. by apply K11, Hi.
Qed.

Lemma Forget_spec (s : @Set_ nat) id r id' r' :
  closed (Forget s id r) = closed s /\ (Get (Forget s id r) id' = Some r' <-> Get s id' = Some r' /\ ~ (id' = id /\ r' = r)).
Proof.
  unfold Forget, Get. destruct (peers s !! id) as [cur|] eqn:E; [case_decide as H|]; (split; [done|]).
  - subst cur. cbn. rewrite lookup_delete_Some. split; [intros [? ?]; split; [done|]; by intros [-> _]|].
    intros [H1 H2]. split; [|done]. intros ->. apply H2. split; [done|congruence].
  - split; [|by intros [? _]]. intros H1. split; [done|]. intros [-> ->]. congruence.
  - split; [|by intros [? _]]. intros H1. split; [done|]. intros [-> ->]. congruence.
Qed.

(** Forgetting the peer. *)
Lemma act_forget l l' r p rest :
  listener_ok l -> l_objs l !! r = Some p -> runs l l' r ForgetPeer rest [] -> moves l l' r id ->
  l_peers l' = Forget (l_peers l) (p_client p) r -> l_unauth l' = l_unauth l -> l_stage l' = l_stage l -> listener_ok l'.
Proof.
  intros HI Hr R M Hp Hu Hs. pose proof (g_peers _ HI _ _ Hr) as HP.
  pose proof (fun id r' => proj2 (Forget_spec (l_peers l) (p_client p) r id r')) as HF.
  assert (thread_ok p (ForgetPeer :: rest)) as Hth by apply (k_thread _ _ _ HP), R.
  assert (qclosed (p_q p) = true) as Hc.
  { destruct Hth as [_ H]. by destruct (H [] rest eq_refl) as [?|?%elem_of_nil]. }
  eapply (moved_ok l l' r p); try done.
  - rewrite Hu. cbn. lia.
  - rewrite Hp. rewrite (proj1 (Forget_spec (l_peers l) (p_client p) r [] 0%nat)). apply HI.
  - intros i r'. rewrite Hp. intros H%HF. apply H.
  - intros i r' Hne H. rewrite Hp. apply HF. split; [done|]. by intros [_ ?].
  - left. split; [done|]. intros (q & Hq & H). exists q. split; [|done]. rewrite (m_objs _ _ _ _ M). by rewrite list_lookup_alter_eq, Hq.
  - assert (installing l' r <-> installing l r) as Hi by (unfold installing; by rewrite Hs).
    destruct HP as [K1 K2 K3 K4 K5 K6 K7 K8 K9 K10 K11]. split; cbn; try done.
    + intros H1 H2. by destruct (runs_pending _ _ _ _ _ _ _ R (K5 H1 H2)).
    + intros as_ Hin. by apply closing_thread.
    + intros H. destruct (K7 H) as [?|Hpd]; [by left|right]. by destruct (runs_pending _ _ _ _ _ _ _ R Hpd).
    + congruence.
    + intros _ Hg. rewrite Hp in Hg. apply HF in Hg as [_ Hn]. by destruct Hn.
    + intros Hn. apply K10. intros Hx. by apply Hn, Hi.
    + intros Hx. by apply K11, Hi.
Qed.

(** * Every step *)

(** What the invariant does not look at. *)
Lemma aside_ok l l' :
  l_objs l' = l_objs l -> l_threads l' = l_threads l -> l_peers l' = l_peers l -> l_unauth l' = l_unauth l -> l_stage l' = l_stage l ->
  l_links l' = l_links l -> l_cfg l' = l_cfg l -> l_uid l' = l_uid l -> l_pin l' = l_pin l -> l_share l' = l_share l -> l_console l' = l_console l ->
  listener_ok l -> listener_ok l'.
Proof.
  intros E1 E2 E3 E4 E5 E6 E7 E8 E9 E10 E11 [G1 G2 G3 G4 G5 G6 G7 G8 G9].
  assert (forall r, answering l r -> answering l' r) as HA by (intros r (q & Hq & H); exists q; by rewrite E1).
  split; rewrite ?E1, ?E2, ?E3, ?E4, ?E5, ?E6, ?E7, ?E8, ?E9, ?E10, ?E11; try done.
  - intros r p Hp. eapply peer_undisturbed; [|by apply G1]. split; [by rewrite E2|by rewrite E3|by unfold installing; rewrite E5].
  - destruct (l_stage l); try done; [destruct G9 as [? ?]; split; [by apply HA|done]|by apply HA].
Qed.

Lemma fresh_peer_ok l r clientID ip pairing held hold :
  l_stage l = Installing r -> Get (l_peers l) clientID = Some r -> (forall as_, (r, as_) ∉ l_threads l) -> held = negb pairing ->
  peer_ok l r (newServePeer clientID ip pairing held hold).
Proof.
  intros Hs Hg Hth Hh. split; cbn; try done; [by destruct pairing, held|by destruct pairing, held|by intros as_ H%Hth].
Qed.

(** A new peer, registered, without its callback yet. *)
Lemma append_ok l clientID ip pairing held hold l' :
  listener_ok l -> l_stage l = Idle -> Get (l_peers l) clientID = None -> held = negb pairing -> (held = true -> l_unauth l < maxUnauthSessions) ->
  let r := length (l_objs l) in
  l_objs l' = l_objs l ++ [newServePeer clientID ip pairing held hold] -> l_threads l' = l_threads l ->
  l_peers l' = mkSet (<[clientID := r]> (peers (l_peers l))) (closed (l_peers l)) -> l_unauth l' = l_unauth l + (if held then 1 else 0) ->
  l_stage l' = Installing r -> l_links l' = l_links l ->
  (l_cfg l' = l_cfg l /\ l_uid l' = l_uid l /\ l_pin l' = l_pin l /\ l_share l' = l_share l /\ l_console l' = l_console l) ->
  listener_ok l'.
Proof.
  cbn zeta. intros [G1 G2 G3 G4 G5 G6 G7 G8 G9] Hidle Hno Hh Hbound E1 E2 E3 E4 E5 E6 (C1 & C2 & C3 & C4 & C5).
  set (r := length (l_objs l)) in *.
  assert (forall id r', Get (l_peers l') id = Some r' <-> id = clientID /\ r' = r \/ id <> clientID /\ Get (l_peers l) id = Some r') as Hget.
  { intros id r'. rewrite E3. unfold Get. cbn. rewrite lookup_insert_Some. naive_solver. }
  split; rewrite ?E1, ?E2, ?E4, ?E5, ?E6, ?C1, ?C2, ?C3, ?C4, ?C5; try done.
  - intros r' p [Hp|[Hge Hp]]%lookup_app_Some.
    + pose proof (lookup_lt_Some _ _ _ Hp) as Hlt. eapply peer_undisturbed; [|by apply G1]. split.
      * by rewrite E2.
      * rewrite Hget. split; [|intros H; right; split; [|done]; intros <-; congruence].
        intros [[_ ->]|[_ H]]; [unfold r in Hlt; lia|done].
      * unfold installing. rewrite E5, Hidle. split; [|done]. intros [= <-]. unfold r in Hlt. lia.
    + apply list_lookup_singleton_Some in Hp as [Hz <-]. assert (r' = r) as -> by (unfold r; lia).
      apply fresh_peer_ok; [done|by apply Hget; left| |done].
      intros as_ Hin. rewrite E2 in Hin. apply G4 in Hin. unfold r in Hin. lia.
  - rewrite count_app, G2. cbn. destruct held; lia.
  - destruct held; [specialize (Hbound eq_refl)|]; lia.
  - intros r' as_ Hin. apply G4 in Hin. rewrite length_app. cbn. lia.
  - by rewrite E3.
  - intros id r' [[-> ->]|[_ H]]%Hget.
    + exists (newServePeer clientID ip pairing held hold). split; [|done]. unfold r. rewrite lookup_app_r by lia. by rewrite Nat.sub_diag.
    + destruct (G6 _ _ H) as (q & Hq & Hid). exists q. split; [|done]. by apply lookup_app_l_Some.
  - rewrite length_app. cbn. unfold r. lia.
Qed.

Lemma Add_absent (s : @Set_ nat) id r : closed s = false -> Get s id = None -> Add s id r = (mkSet (<[id := r]> (peers s)) (closed s), true).
Proof. intros Hc Hg. unfold Add, AddLimited. rewrite Hc. cbn. unfold Get in Hg. by rewrite Hg. Qed.

Lemma Has_Get (s : @Set_ nat) id : Has s id = false -> Get s id = None.
Proof. unfold Has, Get. rewrite bool_decide_eq_false. by destruct (peers s !! id) eqn:E; [intros []|]. Qed.

Lemma handleRequest_ok l clientID ip ok : listener_ok l -> l_stage l = Idle -> listener_ok (handleRequest clientID ip ok l).
Proof.
  intros HI Hs. unfold handleRequest. destruct (_ || _) eqn:E1; [done|]. apply orb_false_elim in E1 as [_ E1%Has_Get].
  destruct (_ >=? _) eqn:E2; [done|]. destruct ok; [|done]. cbn [negb]. pose proof (g_open_set _ HI) as Hop.
  cbv zeta. match goal with |- context [Add ?s _ _] => change s with (l_peers l) end. rewrite Add_absent by done.
  eapply (append_ok l clientID ip false true false); try done. intros _. lia.
Qed.

Lemma handlePairRequest_ok l clientID ok : listener_ok l -> l_stage l = Idle -> listener_ok (handlePairRequest clientID ok l).
Proof.
  intros HI Hs. unfold handlePairRequest. destruct (_ || _) eqn:E1; [done|]. apply orb_false_elim in E1 as [_ E1%Has_Get].
  assert (forall l0, listener_ok l0 -> listener_ok (Hold l0) /\ listener_ok (Unhold l0)) as HH.
  { intros l0 H. unfold Hold, Unhold. destruct (l_console l0) eqn:Ec; [|done].
    split; (eapply aside_ok; [..|exact H]; try reflexivity; cbn; congruence). }
  destruct ok; cbn [negb]; [|by apply HH, HH].
  assert (l_peers (Hold l) = l_peers l /\ l_stage (Hold l) = l_stage l) as [Ep Es] by (unfold Hold; by destruct (l_console l)).
  cbv zeta. match goal with |- context [Add ?s _ _] => change s with (l_peers (Hold l)) end. rewrite Ep, Add_absent by (try done; apply HI).
  pose proof (proj1 (HH l HI)) as HI'.
  eapply (append_ok (Hold l) clientID [] true false true); try done; [by rewrite Es|by rewrite Ep|by rewrite <- Ep|cbn; lia].
Qed.

Lemma spawn_ok l r p as_ : listener_ok l -> l_objs l !! r = Some p -> thread_ok p as_ -> listener_ok (spawn r as_ l).
Proof.
  intros HI Hr Hth. destruct (minor_step l r p id as_ HI Hr) as [_ H]; [split; try done; by left|done|done|].
  eapply aside_ok; [..|exact H]; try done. cbn. by rewrite list_alter_id.
Qed.

(** The signaling goroutine goes back to its loop. *)
Lemma idle_ok l : listener_ok l -> (forall r, ~ installing l r) -> listener_ok (l <| l_stage := Idle |>).
Proof.
  intros [G1 G2 G3 G4 G5 G6 G7 G8 G9] Hn. split; try done. intros r p Hp.
  eapply peer_undisturbed; [|by apply G1]. split; try done. split; [done|]. intros H. by destruct (Hn r).
Qed.

Lemma install_ok l r p : listener_ok l -> l_stage l = Installing r -> l_objs l !! r = Some p -> listener_ok (install_close r p l).
Proof.
  intros HI Hs Hr. pose proof (g_peers _ HI _ _ Hr) as HP. unfold install_close.
  destruct (k_installing _ _ _ HP Hs) as [F1 F2]. rewrite F1, andb_true_r.
  set (f := fun p : servePeer => p <| p_conn := SetOnClose (p_conn p) true |>).
  set (l1 := on_peer f r l <| l_stage := Idle |>). set (l' := if conn_closed (p_conn p) then spawn r on_close l1 else l1).
  assert (forall r' as_, (r', as_) ∈ l_threads l' <-> (r', as_) ∈ l_threads l \/ conn_closed (p_conn p) = true /\ r' = r /\ as_ = on_close) as Hth.
  { intros r' as_. unfold l'. destruct (conn_closed (p_conn p)); [rewrite elem_of_spawned; cbn; naive_solver|]. cbn. naive_solver. }
  assert (forall x, pending l r x -> pending l' r x) as Hpd by (intros x (bs & Hin & Hx); exists bs; split; [by apply Hth; left|done]).
  assert (l_peers l' = l_peers l /\ l_stage l' = Idle) as [E1 E2] by (unfold l'; by destruct (conn_closed _)).
  eapply (moved_ok l l' r p f); try done.
  - split; [unfold l'; by destruct (conn_closed _)| |right; left; split; [done|by left]|unfold l'; by destruct (conn_closed _)|unfold l'; by destruct (conn_closed _)].
    intros r' as_ Hne. rewrite Hth. naive_solver.
  - unfold l'. destruct (conn_closed _); cbn; lia.
  - rewrite E1. apply HI.
  - by rewrite E1.
  - by rewrite E1.
  - right. by left.
  - assert (SetOnClose (p_conn p) true = if conn_closed (p_conn p) then (p_conn p) <| onCloseSet := true |> <| conn_log := inr 0%nat :: conn_log (p_conn p) |>
      else (p_conn p) <| onCloseSet := true |> <| onClose := true |>) as Hset.
    { unfold SetOnClose. rewrite F1. destruct (p_conn p) as [? ? ? [] ? ? ?]; done. }
    destruct HP as [K1 K2 K3 K4 K5 K6 K7 K8 K9 K10 K11]. split; cbn; try done.
    + intros H1 H2. by apply Hpd, K5.
    + intros as_ [H|(_ & _ & ->)]%Hth; [|apply on_close_ok]. apply (thread_as p); [done..|by apply K6].
    + rewrite Hset. intros H. destruct (conn_closed (p_conn p)) eqn:E; [by left|]. destruct (K7 H); [by left|right; by apply Hpd].
    + rewrite E1. done.
    + rewrite Hset. intros H _. destruct (conn_closed (p_conn p)) eqn:E; [|cbn in H; congruence]. right. exists on_close. split; [|right; left]. apply Hth. by right.
    + intros _. rewrite Hset. destruct (conn_closed (p_conn p)) eqn:E; cbn; by rewrite ?E.
    + unfold installing. by rewrite E2.
Qed.

Lemma handleAnswer_ok l clientID sdp enc ok now :
  listener_ok l -> l_stage l = Idle ->
  (forall r p, Get (l_peers l) clientID = Some r -> l_objs l !! r = Some p -> p_described p = true -> ok = false) ->
  listener_ok (handleAnswer Decrypt clientID sdp enc ok now l).
Proof.
  intros HI Hs Hd. unfold handleAnswer. destruct (Get _ _) as [r|] eqn:Eg; [|done]. destruct (l_objs l !! r) as [p|] eqn:Hr; [|done].
  destruct ok; cbn [negb]; [|by eapply spawn_ok; [|done|apply close_thread_ok]].
  assert (p_described p = false) as Hnd by (destruct (p_described p) eqn:E; [by specialize (Hd r p eq_refl Hr E)|done]).
  assert (p_sess p = None) as Hns by (destruct (p_sess p) as [s|] eqn:E; [destruct (k_sess _ _ _ (g_peers _ HI _ _ Hr) s E); congruence|done]).
  set (f := fun p : servePeer => p <| p_described := true |>).
  assert (minor p (f p)) as M by (split; try done; by left).
  destruct (p_pairing p) eqn:Epair; [by eapply (minor_step l r p f []); [..|split; [by intros ?%elem_of_nil|by intros [|]]]|].
  pose proof (g_peers _ HI _ _ Hr) as HP.
  eapply (moved_ok l _ r p f); try done.
  - split; try done. right. right. left. split; [by eexists _, _, _|done].
  - cbn. destruct (p_held p); lia.
  - cbn. apply HI.
  - right. right. left. eexists _, _, _. split_and!; [reflexivity| |].
    + exists (f p). cbn. rewrite list_lookup_alter_eq, Hr. split_and!; done.
    + intros x (code & Hc & (tab & Ht & Ha)%bind_Some)%bind_Some. exists (l_links l), tab, code, now. split_and!; try done. apply HI.
  - eapply (minor_ok l); [done|done|by left|by intros a _ Ha|unfold installing; cbn; rewrite Hs; done|done].
Qed.

Lemma HandleAnswer_keeps hook ok sdp enc c :
  let c' := (HandleAnswer Decrypt hook [] ok sdp enc c).1 in
  conn_closed c' = conn_closed c /\ onCloseSet c' = onCloseSet c /\ onClose c' = onClose c.
Proof.
  cbn zeta. unfold HandleAnswer, markVerifyFailed. repeat (first [case_match | case_decide]); by cbn.
Qed.

Lemma grant_ok l r terms sdp enc : listener_ok l -> l_stage l = Granting r terms sdp enc -> listener_ok (grant Decrypt r terms sdp enc l).
Proof.
  intros HI Hs. pose proof (g_stage _ HI) as Hst. rewrite Hs in Hst. destruct Hst as [(p & Hr & Hd & Hns & Hpair) Hv].
  pose proof (g_peers _ HI _ _ Hr) as HP. unfold grant. rewrite Hr.
  set (hook := fun _ : bytes => match terms with Some _ => Some [] | None => None end).
  pose proof (HandleAnswer_keeps (Some hook) true sdp enc (p_conn p)) as HK. cbn zeta in HK.
  destruct (HandleAnswer Decrypt (Some hook) [] true sdp enc (p_conn p)) as [conn res]. cbn [fst] in HK. destruct HK as (C1 & C2 & C3).
  set (f := fun q : servePeer => let q := q <| p_conn := conn |> in match terms with Some t => q <| p_label := Links.Label t |> <| p_terms := t |> | None => q end).
  set (l1 := on_peer f r l).
  assert (p_q (f p) = p_q p /\ p_sess (f p) = p_sess p /\ p_client (f p) = p_client p /\ p_held (f p) = p_held p /\ p_pairing (f p) = p_pairing p /\
          p_described (f p) = p_described p /\ p_conn (f p) = conn) as (E1 & E2 & E3 & E4 & E5 & E6 & E7) by (unfold f; by destruct terms).
  assert (forall st, st = Idle \/ st = Admitting r -> listener_ok (l1 <| l_stage := st |>)) as H1.
  { intros st Hst. eapply (moved_ok l _ r p f); try done.
    - split; try done. destruct Hst as [->| ->]; right; [left; split; [done|right]|right; right; split; [done|]]; intros r'; unfold installing; by rewrite Hs.
    - by rewrite E4.
    - rewrite E4. cbn. lia.
    - cbn. apply HI.
    - destruct Hst as [->| ->]; right; [by left|right; right; split; [done|]]. exists (f p). cbn. rewrite list_lookup_alter_eq, Hr.
      rewrite E2, E5, E6. done.
    - assert (installing (l1 <| l_stage := st |>) r <-> installing l r) as Hi by (unfold installing; cbn; rewrite Hs; by destruct Hst as [->| ->]).
      destruct HP as [K1 K2 K3 K4 K5 K6 K7 K8 K9 K10 K11]. split; rewrite ?E1, ?E2, ?E3, ?E4, ?E5, ?E6, ?E7, ?C1, ?C2, ?C3; try done.
      + rewrite Hpair. done.
      + by rewrite Hns.
      + unfold f. destruct terms as [t|]; [|done]. intros _. split; [done|by apply Hv].
      + intros A B. unfold over, is_ready. rewrite E1, E2. by apply K4.
      + intros as_ Hin. apply (thread_as p); [done..|by apply K6].
      + intros A B. destruct (K9 A B); [left; by apply Hi|by right].
      + intros H. apply K10. intros Hx. by apply H, Hi.
      + intros Hx. by apply K11, Hi. }
  destruct res; [by apply H1; right|].
  eapply (spawn_ok (l1 <| l_stage := Idle |>) r (f p)); [by apply H1; left| |apply close_thread_ok].
  cbn. by rewrite list_lookup_alter_eq, Hr.
Qed.

Lemma admission_ok l r fs : listener_ok l -> l_stage l = Admitting r -> listener_ok (admission cwd r fs l).
Proof.
  intros HI Hs. pose proof (g_stage _ HI) as Hst. rewrite Hs in Hst. destruct Hst as (p & Hr & Hd & Hns & Hpair).
  pose proof (g_peers _ HI _ _ Hr) as HP.
  assert (forall r', ~ installing l r') as Hni by (intros r'; unfold installing; by rewrite Hs).
  assert (listener_ok (l <| l_stage := Idle |>)) as HI0 by (by apply idle_ok).
  assert (listener_ok (spawn r [CloseQueue] (l <| l_stage := Idle |>))) as Hclose by (by eapply spawn_ok; [done|done|apply close_thread_ok]).
  unfold admission. change (l_objs (l <| l_stage := Idle |>)) with (l_objs l). rewrite Hr.
  case_bool_decide as Hl; [done|]. destruct (Effective _ _ _) as [eff|] eqn:He; [|done].
  destruct (share_for _ _ _ _) as [[st sh]|]; [|done]. destruct (buildHandlers _ _) as [st' h] eqn:Eb.
  set (s := NewSession _ _ _ _). unfold admit_peer, Publish.
  destruct (g_config _ HI) as (G1 & G2 & G3 & G4 & G5).
  destruct (qclosed (p_q p)) eqn:Eq; [eapply aside_ok; [..|exact HI0]; done|].
  destruct (takePendingLocked _) as [q batch] eqn:Et.
  assert (qclosed q = false) as Hq.
  { unfold takePendingLocked in Et. injection Et as <- _. cbn. by destruct (deliver (p_q p)). }
  set (f := fun p : servePeer => p <| p_q := q |> <| p_sess := Some s |>).
  match goal with |- listener_ok ?x => set (l' := x) end.
  eapply (moved_ok l l' r p f); try done.
  - split; try done. right. left. split; [done|by right].
  - cbn. destruct (p_held p); lia.
  - cbn. apply HI.
  - right. by left.
  - assert (installing l' r <-> installing l r) as Hi by (split; [done|intros H; by destruct (Hni r)]).
    destruct HP as [K1 K2 K3 K4 K5 K6 K7 K8 K9 K10 K11].
    assert (over p -> over (f p)) as Hov by (intros [H|(s0 & H & _)]; congruence).
    split; cbn; rewrite ?Eq in *; rewrite ?Hq; try done.
    + by rewrite Hpair.
    + intros s0 [= <-]. split_and!; [done|done|]. exists eff, sh, st. split; [by rewrite <- G1|].
      unfold s, peer_context in *. cbn in Eb. rewrite G1, G2 in Eb. cbn. rewrite Eb, G3. apply steps_refl.
    + intros A B. by apply Hov, K4.
    + intros as_ Hin. destruct (K6 _ Hin) as [T1 T2]. split; [intros H; by apply Hov, T1|]. intros pre post E.
      destruct (T2 pre post E) as [?|?]; [congruence|by right].
    + intros H1 H2. destruct (K9 H1 H2) as [?|?]; [left; by apply Hi|by right].
    + intros H. apply K10. intros Hx. by apply H, Hi.
Qed.

Lemma ready_count_log s s' : (ready_count s < ready_count s')%nat -> OnReady ∈ log s'.
Proof.
  unfold ready_count. intros H. assert (0 < count (fun o => match o with OnReady => true | _ => false end) (log s'))%nat as Hc by lia.
  revert Hc. generalize (log s'). induction l as [|o l IH]; cbn; [lia|]. intros Hc. destruct o; try (right; apply IH; lia). left.
Qed.

Lemma session_ok l r p s s' :
  listener_ok l -> l_objs l !! r = Some p -> p_sess p = Some s -> session_step s s' -> listener_ok (session_moves r s s' l).
Proof.
  intros HI Hr Hp Hs. unfold session_moves. set (f := fun p : servePeer => p <| p_sess := Some s' |>).
  assert (minor p (f p)) as M by (split; try done; right; exists s, s'; split_and!; [done|done|by apply steps_one]).
  destruct (_ <? _)%nat eqn:E.
  - eapply (minor_step l r p f); [done|done|done|congruence|]. split.
    + intros _. right. exists s'. split; [done|]. apply Nat.ltb_lt in E. by eapply ready_count_log.
    + intros pre post Ep. destruct pre as [|a [|b [|c pre]]]; by inv Ep.
  - eapply (minor_step l r p f []); [done|done|done|congruence|]. split; [by intros ?%elem_of_nil|by intros [|]].
Qed.

Lemma poll_turn_ok l r t now : listener_ok l -> listener_ok (poll_turn cwd send_error t now r l).
Proof.
  intros HI. unfold poll_turn. destruct (l_objs l !! r) as [p|] eqn:Hr; [|done]. destruct (poll_peer _ _ _ _ _) as [|why]; [done|].
  unfold revoke. destruct (p_sess p) as [s|] eqn:Ep; [|by eapply spawn_ok; [done|done|apply close_thread_ok]].
  set (f := fun p : servePeer => p <| p_sess := Some (Goodbye send_error s why) |>).
  eapply (minor_step l r p f [CloseQueue]); [done|done| |congruence|apply close_thread_ok].
  split; try done. right. exists s. eexists. split_and!; [done|reflexivity|apply steps_one, ss_goodbye].
Qed.

Lemma runs_intro l l' a r x rest more b :
  l_threads l = a ++ (r, x :: rest) :: b -> l_threads l' = (a ++ b) ++ [(r, more ++ rest)] -> runs l l' r x rest more.
Proof.
  intros E1 E2. split.
  - rewrite E1. apply elem_of_app. right. left.
  - intros r' bs. rewrite E2, E1, !elem_of_app, !elem_of_cons, elem_of_nil. naive_solver.
  - rewrite E2. apply elem_of_app. right. by apply list_elem_of_singleton.
  - intros r' bs. rewrite E2, E1, !elem_of_app, !elem_of_cons, elem_of_nil. naive_solver.
Qed.

(** An action changes at most its peer, and not what the signaling goroutine does. *)
Lemma empty_thread l a r b :
  listener_ok l -> l_threads l = a ++ (r, []) :: b -> listener_ok (l <| l_threads := a ++ b |>).
Proof.
  intros HI Ht. assert (forall x, (x ∈ a ++ b -> x ∈ l_threads l) /\ (x ∈ l_threads l -> x ∈ a ++ b \/ x = (r, []))) as Hth.
  { intros x. rewrite Ht, !elem_of_app, elem_of_cons. naive_solver. }
  assert ((r < length (l_objs l))%nat) as [p Hr]%lookup_lt_is_Some_2.
  { eapply (g_threads _ HI). rewrite Ht. apply elem_of_app. right. left. }
  assert (forall r' as_, r' <> r -> (r', as_) ∈ a ++ b <-> (r', as_) ∈ l_threads l) as Hoth.
  { intros r' as_ Hne. split; [apply Hth|]. intros H. by destruct (proj2 (Hth _) H) as [?|[= ? _]]. }
  eapply (moved_quietly l _ r p id); try done.
  - split; try done; [cbn; by rewrite list_alter_id|by left].
  - by intros (q & Hq & _ & Hs & _); replace p with q by congruence.
  - eapply (minor_ok l); [by apply HI|split; try done; by left|intros as_ Hin; left; by apply Hth| |done|done].
    intros x _ (bs & Hin & Hx). destruct (proj2 (Hth _) Hin) as [H|[= ->]]; [by exists bs|by apply elem_of_nil in Hx].
Qed.

Lemma thread_ok_step l a t b :
  listener_ok l -> l_threads l = a ++ t :: b ->
  listener_ok (let '(l', more) := run_thread t (l <| l_threads := a ++ b |>) in l' <| l_threads := l_threads l' ++ more |>).
Proof.
  intros HI Ht. destruct t as [r [|x rest]].
  { cbn [run_thread]. eapply aside_ok; [..|exact (empty_thread l a r b HI Ht)]; try done. cbn. by rewrite app_nil_r. }
  assert ((r < length (l_objs l))%nat) as [p Hr]%lookup_lt_is_Some_2.
  { eapply (g_threads _ HI). rewrite Ht. apply elem_of_app. right. left. }
  cbn [run_thread]. change (l_objs (l <| l_threads := a ++ b |>)) with (l_objs l). rewrite Hr.
  assert (forall l0 more, l_threads l0 = a ++ b -> runs l (l0 <| l_threads := l_threads l0 ++ [(r, more ++ rest)] |>) r x rest more) as HR.
  { intros l0 more H0. eapply runs_intro; [exact Ht|]. cbn. by rewrite H0. }
  assert (forall l0 f more, l_objs l0 = alter f r (l_objs l) -> l_threads l0 = a ++ b -> l_stage l0 = l_stage l -> l_links l0 = l_links l ->
     (l_cfg l0 = l_cfg l /\ l_uid l0 = l_uid l /\ l_pin l0 = l_pin l /\ l_share l0 = l_share l /\ l_console l0 = l_console l) ->
     moves l (l0 <| l_threads := l_threads l0 ++ [(r, more ++ rest)] |>) r f) as HM.
  { intros l0 f more E1 E2 E3 E4 E5. split; try done; [|by left]. intros r' as_ Hne. by apply (runs_others _ _ _ _ _ _ (HR l0 more E2)). }
  set (l0 := l <| l_threads := a ++ b |>). destruct x; cbn [act].
  - destruct (FrameQueue.Close (p_q p)) as [q did] eqn:Eq.
    eapply (act_close_queue l _ r p rest); [done|done|..]; try done.
    + cbn [act]. rewrite Eq. cbn [snd]. by apply HR.
    + apply HM; try done. cbn. apply list_alter_ext; [|done]. intros p' Hp'. replace p' with p by congruence. by rewrite Eq.
  - eapply (act_minor l _ r p (fun p => p <| p_deadline := Done (p_deadline p) |>) CancelDeadline rest); try done; [by left|by apply HR|by apply HM|].
    split; try done. by left.
  - eapply (act_minor l _ r p (fun p => p <| p_sess := Session.Close <$> p_sess p |>) CloseSession rest); try done; [by right|by apply HR|by apply HM| |].
    + split; try done. cbn. destruct (p_sess p) as [s|] eqn:E; [|left; cbn; by rewrite E]. right. exists s, (Session.Close s). cbn. rewrite E.
      split_and!; [done|done|apply steps_one, ss_close].
    + cbn. by intros ->.
  - unfold release. change (l_objs l0) with (l_objs l). rewrite Hr. destruct (p_held p) eqn:E.
    + eapply (act_release l _ r p rest); try done; [by apply HR|by apply HM|by rewrite E].
    + eapply (act_release l _ r p rest); try done; [by apply HR| |cbn; rewrite E; lia].
      apply HM; try done. cbn. rewrite <- (list_alter_id id (l_objs l) r) at 1 by done. apply list_alter_ext; [|done].
      intros p' Hp'. replace p' with p by congruence. destruct p. cbn in *. by rewrite E.
  - eapply (act_close_conn l _ r p rest); try done; [by apply HR|by apply HM].
  - eapply (act_forget l _ r p rest); try done; [by apply HR|]. apply HM; try done. cbn. by rewrite list_alter_id.
Qed.

Lemma listener_step_ok l l' : listener_ok l -> step l l' -> listener_ok l'.
Proof.
  intros HI Hs. destruct Hs as [l clientID ip ok H|l clientID ok H|l r p H Hr|l clientID sdp enc ok now H Hd|l r terms sdp enc H|l r fs H|l r p Hr Hc Hd|
    l r p Hr Hp Ho|l r p data Hr Ho|l r p s s' Hr Hp Hst|l r p Hr|l r p Hr|l r p Hr|l a t b Ht|l ls Hl|l|l a p b now t Hp Hn Ht|l a r rs t now b Hp].
  - by apply handleRequest_ok.
  - by apply handlePairRequest_ok.
  - by apply install_ok.
  - by apply handleAnswer_ok.
  - by eapply grant_ok.
  - by apply admission_ok.
  - eapply (minor_step l r p _ []); [done|done|split; try done; by left|done|]. split; [by intros ?%elem_of_nil|by intros [|]].
  - unfold pair_done. rewrite Hr. destruct (p_hold p); [|done].
    assert (listener_ok (on_peer (fun p => p <| p_hold := false |>) r l)) as H.
    { eapply (minor_step l r p _ []); [done|done|split; try done; by left|done|]. split; [by intros ?%elem_of_nil|by intros [|]]. }
    unfold Unhold. cbn. destruct (l_console l) eqn:E; [|exact H]. eapply aside_ok; [..|exact H]; try done.
  - unfold frame_arrives. destruct (Enqueue (p_q p) data) as [q out] eqn:E. set (f := fun p : servePeer => p <| p_q := q |>).
    assert (minor p (f p)) as M.
    { split; try done; [|by left]. cbn. unfold Enqueue in E. destruct (qclosed (p_q p)) eqn:Eq; [inv E; done|]. repeat case_match; inv E; done. }
    assert (listener_ok (on_peer f r l) /\ listener_ok (spawn r [CloseConn] (on_peer f r l))) as [H1 H2]
      by (eapply minor_step; [done|done|done|done|apply conn_thread_ok]).
    destruct out; done.
  - by eapply session_ok.
  - eapply spawn_ok; [done|done|apply conn_thread_ok].
  - eapply (minor_step l r p _ []); [done|done|split; try done; by left|done|]. split; [by intros ?%elem_of_nil|by intros [|]].
  - unfold deadline_callback. set (f := fun p' : servePeer => p' <| p_deadline := callback (p_deadline p) |>).
    assert (listener_ok (on_peer f r l) /\ listener_ok (spawn r [CloseQueue] (on_peer f r l))) as [H1 H2]
      by (eapply (minor_step l r p); [done|done|split; try done; by left|done|apply close_thread_ok]).
    by destruct (_ <? _)%nat.
  - by apply thread_ok_step.
  - destruct HI as [G1 G2 G3 G4 G5 G6 G7 G8 G9]. split; try done.
    + intros r p Hp. eapply peer_undisturbed; [|by apply G1]. done.
    + eapply steps_trans; [done|by apply steps_one].
  - eapply aside_ok; [..|exact HI]; done.
  - eapply aside_ok; [..|exact HI]; done.
  - apply poll_turn_ok. eapply aside_ok; [..|exact HI]; done.
Qed.

Lemma listener_reachable l : steps step started l -> listener_ok l.
Proof.
  intros H. eapply (steps_invariant step listener_ok); [|exact H|]; [intros; by eapply listener_step_ok|].
  split; try done.
  - intros r as_ H0. by apply elem_of_nil in H0.
  - apply steps_refl.
Qed.

(** * How a peer came by its grant and its session *)























(** Nothing is left to do for a peer. *)
Definition settled (l : listener) (r : nat) : Prop := forall a, ~ pending l r a.

(** The slots of the peers that have not finished their handshake. However requests, answers, frames, deadlines, polls and
    closings interleave, the counter is the number of peers that hold a slot and never passes its bound; a peer that is
    open and holds none has a session that became ready, behind the PIN where the listener has one; and a peer that is
    closed, once nothing is left to do for it, holds none. *)
Theorem unready_slots_exact l :
  steps step started l ->
  l_unauth l = Z.of_nat (count p_held (l_objs l)) /\ 0 <= l_unauth l <= maxUnauthSessions /\
  (forall r p, l_objs l !! r = Some p -> p_pairing p = false -> p_held p = false -> qclosed (p_q p) = false ->
     exists s, p_sess p = Some s /\ OnReady ∈ log s /\
       (Required pin = true -> exists data pw, Received data ∈ log s /\ auth_attempt data = Some pw /\ Verify pin pw = true)) /\
  (forall r p, l_objs l !! r = Some p -> qclosed (p_q p) = true -> settled l r -> p_held p = false).
Proof.
  intros Hl%listener_reachable. destruct Hl as [G1 G2 G3 G4 G5 G6 G7 G8 G9]. split_and!; [done|lia|done| |].
  - intros r p Hr Hp Hh Hq. destruct (k_spent _ _ _ (G1 _ _ Hr) Hp Hh) as [?|(s & Hs & Hready)]; [congruence|]. exists s. split_and!; [done..|].
    intros Hpin. destruct (k_sess _ _ _ (G1 _ _ Hr) s Hs) as (_ & _ & eff & sh & st & _ & Hst).
    destruct (locked_or_unlocked _ _ _ _ _ _ _ _ Hpin Hst) as [Hps [HL|(data & pw & HU)]].
    + destruct HL as (_&_&_&_&_&_&_&_&Hlog). rewrite Forall_forall in Hlog. by apply Hlog in Hready.
    + exists data, pw. by rewrite Hps in HU.
  - intros r p Hr Hq Hset. destruct (p_held p) eqn:E; [|done]. by destruct (Hset ReleaseSlot (k_leak _ _ _ (G1 _ _ Hr) Hq E)).
Qed.


(** The peer set. Every open peer is found under its client ID, an ID names one peer at most, and a peer that is closed, once
    nothing is left to do for it and its callback is installed, is found no more. *)
Theorem peer_set_exact l r p :
  steps step started l -> l_objs l !! r = Some p ->
  (qclosed (p_q p) = false -> Get (l_peers l) (p_client p) = Some r) /\
  (qclosed (p_q p) = true -> settled l r -> ~ installing l r -> forall id, Get (l_peers l) id <> Some r).
Proof.
  intros Hl%listener_reachable Hr. pose proof (g_peers _ Hl _ _ Hr) as HP. split; [apply HP|].
  intros Hq Hset Hi id Hg. destruct (g_set _ Hl _ _ Hg) as (q & Hq' & <-). replace q with p in Hg by congruence.
  assert (conn_closed (p_conn p) = true) as Hc by (destruct (k_conn _ _ _ HP Hq) as [?|H]; [done|by apply Hset in H]).
  destruct (k_gone _ _ _ HP Hc Hg) as [?|H]; [done|by apply Hset in H].
Qed.

(** * What a peer can become *)

Record develops (l : listener) (r : nat) (p p' : servePeer) : Prop := {
  ev_closed : qclosed (p_q p) = true -> qclosed (p_q p') = true;
  ev_conn : conn_closed (p_conn p) = true -> conn_closed (p_conn p') = true;
  ev_sess : session_goes p p' \/ p_sess p = None /\ qclosed (p_q p) = false;
  ev_opened : p_opened p' = p_opened p \/ conn_closed (p_conn p) = false;
  ev_hold : p_hold p' = p_hold p \/ p_opened p = true
}.

Lemma develops_refl l r p : develops l r p p.
Proof. split; try done; try by left. left. by left. Qed.

Definition session_over (p : servePeer) : Prop := forall s, p_sess p = Some s -> sclosed s = true.

(** What a step does to a peer, and to what its threads still have to do. *)
Record follows (l l' : listener) (r : nat) (p p' : servePeer) : Prop := {
  fo_develops : develops l r p p';
  fo_close : pending l r CloseQueue -> pending l' r CloseQueue \/ qclosed (p_q p') = true;
  fo_closing : qclosed (p_q p) = false -> qclosed (p_q p') = true -> pending l' r CloseSession;
  fo_session : pending l r CloseSession -> pending l' r CloseSession \/ session_over p'
}.

Definition follows_all (l l' : listener) : Prop := forall r p, l_objs l !! r = Some p -> exists p', l_objs l' !! r = Some p' /\ follows l l' r p p'.

(** The steps that are not an action of a thread keep every thread. *)
Lemma aside_follows l l' r0 f :
  l_objs l' = alter f r0 (l_objs l) -> (forall t, t ∈ l_threads l -> t ∈ l_threads l') ->
  (forall q, l_objs l !! r0 = Some q -> develops l r0 q (f q) /\ qclosed (p_q (f q)) = qclosed (p_q q)) -> follows_all l l'.
Proof.
  intros E Hth Hf r p Hp.
  assert (forall x, pending l r x -> pending l' r x) as Hk by (intros x (bs & Hin & Hx); exists bs; split; [by apply Hth|done]).
  rewrite E. destruct (decide (r0 = r)) as [->|Hne].
  - exists (f p). split; [by rewrite list_lookup_alter_eq, Hp|]. destruct (Hf _ Hp) as [He Hq]. split; [done|..].
    + intros H. left. by apply Hk.
    + congruence.
    + intros H. left. by apply Hk.
  - exists p. split; [by rewrite list_lookup_alter_ne|]. split; [apply develops_refl|..].
    + intros H. left. by apply Hk.
    + congruence.
    + intros H. left. by apply Hk.
Qed.

Lemma same_follows l l' : (forall r p, l_objs l !! r = Some p -> l_objs l' !! r = Some p) -> (forall t, t ∈ l_threads l -> t ∈ l_threads l') -> follows_all l l'.
Proof.
  intros Ho Hth r p Hp. exists p. split; [by apply Ho|].
  assert (forall x, pending l r x -> pending l' r x) as Hk by (intros x (bs & Hin & Hx); exists bs; split; [by apply Hth|done]).
  split; [apply develops_refl|intros H; left; by apply Hk|congruence|intros H; left; by apply Hk].
Qed.

Lemma spawn_keeps l r as_ t : t ∈ l_threads l -> t ∈ l_threads (spawn r as_ l).
Proof. intros H. cbn. apply elem_of_app. by left. Qed.

Lemma develops_minor l r p p' :
  p_q p' = p_q p -> conn_closed (p_conn p') = conn_closed (p_conn p) -> session_goes p p' -> p_opened p' = p_opened p -> p_hold p' = p_hold p ->
  develops l r p p' /\ qclosed (p_q p') = qclosed (p_q p).
Proof. intros Hq Hc Hs Ho Hh. rewrite Hq. split; [|done]. split; rewrite ?Hq, ?Hc; try done; by left. Qed.

Lemma append_follows l l' p0 :
  l_objs l' = l_objs l ++ [p0] -> (forall t, t ∈ l_threads l -> t ∈ l_threads l') -> follows_all l l'.
Proof. intros E. apply same_follows. intros r p Hp. rewrite E. by apply lookup_app_l_Some. Qed.

Lemma Close_session_over s : sclosed (Session.Close s) = true.
Proof.
  unfold Session.Close. by destruct (sclosed s) eqn:E.
Qed.

Lemma thread_follows l a t b :
  listener_ok l -> l_threads l = a ++ t :: b ->
  follows_all l (let '(l', more) := run_thread t (l <| l_threads := a ++ b |>) in l' <| l_threads := l_threads l' ++ more |>).
Proof.
  intros HI Ht. destruct t as [r0 [|x rest]].
  { cbn [run_thread]. intros r p Hp. exists p. split; [done|].
    assert (forall y, pending l r y -> pending (l <| l_threads := a ++ b |> <| l_threads := (a ++ b) ++ [] |>) r y) as Hk.
    { intros y (bs & Hin & Hy). exists bs. split; [|done]. cbn. rewrite app_nil_r. rewrite Ht, elem_of_app, elem_of_cons in Hin.
      destruct Hin as [?|[[= -> ->]|?]]; [apply elem_of_app; by left|by apply elem_of_nil in Hy|apply elem_of_app; by right]. }
    split; [apply develops_refl|intros H; left; by apply Hk|congruence|intros H; left; by apply Hk]. }
  assert ((r0 < length (l_objs l))%nat) as [p0 Hr0]%lookup_lt_is_Some_2.
  { eapply (g_threads _ HI). rewrite Ht. apply elem_of_app. right. left. }
  cbn [run_thread]. change (l_objs (l <| l_threads := a ++ b |>)) with (l_objs l). rewrite Hr0.
  set (l0 := l <| l_threads := a ++ b |>).
  assert (exists f, l_objs (act x r0 p0 l0).1 = alter f r0 (l_objs l) /\ l_threads (act x r0 p0 l0).1 = a ++ b /\
    develops l r0 p0 (f p0) /\
    (x = CloseQueue -> qclosed (p_q (f p0)) = true) /\ (x = CloseSession -> session_over (f p0)) /\
    (qclosed (p_q p0) = false -> qclosed (p_q (f p0)) = true -> CloseSession ∈ (act x r0 p0 l0).2)) as (f & E1 & E2 & He & Hq & Hs & Hc).
  { destruct x; cbn [act].
    - destruct (FrameQueue.Close (p_q p0)) as [q did] eqn:Eq. exists (fun p => p <| p_q := q |>).
      assert (qclosed q = true /\ did = negb (qclosed (p_q p0))) as [Hqc ->] by (unfold FrameQueue.Close in Eq; destruct (qclosed (p_q p0)) eqn:?; inv Eq; done).
      split_and!; try done.
      + split; try done; try (by left). left. by left.
      + cbn. intros -> _. right. left.
    - exists (fun p => p <| p_deadline := Done (p_deadline p) |>). split_and!; try done; [apply develops_minor; try done; by left|cbn; congruence].
    - exists (fun p => p <| p_sess := Session.Close <$> p_sess p |>). split_and!; try done; [|intros _ s; cbn|cbn; congruence].
      + apply develops_minor; try done. destruct (p_sess p0) as [s|] eqn:E; [|left; cbn; by rewrite E]. right. exists s, (Session.Close s). cbn. rewrite E.
        split_and!; [done|done|apply steps_one, ss_close].
      + destruct (p_sess p0) as [s0|]; [|done]. cbn. intros [= <-]. apply Close_session_over.
    - unfold release. change (l_objs l0) with (l_objs l). rewrite Hr0. destruct (p_held p0) eqn:E.
      + exists (fun p => p <| p_held := false |>). split_and!; try done; [apply develops_minor; try done; by left|cbn; congruence].
      + exists id. split_and!; try done; [by rewrite list_alter_id|apply develops_refl|cbn; congruence].
    - exists (fun p => p <| p_conn := fireClose (p_conn p) |>). split_and!; try done; [|cbn -[fireClose]; congruence].
      split; try done; try (by left); [|left; by left]. intros _. apply fireClose_facts.
    - exists id. split_and!; try done; [cbn; by rewrite list_alter_id|apply develops_refl|cbn; congruence]. }
  destruct (act x r0 p0 l0) as [l1 more]. cbn [fst snd] in *.
  set (l' := l1 <| l_threads := l_threads l1 ++ [(r0, more ++ rest)] |>).
  assert (runs l l' r0 x rest more) as R by (eapply runs_intro; [exact Ht|]; cbn; by rewrite E2).
  assert (forall r y, r <> r0 -> pending l r y -> pending l' r y) as Hother.
  { intros r y Hne (bs & Hin & Hy). exists bs. split; [|done]. by apply (runs_others _ _ _ _ _ _ R). }
  intros r p Hp. change (l_objs l') with (l_objs l1). rewrite E1. destruct (decide (r0 = r)) as [->|Hne].
  - exists (f p). replace p with p0 in * by congruence. split; [by rewrite list_lookup_alter_eq, Hr0|]. split; [done|..].
    + intros H. destruct (runs_pending _ _ _ _ _ _ _ R H) as [<-|?]; [right; by apply Hq|by left].
    + intros H1 H2. eexists. split; [apply R|]. apply elem_of_app. left. by apply Hc.
    + intros H. destruct (runs_pending _ _ _ _ _ _ _ R H) as [<-|?]; [right; by apply Hs|by left].
  - exists p. split; [by rewrite list_lookup_alter_ne|]. split; [apply develops_refl|..].
    + intros H. left. by apply Hother.
    + congruence.
    + intros H. left. by apply Hother.
Qed.

Lemma on_peer_follows l r f as_ :
  (forall q, l_objs l !! r = Some q -> develops l r q (f q) /\ qclosed (p_q (f q)) = qclosed (p_q q)) ->
  follows_all l (on_peer f r l) /\ follows_all l (spawn r as_ (on_peer f r l)).
Proof.
  intros H. split; (eapply aside_follows; [reflexivity| |exact H]); [done|]. intros t Ht. by apply spawn_keeps.
Qed.

Lemma listener_step_follows l l' : listener_ok l -> step l l' -> follows_all l l'.
Proof.
  intros HI Hs. destruct Hs as [l clientID ip ok H|l clientID ok H|l r p H Hr|l clientID sdp enc ok now H Hd|l r terms sdp enc H|l r fs H|l r p Hr Hc Hd|
    l r p Hr Hp Ho|l r p data Hr Ho|l r p s s' Hr Hp Hst|l r p Hr|l r p Hr|l r p Hr|l a t b Ht|l ls Hl|l|l a p b now t Hp Hn Ht|l a r rs t now b Hp].
  - unfold handleRequest. repeat case_match; try (by apply same_follows); eapply append_follows; try reflexivity; intros t Ht; try done; by apply spawn_keeps.
  - unfold handlePairRequest, Hold, Unhold. repeat case_match; try (by apply same_follows); eapply append_follows; try reflexivity; intros t Ht; try done; by apply spawn_keeps.
  - unfold install_close. destruct (_ && _); (eapply (aside_follows l _ r); [reflexivity|intros t Ht; try done; by apply spawn_keeps|]).
    all: intros q Hq; apply develops_minor; try done; [|by left]; cbn; unfold SetOnClose; repeat case_match; done.
  - unfold handleAnswer. destruct (Get _ _) as [r|]; [|by apply same_follows]. destruct (l_objs l !! r) as [p|]; [|by apply same_follows].
    destruct ok; cbn [negb]; [|apply same_follows; [done|intros t Ht; by apply spawn_keeps]].
    destruct (p_pairing p); (eapply (aside_follows l _ r); [reflexivity|done|]); intros q Hq; apply develops_minor; try done; by left.
  - unfold grant. destruct (l_objs l !! r) as [p|] eqn:Hr; [|by apply same_follows].
    set (hook := Some _). pose proof (HandleAnswer_keeps hook true sdp enc (p_conn p)) as HK. cbn zeta in HK.
    destruct (HandleAnswer _ hook [] true sdp enc (p_conn p)) as [conn res]. cbn [fst] in HK. destruct HK as (HK & _).
    destruct res; (eapply (aside_follows l _ r); [reflexivity|intros t Ht; try done; by apply spawn_keeps|]);
      intros q Hq; (replace q with p by congruence); destruct terms; apply develops_minor; try done; by left.
  - pose proof (g_stage _ HI) as Hst. rewrite H in Hst. destruct Hst as (p & Hr & Hd & Hns & Hpair).
    assert (follows_all l (spawn r [CloseQueue] (l <| l_stage := Idle |>))) as Hclose by (apply same_follows; [done|intros t Ht; by apply spawn_keeps]).
    unfold admission. change (l_objs (l <| l_stage := Idle |>)) with (l_objs l). rewrite Hr.
    case_bool_decide; [done|]. destruct (Effective _ _ _); [|done]. destruct (share_for _ _ _ _) as [[st sh]|]; [|done].
    destruct (buildHandlers _ _) as [st' h]. unfold admit_peer, Publish. destruct (qclosed (p_q p)) eqn:Eq; [by apply same_follows|].
    destruct (takePendingLocked _) as [q batch] eqn:Et.
    assert (qclosed q = false) as Hq by (unfold takePendingLocked in Et; injection Et as <- _; cbn; by destruct (deliver (p_q p))).
    eapply (aside_follows l _ r); [reflexivity|done|]. intros q' Hq'. replace q' with p by congruence. split; [|cbn; congruence].
    split; try done; [cbn; congruence|right; done|by left|by left].
  - apply (on_peer_follows l r _ []). intros q Hq. replace q with p by congruence. split; [|done]. split; try done; [left; by left|by right|by left].
  - unfold pair_done. rewrite Hr. destruct (p_hold p); [|by apply same_follows]. unfold Unhold.
    cbn. destruct (l_console l); (eapply (aside_follows l _ r); [reflexivity|done|]); intros q Hq; (replace q with p by congruence); (split; [|done]); (split; try done; [left; by left|by left|by right]).
  - unfold frame_arrives. destruct (Enqueue (p_q p) data) as [q out] eqn:E.
    assert (qclosed q = qclosed (p_q p)) as Hq.
    { unfold Enqueue in E. destruct (qclosed (p_q p)) eqn:Eq; [inv E; done|]. repeat case_match; inv E; done. }
    assert (follows_all l (on_peer (fun p => p <| p_q := q |>) r l) /\ follows_all l (spawn r [CloseConn] (on_peer (fun p => p <| p_q := q |>) r l))) as [H1 H2].
    { apply on_peer_follows. intros q' Hq'. replace q' with p by congruence. split; [|done].
      split; try done; [cbn; congruence|left; by left|by left|by left]. }
    by destruct out.
  - unfold session_moves. assert (forall b, follows_all l (on_peer (fun p => p <| p_sess := Some s' |>) r l) /\
      follows_all l (spawn r b (on_peer (fun p => p <| p_sess := Some s' |>) r l))) as H.
    { intros b. apply on_peer_follows. intros q Hq. replace q with p by congruence. apply develops_minor; try done.
      right. exists s, s'. split_and!; [done|done|by apply steps_one]. }
    destruct (_ <? _)%nat; [apply H|apply (H [])].
  - apply same_follows; [done|]. intros t Ht. by apply spawn_keeps.
  - apply (on_peer_follows l r _ []). intros q Hq. apply develops_minor; try done. by left.
  - unfold deadline_callback. set (f := fun p' : servePeer => _).
    assert (follows_all l (on_peer f r l) /\ follows_all l (spawn r [CloseQueue] (on_peer f r l))) as [H1 H2]
      by (apply on_peer_follows; intros q Hq; apply develops_minor; try done; by left).
    by destruct (_ <? _)%nat.
  - by apply thread_follows.
  - by apply same_follows.
  - by apply same_follows.
  - by apply same_follows.
  - unfold poll_turn. change (l_objs (l <| l_polls := _ |>)) with (l_objs l). destruct (l_objs l !! r) as [p|] eqn:Hr; [|by apply same_follows].
    destruct (poll_peer _ _ _ _ _) as [|why]; [by apply same_follows|]. unfold revoke.
    destruct (p_sess p) as [s|] eqn:Ep; [|apply same_follows; [done|intros x Hx; by apply spawn_keeps]].
    eapply (aside_follows l _ r); [reflexivity|intros x Hx; by apply spawn_keeps|]. intros q Hq. replace q with p by congruence.
    apply develops_minor; try done. right. exists s. eexists. split_and!; [done|reflexivity|apply steps_one, ss_goodbye].
Qed.

(** A peer on its way out: its closing is due or has begun, and a session it had serves no more. *)
Definition leaving (had : bool) (l : listener) (r : nat) : Prop :=
  exists p, l_objs l !! r = Some p /\
    (qclosed (p_q p) = false -> pending l r CloseQueue) /\
    (qclosed (p_q p) = true -> session_over p \/ pending l r CloseSession) /\
    (had = true -> exists s, p_sess p = Some s /\ sclosed s = true).

Lemma closed_goes p p' : session_goes p p' -> forall s, p_sess p = Some s -> sclosed s = true -> exists s', p_sess p' = Some s' /\ sclosed s' = true.
Proof.
  intros [E|(s1 & s2 & E1 & E2 & Hs)] s Hp Hc; [exists s; by rewrite E|]. exists s2. split; [done|].
  apply (g_closed _ _ _ (grows_steps _ _ _ _ _ Hs)). congruence.
Qed.

Lemma leaving_step had l l' r : listener_ok l -> step l l' -> leaving had l r -> leaving had l' r.
Proof.
  intros HI Hs (p & Hp & L1 & L2 & L3). destruct (listener_step_follows _ _ HI Hs r p Hp) as (p' & Hp' & [He F1 F2 F3]). destruct He as [E1 E2 E3 E4 E5].
  exists p'. split; [done|]. split_and!.
  - intros Hq. destruct (qclosed (p_q p)) eqn:E; [by rewrite E1 in Hq|]. destruct (F1 (L1 eq_refl)); [done|congruence].
  - intros Hq. destruct (qclosed (p_q p)) eqn:E; [|right; by apply F2]. destruct (L2 eq_refl) as [Ho|Hpd]; [|destruct (F3 Hpd); [by right|by left]].
    left. intros s' Hs'. destruct E3 as [G|[_ ?]]; [|congruence]. destruct G as [G|(s1 & s2 & G1 & G2 & G3)]; [apply Ho; congruence|].
    destruct (closed_goes p p') with (s := s1) as (s3 & H3 & H4); [right; by exists s1, s2|done|by apply Ho|congruence].
  - intros Hh. destruct (L3 Hh) as (s & Hse & Hc). destruct E3 as [G|[? _]]; [by eapply closed_goes|congruence].
Qed.

Lemma Goodbye_closed s why : sclosed (Goodbye send_error s why) = true.
Proof. apply Close_session_over. Qed.

Lemma poll_turn_leaves l r t now p why :
  l_objs l !! r = Some p -> poll_peer cwd t now (p_label p) (p_terms p) = Revoke why -> qclosed (p_q p) = false ->
  leaving (bool_decide (is_Some (p_sess p))) (poll_turn cwd send_error t now r l) r.
Proof.
  intros Hr Hv Hq. unfold poll_turn. rewrite Hr, Hv. unfold revoke.
  assert (forall l0, pending (spawn r [CloseQueue] l0) r CloseQueue) as Hpd
    by (intros l0; exists [CloseQueue]; split; [apply elem_of_spawned; by right|left]).
  destruct (p_sess p) as [s|] eqn:E.
  - exists (p <| p_sess := Some (Goodbye send_error s why) |>). cbn -[Goodbye spawn on_peer]. split; [cbn -[Goodbye]; by rewrite list_lookup_alter_eq, Hr|].
    split_and!; [intros _; apply Hpd|congruence|]. intros _. eexists. split; [done|apply Goodbye_closed].
  - exists p. split; [done|]. split_and!; [intros _; apply Hpd|congruence|]. rewrite E. by intros ?%bool_decide_eq_true%is_Some_None.
Qed.

(** C7: The poll reaches sessions that are open. When its turn finds that the link of an open peer no longer permits it, the
    peer's session, if it has one, is closed from that moment on, whatever happens next; and once nothing is
    left to do for the peer it is closed, with whatever session it got in the meantime closed too, and forgotten. *)
Theorem revocation_reaches_sessions l l' r p t now why :
  steps step started l -> l_objs l !! r = Some p -> qclosed (p_q p) = false ->
  poll_peer cwd t now (p_label p) (p_terms p) = Revoke why ->
  steps step (poll_turn cwd send_error t now r l) l' ->
  exists p', l_objs l' !! r = Some p' /\
    (forall s, p_sess p = Some s -> exists s', p_sess p' = Some s' /\ sclosed s' = true) /\
    (settled l' r -> qclosed (p_q p') = true /\ session_over p' /\ p_held p' = false).
Proof.
  intros Hl%listener_reachable Hr Hq Hv Hs. pose proof (poll_turn_ok _ r t now Hl) as HI.
  pose proof (poll_turn_leaves _ _ _ _ _ _ Hr Hv Hq) as HL.
  assert (forall l1 l2, steps step l1 l2 -> listener_ok l1 /\ leaving (bool_decide (is_Some (p_sess p))) l1 r ->
            listener_ok l2 /\ leaving (bool_decide (is_Some (p_sess p))) l2 r) as Hinv.
  { apply steps_invariant. intros l1 l2 [H1 H2] H12. split; [by eapply listener_step_ok|by eapply leaving_step]. }
  destruct (Hinv _ _ Hs (conj HI HL)) as [HI' (p' & Hp' & L1 & L2 & L3)]. exists p'. split; [done|]. split.
  - intros s Hp. apply L3. apply bool_decide_eq_true. by eexists.
  - intros Hset. assert (qclosed (p_q p') = true) as Hc by (destruct (qclosed (p_q p')); [done|by destruct (Hset CloseQueue (L1 eq_refl))]).
    split_and!; [done|by destruct (L2 Hc) as [?|H]; [|apply Hset in H]|].
    destruct (p_held p') eqn:E; [|done]. by destruct (Hset ReleaseSlot (k_leak _ _ _ (g_peers _ HI' _ _ Hp') Hc E)).
Qed.

(** * Where it falls short *)

(** A pairing whose data channel never opened keeps the console to itself for good: the hold is given back by the exchange
    over that channel only. *)
Lemma abandoned_pairing_holds_console l l' r p :
  steps step started l -> l_objs l !! r = Some p -> p_pairing p = true -> p_hold p = true -> p_opened p = false -> conn_closed (p_conn p) = true ->
  steps step l l' -> exists p', l_objs l' !! r = Some p' /\ p_hold p' = true.
Proof.
  intros Hl%listener_reachable Hr Hpair Hh Ho Hc Hs.
  assert (forall l1 l2, steps step l1 l2 -> listener_ok l1 /\ (exists q, l_objs l1 !! r = Some q /\ p_hold q = true /\ p_opened q = false /\ conn_closed (p_conn q) = true) ->
            listener_ok l2 /\ exists q, l_objs l2 !! r = Some q /\ p_hold q = true /\ p_opened q = false /\ conn_closed (p_conn q) = true) as Hinv.
  { apply steps_invariant. intros l1 l2 [H1 (q & Hq & A & B & C)] H12. split; [by eapply listener_step_ok|].
    destruct (listener_step_follows _ _ H1 H12 r q Hq) as (q' & Hq' & [[E1 E2 E3 E4 E5] _ _ _]). exists q'. split_and!; [done|..|by apply E2].
    - destruct E5 as [->|?]; [done|congruence].
    - destruct E4 as [->|?]; [done|congruence]. }
  destruct (Hinv _ _ Hs) as [_ (q & Hq & ? & _)]; [|by exists q]. split; [done|by exists p].
Qed.
End Listening.

(** * A listener at work *)

Definition demo_config : serveConfig :=
  from_result (mkConfig $"bitba.ng" [] false no_spec ∅ [] 10 false [] false)
    (applySpec (mkConfig $"bitba.ng" [] false no_spec ∅ [] 10 false [] false) (from_result no_spec (ParseString $"forward db:5432,web:80"))).
Definition demo_rows : list Terms := [mkTerms $"eve" $"swordfish" $"forward db:5432" None].
Definition demo_links0 : linkState := mkLinkState (cfg_offered demo_config) $"ME" false None None (Some (Some demo_rows, 1)).
Definition demo_env : env := mkEnv 100 [] true 2.
Definition demo_links1 : linkState := (reload $"/" demo_env demo_links0).1.
Definition demo_pin : option PINAuth := New $"1234".
Abbreviation demo_step := (lsn_step $"/" demo_decrypt accepting accepting no_text).

Definition peer_of (l : listener) : servePeer := default (newServePeer [] [] false false false) (l_objs l !! 0%nat).
Definition session_of (l : listener) : session := default (NewSession None [] [] false) (p_sess (peer_of l)).
Definition thread_turn (l : listener) : listener :=
  match l_threads l with
  | [] => l
  | t :: b => let '(l', more) := run_thread t (l <| l_threads := b |>) in l' <| l_threads := l_threads l' ++ more |>
  end.

Definition d0 : listener := start demo_config $"dev" demo_pin None true demo_links0 [].
Definition d1 : listener := d0 <| l_links := demo_links1 |>.
Definition d2 : listener := handleRequest $"c1" $"9.9.9.9" true d1.
Definition d3 : listener := install_close 0 (peer_of d2) d2.
Definition d4 : listener := handleAnswer demo_decrypt $"c1" demo_sdp demo_enc true 100 d3.
Definition d5 : listener := grant demo_decrypt 0 (Some (mkTerms $"eve" $"swordfish" $"forward db:5432" None)) demo_sdp demo_enc d4.
Definition d6 : listener := admission $"/" 0 ∅ d5.
Definition demo_message (data : bytes) (l : listener) : listener := session_moves 0 (session_of l) (sample_message (session_of l) data) l.
Definition d7 : listener := demo_message connect_msg d6.
Definition d8 : listener := demo_message auth_msg d7.
Definition d9 : listener := thread_turn (thread_turn (thread_turn d8)).

Example demo_admitted :
  (p_label (peer_of d6), map Type_ (handlers (session_of d6)), l_unauth d6, l_unauth d9, p_held (peer_of d9), ready (session_of d9)) =
  ($"eve", ["tcp"; "http"]%string, 1, 0, false, true).
Proof. vm_compute. reflexivity. Qed.

Lemma demo_links_step : lstep $"/" demo_links0 demo_links1.
Proof. exact (lstep_op $"/" demo_env Reload demo_links0 (fresh_intro _ _ [] (NoDup_nil_2) (Forall_nil_2 _))). Qed.

Lemma reach_d4 : steps demo_step d0 d4.
Proof.
  eapply (steps_cons _ d0 d1 d4); [exact (t_links _ _ _ _ _ d0 demo_links1 demo_links_step)|].
  eapply (steps_cons _ d1 d2 d4); [apply t_request; vm_compute; reflexivity|].
  eapply (steps_cons _ d2 d3 d4); [apply t_install; vm_compute; reflexivity|].
  apply steps_one, t_answer; [vm_compute; reflexivity|].
  intros r p Hg Hr Hd. assert (Get (l_peers d3) $"c1" = Some 0%nat) as Hg' by (vm_compute; reflexivity).
  assert (r = 0%nat) as -> by congruence. assert (l_objs d3 !! 0%nat = Some (peer_of d3)) as Hr' by (vm_compute; reflexivity).
  assert (p = peer_of d3) as -> by congruence. vm_compute in Hd. discriminate.
Qed.

Lemma reach_d6 : steps demo_step d0 d6.
Proof.
  eapply steps_trans; [exact reach_d4|]. eapply (steps_cons _ d4 d5 d6); [apply t_grant; vm_compute; reflexivity|].
  apply steps_one, t_admit. vm_compute. reflexivity.
Qed.

Lemma demo_message_step data l :
  l_objs l !! 0%nat = Some (peer_of l) -> p_sess (peer_of l) = Some (session_of l) -> busy Session.Dispatcher (session_of l) = false ->
  demo_step l (demo_message data l).
Proof. intros H1 H2 H3. exact (t_session _ _ _ _ _ l 0%nat _ _ _ H1 H2 (ss_message _ _ _ _ _ H3)). Qed.

Lemma thread_turn_step l t b : l_threads l = t :: b -> demo_step l (thread_turn l).
Proof. intros H. unfold thread_turn. rewrite H. exact (t_thread _ _ _ _ _ l [] t b H). Qed.

Lemma reach_d9 : steps demo_step d0 d9.
Proof.
  eapply steps_trans; [exact reach_d6|].
  eapply (steps_cons _ d6 d7 d9); [apply demo_message_step; vm_compute; reflexivity|].
  eapply (steps_cons _ d7 d8 d9); [apply demo_message_step; vm_compute; reflexivity|].
  eapply (steps_cons _ d8 (thread_turn d8) d9); [eapply thread_turn_step; vm_compute; reflexivity|].
  eapply (steps_cons _ (thread_turn d8) (thread_turn (thread_turn d8)) d9); [eapply thread_turn_step; vm_compute; reflexivity|].
  apply steps_one. eapply thread_turn_step. vm_compute. reflexivity.
Qed.

Lemma unready_slots_exact_witness :
  exists s, p_sess (peer_of d9) = Some s /\ OnReady ∈ log s /\
    (Required demo_pin = true -> exists data pw, Received data ∈ log s /\ auth_attempt data = Some pw /\ Verify demo_pin pw = true).
Proof.
  apply (proj1 (proj2 (proj2 (unready_slots_exact $"/" demo_decrypt accepting accepting no_text demo_config $"dev" demo_pin None true demo_links0 [] d9 reach_d9)))
           0%nat (peer_of d9)); vm_compute; reflexivity.
Defined.


Lemma peer_set_exact_witness : Get (l_peers d9) $"c1" = Some 0%nat.
Proof.
  apply (peer_set_exact $"/" demo_decrypt accepting accepting no_text demo_config $"dev" demo_pin None true demo_links0 [] d9 0%nat (peer_of d9) reach_d9);
    vm_compute; reflexivity.
Defined.

(** The link is removed. *)
Definition demo_links2 : linkState := (remove $"/" demo_env $"eve" demo_links1).1.
Definition demo_table : Table := default (mkTable [] no_spec) (table demo_links2).

Lemma revocation_reaches_sessions_witness :
  exists p', l_objs (poll_turn $"/" accepting demo_table 200 0 d9) !! 0%nat = Some p' /\
    exists s', p_sess p' = Some s' /\ sclosed s' = true.
Proof.
  destruct (revocation_reaches_sessions $"/" demo_decrypt accepting accepting no_text demo_config $"dev" demo_pin None true demo_links0 []
              d9 (poll_turn $"/" accepting demo_table 200 0 d9) 0%nat (peer_of d9) demo_table 200 $"this link was revoked" reach_d9)
    as (p' & H1 & H2 & _); [vm_compute; reflexivity..|apply steps_refl|].
  exists p'. split; [exact H1|]. apply (H2 (session_of d9)). vm_compute. reflexivity.
Defined.

(** A code is looked up in one table and its terms reach the peer later: when the link is removed in between, the poll that
    follows the removal passes the peer by, and the session starts under a code no table has. *)
Definition r1 : listener := d4 <| l_links := demo_links2 |>.
Definition r2 : listener := begin_poll r1.
Definition r3 : listener := r2 <| l_polls := [mkPoll [0%nat] (Some (demo_table, 200))] |>.
Definition r4 : listener := poll_turn $"/" accepting demo_table 200 0 (r3 <| l_polls := [mkPoll [] (Some (demo_table, 200))] |>).
Definition r5 : listener := grant demo_decrypt 0 (Some (mkTerms $"eve" $"swordfish" $"forward db:5432" None)) demo_sdp demo_enc r4.
Definition r6 : listener := admission $"/" 0 ∅ r5.

Lemma demo_remove_step : lstep $"/" demo_links1 demo_links2.
Proof. exact (lstep_op $"/" demo_env (Remove $"eve") demo_links1 (fresh_intro _ _ [] (NoDup_nil_2) (Forall_nil_2 _))). Qed.

Lemma revocation_missed_while_answering :
  exists l, steps demo_step d0 l /\ l_polls l = [mkPoll [] (Some (demo_table, 200))] /\ Authorize demo_table $"swordfish" 200 = None /\
    exists s, p_sess (peer_of l) = Some s /\ sclosed s = false /\ qclosed (p_q (peer_of l)) = false /\ Code (p_terms (peer_of l)) = $"swordfish".
Proof.
  exists r6. split_and!; [|vm_compute; reflexivity..|exists (session_of r6); vm_compute; split_and!; reflexivity].
  eapply steps_trans; [exact reach_d4|].
  eapply (steps_cons _ d4 r1 r6); [exact (t_links _ _ _ _ _ d4 demo_links2 demo_remove_step)|].
  eapply (steps_cons _ r1 r2 r6); [apply t_poll|].
  eapply (steps_cons _ r2 r3 r6); [apply (t_poll_read _ _ _ _ _ r2 [] (mkPoll [0%nat] None) [] 200 demo_table); vm_compute; reflexivity|].
  eapply (steps_cons _ r3 r4 r6); [apply (t_poll_turn _ _ _ _ _ r3 [] 0%nat [] demo_table 200 []); vm_compute; reflexivity|].
  eapply (steps_cons _ r4 r5 r6); [apply t_grant; vm_compute; reflexivity|].
  apply steps_one, t_admit. vm_compute. reflexivity.
Qed.

(** A connector asks to pair and goes away before its data channel opens: nothing is left to do, and the hold stays. *)
Definition q1 : listener := handlePairRequest $"p1" true d0.
Definition q2 : listener := install_close 0 (peer_of q1) q1.
Definition q3 : listener := conn_gone 0 (peer_of q2) q2.
Definition q4 : listener := Nat.iter 8 thread_turn q3.

Example pairing_abandoned :
  (l_pending q4, concat (map snd (l_threads q4)), Get (l_peers q4) $"p1", p_hold (peer_of q4), p_opened (peer_of q4), conn_closed (p_conn (peer_of q4))) =
  (1, [], None, true, false, true).
Proof. vm_compute. reflexivity. Qed.
