(* ===== verification/GoTime.v ===== *)
(** What the program uses of Go's [time] package: durations as 64-bit counts of nanoseconds, with
    their wrap-around and the saturation of [Time.Sub]; [ParseDuration], whose fractions go through
    binary64; and the civil dates of [ParseInLocation]. The host's time zone is a parameter of the
    definitions that need it. *)

From Stdlib Require Import SpecFloat.
From S2P Require Import Prelude GoLib.

(** * Durations *)

Definition MaxInt64 : Z := 2 ^ 63 - 1.
Definition MinInt64 : Z := - 2 ^ 63.

(** A 64-bit signed integer, wrapped. *)
Definition i64 (z : Z) : Z := (z + 2 ^ 63) mod 2 ^ 64 - 2 ^ 63.

Lemma i64_range z : MinInt64 <= i64 z <= MaxInt64.
Proof. unfold i64, MinInt64, MaxInt64. pose proof (Z.mod_pos_bound (z + 2 ^ 63) (2 ^ 64) ltac:(lia)). lia. Qed.

Lemma i64_small z : MinInt64 <= z <= MaxInt64 -> i64 z = z.
Proof. unfold i64, MinInt64, MaxInt64. intros H. rewrite Z.mod_small; lia. Qed.

Definition Nanosecond : Z := 1.
Definition Microsecond : Z := 1000 * Nanosecond.
Definition Millisecond : Z := 1000 * Microsecond.
Definition Second : Z := 1000 * Millisecond.
Definition Minute : Z := 60 * Second.
Definition Hour : Z := 60 * Minute.

(** [Time.Sub]: a difference too large for a duration is the largest (smallest) duration. *)
Definition Sub (t u : Z) : Z := Z.max MinInt64 (Z.min MaxInt64 (t - u)).

Lemma Sub_range t u : MinInt64 <= Sub t u <= MaxInt64.
Proof. unfold Sub, MinInt64, MaxInt64. lia. Qed.

(** [Time.Truncate] rounds down to a multiple since the zero time, which is a whole second. *)
Definition Truncate (t d : Z) : Z := t - t mod d.

Lemma Truncate_second t : Truncate t Second <= t < Truncate t Second + Second /\ Truncate t Second mod Second = 0.
Proof.
  unfold Truncate. change Second with 1000000000. pose proof (Z.mod_pos_bound t 1000000000 ltac:(lia)).
  split; [lia|]. pose proof (Z_div_mod_eq_full t 1000000000).
  replace (t - t mod 1000000000) with (t / 1000000000 * 1000000000) by lia. by rewrite Z.mod_mul.
Qed.

Lemma Truncate_whole t : t mod Second = 0 -> Truncate t Second = t.
Proof. unfold Truncate. lia. Qed.

(** * [ParseDuration] *)

(** The decimal text of a digit, and the digits at the head of a string. *)
Fixpoint span_digits (s : bytes) : bytes * bytes :=
  match s with
  | c :: r => if is_digit c then let '(d, k) := span_digits r in (c :: d, k) else ([], s)
  | [] => ([], [])
  end.

(** [leadingInt]: [None] where the digits exceed 2^63. *)
Fixpoint int_of_digits (x : Z) (ds : bytes) : option Z :=
  match ds with
  | [] => Some x
  | c :: r =>
    if x >? 2 ^ 63 / 10 then None
    else let x := u64 (x * 10 + (code c - 48)) in if x >? 2 ^ 63 then None else int_of_digits x r
  end.

Definition binary64 (z : Z) : spec_float := binary_normalize 53 1024 z 0 false.
Definition fmul : spec_float -> spec_float -> spec_float := SFmul 53 1024.
Definition fdiv : spec_float -> spec_float -> spec_float := SFdiv 53 1024.

(** The conversion of a float to [uint64], of a value in range. *)
Definition truncate64 (f : spec_float) : Z :=
  match f with
  | S754_finite false m e => u64 (Z.shiftl (Zpos m) e)
  | _ => 0
  end.

(** [leadingFraction]: the digits kept, the scale they are over, and whether one overflowed. *)
Definition fraction_step (st : Z * spec_float * bool) (c : ascii) : Z * spec_float * bool :=
  let '(x, scale, overflow) := st in
  if overflow : bool then st
  else if x >? (2 ^ 63 - 1) / 10 then (x, scale, true)
  else let y := u64 (x * 10 + (code c - 48)) in
       if y >? 2 ^ 63 then (x, scale, true) else (y, fmul scale (binary64 10), false).

Definition leadingFraction (ds : bytes) : Z * spec_float :=
  let '(x, scale, _) := foldl fraction_step (0, binary64 1, false) ds in (x, scale).

(** The two spellings of the micro sign are the runes 181 and 956. *)
Definition unitMap (u : bytes) : option Z :=
  if decide (u = $"ns") then Some Nanosecond
  else if decide (u = $"us" \/ u = [chr 194; chr 181; "s"%char] \/ u = [chr 206; chr 188; "s"%char]) then Some Microsecond
  else if decide (u = $"ms") then Some Millisecond
  else if decide (u = $"s") then Some Second
  else if decide (u = $"m") then Some Minute
  else if decide (u = $"h") then Some Hour
  else None.

(** The unit runs up to the next digit or dot. *)
Fixpoint span_unit (s : bytes) : bytes * bytes :=
  match s with
  | c :: r => if is_char 46 c || is_digit c then ([], s) else let '(u, k) := span_unit r in (c :: u, k)
  | [] => ([], [])
  end.

(** One number with its unit, and what follows it. *)
Definition duration_term (s : bytes) : option (Z * bytes) :=
  let '(ds, s1) := span_digits s in
  match int_of_digits 0 ds with
  | None => None
  | Some v =>
    let '(fs, s2) := match s1 with
                     | c :: r => if is_char 46 c then span_digits r else ([], s1)
                     | [] => ([], s1)
                     end in
    match ds ++ fs with
    | [] => None
    | _ =>
      let '(u, s3) := span_unit s2 in
      match unitMap u with
      | None => None
      | Some unit =>
        if v >? 2 ^ 63 / unit then None else
        let v := u64 (v * unit) in
        let '(f, scale) := leadingFraction fs in
        if f >? 0 then
          let v := u64 (v + truncate64 (fmul (binary64 f) (fdiv (binary64 unit) scale))) in
          if v >? 2 ^ 63 then None else Some (v, s3)
        else Some (v, s3)
      end
    end
  end.

(** The loop over the terms. Each consumes at least its unit, so the length of the text is fuel
    enough ([duration_terms_fuel]). *)
Fixpoint duration_terms (fuel : nat) (d : Z) (s : bytes) : option Z :=
  match s with
  | [] => Some d
  | _ =>
    match fuel with
    | O => None
    | S n =>
      match duration_term s with
      | None => None
      | Some (v, r) => let d := u64 (d + v) in if d >? 2 ^ 63 then None else duration_terms n d r
      end
    end
  end.

Definition ParseDuration (s : bytes) : option Z :=
  let '(neg, r) := match s with
                   | c :: r => if is_char 45 c then (true, r) else if is_char 43 c then (false, r) else (false, s)
                   | [] => (false, []) end in
  if decide (r = $"0") then Some 0
  else match r with
  | [] => None
  | _ => match duration_terms (length r) 0 r with
         | None => None
         | Some d => if neg : bool then Some (i64 (- d)) else if d >? 2 ^ 63 - 1 then None else Some d
         end
  end.

Lemma span_digits_length s : (length (span_digits s).1 + length (span_digits s).2 = length s)%nat.
Proof. induction s as [|c s IH]; [done|]. cbn. case_step; [|done]. destruct (span_digits s). cbn in *. lia. Qed.

Lemma span_unit_length s : (length (span_unit s).1 + length (span_unit s).2 = length s)%nat.
Proof. induction s as [|c s IH]; [done|]. cbn. case_step; [done|]. destruct (span_unit s). cbn in *. lia. Qed.

Lemma duration_term_shorter s v r : duration_term s = Some (v, r) -> (length r < length s)%nat.
Proof.
  unfold duration_term. pose proof (span_digits_length s) as H1. destruct (span_digits s) as [ds s1]. cbn in H1.
  destruct (int_of_digits 0 ds); [|done].
  assert (exists fs s2, match s1 with c :: r0 => if is_char 46 c then span_digits r0 else ([], s1) | [] => ([], s1) end = (fs, s2)
            /\ (length s2 <= length s1)%nat) as (fs & s2 & -> & H2).
  { destruct s1 as [|c s1]; [by exists [], []|]. destruct (is_char 46 c); [|by exists [], (c :: s1)].
    pose proof (span_digits_length s1). destruct (span_digits s1) as [fs s2]. exists fs, s2. split; [done|]. cbn in *. lia. }
  destruct (ds ++ fs); [done|]. pose proof (span_unit_length s2) as H3. destruct (span_unit s2) as [u s3]. cbn in H3.
  destruct u as [|c u]; [done|]. cbn in H3. destruct (unitMap _); [|done]. case_step; [done|].
  destruct (leadingFraction fs). repeat case_step; intros [= <- <-]; lia.
Qed.

(** Fuel never decides what [ParseDuration] returns. *)
Lemma duration_terms_fuel n : forall m d s,
  (length s <= n)%nat -> (length s <= m)%nat -> duration_terms n d s = duration_terms m d s.
Proof.
  induction n as [|n IH]; intros m d s Hn Hm; (destruct s as [|c s]; [by destruct m|]); [cbn in Hn; lia|].
  destruct m as [|m]; [cbn in Hm; lia|]. cbn [duration_terms].
  destruct (duration_term (c :: s)) as [[v r]|] eqn:E; [|done]. apply duration_term_shorter in E. cbn in *.
  case_step; [done|]. apply IH; lia.
Qed.

Lemma duration_terms_range n : forall d s x, 0 <= d <= 2 ^ 63 -> duration_terms n d s = Some x -> 0 <= x <= 2 ^ 63.
Proof.
  induction n as [|n IH]; intros d s x Hd; (destruct s as [|c s]; [by intros [= <-]|]); [done|].
  cbn [duration_terms]. destruct (duration_term _) as [[v r]|]; [|done]. case_step; [done|].
  apply IH. bool_to_prop. unfold u64, wrap in *. pose proof (Z.mod_pos_bound (d + v) (2 ^ 64) ltac:(lia)). lia.
Qed.

Lemma ParseDuration_range s d : ParseDuration s = Some d -> MinInt64 <= d <= MaxInt64.
Proof.
  unfold ParseDuration, MinInt64, MaxInt64. destruct (match s with [] => _ | _ :: _ => _ end) as [neg r].
  case_decide; [intros [= <-]; lia|]. destruct r as [|c r]; [done|].
  destruct (duration_terms _ 0 _) as [x|] eqn:E; [|done]. apply duration_terms_range in E; [|lia].
  destruct neg; [intros [= <-]; apply i64_range|]. case_step; [done|]. intros [= <-]. bool_to_prop. lia.
Qed.

Example parse_duration_samples :
  map ParseDuration [$"90m"; $"1h30m"; $"-1.5h"; $".5s"; $"1.1h"; $"0"; $"3d"; $""; $"5"; $"9223372036854775808ns"; $"-9223372036854775808ns"]
  = [Some (90 * Minute); Some (90 * Minute); Some (- (90 * Minute)); Some (500 * Millisecond); Some (66 * Minute); Some 0;
     None; None; None; None; Some MinInt64].
Proof. by vm_compute. Qed.

(** * Dates *)

Definition is_leap (y : Z) : bool := (y mod 4 =? 0) && (negb (y mod 100 =? 0) || (y mod 400 =? 0)).

Definition days_in (m y : Z) : Z :=
  if m =? 2 then (if is_leap y then 29 else 28)
  else if (m =? 4) || (m =? 6) || (m =? 9) || (m =? 11) then 30 else 31.

(** The days from the epoch to a civil date, and back; years begin in March. *)
Definition days_of (y m d : Z) : Z :=
  let y := if m <=? 2 then y - 1 else y in
  let yoe := y mod 400 in
  let doy := (153 * (if m <=? 2 then m + 9 else m - 3) + 2) / 5 + d - 1 in
  y / 400 * 146097 + (yoe * 365 + yoe / 4 - yoe / 100 + doy) - 719468.

Definition civil_of (days : Z) : Z * Z * Z :=
  let z := days + 719468 in
  let doe := z mod 146097 in
  let yoe := (doe - doe / 1460 + doe / 36524 - doe / 146096) / 365 in
  let doy := doe - (365 * yoe + yoe / 4 - yoe / 100) in
  let mp := (5 * doy + 2) / 153 in
  let m := if mp <? 10 then mp + 3 else mp - 9 in
  (z / 146097 * 400 + yoe + (if m <=? 2 then 1 else 0), m, doy - (153 * mp + 2) / 5 + 1).

(** [getnum]: two digits, or one where [fixed] is false. *)
Definition getnum (fixed : bool) (s : bytes) : option (Z * bytes) :=
  match s with
  | a :: b :: r =>
    if is_digit a then
      if is_digit b then Some ((code a - 48) * 10 + (code b - 48), r)
      else if fixed then None else Some (code a - 48, b :: r)
    else None
  | [a] => if is_digit a && negb fixed then Some (code a - 48, []) else None
  | [] => None
  end.

(** [skip], over one byte of a layout other than a blank, and over a blank. *)
Definition skip (c : ascii) (s : bytes) : option bytes :=
  match s with x :: r => if decide (x = c) then Some r else None | [] => None end.

Fixpoint cutspace (s : bytes) : bytes :=
  match s with c :: r => if is_char 32 c then cutspace r else s | [] => [] end.

Definition skip_space (s : bytes) : option bytes :=
  match s with c :: _ => if is_char 32 c then Some (cutspace s) else None | [] => Some [] end.

(** The layout ["2006-01-02"]. *)
Definition parse_date (s : bytes) : option (Z * Z * Z * bytes) :=
  match s with
  | a :: b :: c :: d :: r =>
    if is_digit a then
      match digits_value 0 [a; b; c; d] with
      | None => None
      | Some y =>
        match skip "-"%char r ≫= getnum true with
        | None => None
        | Some (m, r) =>
          if between 1 12 m then
            match skip "-"%char r ≫= getnum true with
            | None => None
            | Some (day, r) => Some (y, m, day, r)
            end
          else None
        end
      end
    else None
  | _ => None
  end.

(** The layout ["15:04"]. *)
Definition parse_clock (s : bytes) : option (Z * Z * bytes) :=
  match getnum false s with
  | None => None
  | Some (h, r) =>
    if between 0 23 h then
      match skip ":"%char r ≫= getnum true with
      | None => None
      | Some (m, r) => if between 0 59 m then Some (h, m, r) else None
      end
    else None
  end.

Inductive layout := DateSpaceClock | DateTClock | DateOnly.

(** A wall clock, in seconds since the epoch of its own zone. *)
Definition wall_of (y m d h min : Z) : Z := days_of y m d * 86400 + h * 3600 + min * 60.

(** [time.Parse] for those layouts, up to the choice of the zone: text left over is an error, and so
    is a day the month does not have. *)
Definition ParseWall (l : layout) (s : bytes) : option Z :=
  match parse_date s with
  | None => None
  | Some (y, m, d, r) =>
    match (match l with
           | DateOnly => Some (0, 0, r)
           | DateSpaceClock => skip_space r ≫= parse_clock
           | DateTClock => skip "T"%char r ≫= parse_clock
           end) with
    | None => None
    | Some (h, min, rest) =>
      if bool_decide (rest = []) && (1 <=? d) && (d <=? days_in m y) then Some (wall_of y m d h min) else None
    end
  end.

Example parse_wall_samples :
  [ParseWall DateOnly $"2026-09-15"; ParseWall DateSpaceClock $"2026-09-15   9:30"; ParseWall DateTClock $"2024-02-29T23:59";
   ParseWall DateOnly $"2026-02-29"; ParseWall DateOnly $"2026-9-15"; ParseWall DateSpaceClock $"2026-09-15 24:00"]
  = [Some 1789430400; Some 1789464600; Some 1709251140; None; None; None].
Proof. by vm_compute. Qed.

(** [Format("Jan2")]. *)
Definition month_abbr (m : Z) : bytes :=
  match m with
  | 1 => $"Jan" | 2 => $"Feb" | 3 => $"Mar" | 4 => $"Apr" | 5 => $"May" | 6 => $"Jun"
  | 7 => $"Jul" | 8 => $"Aug" | 9 => $"Sep" | 10 => $"Oct" | 11 => $"Nov" | _ => $"Dec"
  end.

Definition FormatJan2 (wall : Z) : bytes :=
  let '(_, m, d) := civil_of (wall / 86400) in month_abbr m ++ Itoa d.
