(* ===== verification/GrantDialog.v ===== *)
(** The questions that decide what a link grants (cmd/bitbang/grant.go), who asks them: the console's
    commands (cmd/bitbang/console_cmd.go) and a completed pairing (cmd/bitbang/serve_pair.go), and
    how a link is shown (cmd/bitbang/serve_links.go, cmd/bitbang/link.go).

    The operator is the list of the lines still to come: a question takes one, and where none is left
    the operator has given up (Ctrl-C, the end of the input, a deadline). What is shown is recorded,
    as data. Loops take fuel, and no dialogue outruns the operator's lines ([dialogue_terminates]
    and its lemmas in GrantDialogSpec.v). *)

From S2P Require Import Prelude GoLib GoTime Json Allowlist Grant Links LinkState.

(** * Talking to the operator *)

Inductive expiryChoice := KeepExpiry (at_ : Time) | Never | After (dur : Z) | Other.

Inductive when_error := SayHowLong | AlreadyPast (t : Time) | CannotRead (s : bytes) | NotInFuture.

(** What a link reaches on this listener, or why it reaches nothing. *)
Inductive reach := Reaches (words : bytes) | ReachesNothing (e : link_error).

Inductive said :=
| AskedGrant (def : bytes)
| AskedExpiry (rows : Z)
| AskedHowLong
| AskedWhether (t : Time) (gap : bytes)
| AskedLabel (def : bytes)
| AskedEverything
| SaidServes (rows : list (bytes * bytes))
| SaidExample (example : bytes)
| SaidGrantError (e : grant_error)
| SaidMenu (rows : list expiryChoice)
| SaidPick (rows : Z)
| SaidWhenError (e : when_error)
| SaidNeedLabel
| SaidOwnerReserved
| SaidLabelTaken (label : bytes)
| SaidUsage
| SaidNoLink (ref : bytes)
| SaidUnknown (name : bytes)
| SaidStateError (e : state_error)
| SaidGranted (label : bytes) (what : reach) (gap : option bytes)
| SaidCode (code : bytes)
| SaidCodeChanged (code : bytes)
| SaidNoCode (ref : bytes)
| SaidRemoved (label : bytes)
| SaidListing (rows : option (list (Z * bytes * reach * bytes * option bytes))) (owner : bytes)
| SaidStatus (rows : list (bytes * option reach))
| SaidPairingCode (code : bytes)
| SaidStaleCode (cached : bytes)
| SaidNoServer
| SaidHelp (rows : list (bytes * bytes)).

Inductive outcome (A : Type) := Answered (a : A) | GaveUp | OutOfFuel.
Arguments Answered {A} a.
Arguments GaveUp {A}.
Arguments OutOfFuel {A}.

(** A conversation: the lines to come give an outcome, the lines left and what was shown. *)
Definition dialogue (A : Type) : Type := list bytes -> outcome A * list bytes * list said.

Definition ret {A} (a : A) : dialogue A := fun ls => (Answered a, ls, []).
Definition out_of_fuel {A} : dialogue A := fun ls => (OutOfFuel, ls, []).
Definition say (x : said) : dialogue unit := fun ls => (Answered tt, ls, [x]).

Definition and_then {A B} (m : dialogue A) (f : A -> dialogue B) : dialogue B := fun ls =>
  match m ls with
  | (Answered a, ls', w) => let '(o, ls'', w') := f a ls' in (o, ls'', w ++ w')
  | (GaveUp, ls', w) => (GaveUp, ls', w)
  | (OutOfFuel, ls', w) => (OutOfFuel, ls', w)
  end.

Declare Scope dialogue_scope.
Delimit Scope dialogue_scope with dialogue.
Notation "'let*' x ':=' m 'in' k" := (and_then m (fun x => k))
  (at level 10, x name, m at level 100, k at level 200) : dialogue_scope.
Notation "m ;; k" := (and_then m (fun _ => k)) (at level 100, k at level 200, right associativity) : dialogue_scope.
#[local] Open Scope dialogue_scope.

(** [askImpl]: the question is shown, and a blank line takes the default. *)
Definition Ask (q : said) (def : bytes) : dialogue bytes := fun ls =>
  match ls with
  | [] => (GaveUp, [], [q])
  | line :: ls' => (Answered (if decide (TrimSpace line = []) then def else line), ls', [q])
  end.

(** * What a listener offers, shown *)

Definition argumentForm (word : bytes) (offered : Spec) : bytes :=
  match words word with
  | Some ScopeFiles => $" [DIR]"
  | Some ScopeProxy | Some ScopeForward => $" [HOST:PORT,...]"
  | Some ScopeShell => match ShellArgv offered with [] => $" [COMMAND]" | _ => [] end
  | None => []
  end.

Definition describeOffer (word : bytes) (offered : Spec) : bytes :=
  match words word with
  | Some ScopeShell => match ShellArgv offered with [] => $"a terminal on this machine" | a => join $" " a end
  | Some ScopeFiles => match FilesPath offered with [] => $"browse and transfer files" | p => p end
  | Some ScopeProxy =>
    match ProxyTargets offered with [] => $"web apps on this network, chosen in the browser" | t => join $", " t end
  | Some ScopeForward =>
    match ForwardTargets offered with [] => $"TCP to any host on this network, without a shell" | t => join $", " t end
  | None => []
  end.

(** The words of the example, without the back quotes around them. *)
Definition grantExample (offered : Spec) : bytes :=
  match ForwardTargets offered, ProxyTargets offered with
  | f :: _ :: _, _ => $"forward " ++ f
  | _, p :: _ :: _ => $"proxy " ++ p
  | fs, ps =>
    if Has offered ScopeFiles then
      match FilesPath offered with
      | [] => $"files ~/Downloads"
      | p => $"files " ++ TrimSuffix p $"/" ++ $"/SUBDIR"
      end
    else if Has offered ScopeForward then
      match fs with [f] => $"forward " ++ f | _ => $"forward db:5432" end
    else if Has offered ScopeProxy then
      match ps with [p] => $"proxy " ++ p | _ => $"proxy nas:8096" end
    else match ShellArgv offered with [] => $"shell /bin/login" | _ => $"shell" end
  end.

Definition offer_rows (offered : Spec) : list (bytes * bytes) :=
  map (fun w => (w ++ argumentForm w offered, describeOffer w offered)) (Words offered).

(** * Times *)

Definition relativeTo (at_ now : Time) : bytes :=
  let d := Sub at_ now in
  if d <? 0 then $"already past"
  else if 48 * Hour <=? d then $"in " ++ Itoa (Z.quot (i64 (d + Hour)) (24 * Hour)) ++ $" days"
  else if 2 * Hour <=? d then $"in " ++ Itoa (Z.quot (i64 (d + Minute)) Hour) ++ $" hours"
  else if 2 * Minute <=? d then $"in " ++ Itoa (Z.quot d Minute) ++ $" minutes"
  else $"very shortly".

Definition ceilUnits (d unit : Z) : Z := Z.quot (i64 (i64 (d + unit) - 1)) unit.

Definition expiryNote (t : Terms) (now : Time) : bytes :=
  match Expires t with
  | None => []
  | Some e =>
    if negb (is_ok (Check t now)) then $"expired" else
    let left := Sub e now in
    if left >? 24 * Hour then $"expires in " ++ Itoa (ceilUnits left (24 * Hour)) ++ $"d"
    else if left >? Hour then $"expires in " ++ Itoa (ceilUnits left Hour) ++ $"h"
    else if left >? Minute then $"expires in " ++ Itoa (ceilUnits left Minute) ++ $"m"
    else $"expires shortly"
  end.

(** [dayWeek.ReplaceAllStringFunc]: a run of digits followed by [d] or [w] becomes a number of hours;
    [strconv.Atoi] yields the largest integer for digits beyond it, and its error is dropped. *)
Definition dayWeek_hours (digits : bytes) (week : bool) : bytes :=
  let n := Z.min MaxInt64 (default 0 (digits_value 0 digits)) in
  let n := if week then i64 (n * 7) else n in
  Itoa (i64 (n * 24)) ++ $"h".

Fixpoint expand_days (digits : bytes) (s : bytes) : bytes :=
  match s with
  | [] => digits
  | c :: r =>
    if is_digit c then expand_days (digits ++ [c]) r
    else if (is_char 100 c || is_char 119 c) && bool_decide (digits <> []) then
      dayWeek_hours digits (is_char 119 c) ++ expand_days [] r
    else digits ++ c :: expand_days [] r
  end.

(** [strings.Fields]. *)
Fixpoint fields_from (fuel : nat) (cur : bytes) (s : bytes) : list bytes :=
  let flush := match cur with [] => [] | _ => [cur] end in
  match fuel with
  | O => flush
  | S n =>
    match s with
    | [] => flush
    | c :: r => match leading_space s with
                | Some k => flush ++ fields_from n [] (drop k s)
                | None => fields_from n (cur ++ [c]) r
                end
    end
  end.

Definition Fields (s : bytes) : list bytes := fields_from (length s) [] s.

Section Host.
(** The working directory of the listener; [time.Date] in the host's zone, from a wall clock in
    seconds to an instant in seconds; and the wall clock of an instant. *)
Variable cwd : bytes.
Variable date_in : Z -> Z.
Variable wall_at : Z -> Z.

Definition whenLayouts : list layout := [DateSpaceClock; DateTClock; DateOnly].

Definition parseWhen (s : bytes) (now : Time) : result when_error Time :=
  match s with
  | [] => Err SayHowLong
  | _ =>
    match head (omap (fun l => ParseWall l s) whenLayouts) with
    | Some wall =>
      let t := date_in wall * Second in
      if now <? t then Ok t else Err (AlreadyPast t)
    | None =>
      match ParseDuration (expand_days [] s) with
      | None => Err (CannotRead s)
      | Some d => if d <=? 0 then Err NotInFuture else Ok (now + d)
      end
    end
  end.

(** * The questions *)

Definition is_all (answer : bytes) : bool := bool_decide (answer = [] \/ ToLower answer = $"all").
Definition is_yes (answer : bytes) : bool := bool_decide (ToLower (TrimSpace answer) = $"y").

Fixpoint askGrant_loop (fuel : nat) (def : bytes) (offered : Spec) : dialogue bytes :=
  match fuel with
  | O => out_of_fuel
  | S n =>
    let* answer := Ask (AskedGrant def) def in
    let answer := TrimSpace answer in
    if is_all answer then ret []
    else match ParseString answer with
    | Err e => say (SaidGrantError e) ;; askGrant_loop n def offered
    | Ok spec =>
      match Narrow cwd offered spec with
      | Err e => say (SaidGrantError e) ;; askGrant_loop n def offered
      | Ok _ => ret (SpecString spec)
      end
    end
  end.

Definition askGrant (fuel : nat) (seed : Terms) (offered : Spec) : dialogue bytes :=
  if decide (caps offered = ∅) then ret []
  else
    say (SaidServes (offer_rows offered)) ;; say (SaidExample (grantExample offered)) ;;
    askGrant_loop fuel (match GrantText seed with [] => $"all" | g => g end) offered.

Definition expiryMenu (seed : Terms) (now : Time) : list expiryChoice :=
  match Expires seed with Some e => [KeepExpiry e] | None => [] end
  ++ [Never; After Hour; After (24 * Hour); After (7 * 24 * Hour); Other].

Fixpoint askOtherExpiry (fuel : nat) (now : Time) : dialogue (option Time) :=
  match fuel with
  | O => out_of_fuel
  | S n =>
    let* answer := Ask AskedHowLong [] in
    match parseWhen (TrimSpace answer) now with
    | Err e => say (SaidWhenError e) ;; askOtherExpiry n now
    | Ok t =>
      let* ok := Ask (AskedWhether t (relativeTo t now)) $"Y" in
      ret (if is_yes ok then Some (Truncate t Second) else None)
    end
  end.

Fixpoint askExpiry_loop (fuel : nat) (menu : list expiryChoice) (now : Time) : dialogue (option Time) :=
  match fuel with
  | O => out_of_fuel
  | S n =>
    let* answer := Ask (AskedExpiry (zlen menu)) $"1" in
    match Atoi (TrimSpace answer) ≫= (fun i => if i <? 1 then None else menu !! Z.to_nat (i - 1)) with
    | None => say (SaidPick (zlen menu)) ;; askExpiry_loop n menu now
    | Some (KeepExpiry e) => ret (Some e)
    | Some Never => ret None
    | Some (After d) => ret (Some (Truncate (now + d) Second))
    | Some Other =>
      let* t := askOtherExpiry n now in
      match t with
      | None => askExpiry_loop n menu now
      | Some e => ret (Some e)
      end
    end
  end.

Definition askExpiry (fuel : nat) (seed : Terms) (now : Time) : dialogue (option Time) :=
  let menu := expiryMenu seed now in
  say (SaidMenu menu) ;; askExpiry_loop fuel menu now.

Fixpoint askLabel (fuel : nat) (def : bytes) (taken : list bytes) : dialogue bytes :=
  match fuel with
  | O => out_of_fuel
  | S n =>
    let* answer := Ask (AskedLabel def) def in
    let answer := TrimSpace answer in
    if decide (answer = []) then say SaidNeedLabel ;; askLabel n def taken
    else if decide (answer = OwnerLabel) then say SaidOwnerReserved ;; askLabel n def taken
    else if decide (answer ∈ taken) then say (SaidLabelTaken answer) ;; askLabel n def taken
    else ret answer
  end.

Definition grantQuestions (fuel : nat) (seed : Terms) (offered : Spec) (taken : list bytes) (now : Time) : dialogue Terms :=
  let* g := askGrant fuel seed offered in
  let* expires := askExpiry fuel seed now in
  let* label := askLabel fuel (Label seed) taken in
  ret (seed <| GrantText := g |> <| Expires := expires |> <| Label := label |>).

(** * Showing a link *)

Definition effectiveWords (t : Terms) (offered : Spec) : reach :=
  match Effective cwd t offered with
  | Err e => ReachesNothing e
  | Ok eff => Reaches (SpecString eff)
  end.

(** What is granted and, where it lapses, how soon. *)
Definition describeGrant (t : Terms) (offered : Spec) (now : Time) : reach * option bytes :=
  (match effectiveWords t offered with
   | Reaches [] => Reaches $"(nothing this listener serves)"
   | r => r
   end, (fun e => relativeTo e now) <$> Expires t).

Definition current (s : linkState) : list Terms := default [] (entries <$> table s).

Definition labels (s : linkState) : list bytes := sort_strings (map Label (current s)).

Definition takenLabels (s : linkState) (except : bytes) : list bytes := filter (fun l => l <> except) (labels s).

Definition byRef (s : linkState) (arg : bytes) : bytes :=
  if existsb (fun e => bool_decide (Label e = arg)) (current s) then arg
  else match Atoi arg ≫= (fun n => if n <? 0 then None else current s !! Z.to_nat n) with
       | Some e => Label e
       | None => arg
       end.

(** A row of the console's table: its number, label, reach, note and code. *)
Definition listing (s : linkState) (now : Time) : option (list (Z * bytes * reach * bytes * option bytes)) :=
  match current s with
  | [_] => None
  | es => Some (imap (fun i e =>
      (Z.of_nat i, Label e,
       match effectiveWords e (lsOffered s) with Reaches [] => Reaches $"(nothing)" | r => r end,
       expiryNote e now,
       match Code e with [] => None | c => Some c end)) es)
  end.

(** * Labels of the day *)

(** The loop over the numbered candidates. One of the first [length taken] is free
    ([number_label_free]). *)
Fixpoint number_label (fuel : nat) (n : Z) (base : bytes) (taken : list bytes) : option bytes :=
  match fuel with
  | O => None
  | S k =>
    let candidate := base ++ $"-" ++ Itoa n in
    if decide (candidate ∈ taken) then number_label k (n + 1) base taken else Some candidate
  end.

Definition datedLabel (s : linkState) (prefix : bytes) (now : Time) : bytes :=
  let base := prefix ++ $"-" ++ ToLower (FormatJan2 (wall_at (now / Second))) in
  let taken := labels s in
  if decide (base ∈ taken) then default [] (number_label (S (length taken)) 2 base taken) else base.

(** * The commands that change the table *)

(** What a command leaves: the table, and whether the live sessions are polled at once. *)
Record command_result := mkResult { cState : linkState; cPolled : bool }.

Definition by_label (s : linkState) (label : bytes) : option Terms := table s ≫= fun t => ByLabel t label.

Definition granted (s : linkState) (t : Terms) (now : Time) : dialogue unit :=
  let d := describeGrant t (lsOffered s) now in say (SaidGranted (Label t) d.1 d.2).

(** [asked] is the clock when the questions begin; [now e] the clock once they are answered. *)
Definition cmdAdd (fuel : nat) (asked : Time) (e : env) (s : linkState) : dialogue command_result :=
  let seed := mkTerms (datedLabel s $"link" asked) [] [] None in
  let* terms := grantQuestions fuel seed (lsOffered s) (takenLabels s []) asked in
  match add cwd e terms s with
  | (s', Err err) => say (SaidStateError err) ;; ret (mkResult s' false)
  | (s', Ok code) => granted s terms (now e) ;; say (SaidCode code) ;; ret (mkResult s' false)
  end.

Definition cmdEdit (fuel : nat) (asked : Time) (e : env) (args : list bytes) (s : linkState) : dialogue command_result :=
  match args with
  | [ref] =>
    match by_label s (byRef s ref) with
    | None => say (SaidNoLink ref) ;; ret (mkResult s false)
    | Some cur =>
      if decide (Label cur = OwnerLabel) then say (SaidNoLink ref) ;; ret (mkResult s false) else
      let* edited := grantQuestions fuel cur (lsOffered s) (takenLabels s (Label cur)) asked in
      match replace cwd e (Label cur) edited s with
      | (s', Err err) => say (SaidStateError err) ;; ret (mkResult s' false)
      | (s', Ok _) =>
        let after := default [] (Code <$> by_label s' (Label edited)) in
        granted s edited (now e) ;;
        (if decide (after = Code cur) then ret tt else say (SaidCodeChanged after)) ;;
        ret (mkResult s' true)
      end
    end
  | _ => say SaidUsage ;; ret (mkResult s false)
  end.

Definition cmdRemove (e : env) (args : list bytes) (s : linkState) : dialogue command_result :=
  match args with
  | [ref] =>
    let label := byRef s ref in
    match remove cwd e label s with
    | (s', Err err) => say (SaidStateError err) ;; ret (mkResult s' false)
    | (s', Ok _) => say (SaidRemoved label) ;; ret (mkResult s' true)
    end
  | _ => say SaidUsage ;; ret (mkResult s false)
  end.

Definition cmdReload (e : env) (s : linkState) : dialogue command_result :=
  match reload cwd e s with
  | (s', Err err) => say (SaidStateError err) ;; ret (mkResult s' false)
  | (s', Ok _) => ret (mkResult s' true)
  end.

Definition cmdQR (args : list bytes) (s : linkState) : dialogue command_result :=
  match args with
  | [ref] =>
    match by_label s (byRef s ref) with
    | None => say (SaidNoLink ref) ;; ret (mkResult s false)
    | Some entry =>
      match Code entry with
      | [] => say (SaidNoCode ref) ;; ret (mkResult s false)
      | c => say (SaidCode c) ;; ret (mkResult s false)
      end
    end
  | _ => say SaidUsage ;; ret (mkResult s false)
  end.

Definition cmdURL (s : linkState) : dialogue command_result :=
  say (SaidCode (default [] (Code <$> by_label s OwnerLabel))) ;; ret (mkResult s false).

(** The table, or the listener's own URL where there is nothing else to show. *)
Definition cmdList (now : Time) (s : linkState) : dialogue command_result :=
  say (SaidListing (listing s now) (default [] (Code <$> by_label s OwnerLabel))) ;; ret (mkResult s false).

(** What the commands read beside the table: the clock when they start and what the operations on the
    table see, the peers connected with what they were granted, and the signaling server's answer to
    a renewal with the last code it issued. *)
Record console_env := mkConsole {
  asked : Time;
  ops : env;
  livePeers : list (bytes * Terms);
  renewed : option bytes;
  lastCode : bytes
}.

(** The rows are sorted for display. *)
Definition cmdStatus (c : console_env) (s : linkState) : dialogue command_result :=
  say (SaidStatus (map (fun p => (p.1, match p.1 with [] => None | _ => Some (effectiveWords p.2 (lsOffered s)) end)) (livePeers c))) ;;
  ret (mkResult s false).

Definition cmdCode (c : console_env) (s : linkState) : dialogue command_result :=
  (match renewed c with
   | Some code => say (SaidPairingCode code)
   | None => match lastCode c with [] => say SaidNoServer | cached => say (SaidStaleCode cached) end
   end) ;;
  ret (mkResult s false).

Inductive command := CmdList | CmdAdd | CmdEdit | CmdRemove | CmdQR | CmdCode | CmdURL | CmdStatus | CmdReload | CmdHelp.

(** Each command's word, what follows it, and whether help lists it. *)
Definition commands : list (bytes * bytes * bool * command) :=
  [($"list", [], true, CmdList); ($"add", [], true, CmdAdd); ($"edit", $"<label|n>", true, CmdEdit);
   ($"rm", $"<label|n>", true, CmdRemove); ($"qr", $"<label|n>", true, CmdQR); ($"code", [], true, CmdCode);
   ($"url", [], true, CmdURL); ($"status", [], true, CmdStatus); ($"reload", [], true, CmdReload);
   ($"help", [], false, CmdHelp)].

Definition cmdHelp (s : linkState) : dialogue command_result :=
  say (SaidHelp (map (fun c => (c.1.1.1, c.1.1.2)) (filter (fun c => c.1.2 = true) commands))) ;; ret (mkResult s false).

Definition run_command (fuel : nat) (c : console_env) (cmd : command) (args : list bytes) (s : linkState) : dialogue command_result :=
  match cmd with
  | CmdList => cmdList (asked c) s
  | CmdAdd => cmdAdd fuel (asked c) (ops c) s
  | CmdEdit => cmdEdit fuel (asked c) (ops c) args s
  | CmdRemove => cmdRemove (ops c) args s
  | CmdQR => cmdQR args s
  | CmdCode => cmdCode c s
  | CmdURL => cmdURL s
  | CmdStatus => cmdStatus c s
  | CmdReload => let* r := cmdReload (ops c) s in if cPolled r then let* _ := cmdList (now (ops c)) (cState r) in ret r else ret r
  | CmdHelp => cmdHelp s
  end.

Definition runCommand (fuel : nat) (c : console_env) (line : bytes) (s : linkState) : dialogue command_result :=
  match Fields line with
  | [] => ret (mkResult s false)
  | name :: args =>
    match list_find (fun x : bytes * bytes * bool * command => x.1.1.1 = name) commands with
    | Some (_, (_, cmd)) => run_command fuel c cmd args s
    | None => say (SaidUnknown name) ;; ret (mkResult s false)
    end
  end.

(** * A pairing's grant *)

Definition grantDefault (asked : Time) (e : env) (s : linkState) : linkState * option bytes :=
  match add cwd e (mkTerms (datedLabel s $"paired" asked) [] [] None) s with
  | (s', Ok code) => (s', Some code)
  | (s', Err _) => (s', None)
  end.

(** The operator's answer, or everything. An error of [add] ends the session of the console as one
    that was abandoned. *)
Definition pairing_questions (fuel : nat) (asked : Time) (s : linkState) (offered : Spec) : dialogue Terms :=
  let terms := mkTerms (datedLabel s $"paired" asked) [] [] None in
  let* answer := Ask AskedEverything $"Y" in
  if is_yes answer then ret terms else grantQuestions fuel terms offered (takenLabels s []) asked.

Definition grantForPairing (available : bool) (fuel : nat) (asked : Time) (e : env) (offered : Spec)
  (s : linkState) (lines : list bytes) : linkState * option bytes :=
  if negb available then grantDefault asked e s else
  match (pairing_questions fuel asked s offered lines).1.1 with
  | Answered terms => match add cwd e terms s with (s', Ok code) => (s', Some code) | (s', Err _) => (s', None) end
  | _ => (s, None)
  end.
End Host.
