(* ===== verification/GrantDialogSpec.v ===== *)
(** What the grant dialogue promises (the model is in GrantDialog.v): it ends; what it settles on is a
    grant the listener can honour, an expiry still ahead and a usable label; pressing Enter through
    an edit changes nothing; and the code a pairing hands over opens the link it minted and nothing
    else. *)

From stdpp Require Import pretty.
From S2P Require Import Prelude GoLib GoTime Json Allowlist Grant GrantRoundTrip Links LinkState GrantDialog.

#[local] Open Scope dialogue_scope.

(** * Conversations *)

Lemma and_then_answered {A B} (m : dialogue A) (f : A -> dialogue B) ls b k w :
  (let* x := m in f x) ls = (Answered b, k, w) ->
  exists a ls1 w1 w2, m ls = (Answered a, ls1, w1) /\ f a ls1 = (Answered b, k, w2) /\ w = w1 ++ w2.
Proof.
  unfold and_then. destruct (m ls) as [[[a| |] ls1] w1] eqn:E; [|done..].
  destruct (f a ls1) as [[o ls2] w2] eqn:Ef. intros [= -> -> <-]. by exists a, ls1, w1, w2.
Qed.

Lemma ret_answered {A} (a b : A) ls k w : ret a ls = (Answered b, k, w) -> a = b /\ ls = k.
Proof. by intros [= -> -> _]. Qed.

Lemma say_answered x ls a k w : say x ls = (Answered a, k, w) -> ls = k.
Proof. by intros [= _ -> _]. Qed.

(** Splits a conversation that answered into those of its parts. *)
Ltac converse :=
  repeat match goal with
  | H : and_then _ _ _ = (Answered _, _, _) |- _ =>
    let a := fresh "a" in let ls := fresh "ls" in let w := fresh "w" in let w' := fresh "w" in
    let H1 := fresh "Hm" in let H2 := fresh "Hk" in
    apply and_then_answered in H as (a & ls & w & w' & H1 & H2 & _)
  | H : say _ _ = (Answered _, _, _) |- _ => apply say_answered in H as <-
  | H : ret _ _ = (Answered _, _, _) |- _ => apply ret_answered in H as [? <-]
  | H : out_of_fuel _ = (Answered _, _, _) |- _ => discriminate H
  end.

(** With more fuel than lines a conversation does not run out of it; it leaves no more lines than it
    found, and is given up only where none is left. *)
Definition settles {A} (n : nat) (m : dialogue A) : Prop :=
  forall ls, (length ls < n)%nat ->
    match m ls with
    | (Answered _, ls', _) => (length ls' <= length ls)%nat
    | (GaveUp, ls', _) => ls' = []
    | (OutOfFuel, _, _) => False
    end.

Lemma settles_ret {A} n (a : A) : settles n (ret a).
Proof. intros ls _. cbn. lia. Qed.

Lemma settles_say n x : settles n (say x).
Proof. intros ls _. cbn. lia. Qed.

Lemma settles_ask n q d : settles n (Ask q d).
Proof. intros [|l ls] _; cbn; [done|lia]. Qed.

Lemma settles_bind {A B} n (m : dialogue A) (f : A -> dialogue B) :
  settles n m -> (forall a, settles n (f a)) -> settles n (let* x := m in f x).
Proof.
  intros Hm Hf ls Hls. specialize (Hm ls Hls). unfold and_then. destruct (m ls) as [[[a| |] ls1] w1]; [|done..].
  specialize (Hf a ls1 ltac:(lia)). destruct (f a ls1) as [[[b| |] k] w2]; [lia|done..].
Qed.

(** A question uses up a line, so what follows has one unit of fuel less to settle with. *)
Lemma settles_ask_bind {B} n q d (f : bytes -> dialogue B) :
  (forall a, settles n (f a)) -> settles (S n) (let* x := Ask q d in f x).
Proof.
  intros Hf [|l ls] Hls; [done|]. unfold and_then, Ask. set (a := if decide _ then _ else _).
  specialize (Hf a ls ltac:(cbn in Hls; lia)). destruct (f a ls) as [[[b| |] k] w2]; [cbn; lia|done..].
Qed.

Lemma settles_O {A} (m : dialogue A) : settles 0 m.
Proof. intros ls H. lia. Qed.

Lemma settles_le {A} n k (m : dialogue A) : settles n m -> (k <= n)%nat -> settles k m.
Proof. intros H Hk ls Hls. apply H. lia. Qed.

Create HintDb talk.
#[export] Hint Resolve settles_ret settles_say settles_ask settles_bind settles_ask_bind settles_O : talk.

(** * Naming *)

Lemma print_Z_inj a b : print_Z a = print_Z b -> a = b.
Proof.
  unfold print_Z. intros H. apply (f_equal String.string_of_list_ascii) in H.
  rewrite !String.string_of_list_ascii_of_string in H. by apply (inj pretty).
Qed.

Lemma number_label_spec base taken : forall fuel n,
  match number_label fuel n base taken with
  | Some l => l ∉ taken
  | None => forall i, 0 <= i < Z.of_nat fuel -> base ++ $"-" ++ Itoa (n + i) ∈ taken
  end.
Proof.
  induction fuel as [|fuel IH]; intros n; cbn [number_label]; [intros; lia|].
  case_decide as Hin; [|done]. specialize (IH (n + 1)). destruct (number_label fuel (n + 1) base taken); [done|].
  intros i Hi. destruct (decide (i = 0)) as [->|]; [by rewrite Z.add_0_r|].
  replace (n + i) with (n + 1 + (i - 1)) by lia. apply IH. lia.
Qed.

(** One of as many numbered labels as there are names in use, and one more, is free. *)
Lemma number_label_free base taken n : exists l, number_label (S (length taken)) n base taken = Some l /\ l ∉ taken.
Proof.
  pose proof (number_label_spec base taken (S (length taken)) n) as H.
  destruct (number_label _ _ _ _) as [l|]; [by exists l|]. exfalso.
  set (cand := map (fun i => base ++ $"-" ++ Itoa (n + Z.of_nat i)) (seq 0 (S (length taken)))).
  assert (length cand <= length taken)%nat as Hl; [|subst cand; rewrite length_map, length_seq in Hl; lia].
  apply submseteq_length, NoDup_submseteq.
  - apply NoDup_fmap_2_strong; [|apply NoDup_seq]. intros i j _ _ E. apply app_inv_head in E.
    apply app_inv_head in E. apply print_Z_inj in E. lia.
  - intros l (i & -> & Hi)%list_elem_of_fmap. apply elem_of_seq in Hi. apply H. lia.
Qed.

Lemma datedLabel_fresh wall_at s prefix now : datedLabel wall_at s prefix now ∉ map Label (current s).
Proof.
  assert (forall l, l ∈ map Label (current s) <-> l ∈ labels s) as Hs.
  { intros l. unfold labels. unfold sort_strings. by rewrite sort_by_perm. }
  rewrite Hs. unfold datedLabel. case_decide; [|done].
  destruct (number_label_free (prefix ++ $"-" ++ ToLower (FormatJan2 (wall_at (now / Second)))) (labels s) 2) as (l & -> & Hl). done.
Qed.

Section Host.
Context (cwd : bytes) (date_in wall_at : Z -> Z).

(** * The dialogues end *)

Lemma askGrant_loop_settles def offered n : settles n (askGrant_loop cwd n def offered).
Proof.
  induction n as [|n IH]; [apply settles_O|]. cbn [askGrant_loop]. apply settles_ask_bind. intros a. cbn zeta.
  case_step; [auto with talk|]. destruct (ParseString _); [|auto with talk]. destruct (Narrow _ _ _); auto with talk.
Qed.

Lemma askOtherExpiry_settles now n : settles n (askOtherExpiry date_in n now).
Proof.
  induction n as [|n IH]; [apply settles_O|]. cbn [askOtherExpiry]. apply settles_ask_bind. intros a.
  destruct (parseWhen _ _ _); auto with talk.
Qed.

Lemma askExpiry_loop_settles menu now n : settles n (askExpiry_loop date_in n menu now).
Proof.
  induction n as [|n IH]; [apply settles_O|]. cbn [askExpiry_loop]. apply settles_ask_bind. intros a.
  destruct (_ ≫= _) as [[]|]; auto with talk.
  apply settles_bind; [apply askOtherExpiry_settles|]. intros []; auto with talk.
Qed.

Lemma askLabel_settles def taken n : settles n (askLabel n def taken).
Proof.
  induction n as [|n IH]; [apply settles_O|]. cbn [askLabel]. apply settles_ask_bind. intros a. cbn zeta.
  repeat case_decide; auto with talk.
Qed.

Lemma askGrant_settles seed offered n : settles n (askGrant cwd n seed offered).
Proof. unfold askGrant. case_decide; auto using askGrant_loop_settles with talk. Qed.

Lemma grantQuestions_settles seed offered taken now n : settles n (grantQuestions cwd date_in n seed offered taken now).
Proof.
  unfold grantQuestions, askExpiry.
  auto 10 using askGrant_settles, askExpiry_loop_settles, askLabel_settles with talk.
Qed.

(** * What an answered question means *)

(** A sentence the listener can honour, as the link keeps it: where the sentence can be written back
    at all, a link that keeps it reaches what the sentence asked for. *)
Definition honoured (offered : Spec) (g : bytes) : Prop :=
  exists text spec eff, ParseString text = Ok spec /\ Narrow cwd offered spec = Ok eff /\
    within cwd eff offered /\ g = SpecString spec /\
    (expressible spec -> forall t, GrantText t = g -> Effective cwd t offered = Ok eff).

Lemma Narrow_caps offered spec eff : Narrow cwd offered spec = Ok eff -> is_Some (Caps spec) -> Intersect spec offered = spec.
Proof.
  intros H [c Hc]. unfold Narrow, Intersect in *. rewrite Hc in *. unfold result_bind in H.
  destruct (result_map _ Order) eqn:Eo; [|done]. apply result_map_ok in Eo. destruct spec as [cs ? ? ? ?]. cbn in Hc |- *. subst cs.
  f_equal. f_equal. apply set_eq. intros sc. rewrite elem_of_intersection. split; [by intros [? _]|]. intros Hsc.
  split; [done|]. assert (sc ∈ Order) as Ho by (destruct sc; set_solver). apply list_elem_of_lookup in Ho as [i Hi].
  destruct (Forall2_lookup_l _ _ _ _ _ Eo Hi) as (u & _ & Hu). case_step_in Hu; [done|]. unfold Has, caps in Heqb. cbn in Heqb.
  rewrite (bool_decide_true (sc ∈ c)) in Heqb by done. cbn in Heqb. by bool_to_prop.
Qed.

Lemma sentence_effective offered spec eff t :
  expressible spec -> Narrow cwd offered spec = Ok eff -> GrantText t = SpecString spec ->
  Effective cwd t offered = Ok eff.
Proof.
  intros He Hn Ht. unfold Effective, TermsSpec, ParseString. rewrite Ht, fields_of_rendered by done.
  cbn [result_bind]. rewrite parse_tokens_all by done. cbn [result_bind].
  rewrite (Narrow_caps _ _ _ Hn), Hn; [done|]. destruct He as [(c & Hc & _) _ _ _ _]. by exists c.
Qed.

Lemma askGrant_loop_answered def offered g ls' : rooted cwd = true -> forall fuel ls w,
  askGrant_loop cwd fuel def offered ls = (Answered g, ls', w) -> g = [] \/ honoured offered g.
Proof.
  intros Hc. induction fuel as [|n IH]; intros ls w H; cbn [askGrant_loop] in H; converse. cbn zeta in *.
  case_step_in Hk; [converse; by left|].
  destruct (ParseString (TrimSpace a)) as [spec|] eqn:Ep; [|converse; by eapply IH].
  destruct (Narrow cwd offered spec) as [eff|] eqn:En; [|converse; by eapply IH]. converse. right.
  exists (TrimSpace a), spec, eff. split_and!; try done; [apply ParseString_trimmed in Ep as [? ?]; by eapply Narrow_within|].
  intros He t Ht. eapply sentence_effective; [done..|congruence].
Qed.

Lemma askGrant_answered fuel seed offered ls g ls' w :
  rooted cwd = true -> askGrant cwd fuel seed offered ls = (Answered g, ls', w) -> g = [] \/ honoured offered g.
Proof.
  intros Hc. unfold askGrant. case_decide; intros H'; converse; [by left|]. by eapply askGrant_loop_answered.
Qed.

Lemma parseWhen_later s now t : parseWhen date_in s now = Ok t -> now < t.
Proof.
  unfold parseWhen. destruct s as [|c s]; [done|]. destruct (head _).
  - case_step; [|done]. intros [= <-]. by bool_to_prop.
  - destruct (ParseDuration _) as [d|]; [|done]. case_step; [done|]. intros [= <-]. bool_to_prop. lia.
Qed.

(** A whole second, at most one second behind an instant that lies ahead. *)
Definition ahead (now e : Time) : Prop := e mod Second = 0 /\ now < e + Second.

Lemma Truncate_ahead now t : now < t -> ahead now (Truncate t Second).
Proof. intros Ht. destruct (Truncate_second t) as [? ?]. split; [done|lia]. Qed.

Lemma askOtherExpiry_answered now ls' : forall fuel ls e w,
  askOtherExpiry date_in fuel now ls = (Answered (Some e), ls', w) -> ahead now e.
Proof.
  induction fuel as [|n IH]; intros ls e w H; cbn [askOtherExpiry] in H; converse.
  destruct (parseWhen _ _ _) as [t|] eqn:Ep; [|converse; by eapply IH]. apply parseWhen_later in Ep. converse.
  case_step_in H; [|done]. simplify_eq. by apply Truncate_ahead.
Qed.

Lemma expiryMenu_rows seed now c : c ∈ expiryMenu seed now ->
  match c with KeepExpiry e => Expires seed = Some e | After d => Hour <= d | _ => True end.
Proof.
  unfold expiryMenu. rewrite elem_of_app. intros [H|H].
  - destruct (Expires seed); [|by apply elem_of_nil in H]. by apply list_elem_of_singleton in H as ->.
  - repeat (apply elem_of_cons in H as [->|H]; [done|]). by apply elem_of_nil in H.
Qed.

Lemma askExpiry_answered seed now ls' : forall fuel ls e w,
  askExpiry_loop date_in fuel (expiryMenu seed now) now ls = (Answered (Some e), ls', w) ->
  Expires seed = Some e \/ ahead now e.
Proof.
  induction fuel as [|n IH]; intros ls e w H; cbn [askExpiry_loop] in H; converse.
  destruct (_ ≫= _) as [c|] eqn:Ec; [|converse; by eapply IH].
  assert (c ∈ expiryMenu seed now) as Hc%expiryMenu_rows.
  { destruct (Atoi _) as [i|]; [|done]. cbn in Ec. case_step_in Ec; [done|]. by eapply list_elem_of_lookup_2. }
  destruct c as [x| |d|]; converse; simplify_eq.
  - by left.
  - right. apply Truncate_ahead. change Hour with 3600000000000 in Hc. lia.
  - destruct a0 as [x|]; converse; [|by eapply IH]. simplify_eq. right. by eapply askOtherExpiry_answered.
Qed.

(** A name of its own for a link. *)
Definition usable_label (taken : list bytes) (l : bytes) : Prop :=
  trimmed l /\ l <> [] /\ l <> OwnerLabel /\ l ∉ taken.

Lemma askLabel_answered def taken l ls' : forall fuel ls w,
  askLabel fuel def taken ls = (Answered l, ls', w) -> usable_label taken l.
Proof.
  induction fuel as [|n IH]; intros ls w H; cbn [askLabel] in H; converse. cbn zeta in *.
  repeat (case_decide; [converse; by eapply IH|]). converse. subst l. split_and!; try done. apply TrimSpace_idempotent.
Qed.

(** The terms an answered dialogue settles on. *)
Definition settled (seed : Terms) (offered : Spec) (taken : list bytes) (now : Time) (t : Terms) : Prop :=
  Code t = Code seed /\
  (GrantText t = [] \/ honoured offered (GrantText t)) /\
  (Expires t = None \/ Expires t = Expires seed \/ exists e, Expires t = Some e /\ ahead now e) /\
  usable_label taken (Label t).

Lemma grantQuestions_answered fuel seed offered taken now ls t ls' w :
  rooted cwd = true -> grantQuestions cwd date_in fuel seed offered taken now ls = (Answered t, ls', w) ->
  settled seed offered taken now t.
Proof.
  intros Hc E. unfold grantQuestions, askExpiry in E. converse. subst t. cbn. split; [done|].
  split; [by eapply askGrant_answered|]. split; [|by eapply askLabel_answered].
  destruct a0 as [e|]; [|by left]. right.
  match goal with H : askExpiry_loop _ _ _ _ _ = _ |- _ => apply askExpiry_answered in H as [->|H] end; [by left|].
  right. by exists e.
Qed.

(** C15: Whatever the operator types, the questions about a link come to an end: they are given up only
    when no line is left to read, and otherwise settle on terms that keep the link's code, whose
    grant is everything the listener offers or a sentence it accepts and that stays within what it
    offers, whose expiry is none, the one the link had or a whole second no more than one second
    behind the present, and whose label is trimmed, not empty, not the owner's and not in use. *)
Theorem grant_questions_sound seed offered taken now ls :
  rooted cwd = true ->
  match grantQuestions cwd date_in (S (length ls)) seed offered taken now ls with
  | (Answered t, _, _) => settled seed offered taken now t
  | (GaveUp, rest, _) => rest = []
  | (OutOfFuel, _, _) => False
  end.
Proof.
  intros Hc. pose proof (grantQuestions_settles seed offered taken now (S (length ls)) ls ltac:(lia)) as Hs.
  destruct (grantQuestions _ _ _ _ _ _ _ ls) as [[[t| |] rest] w] eqn:E; [|done..].
  by eapply grantQuestions_answered.
Qed.

(** * Enter accepts what is there *)

Definition blank (line : bytes) : Prop := TrimSpace line = [].

(** The text of a link in the form the dialogue keeps it in, and one the listener accepts. *)
Definition canonical (offered : Spec) (g : bytes) : Prop :=
  g = [] \/ exists spec eff, g = SpecString spec /\ expressible spec /\ trimmed g /\ Narrow cwd offered spec = Ok eff.

Lemma Ask_blank q d line ls : blank line -> Ask q d (line :: ls) = (Answered d, ls, [q]).
Proof. intros H. unfold Ask. by rewrite decide_True. Qed.

Lemma SpecString_not_all spec : expressible spec -> is_all (SpecString spec) = false.
Proof.
  intros He. assert (exists sc k, SpecString spec = word_of sc ++ k) as (sc & k & ->).
  { destruct He as [(c & Hc & Hne) _ _ _ _]. apply set_choose_L in Hne as [sc Hsc].
    assert (Has spec sc = true) as Hh by (unfold Has, caps; rewrite Hc; by apply bool_decide_eq_true).
    assert (forall sc l, exists k, join $" " (word_of sc :: l) = word_of sc ++ k) as Hj.
    { intros sc' []; cbn; [by exists []; rewrite app_nil_r|]. by eexists. }
    unfold SpecString. cbn [Order flat_map]. repeat case_step; cbn [app]; try (eexists; apply Hj).
    by destruct sc; congruence. }
  assert (5 <= length (word_of sc))%nat as Hl by (destruct sc; vm_compute; lia).
  unfold is_all. apply bool_decide_eq_false. intros [H|H]; apply (f_equal length) in H; unfold ToLower in H;
    rewrite ?length_map, length_app in H; [cbn in H|change (length $"all") with 3%nat in H]; lia.
Qed.

Lemma askGrant_enter fuel seed offered line ls :
  blank line -> caps offered <> ∅ -> canonical offered (GrantText seed) ->
  exists w, askGrant cwd (S fuel) seed offered (line :: ls) = (Answered (GrantText seed), ls, w).
Proof.
  intros Hb Hne Hg. unfold askGrant. rewrite decide_False by done. unfold and_then, say. cbn [askGrant_loop].
  unfold and_then. rewrite Ask_blank by done. destruct Hg as [->|(spec & eff & Hg & He & Ht & Hn)].
  - replace (is_all (TrimSpace $"all")) with true by (by vm_compute). by eexists.
  - rewrite Hg in *. pose proof (SpecString_not_all spec He) as Hall. destruct (SpecString spec) as [|c g] eqn:Es; [done|].
    rewrite Ht, Hall. unfold ParseString. rewrite <- Es, fields_of_rendered by done. cbn [result_bind].
    rewrite parse_tokens_all, Hn by done. by eexists.
Qed.

Lemma askExpiry_enter fuel seed now line ls :
  blank line -> exists w, askExpiry date_in (S fuel) seed now (line :: ls) = (Answered (Expires seed), ls, w).
Proof.
  intros Hb. unfold askExpiry, and_then, say. cbn [askExpiry_loop]. unfold and_then. rewrite Ask_blank by done.
  replace (Atoi (TrimSpace $"1")) with (Some 1) by (by vm_compute). unfold expiryMenu.
  destruct (Expires seed); by eexists.
Qed.

Lemma askLabel_enter fuel label taken line ls :
  blank line -> usable_label taken label -> exists w, askLabel (S fuel) label taken (line :: ls) = (Answered label, ls, w).
Proof.
  intros Hb (Ht & H1 & H2 & H3). cbn [askLabel]. unfold and_then. rewrite Ask_blank by done. cbn zeta.
  rewrite Ht, !decide_False by done. by eexists.
Qed.

(** A row written back as it was leaves the rows as they were. *)
Lemma replace_rows_same cur : forall es found,
  (forall x, x ∈ es -> Label x = Label cur -> x = cur) -> (found = true \/ cur ∈ es) ->
  replace_rows (Label cur) cur found es = Ok es.
Proof.
  induction es as [|x es IH]; intros found Hu Hf; cbn [replace_rows].
  - destruct Hf as [->|H]; [done|by apply elem_of_nil in H].
  - case_decide as Hl.
    + rewrite (Hu x) by (done || by left). replace (cur <| Code := Code cur |>) with cur by (by destruct cur).
      rewrite IH; [done| |by left]. intros y Hy. apply Hu. by right.
    + rewrite IH; [done| |]; [intros y Hy; apply Hu; by right|]. destruct Hf as [|Hin]; [by left|].
      apply elem_of_cons in Hin as [->|]; [done|by right].
Qed.

(** Pressing Enter through an edit changes nothing: where the link's grant is in the form the
    dialogue keeps and still within what the listener serves, three blank lines answer with the
    link as it stands, and writing that answer back leaves every row of the table as it was. *)
Theorem enter_changes_nothing fuel cur offered taken now l1 l2 l3 es :
  blank l1 -> blank l2 -> blank l3 -> caps offered <> ∅ ->
  canonical offered (GrantText cur) -> usable_label taken (Label cur) ->
  cur ∈ es -> NoDup (map Label es) ->
  (exists w, grantQuestions cwd date_in (S fuel) cur offered taken now [l1; l2; l3] = (Answered cur, [], w)) /\
  replace_rows (Label cur) cur false es = Ok es.
Proof.
  intros H1 H2 H3 Hne Hg Hl Hin Hnd. split.
  - unfold grantQuestions. destruct (askGrant_enter fuel cur offered l1 [l2; l3] H1 Hne Hg) as [w1 E1].
    destruct (askExpiry_enter fuel cur now l2 [l3] H2) as [w2 E2].
    destruct (askLabel_enter fuel (Label cur) taken l3 [] H3 Hl) as [w3 E3].
    unfold and_then. rewrite E1, E2, E3. unfold ret. by destruct cur; eexists.
  - apply replace_rows_same; [|by right]. intros x Hx E. apply list_elem_of_lookup in Hin as [i Hi], Hx as [j Hj].
    assert (i = j) as <- by (apply (NoDup_lookup _ i j (Label cur) Hnd); rewrite list_lookup_fmap, ?Hi, ?Hj; cbn; congruence).
    congruence.
Qed.
(** * What a minted link is worth *)

Lemma add_entry_ok entry es es1 :
  add_entry entry es = Ok es1 -> es1 = es ++ [entry] /\ Label entry ∉ map Label es.
Proof.
  unfold add_entry. destruct (existsb _ es) eqn:E; [done|]. intros [= <-]. split; [done|].
  intros (x & Hl & Hx)%list_elem_of_fmap. apply not_true_iff_false in E. apply E, existsb_exists.
  exists x. split; [by apply list_elem_of_In|by apply bool_decide_eq_true].
Qed.

(** The row [x] of the table a successful [add] leaves, for the terms asked for. *)
Record minted (s s' : linkState) (e : env) (terms : Terms) (code : bytes) (x : Terms) : Prop := {
  minted_row : by_label s' (Label terms) = Some x;
  minted_terms : same_row terms x;
  minted_code : Code x = code;
  minted_label : Label terms <> OwnerLabel /\ Label terms ∉ map Label (disk_rows s);
  minted_new : code <> [] -> code <> lsCode s /\ code ∉ map Code (disk_rows s);
  minted_opens : forall t, table s' = Some t -> is_ok (Check x (now e)) = true ->
    code <> [] /\ Authorize t code (now e) = Some x;
  minted_lapsed : is_ok (Check x (now e)) = false -> code = []
}.

Lemma add_mints s s' e terms code :
  lsCode s <> [] -> fresh (lsCode s) (disk_rows s) (supply e) ->
  add cwd e terms s = (s', Ok code) -> exists x, minted s s' e terms code x.
Proof.
  intros Hc Hf. unfold add. case_bool_decide as Ho; [done|].
  destruct (mutate _ _ _ s) as [s1 r] eqn:Em. apply mutate_cases in Em; [|done|intros; by eapply add_entry_codes].
  destruct r as [u|]; [|done]. intros [= <- <-]. destruct Em as (es1 & es' & Hadd & Hi & _).
  apply add_entry_ok in Hadd as [-> Hl]. pose proof (installs_good _ _ _ _ _ Hc Hi) as [Hc' Hgood].
  destruct Hi as ((Hcode & _) & Hh & t & Ht & [He _ Hnd]). destruct (Hgood t Ht) as (Hu & _ & _).
  pose proof (honest_rows _ _ _ _ Hh) as (es0 & l & Hrows & Hlast & ->)%Forall2_app_inv_l.
  apply Forall2_cons_inv_l in Hlast as (x & l' & Hsame & ->%Forall2_nil_inv_l & ->).
  assert (x ∈ es0 ++ [x]) as Hx' by (apply elem_of_app; right; by left).
  assert (Hx : x ∈ entries t) by (rewrite He; by right).
  assert (Hxl : Label x = Label terms) by apply Hsame.
  assert (Hby : ByLabel t (Label terms) = Some x) by (by apply ByLabel_find).
  cbn [Label clear_code upd]. change (Label (clear_code terms)) with (Label terms). rewrite Ht. cbn. rewrite Hby. cbn.
  exists x. pose proof (honest_new _ _ _ _ Hh) as Hnew. apply Forall2_app_inv in Hnew as [_ Hnew];
    [|by apply Forall2_length in Hrows]. apply Forall2_cons_1 in Hnew as [Hcx _]. specialize (Hcx eq_refl).
  split; try done.
  - unfold by_label. by rewrite Ht.
  - intros Hne. destruct Hcx as [|Hcx]; [done|]. by destruct Hf as [_ Hf]; destruct (Hf _ Hcx) as (_ & ? & ?).
  - intros t' Ht' Hok. rewrite Ht in Ht'. inv Ht'.
    pose proof (honest_live _ _ _ _ Hh x Hx' Hok) as Hne. split; [done|]. apply authorize_exact; [done|].
    split_and!; try done. by destruct (Check x (now e)) as [[]|].
  - by apply (honest_expired _ _ _ _ Hh).
Qed.

(** The terms a pairing settles on. *)
Definition pairing_terms (s : linkState) (offered : Spec) (asked : Time) (terms : Terms) : Prop :=
  (GrantText terms = [] \/ honoured offered (GrantText terms)) /\
  (Expires terms = None \/ exists e, Expires terms = Some e /\ ahead asked e) /\
  Label terms ∉ map Label (current s).

Lemma takenLabels_all s l : l ∉ takenLabels s [] -> l <> [] -> l ∉ map Label (current s).
Proof.
  intros H Hne Hin. apply H. unfold takenLabels, labels, sort_strings. apply list_elem_of_filter. split; [done|].
  by rewrite sort_by_perm.
Qed.

Lemma pairing_questions_settle fuel asked s offered : settles (S fuel) (pairing_questions cwd date_in wall_at (S fuel) asked s offered).
Proof.
  unfold pairing_questions. apply settles_ask_bind. intros a. case_step; [apply settles_ret|].
  eapply settles_le; [apply grantQuestions_settles|lia].
Qed.

Lemma pairing_questions_answered fuel asked s offered ls terms ls' w :
  rooted cwd = true -> pairing_questions cwd date_in wall_at fuel asked s offered ls = (Answered terms, ls', w) ->
  pairing_terms s offered asked terms.
Proof.
  intros Hc H. unfold pairing_questions in H. converse. case_step_in Hk.
  - converse. subst terms. split; [by left|]. split; [by left|]. apply datedLabel_fresh.
  - apply grantQuestions_answered in Hk as (_ & Hg & He & Hl); [|done]. split; [done|]. split.
    + destruct He as [He|[He|He]]; [by left|by left|by right].
    + destruct Hl as (_ & Hne & _ & Hni). by apply takenLabels_all.
Qed.

(** C14: What a pairing hands over is a link of its own: whatever was typed at its questions, and where
    there was no terminal to ask on, the code it returns is that of a row it has just added, under a
    label no row had, whose grant is everything or a sentence the listener accepts. The code is not
    the listener's own nor one already in the file; it opens exactly that row as long as the row has
    not lapsed, and it is empty where it has. *)
Theorem pairing_hands_link available fuel asked e offered s lines s' code :
  rooted cwd = true -> lsCode s <> [] -> fresh (lsCode s) (disk_rows s) (supply e) ->
  grantForPairing cwd date_in wall_at available fuel asked e offered s lines = (s', Some code) ->
  exists terms x, pairing_terms s offered asked terms /\ minted s s' e terms code x.
Proof.
  intros Hr Hc Hf. unfold grantForPairing. destruct available; cbn [negb].
  - destruct (pairing_questions _ _ _ _ _ _ _ lines) as [[[terms| |] rest] w] eqn:E; cbn; [|done..].
    destruct (add cwd e terms s) as [s1 [c|]] eqn:Ea; [|done]. intros [= <- <-].
    apply pairing_questions_answered in E; [|done]. destruct (add_mints _ _ _ _ _ Hc Hf Ea) as [x Hx]. by exists terms, x.
  - unfold grantDefault. destruct (add _ _ _ s) as [s1 [c|]] eqn:Ea; [|done]. intros [= <- <-].
    destruct (add_mints _ _ _ _ _ Hc Hf Ea) as [x Hx]. eexists _, x. split; [|done].
    split; [by left|]. split; [by left|]. apply datedLabel_fresh.
Qed.
(** * The console's commands *)

(** What a command leaves is the table as it was or what one operation on it leaves, and the live
    sessions are polled where that operation took rows away or changed them. *)
Definition one_operation (e : env) (s : linkState) (r : command_result) : Prop :=
  (cState r = s /\ cPolled r = false) \/
  exists o, cState r = exec cwd e o s /\
    (cPolled r = false -> table (cState r) = table s \/ exists entry, o = Add entry).

Lemma run_command_one fuel c cmd args s ls r ls' w :
  fresh (lsCode s) (disk_rows s) (supply (ops c)) ->
  run_command cwd date_in wall_at fuel c cmd args s ls = (Answered r, ls', w) -> one_operation (ops c) s r.
Proof.
  intros Hf H. destruct cmd; cbn [run_command] in H;
    unfold cmdList, cmdAdd, cmdEdit, cmdRemove, cmdQR, cmdCode, cmdURL, cmdStatus, cmdReload, cmdHelp in H;
    try (left; converse; by subst r).
  - converse. right. exists (Add a). cbn [exec]. destruct (add cwd (ops c) a s) as [s' [code|]]; unfold granted in *; converse; subst r;
      (split; [done|]; intros _; right; by eexists).
  - destruct args as [|ref [|]]; [left; converse; by subst r| |left; converse; by subst r].
    destruct (by_label s (byRef s ref)) as [cur|]; [|left; converse; by subst r].
    case_decide; [left; converse; by subst r|]. converse. right. exists (Replace (Label cur) a). cbn [exec].
    destruct (replace cwd (ops c) (Label cur) a s) as [s' [u|]] eqn:E; unfold granted in *; converse; subst r; (split; [done|]); [done|].
    intros _. left. cbn. unfold replace in E. case_bool_decide; [by inv E|].
    apply mutate_cases in E; [|done|intros; by eapply replace_rows_codes]. by destruct E.
  - destruct args as [|ref [|]]; [left; converse; by subst r| |left; converse; by subst r].
    right. exists (Remove (byRef s ref)). cbn [exec].
    destruct (remove cwd (ops c) (byRef s ref) s) as [s' [u|]] eqn:E; converse; subst r; (split; [done|]); [done|].
    intros _. left. cbn. unfold remove in E. case_bool_decide; [by inv E|].
    apply mutate_cases in E; [|done|intros; by eapply remove_entry_codes]. by destruct E.
  - destruct args as [|ref [|]]; [left; converse; by subst r| |left; converse; by subst r].
    destruct (by_label s (byRef s ref)) as [cur|]; [|left; converse; by subst r].
    destruct (Code cur); left; converse; by subst r.
  - right. exists Reload. cbn [exec]. destruct (reload cwd (ops c) s) as [s' [u|]] eqn:E; converse; subst a; cbn in Hk.
    + by injection Hk as <- _ _.
    + injection Hk as <- _ _. split; [done|]. intros _. left. cbn. apply reload_cases in E; [|done]. by destruct E.
Qed.

(** A line typed at the console is at most one operation on the link table: whatever it says and
    whatever is answered to the questions it asks, the table is afterwards as it was, or as one add,
    edit, removal or reload leaves it, so that whatever holds of the table through a listener's life
    holds at its console; and except for an added link a table that has changed is at once held
    against the live sessions. *)
Theorem command_is_operation fuel c line s ls r ls' w :
  fresh (lsCode s) (disk_rows s) (supply (ops c)) ->
  runCommand cwd date_in wall_at fuel c line s ls = (Answered r, ls', w) ->
  steps (lstep cwd) s (cState r) /\ one_operation (ops c) s r.
Proof.
  intros Hf H. assert (one_operation (ops c) s r) as Ho.
  { unfold runCommand in H. destruct (Fields line) as [|name args]; [left; converse; by subst r|].
    destruct (list_find _ _) as [[i [x cmd]]|]; [by eapply run_command_one|]. left; converse; by subst r. }
  split; [|done]. destruct Ho as [[-> _]|(o & -> & _)]; [constructor|]. by apply steps_one, lstep_op.
Qed.
End Host.

(** * Dialogues at work *)

Definition utc (z : Z) : Z := z.

(** Noon of 20 August 2026. *)
Definition noon : Time := wall_of 2026 8 20 12 0 * Second.

Definition host_offer : Spec := from_result no_spec (ParseString $"forward db:5432,web files share shell").
Definition fresh_state : linkState := mkLinkState host_offer $"OWN" false None None None.
Definition codes_env : env := mkEnv (noon + Minute) [Some $"K1"; Some $"K2"] true 7.

(** Two refused sentences, a menu number out of range, a date gone by, a declined confirmation, and a
    taken label, before the answers that settle. *)
Definition wandering : list bytes :=
  [$"shall"; $"forward nas"; $"forward web files share/pub"; $"9"; $"5"; $"2020-01-01"; $"2w"; $"n"; $"5"; $"1w3d"; [];
   $"web"; $" nas "].

Lemma fresh_codes_env s : lsCode s = $"OWN" -> (forall x, x ∈ disk_rows s -> x.(Code) = $"K0" \/ x.(Code) = []) ->
  fresh (lsCode s) (disk_rows s) (supply codes_env).
Proof.
  intros -> Hs. split; [apply (bool_decide_unpack _); by vm_compute|]. intros c Hc.
  assert (c = $"K1" \/ c = $"K2") as Hk.
  { apply elem_of_cons in Hc as [[= ->]|Hc]; [by left|]. apply elem_of_cons in Hc as [[= ->]|Hc]; [by right|]. by apply elem_of_nil in Hc. }
  split_and!; [by destruct Hk as [-> | ->]..|]. intros (x & -> & Hx)%list_elem_of_fmap.
  destruct (Hs x Hx) as [Hx'|Hx']; rewrite Hx' in Hk; by destruct Hk.
Qed.

Lemma grant_questions_sound_witness :
  rooted $"/srv" = true /\
  match grantQuestions $"/srv" utc (S (length wandering)) (mkTerms $"nas" [] [] None) host_offer [$"owner"; $"web"] noon (wandering) with
  | (Answered t, _, _) => t = mkTerms $"nas" [] $"files share/pub forward web" (Some (noon + 240 * Hour))
  | _ => False
  end /\
  match grantQuestions $"/srv" utc (S (length (wandering))) (mkTerms $"nas" [] [] None) host_offer [$"owner"; $"web"] noon (wandering) with
  | (Answered t, _, _) => settled $"/srv" (mkTerms $"nas" [] [] None) host_offer [$"owner"; $"web"] noon t
  | (GaveUp, rest, _) => rest = []
  | (OutOfFuel, _, _) => False
  end.
Proof.
  split; [done|]. split; [vm_compute; reflexivity|].
  apply (grant_questions_sound $"/srv" utc (mkTerms $"nas" [] [] None) host_offer [$"owner"; $"web"] noon (wandering)).
  reflexivity.
Defined.

Definition kept_link : Terms := mkTerms $"web" $"K0" $"files share/pub" (Some (noon + Hour)).

Lemma enter_changes_nothing_witness :
  blank $"  " /\
  ((exists w, grantQuestions $"/srv" utc 2 kept_link host_offer [$"owner"] noon [[]; $"  "; []] = (Answered kept_link, [], w)) /\
   replace_rows (Label kept_link) kept_link false [kept_link] = Ok [kept_link]).
Proof.
  split; [by vm_compute|]. apply (enter_changes_nothing $"/srv" utc 1 kept_link host_offer [$"owner"] noon [] $"  " [] [kept_link]).
  - by vm_compute.
  - by vm_compute.
  - by vm_compute.
  - intros H. apply (f_equal (fun c : gset scope => bool_decide (ScopeFiles ∈ c))) in H. by vm_compute in H.
  - right. exists (mkSpec (Some {[ScopeFiles]}) [] $"share/pub" [] []). eexists. split_and!; [by vm_compute| |by vm_compute|by vm_compute].
    split; cbn.
    + eexists. split; [done|]. by vm_compute.
    + done.
    + intros _. split_and!; try (vm_compute; done); repeat constructor; try (vm_compute; done); by left.
    + split; [by left|done].
    + split; [by left|done].
  - split_and!; try by vm_compute. intros H. apply list_elem_of_singleton in H. by vm_compute in H.
  - by left.
  - by repeat constructor; apply not_elem_of_nil.
Defined.

Lemma pairing_hands_link_witness :
  (grantForPairing $"/srv" utc utc true 20 noon codes_env host_offer fresh_state ($"n" :: wandering)).2 = Some $"K1" /\
  exists terms x, pairing_terms $"/srv" fresh_state host_offer noon terms /\
    minted fresh_state (grantForPairing $"/srv" utc utc true 20 noon codes_env host_offer fresh_state ($"n" :: wandering)).1
      codes_env terms $"K1" x.
Proof.
  split; [by vm_compute|].
  apply (pairing_hands_link $"/srv" utc utc true 20 noon codes_env host_offer fresh_state ($"n" :: wandering)).
  - done.
  - done.
  - apply fresh_codes_env; [done|]. intros x Hx. by apply elem_of_nil in Hx.
  - by vm_compute.
Defined.

Definition console_at_noon : console_env := mkConsole noon codes_env [($"web", kept_link)] None [].

(** A table of one link, and the command that removes it by the number it is listed under. *)
Definition one_row : linkState :=
  mkLinkState host_offer $"OWN" false (Some (mkTable [owner_row $"OWN"; kept_link] host_offer)) (Some 3) (Some (Some [kept_link], 3)).
Definition emptied : linkState :=
  mkLinkState host_offer $"OWN" false (Some (mkTable [owner_row $"OWN"] host_offer)) (Some 7) (Some (Some [], 7)).

Lemma command_is_operation_witness :
  fresh (lsCode one_row) (disk_rows one_row) (supply (ops console_at_noon)) /\
  (steps (lstep $"/srv") one_row emptied /\ one_operation $"/srv" codes_env one_row (mkResult emptied true)).
Proof.
  assert (fresh (lsCode one_row) (disk_rows one_row) (supply (ops console_at_noon))) as Hf.
  { apply fresh_codes_env; [done|]. intros x ->%list_elem_of_singleton. by left. }
  split; [exact Hf|].
  apply (command_is_operation $"/srv" utc utc 9 console_at_noon $" rm  1 " one_row [] (mkResult emptied true) [] [SaidRemoved $"web"] Hf).
  vm_compute. reflexivity.
Defined.

(** * What the dialogue lets through *)

(** The instant is checked before it is cut to a whole second: one millisecond from now is accepted
    and has lapsed by the time it is stored, so the pairing hands over an empty code. *)
Lemma lapsed_pairing_hands_empty_code :
  parseWhen utc $"1ms" noon = Ok (noon + Millisecond) /\
  (grantForPairing $"/srv" utc utc true 20 noon codes_env host_offer fresh_state [$"n"; []; $"5"; $"1ms"; []; []]).2 = Some [].
Proof. by vm_compute. Qed.

(** A directory whose name holds both kinds of quote is accepted at the prompt, and what is written
    to the file for it does not parse: no later operation on the table succeeds. *)
Lemma accepted_grant_closes_table :
  let text := $"files " ++ [dquote; "a"%char; squote; dquote; squote; dquote; "b"%char; squote] in
  let offer := from_result no_spec (ParseString $"files") in
  let s := mkLinkState offer $"OWN" false None None None in
  exists r ls w, cmdAdd $"/srv" utc utc 20 noon codes_env s [text; []; []] = (Answered r, ls, w) /\
    is_Some (by_label (cState r) $"link-aug20") /\
    forall fn, (mutate $"/srv" codes_env fn (cState r)).2 = Err (BadEntries (BadGrant $"link-aug20" (Unbalanced dquote))).
Proof.
  eexists _, _, _. split; [vm_compute; reflexivity|]. split; [vm_compute; by eexists|]. intros fn.
  vm_compute. reflexivity.
Qed.

(** A list of targets is kept without its empty entries, and a single target that is a word of the
    grammar then reads as a capability: this answer narrows to forwarding to a host called [shell],
    and the link it makes opens a shell. *)
Lemma accepted_grant_opens_shell :
  let offer := from_result no_spec (ParseString $"forward shell") in
  match askGrant $"/srv" 5 (mkTerms $"x" [] [] None) offer [$"forward ,shell"] with
  | (Answered g, _, _) =>
    (exists spec, ParseString $"forward ,shell" = Ok spec /\ Has spec ScopeShell = false /\ is_ok (Narrow $"/srv" offer spec) = true) /\
    match Effective $"/srv" (mkTerms $"x" [] g None) offer with Ok eff => Has eff ScopeShell = true | Err _ => False end
  | _ => False
  end.
Proof. vm_compute. split; [|done]. eexists. by split_and!. Qed.

(** The hours a number of days comes to are computed in 64 bits. *)
Lemma days_wrap : parseWhen utc $"768614336404564651d" noon = Ok (noon + 8 * Hour).
Proof. by vm_compute. Qed.

(** Away from the end of the range a countdown is rounded up. *)
Lemma ceilUnits_rounds_up d unit :
  0 < unit -> 0 < d -> d + unit <= MaxInt64 -> (ceilUnits d unit - 1) * unit < d <= ceilUnits d unit * unit.
Proof.
  intros Hu Hd Hm. unfold ceilUnits. rewrite (i64_small (d + unit)), i64_small by (unfold MinInt64; lia).
  rewrite Z.quot_div_nonneg by lia. pose proof (Z_div_mod_eq_full (d + unit - 1) unit).
  pose proof (Z.mod_pos_bound (d + unit - 1) unit Hu). nia.
Qed.

(** The time left saturates, and rounding it up wraps: a link that lapses in the year 9999 is listed
    as one that lapses in minus a hundred thousand days. *)
Lemma distant_expiry_listed_negative :
  let t := mkTerms $"x" $"K1" [] (Some (wall_of 9999 12 31 0 0 * Second)) in
  expiryNote t noon = $"expires in -106750d".
Proof. by vm_compute. Qed.
