(* ===== verification/Console.v ===== *)
(** The listener's console (cmd/bitbang/console.go) and the output it holds back (cmd/bitbang/hold.go).

    The console is a transition system: one reader of the terminal; goroutines that ask questions,
    take holds and open sessions; and the command loop, which is the only one that can be interrupted.
    A step is one critical section, one choice of a [select] or one call outside any lock, so that
    every interleaving of the code's is one of steps. What a command or a flow of questions does
    between its calls into the console is left free. *)

From S2P Require Import Prelude GoLib.

(** * The held writer *)

Definition maxHeldBytes : Z := 256 * 1024.

Record holdWriter := mkHold { written : list bytes; holding : bool; held : list bytes; heldBytes : Z; dropped : Z }.

#[export] Instance eta_holdWriter : Eta holdWriter := fun h =>
  mkHold (written h) (holding h) (held h) (heldBytes h) (dropped h).

(** The loop of [Write]: the oldest go while the bytes exceed the bound and more than one is held. *)
Fixpoint trim_held (held : list bytes) (n : Z) (dropped : Z) : list bytes * Z * Z :=
  match held with
  | p :: (_ :: _) as rest => if n >? maxHeldBytes then trim_held rest (n - zlen p) (dropped + 1) else (held, n, dropped)
  | _ => (held, n, dropped)
  end.

Definition Write (p : bytes) (h : holdWriter) : holdWriter :=
  if negb (holding h) then h <| written := written h ++ [p] |>
  else
    let '(l, n, d) := trim_held (held h ++ [p]) (heldBytes h + zlen p) (dropped h) in
    h <| held := l |> <| heldBytes := n |> <| dropped := d |>.

Definition HoldOutput (h : holdWriter) : holdWriter := h <| holding := true |>.

(** The line that says how many writes are missing. *)
Definition notice (dropped : Z) : bytes := $"-- " ++ Itoa dropped ++ $" earlier writes not shown --".

Definition Release (h : holdWriter) : holdWriter :=
  mkHold (written h ++ (if dropped h >? 0 then [notice (dropped h)] else []) ++ held h) false [] 0 0.

(** * The console *)

(** The channels of one prompt: the one its line comes in, of one place, and the one that tells the
    command loop to step aside. *)
Record prompt := mkPrompt { line_in : option bytes; line_closed : bool; yield_closed : bool }.

#[export] Instance eta_prompt : Eta prompt := fun p => mkPrompt (line_in p) (line_closed p) (yield_closed p).

Inductive answer := Got (line : bytes) | Closed | Preempted.

(** Where a goroutine is. [AtTurn] to [AtUnlock] are the stretches of [askImpl] and
    [readLineYielding], for a reader that yields or one that does not; [LoopWaits] is [waitIdle]. *)
Inductive place :=
| Runs
| AtTurn (yields : bool)
| AtEnter (yields : bool)
| AtRegister (yields : bool)
| Selects (yields : bool) (id : nat)
| AtLeave (yields : bool) (id : nat)
| Releases (yields : bool) (id : nat)
| AtCleanup (yields : bool) (id : nat) (a : answer)
| AtUnlock (yields : bool) (a : answer)
| LoopOpens (line : bytes)
| LoopEnters
| LoopWaits
| SessionLeaves
| SessionReleases
| Gone.

#[export] Instance answer_eq_dec : EqDecision answer.
Proof. solve_decision. Defined.
#[export] Instance place_eq_dec : EqDecision place.
Proof. solve_decision. Defined.

(** A goroutine: whether it is the command loop's, whether it still runs the line that opened the
    loop, the holds it has taken, and whether a deferred [leave] is due. *)
Record goroutine := mkGo { at_ : place; isLoop : bool; firstLine : bool; holds : nat; session : bool }.

#[export] Instance eta_goroutine : Eta goroutine := fun g => mkGo (at_ g) (isLoop g) (firstLine g) (holds g) (session g).

(** The reader: at the terminal, or with a line and what it saw of the console when it took it. *)
Inductive reader := Reads | Has (line : bytes) (waiter : option nat) | Ended.

Record console := mkConsole {
  askMu : option nat;
  open : bool;
  waiter : option nat;
  closed : bool;
  yield : option nat;
  pending : nat;
  looping : bool;
  output : holdWriter;
  prompts : list prompt;
  gos : list goroutine;
  tty : reader;
  typed : list bytes;
  received : list bytes
}.

#[export] Instance eta_console : Eta console := fun c =>
  mkConsole (askMu c) (open c) (waiter c) (closed c) (yield c) (pending c) (looping c) (output c) (prompts c) (gos c) (tty c)
    (typed c) (received c).

Definition newConsole : console :=
  mkConsole None false None false None 0 false (mkHold [] false [] 0 0) [] [] Reads [] [].

(** * Its critical sections *)

Definition enter (c : console) : console :=
  if open c then c else c <| open := true |> <| output := HoldOutput (output c) |>.

(** The section of [leave], and whether the output is to be released after it. *)
Definition leave (c : console) : console * bool :=
  if open c then (c <| open := false |>, true) else (c, false).

Definition close_yield (id : nat) (c : console) : console :=
  c <| prompts := alter (fun p => p <| yield_closed := true |>) id (prompts c) |>.

(** [Hold]: one more prompt that cannot wait, and a reader that can be resumed told to step aside. *)
Definition Hold (c : console) : console :=
  let c := c <| pending := S (pending c) |> in
  match yield c with
  | Some id => (close_yield id c) <| yield := None |>
  | None => c
  end.

Definition unhold (c : console) : console := c <| pending := pred (pending c) |>.

(** The section of [readLineYielding] before its [select]: refused, or a prompt of one's own. *)
Definition register (yields : bool) (c : console) : console * (answer + nat) :=
  if closed c then (c, inl Closed)
  else if yields && bool_decide (pending c <> 0%nat) then (c, inl Preempted)
  else
    let id := length (prompts c) in
    let c := c <| prompts := prompts c ++ [mkPrompt None false false] |> <| waiter := Some id |> in
    ((if yields then c <| yield := Some id |> else c), inr id).

(** Its deferred section: [c.yield == yield] also holds of two nil channels. *)
Definition unregister (yields : bool) (id : nat) (c : console) : console :=
  let c := c <| waiter := None |> in
  if bool_decide (yield c = if yields then Some id else None) then c <| yield := None |> else c.

(** The line the reader has, handed over: to the prompt it saw, which may have gone, or to the idle
    handler, which opens a command loop unless there is one. *)
Definition deliver (line : bytes) (w : option nat) (c : console) : console :=
  match w with
  | Some id =>
    c <| prompts := alter (fun p => match line_in p with None => p <| line_in := Some line |> | Some _ => p end) id (prompts c) |>
  | None =>
    if looping c then c
    else c <| looping := true |> <| gos := gos c ++ [mkGo (LoopOpens line) true true 0 false] |>
  end.

(** * Its goroutines *)

Inductive choice := Yielded | LineCame | Interrupted | TimedOut.

(** What happens: a goroutine starts; one takes its next step; one calls into the console from its own
    code, or returns; a [select] takes one of its ready cases; the operator types, or the terminal
    ends; the reader hands its line over; and the listener writes. *)
Inductive action :=
| Spawn
| Step (i : nat)
| StartAsk (i : nat)
| TakeHold (i : nat)
| DropHold (i : nat)
| OpenSession (i : nat)
| CloseSession (i : nat)
| Finish (i : nat) (err : bool)
| Choose (i : nat) (ch : choice)
| Type_ (line : bytes)
| Eof
| Deliver
| Print (p : bytes).

Definition goto (i : nat) (p : place) (c : console) : console :=
  c <| gos := alter (fun g => g <| at_ := p |>) i (gos c) |>.

(** What the command loop does with the answer to its prompt. *)
Definition loop_next (a : answer) : place :=
  match a with
  | Preempted => LoopWaits
  | Closed => SessionLeaves
  | Got line =>
    let word := TrimSpace line in
    if bool_decide (word = []) then LoopWaits
    else if bool_decide (word ∈ [$"exit"; $"quit"; $"q"]) then SessionLeaves
    else Runs
  end.

(** One step of a goroutine that is inside the console. *)
Definition go_step (i : nat) (g : goroutine) (c : console) : option console :=
  match at_ g with
  | Runs => None
  | AtTurn y => match askMu c with None => Some ((goto i (AtEnter y) c) <| askMu := Some i |>) | Some _ => None end
  | AtEnter y => Some (goto i (AtRegister y) (enter c))
  | AtRegister y =>
    match register y c with
    | (c, inl a) => Some (goto i (AtUnlock y a) c)
    | (c, inr id) => Some (goto i (Selects y id) c)
    end
  | Selects _ _ => None
  | AtLeave y id =>
    let '(c, release) := leave c in
    Some (goto i (if release : bool then Releases y id else AtCleanup y id Closed) c)
  | Releases y id => Some (goto i (AtCleanup y id Closed) (c <| output := Release (output c) |>))
  | AtCleanup y id a => Some (goto i (AtUnlock y a) (unregister y id c))
  | AtUnlock y a => Some ((goto i (if y then loop_next a else Runs) c) <| askMu := None |>)
  | LoopOpens line => Some (goto i (if bool_decide (TrimSpace line = []) then LoopEnters else Runs) (enter c))
  | LoopEnters =>
    Some ((enter c) <| gos := alter (fun g => g <| at_ := LoopWaits |> <| firstLine := false |> <| session := true |>) i (gos c) |>)
  | LoopWaits => if bool_decide (pending c = 0%nat) then Some (goto i (AtTurn true) c) else None
  | SessionLeaves =>
    let '(c, release) := leave c in
    Some (c <| gos := alter (fun g => g <| at_ := if release : bool then SessionReleases else if isLoop g then Gone else Runs |>
                                        <| session := false |>) i (gos c) |>
            <| looping := looping c && (release || negb (isLoop g)) |>)
  | SessionReleases =>
    Some (c <| output := Release (output c) |>
            <| gos := alter (fun g => g <| at_ := if isLoop g then Gone else Runs |>) i (gos c) |>
            <| looping := looping c && negb (isLoop g) |>)
  | Gone => None
  end.

(** The case a [select] takes, where it is ready; the line it takes leaves the channel. *)
Definition choose (i : nat) (y : bool) (id : nat) (ch : choice) (c : console) : option console :=
  match prompts c !! id with
  | None => None
  | Some p =>
    match ch with
    | Yielded => if y && yield_closed p then Some (goto i (AtCleanup y id Preempted) c) else None
    | LineCame =>
      match line_in p with
      | Some line => Some ((goto i (AtCleanup y id (Got line)) c) <| received := received c ++ [line] |>
                             <| prompts := alter (fun p => p <| line_in := None |>) id (prompts c) |>)
      | None => if line_closed p then Some (goto i (AtLeave y id) c) else None
      end
    | Interrupted => Some (goto i (AtLeave y id) c)
    | TimedOut => if y then None else Some (goto i (AtLeave y id) c)
    end
  end.

Definition exec (a : action) (c : console) : option console :=
  let own i f := match gos c !! i with
                 | Some g => if bool_decide (at_ g = Runs) then f g else None
                 | None => None
                 end in
  match a with
  | Spawn => Some (c <| gos := gos c ++ [mkGo Runs false false 0 false] |>)
  | Step i => match gos c !! i with Some g => go_step i g c | None => None end
  | StartAsk i => own i (fun _ => Some (goto i (AtTurn false) c))
  | TakeHold i =>
    own i (fun g => if isLoop g then None
                    else Some ((Hold c) <| gos := alter (fun g => g <| holds := S (holds g) |>) i (gos c) |>))
  | DropHold i =>
    own i (fun g => match holds g with
                    | O => None
                    | S n => Some ((unhold c) <| gos := alter (fun g => g <| holds := n |>) i (gos c) |>)
                    end)
  | OpenSession i =>
    own i (fun g => if isLoop g || session g then None
                    else Some ((enter c) <| gos := alter (fun g => g <| session := true |>) i (gos c) |>))
  | CloseSession i => own i (fun g => if isLoop g || negb (session g) then None else Some (goto i SessionLeaves c))
  | Finish i err =>
    own i (fun g =>
      if isLoop g then
        if firstLine g then
          Some (if err : bool then (goto i Gone c) <| looping := false |> else goto i LoopEnters c)
        else Some (goto i (if err then SessionLeaves else LoopWaits) c)
      else if session g || bool_decide (holds g <> 0%nat) then None
      else Some (goto i Gone c))
  | Choose i ch => match gos c !! i with
                   | Some g => match at_ g with Selects y id => choose i y id ch c | _ => None end
                   | None => None
                   end
  | Type_ line => match tty c with
                  | Reads => Some (c <| tty := Has line (waiter c) |> <| typed := typed c ++ [line] |>)
                  | _ => None
                  end
  | Eof => match tty c with
           | Reads =>
             let c := c <| closed := true |> <| tty := Ended |> in
             Some (match waiter c with
                   | Some id => c <| prompts := alter (fun p => p <| line_closed := true |>) id (prompts c) |>
                   | None => c
                   end)
           | _ => None
           end
  | Deliver => match tty c with
               | Has line w => Some ((deliver line w c) <| tty := Reads |>)
               | _ => None
               end
  | Print p => Some (c <| output := Write p (output c) |>)
  end.

Definition console_step (c c' : console) : Prop := exists a, exec a c = Some c'.

(** A schedule, run. *)
Definition run (as_ : list action) (c : console) : option console := foldl (fun oc a => oc ≫= exec a) (Some c) as_.
