(* ===== verification/ConsoleSpec.v ===== *)
(** What the console promises (the model is in Console.v): one goroutine reads the terminal at a time
    and every line typed goes to one reader at most, in order; the command loop gives the terminal up
    to a prompt that cannot wait; the output held back resumes, bounded, in order and with its gaps
    announced. And the interleavings that escape it. *)

From S2P Require Import Prelude GoLib Console.

(** * The held writer *)

(** The calls the listener's goroutines make. *)
Inductive hold_op := Writes (p : bytes) | Holds | Lets.

Definition hold_exec (h : holdWriter) (o : hold_op) : holdWriter :=
  match o with Writes p => Write p h | Holds => HoldOutput h | Lets => Release h end.

Definition total (ps : list bytes) : Z := zlen (concat ps).

(** How many of the oldest writes have to go for the rest to fit, or for one to be left. *)
Fixpoint excess (ps : list bytes) : nat :=
  match ps with
  | _ :: (_ :: _) as rest => if total ps >? maxHeldBytes then S (excess rest) else 0
  | _ => 0
  end.

(** The promise: what is written while the output flows is out at once; what is written from a hold on
    is kept in full, and shown when it ends but for the excess, which is counted. *)
Record shown := mkShown { out : list bytes; since : option (list bytes) }.

Definition shown_exec (s : shown) (o : hold_op) : shown :=
  match o, since s with
  | Writes p, None => mkShown (out s ++ [p]) None
  | Writes p, Some q => mkShown (out s) (Some (q ++ [p]))
  | Holds, q => mkShown (out s) (Some (default [] q))
  | Lets, None => s
  | Lets, Some q =>
    mkShown (out s ++ (if decide (excess q = 0%nat) then [] else [notice (Z.of_nat (excess q))]) ++ drop (excess q) q) None
  end.

Lemma total_cons p ps : total (p :: ps) = zlen p + total ps.
Proof. unfold total. cbn. by rewrite zlen_app. Qed.

Lemma total_snoc ps p : total (ps ++ [p]) = total ps + zlen p.
Proof. unfold total. rewrite concat_app, zlen_app. cbn. by rewrite app_nil_r. Qed.

Lemma trim_held_cons p q ps n d :
  trim_held (p :: q :: ps) n d =
  if n >? maxHeldBytes then trim_held (q :: ps) (n - zlen p) (d + 1) else (p :: q :: ps, n, d).
Proof. done. Qed.

Lemma excess_cons p q ps :
  excess (p :: q :: ps) = if total (p :: q :: ps) >? maxHeldBytes then S (excess (q :: ps)) else 0%nat.
Proof. done. Qed.

Lemma trim_held_excess ps : forall d,
  trim_held ps (total ps) d = (drop (excess ps) ps, total (drop (excess ps) ps), d + Z.of_nat (excess ps)).
Proof.
  induction ps as [|p [|q ps] IH]; intros d; [cbn; by rewrite Z.add_0_r..|].
  rewrite trim_held_cons, excess_cons. case_step; [|cbn [drop]; by rewrite Z.add_0_r].
  replace (total (p :: q :: ps) - zlen p) with (total (q :: ps)) by (rewrite (total_cons p); lia).
  rewrite IH. cbn [drop]. f_equal. lia.
Qed.

(** The excess of a longer list, found in two goes. *)
Lemma excess_snoc ps x : excess (ps ++ [x]) = (excess ps + excess (drop (excess ps) ps ++ [x]))%nat.
Proof.
  induction ps as [|p [|q ps] IH]; [done..|]. cbn [app] in *. rewrite !excess_cons.
  destruct (total (p :: q :: ps) >? maxHeldBytes) eqn:E; [|done].
  assert ((total (p :: q :: ps ++ [x]) >? maxHeldBytes) = true) as ->; [|cbn [drop]; rewrite IH; lia].
  bool_to_prop. change (p :: q :: ps ++ [x]) with ((p :: q :: ps) ++ [x]). rewrite total_snoc. pose proof (zlen_nonneg x). lia.
Qed.

Lemma excess_bound ps : (length (drop (excess ps) ps) <= 1)%nat \/ total (drop (excess ps) ps) <= maxHeldBytes.
Proof.
  induction ps as [|p [|q ps] IH]; [left; cbn; lia..|]. rewrite excess_cons. case_step; [exact IH|]. bool_to_prop. right. cbn [drop]. lia.
Qed.

(** The writer keeps what the promise would show. *)
Definition keeps (h : holdWriter) (s : shown) : Prop :=
  written h = out s /\
  match since s with
  | None => holding h = false /\ held h = [] /\ heldBytes h = 0 /\ dropped h = 0
  | Some q => holding h = true /\ held h = drop (excess q) q /\ heldBytes h = total (held h) /\ dropped h = Z.of_nat (excess q)
  end.

Lemma excess_le ps : (excess ps <= length ps)%nat.
Proof.
  induction ps as [|p ps IH]; [done|]. destruct ps as [|q ps]; [cbn; lia|]. rewrite excess_cons. cbn [length] in *.
  case_step; lia.
Qed.

Lemma hold_exec_keeps h s o : keeps h s -> keeps (hold_exec h o) (shown_exec s o).
Proof.
  destruct s as [os [q|]], h as [w b l n d]; intros [Hw H]; cbn in Hw, H; destruct H as (-> & -> & -> & ->); subst w;
    destruct o as [p| |]; unfold keeps; cbn -[excess total trim_held].
  - unfold Write. cbn -[excess total trim_held]. rewrite <- total_snoc, trim_held_excess. cbn -[excess total].
    split_and!; try done; rewrite (excess_snoc q p); [|lia].
    by rewrite <- (drop_app_le q [p] _ (excess_le q)), drop_drop.
  - done.
  - split; [|done]. do 2 f_equal. case_decide as E; [by rewrite E|]. by settle (Z.of_nat (excess q) >? 0) true.
  - done.
  - done.
  - by rewrite app_nil_r.
Qed.

(** Output that a prompt holds back comes out as promised: whatever the goroutines write, hold and
    release, in any order, what has reached the terminal is everything written while it flowed, and
    at each release what was written since the hold but for the oldest writes that did not fit, whose
    number is announced in their place; and what is held never exceeds the bound by more than the
    last write. *)
Theorem held_output_exact ops :
  let h := foldl hold_exec (mkHold [] false [] 0 0) ops in
  let s := foldl shown_exec (mkShown [] None) ops in
  written h = out s /\ (holding h = true <-> is_Some (since s)) /\
  ((length (held h) <= 1)%nat \/ total (held h) <= maxHeldBytes).
Proof.
  cbn zeta. assert (keeps (foldl hold_exec (mkHold [] false [] 0 0) ops) (foldl shown_exec (mkShown [] None) ops)) as [Hw H].
  { assert (keeps (mkHold [] false [] 0 0) (mkShown [] None)) as Hk by done. revert Hk. generalize (mkHold [] false [] 0 0) (mkShown [] None).
    induction ops as [|o ops IH]; intros h s Hk; [done|]. cbn [foldl]. by apply IH, hold_exec_keeps. }
  split; [done|]. destruct (since _) as [q|].
  - destruct H as (Hh & Hl & _). rewrite Hh, Hl. split; [by split; eauto|]. apply excess_bound.
  - destruct H as (Hh & -> & _). rewrite Hh. split; [split; [done|by intros []]|]. left. cbn. lia.
Qed.

(** * Whose turn it is *)

(** Inside [askImpl] with its lock held; and the prompt registered, with whether it yields. *)
Definition inside (p : place) : bool :=
  match p with
  | AtEnter _ | AtRegister _ | Selects _ _ | AtLeave _ _ | Releases _ _ | AtCleanup _ _ _ | AtUnlock _ _ => true
  | _ => false
  end.

Definition registered (p : place) : option (bool * nat) :=
  match p with Selects y id | AtLeave y id | Releases y id | AtCleanup y id _ => Some (y, id) | _ => None end.

(** The console's side of a prompt: the reader's destination, and for the command loop the channel a
    prompt that cannot wait closes, unless one has. *)
Definition prompt_ok (c : console) (r : option (bool * nat)) : Prop :=
  match r with
  | None => waiter c = None /\ yield c = None
  | Some (y, id) =>
    waiter c = Some id /\ exists p, prompts c !! id = Some p /\
      if (y : bool) then (yield c = Some id /\ pending c = 0%nat) \/ (yield c = None /\ yield_closed p = true)
      else yield c = None
  end.

Record turns (c : console) : Prop := {
  turns_inside : forall i g, gos c !! i = Some g -> inside (at_ g) = true -> askMu c = Some i;
  turns_owner : match askMu c with
                | None => prompt_ok c None
                | Some i => exists g, gos c !! i = Some g /\ inside (at_ g) = true /\ prompt_ok c (registered (at_ g))
                end
}.

Lemma registered_inside p r : registered p = Some r -> inside p = true.
Proof. by destruct p. Qed.

(** A goroutine outside the lock moves, and stays outside it. *)
Lemma turns_outside c c' i f :
  turns c -> gos c' = alter f i (gos c) -> askMu c' = askMu c ->
  (forall g, gos c !! i = Some g -> inside (at_ g) = false /\ inside (at_ (f g)) = false) ->
  (forall r, prompt_ok c r -> prompt_ok c' r) -> turns c'.
Proof.
  intros [H1 H2] Hg Ha Hf Hp. split.
  - intros j g Hj Hin. rewrite Ha. rewrite Hg in Hj. destruct (decide (i = j)) as [<-|].
    + rewrite list_lookup_alter_eq in Hj. destruct (gos c !! i) as [x|] eqn:E; [|done]. inv Hj.
      destruct (Hf x eq_refl). congruence.
    + rewrite list_lookup_alter_ne in Hj by done. by eapply H1.
  - rewrite Ha. destruct (askMu c) as [k|]; [|by apply Hp]. destruct H2 as (g & Hk & Hin & Hr). exists g.
    split; [|by split; [|apply Hp]]. rewrite Hg. rewrite list_lookup_alter_ne; [done|]. intros ->.
    destruct (Hf g Hk). congruence.
Qed.

(** The holder of the lock moves, and keeps it or gives it up. *)
Lemma turns_holder c c' i f g :
  turns c -> gos c !! i = Some g -> inside (at_ g) = true -> gos c' = alter f i (gos c) ->
  (askMu c' = Some i /\ inside (at_ (f g)) = true /\ prompt_ok c' (registered (at_ (f g)))
   \/ askMu c' = None /\ inside (at_ (f g)) = false /\ prompt_ok c' None) -> turns c'.
Proof.
  intros [H1 H2] Hi Hin Hg Hc. pose proof (H1 i g Hi Hin) as Ha.
  assert (gos c' !! i = Some (f g)) as Hi' by (by rewrite Hg, list_lookup_alter_eq, Hi).
  split.
  - intros j x Hj Hx. destruct (decide (i = j)) as [<-|].
    + rewrite Hi' in Hj. inv Hj. destruct Hc as [(-> & _)|(_ & ? & _)]; [done|congruence].
    + rewrite Hg, list_lookup_alter_ne in Hj by done. specialize (H1 j x Hj Hx). congruence.
  - destruct Hc as [(-> & Hx & Hp)|(-> & _ & Hp)]; [|done]. exists (f g). done.
Qed.

(** The free lock is taken. *)
Lemma turns_taken c c' i f g :
  turns c -> askMu c = None -> gos c !! i = Some g -> gos c' = alter f i (gos c) -> askMu c' = Some i ->
  inside (at_ (f g)) = true -> registered (at_ (f g)) = None -> prompt_ok c' None -> turns c'.
Proof.
  intros [H1 H2] Ha Hi Hg Ha' Hin Hr Hp. split.
  - intros j x Hj Hx. destruct (decide (i = j)) as [<-|]; [done|].
    rewrite Hg, list_lookup_alter_ne in Hj by done. specialize (H1 j x Hj Hx). congruence.
  - rewrite Ha'. exists (f g). rewrite Hr. split; [|done]. by rewrite Hg, list_lookup_alter_eq, Hi.
Qed.

(** The world moves, or a goroutine starts. *)
Lemma turns_aside c c' l :
  turns c -> gos c' = gos c ++ l -> askMu c' = askMu c -> (forall g, g ∈ l -> inside (at_ g) = false) ->
  (forall r, prompt_ok c r -> prompt_ok c' r) -> turns c'.
Proof.
  intros [H1 H2] Hg Ha Hl Hp. split.
  - intros j x Hj Hx. rewrite Ha. rewrite Hg, lookup_app in Hj. destruct (gos c !! j) as [y|] eqn:E.
    + inv Hj. by eapply H1.
    + apply list_elem_of_lookup_2, Hl in Hj. congruence.
  - rewrite Ha. destruct (askMu c) as [k|]; [|by apply Hp]. destruct H2 as (g & Hk & Hin & Hr). exists g.
    split; [|by split; [|apply Hp]]. rewrite Hg. by apply lookup_app_l_Some.
Qed.

Lemma prompt_ok_same c c' r :
  waiter c' = waiter c -> yield c' = yield c -> pending c' = pending c -> prompts c' = prompts c ->
  prompt_ok c r -> prompt_ok c' r.
Proof. intros Hw Hy Hp Hps. unfold prompt_ok. by rewrite Hw, Hy, Hp, Hps. Qed.

Lemma prompt_ok_enter c r : prompt_ok c r -> prompt_ok (enter c) r.
Proof. unfold enter. case_step; [done|]. by apply prompt_ok_same. Qed.

Lemma prompt_ok_leave c r : prompt_ok c r -> prompt_ok (leave c).1 r.
Proof. unfold leave. case_step; [by apply prompt_ok_same|done]. Qed.

(** A change of a prompt's channel that leaves the one to step aside alone. *)
Lemma prompt_ok_line c c' r f k :
  waiter c' = waiter c -> yield c' = yield c -> pending c' = pending c -> prompts c' = alter f k (prompts c) ->
  (forall p, yield_closed (f p) = yield_closed p) -> prompt_ok c r -> prompt_ok c' r.
Proof.
  intros Hw Hy Hp Hps Hf. destruct r as [[y id]|]; cbn [prompt_ok]; rewrite Hw, Hy; [|done].
  intros [Hwait (p & Hid & Hc)]. split; [done|]. rewrite Hps, Hp. destruct (decide (k = id)) as [->|].
  - exists (f p). rewrite list_lookup_alter_eq, Hid, Hf. done.
  - exists p. by rewrite list_lookup_alter_ne.
Qed.

Lemma prompt_ok_hold c r : prompt_ok c r -> prompt_ok (Hold c) r.
Proof.
  unfold Hold. destruct r as [[[] id]|]; cbn.
  - intros [Hw (p & Hid & [[Hy Hp]|[Hy Hp]])]; rewrite Hy; cbn.
    + split; [done|]. exists (p <| yield_closed := true |>). rewrite list_lookup_alter_eq, Hid. split; [done|]. by right.
    + split; [done|]. exists p. split; [done|]. by right.
  - intros [Hw (p & Hid & Hy)]. rewrite Hy. cbn. eauto.
  - intros [Hw Hy]. rewrite Hy. done.
Qed.

Lemma prompt_ok_unhold c r : prompt_ok c r -> prompt_ok (unhold c) r.
Proof.
  unfold unhold. destruct r as [[[] id]|]; cbn; [|done|done]. intros [Hw (p & Hid & [[Hy Hp]|Hc])]; (split; [done|]); exists p; (split; [done|]).
  - left. split; [done|]. by rewrite Hp.
  - by right.
Qed.

Lemma prompt_ok_register y c :
  prompt_ok c None ->
  match register y c with
  | (c', inl a) => c' = c
  | (c', inr id) => prompt_ok c' (Some (y, id)) /\ gos c' = gos c /\ askMu c' = askMu c
  end.
Proof.
  intros [Hw Hy]. unfold register. destruct (closed c); [done|].
  destruct (y && bool_decide (pending c <> 0%nat)) eqn:E; [done|]. destruct y; cbn in *.
  - bool_to_prop. split_and!; try done. exists (mkPrompt None false false). rewrite list_lookup_middle by done.
    split; [done|]. left. split; [done|]. by apply dec_stable.
  - split_and!; try done. exists (mkPrompt None false false). by rewrite list_lookup_middle.
Qed.

Lemma prompt_ok_unregister y id c : prompt_ok c (Some (y, id)) -> prompt_ok (unregister y id c) None.
Proof.
  intros [Hw (p & Hid & Hc)]. unfold unregister. cbn. case_bool_decide as Hd; cbn; [done|]. split; [done|].
  destruct y; [|done]. destruct Hc as [[Hy _]|[Hy _]]; [done|exact Hy].
Qed.

Lemma gos_enter c : gos (enter c) = gos c.
Proof. unfold enter. by case_step. Qed.
Lemma askMu_enter c : askMu (enter c) = askMu c.
Proof. unfold enter. by case_step. Qed.
Lemma gos_leave c : gos (leave c).1 = gos c.
Proof. unfold leave. by case_step. Qed.
Lemma askMu_leave c : askMu (leave c).1 = askMu c.
Proof. unfold leave. by case_step. Qed.
Lemma gos_Hold c : gos (Hold c) = gos c.
Proof. unfold Hold. cbn. by destruct (yield c). Qed.
Lemma askMu_Hold c : askMu (Hold c) = askMu c.
Proof. unfold Hold. cbn. by destruct (yield c). Qed.
Lemma gos_unregister y id c : gos (unregister y id c) = gos c.
Proof. unfold unregister. cbn. by case_bool_decide. Qed.
Lemma askMu_unregister y id c : askMu (unregister y id c) = askMu c.
Proof. unfold unregister. cbn. by case_bool_decide. Qed.

Lemma loop_next_outside a : inside (loop_next a) = false.
Proof. destruct a; cbn; [repeat case_bool_decide|..]; done. Qed.

Lemma holder_prompt c i g :
  turns c -> gos c !! i = Some g -> inside (at_ g) = true -> askMu c = Some i /\ prompt_ok c (registered (at_ g)).
Proof.
  intros [H1 H2] Hi Hin. pose proof (H1 i g Hi Hin) as Ha. split; [done|]. rewrite Ha in H2.
  destruct H2 as (x & Hx & _ & Hp). by replace g with x by congruence.
Qed.

Lemma prompt_ok_gos c r l : prompt_ok (c <| gos := l |>) r <-> prompt_ok c r.
Proof. by destruct r as [[]|]. Qed.

Lemma go_step_turns i g c c' : turns c -> gos c !! i = Some g -> go_step i g c = Some c' -> turns c'.
Proof.
  intros Ht Hi. unfold go_step.
  destruct (inside (at_ g)) eqn:Hin.
  - destruct (holder_prompt c i g Ht Hi Hin) as [Ha Hp].
    destruct (at_ g) as [|y|y|y|y id|y id|y id|y id a|y a|line| | | | |] eqn:Eg; try done; cbn [registered] in Hp; clear Hin.
    + intros [= <-]. eapply (turns_holder c _ i _ g Ht Hi); [by rewrite Eg|cbn; by rewrite gos_enter|left].
      split; [cbn; by rewrite askMu_enter|]. split; [done|]. by apply prompt_ok_gos, prompt_ok_enter.
    + pose proof (prompt_ok_register y c Hp) as Hreg. destruct (register y c) as [c1 [a|id]]; intros [= <-].
      * subst c1. eapply (turns_holder c _ i _ g Ht Hi); [by rewrite Eg|done|left; by split_and!].
      * destruct Hreg as (Hr & Hg & Ha'). eapply (turns_holder c _ i _ g Ht Hi); [by rewrite Eg|cbn; by rewrite Hg|left].
        split; [cbn; congruence|]. split; [done|]. by apply prompt_ok_gos.
    + pose proof (prompt_ok_leave c _ Hp) as Hl. pose proof (gos_leave c) as Hg. pose proof (askMu_leave c) as Ha'.
      destruct (leave c) as [c1 rel]. cbn in Hl, Hg, Ha'. intros [= <-].
      eapply (turns_holder c _ i _ g Ht Hi); [by rewrite Eg|cbn; by rewrite Hg|left].
      split; [cbn; congruence|]. destruct rel; (split; [done|]); by apply prompt_ok_gos.
    + intros [= <-]. eapply (turns_holder c _ i _ g Ht Hi); [by rewrite Eg|done|left; by split_and!].
    + intros [= <-]. eapply (turns_holder c _ i _ g Ht Hi); [by rewrite Eg|cbn; by rewrite gos_unregister|left].
      split; [cbn; by rewrite askMu_unregister|]. split; [done|]. by apply prompt_ok_gos, prompt_ok_unregister.
    + intros [= <-]. eapply (turns_holder c _ i _ g Ht Hi); [by rewrite Eg|done|right].
      split_and!; [done| |done]. cbn. destruct y; [apply loop_next_outside|done].
  - assert (forall f, inside (at_ (f g)) = false -> forall x, gos c !! i = Some x -> inside (at_ x) = false /\ inside (at_ (f x)) = false) as Hout.
    { intros f Hf x Hx. by replace x with g by congruence. }
    destruct (at_ g) as [|y|y|y|y id|y id|y id|y id a|y a|line| | | | |] eqn:Eg; try done; clear Hin.
    + destruct (askMu c) eqn:Ea; [done|]. intros [= <-]. destruct Ht as [H1 H2] eqn:E. clear E.
      rewrite Ea in H2. by eapply (turns_taken c).
    + intros [= <-]. eapply (turns_outside c _ i _ Ht); [cbn; by rewrite gos_enter|apply askMu_enter| |].
      * apply Hout. cbn. by case_bool_decide.
      * intros r Hr. by apply prompt_ok_gos, prompt_ok_enter.
    + intros [= <-]. eapply (turns_outside c _ i _ Ht); [done|apply askMu_enter|by apply Hout|].
      intros r Hr. by apply prompt_ok_gos, prompt_ok_enter.
    + case_bool_decide; [|done]. intros [= <-]. eapply (turns_outside c _ i _ Ht); [done|done|by apply Hout|].
      intros r Hr. by apply prompt_ok_gos.
    + pose proof (prompt_ok_leave c) as Hl. pose proof (gos_leave c) as Hg. pose proof (askMu_leave c) as Ha'.
      destruct (leave c) as [c1 rel]. cbn in Hl, Hg, Ha'. intros [= <-].
      eapply (turns_outside c _ i _ Ht); [cbn; by rewrite Hg|cbn; congruence| |].
      * apply Hout. cbn. destruct rel; [done|]. by destruct (isLoop g).
      * intros r Hr. eapply prompt_ok_same; [..|by apply Hl]; done.
    + intros [= <-]. eapply (turns_outside c _ i _ Ht); [done|done| |].
      * apply Hout. cbn. by destruct (isLoop g).
      * intros r Hr. by eapply prompt_ok_same.
Qed.

Lemma choose_turns i g y id ch c c' :
  turns c -> gos c !! i = Some g -> at_ g = Selects y id -> choose i y id ch c = Some c' -> turns c'.
Proof.
  intros Ht Hi Eg. destruct (holder_prompt c i g Ht Hi ltac:(by rewrite Eg)) as [Ha Hp]. rewrite Eg in Hp. cbn [registered] in Hp.
  unfold choose. destruct (prompts c !! id) as [p|] eqn:Ep; [|done].
  assert (forall pl, inside pl = true -> registered pl = Some (y, id) -> turns (goto i pl c)) as Hgo.
  { intros pl Hpi Hpr. eapply (turns_holder c _ i _ g Ht Hi); [by rewrite Eg|done|left]. split; [done|]. split; [done|].
    cbn -[prompt_ok]. rewrite Hpr. by apply prompt_ok_gos. }
  destruct ch.
  - case_step; [|done]. intros [= <-]. by apply Hgo.
  - destruct (line_in p) as [line|].
    + intros [= <-]. eapply (turns_holder c _ i _ g Ht Hi); [by rewrite Eg|done|left]. split; [done|]. split; [done|].
      eapply prompt_ok_line; [..|exact Hp]; done.
    + case_step; [|done]. intros [= <-]. by apply Hgo.
  - intros [= <-]. by apply Hgo.
  - case_step; [done|]. intros [= <-]. by apply Hgo.
Qed.

(** A goroutine of its own code moves. *)
Lemma own_turns c c' i g f :
  turns c -> gos c !! i = Some g -> at_ g = Runs -> gos c' = alter f i (gos c) -> askMu c' = askMu c ->
  inside (at_ (f g)) = false -> (forall r, prompt_ok c r -> prompt_ok c' r) -> turns c'.
Proof.
  intros Ht Hi Eg Hg Ha Hf Hp. eapply (turns_outside c _ i _ Ht); [done..| |done]. intros x Hx.
  replace x with g by congruence. by rewrite Eg.
Qed.

Lemma exec_turns a c c' : turns c -> exec a c = Some c' -> turns c'.
Proof.
  intros Ht. destruct a as [|i|i|i|i|i|i|i err|i ch|line| | |p]; cbn [exec].
  - intros [= <-]. eapply (turns_aside c _ [_] Ht); [done|done| |]; [by intros g ->%list_elem_of_singleton|].
    intros r Hr. by apply prompt_ok_gos.
  - destruct (gos c !! i) as [g|] eqn:Hi; [|done]. by apply go_step_turns.
  - destruct (gos c !! i) as [g|] eqn:Hi; [|done]. case_bool_decide as Eg; [|done]. intros [= <-].
    by eapply (own_turns c).
  - destruct (gos c !! i) as [g|] eqn:Hi; [|done]. case_bool_decide as Eg; [|done]. case_step; [done|]. intros [= <-].
    eapply (own_turns c); try done; [by apply askMu_Hold|cbn; by rewrite Eg|].
    intros r Hr. apply prompt_ok_gos. exact (prompt_ok_hold c r Hr).
  - destruct (gos c !! i) as [g|] eqn:Hi; [|done]. case_bool_decide as Eg; [|done]. destruct (holds g); [done|]. intros [= <-].
    eapply (own_turns c); try done; [cbn; by rewrite Eg|]. intros r Hr. exact (prompt_ok_unhold c r Hr).
  - destruct (gos c !! i) as [g|] eqn:Hi; [|done]. case_bool_decide as Eg; [|done]. case_step; [done|]. intros [= <-].
    eapply (own_turns c); try done; [by apply askMu_enter|cbn; by rewrite Eg|].
    intros r Hr. by apply prompt_ok_gos, prompt_ok_enter.
  - destruct (gos c !! i) as [g|] eqn:Hi; [|done]. case_bool_decide as Eg; [|done]. case_step; [done|]. intros [= <-].
    by eapply (own_turns c).
  - destruct (gos c !! i) as [g|] eqn:Hi; [|done]. case_bool_decide as Eg; [|done].
    destruct (isLoop g), (firstLine g), err; cbn; try case_step; try done; intros [= <-];
      by eapply (own_turns c).
  - destruct (gos c !! i) as [g|] eqn:Hi; [|done]. destruct (at_ g) eqn:Eg; try done. by eapply choose_turns.
  - destruct (tty c); try done. intros [= <-]. eapply (turns_aside c _ [] Ht); [by rewrite app_nil_r|done|by intros g ?%elem_of_nil|].
    intros r Hr. by eapply prompt_ok_same.
  - destruct (tty c); try done. intros [= <-].
    destruct (waiter c) as [id|] eqn:Ew.
    + eapply (turns_aside c _ [] Ht); [cbn; by rewrite app_nil_r|done|by intros g ?%elem_of_nil|].
      intros r Hr. eapply prompt_ok_line; [..|exact Hr]; done || (cbn; by rewrite Ew).
    + eapply (turns_aside c _ [] Ht); [cbn; by rewrite app_nil_r|done|by intros g ?%elem_of_nil|].
      intros r Hr. eapply prompt_ok_same; [..|exact Hr]; done || (cbn; by rewrite Ew).
  - destruct (tty c) as [|line w|]; try done. intros [= <-]. unfold deliver. destruct w as [id|].
    + eapply (turns_aside c _ [] Ht); [cbn; by rewrite app_nil_r|done|by intros g ?%elem_of_nil|].
      intros r Hr. eapply (prompt_ok_line c _ r _ id); [done|done|done|reflexivity| |exact Hr].
      intros p. cbn. by destruct (line_in p).
    + destruct (looping c).
      * eapply (turns_aside c _ [] Ht); [cbn; by rewrite app_nil_r|done|by intros g ?%elem_of_nil|].
        intros r Hr. by eapply prompt_ok_same.
      * eapply (turns_aside c _ [_] Ht); [done|done|by intros g ->%list_elem_of_singleton|].
        intros r Hr. by eapply prompt_ok_same.
  - intros [= <-]. eapply (turns_aside c _ [] Ht); [cbn; by rewrite app_nil_r|done|by intros g ?%elem_of_nil|].
    intros r Hr. by eapply prompt_ok_same.
Qed.

Lemma turns_new : turns newConsole.
Proof. split; [by intros i g|done]. Qed.

(** The states of a console. *)
Definition reachable (c : console) : Prop := steps console_step newConsole c.

Lemma reachable_invariant (I : console -> Prop) :
  I newConsole -> (forall a c c', turns c -> I c -> exec a c = Some c' -> I c') -> forall c, reachable c -> turns c /\ I c.
Proof.
  intros H0 HI c Hr. refine (steps_invariant console_step (fun c => turns c /\ I c) _ newConsole c Hr _); [|by split; [apply turns_new|]].
  intros c1 c2 [Ht Hi] [a Ha]. split; [by eapply exec_turns|by eapply HI].
Qed.

(** * Lines *)

(** The line waiting in the channel of the registered prompt. *)
Definition queued (c : console) : list bytes :=
  match (waiter c ≫= fun id => prompts c !! id ≫= line_in) with Some l => [l] | None => [] end.

(** The line in the reader's hand. *)
Definition in_hand (r : reader) : list bytes := match r with Has l _ => [l] | _ => [] end.

Definition lines_ok (c : console) : Prop :=
  exists seen, typed c = seen ++ in_hand (tty c) /\ received c ++ queued c `sublist_of` seen.

Lemma lines_same c c' :
  typed c' = typed c -> tty c' = tty c -> received c' = received c -> (queued c' = queued c \/ queued c' = []) ->
  lines_ok c -> lines_ok c'.
Proof.
  intros Ht Hy Hr Hq (seen & Hs & Hl). exists seen. rewrite Ht, Hy, Hr. split; [done|]. destruct Hq as [->| ->]; [done|].
  rewrite app_nil_r. etrans; [|exact Hl]. apply sublist_inserts_r. done.
Qed.

Lemma queued_alter c c' f k :
  waiter c' = waiter c -> prompts c' = alter f k (prompts c) -> (forall p, line_in (f p) = line_in p) -> queued c' = queued c.
Proof.
  intros Hw Hp Hf. unfold queued. rewrite Hw, Hp. destruct (waiter c) as [id|]; [|done]. cbn.
  destruct (decide (k = id)) as [->|]; [|by rewrite list_lookup_alter_ne].
  rewrite list_lookup_alter_eq. destruct (prompts c !! id) as [p|]; [|done]. cbn. by rewrite Hf.
Qed.

Lemma queued_register y c : let r := register y c in
  (queued r.1 = queued c \/ queued r.1 = []) /\ typed r.1 = typed c /\ tty r.1 = tty c /\ received r.1 = received c.
Proof.
  unfold register. destruct (closed c); [by split; [left|]|]. case_step; [by split; [left|]|].
  cbn. destruct y; cbn; (split; [right|done]); unfold queued; cbn; by rewrite list_lookup_middle.
Qed.

Lemma queued_unregister y id c : let c' := unregister y id c in
  queued c' = [] /\ typed c' = typed c /\ tty c' = tty c /\ received c' = received c.
Proof. unfold unregister. cbn. by case_bool_decide. Qed.

Ltac same_lines := eapply lines_same; [done|done|done|by left|eassumption].

Lemma enter_lines c l : lines_ok c -> lines_ok ((enter c) <| gos := l |>).
Proof. intros H. unfold enter. case_step; same_lines. Qed.

Lemma hold_lines c l : lines_ok c -> lines_ok ((Hold c) <| gos := l |>).
Proof.
  intros H. eapply lines_same; [..|exact H]; unfold Hold; cbn; destruct (yield c) as [id|]; cbn; try done; left; [|done].
  by eapply (queued_alter _ _ (fun p => p <| yield_closed := true |>) id).
Qed.

Lemma go_step_lines i g c c' : lines_ok c -> go_step i g c = Some c' -> lines_ok c'.
Proof.
  intros H. unfold go_step. destruct (at_ g) as [|y|y|y|y id|y id|y id|y id a|y a|line| | | | |]; try done.
  - destruct (askMu c); [done|]. intros [= <-]. same_lines.
  - intros [= <-]. by apply enter_lines.
  - pose proof (queued_register y c) as (Hq & Ht & Hy & Hr). destruct (register y c) as [c1 [a|id]]; intros [= <-];
      (eapply lines_same; [exact Ht|exact Hy|exact Hr|exact Hq|exact H]).
  - unfold leave. destruct (open c); intros [= <-]; same_lines.
  - intros [= <-]. same_lines.
  - intros [= <-]. pose proof (queued_unregister y id c) as (Hq & Ht & Hy & Hr).
    eapply lines_same; [exact Ht|exact Hy|exact Hr|right; exact Hq|exact H].
  - intros [= <-]. same_lines.
  - intros [= <-]. by apply enter_lines.
  - intros [= <-]. by apply enter_lines.
  - case_step; [|done]. intros [= <-]. same_lines.
  - unfold leave. destruct (open c); intros [= <-]; same_lines.
  - intros [= <-]. same_lines.
Qed.

Lemma choose_lines i g y id ch c c' :
  turns c -> gos c !! i = Some g -> at_ g = Selects y id -> lines_ok c -> choose i y id ch c = Some c' -> lines_ok c'.
Proof.
  intros Ht Hi Eg H. destruct (holder_prompt c i g Ht Hi ltac:(by rewrite Eg)) as [_ Hp]. rewrite Eg in Hp.
  destruct Hp as (Hw & p & Hid & _). unfold choose. rewrite Hid. destruct ch.
  - case_step; [|done]. intros [= <-]. same_lines.
  - destruct (line_in p) as [line|] eqn:El.
    + intros [= <-]. destruct H as (seen & Hs & Hl). exists seen. split; [done|]. unfold queued in *. cbn in *.
      rewrite Hw in *. cbn in *. rewrite Hid in Hl. cbn in Hl. rewrite El in Hl. rewrite list_lookup_alter_eq, Hid. cbn.
      by rewrite app_nil_r.
    + case_step; [|done]. intros [= <-]. same_lines.
  - intros [= <-]. same_lines.
  - case_step; [done|]. intros [= <-]. same_lines.
Qed.

Lemma deliver_lines line w c :
  lines_ok c -> tty c = Has line w -> lines_ok ((deliver line w c) <| tty := Reads |>).
Proof.
  intros (seen & Hs & Hl) Ht. exists (seen ++ [line]). rewrite Ht in Hs. cbn in Hs.
  assert (received c ++ queued c `sublist_of` seen ++ [line]) as Hl' by (by apply sublist_inserts_r).
  unfold deliver. destruct w as [id|]; [|destruct (looping c); cbn; by rewrite app_nil_r].
  cbn. rewrite app_nil_r. split; [done|]. unfold queued in *. cbn. destruct (waiter c) as [k|]; [|done]. cbn in *.
  destruct (decide (id = k)) as [->|]; [|by rewrite list_lookup_alter_ne].
  rewrite list_lookup_alter_eq. destruct (prompts c !! k) as [p|]; [|done]. cbn in *.
  destruct (line_in p) as [x|] eqn:Ex; cbn; [by rewrite Ex|]. rewrite app_nil_r in Hl. by apply sublist_app.
Qed.

Lemma exec_lines a c c' : turns c -> lines_ok c -> exec a c = Some c' -> lines_ok c'.
Proof.
  intros Ht H. destruct a as [|i|i|i|i|i|i|i err|i ch|line| | |p]; cbn [exec];
    try (destruct (gos c !! i) as [g|] eqn:Hi; [|done]).
  - intros [= <-]. same_lines.
  - by apply go_step_lines.
  - case_bool_decide; [|done]. intros [= <-]. same_lines.
  - case_bool_decide; [|done]. case_step; [done|]. intros [= <-]. by apply hold_lines.
  - case_bool_decide; [|done]. destruct (holds g); [done|]. intros [= <-]. same_lines.
  - case_bool_decide; [|done]. case_step; [done|]. intros [= <-]. by apply enter_lines.
  - case_bool_decide; [|done]. case_step; [done|]. intros [= <-]. same_lines.
  - case_bool_decide; [|done]. destruct (isLoop g), (firstLine g), err; cbn; try case_step; try done; intros [= <-]; same_lines.
  - destruct (at_ g) eqn:Eg; try done. by eapply choose_lines.
  - destruct (tty c) eqn:Ety; try done. intros [= <-]. destruct H as (seen & Hs & Hl). rewrite Ety in Hs. cbn in Hs.
    rewrite app_nil_r in Hs. exists seen. cbn. by rewrite Hs.
  - destruct (tty c) eqn:Ety; try done. intros [= <-]. destruct H as (seen & Hs & Hl). rewrite Ety in Hs.
    exists seen. destruct (waiter c) as [id|] eqn:Ew; cbn; (split; [done|]).
    + erewrite (queued_alter c _ (fun p => p <| line_closed := true |>) id); [exact Hl|cbn; by rewrite Ew|done|done].
    + unfold queued in *. cbn. by rewrite Ew in *.
  - destruct (tty c) as [|line w|] eqn:Ety; try done. intros [= <-]. by apply deliver_lines.
  - intros [= <-]. same_lines.
Qed.

(** * Loops and output *)

Definition loop_live (g : goroutine) : bool := isLoop g && negb (bool_decide (at_ g = Gone)).

Lemma count_alter_go f i (l : list goroutine) g :
  l !! i = Some g ->
  (count loop_live (alter f i l) + (if loop_live g then 1 else 0) = count loop_live l + (if loop_live (f g) then 1 else 0))%nat.
Proof.
  revert i. induction l as [|x l IH]; intros [|i] H; [done..| |].
  - inv H. cbn. destruct (loop_live g), (loop_live (f g)); lia.
  - cbn in *. rewrite <- !Nat.add_assoc, IH by done. lia.
Qed.

Definition one_loop (c : console) : Prop := count loop_live (gos c) = if looping c then 1%nat else 0%nat.

(** On its way to releasing the output it no longer holds the console open for. *)
Definition releasing (p : place) : bool :=
  match p with Releases _ _ | SessionReleases => true | _ => false end.

Definition output_ok (c : console) : Prop :=
  holding (output c) = true -> open c = true \/ exists i g, gos c !! i = Some g /\ releasing (at_ g) = true.

(** A goroutine that is not releasing moves: the others still are. *)
Lemma releasing_alter f i (l : list goroutine) :
  (forall g, l !! i = Some g -> releasing (at_ g) = true -> releasing (at_ (f g)) = true) ->
  (exists j g, l !! j = Some g /\ releasing (at_ g) = true) ->
  exists j g, alter f i l !! j = Some g /\ releasing (at_ g) = true.
Proof.
  intros Hf (j & g & Hj & Hr). destruct (decide (i = j)) as [->|].
  - exists j, (f g). rewrite list_lookup_alter_eq, Hj. split; [done|]. by apply Hf.
  - exists j, g. by rewrite list_lookup_alter_ne.
Qed.

Lemma output_moves c c' i f :
  gos c' = alter f i (gos c) -> (open c = true -> open c' = true) -> holding (output c') = holding (output c) ->
  (forall g, gos c !! i = Some g -> releasing (at_ g) = true -> releasing (at_ (f g)) = true) ->
  output_ok c -> output_ok c'.
Proof.
  intros Hg Ho Hh Hf H Hc. rewrite Hh in Hc. destruct (H Hc) as [|Hr]; [left; by apply Ho|right]. rewrite Hg. by apply releasing_alter.
Qed.

Lemma output_same c c' l :
  gos c' = gos c ++ l -> open c' = open c -> holding (output c') = holding (output c) -> output_ok c -> output_ok c'.
Proof.
  intros Hg Ho Hh H Hc. rewrite Hh in Hc. rewrite Ho. destruct (H Hc) as [|(i & g & Hi & Hr)]; [by left|right].
  exists i, g. split; [|done]. rewrite Hg. by apply lookup_app_l_Some.
Qed.

Lemma open_output c : open c = true -> output_ok c.
Proof. intros H _. by left. Qed.

Lemma released_output c h : output c = Release h -> output_ok c.
Proof. intros H. unfold output_ok. by rewrite H. Qed.

Lemma open_enter c : open (enter c) = true.
Proof. unfold enter. by destruct (open c) eqn:E. Qed.

Lemma go_step_output i g c c' : gos c !! i = Some g -> output_ok c -> go_step i g c = Some c' -> output_ok c'.
Proof.
  intros Hi H. unfold go_step.
  assert (forall f, releasing (at_ g) = false -> forall x, gos c !! i = Some x -> releasing (at_ x) = true -> releasing (at_ (f x)) = true) as Hno.
  { intros f Hr x Hx. replace x with g by congruence. congruence. }
  destruct (at_ g) as [|y|y|y|y id|y id|y id|y id a|y a|line| | | | |] eqn:Eg; try done.
  - destruct (askMu c); [done|]. intros [= <-]. eapply (output_moves c _ i); [done|done|done|by apply Hno|done].
  - intros [= <-]. apply open_output. apply open_enter.
  - assert (forall c1, gos c1 = gos c -> open c1 = open c -> output c1 = output c -> forall p, output_ok (goto i p c1)) as Hk.
    { intros c1 Hg Ho Hou p. eapply (output_moves c _ i); [cbn; by rewrite Hg|cbn; congruence|cbn; congruence|by apply Hno|done]. }
    unfold register. destruct (closed c); [intros [= <-]; by apply Hk|]. case_step; [intros [= <-]; by apply Hk|].
    intros [= <-]. by destruct y; apply Hk.
  - unfold leave. destruct (open c) eqn:Eo; intros [= <-].
    + intros _. right. exists i. eexists. cbn. by rewrite list_lookup_alter_eq, Hi.
    + eapply (output_moves c _ i); [done|done|done|by apply Hno|done].
  - intros [= <-]. by eapply released_output.
  - intros [= <-]. unfold unregister. cbn. case_bool_decide; (eapply (output_moves c _ i); [done|done|done|by apply Hno|done]).
  - intros [= <-]. eapply (output_moves c _ i); [done|done|done|by apply Hno|done].
  - intros [= <-]. apply open_output. apply open_enter.
  - intros [= <-]. apply open_output. apply open_enter.
  - case_step; [|done]. intros [= <-]. eapply (output_moves c _ i); [done|done|done|by apply Hno|done].
  - unfold leave. destruct (open c) eqn:Eo; intros [= <-].
    + intros _. right. exists i. eexists. cbn. by rewrite list_lookup_alter_eq, Hi.
    + eapply (output_moves c _ i); [done|cbn; congruence|done|by apply Hno|done].
  - intros [= <-]. by eapply released_output.
Qed.

Lemma holding_Write p h : holding (Write p h) = holding h.
Proof. unfold Write. case_step; [done|]. by destruct (trim_held _ _ _) as [[l n] d]. Qed.

Lemma exec_output a c c' : output_ok c -> exec a c = Some c' -> output_ok c'.
Proof.
  intros H. destruct a as [|i|i|i|i|i|i|i err|i ch|line| | |p]; cbn [exec];
    try (destruct (gos c !! i) as [g|] eqn:Hi; [|done]).
  - intros [= <-]. by eapply (output_same c _ [_]).
  - by apply go_step_output.
  - case_bool_decide as Eg; [|done]. intros [= <-]. eapply (output_moves c _ i); try done. intros x Hx.
    replace x with g by congruence. by rewrite Eg.
  - case_bool_decide as Eg; [|done]. case_step; [done|]. intros [= <-].
    eapply (output_moves c _ i); [done| | |done|done]; unfold Hold; cbn; by destruct (yield c).
  - case_bool_decide as Eg; [|done]. destruct (holds g); [done|]. intros [= <-]. by eapply (output_moves c _ i).
  - case_bool_decide as Eg; [|done]. case_step; [done|]. intros [= <-]. apply open_output, open_enter.
  - case_bool_decide as Eg; [|done]. case_step; [done|]. intros [= <-]. eapply (output_moves c _ i); try done. intros x Hx.
    replace x with g by congruence. by rewrite Eg.
  - case_bool_decide as Eg; [|done].
    assert (forall f x, gos c !! i = Some x -> releasing (at_ x) = true -> releasing (at_ (f x)) = true) as Hno.
    { intros f x Hx. replace x with g by congruence. by rewrite Eg. }
    destruct (isLoop g), (firstLine g), err; cbn; try case_step; try done; intros [= <-];
      (eapply (output_moves c _ i); [done|done|done|by apply Hno|done]).
  - destruct (at_ g) as [| | | |y id| | | | | | | | | |] eqn:Eg; try done. unfold choose. destruct (prompts c !! id) as [p|]; [|done].
    assert (forall f x, gos c !! i = Some x -> releasing (at_ x) = true -> releasing (at_ (f x)) = true) as Hno.
    { intros f x Hx. replace x with g by congruence. by rewrite Eg. }
    destruct ch; repeat case_match; try done; intros [= <-]; (eapply (output_moves c _ i); [done|done|done|by apply Hno|done]).
  - destruct (tty c); try done. intros [= <-]. eapply (output_same c _ []); [by rewrite app_nil_r|done..].
  - destruct (tty c); try done. intros [= <-]. destruct (waiter c); (eapply (output_same c _ []); [by rewrite app_nil_r|done..]).
  - destruct (tty c) as [|line w|]; try done. intros [= <-]. unfold deliver. destruct w as [id|]; [|destruct (looping c)].
    + eapply (output_same c _ []); [by rewrite app_nil_r|done..].
    + eapply (output_same c _ []); [by rewrite app_nil_r|done..].
    + by eapply (output_same c _ [_]).
  - intros [= <-]. eapply (output_same c _ []); [by rewrite app_nil_r|done|apply holding_Write|done].
Qed.

(** A goroutine changes without the loop ending. *)
Lemma one_loop_moves c c' i f g :
  gos c !! i = Some g -> gos c' = alter f i (gos c) -> looping c' = looping c -> loop_live (f g) = loop_live g ->
  one_loop c -> one_loop c'.
Proof.
  intros Hi Hg Hl Hf H. unfold one_loop in *. pose proof (count_alter_go f i (gos c) g Hi) as Hc. rewrite Hg, Hl, <- H, Hf in *. lia.
Qed.

Lemma one_loop_ends c c' i f g :
  gos c !! i = Some g -> gos c' = alter f i (gos c) -> loop_live g = true -> loop_live (f g) = false -> looping c' = false ->
  one_loop c -> one_loop c'.
Proof.
  intros Hi Hg Hlg Hf Hl H. unfold one_loop in *. pose proof (count_alter_go f i (gos c) g Hi) as Hc. rewrite Hg, Hl, Hlg, Hf in *.
  destruct (looping c); lia.
Qed.

Lemma loop_live_goto g p : at_ g <> Gone -> p <> Gone -> loop_live (g <| at_ := p |>) = loop_live g.
Proof. intros H1 H2. unfold loop_live. cbn. by rewrite !bool_decide_false. Qed.

Lemma loop_live_gone g : at_ g = Gone -> loop_live g = false.
Proof. intros H. unfold loop_live. rewrite bool_decide_true by done. apply andb_false_r. Qed.

Lemma loop_next_not_gone a : loop_next a <> Gone.
Proof. destruct a; cbn; repeat case_bool_decide; done. Qed.

Lemma go_step_one_loop i g c c' : gos c !! i = Some g -> one_loop c -> go_step i g c = Some c' -> one_loop c'.
Proof.
  intros Hi H. unfold go_step.
  assert (forall c1 p, gos c1 = gos c -> looping c1 = looping c -> at_ g <> Gone -> p <> Gone -> one_loop (goto i p c1)) as Hgo.
  { intros c1 p Hg Hl H1 H2. eapply (one_loop_moves c _ i); [exact Hi|cbn; by rewrite Hg|exact Hl|by apply loop_live_goto|done]. }
  destruct (at_ g) as [|y|y|y|y id|y id|y id|y id a|y a|line| | | | |] eqn:Eg; try done.
  - destruct (askMu c); [done|]. intros [= <-]. eapply (one_loop_moves c _ i); [exact Hi|done|done|apply loop_live_goto; congruence|done].
  - intros [= <-]. apply Hgo; [apply gos_enter|by unfold enter; case_step|done..].
  - unfold register. destruct (closed c); [intros [= <-]; by apply Hgo|]. case_step; [intros [= <-]; by apply Hgo|].
    intros [= <-]. by destruct y; apply Hgo.
  - unfold leave. destruct (open c); intros [= <-]; by apply Hgo.
  - intros [= <-]. by apply Hgo.
  - intros [= <-]. unfold unregister. cbn. case_bool_decide; by apply Hgo.
  - intros [= <-]. eapply (one_loop_moves c _ i); [exact Hi|done|done| |done]. apply loop_live_goto; [congruence|].
    destruct y; [apply loop_next_not_gone|done].
  - intros [= <-]. apply Hgo; [apply gos_enter|by unfold enter; case_step|done|]. by case_bool_decide.
  - intros [= <-]. eapply (one_loop_moves c _ i); [exact Hi|done|by unfold enter; cbn; case_step| |done].
    unfold loop_live. cbn. by rewrite Eg.
  - case_step; [|done]. intros [= <-]. by apply Hgo.
  - destruct (leave c) as [c1 rel] eqn:El. assert (gos c1 = gos c /\ looping c1 = looping c) as [Hg Hl].
    { unfold leave in El. by case_step_in El; inv El. }
    intros [= <-]. destruct rel, (isLoop g) eqn:Ego; cbn.
    + eapply (one_loop_moves c _ i); [exact Hi|cbn; by rewrite Hg|cbn; by rewrite Hl, andb_true_r| |done]. unfold loop_live. cbn. by rewrite Eg.
    + eapply (one_loop_moves c _ i); [exact Hi|cbn; by rewrite Hg|cbn; by rewrite Hl, andb_true_r| |done]. unfold loop_live. cbn. by rewrite Eg.
    + eapply (one_loop_ends c _ i); [exact Hi|cbn; by rewrite Hg|unfold loop_live; by rewrite Ego, Eg|apply loop_live_gone; cbn; by rewrite Ego|cbn; by rewrite ?andb_false_r|done].
    + eapply (one_loop_moves c _ i); [exact Hi|cbn; by rewrite Hg|cbn; by rewrite Hl, andb_true_r| |done]. unfold loop_live. cbn. by rewrite Eg, Ego.
  - intros [= <-]. destruct (isLoop g) eqn:Ego; cbn.
    + eapply (one_loop_ends c _ i); [exact Hi|done|unfold loop_live; by rewrite Ego, Eg|apply loop_live_gone; cbn; by rewrite Ego|cbn; by rewrite ?andb_false_r|done].
    + eapply (one_loop_moves c _ i); [exact Hi|done|cbn; by rewrite ?andb_true_r| |done]. unfold loop_live. cbn. by rewrite Eg, Ego.
Qed.

Lemma exec_one_loop a c c' : one_loop c -> exec a c = Some c' -> one_loop c'.
Proof.
  intros H. destruct a as [|i|i|i|i|i|i|i err|i ch|line| | |p]; cbn [exec];
    try (destruct (gos c !! i) as [g|] eqn:Hi; [|done]).
  - intros [= <-]. unfold one_loop in *. cbn. rewrite count_app, H. cbn. lia.
  - by apply go_step_one_loop.
  - case_bool_decide as Eg; [|done]. intros [= <-]. eapply (one_loop_moves c _ i); [done..| |done]. unfold loop_live. cbn. by rewrite Eg.
  - case_bool_decide as Eg; [|done]. case_step; [done|]. intros [= <-].
    eapply (one_loop_moves c _ i); [done|done| |done|done]; unfold Hold; cbn; by destruct (yield c).
  - case_bool_decide as Eg; [|done]. destruct (holds g); [done|]. intros [= <-]. by eapply (one_loop_moves c _ i).
  - case_bool_decide as Eg; [|done]. case_step; [done|]. intros [= <-].
    eapply (one_loop_moves c _ i); [done|done|by unfold enter; cbn; case_step|done|done].
  - case_bool_decide as Eg; [|done]. case_step; [done|]. intros [= <-].
    eapply (one_loop_moves c _ i); [done..| |done]. unfold loop_live. cbn. by rewrite Eg.
  - case_bool_decide as Eg; [|done].
    destruct (isLoop g) eqn:Ego; cbn; [|case_step; [done|]; intros [= <-];
      eapply (one_loop_moves c _ i); [done..| |done]; unfold loop_live; cbn; by rewrite Ego].
    destruct (firstLine g), err; cbn; intros [= <-];
      try (eapply (one_loop_moves c _ i); [done|done|done| |done]; unfold loop_live; cbn; by rewrite Eg).
    eapply (one_loop_ends c _ i); [done|done|unfold loop_live; by rewrite Ego, Eg|by apply loop_live_gone|done|done].
  - destruct (at_ g) as [| | | |y id| | | | | | | | | |] eqn:Eg; try done. unfold choose. destruct (prompts c !! id) as [p|]; [|done].
    destruct ch; repeat case_match; try done; intros [= <-];
      (eapply (one_loop_moves c _ i); [done|done|done|by apply loop_live_goto; [rewrite Eg|]|done]).
  - destruct (tty c); try done. by intros [= <-].
  - destruct (tty c); try done. intros [= <-]. by destruct (waiter c).
  - destruct (tty c) as [|line w|]; try done. intros [= <-]. unfold deliver. destruct w as [id|]; [done|].
    destruct (looping c) eqn:El; [done|]. unfold one_loop in *. cbn. rewrite count_app, H, El. cbn. done.
  - by intros [= <-].
Qed.

Lemma count_one_unique {A} (p : A -> bool) (l : list A) : (count p l <= 1)%nat ->
  forall i j x y, l !! i = Some x -> l !! j = Some y -> p x = true -> p y = true -> i = j.
Proof.
  induction l as [|z l IH]; intros Hc [|i] [|j] x y Hi Hj Hx Hy; try done.
  - inv Hi. cbn in Hj, Hc. rewrite Hx in Hc. assert (0 < count p l)%nat as Hp; [|lia]. clear IH Hc. revert j Hj.
    induction l as [|w l IH]; intros [|j] Hj; [done..| |]; cbn in *; [inv Hj; rewrite Hy; lia|]. specialize (IH j Hj). lia.
  - inv Hj. cbn in Hi, Hc. rewrite Hy in Hc. assert (0 < count p l)%nat as Hp; [|lia]. clear IH Hc. revert i Hi.
    induction l as [|w l IH]; intros [|i] Hi; [done..| |]; cbn in *; [inv Hi; rewrite Hx; lia|]. specialize (IH i Hi). lia.
  - f_equal. eapply IH; [cbn in Hc; lia|exact Hi|exact Hj|done|done].
Qed.

(** One reader at a time: however questions, sessions, holds, commands and lines interleave, at most
    one goroutine is inside a prompt, the reader's destination is the prompt that goroutine has
    registered, the lines handed to prompts and to the command loop are lines that were typed, each
    once and in order, there is at most one command loop, and output is held only while the console
    is open or a goroutine is about to release it. *)
Theorem terminal_has_one_reader c :
  reachable c ->
  (forall i j g h, gos c !! i = Some g -> gos c !! j = Some h -> inside (at_ g) = true -> inside (at_ h) = true -> i = j) /\
  (forall id, waiter c = Some id <-> exists i g y, gos c !! i = Some g /\ registered (at_ g) = Some (y, id)) /\
  received c `sublist_of` typed c /\
  (forall i j g h, gos c !! i = Some g -> gos c !! j = Some h -> loop_live g = true -> loop_live h = true -> i = j) /\
  (open c = false -> (forall i g, gos c !! i = Some g -> releasing (at_ g) = false) -> holding (output c) = false).
Proof.
  intros Hr.
  destruct (reachable_invariant (fun c => lines_ok c /\ one_loop c /\ output_ok c)) with (c := c) as (Ht & Hl & Ho & Hu); [..|done|].
  { split_and!; [|done|done]. by exists []. }
  { intros a c1 c2 Ht (Hl & Ho & Hu) Ha. split_and!; [by eapply exec_lines|by eapply exec_one_loop|by eapply exec_output]. }
  split_and!.
  - intros i j g h Hi Hj Hg Hh. pose proof (turns_inside c Ht i g Hi Hg). pose proof (turns_inside c Ht j h Hj Hh). congruence.
  - intros id. split.
    + intros Hw. pose proof (turns_owner c Ht) as Hown. destruct (askMu c) as [i|]; [|by destruct Hown; congruence].
      destruct Hown as (g & Hi & _ & Hp). destruct (registered (at_ g)) as [[y k]|] eqn:E; [|destruct Hp; congruence].
      destruct Hp as [Hk _]. exists i, g, y. split; [done|]. congruence.
    + intros (i & g & y & Hi & Hg). destruct (holder_prompt c i g Ht Hi (registered_inside _ _ Hg)) as [_ Hp].
      rewrite Hg in Hp. by destruct Hp.
  - destruct Hl as (seen & Hs & Hl). rewrite Hs. apply sublist_inserts_r. etrans; [|exact Hl]. by apply sublist_inserts_r.
  - apply count_one_unique. rewrite Ho. destruct (looping c); lia.
  - intros Hc Hn. destruct (holding (output c)) eqn:E; [|done]. destruct (Hu E) as [|(i & g & Hi & Hg)]; [congruence|].
    specialize (Hn i g Hi). congruence.
Qed.

(** * Stepping aside *)

(** In the command loop's own read. *)
Definition loop_reads (p : place) : bool :=
  match p with
  | AtEnter y | AtRegister y | Selects y _ | AtLeave y _ | Releases y _ | AtCleanup y _ _ | AtUnlock y _ => y
  | _ => false
  end.

Definition own_move (i : nat) (a : action) : Prop := a = Step i \/ a = Choose i Yielded.

(** Goroutine [i] gives the lock up in so many moves of its own, taking no line. *)
Definition frees (i n : nat) (c : console) : Prop :=
  exists as_ c', Forall (own_move i) as_ /\ (length as_ <= n)%nat /\ run as_ c = Some c' /\ askMu c' = None /\ received c' = received c.

Lemma frees_step i n a c c1 :
  own_move i a -> exec a c = Some c1 -> received c1 = received c -> frees i n c1 -> frees i (S n) c.
Proof.
  intros Ha He Hr (as_ & c' & Hf & Hn & Hrun & Hm & Hr'). exists (a :: as_), c'. split_and!; [by constructor|cbn; lia| |done|congruence].
  unfold run. cbn [foldl]. change (Some c ≫= exec a) with (exec a c). by rewrite He.
Qed.

Lemma frees_le i n m c : frees i n c -> (n <= m)%nat -> frees i m c.
Proof. intros (as_ & c' & Hf & Hn & H) Hle. exists as_, c'. split_and!; try done; [lia|by destruct H as (? & ? & ?)..]. Qed.

Section Moves.
Context (i : nat) (c : console) (g : goroutine) (Hi : gos c !! i = Some g).
#[local] Set Default Proof Using "Hi".

Lemma frees_unlock y a : at_ g = AtUnlock y a -> frees i 1 c.
Proof.
  intros Eg. eapply (frees_step i 0 (Step i)); [by left|cbn; rewrite Hi; unfold go_step; rewrite Eg; done|done|].
  exists []. eexists. by split_and!; [|cbn; lia|..].
Qed.
End Moves.

Lemma goto_lookup i p c g : gos c !! i = Some g -> gos (goto i p c) !! i = Some (g <| at_ := p |>).
Proof. intros H. cbn. by rewrite list_lookup_alter_eq, H. Qed.

Lemma frees_cleanup i c g y id a : gos c !! i = Some g -> at_ g = AtCleanup y id a -> frees i 2 c.
Proof.
  intros Hi Eg. eapply (frees_step i 1 (Step i)).
  - by left.
  - cbn. rewrite Hi. unfold go_step. by rewrite Eg.
  - unfold unregister. cbn. by case_bool_decide.
  - eapply frees_unlock; [apply goto_lookup; by rewrite gos_unregister|done].
Qed.

Lemma frees_register i c g : gos c !! i = Some g -> at_ g = AtRegister true -> pending c <> 0%nat -> frees i 2 c.
Proof.
  intros Hi Eg Hp. assert (exists a, register true c = (c, inl a)) as [a Ha].
  { unfold register. destruct (closed c); [by eexists|]. rewrite bool_decide_true by done. by eexists. }
  eapply (frees_step i 1 (Step i)); [by left|cbn; rewrite Hi; unfold go_step; by rewrite Eg, Ha|done|].
  eapply frees_unlock; [by apply goto_lookup|done].
Qed.

(** A prompt that cannot wait does not queue behind the command loop: in every reachable state with
    such a prompt outstanding, a command loop that holds the terminal for its own prompt gives it up
    within five moves of its own, which need no line, no deadline and no signal, and takes no line on
    its way out. *)
Theorem loop_steps_aside c i g :
  reachable c -> pending c <> 0%nat -> gos c !! i = Some g -> loop_reads (at_ g) = true -> frees i 5 c.
Proof.
  intros Hr Hp Hi Hl. destruct (reachable_invariant (fun _ => True)) with (c := c) as [Ht _]; [done..|].
  unfold loop_reads in Hl. destruct (at_ g) as [|y|y|y|y id|y id|y id|y id a|y a|line| | | | |] eqn:Eg; try done; subst y.
  - apply (frees_le i 3); [|lia]. eapply (frees_step i 2 (Step i)); [by left|cbn; rewrite Hi; unfold go_step; by rewrite Eg| |].
    + unfold enter. cbn. by case_step.
    + eapply frees_register; [apply goto_lookup; by rewrite gos_enter|done|]. unfold enter. cbn. by case_step.
  - apply (frees_le i 2); [by eapply frees_register|lia].
  - destruct (holder_prompt c i g Ht Hi ltac:(by rewrite Eg)) as [_ Hpr]. rewrite Eg in Hpr.
    destruct Hpr as (_ & p & Hid & [[_ ?]|[_ Hy]]); [done|].
    apply (frees_le i 3); [|lia]. eapply (frees_step i 2 (Choose i Yielded)); [by right| | |].
    + cbn. rewrite Hi, Eg. unfold choose. by rewrite Hid, Hy.
    + done.
    + eapply frees_cleanup; [by apply goto_lookup|done].
  - pose proof (gos_leave c) as Hg. assert (received (leave c).1 = received c) as Hrc by (unfold leave; by case_step).
    destruct (leave c) as [c1 rel] eqn:El. cbn in Hg, Hrc.
    apply (frees_le i 4); [|lia]. eapply (frees_step i 3 (Step i)); [by left|cbn; rewrite Hi; unfold go_step; by rewrite Eg, El|done|].
    destruct rel.
    + eapply (frees_step i 2 (Step i)); [by left| | |].
      * cbn. rewrite list_lookup_alter_eq, Hg, Hi. cbn. done.
      * done.
      * eapply frees_cleanup; [apply goto_lookup, goto_lookup; by rewrite Hg|done].
    + apply (frees_le i 2); [|lia]. eapply frees_cleanup; [apply goto_lookup; by rewrite Hg|done].
  - apply (frees_le i 3); [|lia]. eapply (frees_step i 2 (Step i)); [by left|cbn; rewrite Hi; unfold go_step; by rewrite Eg|done|].
    eapply frees_cleanup; [by apply goto_lookup|done].
  - apply (frees_le i 2); [by eapply frees_cleanup|lia].
  - apply (frees_le i 1); [by eapply frees_unlock|lia].
Qed.

(** * Schedules *)

Lemma run_steps as_ : forall c c', run as_ c = Some c' -> steps console_step c c'.
Proof.
  induction as_ as [|a as_ IH]; intros c c'; unfold run; cbn [foldl]; [intros [= <-]; constructor|].
  change (Some c ≫= exec a) with (exec a c). destruct (exec a c) as [c1|] eqn:E.
  - intros H. eapply steps_cons; [by exists a|by apply IH].
  - assert (foldl (fun oc a => oc ≫= exec a) None as_ = None) as -> by (clear; induction as_; done). done.
Qed.

Definition after_run (as_ : list action) : console := default newConsole (run as_ newConsole).

Lemma after_run_reachable as_ : is_Some (run as_ newConsole) -> reachable (after_run as_).
Proof. unfold after_run. intros [c H]. rewrite H. by eapply run_steps. Qed.

(** The operator opens the console and is left at its prompt, types half a command, and a pairing comes:
    its question interrupts the loop and gets the next line. *)
Definition at_prompt : list action :=
  [Type_ []; Deliver; Step 0; Step 0; Step 0; Step 0; Step 0; Step 0].
Definition pairing_arrives : list action := at_prompt ++ [Spawn; TakeHold 1; StartAsk 1].
Definition pairing_asks : list action :=
  pairing_arrives ++ [Choose 0 Yielded; Step 0; Step 0; Step 1; Step 1; Step 1; Type_ $"472663"; Deliver; Choose 1 LineCame;
                      Step 1; Step 1; DropHold 1; Step 0].

Lemma terminal_has_one_reader_witness :
  received (after_run pairing_asks) = [$"472663"] /\
  ((forall i j g h, gos (after_run pairing_asks) !! i = Some g -> gos (after_run pairing_asks) !! j = Some h ->
      inside (at_ g) = true -> inside (at_ h) = true -> i = j) /\
   (forall id, waiter (after_run pairing_asks) = Some id <->
      exists i g y, gos (after_run pairing_asks) !! i = Some g /\ registered (at_ g) = Some (y, id)) /\
   received (after_run pairing_asks) `sublist_of` typed (after_run pairing_asks) /\
   (forall i j g h, gos (after_run pairing_asks) !! i = Some g -> gos (after_run pairing_asks) !! j = Some h ->
      loop_live g = true -> loop_live h = true -> i = j) /\
   (open (after_run pairing_asks) = false ->
      (forall i g, gos (after_run pairing_asks) !! i = Some g -> releasing (at_ g) = false) -> holding (output (after_run pairing_asks)) = false)).
Proof.
  split; [by vm_compute|]. apply (terminal_has_one_reader (after_run pairing_asks)). apply after_run_reachable. vm_compute. by eexists.
Defined.

Lemma loop_steps_aside_witness :
  (pending (after_run pairing_arrives) = 1%nat /\ askMu (after_run pairing_arrives) = Some 0%nat) /\
  frees 0 5 (after_run pairing_arrives).
Proof.
  split; [by vm_compute|].
  apply (loop_steps_aside (after_run pairing_arrives) 0 (mkGo (Selects true 0) true false 0 true)).
  - apply after_run_reachable. vm_compute. by eexists.
  - by vm_compute.
  - vm_compute. reflexivity.
  - reflexivity.
Defined.

(** * What escapes the console *)

(** The question is on the screen before the prompt is registered: a line typed in between goes to the
    idle handler, which opens a command loop with it, and runs it, whatever questions are pending. *)
Lemma answer_runs_as_command :
  let c := after_run [Spawn; TakeHold 0; StartAsk 0; Step 0; Step 0; Type_ $"472663"; Deliver; Step 1] in
  pending c = 1%nat /\ gos c = [mkGo (AtRegister false) false false 1 false; mkGo Runs true true 0 false] /\ received c = [].
Proof. by vm_compute. Qed.

(** [leave] closes the console in one section and releases the output after it: a session opened in
    between is open with the output flowing. *)
Lemma open_console_output_flows :
  let c := after_run [Spawn; Spawn; OpenSession 0; CloseSession 0; Step 0; OpenSession 1; Step 0] in
  open c = true /\ holding (output c) = false.
Proof. by vm_compute. Qed.

(** The line that opens the console is run before the loop, and an error of it ends the goroutine
    without leaving: where the terminal has ended in between, the console stays open with nobody in
    it, and the output is held for good. *)
Lemma first_command_keeps_output :
  let c := after_run [Type_ $"add"; Deliver; Step 0; Eof; StartAsk 0; Step 0; Step 0; Step 0; Step 0; Finish 0 true] in
  open c = true /\ holding (output c) = true /\ gos c = [mkGo Gone true true 0 false].
Proof. by vm_compute. Qed.
