(* ===== verification/Signaling.v ===== *)
(** The listener's signaling client (internal/signaling/client.go), the URLs it composes and their
    fragments (fragment.go), the table of released versions (versions.go) and the notice made of it
    (cmd/bitbang/update.go).

    The client is a transition system: the loop of [Connect], the calls of [Stop] and of
    [RenewPairingCode], each made of critical sections, and the server at the other end of each
    connection. A connection that is closed yields the messages it has already received and then an
    error. *)

From S2P Require Import Prelude GoLib Json.

(** * Messages *)

(** [map[string]interface{}]: of a repeated member the last one counts. *)
Abbreviation message := (list (bytes * json)) (only parsing).

Definition member (name : bytes) (m : message) : option json :=
  snd <$> last (filter (fun x => x.1 = name) m).

(** [msg[name].(string)]. *)
Definition string_member (name : bytes) (m : message) : option bytes :=
  match member name m with Some (JString s) => Some s | _ => None end.

Definition Versions (m : message) : option (list (bytes * bytes)) :=
  match member $"versions" m with
  | Some (JObject rows) =>
    match omap (fun product => pair product <$> string_member product rows) (remove_dups (map fst rows)) with
    | [] => None
    | vs => Some vs
    end
  | _ => None
  end.

(** * URLs *)

Definition isCodeByte (c : ascii) : bool :=
  between 65 90 (code c) || between 97 122 (code c) || is_digit c || is_char 95 c || is_char 45 c.

Fixpoint span_code (s : bytes) : bytes * bytes :=
  match s with
  | c :: r => if isCodeByte c then let '(d, k) := span_code r in (c :: d, k) else ([], s)
  | [] => ([], [])
  end.

Fixpoint until_slash (s : bytes) : bytes :=
  match s with c :: r => if bool_decide (c = slash) then [] else c :: until_slash r | [] => [] end.

Definition ParseFragment (fragment : bytes) : bytes * list bytes :=
  let '(code, rest) := span_code fragment in
  match rest with
  | c :: r => if is_char 33 c then (code, filter (fun f => f <> []) (Split (until_slash r) comma)) else (code, [])
  | [] => (code, [])
  end.

(** The text before the first [=]. *)
Fixpoint flag_name (flag : bytes) : bytes :=
  match flag with c :: r => if is_char 61 c then [] else c :: flag_name r | [] => [] end.

Definition HasFlag (flags : list bytes) (want : bytes) : bool := existsb (fun f => bool_decide (flag_name f = want)) flags.

Definition URLFlags (debug ephemeral : bool) : list bytes :=
  (if ephemeral then [$"ephemeral"] else []) ++ (if debug then [$"debug"] else []).

Definition fragment (code : bytes) (flags : list bytes) : bytes :=
  code ++ match flags with [] => [] | _ => $"!" ++ join [comma] flags end.

Definition CodeURL (server uid code : bytes) (flags : list bytes) : bytes :=
  $"https://" ++ server ++ $"/" ++ uid ++ $"#" ++ fragment code flags.

(** * Versions *)

Definition is_suffix_mark (c : ascii) : bool := is_char 45 c || is_char 43 c.

Fixpoint before_suffix (s : bytes) : bytes :=
  match s with c :: r => if is_suffix_mark c then [] else c :: before_suffix r | [] => [] end.

Definition version_text (s : bytes) : bytes := TrimPrefix (TrimSpace s) $"v".

Definition version_part (p : bytes) : option Z := Atoi p ≫= fun n => if n <? 0 then None else Some n.

Definition parseVersion (s : bytes) : option (Z * Z * Z) :=
  match before_suffix (version_text s) with
  | [] => None
  | s =>
    match map version_part (Split s dot) with
    | [Some a] => Some (a, 0, 0)
    | [Some a; Some b] => Some (a, b, 0)
    | [Some a; Some b; Some c] => Some (a, b, c)
    | _ => None
    end
  end.

Definition hasPreRelease (s : bytes) : bool := existsb is_suffix_mark (version_text s).

Definition isNewer (latest current : bytes) : bool :=
  match parseVersion latest, parseVersion current with
  | Some (l1, l2, l3), Some (c1, c2, c3) =>
    if negb (l1 =? c1) then l1 >? c1
    else if negb (l2 =? c2) then l2 >? c2
    else if negb (l3 =? c3) then l3 >? c3
    else hasPreRelease current && negb (hasPreRelease latest)
  | _, _ => false
  end.

Definition productKey : bytes := $"cli".

Definition updateNotice (versions : option (list (bytes * bytes))) (current : bytes) : bytes :=
  let latest := default [] (snd <$> last (filter (fun x => x.1 = productKey) (default [] versions))) in
  if bool_decide (latest = []) || negb (isNewer latest current) then []
  else $"A newer bitbang is available: " ++ latest ++ $" (this is " ++ current ++ $")".

(** * The client *)

(** A connection: what the server has sent that is not read yet, and whether this end closed it. *)
Record connection := mkConnection { inbox : list message; closed : bool }.

#[export] Instance eta_connection : Eta connection := fun x => mkConnection (inbox x) (closed x).

(** Where the loop of [Connect] is; the connections are numbered. *)
Inductive loop_at :=
| Dials
| Installs (id : nat)
| Registers (id : nat)
| AwaitsReply (id : nat)
| Reads (id : nat)
| Drops (id : nat)
| Decides
| Sleeps
| ReturnedNil
| ReturnedPreempted
| Exited.

Inductive stopper := ReadsConn | Closes (id : nat) | Stopped.

Inductive renewer := Starts | Drains (id : nat) | Asks (id : nat) | Waits | Renewed (code : option bytes).

(** [calls] counts [OnPreempted]; [ready] counts [OnReady]; [handled] are the messages the handler was
    given and [seen] those read since the last registration; [stops] counts the calls of [Stop]. *)
Record client := mkClient {
  stopped : bool;
  conn : option nat;
  preempted : bool;
  PairingCode : bytes;
  LatestVersions : option (list (bytes * bytes));
  codeIssued : option bytes;
  loop : loop_at;
  conns : list connection;
  stoppers : list stopper;
  renewers : list renewer;
  dials : nat;
  calls : nat;
  ready : nat;
  handled : list message;
  seen : list message
}.

#[export] Instance eta_client : Eta client := fun c =>
  mkClient (stopped c) (conn c) (preempted c) (PairingCode c) (LatestVersions c) (codeIssued c) (loop c) (conns c)
    (stoppers c) (renewers c) (dials c) (calls c) (ready c) (handled c) (seen c).

Definition NewClient : client :=
  mkClient false None false [] None None Dials [] [] [] 0 0 0 [] [].

Definition at_loop (l : loop_at) (c : client) : client := c <| loop := l |>.

Definition close_conn (id : nat) (c : client) : client :=
  c <| conns := alter (fun x => x <| closed := true |>) id (conns c) |>.

Definition is_closed (id : nat) (c : client) : bool :=
  match conns c !! id with Some x => closed x | None => true end.

(** [applyRegistered]. *)
Definition applyRegistered (m : message) (c : client) : client :=
  c <| PairingCode := default [] (string_member $"code" m) |> <| LatestVersions := Versions m |>.

(** The switch of [register] over the reply. *)
Inductive reply := Registered | TooOld | Refused.

Definition reply_of (m : message) : reply :=
  match string_member $"type" m with
  | Some t =>
    if bool_decide (t = $"registered") then Registered
    else if bool_decide (t = $"error") && bool_decide (string_member $"message" m = Some $"protocol_too_old") then TooOld
    else Refused
  | None => Refused
  end.

Definition on_reply (id : nat) (m : message) (c : client) : client :=
  match reply_of m with
  | Registered => at_loop (Reads id) ((applyRegistered m c) <| ready := S (ready c) |> <| seen := [] |>)
  | TooOld => at_loop Exited c
  | Refused => at_loop (Drops id) c
  end.

(** What the message loop makes of a message. *)
Inductive message_kind := Preemption | CodeIssued (code : bytes) | Passed.

Definition kind_of (m : message) : message_kind :=
  match string_member $"type" m with
  | Some t =>
    if bool_decide (t = $"error") && bool_decide (string_member $"message" m = Some $"preempted") then Preemption
    else if bool_decide (t = $"code_issued") then CodeIssued (default [] (string_member $"code" m))
    else Passed
  | None => Passed
  end.

Definition on_message (id : nat) (m : message) (c : client) : client :=
  let c := c <| seen := seen c ++ [m] |> in
  match kind_of m with
  | Preemption => at_loop (Drops id) (c <| preempted := true |> <| calls := S (calls c) |>)
  | CodeIssued code =>
    c <| PairingCode := code |>
      <| codeIssued := match codeIssued c with None => Some code | Some x => Some x end |>
  | Passed => c <| handled := handled c ++ [m] |>
  end.

(** Reading a connection: a message it has, an error where it is closed, or nothing yet. *)
Definition read (id : nat) (c : client) : option (option message * client) :=
  match conns c !! id with
  | Some x =>
    match inbox x with
    | m :: rest => Some (Some m, c <| conns := alter (fun x => x <| inbox := rest |>) id (conns c) |>)
    | [] => if closed x then Some (None, c) else None
    end
  | None => None
  end.

(** The loop's next move, where it needs nothing from the world. *)
Definition loop_step (c : client) : option client :=
  match loop c with
  | Dials => if stopped c then Some (at_loop Decides c) else None
  | Installs id =>
    Some (if stopped c then at_loop Decides (close_conn id c) else at_loop (Registers id) (c <| conn := Some id |>))
  | Registers id => Some (at_loop (if is_closed id c then Drops id else AwaitsReply id) c)
  | AwaitsReply id =>
    match read id c with
    | Some (Some m, c) => Some (on_reply id m c)
    | Some (None, c) => Some (at_loop (Drops id) c)
    | None => None
    end
  | Reads id =>
    match read id c with
    | Some (Some m, c) => Some (on_message id m c)
    | Some (None, c) => Some (at_loop (Drops id) c)
    | None => None
    end
  | Drops id =>
    Some (at_loop Decides (close_conn id (if bool_decide (conn c = Some id) then c <| conn := None |> else c)))
  | Decides =>
    Some (at_loop (if preempted c then ReturnedPreempted else if stopped c then ReturnedNil else Sleeps) c)
  | Sleeps => if stopped c then Some (at_loop ReturnedNil c) else None
  | ReturnedNil | ReturnedPreempted | Exited => None
  end.

Definition set_stopper (i : nat) (s : stopper) (c : client) : client := c <| stoppers := <[i := s]> (stoppers c) |>.
Definition set_renewer (i : nat) (r : renewer) (c : client) : client := c <| renewers := <[i := r]> (renewers c) |>.

(** What happens: the loop moves; a dial fails or yields a connection; the server sends, or breaks a
    connection; the retry delay ends; [Stop] and [RenewPairingCode] are called and move. *)
Inductive event :=
| LoopMoves
| DialFails
| DialYields
| Sends (id : nat) (m : message)
| Breaks (id : nat)
| Elapses
| Stop
| StopMoves (i : nat)
| Renew
| RenewMoves (i : nat)
| RenewTimesOut (i : nat).

Definition exec (e : event) (c : client) : option client :=
  match e with
  | LoopMoves => loop_step c
  | DialFails => match loop c with Dials => Some (at_loop Decides (c <| dials := S (dials c) |>)) | _ => None end
  | DialYields =>
    match loop c with
    | Dials => Some (at_loop (Installs (length (conns c))) (c <| conns := conns c ++ [mkConnection [] false] |> <| dials := S (dials c) |>))
    | _ => None
    end
  | Sends id m =>
    if is_closed id c then None
    else Some (c <| conns := alter (fun x => x <| inbox := inbox x ++ [m] |>) id (conns c) |>)
  | Breaks id => Some (close_conn id c)
  | Elapses => match loop c with Sleeps => Some (at_loop Dials c) | _ => None end
  | Stop => Some (c <| stopped := true |> <| stoppers := stoppers c ++ [ReadsConn] |>)
  | StopMoves i =>
    match stoppers c !! i with
    | Some ReadsConn => Some (set_stopper i (match conn c with Some id => Closes id | None => Stopped end) c)
    | Some (Closes id) => Some (set_stopper i Stopped (close_conn id c))
    | _ => None
    end
  | Renew => Some (c <| renewers := renewers c ++ [Starts] |>)
  | RenewMoves i =>
    match renewers c !! i with
    | Some Starts => Some (set_renewer i (match conn c with Some id => Drains id | None => Renewed None end) c)
    | Some (Drains id) => Some (set_renewer i (Asks id) (c <| codeIssued := None |>))
    | Some (Asks id) => Some (set_renewer i (if is_closed id c then Renewed None else Waits) c)
    | Some Waits =>
      match codeIssued c with
      | Some code => Some (set_renewer i (Renewed (match code with [] => None | _ => Some code end)) (c <| codeIssued := None |>))
      | None => None
      end
    | _ => None
    end
  | RenewTimesOut i =>
    match renewers c !! i with Some Waits => Some (set_renewer i (Renewed None) c) | _ => None end
  end.

Definition client_step (c c' : client) : Prop := exists e, exec e c = Some c'.

(** What the signaling client promises (the model is in Signaling.v): a link it composes is read back as
    it was meant; a notice of a newer version is never given about the version one has; a preempted
    client stays down; and a stopped one lets its connection go and returns. *)

(** * Links *)

(** A flag the grammar of fragments can carry. *)
Definition carries (f : bytes) : Prop := f <> [] /\ (comma ∉ f) /\ (slash ∉ f).

Lemma filter_keeps {A} (P : A -> Prop) `{!forall x, Decision (P x)} l : Forall P l -> filter P l = l.
Proof. induction 1 as [|x l Hx _ IH]; [done|]. by rewrite filter_cons_True, IH. Qed.

Lemma span_code_app s k :
  forallb isCodeByte s = true -> (forall c r, k = c :: r -> isCodeByte c = false) -> span_code (s ++ k) = (s, k).
Proof.
  intros Hs Hk. induction s as [|c s IH]; cbn.
  - destruct k as [|c k]; [done|]. cbn. by rewrite (Hk c k eq_refl).
  - cbn in Hs. apply andb_prop in Hs as [Hc Hs]. by rewrite Hc, IH.
Qed.

Lemma until_slash_free s : slash ∉ s -> until_slash s = s.
Proof.
  induction s as [|c s IH]; [done|]. intros [Hc Hs]%not_elem_of_cons. cbn. rewrite bool_decide_false by congruence. by rewrite IH.
Qed.

Lemma join_slash_free fs : Forall carries fs -> slash ∉ join [comma] fs.
Proof.
  induction 1 as [|f fs (_ & _ & Hf) _ IH]; [apply not_elem_of_nil|]. destruct fs as [|g fs]; [done|].
  cbn [join] in *. rewrite !elem_of_app, list_elem_of_singleton. intros [?|[H|?]]; [done|by vm_compute in H|done].
Qed.

Lemma fragment_parts code flags :
  forallb isCodeByte code = true -> Forall carries flags -> ParseFragment (fragment code flags) = (code, flags).
Proof.
  intros Hc Hf. unfold ParseFragment, fragment. destruct flags as [|f fs].
  - rewrite app_nil_r. rewrite <- (app_nil_r code) at 1. by rewrite span_code_app.
  - change ($"!" ++ join [comma] (f :: fs)) with ("!"%char :: join [comma] (f :: fs)).
    rewrite span_code_app; [|done|by intros c r [= <- _]]. change (is_char 33 "!"%char) with true. cbv iota.
    rewrite until_slash_free by (by apply join_slash_free). rewrite Split_join; [|done|].
    + f_equal. apply filter_keeps. eapply Forall_impl; [exact Hf|]. by intros x (? & _).
    + eapply Forall_impl; [exact Hf|]. by intros x (_ & ? & _).
Qed.

(** The links a listener composes are read back as they were meant: from the fragment of a link whose
    code is one of the identity's kind comes that code, and the flags of how the listener was started,
    no others. *)
Theorem link_flags_survive code debug ephemeral :
  forallb isCodeByte code = true ->
  let '(c, flags) := ParseFragment (fragment code (URLFlags debug ephemeral)) in
  c = code /\ HasFlag flags $"ephemeral" = ephemeral /\ HasFlag flags $"debug" = debug /\
  forall want, HasFlag flags want = true -> want = $"ephemeral" \/ want = $"debug".
Proof.
  intros Hc. rewrite fragment_parts; [|done|].
  - split; [done|]. destruct debug, ephemeral; cbn [URLFlags app]; (split_and!; [by vm_compute..|]);
      intros want H; unfold HasFlag in H; cbn [existsb] in H; repeat (apply orb_prop in H as [H|H]);
      try (apply bool_decide_eq_true in H; subst want; vm_compute; auto); done.
  - destruct debug, ephemeral; cbn [URLFlags app]; repeat constructor; try done; apply (bool_decide_unpack _); by vm_compute.
Qed.

Lemma link_flags_survive_witness :
  forallb isCodeByte $"K7_x-9" = true /\
  CodeURL $"bitba.ng" $"u1" $"K7_x-9" (URLFlags true true) = $"https://bitba.ng/u1#K7_x-9!ephemeral,debug" /\
  let '(c, flags) := ParseFragment (fragment $"K7_x-9" (URLFlags true true)) in
  c = $"K7_x-9" /\ HasFlag flags $"ephemeral" = true /\ HasFlag flags $"debug" = true /\
  forall want, HasFlag flags want = true -> want = $"ephemeral" \/ want = $"debug".
Proof. split; [done|]. split; [by vm_compute|]. apply (link_flags_survive $"K7_x-9" true true). reflexivity. Defined.

(** * Versions *)

(** A version as what the comparison sees of it, in order. *)
Definition rank (s : bytes) : option (Z * Z * Z * Z) :=
  (fun v => (v, if hasPreRelease s then 0 else 1)) <$> parseVersion s.

Definition rank_lt (a b : Z * Z * Z * Z) : Prop :=
  let '(a1, a2, a3, a4) := a in
  let '(b1, b2, b3, b4) := b in
  a1 < b1 \/ (a1 = b1 /\ (a2 < b2 \/ (a2 = b2 /\ (a3 < b3 \/ (a3 = b3 /\ a4 < b4))))).

Lemma isNewer_rank l c :
  isNewer l c = true <-> exists a b, rank l = Some a /\ rank c = Some b /\ rank_lt b a.
Proof.
  unfold isNewer, rank. destruct (parseVersion l) as [[[l1 l2] l3]|], (parseVersion c) as [[[c1 c2] c3]|]; cbn;
    [|split; [done|intros (? & ? & ? & ? & _); done]..].
  split.
  - intros H. do 2 eexists. split; [done|]. split; [done|].
    repeat case_step_in H; bool_to_prop; destruct (hasPreRelease c), (hasPreRelease l); cbn in *; try done; lia.
  - intros (a & b & [= <-] & [= <-] & H). unfold rank_lt in H.
    repeat case_step; bool_to_prop; destruct (hasPreRelease c), (hasPreRelease l); cbn; try done; lia.
Qed.

(** The notice of a newer release settles down: being newer is a strict order on what can be read as
    versions, so that a client is never told of the version it runs, two versions are never each
    newer than the other, and taking the newest release ends the notices. *)
Theorem newer_is_strict :
  (forall v, isNewer v v = false) /\
  (forall u v w, isNewer u v = true -> isNewer v w = true -> isNewer u w = true) /\
  (forall vs v, updateNotice (Some vs) v <> [] -> exists latest, (productKey, latest) ∈ vs /\ isNewer latest v = true /\
     updateNotice (Some vs) latest = []).
Proof.
  assert (forall v, isNewer v v = false) as Hirr.
  { intros v. apply not_true_iff_false. intros ([[[a1 a2] a3] a4] & b & Ha & Hb & H)%isNewer_rank.
    replace b with (a1, a2, a3, a4) in H by congruence. cbn in H. lia. }
  split; [done|]. split.
  - intros u v w (a & b & Ha & Hb & H1)%isNewer_rank (b' & d & Hb' & Hd & H2)%isNewer_rank. apply isNewer_rank.
    exists a, d. split; [done|]. split; [done|]. replace b' with b in H2 by congruence.
    destruct a as [[[a1 a2] a3] a4], b as [[[b1 b2] b3] b4], d as [[[d1 d2] d3] d4]. cbn in *. lia.
  - intros vs v. unfold updateNotice. cbn [default]. set (latest := default [] (snd <$> last _)).
    destruct (bool_decide (latest = [])) eqn:E; [done|]. cbn [orb]. destruct (isNewer latest v) eqn:En; [|done]. cbn [negb]. intros _.
    exists latest. split_and!; [|done|by rewrite Hirr].
    subst latest. destruct (last _) as [[k x]|] eqn:El; [|by bool_to_prop]. cbn in *.
    apply last_Some_elem_of, list_elem_of_filter in El as [Hk Hin]. cbn in Hk. by rewrite <- Hk.
Qed.

(** The comment on [isNewer] promises that a development build of a release is ahead of it; it is taken
    to be behind, and so is a build with metadata. *)
Lemma dev_build_is_nagged :
  isNewer $"0.5.0" $"0.5.0-dev" = true /\ isNewer $"0.5.0" $"0.5.0+local" = true.
Proof. by vm_compute. Qed.

(** * The connection's life *)

(** The connection the loop is using, once it is installed. *)
Definition uses (l : loop_at) : option nat :=
  match l with Registers id | AwaitsReply id | Reads id | Drops id => Some id | _ => None end.

Definition outstanding (s : stopper) : bool := match s with Signaling.Stopped => false | _ => true end.

Record life (c : client) : Prop := {
  life_conn : forall id, uses (loop c) = Some id -> conn c = Some id /\ (id < length (conns c))%nat;
  life_fresh : forall id, loop c = Installs id -> (id < length (conns c))%nat /\ conn c = None;
  life_none : uses (loop c) = None -> loop c <> Exited -> conn c = None;
  life_stopped : stopped c = true -> forall id, uses (loop c) = Some id ->
    is_closed id c = true \/ exists i s, stoppers c !! i = Some s /\ (s = ReadsConn \/ s = Closes id);
  life_preempted : if preempted c then calls c = 1%nat /\ (match loop c with Drops _ | Decides | ReturnedPreempted => True | _ => False end)
                   else calls c = 0%nat /\ loop c <> ReturnedPreempted
}.

Lemma life_new : life NewClient.
Proof. split; done. Qed.

(** What happens outside the loop. *)
Lemma life_aside c c' :
  life c -> loop c' = loop c -> conn c' = conn c -> (length (conns c) <= length (conns c'))%nat -> preempted c' = preempted c ->
  calls c' = calls c ->
  (stopped c' = true -> forall id, uses (loop c) = Some id ->
     is_closed id c' = true \/ exists i s, stoppers c' !! i = Some s /\ (s = ReadsConn \/ s = Closes id)) ->
  life c'.
Proof.
  intros [H1 H2 H3 H4 H5] El Ec En Ep Ea Hs. split; rewrite ?El, ?Ec, ?Ep, ?Ea; try done.
  - intros id Hid. destruct (H1 id Hid). split; [done|lia].
  - intros id Hid. destruct (H2 id Hid). split; [lia|done].
Qed.

Lemma length_close id c : length (conns (close_conn id c)) = length (conns c).
Proof. cbn. by rewrite length_alter. Qed.

Lemma closed_alter id c f k :
  is_closed id c = true -> (forall x, closed x = true -> closed (f x) = true) ->
  is_closed id (c <| conns := alter f k (conns c) |>) = true.
Proof.
  unfold is_closed. cbn. intros H Hf. destruct (decide (k = id)) as [->|]; [|by rewrite list_lookup_alter_ne].
  rewrite list_lookup_alter_eq. destruct (conns c !! id); [|done]. cbn in *. by apply Hf.
Qed.

Lemma closed_close id c : is_closed id (close_conn id c) = true.
Proof. unfold is_closed. cbn. rewrite list_lookup_alter_eq. by destruct (conns c !! id). Qed.

Definition preempted_ok (c : client) : Prop :=
  if preempted c then calls c = 1%nat /\ (match loop c with Drops _ | Decides | ReturnedPreempted => True | _ => False end)
  else calls c = 0%nat /\ loop c <> ReturnedPreempted.

(** The loop goes on with its connection, or the process ends. *)
Lemma life_within c c' :
  life c -> uses (loop c) <> None -> (uses (loop c') = uses (loop c) \/ loop c' = Exited) ->
  conn c' = conn c -> conns c' = conns c -> stopped c' = stopped c -> stoppers c' = stoppers c ->
  preempted_ok c' -> life c'.
Proof.
  intros [H1 H2 H3 H4 H5] Hne Hu Ec En Es Et Hp.
  assert (forall id, uses (loop c') = Some id -> uses (loop c) = Some id) as Hid.
  { intros id Hi. destruct Hu as [Hu|Hu]; [congruence|by rewrite Hu in Hi]. }
  split; try done.
  - intros id Hi. rewrite Ec, En. by apply H1, Hid.
  - intros id Hi. destruct Hu as [Hu|Hu]; [by rewrite Hi in Hu|congruence].
  - intros Hi Hx. destruct Hu as [Hu|Hu]; [congruence|done].
  - intros Hs id Hi. unfold is_closed. rewrite En, Et. rewrite Es in Hs. by apply H4, Hid.
Qed.

(** The loop is between connections. *)
Lemma life_between (c' : client) l :
  conn c' = None -> loop c' = l -> uses l = None -> (forall id, l <> Installs id) -> preempted_ok c' -> life c'.
Proof.
  intros Hc <- Hu Hi Hp. split; rewrite ?Hu; try done; intros id H; [by destruct (Hi id)|..]; done.
Qed.

Lemma read_life id c r c1 :
  life c -> read id c = Some (r, c1) ->
  life c1 /\ loop c1 = loop c /\ preempted c1 = preempted c /\ calls c1 = calls c.
Proof.
  unfold read. intros Hl. destruct (conns c !! id) as [x|]; [|done]. destruct (inbox x) as [|m rest].
  - case_step; [|done]. by intros [= <- <-].
  - intros [= <- <-]. split; [|done]. eapply (life_aside c); try done; [cbn; by rewrite length_alter|].
    intros Hs k Hk. destruct (life_stopped c Hl Hs k Hk); [left|by right]. by apply closed_alter.
Qed.

(** The loop's moves. *)
Lemma life_moves c c' : life c -> loop_step c = Some c' -> life c'.
Proof.
  intros Hl. pose proof (life_preempted c Hl) as Hp. change (preempted_ok c) in Hp. unfold loop_step.
  destruct (loop c) as [|id|id|id|id|id| | | | |] eqn:El; try done.
  - case_step; [|done]. intros [= <-]. eapply life_between; try done; [apply (life_none c Hl); by rewrite El|].
    unfold preempted_ok in *. cbn. rewrite El in Hp. destruct (preempted c); by destruct Hp.
  - destruct (life_fresh c Hl id El) as [Hlen Hc]. destruct (stopped c) eqn:Es; intros [= <-].
    + eapply life_between; try done. unfold preempted_ok in *. cbn. rewrite El in Hp. destruct (preempted c); by destruct Hp.
    + split; cbn; try done; [by intros k [= <-]|congruence|]. unfold preempted_ok in Hp. rewrite El in Hp. destruct (preempted c); by destruct Hp.
  - intros [= <-]. eapply (life_within c); try done; [by rewrite El|left; rewrite El; cbn; by case_step|].
    unfold preempted_ok in *. cbn. rewrite El in Hp. destruct (preempted c); [by destruct Hp|]. destruct Hp. split; [done|by case_step].
  - destruct (read id c) as [[r c1]|] eqn:Er; [|done]. destruct (read_life id c r c1 Hl Er) as (Hl1 & E1 & Ep & Ea). rewrite El in E1.
    assert (preempted c1 = false /\ calls c1 = 0%nat) as [Hp1 Hc1].
    { unfold preempted_ok in Hp. rewrite El in Hp. rewrite Ep, Ea. destruct (preempted c); by destruct Hp. }
    destruct r as [m|]; intros [= <-].
    + unfold on_reply. destruct (reply_of m); (eapply (life_within c1); try done;
        [by rewrite E1|cbn; rewrite E1; by (left + right)|unfold preempted_ok; cbn; by rewrite Hp1]).
    + eapply (life_within c1); try done; [by rewrite E1|left; by rewrite E1|]. unfold preempted_ok. cbn. by rewrite Hp1.
  - destruct (read id c) as [[r c1]|] eqn:Er; [|done]. destruct (read_life id c r c1 Hl Er) as (Hl1 & E1 & Ep & Ea). rewrite El in E1.
    assert (preempted c1 = false /\ calls c1 = 0%nat) as [Hp1 Hc1].
    { unfold preempted_ok in Hp. rewrite El in Hp. rewrite Ep, Ea. destruct (preempted c); by destruct Hp. }
    destruct r as [m|]; intros [= <-].
    + unfold on_message. destruct (kind_of m); (eapply (life_within c1); try done;
        [by rewrite E1|cbn; rewrite ?E1; by left|unfold preempted_ok; cbn; by rewrite ?Hp1, ?Hc1, ?E1]).
    + eapply (life_within c1); try done; [by rewrite E1|left; by rewrite E1|]. unfold preempted_ok. cbn. by rewrite Hp1.
  - destruct (life_conn c Hl id) as [Hc Hlen]; [by rewrite El|]. intros [= <-]. rewrite bool_decide_true by done.
    eapply life_between; try done. unfold preempted_ok in *. cbn. rewrite El in Hp. destruct (preempted c); by destruct Hp.
  - intros [= <-]. eapply life_between; [apply (life_none c Hl); by rewrite El|done| | |];
      destruct (preempted c) eqn:Epc; [done|by destruct (stopped c)|done|by destruct (stopped c)|..];
      unfold preempted_ok in *; cbn; rewrite Epc in *; [by destruct Hp|]. destruct Hp. split; [done|by destruct (stopped c)].
  - case_step; [|done]. intros [= <-]. eapply life_between; try done; [apply (life_none c Hl); by rewrite El|].
    unfold preempted_ok in *. cbn. rewrite El in Hp. destruct (preempted c); by destruct Hp.
Qed.

Lemma life_exec e c c' : life c -> exec e c = Some c' -> life c'.
Proof.
  intros Hl. destruct e as [| | |id m|id| | |i| |i|i]; cbn [exec].
  - by apply life_moves.
  - destruct (loop c) eqn:El; try done. intros [= <-]. pose proof (life_preempted c Hl) as Hp. rewrite El in Hp.
    eapply life_between; try done; [apply (life_none c Hl); by rewrite El|]. unfold preempted_ok. cbn.
    destruct (preempted c); by destruct Hp.
  - destruct (loop c) eqn:El; try done. intros [= <-]. pose proof (life_preempted c Hl) as Hp. rewrite El in Hp.
    assert (conn c = None) as Hc by (apply (life_none c Hl); by rewrite El).
    split; cbn; try done.
    + intros id [= <-]. rewrite length_app. cbn. split; [lia|done].
    + destruct (preempted c); by destruct Hp.
  - case_step; [done|]. intros [= <-]. eapply (life_aside c); try done; [cbn; by rewrite length_alter|].
    intros Hs k Hk. destruct (life_stopped c Hl Hs k Hk); [left|by right]. by apply closed_alter.
  - intros [= <-]. eapply (life_aside c); try done; [by rewrite length_close|].
    intros Hs k Hk. destruct (life_stopped c Hl Hs k Hk); [left|by right]. by apply closed_alter.
  - destruct (loop c) eqn:El; try done. intros [= <-]. pose proof (life_preempted c Hl) as Hp. rewrite El in Hp.
    eapply life_between; try done; [apply (life_none c Hl); by rewrite El|]. unfold preempted_ok. cbn.
    destruct (preempted c); by destruct Hp.
  - intros [= <-]. eapply (life_aside c); try done. intros _ k Hk. right. exists (length (stoppers c)), ReadsConn. cbn.
    rewrite list_lookup_middle by done. split; [done|by left].
  - destruct (stoppers c !! i) as [st|] eqn:Ei; [|done].
    assert (forall s', outstanding st = true ->
      (forall k, uses (loop c) = Some k -> st = ReadsConn -> s' = Closes k) -> (forall k, st <> Closes k) -> life (set_stopper i s' c)) as Hset.
    { intros s' _ Hs' Hcl. eapply (life_aside c); try done. intros Hs k Hk.
      destruct (life_stopped c Hl Hs k Hk) as [|(j & s & Hj & Hjs)]; [by left|right]. cbn.
      destruct (decide (i = j)) as [<-|Hne].
      - exists i, s'. rewrite list_lookup_insert_eq by (by eapply lookup_lt_Some). split; [done|]. right.
        replace s with st in Hjs by congruence. destruct Hjs as [->| ->]; [by apply Hs'|by destruct (Hcl k)].
      - exists j, s. by rewrite list_lookup_insert_ne. }
    destruct st as [|id|]; [| |done]; intros [= <-].
    + apply Hset; [done| |done]. intros k Hk _. by destruct (life_conn c Hl k Hk) as [-> _].
    + eapply (life_aside c); try done; [cbn; by rewrite length_alter|]. intros Hs k Hk.
      destruct (decide (k = id)) as [->|Hk2]; [left; apply closed_close|].
      destruct (life_stopped c Hl Hs k Hk) as [Hc|(j & s & Hj & Hjs)]; [left; by apply closed_alter|right]. cbn.
      exists j, s. split; [|done]. rewrite list_lookup_insert_ne; [done|]. intros <-.
      replace s with (Closes id) in Hjs by congruence. destruct Hjs as [?|[= ->]]; done.
  - intros [= <-]. eapply (life_aside c); try done. intros Hs k Hk. exact (life_stopped c Hl Hs k Hk).
  - destruct (renewers c !! i) as [[| | | |]|]; try done; [..|destruct (codeIssued c); [|done]]; intros [= <-];
      (eapply (life_aside c); try done; intros Hs k Hk; exact (life_stopped c Hl Hs k Hk)).
  - destruct (renewers c !! i) as [[| | | |]|]; try done. intros [= <-].
    eapply (life_aside c); try done. intros Hs k Hk. exact (life_stopped c Hl Hs k Hk).
Qed.

Definition reachable (c : client) : Prop := steps client_step NewClient c.

Lemma reachable_life c : reachable c -> life c.
Proof. intros H. refine (steps_invariant client_step life _ NewClient c H life_new). intros c1 c2 Hl [e He]. by eapply life_exec. Qed.

(** Preemption is final, which is what keeps two instances from taking one device in turns: however
    the server's messages, failures, stops and renewals interleave, a client that has been told it is
    preempted has called back exactly once, is on its way out, and dials no more. *)
Theorem preemption_is_final c c' :
  reachable c -> preempted c = true -> steps client_step c c' ->
  preempted c' = true /\ calls c' = 1%nat /\ dials c' = dials c /\ loop c' <> ReturnedNil /\ loop c' <> Sleeps.
Proof.
  intros Hr Hp Hs. assert (life c' /\ preempted c' = true /\ dials c' = dials c) as (Hl & Hp' & Hd).
  { refine (steps_invariant client_step (fun x => life x /\ preempted x = true /\ dials x = dials c) _ c c' Hs _);
      [|split; [by apply reachable_life|done]].
    intros x y (Hl & Hpx & Hd) [e He]. split; [by eapply life_exec|].
    pose proof (life_preempted x Hl) as Hat. rewrite Hpx in Hat. destruct Hat as [_ Hat].
    destruct e as [| | |id m|id| | |i| |i|i]; cbn [exec] in He; try (destruct (loop x); done).
    - unfold loop_step in He. destruct (loop x); try done; inv He; [by case_bool_decide|done].
    - case_step_in He; by inv He.
    - by inv He.
    - by inv He.
    - destruct (stoppers x !! i) as [[| |]|]; by inv He.
    - by inv He.
    - destruct (renewers x !! i) as [[| | | |]|]; try done; try (by inv He). destruct (codeIssued x); by inv He.
    - destruct (renewers x !! i) as [[| | | |]|]; try done. by inv He. }
  pose proof (life_preempted c' Hl) as H. rewrite Hp' in H. destruct H as [Hc Hat].
  split_and!; try done; by intros E; rewrite E in Hat.
Qed.

(** * Stopping *)

Fixpoint moves (n : nat) (c : client) : client :=
  match n with
  | O => c
  | S k => match loop_step c with Some c' => moves k c' | None => c end
  end.

Definition over (c : client) : Prop := loop c = ReturnedNil \/ loop c = ReturnedPreempted \/ loop c = Exited.

(** What the connection in use still has to be read. *)
Definition backlog (c : client) : nat :=
  match uses (loop c) with
  | Some id => match conns c !! id with Some x => length (inbox x) | None => 0 end
  | None => 0
  end.

(** The loop returns within [k] moves of its own, and dials no more. *)
Definition returns (k : nat) (c : client) : Prop :=
  exists n, (n <= k)%nat /\ over (moves n c) /\ dials (moves n c) = dials c.

Lemma returns_over k c : over c -> returns k c.
Proof. intros H. exists 0%nat. split; [lia|done]. Qed.

Lemma returns_step k c c' : loop_step c = Some c' -> dials c' = dials c -> returns k c' -> returns (S k) c.
Proof. intros Hs Hd (n & Hn & Ho & Hdn). exists (S n). cbn. rewrite Hs. split_and!; [lia|done|congruence]. Qed.

Lemma returns_le k m c : returns k c -> (k <= m)%nat -> returns m c.
Proof. intros (n & Hn & H) Hle. exists n. split; [lia|done]. Qed.

Lemma decides_returns c : loop c = Decides -> stopped c = true -> returns 1 c.
Proof.
  intros El Hs. eapply (returns_step 0); [unfold loop_step; rewrite El, Hs; done|done|]. apply returns_over.
  unfold over. cbn. destruct (preempted c); [by right; left|by left].
Qed.

Lemma drops_returns c id : loop c = Drops id -> stopped c = true -> returns 2 c.
Proof.
  intros El Hs. eapply (returns_step 1); [unfold loop_step; by rewrite El|by case_bool_decide|].
  apply decides_returns; [done|]. cbn. by case_bool_decide.
Qed.

(** A closed connection is read to its end. *)
Lemma reading_returns n : forall c id x,
  loop c = Reads id -> stopped c = true -> conns c !! id = Some x -> closed x = true -> length (inbox x) = n -> returns (n + 3) c.
Proof.
  induction n as [|n IH]; intros c id x El Hs Hx Hc Hn.
  - eapply (returns_step 2); [unfold loop_step, read; rewrite El, Hx| |].
    + destruct (inbox x); [|done]. by rewrite Hc.
    + done.
    + by eapply drops_returns.
  - destruct (inbox x) as [|m rest] eqn:Ei; [done|]. cbn in Hn.
    eapply (returns_step (n + 3)); [unfold loop_step, read; rewrite El, Hx, Ei; reflexivity| |].
    + unfold on_message. by destruct (kind_of m).
    + unfold on_message. destruct (kind_of m).
      * apply (returns_le 2); [by eapply drops_returns|lia].
      * eapply (IH _ id (x <| inbox := rest |>)); [exact El|exact Hs| |exact Hc|cbn; lia].
        cbn. by rewrite list_lookup_alter_eq, Hx.
      * eapply (IH _ id (x <| inbox := rest |>)); [exact El|exact Hs| |exact Hc|cbn; lia].
        cbn. by rewrite list_lookup_alter_eq, Hx.
Qed.

(** Stopping works from anywhere: once [Stop] has been called and its calls have returned, the loop,
    wherever it was (dialing, with a connection just made, registering, reading, waiting to retry),
    returns within the messages it has left to read and three moves, by itself, without dialing again
    and without waiting for the server. *)
Theorem stopped_client_returns c :
  reachable c -> stopped c = true -> Forall (fun s => s = Signaling.Stopped) (stoppers c) -> returns (backlog c + 3) c.
Proof.
  intros Hr Hs Hst. pose proof (reachable_life c Hr) as Hl.
  assert (forall id, uses (loop c) = Some id -> exists x, conns c !! id = Some x /\ closed x = true) as Hcl.
  { intros id Hid. destruct (life_conn c Hl id Hid) as [_ Hlt]. destruct (lookup_lt_is_Some_2 _ _ Hlt) as [x Hx].
    exists x. split; [done|]. destruct (life_stopped c Hl Hs id Hid) as [H|(i & s & Hi & Hor)].
    - unfold is_closed in H. by rewrite Hx in H.
    - rewrite Forall_lookup in Hst. specialize (Hst i s Hi). subst s. by destruct Hor. }
  unfold backlog. destruct (loop c) as [|id|id|id|id|id| | | | |] eqn:El; cbn [uses];
    try (destruct (Hcl id eq_refl) as (x & Hx & Hc); rewrite Hx); cbn [Nat.add].
  - eapply (returns_step 2); [unfold loop_step; by rewrite El, Hs|done|]. apply (returns_le 1); [by apply decides_returns|lia].
  - eapply (returns_step 2); [unfold loop_step; by rewrite El, Hs|done|]. apply (returns_le 1); [by apply decides_returns|lia].
  - apply (returns_le 3); [|lia]. eapply (returns_step 2); [unfold loop_step, is_closed; by rewrite El, Hx, Hc|done|]. by eapply drops_returns.
  - destruct (inbox x) as [|m rest] eqn:Ei; cbn [length Nat.add].
    + eapply (returns_step 2); [unfold loop_step, read; by rewrite El, Hx, Ei, Hc|done|]. by eapply drops_returns.
    + eapply (returns_step (length rest + 3)); [unfold loop_step, read; rewrite El, Hx, Ei; reflexivity| |]; unfold on_reply.
      * by destruct (reply_of m).
      * destruct (reply_of m).
        -- eapply (reading_returns _ _ id (x <| inbox := rest |>)); [done|done| |done|done]. cbn. by rewrite list_lookup_alter_eq, Hx.
        -- apply returns_over. by right; right.
        -- apply (returns_le 2); [by eapply drops_returns|lia].
  - eapply reading_returns; [done|done|exact Hx|done|done].
  - apply (returns_le 2); [by eapply drops_returns|lia].
  - apply (returns_le 1); [by apply decides_returns|lia].
  - eapply (returns_step 2); [unfold loop_step; by rewrite El, Hs|done|]. apply returns_over. by left.
  - apply returns_over. by left.
  - apply returns_over. by right; left.
  - apply returns_over. by right; right.
Qed.

(** * Schedules *)

Definition typed (t : bytes) (more : list (bytes * json)) : list (bytes * json) := ($"type", JString t) :: more.

Definition run (es : list event) (c : client) : option client := foldl (fun oc e => oc ≫= exec e) (Some c) es.

Lemma events_steps es : forall c c', run es c = Some c' -> steps client_step c c'.
Proof.
  induction es as [|e es IH]; intros c c'; unfold run; cbn [foldl]; [intros [= <-]; constructor|].
  change (Some c ≫= exec e) with (exec e c). destruct (exec e c) as [c1|] eqn:E.
  - intros H. eapply steps_cons; [by exists e|by apply IH].
  - assert (foldl (fun oc e => oc ≫= exec e) None es = None) as -> by (clear; induction es; done). done.
Qed.

(** A registration after a failed dial, a message for the handler, a renewed code, and the other
    instance. *)
Definition registers : list event :=
  [DialFails; LoopMoves; Elapses; DialYields; LoopMoves; LoopMoves; Sends 0 (typed $"registered" [($"code", JString $"123456")]); LoopMoves].
Definition works : list event :=
  registers ++ [Sends 0 (typed $"request" []); LoopMoves; Renew; RenewMoves 0; RenewMoves 0; RenewMoves 0;
                Sends 0 (typed $"code_issued" [($"code", JString $"654321")]); LoopMoves; RenewMoves 0].
Definition yields : list event := works ++ [Sends 0 (typed $"error" [($"message", JString $"preempted")]); LoopMoves].

Definition after_run (es : list event) : client := default NewClient (run es NewClient).

Lemma after_events_reachable es : is_Some (run es NewClient) -> reachable (after_run es).
Proof. unfold after_run. intros [c H]. rewrite H. by eapply events_steps. Qed.

Example renewal_answers :
  renewers (after_run works) = [Renewed (Some $"654321")] /\ PairingCode (after_run works) = $"654321" /\
  handled (after_run works) = [typed $"request" []].
Proof. by vm_compute. Qed.

Lemma preemption_is_final_witness :
  preempted (after_run yields) = true /\
  let c' := default NewClient (run [LoopMoves; Stop; LoopMoves] (after_run yields)) in
  loop c' = ReturnedPreempted /\
  preempted c' = true /\ calls c' = 1%nat /\ dials c' = dials (after_run yields) /\ loop c' <> ReturnedNil /\ loop c' <> Sleeps.
Proof.
  split; [by vm_compute|]. cbn zeta. split; [by vm_compute|].
  apply (preemption_is_final (after_run yields) (default NewClient (run [LoopMoves; Stop; LoopMoves] (after_run yields)))).
  - apply after_events_reachable. vm_compute. by eexists.
  - by vm_compute.
  - apply (events_steps [LoopMoves; Stop; LoopMoves]). vm_compute. reflexivity.
Defined.

Definition stops : list event := works ++ [Sends 0 (typed $"request" []); Stop; StopMoves 0; StopMoves 0].

Lemma stopped_client_returns_witness :
  (loop (after_run stops) = Reads 0 /\ backlog (after_run stops) = 1%nat) /\ returns (backlog (after_run stops) + 3) (after_run stops).
Proof.
  split; [by vm_compute|]. apply (stopped_client_returns (after_run stops)).
  - apply after_events_reachable. vm_compute. by eexists.
  - by vm_compute.
  - vm_compute. repeat constructor.
Defined.
