(* ===== verification/GoUrl.v ===== *)
(** [url.Parse] of Go's net/url (Go 1.25): the host, the path and the fragment of a URL, with every error of
    the parse. The callers use nothing else of the parsed URL. *)

From S2P Require Import Prelude GoLib Json GoHttp.

Record parsed := mkParsed { Host : bytes; UrlPath : bytes; Fragment : bytes }.

Inductive url_error := ControlByte | NoScheme | ColonSegment | BadHost | BadPort | BadUserinfo | BadEscape.

(** [strings.Cut] at a byte. *)
Definition Cut (s : bytes) (c : ascii) : bytes * bytes :=
  match IndexByte s c with Some i => (take i s, drop (S i) s) | None => (s, []) end.

Definition letter (c : ascii) : bool := between 65 90 (code c) || between 97 122 (code c).

(** [getScheme] after its first byte: a byte that cannot be in a scheme, or the end, means there is none. *)
Fixpoint scheme_end (s : bytes) : option nat :=
  match s with
  | [] => None
  | c :: r => if is_char 58 c then Some O
              else if letter c || is_digit c || bool_decide (c ∈ $"+-.") then S <$> scheme_end r
              else None
  end.

Definition getScheme (s : bytes) : result url_error (bytes * bytes) :=
  match s with
  | [] => Ok ([], s)
  | c :: r =>
    if is_char 58 c then Err NoScheme
    else if letter c
         then match scheme_end r with
              | Some i => Ok (take (S i) s, drop (S (S i)) s)
              | None => Ok ([], s)
              end
         else Ok ([], s)
  end.

(** [unescape] in the mode of a host or of a zone: bytes of a host that must be escaped are refused, and only
    bytes outside ASCII, and [%25], may be escaped. *)
Definition host_safe (c : ascii) : bool := alnum c || bool_decide (c ∈ $"-_.~!$&'()*+,;=:[]<>" ++ [chr 34]).

Fixpoint unescape_host (zone : bool) (s : bytes) : result url_error bytes :=
  match s with
  | [] => Ok []
  | "%"%char :: r =>
    match r with
    | a :: b :: r' =>
      match hex_digit a, hex_digit b with
      | Some x, Some y =>
        let v := chr (x * 16 + y) in
        let percent := (x =? 2) && (y =? 5) in
        if (if zone then negb percent && negb (is_char 32 v) && negb (host_safe v) else (x <? 8) && negb percent)
        then Err BadEscape
        else let! t := unescape_host zone r' in Ok (v :: t)
      | _, _ => Err BadEscape
      end
    | _ => Err BadEscape
    end
  | c :: r =>
    if (code c <? 128) && negb (host_safe c) then Err BadHost
    else let! t := unescape_host zone r in Ok (c :: t)
  end.

(** A path, a fragment or the user information: only the escapes are looked at. *)
Definition unescape_part (s : bytes) : result url_error bytes :=
  match unescape s with Some t => Ok t | None => Err BadEscape end.

Definition validOptionalPort (port : bytes) : bool :=
  match port with [] => true | c :: r => is_char 58 c && forallb is_digit r end.

(** The index of a substring. *)
Fixpoint Index (s sub : bytes) : option nat :=
  if HasPrefix s sub then Some O else match s with [] => None | _ :: r => S <$> Index r sub end.

Definition parseHost (host : bytes) : result url_error bytes :=
  if HasPrefix host $"[" then
    match LastIndexByte host "]"%char with
    | None => Err BadHost
    | Some i =>
      if negb (validOptionalPort (drop (S i) host)) then Err BadPort
      else match Index (take i host) $"%25" with
           | Some z =>
             let! a := unescape_host false (take z host) in
             let! b := unescape_host true (drop z (take i host)) in
             let! c := unescape_host false (drop i host) in
             Ok (a ++ b ++ c)
           | None => unescape_host false host
           end
    end
  else match LastIndexByte host colon with
       | Some i => if negb (validOptionalPort (drop i host)) then Err BadPort else unescape_host false host
       | None => unescape_host false host
       end.

Definition validUserinfo (s : bytes) : bool := forallb (fun c => alnum c || bool_decide (c ∈ $"-._:~!$&'()*+,;=%@")) s.

Definition parseAuthority (authority : bytes) : result url_error bytes :=
  match LastIndexByte authority "@"%char with
  | None => parseHost authority
  | Some i =>
    let! host := parseHost (drop (S i) authority) in
    let user := take i authority in
    if negb (validUserinfo user) then Err BadUserinfo
    else let '(name, password) := Cut user colon in
         let! _ := unescape_part name in
         let! _ := unescape_part password in
         Ok host
  end.

Definition control (c : ascii) : bool := (code c <? 32) || (code c =? 127).

(** [parse], without the fragment. *)
Definition parse_url (raw : bytes) : result url_error parsed :=
  if existsb control raw then Err ControlByte
  else if bool_decide (raw = $"*") then Ok (mkParsed [] raw [])
  else
    let! sr := getScheme raw in
    let '(scheme, rest) := sr in
    let rest := if HasSuffix rest $"?" && (Count rest "?"%char =? 1) then take (length rest - 1) rest else (Cut rest "?"%char).1 in
    let rootless := negb (HasPrefix rest $"/") in
    if rootless && bool_decide (scheme <> []) then Ok (mkParsed [] [] [])
    else if rootless && bool_decide (colon ∈ (Cut rest slash).1) then Err ColonSegment
    else
      let! hp :=
        if (bool_decide (scheme <> []) || negb (HasPrefix rest $"///")) && HasPrefix rest $"//" then
          let auth := drop 2 rest in
          let '(auth, path) := match IndexByte auth slash with Some i => (take i auth, drop i auth) | None => (auth, []) end in
          let! host := parseAuthority auth in Ok (host, path)
        else Ok ([], rest) in
      let! p := unescape_part hp.2 in
      Ok (mkParsed hp.1 p []).

Definition Parse (raw : bytes) : result url_error parsed :=
  let '(u, frag) := Cut raw "#"%char in
  let! url := parse_url u in
  let! f := unescape_part frag in
  Ok (mkParsed (Host url) (UrlPath url) f).

Example Parse_sample :
  (Parse $"https://bitba.ng/AbC-1/x%20y?q#code!debug", Parse $"https://u:p@[::1]:8080/d#", Parse $"a b://c/d", Parse $"https://h:x/",
   Parse $"https://a%41/", Parse $"*", Parse $"x:y", Parse $"a:b/c", Parse $"1a:b/c", Parse $"https:///p", Parse $"/p#%zz", Parse $"https://h ?") =
  (Ok (mkParsed $"bitba.ng" $"/AbC-1/x y" $"code!debug"), Ok (mkParsed $"[::1]:8080" $"/d" []), Err ColonSegment, Err BadPort,
   Err BadEscape, Ok (mkParsed [] $"*" []), Ok (mkParsed [] [] []), Ok (mkParsed [] [] []), Err ColonSegment, Ok (mkParsed [] $"/p" []),
   Err BadEscape, Err BadHost).
Proof. vm_compute. reflexivity. Qed.
