(* ===== verification/JsonIndent.v ===== *)
(** [json.MarshalIndent] with no prefix and two blanks, for documents of strings, arrays and objects, and that
    reading such a document back gives the value it was printed from. *)

From S2P Require Import Prelude GoLib Json Wire JsonRoundTrip.

#[local] Set Warnings "-register-all".

(** The line break before a member at nesting depth [n]. *)
Definition break (n : nat) : bytes := chr 10 :: replicate (2 * n) (chr 32).

Fixpoint print_indent (n : nat) (j : json) : bytes :=
  match j with
  | JArray (x :: l) =>
    $"[" ++ break (S n) ++ join ($"," ++ break (S n)) (map (print_indent (S n)) (x :: l)) ++ break n ++ $"]"
  | JObject (m :: ms) =>
    $"{" ++ break (S n) ++
      join ($"," ++ break (S n)) (map (fun '(k, v) => print_string k ++ $": " ++ print_indent (S n) v) (m :: ms)) ++ break n ++ $"}"
  | _ => print_json j
  end.

Definition MarshalIndent (j : json) : bytes := print_indent O j.

Definition quote (s : bytes) : bytes := flat_map (fun c => if is_char 34 c then [chr 39] else [c]) s.

Example MarshalIndent_sample :
  quote (MarshalIndent (JObject [($"k", JArray [JString $"a"; JObject []]); ($"e", JArray [])])) =
  $"{" ++ [chr 10] ++ $"  'k': [" ++ [chr 10] ++ $"    'a'," ++ [chr 10] ++ $"    {}" ++ [chr 10] ++ $"  ]," ++ [chr 10] ++ $"  'e': []" ++ [chr 10] ++ $"}".
Proof. vm_compute. reflexivity. Qed.

(** * Reading back *)

(** Documents whose numbers are integers. *)
Inductive text_ok : json -> Prop :=
| text_null : text_ok JNull
| text_bool b : text_ok (JBool b)
| text_int z : text_ok (JInt z)
| text_string s : text_ok (JString s)
| text_array l : Forall text_ok l -> text_ok (JArray l)
| text_object ms : Forall (fun kv => text_ok kv.2) ms -> text_ok (JObject ms).

Lemma text_ok_ind' (P : json -> Prop) :
  P JNull -> (forall b, P (JBool b)) -> (forall z, P (JInt z)) -> (forall s, P (JString s)) ->
  (forall l, Forall P l -> P (JArray l)) -> (forall ms, Forall (fun kv => P kv.2) ms -> P (JObject ms)) ->
  forall j, text_ok j -> P j.
Proof.
  intros H1 H2 H3 H4 H5 H6. fix IH 2. intros j [|b|z|s|l Hl|ms Hms]; auto.
  - apply H5. induction Hl as [|x l Hx _ IHl]; constructor; auto.
  - apply H6. induction Hms as [|x l Hx _ IHl]; constructor; auto.
Qed.

Lemma skip_break n s : skip_space (break n ++ s) = skip_space s.
Proof. unfold break. cbn. induction (n + (n + 0))%nat as [|k IH]; [done|exact IH]. Qed.

(** The first byte of a value is neither white space nor a closing bracket. *)
Lemma print_indent_head n j : text_ok j -> exists c r, print_indent n j = c :: r /\ is_space c = false /\ is_char 93 c = false.
Proof.
  intros [|[]|z|s|[|x l] _|[|m ms] _]; try (eexists _, _; split_and!; [reflexivity|reflexivity|reflexivity]).
  exact (print_json_head (JInt z) (ok_int z)).
Qed.

Definition comes_back (j : json) : Prop := forall lvl n depth k,
  ends k -> (2 * length (print_indent lvl j) <= n)%nat -> depth + json_depth j <= maxNestingDepth ->
  parse_value n depth (print_indent lvl j ++ k) = Some (coerce_json j, k).

Lemma ends_break n k : ends (break n ++ k).
Proof. change (ends (chr 10 :: replicate (2 * n) (chr 32) ++ k)). right. right. right. reflexivity. Qed.

Lemma ends_comma k : ends ($"," ++ k).
Proof. change (ends (chr 44 :: k)). left. reflexivity. Qed.

(** What follows a value. *)
#[local] Ltac follows := first [apply ends_break | apply ends_comma | match goal with k := _ |- _ => unfold k end; rewrite <- ?app_assoc; apply ends_comma].

(** A value does not mind the white space before it. *)
Lemma parse_value_space n depth s s' : skip_space s = skip_space s' -> parse_value n depth s = parse_value n depth s'.
Proof. destruct n as [|n]; [done|]. cbn [parse_value]. by intros ->. Qed.

Lemma back_space j lvl w n depth k : comes_back j -> skip_space (w ++ print_indent lvl j ++ k) = skip_space (print_indent lvl j ++ k) ->
  ends k -> (2 * length (print_indent lvl j) <= n)%nat -> depth + json_depth j <= maxNestingDepth ->
  parse_value n depth (w ++ print_indent lvl j ++ k) = Some (coerce_json j, k).
Proof. intros H E Hk Hn Hd. rewrite (parse_value_space _ _ _ _ E). by apply H. Qed.

Lemma skip_to_value n j k : text_ok j -> skip_space (print_indent n j ++ k) = print_indent n j ++ k.
Proof. intros Hj. destruct (print_indent_head n j Hj) as (c & r & -> & Hc & _). by apply skip_not_space. Qed.

Lemma parse_elements_indent lvl l : forall n depth k,
  l <> [] -> Forall comes_back l -> Forall (fun j => depth + json_depth j <= maxNestingDepth) l ->
  (2 * length (join ($"," ++ break (S lvl)) (map (print_indent (S lvl)) l)) + 1 <= n)%nat ->
  parse_elements n depth (break (S lvl) ++ join ($"," ++ break (S lvl)) (map (print_indent (S lvl)) l) ++ break lvl ++ chr 93 :: k) =
    Some (map coerce_json l, k).
Proof.
  induction l as [|j l IH]; intros n depth k Hne Hr Hd Hn; [done|].
  apply Forall_cons in Hr as [Hrj Hr]. apply Forall_cons in Hd as [Hdj Hd].
  destruct n as [|n]; [lia|]. cbn [parse_elements map]. destruct l as [|j' l].
  - cbn [map join] in *. rewrite (back_space j (S lvl) _ n depth _ Hrj); [|apply skip_break|follows|lia|done].
    by rewrite skip_break, skip_not_space.
  - cbn [map] in *. set (rest := map (print_indent (S lvl)) l) in *.
    change (join ($"," ++ break (S lvl)) (print_indent (S lvl) j :: print_indent (S lvl) j' :: rest))
      with (print_indent (S lvl) j ++ ($"," ++ break (S lvl)) ++ join ($"," ++ break (S lvl)) (print_indent (S lvl) j' :: rest)) in *.
    rewrite !length_app in Hn. cbn [length] in Hn. rewrite <- !app_assoc.
    rewrite (back_space j (S lvl) _ n depth _ Hrj); [|apply skip_break|follows|lia|done].
    change ($"," ++ ?t) with (chr 44 :: t). rewrite skip_not_space by done.
    change (is_char 93 (chr 44)) with false. change (is_char 44 (chr 44)) with true. cbv iota.
    rewrite IH; [done|done|done|done|]. change (length $",") with 1%nat in Hn. lia.
Qed.

Definition indent_member (lvl : nat) (kv : bytes * json) : bytes := print_string kv.1 ++ $": " ++ print_indent lvl kv.2.

Lemma print_indent_object n m ms : print_indent n (JObject (m :: ms)) =
  chr 123 :: break (S n) ++ join ($"," ++ break (S n)) (map (indent_member (S n)) (m :: ms)) ++ break n ++ [chr 125].
Proof.
  cbn [print_indent]. unfold indent_member. f_equal. do 3 f_equal. apply map_ext. by intros [k v].
Qed.

Lemma back_member lvl key j n depth k : comes_back j -> ends k ->
  (2 * length (indent_member lvl (key, j)) <= n)%nat -> depth + json_depth j <= maxNestingDepth ->
  exists r r2, indent_member lvl (key, j) ++ k = chr 34 :: r /\
    parse_string (S (length r)) r = Some (coerce key, chr 58 :: r2) /\ parse_value n depth r2 = Some (coerce_json j, k).
Proof.
  intros Hj Hk0 Hn Hd. unfold indent_member in *. cbn [fst snd] in *.
  destruct (parse_print_string key (S (length (escape_string (length key) key ++ chr 34 :: $": " ++ print_indent lvl j ++ k)))
    ($": " ++ print_indent lvl j ++ k)) as (r & Ek & Hk).
  { unfold print_string. cbn [length]. rewrite !length_app. cbn [length]. lia. }
  assert (r = escape_string (length key) key ++ chr 34 :: $": " ++ print_indent lvl j ++ k) as Er.
  { unfold print_string in Ek. cbn [app] in Ek. injection Ek as <-. by rewrite <- app_assoc. }
  exists r, (chr 32 :: print_indent lvl j ++ k). split_and!.
  - by rewrite <- !app_assoc.
  - rewrite Er in Hk |- *. exact Hk.
  - apply (back_space j lvl [chr 32]); [done| |done|rewrite !length_app in Hn; lia|done].
    cbn [app]. cbn [skip_space]. done.
Qed.

Lemma parse_members_indent lvl ms : forall n depth k,
  ms <> [] -> Forall (fun kv => comes_back kv.2) ms -> Forall (fun kv => depth + json_depth kv.2 <= maxNestingDepth) ms ->
  (2 * length (join ($"," ++ break (S lvl)) (map (indent_member (S lvl)) ms)) + 1 <= n)%nat ->
  parse_members n depth (break (S lvl) ++ join ($"," ++ break (S lvl)) (map (indent_member (S lvl)) ms) ++ break lvl ++ chr 125 :: k) =
    Some (map (fun '(k, v) => (coerce k, coerce_json v)) ms, k).
Proof.
  induction ms as [|[key j] ms IH]; intros n depth k Hne Hr Hd Hn; [done|].
  apply Forall_cons in Hr as [Hrj Hr]. apply Forall_cons in Hd as [Hdj Hd]. cbn [fst snd] in *.
  destruct n as [|n]; [lia|]. cbn [parse_members map] in *. rewrite skip_break. destruct ms as [|m ms].
  - cbn [map join] in *. destruct (back_member (S lvl) key j n depth (break lvl ++ chr 125 :: k) Hrj ltac:(follows) ltac:(lia) Hdj) as (r & r2 & -> & E1 & E2).
    rewrite skip_not_space by done. change (is_char 34 (chr 34)) with true. cbv iota. rewrite E1.
    rewrite skip_not_space by done. change (is_char 58 (chr 58)) with true. cbv iota. rewrite E2. by rewrite skip_break, skip_not_space.
  - cbn [map] in *. set (rest := map (indent_member (S lvl)) ms) in *.
    change (join ($"," ++ break (S lvl)) (indent_member (S lvl) (key, j) :: indent_member (S lvl) m :: rest))
      with (indent_member (S lvl) (key, j) ++ ($"," ++ break (S lvl)) ++ join ($"," ++ break (S lvl)) (indent_member (S lvl) m :: rest)) in *.
    rewrite !length_app in Hn. cbn [length] in Hn. rewrite <- !app_assoc.
    match goal with |- context [indent_member _ _ ++ ?k0] => set (k1 := k0) end.
    destruct (back_member (S lvl) key j n depth k1 Hrj ltac:(follows) ltac:(lia) Hdj) as (r & r2 & -> & E1 & E2). subst k1.
    rewrite skip_not_space by done. change (is_char 34 (chr 34)) with true. cbv iota. rewrite E1.
    rewrite skip_not_space by done. change (is_char 58 (chr 58)) with true. cbv iota. rewrite E2.
    change ($"," ++ ?t) with (chr 44 :: t). rewrite skip_not_space by done.
    change (is_char 125 (chr 44)) with false. change (is_char 44 (chr 44)) with true. cbv iota.
    rewrite IH; [done|done|done|done|]. change (length $",") with 1%nat in Hn. lia.
Qed.

Lemma comes_back_array l : Forall text_ok l -> Forall comes_back l -> comes_back (JArray l).
Proof.
  intros Hok Hr lvl n depth k Hk Hn Hd. destruct l as [|x l].
  - destruct n as [|n]; [vm_compute in Hn; lia|]. cbn. cbn [json_depth foldr] in Hd. rewrite Z.geb_leb. by settle (maxNestingDepth <=? depth) false.
  - cbn [json_depth] in Hd. assert (0 <= foldr (fun x d => Z.max (json_depth x) d) 0 (x :: l)) by (clear; induction (x :: l); cbn; lia).
    change (print_indent lvl (JArray (x :: l))) with
      (chr 91 :: break (S lvl) ++ join ($"," ++ break (S lvl)) (map (print_indent (S lvl)) (x :: l)) ++ break lvl ++ [chr 93]) in *.
    cbn [length] in Hn. rewrite !length_app in Hn. destruct n as [|n]; [lia|]. cbn [app parse_value]. rewrite skip_not_space by reflexivity.
    change (is_char 34 (chr 91)) with false. change (is_char 123 (chr 91)) with false. change (is_char 91 (chr 91)) with true. cbv iota.
    rewrite Z.geb_leb. settle (maxNestingDepth <=? depth) false. rewrite <- !app_assoc. cbn [app].
    rewrite parse_elements_indent; [|done|done| |lia].
    + rewrite skip_break. apply Forall_cons in Hok as [Hx _]. destruct (print_indent_head (S lvl) x Hx) as (c & r & E & Hs & H93).
      cbn [map]. assert (exists r', join ($"," ++ break (S lvl)) (print_indent (S lvl) x :: map (print_indent (S lvl)) l) = c :: r') as (r' & E').
      { rewrite E. destruct (map _ l); cbn [join app]; by eexists. }
      rewrite E'. cbn [app]. rewrite skip_not_space by done. by rewrite H93.
    + eapply Forall_impl; [apply (foldr_max_le json_depth _ (maxNestingDepth - depth - 1)); lia|]. cbn. intros; lia.
Qed.

Lemma comes_back_object ms : Forall (fun kv => comes_back kv.2) ms -> comes_back (JObject ms).
Proof.
  intros Hr lvl n depth k Hk Hn Hd. destruct ms as [|m ms].
  - destruct n as [|n]; [vm_compute in Hn; lia|]. cbn. cbn [json_depth foldr] in Hd. rewrite Z.geb_leb. by settle (maxNestingDepth <=? depth) false.
  - cbn [json_depth] in Hd.
    assert (0 <= foldr (fun kv d => Z.max (json_depth kv.2) d) 0 (m :: ms)) by (clear; induction (m :: ms) as [|kv l IH]; cbn [foldr]; lia).
    rewrite print_indent_object in *.
    cbn [length] in Hn. rewrite !length_app in Hn. destruct n as [|n]; [lia|]. cbn [app parse_value]. rewrite skip_not_space by reflexivity.
    change (is_char 34 (chr 123)) with false. change (is_char 123 (chr 123)) with true. cbv iota.
    rewrite Z.geb_leb. settle (maxNestingDepth <=? depth) false. rewrite <- !app_assoc. cbn [app].
    rewrite parse_members_indent; [|done|done| |lia].
    + rewrite skip_break.
      assert (exists r', join ($"," ++ break (S lvl)) (map (indent_member (S lvl)) (m :: ms)) = chr 34 :: r') as (r' & ->).
      { cbn [map]. unfold indent_member at 1, print_string. destruct (map _ ms); cbn; by eexists. }
      cbn [app]. rewrite skip_not_space by done. reflexivity.
    + eapply Forall_impl; [apply (foldr_max_le (fun kv => json_depth kv.2) _ (maxNestingDepth - depth - 1)); lia|]. cbn. intros; lia.
Qed.

Lemma comes_back_ok j : text_ok j -> comes_back j.
Proof.
  intros Hj. assert (text_ok j /\ comes_back j) as [_ H]; [|exact H]. revert Hj.
  apply (text_ok_ind' (fun j => text_ok j /\ comes_back j)).
  - split; [constructor|]. intros lvl [|n] depth k Hk Hn _; [vm_compute in Hn; lia|]. reflexivity.
  - intros b. split; [constructor|]. intros lvl [|n] depth k Hk Hn _; [destruct b; vm_compute in Hn; lia|]. by destruct b.
  - intros z. split; [constructor|]. intros lvl. exact (reads_int z).
  - intros s. split; [constructor|]. intros lvl n depth k Hk Hn _. cbn [print_indent print_json] in *.
    destruct n as [|n]; [unfold print_string in Hn; cbn in Hn; lia|].
    destruct (parse_print_string s (S (length (escape_string (length s) s ++ [chr 34] ++ k))) k) as (r & E & Hp).
    { unfold print_string. cbn [length]. rewrite !length_app. cbn [length]. lia. }
    cbn [parse_value]. unfold print_string in *. cbn [app] in *. injection E as <-. rewrite skip_not_space by reflexivity.
    change (is_char 34 (chr 34)) with true. cbv iota. rewrite <- app_assoc in *. cbn [app] in *. by rewrite Hp.
  - intros l Hl. apply Forall_and in Hl as [Hok Hr]. split; [by constructor|by apply comes_back_array].
  - intros ms Hms. apply Forall_and in Hms as [Hok Hr]. split; [by constructor|by apply comes_back_object].
Qed.

Lemma parse_MarshalIndent j : text_ok j -> json_depth j <= maxNestingDepth -> parse_json (MarshalIndent j) = Some (coerce_json j).
Proof.
  intros Hj Hd. unfold parse_json, MarshalIndent.
  pose proof (comes_back_ok j Hj O (2 * length (print_indent O j) + 2)%nat 0 [] I ltac:(lia) ltac:(lia)) as H.
  rewrite app_nil_r in H. by rewrite H.
Qed.
