(* ===== verification/Devices.v ===== *)
(** The known-hosts table of the connector, ~/.bitbang/devices.json (cmd/bitbang/devices.go). *)

From stdpp Require Import list.
From S2P Require Import Prelude GoLib Wire JsonRoundTrip Json JsonIndent.

Record deviceEntry := mkEntry { Name : bytes; UID : bytes; AccessCode : bytes; Server : bytes; PairedAt : bytes }.

#[export] Instance deviceEntry_eq_dec : EqDecision deviceEntry.
Proof. solve_decision. Defined.

Definition no_entry : deviceEntry := mkEntry [] [] [] [] [].

(** The member [Devices] of the table is all there is of it. *)
Abbreviation deviceTable := (list deviceEntry) (only parsing).

Inductive device_error :=
| CannotRead | CannotWrite | NameEmpty | NameInvalid (name : bytes) | NameUsed (name : bytes) | NoRename (stored : bytes).

(** [strings.EqualFold] where one side is ASCII, as a device name is: the letters of ASCII have the Kelvin
    sign and the long s among their foldings. *)
Definition EqualFold (a b : bytes) : bool := bool_decide (fold_name (length a) a = fold_name (length b) b).

Definition letter (c : ascii) : bool := between 65 90 (code c) || between 97 122 (code c).
Definition name_char (c : ascii) : bool := letter c || is_digit c || is_char 95 c || is_char 45 c.

(** [deviceNamePattern]. *)
Definition looksLikeDeviceName (arg : bytes) : bool :=
  match arg with [] => false | c :: r => letter c && forallb name_char r end.

Definition validateDeviceName (name : bytes) : result device_error unit :=
  match name with
  | [] => Err NameEmpty
  | _ => if looksLikeDeviceName name then Ok tt else Err (NameInvalid name)
  end.

(** * The file *)

(** What the process finds under its home: the bytes of devices.json, if there is one, and whether the
    directory and the file can be read and replaced. *)
Record home := mkHome { devices_json : option bytes; readable : bool; writable : bool }.

Definition entry_json (e : deviceEntry) : json :=
  JObject [($"name", JString (Name e)); ($"uid", JString (UID e)); ($"access_code", JString (AccessCode e));
           ($"server", JString (Server e)); ($"paired_at", JString (PairedAt e))].

(** A nil slice is written as null. *)
Definition table_json (t : deviceTable) : json :=
  JObject [($"devices", match t with [] => JNull | _ => JArray (map entry_json t) end)].

(** Decoding is into what is there already, and goes on past a value of another type. *)
Definition decode_member (e : deviceEntry) (kv : bytes * json) : deviceEntry :=
  let s old := (decode_string old kv.2).1 in
  if names $"name" kv.1 then mkEntry (s (Name e)) (UID e) (AccessCode e) (Server e) (PairedAt e)
  else if names $"uid" kv.1 then mkEntry (Name e) (s (UID e)) (AccessCode e) (Server e) (PairedAt e)
  else if names $"access_code" kv.1 then mkEntry (Name e) (UID e) (s (AccessCode e)) (Server e) (PairedAt e)
  else if names $"server" kv.1 then mkEntry (Name e) (UID e) (AccessCode e) (s (Server e)) (PairedAt e)
  else if names $"paired_at" kv.1 then mkEntry (Name e) (UID e) (AccessCode e) (Server e) (s (PairedAt e))
  else e.

Definition decode_entry (old : deviceEntry) (j : json) : deviceEntry :=
  match j with JObject ms => foldl decode_member old ms | _ => old end.

Definition decode_devices (old : deviceTable) (j : json) : deviceTable :=
  match j with
  | JArray l => imap (fun i x => decode_entry (default no_entry (old !! i)) x) l
  | JNull => []
  | _ => old
  end.

Definition decode_table (j : json) : deviceTable :=
  match j with
  | JObject ms => foldl (fun t kv => if names $"devices" kv.1 then decode_devices t kv.2 else t) [] ms
  | _ => []
  end.

(** [loadDeviceTable]: no file, or one that is not JSON, is an empty table. *)
Definition loadDeviceTable (h : home) : result device_error deviceTable :=
  if negb (readable h) then Err CannotRead
  else match devices_json h with
       | None => Ok []
       | Some data => Ok (match parse_json data with Some j => decode_table j | None => [] end)
       end.

(** [writeDeviceTable]: a temporary file and a rename, so a failure leaves the file as it was. *)
Definition writeDeviceTable (h : home) (t : deviceTable) : result device_error home :=
  if writable h then Ok (mkHome (Some (MarshalIndent (table_json t))) (readable h) (writable h)) else Err CannotWrite.

(** * The table *)

Definition lookupDeviceByName (h : home) (name : bytes) : option deviceEntry :=
  match loadDeviceTable h with
  | Ok t => snd <$> list_find (fun e => EqualFold (Name e) name = true) t
  | Err _ => None
  end.

Definition nameTaken (t : deviceTable) (name : bytes) (exceptIdx : Z) : bool :=
  existsb (fun ie => negb (Z.of_nat ie.1 =? exceptIdx) && EqualFold (Name ie.2) name) (imap pair t).

Definition autoNameRoot : bytes := $"device".

(** The loop of [autoDeviceName] from the index [n]; a table takes at most as many candidates as it has
    entries, so [S (length t)] rounds find one. *)
Fixpoint auto_from (fuel : nat) (t : deviceTable) (n : Z) : option bytes :=
  match fuel with
  | O => None
  | S k => let candidate := autoNameRoot ++ Itoa n in
           if nameTaken t candidate (-1) then auto_from k t (n + 1) else Some candidate
  end.

Definition autoDeviceName (t : deviceTable) : bytes := default [] (auto_from (S (length t)) t 1).

Inductive recordStatus := recordUpdated | recordCreated | recordCreatedAuto.

(** [recordDevice]: what it reports, and the home it leaves. [now] is the instant, in RFC 3339. *)
Definition recordDevice (h : home) (now server uid accessCode requestedName : bytes) :
  result device_error (bytes * recordStatus) * home :=
  match loadDeviceTable h with
  | Err e => (Err e, h)
  | Ok t =>
    match list_find (fun e => UID e = uid) t with
    | Some (i, e) =>
      if bool_decide (requestedName <> []) && negb (EqualFold requestedName (Name e)) then (Err (NoRename (Name e)), h)
      else match writeDeviceTable h (<[i := mkEntry (Name e) uid accessCode server now]> t) with
           | Ok h' => (Ok (Name e, recordUpdated), h')
           | Err err => (Err err, h)
           end
    | None =>
      let add name status :=
        match writeDeviceTable h (t ++ [mkEntry name uid accessCode server now]) with
        | Ok h' => (Ok (name, status), h')
        | Err err => (Err err, h)
        end in
      match requestedName with
      | [] => add (autoDeviceName t) recordCreatedAuto
      | _ => match validateDeviceName requestedName with
             | Err e => (Err e, h)
             | Ok _ => if nameTaken t requestedName (-1) then (Err (NameUsed requestedName), h)
                       else add requestedName recordCreated
             end
      end
    end
  end.

(** A table made by hand: a name, an automatic name, and a second one. *)
Definition fresh_home : home := mkHome None true true.
Definition record_all (h : home) (l : list (bytes * bytes)) : home :=
  foldl (fun h '(uid, name) => (recordDevice h $"2025-01-01T00:00:00Z" $"bitba.ng" uid $"code" name).2) h l.
Definition sample_home : home := record_all fresh_home [($"A", $"nas1"); ($"B", []); ($"C", [])].

Example recordDevice_sample :
  ((recordDevice sample_home $"t" $"s" $"D" $"c" $"NAS1").1, (recordDevice sample_home $"t" $"s" $"A" $"c" $"other").1,
   (recordDevice sample_home $"t" $"s" $"D" $"c" $"9x").1, (recordDevice sample_home $"t" $"s" $"B" $"c" []).1,
   UID <$> lookupDeviceByName sample_home $"Device2") =
  (Err (NameUsed $"NAS1"), Err (NoRename $"nas1"), Err (NameInvalid $"9x"), Ok ($"device1", recordUpdated), Some $"C").
Proof. vm_compute. reflexivity. Qed.

(** What the known-hosts table promises: names and UIDs are each unique, a recorded device is found under its
    name in any case, every other name resolves as before, and a refusal leaves the file alone. *)

Definition fold (s : bytes) : bytes := fold_name (length s) s.

(** Strings that a JSON file keeps, and a name of the pattern. *)
Definition entry_ok (e : deviceEntry) : Prop :=
  looksLikeDeviceName (Name e) = true /\ utf8_valid (UID e) /\ utf8_valid (AccessCode e) /\ utf8_valid (Server e) /\ utf8_valid (PairedAt e).

Definition table_ok (t : list deviceEntry) : Prop :=
  Forall entry_ok t /\ NoDup (fold ∘ Name <$> t) /\ NoDup (UID <$> t).

Lemma EqualFold_fold a b : EqualFold a b = bool_decide (fold a = fold b).
Proof. done. Qed.

(** * The characters of names *)

Lemma name_char_ascii c : name_char c = true -> code c < 128 /\ code c <> 226 /\ code c <> 197.
Proof. unfold name_char, letter, is_digit, between, is_char. intros H. bool_to_prop. lia. Qed.

Lemma looks_chars s : looksLikeDeviceName s = true -> s <> [] /\ Forall (fun c => name_char c = true) s.
Proof.
  destruct s as [|c r]; [done|]. cbn. intros [Hc Hr]%andb_true_iff. split; [done|]. constructor.
  - unfold name_char. by rewrite Hc.
  - by apply forallb_True, Is_true_true in Hr || (apply Forall_forall; intros x Hx; rewrite forallb_forall in Hr; apply Hr; by apply list_elem_of_In).
Qed.

Lemma fold_chars s : forall n, Forall (fun c => name_char c = true) s -> fold_name n s = map lower s.
Proof.
  assert (forall c, name_char c = true -> (code c =? 226) = false /\ (code c =? 197) = false) as Hne.
  { intros c (_ & H1 & H2)%name_char_ascii. split; by apply Z.eqb_neq. }
  induction s as [|a s IH]; intros n Hs; [by destruct n|]. destruct n as [|n]; [done|].
  apply Forall_cons in Hs as [Ha Hs]. destruct (Hne a Ha) as [E1 E2]. destruct s as [|b [|c r]]; cbn [fold_name]; rewrite ?E1, ?E2; cbn [andb].
  - done.
  - done.
  - rewrite IH by done. done.
Qed.

Lemma fold_name_chars s : looksLikeDeviceName s = true -> fold s = map lower s.
Proof. intros [_ H]%looks_chars. by apply fold_chars. Qed.

Lemma looks_valid s : looksLikeDeviceName s = true -> utf8_valid s.
Proof.
  intros [_ H]%looks_chars. induction H as [|c s Hc _ IH]; [constructor|]. apply utf8_valid_cons_ascii; [|done]. by apply name_char_ascii in Hc as [? _].
Qed.

(** * Reading back what was written *)

Lemma entry_json_back e : entry_ok e -> decode_entry no_entry (coerce_json (entry_json e)) = e.
Proof.
  intros (Hn & Hu & Ha & Hs & Hp). apply looks_valid in Hn. destruct e as [n u a s p].
  cbn [Name UID AccessCode Server PairedAt] in *. unfold entry_json. cbn [coerce_json map Name UID AccessCode Server PairedAt].
  rewrite !(coerce_valid n), !(coerce_valid u), !(coerce_valid a), !(coerce_valid s), !(coerce_valid p) by done.
  vm_compute. done.
Qed.

Lemma table_json_back t : t <> [] -> Forall entry_ok t -> decode_table (coerce_json (table_json t)) = t.
Proof.
  intros Hne Ht. destruct t as [|e0 t0]; [done|]. set (t := e0 :: t0) in *. unfold table_json. cbn [coerce_json map]. subst t. cbv iota.
  set (t := e0 :: t0) in *. change (coerce $"devices") with $"devices". unfold decode_table. cbn [foldl fst snd].
  change (names $"devices" $"devices") with true. cbv iota. cbn [coerce_json decode_devices]. rewrite map_map.
  clear Hne. induction Ht as [|e l He _ IH]; [done|]. cbn [map imap]. f_equal; [by apply entry_json_back|].
  rewrite <- IH at 2. apply imap_ext. intros i x _. by rewrite !lookup_nil.
Qed.

Lemma table_json_ok t : text_ok (table_json t) /\ json_depth (table_json t) <= maxNestingDepth.
Proof.
  split.
  - unfold table_json. constructor. constructor; [|constructor]. cbn. destruct t as [|e t]; [constructor|].
    constructor. apply Forall_map, Forall_forall. intros x _. cbn. constructor. repeat constructor.
  - assert (forall l, foldr (fun x d => Z.max (json_depth x) d) 0 (map entry_json l) <= 1) as H.
    { induction l as [|e l IH]; cbn in *; lia. }
    unfold table_json, maxNestingDepth. destruct t as [|e t]; [cbn; lia|].
    set (l := e :: t). cbn [json_depth foldr snd]. specialize (H l). lia.
Qed.

Lemma load_written t r w : t <> [] -> Forall entry_ok t -> r = true ->
  loadDeviceTable (mkHome (Some (MarshalIndent (table_json t))) r w) = Ok t.
Proof.
  intros Hne Ht ->. unfold loadDeviceTable. cbn [readable devices_json negb].
  destruct (table_json_ok t) as [H1 H2]. by rewrite parse_MarshalIndent, table_json_back.
Qed.

(** * Names in use *)

Lemma existsb_imap (p : deviceEntry -> bool) t f : (forall i, f i = true) ->
  existsb (fun ie => f ie.1 && p ie.2) (imap pair t) = existsb p t.
Proof.
  intros Hf. assert (forall g : nat -> nat, existsb (fun ie => f ie.1 && p ie.2) (imap (fun i => pair (g i)) t) = existsb p t) as H; [|exact (H id)].
  induction t as [|e t IH]; intros g; [done|]. cbn [imap existsb fst snd]. rewrite Hf. cbn [andb]. f_equal. apply (IH (g ∘ S)).
Qed.

Lemma nameTaken_spec t name : nameTaken t name (-1) = true <-> fold name ∈ fold ∘ Name <$> t.
Proof.
  unfold nameTaken. rewrite (existsb_imap (fun e => EqualFold (Name e) name) t (fun i => negb (Z.of_nat i =? -1))).
  2: { intros i. apply negb_true_iff, Z.eqb_neq. lia. }
  rewrite existsb_exists, list_elem_of_fmap. split.
  - intros (e & Hin & He). exists e. rewrite EqualFold_fold in He. apply bool_decide_eq_true in He. split; [done|by apply list_elem_of_In].
  - intros (e & He & Hin). exists e. split; [by apply list_elem_of_In|]. rewrite EqualFold_fold. by apply bool_decide_eq_true.
Qed.

Definition candidate (n : Z) : bytes := autoNameRoot ++ Itoa n.

Lemma candidate_name n : 0 <= n -> looksLikeDeviceName (candidate n) = true.
Proof.
  intros Hn. change (forallb name_char ($"evice" ++ Itoa n) = true). rewrite forallb_app. apply andb_true_iff. split; [done|].
  apply forallb_forall. intros c Hc%list_elem_of_In. assert (is_digit c = true) as Hd.
  { destruct (decide (n = 0)) as [->|]; [by apply list_elem_of_singleton in Hc as ->|].
    destruct (print_Z_digits n) as (HF & _); [lia|]. rewrite Forall_forall in HF. by apply HF. }
  unfold name_char. rewrite Hd. by rewrite !orb_true_r.
Qed.

Lemma candidate_inj n m : 0 <= n -> 0 <= m -> fold (candidate n) = fold (candidate m) -> n = m.
Proof.
  intros Hn Hm. rewrite !fold_name_chars by (by apply candidate_name). unfold candidate. rewrite !map_app. intros E%app_inv_head.
  assert (forall k, 0 <= k -> map lower (Itoa k) = Itoa k) as Hl.
  { intros k Hk. destruct (decide (k = 0)) as [->|]; [reflexivity|]. destruct (print_Z_digits k) as (HF & _); [lia|].
    unfold Itoa. induction HF as [|c l Hc _ IH]; [done|]. cbn. rewrite IH. f_equal. unfold lower, is_digit, between in *. bool_to_prop.
    by settle (65 <=? code c) false. }
  rewrite !Hl in E by done. assert (parse_unsigned (Itoa n) = parse_unsigned (Itoa m)) as E' by congruence.
  unfold Itoa in E'. rewrite !parse_unsigned_print in E' by done. congruence.
Qed.

Lemma auto_from_spec t fuel : forall n, 0 <= n ->
  match auto_from fuel t n with
  | Some c => exists m, n <= m /\ c = candidate m /\ nameTaken t c (-1) = false /\
                forall k, n <= k < m -> nameTaken t (candidate k) (-1) = true
  | None => forall k, n <= k < n + Z.of_nat fuel -> nameTaken t (candidate k) (-1) = true
  end.
Proof.
  induction fuel as [|fuel IH]; intros n Hn; [cbn; lia|]. cbn [auto_from]. change (autoNameRoot ++ Itoa n) with (candidate n).
  destruct (nameTaken t (candidate n) (-1)) eqn:E; [|by exists n; split_and!; [lia| | |lia]].
  specialize (IH (n + 1) ltac:(lia)). destruct (auto_from fuel t (n + 1)) as [c|].
  - destruct IH as (m & Hm & -> & Hf & Ht). exists m. split_and!; [lia|done|done|].
    intros k Hk. destruct (decide (k = n)) as [->|]; [done|]. apply Ht. lia.
  - intros k Hk. destruct (decide (k = n)) as [->|]; [done|]. apply IH. lia.
Qed.

(** There are more candidates than entries. *)
Lemma auto_found t : auto_from (S (length t)) t 1 <> None.
Proof.
  intros E. pose proof (auto_from_spec t (S (length t)) 1 ltac:(lia)) as H. rewrite E in H.
  set (cs := (fun i => fold (candidate (Z.of_nat i))) <$> seq 1 (S (length t))).
  assert (NoDup cs) as Hnd.
  { apply NoDup_fmap_2_strong; [|apply NoDup_seq]. intros i j _ _ Hij. apply candidate_inj in Hij; lia. }
  assert (cs ⊆ fold ∘ Name <$> t) as Hsub.
  { intros x (i & -> & Hi%elem_of_seq)%list_elem_of_fmap. apply nameTaken_spec, H. lia. }
  apply (NoDup_submseteq _ _ Hnd) in Hsub. apply submseteq_length in Hsub. subst cs. rewrite !length_fmap, length_seq in Hsub. lia.
Qed.

(** The automatic name is the first of device1, device2, ... that no entry has. *)
Lemma autoDeviceName_lowest t : exists n, 1 <= n /\ autoDeviceName t = candidate n /\
  nameTaken t (candidate n) (-1) = false /\ forall k, 1 <= k < n -> nameTaken t (candidate k) (-1) = true.
Proof.
  pose proof (auto_from_spec t (S (length t)) 1 ltac:(lia)) as H. unfold autoDeviceName. pose proof (auto_found t) as Hf.
  destruct (auto_from (S (length t)) t 1) as [c|]; [|done]. destruct H as (m & Hm & -> & H1 & H2). by exists m.
Qed.

(** * Recording a device *)

Definition find_name (t : list deviceEntry) (name : bytes) : option deviceEntry :=
  snd <$> list_find (fun e => EqualFold (Name e) name = true) t.

Lemma find_name_cons e t name : find_name (e :: t) name = if EqualFold (Name e) name then Some e else find_name t name.
Proof.
  unfold find_name. cbn [list_find]. destruct (EqualFold (Name e) name) eqn:E.
  - by rewrite decide_True.
  - rewrite decide_False by congruence. by destruct (list_find _ t) as [[i x]|].
Qed.

Lemma find_name_app t e name : fold (Name e) ∉ fold ∘ Name <$> t ->
  find_name (t ++ [e]) name = if EqualFold (Name e) name then Some e else find_name t name.
Proof.
  induction t as [|x t IH]; intros Hn; cbn [app]; rewrite !find_name_cons; [done|].
  cbn in Hn. apply not_elem_of_cons in Hn as [Hx Hn]. rewrite IH by done. rewrite !EqualFold_fold.
  repeat case_bool_decide; congruence.
Qed.

Lemma find_name_insert t i e e' name : t !! i = Some e -> NoDup (fold ∘ Name <$> t) -> Name e' = Name e ->
  find_name (<[i := e']> t) name = if EqualFold (Name e') name then Some e' else find_name t name.
Proof.
  intros Hi Hnd Hn. revert i Hi. induction t as [|x t IH]; intros i Hi; [done|]. cbn in Hnd. apply NoDup_cons in Hnd as [Hx Hnd].
  destruct i as [|i]; cbn in Hi.
  - injection Hi as ->. change (<[0%nat := e']> (e :: t)) with (e' :: t). rewrite !find_name_cons, Hn. destruct (EqualFold (Name e) name); done.
  - change (<[S i := e']> (x :: t)) with (x :: <[i := e']> t). rewrite !find_name_cons, IH by done.
    assert (fold (Name e') <> fold (Name x)) as Hne.
    { rewrite Hn. intros E. apply Hx. rewrite <- E. apply list_elem_of_fmap. exists e. split; [done|]. by eapply list_elem_of_lookup_2. }
    rewrite !EqualFold_fold. repeat case_bool_decide; congruence.
Qed.

Lemma table_ok_insert t i e e' : t !! i = Some e -> table_ok t -> entry_ok e' -> Name e' = Name e -> UID e' = UID e ->
  table_ok (<[i := e']> t).
Proof.
  intros Hi (H1 & H2 & H3) He Hn Hu. assert (forall {B} (f : deviceEntry -> B), f e' = f e -> f <$> <[i := e']> t = f <$> t) as Hmap.
  { intros B f Hf. rewrite list_fmap_insert, Hf. apply list_insert_id. rewrite list_lookup_fmap. by rewrite Hi. }
  split_and!; [by apply Forall_insert|rewrite Hmap; [done|cbn; congruence]|by rewrite Hmap].
Qed.

Lemma table_ok_snoc t e : table_ok t -> entry_ok e -> fold (Name e) ∉ fold ∘ Name <$> t -> UID e ∉ UID <$> t -> table_ok (t ++ [e]).
Proof.
  intros (H1 & H2 & H3) He Hn Hu. split_and!.
  - apply Forall_app. split; [done|by constructor].
  - rewrite fmap_app. apply NoDup_app. split_and!; [done| |apply NoDup_singleton]. intros x Hx ->%list_elem_of_singleton. by apply Hn.
  - rewrite fmap_app. apply NoDup_app. split_and!; [done| |apply NoDup_singleton]. intros x Hx ->%list_elem_of_singleton. by apply Hu.
Qed.

Lemma lookup_find h t name : loadDeviceTable h = Ok t -> lookupDeviceByName h name = find_name t name.
Proof. unfold lookupDeviceByName. by intros ->. Qed.

(** The file after a write of a good table. *)
Lemma written h t h' : writeDeviceTable h t = Ok h' -> readable h = true -> t <> [] -> table_ok t -> loadDeviceTable h' = Ok t.
Proof.
  unfold writeDeviceTable. destruct (writable h); [|done]. intros [= <-] Hr Hne (Ht & _). by apply load_written.
Qed.

(** The table that a successful record leaves. *)
Definition remembered (t : list deviceEntry) (e : deviceEntry) (status : recordStatus) (requested : bytes) : Prop :=
  match status with
  | recordUpdated => exists old, old ∈ t /\ UID old = UID e /\ Name old = Name e
  | recordCreated => (UID e ∉ UID <$> t) /\ Name e = requested
  | recordCreatedAuto => (UID e ∉ UID <$> t) /\ requested = [] /\ exists n, 1 <= n /\ Name e = candidate n /\
      forall k, 1 <= k < n -> nameTaken t (candidate k) (-1) = true
  end.

(** Why a record is refused. *)
Definition refused (h : home) (t : list deviceEntry) (uid requested : bytes) (err : device_error) : Prop :=
  match err with
  | NoRename stored => exists old, old ∈ t /\ UID old = uid /\ Name old = stored /\ requested <> [] /\ EqualFold requested stored = false
  | NameInvalid n => (uid ∉ UID <$> t) /\ n = requested /\ requested <> [] /\ looksLikeDeviceName requested = false
  | NameUsed n => (uid ∉ UID <$> t) /\ n = requested /\ exists other, other ∈ t /\ EqualFold (Name other) requested = true
  | CannotWrite => writable h = false
  | CannotRead | NameEmpty => False
  end.

Lemma nameTaken_false t name : nameTaken t name (-1) = false -> fold name ∉ fold ∘ Name <$> t.
Proof. intros H Hin. apply nameTaken_spec in Hin. congruence. Qed.

Lemma nameTaken_true t name : nameTaken t name (-1) = true -> exists other, other ∈ t /\ EqualFold (Name other) name = true.
Proof.
  intros (other & E & Hin)%nameTaken_spec%list_elem_of_fmap. exists other. split; [done|]. rewrite EqualFold_fold. by apply bool_decide_eq_true.
Qed.

Lemma unknown_uid t uid : list_find (fun e => UID e = uid) t = None -> uid ∉ UID <$> t.
Proof. intros H (e & -> & He)%list_elem_of_fmap. rewrite list_find_None, Forall_forall in H. by apply (H e). Qed.

(** A new entry at the end of the table. *)
Lemma added h t e name h' : loadDeviceTable h = Ok t -> table_ok t -> entry_ok e -> fold (Name e) ∉ fold ∘ Name <$> t -> UID e ∉ UID <$> t ->
  writeDeviceTable h (t ++ [e]) = Ok h' -> readable h = true ->
  loadDeviceTable h' = Ok (t ++ [e]) /\ table_ok (t ++ [e]) /\
  lookupDeviceByName h' name = if EqualFold (Name e) name then Some e else lookupDeviceByName h name.
Proof.
  intros Hl Ht He Hn Hu Hw Hr. assert (table_ok (t ++ [e])) as Ht' by (by apply table_ok_snoc).
  assert (loadDeviceTable h' = Ok (t ++ [e])) as Hl' by (eapply written; [done|done|by destruct t|done]).
  split_and!; [done|done|]. rewrite (lookup_find h' _ name Hl'), (lookup_find h _ name Hl). by apply find_name_app.
Qed.

(** A refreshed entry in its place. *)
Lemma refreshed h t i old e name h' : loadDeviceTable h = Ok t -> table_ok t -> entry_ok e -> t !! i = Some old ->
  Name e = Name old -> UID e = UID old -> writeDeviceTable h (<[i := e]> t) = Ok h' -> readable h = true ->
  loadDeviceTable h' = Ok (<[i := e]> t) /\ table_ok (<[i := e]> t) /\
  lookupDeviceByName h' name = if EqualFold (Name e) name then Some e else lookupDeviceByName h name.
Proof.
  intros Hl Ht He Hi Hn Hu Hw Hr. assert (table_ok (<[i := e]> t)) as Ht' by (by eapply table_ok_insert).
  assert (loadDeviceTable h' = Ok (<[i := e]> t)) as Hl'.
  { eapply written; [done|done| |done]. intros E. apply (f_equal length) in E. rewrite length_insert in E. by destruct t. }
  split_and!; [done|done|]. rewrite (lookup_find h' _ name Hl'), (lookup_find h _ name Hl).
  eapply find_name_insert; [done|by destruct Ht as (_ & ? & _)|done].
Qed.

(** C22: The table of known hosts stays an index. Recording a device that was reached, over a table whose names
    (in any case) and UIDs are unique, leaves such a table on the disk: the device is found under its name with
    exactly the credentials recorded, every other name resolves as before, and the name is the stored one for a
    known UID, the requested one, or the first free device<N>. A refusal leaves the file alone, and is one of:
    a rename of a known device, a name of another shape, a name that is taken, or a file that cannot be written. *)
Theorem device_remembered h t now server uid accessCode requested :
  loadDeviceTable h = Ok t -> table_ok t -> utf8_valid now -> utf8_valid server -> utf8_valid uid -> utf8_valid accessCode ->
  match recordDevice h now server uid accessCode requested with
  | (Ok (name, status), h') =>
    let e := mkEntry name uid accessCode server now in
    remembered t e status requested /\ (exists t', loadDeviceTable h' = Ok t' /\ table_ok t' /\ e ∈ t') /\
    forall n, lookupDeviceByName h' n = if EqualFold name n then Some e else lookupDeviceByName h n
  | (Err err, h') => h' = h /\ refused h t uid requested err
  end.
Proof.
  intros Hl Ht Hnow Hs Hu Ha. assert (readable h = true) as Hr by (unfold loadDeviceTable in Hl; by destruct (readable h)).
  assert (forall t' err, writeDeviceTable h t' = Err err -> err = CannotWrite /\ writable h = false) as Hw.
  { intros t' err. unfold writeDeviceTable. destruct (writable h); [done|]. by intros [= <-]. }
  unfold recordDevice. rewrite Hl. destruct (list_find _ t) as [[i old]|] eqn:Ef.
  - apply list_find_Some in Ef as (Hi & Hou & _). assert (old ∈ t) as Hin by (by eapply list_elem_of_lookup_2).
    destruct (bool_decide (requested <> []) && negb (EqualFold requested (Name old))) eqn:Eq.
    { apply andb_true_iff in Eq as [E1%bool_decide_eq_true E2%negb_true_iff]. split; [done|]. by exists old. }
    destruct (writeDeviceTable h _) as [h'|err] eqn:Ew; [|by apply Hw in Ew as [-> ?]].
    assert (entry_ok (mkEntry (Name old) uid accessCode server now)) as He.
    { split_and!; try done. destruct Ht as (HF & _). rewrite Forall_forall in HF. by destruct (HF old Hin). }
    cbv zeta. split; [by exists old|]. split.
    + destruct (refreshed h t i old _ [] h' Hl Ht He Hi eq_refl (eq_sym Hou) Ew Hr) as (H1 & H2 & _).
      eexists. split_and!; [done|done|]. apply list_elem_of_lookup_2 with i. apply list_lookup_insert_eq. by eapply lookup_lt_Some.
    + intros n. by destruct (refreshed h t i old _ n h' Hl Ht He Hi eq_refl (eq_sym Hou) Ew Hr) as (_ & _ & H3).
  - pose proof (unknown_uid t uid Ef) as Hnu.
    assert (forall name h', looksLikeDeviceName name = true -> nameTaken t name (-1) = false ->
      writeDeviceTable h (t ++ [mkEntry name uid accessCode server now]) = Ok h' ->
      (exists t', loadDeviceTable h' = Ok t' /\ table_ok t' /\ mkEntry name uid accessCode server now ∈ t') /\
      forall n, lookupDeviceByName h' n = if EqualFold name n then Some (mkEntry name uid accessCode server now) else lookupDeviceByName h n) as Hadd.
    { intros name h' Hname Hf%nameTaken_false Ew. split.
      - destruct (added h t (mkEntry name uid accessCode server now) [] h' Hl Ht) as (H1 & H2 & _); try done.
        eexists. split_and!; [done|done|]. apply elem_of_app. right. by apply list_elem_of_singleton.
      - intros n. by destruct (added h t (mkEntry name uid accessCode server now) n h' Hl Ht) as (_ & _ & H3). }
    destruct requested as [|c r].
    + destruct (autoDeviceName_lowest t) as (n & Hn & Hauto & Hfree & Hlow). rewrite Hauto.
      destruct (writeDeviceTable h _) as [h'|err] eqn:Ew; [|by apply Hw in Ew as [-> ?]].
      cbv zeta. split; [split_and!; [done|done|by exists n]|]. apply Hadd; [by apply candidate_name; lia|done|done].
    + cbn [validateDeviceName]. destruct (looksLikeDeviceName (c :: r)) eqn:El; [|by split].
      destruct (nameTaken t (c :: r) (-1)) eqn:En; [split; [done|]; split_and!; [done|done|by apply nameTaken_true]|].
      destruct (writeDeviceTable h _) as [h'|err] eqn:Ew; [|by apply Hw in Ew as [-> ?]].
      cbv zeta. split; [by split|]. by apply Hadd.
Qed.

Lemma device_remembered_witness :
  (recordDevice sample_home $"t" $"bitba.ng" $"D" $"c" $"Attic").1 = Ok ($"Attic", recordCreated) /\
  lookupDeviceByName (recordDevice sample_home $"t" $"bitba.ng" $"D" $"c" $"Attic").2 $"ATTIC" =
    Some (mkEntry $"Attic" $"D" $"c" $"bitba.ng" $"t").
Proof.
  set (entry := fun n u => mkEntry n u $"code" $"bitba.ng" $"2025-01-01T00:00:00Z").
  assert (forall s, forallb (fun c => code c <? 128) s = true -> utf8_valid s) as Ha.
  { intros s H. induction s as [|c s IH]; [constructor|]. cbn in H. apply andb_true_iff in H as [Hc%Z.ltb_lt H].
    apply utf8_valid_cons_ascii; [done|by apply IH]. }
  assert (table_ok [entry $"nas1" $"A"; entry $"device1" $"B"; entry $"device2" $"C"]) as Ht.
  { split_and!; [|apply (bool_decide_unpack _); by vm_compute..].
    repeat constructor; (apply Ha; vm_compute; reflexivity) || (vm_compute; reflexivity). }
  assert (loadDeviceTable sample_home = Ok [entry $"nas1" $"A"; entry $"device1" $"B"; entry $"device2" $"C"]) as Hl by (vm_compute; reflexivity).
  pose proof (device_remembered sample_home _ $"t" $"bitba.ng" $"D" $"c" $"Attic" Hl Ht
    (Ha $"t" eq_refl) (Ha $"bitba.ng" eq_refl) (Ha $"D" eq_refl) (Ha $"c" eq_refl)) as H.
  assert ((recordDevice sample_home $"t" $"bitba.ng" $"D" $"c" $"Attic").1 = Ok ($"Attic", recordCreated)) as E by (vm_compute; reflexivity).
  split; [exact E|]. destruct (recordDevice _ _ _ _ _ _) as [r h']. cbn [fst snd] in *. subst r.
  destruct H as (_ & _ & H). rewrite (H $"ATTIC"). vm_compute. reflexivity.
Defined.
