(* ===== verification/GoFlag.v ===== *)
(** Go's package flag, as far as the commands use it (a set that continues on errors), and the reordering that
    lets a flag follow the positional arguments (cmd/bitbang/args.go). *)

From S2P Require Import Prelude GoLib.

(** [strconv.ParseBool]. *)
Definition ParseBool (s : bytes) : option bool :=
  if bool_decide (s ∈ [$"1"; $"t"; $"T"; $"TRUE"; $"true"; $"True"]) then Some true
  else if bool_decide (s ∈ [$"0"; $"f"; $"F"; $"FALSE"; $"false"; $"False"]) then Some false
  else None.

Inductive flag_error := ErrHelp | BadSyntax (s : bytes) | NotDefined (name : bytes) | NeedsArgument (name : bytes) | BadValue (name value : bytes).

Definition dash : ascii := "-"%char.
Definition terminator : bytes := $"--".

Definition equals : ascii := "="%char.

(** A token after its dashes, cut at the first [=] that is not its first byte. *)
Fixpoint cut_value (name : bytes) : bytes * option bytes :=
  match name with
  | [] => ([], None)
  | c :: r =>
    match r with
    | d :: v => if decide (d = equals) then ([c], Some v) else let '(n, v) := cut_value r in (c :: n, v)
    | [] => ([c], None)
    end
  end.

(** What [parseOne] sees in an argument. *)
Inductive token := Terminator | Positional | Malformed | Option_ (name : bytes) (value : option bytes).

Definition read_name (name : bytes) : token :=
  match name with
  | [] => Terminator
  | c :: _ => if decide (c = dash \/ c = equals) then Malformed else let '(n, v) := cut_value name in Option_ n v
  end.

Definition read_token (a : bytes) : token :=
  match a with
  | c :: d :: r => if decide (c = dash) then read_name (if decide (d = dash) then r else d :: r) else Positional
  | _ => Positional
  end.

Section FlagSet.
Context {St : Type}.
(** The flags that are declared, those that take no argument being [true]; and the effect of a value. *)
Variable formal : bytes -> option bool.
Variable set : bytes -> bytes -> St -> option St.

Definition assign (name value : bytes) (st : St) : result flag_error St :=
  match set name value st with Some st' => Ok st' | None => Err (BadValue name value) end.

(** A flag, with the arguments after it: the state and the arguments left. *)
Definition parse_flag (name : bytes) (value : option bytes) (rest : list bytes) (st : St) : result flag_error (St * list bytes) :=
  match formal name with
  | None => Err (if bool_decide (name = $"help") || bool_decide (name = $"h") then ErrHelp else NotDefined name)
  | Some true => let! st' := assign name (default $"true" value) st in Ok (st', rest)
  | Some false =>
    match value, rest with
    | Some v, _ => let! st' := assign name v st in Ok (st', rest)
    | None, v :: rest' => let! st' := assign name v st in Ok (st', rest')
    | None, [] => Err (NeedsArgument name)
    end
  end.

(** [FlagSet.Parse]: the state and what [Args] gives. Each round takes an argument, so their number is enough. *)
Fixpoint parse_rounds (fuel : nat) (args : list bytes) (st : St) : result flag_error (St * list bytes) :=
  match fuel, args with
  | S n, a :: rest =>
    match read_token a with
    | Terminator => Ok (st, rest)
    | Positional => Ok (st, args)
    | Malformed => Err (BadSyntax a)
    | Option_ name value => let! r := parse_flag name value rest st in parse_rounds n r.2 r.1
    end
  | _, _ => Ok (st, args)
  end.

Definition Parse (args : list bytes) (st : St) : result flag_error (St * list bytes) := parse_rounds (length args) args st.

(** * args.go *)

Definition isBool (name : bytes) : bool := default false (formal name).

(** The loop of [reorderArgs], which returns [flagsOut] and [posOut]. *)
Fixpoint hoist (args : list bytes) : list bytes * list bytes :=
  match args with
  | [] => ([], [])
  | a :: rest =>
    if bool_decide (a = terminator) then ([], args)
    else if negb (HasPrefix a $"-") || bool_decide (a = $"-") then let '(f, p) := hoist rest in (f, a :: p)
    else if Contains a $"=" || isBool (trim_left [dash] a) then let '(f, p) := hoist rest in (a :: f, p)
    else match rest with
         | v :: rest' => let '(f, p) := hoist rest' in (a :: v :: f, p)
         | [] => ([a], [])
         end
  end.

Definition reorderArgs (args : list bytes) : list bytes := let '(f, p) := hoist args in f ++ p.

(** * Flags anywhere: the reading that the reordering is for *)

(** The arguments in one pass, flags taking effect where they stand: the state and the positional arguments,
    with the terminator and what follows it. *)
Fixpoint interleaved (fuel : nat) (args : list bytes) (st : St) : result flag_error (St * list bytes) :=
  match fuel, args with
  | S n, a :: rest =>
    match read_token a with
    | Terminator => Ok (st, args)
    | Positional => let! r := interleaved n rest st in Ok (r.1, a :: r.2)
    | Malformed => Err (BadSyntax a)
    | Option_ name value => let! r := parse_flag name value rest st in interleaved n r.2 r.1
    end
  | _, _ => Ok (st, args)
  end.

(** A terminator is dropped only in front. *)
Definition drop_terminator (args : list bytes) : list bytes :=
  match args with a :: r => if bool_decide (a = terminator) then r else args | [] => [] end.

Definition parse_anywhere (args : list bytes) (st : St) : result flag_error (St * list bytes) :=
  let! r := interleaved (length args) args st in Ok (r.1, drop_terminator r.2).

End FlagSet.

(** * The reordering is transparent *)

Lemma cut_value_spec s : match cut_value s with
  | (n, None) => n = s /\ (equals ∉ tail s)
  | (n, Some v) => equals ∈ s
  end.
Proof.
  induction s as [|c r IH]; [split; [done|apply not_elem_of_nil]|]. cbn [cut_value]. destruct r as [|d r'].
  - split; [done|apply not_elem_of_nil].
  - destruct (decide (d = equals)) as [->|Hd]; [by right; left|].
    destruct (cut_value (d :: r')) as [n [v|]]; [by right|]. destruct IH as [-> Hn]. split; [done|].
    cbn [tail] in *. by intros [?|?]%elem_of_cons.
Qed.

Lemma Contains_char s c : Contains s [c] = bool_decide (c ∈ s).
Proof.
  induction s as [|x s IH]; [done|]. cbn [Contains HasPrefix]. rewrite IH.
  destruct (decide (c = x)) as [<-|Hne].
  { rewrite (bool_decide_true (c = c)), (bool_decide_true (c ∈ c :: s)); [by destruct s|left|done]. }
  rewrite (bool_decide_false (c = x)) by done. cbn. apply bool_decide_ext. rewrite elem_of_cons. tauto.
Qed.

Lemma read_name_spec name : match read_name name with
  | Terminator => name = []
  | Positional => False
  | Malformed => name <> []
  | Option_ n (Some _) => name <> [] /\ equals ∈ name
  | Option_ n None => name <> [] /\ n = name /\ (equals ∉ name) /\ trim_left [dash] name = name
  end.
Proof.
  destruct name as [|c r]; [done|]. unfold read_name. destruct (decide (c = dash \/ c = equals)) as [?|Hc]; [done|].
  pose proof (cut_value_spec (c :: r)) as H. destruct (cut_value (c :: r)) as [n [v|]]; [done|]. destruct H as [-> H].
  split_and!; [done|done|intros [<-|?]%elem_of_cons; tauto|].
  cbn. rewrite decide_False; [done|]. intros ?%list_elem_of_singleton. tauto.
Qed.

(** Which branch of [hoist] an argument takes. *)
Lemma token_cases a : match read_token a with
  | Terminator => a = terminator
  | Positional => a <> terminator /\ (negb (HasPrefix a $"-") || bool_decide (a = $"-")) = true
  | Malformed => a <> terminator /\ (negb (HasPrefix a $"-") || bool_decide (a = $"-")) = false
  | Option_ name value => a <> terminator /\ (negb (HasPrefix a $"-") || bool_decide (a = $"-")) = false /\
      match value with Some _ => Contains a $"=" = true | None => Contains a $"=" = false /\ trim_left [dash] a = name end
  end.
Proof.
  change $"-" with [dash]. change $"=" with [equals]. change terminator with [dash; dash]. rewrite Contains_char. destruct a as [|x [|y r]]; [done| |].
  { cbn. destruct (decide (dash = x)) as [<-|Hx]; [done|]. by rewrite bool_decide_false. }
  cbn [read_token]. destruct (decide (x = dash)) as [->|Hx].
  2: { cbn. rewrite bool_decide_false by congruence. by split; [intros [= -> _]|]. }
  cbn [HasPrefix]. rewrite bool_decide_true by done. cbn [andb negb orb]. rewrite (bool_decide_false (_ = [dash])) by done.
  set (name := if decide (y = dash) then r else y :: r). pose proof (read_name_spec name) as H.
  assert (equals ∈ dash :: y :: r <-> equals ∈ name) as Hin.
  { assert (equals <> dash) by done. subst name. destruct (decide (y = dash)) as [->|]; rewrite !elem_of_cons; tauto. }
  assert (trim_left [dash] (dash :: y :: r) = trim_left [dash] name) as Htr.
  { subst name. cbn. rewrite decide_True by left. destruct (decide (y = dash)) as [->|Hy]; cbn; [by rewrite decide_True by left|done]. }
  assert (dash :: y :: r = [dash; dash] <-> name = []) as Ht.
  { subst name. destruct (decide (y = dash)) as [->|Hy]; split; intros E; [by injection E|by subst|by injection E|done]. }
  rewrite Htr. destruct (read_name name) as [| | |n [v|]]; [by apply Ht|done|by rewrite Ht|..].
  - destruct H as [H1 H2]. split_and!; [by rewrite Ht|done|]. apply bool_decide_eq_true. by apply Hin.
  - destruct H as (H1 & -> & H2 & H3). split_and!; [by rewrite Ht|done| |done]. apply bool_decide_eq_false. by rewrite Hin.
Qed.
Section Reorder.
Context {St : Type} (formal : bytes -> option bool) (set : bytes -> bytes -> St -> option St).

(** Arguments at which [Parse] stops. *)
Definition stops (args : list bytes) : Prop :=
  match args with [] => True | a :: _ => read_token a = Terminator \/ read_token a = Positional end.

Lemma parse_stops k args (st : St) : stops args -> (length args <= k)%nat ->
  parse_rounds formal set k args st = Ok (st, drop_terminator args).
Proof.
  destruct args as [|a r]; intros Hs Hk; [by destruct k|]. destruct k as [|k]; [cbn in Hk; lia|]. cbn [parse_rounds drop_terminator].
  pose proof (token_cases a) as H. destruct Hs as [E|E]; rewrite E in *.
  - by rewrite H, bool_decide_true.
  - destruct H as [H _]. by rewrite bool_decide_false.
Qed.

(** What the hoisted flags do, whatever arguments without flags follow them. *)
Definition hoisted (F P : list bytes) (st : St) (r : result flag_error (St * list bytes)) : Prop :=
  match r with
  | Ok (st', P') => P' = P /\ stops P /\
      forall T k, stops T -> (length (F ++ T) <= k)%nat -> parse_rounds formal set k (F ++ T) st = Ok (st', drop_terminator T)
  | Err (NeedsArgument _) => True
  | Err e => forall T k, (length (F ++ T) <= k)%nat -> parse_rounds formal set k (F ++ T) st = Err e
  end.

(** A flag whose arguments are hoisted as a unit. *)
Lemma hoisted_flag a name value unit_ F P st st' r :
  read_token a = Option_ name value -> (forall T, parse_flag formal set name value (unit_ ++ T) st = Ok (st', T)) ->
  hoisted F P st' r -> hoisted (a :: unit_ ++ F) P st r.
Proof.
  intros Ha Hp Hr. assert (forall T k, (length ((a :: unit_ ++ F) ++ T) <= k)%nat -> exists k', (length (F ++ T) <= k')%nat /\
    parse_rounds formal set k ((a :: unit_ ++ F) ++ T) st = parse_rounds formal set k' (F ++ T) st') as Hstep.
  { intros T k Hk. destruct k as [|k]; [cbn in Hk; lia|]. exists k. cbn [app length] in Hk. rewrite <- app_assoc, length_app in Hk.
    split; [lia|]. cbn [app parse_rounds]. by rewrite Ha, <- app_assoc, Hp. }
  unfold hoisted in *. destruct r as [[st2 P']|e].
  - destruct Hr as (-> & Hs & Hr). split_and!; [done|done|]. intros T k HT Hk. destruct (Hstep T k Hk) as (k' & Hk' & ->). by apply Hr.
  - destruct e; try done; intros T k Hk; destruct (Hstep T k Hk) as (k' & Hk' & ->); by apply Hr.
Qed.

(** A first argument that ends the parse. *)
Lemma hoisted_error a unit_ F P st e : (forall rest k, parse_rounds formal set (S k) (a :: unit_ ++ rest) st = Err e) ->
  hoisted (a :: unit_ ++ F) P st (Err e).
Proof.
  intros H. unfold hoisted. destruct e; try done;
    (intros T k Hk; destruct k as [|k]; [cbn in Hk; lia|]; cbn [app]; rewrite <- app_assoc; apply H).
Qed.

Lemma hoisted_spec n : forall args st, (length args <= n)%nat ->
  hoisted (hoist formal args).1 (hoist formal args).2 st (interleaved formal set n args st).
Proof.
  assert (forall st, hoisted [] [] st (Ok (st, []))) as H0.
  { intros st. split_and!; [done|done|]. intros T k HT Hk. by apply parse_stops. }
  induction n as [|n IH]; intros args st Hn.
  { destruct args; [apply H0|cbn in Hn; lia]. }
  destruct args as [|a rest]; [apply H0|]. cbn [interleaved hoist]. cbn [length] in Hn. pose proof (token_cases a) as Hc.
  destruct (read_token a) as [| | |name value] eqn:Ea.
  - rewrite bool_decide_true by done. split_and!; [done|by left|]. intros T k HT Hk. by apply parse_stops.
  - destruct Hc as [H1 H2]. rewrite bool_decide_false, H2 by done. specialize (IH rest st ltac:(lia)).
    destruct (hoist formal rest) as [F P]. cbn [fst snd] in *. destruct (interleaved formal set n rest st) as [[st' P']|e]; [|exact IH].
    destruct IH as (-> & Hs & HT). split_and!; [done|by right|exact HT].
  - destruct Hc as [H1 H2]. rewrite bool_decide_false, H2 by done.
    assert (forall F P, hoisted (a :: F) P st (Err (BadSyntax a))) as He.
    { intros F P. apply (hoisted_error a []). intros r k. cbn [parse_rounds]. by rewrite Ea. }
    destruct (Contains a $"=" || isBool formal (trim_left [dash] a)); [destruct (hoist formal rest); apply He|]. destruct rest as [|v rest]; [apply He|]. destruct (hoist formal rest); apply He.
  - destruct Hc as (H1 & H2 & Hv). rewrite bool_decide_false, H2 by done.
    assert (forall e F P, (forall r, parse_flag formal set name value r st = Err e) -> hoisted (a :: F) P st (Err e)) as He.
    { intros e F P H. apply (hoisted_error a []). intros r k. cbn [parse_rounds]. by rewrite Ea, H. }
    assert (forall st' F P, (forall T, parse_flag formal set name value T st = Ok (st', T)) ->
      hoisted F P st' (interleaved formal set n rest st') -> hoisted (a :: F) P st (interleaved formal set n rest st')) as H1flag.
    { intros st' F P Hp. by apply (hoisted_flag a name value []). }
    destruct (Contains a $"=" || isBool formal (trim_left [dash] a)) eqn:Eb.
    + specialize (IH rest). destruct (hoist formal rest) as [F P]. cbn [fst snd] in *.
      assert (forall v, (forall r, parse_flag formal set name value r st = (let! st' := assign set name v st in Ok (st', r))) ->
        hoisted (a :: F) P st (let! r := parse_flag formal set name value rest st in interleaved formal set n r.2 r.1)) as Hset.
      { intros v Hp. rewrite Hp. destruct (assign set name v st) as [st'|e] eqn:Es; cbn [result_bind fst snd].
        - apply H1flag; [|apply IH; lia]. intros T. by rewrite Hp.
        - apply He. intros r. by rewrite Hp. }
      unfold parse_flag in *. destruct (formal name) as [[]|] eqn:Ef.
      * by apply (Hset (default $"true" value)).
      * destruct value as [v|]; [by apply (Hset v)|]. destruct Hv as [Hv Hn']. rewrite Hv, Hn' in Eb. unfold isBool in Eb. by rewrite Ef in Eb.
      * apply He. done.
    + apply orb_false_iff in Eb as [Ec Eb]. destruct value as [v|]; [congruence|]. destruct Hv as [_ Hv]. rewrite Hv in Eb. unfold isBool in Eb.
      unfold parse_flag in *. destruct (formal name) as [[]|] eqn:Ef; [done| |].
      * destruct rest as [|v rest]; [done|]. specialize (IH rest). destruct (hoist formal rest) as [F P]. cbn [fst snd] in *.
        destruct (assign set name v st) as [st'|e] eqn:Es; cbn [result_bind fst snd].
        -- apply (hoisted_flag a name None [v] F P st st'); [done| |apply IH; cbn in Hn; lia]. intros T. unfold parse_flag. cbn [app]. by rewrite Ef, Es.
        -- apply (hoisted_error a [v]). intros r k. cbn [parse_rounds app]. rewrite Ea. unfold parse_flag. by rewrite Ef, Es.
      * destruct rest as [|v rest]; [|destruct (hoist formal rest)]; apply He; done.
Qed.

(** C23: A flag may stand anywhere. Parsing the reordered arguments is reading the arguments in one pass, each
    flag where it stands with its own argument: the same assignments in the same order, the same error, the
    positional arguments in their order, and everything from a lone -- on left literal. The one exception is a
    last flag without its argument, which takes the first positional argument for it. *)
Theorem reorder_transparent args st :
  (forall name, parse_anywhere formal set args st <> Err (NeedsArgument name)) ->
  Parse formal set (reorderArgs formal args) st = parse_anywhere formal set args st.
Proof.
  unfold parse_anywhere, Parse, reorderArgs. pose proof (hoisted_spec (length args) args st ltac:(lia)) as H.
  destruct (hoist formal args) as [F P]. cbn [fst snd] in H. intros Hna.
  destruct (interleaved formal set (length args) args st) as [[st' P']|e]; cbn [result_bind fst snd] in *.
  - destruct H as (-> & Hs & H). by apply H.
  - destruct e; try (by apply H). by destruct (Hna name).
Qed.

End Reorder.

Section Sample.
Definition sample_formal (name : bytes) : option bool :=
  if bool_decide (name = $"v") then Some true else if bool_decide (name ∈ [$"pin"; $"name"]) then Some false else None.
Definition sample_set (name value : bytes) (st : list (bytes * bytes)) : option (list (bytes * bytes)) := Some (st ++ [(name, value)]).

Example reorder_sample :
  reorderArgs sample_formal [$"URL"; $"--pin"; $"12"; $"-"; $"-v"; $"--name=x"; $"--"; $"ls"; $"-l"] =
    [$"--pin"; $"12"; $"-v"; $"--name=x"; $"URL"; $"-"; $"--"; $"ls"; $"-l"] /\
  Parse sample_formal sample_set (reorderArgs sample_formal [$"URL"; $"--pin"; $"12"; $"-v"; $"--"; $"ls"]) [] =
    Ok ([($"pin", $"12"); ($"v", $"true")], [$"URL"; $"--"; $"ls"]) /\
  Parse sample_formal sample_set [$"--=x"] [] = Err (BadSyntax $"--=x") /\
  Parse sample_formal sample_set [$"-h"] [] = Err ErrHelp.
Proof. vm_compute. done. Qed.
End Sample.

Lemma reorder_transparent_witness :
  Parse sample_formal sample_set (reorderArgs sample_formal [$"URL"; $"--pin"; $"12"; $"-v"; $"--"; $"ls"; $"-l"]) [] =
    Ok ([($"pin", $"12"); ($"v", $"true")], [$"URL"; $"--"; $"ls"; $"-l"]).
Proof.
  rewrite (reorder_transparent sample_formal sample_set [$"URL"; $"--pin"; $"12"; $"-v"; $"--"; $"ls"; $"-l"] []);
    [vm_compute; reflexivity|intros name; vm_compute; discriminate].
Defined.

(** A last flag without its argument swallows the first positional argument instead of being refused. *)
Lemma trailing_flag_takes_target :
  parse_anywhere sample_formal sample_set [$"URL"; $"other"; $"-name"] [] = Err (NeedsArgument $"name") /\
  Parse sample_formal sample_set (reorderArgs sample_formal [$"URL"; $"other"; $"-name"]) [] = Ok ([($"name", $"URL")], [$"other"]).
Proof. vm_compute. done. Qed.
