(* ===== verification/Connect.v ===== *)
(** The targets of the connector's commands and the run of [bitbang connect]: the options and the three shapes of
    its argument (cmd/bitbang/connect.go), the remote side of [bitbang cp] (cmd/bitbang/cp.go), and what a
    successful pairing prints (cmd/bitbang/connect_pair.go).

    The network is an input: what a pairing ends with, whether the dial succeeds and what the listener then
    offers, and how the remote shell exits. *)

From stdpp Require Import list.
From S2P Require Import Prelude GoLib GoHttp Wire JsonRoundTrip Json GoUrl GoFlag GoTime Devices TcpForward Signaling Protocol.

Record remoteSpec := mkSpec { Server : bytes; UID : bytes; Code : bytes; Path : bytes; Ephemeral : bool }.

#[export] Instance remoteSpec_eq_dec : EqDecision remoteSpec.
Proof. solve_decision. Defined.

(** [pairCodePattern]: six decimal digits. *)
Definition isPairCode (s : bytes) : bool := bool_decide (length s = 6%nat) && forallb is_digit s.

(** * URLs *)

Definition default_server : bytes := $"bitba.ng".

(** A text without a scheme, or with nothing but a UID. *)
Definition normalize (urlPart : bytes) : bytes :=
  if Contains urlPart $"://" then urlPart
  else $"https://" ++ (if Contains urlPart $"/" then urlPart else default_server ++ $"/" ++ urlPart).

(** The first segment of a path. *)
Definition first_segment (path : bytes) : bytes :=
  let uid := TrimPrefix path $"/" in match IndexByte uid slash with Some i => take i uid | None => uid end.

(** The common part of [parseConnectURL] and [parseRemoteSpec]. *)
Definition parse_target (urlPart path : bytes) : option remoteSpec :=
  match GoUrl.Parse (normalize urlPart) with
  | Err _ => None
  | Ok u =>
    if bool_decide (GoUrl.Host u = []) then None
    else match first_segment (UrlPath u) with
         | [] => None
         | uid => let '(code, flags) := ParseFragment (Fragment u) in
                  Some (mkSpec (GoUrl.Host u) uid code path (HasFlag flags $"ephemeral"))
         end
  end.

Definition parseConnectURL (arg : bytes) : option remoteSpec := parse_target arg [].

(** Where an argument of cp splits: the first [:/] that is not part of the scheme separator. *)
Definition split_path (arg : bytes) : option (bytes * bytes) :=
  let offset := match Index arg $"://" with Some i => (i + 3)%nat | None => O end in
  match Index (drop offset arg) $":/" with
  | None => None
  | Some rel => Some (take (offset + rel) arg, drop (S (offset + rel)) arg)
  end.

Definition entry_spec (e : deviceEntry) (path : bytes) : remoteSpec :=
  mkSpec (Devices.Server e) (Devices.UID e) (AccessCode e) path false.

Definition parseRemoteSpec (h : home) (arg : bytes) : option remoteSpec :=
  match split_path arg with
  | None => None
  | Some (urlPart, rest) =>
    match (if looksLikeDeviceName urlPart then lookupDeviceByName h urlPart else None) with
    | Some ent => Some (entry_spec ent rest)
    | None => parse_target urlPart rest
    end
  end.

(** * cp *)

(** [runCp]: which way a copy goes. *)
Inductive copy := BothRemote | NeitherRemote | Get (remote : remoteSpec) (dstLocal : bytes) | Put (srcLocal : bytes) (remote : remoteSpec).

Definition runCp (h : home) (srcArg dstArg : bytes) : copy :=
  match parseRemoteSpec h srcArg, parseRemoteSpec h dstArg with
  | Some _, Some _ => BothRemote
  | None, None => NeitherRemote
  | Some src, None => Get src dstArg
  | None, Some dst => Put srcArg dst
  end.

(** [runCpGet]: the file that is created; [None] is standard output. *)
Definition get_destination (remote : remoteSpec) (dstLocal : bytes) : option bytes :=
  if bool_decide (dstLocal = $"-") then None
  else if bool_decide (dstLocal = $".") || HasSuffix dstLocal $"/" then
    let base := Base (Path remote) in
    let base := if bool_decide (base = [] \/ base = $"/") then $"download" else base in
    Some (if bool_decide (dstLocal = $".") then base else Join dstLocal base)
  else Some dstLocal.

(** [runCpPut]: the remote path of an upload. *)
Definition put_path (srcLocal : bytes) (remote : remoteSpec) : bytes :=
  let basename := if bool_decide (srcLocal = $"-") then $"stdin" else Base srcLocal in
  if bool_decide (Path remote = []) || HasSuffix (Path remote) $"/" then Path remote ++ basename else Path remote.

(** [makePINPrompt]: the PIN of the command line once, then the terminal. *)
Definition makePINPrompt (suppliedPIN : bytes) (terminal : nat -> option bytes) (retry : nat) : option bytes :=
  if bool_decide (retry = O) && bool_decide (suppliedPIN <> []) then Some suppliedPIN else terminal retry.

Definition hasCap (caps : list bytes) (want : bytes) : bool := existsb (fun c => bool_decide (c = want)) caps.

(** * Options of connect *)

Record connectOptions := mkOptions {
  verbose : bool; timeout : Z; pin : bytes; server : bytes; name : bytes; relay : bool; norelay : bool; nosave : bool;
  gateway : bool; forwards : list Forward; target : bytes; argv : list bytes
}.

#[export] Instance eta_connectOptions : Eta connectOptions := fun o =>
  mkOptions (verbose o) (timeout o) (pin o) (server o) (name o) (relay o) (norelay o) (nosave o) (gateway o) (forwards o) (target o) (argv o).

Definition default_options : connectOptions :=
  mkOptions false 30000000000 [] default_server [] false false false false [] [] [].

Definition connect_formal (flag : bytes) : option bool :=
  if bool_decide (flag ∈ [$"v"; $"relay"; $"norelay"; $"nosave"; $"g"]) then Some true
  else if bool_decide (flag ∈ [$"timeout"; $"pin"; $"server"; $"name"; $"L"]) then Some false
  else None.

Definition connect_set (flag value : bytes) (o : connectOptions) : option connectOptions :=
  if bool_decide (flag = $"v") then (fun b => o <| verbose := b |>) <$> ParseBool value
  else if bool_decide (flag = $"relay") then (fun b => o <| relay := b |>) <$> ParseBool value
  else if bool_decide (flag = $"norelay") then (fun b => o <| norelay := b |>) <$> ParseBool value
  else if bool_decide (flag = $"nosave") then (fun b => o <| nosave := b |>) <$> ParseBool value
  else if bool_decide (flag = $"g") then (fun b => o <| gateway := b |>) <$> ParseBool value
  else if bool_decide (flag = $"timeout") then (fun d => o <| timeout := d |>) <$> ParseDuration value
  else if bool_decide (flag = $"pin") then Some (o <| pin := value |>)
  else if bool_decide (flag = $"server") then Some (o <| server := value |>)
  else if bool_decide (flag = $"name") then Some (o <| name := value |>)
  else match parseLocalForward value with Ok f => Some (o <| forwards := forwards o ++ [f] |>) | Err _ => None end.

Inductive option_error := Flags (e : flag_error) | GatewayAlone | OppositeRelays | NameUnsaved | MissingTarget | ForwardWithCommand.

(** The arguments after the first [--] past the target. *)
Fixpoint after_terminator (args : list bytes) : list bytes :=
  match args with [] => [] | a :: r => if bool_decide (a = terminator) then r else after_terminator r end.

Definition parseConnectOptions (args : list bytes) : result option_error connectOptions :=
  match GoFlag.Parse connect_formal connect_set (reorderArgs connect_formal args) default_options with
  | Err e => Err (Flags e)
  | Ok (o, posArgs) =>
    if gateway o && bool_decide (forwards o = []) then Err GatewayAlone
    else if relay o && norelay o then Err OppositeRelays
    else if nosave o && bool_decide (name o <> []) then Err NameUnsaved
    else match posArgs with
         | [] => Err MissingTarget
         | t :: rest =>
           let o := o <| target := t |> <| argv := after_terminator rest |> in
           if bool_decide (forwards o <> []) && bool_decide (argv o <> []) then Err ForwardWithCommand else Ok o
         end
  end.

Example parseConnectOptions_sample :
  ((fun o => (target o, argv o, name o, map ForwardString (forwards o), gateway o)) <$> Some (from_result default_options
     (parseConnectOptions [$"bitba.ng/u#c"; $"-L"; $"8080:h:80"; $"-L=81:[::1]:81"; $"-g"; $"--name"; $"nas"])),
   (fun o => (target o, argv o)) <$> Some (from_result default_options (parseConnectOptions [$"u#c"; $"-v"; $"--"; $"ls"; $"-v"])),
   parseConnectOptions [$"u#c"; $"-g"], parseConnectOptions [$"u#c"; $"-nosave"; $"-name"; $"x"],
   parseConnectOptions [$"-timeout"; $"5x"; $"u"], parseConnectOptions [$"-v"]) =
  (Some ($"bitba.ng/u#c", [], $"nas", [$"8080:h:80"; $"81:[::1]:81"], true), Some ($"u#c", [$"ls"; $"-v"]),
   Err GatewayAlone, Err NameUnsaved, Err (Flags (BadValue $"timeout" $"5x")), Err MissingTarget).
Proof. vm_compute. reflexivity. Qed.

(** * The run of connect *)

(** [handlePairOutcome] on a success: the URL that is printed, and what the connector goes on with. *)
Definition pair_url (server uid code : bytes) : bytes := $"https://" ++ server ++ $"/" ++ uid ++ $"#" ++ code.
Definition paired_spec (server uid code : bytes) : remoteSpec := mkSpec server uid code [] false.

(** What the outside does: how a pairing with a code at a server ends (the name of the device and its access
    code), what a listener that was reached offers and grants, whether the local ports open, whether the session
    or a signal ends the forwarding, and how the remote shell ends (its signal and its exit code). *)
Record world := mkWorld {
  pair : bytes -> bytes -> option (bytes * bytes);
  dial : remoteSpec -> option (list bytes * Access);
  ports_open : bool; session_closed : bool; stdin_tty : bool; shell_ends : option (bytes * Z)
}.

(** [setupViewOnly], [setupInteractive], [setupNonInteractive]. *)
Inductive shell_mode := ViewOnly | Interactive | Piped.

Inductive act :=
| Pairing (code server : bytes)
| Dialing (rs : remoteSpec) (capability : bytes)
| Recording (rs : remoteSpec) (name : bytes)
| Forwarding (fs : list Forward) (gateway : bool)
| Shelling (mode : shell_mode) (argv : list bytes)
| Exit (status : Z)
| Return.

(** [recordAndReport]: a table that cannot be updated is not fatal. *)
Definition recordAndReport (h : home) (now : bytes) (rs : remoteSpec) (name : bytes) : home :=
  (recordDevice h now (Server rs) (UID rs) (Code rs) name).2.

Definition capability_wanted (o : connectOptions) : bytes := if bool_decide (forwards o <> []) then $"tcp" else $"shell".

Definition mode_of (w : world) (o : connectOptions) (access : Access) : shell_mode :=
  match access with
  | AccessView => ViewOnly
  | _ => if stdin_tty w && bool_decide (argv o = []) then Interactive else Piped
  end.

Definition exit_status (ends : option (bytes * Z)) : Z :=
  match ends with None => 1 | Some (signal, code) => if bool_decide (signal <> []) then 128 else code end.

(** [runConnect] from the dial on. *)
Definition connect_session (w : world) (h : home) (now : bytes) (o : connectOptions) (rs : remoteSpec) (saved : bool) : list act * home :=
  let capability := capability_wanted o in
  let dialing := [Dialing rs capability] in
  match dial w rs with
  | None => (dialing ++ [Exit 1], h)
  | Some (caps, access) =>
    if negb (hasCap caps capability) then (dialing ++ [Exit 1], h)
    else if bool_decide (forwards o <> []) && negb (ports_open w) then (dialing ++ [Exit 1], h)
    else
      let forwarding := if bool_decide (forwards o <> []) then [Forwarding (forwards o) (gateway o)] else [] in
      let record := negb (saved || nosave o || Ephemeral rs) in
      let h' := if record then recordAndReport h now rs (name o) else h in
      let recording := if record then [Recording rs (name o)] else [] in
      let rest := if bool_decide (forwards o <> []) then [if session_closed w then Exit 1 else Return]
                  else [Shelling (mode_of w o access) (argv o); Exit (exit_status (shell_ends w))] in
      (dialing ++ forwarding ++ recording ++ rest, h')
  end.

(** The check of [-name] before anything is dialed. *)
Definition name_refused (h : home) (o : connectOptions) : bool :=
  let urlArg := target o in
  let isURL := bool_decide (is_Some (parseConnectURL urlArg)) && negb (looksLikeDeviceName urlArg) && negb (isPairCode urlArg) in
  let ephemeralURL := isURL && match parseConnectURL urlArg with Some rs => Ephemeral rs | None => false end in
  bool_decide (name o <> []) && negb ephemeralURL &&
    (negb (is_ok (validateDeviceName (name o))) || bool_decide (is_Some (lookupDeviceByName h (name o)))).

Definition runConnect (w : world) (h : home) (now : bytes) (o : connectOptions) : list act * home :=
  let urlArg := target o in
  if name_refused h o then ([Exit 1], h)
  else if looksLikeDeviceName urlArg then
    match lookupDeviceByName h urlArg with
    | None => ([Exit 1], h)
    | Some ent => if bool_decide (name o <> []) then ([Exit 1], h) else connect_session w h now o (entry_spec ent []) true
    end
  else if isPairCode urlArg then
    match pair w urlArg (server o) with
    | None => ([Pairing urlArg (server o); Exit 1], h)
    | Some (uid, code) =>
      let rs := paired_spec (server o) uid code in
      let h' := if nosave o then h else recordAndReport h now rs (name o) in
      let recording := if nosave o then [] else [Recording rs (name o)] in
      let '(acts, h'') := connect_session w h' now o rs true in
      (Pairing urlArg (server o) :: recording ++ acts, h'')
    end
  else match parseConnectURL urlArg with
       | None => ([Exit 1], h)
       | Some rs => connect_session w h now o rs false
       end.

(** What connect does with its argument: the printed URLs come back as the device they name, each shape of the
    argument is dialed with its own credentials, and nothing is saved that should not be. *)

(** * URLs that are printed come back *)

(** The characters of UIDs and codes, of host names, and a server: a host name and maybe a port. *)
Definition id_text (s : bytes) : Prop := s <> [] /\ Forall (fun c => isCodeByte c = true) s.
Definition host_char (c : ascii) : bool := alnum c || is_char 45 c || is_char 46 c.
Definition server_text (s : bytes) : Prop :=
  exists h p, s = h ++ p /\ h <> [] /\ Forall (fun c => host_char c = true) h /\
    (p = [] \/ exists d, d <> [] /\ Forall (fun c => is_digit c = true) d /\ p = colon :: d).

(** Characters with no meaning in a URL: what servers and UIDs are made of, and the fragment of a device. *)
Definition url_char (c : ascii) : bool := host_char c || is_char 95 c || is_char 58 c.
Definition fragment_char (c : ascii) : bool := url_char c || is_char 33 c || is_char 44 c.

Lemma drop_past {A} (a b : list A) c : drop (S (length a)) (a ++ c :: b) = b.
Proof. induction a as [|x a IH]; [done|exact IH]. Qed.

Lemma Cut_app a b c : c ∉ a -> Cut (a ++ c :: b) c = (a, b).
Proof. intros H. unfold Cut. by rewrite IndexByte_app, take_app_length, drop_past. Qed.

Lemma Cut_none a c : c ∉ a -> Cut a c = (a, []).
Proof. intros H. unfold Cut. by rewrite (proj2 (IndexByte_none a c)). Qed.

Lemma chars_avoid (p : ascii -> bool) c s : p c = false -> Forall (fun x => p x = true) s -> c ∉ s.
Proof. intros Hc Hs Hin. rewrite Forall_forall in Hs. specialize (Hs c Hin). congruence. Qed.

Lemma chars_mono (p q : ascii -> bool) s : (forall c, p c = true -> q c = true) -> Forall (fun x => p x = true) s -> Forall (fun x => q x = true) s.
Proof. intros H Hs. eapply Forall_impl; [exact Hs|]. auto. Qed.

(** Every byte is checked. *)
Lemma all_bytes (p : ascii -> bool) : forallb p (map (fun n => chr (Z.of_nat n)) (seq 0 256)) = true -> forall c, p c = true.
Proof.
  intros H c. rewrite forallb_forall in H. apply H, in_map_iff. pose proof (Z_of_byte_range c).
  exists (Z.to_nat (code c)). unfold code in *. split; [|apply in_seq; lia]. rewrite Z2Nat.id by lia. apply byte_of_Z_of_byte.
Qed.

(** One class of characters within another, checked on every byte. *)
Lemma chars_within (p q : ascii -> bool) s : forallb (fun c => negb (p c) || q c) (map (fun n => chr (Z.of_nat n)) (seq 0 256)) = true ->
  Forall (fun x => p x = true) s -> Forall (fun x => q x = true) s.
Proof.
  intros H. apply chars_mono. intros c Hc. pose proof (all_bytes (fun c => negb (p c) || q c) H c) as Hq. cbn in Hq. by rewrite Hc in Hq.
Qed.

Lemma unescape_no_percent s : "%"%char ∉ s -> unescape s = Some s.
Proof.
  induction s as [|c s IH]; intros H; [done|]. apply not_elem_of_cons in H as [Hc Hs]. cbn [unescape].
  rewrite IH by done. destruct c as [[] [] [] [] [] [] [] []]; try done; by destruct Hc.
Qed.

Lemma unescape_host_safe zone s : "%"%char ∉ s -> Forall (fun c => host_safe c = true) s -> unescape_host zone s = Ok s.
Proof.
  intros Hp Hs. induction Hs as [|c s Hc _ IH]; [done|]. apply not_elem_of_cons in Hp as [Hne Hp]. cbn [unescape_host].
  rewrite IH by done. rewrite Hc. cbn [negb]. rewrite andb_false_r. destruct c as [[] [] [] [] [] [] [] []]; try done; by destruct Hne.
Qed.

Lemma server_chars s : server_text s -> s <> [] /\ Forall (fun c => url_char c = true) s /\ HasPrefix s $"[" = false.
Proof.
  intros (h & p & -> & Hh & Hc & Hp). assert (Forall (fun c => url_char c = true) h) as H1 by (eapply chars_within; [|exact Hc]; vm_compute; reflexivity).
  destruct h as [|c h]; [done|]. split_and!; [done| |].
  - apply Forall_app. split; [done|]. destruct Hp as [->|(d & _ & Hd & ->)]; [constructor|]. constructor; [done|].
    eapply chars_within; [|exact Hd]. vm_compute. reflexivity.
  - change $"[" with ["["%char]. cbn [app HasPrefix]. apply Forall_cons in Hc as [Hc _]. rewrite bool_decide_false; [done|]. intros <-. done.
Qed.

Lemma parse_server s : server_text s -> parseAuthority s = Ok s.
Proof.
  intros Hs. destruct (server_chars s Hs) as (_ & Hc & Hb). unfold parseAuthority, parseHost.
  rewrite LastIndexByte_none by (eapply chars_avoid; [|exact Hc]; done). rewrite Hb.
  assert (unescape_host false s = Ok s) as Hu.
  { apply unescape_host_safe; [eapply chars_avoid; [|exact Hc]; done|]. eapply chars_within; [|exact Hc]. vm_compute. reflexivity. }
  destruct Hs as (h & p & -> & Hh & Hhc & [->|(d & Hne & Hd & ->)]).
  - rewrite app_nil_r in *. rewrite LastIndexByte_none; [done|]. eapply chars_avoid; [|exact Hhc]. done.
  - rewrite LastIndexByte_app by (eapply chars_avoid; [|exact Hd]; done). rewrite drop_app_length. cbn [validOptionalPort].
    rewrite (proj2 (forallb_forall _ _)); [done|]. intros x Hx%list_elem_of_In. rewrite Forall_forall in Hd. by apply Hd.
Qed.

Lemma getScheme_https rest : getScheme ($"https:" ++ rest) = Ok ($"https", rest).
Proof. reflexivity. Qed.

Lemma existsb_chars (p : ascii -> bool) s : Forall (fun c => p c = false) s -> existsb p s = false.
Proof. induction 1 as [|c s Hc _ IH]; [done|]. cbn. by rewrite Hc. Qed.

Lemma Count_none s c : c ∉ s -> Count s c = 0.
Proof.
  intros H. unfold Count. induction s as [|x s IH]; [done|]. apply not_elem_of_cons in H as [H1 H2].
  rewrite filter_cons_False by congruence. by apply IH.
Qed.

Lemma lit_chars (p : ascii -> bool) s : forallb p s = true -> Forall (fun c => p c = true) s.
Proof. intros H. apply Forall_forall. rewrite forallb_forall in H. intros x Hx. by apply H, list_elem_of_In. Qed.

Lemma https_chars (p : ascii -> bool) server uid : (forall c, url_char c || is_char 47 c = true -> p c = true) ->
  Forall (fun c => url_char c = true) server -> Forall (fun c => url_char c = true) uid ->
  Forall (fun c => p c = true) ($"https:" ++ $"//" ++ server ++ slash :: uid).
Proof.
  intros H Hs Hu. apply (chars_mono (fun c => url_char c || is_char 47 c)); [done|].
  apply Forall_app. split; [by apply lit_chars|]. apply Forall_app. split; [by apply lit_chars|].
  apply Forall_app. split; [|constructor; [done|]]; (eapply chars_mono; [|eassumption]; by intros c ->).
Qed.

(** A device of a server, as it is written in a URL. *)
Lemma parse_device server uid : server_text server -> Forall (fun c => url_char c = true) uid ->
  parse_url ($"https:" ++ $"//" ++ server ++ slash :: uid) = Ok (mkParsed server (slash :: uid) []).
Proof.
  intros Hs Hu. destruct (server_chars server Hs) as (Hne & Hc & _). set (rest := $"//" ++ server ++ slash :: uid).
  set (raw_char := fun c => url_char c || is_char 47 c).
  assert (Forall (fun c => raw_char c = true) ($"https:" ++ rest)) as Hraw.
  { by apply https_chars. }
  assert (Forall (fun c => raw_char c = true) rest) as Hrest by (by apply Forall_app in Hraw as [_ ?]).
  assert ("?"%char ∉ rest) as Hq by (eapply chars_avoid; [|exact Hrest]; done).
  unfold parse_url. rewrite existsb_chars.
  2: { eapply Forall_impl; [exact Hraw|]. intros c H. destruct (control c) eqn:E; [|done]. exfalso.
       pose proof (all_bytes (fun c => negb (raw_char c && control c)) ltac:(vm_compute; reflexivity) c) as Hx. cbn beta in Hx. by rewrite H, E in Hx. }
  rewrite bool_decide_false by done. rewrite getScheme_https. cbn [result_bind]. rewrite Count_none, andb_false_r, Cut_none by done. cbn [fst].
  assert (HasPrefix rest $"/" = true) as -> by reflexivity. 
  assert (HasPrefix rest $"//" = true) as -> by (change (HasPrefix (server ++ slash :: uid) [] = true); by destruct (server ++ slash :: uid)).
  cbn [negb andb].
  rewrite (bool_decide_true ($"https" <> [])) by done. cbn [orb andb]. change (drop 2 rest) with (server ++ slash :: uid).
  rewrite IndexByte_app by (eapply chars_avoid; [|exact Hc]; done). rewrite take_app_length, drop_app_length.
  rewrite parse_server by done. cbn [result_bind fst snd]. unfold unescape_part. rewrite unescape_no_percent; [done|].
  eapply (chars_avoid raw_char); [done|]. constructor; [done|]. eapply chars_mono; [|exact Hu]. unfold raw_char. by intros c ->.
Qed.

(** The whole URL, with its fragment. *)
Lemma Parse_device server uid frag : server_text server -> Forall (fun c => url_char c = true) uid -> "%"%char ∉ frag ->
  GoUrl.Parse ($"https:" ++ $"//" ++ server ++ slash :: uid ++ "#"%char :: frag) = Ok (mkParsed server (slash :: uid) frag).
Proof.
  intros Hs Hu Hf. unfold GoUrl.Parse. destruct (server_chars server Hs) as (_ & Hc & _).
  replace ($"https:" ++ $"//" ++ server ++ slash :: uid ++ "#"%char :: frag) with (($"https:" ++ $"//" ++ server ++ slash :: uid) ++ "#"%char :: frag)
    by (by rewrite <- !app_assoc).
  rewrite Cut_app.
  - rewrite parse_device by done. cbn [result_bind]. unfold unescape_part. by rewrite unescape_no_percent.
  - eapply (chars_avoid (fun c => url_char c || is_char 47 c)); [done|]. by apply https_chars.
Qed.

(** * Finding the pieces again *)

Lemma HasPrefix_nil s : HasPrefix s [] = true.
Proof. by destruct s. Qed.

Lemma HasPrefix_count s sub c : HasPrefix s sub = true -> Count sub c <= Count s c.
Proof.
  unfold Count, zlen. revert sub. induction s as [|x s IH]; intros [|y sub]; [done|done|intros _; rewrite filter_nil; cbn [length]; lia|]. cbn [HasPrefix].
  intros [->%bool_decide_eq_true H]%andb_true_iff. specialize (IH sub H). rewrite !filter_cons. destruct (decide (x = c)); cbn [length]; lia.
Qed.

Lemma Contains_count s sub c : Contains s sub = true -> Count sub c <= Count s c.
Proof.
  induction s as [|x s IH]; cbn [Contains]; intros [H|H]%orb_true_iff; try done; [by apply HasPrefix_count|by apply HasPrefix_count|].
  specialize (IH H). unfold Count, zlen in *. rewrite filter_cons. destruct (decide (x = c)); cbn [length]; lia.
Qed.

(** Two different characters in a row are found where they first are. *)
Lemma Index_pair x y a b : x <> y -> Contains a [x; y] = false -> Index (a ++ x :: y :: b) [x; y] = Some (length a).
Proof.
  intros Hne. induction a as [|c a IH]; intros Hc.
  - cbn. by rewrite (bool_decide_true (x = x)), (bool_decide_true (y = y)), HasPrefix_nil.
  - cbn [Contains] in Hc. apply orb_false_iff in Hc as [Hp Hc]. cbn [app Index].
    assert (HasPrefix (c :: a ++ x :: y :: b) [x; y] = false) as ->.
    { cbn [HasPrefix] in *. destruct (bool_decide (x = c)); [|done]. cbn [andb] in *. destruct a as [|d a]; cbn [app HasPrefix] in *.
      - by rewrite bool_decide_false.
      - rewrite HasPrefix_nil in *. done. }
    rewrite IH by done. reflexivity.
Qed.

Lemma Contains_pair_once x y a b : y ∉ a -> y ∉ b -> list.last a <> Some x -> Contains (a ++ y :: b) [x; y] = false.
Proof.
  intros Ha Hb Hl. assert (forall s, y ∉ s -> forall t, HasPrefix (t :: s) [x; y] = false) as H0.
  { intros [|d s] Hs t; cbn; [by rewrite andb_false_r|]. apply not_elem_of_cons in Hs as [Hd _]. rewrite (bool_decide_false (y = d)) by done. by rewrite andb_false_r. }
  assert (forall s, y ∉ s -> Contains s [x; y] = false) as H1.
  { induction s as [|c s IH]; [done|]. intros [_ Hs]%not_elem_of_cons. cbn [Contains]. by rewrite H0, IH. }
  induction a as [|c a IH].
  - cbn [app Contains]. by rewrite H0, H1.
  - apply not_elem_of_cons in Ha as [Hc Ha]. cbn [app Contains]. destruct a as [|d a].
    + cbn [app] in *. cbn [HasPrefix]. rewrite (bool_decide_false (x = c)) by (intros ->; by apply Hl). by rewrite IH.
    + rewrite (IH Ha) by exact Hl. cbn [app HasPrefix]. apply not_elem_of_cons in Ha as [Hd _]. rewrite (bool_decide_false (y = d)) by done. by rewrite andb_false_r.
Qed.

Lemma server_last server : server_text server -> list.last server <> Some colon.
Proof.
  intros (h & p & -> & Hh & Hc & [->|(d & Hne & Hd & ->)]) Hl.
  - rewrite app_nil_r in Hl. apply last_Some_elem_of in Hl. rewrite Forall_forall in Hc. by specialize (Hc _ Hl).
  - rewrite cons_middle, app_assoc, last_app in Hl. destruct (list.last d) as [c|] eqn:E; [|by apply last_None in E].
    injection Hl as ->. apply last_Some_elem_of in E. rewrite Forall_forall in Hd. by specialize (Hd _ E).
Qed.

(** The fragment of a link, and the parts that a URL is read from. *)
Lemma fragment_chars code debug ephemeral : forallb isCodeByte code = true ->
  Forall (fun c => fragment_char c = true) (fragment code (URLFlags debug ephemeral)).
Proof.
  intros Hc. apply Forall_app. split; [|destruct debug, ephemeral; apply lit_chars; vm_compute; reflexivity].
  apply lit_chars in Hc. eapply chars_within; [|exact Hc]. vm_compute. reflexivity.
Qed.

Lemma id_chars uid : Forall (fun c => isCodeByte c = true) uid -> Forall (fun c => url_char c = true) uid.
Proof. apply chars_within. vm_compute. reflexivity. Qed.

Lemma first_segment_id uid : slash ∉ uid -> first_segment (slash :: uid) = uid.
Proof.
  intros H. unfold first_segment, TrimPrefix. change $"/" with [slash]. cbn [HasPrefix]. rewrite bool_decide_true, HasPrefix_nil by done.
  change (drop (length [slash]) (slash :: uid)) with uid. cbn [andb]. by rewrite (proj2 (IndexByte_none _ _)).
Qed.

(** What a device URL, with its scheme, is read as. *)
Lemma target_of_url server uid code debug ephemeral path : server_text server -> id_text uid -> forallb isCodeByte code = true ->
  let f := fragment code (URLFlags debug ephemeral) in
  match GoUrl.Parse ($"https:" ++ $"//" ++ server ++ slash :: uid ++ "#"%char :: f) with
  | Err _ => None
  | Ok u =>
    if bool_decide (GoUrl.Host u = []) then None
    else match first_segment (UrlPath u) with
         | [] => None
         | uid => let '(code, flags) := ParseFragment (Fragment u) in
                  Some (mkSpec (GoUrl.Host u) uid code path (HasFlag flags $"ephemeral"))
         end
  end = Some (mkSpec server uid code path ephemeral).
Proof.
  intros Hs [Hne Hu] Hc f. pose proof (id_chars uid Hu) as Hu'. pose proof (fragment_chars code debug ephemeral Hc) as Hf.
  rewrite Parse_device; [|done|done|eapply chars_avoid; [|exact Hf]; done]. cbn [GoUrl.Host UrlPath Fragment].
  rewrite bool_decide_false by (by apply server_chars). rewrite first_segment_id by (eapply chars_avoid; [|exact Hu']; done).
  pose proof (link_flags_survive code debug ephemeral Hc) as Hl. fold f in Hl. destruct (ParseFragment f) as [c flags]. destruct Hl as (-> & -> & _).
  by destruct uid.
Qed.

(** A URL that the program prints for a device is one the connector reads as that device: with its scheme or
    without, with the default server left out (which connect then supplies), and in front of a remote path of
    cp; the access code is the code, and it is taken for a share's URL exactly when it carries that flag. *)
Theorem printed_url_connects h server uid code debug ephemeral path :
  server_text server -> id_text uid -> forallb isCodeByte code = true ->
  let f := fragment code (URLFlags debug ephemeral) in
  let url := CodeURL server uid code (URLFlags debug ephemeral) in
  parseConnectURL url = Some (mkSpec server uid code [] ephemeral) /\
  parseConnectURL (server ++ $"/" ++ uid ++ $"#" ++ f) = Some (mkSpec server uid code [] ephemeral) /\
  parseConnectURL (uid ++ $"#" ++ f) = Some (mkSpec default_server uid code [] ephemeral) /\
  parseRemoteSpec h (url ++ $":/" ++ path) = Some (mkSpec server uid code (slash :: path) ephemeral).
Proof.
  intros Hs Hi Hc f url. pose proof Hi as [Hne Hu]. destruct (server_chars server Hs) as (Hsne & Hsc & _).
  pose proof (id_chars uid Hu) as Hu'. pose proof (fragment_chars code debug ephemeral Hc) as Hf.
  assert ((slash ∉ server) /\ (slash ∉ uid) /\ slash ∉ f) as (S1 & S2 & S3).
  { split_and!; (eapply chars_avoid; [|eassumption]; done). }
  assert (url = $"https:" ++ $"//" ++ server ++ slash :: uid ++ "#"%char :: f) as Eurl by done.
  assert (forall t, Contains ($"https:" ++ $"//" ++ t) $"://" = true) as Hscheme.
  { intros t. change (false || (false || (false || (false || (false || (HasPrefix t [] || Contains ($"//" ++ t) $"://")))))= true).
    by rewrite HasPrefix_nil. }
  assert (forall t, Count t slash <= 1 -> Contains t $"://" = false) as Hplain.
  { intros t Ht. destruct (Contains t $"://") eqn:E; [|done]. apply (Contains_count _ _ slash) in E.
    change (Count $"://" slash) with 2 in E. lia. }
  split_and!.
  - rewrite Eurl. unfold parseConnectURL, parse_target, normalize. rewrite Hscheme. by apply target_of_url.
  - unfold parseConnectURL, parse_target, normalize. rewrite Hplain.
    2: { rewrite !Count_app, (Count_none server), (Count_none uid), (Count_none f) by done. vm_compute. done. }
    assert (Contains (server ++ $"/" ++ uid ++ $"#" ++ f) $"/" = true) as ->.
    { change $"/" with [slash]. rewrite Contains_char. apply bool_decide_eq_true. apply elem_of_app. right. by left. }
    by apply target_of_url.
  - unfold parseConnectURL, parse_target, normalize. rewrite Hplain.
    2: { rewrite !Count_app, (Count_none uid), (Count_none f) by done. vm_compute. done. }
    assert (Contains (uid ++ $"#" ++ f) $"/" = false) as ->.
    { change $"/" with [slash]. rewrite Contains_char. apply bool_decide_eq_false. rewrite !elem_of_app. intros [?|[?|?]]; try done.
      by apply list_elem_of_singleton in H. }
    apply (target_of_url default_server); [|done|done]. exists $"bitba.ng", []. split_and!; [done|done| |by left].
    apply lit_chars. vm_compute. reflexivity.
  - unfold parseRemoteSpec, split_path. rewrite Eurl.
    assert (forall t, Index ($"https:" ++ $"//" ++ t) $"://" = Some 5%nat) as Hindex.
    { intros t. change (S <$> (S <$> (S <$> (S <$> (S <$> (if HasPrefix t [] then Some O else S <$> Index ($"//" ++ t) $"://"))))) = Some 5%nat).
      by rewrite HasPrefix_nil. }
    set (body := server ++ slash :: uid ++ "#"%char :: f).
    assert (Contains body [colon; slash] = false) as Hbody.
    { apply Contains_pair_once; [done| |by apply server_last]. rewrite elem_of_app. intros [?|H]; [done|]. by apply elem_of_cons in H as [?|?]. }
    replace (($"https:" ++ $"//" ++ body) ++ $":/" ++ path) with ($"https:" ++ $"//" ++ body ++ colon :: slash :: path) by (by rewrite <- !app_assoc).
    rewrite Hindex. change (drop (5 + 3) ?t) with (drop 8 t).
    change (drop 8 ($"https:" ++ $"//" ++ ?t)) with t. rewrite Index_pair by done.
    replace (take (5 + 3 + length body) ($"https:" ++ $"//" ++ body ++ colon :: slash :: path)) with ($"https:" ++ $"//" ++ body)
      by (symmetry; apply (take_app_length' ($"https:" ++ $"//" ++ body)); done).
    change (drop (S (5 + 3 + length body)) ($"https:" ++ $"//" ++ body ++ colon :: slash :: path))
      with (drop (S (length body)) (body ++ colon :: slash :: path)). rewrite drop_past.
    change (looksLikeDeviceName ($"https:" ++ $"//" ++ body)) with false. cbv iota.
    unfold parse_target, normalize. rewrite Hscheme. by apply target_of_url.
Qed.

(** * What a run does *)

(** The last action, and the only one that ends the process. *)
Definition ends_run (a : act) : Prop := match a with Exit _ | Return => True | _ => False end.
Definition ends_once (acts : list act) : Prop := exists pre e, acts = pre ++ [e] /\ ends_run e /\ Forall (fun a => ~ ends_run a) pre.

(** What [connect_session] does with [rs]; [saved]: it is in the table already, or must not get there. *)
Definition session_run (w : world) (h : home) (now : bytes) (o : connectOptions) (rs : remoteSpec) (saved : bool) (acts : list act) (h' : home) : Prop :=
  Dialing rs (capability_wanted o) ∈ acts /\ ends_once acts /\
  Forall (fun a => match a with
    | Pairing _ _ => False
    | Dialing rs' c => rs' = rs /\ c = capability_wanted o
    | Recording rs' n => rs' = rs /\ n = name o /\ saved = false /\ nosave o = false /\ Ephemeral rs = false /\ h' = recordAndReport h now rs (name o)
    | Forwarding fs g => fs = forwards o /\ fs <> [] /\ g = gateway o
    | Shelling m a => a = argv o /\ forwards o = [] /\ exists caps access, dial w rs = Some (caps, access) /\
        hasCap caps $"shell" = true /\ m = mode_of w o access
    | Exit _ | Return => True
    end) acts /\
  (h' = h \/ Recording rs (name o) ∈ acts).

Lemma ends_once_intro pre e : ends_run e -> Forall (fun a => ~ ends_run a) pre -> ends_once (pre ++ [e]).
Proof. intros He Hp. by exists pre, e. Qed.

Lemma session_spec w h now o rs saved :
  session_run w h now o rs saved (connect_session w h now o rs saved).1 (connect_session w h now o rs saved).2.
Proof.
  assert (forall n, session_run w h now o rs saved ([Dialing rs (capability_wanted o)] ++ [Exit n]) h) as Hfail.
  { intros n. split_and!; [left|exists [Dialing rs (capability_wanted o)], (Exit n); split_and!; [done|done|]|..|by left]; repeat constructor; by intros []. }
  unfold connect_session. destruct (dial w rs) as [[caps access]|] eqn:Ed; [|apply Hfail].
  destruct (hasCap caps (capability_wanted o)) eqn:Ec; cbn [negb]; [|apply Hfail].
  destruct (bool_decide (forwards o <> []) && negb (ports_open w)) eqn:Ep; [apply Hfail|]. cbn [fst snd].
  set (record := negb (saved || nosave o || Ephemeral rs)).
  set (rest := if bool_decide (forwards o <> []) then _ else [Shelling _ _; _]).
  assert (exists pre e, rest = pre ++ [e] /\ ends_run e /\ Forall (fun a => ~ ends_run a) pre) as (pre & e & Er & He & Hpre).
  { subst rest. case_bool_decide.
    - exists [], (if session_closed w then Exit 1 else Return). split_and!; [done|by destruct (session_closed w)|constructor].
    - exists [Shelling (mode_of w o access) (argv o)], (Exit (exit_status (shell_ends w))). split_and!; [done|done|]. repeat constructor. by intros []. }
  split_and!.
  - left.
  - rewrite Er, !app_assoc. apply ends_once_intro; [done|]. rewrite !Forall_app. split_and!; [repeat constructor; by intros []| | |done].
    + case_bool_decide; repeat constructor; by intros [].
    + destruct record; repeat constructor; by intros [].
  - rewrite !Forall_app. split_and!; [by repeat constructor| | |].
    + case_bool_decide; by repeat constructor.
    + destruct record eqn:E; [|constructor]. constructor; [|constructor]. subst record. apply negb_true_iff in E.
      apply orb_false_iff in E as [[-> ->]%orb_false_iff ->]. split_and!; done.
    + subst rest. case_bool_decide as Hf; [destruct (session_closed w); by repeat constructor|].
      assert (forwards o = []) as Hf' by (destruct (forwards o); [done|by destruct Hf]).
      repeat constructor; [done|]. exists caps, access. split_and!; [done| |done]. unfold capability_wanted in Ec. by rewrite Hf' in Ec.
  - destruct record; [|by left]. right. rewrite !elem_of_app. right; right; left. left.
Qed.

(** A name is not a pairing code. *)
Lemma name_not_code s : looksLikeDeviceName s = true -> isPairCode s = false.
Proof.
  destruct s as [|c r]; [done|]. cbn [looksLikeDeviceName]. intros [Hc _]%andb_true_iff. unfold isPairCode. cbn [forallb].
  assert (is_digit c = false) as ->; [|by rewrite andb_false_r].
  pose proof (all_bytes (fun c => negb (Devices.letter c && is_digit c)) ltac:(vm_compute; reflexivity) c) as H. cbn beta in H.
  rewrite Hc in H. by apply negb_true_iff in H.
Qed.

(** Where the credentials of a run come from. *)
Definition source_of (w : world) (h : home) (o : connectOptions) (acts : list act) (rs : remoteSpec) : Prop :=
  (looksLikeDeviceName (target o) = true /\ isPairCode (target o) = false /\
     exists e, lookupDeviceByName h (target o) = Some e /\ rs = entry_spec e []) \/
  (isPairCode (target o) = true /\ looksLikeDeviceName (target o) = false /\ Pairing (target o) (server o) ∈ acts /\
     exists uid code, pair w (target o) (server o) = Some (uid, code) /\ rs = paired_spec (server o) uid code) \/
  (looksLikeDeviceName (target o) = false /\ isPairCode (target o) = false /\ parseConnectURL (target o) = Some rs).

Definition run_ok (w : world) (h : home) (now : bytes) (o : connectOptions) (acts : list act) (h' : home) : Prop :=
  ends_once acts /\
  Forall (fun a => match a with
    | Pairing code s => isPairCode (target o) = true /\ code = target o /\ s = server o
    | Dialing rs c => source_of w h o acts rs /\ c = capability_wanted o
    | Recording rs n => source_of w h o acts rs /\ looksLikeDeviceName (target o) = false /\ n = name o /\ nosave o = false /\
        Ephemeral rs = false /\ h' = recordAndReport h now rs n
    | Forwarding fs g => fs = forwards o /\ fs <> [] /\ g = gateway o
    | Shelling m a => a = argv o /\ forwards o = [] /\ exists rs caps access, Dialing rs $"shell" ∈ acts /\
        dial w rs = Some (caps, access) /\ hasCap caps $"shell" = true /\ (m = ViewOnly <-> access = AccessView)
    | Exit _ | Return => True
    end) acts /\
  (h' = h \/ exists rs n, Recording rs n ∈ acts).

Lemma run_ok_exit w h now o n : run_ok w h now o [Exit n] h.
Proof. split_and!; [exists [], (Exit n); by split_and!|by repeat constructor|by left]. Qed.

(** A session within a run: [pre] is what came before it, and recorded for it. *)
Lemma run_ok_session w h0 h now o rs saved pre :
  let '(acts, h') := connect_session w h now o rs saved in
  Forall (fun a => match a with
    | Pairing code s => isPairCode (target o) = true /\ code = target o /\ s = server o
    | Recording rs' n => rs' = rs /\ saved = true /\ looksLikeDeviceName (target o) = false /\ n = name o /\ nosave o = false /\
        Ephemeral rs = false /\ h = recordAndReport h0 now rs n
    | _ => False end) pre ->
  (saved = false -> looksLikeDeviceName (target o) = false /\ h = h0) ->
  (h = h0 \/ Recording rs (name o) ∈ pre) ->
  source_of w h0 o (pre ++ acts) rs -> run_ok w h0 now o (pre ++ acts) h'.
Proof.
  pose proof (session_spec w h now o rs saved) as (Hd & (m & e & Ha & He & Hm) & Hall & Hh).
  destruct (connect_session w h now o rs saved) as [acts h'] eqn:E. cbn [fst snd] in *. intros Hpre Hsaved Hh0 Hsrc.
  split_and!.
  - exists (pre ++ m), e. rewrite Ha, app_assoc. split_and!; [done|done|]. apply Forall_app. split; [|done].
    eapply Forall_impl; [exact Hpre|]. intros [] H; (done || by intros []).
  - apply Forall_app. split.
    + eapply Forall_impl; [exact Hpre|]. intros []; try done. intros (-> & Hs & H1 & -> & H2 & H3 & ->). split_and!; try done.
      destruct Hh as [->|Hr]; [done|]. rewrite Forall_forall in Hall. apply Hall in Hr as (_ & _ & H4 & _). congruence.
    + apply Forall_forall. intros a Hin. rewrite Forall_forall in Hall. specialize (Hall a Hin). destruct a; try done.
      * by destruct Hall as [-> ->].
      * destruct Hall as (-> & -> & Hs & H1 & H2 & ->). destruct (Hsaved Hs) as [H3 ->]. split_and!; done.
      * destruct Hall as (-> & Hf & caps & access & H1 & H2 & ->). split_and!; [done|done|].
        exists rs, caps, access. split_and!; [|done|done|].
        -- apply elem_of_app. right. unfold capability_wanted in Hd. by rewrite Hf in Hd.
        -- unfold mode_of. destruct access; try done; by destruct (_ && _).
  - destruct Hh as [->|Hr]; [|right; exists rs, (name o); apply elem_of_app; by right].
    destruct Hh0 as [->|Hr]; [by left|right; exists rs, (name o); apply elem_of_app; by left].
Qed.

(** C21: Connect dials what its argument names, and saves what it may. A saved name, a pairing code and a URL do
    not overlap; a name is dialed with the credentials of the table, a code with those of its own pairing, a URL
    with its own. A device is recorded only from a code or a URL, under the name that was asked for, and never
    with -nosave or from a share's URL; in every run without a record the table stays as it was. A shell is only
    opened on a listener that offers one, and never when ports are forwarded, and is watched only exactly when the
    listener grants the view; every run ends, once. *)
Theorem connect_runs w h now o : run_ok w h now o (runConnect w h now o).1 (runConnect w h now o).2.
Proof.
  unfold runConnect. destruct (name_refused h o); [apply run_ok_exit|]. destruct (looksLikeDeviceName (target o)) eqn:El.
  - destruct (lookupDeviceByName h (target o)) as [ent|] eqn:Et; [|apply run_ok_exit]. case_bool_decide as Hn; [apply run_ok_exit|].
    pose proof (run_ok_session w h h now o (entry_spec ent []) true []) as H. destruct (connect_session _ _ _ _ _ _) as [acts h'].
    apply H; [constructor|done|by left|]. left. split_and!; [done|by apply name_not_code|by exists ent].
  - destruct (isPairCode (target o)) eqn:Ep.
    + destruct (pair w (target o) (server o)) as [[uid code]|] eqn:Epair.
      2: { split_and!; [|by repeat constructor|by left]. exists [Pairing (target o) (server o)], (Exit 1). split_and!; [done|done|].
           repeat constructor. by intros []. }
      set (rs := paired_spec (server o) uid code). set (rec := if nosave o then [] else [Recording rs (name o)]).
      pose proof (run_ok_session w h (if nosave o then h else recordAndReport h now rs (name o)) now o rs true (Pairing (target o) (server o) :: rec)) as H.
      destruct (connect_session _ _ _ _ _ _) as [acts h']. apply H.
      * constructor; [done|]. subst rec. destruct (nosave o) eqn:En; [constructor|]. repeat constructor; done.
      * done.
      * subst rec. destruct (nosave o); [by left|right; right; left].
      * right; left. split_and!; [done|done|left|by exists uid, code].
    + destruct (parseConnectURL (target o)) as [rs|] eqn:Eu; [|apply run_ok_exit].
      pose proof (run_ok_session w h h now o rs false []) as H. destruct (connect_session _ _ _ _ _ _) as [acts h'].
      apply H; [constructor|done|by left|]. right; right. done.
Qed.

(** A device that is already saved cannot be reached again by its URL under its own name. *)
Lemma saved_name_blocks_reconnect :
  let h := record_all fresh_home [($"u1", $"nas")] in
  let w := mkWorld (fun _ _ => None) (fun _ => Some ([$"shell"], AccessDefault)) true false true (Some ([], 0)) in
  let o := default_options <| target := $"bitba.ng/u1#code" |> in
  (recordDevice h $"t" $"bitba.ng" $"u1" $"code" $"nas").1 = Ok ($"nas", recordUpdated) /\
  (runConnect w h $"t" o).1 = [Dialing (mkSpec $"bitba.ng" $"u1" $"code" [] false) $"shell";
    Recording (mkSpec $"bitba.ng" $"u1" $"code" [] false) []; Shelling Interactive []; Exit 0] /\
  (runConnect w h $"t" (o <| name := $"nas" |>)).1 = [Exit 1].
Proof. vm_compute. done. Qed.

(** A device URL in the fragment makes the short form unreadable, and a [://] in a remote path a local one. *)
Lemma short_form_loses_device_url h :
  parseConnectURL $"bitba.ng/abc123#XYZ/app" = Some (mkSpec $"bitba.ng" $"abc123" $"XYZ" [] false) /\
  parseConnectURL $"abc123#XYZ/app" = None /\ parseRemoteSpec h $"abc123#XYZ:/notes/a://b" = None.
Proof. split_and!; vm_compute; done. Qed.

Lemma printed_url_connects_witness :
  CodeURL $"127.0.0.1:8443" $"Ab_9" $"K7-x" (URLFlags false true) = $"https://127.0.0.1:8443/Ab_9#K7-x!ephemeral" /\
  parseConnectURL $"https://127.0.0.1:8443/Ab_9#K7-x!ephemeral" = Some (mkSpec $"127.0.0.1:8443" $"Ab_9" $"K7-x" [] true) /\
  parseRemoteSpec fresh_home $"https://127.0.0.1:8443/Ab_9#K7-x!ephemeral:/a b" = Some (mkSpec $"127.0.0.1:8443" $"Ab_9" $"K7-x" $"/a b" true).
Proof.
  split; [reflexivity|]. assert (server_text $"127.0.0.1:8443") as Hs.
  { exists $"127.0.0.1", $":8443". split_and!; [done|done|by apply lit_chars; vm_compute|]. right. exists $"8443".
    split_and!; [done|by apply lit_chars; vm_compute|done]. }
  assert (id_text $"Ab_9") as Hi by (split; [done|by apply lit_chars; vm_compute]).
  destruct (printed_url_connects fresh_home $"127.0.0.1:8443" $"Ab_9" $"K7-x" false true $"a b" Hs Hi eq_refl) as (H1 & _ & _ & H2).
  split; [exact H1|exact H2].
Defined.
