(* ===== verification/Ice.v ===== *)
(** The ICE wire formats (internal/icehelper): the servers of an offer or of a file of the operator's, and the
    candidates that trickle through signaling. *)

From S2P Require Import Prelude GoLib Json Signaling.

(** [webrtc.ICEServer]: a user name selects password credentials. *)
Record ICEServer := mkServer { URLs : list bytes; credentials : option (bytes * bytes) }.

#[export] Instance ICEServer_eq_dec : EqDecision ICEServer.
Proof. solve_decision. Defined.

(** The [urls] of an entry: one string, or the strings of an array. *)
Definition urls_of (urls : option json) : list bytes :=
  match urls with
  | Some (JString u) => [u]
  | Some (JArray l) => omap (fun u => match u with JString s => Some s | _ => None end) l
  | _ => []
  end.

(** The last value of a member, in any case of its name. *)
Definition any_member (name : bytes) (ms : list (bytes * json)) : option json :=
  snd <$> last (filter (fun kv => names name kv.1 = true) ms).

(** An entry; [None] where [Unmarshal] reports a mismatch. *)
Definition decode_server (j : json) : option ICEServer :=
  let '(username, ok1) := field decode_string [] $"username" j in
  let '(credential, ok2) := field decode_string [] $"credential" j in
  if negb (ok1 && ok2) then None
  else Some (mkServer (match j with JObject ms => urls_of (any_member $"urls" ms) | _ => [] end)
               (match username with [] => None | _ => Some (username, credential) end)).

(** [parseICEServers]: an array of entries, null being an empty one; nil for anything else. *)
Definition parseICEServers (j : json) : list ICEServer :=
  match j with
  | JArray l => default [] (mapM decode_server l)
  | _ => []
  end.

(** [FromMessage]. *)
Definition FromMessage (msg : message) : list ICEServer :=
  match member $"ice_servers" msg with Some (JArray l) => parseICEServers (JArray l) | _ => [] end.

Inductive file_error := EmptyFile | NotServers | BadFile | NoServersKey.

(** [ParseUserICEFile]: nil is an error, so an array without entries is one. *)
Definition some_servers (l : list ICEServer) : result file_error (list ICEServer) :=
  match l with [] => Err NotServers | _ => Ok l end.

Definition ParseUserICEFile (data : bytes) : result file_error (list ICEServer) :=
  match TrimSpace data with
  | [] => Err EmptyFile
  | c :: _ =>
    if is_char 91 c then some_servers (match parse_json data with Some j => parseICEServers j | None => [] end)
    else if is_char 123 c then
      match parse_json data with
      | Some (JObject ms) =>
        match member $"ice_servers" ms, member $"iceServers" ms with
        | Some j, _ | None, Some j => some_servers (parseICEServers j)
        | None, None => Err NoServersKey
        end
      | _ => Err BadFile
      end
    else Err NoServersKey
  end.

(** * Candidates *)

(** [webrtc.ICECandidateInit]; [line] is [uint16] of the number as a float64, which the language leaves open
    beyond the range of the integer. *)
Record CandidateInit_ := mkCandidate { Candidate : bytes; SDPMid : bytes; SDPMLineIndex : Z }.

Section Candidates.
Variable line : bytes -> Z.

Definition CandidateInit (data : message) : option CandidateInit_ :=
  match default [] (string_member $"candidate" data) with
  | [] => None
  | c => Some (mkCandidate c (default [] (string_member $"sdpMid" data))
                (match member $"sdpMLineIndex" data with Some (JNumber l) => line l | _ => 0 end))
  end.

(** [CandidateMap], whose mid and index a gathered candidate always has. *)
Definition CandidateMap (c : CandidateInit_) : message :=
  [($"candidate", JString (Candidate c)); ($"sdpMid", JString (SDPMid c)); ($"sdpMLineIndex", JInt (SDPMLineIndex c))].

(** A candidate that one end sends is the one the other end adds; the end of the candidates is not one. *)
Lemma candidate_round_trip c : (forall z, 0 <= z < 2 ^ 16 -> line (print_Z z) = z) -> Candidate c <> [] ->
  0 <= SDPMLineIndex c < 2 ^ 16 -> CandidateInit (CandidateMap c) = Some c.
Proof.
  intros Hl Hc Hi. destruct c as [c mid i]. cbn [Candidate SDPMLineIndex] in *. unfold CandidateInit. set (m := CandidateMap _).
  assert (string_member $"candidate" m = Some c) as -> by reflexivity. assert (string_member $"sdpMid" m = Some mid) as -> by reflexivity.
  assert (member $"sdpMLineIndex" m = Some (JInt i)) as -> by reflexivity. cbn [default JInt]. destruct c as [|x c]; [done|]. cbn. by rewrite Hl.
Qed.

End Candidates.

(** An operator's file gives the same servers bare, under the wire's key and under the browser's. *)
Lemma ice_file_shapes (text : bytes) l : parse_json text = Some (JArray l) -> HasPrefix (TrimSpace text) $"[" = true ->
  parseICEServers (JArray l) <> [] ->
  ParseUserICEFile text = Ok (parseICEServers (JArray l)) /\ FromMessage [($"ice_servers", JArray l)] = parseICEServers (JArray l).
Proof.
  intros Hp Ht Hne. split; [|done]. unfold ParseUserICEFile. destruct (TrimSpace text) as [|c t]; [done|].
  change $"[" with ["["%char] in Ht. cbn [HasPrefix] in Ht. apply andb_true_iff in Ht as [<-%bool_decide_eq_true _].
  change (is_char 91 "["%char) with true. cbv iota. rewrite Hp. unfold some_servers. by destruct (parseICEServers (JArray l)).
Qed.

Example ParseUserICEFile_sample :
  (ParseUserICEFile (json_text $" [{'urls': 'stun:a'}, {'urls': ['turn:b', 3], 'username': 'u', 'credential': 'c'}]"),
   ParseUserICEFile (json_text $"{'iceServers': [{'urls': 'stun:a'}]}"), ParseUserICEFile (json_text $"{'ice_servers': null}"),
   ParseUserICEFile (json_text $"[{'username': 3}]"), ParseUserICEFile $"  ", ParseUserICEFile $"x", ParseUserICEFile $"{") =
  (Ok [mkServer [$"stun:a"] None; mkServer [$"turn:b"] (Some ($"u", $"c"))], Ok [mkServer [$"stun:a"] None], Err NotServers,
   Err NotServers, Err EmptyFile, Err NoServersKey, Err BadFile).
Proof. vm_compute. reflexivity. Qed.
