(* ===== verification/Dial.v ===== *)
(** How the connector reaches a device: its signaling socket (internal/client/signaling.go), its end of the
    WebRTC connection (internal/client/peer.go) and [Dial] (internal/client/client.go).

    A dial is a transition system of four goroutines: [Dial] itself, the read loop of the socket with the
    callbacks it runs, the drain of candidates, and WebRTC's callbacks. The read loop hands offers and candidates
    to channels of one and of sixteen places, and waits where one is full; errors are dropped where theirs is.
    WebRTC is an input, as are the RSA functions and the times at which timers fire. *)

From S2P Require Import Prelude GoLib Json Sha256 Wire Handshake Signaling Ice.

(** * The peer *)

(** [base64.RawURLEncoding]. *)
Definition url_char64 (c : ascii) : ascii := if is_char 43 c then chr 45 else if is_char 47 c then chr 95 else c.
Definition RawURL (s : bytes) : bytes := map url_char64 (filter (fun c => c <> pad_char) (encode64 s)).

Definition uidFromPubkeyDER (der : bytes) : bytes := RawURL (take 16 (Sum256 der)).

Inductive Mode := ModeURL | ModePair.

Inductive offer_error := NoSDP | NoPubkey | BadPubkey | WrongUID (got : bytes) | PeerFailed | NoFingerprint | NoNonce | EncryptFailed.

Section Keys.
(** Whether bytes are the DER of an RSA key, and RSA-OAEP under that key. *)
Variable is_rsa : bytes -> bool.
Variable Encrypt : bytes -> bytes -> option bytes.

Definition importDevicePubkey (b64 : bytes) : option bytes :=
  match decode64 b64 with Some der => if is_rsa der then Some der else None | None => None end.

(** [HandleOffer]: the answer and the payload for it, with the key and the nonce that it installs. [local] is
    the local description, if WebRTC takes the offer and makes an answer; [drawn] is what [rand.Read] gives. *)
Definition HandleOffer (mode : Mode) (uid code : bytes) (msg : message) (local drawn : option bytes) :
  result offer_error (bytes * bytes * option (bytes * bytes)) :=
  match default [] (string_member $"sdp" msg) with
  | [] => Err NoSDP
  | _ =>
    let! key := match mode with
      | ModePair => Ok None
      | ModeURL =>
        match default [] (string_member $"device_pubkey" msg) with
        | [] => Err NoPubkey
        | b64 => match importDevicePubkey b64 with
                 | None => Err BadPubkey
                 | Some der => if bool_decide (uidFromPubkeyDER der = uid) then Ok (Some der) else Err (WrongUID (uidFromPubkeyDER der))
                 end
        end
      end in
    match local with
    | None => Err PeerFailed
    | Some sdp =>
      match key with
      | None => Ok (sdp, [], None)
      | Some der =>
        match ExtractFingerprint sdp with
        | [] => Err NoFingerprint
        | fp => match drawn with
                | None => Err NoNonce
                | Some nonce => match encryptVerifyPayload (Encrypt der) fp nonce code with
                                | None => Err EncryptFailed
                                | Some enc => Ok (sdp, enc, Some (der, nonce))
                                end
                end
        end
      end
    end
  end.

(** * The state of a dial *)

(** The read loop: before the socket is open, at its next message, waiting for a place in a channel, or gone. *)
Inductive reader_at := NotRunning | Reading | HandsOffer (m : message) | HandsCandidate (m : message) | Gone.

Inductive drain_at := NotStarted | Draining | Stopping | Drained.

Inductive dial_error :=
| NoUID | NoSocket | NoRequest | Signaled (e : bytes) | OfferTimeout | NoPeer | BadOffer (e : offer_error) | NoAnswer
| ChannelTimeout | Handshaking (e : handshake_error).

(** Where [Dial] is. *)
Inductive phase :=
| Connecting
| Hooking
| Requesting
| AwaitingOffer
| Building (offer : message)
| Offered (offer : message)
| Answering (sdp enc : bytes)
| AwaitingChannel
| Verifying
| Failed (e : dial_error)
| Connected (s : Client).

Record options := mkDial { UID : bytes; Code : bytes; Path : bytes; Caps : list bytes; NoRelay : bool; ForceRelay : bool }.

Record dial := mkState {
  main : phase; reader : reader_at; drain : drain_at;
  hooked : bool; offers : list message; cands : list message; errs : list bytes;
  ws_closed : bool; ws_sent : list message; versions : option (list (bytes * bytes));
  peer : bool; ice : list ICEServer; key_nonce : option (bytes * bytes); described : bool; added : list message;
  dc_ready : bool; pc_closed : bool; panicked : bool; received : list message
}.
(** [hooked]: the callbacks are set. [described]: the remote description is set. [added] are the candidates given
    to WebRTC; [received] are the candidates the callback was run with. *)

#[export] Instance eta_dial : Eta dial := fun d =>
  mkState (main d) (reader d) (drain d) (hooked d) (offers d) (cands d) (errs d) (ws_closed d) (ws_sent d) (versions d)
    (peer d) (ice d) (key_nonce d) (described d) (added d) (dc_ready d) (pc_closed d) (panicked d) (received d).

Definition start : dial :=
  mkState Connecting NotRunning NotStarted false [] [] [] false [] None false [] None false [] false false false [].

Definition offer_places : nat := 1.
Definition candidate_places : nat := 16.
Definition error_places : nat := 1.

(** * The socket *)

(** [send]: nothing goes out on a closed socket. *)
Definition send (m : message) (d : dial) : dial := if ws_closed d then d else d <| ws_sent := ws_sent d ++ [m] |>.
Definition close_socket (d : dial) : dial := d <| ws_closed := true |>.
Definition close_peer (d : dial) : dial := d <| pc_closed := true |>.

Definition path_message (path reason : bytes) : message :=
  [($"type", JString $"connection_path"); ($"path", JString path)] ++ match reason with [] => [] | _ => [($"reason", JString reason)] end.
Definition sendConnectionPath (path reason : bytes) (d : dial) : dial := send (path_message path reason) d.

Definition request_message (caps : list bytes) (version : Z) (forceRelay : bool) : message :=
  [($"type", JString $"request"); ($"caps", JArray (map JString caps)); ($"version", JInt version)] ++
  (if forceRelay then [($"force_relay", JBool true)] else []).
Definition answer_message (sdp enc : bytes) : message :=
  [($"type", JString $"answer"); ($"sdp", JString sdp); ($"encrypted_request", JString enc)].
Definition candidate_message (c : message) : message := [($"type", JString $"candidate"); ($"candidate", JObject c)].

(** The callbacks of [Dial]: offers and candidates wait for a place, an error does not. *)
Definition on_error (e : bytes) (d : dial) : dial :=
  if (hooked d && (length (errs d) <? error_places)%nat) then d <| errs := errs d ++ [e] |> else d.

Definition on_offer (m : message) (d : dial) : dial :=
  if negb (hooked d) then d
  else if (length (offers d) <? offer_places)%nat then d <| offers := offers d ++ [m] |> else d <| reader := HandsOffer m |>.

Definition on_candidate (m : message) (d : dial) : dial :=
  if negb (hooked d) then d
  else let d := d <| received := received d ++ [m] |> in
       if (length (cands d) <? candidate_places)%nat then d <| cands := cands d ++ [m] |> else d <| reader := HandsCandidate m |>.

(** What the read loop does with a message of the server. *)
Definition dispatch (m : message) (d : dial) : dial :=
  let type := default [] (string_member $"type" m) in
  if bool_decide (type = $"hello") then d <| versions := Versions m |>
  else if bool_decide (type = $"offer") then on_offer m d
  else if bool_decide (type = $"candidate") then on_candidate m d
  else if bool_decide (type = $"error") then on_error (default [] (string_member $"message" m)) d
  else d.

(** * The steps *)

Inductive event :=
| Connects (ok : bool) | Hook | Request (ok : bool) | TakeOffer | TakeError | OfferTimer
| Build (ok : bool) | Offer (local drawn : option bytes) | Answer (ok : bool)
| TakeReady (route : bytes) | ChannelTimer | Shake (sends : nat -> bool) (prompt : option (nat -> option bytes)) (ws : list waited)
| Receives (m : message) | ReadFails (e : bytes) | HandsOver
| Drains | DrainStops
| Gathers (c : message) | Opens (protocol : bytes).

Definition streamProtocolPrefix : bytes := $"bitbang-stream/".

Definition quit (e : dial_error) (d : dial) : dial := d <| main := Failed e |>.
Definition stop_drain (d : dial) : dial := d <| drain := Stopping |>.

(** [dialFail]. *)
Definition dialFail (reason : bytes) (e : dial_error) (d : dial) : dial :=
  quit e (close_socket (close_peer (sendConnectionPath $"failed" reason (stop_drain d)))).

(** What a candidate message carries: nothing for an end of candidates, or for something else. *)
Definition candidate_of (m : message) : list message :=
  match member $"candidate" m with
  | Some (JObject c) => match default [] (string_member $"candidate" c) with [] => [] | _ => [c] end
  | _ => []
  end.

Definition path_of (o : options) : bytes := match Path o with [] => $"/" | p => p end.

(** One step of [Dial]. *)
Definition main_step (o : options) (e : event) (d : dial) : option dial :=
  match main d, e with
  | Connecting, Connects ok =>
    Some (if bool_decide (UID o = []) then quit NoUID d else if ok then d <| main := Hooking |> <| reader := Reading |> else quit NoSocket d)
  | Hooking, Hook => Some (d <| main := Requesting |> <| hooked := true |>)
  | Requesting, Request ok =>
    Some (if ok then send (request_message (Caps o) 3 (ForceRelay o)) d <| main := AwaitingOffer |> else quit NoRequest (close_socket d))
  | AwaitingOffer, TakeOffer =>
    match offers d with m :: r => Some (d <| offers := r |> <| main := Building m |>) | [] => None end
  | AwaitingOffer, TakeError =>
    match errs d with
    | x :: r => Some (quit (Signaled x) (close_socket (sendConnectionPath $"failed" $"signaling_error" (d <| errs := r |>))))
    | [] => None
    end
  | AwaitingOffer, OfferTimer => Some (quit OfferTimeout (close_socket (sendConnectionPath $"failed" $"offer_timeout" d)))
  | Building m, Build ok =>
    Some (if ok then d <| peer := true |> <| ice := if NoRelay o then [] else FromMessage m |> <| main := Offered m |>
          else quit NoPeer (close_socket d))
  | Offered m, Offer local drawn =>
    Some (match HandleOffer ModeURL (UID o) (Code o) m local drawn with
          | Err x => quit (BadOffer x) (close_socket (close_peer d))
          | Ok (sdp, enc, kn) => d <| described := true |> <| key_nonce := kn |> <| main := Answering sdp enc |>
          end)
  | Answering sdp enc, Answer ok =>
    Some (if ok then send (answer_message sdp enc) d <| drain := Draining |> <| main := AwaitingChannel |>
          else quit NoAnswer (close_socket (close_peer d)))
  | AwaitingChannel, TakeReady route =>
    if dc_ready d then Some (close_socket (stop_drain (sendConnectionPath route [] d)) <| main := Verifying |>) else None
  | AwaitingChannel, TakeError =>
    match errs d with x :: r => Some (dialFail $"signaling_error" (Signaled x) (d <| errs := r |>)) | [] => None end
  | AwaitingChannel, ChannelTimer => Some (dialFail $"ice_timeout" ChannelTimeout d)
  | Verifying, Shake sends prompt ws =>
    let '(s, r) := handshake (default [] (snd <$> key_nonce d)) sends prompt (path_of o) (Some (Caps o)) ws in
    Some (match r with Ok _ => d <| main := Connected s |> | Err x => quit (Handshaking x) (close_peer d) end)
  | _, _ => None
  end.

(** One step of the read loop, of the drain, or of WebRTC. *)
Definition other_step (e : event) (d : dial) : option dial :=
  match e with
  | Receives m => match reader d with Reading => if ws_closed d then None else Some (dispatch m d) | _ => None end
  | ReadFails x => match reader d with Reading => Some ((if ws_closed d then d else on_error x d) <| reader := Gone |>) | _ => None end
  | HandsOver =>
    match reader d with
    | HandsOffer m => if (length (offers d) <? offer_places)%nat then Some (d <| offers := offers d ++ [m] |> <| reader := Reading |>) else None
    | HandsCandidate m => if (length (cands d) <? candidate_places)%nat then Some (d <| cands := cands d ++ [m] |> <| reader := Reading |>) else None
    | _ => None
    end
  | Drains =>
    match drain d, cands d with
    | (Draining | Stopping), m :: r => Some (d <| cands := r |> <| added := added d ++ candidate_of m |>)
    | _, _ => None
    end
  | DrainStops => match drain d with Stopping => Some (d <| drain := Drained |>) | _ => None end
  | Gathers c => if described d then Some (send (candidate_message c) d) else None
  | Opens protocol =>
    if negb (described d) || pc_closed d then None
    else Some (if HasPrefix protocol streamProtocolPrefix then d
               else if dc_ready d then d <| panicked := true |> else d <| dc_ready := true |>)
  | _ => None
  end.

Definition exec (o : options) (e : event) (d : dial) : option dial :=
  if panicked d then None
  else match main_step o e d with Some d' => Some d' | None => other_step e d end.

(** A run: the events that happened, in order. *)
Fixpoint run (o : options) (es : list event) (d : dial) : option dial :=
  match es with [] => Some d | e :: es' => match exec o e d with Some d' => run o es' d' | None => None end end.

End Keys.

(** * A dial on paper *)

Definition paper_key : bytes := $"spki".
Definition paper_options : options := mkDial (uidFromPubkeyDER paper_key) $"swordfish" $"/files" [$"proxy"] false false.
Abbreviation paper_run := (run (fun der => bool_decide (der = paper_key)) (fun _ => demo_encrypt) paper_options).
Definition paper_offer : message :=
  [($"type", JString $"offer"); ($"sdp", JString $"v=0"); ($"device_pubkey", JString (encode64 paper_key))].
Definition paper_candidate : message := candidate_message [($"candidate", JString $"udp 1")].
Definition paper_start : list event := [Connects true; Hook; Request true].

Example dial_sample :
  (fun d => (main d, added d, length (ws_sent d), ws_closed d, pc_closed d)) <$>
    paper_run (paper_start ++ [Receives paper_candidate; Receives paper_offer; TakeOffer; Build true; Offer (Some demo_sdp) (Some demo_nonce);
      Answer true; Drains; Opens $"bitbang-stream/h264"; Opens []; TakeReady $"direct"; Shake (fun _ => true) (Some demo_prompt) demo_ws]) start =
  (fun d => (Connected demo_run.1, [[($"candidate", JString $"udp 1")]], 3%nat, true, false)) <$> Some start.
Proof. vm_compute. reflexivity. Qed.

(** What a dial promises, whatever the server, the device and the network do. *)

Section Spec.
Variable is_rsa : bytes -> bool.
Variable Encrypt : bytes -> bytes -> option bytes.
Variable o : options.

#[local] Abbreviation run := (run is_rsa Encrypt o).
#[local] Abbreviation exec := (exec is_rsa Encrypt o).
#[local] Abbreviation main_step := (main_step is_rsa Encrypt o).

Lemma dial_run_app es1 es2 d : run (es1 ++ es2) d = match run es1 d with Some d' => run es2 d' | None => None end.
Proof. revert d. induction es1 as [|e es IH]; intros d; [done|]. cbn. destruct (exec e d); [apply IH|done]. Qed.

(** An invariant that every event keeps holds of every run. *)
Lemma run_invariant (P : dial -> Prop) : (forall e d d', P d -> exec e d = Some d' -> P d') ->
  forall es d d', P d -> run es d = Some d' -> P d'.
Proof.
  intros Hstep es. induction es as [|e es IH]; intros d d' Hd; [by intros [= <-]|]. cbn.
  destruct (exec e d) as [d1|] eqn:E; [|done]. apply IH. by eapply Hstep.
Qed.

Lemma dial_exec_cases e d d' : exec e d = Some d' -> panicked d = false /\ (main_step e d = Some d' \/ other_step e d = Some d').
Proof. unfold Dial.exec. destruct (panicked d); [done|]. destruct (main_step e d) as [d1|]; [intros [= ->]; auto|auto]. Qed.

(** * What a dial has proved *)

(** The answer that carries the code: sealed for the key that the UID names, with the fingerprint of the very
    description it answers with. *)
Definition sealed (der nonce sdp enc : bytes) : Prop :=
  is_rsa der = true /\ uidFromPubkeyDER der = UID o /\ ExtractFingerprint sdp <> [] /\
  encryptVerifyPayload (Encrypt der) (ExtractFingerprint sdp) nonce (Code o) = Some enc.

Lemma HandleOffer_sealed m local drawn sdp enc kn : HandleOffer is_rsa Encrypt ModeURL (UID o) (Code o) m local drawn = Ok (sdp, enc, kn) ->
  exists der nonce, kn = Some (der, nonce) /\ sealed der nonce sdp enc.
Proof.
  unfold HandleOffer. destruct (default [] (string_member $"sdp" m)); [done|].
  destruct (default [] (string_member $"device_pubkey" m)) as [|c b]; [done|]. unfold importDevicePubkey.
  destruct (decode64 (c :: b)) as [der|]; [|done]. destruct (is_rsa der) eqn:Er; [|done]. case_bool_decide as Hu; [|done]. cbn [result_bind].
  destruct local as [s|]; [|done]. destruct (ExtractFingerprint s) as [|f fp] eqn:Ef; [done|]. destruct drawn as [n|]; [|done].
  destruct (encryptVerifyPayload (Encrypt der) (f :: fp) n (Code o)) as [e|] eqn:Ee; [|done]. intros [= <- <- <-].
  exists der, n. split; [done|]. unfold sealed. by rewrite Ef.
Qed.

(** What may be on the socket: the request, one answer, candidates, and a report of the route. *)
Definition harmless (m : message) : Prop :=
  m = request_message (Caps o) 3 (ForceRelay o) \/ (exists c, m = candidate_message c) \/ (exists p r, m = path_message p r).

Definition sent_ok (d : dial) (sealed_by : option (bytes * bytes)) : Prop :=
  Forall (fun m => harmless m \/ exists der nonce sdp enc, sealed_by = Some (der, nonce) /\ sealed der nonce sdp enc /\ m = answer_message sdp enc) (ws_sent d).

(** The place of [Dial] and what is then true. *)
Definition at_phase (d : dial) : Prop :=
  match main d with
  | Connecting => d = start
  | Hooking | Requesting | AwaitingOffer | Building _ => peer d = false /\ ws_closed d = false /\ key_nonce d = None /\ drain d = NotStarted
  | Offered _ => peer d = true /\ ws_closed d = false /\ key_nonce d = None /\ drain d = NotStarted
  | Answering sdp enc => peer d = true /\ ws_closed d = false /\ described d = true /\ drain d = NotStarted /\
      exists der nonce, key_nonce d = Some (der, nonce) /\ sealed der nonce sdp enc
  | AwaitingChannel => peer d = true /\ ws_closed d = false /\ described d = true /\ drain d = Draining /\
      exists der nonce sdp enc, key_nonce d = Some (der, nonce) /\ sealed der nonce sdp enc /\ answer_message sdp enc ∈ ws_sent d
  | Verifying | Connected _ => peer d = true /\ ws_closed d = true /\ described d = true /\ drain d <> Draining /\ drain d <> NotStarted /\
      exists der nonce sdp enc, key_nonce d = Some (der, nonce) /\ sealed der nonce sdp enc /\ answer_message sdp enc ∈ ws_sent d /\
      match main d with
      | Connected s => exists sends prompt ws, handshake nonce sends prompt (path_of o) (Some (Caps o)) ws = (s, Ok tt)
      | _ => True
      end
  | Failed e => (e = NoUID \/ e = NoSocket \/ ws_closed d = true) /\ (peer d = true -> pc_closed d = true) /\
      drain d <> Draining
  end.

Definition finished (d : dial) : bool := match main d with Failed _ | Connected _ => true | _ => false end.

(** The candidates that the drain took, and those on their way. *)
Definition waiting (d : dial) : list message := cands d ++ match reader d with HandsCandidate m => [m] | _ => [] end.

(** * What the other goroutines leave alone *)

Record frame (d d' : dial) : Prop := {
  fr_main : main d' = main d; fr_peer : peer d' = peer d; fr_ws : ws_closed d' = ws_closed d; fr_key : key_nonce d' = key_nonce d;
  fr_described : described d' = described d; fr_pc : pc_closed d' = pc_closed d;
  fr_drain : drain d' = drain d \/ (drain d = Stopping /\ drain d' = Drained);
  fr_sent : ws_sent d' = ws_sent d \/ exists c, ws_sent d' = ws_sent d ++ [candidate_message c];
  fr_added : added d' = added d \/ drain d = Draining \/ drain d = Stopping
}.

Lemma frame_same d d' : main d' = main d -> peer d' = peer d -> ws_closed d' = ws_closed d -> key_nonce d' = key_nonce d ->
  described d' = described d -> pc_closed d' = pc_closed d -> drain d' = drain d -> ws_sent d' = ws_sent d -> added d' = added d -> frame d d'.
Proof. intros. constructor; auto. Qed.

Lemma frame_on_error x d : frame d (on_error x d).
Proof. unfold on_error. destruct (_ && _); by apply frame_same. Qed.

Lemma frame_dispatch m d : frame d (dispatch m d).
Proof.
  unfold dispatch. repeat case_bool_decide; try apply frame_on_error; try (by apply frame_same).
  - unfold on_offer. destruct (negb (hooked d)); [by apply frame_same|]. destruct (_ <? _)%nat; by apply frame_same.
  - unfold on_candidate. destruct (negb (hooked d)); [by apply frame_same|]. cbv zeta.
    destruct (length (cands _) <? candidate_places)%nat; by apply frame_same.
Qed.

Lemma other_frame e d d' : other_step e d = Some d' -> frame d d'.
Proof.
  destruct e; cbn [other_step]; try done.
  - destruct (reader d); try done. destruct (ws_closed d); [done|]. intros [= <-]. apply frame_dispatch.
  - destruct (reader d); try done. destruct (ws_closed d) eqn:E; intros [= <-]; [by apply frame_same|].
    destruct (frame_on_error e d). by constructor.
  - destruct (reader d); try done; destruct (_ <? _)%nat; try done; intros [= <-]; by apply frame_same.
  - destruct (drain d) eqn:E, (cands d); try done; intros [= <-]; constructor; auto.
  - destruct (drain d) eqn:E; try done. intros [= <-]. constructor; auto.
  - destruct (described d) eqn:Ed; [|done]. intros [= <-]. unfold send. destruct (ws_closed d) eqn:E; [by apply frame_same|].
    constructor; auto. right. by exists c.
  - destruct (_ || _); [done|]. destruct (HasPrefix _ _); [intros [= <-]; by apply frame_same|].
    destruct (dc_ready d); intros [= <-]; by apply frame_same.
Qed.

(** What is true at a place stays true while the others run. *)
Lemma frame_phase d d' : frame d d' -> at_phase d -> (main d <> Connecting) -> at_phase d'.
Proof.
  intros [Em Ep Ew Ek Ed Ec Hdr Hs _] H Hne. assert (forall m, m ∈ ws_sent d -> m ∈ ws_sent d') as Hin.
  { intros m Hm. destruct Hs as [->|[c ->]]; [done|]. apply elem_of_app. by left. }
  assert (drain d <> Draining -> drain d' <> Draining) as Hd1 by (destruct Hdr as [->|[-> ->]]; done).
  assert (drain d <> NotStarted -> drain d' <> NotStarted) as Hd2 by (destruct Hdr as [->|[-> ->]]; done).
  assert (forall x, x = NotStarted \/ x = Draining -> drain d = x -> drain d' = x) as Hd3.
  { intros x Hx E. destruct Hdr as [->|[E' _]]; [done|]. rewrite E in E'. by destruct Hx as [->| ->]. }
  unfold at_phase in *. rewrite Em. destruct (main d) eqn:E; rewrite ?Ep, ?Ew, ?Ek, ?Ed, ?Ec; try done; try (destruct H as (? & ? & ? & ?); split_and!; by auto).
  - destruct H as (H1 & H2 & H3 & H4 & H5). split_and!; auto.
  - destruct H as (H1 & H2 & H3 & H0 & der & n & sdp & enc & H4 & H5 & H6). split_and!; auto. exists der, n, sdp, enc. auto.
  - destruct H as (H1 & H2 & H3 & H4 & H5 & der & n & sdp & enc & H6 & H7 & H8 & _). split_and!; auto. exists der, n, sdp, enc. auto.
  - destruct H as (H1 & H2 & H3). auto.
  - destruct H as (H1 & H2 & H3 & H4 & H5 & der & n & sdp & enc & H6 & H7 & H8 & H9). split_and!; auto. exists der, n, sdp, enc. auto.
Qed.

Lemma frame_sent d d' k : frame d d' -> sent_ok d k -> sent_ok d' k.
Proof.
  intros [_ _ _ _ _ _ _ Hs _] H. unfold sent_ok. destruct Hs as [->|[c ->]]; [done|]. apply Forall_app. split; [done|].
  constructor; [|constructor]. left. right. left. by exists c.
Qed.

(** * Candidates and the places of the channels *)

Definition cands_ok (d : dial) : Prop := exists taken, received d = taken ++ waiting d /\ added d = concat (map candidate_of taken).

Definition room_ok (d : dial) : Prop :=
  (length (offers d) <= offer_places)%nat /\ (length (cands d) <= candidate_places)%nat /\ (length (errs d) <= error_places)%nat.

Lemma on_error_queues x d : room_ok d -> room_ok (on_error x d) /\ received (on_error x d) = received d /\ added (on_error x d) = added d /\
  cands (on_error x d) = cands d /\ reader (on_error x d) = reader d.
Proof.
  intros (H1 & H2 & H3). unfold on_error. destruct (hooked d); cbn [andb]; [|by split_and!].
  destruct (Nat.ltb_spec (length (errs d)) error_places); [|by split_and!]. unfold room_ok. split_and!; try done.
  cbn [errs upd]. rewrite length_app. cbn [length]. lia.
Qed.

Lemma dispatch_queues m d : reader d = Reading -> room_ok d -> cands_ok d -> room_ok (dispatch m d) /\ cands_ok (dispatch m d).
Proof.
  intros Hr Hroom [taken [Ht Ha]]. assert (waiting d = cands d) as Hw by (unfold waiting; by rewrite Hr, app_nil_r).
  assert (forall d', reader d' = Reading -> cands d' = cands d -> received d' = received d -> added d' = added d -> cands_ok d') as Hsame.
  { intros d' H1 H2 H3 H4. exists taken. unfold waiting. rewrite H1, H2, H3, H4, app_nil_r. by rewrite <- Hw. }
  pose proof Hroom as (R1 & R2 & R3). unfold dispatch. repeat case_bool_decide.
  - split; [done|by apply Hsame].
  - unfold on_offer. destruct (hooked d); cbn [negb]; [|by split; [|by apply Hsame]].
    destruct (Nat.ltb_spec (length (offers d)) offer_places) as [Hl|Hl].
    + split; [|by apply Hsame]. unfold room_ok. split_and!; [|exact R2|exact R3]. cbn [offers upd]. rewrite length_app. cbn [length]. lia.
    + split; [done|]. exists taken. unfold waiting. cbn. by rewrite app_nil_r, <- Hw.
  - unfold on_candidate. destruct (hooked d); cbn [negb]; [|by split; [|by apply Hsame]]. cbv zeta.
    destruct (Nat.ltb_spec (length (cands (d <| received := received d ++ [m] |>))) candidate_places) as [Hl|Hl]; cbn in Hl.
    + split; [unfold room_ok; split_and!; [exact R1| |exact R3]; cbn [cands upd]; rewrite length_app; cbn [length]; lia|].
      exists taken. unfold waiting. cbn. by rewrite Hr, app_nil_r, Ht, Hw, app_assoc.
    + split; [done|]. exists taken. unfold waiting. cbn. by rewrite Ht, Hw, app_assoc.
  - destruct (on_error_queues (default [] (string_member $"message" m)) d Hroom) as (H4 & H5 & H6 & H7 & H8). split; [done|].
    apply Hsame; congruence.
  - split; [done|by apply Hsame].
Qed.

Lemma other_queues e d d' : other_step e d = Some d' -> room_ok d -> cands_ok d -> room_ok d' /\ cands_ok d'.
Proof.
  intros Hs Hroom Hc. pose proof Hroom as (R1 & R2 & R3). pose proof Hc as [taken [Ht Ha]].
  assert (forall d', reader d' = reader d -> cands d' = cands d -> received d' = received d -> added d' = added d -> cands_ok d') as Hsame.
  { intros d1 H1 H2 H3 H4. exists taken. unfold waiting. by rewrite H1, H2, H3, H4. }
  destruct e; cbn [other_step] in Hs; try done.
  - destruct (reader d) eqn:E; try done. destruct (ws_closed d); [done|]. injection Hs as <-. by apply dispatch_queues.
  - destruct (reader d) eqn:E; try done. assert (waiting d = cands d) as Hw by (unfold waiting; by rewrite E, app_nil_r).
    destruct (on_error_queues e d Hroom) as (H4 & H5 & H6 & H7 & H8).
    destruct (ws_closed d); injection Hs as <-; (split; [done|]); exists taken; unfold waiting; cbn; rewrite ?H5, ?H6, ?H7, app_nil_r; by rewrite <- Hw.
  - destruct (reader d) eqn:E; try done.
    + destruct (Nat.ltb_spec (length (offers d)) offer_places); [|done]. injection Hs as <-. split.
      * unfold room_ok. split_and!; [|exact R2|exact R3]. cbn [offers upd]. rewrite length_app. cbn [length]. lia.
      * exists taken. unfold waiting in *. cbn. by rewrite E in Ht.
    + destruct (Nat.ltb_spec (length (cands d)) candidate_places); [|done]. injection Hs as <-. split.
      * unfold room_ok. split_and!; [exact R1| |exact R3]. cbn [cands upd]. rewrite length_app. cbn [length]. lia.
      * exists taken. unfold waiting in *. cbn. by rewrite E, app_nil_r in *.
  - assert (forall m r, cands d = m :: r -> room_ok (d <| cands := r |> <| added := added d ++ candidate_of m |>) /\
      cands_ok (d <| cands := r |> <| added := added d ++ candidate_of m |>)) as Hd.
    { intros m r Em. split; [unfold room_ok; split_and!; [exact R1| |exact R3]; cbn [cands upd]; rewrite Em in R2; cbn in R2; lia|].
      exists (taken ++ [m]). unfold waiting in *. cbn. rewrite Em in Ht. cbn in Ht. rewrite <- app_assoc, map_app, concat_app, Ha. split; [done|].
      cbn. by rewrite app_nil_r. }
    destruct (drain d), (cands d) eqn:Ec; try done; injection Hs as <-; by apply Hd.
  - destruct (drain d); try done. injection Hs as <-. split; [done|by apply Hsame].
  - destruct (described d); [|done]. injection Hs as <-. unfold send. destruct (ws_closed d); [by split|]. split; [done|by apply Hsame].
  - destruct (_ || _); [done|]. destruct (HasPrefix _ _); [injection Hs as <-; by split|]. destruct (dc_ready d); injection Hs as <-; (split; [done|by apply Hsame]).
Qed.

(** * The invariant *)

Record dial_inv (d : dial) : Prop := {
  inv_phase : at_phase d;
  inv_sent : sent_ok d (key_nonce d);
  inv_pc : pc_closed d = true -> exists e, main d = Failed e;
  inv_drain : drain d = NotStarted -> added d = [];
  inv_described : drain d <> NotStarted -> described d = true;
  inv_cands : cands_ok d;
  inv_room : room_ok d
}.

Lemma start_inv : dial_inv start.
Proof. constructor; try done; [constructor|by exists []|unfold room_ok; cbn; lia]. Qed.

Lemma other_inv e d d' : dial_inv d -> other_step e d = Some d' -> dial_inv d'.
Proof.
  intros [H1 H2 H3 H4 H5 H6 H7] Hs. pose proof (other_frame e d d' Hs) as Hf. pose proof (other_queues e d d' Hs H7 H6) as [H7' H6'].
  assert (main d <> Connecting) as Hne.
  { intros E. unfold at_phase in H1. rewrite E in H1. subst d. destruct e; cbn in Hs; done. }
  destruct (Hf) as [Em Ep Ew Ek Ed Ec Hdr Hsent Had]. constructor; [by eapply frame_phase|rewrite Ek; by eapply frame_sent| | | |done|done].
  - rewrite Ec, Em. exact H3.
  - intros En. destruct Hdr as [E|[E1 E2]]; [|congruence]. destruct Had as [->|[Hx|Hx]]; [|congruence..]. apply H4. congruence.
  - intros En. rewrite Ed. apply H5. destruct Hdr as [<-|[-> _]]; done.
Qed.

(** What a step of [Dial] keeps: the candidates and the read loop, the queues growing no longer; WebRTC open where
    it was; and what was sent, but for reports of the route. *)
Record keeps (d d' : dial) : Prop := {
  kp_reader : reader d' = reader d; kp_cands : cands d' = cands d; kp_received : received d' = received d; kp_added : added d' = added d;
  kp_offers : (length (offers d') <= length (offers d))%nat; kp_errs : (length (errs d') <= length (errs d))%nat;
  kp_key : key_nonce d' = key_nonce d; kp_described : described d' = described d; kp_peer : peer d' = peer d
}.

Lemma keeps_refl d : keeps d d.
Proof. by constructor. Qed.

Lemma keeps_send m d0 d : keeps d0 d -> keeps d0 (send m d).
Proof. intros []. unfold send. destruct (ws_closed d); by constructor. Qed.

Lemma keeps_quit e d0 d : keeps d0 d -> keeps d0 (quit e d).
Proof. intros []. by constructor. Qed.
Lemma keeps_socket d0 d : keeps d0 d -> keeps d0 (close_socket d).
Proof. intros []. by constructor. Qed.
Lemma keeps_close d0 d : keeps d0 d -> keeps d0 (close_peer d).
Proof. intros []. by constructor. Qed.
Lemma keeps_drain d0 d : keeps d0 d -> keeps d0 (stop_drain d).
Proof. intros []. by constructor. Qed.
Lemma keeps_main p d0 d : keeps d0 d -> keeps d0 (d <| main := p |>).
Proof. intros []. by constructor. Qed.
Lemma keeps_errs x r d0 d : keeps d0 d -> errs d = x :: r -> keeps d0 (d <| errs := r |>).
Proof. intros [H1 H2 H3 H4 H5 H6] E. rewrite E in H6. cbn in H6. constructor; try done. cbn. lia. Qed.

Lemma keeps_queues d d' : keeps d d' -> room_ok d -> cands_ok d -> room_ok d' /\ cands_ok d'.
Proof.
  intros [H1 H2 H3 H4 H5 H6] (R1 & R2 & R3) [taken [Ht Ha]]. split; [unfold room_ok; rewrite H2; lia|]. exists taken. unfold waiting.
  by rewrite H1, H2, H3, H4.
Qed.

(** Failing: the socket is closed, the peer too if there is one, and the drain is told to stop if it runs. *)
Lemma failed_inv d d' e : dial_inv d -> keeps d d' -> main d' = Failed e -> ws_closed d' = true ->
  (peer d = true -> pc_closed d' = true) -> (drain d' = drain d \/ drain d' = Stopping) ->
  (drain d' = Stopping -> described d = true) -> drain d' <> Draining ->
  (ws_sent d' = ws_sent d \/ exists p r, ws_sent d' = ws_sent d ++ [path_message p r]) -> dial_inv d'.
Proof.
  intros [H1 H2 H3 H4 H5 H6 H7] Hk Em Ew Hpc Hdr Hdes Hnd Hs. destruct (keeps_queues d d' Hk H7 H6) as [H7' H6'].
  destruct Hk as [K1 K2 K3 K4 K5 K6 K7 K8 K9]. constructor; try done.
  - unfold at_phase. rewrite Em, K9. split_and!; auto.
  - rewrite K7. unfold sent_ok in *. destruct Hs as [->|(p & r & ->)]; [done|]. apply Forall_app. split; [done|].
    constructor; [|constructor]. left. right. right. by exists p, r.
  - intros _. by exists e.
  - intros E. rewrite K4. apply H4. destruct Hdr as [<-|E']; [done|congruence].
  - intros E. rewrite K8. destruct Hdr as [E'|E']; [apply H5; congruence|by apply Hdes].
Qed.

Lemma send_sent m d : ws_sent (send m d) = if ws_closed d then ws_sent d else ws_sent d ++ [m].
Proof. unfold send. by destruct (ws_closed d). Qed.

Lemma send_drain m d : drain (send m d) = drain d.
Proof. unfold send. by destruct (ws_closed d). Qed.

Lemma path_sent p r d : ws_sent (sendConnectionPath p r d) = ws_sent d \/
  exists p' r', ws_sent (sendConnectionPath p r d) = ws_sent d ++ [path_message p' r'].
Proof. unfold sendConnectionPath. rewrite send_sent. destruct (ws_closed d); [by left|right; by exists p, r]. Qed.

Lemma hang_drain e p r d : drain (quit e (close_socket (sendConnectionPath p r d))) = drain d.
Proof. exact (send_drain (path_message p r) d). Qed.

Lemma hang_sent e p r d : ws_sent (quit e (close_socket (sendConnectionPath p r d))) = ws_sent d \/
  exists p' r', ws_sent (quit e (close_socket (sendConnectionPath p r d))) = ws_sent d ++ [path_message p' r'].
Proof. exact (path_sent p r d). Qed.

Lemma dialFail_inv reason e d d0 : dial_inv d -> keeps d d0 -> main d = AwaitingChannel -> ws_sent d0 = ws_sent d -> dial_inv (dialFail reason e d0).
Proof.
  intros Hd Hk Em Es. pose proof (inv_phase _ Hd) as Hp. unfold at_phase in Hp. rewrite Em in Hp. destruct Hp as (_ & _ & Hdes & Hdrain & _).
  assert (drain (dialFail reason e d0) = Stopping) as Hdr by (exact (send_drain (path_message $"failed" reason) (stop_drain d0))).
  apply (failed_inv d _ e); [done| |done|done|done|by right|done|by rewrite Hdr|].
  - unfold dialFail. apply keeps_quit, keeps_socket, keeps_close. by apply keeps_send, keeps_drain.
  - rewrite <- Es. apply (path_sent $"failed" reason (stop_drain d0)).
Qed.

(** Going on: what is true at the next place, with nothing but harmless messages sent. *)
Lemma next_inv d d' : dial_inv d -> keeps d d' -> at_phase d' -> pc_closed d' = pc_closed d -> (forall e, main d <> Failed e) ->
  drain d' = drain d \/ (drain d' <> NotStarted /\ described d = true) -> sent_ok d' (key_nonce d') -> dial_inv d'.
Proof.
  intros [H1 H2 H3 H4 H5 H6 H7] Hk Hp Hc Hf Hdr Hs. destruct (keeps_queues d d' Hk H7 H6) as [H7' H6'].
  destruct Hk as [K1 K2 K3 K4 K5 K6 K7 K8 K9]. constructor; try done.
  - rewrite Hc. intros E. destruct (H3 E) as [e He]. by destruct (Hf e).
  - intros E. rewrite K4. apply H4. destruct Hdr as [<-|[E' _]]; done.
  - intros E. rewrite K8. destruct Hdr as [E'|[_ E']]; [apply H5; congruence|done].
Qed.

Lemma sent_more d d' m : sent_ok d (key_nonce d) -> key_nonce d' = key_nonce d -> ws_sent d' = (if ws_closed d then ws_sent d else ws_sent d ++ [m]) ->
  harmless m \/ (exists der nonce sdp enc, key_nonce d = Some (der, nonce) /\ sealed der nonce sdp enc /\ m = answer_message sdp enc) ->
  sent_ok d' (key_nonce d').
Proof.
  unfold sent_ok. intros H -> -> Hm. destruct (ws_closed d); [done|]. apply Forall_app. split; [done|]. by constructor.
Qed.

(** Failing before the drain runs. *)
Lemma early_failed_inv d d' e : dial_inv d -> keeps d d' -> main d' = Failed e -> ws_closed d' = true -> (peer d = true -> pc_closed d' = true) ->
  drain d = NotStarted -> drain d' = NotStarted ->
  (ws_sent d' = ws_sent d \/ exists p r, ws_sent d' = ws_sent d ++ [path_message p r]) -> dial_inv d'.
Proof. intros Hd Hk Hm Hw Hp E1 E2 Hs. apply (failed_inv d d' e); try done; [by left; congruence|congruence..]. Qed.

Lemma connect_inv d d' e : dial_inv d -> main d = Connecting \/ main d = Hooking \/ main d = Requesting -> main_step e d = Some d' -> dial_inv d'.
Proof.
  intros Hd Hm Hs. pose proof (inv_phase _ Hd) as Hp. unfold at_phase in Hp. unfold Dial.main_step in Hs.
  destruct Hm as [Em|[Em|Em]]; rewrite Em in Hp, Hs; destruct e; try done; injection Hs as <-.
  - subst d. assert (forall d1, ws_sent d1 = [] -> sent_ok d1 (key_nonce d1)) as Hnil by (intros d1 E; unfold sent_ok; rewrite E; constructor).
    assert (forall x, x = NoUID \/ x = NoSocket -> dial_inv (quit x start)) as Hq.
    { intros x Hx. constructor; try done; [|by apply Hnil|by exists []|unfold room_ok; cbn; lia]. by destruct Hx as [-> | ->]; split_and!; auto. }
    case_bool_decide; [by apply Hq; left|]. destruct ok; [|by apply Hq; right].
    constructor; try done; [by apply Hnil|by exists []|unfold room_ok; cbn; lia].
  - apply (next_inv d); try done; [by rewrite Em|by left|by apply Hd].
  - destruct Hp as (P1 & P2 & P3 & P4). destruct ok.
    + apply (next_inv d); try done; [by apply keeps_send, keeps_main, keeps_refl| |by unfold send; rewrite P2|by rewrite Em| |].
      * unfold at_phase. unfold send. rewrite P2. done.
      * left. by rewrite send_drain.
      * apply (sent_more d _ (request_message (Caps o) 3 (ForceRelay o))); [by apply Hd|unfold send; by rewrite P2|unfold send; by rewrite P2|].
        left. by left.
    + apply (early_failed_inv d _ NoRequest); try done; [by rewrite P1|by left].
Qed.

Lemma offer_inv d d' e : dial_inv d -> main d = AwaitingOffer -> main_step e d = Some d' -> dial_inv d'.
Proof.
  intros Hd Em Hs. pose proof (inv_phase _ Hd) as Hp. unfold at_phase in Hp. unfold Dial.main_step in Hs. rewrite Em in Hp, Hs.
  destruct Hp as (P1 & P2 & P3 & P4). destruct e; try done.
  - destruct (offers d) as [|m r] eqn:Eo; [done|]. injection Hs as <-. apply (next_inv d); try done; [|by rewrite Em|by left|by apply Hd].
    constructor; try done. cbn. rewrite Eo. cbn. lia.
  - destruct (errs d) as [|x r] eqn:Ee; [done|]. injection Hs as <-. apply (early_failed_inv d _ (Signaled x)); try done.
    + apply keeps_quit, keeps_socket, keeps_send. eapply keeps_errs; [apply keeps_refl|exact Ee].
    + by rewrite P1.
    + by rewrite hang_drain.
    + pose proof (hang_sent (Signaled x) $"failed" $"signaling_error" (d <| errs := r |>)) as H. exact H.
  - injection Hs as <-. apply (early_failed_inv d _ OfferTimeout); try done.
    + by apply keeps_quit, keeps_socket, keeps_send, keeps_refl.
    + by rewrite P1.
    + by rewrite hang_drain.
    + apply hang_sent.
Qed.

Lemma peer_inv d d' e : dial_inv d -> (exists m, main d = Building m \/ main d = Offered m) -> main_step e d = Some d' -> dial_inv d'.
Proof.
  intros Hd [m Hm] Hs. pose proof (inv_phase _ Hd) as Hp. unfold at_phase in Hp. unfold Dial.main_step in Hs.
  destruct Hm as [Em|Em]; rewrite Em in Hp, Hs; destruct Hp as (P1 & P2 & P3 & P4); destruct e as [| | | | | |ok|local drawn| | | | | | | | | | |]; try done; injection Hs as <-.
  - destruct ok.
    + pose proof Hd as [H1 H2 H3 H4 H5 H6 H7]. constructor; try done. intros E. destruct (H3 E) as [x Hx]. congruence.
    + apply (early_failed_inv d _ NoPeer); try done; [by rewrite P1|by left].
  - destruct (HandleOffer is_rsa Encrypt ModeURL (UID o) (Code o) m local drawn) as [[[sdp enc] kn]|x] eqn:Eh.
    + destruct (HandleOffer_sealed _ _ _ _ _ _ Eh) as (der & nonce & -> & Hsl).
      pose proof Hd as [H1 H2 H3 H4 H5 H6 H7]. constructor; try done.
      * unfold at_phase. cbn. split_and!; try done. by exists der, nonce.
      * unfold sent_ok in *. rewrite P3 in H2. eapply Forall_impl; [exact H2|]. intros y [?|(? & ? & ? & ? & ? & _)]; [by left|done].
      * intros E. destruct (H3 E) as [x Hx]. congruence.
    + apply (early_failed_inv d _ (BadOffer x)); try done; by left.
Qed.

Lemma answer_inv d d' e sdp enc : dial_inv d -> main d = Answering sdp enc -> main_step e d = Some d' -> dial_inv d'.
Proof.
  intros Hd Em Hs. pose proof (inv_phase _ Hd) as Hp. unfold at_phase in Hp. unfold Dial.main_step in Hs. rewrite Em in Hp, Hs.
  destruct Hp as (P1 & P2 & P3 & P4 & der & nonce & Hk & Hsl). destruct e as [| | | | | | | |ok| | | | | | | | | |]; try done. injection Hs as <-.
  destruct ok.
  - assert (answer_message sdp enc ∈ ws_sent d ++ [answer_message sdp enc]) as Hin by (apply elem_of_app; right; by left).
    unfold send. cbn [ws_closed upd]. rewrite P2. apply (next_inv d); try done; [|by rewrite Em|by right|].
    + unfold at_phase. cbn. split_and!; try done. by exists der, nonce, sdp, enc.
    + apply (sent_more d _ (answer_message sdp enc)); [by apply Hd|done|by rewrite P2|]. right. by exists der, nonce, sdp, enc.
  - apply (early_failed_inv d _ NoAnswer); try done; by left.
Qed.

Lemma channel_inv d d' e : dial_inv d -> main d = AwaitingChannel -> main_step e d = Some d' -> dial_inv d'.
Proof.
  intros Hd Em Hs. pose proof (inv_phase _ Hd) as Hp. unfold at_phase in Hp. unfold Dial.main_step in Hs. rewrite Em in Hp, Hs.
  destruct Hp as (P1 & P2 & P3 & P4 & der & nonce & sdp & enc & Hk & Hsl & Hin). destruct e as [| | | | | | | | |route| | | | | | | | |]; try done.
  - destruct (errs d) as [|y r] eqn:Ee; [done|]. injection Hs as <-. apply (dialFail_inv _ _ d); try done. eapply keeps_errs; [apply keeps_refl|exact Ee].
  - destruct (dc_ready d); [|done]. injection Hs as <-. unfold close_socket, stop_drain, sendConnectionPath, send. rewrite P2. cbn [upd].
    apply (next_inv d); try done; [|by rewrite Em|by right|].
    + unfold at_phase. cbn. split_and!; try done. exists der, nonce, sdp, enc. split_and!; try done. apply elem_of_app. by left.
    + apply (sent_more d _ (path_message route [])); [by apply Hd|done|by rewrite P2|]. left. right. right. by exists route, [].
  - injection Hs as <-. by apply (dialFail_inv _ _ d).
Qed.

Lemma verify_inv d d' e : dial_inv d -> main d = Verifying -> main_step e d = Some d' -> dial_inv d'.
Proof.
  intros Hd Em Hs. pose proof (inv_phase _ Hd) as Hp. unfold at_phase in Hp. unfold Dial.main_step in Hs. rewrite Em in Hp, Hs.
  destruct Hp as (P1 & P2 & P3 & P4 & P5 & der & nonce & sdp & enc & Hk & Hsl & Hin & _). destruct e as [| | | | | | | | | | |sends prompt ws| | | | | | |]; try done.
  rewrite Hk in Hs. cbn [fmap option_fmap option_map snd default] in Hs. unfold id in Hs.
  destruct (handshake nonce sends prompt (path_of o) (Some (Caps o)) ws) as [s r] eqn:Eh. injection Hs as <-.
  destruct r as [[]|x].
  - apply (next_inv d); try done; [|by rewrite Em|by left|by apply Hd]. unfold at_phase. cbn. split_and!; try done.
    exists der, nonce, sdp, enc. split_and!; try done. by exists sends, prompt, ws.
  - apply (failed_inv d _ (Handshaking x)); try done; [by left|by left].
Qed.

Lemma exec_inv e d d' : dial_inv d -> exec e d = Some d' -> dial_inv d'.
Proof.
  intros Hd [_ [Hs|Hs]]%dial_exec_cases; [|by eapply other_inv]. destruct (main d) eqn:Em.
  - eapply connect_inv; eauto.
  - eapply connect_inv; eauto.
  - eapply connect_inv; eauto.
  - by eapply offer_inv.
  - eapply peer_inv; eauto.
  - eapply peer_inv; eauto.
  - by eapply answer_inv.
  - by eapply channel_inv.
  - by eapply verify_inv.
  - unfold Dial.main_step in Hs. by rewrite Em in Hs.
  - unfold Dial.main_step in Hs. by rewrite Em in Hs.
Qed.

Lemma run_inv es d : run es start = Some d -> dial_inv d.
Proof. apply (run_invariant dial_inv); [|apply start_inv]. intros e d1 d2. apply exec_inv. Qed.

(** * What a dial promises *)

(** C6: A connection is to the device the URL names, and the access code is only ever said to that device. When
    [Dial] returns a session, it answered the offer with one payload sealed for a key whose hash is the UID, with
    the fingerprint of its own description and the access code inside, and the first thing the device said on the
    channel was the hash of the nonce in that payload. Whatever else went over signaling was the request, candidates
    and a report of the route; and a dial that fails has said no more than that. *)
Theorem dial_reaches_device es d : run es start = Some d ->
  sent_ok d (key_nonce d) /\
  forall s, main d = Connected s -> exists der nonce sdp enc sends prompt ws,
    key_nonce d = Some (der, nonce) /\ sealed der nonce sdp enc /\ answer_message sdp enc ∈ ws_sent d /\
    handshake nonce sends prompt (path_of o) (Some (Caps o)) ws = (s, Ok tt) /\
    exists w msg, head ws = Some w /\ recvControl w = Ok msg /\ verifies nonce msg = Ok tt.
Proof.
  intros [Hp Hs _ _ _ _ _]%run_inv. split; [done|]. intros s Em. unfold at_phase in Hp. rewrite Em in Hp.
  destruct Hp as (_ & _ & _ & _ & _ & der & nonce & sdp & enc & Hk & Hsl & Hin & sends & prompt & ws & Hh).
  exists der, nonce, sdp, enc, sends, prompt, ws. split_and!; try done.
  unfold handshake in Hh. destruct ws as [|w ws]; [done|]. exists w. destruct (recvControl w) as [msg|x] eqn:Ew; cbn [result_bind] in Hh; [|done].
  exists msg. split_and!; [done|done|]. by destruct (verifies nonce msg) as [[]|].
Qed.

(** A dial loses no candidate and leaves nothing behind. At any time the candidates given to WebRTC are the first
    of those received, in order, and the rest wait in the channel (of sixteen) or in the hands of the read loop; none
    is given before the offer is set. A dial that failed has closed its socket and its end of the connection and has
    told the drain to stop; one that succeeded has closed the socket and keeps the connection. *)
Theorem dial_cleans_up es d : run es start = Some d ->
  cands_ok d /\ room_ok d /\ (added d <> [] -> described d = true) /\
  (forall e, main d = Failed e -> (e = NoUID \/ e = NoSocket \/ ws_closed d = true) /\ (peer d = true -> pc_closed d = true) /\ drain d <> Draining) /\
  (forall s, main d = Connected s -> ws_closed d = true /\ peer d = true /\ pc_closed d = false /\ drain d <> Draining).
Proof.
  intros [Hp _ Hpc Hdr Hdes Hc Hroom]%run_inv. split_and!; [done|done| |..].
  - intros Ha. apply Hdes. intros E. by apply Ha, Hdr.
  - intros e Em. unfold at_phase in Hp. by rewrite Em in Hp.
  - intros s Em. unfold at_phase in Hp. rewrite Em in Hp. destruct Hp as (P1 & P2 & _ & P3 & _). split_and!; try done.
    destruct (pc_closed d); [|done]. destruct (Hpc eq_refl) as [e He]. congruence.
Qed.

(** How far [Dial] has to go. *)
Definition rank (p : phase) : nat :=
  match p with
  | Connecting => 9 | Hooking => 8 | Requesting => 7 | AwaitingOffer => 6 | Building _ => 5 | Offered _ => 4 | Answering _ _ => 3
  | AwaitingChannel => 2 | Verifying => 1 | Failed _ | Connected _ => 0
  end.

Definition of_dial (e : event) : bool :=
  match e with Receives _ | ReadFails _ | HandsOver | Drains | DrainStops | Gathers _ | Opens _ => false | _ => true end.

Lemma exec_rank e d d' : exec e d = Some d' -> (rank (main d') + (if of_dial e then 1 else 0) <= rank (main d))%nat.
Proof.
  assert (forall m d, main (send m d) = main d) as Hsend by (intros m d1; unfold send; by destruct (ws_closed d1)).
  intros [_ [Hs|Hs]]%dial_exec_cases.
  - unfold Dial.main_step in Hs. destruct (main d) eqn:Em; destruct e; try done.
    + injection Hs as <-. case_bool_decide; [cbn; lia|]. destruct ok; cbn; lia.
    + injection Hs as <-. cbn. lia.
    + injection Hs as <-. destruct ok; rewrite ?Hsend; cbn; lia.
    + destruct (offers d); [done|]. injection Hs as <-. cbn. lia.
    + destruct (errs d); [done|]. injection Hs as <-. cbn. lia.
    + injection Hs as <-. cbn. lia.
    + injection Hs as <-. destruct ok; cbn; lia.
    + injection Hs as <-. destruct (HandleOffer _ _ _ _ _ _ _ _) as [[[? ?] ?]|]; cbn; lia.
    + injection Hs as <-. destruct ok; rewrite ?Hsend; cbn; lia.
    + destruct (errs d); [done|]. injection Hs as <-. cbn. lia.
    + destruct (dc_ready d); [|done]. injection Hs as <-. cbn. rewrite ?Hsend. cbn. lia.
    + injection Hs as <-. cbn. lia.
    + destruct (handshake _ _ _ _ _ _) as [s [?|?]]; injection Hs as <-; cbn; lia.
  - pose proof (other_frame e d d' Hs) as [-> _ _ _ _ _ _ _ _]. destruct e; cbn in *; try lia; done.
Qed.

(** The way out of each place that takes nothing but a call that returns or a timer that fires. *)
Definition way_out (d : dial) : list event :=
  match main d with
  | Connecting => [Connects false] | Hooking => [Hook; Request false] | Requesting => [Request false] | AwaitingOffer => [OfferTimer]
  | Building _ => [Build false] | Offered _ => [Offer None None] | Answering _ _ => [Answer false] | AwaitingChannel => [ChannelTimer]
  | Verifying => [Shake (fun _ => true) None [TimedOut]] | Failed _ | Connected _ => []
  end.

(** A dial has an end in sight. [Dial] itself takes at most nine steps, the handshake counting as one, whatever
    the other goroutines do in between and however long; and from every place it can reach, its own calls and timers
    are enough to end it, with no message from the server or the device, unless the process has died. (What a device
    can draw out is the handshake: [handshake_without_end].) *)
Theorem dial_returns es d : run es start = Some d ->
  (length (filter (fun e => of_dial e = true) es) + rank (main d) <= 9)%nat /\
  (panicked d = false -> exists d', run (way_out d) d = Some d' /\ finished d' = true).
Proof.
  intros Hr. split.
  - change 9%nat with (rank (main start)). revert Hr. generalize start. induction es as [|e es IH]; intros d0; cbn [Dial.run].
    + intros [= <-]. cbn. lia.
    + destruct (exec e d0) as [d1|] eqn:E; [|done]. intros Hr. specialize (IH d1 Hr). apply exec_rank in E. rewrite filter_cons.
      destruct (of_dial e); cbn [length] in *; case_decide; try done; cbn [length]; lia.
  - intros Hpan. unfold way_out. destruct (main d) eqn:Em; cbn [Dial.run]; unfold Dial.exec; rewrite ?Hpan; unfold Dial.main_step; rewrite ?Em;
      try (eexists; split; [reflexivity|unfold finished; by rewrite ?Em]).
    + eexists. split; [reflexivity|]. by case_bool_decide.
    + cbn [panicked upd main]. rewrite Hpan. eexists. by split.
    + destruct (HandleOffer _ _ _ _ _ _ _ _) as [[[s enc] kn]|x] eqn:Eh; [|eexists; by split].
      exfalso. unfold HandleOffer in Eh. destruct (default [] _); [done|]. destruct (default [] _); [done|].
      destruct (importDevicePubkey _ _); [|done]. by case_bool_decide.
Qed.

End Spec.
(** * On paper *)

Definition paper_events : list event :=
  paper_start ++ [Receives paper_candidate; Receives paper_offer; TakeOffer; Build true; Offer (Some demo_sdp) (Some demo_nonce);
    Answer true; Drains; Opens []; TakeReady $"direct"; Shake (fun _ => true) (Some demo_prompt) demo_ws].

(** The state a run ends in, and what can be read off it. *)
Lemma paper_ends (es : list event) (view : dial -> bool) : match paper_run es start with Some d => view d | None => false end = true ->
  exists d, paper_run es start = Some d /\ view d = true.
Proof. destruct (paper_run es start) as [d|]; [|done]. by exists d. Qed.

Definition connected (d : dial) : bool := match main d with Connected _ => true | _ => false end.
Definition failed_with_peer (d : dial) : bool := match main d with Failed (BadOffer PeerFailed) => peer d | _ => false end.
Definition alive (d : dial) : bool := negb (panicked d) && negb (finished d).

Lemma dial_reaches_device_witness : exists d s der nonce, paper_run paper_events start = Some d /\ main d = Connected s /\
  key_nonce d = Some (der, nonce) /\ uidFromPubkeyDER der = UID paper_options.
Proof.
  destruct (paper_ends paper_events connected) as (d & E & Hc); [vm_compute; reflexivity|].
  unfold connected in Hc. destruct (main d) as [| | | | | | | | | |s] eqn:Em; try discriminate Hc.
  destruct (dial_reaches_device _ _ paper_options _ _ E) as [_ H].
  destruct (H s Em) as (der & nonce & sdp & enc & _ & _ & _ & Hk & (_ & Hu & _) & _).
  exists d, s, der, nonce. exact (conj E (conj Em (conj Hk Hu))).
Defined.

Definition broken_offer : list event := paper_start ++ [Receives paper_offer; TakeOffer; Build true; Offer None None].

Lemma dial_cleans_up_witness : exists d, paper_run broken_offer start = Some d /\ ws_closed d = true /\ pc_closed d = true.
Proof.
  destruct (paper_ends broken_offer failed_with_peer) as (d & E & Hc); [vm_compute; reflexivity|].
  unfold failed_with_peer in Hc. destruct (main d) as [| | | | | | | | |e|] eqn:Em; try discriminate Hc. destruct e as [| | | | | |e| | |]; try discriminate Hc.
  destruct e; try discriminate Hc. destruct (dial_cleans_up _ _ paper_options _ _ E) as (_ & _ & _ & H & _).
  destruct (H _ Em) as ([Hx|[Hx|Hw]] & Hp & _); [discriminate Hx|discriminate Hx|]. exists d. exact (conj E (conj Hw (Hp Hc))).
Defined.

Lemma dial_returns_witness : exists d d', paper_run paper_start start = Some d /\ paper_run (way_out d) d = Some d' /\ finished d' = true.
Proof.
  destruct (paper_ends paper_start alive) as (d & E & Hc); [vm_compute; reflexivity|].
  destruct (dial_returns _ _ paper_options _ _ E) as [_ H]. assert (panicked d = false) as Hp by (unfold alive in Hc; by destruct (panicked d)).
  destruct (H Hp) as (d' & H1 & H2). exists d, d'. exact (conj E (conj H1 H2)).
Defined.

(** * What goes wrong *)

Definition refusal : message := [($"type", JString $"error"); ($"message", JString $"device offline")].

(** [Dial] sets its callbacks when the read loop already runs: an error before that is lost, and the dial goes on
    to wait for an offer. *)
Lemma early_error_lost :
  paper_run [Connects true; Receives refusal; Hook; Request true] start = paper_run paper_start start /\
  (main <$> paper_run (paper_start ++ [Receives refusal; TakeError]) start) = Some (Failed (Signaled $"device offline")).
Proof. vm_compute. done. Qed.

(** The seventeenth candidate before the offer stops the read loop for good: the offer behind it is never read,
    since nothing drains the candidates until an offer is answered. *)
Definition crowded : option dial := paper_run (paper_start ++ replicate 17 (Receives paper_candidate)) start.

Lemma candidates_hide_offer :
  (reader <$> crowded) = Some (HandsCandidate paper_candidate) /\ (main <$> crowded) = Some AwaitingOffer /\
  (crowded ≫= paper_run [Receives paper_offer]) = None /\ (crowded ≫= paper_run [HandsOver]) = None /\
  (crowded ≫= paper_run [Drains]) = None /\ (crowded ≫= paper_run [TakeOffer]) = None /\
  (main <$> (crowded ≫= paper_run [OfferTimer])) = Some (Failed OfferTimeout).
Proof. vm_compute. done. Qed.

(** A second channel that is not a media channel closes [dcReady] again, which panics. *)
Lemma second_channel_panics :
  (panicked <$> paper_run (paper_start ++ [Receives paper_offer; TakeOffer; Build true; Offer (Some demo_sdp) (Some demo_nonce); Answer true;
    Opens $"chat"; Opens $"bitbang-stream/h264"; Opens $"chat"]) start) = Some true.
Proof. vm_compute. done. Qed.

(** The dial timeout does not cover the handshake: a device that has proved itself can hold the connector with
    control messages it ignores for as long as it likes. *)
Definition ignored_payload : bytes := print_json (JObject [($"type", JString $"later")]).
Definition ignored : waited := Arrived (Some (Protocol.BuildFrame 0 Protocol.FlagSYN ignored_payload)).

Lemma ignored_loop n s retry : control_loop (fun _ => true) (Some demo_prompt) (replicate n ignored) s retry = (s, Err NotFinished).
Proof.
  assert (Protocol.ParseFrame (Protocol.BuildFrame 0 Protocol.FlagSYN ignored_payload) = Ok (Protocol.mkFrame 0 1 ignored_payload)) as Ep
    by (vm_compute; reflexivity).
  assert (control_field decode_string [] $"type" ignored_payload = $"later") as Et by (vm_compute; reflexivity).
  induction n as [|n IH]; [done|]. cbn [replicate control_loop recvControl ignored]. rewrite Ep.
  cbn [Protocol.StreamID Protocol.Payload]. rewrite Et. exact IH.
Qed.

Lemma handshake_without_end n : exists s,
  handshake demo_nonce (fun _ => true) (Some demo_prompt) $"/" None (take 1 demo_ws ++ replicate n ignored) = (s, Err NotFinished).
Proof.
  unfold handshake, demo_ws. cbn [take app].
  assert (recvControl (Buffered (Some (buildVerifyNonceHashFrame demo_nonce))) = Ok (buildVerifyNonceHashFrame demo_nonce)) as -> by reflexivity.
  cbn [result_bind]. assert (verifies demo_nonce (buildVerifyNonceHashFrame demo_nonce) = Ok tt) as -> by (vm_compute; reflexivity).
  eexists. apply ignored_loop.
Qed.
