(* ===== verification/Tmux.v ===== *)
(** The plumbing of a share (internal/share/tmux.go, state.go): how the session to share is found, the words of
    the command that hosts its worker, and the files a share leaves.

    tmux is a function from its arguments to what it prints, if it succeeds; the environment and the symbolic
    links of the host are inputs. *)

From S2P Require Import Prelude GoLib Wire JsonRoundTrip Json JsonIndent Sha256 GoTime.

(** * Strings *)

Definition single : ascii := "'"%char.
Definition backslash : ascii := "\"%char.
Definition newline : ascii := chr 10.
Definition tab : ascii := chr 9.

(** [strings.Cut] at a byte. *)
Definition Cut (s : bytes) (c : ascii) : option (bytes * bytes) := match IndexByte s c with Some i => Some (take i s, drop (S i) s) | None => None end.

(** [strings.CutPrefix]. *)
Definition CutPrefix (s prefix : bytes) : option bytes := if HasPrefix s prefix then Some (drop (length prefix) s) else None.

(** [ShellQuote]: single quotes, with each single quote inside made a word of its own. *)
Definition ShellQuote (s : bytes) : bytes :=
  match s with
  | [] => [single; single]
  | _ => [single] ++ flat_map (fun c => if decide (c = single) then [single; backslash; single; single] else [c]) s ++ [single]
  end.

(** * Finding the session *)

(** [Runner.Run]: what tmux prints, trimmed, where it exits with success. *)
Definition Runner := list bytes -> option bytes.

(** [SocketFromEnv], of the value of [TMUX] (empty where it is not set). *)
Definition SocketFromEnv (env : bytes) : bytes :=
  match env with
  | [] => []
  | _ => match IndexByte env comma with Some (S i) => take (S i) env | _ => [] end
  end.

Record Target := mkTarget { t_Socket : bytes; t_SessionID : bytes; t_SessionName : bytes }.

Inductive tmux_error := NotInside | OtherServer (socket enclosing : bytes) | TmuxFailed | Unresolved (out : bytes) | TooOld (out : bytes).

Section Host.
(** [filepath.EvalSymlinks]. *)
Variable EvalSymlinks : bytes -> option bytes.

Definition sameSocket (a b : bytes) : bool :=
  bool_decide (a = b) ||
  match EvalSymlinks a, EvalSymlinks b with Some ra, Some rb => bool_decide (ra = rb) | _, _ => false end.

Definition discover_format : bytes :=
  $"#{session_id}" ++ [tab] ++ $"#{session_name}" ++ [tab] ++ $"#{socket_path}".

(** [Discover]: [sock] is the socket of the runner, [env] is [TMUX]. *)
Definition Discover (r : Runner) (sock env targetFlag : bytes) : result tmux_error Target :=
  let args := [$"display-message"; $"-p"] in
  let! args := match targetFlag with
    | [] =>
      match SocketFromEnv env with
      | [] => Err NotInside
      | enclosing => if bool_decide (sock <> []) && negb (sameSocket sock enclosing) then Err (OtherServer sock enclosing) else Ok args
      end
    | _ => Ok (args ++ [$"-t"; targetFlag])
    end in
  match r (args ++ [discover_format]) with
  | None => Err TmuxFailed
  | Some out =>
    match Split out tab with
    | id :: name :: rest =>
      if HasPrefix id $"$" then Ok (mkTarget (match rest with s :: _ => TrimSpace s | [] => [] end) id name) else Err (Unresolved out)
    | _ => Err (Unresolved out)
    end
  end.

End Host.

(** [strconv.Atoi] with its error ignored: digits beyond the range are its maximum. *)
Definition atoi_capped (ds : bytes) : Z := match digits_value 0 ds with Some z => Z.min z MaxInt64 | None => 0 end.

(** The first match of [tmuxVersionRe], (\d+)\.(\d+). *)
Fixpoint version_match (fuel : nat) (s : bytes) : option (bytes * bytes) :=
  match fuel, s with
  | S n, c :: r =>
    if is_digit c then
      let '(major, rest) := span is_digit s in
      match rest with
      | d :: rest' =>
        let '(minor, _) := span is_digit rest' in
        if bool_decide (d = dot) && bool_decide (minor <> []) then Some (major, minor) else version_match n rest
      | [] => None
      end
    else version_match n r
  | _, _ => None
  end.

Definition CheckVersion (r : Runner) : result tmux_error unit :=
  match r [$"-V"] with
  | None => Err TmuxFailed
  | Some out =>
    match version_match (length out) out with
    | None => Ok tt
    | Some (m, n) =>
      let major := atoi_capped m in let minor := atoi_capped n in
      if (major >? 3) || ((major =? 3) && (minor >=? 2)) then Ok tt else Err (TooOld out)
    end
  end.

Definition EffectiveWindowSize (r : Runner) (sessionID : bytes) : bytes :=
  match r [$"show-options"; $"-w"; $"-t"; sessionID; $"-Aqv"; $"window-size"] with Some out => TrimSpace out | None => [] end.

(** * The environment of the attach commands *)

Definition usableTERM (term : bytes) : bool := negb (bool_decide (term ∈ [[]; $"dumb"; $"unknown"])).

Definition is_tmux_var (kv : bytes) : bool := HasPrefix kv $"TMUX=" || HasPrefix kv $"TMUX_PANE=".
Definition term_of (kv : bytes) : option bytes := CutPrefix kv $"TERM=".
Definition default_term : bytes := $"TERM=xterm-256color".

(** The loop of [AttachEnv] gives what it keeps, and whether a terminal type was among it. *)
Fixpoint attach_loop (base : list bytes) : list bytes * bool :=
  match base with
  | [] => ([], false)
  | kv :: rest =>
    let '(out, hasTerm) := attach_loop rest in
    if is_tmux_var kv then (out, hasTerm)
    else match term_of kv with
         | Some term => if usableTERM term then (kv :: out, true) else (out, hasTerm)
         | None => (kv :: out, hasTerm)
         end
  end.

Definition AttachEnv (base : list bytes) : list bytes :=
  let '(out, hasTerm) := attach_loop base in if hasTerm then out else out ++ [default_term].

(** * The directory of a share *)

Definition hex_byte (c : ascii) : bytes := [to_hex (code c / 16); to_hex (code c mod 16)].

(** [TargetHash]: the key of a share, from the socket and the session ID. *)
Definition target_text (socket sessionID : bytes) : bytes := socket ++ [chr 0] ++ sessionID.
Definition TargetHash (socket sessionID : bytes) : bytes := flat_map hex_byte (take 12 (Sum256 (target_text socket sessionID))).

Definition LockPathFor (stateDir : bytes) : bytes := stateDir ++ $".lock".

(** The file a worker explains itself in. *)
Definition SaveStartupError (nonce msg : bytes) : bytes := nonce ++ [newline] ++ msg.

(** [TakeStartupError] of what is in that file, which it removes. *)
Definition TakeStartupError (data : option bytes) (nonce : bytes) : bytes :=
  match data with
  | None => []
  | Some data => match Cut data newline with
                 | Some (stamp, msg) => if bool_decide (stamp = nonce) then TrimSpace msg else []
                 | None => []
                 end
  end.

(** * The state of a share *)

(** Times are instants; [ZeroTime] is the zero [time.Time]. *)
Definition ZeroTime : Z := 0.

Record State := mkState {
  Socket : bytes; SessionID : bytes; SessionName : bytes; MgmtSession : bytes; UID : bytes; Server : bytes;
  ControlURL : bytes; ViewURL : bytes; MaxViewers : Z; Nonce : bytes; CreatedAt : Z; ExpiresAt : Z; TTLSeconds : Z
}.

#[export] Instance State_eq_dec : EqDecision State.
Proof. solve_decision. Defined.

Definition no_state : State := mkState [] [] [] [] [] [] [] [] 0 [] ZeroTime ZeroTime 0.

Section Times.
(** [time.Time.MarshalJSON] and [UnmarshalJSON]. *)
Variable print_time : Z -> bytes.
Variable parse_time : bytes -> option Z.

Definition decode_time : decoder Z := fun old j =>
  match j with
  | JNull => (old, true)
  | JString s => match parse_time s with Some t => (t, true) | None => (old, false) end
  | _ => (old, false)
  end.

Definition omit_empty (key s : bytes) : list (bytes * json) := match s with [] => [] | _ => [(key, JString s)] end.

Definition state_json (st : State) : json := JObject (
  omit_empty $"socket" (Socket st) ++ [($"session_id", JString (SessionID st))] ++ omit_empty $"session_name" (SessionName st) ++
  [($"mgmt_session", JString (MgmtSession st)); ($"uid", JString (UID st)); ($"server", JString (Server st))] ++
  omit_empty $"control_url" (ControlURL st) ++ [($"view_url", JString (ViewURL st)); ($"max_viewers", JInt (MaxViewers st))] ++
  omit_empty $"nonce" (Nonce st) ++ [($"created_at", JString (print_time (CreatedAt st)))] ++
  (if ExpiresAt st =? ZeroTime then [] else [($"expires_at", JString (print_time (ExpiresAt st)))]) ++
  [($"ttl_seconds", JInt (TTLSeconds st))]).

(** [SaveState] replaces the file by this. *)
Definition state_text (st : State) : bytes := MarshalIndent (state_json st).

(** [Unmarshal] into a [State]: the state, and whether no member was of another type. *)
Definition decode_state (j : json) : State * bool :=
  let s name := field decode_string [] name j in
  let n name := field decode_int 0 name j in
  let t name := field decode_time ZeroTime name j in
  (mkState (s $"socket").1 (s $"session_id").1 (s $"session_name").1 (s $"mgmt_session").1 (s $"uid").1 (s $"server").1
     (s $"control_url").1 (s $"view_url").1 (n $"max_viewers").1 (s $"nonce").1 (t $"created_at").1 (t $"expires_at").1 (n $"ttl_seconds").1,
   (s $"socket").2 && (s $"session_id").2 && (s $"session_name").2 && (s $"mgmt_session").2 && (s $"uid").2 && (s $"server").2 &&
   (s $"control_url").2 && (s $"view_url").2 && (n $"max_viewers").2 && (s $"nonce").2 && (t $"created_at").2 && (t $"expires_at").2 &&
   (n $"ttl_seconds").2).

(** [LoadState]: [Ok None] where there is no file. *)
Definition LoadState (file : option bytes) : result unit (option State) :=
  match file with
  | None => Ok None
  | Some data => match parse_json data with
                 | None => Err tt
                 | Some j => let '(st, ok) := decode_state j in if ok then Ok (Some st) else Err tt
                 end
  end.

End Times.

Example CheckVersion_sample :
  map (fun v => is_ok (CheckVersion (fun _ => Some v))) [$"tmux 3.2a"; $"tmux 3.1c"; $"tmux next-3.6"; $"tmux master"; $"tmux 10.0"; $"tmux 2.9"] =
  [true; false; true; true; true; false].
Proof. reflexivity. Qed.

Example AttachEnv_sample :
  AttachEnv [$"PATH=/bin"; $"TMUX=/tmp/t,1,0"; $"TERM=dumb"; $"TMUX_PANE=%1"; $"TMUXINATOR=x"] =
  [$"PATH=/bin"; $"TMUXINATOR=x"; default_term].
Proof. reflexivity. Qed.

(** What the files and command lines of a share carry: a command line comes out of a shell as the words that went
    in, the state of a share is read back as it was written, a startup error reaches the start it belongs to, and the
    attach commands get a terminal type and no trace of the tmux the worker runs in. *)

(** * Words of a shell *)

(** The quoting rules of a POSIX shell (2.2.1, 2.2.2) and its splitting at blanks (2.3), for text whose other
    characters are ordinary ones; anything else is [None]. *)
Inductive sh_mode := Unquoted | SingleQuoted | Escaped.

Definition ordinary (c : ascii) : bool :=
  is_digit c || between 97 122 (code (lower c)) || existsb (fun z => is_char z c) [45; 46; 47; 58; 95; 44; 43; 64].
Definition is_blank (c : ascii) : bool := is_char 32 c || is_char 9 c.

Definition end_word (cur : option bytes) (ws : list bytes) : list bytes := match cur with Some w => w :: ws | None => ws end.
Definition grow (cur : option bytes) (c : ascii) : option bytes := Some (default [] cur ++ [c]).

Fixpoint sh_scan (cur : option bytes) (m : sh_mode) (s : bytes) : option (list bytes) :=
  match s, m with
  | [], Unquoted => Some (end_word cur [])
  | [], _ => None
  | c :: r, SingleQuoted => if decide (c = single) then sh_scan cur Unquoted r else sh_scan (grow cur c) SingleQuoted r
  | c :: r, Escaped => if decide (c = newline) then None else sh_scan (grow cur c) Unquoted r
  | c :: r, Unquoted =>
    if decide (c = single) then sh_scan (Some (default [] cur)) SingleQuoted r
    else if decide (c = backslash) then sh_scan cur Escaped r
    else if is_blank c then end_word cur <$> sh_scan None Unquoted r
    else if ordinary c then sh_scan (grow cur c) Unquoted r
    else None
  end.

Definition sh_words (s : bytes) : option (list bytes) := sh_scan None Unquoted s.

Lemma scan_quoted s k : forall w,
  sh_scan (Some w) SingleQuoted (flat_map (fun c => if decide (c = single) then [single; backslash; single; single] else [c]) s ++ single :: k) =
  sh_scan (Some (w ++ s)) Unquoted k.
Proof.
  induction s as [|c s IH]; intros w; [cbn; by rewrite app_nil_r|]. cbn [flat_map]. rewrite <- app_assoc.
  destruct (decide (c = single)) as [->|Hc]; cbn [app sh_scan].
  - cbn. rewrite (IH (w ++ [single])). by rewrite <- app_assoc.
  - rewrite decide_False by done. unfold grow. cbn [default from_option id]. rewrite (IH (w ++ [c])). by rewrite <- app_assoc.
Qed.

Lemma scan_ShellQuote s k : sh_scan None Unquoted (ShellQuote s ++ k) = sh_scan (Some s) Unquoted k.
Proof.
  destruct s as [|c s]; [reflexivity|]. unfold ShellQuote. rewrite <- !app_assoc. cbn [app]. cbn [sh_scan].
  rewrite decide_True by done. cbn [default from_option id]. by rewrite scan_quoted.
Qed.

Definition words (argv : list bytes) : bytes := join $" " (map ShellQuote argv).

Lemma scan_words a argv : sh_scan None Unquoted (words (a :: argv)) = Some (a :: argv).
Proof.
  revert a. induction argv as [|b argv IH]; intros a; unfold words; cbn [map join].
  - by rewrite <- (app_nil_r (ShellQuote a)), scan_ShellQuote.
  - change (join $" " (ShellQuote b :: map ShellQuote argv)) with (words (b :: argv)). rewrite scan_ShellQuote.
    change (end_word (Some a) <$> sh_scan None Unquoted (words (b :: argv)) = Some (a :: b :: argv)). by rewrite IH.
Qed.

(** [exec] and the quoted words are, for a shell, those words. *)
Lemma sh_exec argv : argv <> [] -> sh_words ($"exec " ++ words argv) = Some ($"exec" :: argv).
Proof.
  destruct argv as [|a argv]; [done|]. intros _.
  change (sh_words ($"exec " ++ words (a :: argv))) with (end_word (Some $"exec") <$> sh_scan None Unquoted (words (a :: argv))).
  by rewrite scan_words.
Qed.

Example sh_words_sample : sh_words (words [$"it's"; []; $"a b$(c)"; $"'"]) = Some [$"it's"; []; $"a b$(c)"; $"'"].
Proof. reflexivity. Qed.

(** * The environment of an attach command *)

Lemma attach_loop_spec base : let '(out, hasTerm) := attach_loop base in
  (forall kv, kv ∈ out -> kv ∈ base /\ is_tmux_var kv = false /\ forall t, term_of kv = Some t -> usableTERM t = true) /\
  (forall kv, kv ∈ base -> is_tmux_var kv = false -> term_of kv = None -> kv ∈ out) /\
  (hasTerm = true <-> exists kv t, kv ∈ out /\ term_of kv = Some t).
Proof.
  induction base as [|kv base IH]; cbn [attach_loop].
  { split_and!; [by intros kv ?%elem_of_nil|by intros kv ?%elem_of_nil|]. split; [done|]. by intros (kv & t & ?%elem_of_nil & _). }
  destruct (attach_loop base) as [out hasTerm]. destruct IH as (IH1 & IH2 & IH3).
  destruct (is_tmux_var kv) eqn:Ev.
  { split_and!; [|by intros kv' [->|?]%elem_of_cons ?; [congruence|eauto]|done].
    intros kv' (H1 & H2 & H3)%IH1. split_and!; [by apply elem_of_cons; right|done|done]. }
  destruct (term_of kv) as [t|] eqn:Et; [destruct (usableTERM t) eqn:Eu|].
  - split_and!.
    + intros kv' [->|(H1 & H2 & H3)%IH1]%elem_of_cons; split_and!; try done; [by left|congruence|by right].
    + intros kv' [->|?]%elem_of_cons ? ?; [congruence|]. apply elem_of_cons. right. eauto.
    + split; [|done]. intros _. exists kv, t. split; [by left|done].
  - split_and!; [|by intros kv' [->|?]%elem_of_cons ? ?; [congruence|eauto]|done].
    intros kv' (H1 & H2 & H3)%IH1. split_and!; [by apply elem_of_cons; right|done|done].
  - split_and!.
    + intros kv' [->|(H1 & H2 & H3)%IH1]%elem_of_cons; split_and!; try done; [by left|congruence|by right].
    + intros kv' [->|?]%elem_of_cons ? ?; apply elem_of_cons; [by left|right; eauto].
    + rewrite IH3. split; intros (kv' & t & H1 & H2); exists kv', t; [split; [by right|done]|].
      apply elem_of_cons in H1 as [->|H1]; [congruence|done].
Qed.

(** The environment of an attach command is the worker's own without its tmux and without terminal types that tmux
    refuses, and it always names one that tmux takes. *)
Lemma attach_env_usable base :
  (forall kv, kv ∈ AttachEnv base -> (kv ∈ base \/ kv = default_term) /\ is_tmux_var kv = false /\
     forall t, term_of kv = Some t -> usableTERM t = true) /\
  (forall kv, kv ∈ base -> is_tmux_var kv = false -> term_of kv = None -> kv ∈ AttachEnv base) /\
  exists kv t, kv ∈ AttachEnv base /\ term_of kv = Some t.
Proof.
  pose proof (attach_loop_spec base) as H. unfold AttachEnv. destruct (attach_loop base) as [out hasTerm]. destruct H as (H1 & H2 & H3).
  destruct hasTerm.
  - split_and!; [intros kv (? & ? & ?)%H1; eauto|done|by apply H3].
  - split_and!.
    + intros kv [(? & ? & ?)%H1| ->%list_elem_of_singleton]%elem_of_app; [by eauto|]. split_and!; [by right|done|].
      intros t [= <-]. reflexivity.
    + intros kv ? ? ?. apply elem_of_app. eauto.
    + exists default_term, $"xterm-256color". split; [|done]. apply elem_of_app. right. by apply list_elem_of_singleton.
Qed.

(** * Startup errors *)

Lemma Cut_at s c k : c ∉ s -> Cut (s ++ c :: k) c = Some (s, k).
Proof.
  intros Hs. unfold Cut. assert (IndexByte (s ++ c :: k) c = Some (length s)) as ->.
  { induction s as [|d s IH]; cbn [IndexByte app].
    - by rewrite decide_True.
    - rewrite decide_False by (intros ->; apply Hs; by left). rewrite IH; [done|]. intros ?. apply Hs. by right. }
  f_equal. f_equal; [by rewrite take_app_length|]. rewrite <- (Nat.add_1_r (length s)), drop_app_add. done.
Qed.

(** A startup error is taken by the start whose nonce it bears, and by no other. *)
Lemma startup_error_addressed nonce msg other : newline ∉ nonce ->
  TakeStartupError (Some (SaveStartupError nonce msg)) other = if bool_decide (nonce = other) then TrimSpace msg else [].
Proof. intros Hn. unfold TakeStartupError, SaveStartupError. cbn [app]. by rewrite Cut_at. Qed.

(** * Objects with members left out *)

Definition present (l : list (bytes * option json)) : list (bytes * json) := omap (fun kv => pair kv.1 <$> kv.2) l.

(** The value of the one member a field names. *)
Definition the (name : bytes) (l : list (bytes * option json)) : option json :=
  match List.filter (fun kv => names name kv.1) l with kv :: _ => kv.2 | [] => None end.

Definition once (name : bytes) (l : list (bytes * option json)) : bool :=
  (length (List.filter (fun kv => names name kv.1) l) <=? 1)%nat.

Lemma field_skips {A} (d : decoder A) name l acc : List.filter (fun kv => names name kv.1) l = [] ->
  foldl (fun '(v, ok) '(key, x) => if names name key then let '(v', ok') := d v x in (v', ok && ok') else (v, ok)) acc (present l) = acc.
Proof.
  revert acc. induction l as [|[k o] l IH]; intros [v ok]; [done|]. cbn [List.filter fst]. destruct (names name k) eqn:E; [done|]. intros Hl.
  unfold present. cbn [omap list_omap fst snd]. destruct o as [x|]; cbn [fmap option_fmap option_map foldl]; [rewrite E|]; by apply IH.
Qed.

Lemma field_present {A} (d : decoder A) zero name l : once name l = true ->
  field d zero name (JObject (present l)) = match the name l with Some x => d zero x | None => (zero, true) end.
Proof.
  unfold once, the, field. intros H%Nat.leb_le. induction l as [|[k o] l IH]; [done|]. cbn [List.filter fst] in *.
  destruct (names name k) eqn:E.
  - cbn [length] in H. assert (List.filter (fun kv => names name kv.1) l = []) as Hl by (destruct (List.filter _ l); [done|cbn in H; lia]).
    cbn [snd]. unfold present. cbn [omap list_omap fst snd]. destruct o as [x|]; cbn [fmap option_fmap option_map foldl]; [|by apply field_skips].
    rewrite E. destruct (d zero x) as [v ok]. cbn [andb]. by apply field_skips.
  - unfold present. cbn [omap list_omap fst snd]. destruct o as [x|]; cbn [fmap option_fmap option_map foldl]; [rewrite E|]; by apply IH.
Qed.

Lemma present_coerce l : Forall (fun kv => utf8_valid kv.1 /\ forall x, kv.2 = Some x -> coerce_json x = x) l ->
  coerce_json (JObject (present l)) = JObject (present l).
Proof.
  intros Hl. cbn [coerce_json]. f_equal. induction Hl as [|[k [x|]] l [Hk Hx] _ IH]; [done| |exact IH].
  change (present ((k, Some x) :: l)) with ((k, x) :: present l). cbn [map fst snd] in *. by rewrite (coerce_valid k Hk), (Hx x eq_refl), IH.
Qed.

(** * The state of a share *)

Section Times.
Variable print_time : Z -> bytes.
Variable parse_time : bytes -> option Z.
Hypothesis times_back : forall t, parse_time (print_time t) = Some t.
Hypothesis times_valid : forall t, utf8_valid (print_time t).

(** What a worker writes: text, and numbers of the machine. *)
Definition state_ok (st : State) : Prop :=
  Forall utf8_valid [Socket st; SessionID st; SessionName st; MgmtSession st; UID st; Server st; ControlURL st; ViewURL st; Nonce st] /\
  between (- 2 ^ 63) (2 ^ 63 - 1) (MaxViewers st) = true /\ between (- 2 ^ 63) (2 ^ 63 - 1) (TTLSeconds st) = true.

Lemma decode_printed_int old z : between (- 2 ^ 63) (2 ^ 63 - 1) z = true -> decode_int old (JInt z) = (z, true).
Proof. intros Hz. unfold decode_int, JInt. by rewrite parse_signed_print, Hz. Qed.

Lemma decode_printed_time old t : decode_time parse_time old (JString (print_time t)) = (t, true).
Proof using times_back times_valid. unfold decode_time. by rewrite times_back. Qed.

(** The members in order, an omitted one having no value. *)
Definition state_members (st : State) : list (bytes * option json) :=
  let text s := match s with [] => None | _ => Some (JString s) end in
  [($"socket", text (Socket st)); ($"session_id", Some (JString (SessionID st))); ($"session_name", text (SessionName st));
   ($"mgmt_session", Some (JString (MgmtSession st))); ($"uid", Some (JString (UID st))); ($"server", Some (JString (Server st)));
   ($"control_url", text (ControlURL st)); ($"view_url", Some (JString (ViewURL st))); ($"max_viewers", Some (JInt (MaxViewers st)));
   ($"nonce", text (Nonce st)); ($"created_at", Some (JString (print_time (CreatedAt st))));
   ($"expires_at", if ExpiresAt st =? ZeroTime then None else Some (JString (print_time (ExpiresAt st))));
   ($"ttl_seconds", Some (JInt (TTLSeconds st)))].

Lemma state_json_present st : state_json print_time st = JObject (present (state_members st)).
Proof.
  destruct st as [so si sn mg ui se cu vu mv no ca ea ttl]. unfold state_json, state_members. cbn [Socket SessionID SessionName MgmtSession UID Server ControlURL ViewURL Nonce MaxViewers CreatedAt ExpiresAt TTLSeconds].
  by destruct so, sn, cu, no, (ea =? ZeroTime).
Qed.

Lemma members_valid st : state_ok st -> Forall (fun kv => utf8_valid kv.1 /\ forall x, kv.2 = Some x -> coerce_json x = x) (state_members st).
Proof using times_valid.
  intros (HF & _ & _). rewrite !Forall_cons in HF. destruct HF as (H1 & H2 & H3 & H4 & H5 & H6 & H7 & H8 & H9 & _).
  assert (forall s, utf8_valid s -> forall x, match s with [] => None | _ => Some (JString s) end = Some x -> coerce_json x = x) as Ht.
  { intros [|c s] Hs x [= <-]. cbn [coerce_json]. by rewrite coerce_valid. }
  assert (forall s, utf8_valid s -> forall x, Some (JString s) = Some x -> coerce_json x = x) as Hs.
  { intros s Hs x [= <-]. cbn [coerce_json]. by rewrite coerce_valid. }
  assert (forall z x, Some (JInt z) = Some x -> coerce_json x = x) as Hz by by intros z x [= <-].
  unfold state_members. rewrite !Forall_cons. cbn [fst snd].
  split_and!; try (apply plain_valid; unfold plain; match goal with |- ?P => apply (bool_decide_unpack P) end; by vm_compute); try first [by apply Ht|by apply Hs|by apply Hz|by constructor].
  - destruct (ExpiresAt st =? ZeroTime); [done|]. by apply Hs.
Qed.

Lemma decode_state_back st : state_ok st -> decode_state parse_time (coerce_json (state_json print_time st)) = (st, true).
Proof using times_back times_valid.
  intros Hst. pose proof (members_valid st Hst) as Hv. rewrite state_json_present, present_coerce by exact Hv.
  destruct Hst as (_ & Hmv & Httl). unfold decode_state. rewrite !field_present by reflexivity.
  pose proof (decode_printed_int 0 _ Hmv) as Dmv. pose proof (decode_printed_int 0 _ Httl) as Dttl.
  pose proof (decode_printed_time ZeroTime (CreatedAt st)) as Dc. pose proof (decode_printed_time ZeroTime (ExpiresAt st)) as De.
  clear Hv Hmv Httl. destruct st as [so si sn mg ui se cu vu mv no ca ea ttl]. cbn [MaxViewers TTLSeconds CreatedAt ExpiresAt] in *.
  unfold state_members. cbn [Socket SessionID SessionName MgmtSession UID Server ControlURL ViewURL Nonce MaxViewers CreatedAt ExpiresAt TTLSeconds].
  revert Dmv Dttl. generalize (JInt mv) as jm, (JInt ttl) as jt. intros jm jt Dmv Dttl.
  destruct (ea =? ZeroTime) eqn:Ez; try apply Z.eqb_eq in Ez as ->;
  repeat match goal with |- context [the ?n ?l] => let x := constr:(the n l) in let y := eval vm_compute in x in change x with y end;
  cbv iota beta; rewrite Dmv, Dttl, Dc; destruct so, sn, cu, no; rewrite ?De; reflexivity.
Qed.

Lemma state_json_ok st : text_ok (state_json print_time st) /\ json_depth (state_json print_time st) <= maxNestingDepth.
Proof.
  destruct st as [so si sn mg ui se cu vu mv no ca ea ttl]. unfold state_json. cbn [Socket SessionID SessionName MgmtSession UID Server ControlURL ViewURL Nonce MaxViewers CreatedAt ExpiresAt TTLSeconds].
  destruct so, sn, cu, no, (ea =? ZeroTime); (split; [repeat constructor|cbn; unfold maxNestingDepth; lia]).
Qed.

(** The state file is read back as it was written. *)
Lemma state_written_back st : state_ok st -> LoadState parse_time (Some (state_text print_time st)) = Ok (Some st).
Proof using times_back times_valid.
  intros Hst. unfold LoadState, state_text. destruct (state_json_ok st) as [H1 H2].
  by rewrite parse_MarshalIndent, decode_state_back.
Qed.

End Times.
