(* ===== verification/ShareFlags.v ===== *)
(** The command line of share (cmd/bitbang/share.go): its flags, its subcommands, and the hidden one that a
    management session runs, with the arguments the parent gives it. *)

From S2P Require Import Prelude GoLib JsonRoundTrip GoTime GoFlag Share Tmux.

(** * Integers of package flag *)

(** A digit of a base, in either case. *)
Definition base_digit (base : Z) (c : ascii) : option Z :=
  let l := code (lower c) in
  let d := if is_digit c then code c - 48 else if between 97 122 l then l - 87 else base in
  if d <? base then Some d else None.

(** [strconv.ParseUint] past its prefix: underscores are skipped. *)
Fixpoint base_value (base acc : Z) (s : bytes) : option Z :=
  match s with
  | [] => Some acc
  | c :: r => if is_char 95 c then base_value base acc r
              else match base_digit base c with Some d => base_value base (acc * base + d) r | None => None end
  end.

(** [underscoreOK]: an underscore stands between digits, or between a prefix and a digit. [prev] is what was seen
    before: the start, a digit (a prefix counting as one), an underscore, or something else. *)
Inductive seen := AtStart | Digit | Underscore | Other.

Fixpoint underscores (hex : bool) (prev : seen) (s : bytes) : bool :=
  match s with
  | [] => match prev with Underscore => false | _ => true end
  | c :: r =>
    if is_digit c || (hex && between 97 102 (code (lower c))) then underscores hex Digit r
    else if is_char 95 c then match prev with Digit => underscores hex Underscore r | _ => false end
    else match prev with Underscore => false | _ => underscores hex Other r end
  end.

(** The base of a literal, and its digits. *)
Definition base_of (s : bytes) : Z * bytes :=
  match s with
  | z :: p :: d :: r =>
    if negb (is_char 48 z) then (10, s)
    else if is_char 98 (lower p) then (2, d :: r) else if is_char 111 (lower p) then (8, d :: r)
    else if is_char 120 (lower p) then (16, d :: r) else (8, p :: d :: r)
  | z :: r => if is_char 48 z then (8, r) else (10, s)
  | [] => (10, [])
  end.

Definition underscoreOK (s : bytes) : bool :=
  match s with
  | z :: p :: r => if is_char 48 z && existsb (fun x => is_char x (lower p)) [98; 111; 120] then underscores (is_char 120 (lower p)) Digit r
                   else underscores false AtStart s
  | _ => underscores false AtStart s
  end.

(** [strconv.ParseInt(s, 0, 64)], the value of an integer flag. *)
Definition ParseInt0 (s : bytes) : option Z :=
  let '(neg, r) := match s with
                   | c :: r => if is_char 45 c then (true, r) else if is_char 43 c then (false, r) else (false, s)
                   | [] => (false, []) end in
  match r with
  | [] => None
  | _ => let '(base, ds) := base_of r in
         match base_value base 0 ds with
         | Some z => let z := if (neg : bool) then - z else z in
                     if underscoreOK r && between MinInt64 MaxInt64 z then Some z else None
         | None => None
         end
  end.

Example ParseInt0_sample :
  map ParseInt0 [$"16"; $"0x10"; $"1_0"; $"_1"; $"1__0"; $"010"; $"0"; $"-3"; $"08"; $"0b"; $"0_7"; $"1e3"] =
  [Some 16; Some 16; Some 10; None; None; Some 8; Some 0; Some (-3); None; None; Some 7; None].
Proof. reflexivity. Qed.

(** * The flags of share *)

Record shareConfig := mkShareConfig {
  readOnly : bool; ttl : bytes; target : bytes; socket : bytes; server : bytes; maxViewers : Z; verbose : bool; given : list bytes
}.

#[export] Instance eta_shareConfig : Eta shareConfig := fun c =>
  mkShareConfig (readOnly c) (ttl c) (target c) (socket c) (server c) (maxViewers c) (verbose c) (given c).

Definition default_share : shareConfig := mkShareConfig false $"0" [] [] $"bitba.ng" 16 false [].

Definition share_formal (flag : bytes) : option bool :=
  if bool_decide (flag ∈ [$"read-only"; $"v"]) then Some true
  else if bool_decide (flag ∈ [$"ttl"; $"target"; $"socket"; $"server"; $"max-viewers"]) then Some false
  else None.

Definition share_set (flag value : bytes) (c : shareConfig) : option shareConfig :=
  let c := c <| given := flag :: given c |> in
  if bool_decide (flag = $"read-only") then (fun b => c <| readOnly := b |>) <$> ParseBool value
  else if bool_decide (flag = $"v") then (fun b => c <| verbose := b |>) <$> ParseBool value
  else if bool_decide (flag = $"ttl") then Some (c <| ttl := value |>)
  else if bool_decide (flag = $"target") then Some (c <| target := value |>)
  else if bool_decide (flag = $"socket") then Some (c <| socket := value |>)
  else if bool_decide (flag = $"server") then Some (c <| server := value |>)
  else (fun z => c <| maxViewers := z |>) <$> ParseInt0 value.

Definition was_set (c : shareConfig) (flag : bytes) : bool := bool_decide (flag ∈ given c).

Inductive share_error := Flags (e : flag_error) | Unexpected (arg : bytes) | BadTTL (s : bytes) | UnderSecond | NotWhole (shown : Z) | OverMaximum | BadViewers.

(** [parseTTL], in nanoseconds; 0 is until stopped. *)
Definition parseTTL (s : bytes) : result share_error Z :=
  if bool_decide (s = []) || bool_decide (s = $"0") then Ok 0
  else match ParseDuration s with
       | None => Err (BadTTL s)
       | Some d =>
         if d <=? 0 then Err (BadTTL s)
         else if d <? GoTime.Second then Err UnderSecond
         else if negb (d mod GoTime.Second =? 0) then Err (NotWhole (Truncate d GoTime.Second))
         else if d >? Share.MaxTTL then Err OverMaximum
         else Ok d
       end.

(** [parseShareFlags]: the configuration, with the lifetime in it. *)
Definition parseShareFlags (args : list bytes) : result share_error (shareConfig * Z) :=
  match GoFlag.Parse share_formal share_set (reorderArgs share_formal args) default_share with
  | Err e => Err (Flags e)
  | Ok (_, a :: _) => Err (Unexpected a)
  | Ok (c, []) =>
    let! d := parseTTL (ttl c) in
    if (maxViewers c <? 0) || (maxViewers c >? Share.MaxViewers) then Err BadViewers else Ok (c, d)
  end.

(** [dispatchShare]. *)
Inductive subcommand := CmdShare | CmdStatus | CmdStop | CmdRotate | CmdWorker | CmdUnknown (name : bytes).

Definition workerSubcommand : bytes := $"__worker".

Definition dispatchShare (args : list bytes) : subcommand * list bytes :=
  match args with
  | [] => (CmdShare, args)
  | a :: rest =>
    if bool_decide (a = []) || HasPrefix a $"-" then (CmdShare, args)
    else (if bool_decide (a = $"status") then CmdStatus else if bool_decide (a = $"stop") then CmdStop
          else if bool_decide (a = $"rotate") then CmdRotate else if bool_decide (a = workerSubcommand) then CmdWorker
          else CmdUnknown a, rest)
  end.

(** * The target *)

(** [shareTarget]: the lock is named by [LockPathFor]. *)
Record shareTarget := mkShareTarget { st_target : Target; st_dir : bytes; st_lock : bytes; st_mgmt : bytes }.

Inductive resolve_error := NoHost | NoTmux | NoHome | Tmux (e : tmux_error).

(** [BaseDir] under a home, and [Dir] of a hash. *)
Definition BaseDir (home : bytes) : bytes := Join (Join home $".bitbang") $"shares".
Definition share_dir (home hash : bytes) : bytes := Join (BaseDir home) hash.

(** [resolveShareTarget]: [tmux] is the program, by the socket it is pointed at. *)
Definition resolveShareTarget (EvalSymlinks : bytes -> option bytes) (supported has_tmux : bool) (home : option bytes) (env : bytes)
  (tmux : bytes -> Runner) (c : shareConfig) : result resolve_error shareTarget :=
  if negb supported then Err NoHost
  else if negb has_tmux then Err NoTmux
  else
    let sock := match socket c with [] => SocketFromEnv env | s => s end in
    let runner := tmux sock in
    match CheckVersion runner with
    | Err e => Err (Tmux e)
    | Ok _ =>
      match Discover EvalSymlinks runner sock env (target c) with
      | Err e => Err (Tmux e)
      | Ok t =>
        let t := mkTarget (match t_Socket t with [] => sock | s => s end) (t_SessionID t) (t_SessionName t) in
        let hash := TargetHash (t_Socket t) (t_SessionID t) in
        match home with
        | None => Err NoHome
        | Some h => Ok (mkShareTarget t (share_dir h hash) (LockPathFor (share_dir h hash)) ($"_bbshare_" ++ hash))
        end
      end
    end.

(** * The worker's command line *)

Definition seconds (d : Z) : Z := d / GoTime.Second.

(** [workerArgv] of [startShare], and the line the management session runs. *)
Definition workerArgv (exe : bytes) (c : shareConfig) (d : Z) (t : shareTarget) (nonce : bytes) : list bytes :=
  [exe; $"share"; workerSubcommand; $"-session"; t_SessionID (st_target t); $"-session-name"; t_SessionName (st_target t);
   $"-mgmt"; st_mgmt t; $"-statedir"; st_dir t; $"-server"; server c; $"-nonce"; nonce; $"-ttl-seconds"; Itoa (seconds d);
   $"-max-viewers"; Itoa (maxViewers c)] ++
  match t_Socket (st_target t) with [] => [] | s => [$"-socket"; s] end ++
  (if readOnly c then [$"-read-only"] else []) ++ (if verbose c then [$"-v"] else []).

Definition cmdline (argv : list bytes) : bytes := $"exec " ++ join $" " (map ShellQuote argv).

(** What [runShareWorker] makes of its arguments. *)
Record workerFlags := mkWorkerFlags {
  w_session : bytes; w_name : bytes; w_mgmt : bytes; w_dir : bytes; w_server : bytes; w_nonce : bytes; w_socket : bytes;
  w_ttl : Z; w_viewers : Z; w_readOnly : bool; w_verbose : bool
}.

#[export] Instance eta_workerFlags : Eta workerFlags := fun f =>
  mkWorkerFlags (w_session f) (w_name f) (w_mgmt f) (w_dir f) (w_server f) (w_nonce f) (w_socket f) (w_ttl f) (w_viewers f) (w_readOnly f) (w_verbose f).

Definition default_worker : workerFlags := mkWorkerFlags [] [] [] [] $"bitba.ng" [] [] 0 16 false false.

Definition worker_formal (flag : bytes) : option bool :=
  if bool_decide (flag ∈ [$"read-only"; $"v"]) then Some true
  else if bool_decide (flag ∈ [$"session"; $"session-name"; $"mgmt"; $"statedir"; $"server"; $"nonce"; $"socket"; $"ttl-seconds"; $"max-viewers"]) then Some false
  else None.

Definition worker_set (flag value : bytes) (f : workerFlags) : option workerFlags :=
  if bool_decide (flag = $"session") then Some (f <| w_session := value |>)
  else if bool_decide (flag = $"session-name") then Some (f <| w_name := value |>)
  else if bool_decide (flag = $"mgmt") then Some (f <| w_mgmt := value |>)
  else if bool_decide (flag = $"statedir") then Some (f <| w_dir := value |>)
  else if bool_decide (flag = $"server") then Some (f <| w_server := value |>)
  else if bool_decide (flag = $"nonce") then Some (f <| w_nonce := value |>)
  else if bool_decide (flag = $"socket") then Some (f <| w_socket := value |>)
  else if bool_decide (flag = $"ttl-seconds") then (fun z => f <| w_ttl := z |>) <$> ParseInt0 value
  else if bool_decide (flag = $"max-viewers") then (fun z => f <| w_viewers := z |>) <$> ParseInt0 value
  else if bool_decide (flag = $"read-only") then (fun b => f <| w_readOnly := b |>) <$> ParseBool value
  else (fun b => f <| w_verbose := b |>) <$> ParseBool value.

Inductive worker_start := BadFlags (e : flag_error) | InvalidFlags | Refused_ (e : worker_error) | Started (sh : Share) (nonce name server : bytes) (verbose : bool).

(** [runShareWorker] up to [Run]: [code] is the code of the identity it makes. *)
Definition runShareWorker (args : list bytes) (code : bytes) (generate : list (option bytes)) : worker_start :=
  match GoFlag.Parse worker_formal worker_set args default_worker with
  | Err e => BadFlags e
  | Ok (f, _) =>
    if bool_decide (w_session f = []) || bool_decide (w_mgmt f = []) || bool_decide (w_dir f = []) || bool_decide (w_nonce f = []) ||
       (w_ttl f <? 0) || (w_ttl f >? seconds Share.MaxTTL) || (w_viewers f <? 0) || (w_viewers f >? Share.MaxViewers)
    then InvalidFlags
    else match NewWorker (mkConfig (w_session f) (w_mgmt f) (w_dir f) (w_socket f) (w_ttl f * GoTime.Second) (w_viewers f) (w_readOnly f)) code generate with
         | Err e => Refused_ e
         | Ok sh => Started sh (w_nonce f) (w_name f) (w_server f) (w_verbose f)
         end
  end.

(** A share is started as it was asked for: the line that a management session runs comes out of the shell and of the
    worker's flags as the configuration the parent accepted, and the worker's own checks accept it. *)

(** * Integers *)

Lemma base_value_digits ds : forall acc, Forall (fun c => is_digit c = true) ds -> base_value 10 acc ds = digits_value acc ds.
Proof.
  induction ds as [|c ds IH]; intros acc HF; [done|]. apply Forall_cons in HF as [Hc HF]. cbn [base_value digits_value]. rewrite Hc.
  assert (is_char 95 c = false) as ->.
  { unfold is_digit, is_char, between in *. bool_to_prop. by settle (code c =? 95) false. }
  unfold base_digit. rewrite Hc. assert (code c - 48 < 10) by (unfold is_digit, between in Hc; bool_to_prop; lia).
  settle (code c - 48 <? 10) true. by apply IH.
Qed.

Lemma underscores_digits ds p : p <> Underscore -> Forall (fun c => is_digit c = true) ds -> underscores false p ds = true.
Proof.
  intros Hp HF. revert p Hp. induction HF as [|c ds Hc _ IH]; intros p Hp; [by destruct p|]. cbn [underscores]. rewrite Hc. by apply IH.
Qed.

Lemma ParseInt0_Itoa z : 0 <= z <= MaxInt64 -> ParseInt0 (Itoa z) = Some z.
Proof.
  intros Hz. destruct (decide (z = 0)) as [->|]; [reflexivity|]. unfold Itoa.
  destruct (print_Z_digits z) as (HF & (c & r & E & H0) & Hv); [lia|]. specialize (Hv 0 []). rewrite app_nil_r in Hv. cbn in Hv.
  rewrite E in *. apply Forall_cons in HF as HF'. destruct HF' as [Hc Hr].
  assert (is_char 45 c = false /\ is_char 43 c = false) as [E1 E2].
  { unfold is_digit, is_char, between in *. bool_to_prop. by settle (code c =? 45) false; settle (code c =? 43) false. }
  unfold ParseInt0. rewrite E1, E2. assert (base_of (c :: r) = (10, c :: r)) as ->.
  { unfold base_of. rewrite H0. by destruct r as [|? [|? ?]]. }
  rewrite base_value_digits, Hv by done. assert (underscoreOK (c :: r) = true) as ->.
  { unfold underscoreOK. destruct r as [|p r]; [by apply underscores_digits|]. rewrite H0. cbn [andb]. by apply underscores_digits. }
  cbn [andb]. unfold between. change (0 * 10 ^ zlen (c :: r) + z) with (0 + z). rewrite ?Z.add_0_l. unfold MinInt64, MaxInt64 in *.
  settle (- 2 ^ 63 <=? z) true. by settle (z <=? 2 ^ 63 - 1) true.
Qed.

(** * The lifetime *)

Lemma parseTTL_range s d : parseTTL s = Ok d -> 0 <= d <= Share.MaxTTL /\ d mod GoTime.Second = 0.
Proof.
  unfold parseTTL. destruct (_ || _); [intros [= <-]; done|]. destruct (ParseDuration s) as [x|]; [|done].
  destruct (x <=? 0) eqn:E1; [done|]. destruct (x <? GoTime.Second) eqn:E2; [done|].
  destruct (x mod GoTime.Second =? 0) eqn:E3; [|done]. destruct (x >? Share.MaxTTL) eqn:E4; [done|]. intros [= <-]. bool_to_prop. split; lia.
Qed.

Lemma parseShareFlags_range args c d : parseShareFlags args = Ok (c, d) ->
  (0 <= d <= Share.MaxTTL /\ d mod GoTime.Second = 0) /\ 0 <= maxViewers c <= Share.MaxViewers.
Proof.
  unfold parseShareFlags. destruct (GoFlag.Parse _ _ _ _) as [[c' [|a l]]|e]; [|done|done]. cbn [result_bind].
  destruct (parseTTL (ttl c')) as [x|e] eqn:E; cbn [result_bind]; [|done]. destruct (maxViewers c' <? 0) eqn:E1; [done|].
  destruct (maxViewers c' >? Share.MaxViewers) eqn:E2; [done|]. intros [= <- <-]. split; [by eapply parseTTL_range|]. bool_to_prop. lia.
Qed.

(** * Rounds of the flag parser *)

Section Rounds.
Context {St : Type} (formal : bytes -> option bool) (set : bytes -> bytes -> St -> option St).

Lemma round_value k a n v rest st st' : read_token a = Option_ n None -> formal n = Some false -> set n v st = Some st' ->
  parse_rounds formal set (S k) (a :: v :: rest) st = parse_rounds formal set k rest st'.
Proof. intros Ht Hf Hs. cbn [parse_rounds]. rewrite Ht. unfold parse_flag, assign. rewrite Hf, Hs. done. Qed.

Lemma round_bool k a n rest st st' : read_token a = Option_ n None -> formal n = Some true -> set n $"true" st = Some st' ->
  parse_rounds formal set (S k) (a :: rest) st = parse_rounds formal set k rest st'.
Proof. intros Ht Hf Hs. cbn [parse_rounds]. rewrite Ht. unfold parse_flag, assign. rewrite Hf. cbn [default from_option id]. by rewrite Hs. Qed.

End Rounds.

(** * The worker *)

Definition worker_args (exe : bytes) (c : shareConfig) (d : Z) (t : shareTarget) (nonce : bytes) : list bytes := drop 3 (workerArgv exe c d t nonce).

Lemma worker_flags exe c d t nonce : 0 <= seconds d <= MaxInt64 -> 0 <= maxViewers c <= MaxInt64 ->
  GoFlag.Parse worker_formal worker_set (worker_args exe c d t nonce) default_worker =
    Ok (mkWorkerFlags (t_SessionID (st_target t)) (t_SessionName (st_target t)) (st_mgmt t) (st_dir t) (server c) nonce
          (t_Socket (st_target t)) (seconds d) (maxViewers c) (readOnly c) (verbose c), []).
Proof.
  intros Hd Hv. destruct c as [ro tt ta so se mv vb gi], t as [[sock sid sname] dir lock mgmt].
  unfold worker_args, workerArgv. cbn [readOnly ttl target socket server maxViewers verbose given st_target st_dir st_mgmt t_Socket t_SessionID t_SessionName] in *.
  pose proof (ParseInt0_Itoa _ Hd) as Pd. pose proof (ParseInt0_Itoa _ Hv) as Pv.
  revert Pd Pv. generalize (Itoa (seconds d)) as ds, (Itoa mv) as vs. intros ds vs Pd Pv.
  assert (forall f, worker_set $"ttl-seconds" ds f = Some (f <| w_ttl := seconds d |>)) as Sd by (intros f; change (((fun z => f <| w_ttl := z |>) <$> ParseInt0 ds) = Some (f <| w_ttl := seconds d |>)); by rewrite Pd).
  assert (forall f, worker_set $"max-viewers" vs f = Some (f <| w_viewers := mv |>)) as Sv by (intros f; change (((fun z => f <| w_viewers := z |>) <$> ParseInt0 vs) = Some (f <| w_viewers := mv |>)); by rewrite Pv).
  destruct sock, ro, vb; cbn [drop app]; unfold GoFlag.Parse; cbn [length];
    repeat first [erewrite round_bool by reflexivity | erewrite round_value by (reflexivity || apply Sd || apply Sv)]; reflexivity.
Qed.

(** C27: From the parent to the worker, whatever the names, paths and settings, the line of the management session is, for
    its shell, the words that the parent chose, the hidden subcommand reads them back as the request it was given, and
    nothing the parent accepted is turned down by the worker's own limits: the share that starts has the settings that
    were asked for. *)
Theorem worker_gets_its_config args c d exe t nonce code generate : parseShareFlags args = Ok (c, d) ->
  t_SessionID (st_target t) <> [] -> st_mgmt t <> [] -> st_dir t <> [] -> nonce <> [] ->
  exists words, sh_words (cmdline (workerArgv exe c d t nonce)) = Some ($"exec" :: exe :: $"share" :: words) /\
    words = workerSubcommand :: worker_args exe c d t nonce /\ dispatchShare words = (CmdWorker, worker_args exe c d t nonce) /\
    match runShareWorker (worker_args exe c d t nonce) code generate with
    | Started sh n name srv v =>
        cfg sh = mkConfig (t_SessionID (st_target t)) (st_mgmt t) (st_dir t) (t_Socket (st_target t)) d (maxViewers c) (readOnly c) /\
        n = nonce /\ name = t_SessionName (st_target t) /\ srv = server c /\ v = verbose c
    | Refused_ e => e = NoDistinctCode
    | _ => False
    end.
Proof.
  intros Hp%parseShareFlags_range Hs Hm Hdir Hn. destruct Hp as [[Hd Hmod] Hv].
  assert (0 <= seconds d <= seconds Share.MaxTTL) as Hsec.
  { unfold seconds. split; [apply Z.div_pos; [lia|done]|]. apply Z.div_le_mono; [done|lia]. }
  assert (seconds d * GoTime.Second = d) as Esec.
  { unfold seconds. pose proof (Z.div_mod d GoTime.Second ltac:(done)). lia. }
  exists (workerSubcommand :: worker_args exe c d t nonce). split_and!; [|done|done|].
  - change (sh_words ($"exec " ++ words (workerArgv exe c d t nonce)) = Some ($"exec" :: workerArgv exe c d t nonce)). by apply sh_exec.
  - unfold runShareWorker. rewrite worker_flags.
    2: { change (seconds Share.MaxTTL) with 31536000 in Hsec. unfold MaxInt64. lia. }
    2: { unfold Share.MaxViewers in Hv. unfold MaxInt64. lia. }
    cbn [w_session w_mgmt w_dir w_nonce w_ttl w_viewers w_socket w_readOnly w_name w_server w_verbose].
    rewrite !bool_decide_eq_false_2 by done. cbn [orb]. settle (seconds d <? 0) false. rewrite !Z.gtb_ltb.
    settle (seconds Share.MaxTTL <? seconds d) false. settle (maxViewers c <? 0) false. settle (Share.MaxViewers <? maxViewers c) false.
    cbn [orb]. rewrite Esec. unfold NewWorker. cbn [SessionID MgmtSession StateDir MaxViewers_ TTL ReadOnly Share.Socket Share.SessionID Share.MgmtSession].
    rewrite !bool_decide_eq_false_2 by done. cbn [orb]. rewrite !Z.gtb_ltb. settle (maxViewers c <? 0) false. settle (Share.MaxViewers <? maxViewers c) false.
    settle (d <? 0) false. settle (Share.MaxTTL <? d) false. change Share.Second with GoTime.Second. rewrite Hmod. cbn [orb negb Z.eqb].
    destruct (readOnly c); [done|]. by destruct (distinctAccessCode _ _ _).
Qed.

Definition odd_target : shareTarget := mkShareTarget (mkTarget $"/tmp/t mux/s" $"$3" $"it's -mine") $"/home/u v/.bitbang/shares/0a" $"/home/u v/.bitbang/shares/0a.lock" $"_bbshare_0a".

Lemma worker_gets_its_config_witness : exists c d words, parseShareFlags [$"-ttl"; $"90m"; $"-max-viewers=0x10"; $"-read-only"] = Ok (c, d) /\ d = 90 * Minute /\
  sh_words (cmdline (workerArgv $"/bin/bitbang" c d odd_target $"n")) = Some ($"exec" :: $"/bin/bitbang" :: $"share" :: words) /\
  match runShareWorker (worker_args $"/bin/bitbang" c d odd_target $"n") $"code" [] with
  | Started sh n name _ _ => cfg sh = mkConfig $"$3" $"_bbshare_0a" $"/home/u v/.bitbang/shares/0a" $"/tmp/t mux/s" (90 * Minute) 16 true /\ n = $"n" /\ name = $"it's -mine"
  | _ => False
  end.
Proof.
  destruct (parseShareFlags [$"-ttl"; $"90m"; $"-max-viewers=0x10"; $"-read-only"]) as [[c d]|e] eqn:E; [|vm_compute in E; discriminate E].
  destruct (worker_gets_its_config _ c d $"/bin/bitbang" odd_target $"n" $"code" [] E ltac:(discriminate) ltac:(discriminate) ltac:(discriminate) ltac:(discriminate)) as (words & H1 & _ & _ & H2).
  exists c, d, words. assert (c = mkShareConfig true $"90m" [] [] $"bitba.ng" 16 false [$"read-only"; $"max-viewers"; $"ttl"] /\ d = 90 * Minute) as [-> ->].
  { vm_compute in E. injection E as <- <-. split; vm_compute; reflexivity. }
  split_and!; [done|done|exact H1|]. destruct (runShareWorker _ _ _) as [?|  |?|sh n name srv v] eqn:Er; try (exfalso; vm_compute in Er; discriminate Er).
  destruct H2 as (H3 & H4 & H5 & _). split_and!; [exact H3|exact H4|exact H5].
Defined.
