(* ===== verification/ShareLife.v ===== *)
(** The life of a share (cmd/bitbang/share.go): starting, reprinting, replacing and stopping the worker of a target,
    and the sweep of what earlier shares left.

    A command is a program over a world it shares with tmux, the worker and the operator: the pane of the management
    session and the files of the target. Each call it makes is a turn, in which other things happen first and tmux may
    fail to answer; [env] says what, by the number of the turn. The lifecycle lock, which keeps other share commands
    out, is [ShareLock]. *)

From S2P Require Import Prelude GoLib GoTime GoFlag Share Tmux ShareFlags.

(** * The world *)

(** The management session: there is none, its pane has died and is kept, or it runs the worker of a start. *)
Inductive pane_state := NoPane | DeadPane | LivePane (pid : Z) (nonce : bytes).

Definition live (p : pane_state) : bool := match p with LivePane _ _ => true | _ => false end.

Inductive signal := SIGTERM | SIGKILL.

(** What a command does to the outside. *)
Inductive effect := Signals (pid : Z) (s : signal) | KillsSession | RemovesState | Spawns (pid : Z) (nonce : bytes).

(** A setting that was asked for and that the running share does not have. *)
Inductive conflict := HasControlURL | IsViewOnly | OtherTTL (want have : Z) | OtherViewers (want have : Z) | OtherServer (want have : bytes).

(** What a command prints. *)
Inductive line :=
| SaidURLs (s : State) | SaidReused | SaidConflicts (l : list conflict) | SaidUnmanaged | SaidNoShare (cleaned : bool) | SaidSharing (s : State)
| SaidStarted | SaidStopped | SaidStartFailed (detail : bytes) | SaidSilent | SaidStillRunning (pid : Z) | SaidError (what : bytes).

(** [log]: the effects, each with the pane it met. *)
Record world := mkWorld {
  pane : pane_state; state_file : option bytes; startup_file : option bytes; clock : nat; log : list (effect * pane_state); said : list line
}.

#[export] Instance eta_world : Eta world := fun w => mkWorld (pane w) (state_file w) (startup_file w) (clock w) (log w) (said w).

(** What others do: the worker exits, its session staying listed or not; the worker publishes a state of its own start,
    or explains itself; the session is closed by hand. *)
Inductive happening := Exits (remain : bool) | Publishes (st : State) | Explains (msg : bytes) | Closes.

(** How tmux answers: as asked; or with an error, having done it or not. *)
Inductive reply := Answers | Fails (done : bool).

(** A turn: [others] are the panes of other sessions before and after this one in a listing; [disk] is whether an
    operation on files succeeds; [drawn] is the randomness; [pid] is that of a new process; [screen] is what
    [capture-pane] gives; [ticks] is how many times a ticker fires before the timer of the wait that starts here;
    [socket_gone] is whether a connection to the socket of the server is refused or finds none. *)
Record turn := mkTurn {
  happens : list happening; reply_ : reply; others : list (bytes * bool * Z) * list (bytes * bool * Z);
  disk : bool; drawn : option bytes; pid_ : Z; screen : option bytes; ticks : nat; socket_gone : bool
}.

Section Life.
Variable print_time : Z -> bytes.
Variable parse_time : bytes -> option Z.
Variable env : nat -> turn.
(** The target: the name of the management session, and the ID and the name of the session that is shared. *)
Variable t : shareTarget.

Definition set_nonce (st : State) (n : bytes) : State :=
  mkState (Socket st) (SessionID st) (SessionName st) (MgmtSession st) (UID st) (Server st) (ControlURL st) (ViewURL st) (MaxViewers st) n
    (CreatedAt st) (ExpiresAt st) (TTLSeconds st).

Definition happen (w : world) (h : happening) : world :=
  match h, pane w with
  | Exits remain, LivePane _ _ => w <| pane := if remain then DeadPane else NoPane |>
  | Publishes st, LivePane _ n => w <| state_file := Some (state_text print_time (set_nonce st n)) |>
  | Explains msg, LivePane _ n => w <| startup_file := Some (SaveStartupError n msg) |>
  | Closes, _ => w <| pane := NoPane |>
  | _, _ => w
  end.

(** * Programs *)

(** A program ends with a value or exits the process with a status. *)
Definition M (A : Type) : Type := world -> result Z A * world.

Definition ret {A} (x : A) : M A := fun w => (Ok x, w).
Definition bind {A B} (m : M A) (f : A -> M B) : M B := fun w =>
  match m w with (Ok x, w') => f x w' | (Err s, w') => (Err s, w') end.
Definition exit {A} (status : Z) : M A := fun w => (Err status, w).
Definition say (l : line) : M unit := fun w => (Ok tt, w <| said := said w ++ [l] |>).

Notation "'let*' x ':=' m 'in' k" := (bind m (fun x => k)) (at level 10, x name, m at level 200, k at level 200).
Notation "m ;;; k" := (bind m (fun _ => k)) (at level 100, k at level 200, right associativity).

(** The turn of a call. *)
Definition take_turn : M turn := fun w =>
  let e := env (clock w) in (Ok e, foldl happen (w <| clock := S (clock w) |>) (happens e)).

Definition act (e : effect) (f : world -> world) : M unit := fun w => (Ok tt, f (w <| log := log w ++ [(e, pane w)] |>)).
Definition get {A} (f : world -> A) : M A := fun w => (Ok (f w), w).

(** * tmux and the files *)

Definition print_pane (p : bytes * bool * Z) : bytes :=
  p.1.1 ++ [tab] ++ (if p.1.2 then $"1" else $"0") ++ [tab] ++ Itoa p.2.

(** [list-panes -a]: a line for each pane of the server. *)
Definition listing (e : turn) (p : pane_state) : bytes :=
  join [newline] (map print_pane ((others e).1 ++
    match p with NoPane => [] | DeadPane => [(st_mgmt t, true, 0)] | LivePane pid _ => [(st_mgmt t, false, pid)] end ++ (others e).2)).

Definition list_panes : M (option bytes) :=
  let* e := take_turn in get (fun w => match reply_ e with Answers => Some (listing e (pane w)) | Fails _ => None end).

(** [kill-session]: whether tmux reports success. *)
Definition kill_session : M bool :=
  let* e := take_turn in let* p := get pane in
  match reply_ e, p with
  | Fails false, _ | Answers, NoPane | Fails true, NoPane => ret false
  | Answers, _ => act KillsSession (fun w => w <| pane := NoPane |>) ;;; ret true
  | Fails true, _ => act KillsSession (fun w => w <| pane := NoPane |>) ;;; ret false
  end.

(** [new-session -d -s]: refused where the name is taken. *)
Definition new_session (nonce : bytes) : M bool :=
  let* e := take_turn in let* p := get pane in
  match reply_ e, p with
  | Answers, NoPane => act (Spawns (pid_ e) nonce) (fun w => w <| pane := LivePane (pid_ e) nonce |>) ;;; ret true
  | Fails true, NoPane => act (Spawns (pid_ e) nonce) (fun w => w <| pane := LivePane (pid_ e) nonce |>) ;;; ret false
  | _, _ => ret false
  end.

(** [killProcess]; its error is dropped, and what a signal leads to happens later, if it does. *)
Definition killProcess (pid : Z) (s : signal) : M unit := let* _ := take_turn in act (Signals pid s) id.

(** [share.LoadState]. *)
Definition load_state : M (result unit (option State)) :=
  let* e := take_turn in get (fun w => if disk e then LoadState parse_time (state_file w) else Err tt).

(** [share.RemoveState], which removes what it can. *)
Definition remove_state : M bool :=
  let* e := take_turn in act RemovesState (fun w => w <| state_file := None |> <| startup_file := None |>) ;;; ret (disk e).

Definition prepare_dir : M bool := let* e := take_turn in ret (disk e).
Definition new_nonce : M (option bytes) := let* e := take_turn in ret (drawn e).

Definition take_startup_error (nonce : bytes) : M bytes :=
  let* _ := take_turn in fun w => (Ok (TakeStartupError (startup_file w) nonce), w <| startup_file := None |>).

Definition capture_pane : M (option bytes) := let* e := take_turn in ret (screen e).

(** * Probing *)

Inductive mgmtState := mgmtGone | mgmtDead | mgmtRunning | mgmtUnknown.

Definition exited (m : mgmtState) : bool := match m with mgmtGone | mgmtDead => true | _ => false end.

(** [strings.TrimRight] of carriage returns. *)
Definition trim_cr (s : bytes) : bytes := rev (trim_left [chr 13] (rev s)).

Fixpoint find_line (lines : list bytes) (session : bytes) : mgmtState * Z :=
  match lines with
  | [] => (mgmtGone, 0)
  | l :: rest =>
    match Split (trim_cr l) tab with
    | name :: dead :: pid :: _ =>
      if negb (bool_decide (name = session)) then find_line rest session
      else if bool_decide (dead = $"1") then (mgmtDead, 0)
      else match Atoi (TrimSpace pid) with
           | Some p => if p <=? 1 then (mgmtRunning, 0) else (mgmtRunning, p)
           | None => (mgmtRunning, 0)
           end
    | _ => find_line rest session
    end
  end.

Definition findPane (listing session : bytes) : mgmtState * Z := find_line (Split listing newline) session.

Definition probeMgmtPane : M (mgmtState * Z) :=
  let* out := list_panes in ret (match out with None => (mgmtUnknown, 0) | Some text => findPane text (st_mgmt t) end).

Definition probeMgmt : M mgmtState := let* p := probeMgmtPane in ret p.1.

(** [workerPID]: the process, and whether tmux vouches for it. *)
Definition workerPID : M (Z * bool) :=
  let* p := probeMgmtPane in ret (p.2, match p.1 with mgmtRunning => p.2 >? 0 | _ => false end).

Inductive shareLiveness := shareAbsent | shareLive | shareStale | shareUnmanaged.

Definition loadLiveShare : M (option State * shareLiveness) :=
  let* s := load_state in let* m := probeMgmt in
  ret (match m, s with
       | (mgmtUnknown | mgmtRunning), Ok (Some st) => (Some st, shareLive)
       | (mgmtUnknown | mgmtRunning), _ => (None, shareUnmanaged)
       | _, Err _ => (Some no_state, shareStale)
       | _, Ok None => (None, shareAbsent)
       | _, Ok (Some st) => (Some st, shareStale)
       end).

(** * Cleaning up *)

Definition reapDeadMgmt (m : mgmtState) : M bool := match m with mgmtDead => kill_session | _ => ret true end.

(** [cleanupStale]: whether it did. *)
Definition cleanupStale : M bool :=
  let* m := probeMgmt in
  if negb (exited m) then ret false
  else let* ok := reapDeadMgmt m in if ok then remove_state else ret false.

Definition clean_or_exit : M unit := let* ok := cleanupStale in if ok then ret tt else say (SaidError $"stale") ;;; exit 1.

(** * Stopping *)

(** The loop of [waitForWorkerExit], with the ticks that are left. *)
Fixpoint wait_exit (n : nat) : M bool :=
  let* m := probeMgmt in if exited m then ret true else match n with O => ret false | S k => wait_exit k end.

Definition waitForWorkerExit : M bool := let* e := take_turn in wait_exit (ticks e).

Definition stopWorker : M bool :=
  let* w := workerPID in
  (if w.2 then
     killProcess w.1 SIGTERM ;;;
     let* gone := waitForWorkerExit in
     if gone then ret tt
     else let* again := workerPID in
          if again.2 && (again.1 =? w.1) then killProcess w.1 SIGKILL ;;; let* _ := waitForWorkerExit in ret tt else ret tt
   else ret tt) ;;;
  let* m := probeMgmt in
  match m with
  | mgmtGone | mgmtDead => let* ok := cleanupStale in if ok then ret true else say (SaidError $"cleanup") ;;; ret false
  | mgmtUnknown => say SaidSilent ;;; ret false
  | mgmtRunning => say (SaidStillRunning w.1) ;;; ret false
  end.

(** * Starting *)

(** The loop of [waitForState]: the state of this start, or why there is none. *)
Fixpoint wait_state (nonce : bytes) (n : nat) : M (option State) :=
  let* s := load_state in let* m := probeMgmt in
  let ours := match s with Ok (Some st) => if bool_decide (Nonce st = nonce) && bool_decide (ViewURL st <> []) then Some st else None | _ => None end in
  match ours, m with
  | Some st, mgmtRunning => ret (Some st)
  | _, (mgmtGone | mgmtDead) => ret None
  | _, _ => match n with O => ret None | S k => wait_state nonce k end
  end.

Definition waitForState (nonce : bytes) : M (option State) := let* e := take_turn in wait_state nonce (ticks e).

Definition startShare : M unit :=
  let* ok := prepare_dir in
  if negb ok then say (SaidError $"prepare") ;;; exit 1 else
  let* m := probeMgmt in let* ok := reapDeadMgmt m in
  if negb ok then say (SaidError $"reap") ;;; exit 1 else
  let* n := new_nonce in
  match n with
  | None => say (SaidError $"nonce") ;;; exit 1
  | Some nonce =>
    let* _ := take_startup_error nonce in
    let* ok := new_session nonce in
    if negb ok then say (SaidError $"start") ;;; exit 1 else
    let* s := waitForState nonce in
    match s with
    | Some st => say SaidStarted ;;; say (SaidURLs st)
    | None =>
      let* detail := take_startup_error nonce in
      let* detail := match detail with [] => let* out := capture_pane in ret (TrimSpace (default [] out)) | _ => ret detail end in
      say (SaidStartFailed detail) ;;; let* _ := stopWorker in exit 1
    end
  end.

(** * The commands *)

(** [shareConflicts]: in which of the settings that were asked for the running share differs. *)
Definition shareConflicts (c : shareConfig) (d : Z) (s : State) : list conflict :=
  (if was_set c $"read-only" then
     let runningReadOnly := bool_decide (ControlURL s = []) in
     if readOnly c && negb runningReadOnly then [HasControlURL] else if negb (readOnly c) && runningReadOnly then [IsViewOnly] else []
   else []) ++
  (if was_set c $"ttl" && negb (seconds d =? TTLSeconds s) then [OtherTTL (seconds d) (TTLSeconds s)] else []) ++
  (if was_set c $"max-viewers" && negb (maxViewers c =? MaxViewers s) then [OtherViewers (maxViewers c) (MaxViewers s)] else []) ++
  (if was_set c $"server" && negb (bool_decide (server c = Server s)) then [OtherServer (server c) (Server s)] else []).

Definition runShare (c : shareConfig) (d : Z) : M unit :=
  let* r := loadLiveShare in
  match r.2, r.1 with
  | shareUnmanaged, _ => say SaidUnmanaged ;;; exit 1
  | shareStale, _ => clean_or_exit ;;; startShare
  | shareLive, Some s =>
    match shareConflicts c d s with
    | [] => say SaidReused ;;; say (SaidURLs s)
    | l => say (SaidConflicts l) ;;; exit 1
    end
  | _, _ => startShare
  end.

Definition runShareRotate : M unit :=
  let* r := loadLiveShare in
  match r.2 with
  | shareLive | shareUnmanaged => let* ok := stopWorker in if ok then startShare else exit 1
  | shareStale => clean_or_exit ;;; startShare
  | shareAbsent => startShare
  end.

Definition runShareStatus : M unit :=
  let* r := loadLiveShare in
  match r.2, r.1 with
  | shareUnmanaged, _ => say SaidUnmanaged ;;; exit 1
  | shareStale, _ => clean_or_exit ;;; say (SaidNoShare true) ;;; exit 1
  | shareLive, Some s => say (SaidSharing s) ;;; say (SaidURLs s)
  | _, _ => say (SaidNoShare false) ;;; exit 1
  end.

Definition runShareStop : M unit :=
  let* r := loadLiveShare in
  match r.2 with
  | shareStale => clean_or_exit ;;; say (SaidNoShare true)
  | shareAbsent => say (SaidNoShare false)
  | _ => let* ok := stopWorker in if ok then say SaidStopped else exit 1
  end.

(** [sweepOne], of a target that some other command is not about: [true] where its server did not answer. *)
Definition serverIsGone (socket : bytes) : M bool := let* e := take_turn in ret (negb (bool_decide (socket = [])) && socket_gone e).

Definition sweepOne : M bool :=
  let* s := load_state in
  match s with
  | Err _ => ret false
  | Ok None => let* _ := remove_state in ret false
  | Ok (Some st) =>
    match MgmtSession st with
    | [] => ret false
    | mgmt =>
      let* out := list_panes in
      match out with
      | None => let* gone := serverIsGone (Socket st) in if gone then let* _ := remove_state in ret false else ret true
      | Some text =>
        match (findPane text mgmt).1 with
        | mgmtRunning => ret false
        | mgmtDead => let* ok := kill_session in if ok then let* _ := remove_state in ret false else ret false
        | _ => let* _ := remove_state in ret false
        end
      end
    end
  end.

End Life.
