(* ===== verification/ShareLifeSpec.v ===== *)
(** What the commands of a share promise: a running worker keeps its state file and its management session, whatever
    the command and whatever tmux, the disk and the worker do meanwhile; only the process that tmux named for this
    session is signalled; a start hands out the URLs of the worker it started; and a stop that says so has stopped. *)

From stdpp Require Import list.
From S2P Require Import Prelude GoLib GoTime GoFlag Json Wire JsonRoundTrip Share Tmux ShareFlags ShareLife.

(** * Numbers as words *)

Lemma Itoa_digits z : 0 <= z -> Forall (fun c => is_digit c = true) (Itoa z) /\ Itoa z <> [] /\ digits_value 0 (Itoa z) = Some z.
Proof.
  intros Hz. destruct (decide (z = 0)) as [->|]; [split_and!; [by repeat constructor|done|done]|].
  unfold Itoa. destruct (print_Z_digits z) as (HF & (c & r & E & _) & Hv); [lia|]. split_and!; [done|by rewrite E|].
  specialize (Hv 0 []). by rewrite app_nil_r in Hv.
Qed.

(** A word that begins and ends with digits is trimmed of nothing. *)
Lemma digit_no_space c r : is_digit c = true ->
  Forall (fun sp => HasPrefix (c :: r) sp = false) spaces /\ Forall (fun sp => HasPrefix (c :: r) (rev sp) = false) spaces.
Proof.
  intros Hc. assert (forall z, ((code (chr z) <? 48) || (57 <? code (chr z))) = true -> bool_decide (chr z = c) = false) as Hne.
  { intros z Hz. apply bool_decide_eq_false. intros <-. unfold is_digit, between in Hc. bool_to_prop. lia. }
  split; unfold spaces; cbn [map app]; repeat first [apply Forall_nil_2|apply Forall_cons_2];
    cbn [rev app HasPrefix]; rewrite Hne by (vm_compute; reflexivity); reflexivity.
Qed.

Lemma TrimSpace_digits ds : Forall (fun c => is_digit c = true) ds -> TrimSpace ds = ds.
Proof.
  intros HF. assert (leading_space ds = None) as Hl.
  { apply leading_space_None. destruct HF as [|c r Hc _]; [vm_compute; by repeat constructor|]. by apply digit_no_space. }
  assert (trailing_space ds = None) as Ht.
  { apply trailing_leading. apply Forall_rev in HF. destruct HF as [|c r Hc _]; [vm_compute; by repeat constructor|]. by apply digit_no_space. }
  unfold TrimSpace. destruct (length ds) eqn:El; [done|]. cbn [trim_left_space]. rewrite Hl. cbn [trim_right_space]. by rewrite Ht.
Qed.

Lemma Atoi_Itoa z : 0 <= z <= MaxInt64 -> Atoi (TrimSpace (Itoa z)) = Some z.
Proof.
  intros Hz. destruct (Itoa_digits z) as (HF & Hne & Hv); [lia|]. rewrite TrimSpace_digits by done.
  destruct (Itoa z) as [|c r]; [done|]. apply Forall_cons in HF as [Hc _]. unfold Atoi.
  assert (is_char 45 c = false /\ is_char 43 c = false) as [-> ->].
  { unfold is_digit, is_char, between in *. bool_to_prop. by settle (code c =? 45) false; settle (code c =? 43) false. }
  cbv iota. rewrite Hv. unfold between, MaxInt64 in *. settle (- 2 ^ 63 <=? z) true. by settle (z <=? 2 ^ 63 - 1) true.
Qed.

(** * Listings *)

Section Spec.
Variable print_time : Z -> bytes.
Variable parse_time : bytes -> option Z.
Variable env : nat -> turn.
Variable t : shareTarget.

(** A session of another name, and a process ID. *)
Definition other_ok (p : bytes * bool * Z) : Prop := p.1.1 <> st_mgmt t /\ (tab ∉ p.1.1) /\ (newline ∉ p.1.1) /\ 0 <= p.2 <= MaxInt64.

Definition name_ok : Prop := (tab ∉ st_mgmt t) /\ (newline ∉ st_mgmt t).

Definition others_ok : Prop := name_ok /\ forall k, Forall other_ok ((others (env k)).1 ++ (others (env k)).2).

Lemma digits_free z c : 0 <= z -> is_digit c = false -> c ∉ Itoa z.
Proof. intros Hz Hc Hin. destruct (Itoa_digits z Hz) as (HF & _). rewrite Forall_forall in HF. rewrite (HF c Hin) in Hc. done. Qed.

Lemma print_pane_fields n b z : tab ∉ n -> 0 <= z -> Split (trim_cr (print_pane (n, b, z))) tab = [n; (if b then $"1" else $"0"); Itoa z].
Proof.
  intros Hn Hz. assert (trim_cr (print_pane (n, b, z)) = print_pane (n, b, z)) as ->.
  { unfold trim_cr, print_pane. cbn [fst snd]. destruct (Itoa_digits z Hz) as (HF & Hne & _).
    apply Forall_rev in HF. rewrite !rev_app_distr. destruct (rev (Itoa z)) as [|c r] eqn:E.
    - apply (f_equal (@rev ascii)) in E. by rewrite rev_involutive in E.
    - apply Forall_cons in HF as [Hc _]. cbn [app]. cbn [trim_left]. rewrite decide_False.
      2: { intros ->%list_elem_of_singleton. done. }
      rewrite <- !app_assoc. change (c :: r ++ ?k) with ((c :: r) ++ k). rewrite <- E, <- !rev_app_distr, rev_involutive. by rewrite <- !app_assoc. }
  unfold print_pane. cbn [fst snd app]. rewrite Split_app_sep by done.
  assert (tab ∉ (if b then $"1" else $"0")) as Hb by (destruct b; by intros ?%list_elem_of_singleton).
  cbn [app]. rewrite (Split_app_sep _ _ _ Hb), Split_whole by (by apply digits_free). done.
Qed.

Lemma print_pane_line n b z : newline ∉ n -> 0 <= z -> newline ∉ print_pane (n, b, z).
Proof.
  intros Hn Hz. unfold print_pane. cbn [fst snd]. rewrite !elem_of_app, !list_elem_of_singleton.
  pose proof (digits_free z newline Hz eq_refl). destruct b; intros [?|[?|[?|[?|?]]]]; try done; by apply list_elem_of_singleton in H0.
Qed.

Lemma find_line_others ps rest : Forall other_ok ps -> find_line (map print_pane ps ++ rest) (st_mgmt t) = find_line rest (st_mgmt t).
Proof.
  induction 1 as [|[[n b] z] ps (Hn & Ht & _ & Hz) _ IH]; [done|]. cbn [map app find_line fst snd] in *.
  rewrite print_pane_fields by (done || lia). rewrite bool_decide_eq_false_2 by done. exact IH.
Qed.

(** What a listing says of the session: how its pane is, and its process if that is one. *)
Definition seen_pane (p : pane_state) (r : mgmtState * Z) : Prop :=
  match p with
  | NoPane => r = (mgmtGone, 0)
  | DeadPane => r = (mgmtDead, 0)
  | LivePane pid _ => r = (mgmtRunning, if pid <=? 1 then 0 else pid)
  end.

Definition pane_ok (p : pane_state) : Prop := match p with LivePane pid n => 0 <= pid <= MaxInt64 /\ utf8_valid n | _ => True end.

Lemma findPane_listing k p : others_ok -> pane_ok p -> seen_pane p (findPane (listing t (env k) p) (st_mgmt t)).
Proof.
  intros [[Hm1 Hm2] Ho] Hp. specialize (Ho k). apply Forall_app in Ho as [Hb Ha]. unfold findPane, listing.
  set (mine := match p with NoPane => [] | DeadPane => [(st_mgmt t, true, 0)] | LivePane pid _ => [(st_mgmt t, false, pid)] end).
  assert (Forall (fun l => newline ∉ l) (map print_pane ((others (env k)).1 ++ mine ++ (others (env k)).2))) as Hnl.
  { assert (forall l, Forall other_ok l -> Forall (fun l => newline ∉ l) (map print_pane l)) as Hl.
    { intros l Hl. apply Forall_map. eapply Forall_impl; [exact Hl|]. intros [[n b] z] (_ & _ & H & Hz). cbn [fst snd] in *. apply print_pane_line; [done|lia]. }
    rewrite !map_app, !Forall_app. split_and!; [by apply Hl| |by apply Hl].
    subst mine. destruct p as [| |pid n]; cbn [map]; repeat constructor; apply print_pane_line; try done. by destruct Hp as [[? _] _]. }
  assert (find_line (map print_pane ((others (env k)).1 ++ mine ++ (others (env k)).2)) (st_mgmt t) =
          find_line (map print_pane mine ++ map print_pane (others (env k)).2) (st_mgmt t)) as E by (rewrite !map_app; by apply find_line_others).
  assert (seen_pane p (find_line (map print_pane mine ++ map print_pane (others (env k)).2) (st_mgmt t))) as Hf.
  { assert (find_line (map print_pane (others (env k)).2) (st_mgmt t) = (mgmtGone, 0)) as Eg.
    { rewrite <- (app_nil_r (map print_pane _)). by apply find_line_others. }
    subst mine. destruct p as [| |pid n]; cbn [map app seen_pane find_line]; [exact Eg| |]; rewrite print_pane_fields by (done || (cbn in Hp; lia));
      rewrite bool_decide_eq_true_2 by done; [done|]. cbn [negb]. rewrite Atoi_Itoa by apply Hp. by destruct (pid <=? 1). }
  rewrite <- E in Hf. destruct (map print_pane ((others (env k)).1 ++ mine ++ (others (env k)).2)) as [|l ls] eqn:El; [exact Hf|].
  rewrite Split_join; done.
Qed.

(** * The invariant *)

(** No effect met the pane it should not: what is removed or closed had no worker in it, and a worker is started where
    there is none. *)
Definition entry_ok (e : effect * pane_state) : Prop :=
  match e.1 with RemovesState | KillsSession => live e.2 = false | Spawns _ _ => e.2 = NoPane | Signals _ _ => True end.

(** The workers of a run: the one that ran when it began, and those it started. *)
Definition worker_of (p0 : pane_state) (w : world) (pid : Z) (nonce : bytes) : Prop :=
  p0 = LivePane pid nonce \/ exists p, (Spawns pid nonce, p) ∈ log w.

(** A state that a worker of the run published. *)
Definition published (p0 : pane_state) (w : world) (st : State) : Prop :=
  exists pid n st0 k, worker_of p0 w pid n /\ Publishes st0 ∈ happens (env k) /\ st = set_nonce st0 n.

(** [f0]: the state file when the run began. *)
Variable f0 : option bytes.

Record inv (p0 : pane_state) (w : world) : Prop := mkInv {
  inv_log : Forall entry_ok (log w);
  inv_pane : forall pid n, pane w = LivePane pid n -> worker_of p0 w pid n;
  inv_signals : forall pid s p, (Signals pid s, p) ∈ log w -> 1 < pid /\ exists n, worker_of p0 w pid n /\ (live p = true -> p = LivePane pid n);
  inv_pid : pane_ok (pane w);
  inv_file : forall st, LoadState parse_time (state_file w) = Ok (Some st) -> LoadState parse_time f0 = Ok (Some st) \/ published p0 w st
}.

(** What tmux, the worker and the dice give: listings with plain names, process IDs, states and nonces that JSON keeps. *)
Record env_ok : Prop := mkEnvOk {
  env_others : others_ok;
  env_pid : forall k, 0 <= pid_ (env k) <= MaxInt64;
  env_drawn : forall k n, drawn (env k) = Some n -> utf8_valid n;
  env_states : forall k st n, Publishes st ∈ happens (env k) -> utf8_valid n -> state_ok (set_nonce st n)
}.

Hypothesis times_back : forall t, parse_time (print_time t) = Some t.
Hypothesis times_valid : forall t, utf8_valid (print_time t).
Hypothesis Henv : env_ok.
#[local] Set Default Proof Using "Henv times_back times_valid".

Definition turned (w : world) : world := foldl (happen print_time) (w <| clock := S (clock w) |>) (happens (env (clock w))).

Lemma turned_ind (P : world -> Prop) w : P (w <| clock := S (clock w) |>) ->
  (forall w' h, h ∈ happens (env (clock w)) -> P w' -> P (happen print_time w' h)) -> P (turned w).
Proof.
  unfold turned. intros H Hs. revert H. generalize (w <| clock := S (clock w) |>). induction (happens (env (clock w))) as [|h hs IH]; intros w1 H; [done|].
  cbn [foldl]. apply IH; [|apply Hs; [by left|done]]. intros w' h' Hin. apply Hs. by right.
Qed.

Lemma turned_log w : log (turned w) = log w /\ said (turned w) = said w.
Proof. apply turned_ind; [done|]. intros [p] h _ [<- <-]. by destruct h, p. Qed.

Lemma turned_pane w : pane (turned w) = pane w \/ live (pane (turned w)) = false.
Proof.
  apply (turned_ind (fun x => pane x = pane w \/ live (pane x) = false)); [by left|].
  intros [p] h _ H. cbn in H. destruct h, p; try destruct remain; cbn in *; auto.
Qed.

Definition calm (w : world) : Prop := live (pane w) = false.

Lemma turned_calm w : calm w -> calm (turned w).
Proof. unfold calm. intros H. by destruct (turned_pane w) as [->|]. Qed.

Lemma turned_empty w : pane w = NoPane -> pane (turned w) = NoPane.
Proof. intros H. apply turned_ind; [done|]. intros [p] h _ E. cbn in E. subst p. by destruct h. Qed.

(** Every happening keeps the invariant. *)
Lemma happen_inv p0 k w h : inv p0 w -> h ∈ happens (env k) -> inv p0 (happen print_time w h).
Proof.
  intros [H1 H2 H3 H4 H5] Hin. destruct w as [p f e c l o]. cbn [pane state_file log] in *.
  destruct h as [remain|st|msg|]; destruct p as [| |pid n]; try (by split); try (split; cbn [happen pane log state_file]; try done; by destruct remain).
  split; try done. cbn [happen pane state_file]. intros st' Hst'. right.
  assert (worker_of p0 (mkWorld (LivePane pid n) f e c l o) pid n) as Hw by by apply H2.
  destruct H4 as [_ Hn]. pose proof (env_states Henv k st n Hin Hn) as Hok.
  pose proof (state_written_back print_time parse_time times_back times_valid _ Hok) as E.
  change (LoadState parse_time (Some (state_text print_time (set_nonce st n))) = Ok (Some st')) in Hst'. rewrite E in Hst'. injection Hst' as <-.
  exists pid, n, st, k. by split_and!.
Qed.

Lemma turned_inv p0 w : inv p0 w -> inv p0 (turned w).
Proof.
  intros Hi. apply turned_ind; [by destruct Hi; split|]. intros w' h Hin Hi'. by eapply happen_inv.
Qed.

(** An effect that is in order. *)
Lemma inv_act p0 e f w : inv p0 w -> entry_ok (e, pane w) ->
  (forall w, log (f w) = log w) ->
  (pane (f w) = pane w \/ live (pane (f w)) = false \/ exists pid n, e = Spawns pid n /\ pane (f w) = LivePane pid n /\ pane_ok (LivePane pid n)) ->
  (state_file (f w) = state_file w \/ state_file (f w) = None) -> (forall w l, state_file (f (w <| log := l |>)) = state_file (f w)) ->
  (forall w l, pane (f (w <| log := l |>)) = pane (f w)) ->
  (forall pid s, e = Signals pid s -> 1 < pid /\ exists n, worker_of p0 w pid n /\ (live (pane w) = true -> pane w = LivePane pid n)) ->
  inv p0 (act e f w).2.
Proof.
  intros [H1 H2 H3 H4 H5] He Hl Hp Hff Hfl Hpl Hs. unfold act. cbn [snd]. set (l := log w ++ [(e, pane w)]).
  assert (forall pid n, worker_of p0 w pid n -> worker_of p0 (f (w <| log := l |>)) pid n) as Hmono.
  { intros pid n [?|[p Hin]]; [by left|right; exists p]. rewrite Hl. apply elem_of_app. by left. }
  split; rewrite ?Hl, ?Hpl, ?Hfl.
  - apply Forall_app. split; [done|by constructor].
  - intros pid n Ep. destruct Hp as [Hp|[Hp|(pid' & n' & -> & Hp & _)]].
    + apply Hmono, H2. congruence.
    + by rewrite Ep in Hp.
    + rewrite Ep in Hp. injection Hp as <- <-. right. exists (pane w). rewrite Hl. apply elem_of_app. right. by apply list_elem_of_singleton.
  - intros pid s p [Hin|E%list_elem_of_singleton]%elem_of_app.
    + apply H3 in Hin as (Hg & n & Hn & Hq). split; [done|]. exists n. split; [by apply Hmono|done].
    + injection E as E ->. symmetry in E. destruct (Hs _ _ E) as (Hg & n & Hn & Hq). split; [done|]. exists n. split; [by apply Hmono|done].
  - destruct Hp as [->|[Hp|(pid' & n' & _ & -> & Hr)]]; [done| |exact Hr]. by destruct (pane (f w)).
  - intros st Hst. destruct Hff as [E|E]; rewrite E in Hst; [|done]. destruct (H5 st Hst) as [?|(pid & n & st0 & k & Hw & ? & ?)]; [by left|right].
    exists pid, n, st0, k. split_and!; [by apply Hmono|done|done].
Qed.

(** * Triples *)

(** From a world with [P], a program keeps the invariant where it exits, and reaches [Q] where it does not. *)
Definition hoare {A} (p0 : pane_state) (P : world -> Prop) (m : M A) (Q : A -> world -> Prop) : Prop := forall w, inv p0 w -> P w ->
  inv p0 (m w).2 /\ match (m w).1 with Ok x => Q x (m w).2 | Err _ => True end.

Lemma hoare_bind {A B} p0 P (m : M A) Q (f : A -> M B) R :
  hoare p0 P m Q -> (forall x, hoare p0 (Q x) (f x) R) -> hoare p0 P (bind m f) R.
Proof using.
  intros Hm Hf w Hi Hp. destruct (Hm w Hi Hp) as [Hi' Hq]. unfold bind. destruct (m w) as [[x|e] w']; cbn [fst snd] in *; [|done].
  exact (Hf x w' Hi' Hq).
Qed.

Lemma hoare_ret {A} p0 P (x : A) (Q : A -> world -> Prop) : (forall w, P w -> Q x w) -> hoare p0 P (ret x) Q.
Proof using. intros H w Hi Hp. split; [done|by apply H]. Qed.

Lemma hoare_weaken {A} p0 (P P' : world -> Prop) (m : M A) (Q Q' : A -> world -> Prop) :
  hoare p0 P m Q -> (forall w, P' w -> P w) -> (forall x w, Q x w -> Q' x w) -> hoare p0 P' m Q'.
Proof using. intros H H1 H2 w Hi Hp. destruct (H w Hi (H1 w Hp)) as [? Hq]. split; [done|]. destruct (m w).1; auto. Qed.

Lemma hoare_exit {A} p0 P s (Q : A -> world -> Prop) : hoare p0 P (exit s) Q.
Proof using. by intros w Hi _. Qed.

Lemma say_inv p0 l w : inv p0 w -> inv p0 (w <| said := said w ++ [l] |>).
Proof. by intros [? ? ? ? ?]; split. Qed.

Lemma hoare_say p0 (P : world -> Prop) l : (forall w, P w -> P (w <| said := said w ++ [l] |>)) -> hoare p0 P (say l) (fun _ => P).
Proof. intros H w Hi Hp. split; [by apply say_inv|]. cbn. by apply H. Qed.

(** * Calls *)

Definition anything (w : world) : Prop := True.

Lemma hoare_pure_turn {A} p0 (P : world -> Prop) (f : turn -> world -> A) : (forall w, P w -> P (turned w)) ->
  hoare p0 P (bind (take_turn print_time env) (fun e => get (f e))) (fun _ => P).
Proof. intros Hs w Hi Hp. split; [by apply turned_inv|]. cbn. by apply Hs. Qed.

Lemma hoare_probe p0 : hoare p0 anything (probeMgmtPane print_time env t) (fun r w =>
  seen_pane (pane w) r \/ r = (mgmtUnknown, 0)).
Proof.
  intros w Hi _. unfold probeMgmtPane, list_panes, bind, take_turn, get, ret. fold (turned w). pose proof (turned_inv _ _ Hi) as Hi'.
  destruct (reply_ (env (clock w))) eqn:Er; (split; [exact Hi'|]); [left|right; done]. apply findPane_listing; [apply Henv|apply Hi'].
Qed.

Definition probed (m : mgmtState) (w : world) : Prop :=
  match m with mgmtGone => pane w = NoPane | mgmtDead => pane w = DeadPane | mgmtRunning => live (pane w) = true | mgmtUnknown => True end.

Lemma hoare_probeMgmt p0 : hoare p0 anything (probeMgmt print_time env t) probed.
Proof.
  eapply hoare_bind; [apply hoare_probe|]. intros r. apply hoare_ret. intros w [Hs|Hr]; [|by subst r].
  destruct (pane w) as [| |pid n] eqn:E; cbn in Hs; subst r; cbn; by rewrite E.
Qed.

(** A process that may be signalled: of a worker of this run, and no other worker is in the pane. *)
Definition vouched (p0 : pane_state) (pid : Z) (w : world) : Prop :=
  1 < pid /\ exists n, worker_of p0 w pid n /\ (live (pane w) = true -> pane w = LivePane pid n).

Lemma hoare_workerPID p0 : hoare p0 anything (workerPID print_time env t) (fun r w => r.2 = true -> vouched p0 r.1 w).
Proof.
  intros w Hi Hp. destruct (hoare_probe p0 w Hi Hp) as [Hi' Hq]. unfold workerPID, bind.
  destruct (probeMgmtPane print_time env t w) as [[r|x] w']; cbn [fst snd] in *; [|done]. split; [done|]. cbn [ret fst snd].
  destruct Hq as [Hs| ->]; [|done]. destruct (pane w') as [| |pid n] eqn:E; cbn in Hs; subst r; cbn; [done|done|].
  destruct (pid <=? 1) eqn:E1; [done|]. intros _. bool_to_prop. split; [lia|]. exists n. split; [by apply Hi'|done].
Qed.

Lemma hoare_signal p0 pid s : hoare p0 (vouched p0 pid) (killProcess print_time env pid s) (fun _ => anything).
Proof.
  intros w Hi (Hg & n & Hn & Hq). unfold killProcess, bind, take_turn. fold (turned w). split; [|done].
  apply inv_act; [by apply turned_inv|done|done|by left|by left|done|done|]. intros pid' s' [= <- <-]. split; [done|]. exists n.
  split; [unfold worker_of; by rewrite (proj1 (turned_log w))|]. destruct (turned_pane w) as [->|Hd]; [done|congruence].
Qed.

Lemma hoare_kill p0 : hoare p0 calm (kill_session print_time env) (fun ok w => calm w /\ (ok = true -> pane w = NoPane)).
Proof.
  intros w Hi Hc. unfold kill_session, bind, take_turn, get, ret. fold (turned w). pose proof (turned_inv _ _ Hi) as Hi'. pose proof (turned_calm _ Hc) as Hc'.
  assert (inv p0 (act KillsSession (fun w => w <| pane := NoPane |>) (turned w)).2) as Ha.
  { apply inv_act; [done|exact Hc'|done|by right; left|by left|done|done|done]. }
  destruct (reply_ (env (clock w))) as [|[]]; [destruct (pane (turned w)) eqn:E|destruct (pane (turned w)) eqn:E|]; (split; [done|]); by split.
Qed.

Lemma hoare_remove p0 : hoare p0 calm (remove_state print_time env) (fun _ => calm).
Proof.
  intros w Hi Hc. unfold remove_state, bind, take_turn. fold (turned w). pose proof (turned_calm _ Hc) as Hc'. split; [|exact Hc'].
  apply (inv_act p0 RemovesState (fun w => w <| state_file := None |> <| startup_file := None |>));
    [by apply turned_inv|exact Hc'|done|by left|by right|done|done|done].
Qed.

Lemma hoare_remove_empty p0 : hoare p0 (fun w => pane w = NoPane) (remove_state print_time env) (fun ok w => pane w = NoPane /\ state_file w = None).
Proof.
  intros w Hi Hc. pose proof (turned_empty _ Hc) as Hc'. destruct (hoare_remove p0 w Hi) as [Hi' _]; [unfold calm; by rewrite Hc|].
  split; [exact Hi'|]. cbn. by split.
Qed.

Lemma hoare_spawn p0 n : utf8_valid n -> hoare p0 anything (new_session print_time env n) (fun _ => anything).
Proof.
  intros Hn w Hi _. unfold new_session, bind, take_turn, get, ret. fold (turned w). pose proof (turned_inv _ _ Hi) as Hi'.
  set (e := env (clock w)). split; [|by destruct (reply_ e) as [|[]], (pane (turned w))].
  assert (pane (turned w) = NoPane -> inv p0 (act (Spawns (pid_ e) n) (fun w => w <| pane := LivePane (pid_ e) n |>) (turned w)).2) as Ha.
  { intros Hp. apply inv_act; [done|exact Hp|done| |by left|done|done|done]. right. right. exists (pid_ e), n. split_and!; [done|done|]. split; [apply Henv|done]. }
  destruct (reply_ e) as [|[]]; [|destruct (pane (turned w)) eqn:E..]; try done; [destruct (pane (turned w)) eqn:E|]; try done; by apply Ha.
Qed.

Lemma hoare_quiet {A} p0 (f : turn -> A) : hoare p0 anything (bind (take_turn print_time env) (fun e => ret (f e))) (fun _ => anything).
Proof. intros w Hi _. split; [by apply turned_inv|done]. Qed.

Lemma hoare_load p0 : hoare p0 anything (load_state print_time parse_time env) (fun _ => anything).
Proof. by apply hoare_pure_turn. Qed.

Lemma hoare_take_error p0 n : hoare p0 anything (take_startup_error print_time env n) (fun _ => anything).
Proof. intros w Hi _. split; [|done]. cbn. apply turned_inv in Hi as [? ? ? ? ?]. by split. Qed.

Lemma hoare_print p0 l : hoare p0 anything (say l) (fun _ => anything).
Proof. by apply hoare_say. Qed.

(** * Cleaning up and stopping *)

Definition cleaned (ok : bool) (w : world) : Prop := ok = true -> pane w = NoPane /\ state_file w = None.

Lemma hoare_reap p0 m : exited m = true -> hoare p0 (probed m) (reapDeadMgmt print_time env m) (fun ok w => ok = true -> pane w = NoPane).
Proof.
  destruct m; try done; intros _; [by apply hoare_ret|]. eapply hoare_weaken; [apply hoare_kill| |by intros ? ? [_ ?]].
  intros w. cbn. unfold calm. by intros ->.
Qed.

Lemma hoare_cleanup p0 : hoare p0 anything (cleanupStale print_time env t) cleaned.
Proof.
  eapply hoare_bind; [apply hoare_probeMgmt|]. intros m. destruct (exited m) eqn:Em; [|by apply hoare_ret]. cbn [negb].
  eapply hoare_bind; [by apply hoare_reap|]. intros [|]; [|by apply hoare_ret].
  eapply hoare_weaken; [apply hoare_remove_empty|by intros w H; apply H|by intros x w ? ?].
Qed.

Lemma hoare_clean_or_exit p0 : hoare p0 anything (clean_or_exit print_time env t) (fun _ w => pane w = NoPane /\ state_file w = None).
Proof.
  eapply hoare_bind; [apply hoare_cleanup|]. intros [|]; [apply hoare_ret; by auto|].
  eapply hoare_bind; [|intros; apply hoare_exit]. eapply hoare_weaken; [apply hoare_print|done|]. by intros ? ? ?.
Qed.

Lemma hoare_wait_exit p0 n : hoare p0 anything (wait_exit print_time env t n) (fun _ => anything).
Proof.
  induction n as [|n IH]; cbn [wait_exit]; (eapply hoare_bind; [apply hoare_probeMgmt|]; intros m; destruct (exited m); [by apply hoare_ret|]).
  - by apply hoare_ret.
  - by eapply hoare_weaken.
Qed.

Lemma hoare_wait p0 : hoare p0 anything (waitForWorkerExit print_time env t) (fun _ => anything).
Proof.
  intros w Hi Hp. unfold waitForWorkerExit, bind, take_turn. fold (turned w). by apply hoare_wait_exit; [apply turned_inv|].
Qed.

Lemma hoare_stop p0 : hoare p0 anything (stopWorker print_time env t) cleaned.
Proof.
  eapply hoare_bind; [apply hoare_workerPID|]. intros [pid ok]. cbn [fst snd].
  eapply hoare_bind with (Q := fun _ => anything).
  { destruct ok; [|by apply hoare_ret]. eapply hoare_bind; [eapply hoare_weaken; [apply hoare_signal|by intros w H; apply H|by intros ? ? H; exact H]|]. intros ?.
    eapply hoare_bind; [apply hoare_wait|]. intros [|]; [by apply hoare_ret|].
    eapply hoare_bind; [apply hoare_workerPID|]. intros [pid2 ok2]. cbn [fst snd]. destruct ok2; cbn [andb]; [|by apply hoare_ret].
    destruct (pid2 =? pid) eqn:E; [|by apply hoare_ret]. apply Z.eqb_eq in E as ->.
    eapply hoare_bind; [eapply hoare_weaken; [apply hoare_signal|by intros w H; apply H|by intros ? ? H; exact H]|]. intros ?.
    eapply hoare_bind; [apply hoare_wait|]. intros ?. by apply hoare_ret. }
  intros _. eapply hoare_bind; [apply hoare_probeMgmt|]. intros m. destruct m.
  1, 2: eapply hoare_bind; [eapply hoare_weaken; [apply hoare_cleanup|done|by intros ? ? H; exact H]|]; intros [|]; [by apply hoare_ret|];
    (eapply hoare_bind; [eapply hoare_weaken; [apply hoare_print|done|by intros ? ? H; exact H]|]; intros ?; by apply hoare_ret).
  all: eapply hoare_bind; [eapply hoare_weaken; [apply hoare_print|done|by intros ? ? H; exact H]|]; intros ?; by apply hoare_ret.
Qed.

(** * Starting *)

Lemma hoare_seq {A B} p0 (m : M A) (f : A -> M B) R :
  hoare p0 anything m (fun _ => anything) -> (forall x, hoare p0 anything (f x) R) -> hoare p0 anything (bind m f) R.
Proof. intros Hm Hf. by eapply hoare_bind. Qed.

Lemma hoare_any {A} p0 P (m : M A) Q : hoare p0 P m Q -> (forall w, P w) -> hoare p0 anything m (fun _ => anything).
Proof. intros H Hp. by eapply hoare_weaken; [exact H|..]. Qed.

Lemma hoare_drop {A} p0 P (m : M A) Q : hoare p0 anything m Q -> hoare p0 P m Q.
Proof. intros H. by eapply hoare_weaken; [exact H|..]. Qed.

Lemma hoare_reap_any p0 m : hoare p0 (probed m) (reapDeadMgmt print_time env m) (fun _ => anything).
Proof. destruct (exited m) eqn:E; [by eapply hoare_weaken; [by apply hoare_reap|..]|]. by destruct m; try done; apply hoare_ret. Qed.

Lemma hoare_wait_state p0 nonce n : hoare p0 anything (wait_state print_time parse_time env t nonce n) (fun _ => anything).
Proof.
  induction n as [|n IH]; cbn [wait_state]; (apply hoare_seq; [apply hoare_load|]; intros s; eapply hoare_bind; [apply hoare_probeMgmt|]; intros m);
    apply hoare_drop; destruct (match s with Ok (Some st) => _ | _ => None end), m; first [by apply hoare_ret|exact IH].
Qed.

Lemma hoare_nonce p0 : hoare p0 anything (new_nonce print_time env) (fun n _ => forall x, n = Some x -> utf8_valid x).
Proof. intros w Hi _. split; [by apply turned_inv|]. cbn. intros x. apply Henv. Qed.

Lemma hoare_if {A} p0 (P : world -> Prop) (F : Prop) (m : M A) Q : (forall w, P w -> F) -> (F -> hoare p0 anything m Q) -> hoare p0 P m Q.
Proof. intros HF H w Hi Hp. apply H; [by eapply HF|done|done]. Qed.

Lemma hoare_waitForState p0 nonce : hoare p0 anything (waitForState print_time parse_time env t nonce) (fun _ => anything).
Proof. intros w Hi Hp. unfold waitForState, bind, take_turn. fold (turned w). by apply hoare_wait_state; [apply turned_inv|]. Qed.

Lemma hoare_fail {A} p0 l s : hoare p0 anything (bind (say l) (fun _ => @exit A s)) (fun _ => anything).
Proof. apply hoare_seq; [apply hoare_print|]. intros _. apply hoare_exit. Qed.

Lemma hoare_start p0 : hoare p0 anything (startShare print_time parse_time env t) (fun _ => anything).
Proof.
  unfold startShare. apply hoare_seq; [apply hoare_quiet|]. intros [|]; cbn [negb]; [|apply hoare_fail].
  eapply hoare_bind; [apply hoare_probeMgmt|]. intros m. eapply hoare_bind; [apply hoare_reap_any|]. intros [|]; cbn [negb]; [|apply hoare_fail].
  eapply hoare_bind; [apply hoare_nonce|]. intros [nonce|]; [|apply hoare_drop, hoare_fail]. eapply hoare_if; [intros w H; exact H|]. intros Hn. specialize (Hn nonce eq_refl).
  apply hoare_seq; [apply hoare_take_error|]. intros _. apply hoare_seq; [by apply hoare_spawn|]. intros [|]; cbn [negb]; [|apply hoare_fail].
  apply hoare_seq; [apply hoare_waitForState|]. intros [st|].
  - apply hoare_seq; [apply hoare_print|]. intros _. apply hoare_print.
  - apply hoare_seq; [apply hoare_take_error|]. intros detail.
    apply hoare_seq; [destruct detail; [|by apply hoare_ret]; apply hoare_seq; [apply hoare_quiet|]; intros ?; by apply hoare_ret|]. intros detail'.
    apply hoare_seq; [apply hoare_print|]. intros _. apply hoare_seq; [|intros; apply hoare_exit].
    by eapply hoare_any; [apply hoare_stop|].
Qed.

(** * Commands *)

Lemma hoare_loadLive p0 : hoare p0 anything (loadLiveShare print_time parse_time env t) (fun _ => anything).
Proof. apply hoare_seq; [apply hoare_load|]. intros s. eapply hoare_bind; [apply hoare_probeMgmt|]. intros m. by apply hoare_ret. Qed.

Lemma hoare_clean p0 : hoare p0 anything (clean_or_exit print_time env t) (fun _ => anything).
Proof. by eapply hoare_any; [apply hoare_clean_or_exit|]. Qed.

Lemma hoare_stop_any p0 : hoare p0 anything (stopWorker print_time env t) (fun _ => anything).
Proof. by eapply hoare_any; [apply hoare_stop|]. Qed.

Lemma hoare_commands p0 c d : hoare p0 anything (runShare print_time parse_time env t c d) (fun _ => anything) /\
  hoare p0 anything (runShareRotate print_time parse_time env t) (fun _ => anything) /\
  hoare p0 anything (runShareStatus print_time parse_time env t) (fun _ => anything) /\
  hoare p0 anything (runShareStop print_time parse_time env t) (fun _ => anything).
Proof.
  split_and!; (apply hoare_seq; [apply hoare_loadLive|]); intros [s l]; cbn [fst snd]; destruct l.
  1, 5, 9, 13: try destruct s; first [apply hoare_start|apply hoare_fail|apply hoare_print].
  - destruct s as [st|]; [|apply hoare_start]. destruct (shareConflicts c d st); [|apply hoare_fail].
    apply hoare_seq; [apply hoare_print|]. intros _. apply hoare_print.
  - destruct s; (apply hoare_seq; [apply hoare_clean|intros _; apply hoare_start]).
  - destruct s; apply hoare_fail.
  - apply hoare_seq; [apply hoare_stop_any|]. intros [|]; [apply hoare_start|apply hoare_exit].
  - apply hoare_seq; [apply hoare_clean|intros _; apply hoare_start].
  - apply hoare_seq; [apply hoare_stop_any|]. intros [|]; [apply hoare_start|apply hoare_exit].
  - destruct s as [st|]; [|apply hoare_fail]. apply hoare_seq; [apply hoare_print|]. intros _. apply hoare_print.
  - destruct s; (apply hoare_seq; [apply hoare_clean|intros _; apply hoare_fail]).
  - destruct s; apply hoare_fail.
  - apply hoare_seq; [apply hoare_stop_any|]. intros [|]; [apply hoare_print|apply hoare_exit].
  - apply hoare_seq; [apply hoare_clean|intros _; apply hoare_print].
  - apply hoare_seq; [apply hoare_stop_any|]. intros [|]; [apply hoare_print|apply hoare_exit].
Qed.

(** The sweep, whose evidence can be the socket: where a connection finds nobody, the server and its panes are gone. *)
Definition socket_honest : Prop := forall k, socket_gone (env k) = true -> Closes ∈ happens (env k).

Lemma closes_empty hs : Closes ∈ hs -> forall w, live (pane (foldl (happen print_time) w hs)) = false.
Proof.
  induction hs as [|h hs IH]; intros Hin w; [by apply elem_of_nil in Hin|]. cbn [foldl].
  apply elem_of_cons in Hin as [<-|Hin]; [|by apply IH]. clear IH.
  assert (forall hs x, pane x = NoPane -> pane (foldl (happen print_time) x hs) = NoPane) as Hno.
  { clear. induction hs as [|h hs IH]; intros x Hx; [done|]. cbn [foldl]. apply IH. destruct x as [p]. cbn in Hx. subst p. by destruct h. }
  rewrite Hno; [done|]. by destruct w as [p].
Qed.

Lemma hoare_gone p0 socket : socket_honest -> hoare p0 anything (serverIsGone print_time env socket) (fun gone w => gone = true -> calm w).
Proof.
  intros Hh w Hi _. split; [by apply turned_inv|]. cbn. intros [_ H]%andb_true_iff. apply closes_empty. by apply Hh.
Qed.

(** A share that has published is on record, and stays so until something removes it. *)
Definition on_record (w : world) : Prop := exists st, LoadState parse_time (state_file w) = Ok (Some st).

Lemma turned_record p0 w : inv p0 w -> on_record w -> on_record (turned w).
Proof.
  intros Hi Hr. assert (inv p0 (turned w) /\ on_record (turned w)) as [_ H]; [|exact H]. apply turned_ind.
  - split; [|done]. by destruct Hi; split.
  - intros w' h Hin [Hi' Hr']. split; [by eapply happen_inv|]. destruct w' as [p f e c l o].
    destruct h as [remain|st|msg|], p as [| |pid n]; try exact Hr'; try (by destruct remain).
    exists (set_nonce st n). apply state_written_back; [done|done|]. eapply env_states; [done|exact Hin|]. apply Hi'.
Qed.

Definition names_session (st : State) : Prop := MgmtSession st = st_mgmt t.

(** What a sweep goes by: an honest socket, and states that name the session of their target. *)
Definition sweep_ok : Prop := socket_honest /\ (forall st, LoadState parse_time f0 = Ok (Some st) -> names_session st) /\
  forall k st, Publishes st ∈ happens (env k) -> names_session st.

Lemma hoare_load_named p0 : sweep_ok -> hoare p0 on_record (load_state print_time parse_time env)
  (fun r w => forall x, r = Ok x -> exists st, x = Some st /\ names_session st).
Proof.
  intros (_ & Hf & Hp) w Hi Hr. pose proof (turned_inv _ _ Hi) as Hi'. split; [exact Hi'|].
  destruct (turned_record _ _ Hi Hr) as [st Hst]. unfold load_state, bind, take_turn, get. fold (turned w). cbn [fst snd].
  destruct (disk (env (clock w))); [|done]. rewrite Hst. intros x [= <-]. exists st. split; [done|].
  destruct (inv_file _ _ Hi' st Hst) as [H|(pid & n & st0 & k & _ & H & ->)]; [by apply Hf|]. exact (Hp _ _ H).
Qed.

Lemma hoare_sweep p0 : sweep_ok -> hoare p0 on_record (sweepOne print_time parse_time env t) (fun _ => anything).
Proof.
  intros Hs. eapply hoare_bind; [by apply hoare_load_named|]. intros r. eapply hoare_if; [intros w H; exact H|]. intros Hr.
  destruct r as [x|[]]; [|by apply hoare_ret]. destruct (Hr x eq_refl) as (st & -> & Hst).
  destruct (MgmtSession st) as [|c m] eqn:Em; [by apply hoare_ret|].
  unfold names_session in Hst. rewrite <- Em. clear Hr. clear c m Em.
  eapply hoare_bind with (Q := fun out w => match out with None => True | Some text => seen_pane (pane w) (findPane text (st_mgmt t)) end).
  { intros w Hi _. unfold list_panes, bind, take_turn, get. fold (turned w). pose proof (turned_inv _ _ Hi) as Hi'. split; [exact Hi'|].
    cbn [fst snd]. destruct (reply_ (env (clock w))); [|done]. apply findPane_listing; [apply Henv|apply Hi']. }
  assert (forall b : bool, hoare p0 calm (bind (remove_state print_time env) (fun _ => ret b)) (fun _ => anything)) as Hrm.
  { intros b. eapply hoare_bind; [apply hoare_remove|]. intros ?. by apply hoare_ret. }
  intros [text|].
  - rewrite Hst. destruct (findPane text (st_mgmt t)) as [m q] eqn:Ef. cbn [fst].
    assert (forall w, seen_pane (pane w) (m, q) -> m <> mgmtRunning -> calm w) as Hc.
    { intros w. unfold calm. by destruct (pane w) as [| |pid n]; cbn; [done|done|]; intros [= -> _]. }
    destruct m; try by apply hoare_ret.
    + eapply hoare_weaken; [apply Hrm|by intros w H; apply (Hc w H)|done].
    + eapply hoare_bind; [eapply hoare_weaken; [apply hoare_kill|by intros w H; apply (Hc w H)|intros ? ? H; exact H]|].
      intros [|]; [|by apply hoare_ret]. eapply hoare_weaken; [apply Hrm|by intros w [H _]|done].
    + eapply hoare_weaken; [apply Hrm|by intros w H; apply (Hc w H)|done].
  - eapply hoare_bind; [eapply hoare_weaken; [apply hoare_gone; apply Hs|done|intros ? ? H; exact H]|].
    intros [|]; [|by apply hoare_ret]. eapply hoare_weaken; [apply Hrm|by intros w H; apply H|done].
Qed.

(** * Handing out *)

(** The session of a start, once made, runs its worker or none. *)
Definition own (pid : Z) (nonce : bytes) (w : world) : Prop :=
  (pane w = LivePane pid nonce \/ calm w) /\ (Spawns pid nonce, NoPane) ∈ log w.

Lemma turned_own pid nonce w : own pid nonce w -> own pid nonce (turned w).
Proof.
  intros [H1 H2]. split; [|by rewrite (proj1 (turned_log w))]. destruct (turned_pane w) as [E|E]; [|by right].
  unfold calm. rewrite E. destruct H1; [by left|by right].
Qed.

Lemma published_turned p0 w st : published p0 w st -> published p0 (turned w) st.
Proof.
  intros (pid & n & st0 & k & Hw & H). exists pid, n, st0, k. split; [|exact H]. unfold worker_of in *. by rewrite (proj1 (turned_log w)).
Qed.

(** A state that is where a state of this run can be from. *)
Definition known_state (p0 : pane_state) (st : State) (w : world) : Prop := LoadState parse_time f0 = Ok (Some st) \/ published p0 w st.

Lemma probe_own p0 pid nonce st : hoare p0 (fun w => own pid nonce w /\ forall x, st = Some x -> known_state p0 x w) (probeMgmt print_time env t)
  (fun m w => probed m w /\ own pid nonce w /\ forall x, st = Some x -> known_state p0 x w).
Proof.
  intros w Hi [Ho Hk]. destruct (hoare_probeMgmt p0 w Hi I) as [Hi' Hq]. split; [exact Hi'|].
  assert ((probeMgmt print_time env t w).2 = turned w) as E by (unfold probeMgmt, probeMgmtPane, list_panes, bind, take_turn, get, ret; by destruct (reply_ _)).
  rewrite E in *. destruct (probeMgmt print_time env t w).1; [|done]. split_and!; [done|by apply turned_own|].
  intros x Hx. destruct (Hk x Hx); [by left|right; by apply published_turned].
Qed.

Lemma load_own p0 pid nonce : hoare p0 (own pid nonce) (load_state print_time parse_time env)
  (fun r w => own pid nonce w /\ forall x, r = Ok (Some x) -> known_state p0 x w).
Proof.
  intros w Hi Ho. pose proof (turned_inv _ _ Hi) as Hi'. split; [exact Hi'|]. unfold load_state, bind, take_turn, get. fold (turned w). cbn [fst snd].
  split; [by apply turned_own|]. destruct (disk _); [|done]. intros x Hx. by apply Hi'.
Qed.

Definition accepted (p0 : pane_state) (pid : Z) (nonce : bytes) (r : option State) (w : world) : Prop :=
  forall st, r = Some st -> Nonce st = nonce /\ pane w = LivePane pid nonce /\ (Spawns pid nonce, NoPane) ∈ log w /\ known_state p0 st w.

Lemma hoare_accepts p0 pid nonce n : hoare p0 (own pid nonce) (wait_state print_time parse_time env t nonce n) (accepted p0 pid nonce).
Proof.
  induction n as [|n IH]; cbn [wait_state]; (eapply hoare_bind; [apply load_own|]; intros s;
    eapply hoare_bind; [eapply hoare_weaken with (Q' := fun m w => probed m w /\ own pid nonce w /\ forall x, s = Ok (Some x) -> known_state p0 x w);
      [apply (probe_own p0 pid nonce (match s with Ok x => x | Err _ => None end))| |]|]; cbv beta).
  1, 4: intros w [Ho Hk]; split; [done|]; intros x Hx; apply Hk; destruct s; congruence.
  1, 3: intros m w (Hm & Ho & Hk); split_and!; try done; intros x ->; by apply Hk.
  all: intros m; set (ours := match s with Ok (Some st) => _ | _ => None end);
    assert (forall st, ours = Some st -> s = Ok (Some st) /\ Nonce st = nonce) as Hours
      by (subst ours; intros st; destruct s as [[x|]|]; [|done|done]; do 2 (case_bool_decide; [|done]); by intros [= <-]);
    destruct ours as [st|], m; try (by apply hoare_ret); try (eapply hoare_weaken; [exact IH|by intros w (_ & Ho & _)|done]);
    (apply hoare_ret; intros w (Hm & [Hp Hl] & Hk) st' [= <-]; destruct (Hours st eq_refl) as [E1 E2];
      split_and!; [done| |done|by apply Hk]; destruct Hp as [Hp|Hp]; [done|]; unfold calm in Hp; cbn in Hm; congruence).
Qed.

Lemma hoare_spawn_own p0 n : utf8_valid n ->
  hoare p0 anything (new_session print_time env n) (fun ok w => ok = true -> exists pid, own pid n w).
Proof.
  intros Hn w Hi Hp. destruct (hoare_spawn p0 n Hn w Hi Hp) as [Hi' _]. split; [exact Hi'|].
  unfold new_session, bind, take_turn, get, ret. fold (turned w). set (e := env (clock w)).
  destruct (reply_ e) as [|[]], (pane (turned w)) eqn:E; try done. intros _. exists (pid_ e). split; [by left|]. cbn.
  apply elem_of_app. right. apply list_elem_of_singleton. by rewrite E.
Qed.

Lemma hoare_draw p0 : hoare p0 anything (new_nonce print_time env) (fun n _ => forall x, n = Some x -> utf8_valid x /\ exists k, drawn (env k) = Some x).
Proof. intros w Hi _. split; [by apply turned_inv|]. cbn. intros x Hx. split; [by apply (env_drawn Henv _ _ Hx)|by eexists]. Qed.

(** A start that went through: the last thing said is the state of the worker it runs. *)
Definition started (p0 : pane_state) (w : world) : Prop := exists o pid nonce st,
  said w = o ++ [SaidStarted; SaidURLs st] /\ accepted p0 pid nonce (Some st) w /\ exists k, drawn (env k) = Some nonce.

Lemma hoare_false {A} p0 P (m : M A) Q : hoare p0 anything m (fun _ => anything) -> (forall w, P w -> exists s w', m w = (Err s, w')) -> hoare p0 P m Q.
Proof. intros H He w Hi Hp. destruct (H w Hi I) as [Hi' _]. destruct (He w Hp) as (s & w' & E). rewrite E in *. by split. Qed.

Lemma hoare_fails {A} p0 l s (Q : A -> world -> Prop) P : hoare p0 P (bind (say l) (fun _ => exit s)) Q.
Proof. intros w Hi _. split; [by apply say_inv|done]. Qed.

Lemma waitForState_own p0 pid nonce : hoare p0 (own pid nonce) (waitForState print_time parse_time env t nonce) (accepted p0 pid nonce).
Proof.
  intros w Hi Ho. unfold waitForState, bind, take_turn. fold (turned w). apply hoare_accepts; [by apply turned_inv|by apply turned_own].
Qed.

Lemma hoare_started p0 : hoare p0 anything (startShare print_time parse_time env t) (fun _ => started p0).
Proof.
  unfold startShare. apply hoare_seq; [apply hoare_quiet|]. intros [|]; cbn [negb]; [|apply hoare_fails].
  eapply hoare_bind; [apply hoare_probeMgmt|]. intros m. eapply hoare_bind; [apply hoare_reap_any|]. intros [|]; cbn [negb]; [|apply hoare_fails].
  eapply hoare_bind; [apply hoare_draw|]. intros [nonce|]; [|apply hoare_fails].
  eapply hoare_if; [intros w H; exact H|]. intros Hn. destruct (Hn nonce eq_refl) as [Hv [k Hk]]. clear Hn.
  apply hoare_seq; [apply hoare_take_error|]. intros _. eapply hoare_bind; [by apply hoare_spawn_own|]. intros [|]; cbn [negb]; [|apply hoare_fails].
  intros w Hi Hown. destruct (Hown eq_refl) as [pid Ho]. revert w Hi Hown Ho.
  assert (hoare p0 (own pid nonce) (bind (waitForState print_time parse_time env t nonce) (fun s =>
    match s with
    | Some st => bind (say SaidStarted) (fun _ => say (SaidURLs st))
    | None => bind (take_startup_error print_time env nonce) (fun detail =>
        bind (match detail with [] => bind (capture_pane print_time env) (fun out => ret (TrimSpace (default [] out))) | _ => ret detail end) (fun detail' =>
        bind (say (SaidStartFailed detail')) (fun _ => bind (stopWorker print_time env t) (fun _ => exit 1))))
    end)) (fun _ => started p0)) as H; [|intros w Hi _ Ho; exact (H w Hi Ho)].
  eapply hoare_bind; [apply waitForState_own|]. intros [st|].
  - intros w Hi Ha. destruct (Ha st eq_refl) as (H1 & H2 & H3 & H4). split; [by do 2 apply say_inv|]. cbn. exists (said w), pid, nonce, st.
    split_and!; [cbn; by rewrite <- app_assoc|intros st' [= <-]; by split_and!|by exists k].
  - apply hoare_drop. apply hoare_seq; [apply hoare_take_error|]. intros detail.
    apply hoare_seq; [destruct detail; [|by apply hoare_ret]; apply hoare_seq; [apply hoare_quiet|]; intros ?; by apply hoare_ret|]. intros detail'.
    apply hoare_seq; [apply hoare_print|]. intros _. apply hoare_seq; [apply hoare_stop_any|intros; apply hoare_exit].
Qed.

(** A share that was there: the last thing said is its state, and it has the settings that were asked for. *)
Definition reused (p0 : pane_state) (c : shareConfig) (d : Z) (w : world) : Prop := exists o st,
  said w = o ++ [SaidReused; SaidURLs st] /\ shareConflicts c d st = [] /\ known_state p0 st w.

Lemma load_known p0 : hoare p0 anything (loadLiveShare print_time parse_time env t)
  (fun r w => r.2 = shareLive -> exists st, r.1 = Some st /\ known_state p0 st w).
Proof.
  eapply hoare_bind with (Q := fun s w => forall x, s = Ok (Some x) -> known_state p0 x w).
  { intros w Hi _. pose proof (turned_inv _ _ Hi) as Hi'. split; [exact Hi'|]. unfold load_state, bind, take_turn, get. fold (turned w). cbn [fst snd].
    destruct (disk _); [|done]. intros x Hx. by apply Hi'. }
  intros s. eapply hoare_bind with (Q := fun _ w => forall x, s = Ok (Some x) -> known_state p0 x w).
  { intros w Hi Hk. destruct (hoare_probeMgmt p0 w Hi I) as [Hi' _]. split; [exact Hi'|].
    assert ((probeMgmt print_time env t w).2 = turned w) as -> by (unfold probeMgmt, probeMgmtPane, list_panes, bind, take_turn, get, ret; by destruct (reply_ _)).
    destruct (probeMgmt print_time env t w).1; [|done]. intros x Hx. destruct (Hk x Hx); [by left|right; by apply published_turned]. }
  intros m. apply hoare_ret. intros w Hk. destruct m, s as [[st|]|[]]; try done; intros _; exists st; (split; [done|by apply Hk]).
Qed.

Lemma hoare_runShare p0 c d : hoare p0 anything (runShare print_time parse_time env t c d) (fun _ w => started p0 w \/ reused p0 c d w).
Proof.
  eapply hoare_bind; [apply load_known|]. intros [s l]. cbn [fst snd].
  assert (hoare p0 anything (startShare print_time parse_time env t) (fun _ w => started p0 w \/ reused p0 c d w)) as Hst.
  { eapply hoare_weaken; [apply hoare_started|done|by left]. }
  destruct l.
  - destruct s; by apply hoare_drop.
  - destruct s as [st|]; [|by apply hoare_drop]. destruct (shareConflicts c d st) as [|x l] eqn:Ec; [|apply hoare_fails].
    intros w Hi Hk. destruct (Hk eq_refl) as (st' & [= <-] & Hst'). split; [by do 2 apply say_inv|]. right. exists (said w), st.
    split_and!; [cbn; by rewrite <- app_assoc|done|exact Hst'].
  - apply hoare_drop. destruct s; (apply hoare_seq; [apply hoare_clean|by intros _]).
  - destruct s; apply hoare_fails.
Qed.

Lemma hoare_runShareRotate p0 : hoare p0 anything (runShareRotate print_time parse_time env t) (fun _ => started p0).
Proof.
  apply hoare_seq; [apply hoare_loadLive|]. intros [s l]. cbn [fst snd]. destruct l.
  - apply hoare_started.
  - apply hoare_seq; [apply hoare_stop_any|]. intros [|]; [apply hoare_started|apply hoare_exit].
  - apply hoare_seq; [apply hoare_clean|intros _; apply hoare_started].
  - apply hoare_seq; [apply hoare_stop_any|]. intros [|]; [apply hoare_started|apply hoare_exit].
Qed.

(** What a stop says. *)
Definition stop_said (w : world) : Prop := exists o,
  (said w = o ++ [SaidStopped] \/ said w = o ++ [SaidNoShare true]) /\ pane w = NoPane /\ state_file w = None \/
  said w = o ++ [SaidNoShare false] /\ calm w.

Lemma loadLive_absent p0 : hoare p0 anything (loadLiveShare print_time parse_time env t) (fun r w => r.2 = shareAbsent -> calm w).
Proof.
  apply hoare_seq; [apply hoare_load|]. intros s. eapply hoare_bind; [apply hoare_probeMgmt|]. intros m. apply hoare_ret. intros w Hm. unfold calm.
  destruct m, s as [[st|]|[]]; cbn in *; try done; intros _; by rewrite Hm.
Qed.

Lemma hoare_runShareStop p0 : hoare p0 anything (runShareStop print_time parse_time env t) (fun _ => stop_said).
Proof.
  eapply hoare_bind; [apply loadLive_absent|]. intros [s l]. cbn [fst snd].
  assert (hoare p0 anything (bind (stopWorker print_time env t) (fun ok => if ok then say SaidStopped else exit 1)) (fun _ => stop_said)) as Hstop.
  { eapply hoare_bind; [apply hoare_stop|]. intros [|]; [|apply hoare_exit]. intros w Hi Hc. destruct (Hc eq_refl) as [H1 H2].
    split; [by apply say_inv|]. exists (said w). left. split_and!; [by left|done|done]. }
  destruct l; [|by apply hoare_drop| |by apply hoare_drop].
  - intros w Hi Hc. split; [by apply say_inv|]. exists (said w). right. split; [done|]. by apply Hc.
  - apply hoare_drop. eapply hoare_bind; [apply hoare_clean_or_exit|]. intros ? w Hi [H1 H2]. split; [by apply say_inv|].
    exists (said w). left. split_and!; [by right|done|done].
Qed.

End Spec.

(** * The commands of a share *)

Inductive command := CmdShareRun (c : shareConfig) (d : Z) | CmdRotateRun | CmdStatusRun | CmdStopRun | CmdSweepRun.

Section Commands.
Variable print_time : Z -> bytes.
Variable parse_time : bytes -> option Z.
Variable env : nat -> turn.
Variable t : shareTarget.
Hypothesis times_back : forall t, parse_time (print_time t) = Some t.
Hypothesis times_valid : forall t, utf8_valid (print_time t).
Hypothesis Henv : env_ok env t.
#[local] Set Default Proof Using "Henv times_back times_valid".

Definition run_command (cmd : command) : M unit :=
  match cmd with
  | CmdShareRun c d => runShare print_time parse_time env t c d
  | CmdRotateRun => runShareRotate print_time parse_time env t
  | CmdStatusRun => runShareStatus print_time parse_time env t
  | CmdStopRun => runShareStop print_time parse_time env t
  | CmdSweepRun => bind (sweepOne print_time parse_time env t) (fun _ => ret tt)
  end.

(** The world a command finds: nothing done or said yet. *)
Definition fresh_world (p : pane_state) (f e : option bytes) : world := mkWorld p f e O [] [].

Lemma fresh_inv p f e : pane_ok p -> inv parse_time env f p (fresh_world p f e).
Proof.
  intros Hp. split; cbn [fresh_world log pane state_file]; [constructor| |by intros ? ? ? ?%elem_of_nil|done|by left].
  intros pid n ->. by left.
Qed.

Lemma command_inv cmd p f e : pane_ok p -> cmd <> CmdSweepRun \/ sweep_ok parse_time env t f /\ on_record parse_time (fresh_world p f e) ->
  inv parse_time env f p (run_command cmd (fresh_world p f e)).2.
Proof.
  intros Hp Hc. pose proof (fresh_inv p f e Hp) as Hi.
  pose proof (hoare_commands print_time parse_time env t f times_back times_valid Henv p) as H.
  destruct cmd as [c d| | | |]; cbn [run_command].
  - destruct (H c d) as (H1 & _). by destruct (H1 _ Hi I).
  - destruct (H default_share 0) as (_ & H1 & _). by destruct (H1 _ Hi I).
  - destruct (H default_share 0) as (_ & _ & H1 & _). by destruct (H1 _ Hi I).
  - destruct (H default_share 0) as (_ & _ & _ & H1). by destruct (H1 _ Hi I).
  - destruct Hc as [?|[Hs Hr]]; [done|]. assert (hoare parse_time env f p (on_record parse_time) (bind (sweepOne print_time parse_time env t) (fun _ => ret tt)) (fun _ => anything)) as H1.
    { eapply hoare_bind; [exact (hoare_sweep print_time parse_time env t f times_back times_valid Henv p Hs)|]. intros ? w Hw _. by split. }
    by destruct (H1 _ Hi Hr).
Qed.

(** No effect met a pane it should not have: what is removed or closed has no worker in it, a worker is started where there is
    no session, and a process that is signalled is above 1 and is a worker of this session, which was there at the start or
    was started by this command; when any worker is in the pane at that moment, it is that one. *)
Definition in_order (p : pane_state) (w : world) : Prop := forall x q, (x, q) ∈ log w ->
  match x with
  | RemovesState | KillsSession => live q = false
  | Spawns _ _ => q = NoPane
  | Signals pid _ => 1 < pid /\ exists n, (p = LivePane pid n \/ exists q', (Spawns pid n, q') ∈ log w) /\ (live q = true -> q = LivePane pid n)
  end.

Lemma inv_in_order p f w : inv parse_time env f p w -> in_order p w.
Proof using.
  intros [H1 _ H3 _ _] x q Hin. rewrite Forall_forall in H1. specialize (H1 _ Hin). destruct x; try exact H1. by apply (H3 _ _ _ Hin).
Qed.

(** C25: A running share keeps what it is managed by. Whatever tmux, the disk, the worker and the operator do between the calls
    of a command (answers that fail, or fail after the fact, included), [share], [share rotate], [share status] and [share
    stop] remove the state of their target, and close its management session, only when no worker runs in it; they start a
    worker only where there is no session; and they signal only a process above 1 that is a worker of this session, there
    at the start or started by the command, while no other is in the pane.

    The sweep of what earlier shares left is as careful, but by weaker evidence: so it is for a share that has published
    its state, when the states of the directory name its session and a socket on which nobody listens means that the
    server has closed. Without the first it takes the state that a worker has just published, and without the last that
    of a worker whose socket was unlinked ([sweep_takes_unpublished_share], [unlinked_socket_loses_share]). *)
Theorem running_share_survives cmd p f e : pane_ok p ->
  (cmd <> CmdSweepRun -> in_order p (run_command cmd (fresh_world p f e)).2) /\
  ((exists st, LoadState parse_time f = Ok (Some st)) ->
   (forall st, LoadState parse_time f = Ok (Some st) -> MgmtSession st = st_mgmt t) ->
   (forall k st, Publishes st ∈ happens (env k) -> MgmtSession st = st_mgmt t) ->
   (forall k, socket_gone (env k) = true -> Closes ∈ happens (env k)) ->
   in_order p (run_command CmdSweepRun (fresh_world p f e)).2).
Proof.
  intros Hp. split.
  - intros Hc. apply (inv_in_order p f). apply command_inv; [done|by left].
  - intros Hr Hf Hk Hs. apply (inv_in_order p f). apply command_inv; [done|]. right. by split.
Qed.

(** What a share command hands out is live and asked for. A share or rotate that ends without an error has, as the
    last thing it printed, either the state that the worker it started itself published under the nonce of this very
    start, with that worker running in the session at that moment; or the state on record of the worker that was
    there (or is said to be), and then none of the settings that were asked for differs from it. A leftover of an
    earlier start is never handed out as a new share. *)
Theorem share_hands_out_its_own c d p f e : pane_ok p ->
  (forall k n, drawn (env k) = Some n -> (forall pid, p <> LivePane pid n) /\ forall st, LoadState parse_time f = Ok (Some st) -> Nonce st <> n) ->
  let fresh w := exists o pid nonce st k, said w = o ++ [SaidStarted; SaidURLs (set_nonce st nonce)] /\ pane w = LivePane pid nonce /\
                   (Spawns pid nonce, NoPane) ∈ log w /\ Publishes st ∈ happens (env k) in
  (forall w, runShareRotate print_time parse_time env t (fresh_world p f e) = (Ok tt, w) -> fresh w) /\
  (forall w, runShare print_time parse_time env t c d (fresh_world p f e) = (Ok tt, w) -> fresh w \/
     exists o st, said w = o ++ [SaidReused; SaidURLs st] /\ shareConflicts c d st = [] /\
       (LoadState parse_time f = Ok (Some st) \/ exists n st0 k, Publishes st0 ∈ happens (env k) /\ st = set_nonce st0 n)).
Proof.
  intros Hp Hfresh fresh. pose proof (fresh_inv p f e Hp) as Hi.
  assert (forall w, started parse_time env f p w -> fresh w) as Hst.
  { intros w (o & pid & nonce & st & Hs & Ha & k & Hk). destruct (Ha st eq_refl) as (Hn & Hpane & Hlog & Hknown). destruct (Hfresh k nonce Hk) as [H1 H2].
    destruct Hknown as [Hf|(pid' & n & st0 & k' & _ & Hpub & ->)]; [by destruct (H2 st Hf)|]. cbn in Hn. subst n.
    by exists o, pid, nonce, st0, k'. }
  split; intros w E.
  - destruct (hoare_runShareRotate print_time parse_time env t f times_back times_valid Henv p _ Hi I) as [_ H]. rewrite E in H. by apply Hst.
  - destruct (hoare_runShare print_time parse_time env t f times_back times_valid Henv p c d _ Hi I) as [_ H]. rewrite E in H.
    destruct H as [H|(o & st & H1 & H2 & H3)]; [left; by apply Hst|right]. exists o, st. split_and!; [done|done|].
    destruct H3 as [?|(pid & n & st0 & k & _ & ? & ?)]; [by left|right]. by exists n, st0, k.
Qed.

(** A stop that says so has stopped. When [share stop] ends without an error, it printed either that the share is
    stopped, or that leftovers were cleaned up, and then the session is gone and no state is left; or that there is no
    share, and then no worker runs. *)
Theorem stop_means_stopped p f e w : pane_ok p -> runShareStop print_time parse_time env t (fresh_world p f e) = (Ok tt, w) ->
  exists o, (said w = o ++ [SaidStopped] \/ said w = o ++ [SaidNoShare true]) /\ pane w = NoPane /\ state_file w = None \/
            said w = o ++ [SaidNoShare false] /\ live (pane w) = false.
Proof.
  intros Hp E. destruct (hoare_runShareStop print_time parse_time env t f times_back times_valid Henv p _ (fresh_inv p f e Hp) I) as [_ H].
  by rewrite E in H.
Qed.

End Commands.

(** * Shares on paper *)

Definition paper_print (z : Z) : bytes := print_Z z.
Definition paper_parse (s : bytes) : option Z := parse_signed s.

Lemma paper_valid z : utf8_valid (paper_print z).
Proof.
  unfold paper_print. assert (forall z, 0 <= z -> utf8_valid (print_Z z)) as H.
  { intros x Hx. destruct (Itoa_digits x Hx) as (HF & _). change (Itoa x) with (print_Z x) in HF. induction HF as [|c s Hc _ IH]; [constructor|].
    apply utf8_valid_cons_ascii; [|done]. unfold is_digit, between in Hc. bool_to_prop. lia. }
  destruct (decide (z < 0)); [|apply H; lia]. rewrite <- (Z.opp_involutive z), print_Z_neg by lia.
  apply utf8_valid_cons_ascii; [by vm_compute|]. apply H. lia.
Qed.

Definition quiet_turn : turn := mkTurn [] Answers ([], []) true None 4242 None 3 false.
Definition paper_turns (l : list (nat * turn)) (k : nat) : turn :=
  match List.find (fun p => (p.1 =? k)%nat) l with Some p => p.2 | None => quiet_turn end.

Definition paper_mgmt : bytes := $"_bbshare_0a".
Definition paper_target : shareTarget := mkShareTarget (mkTarget $"/tmp/tmux-1000/default" $"$3" $"work") $"/home/u/.bitbang/shares/0a" $"/home/u/.bitbang/shares/0a.lock" paper_mgmt.
Definition paper_state : State :=
  mkState $"/tmp/tmux-1000/default" $"$3" $"work" paper_mgmt $"uid" $"bitba.ng" $"https://bitba.ng/uid#c" $"https://bitba.ng/uid#v" 16 [] 1700000000 ZeroTime 0.
Definition paper_nonce : bytes := $"dGhlbm9uY2U".
Definition happening_at (hs : list happening) : turn := mkTurn hs Answers ([($"work", false, 77)], [($"work2", true, 0)]) true None 4242 None 3 false.

#[local] Ltac by_decision := match goal with |- ?P => apply (bool_decide_unpack P); vm_compute; exact I end.

Lemma paper_env_ok l : Forall (fun p => Forall (fun q => other_ok paper_target q) ((others p.2).1 ++ (others p.2).2) /\ 0 <= pid_ p.2 <= MaxInt64 /\
    (forall n, drawn p.2 = Some n -> utf8_valid n) /\ forall st, Publishes st ∈ happens p.2 -> st = paper_state) l -> env_ok (paper_turns l) paper_target.
Proof.
  intros Hl. assert (forall k, let e := paper_turns l k in Forall (fun q => other_ok paper_target q) ((others e).1 ++ (others e).2) /\ 0 <= pid_ e <= MaxInt64 /\
    (forall n, drawn e = Some n -> utf8_valid n) /\ forall st, Publishes st ∈ happens e -> st = paper_state) as H.
  { intros k. unfold paper_turns. destruct (List.find _ l) as [p|] eqn:E.
    - apply find_some in E as [Hin _]. rewrite Forall_forall in Hl. apply Hl. by apply list_elem_of_In.
    - cbn. split_and!; [constructor|done|done|done|by intros ? ?%elem_of_nil]. }
  split.
  - split; [split; by_decision|]. intros k. apply H.
  - intros k. apply H.
  - intros k. apply H.
  - intros k st n Hp Hn. destruct (H k) as (_ & _ & _ & H4). rewrite (H4 st Hp). split; [|by split].
    unfold paper_state, set_nonce. cbn. repeat (apply Forall_cons; split; [first [done|apply plain_valid; unfold plain; by_decision]|]). constructor.
Qed.

Definition starting_turns : list (nat * turn) :=
  [(4%nat, mkTurn [] Answers ([], []) true (Some paper_nonce) 4242 None 3 false); (8%nat, happening_at [Publishes paper_state])].


Lemma happening_ok hs : (forall st, Publishes st ∈ hs -> st = paper_state) -> let e := happening_at hs in
  Forall (other_ok paper_target) ((others e).1 ++ (others e).2) /\ 0 <= pid_ e <= MaxInt64 /\
  (forall n, drawn e = Some n -> utf8_valid n) /\ forall st, Publishes st ∈ happens e -> st = paper_state.
Proof.
  intros Hs. cbn. split_and!; [|done|done|done|done].
  repeat (apply Forall_cons; split); [split_and!; [done|by_decision|by_decision|done|done]..|]. constructor.
Qed.

Lemma drawing_ok n : utf8_valid n -> let e := mkTurn [] Answers ([], []) true (Some n) 4242 None 3 false in
  Forall (other_ok paper_target) ((others e).1 ++ (others e).2) /\ 0 <= pid_ e <= MaxInt64 /\
  (forall n, drawn e = Some n -> utf8_valid n) /\ forall st, Publishes st ∈ happens e -> st = paper_state.
Proof. intros Hn. cbn. split_and!; [constructor|done|done|by intros ? [= <-]|by intros ? ?%elem_of_nil]. Qed.

Lemma starting_ok : env_ok (paper_turns starting_turns) paper_target.
Proof.
  apply paper_env_ok. apply Forall_cons. split; [|apply Forall_cons; split; [|constructor]].
  - apply drawing_ok. apply plain_valid; unfold plain; by_decision.
  - apply happening_ok. intros st Hst%list_elem_of_singleton. by injection Hst.
Qed.

Abbreviation paper_share c := (runShare paper_print paper_parse (paper_turns starting_turns) paper_target c 0) (only parsing).

Lemma share_hands_out_its_own_witness : exists w, paper_share default_share (fresh_world NoPane None None) = (Ok tt, w) /\
  said w = [SaidStarted; SaidURLs (set_nonce paper_state paper_nonce)] /\
  exists o pid nonce st k, said w = o ++ [SaidStarted; SaidURLs (set_nonce st nonce)] /\ pane w = LivePane pid nonce /\
    (Spawns pid nonce, NoPane) ∈ log w /\ Publishes st ∈ happens (paper_turns starting_turns k).
Proof.
  pose proof (share_hands_out_its_own paper_print paper_parse (paper_turns starting_turns) paper_target parse_signed_print paper_valid starting_ok
    default_share 0 NoPane None None I) as H. destruct H as [_ H]; [by intros k n _|].
  destruct (paper_share default_share (fresh_world NoPane None None)) as [r w] eqn:E. assert (r = Ok tt /\ said w = [SaidStarted; SaidURLs (set_nonce paper_state paper_nonce)]) as [-> Hs].
  { replace r with (r, w).1 by done. replace (said w) with (said (r, w).2) by done. rewrite <- E. split; vm_compute; reflexivity. }
  exists w. split_and!; [done|done|]. destruct (H w eq_refl) as [?|(o & st & Ho & _)]; [done|]. exfalso.
  rewrite Hs in Ho. apply (f_equal (fun l => last (removelast l))) in Ho. rewrite (removelast_app o) in Ho by done. cbn [removelast app] in Ho.
  rewrite last_snoc in Ho. cbn in Ho. done.
Defined.

Definition running : pane_state := LivePane 4242 paper_nonce.
Definition paper_file : option bytes := Some (state_text paper_print (set_nonce paper_state paper_nonce)).
Definition stopping_turns : list (nat * turn) := [(5%nat, happening_at [Exits false])].

Lemma stopping_ok : env_ok (paper_turns stopping_turns) paper_target.
Proof. apply paper_env_ok. apply Forall_cons. split; [|constructor]. apply happening_ok. intros st Hst%list_elem_of_singleton. done. Qed.

Lemma running_pane_ok : pane_ok running.
Proof. split; [done|]. apply plain_valid; unfold plain; by_decision. Qed.

Abbreviation paper_stop := (runShareStop paper_print paper_parse (paper_turns stopping_turns) paper_target (fresh_world running paper_file None)) (only parsing).

Lemma paper_quiet : env_ok (paper_turns []) paper_target.
Proof. apply paper_env_ok. constructor. Qed.

Lemma paper_file_loads : LoadState paper_parse paper_file = Ok (Some (set_nonce paper_state paper_nonce)).
Proof. vm_compute. reflexivity. Qed.

(** A stop of a running share, and a sweep of one whose session has gone. *)
Lemma running_share_survives_witness :
  (exists w, w = (run_command paper_print paper_parse (paper_turns stopping_turns) paper_target CmdStopRun (fresh_world running paper_file None)).2 /\
     log w = [(Signals 4242 SIGTERM, running); (RemovesState, NoPane)] /\ 1 < 4242 /\ live NoPane = false) /\
  exists w, w = (run_command paper_print paper_parse (paper_turns []) paper_target CmdSweepRun (fresh_world NoPane paper_file None)).2 /\
     log w = [(RemovesState, NoPane)] /\ live NoPane = false.
Proof.
  split.
  - pose proof (running_share_survives paper_print paper_parse (paper_turns stopping_turns) paper_target parse_signed_print paper_valid stopping_ok
      CmdStopRun running paper_file None running_pane_ok) as [H _]. specialize (H ltac:(discriminate)).
    eexists. split; [reflexivity|]. set (w := (run_command _ _ _ _ _ _).2) in *.
    assert (log w = [(Signals 4242 SIGTERM, running); (RemovesState, NoPane)]) as E by (subst w; vm_compute; reflexivity).
    split_and!; [done| |].
    + apply (H (Signals 4242 SIGTERM) running). rewrite E. by left.
    + apply (H RemovesState NoPane). rewrite E. right. by left.
  - pose proof (running_share_survives paper_print paper_parse (paper_turns []) paper_target parse_signed_print paper_valid paper_quiet
      CmdSweepRun NoPane paper_file None I) as [_ H]. rewrite paper_file_loads in H. specialize (H (ex_intro _ _ eq_refl)).
    eexists. split; [reflexivity|]. set (w := (run_command _ _ _ _ _ _).2) in *.
    assert (log w = [(RemovesState, NoPane)]) as E by (subst w; vm_compute; reflexivity). split; [done|].
    assert (in_order NoPane w) as Ho.
    { apply H.
      - intros st Hst. apply (f_equal (fun r => match r with Ok (Some x) => x | _ => st end)) in Hst. cbv beta iota in Hst. by rewrite <- Hst.
      - intros k st Hk. exact (match proj1 (elem_of_nil (Publishes st)) Hk with end).
      - intros k Hk. change (false = true) in Hk. discriminate Hk. }
    apply (Ho RemovesState NoPane). rewrite E. by left.
Defined.

Lemma stop_means_stopped_witness : exists w, paper_stop = (Ok tt, w) /\ said w = [SaidStopped] /\ exists o,
  (said w = o ++ [SaidStopped] \/ said w = o ++ [SaidNoShare true]) /\ pane w = NoPane /\ state_file w = None \/
  said w = o ++ [SaidNoShare false] /\ live (pane w) = false.
Proof.
  destruct paper_stop as [r w] eqn:E. assert (r = Ok tt /\ said w = [SaidStopped]) as [-> Hs].
  { replace r with (r, w).1 by done. replace (said w) with (said (r, w).2) by done. rewrite <- E. split; vm_compute; reflexivity. }
  exists w. split_and!; [done|done|].
  apply (stop_means_stopped paper_print paper_parse (paper_turns stopping_turns) paper_target parse_signed_print paper_valid stopping_ok running paper_file None w running_pane_ok E).
Defined.

(** A worker that publishes while the sweep of another command is at its directory, after its parent gave up or was
    killed, loses the state it has just written: the sweep removes a directory without a state without asking tmux. *)
Lemma sweep_takes_unpublished_share : exists w, w = (run_command paper_print paper_parse (paper_turns [(1%nat, happening_at [Publishes paper_state])]) paper_target
    CmdSweepRun (fresh_world running None None)).2 /\
  log w = [(RemovesState, running)] /\ pane w = running /\ state_file w = None.
Proof. eexists. split; [reflexivity|]. split_and!; vm_compute; reflexivity. Qed.

(** The path of a socket can go (a cleaner of /tmp) while its server runs on. A sweep that gets no answer from tmux then
    takes the missing path for a missing server and removes the state of a running share. *)
Definition unlinked : turn := mkTurn [] (Fails false) ([], []) true None 4242 None 3 true.

Lemma unlinked_socket_loses_share : exists w, w = (run_command paper_print paper_parse (paper_turns [(1%nat, unlinked); (2%nat, unlinked)]) paper_target
    CmdSweepRun (fresh_world running paper_file None)).2 /\
  log w = [(RemovesState, running)] /\ pane w = running /\ state_file w = None.
Proof. eexists. split; [reflexivity|]. split_and!; vm_compute; reflexivity. Qed.
