(* ===== verification/ShareLock.v ===== *)
(** The lifecycle lock of a share (internal/share/lock_unix.go), and what the sweep does to it
    (cmd/bitbang/share.go): an advisory lock on a file that is opened by its path first and locked by its inode after.

    Processes are numbers. A process is between the opening and the locking of [TryLock], holds a lock, or is not at it;
    the file system has the path of the lock file, if there is one, and the inodes that were at it. *)

From stdpp Require Import gmap.
From S2P Require Import Prelude GoLib Tmux.

Inductive at_lock := Opened (inode : nat) | Holding (inode : nat).

#[export] Instance at_lock_eq_dec : EqDecision at_lock.
Proof. solve_decision. Defined.

Record files := mkFiles {
  path : option nat;             (* the inode the path leads to *)
  next : nat;                    (* the next inode *)
  locked : gmap nat nat;         (* the process that has an inode locked *)
  wrote : gmap nat bytes;        (* what is in an inode *)
  procs : gmap nat at_lock
}.

#[export] Instance eta_files : Eta files := fun s => mkFiles (path s) (next s) (locked s) (wrote s) (procs s).

Definition no_files : files := mkFiles None O ∅ ∅ ∅.

(** [readLockHolder] of what is in the file: at most 32 bytes of it, 0 where they are no number. *)
Definition readLockHolder (data : bytes) : Z := default 0 (Atoi (TrimSpace (take 32 data))).

Inductive lock_result := Acquired | Busy (holder : Z).

(** The opening of [TryLock], which creates the file. *)
Definition open_lock (p : nat) (s : files) : files :=
  match path s with
  | Some i => s <| procs := <[p := Opened i]> (procs s) |>
  | None => s <| path := Some (next s) |> <| next := S (next s) |> <| procs := <[p := Opened (next s)]> (procs s) |>
  end.

(** The rest of [TryLock]: an inode that is locked is left alone; one that is not is locked, and gets the process ID. *)
Definition flock (p : nat) (s : files) : option (lock_result * files) :=
  match procs s !! p with
  | Some (Opened i) =>
    match locked s !! i with
    | Some _ => Some (Busy (readLockHolder (default [] (wrote s !! i))), s <| procs := delete p (procs s) |>)
    | None => Some (Acquired, s <| locked := <[i := p]> (locked s) |> <| wrote := <[i := Itoa (Z.of_nat p) ++ [newline]]> (wrote s) |>
                                <| procs := <[p := Holding i]> (procs s) |>)
    end
  | _ => None
  end.

(** [Lock.Release]. *)
Definition Release (p : nat) (s : files) : option files :=
  match procs s !! p with
  | Some (Holding i) => Some (s <| locked := delete i (locked s) |> <| procs := delete p (procs s) |>)
  | _ => None
  end.

(** What [removeStranded] and [sweepOrphanLock] do while they hold the lock. *)
Definition remove_lock (p : nat) (s : files) : option files :=
  match procs s !! p with
  | Some (Holding _) => Some (s <| path := None |>)
  | _ => None
  end.

Inductive lock_step := Opens (p : nat) | Locks (p : nat) | Releases (p : nat) | Removes (p : nat).

Definition step (e : lock_step) (s : files) : option files :=
  match e with
  | Opens p => match procs s !! p with None => Some (open_lock p s) | Some _ => None end
  | Locks p => snd <$> flock p s
  | Releases p => Release p s
  | Removes p => remove_lock p s
  end.

Fixpoint run (es : list lock_step) (s : files) : option files :=
  match es with [] => Some s | e :: es' => match step e s with Some s' => run es' s' | None => None end end.

Definition holds (s : files) (p : nat) : Prop := exists i, procs s !! p = Some (Holding i).

Definition removes (e : lock_step) : bool := match e with Removes _ => true | _ => false end.

(** * Exclusion *)

(** Who holds an inode has it locked; and while the file has not been removed, there is one inode. *)
Record excl (s : files) : Prop := mkExcl {
  excl_locked : forall p i, procs s !! p = Some (Holding i) <-> locked s !! i = Some p;
  excl_one : forall p i, procs s !! p = Some (Opened i) \/ procs s !! p = Some (Holding i) -> path s = Some i
}.

Lemma start_excl : excl no_files.
Proof. split; [intros p i; cbn; by rewrite !lookup_empty|]. intros p i; cbn; rewrite lookup_empty. by intros [?|?]. Qed.

Lemma step_excl e s s' : excl s -> removes e = false -> step e s = Some s' -> excl s'.
Proof.
  intros [H1 H2] Hr Hs. destruct e as [p|p|p|p]; cbn [step] in Hs; [| | |done].
  - destruct (procs s !! p) as [x|] eqn:Ep; [done|]. injection Hs as <-. unfold open_lock. destruct (path s) as [i|] eqn:Ei.
    + split; cbn [procs locked path upd].
      * intros q j. rewrite <- H1. destruct (decide (q = p)) as [->|Hq]; [|by rewrite lookup_insert_ne].
        rewrite lookup_insert_eq, Ep. by split.
      * intros q j. destruct (decide (q = p)) as [->|Hq]; [|rewrite lookup_insert_ne by done; intros H%H2; congruence].
        rewrite lookup_insert_eq. intros [[= <-]|[=]]; congruence.
    + split; cbn [procs locked path upd].
      * intros q j. rewrite <- H1. destruct (decide (q = p)) as [->|Hq]; [|by rewrite lookup_insert_ne].
        rewrite lookup_insert_eq, Ep. by split.
      * intros q j. destruct (decide (q = p)) as [->|Hq]; [rewrite lookup_insert_eq; by intros [[= <-]|[=]]|].
        rewrite lookup_insert_ne by done. intros H. apply H2 in H. congruence.
  - unfold flock in Hs. destruct (procs s !! p) as [[i|]|] eqn:Ep; [|done..]. destruct (locked s !! i) as [q|] eqn:El; injection Hs as <-.
    + split; cbn [procs locked path upd].
      * intros r j. rewrite <- H1. destruct (decide (r = p)) as [->|Hr']; [|by rewrite lookup_delete_ne]. rewrite lookup_delete_eq, Ep. by split.
      * intros r j. destruct (decide (r = p)) as [->|Hr']; [rewrite lookup_delete_eq; by intros [?|?]|]. rewrite lookup_delete_ne by done. apply H2.
    + split; cbn [procs locked path upd].
      * intros r j. destruct (decide (r = p)) as [->|Hr'], (decide (j = i)) as [->|Hj]; rewrite ?lookup_insert_eq, ?lookup_insert_ne by done.
        -- done.
        -- split; [by intros [= ?]|]. rewrite <- H1, Ep. done.
        -- rewrite H1, El. split; [done|by intros [= ?]].
        -- by rewrite H1.
      * intros r j. destruct (decide (r = p)) as [->|Hr']; [|rewrite lookup_insert_ne by done; apply H2].
        rewrite lookup_insert_eq. intros [[=]|[= <-]]. apply (H2 p). by left.
  - unfold Release in Hs. destruct (procs s !! p) as [[i|i]|] eqn:Ep; [done| |done]. injection Hs as <-. split; cbn [procs locked path upd].
    + intros r j. destruct (decide (r = p)) as [->|Hr'], (decide (j = i)) as [->|Hj]; rewrite ?lookup_delete_eq, ?lookup_delete_ne by done.
      * done.
      * split; [done|]. rewrite <- H1, Ep. congruence.
      * split; [|done]. intros H. apply H1 in H, Ep. congruence.
      * apply H1.
    + intros r j. destruct (decide (r = p)) as [->|Hr']; [rewrite lookup_delete_eq; by intros [?|?]|]. rewrite lookup_delete_ne by done. apply H2.
Qed.

(** While nobody removes the lock file, one process at most holds the lock. *)
Lemma lock_excludes es s p q : run es no_files = Some s -> forallb (fun e => negb (removes e)) es = true -> holds s p -> holds s q -> p = q.
Proof.
  intros Hr Hn. assert (excl s) as [H1 H2].
  { revert Hr Hn. generalize start_excl. generalize no_files. induction es as [|e es IH]; intros s0 H0; cbn [run forallb]; [by intros [= <-]|].
    destruct (step e s0) as [s1|] eqn:E; [|done]. intros Hr [He Hn]%andb_true_iff. apply (IH s1); [|done|done].
    eapply step_excl; [exact H0| |exact E]. by destruct (removes e). }
  intros [i Hi] [j Hj]. pose proof (H2 p i ltac:(by right)) as E1. pose proof (H2 q j ltac:(by right)) as E2.
  apply H1 in Hi, Hj. congruence.
Qed.

(** Whoever is turned away is told the process that holds the lock. *)
Lemma busy_names_holder es s p i q : run es no_files = Some s -> forallb (fun e => negb (removes e)) es = true ->
  procs s !! p = Some (Opened i) -> locked s !! i = Some q ->
  (exists s', flock p s = Some (Busy (readLockHolder (default [] (wrote s !! i))), s')) /\ wrote s !! i = Some (Itoa (Z.of_nat q) ++ [newline]).
Proof.
  intros Hr Hn Hp Hl. split; [unfold flock; rewrite Hp, Hl; by eexists|].
  assert (forall i q, locked s !! i = Some q -> wrote s !! i = Some (Itoa (Z.of_nat q) ++ [newline])) as H; [|by apply H].
  clear p i q Hp Hl. revert Hr Hn. assert (forall i q, locked no_files !! i = Some q -> wrote no_files !! i = Some (Itoa (Z.of_nat q) ++ [newline])) as H0 by done.
  revert H0. generalize no_files. induction es as [|e es IH]; intros s0 H0; cbn [run forallb]; [by intros [= <-]|].
  destruct (step e s0) as [s1|] eqn:E; [|done]. intros Hr [He Hn]%andb_true_iff. apply (IH s1); [|done|done]. clear IH Hr Hn.
  destruct e as [p|p|p|p]; cbn [step] in E; [| | |done].
  - destruct (procs s0 !! p); [done|]. injection E as <-. unfold open_lock. by destruct (path s0).
  - unfold flock in E. destruct (procs s0 !! p) as [[i|]|]; [|done..]. destruct (locked s0 !! i); injection E as <-; [done|].
    cbn [locked wrote upd]. intros j q. destruct (decide (j = i)) as [->|]; [rewrite !lookup_insert_eq; by intros [= <-]|].
    rewrite !lookup_insert_ne by done. apply H0.
  - unfold Release in E. destruct (procs s0 !! p) as [[|i]|]; [done| |done]. injection E as <-. cbn [locked wrote upd].
    intros j q [_ Hj]%lookup_delete_Some. by apply H0.
Qed.

(** The sweep removes lock files while it holds them. A command that has opened the file but not locked it yet then
    locks an inode that no path leads to, and the next command locks another: both work on one target. *)
Lemma removed_lock_excludes_nobody : exists s,
  run [Opens 1; Locks 1; Opens 2; Removes 1; Releases 1; Locks 2; Opens 3; Locks 3] no_files = Some s /\ holds s 2 /\ holds s 3.
Proof. eexists. split; [vm_compute; reflexivity|]. split; [by exists 0%nat|by exists 1%nat]. Qed.
