(* ===== verification/ShareRun.v ===== *)
(** The run of a share worker (internal/share/worker.go: [Run], [watchSource], [onReady], [report]; the end of
    [runShareWorker], cmd/bitbang/share.go): what starts it, what it publishes and what ends it, around the peers of
    Share.v and for the parent of ShareLife.v.

    The goroutine of [Run], the one that watches the source session, the signaling client, which calls [onReady] at each
    registration, and the peers are interleaved. [published] keeps the states that were written; a run is given with
    the events that made it. *)

From S2P Require Import Prelude GoLib GoTime Signaling GoFlag Share ShareSpec Tmux ShareFlags ShareLife.

(** How [Connect] returns. *)
Inductive connect_result := Preempted | Broke (e : bytes) | Ended.

(** Why [Run] returns. *)
Inductive reason :=
| RunTwice | NoSource (e : bytes) | Requested | Expired (now : Z) | SourceGone | StateUnsaved (e : bytes) | SignalingOver (r : connect_result).

(** The error of [Run]. *)
Definition run_error (r : reason) : option bytes :=
  match r with
  | RunTwice => Some $"share worker can only run once"
  | NoSource e => Some ($"source session is not running: " ++ e)
  | Requested | Expired _ | SourceGone | SignalingOver Ended => None
  | StateUnsaved e => Some ($"write share state: " ++ e)
  | SignalingOver Preempted => Some $"signaling registration was preempted"
  | SignalingOver (Broke e) => Some ($"signaling stopped: " ++ e)
  end.

(** The exit status of the worker's process, and what it leaves in the startup file. *)
Definition exit_of (nonce : bytes) (r : reason) : Z * option bytes :=
  match run_error r with
  | None => (0, None)
  | Some e => (match r with SignalingOver Preempted => 2 | _ => 1 end, Some (SaveStartupError nonce e))
  end.

(** What a worker is started with, besides its share: the fields of its configuration that only the state file has,
    and the UID of its identity. *)
Record origin := mkOrigin { o_name : bytes; o_nonce : bytes; o_server : bytes; o_uid : bytes }.

Inductive run_at := NotRun | Waiting | Returning (r : reason) | Returned (r : reason).

(** [asked]: the context of the process is done; [done_]: what [Connect] returned, on its channel of one. *)
Record process := mkRun {
  worker : Worker; at_ : run_at; startedAt : option Z; expiresAt : Z; ready_done : bool; reported : bool; errs : option bytes;
  source_gone : bool; done_ : option connect_result; asked : bool; published : list State
}.

#[export] Instance eta_process : Eta process := fun p =>
  mkRun (worker p) (at_ p) (startedAt p) (expiresAt p) (ready_done p) (reported p) (errs p) (source_gone p) (done_ p) (asked p) (published p).

Definition made (sh : Share) : process := mkRun (start sh) NotRun None ZeroTime false false None false None false [].

Section Run.
Variable o : origin.

(** [cfg.Server], which [NewWorker] fills in. *)
Definition worker_server : bytes := match o_server o with [] => $"bitba.ng" | s => s end.
Definition controlURL (sh : Share) : bytes :=
  if ReadOnly (cfg sh) then [] else CodeURL worker_server (o_uid o) (controlCode sh) [$"ephemeral"].
Definition viewURL (sh : Share) : bytes := CodeURL worker_server (o_uid o) (viewCode sh) [$"ephemeral"].

(** The state of [onReady]. *)
Definition state_of (p : process) : State :=
  let sh := share (worker p) in let c := cfg sh in
  mkState (Share.Socket c) (Share.SessionID c) (o_name o) (Share.MgmtSession c) (o_uid o) worker_server (controlURL sh) (viewURL sh)
    (MaxViewers_ c) (o_nonce o) (default ZeroTime (startedAt p)) (expiresAt p) (seconds (TTL c)).

(** [Run] as far as its select: [missing] is the error of [has-session]. *)
Definition enter (now : Z) (missing : option bytes) (p : process) : process :=
  let ttl := TTL (cfg (share (worker p))) in
  let p := p <| startedAt := Some now |> <| expiresAt := if ttl >? 0 then now + ttl else ZeroTime |> in
  match missing with Some e => p <| at_ := Returning (NoSource e) |> | None => p <| at_ := Waiting |> end.

(** [report] *)
Definition report (e : bytes) (p : process) : process := if reported p then p else p <| reported := true |> <| errs := Some e |>.

(** [onReady]: [failed] is the error of [SaveState]. *)
Definition onReady (failed : option bytes) (p : process) : process :=
  if ready_done p then p else
  let p := p <| ready_done := true |> in
  if stopped (worker p) then p else
  match failed with None => p <| published := published p ++ [state_of p] |> | Some e => report e p end.

(** A tick of [watchSource]: what [list-sessions] answers. *)
Definition watch (listing : option bytes) (p : process) : process :=
  match listing with
  | None => p
  | Some l => if listsSession l (Share.SessionID (cfg (share (worker p)))) then p else p <| source_gone := true |>
  end.

(** The arms of the select. *)
Inductive arm := ByContext | ByTTL (now : Z) | BySource | ByError | BySignaling.

Definition select (a : arm) (p : process) : option reason :=
  match a with
  | ByContext => if asked p then Some Requested else None
  | ByTTL now => if (TTL (cfg (share (worker p))) >? 0) && (expiresAt p <=? now) then Some (Expired now) else None
  | BySource => if source_gone p then Some SourceGone else None
  | ByError => StateUnsaved <$> errs p
  | BySignaling => SignalingOver <$> done_ p
  end.

(** The events: the context of the process ends; [Run] is called, and [has-session] fails with [missing] or succeeds; the
    client registers, and the state file is written or fails with [failed]; a tick, and what [list-sessions] answered if
    it did; [Connect] returns; an arm is taken; the deferred [shutdown] runs. *)
Inductive event :=
| Asked
| Enters (now : Z) (missing : option bytes)
| Registers (failed : option bytes)
| Ticks (listing : option bytes)
| Disconnects (r : connect_result)
| Selects (a : arm)
| Shuts.

(** The signaling client and the watcher have been started. *)
Definition connected (a : run_at) : bool := match a with NotRun | Returning (NoSource _) | Returned (NoSource _) => false | _ => true end.

Definition exec (e : event) (p : process) : option process :=
  match e, at_ p with
  | Asked, _ => Some (p <| asked := true |>)
  | Enters now missing, NotRun => Some (enter now missing p)
  | Registers failed, a => if connected a && bool_decide (done_ p = None) then Some (onReady failed p) else None
  | Ticks l, a => if connected a then Some (if source_gone p then p else watch l p) else None
  | Disconnects r, a => if connected a && bool_decide (done_ p = None) then Some (p <| done_ := Some r |>) else None
  | Selects a, Waiting => (fun r => p <| at_ := Returning r |>) <$> select a p
  | Shuts, Returning r => Some (p <| worker := shutdown (worker p) |> <| at_ := Returned r |>)
  | _, _ => None
  end.

(** A second call of [Run] leaves everything as it is. *)
Definition run_again (p : process) : option reason := match startedAt p with Some _ => Some RunTwice | None => None end.

(** The peers move by themselves, and only [Run] shuts them down. *)
Inductive run_step : process -> process -> Prop :=
| r_event p e p' : exec e p = Some p' -> run_step p p'
| r_peers p w' : share_step (worker p) w' -> stopped w' = stopped (worker p) -> run_step p (p <| worker := w' |>).

(** The runs of a worker: the events, in their order, and where they lead. *)
Inductive runs (sh : Share) : list event -> process -> Prop :=
| runs_made : runs sh [] (made sh)
| runs_event es p e p' : runs sh es p -> exec e p = Some p' -> runs sh (es ++ [e]) p'
| runs_peers es p w' : runs sh es p -> share_step (worker p) w' -> stopped w' = stopped (worker p) -> runs sh es (p <| worker := w' |>).

(** * What it publishes and why it ends *)

(** What must have happened for [Run] to return as it does, in terms of the events alone. *)
Definition has_reason (sh : Share) (es : list event) (r : reason) : Prop :=
  match r with
  | RunTwice => False
  | NoSource e => exists now, Enters now (Some e) ∈ es
  | Requested => Asked ∈ es
  | Expired now => TTL (cfg sh) > 0 /\ exists t, Enters t None ∈ es /\ t + TTL (cfg sh) <= now
  | SourceGone => exists l, Ticks (Some l) ∈ es /\ listsSession l (Share.SessionID (cfg sh)) = false
  | StateUnsaved e => Registers (Some e) ∈ es
  | SignalingOver r => Disconnects r ∈ es
  end.

Definition why (a : run_at) : option reason := match a with Returning r | Returned r => Some r | _ => None end.

(** What the parts of a worker that an arm of the select looks at go back to. *)
Record grounds (sh : Share) (es : list event) (p : process) : Prop := {
  gr_errs : forall e, errs p = Some e -> has_reason sh es (StateUnsaved e);
  gr_gone : source_gone p = true -> has_reason sh es SourceGone;
  gr_done : forall r, done_ p = Some r -> has_reason sh es (SignalingOver r);
  gr_asked : asked p = true -> has_reason sh es Requested }.

Record run_ok (sh : Share) (es : list event) (p : process) : Prop := {
  ok_worker : running sh (worker p);
  ok_new : at_ p = NotRun -> startedAt p = None /\ ready_done p = false;
  ok_started : connected (at_ p) = true ->
    exists t, Enters t None ∈ es /\ startedAt p = Some t /\ expiresAt p = if TTL (cfg sh) >? 0 then t + TTL (cfg sh) else ZeroTime;
  ok_refused : forall now e, Enters now (Some e) ∈ es -> why (at_ p) = Some (NoSource e);
  ok_unready : ready_done p = false -> published p = [] /\ errs p = None /\ reported p = false;
  ok_published : published p = [] \/ published p = [state_of p] /\ errs p = None /\ Registers None ∈ es;
  ok_grounds : grounds sh es p;
  ok_missing : connected (at_ p) = false -> ready_done p = false;
  ok_why : forall r, why (at_ p) = Some r -> has_reason sh es r;
  ok_unsaved : forall e, why (at_ p) = Some (StateUnsaved e) -> errs p = Some e;
  ok_shut : forall r, at_ p = Returned r -> stopped (worker p) = true }.

Lemma run_share sh es p : run_ok sh es p -> share (worker p) = sh.
Proof. intros H. by destruct (running_ok _ _ (ok_worker _ _ _ H)) as (_ & _ & ?). Qed.

Lemma made_ok sh : run_ok sh [] (made sh).
Proof. split; cbn; try done; [constructor|by intros ? ? ?%elem_of_nil|by left]. Qed.

Lemma elem_snoc (es : list event) x e : x ∈ es ++ [e] <-> x ∈ es \/ x = e.
Proof. by rewrite elem_of_app, list_elem_of_singleton. Qed.

Lemma has_reason_later sh es e r : has_reason sh es r -> has_reason sh (es ++ [e]) r.
Proof.
  assert (forall x, x ∈ es -> x ∈ es ++ [e]) as Hi by (intros x Hx; apply elem_snoc; by left).
  destruct r as [|x| |now| |x|x]; cbn; try done; try apply Hi.
  - intros [now Hn]. exists now. auto.
  - intros (H & t & Ht & Hl). split; [done|]. exists t. auto.
  - intros (l & Hl & Hs). exists l. auto.
Qed.

Lemma grounds_later sh es e p p' : grounds sh es p ->
  (forall x, errs p' = Some x -> errs p = Some x \/ e = Registers (Some x)) ->
  (source_gone p' = true -> source_gone p = true \/ exists l, e = Ticks (Some l) /\ listsSession l (Share.SessionID (cfg sh)) = false) ->
  (forall r, done_ p' = Some r -> done_ p = Some r \/ e = Disconnects r) -> (asked p' = true -> asked p = true \/ e = Asked) ->
  grounds sh (es ++ [e]) p'.
Proof.
  intros [G1 G2 G3 G4] H1 H2 H3 H4. split.
  - intros x Hx. destruct (H1 x Hx) as [| ->]; [by apply has_reason_later, G1|]. apply elem_snoc. by right.
  - intros Hx. destruct (H2 Hx) as [|(l & -> & Hl)]; [by apply has_reason_later, G2|]. exists l. split; [apply elem_snoc; by right|done].
  - intros r Hx. destruct (H3 r Hx) as [| ->]; [by apply has_reason_later, G3|]. apply elem_snoc. by right.
  - intros Hx. destruct (H4 Hx) as [| ->]; [by apply has_reason_later, G4|]. apply elem_snoc. by right.
Qed.

Lemma state_of_same p p' : share (worker p') = share (worker p) -> startedAt p' = startedAt p -> expiresAt p' = expiresAt p -> state_of p' = state_of p.
Proof. intros E1 E2 E3. unfold state_of. by rewrite E1, E2, E3. Qed.

(** An event that leaves [Run] where it is. *)
Lemma quiet_ok sh es e p p' :
  run_ok sh es p -> (forall now m, e <> Enters now m) ->
  worker p' = worker p -> at_ p' = at_ p -> startedAt p' = startedAt p -> expiresAt p' = expiresAt p ->
  (ready_done p' = ready_done p /\ published p' = published p /\ errs p' = errs p /\ reported p' = reported p \/
   ready_done p' = true /\ connected (at_ p) = true /\ errs p = None /\
     (published p' = [] \/ published p' = [state_of p] /\ errs p' = None /\ e = Registers None)) ->
  grounds sh (es ++ [e]) p' -> run_ok sh (es ++ [e]) p'.
Proof.
  intros [H1 H2 H3 H4 H5 H6 H7 H8 H9 H10 H11] Hne E1 E2 E3 E4 Hr Hg. split; rewrite ?E1, ?E2, ?E3, ?E4; try done.
  - intros Hn. destruct (H2 Hn) as [? ?]. split; [done|]. destruct Hr as [(-> & _)|(_ & Hc & _)]; [done|by rewrite Hn in Hc].
  - intros Hc. destruct (H3 Hc) as (t & Ht & ?). exists t. split; [apply elem_snoc; by left|done].
  - intros now m [Hi|Hi]%elem_snoc; [by eapply H4|by destruct (Hne now (Some m))].
  - destruct Hr as [(-> & -> & -> & ->)|(-> & _)]; [exact H5|done].
  - rewrite (state_of_same p p') by congruence. destruct Hr as [(_ & -> & -> & _)|(_ & _ & _ & [?|(? & ? & ->)])].
    + destruct H6 as [?|(? & ? & ?)]; [by left|right]. split_and!; [done..|apply elem_snoc; by left].
    + by left.
    + right. split_and!; [done..|apply elem_snoc; by right].
  - intros Hc. destruct Hr as [(-> & _)|(_ & Hc' & _)]; [auto|congruence].
  - intros r Hy. by apply has_reason_later, H9.
  - intros x Hx. apply H10 in Hx. destruct Hr as [(_ & _ & -> & _)|(_ & _ & Hn & _)]; [done|congruence].
Qed.

Lemma ready_ok sh es p failed : run_ok sh es p -> connected (at_ p) = true -> run_ok sh (es ++ [Registers failed]) (onReady failed p).
Proof.
  intros H Hc. pose proof (ok_grounds _ _ _ H) as Hg. unfold onReady. destruct (ready_done p) eqn:Hd.
  { eapply quiet_ok; try exact H; try done; [by left|]. eapply grounds_later; [exact Hg|..]; auto. }
  destruct (ok_unready _ _ _ H Hd) as (U1 & U2 & U3). cbn.
  destruct (stopped (worker p)); [|destruct failed as [e|]; [unfold report; cbn; rewrite U3|]];
    (eapply quiet_ok; [exact H|done..|right; cbn; rewrite ?U1, ?U2; split_and!; auto|eapply grounds_later; [exact Hg|cbn; auto..]]).
  intros x [= ->]. by right.
Qed.

Lemma watch_ok sh es p l : run_ok sh es p -> run_ok sh (es ++ [Ticks l]) (if source_gone p then p else watch l p).
Proof.
  intros H. pose proof (ok_grounds _ _ _ H) as Hg. pose proof (run_share _ _ _ H) as Hs.
  assert (forall b, (b = true -> source_gone p = true \/ exists x, Ticks l = Ticks (Some x) /\ listsSession x (Share.SessionID (cfg sh)) = false) ->
    run_ok sh (es ++ [Ticks l]) (p <| source_gone := b |>)) as Hgo.
  { intros b Hb. eapply quiet_ok; [exact H|done..|by left|]. eapply grounds_later; [exact Hg|cbn; auto..]. }
  assert (p <| source_gone := source_gone p |> = p) as Hp by (by destruct p).
  assert (run_ok sh (es ++ [Ticks l]) p) as Hsame by (rewrite <- Hp; apply Hgo; by left).
  destruct (source_gone p) eqn:Hsg; [done|]. destruct l as [l|]; [|done]. unfold watch. rewrite Hs.
  destruct (listsSession l _) eqn:El; [done|]. apply Hgo. intros _. right. by exists l.
Qed.

Lemma run_enter_ok sh es p now missing : run_ok sh es p -> at_ p = NotRun -> run_ok sh (es ++ [Enters now missing]) (enter now missing p).
Proof.
  intros H Ha. pose proof (run_share _ _ _ H) as Hs. destruct (ok_new _ _ _ H Ha) as [_ Hd]. destruct (ok_unready _ _ _ H Hd) as (U1 & U2 & U3).
  assert (forall now' e, Enters now' (Some e) ∈ es -> False) as Hno.
  { intros n e Hi. apply (ok_refused _ _ _ H) in Hi. by rewrite Ha in Hi. }
  destruct H as [H1 H2 H3 H4 H5 H6 H7 H8 H9 H10 H11]. unfold enter. cbn zeta. rewrite Hs.
  assert (forall q, grounds sh es q -> grounds sh (es ++ [Enters now missing]) q) as Hg
    by (intros q Hq; eapply grounds_later; [exact Hq|auto..]).
  assert (Enters now missing ∈ es ++ [Enters now missing]) as Hin by (apply elem_snoc; by right).
  destruct missing as [e|]; (split; cbn; try done); try (by left); try (apply Hg; by destruct H7).
  - intros n x [Hi|[= -> ->]]%elem_snoc; [by apply Hno in Hi|done].
  - intros r [= <-]. by exists now.
  - intros _. by exists now.
  - intros n x [Hi|Hi]%elem_snoc; [by apply Hno in Hi|done].
Qed.

Lemma select_ok sh es p a r : run_ok sh es p -> at_ p = Waiting -> select a p = Some r -> run_ok sh (es ++ [Selects a]) (p <| at_ := Returning r |>).
Proof.
  intros H Ha E. pose proof (run_share _ _ _ H) as Hs. pose proof (ok_grounds _ _ _ H) as Hg.
  destruct (ok_started _ _ _ H) as (t & Ht & E1 & E2); [by rewrite Ha|].
  assert (has_reason sh es r /\ connected (Returning r) = true /\ forall e, r = StateUnsaved e -> errs p = Some e) as (Hy & Hc & He).
  { destruct a; cbn in E.
    - destruct (asked p) eqn:Hk; [|done]. injection E as <-. split_and!; [by apply Hg|done..].
    - destruct (_ && _) eqn:Hk; [|done]. injection E as <-. split_and!; [|done..]. apply andb_prop in Hk as [K1 K2]. rewrite Hs in K1.
      split; [lia|]. exists t. split; [done|]. rewrite K1 in E2. lia.
    - destruct (source_gone p) eqn:Hk; [|done]. injection E as <-. split_and!; [by apply Hg|done..].
    - destruct (errs p) as [e|] eqn:Hk; [|done]. injection E as <-. split_and!; [by apply Hg|done|congruence].
    - destruct (done_ p) as [x|] eqn:Hk; [|done]. injection E as <-. split_and!; [by apply Hg|done..]. }
  destruct H as [H1 H2 H3 H4 H5 H6 H7 H8 H9 H10 H11]. split; cbn; try done.
  - intros _. exists t. split_and!; [apply elem_snoc; by left|done..].
  - intros n x [Hi|Hi]%elem_snoc; [|done]. apply H4 in Hi. by rewrite Ha in Hi.
  - destruct H6 as [?|(? & ? & ?)]; [by left|right]. split_and!; [done..|apply elem_snoc; by left].
  - eapply grounds_later; [exact H7|auto..].
  - intros Hn. unfold connected in Hc. congruence.
  - intros r' [= <-]. by apply has_reason_later.
  - intros e [= ->]. by apply He.
Qed.

Lemma shuts_ok sh es p r : run_ok sh es p -> at_ p = Returning r -> run_ok sh (es ++ [Shuts]) (p <| worker := shutdown (worker p) |> <| at_ := Returned r |>).
Proof.
  intros H Ha. pose proof (run_share _ _ _ H) as Hs. destruct H as [H1 H2 H3 H4 H5 H6 H7 H8 H9 H10 H11]. rewrite Ha in *.
  assert (running sh (shutdown (worker p))) as Hr by (eapply steps_trans; [exact H1|apply steps_one, s_shutdown]).
  pose proof (running_ok _ _ Hr) as (_ & _ & Hs').
  split; cbn -[shutdown]; try done.
  - intros Hc. destruct (H3 Hc) as (t & Ht & ?). exists t. split; [apply elem_snoc; by left|done].
  - intros n x [Hi|Hi]%elem_snoc; [by eapply H4|done].
  - rewrite (state_of_same p) by (cbn -[shutdown]; congruence). destruct H6 as [?|(? & ? & ?)]; [by left|right]. split_and!; [done..|apply elem_snoc; by left].
  - eapply grounds_later; [exact H7|auto..].
  - intros r' Hr'. by apply has_reason_later, H9.
  - intros _ _. unfold shutdown. destruct (stopped (worker p)) eqn:Est; [done|]. by destruct (PeerSet.CloseSet _).
Qed.

Lemma run_event_ok sh es p e p' : run_ok sh es p -> exec e p = Some p' -> run_ok sh (es ++ [e]) p'.
Proof.
  intros H. pose proof (ok_grounds _ _ _ H) as Hg. destruct e; cbn [exec]; intros E.
  - injection E as <-. eapply quiet_ok; [exact H|done..|by left|]. eapply grounds_later; [exact Hg|cbn; auto..].
  - destruct (at_ p) eqn:Ha; try done. injection E as <-. by apply run_enter_ok.
  - destruct (connected (at_ p)) eqn:Hc; [|done]. cbn in E. case_bool_decide; [|done]. injection E as <-. by apply ready_ok.
  - destruct (connected (at_ p)) eqn:Hc; [|done]. injection E as <-. by apply watch_ok.
  - destruct (connected (at_ p)) eqn:Hc; [|done]. cbn in E. case_bool_decide; [|done]. injection E as <-.
    eapply quiet_ok; [exact H|done..|by left|]. eapply grounds_later; [exact Hg|cbn; auto..]. intros x [= ->]. by right.
  - destruct (at_ p) eqn:Ha; try done. destruct (select a p) as [r|] eqn:Er; [|done]. injection E as <-. by eapply select_ok.
  - destruct (at_ p) eqn:Ha; try done. injection E as <-. by apply shuts_ok.
Qed.

Lemma runs_ok sh es p : runs sh es p -> run_ok sh es p.
Proof.
  induction 1 as [|es p e p' _ IH E|es p w' _ IH Hw Hst]; [apply made_ok|by eapply run_event_ok|].
  assert (running sh w') as Hr by (eapply steps_trans; [apply (ok_worker _ _ _ IH)|by apply steps_one]).
  pose proof (running_ok _ _ Hr) as (_ & _ & Hs'). pose proof (run_share _ _ _ IH) as Hs.
  destruct IH as [H1 H2 H3 H4 H5 H6 H7 H8 H9 H10 H11]. split; cbn; try done.
  - rewrite (state_of_same p) by (cbn; congruence). done.
  - by destruct H7.
  - intros r Hr'. rewrite Hst. by eapply H11.
Qed.

(** C29: A worker ends only for its reason. If [Run] returns because the session is not there, [has-session] failed with that
    very error when it was called; and it is the only check that can end a worker for a tmux that does not answer: once it
    has passed, [Run] returns as the process was told to stop, when the lifetime it was given has passed since it was
    called, when tmux has answered with a listing that lacks the session, when the state could not be written, or as
    [Connect] returned. A worker whose [has-session] failed ends, and with that error, and never publishes. A worker
    publishes one state at most, which is its own, after a registration; none if it could not be written, and none once
    [shutdown] has begun; and when it has ended, its peers are shut down. *)
Theorem worker_ends_for_a_reason sh es p : runs sh es p ->
  (forall r, why (at_ p) = Some r -> match r with
     | RunTwice => False
     | NoSource e => exists now, Enters now (Some e) ∈ es
     | Requested => Asked ∈ es
     | Expired now => TTL (cfg sh) > 0 /\ exists t, Enters t None ∈ es /\ t + TTL (cfg sh) <= now
     | SourceGone => exists l, Ticks (Some l) ∈ es /\ listsSession l (Share.SessionID (cfg sh)) = false
     | StateUnsaved e => Registers (Some e) ∈ es /\ published p = []
     | SignalingOver r => Disconnects r ∈ es
     end) /\
  (forall now e, Enters now (Some e) ∈ es -> why (at_ p) = Some (NoSource e) /\ published p = []) /\
  (published p = [] \/ published p = [state_of p] /\ Registers None ∈ es) /\
  (forall p', run_step p p' -> stopped (worker p) = true -> published p' = published p) /\
  (forall r, at_ p = Returned r -> stopped (worker p) = true /\ running sh (worker p)).
Proof.
  intros R. pose proof (runs_ok _ _ _ R) as H. split_and!.
  - intros r Hr. pose proof (ok_why _ _ _ H _ Hr) as Hy. destruct r; try exact Hy. split; [exact Hy|].
    apply (ok_unsaved _ _ _ H) in Hr. destruct (ok_published _ _ _ H) as [|(_ & E & _)]; [done|congruence].
  - intros now e He. apply (ok_refused _ _ _ H) in He. split; [done|].
    apply (ok_unready _ _ _ H), (ok_missing _ _ _ H). by destruct (at_ p); try done; injection He as ->.
  - destruct (ok_published _ _ _ H) as [|(? & _ & ?)]; auto.
  - clear H R. intros p' Hstep. destruct Hstep as [q e p1 E|]; intros Hst; [|done]. destruct e; cbn [exec] in E; [by injection E as <-|..].
    + destruct (at_ q); try done. injection E as <-. unfold enter. by destruct missing.
    + destruct (_ && _); [|done]. injection E as <-. unfold onReady. destruct (ready_done q); [done|]. cbn. by rewrite Hst.
    + destruct (connected (at_ q)); [|done]. injection E as <-. destruct (source_gone q); [done|]. destruct listing; [|done]. cbn. by destruct (listsSession _ _).
    + destruct (_ && _); [|done]. by injection E as <-.
    + destruct (at_ q); try done. destruct (select a q); [|done]. by injection E as <-.
    + destruct (at_ q); try done. by injection E as <-.
  - intros r Hr. split; [by eapply (ok_shut _ _ _ H)|apply (ok_worker _ _ _ H)].
Qed.

(** The state of a worker is what its parent asked for: a share that is asked for again with the same settings finds none of
    them changed. *)
Theorem own_state_matches sh es c d t p : runs sh es p ->
  cfg sh = mkConfig (t_SessionID (st_target t)) (st_mgmt t) (st_dir t) (t_Socket (st_target t)) d (maxViewers c) (readOnly c) ->
  o_server o = server c -> server c <> [] -> shareConflicts c d (state_of p) = [].
Proof.
  intros R Ec Eo Hs. unfold shareConflicts, state_of. rewrite (run_share _ _ _ (runs_ok _ _ _ R)), Ec. cbn [ControlURL TTLSeconds MaxViewers Server TTL MaxViewers_].
  assert (worker_server = server c) as Ew by (unfold worker_server; rewrite Eo; by destruct (server c)).
  rewrite Ew, !Z.eqb_refl, (bool_decide_eq_true_2 (server c = server c)), !andb_false_r by done. cbn [negb app].
  rewrite !app_nil_r. destruct (was_set c _); [|done]. unfold controlURL. rewrite Ec. cbn [ReadOnly]. destruct (readOnly c); [done|].
  unfold CodeURL. by rewrite bool_decide_eq_false_2.
Qed.
End Run.

(** A share of one hour whose session is closed by hand, through a tmux that did not answer the first time. *)
Definition paper_origin : origin := mkOrigin $"work" $"n1" [] $"u1".
Definition paper_sh : Share := mkShare (mkConfig $"$3" $"_bbshare_0a" $"/tmp/s" [] (3600 * Share.Second) 4 false) $"C1" $"V1" [] [].

Fixpoint run (o : origin) (es : list event) (p : process) : option process :=
  match es with [] => Some p | e :: es => match exec o e p with Some p' => run o es p' | None => None end end.

Lemma run_runs o es : forall sh es0 p p', runs o sh es0 p -> run o es p = Some p' -> runs o sh (es0 ++ es) p'.
Proof.
  induction es as [|e es IH]; intros sh es0 p p' H E; cbn in E; [injection E as <-; by rewrite app_nil_r|].
  destruct (exec o e p) as [p1|] eqn:E1; [|done]. rewrite (cons_middle e es0 es), app_assoc.
  eapply IH; [|exact E]. by eapply runs_event.
Qed.

Definition paper_events : list event :=
  [Enters 10 None; Registers None; Ticks None; Registers None; Ticks (Some $"$1"); Selects BySource; Shuts; Registers None].

Lemma worker_ends_for_a_reason_witness : exists p,
  run paper_origin paper_events (made paper_sh) = Some p /\
  at_ p = Returned SourceGone /\ published p = [state_of paper_origin p] /\ stopped (worker p) = true /\ exit_of $"n1" SourceGone = (0, None) /\
  exists l, Ticks (Some l) ∈ paper_events /\ listsSession l $"$3" = false.
Proof.
  destruct (run paper_origin paper_events (made paper_sh)) as [p|] eqn:E; [|vm_compute in E; discriminate E].
  exists p. assert (at_ p = Returned SourceGone /\ published p <> []) as [Ha Hp] by (vm_compute in E; injection E as <-; by split).
  destruct (worker_ends_for_a_reason paper_origin paper_sh paper_events p) as (H0 & _ & H1 & _ & H2);
    [exact (run_runs paper_origin paper_events paper_sh [] (made paper_sh) p (runs_made _ _) E)|].
  split_and!; [done|exact Ha| |by destruct (H2 _ Ha)|reflexivity|].
  - by destruct H1 as [|[]].
  - apply (H0 SourceGone). by rewrite Ha.
Defined.
