(* ===== verification/Identity.v ===== *)
(** The identity of a program (internal/identity/identity.go): how it is made, kept beside the program and read
    back. RSA, the DER encodings of its keys and the PEM armour are parameters, with what the code relies on of
    them. *)

From S2P Require Import Prelude GoLib Json Sha256 Wire Signaling Ice Handshake Dial.

(** * base64.RawURLEncoding *)

(** A character of the URL alphabet as one of the standard one. *)
Definition std_char64 (c : ascii) : option ascii :=
  if is_char 45 c then Some (chr 43) else if is_char 95 c then Some (chr 47)
  else if is_char 43 c || is_char 47 c then None
  else match dec6 c with Some _ => Some c | None => None end.

(** The padding the standard encoding would have. *)
Definition missing_pad (n : nat) : bytes :=
  match (n mod 4)%nat with 2%nat => [pad_char; pad_char] | 3%nat => [pad_char] | _ => [] end.

(** [RawURLEncoding.DecodeString], which skips line breaks as every encoding does. *)
Definition DecodeRawURL (s : bytes) : option bytes :=
  let s := filter (fun c => c <> chr 10 /\ c <> chr 13) s in
  t ← mapM std_char64 s; decode_quads (t ++ missing_pad (length t)).

Lemma enc6_alphabet (z : Z) : 0 <= z < 64 ->
  std_char64 (url_char64 (enc6 z)) = Some (enc6 z) /\ enc6 z <> pad_char /\ url_char64 (enc6 z) <> chr 10 /\ url_char64 (enc6 z) <> chr 13.
Proof.
  revert z. apply sextets. intros n Hn.
  do 64 (destruct n as [|n]; [split; [vm_compute; reflexivity|apply (bool_decide_unpack _); vm_compute; reflexivity]|]). lia.
Qed.

(** The characters of an encoding before its padding, and how many of them there are. *)
Lemma encode64_body s : exists zs, Forall (fun z => 0 <= z < 64) zs /\ encode64 s = map enc6 zs ++ missing_pad (length zs) /\
  (3 * length zs = 4 * length s + (match (length zs mod 4)%nat with 0%nat => 0 | 2%nat => 2 | _ => 1 end))%nat.
Proof.
  induction s as [|a|a b|a b c r (zs & Hz & E & L)] using encode64_ind;
    pose proof (fun x : ascii => code_range x) as R.
  - by exists [].
  - exists [code a * 65536 / 262144; code a * 65536 / 4096 mod 64]. split_and!; [|done|done].
    pose proof (R a). repeat constructor; Z.div_mod_to_equations; lia.
  - exists (let v := code a * 65536 + code b * 256 in [v / 262144; v / 4096 mod 64; v / 64 mod 64]). split_and!; [|done|done].
    pose proof (R a). pose proof (R b). repeat constructor; Z.div_mod_to_equations; lia.
  - exists (let v := code a * 65536 + code b * 256 + code c in v / 262144 :: v / 4096 mod 64 :: v / 64 mod 64 :: v mod 64 :: zs). split_and!.
    + pose proof (R a). pose proof (R b). pose proof (R c). repeat (apply Forall_cons; split); [..|exact Hz]; Z.div_mod_to_equations; lia.
    + cbn [encode64]. rewrite E. cbn [map app length]. do 4 f_equal. f_equal. unfold missing_pad. 
      replace (S (S (S (S (length zs)))) mod 4)%nat with (length zs mod 4)%nat; [done|].
      replace (S (S (S (S (length zs))))) with (length zs + 1 * 4)%nat by lia. by rewrite Nat.Div0.mod_add.
    + cbn [length]. replace (S (S (S (S (length zs)))) mod 4)%nat with (length zs mod 4)%nat; [lia|].
      replace (S (S (S (S (length zs))))) with (length zs + 1 * 4)%nat by lia. by rewrite Nat.Div0.mod_add.
Qed.

Lemma RawURL_body s : exists zs, Forall (fun z => 0 <= z < 64) zs /\ RawURL s = map (fun z => url_char64 (enc6 z)) zs /\
  encode64 s = map enc6 zs ++ missing_pad (length zs) /\
  (3 * length zs = 4 * length s + (match (length zs mod 4)%nat with 0%nat => 0 | 2%nat => 2 | _ => 1 end))%nat.
Proof.
  destruct (encode64_body s) as (zs & Hz & E & L). exists zs. split_and!; [done| |done|done]. unfold RawURL. rewrite E, filter_app.
  assert (filter (fun c => c <> pad_char) (missing_pad (length zs)) = []) as ->.
  { unfold missing_pad. destruct (length zs mod 4)%nat as [|[|[|[|k]]]]; reflexivity. }
  rewrite app_nil_r. clear E L. induction Hz as [|z zs H _ IH]; [done|]. cbn [map].
  rewrite filter_cons_True by apply (enc6_alphabet z H). cbn [map]. by rewrite IH.
Qed.

Lemma DecodeRawURL_RawURL s : DecodeRawURL (RawURL s) = Some s.
Proof.
  destruct (RawURL_body s) as (zs & Hz & -> & E & _). pose proof (decode_quads_encode s) as D. rewrite E in D. clear E. unfold DecodeRawURL.
  assert (filter (fun c => c <> chr 10 /\ c <> chr 13) (map (fun z => url_char64 (enc6 z)) zs) = map (fun z => url_char64 (enc6 z)) zs) as ->.
  { clear D. induction Hz as [|z zs H _ IH]; [done|]. cbn [map]. rewrite filter_cons_True; [by rewrite IH|]. apply (enc6_alphabet z H). }
  assert (mapM std_char64 (map (fun z => url_char64 (enc6 z)) zs) = Some (map enc6 zs)) as ->.
  { clear D. induction Hz as [|z zs H _ IH]; [done|]. cbn [map mapM]. destruct (enc6_alphabet z H) as [-> _]. cbn. cbn in IH. by rewrite IH. }
  cbn [mbind option_bind]. by rewrite length_map.
Qed.

Lemma length_RawURL s : (3 * length (RawURL s) = 4 * length s + (match (length (RawURL s) mod 4)%nat with 0%nat => 0 | 2%nat => 2 | _ => 1 end))%nat.
Proof. destruct (RawURL_body s) as (zs & _ & -> & _ & L). by rewrite length_map. Qed.

(** The lengths of the two texts of an identity. *)
Lemma thirds n b : (3 * n = b + (match (n mod 4)%nat with 0%nat => 0 | 2%nat => 2 | _ => 1 end))%nat ->
  (b = 64 -> n = 22)%nat /\ (b = 32 -> n = 11)%nat.
Proof. intros H. destruct (n mod 4)%nat as [|[|[|k]]]; split; intros ->; lia. Qed.

(** * The identity *)

Definition accessCodePEMType : bytes := $"BITBANG ACCESS CODE".
Definition keyPEMType : bytes := $"PRIVATE KEY".
Definition accessCodeBytes : nat := 8.

Record Identity {key : Type} := mkIdentity { PrivateKey : key; UID : bytes; Code : bytes; PublicB64 : bytes }.
Arguments Identity : clear implicits.

Inductive identity_error :=
| NoKeyBlock | LegacyFile | BadKey | NotRSA | WrongCodeLength (n : nat) | NoPublicKey
| NoKeyGenerated | NoCodeGenerated | NoDirectory | NoMarshal | CodeUndecodable | NotSaved.

(** What is found under the path of the file, and what a write that fails leaves there. *)
Inductive on_disk := Missing | Unreadable | Holding (data : bytes).

(** What the process draws and is allowed: a key, the eight bytes of a code, the directory, and the write. *)
Record drawn {key : Type} := mkDrawn { d_key : option key; d_code : option bytes; d_dir : bool; d_write : option on_disk }.
Arguments drawn : clear implicits.

Section Keys.
Context {key : Type}.
(** [x509.MarshalPKIXPublicKey] of the public half, [MarshalPKCS8PrivateKey], and [ParsePKCS8PrivateKey], whose
    key may be of another kind ([Some None]). *)
Variable MarshalPKIX : key -> option bytes.
Variable MarshalPKCS8 : key -> option bytes.
Variable ParsePKCS8 : bytes -> option (option key).
(** [pem.EncodeToMemory] of a type and bytes, and the blocks that [pem.Decode] finds one after the other. *)
Variable EncodePEM : bytes -> bytes -> bytes.
Variable blocks : bytes -> list (bytes * bytes).

Definition fromPrivateKeyAndCode (k : key) (code : bytes) : result identity_error (Identity key) :=
  match MarshalPKIX k with
  | None => Err NoPublicKey
  | Some der => Ok (mkIdentity _ k (RawURL (take 16 (Sum256 der))) code (encode64 der))
  end.

(** The first block of a type. *)
Definition block_of (type : bytes) (l : list (bytes * bytes)) : option bytes :=
  snd ∘ snd <$> list_find (fun b => b.1 = type) l.

Definition fromPEM (data : bytes) : result identity_error (Identity key) :=
  match block_of keyPEMType (blocks data) with
  | None => Err NoKeyBlock
  | Some keyBlock =>
    match block_of accessCodePEMType (blocks data) with
    | None => Err LegacyFile
    | Some codeBlock =>
      match ParsePKCS8 keyBlock with
      | None => Err BadKey
      | Some None => Err NotRSA
      | Some (Some k) =>
        if negb (length codeBlock =? accessCodeBytes)%nat then Err (WrongCodeLength (length codeBlock))
        else fromPrivateKeyAndCode k (RawURL codeBlock)
      end
    end
  end.

Definition toPEM (k : key) (code : bytes) : result identity_error bytes :=
  match MarshalPKCS8 k with
  | None => Err NoMarshal
  | Some der => match DecodeRawURL code with
                | None => Err CodeUndecodable
                | Some raw => Ok (EncodePEM keyPEMType der ++ EncodePEM accessCodePEMType raw)
                end
  end.

(** [generateAccessCode]: eight random bytes. *)
Definition generateAccessCode (raw : option bytes) : result identity_error bytes :=
  match raw with Some b => Ok (RawURL b) | None => Err NoCodeGenerated end.

Definition generate (e : drawn key) : result identity_error (Identity key) :=
  match d_key e with
  | None => Err NoKeyGenerated
  | Some k => let! code := generateAccessCode (d_code e) in fromPrivateKeyAndCode k code
  end.

(** [Load]: the identity, and what is under the path afterwards. *)
Definition Load (ephemeral : bool) (e : drawn key) (f : on_disk) : result identity_error (Identity key) * on_disk :=
  if ephemeral then (generate e, f) else
  match f with
  | Holding data => (fromPEM data, f)
  | _ =>
    match generate e with
    | Err err => (Err err, f)
    | Ok id =>
      if negb (d_dir e) then (Err NoDirectory, f) else
      match toPEM (PrivateKey id) (Code id) with
      | Err err => (Err err, f)
      | Ok data => match d_write e with
                   | None => (Ok id, Holding data)
                   | Some remains => (Err NotSaved, remains)
                   end
      end
    end
  end.

(** * What it promises *)

(** What is relied on of the encodings: a key that is marshalled is read back, and the two blocks of a file are
    the two it was made of. *)
Record encodings : Prop := {
  key_read_back k der : MarshalPKCS8 k = Some der -> ParsePKCS8 der = Some (Some k);
  blocks_read_back der raw : blocks (EncodePEM keyPEMType der ++ EncodePEM accessCodePEMType raw) = [(keyPEMType, der); (accessCodePEMType, raw)]
}.

(** An identity as [generate] makes it. *)
Definition well_made (id : Identity key) : Prop :=
  (exists der, MarshalPKIX (PrivateKey id) = Some der /\ PublicB64 id = encode64 der /\ uidFromPubkeyDER der = UID id) /\
  (exists raw, length raw = accessCodeBytes /\ Code id = RawURL raw).

Definition draws_eight (e : drawn key) : Prop := forall raw, d_code e = Some raw -> length raw = accessCodeBytes.

Lemma fromPrivateKeyAndCode_made k code id : fromPrivateKeyAndCode k code = Ok id ->
  PrivateKey id = k /\ Code id = code /\ exists der, MarshalPKIX k = Some der /\ PublicB64 id = encode64 der /\ uidFromPubkeyDER der = UID id.
Proof.
  unfold fromPrivateKeyAndCode. destruct (MarshalPKIX k) as [der|] eqn:E; [|done]. intros [= <-]. split_and!; [done|done|].
  exists der. by split_and!.
Qed.

Lemma generate_made e id : draws_eight e -> generate e = Ok id -> well_made id.
Proof.
  unfold generate. intros He. destruct (d_key e) as [k|]; [|done]. destruct (d_code e) as [raw|] eqn:Er; [|done]. cbn.
  intros (<- & Hc & Hd)%fromPrivateKeyAndCode_made. split; [done|]. exists raw. split; [by apply He|done].
Qed.

Lemma fromPEM_made data id : fromPEM data = Ok id -> well_made id.
Proof.
  unfold fromPEM. destruct (block_of _ _) as [kb|]; [|done]. destruct (block_of _ _) as [cb|]; [|done].
  destruct (ParsePKCS8 kb) as [[k|]|]; [|done|done]. destruct (length cb =? accessCodeBytes)%nat eqn:El; [|done]. cbn [negb].
  intros (<- & Hc & Hd)%fromPrivateKeyAndCode_made. split; [done|]. exists cb. split; [by apply Nat.eqb_eq|done].
Qed.

Lemma blocks_of_file der raw :
  block_of keyPEMType [(keyPEMType, der); (accessCodePEMType, raw)] = Some der /\
  block_of accessCodePEMType [(keyPEMType, der); (accessCodePEMType, raw)] = Some raw.
Proof. by split. Qed.

Lemma fromPEM_toPEM id data : encodings -> well_made id -> toPEM (PrivateKey id) (Code id) = Ok data -> fromPEM data = Ok id.
Proof.
  intros [Hk Hb] [(der & Hm & Hd & Hu) (raw & Hl & Hc)]. unfold toPEM. destruct (MarshalPKCS8 (PrivateKey id)) as [pk|] eqn:Ep; [|done].
  rewrite Hc, DecodeRawURL_RawURL. intros [= <-]. unfold fromPEM. rewrite Hb. destruct (blocks_of_file pk raw) as [-> ->].
  rewrite (Hk _ _ Ep). rewrite (proj2 (Nat.eqb_eq _ _) Hl). cbn [negb]. unfold fromPrivateKeyAndCode. rewrite Hm.
  destruct id as [k u c p]. cbn in *. by subst.
Qed.

(** A save that succeeds is what the next load reads back. *)
Lemma Load_saves e f id f' : encodings -> draws_eight e -> Load false e f = (Ok id, f') ->
  exists data, f' = Holding data /\ fromPEM data = Ok id.
Proof.
  intros Henc He. unfold Load.
  assert (forall f, (match generate e with
    | Err err => (Err err, f)
    | Ok id => if negb (d_dir e) then (Err NoDirectory, f) else
      match toPEM (PrivateKey id) (Code id) with
      | Err err => (Err err, f)
      | Ok data => match d_write e with None => (Ok id, Holding data) | Some remains => (Err NotSaved, remains) end
      end
    end) = (Ok id, f') -> exists data, f' = Holding data /\ fromPEM data = Ok id) as H.
  { intros f0. destruct (generate e) as [i|] eqn:Eg; [|done]. destruct (d_dir e); [|done]. cbn [negb].
    destruct (toPEM _ _) as [data|] eqn:Ep; [|done]. destruct (d_write e); [done|]. intros [= <- <-]. exists data. split; [done|].
    by apply fromPEM_toPEM; [|eapply generate_made|]. }
  destruct f as [| |data]; [by apply H|by apply H|]. intros [= Hd <-]. by exists data.
Qed.

(** The identity of a program outlives it: the URL that a device prints is the one it prints again. Whatever a load
    that succeeds finds, every later load of the same file, whatever it might have drawn, gives the same key, UID and
    code and leaves the file alone; and the identity is one the connector accepts: the public key decodes to a DER
    whose digest is the UID, of 22 characters, and the code has 11. *)
Theorem identity_outlives_process e e' f id f' : encodings -> draws_eight e -> Load false e f = (Ok id, f') ->
  Load false e' f' = (Ok id, f') /\ well_made id /\ length (UID id) = 22%nat /\ length (Code id) = 11%nat /\
  (forall is_rsa, (forall der, MarshalPKIX (PrivateKey id) = Some der -> is_rsa der = true) ->
   exists der, importDevicePubkey is_rsa (PublicB64 id) = Some der /\ uidFromPubkeyDER der = UID id).
Proof.
  intros Henc He H. destruct (Load_saves e f id f' Henc He H) as (data & -> & Hd). pose proof (fromPEM_made _ _ Hd) as Hw.
  split; [by cbn; rewrite Hd|]. split; [done|]. destruct Hw as [(der & Hm & Hp & Hu) (raw & Hl & ->)]. split_and!.
  - rewrite <- Hu. unfold uidFromPubkeyDER. pose proof (length_RawURL (take 16 (Sum256 der))) as L.
    rewrite length_take, length_Sum256 in L. change (4 * Nat.min 16 32)%nat with 64%nat in L. by apply (thirds _ _ L).
  - pose proof (length_RawURL raw) as L. rewrite Hl in L. change (4 * accessCodeBytes)%nat with 32%nat in L. by apply (thirds _ _ L).
  - intros is_rsa Hr. exists der. unfold importDevicePubkey. rewrite Hp, decode64_encode64. by rewrite (Hr _ Hm).
Qed.

(** The documentation has an identity made where there is none; one is made, and replaces the file, where there is
    one that cannot be read as well. *)
Lemma unreadable_identity_replaced e id data : d_dir e = true -> d_write e = None -> generate e = Ok id ->
  toPEM (PrivateKey id) (Code id) = Ok data -> Load false e Unreadable = (Ok id, Holding data).
Proof. unfold Load. by intros -> -> -> ->. Qed.

End Keys.

(** * On paper *)

(** A key that is its own encoding, and an armour of unary lengths. *)
Definition paper_armour (type raw : bytes) : bytes := replicate (length type) (chr 1) ++ [chr 0] ++ replicate (length raw) (chr 1) ++ [chr 0] ++ type ++ raw.

Definition paper_block (s : bytes) : option ((bytes * bytes) * bytes) :=
  let '(n, s) := span (is_char 1) s in
  let '(m, s) := span (is_char 1) (drop 1 s) in
  let s := drop 1 s in
  match n with [] => None | _ => Some ((take (length n) s, take (length m) (drop (length n) s)), drop (length n + length m) s) end.

Fixpoint paper_blocks (fuel : nat) (s : bytes) : list (bytes * bytes) :=
  match fuel with
  | O => []
  | S k => match paper_block s with Some (b, r) => b :: paper_blocks k r | None => [] end
  end.

Lemma span_ones n k : span (is_char 1) (replicate n (chr 1) ++ chr 0 :: k) = (replicate n (chr 1), chr 0 :: k).
Proof. induction n as [|n IH]; [done|]. cbn. by rewrite IH. Qed.

Lemma paper_block_armour type raw k : type <> [] -> paper_block (paper_armour type raw ++ k) = Some ((type, raw), k).
Proof.
  intros Ht. unfold paper_block, paper_armour. rewrite <- !app_assoc. cbn [app]. rewrite span_ones. cbn [drop]. rewrite drop_0, span_ones. cbn [drop]. rewrite drop_0.
  rewrite !length_replicate. destruct type as [|c t]; [done|]. change (replicate (length (c :: t)) (chr 1)) with (chr 1 :: replicate (length t) (chr 1)).
  by rewrite take_app_length, drop_app_length, take_app_length, (app_assoc (c :: t)), <- length_app, drop_app_length.
Qed.

Lemma paper_encodings : encodings Some (fun d => Some (Some d)) paper_armour (paper_blocks 3).
Proof.
  split; [by intros k der [= <-]|]. intros der raw. cbn [paper_blocks].
  rewrite paper_block_armour by done. rewrite <- (app_nil_r (paper_armour accessCodePEMType raw)) at 1. by rewrite paper_block_armour.
Qed.

Definition paper_drawn (k : bytes) : drawn bytes := mkDrawn _ (Some k) (Some $"8 bytes!") true None.
Definition paper_Load := Load Some Some (fun d => Some (Some d)) paper_armour (paper_blocks 3).

Lemma identity_outlives_process_witness : exists id data,
  paper_Load false (paper_drawn $"key") Missing = (Ok id, Holding data) /\ Code id = $"OCBieXRlcyE" /\
  paper_Load false (paper_drawn $"other") (Holding data) = (Ok id, Holding data).
Proof.
  destruct (paper_Load false (paper_drawn $"key") Missing) as [[id|] [| |data]] eqn:E; try (exfalso; revert E; vm_compute; discriminate).
  exists id, data. split; [reflexivity|]. split.
  - assert (match (paper_Load false (paper_drawn $"key") Missing).1 with Ok i => bool_decide (Code i = $"OCBieXRlcyE") | Err _ => false end = true) as H
      by (vm_compute; reflexivity). rewrite E in H. exact (bool_decide_eq_true_1 _ H).
  - refine (proj1 (identity_outlives_process Some Some (fun d => Some (Some d)) paper_armour (paper_blocks 3) (paper_drawn $"key") (paper_drawn $"other")
      Missing id (Holding data) paper_encodings _ E)). intros raw H. injection H as <-. reflexivity.
Defined.
