(* ===== verification/LinkFile.v ===== *)
(** The bytes of the link file (internal/links/file.go: Parse, and what Save writes), of which LinkState.v sees the
    rows: that writing the table back loses nothing, and what is refused so that it cannot. *)

From S2P Require Import Prelude GoLib Json Wire JsonRoundTrip JsonIndent Grant Links LinkState Tmux.

(** Terms that have their own refusal, whatever their value. *)
Definition deferredFields : list bytes := [$"pin"; $"uses"; $"ttl"; $"scope"].

Inductive parse_error := NotJSON | NotEntries | Deferred (entry : nat) | NotTerms.

(** The fields of a row, by the names the decoder knows them by. *)
Definition fields : list bytes := [$"label"; $"code"; $"grant"; $"expires"].
Definition known (key : bytes) : bool := existsb (fun name => names name key) fields.

(** A row of the loose reading; null is a row without members. *)
Definition members_of (j : json) : option (list (bytes * json)) :=
  match j with JObject ms => Some ms | JNull => Some [] | _ => None end.

Section Times.
(** [time.Time.MarshalJSON] and [UnmarshalJSON], without the quotes. *)
Variable print_time : Time -> bytes.
Variable parse_time : bytes -> option Time.

Definition decode_expires : decoder (option Time) := fun old j =>
  match j with
  | JNull => (None, true)
  | JString s => match parse_time s with Some t => (Some t, true) | None => (old, false) end
  | _ => (old, false)
  end.

(** One row under [DisallowUnknownFields]: [None] where the decoder reports an error. *)
Definition decode_terms (j : json) : option Terms :=
  let text name := field decode_string [] name j in
  let until := field decode_expires None $"expires" j in
  ms ← members_of j;
  if forallb (fun kv => known kv.1) ms && (text $"label").2 && (text $"code").2 && (text $"grant").2 && until.2
  then Some (mkTerms (text $"label").1 (text $"code").1 (text $"grant").1 until.1) else None.

Definition rows_of (j : json) : option (list json) := match j with JArray l => Some l | JNull => Some [] | _ => None end.

(** The first row that names a deferred term. *)
Definition first_deferred (rows : list (list (bytes * json))) : option nat :=
  fst <$> list_find (fun ms => existsb (fun kv => bool_decide (kv.1 ∈ deferredFields)) ms = true) rows.

(** [Parse]. [Unmarshal] has refused what follows the list by the time the decoder would be asked for it. *)
Definition Parse (data : bytes) : result parse_error (list Terms) :=
  match parse_json data with
  | None => Err NotJSON
  | Some j =>
    match (l ← rows_of j; mapM members_of l), rows_of j with
    | Some loose, Some l =>
      match first_deferred loose with
      | Some i => Err (Deferred (S i))
      | None => match mapM decode_terms l with Some es => Ok es | None => Err NotTerms end
      end
    | _, _ => Err NotEntries
    end
  end.

(** The members of a row as written, one that [omitempty] leaves out having no value. *)
Definition terms_members (t : Terms) : list (bytes * option json) :=
  let text s := match s with [] => None | _ => Some (JString s) end in
  [($"label", Some (JString (Label t))); ($"code", text (Code t)); ($"grant", text (GrantText t));
   ($"expires", (fun e => JString (print_time e)) <$> Expires t)].

Definition terms_json (t : Terms) : json := JObject (present (terms_members t)).

(** What [Save] writes. *)
Definition file_text (es : list Terms) : bytes := MarshalIndent (JArray (map terms_json es)) ++ [chr 10].

(** The file as LinkState.v has it, of the bytes and their modification time. *)
Definition rows_on_disk (f : option (bytes * Time)) : option (option (list Terms) * Time) :=
  (fun d => (match Parse d.1 with Ok es => Some es | Err _ => None end, d.2)) <$> f.

(** [Save] on the bytes. *)
Definition SaveFile (e : env) (f : option (bytes * Time)) (es : list Terms) (loadedMod : option Time) : option (bytes * Time) * result state_error unit :=
  if bool_decide (snd <$> f = loadedMod) then
    (if write_ok e then (Some (file_text es, write_time e), Ok tt) else (f, Err WriteFailed))
  else (f, Err ChangedOnDisk).

(** * Writing back loses nothing *)

Hypothesis times_back : forall t, parse_time (print_time t) = Some t.
Hypothesis times_valid : forall t, utf8_valid (print_time t).

(** A row of text. *)
Definition terms_ok (t : Terms) : Prop := Forall utf8_valid [Label t; Code t; GrantText t].

Lemma terms_members_valid t : terms_ok t -> Forall (fun kv => utf8_valid kv.1 /\ forall x, kv.2 = Some x -> coerce_json x = x) (terms_members t).
Proof using times_valid.
  intros HF. unfold terms_ok in HF. rewrite !Forall_cons in HF. destruct HF as (H1 & H2 & H3 & _).
  assert (forall s, utf8_valid s -> forall x, match s with [] => None | _ => Some (JString s) end = Some x -> coerce_json x = x) as Ht.
  { intros [|c s] Hs x [= <-]. cbn [coerce_json]. by rewrite coerce_valid. }
  unfold terms_members. rewrite !Forall_cons. cbn [fst snd].
  split_and!; try (apply plain_valid; unfold plain; match goal with |- ?P => apply (bool_decide_unpack P) end; by vm_compute); try by apply Ht; try by constructor.
  - intros x [= <-]. cbn [coerce_json]. by rewrite coerce_valid.
  - destruct (Expires t); [|done]. intros x [= <-]. cbn [coerce_json]. by rewrite coerce_valid.
  - constructor.
Qed.

Lemma known_members t : forallb (fun kv => known kv.1) (present (terms_members t)) = true.
Proof. destruct t as [l [|c co] [|g gr] [e|]]; reflexivity. Qed.

Lemma decode_terms_back t : terms_ok t -> decode_terms (coerce_json (terms_json t)) = Some t.
Proof using times_back times_valid.
  intros Ht. unfold terms_json. rewrite present_coerce by by apply terms_members_valid. unfold decode_terms.
  rewrite !field_present by (destruct t as [l [|c co] [|g gr] [e|]]; reflexivity). cbn [members_of mbind option_bind]. rewrite known_members. cbn [andb].
  assert (forall x, decode_expires None (JString (print_time x)) = (Some x, true)) as Hx by (intros x; cbn; by rewrite times_back).
  destruct t as [l [|c co] [|g gr] [e|]]; unfold terms_members; cbn [Label Code GrantText Expires fmap option_fmap option_map];
  repeat match goal with |- context [the ?n ?l] => let x := constr:(the n l) in let y := eval vm_compute in x in change x with y end;
  cbv iota; rewrite ?Hx; reflexivity.
Qed.

Lemma terms_json_ok t : text_ok (terms_json t) /\ json_depth (terms_json t) = 1.
Proof. destruct t as [l [|c co] [|g gr] [e|]]; (split; [repeat constructor|reflexivity]). Qed.

Lemma file_text_back es : parse_json (file_text es) = Some (coerce_json (JArray (map terms_json es))).
Proof.
  assert (text_ok (JArray (map terms_json es))) as Hj.
  { constructor. apply Forall_map, Forall_true. intros t. apply terms_json_ok. }
  assert (json_depth (JArray (map terms_json es)) <= 2) as Hd.
  { cbn [json_depth]. assert (foldr (fun x d => Z.max (json_depth x) d) 0 (map terms_json es) <= 1); [|lia].
    clear Hj. induction es as [|t es IH]; cbn [map foldr]; [lia|]. rewrite (proj2 (terms_json_ok t)). lia. }
  unfold parse_json, file_text, MarshalIndent. rewrite length_app.
  rewrite (comes_back_ok _ Hj O _ 0 [chr 10]); [reflexivity|right; right; right; reflexivity|lia|unfold maxNestingDepth; lia].
Qed.

Lemma mapM_all {A B} (f : A -> option B) l l' : Forall2 (fun x y => f x = Some y) l l' -> mapM f l = Some l'.
Proof. intros H. by apply mapM_Some. Qed.

Lemma terms_not_deferred t : existsb (fun kv => bool_decide (kv.1 ∈ deferredFields)) (present (terms_members t)) = false.
Proof. destruct t as [l [|c co] [|g gr] [e|]]; reflexivity. Qed.

(** What is written is read back as the rows it was written from. *)
Lemma Parse_file_text es : Forall terms_ok es -> Parse (file_text es) = Ok es.
Proof using times_back times_valid.
  intros Hes. unfold Parse. rewrite file_text_back. cbn [coerce_json rows_of mbind option_bind].
  assert (map coerce_json (map terms_json es) = map (fun t => JObject (present (terms_members t))) es) as E.
  { rewrite map_map. apply map_ext_Forall. eapply Forall_impl; [exact Hes|]. intros t Ht. unfold terms_json. by apply present_coerce, terms_members_valid. }
  rewrite E. rewrite (mapM_all members_of _ (map (fun t => present (terms_members t)) es)) by (clear E Hes; induction es; by constructor).
  assert (first_deferred (map (fun t => present (terms_members t)) es) = None) as ->.
  { unfold first_deferred. rewrite (proj2 (list_find_None _ _)); [done|]. apply Forall_map, Forall_true. intros t. rewrite terms_not_deferred. done. }
  rewrite <- E. rewrite (mapM_all decode_terms _ es); [done|]. clear E. induction Hes as [|t es Ht _ IH]; constructor; [by apply decode_terms_back|done].
Qed.

(** C20: The listener's view of its table file as rows is exact: a save replaces the file by bytes in which any later load
    finds those rows, none lost, merged or altered, and a save that is refused, because the file was written
    since it was read, or that fails, leaves every byte. *)
Theorem link_file_exact e f es m : Forall terms_ok es ->
  let s := Save e (rows_on_disk f) es m in
  let b := SaveFile e f es m in
  b.2 = s.2 /\ rows_on_disk b.1 = s.1 /\ (b.2 <> Ok tt -> b.1 = f) /\ (b.2 = Ok tt -> snd <$> f = m /\ rows_on_disk b.1 = Some (Some es, write_time e)).
Proof using times_back times_valid.
  intros Hes. cbn zeta. unfold Save, SaveFile.
  assert (snd <$> rows_on_disk f = snd <$> f) as -> by by destruct f. case_bool_decide as Hm; [|by split_and!].
  destruct (write_ok e); [|by split_and!]. cbn [fst snd rows_on_disk fmap option_fmap option_map]. rewrite Parse_file_text by done.
  by split_and!.
Qed.

(** A member that is not a field of a row has the file refused, at the deferred terms by name: a restriction that
    somebody wrote and the listener does not know never becomes a link without it. *)
Theorem no_term_dropped data es l : Parse data = Ok es -> parse_json data = Some (JArray l) ->
  length es = length l /\ forall i ms, l !! i = Some (JObject ms) -> forall key v, (key, v) ∈ ms -> known key = true /\ key ∉ deferredFields.
Proof.
  unfold Parse. intros HP Hj. rewrite Hj in HP. cbn [rows_of mbind option_bind] in HP. destruct (mapM members_of l) as [loose|] eqn:El; [|done].
  destruct (first_deferred loose) as [i|] eqn:Ed; [done|]. destruct (mapM decode_terms l) as [es'|] eqn:Ee; [|done]. injection HP as <-.
  apply mapM_Some in El, Ee. split; [symmetry; by eapply Forall2_length|]. intros i ms Hi key v Hkv. split.
  - destruct (Forall2_lookup_l _ _ _ _ _ Ee Hi) as (t & _ & Ht). unfold decode_terms in Ht. cbn [members_of mbind option_bind] in Ht.
    destruct (forallb _ ms) eqn:Ek; [|done]. rewrite forallb_forall in Ek. apply (Ek (key, v)). by apply list_elem_of_In.
  - destruct (Forall2_lookup_l _ _ _ _ _ El Hi) as (ms' & Hl & Hm). injection Hm as <-. unfold first_deferred in Ed.
    destruct (list_find _ loose) as [[k x]|] eqn:Ef; [done|]. apply list_find_None in Ef. rewrite Forall_forall in Ef.
    intros Hd. apply (Ef ms); [by eapply list_elem_of_lookup_2|]. apply existsb_exists. exists (key, v). split; [by apply list_elem_of_In|]. by apply bool_decide_eq_true.
Qed.

End Times.

(** * On paper *)

Lemma print_Z_valid z : utf8_valid (print_Z z).
Proof.
  assert (forall x, 0 < x -> utf8_valid (print_Z x)) as H.
  { intros x Hx. destruct (print_Z_digits x Hx) as (HF & _). induction HF as [|c l Hc _ IH]; [constructor|].
    apply utf8_valid_cons_ascii; [|exact IH]. unfold is_digit, between in Hc. apply andb_prop in Hc as [_ Hc]. apply Z.leb_le in Hc. lia. }
  destruct (Z.lt_trichotomy z 0) as [Hz|[->|Hz]]; [|apply plain_valid; unfold plain; match goal with |- ?P => apply (bool_decide_unpack P) end; by vm_compute|by apply H].
  rewrite <- (Z.opp_involutive z), print_Z_neg by lia. apply utf8_valid_cons_ascii; [done|]. apply H. lia.
Qed.

Definition two_rows : list Terms := [mkTerms $"ana" $"C1" [] (Some 50); mkTerms $"bob" [] $"files 'a b'" None].

Lemma link_file_exact_witness :
  (SaveFile print_Z (mkEnv 0 [] true 7) None two_rows None).2 = Ok tt /\
  rows_on_disk parse_signed (SaveFile print_Z (mkEnv 0 [] true 7) None two_rows None).1 = Some (Some two_rows, 7).
Proof.
  split; [reflexivity|].
  refine (proj2 (proj2 (proj2 (proj2 (link_file_exact print_Z parse_signed parse_signed_print print_Z_valid (mkEnv 0 [] true 7) None two_rows None _))) eq_refl)).
  repeat constructor; apply plain_valid; unfold plain; match goal with |- ?P => apply (bool_decide_unpack P) end; vm_compute; exact I.
Defined.

Lemma no_term_dropped_witness : exists es ms,
  Parse parse_signed (file_text print_Z two_rows) = Ok es /\ parse_json (file_text print_Z two_rows) = Some (JArray [JObject ms; coerce_json (terms_json print_Z (mkTerms $"bob" [] $"files 'a b'" None))]) /\
  forall key v, (key, v) ∈ ms -> known key = true /\ key ∉ deferredFields.
Proof.
  assert (exists es ms, Parse parse_signed (file_text print_Z two_rows) = Ok es /\
    parse_json (file_text print_Z two_rows) = Some (JArray [JObject ms; coerce_json (terms_json print_Z (mkTerms $"bob" [] $"files 'a b'" None))])) as (es & ms & E1 & E2)
    by (eexists _, _; split; [vm_compute; reflexivity|vm_compute; reflexivity]).
  exists es, ms. split; [exact E1|]. split; [exact E2|].
  destruct (no_term_dropped parse_signed (file_text print_Z two_rows) es _ E1 E2) as [_ H]. exact (H O ms eq_refl).
Defined.

Example link_Parse_sample :
  map (fun s => Parse parse_signed (json_text s))
    [$"null"; $"[null]"; $"[{'label':'a','LABEL':'b'}]"; $"[{'label':'a','Pin':'1'}]"; $"[{'label':'a'},{'pin':1}]"; $"[{'label':1}]"; $"{}"; $"[] []"; $"[{'expires':'5'}]"] =
  [Ok []; Ok [mkTerms [] [] [] None]; Ok [mkTerms $"b" [] [] None]; Err NotTerms; Err (Deferred 2); Err NotTerms; Err NotEntries; Err NotJSON;
   Ok [mkTerms [] [] [] (Some 5)]].
Proof. vm_compute. reflexivity. Qed.
