(* ===== verification/LinkCmd.v ===== *)
(** The editor's side of the link table (cmd/bitbang/link.go): link ls, edit, rm and qr over the files of a
    program, which a listener may write between any two of their calls. *)

From S2P Require Import Prelude GoLib Handshake Signaling Dial GoTime Json Wire JsonRoundTrip GoFlag Connect Tmux Identity Grant Links LinkState GrantDialog LinkFile.

(** * The command line *)

Record linkConfig := mkLinkConfig { program : bytes; server : bytes }.

Definition default_link : linkConfig := mkLinkConfig $"bitbang" default_server.

Definition link_formal (flag : bytes) : option bool :=
  if bool_decide (flag ∈ [$"program"; $"server"]) then Some false else None.

Definition link_set (flag value : bytes) (c : linkConfig) : option linkConfig :=
  Some (if bool_decide (flag = $"program") then mkLinkConfig value (server c) else mkLinkConfig (program c) value).

Definition linkFlagsFull (args : list bytes) : result flag_error (linkConfig * list bytes) :=
  GoFlag.Parse link_formal link_set (reorderArgs link_formal args) default_link.

Inductive link_command := LinkUsage | LinkLs (rest : list bytes) | LinkEdit (rest : list bytes) | LinkRm (rest : list bytes) | LinkQR (rest : list bytes) | LinkHelp | LinkUnknown (name : bytes).

Definition dispatchLink (args : list bytes) : link_command :=
  match args with
  | [] => LinkUsage
  | cmd :: rest =>
    if bool_decide (cmd = $"ls") then LinkLs rest
    else if bool_decide (cmd = $"edit") then LinkEdit rest
    else if bool_decide (cmd = $"rm") then LinkRm rest
    else if bool_decide (cmd = $"qr") then LinkQR rest
    else if bool_decide (cmd ∈ [$"help"; $"--help"; $"-h"]) then LinkHelp
    else LinkUnknown cmd
  end.

(** * The listing *)

Definition RuneCount (s : bytes) : nat := length (runes (length s) s).

(** [%-*s]: padded to a width in runes. *)
Definition pad (w : nat) (s : bytes) : bytes := s ++ replicate (w - RuneCount s) (chr 32).

Definition grantOf (e : Terms) : bytes := match GrantText e with [] => $"(everything served)" | g => g end.

Definition linkURL (server uid : bytes) (e : Terms) : bytes :=
  match Code e, uid with
  | [], _ => $"(no code until renewed)"
  | c, [] => c
  | c, _ => $"https://" ++ server ++ $"/" ++ uid ++ $"#" ++ c
  end.

(** The widest of the texts, in bytes. *)
Definition widest (l : list bytes) : nat := foldr (fun s w => Nat.max (length s) w) O l.

Definition listing_columns (labelW grantW : nat) (e : Terms) (now : Time) : bytes :=
  $"  " ++ pad labelW (Label e) ++ $"  " ++ pad grantW (grantOf e) ++ $"  " ++ pad 14 (expiryNote e now) ++ $"  ".

Definition renderLinkListing (es : list Terms) (server uid : bytes) (now : Time) : bytes :=
  flat_map (fun e => listing_columns (widest (map Label es)) (widest (map grantOf es)) e now ++ linkURL server uid e ++ [chr 10]) es.

(** * The files of a program *)

(** The directory of a program: its identity, and the table with its modification time. *)
Record program_dir := mkDir { identity_pem : on_disk; links_json : option (bytes * Time) }.

#[export] Instance eta_program_dir : Eta program_dir := fun d => mkDir (identity_pem d) (links_json d).

(** The directories under ~/.bitbang, in the order of their names. *)
Abbreviation bitbang_home := (list (bytes * program_dir)) (only parsing).

Definition programsWithTables (h : bitbang_home) : list bytes :=
  map fst (List.filter (fun d => match links_json d.2 with Some _ => true | None => false end) h).

Inductive link_failure :=
| BadFlags (e : flag_error) | Unexpected (arg : bytes) | NotALabel | OwnerKept | TableError (e : state_error) | NoSuchLink (label : bytes)
| NoIdentity | IdentityFailed (e : identity_error) | NotMinted (label : bytes) | CannotCreate | EditorFailed | Invalid (e : link_error).

Inductive listing := NoLinks (others : list bytes) | Rows (text : bytes).

Section Commands.
Context {key : Type}.
Variable MarshalPKIX MarshalPKCS8 : key -> option bytes.
Variable ParsePKCS8 : bytes -> option (option key).
Variable EncodePEM : bytes -> bytes -> bytes.
Variable blocks : bytes -> list (bytes * bytes).
Variable print_time : Time -> bytes.
Variable parse_time : bytes -> option Time.

Abbreviation identity_load := (Identity.Load MarshalPKIX MarshalPKCS8 ParsePKCS8 EncodePEM blocks false) (only parsing).

Definition Load_table (d : program_dir) : result link_failure (list Terms * option Time) :=
  match LinkState.Load (rows_on_disk parse_time (links_json d)) with Ok r => Ok r | Err e => Err (TableError e) end.

(** The one row a command is given. *)
Definition one_label (args : list bytes) : result link_failure (linkConfig * bytes) :=
  match linkFlagsFull args with
  | Err e => Err (BadFlags e)
  | Ok (c, [label]) => Ok (c, label)
  | Ok _ => Err NotALabel
  end.

Definition no_more_args (args : list bytes) : result link_failure linkConfig :=
  match linkFlagsFull args with
  | Err e => Err (BadFlags e)
  | Ok (c, a :: _) => Err (Unexpected a)
  | Ok (c, []) => Ok c
  end.

(** [runLinkLs], on the directory of the program it names: what it prints, and what it leaves there. An identity
    is loaded for its UID, so one is made where there is none. *)
Definition runLinkLs (c : linkConfig) (h : bitbang_home) (e : drawn key) (now : Time) (d : program_dir) : result link_failure listing * program_dir :=
  match Load_table d with
  | Err err => (Err err, d)
  | Ok ([], _) => (Ok (NoLinks (programsWithTables h)), d)
  | Ok (es, _) =>
    let '(id, f) := identity_load e (identity_pem d) in
    let uid := match id with Ok id => Identity.UID id | Err _ => [] end in
    (Ok (Rows (renderLinkListing es (server c) uid now)), d <| identity_pem := f |>)
  end.

(** [loadForEdit] and what follows it in [runLinkRm]; [meanwhile] is what others do to the directory between the
    load and the save. *)
Definition runLinkRm (label : bytes) (e : env) (meanwhile : program_dir -> program_dir) (d : program_dir) : result link_failure unit * program_dir :=
  if bool_decide (label = OwnerLabel) then (Err OwnerKept, d) else
  match Load_table d with
  | Err err => (Err err, d)
  | Ok (es, m) =>
    let kept := List.filter (fun x => bool_decide (Label x <> label)) es in
    if negb (existsb (fun x => bool_decide (Label x = label)) es) then (Err (NoSuchLink label), d) else
    let d := meanwhile d in
    let '(f, r) := SaveFile print_time e (links_json d) kept m in
    (match r with Ok _ => Ok tt | Err err => Err (TableError err) end, d <| links_json := f |>)
  end.

(** [runLinkQR]: the URL whose QR code is printed. The last row of the label counts. *)
Definition runLinkQR (c : linkConfig) (label : bytes) (e : drawn key) (d : program_dir) : result link_failure bytes * program_dir :=
  match identity_pem d with
  | Missing => (Err NoIdentity, d)
  | _ =>
    let '(id, f) := identity_load e (identity_pem d) in
    let d := d <| identity_pem := f |> in
    match id with
    | Err err => (Err (IdentityFailed err), d)
    | Ok id =>
      let url code := $"https://" ++ server c ++ $"/" ++ Identity.UID id ++ $"#" ++ code in
      if bool_decide (label = OwnerLabel) then (Ok (url (Identity.Code id)), d) else
      match Load_table d with
      | Err err => (Err err, d)
      | Ok (es, _) =>
        match foldl (fun code x => if bool_decide (Label x = label) then Code x else code) [] es with
        | [] => (Err (NotMinted label), d)
        | code => (Ok (url code), d)
        end
      end
    end
  end.

(** [validateTable]: the checks of the listener's start. *)
Definition validateTable (cwd : bytes) (d : program_dir) : result link_failure unit :=
  let! r := Load_table d in
  match Build cwd r.1 Grant.Everything $"placeholder" with Ok _ => Ok tt | Err e => Err (Invalid e) end.

(** What [runLinkEdit] puts where there is no table; [date] is a week from now in RFC 3339. *)
Definition seed (date : bytes) : bytes :=
  let q := [chr 34] in let nl := [chr 10] in
  $"[" ++ nl ++ $"  {" ++ nl ++
  $"    " ++ q ++ $"label" ++ q ++ $": " ++ q ++ $"example" ++ q ++ $"," ++ nl ++
  $"    " ++ q ++ $"scope" ++ q ++ $": [" ++ q ++ $"files" ++ q ++ $"]," ++ nl ++
  $"    " ++ q ++ $"expires" ++ q ++ $": " ++ q ++ date ++ q ++ nl ++
  $"  }" ++ nl ++ $"]" ++ nl.

(** [runLinkEdit]: [editor] is what the user does to the file, and whether the editor exits well. *)
Definition runLinkEdit (cwd date : bytes) (stamp : Time) (mkdir_ok seed_ok : bool) (editor : program_dir -> program_dir * bool)
  (d : program_dir) : result link_failure unit * program_dir :=
  if negb mkdir_ok then (Err CannotCreate, d) else
  let seeded := match links_json d with
                | Some _ => Some d
                | None => if seed_ok then Some (d <| links_json := Some (seed date, stamp) |>) else None
                end in
  match seeded with
  | None => (Err CannotCreate, d)
  | Some d =>
    let '(d, ok) := editor d in
    if negb ok then (Err EditorFailed, d) else (validateTable cwd d, d)
  end.

End Commands.

Example dispatchLink_sample :
  (dispatchLink [$"rm"; $"x"], dispatchLink [$"RM"], dispatchLink [], linkFlagsFull [$"ana"; $"--program"; $"nas"; $"-server=h"; $"bob"]) =
  (LinkRm [$"x"], LinkUnknown $"RM", LinkUsage, Ok (mkLinkConfig $"nas" $"h", [$"ana"; $"bob"])).
Proof. vm_compute. reflexivity. Qed.

Example renderLinkListing_sample :
  renderLinkListing [mkTerms $"ana" $"C1" $"files" (Some (3 * Hour)); mkTerms $"b" [] [] None] $"bitba.ng" $"UID" 0 =
  $"  ana  files                expires in 3h   https://bitba.ng/UID#C1" ++ [chr 10] ++
  $"  b    (everything served)                  (no code until renewed)" ++ [chr 10].
Proof. vm_compute. reflexivity. Qed.

(** What the link commands promise: link rm against a listener that writes the file as well and one that reads it
    next, the URLs of link ls and link qr, and where the commands fall short. *)

(** * Removing a link *)

Section Remove.
Variable cwd : bytes.
Variable print_time : Time -> bytes.
Variable parse_time : bytes -> option Time.
Hypothesis times_back : forall t, parse_time (print_time t) = Some t.
Hypothesis times_valid : forall t, utf8_valid (print_time t).

Definition rows (d : program_dir) : list Terms := match rows_on_disk parse_time (links_json d) with Some (Some es, _) => es | _ => [] end.

Lemma Load_table_rows d es m : Load_table parse_time d = Ok (es, m) -> es = rows d /\ m = snd <$> links_json d.
Proof.
  unfold Load_table, LinkState.Load, rows. destruct (links_json d) as [[data t]|]; [|by intros [= <- <-]]. cbn [rows_on_disk fmap option_fmap option_map fst snd].
  destruct (Parse parse_time data) as [l|]; [|done]. destruct (Validate l); [|done]. by intros [= <- <-].
Qed.

Definition without (label : bytes) (es : list Terms) : list Terms := List.filter (fun x => bool_decide (Label x <> label)) es.

Lemma elem_of_without label es x : x ∈ without label es <-> Label x <> label /\ x ∈ es.
Proof. unfold without. rewrite !list_elem_of_In, filter_In, bool_decide_eq_true. tauto. Qed.

(** What a removal did, and what it did not do. *)
Lemma runLinkRm_cases label e meanwhile d r d' : Forall terms_ok (rows d) -> runLinkRm print_time parse_time label e meanwhile d = (r, d') ->
  match r with
  | Ok _ => label <> OwnerLabel /\ (exists x, x ∈ rows d /\ Label x = label) /\ rows d' = without label (rows d) /\
            snd <$> links_json (meanwhile d) = snd <$> links_json d
  | Err _ => d' = d \/ d' = meanwhile d
  end.
Proof using times_back times_valid.
  intros Hok. unfold runLinkRm. case_bool_decide as Ho; [by intros [= <- <-]; left|].
  destruct (Load_table parse_time d) as [[es m]|err] eqn:El; [|by intros [= <- <-]; left]. apply Load_table_rows in El as [-> ->].
  destruct (existsb _ (rows d)) eqn:Ex; cbn [negb]; [|by intros [= <- <-]; left].
  unfold SaveFile. case_bool_decide as Hm; [|intros [= <- <-]; right; by destruct (meanwhile d)].
  destruct (write_ok e); [|intros [= <- <-]; right; by destruct (meanwhile d)]. intros [= <- <-]. cbn [links_json upd].
  split; [done|]. split; [apply existsb_exists in Ex as (x & Hx & Hl); exists x; split; [by apply list_elem_of_In|by apply bool_decide_eq_true in Hl]|].
  split; [|done]. fold (without label (rows d)). set (es := rows d) in *.
  unfold rows. cbn [rows_on_disk fmap option_fmap option_map fst snd links_json].
  rewrite (Parse_file_text _ _ times_back times_valid); [done|]. rewrite Forall_forall in Hok |- *. intros x [_ Hx]%elem_of_without. by apply Hok.
Qed.

(** C16: Removing a link with `link rm` revokes it, whatever a listener does to the same file between the command's
    reading and writing it: once the command reports success, the next reload that takes up its file keeps every other
    row and installs a table where nobody has the label and the code of the removed link opens nothing, and the poll
    then keeps no session that presented that code. No other row is a copy of its code. *)
Theorem link_rm_revokes label e meanwhile d d' x e' s s' t :
  Forall terms_ok (rows d) -> runLinkRm print_time parse_time label e meanwhile d = (Ok tt, d') ->
  disk s = rows_on_disk parse_time (links_json d') -> readOnly s = false -> fresh (lsCode s) (rows d) (supply e') ->
  reload cwd e' s = (s', Ok tt) -> table s' = Some t ->
  x ∈ rows d -> Label x = label -> Code x <> [] -> Code x <> lsCode s ->
  (forall y, y ∈ rows d -> Code y = Code x -> Label y = label) ->
  (forall y, y ∈ rows d -> Label y <> label -> exists y', y' ∈ entries t /\ same_row y y') /\
  ByLabel t label = None /\ (forall n, Authorize t (Code x) n = None) /\ forall n l had, l <> [] -> Code had = Code x -> poll_peer cwd t n l had <> Keep.
Proof using times_back times_valid.
  intros Hok Hrm Hd Hro Hf Hr Ht Hx Hl Hne Hc Huniq. destruct (runLinkRm_cases _ _ _ _ _ _ Hok Hrm) as (Ho & _ & Hrows & _).
  assert (disk_rows s = without label (rows d)) as Hdr by (unfold disk_rows; by rewrite Hd).
  assert (fresh (lsCode s) (disk_rows s) (supply e')) as Hf'.
  { rewrite Hdr. eapply fresh_sub; [exact Hf|]. intros y [_ Hy]%elem_of_without _. apply list_elem_of_fmap. by exists y. }
  destruct (reload_cases _ _ _ _ _ Hf' Hr) as (es & es' & Hes & Hi & _). specialize (Hes Hro). subst es. rewrite Hdr in Hi.
  pose proof Hi as (_ & Hh & t' & Ht' & [He _ _]). rewrite Ht' in Ht. injection Ht as ->.
  assert (Code x ∉ codes es') as Hni.
  { intros Hin. destruct (honest_source _ _ _ _ Hh _ Hin) as [(y & Hy & [Hyl Hyin]%elem_of_without)%list_elem_of_fmap|Hs].
    - by apply Hyl, Huniq.
    - destruct (fresh_new _ _ _ Hf _ Hs) as (_ & _ & Hno). apply Hno, list_elem_of_fmap. by exists x. }
  destruct (dead_code _ _ _ _ _ _ _ Hi Ht' Hc Hni) as [Hb Ha]. split_and!; [| |done|].
  - intros y Hy Hyl. assert (y ∈ without label (rows d)) as (i & Hi')%list_elem_of_lookup by by apply elem_of_without.
    destruct (Forall2_lookup_l _ _ _ _ _ (honest_rows _ _ _ _ Hh) Hi') as (y' & Hy' & Hs). exists y'. split; [|done].
    rewrite He. right. by eapply list_elem_of_lookup_2.
  - unfold ByLabel. destruct (list_find _ _) as [[i y]|] eqn:Ef; [|done]. apply list_find_Some in Ef as (Hy & Hly & _).
    exfalso. apply list_elem_of_lookup_2 in Hy. rewrite He in Hy. apply elem_of_cons in Hy as [->|Hy]; [done|].
    apply list_elem_of_lookup in Hy as [j Hy]. destruct (Forall2_lookup_r _ _ _ _ _ (honest_rows _ _ _ _ Hh) Hy) as (z & Hz & Hlz & _).
    apply list_elem_of_lookup_2, elem_of_without in Hz as [Hz _]. congruence.
  - intros n l had Hne' Hcode. unfold poll_peer. destruct l; [done|]. by rewrite Hcode, Hb.
Qed.

End Remove.

(** * The URLs *)

Lemma enc6_code_byte (z : Z) : 0 <= z < 64 -> isCodeByte (url_char64 (enc6 z)) = true.
Proof. revert z. apply sextets. intros n Hn. do 64 (destruct n as [|n]; [vm_compute; reflexivity|]). lia. Qed.

Lemma RawURL_code_bytes s : Forall (fun c => isCodeByte c = true) (RawURL s).
Proof. destruct (RawURL_body s) as (zs & Hz & -> & _). apply Forall_map. eapply Forall_impl; [exact Hz|]. exact enc6_code_byte. Qed.

Section URLs.
Context {key : Type}.
Variable MarshalPKIX MarshalPKCS8 : key -> option bytes.
Variable ParsePKCS8 : bytes -> option (option key).
Variable EncodePEM : bytes -> bytes -> bytes.
Variable blocks : bytes -> list (bytes * bytes).
Variable print_time : Time -> bytes.
Variable parse_time : bytes -> option Time.

Abbreviation runLinkQR' := (runLinkQR MarshalPKIX MarshalPKCS8 ParsePKCS8 EncodePEM blocks parse_time) (only parsing).
Abbreviation runLinkLs' := (runLinkLs MarshalPKIX MarshalPKCS8 ParsePKCS8 EncodePEM blocks parse_time) (only parsing).

Lemma identity_ids e f id f' : draws_eight e -> Identity.Load MarshalPKIX MarshalPKCS8 ParsePKCS8 EncodePEM blocks false e f = (Ok id, f') ->
  id_text (Identity.UID id) /\ Forall (fun c => isCodeByte c = true) (Identity.Code id).
Proof.
  intros He H. assert (well_made MarshalPKIX id) as [(der & _ & _ & <-) (raw & _ & ->)].
  { unfold Identity.Load in H. destruct f as [| |data]; [| |injection H as H _; by eapply fromPEM_made];
      (destruct (generate _ e) as [i|] eqn:Eg; [|done]; assert (i = id) as -> by (destruct (d_dir e); [|done]; cbn [negb] in H; destruct (toPEM _ _ _ _); [|done]; destruct (d_write e); congruence);
       by eapply generate_made). }
  split; [|apply RawURL_code_bytes]. unfold uidFromPubkeyDER. split; [|apply RawURL_code_bytes]. intros Hn.
  pose proof (length_RawURL (take 16 (Sha256.Sum256 der))) as L. rewrite Hn, length_take, Sha256.length_Sum256 in L. vm_compute in L. lia.
Qed.

(** The last row of a label, which link qr prints. *)
Lemma last_code label es code : code <> [] -> foldl (fun code x => if bool_decide (Label x = label) then Code x else code) [] es = code ->
  exists x, x ∈ es /\ Label x = label /\ Code x = code.
Proof.
  induction es as [|x es IH] using rev_ind; [by intros ? <-|].
  rewrite foldl_app. cbn [foldl]. intros Hne. case_bool_decide as Hl.
  - intros <-. exists x. split; [|done]. rewrite elem_of_app. right. by apply list_elem_of_singleton.
  - intros H. destruct (IH Hne H) as (y & Hy & Hl' & Hc). exists y. split; [|done]. apply elem_of_app. by left.
Qed.

(** What link qr prints is a URL that the connector reads as this device with the code of a row of that label, the
    identity's own for the owner; the same URL link ls prints for that row. *)
Theorem link_qr_connects c label e d url d' :
  draws_eight e -> server_text (server c) -> Forall (fun x => forallb isCodeByte (Code x) = true) (rows parse_time d) ->
  runLinkQR' c label e d = (Ok url, d') ->
  exists uid code, parseConnectURL url = Some (Connect.mkSpec (server c) uid code [] false) /\
    (label <> OwnerLabel -> exists x, x ∈ rows parse_time d /\ Label x = label /\ Code x = code /\ linkURL (server c) uid x = url).
Proof.
  intros He Hs Hrows. unfold runLinkQR. intros H.
  assert (exists id, (Identity.Load MarshalPKIX MarshalPKCS8 ParsePKCS8 EncodePEM blocks false e (identity_pem d)).1 = Ok id /\
    (label = OwnerLabel /\ url = $"https://" ++ server c ++ $"/" ++ Identity.UID id ++ $"#" ++ Identity.Code id \/
     label <> OwnerLabel /\ exists x, x ∈ rows parse_time d /\ Label x = label /\ Code x <> [] /\ url = $"https://" ++ server c ++ $"/" ++ Identity.UID id ++ $"#" ++ Code x)) as (id & Hid & Hurl).
  { destruct (Identity.Load _ _ _ _ _ false e (identity_pem d)) as [r f]. destruct (identity_pem d); [done|..];
      (destruct r as [id|]; [|done]; exists id; split; [done|]; case_bool_decide as Hl; [left; split; [done|by injection H as <- _]|right; split; [done|]];
       destruct (Load_table parse_time _) as [[es m]|] eqn:El; [|done]; apply Load_table_rows in El as [-> _];
       destruct (foldl _ [] _) as [|k ks] eqn:Ef; [done|]; injection H as <- _;
       destruct (last_code label _ (k :: ks) ltac:(done) Ef) as (x & Hx & Hlx & Hcx); exists x; split_and!; [exact Hx|done|by rewrite Hcx|by rewrite Hcx]). }
  destruct (Identity.Load _ _ _ _ _ false e (identity_pem d)) as [r f] eqn:El. cbn [fst] in Hid. subst r.
  destruct (identity_ids e _ id f He El) as [Hu Hc].
  assert (forall code, forallb isCodeByte code = true -> parseConnectURL ($"https://" ++ server c ++ $"/" ++ Identity.UID id ++ $"#" ++ code) = Some (Connect.mkSpec (server c) (Identity.UID id) code [] false)) as HP.
  { intros code Hcode. pose proof (printed_url_connects (Devices.mkHome None true true) (server c) (Identity.UID id) code false false [] Hs Hu Hcode) as (H1 & _).
    unfold CodeURL, fragment in H1. cbn [URLFlags app] in H1. by rewrite app_nil_r in H1. }
  destruct Hurl as [[-> ->]|[Hl (x & Hx & Hlx & Hne & ->)]].
  - exists (Identity.UID id), (Identity.Code id). split; [|done]. apply HP. rewrite forallb_forall. rewrite Forall_forall in Hc. intros k Hk. apply Hc. by apply list_elem_of_In.
  - exists (Identity.UID id), (Code x). rewrite Forall_forall in Hrows. split; [by apply HP, Hrows|]. intros _. exists x. split_and!; [done|done|done|].
    unfold linkURL. destruct (Code x) as [|k ks]; [done|]. destruct (Identity.UID id) eqn:Eu; [|done]. by destruct Hu.
Qed.

(** * Where the commands fall short *)

(** Listing links is documented to fall back to the bare codes where there is no identity; it makes one and saves
    it. *)
Lemma ls_makes_identity c h e now data t x es id pem : Load_table parse_time (mkDir Missing (Some (data, t))) = Ok (x :: es, Some t) ->
  generate MarshalPKIX e = Ok id -> d_dir e = true -> d_write e = None -> toPEM MarshalPKCS8 EncodePEM (PrivateKey id) (Identity.Code id) = Ok pem ->
  (runLinkLs' c h e now (mkDir Missing (Some (data, t)))).2 = mkDir (Holding pem) (Some (data, t)).
Proof. intros Hl Hg Hd Hw Hp. unfold runLinkLs. rewrite Hl. cbn [identity_pem]. unfold Identity.Load. by rewrite Hg, Hd, Hp, Hw. Qed.

(** What link edit puts into a new table is in the schema of a release candidate, which is refused: saved as it
    stands, it keeps the listener from starting. *)
Lemma edit_seed_refused cwd stamp : exists text,
  runLinkEdit parse_time cwd $"2026-01-08T00:00:00Z" stamp true true (fun d => (d, true)) (mkDir Missing None) =
    (Err (TableError Unparsable), mkDir Missing (Some (text, stamp))) /\ Parse parse_time text = Err (Deferred 1).
Proof. exists (seed $"2026-01-08T00:00:00Z"). split; vm_compute; reflexivity. Qed.

End URLs.

(** * On paper *)

Definition paper_rows : list Terms := [mkTerms $"ana" $"C1" $"files" None; mkTerms $"bob" $"C2" [] (Some 900)].
Definition paper_dir : program_dir := mkDir Missing (Some (file_text print_Z paper_rows, 5)).
Definition paper_env : env := mkEnv 10 [] true 6.

(** A removal, the reload that follows it, and what can be read off the two. *)
Lemma paper_removal : exists d' s' t,
  runLinkRm print_Z parse_signed $"bob" paper_env id paper_dir = (Ok tt, d') /\
  reload $"/" second_env (start_state <| disk := rows_on_disk parse_signed (links_json d') |>) = (s', Ok tt) /\ table s' = Some t /\
  is_Some (Authorize t $"C1" 200).
Proof.
  destruct (runLinkRm print_Z parse_signed $"bob" paper_env id paper_dir) as [[[]|] d'] eqn:E; [|exfalso; revert E; vm_compute; discriminate].
  vm_compute in E. injection E as <-. eexists _, _, _. split; [reflexivity|]. split; [vm_compute; reflexivity|]. split; [reflexivity|].
  vm_compute. by eexists.
Qed.

Lemma link_rm_revokes_witness : exists d' s' t,
  runLinkRm print_Z parse_signed $"bob" paper_env id paper_dir = (Ok tt, d') /\
  reload $"/" second_env (start_state <| disk := rows_on_disk parse_signed (links_json d') |>) = (s', Ok tt) /\ table s' = Some t /\
  is_Some (Authorize t $"C1" 200) /\ forall n, Authorize t $"C2" n = None.
Proof.
  destruct paper_removal as (d' & s' & t & Hrm & Hr & Ht & Ha). exists d', s', t. split; [exact Hrm|]. split; [exact Hr|]. split; [exact Ht|]. split; [exact Ha|].
  assert (rows parse_signed paper_dir = paper_rows) as Hrows by (vm_compute; reflexivity).
  refine (proj1 (proj2 (proj2 (link_rm_revokes $"/" print_Z parse_signed parse_signed_print print_Z_valid $"bob" paper_env id paper_dir d' (mkTerms $"bob" $"C2" [] (Some 900))
    second_env (start_state <| disk := rows_on_disk parse_signed (links_json d') |>) s' t _ Hrm eq_refl eq_refl _ Hr Ht _ eq_refl _ _ _)))).
  - rewrite Hrows. repeat constructor; apply plain_valid; unfold plain; match goal with |- ?P => apply (bool_decide_unpack P) end; vm_compute; exact I.
  - rewrite Hrows. apply fresh_intro; apply (bool_decide_unpack _); vm_compute; exact I.
  - rewrite Hrows. right. left.
  - discriminate.
  - discriminate.
  - rewrite Hrows. assert (Forall (fun y => Code y = $"C2" -> Label y = $"bob") paper_rows) as HF by (apply Forall_cons; split; [discriminate|]; apply Forall_cons; split; [intros _; reflexivity|constructor]).
    rewrite Forall_forall in HF. exact HF.
Defined.
