(* ===== verification/PeerLife.v ===== *)
(** The life of a peer connection on the device (internal/peer/connection.go): its set-up from a request or a pair
    request, the callbacks of WebRTC, the two halves of an answer, the queue between the data channel and the
    pairing handshake, and teardown. Handshake.v has the checks and Pairing.v the handshake; here they run among
    the callbacks, in whatever order these come. WebRTC is an input. *)

From S2P Require Import Prelude GoLib Wire Json GoTime Signaling Ice Pairing Handshake.

(** * Set-up *)

Definition relayAcceptanceMinWait : Z := 8 * Second.
Definition iceMaxBindingRequests : Z := 40.

(** [relayWaitFor]: a request that forces the relay is not made to wait for a direct path. *)
Definition relayWaitFor (msg : message) : Z :=
  match member $"force_relay" msg with Some (JBool true) => 0 | _ => relayAcceptanceMinWait end.

(** The two flows; a pairing has no code and no browser behind it. *)
Inductive flow := Regular (browserIP : bytes) | Pairing.

(** The states of a peer connection. *)
Inductive pc_state := StateNew | StateConnecting | StateConnected | StateDisconnected | StateFailed | StateClosed.

(** Where the handshake of a pairing is: its data channel has not opened, a frame is awaited (after the commitment
    and with the nonce of the challenge), or it has returned. *)
Inductive stage := NotOpen | AwaitCommit | AwaitReveal (commit rd : bytes) | Ended.

Record peerConn := mkPeer {
  p_client : bytes; p_flow : flow; p_core : Connection;
  p_ice : list ICEServer; p_wait : Z;
  p_local : bytes; p_remote : option bytes; p_checking : option (bytes * bytes); p_added : list CandidateInit_;
  p_dcClosed : bool; p_pcClosed : bool;
  p_dcInbox : list bytes; p_delivered : list bytes; p_stage : stage; p_actions : list device_action;
  p_sent : list message;
  p_arrived : list bytes; p_reads : list (option bytes); p_installed : bool
}.
(** [p_sent]: what went to signaling. [p_delivered]: what [OnMessage] was called with. [p_actions]: what the
    handshake did. Three fields are only looked at: the frames that arrived, what each wait of the handshake
    returned, and whether the listener has installed a callback. *)

#[export] Instance eta_peerConn : Eta peerConn := fun p =>
  mkPeer (p_client p) (p_flow p) (p_core p) (p_ice p) (p_wait p) (p_local p) (p_remote p) (p_checking p) (p_added p)
    (p_dcClosed p) (p_pcClosed p) (p_dcInbox p) (p_delivered p) (p_stage p) (p_actions p) (p_sent p) (p_arrived p) (p_reads p) (p_installed p).

Definition inbox_places : nat := 8.

Definition candidate_message (client : bytes) (c : message) : message :=
  [($"type", JString $"candidate"); ($"client_id", JString client); ($"candidate", JObject c)].
Definition offer_message (client sdp : bytes) : message :=
  [($"type", JString $"offer"); ($"client_id", JString client); ($"sdp", JString sdp); ($"streams", JObject [])].
Definition approved_message (client : bytes) : message := [($"type", JString $"pair_approved"); ($"client_id", JString client)].
Definition rejected_message (client reason : bytes) : message :=
  [($"type", JString $"pair_rejected"); ($"client_id", JString client); ($"reason", JString reason)].

Inductive setup_error := NoClientID | NoPeerConnection | NoDataChannel | NoOffer | NoLocalDescription.

(** What WebRTC makes of a set-up: which of its four calls succeed, the description, and the candidates it gathers
    before the offer is on its way. *)
Record webrtc := mkWebRTC { pc_made : bool; dc_made : bool; offer_made : bool; local_set : option bytes; early : list message }.

(** [setupConnection]: the connection, or the error and whether a peer connection was made and closed. *)
Definition setupConnection (client : bytes) (msg : message) (f : flow) (w : webrtc) : result (setup_error * bool) peerConn :=
  if negb (pc_made w) then Err (NoPeerConnection, false)
  else if negb (dc_made w) then Err (NoDataChannel, true)
  else if negb (offer_made w) then Err (NoOffer, true)
  else match local_set w with
       | None => Err (NoLocalDescription, true)
       | Some sdp =>
         Ok (mkPeer client f NewConnection (FromMessage msg) (relayWaitFor msg) sdp None None [] false false [] [] NotOpen []
               (map (candidate_message client) (early w) ++ [offer_message client sdp]) [] [] false)
       end.

Definition text_of (name : bytes) (msg : message) : bytes := default [] (string_member name msg).

Definition HandleRequest (msg : message) (w : webrtc) : result (setup_error * bool) peerConn :=
  match text_of $"client_id" msg with
  | [] => Err (NoClientID, false)
  | client => setupConnection client msg (Regular (text_of $"browser_ip" msg)) w
  end.

Definition HandlePairRequest (msg : message) (w : webrtc) : result (setup_error * bool) peerConn :=
  match text_of $"client_id" msg with
  | [] => Err (NoClientID, false)
  | client => setupConnection client msg Pairing w
  end.

(** * Closing *)

(** [Close], and what the callbacks for a closed channel and for a terminal state do. *)
Definition Close (p : peerConn) : peerConn := p <| p_core := fireClose (p_core p) |> <| p_pcClosed := true |>.

Definition send (m : message) (p : peerConn) : peerConn := p <| p_sent := p_sent p ++ [m] |>.

(** * The handshake of a pairing, in its two waits *)

(** One action of the handshake. *)
Definition perform (a : device_action) (p : peerConn) : peerConn :=
  let p := p <| p_actions := p_actions p ++ [a] |> in
  match a with
  | PairRejected reason => send (rejected_message (p_client p) reason) p
  | PairApproved => send (approved_message (p_client p)) p
  | CloseConnection => Close p
  | SendDC _ | PairDone => p
  end.

Definition perform_all (l : list device_action) (p : peerConn) : peerConn := foldl (fun p a => perform a p) p l.

(** From the commitment to the challenge; what the reveal has to open. *)
Definition commit_phase (r : device_run) (frame : option bytes) : list device_action * option (bytes * bytes) :=
  match frame with
  | None => (reject $"timeout", None)
  | Some data =>
    if negb (bool_decide (PairMessageType data = MsgPairCommit)) then (reject $"timeout", None) else
    match ParsePairCommit data with
    | None => (reject $"user_declined", None)
    | Some commit =>
      match drawn r with
      | None => (reject $"user_declined", None)
      | Some rd => if challenge_sent r then ([SendDC (BuildPairChallenge rd)], Some (commit, rd)) else ([CloseConnection; PairDone], None)
      end
    end
  end.

(** From the reveal to the end. *)
Definition reveal_phase (r : device_run) (fps : bytes * bytes) (commit rd : bytes) (frame : option bytes) : list device_action :=
  match frame with
  | None => reject $"timeout"
  | Some data =>
    if negb (bool_decide (PairMessageType data = MsgPairReveal)) then reject $"timeout" else
    match ParsePairReveal data with
    | None => reject $"sas_mismatch"
    | Some rc =>
      if negb (VerifyCommitment commit rc) then reject $"sas_mismatch" else
      match PromptForSAS (ComputeSAS rc rd fps.1 fps.2) (prompt r) with
      | Some reason => reject reason
      | None =>
        match (match grant_hook r with None => Some (dev_code r) | Some g => g end) with
        | None => reject $"user_declined"
        | Some code => [SendDC (BuildPairCredentials (dev_uid r) (dev_public r) code); PairApproved; CloseConnection; PairDone]
        end
      end
    end
  end.

(** The fingerprints of the two descriptions. *)
Definition fingerprints (p : peerConn) : bytes * bytes := (ExtractFingerprint (p_local p), ExtractFingerprint (default [] (p_remote p))).

(** * The callbacks *)

Inductive event :=
| Opens (sends : bool) | Receives (data : bytes) | ChannelCloses | State (s : pc_state) | Gathers (c : option message)
| Answers (ok : bool) (sdp enc : bytes) | Checks | Adds (ok : bool) (data : message)
| Installs (fn : bool) | Closes
| Waits (timeout : bool).

Section Life.
(** The device's private key operation, the check of a code, the identity's own code, and the handshake's world,
    whose fingerprints and frames are those of the connection. *)
Variable Decrypt : bytes -> option bytes.
Variable Authorize : option (bytes -> option bytes).
Variable own_code : bytes.
Variable world : device_run.

(** [recvDC] returns: the next frame, or none where its timer fires; the two may race. *)
Definition recvDC (timeout : bool) (p : peerConn) : option (option bytes * peerConn) :=
  match timeout, p_dcInbox p with
  | true, _ => Some (None, p <| p_reads := p_reads p ++ [None] |>)
  | false, f :: r => Some (Some f, p <| p_dcInbox := r |> <| p_reads := p_reads p ++ [Some f] |>)
  | false, [] => None
  end.

(** Whether the nonce reply of [handleRequestOnOpen] goes out; the connection is closed where it does not. *)
Definition replies (sends : bool) (c : Connection) : bool := negb (verifyFailed c) && bool_decide (is_Some (conn_nonce c)) && sends.

(** [dc.OnOpen], which WebRTC calls once, when both descriptions are set. *)
Definition on_open (sends : bool) (p : peerConn) : peerConn :=
  match p_flow p with
  | Regular _ =>
    p <| p_pcClosed := p_pcClosed p || negb (replies sends (p_core p)) |> <| p_core := handleRequestOnOpen sends (p_core p) |> <| p_stage := Ended |>
  | Pairing =>
    let '(l, r) := fingerprints p in
    if bool_decide (l = [] \/ r = []) then perform_all (reject $"user_declined") (p <| p_stage := Ended |>) else p <| p_stage := AwaitCommit |>
  end.

(** [dc.OnMessage]. *)
Definition on_message (data : bytes) (p : peerConn) : peerConn :=
  let p := p <| p_arrived := p_arrived p ++ [data] |> in
  match p_flow p with
  | Pairing => if (length (p_dcInbox p) <? inbox_places)%nat then p <| p_dcInbox := p_dcInbox p ++ [data] |> else p
  | Regular _ => p <| p_delivered := p_delivered p ++ [data] |>
  end.

(** [pc.OnConnectionStateChange]. *)
Definition on_state (s : pc_state) (p : peerConn) : peerConn :=
  if p_dcClosed p then p else match s with StateFailed | StateClosed => Close p | _ => p end.

(** [HandleAnswer] and [HandlePairAnswer] up to the remote description, from where the channel may open. *)
Definition on_answer (ok : bool) (sdp enc : bytes) (p : peerConn) : peerConn :=
  if negb ok then p else
  let p := p <| p_remote := Some sdp |> in
  match p_flow p with Regular _ => p <| p_checking := Some (sdp, enc) |> | Pairing => p end.

(** The rest of [HandleAnswer]. *)
Definition on_check (sdp enc : bytes) (p : peerConn) : peerConn :=
  p <| p_core := (HandleAnswer Decrypt Authorize own_code true sdp enc (p_core p)).1 |> <| p_checking := None |>.

Definition AddICECandidate (line : bytes -> Z) (ok : bool) (data : message) (p : peerConn) : peerConn :=
  match CandidateInit line data with Some c => if ok then p <| p_added := p_added p ++ [c] |> else p | None => p end.

(** [SetOnClose], of a callback or of nil. *)
Definition on_install (fn : bool) (p : peerConn) : peerConn :=
  p <| p_installed := p_installed p || (negb (onCloseSet (p_core p)) && fn) |> <| p_core := SetOnClose (p_core p) fn |>.

(** A step of the handshake's goroutine. *)
Definition on_wait (timeout : bool) (p : peerConn) : option peerConn :=
  match p_stage p with
  | AwaitCommit =>
    '(frame, p) ← recvDC timeout p;
    let '(acts, next) := commit_phase world frame in
    Some (perform_all acts (p <| p_stage := match next with Some (c, rd) => AwaitReveal c rd | None => Ended end |>))
  | AwaitReveal commit rd =>
    '(frame, p) ← recvDC timeout p;
    Some (perform_all (reveal_phase world (fingerprints p) commit rd frame) (p <| p_stage := Ended |>))
  | _ => None
  end.

Variable line : bytes -> Z.

(** One step; [None] where it cannot be taken. WebRTC takes one answer to the offer. An answer and its check are one call of the signaling read loop, so no
    other call of that loop comes between them. *)
Definition exec (e : event) (p : peerConn) : option peerConn :=
  match e with
  | Opens sends => match p_stage p, p_remote p with NotOpen, Some _ => Some (on_open sends p) | _, _ => None end
  | Receives data => Some (on_message data p)
  | ChannelCloses => Some (Close (p <| p_dcClosed := true |>))
  | State s => Some (on_state s p)
  | Gathers None => Some p
  | Gathers (Some c) => Some (send (candidate_message (p_client p) c) p)
  | Answers ok sdp enc => match p_checking p with None => Some (on_answer (ok && bool_decide (p_remote p = None)) sdp enc p) | Some _ => None end
  | Checks => match p_checking p with Some (sdp, enc) => Some (on_check sdp enc p) | None => None end
  | Adds ok data => match p_checking p with None => Some (AddICECandidate line ok data p) | Some _ => None end
  | Installs fn => match p_checking p with None => Some (on_install fn p) | Some _ => None end
  | Closes => Some (Close p)
  | Waits timeout => on_wait timeout p
  end.

Fixpoint run (es : list event) (p : peerConn) : option peerConn :=
  match es with [] => Some p | e :: es => p' ← exec e p; run es p' end.

End Life.

(** What a peer connection of the device promises whatever the order of its callbacks: that it is torn down once,
    that its pairing is the handshake of Pairing.v over the frames in the order they came, and where an honest
    connector loses the race. *)

#[local] Opaque handleRequestOnOpen HandleAnswer.

(** The two waits are the handshake. *)
Lemma phases_are_handshake w : handlePairRequestOnOpen w =
  if bool_decide (localFp w = [] \/ remoteFp w = []) then reject $"user_declined"
  else (commit_phase w (recv_commit w)).1 ++
    match (commit_phase w (recv_commit w)).2 with Some (c, rd) => reveal_phase w (localFp w, remoteFp w) c rd (recv_reveal w) | None => [] end.
Proof.
  unfold handlePairRequestOnOpen, commit_phase, reveal_phase. case_bool_decide; [done|]. destruct (recv_commit w) as [d1|]; [|done].
  destruct (negb _); [done|]. destruct (ParsePairCommit d1); [|done]. destruct (drawn w); [|done]. by destruct (challenge_sent w).
Qed.

(** Every return of the handshake closes. *)
Lemma commit_phase_closes r f acts next : commit_phase r f = (acts, next) -> next = None -> CloseConnection ∈ acts.
Proof. unfold commit_phase, reject. intros H ->. repeat case_match; injection H as <-; set_solver. Qed.

Lemma reveal_phase_closes r fps c rd f : CloseConnection ∈ reveal_phase r fps c rd f.
Proof. unfold reveal_phase, reject. repeat case_match; set_solver. Qed.

Section Life.
Variable Decrypt : bytes -> option bytes.
Variable Authorize : option (bytes -> option bytes).
Variable own_code : bytes.
Variable world : device_run.
Variable line : bytes -> Z.

Abbreviation exec := (PeerLife.exec Decrypt Authorize own_code world line) (only parsing).
Abbreviation run := (PeerLife.run Decrypt Authorize own_code world line) (only parsing).

Lemma peer_run_invariant (P : peerConn -> Prop) : (forall e p p', exec e p = Some p' -> P p -> P p') ->
  forall es p p', run es p = Some p' -> P p -> P p'.
Proof.
  intros H es. induction es as [|e es IH]; intros p p'; cbn; [by intros [= ->]|].
  destruct (PeerLife.exec _ _ _ _ _ e p) as [p1|] eqn:E; [|done]. intros Hr Hp. eapply IH; [exact Hr|]. by eapply H.
Qed.

Lemma peer_run_app es es' p : run (es ++ es') p = (p' ← run es p; run es' p').
Proof. revert p. induction es as [|e es IH]; intros p; [done|]. cbn. destruct (PeerLife.exec _ _ _ _ _ e p); [apply IH|done]. Qed.

(** * Teardown *)

(** The runs of the callback that a connection has had are those it should have had. *)
Record torn (p : peerConn) : Prop := {
  torn_pc : conn_closed (p_core p) = p_pcClosed p;
  torn_dc : p_dcClosed p = true -> p_pcClosed p = true;
  torn_set : p_installed p = true -> onCloseSet (p_core p) = true;
  torn_fn : p_pcClosed p = false -> onClose (p_core p) = p_installed p;
  torn_once : teardowns (p_core p) = if p_pcClosed p && p_installed p then 1%nat else 0%nat
}.

(** What does not touch the connection's end. *)
Lemma torn_frame p p' : torn p -> p_core p' = p_core p -> p_pcClosed p' = p_pcClosed p -> p_dcClosed p' = p_dcClosed p -> p_installed p' = p_installed p -> torn p'.
Proof. intros [H1 H2 H3 H4 H5] E1 E2 E3 E4. split; rewrite ?E1, ?E2, ?E3, ?E4; done. Qed.

Lemma fireClose_fields c : conn_closed (fireClose c) = true /\ onCloseSet (fireClose c) = onCloseSet c /\ onClose (fireClose c) = onClose c /\
  teardowns (fireClose c) = (teardowns c + (if negb (conn_closed c) && onClose c then 1 else 0))%nat.
Proof.
  unfold fireClose, teardowns. destruct (conn_closed c) eqn:E; cbn [negb andb]; [split_and!; try done; lia|].
  cbn. destruct (onClose c) eqn:E2; cbn; rewrite ?E2; split_and!; try done; lia.
Qed.

Lemma torn_Close p : torn p -> torn (Close p).
Proof.
  intros [H1 H2 H3 H4 H5]. destruct (fireClose_fields (p_core p)) as (F1 & F2 & F3 & F4).
  unfold Close. split; cbn -[fireClose]; try done; [by rewrite F2|]. rewrite F4, H1. destruct (p_pcClosed p) eqn:E.
  - rewrite H5. cbn [negb andb]. destruct (p_installed p); lia.
  - rewrite H5, (H4 eq_refl). cbn [negb andb]. destruct (p_installed p); lia.
Qed.

Lemma torn_perform l : forall p, torn p -> torn (perform_all l p).
Proof.
  induction l as [|a l IH]; intros p Hp; [done|]. apply IH. unfold perform.
  assert (torn (p <| p_actions := p_actions p ++ [a] |>)) as H by by eapply torn_frame.
  destruct a; try by eapply torn_frame. by apply torn_Close.
Qed.

#[local] Transparent handleRequestOnOpen.

Lemma on_open_fields sends c : let c' := handleRequestOnOpen sends c in
  conn_closed c' = conn_closed c || negb (replies sends c) /\ onCloseSet c' = onCloseSet c /\ onClose c' = onClose c /\
  teardowns c' = (teardowns c + (if negb (replies sends c) && negb (conn_closed c) && onClose c then 1 else 0))%nat.
Proof.
  destruct (fireClose_fields c) as (F1 & F2 & F3 & F4). unfold handleRequestOnOpen, replies.
  destruct (verifyFailed c); cbn [negb andb]; [by rewrite F1, orb_true_r|].
  destruct (conn_nonce c) as [n|]; [rewrite bool_decide_true by done|rewrite bool_decide_false by (by intros [? ?]); cbn [andb negb]; by rewrite F1, orb_true_r].
  destruct sends; cbn [andb negb]; [|by rewrite F1, orb_true_r]. cbn -[buildVerifyNonceHashFrame]. rewrite orb_false_r. split_and!; try done.
Qed.

#[local] Opaque handleRequestOnOpen.

Lemma torn_open sends p : torn p -> torn (on_open sends p).
Proof.
  intros Hp. unfold on_open. destruct (p_flow p).
  - destruct (on_open_fields sends (p_core p)) as (F1 & F2 & F3 & F4). destruct Hp as [H1 H2 H3 H4 H5].
    split; cbn -[handleRequestOnOpen replies]; rewrite ?F1, ?F2, ?F3, ?F4, ?H1.
    + done.
    + intros Hd. by rewrite (H2 Hd).
    + done.
    + intros [Hc _]%orb_false_elim. by apply H4.
    + rewrite H5. destruct (p_pcClosed p) eqn:Ec; cbn [orb negb andb]; [rewrite andb_false_r; cbn; destruct (p_installed p); lia|].
      rewrite (H4 eq_refl). destruct (replies sends (p_core p)), (p_installed p); cbn; lia.
  - unfold fingerprints. case_bool_decide; [apply torn_perform|]; by eapply torn_frame.
Qed.

Lemma torn_install fn p : torn p -> torn (on_install fn p).
Proof.
  intros [H1 H2 H3 H4 H5]. unfold on_install, SetOnClose. split; cbn.
  - destruct (onCloseSet (p_core p)); [done|]. cbn. destruct (conn_closed (p_core p)) eqn:E; cbn; rewrite ?E; [destruct fn; cbn; by rewrite ?E|done].
  - done.
  - intros _. destruct (onCloseSet (p_core p)) eqn:E; [done|]. cbn. destruct (conn_closed (p_core p)) eqn:E2; cbn; [by destruct fn|done].
  - intros Hc. rewrite Hc in H1. destruct (onCloseSet (p_core p)) eqn:E; cbn; rewrite ?H1; cbn; [rewrite orb_false_r; by apply H4|].
    destruct (p_installed p) eqn:Ei; [by discriminate (H3 eq_refl)|done].
  - destruct (onCloseSet (p_core p)) eqn:E; cbn; [by rewrite orb_false_r|]. rewrite H1.
    destruct (p_installed p) eqn:Ei; [by discriminate (H3 eq_refl)|]. rewrite andb_false_r in H5.
    destruct (p_pcClosed p); cbn; [destruct fn; unfold teardowns in *; cbn; by rewrite H5|exact H5].
Qed.

Lemma torn_wait timeout p p' : on_wait world timeout p = Some p' -> torn p -> torn p'.
Proof.
  intros He Hp. unfold on_wait in He. destruct (p_stage p) as [| |c rd|]; try done;
    (destruct (recvDC timeout p) as [[f q]|] eqn:Er; [|done]; cbn [mbind option_bind] in He;
     assert (torn q) as Hq by (unfold recvDC in Er; destruct timeout; [|destruct (p_dcInbox p); [done|]]; injection Er as <- <-; by eapply torn_frame)).
  - destruct (commit_phase world f) as [acts next]. injection He as <-. apply torn_perform. by eapply torn_frame.
  - injection He as <-. apply torn_perform. by eapply torn_frame.
Qed.

Lemma torn_step e p p' : exec e p = Some p' -> torn p -> torn p'.
Proof.
  destruct e as [sends|data| |s|c|ok sdp enc| |ok data|fn| |timeout]; cbn; intros He Hp.
  - destruct (p_stage p), (p_remote p); try done. injection He as <-. by apply torn_open.
  - injection He as <-. unfold on_message. repeat case_match; by eapply torn_frame.
  - injection He as <-. pose proof (torn_Close p Hp) as [H1 H2 H3 H4 H5]. by split.
  - injection He as <-. unfold on_state. destruct (p_dcClosed p); [done|]. destruct s; try done; by apply torn_Close.
  - destruct c; injection He as <-; [by eapply torn_frame|done].
  - destruct (p_checking p); [done|]. injection He as <-. unfold on_answer. destruct (negb _); [done|]. cbn. destruct (p_flow p); by eapply torn_frame.
  - destruct (p_checking p) as [[sdp enc]|]; [|done]. injection He as <-. unfold on_check.
    destruct (HandleAnswer_spec Decrypt Authorize own_code true sdp enc (p_core p)) as (Hl & _ & _ & Hc & Ho & Hs).
    destruct Hp as [H1 H2 H3 H4 H5]. split; cbn -[HandleAnswer]; rewrite ?Hc, ?Ho, ?Hs; try done. unfold teardowns in *. by rewrite Hl.
  - destruct (p_checking p); [done|]. injection He as <-. unfold AddICECandidate. destruct (CandidateInit line data); [|done]. destruct ok; [|done]. by eapply torn_frame.
  - destruct (p_checking p); [done|]. injection He as <-. by apply torn_install.
  - injection He as <-. by apply torn_Close.
  - by eapply torn_wait.
Qed.

Lemma torn_setup client msg f w p : setupConnection client msg f w = Ok p -> torn p.
Proof. unfold setupConnection. destruct (pc_made w), (dc_made w), (offer_made w), (local_set w); try done. intros [= <-]. by split. Qed.

(** What ends a connection: its channel closes, WebRTC reports a terminal state, or it is closed. *)
Definition ends_it (e : event) : bool :=
  match e with ChannelCloses | State StateFailed | State StateClosed | Closes => true | _ => false end.

(** C24: A connection is torn down once, whenever and however it ends: in every order of WebRTC's callbacks, of the calls of the
    signaling loop and of the handshake's waits, the listener's callback has run exactly once when the connection is
    over and has not run before, also where it is installed after the end; a failed or closed state, a closed channel
    and Close all end it, whether or not its channel ever opened. *)
Theorem peer_torn_down_once client msg f w p0 es p : setupConnection client msg f w = Ok p0 -> run es p0 = Some p ->
  conn_closed (p_core p) = p_pcClosed p /\ teardowns (p_core p) = (if p_pcClosed p && p_installed p then 1%nat else 0%nat) /\
  forall e p', ends_it e = true -> exec e p = Some p' -> p_pcClosed p' = true /\ teardowns (p_core p') = if p_installed p then 1%nat else 0%nat.
Proof.
  intros Hs Hr. assert (torn p) as Hp by (eapply (peer_run_invariant torn torn_step); [exact Hr|by eapply torn_setup]).
  split; [apply Hp|]. split; [apply Hp|]. intros e p' He Hx. pose proof (torn_step e p p' Hx Hp) as Hp'.
  assert (p_pcClosed p' = true /\ p_installed p' = p_installed p) as [Hc Hi].
  { destruct e as [| | |s| | | | | | |]; try discriminate He; cbn in Hx; injection Hx as <-; [done| |done].
    unfold on_state. destruct (p_dcClosed p) eqn:Ed; [by split; [apply Hp|]|]. by destruct s. }
  split; [done|]. by rewrite (torn_once _ Hp'), Hc, Hi.
Qed.

(** * The pairing *)

(** The frames that the handshake has read or still can. *)
Definition accepted (p : peerConn) : list bytes := omap id (p_reads p) ++ p_dcInbox p.

(** The run of the handshake that a connection has seen: its descriptions, and what its waits returned. *)
Definition run_of (p : peerConn) : device_run :=
  mkDeviceRun (fingerprints p).1 (fingerprints p).2 (mjoin (p_reads p !! 0%nat)) (drawn world) (challenge_sent world) (mjoin (p_reads p !! 1%nat))
    (prompt world) (grant_hook world) (dev_uid world) (dev_public world) (dev_code world).

Definition has_fingerprints (p : peerConn) : Prop := (fingerprints p).1 <> [] /\ (fingerprints p).2 <> [].

(** Where the handshake is and what it has done by then. *)
Definition at_stage (p : peerConn) : Prop :=
  match p_stage p with
  | NotOpen => p_reads p = [] /\ p_actions p = []
  | AwaitCommit => p_reads p = [] /\ p_actions p = [] /\ p_remote p <> None /\ has_fingerprints p
  | AwaitReveal c rd => p_remote p <> None /\ has_fingerprints p /\
      exists f, p_reads p = [Some f] /\ commit_phase world (Some f) = (p_actions p, Some (c, rd))
  | Ended => p_remote p <> None /\ p_pcClosed p = true /\ p_actions p = handlePairRequestOnOpen (run_of p) /\ (length (p_reads p) <= 2)%nat /\
      (forall i, p_reads p !! i = Some None -> p_reads p !! S i = None)
  end.

Record pairing_inv (p : peerConn) : Prop := {
  pi_flow : p_flow p = Pairing;
  pi_room : (length (p_dcInbox p) <= inbox_places)%nat;
  pi_order : take inbox_places (accepted p) = take inbox_places (p_arrived p);
  pi_stage : at_stage p
}.

Lemma perform_keeps l : forall p, let p' := perform_all l p in
  p_flow p' = p_flow p /\ p_dcInbox p' = p_dcInbox p /\ p_reads p' = p_reads p /\ p_arrived p' = p_arrived p /\ p_local p' = p_local p /\
  p_remote p' = p_remote p /\ p_stage p' = p_stage p /\ p_actions p' = p_actions p ++ l /\ (p_pcClosed p = true \/ CloseConnection ∈ l -> p_pcClosed p' = true).
Proof.
  induction l as [|a l IH]; intros p; cbn zeta in *.
  - cbn. rewrite app_nil_r. split_and!; try done. intros [?|H]; [done|by apply elem_of_nil in H].
  - unfold perform_all in *. cbn [foldl]. destruct (IH (perform a p)) as (E1 & E2 & E3 & E4 & E5 & E6 & E7 & E8 & E9).
    rewrite E1, E2, E3, E4, E5, E6, E7, E8. assert (p_actions (perform a p) = p_actions p ++ [a]) as -> by by destruct a.
    split_and!; try (by destruct a); [by rewrite <- app_assoc|]. intros H. apply E9. destruct H as [H|[<-|H]%elem_of_cons]; [left; by destruct a|by left|by right].
Qed.

(** What leaves the handshake where it is. *)
Lemma at_stage_frame p p' : at_stage p -> p_stage p' = p_stage p -> p_reads p' = p_reads p -> p_actions p' = p_actions p -> p_local p' = p_local p ->
  (p_remote p = None \/ p_remote p' = p_remote p) -> (p_pcClosed p = true -> p_pcClosed p' = true) -> at_stage p'.
Proof.
  unfold at_stage, has_fingerprints, run_of, fingerprints. intros H -> -> -> -> Hr Hc.
  destruct (p_stage p) as [| |c rd|]; [done|..]; (assert (p_remote p' = p_remote p) as -> by (destruct Hr as [Hr|Hr]; [exfalso; clear -H Hr; tauto|exact Hr])); try done.
  destruct H as (H1 & H2 & H3). split; [done|]. split; [by apply Hc|exact H3].
Qed.

Lemma pairing_frame p p' : pairing_inv p -> p_flow p' = p_flow p -> p_dcInbox p' = p_dcInbox p -> p_arrived p' = p_arrived p -> p_stage p' = p_stage p ->
  p_reads p' = p_reads p -> p_actions p' = p_actions p -> p_local p' = p_local p -> (p_remote p = None \/ p_remote p' = p_remote p) ->
  (p_pcClosed p = true -> p_pcClosed p' = true) -> pairing_inv p'.
Proof.
  intros [H1 H2 H3 H4] E1 E2 E3 E4 E5 E6 E7 E8 E9. split; [by rewrite E1|by rewrite E2|unfold accepted in *; by rewrite E2, E3, E5|by eapply at_stage_frame].
Qed.

(** A frame that finds no place comes after eight that did. *)
Lemma pairing_receives data p : pairing_inv p -> pairing_inv (on_message data p).
Proof.
  intros [H1 H2 H3 H4]. unfold on_message. cbn [p_flow upd]. rewrite H1. cbn [p_dcInbox upd].
  assert (forall k, (inbox_places <= length (accepted p))%nat -> take inbox_places (accepted p ++ k) = take inbox_places (p_arrived p ++ [data])) as Hlong.
  { intros k Hk. rewrite take_app_le by done. rewrite H3. rewrite take_app_le; [done|].
    assert (length (take inbox_places (p_arrived p)) = inbox_places) as L by (rewrite <- H3; by rewrite length_take_le). rewrite length_take in L. lia. }
  destruct (length (p_dcInbox p) <? inbox_places)%nat eqn:El.
  - apply Nat.ltb_lt in El. split; cbn [p_flow p_dcInbox upd]; [done|rewrite length_app; cbn; lia| |by eapply at_stage_frame; [exact H4|..]; auto].
    unfold accepted in *. cbn [p_reads p_dcInbox p_arrived upd]. rewrite app_assoc. destruct (decide (inbox_places <= length (omap id (p_reads p) ++ p_dcInbox p))%nat) as [Hk|Hk]; [by apply Hlong|].
    rewrite (take_ge (omap id (p_reads p) ++ p_dcInbox p)) in H3 by lia.
    assert (length (p_arrived p) < inbox_places)%nat as Ha.
    { rewrite H3, length_take in Hk. lia. }
    rewrite (take_ge (p_arrived p)) in H3 by lia. by rewrite H3.
  - apply Nat.ltb_ge in El. split; cbn [p_flow p_dcInbox upd]; [done|done| |by eapply at_stage_frame; [exact H4|..]; auto].
    unfold accepted in *. cbn [p_reads p_dcInbox p_arrived upd]. rewrite <- (Hlong []); [by rewrite app_nil_r|]. rewrite length_app. lia.
Qed.

Lemma pairing_open sends p sdp : p_stage p = NotOpen -> p_remote p = Some sdp -> pairing_inv p -> pairing_inv (on_open sends p).
Proof.
  intros Hst Hr [H1 H2 H3 H4]. unfold at_stage in H4. rewrite Hst in H4. destruct H4 as [Hrd Ha]. unfold on_open. rewrite H1.
  destruct (fingerprints p) as [l r] eqn:Ef. case_bool_decide as Hf.
  - set (q := p <| p_stage := Ended |>). destruct (perform_keeps (reject $"user_declined") q) as (E1 & E2 & E3 & E4 & E5 & E6 & E7 & E8 & E9).
    split; [by rewrite E1|by rewrite E2|unfold accepted in *; by rewrite E2, E3, E4|].
    unfold at_stage. rewrite E7. cbn [p_stage upd q]. unfold run_of, fingerprints in *. rewrite E3, E5, E6, E8.
    change (p_reads q) with (p_reads p). change (p_local q) with (p_local p). change (p_remote q) with (p_remote p). change (p_actions q) with (p_actions p).
    rewrite Hrd, Hr, Ha. split_and!; [done| | |cbn; lia|done].
    + apply E9. right. unfold reject. right. left.
    + rewrite phases_are_handshake. cbn [localFp remoteFp]. rewrite Hr in Ef. rewrite Ef. cbn [fst snd]. by rewrite bool_decide_true.
  - split; [done|done|exact H3|]. unfold at_stage, has_fingerprints, fingerprints in *. cbn [p_stage p_reads p_actions p_remote p_local upd]. rewrite Ef, Hr. cbn.
    split_and!; try done; intros ->; apply Hf; auto.
Qed.

(** What a wait returns, and what is left of the queue. *)
Lemma recvDC_keeps timeout p f q : recvDC timeout p = Some (f, q) ->
  q = p <| p_dcInbox := p_dcInbox q |> <| p_reads := p_reads p ++ [f] |> /\ accepted q = accepted p /\ (length (p_dcInbox q) <= length (p_dcInbox p))%nat.
Proof.
  unfold recvDC, accepted. destruct timeout.
  - intros [= <- <-]. cbn. rewrite omap_app. cbn. rewrite app_nil_r. split_and!; [by destruct p|done|lia].
  - destruct (p_dcInbox p) as [|x r] eqn:E; [done|]. intros [= <- <-]. cbn. rewrite omap_app. cbn. rewrite <- app_assoc. split_and!; [by destruct p|done|lia].
Qed.

Lemma pairing_wait timeout p p' : on_wait world timeout p = Some p' -> pairing_inv p -> pairing_inv p'.
Proof.
  intros He [H1 H2 H3 H4]. unfold on_wait in He. destruct (p_stage p) as [| |c rd|] eqn:Hst; try done;
    (destruct (recvDC timeout p) as [[f q]|] eqn:Er; [|done]; cbn [mbind option_bind] in He; apply recvDC_keeps in Er as (Eq & Ea & Hlen)).
  - unfold at_stage in H4. rewrite Hst in H4. destruct H4 as (Hrd & Hact & Hrem & Hfp).
    destruct (commit_phase world f) as [acts next] eqn:Ec. injection He as <-.
    set (q' := q <| p_stage := match next with Some (c, rd) => AwaitReveal c rd | None => Ended end |>). change (pairing_inv (perform_all acts q')). destruct (perform_keeps acts q') as (E1 & E2 & E3 & E4 & E5 & E6 & E7 & E8 & E9).
    assert (p_flow q' = Pairing /\ p_dcInbox q' = p_dcInbox q /\ p_reads q' = [f] /\ p_arrived q' = p_arrived p /\ p_local q' = p_local p /\ p_remote q' = p_remote p /\ p_actions q' = [] /\ p_pcClosed q' = p_pcClosed p)
      as (G1 & G2 & G3 & G4 & G5 & G6 & G7 & G8) by (unfold q'; rewrite Eq; cbn; rewrite Hrd; by split_and!).
    split; [by rewrite E1|rewrite E2, G2; lia|unfold accepted in *; rewrite E2, E3, E4, G4, <- H3, <- Ea; f_equal; unfold q'; by rewrite Eq|].
    unfold at_stage. rewrite E7. unfold q' at 1. cbn [p_stage upd]. unfold has_fingerprints, fingerprints, run_of, fingerprints. rewrite E3, E5, E6, E8, G3, G5, G6, G7.
    destruct next as [[c rd]|].
    + assert (exists x, f = Some x) as [x ->] by (destruct f; [by eexists|discriminate Ec]). split; [done|]. split; [done|]. by exists x.
    + split; [done|]. split; [apply E9; right; by eapply commit_phase_closes|]. split; [|split; [cbn; lia|by intros [|[|i]]]].
      rewrite phases_are_handshake. cbn [localFp remoteFp recv_commit recv_reveal]. rewrite bool_decide_false by (destruct Hfp as [Hfp1 Hfp2]; by intros [?|?]).
      change (mjoin ([f] !! 0%nat)) with f. change (commit_phase _ f) with (commit_phase world f) at 1. change (commit_phase (mkDeviceRun _ _ _ _ _ _ _ _ _ _ _) f) with (commit_phase world f).
      rewrite Ec. by rewrite app_nil_r.
  - unfold at_stage in H4. rewrite Hst in H4. destruct H4 as (Hrem & Hfp & x & Hrd & Hc). injection He as <-.
    set (acts := reveal_phase _ _ _ _ _). set (q' := q <| p_stage := Ended |>). change (pairing_inv (perform_all acts q')). destruct (perform_keeps acts q') as (E1 & E2 & E3 & E4 & E5 & E6 & E7 & E8 & E9).
    assert (p_flow q' = Pairing /\ p_dcInbox q' = p_dcInbox q /\ p_reads q' = [Some x; f] /\ p_arrived q' = p_arrived p /\ p_local q' = p_local p /\ p_remote q' = p_remote p /\ p_actions q' = p_actions p /\ fingerprints q = fingerprints p)
      as (G1 & G2 & G3 & G4 & G5 & G6 & G7 & G8) by (unfold q'; rewrite Eq; cbn; rewrite Hrd; by split_and!).
    split; [by rewrite E1|rewrite E2, G2; lia|unfold accepted in *; rewrite E2, E3, E4, G4, <- H3, <- Ea; f_equal; unfold q'; by rewrite Eq|].
    unfold at_stage. rewrite E7. unfold q' at 1. cbn [p_stage upd]. unfold run_of, fingerprints. rewrite E3, E5, E6, E8, G3, G5, G6, G7.
    split; [done|]. split; [apply E9; right; apply reveal_phase_closes|]. split; [|split; [cbn; lia|by intros [|[|i]]]].
    rewrite phases_are_handshake. cbn [localFp remoteFp recv_commit recv_reveal]. rewrite bool_decide_false by (destruct Hfp as [Hfp1 Hfp2]; by intros [?|?]).
    change (mjoin ([Some x; f] !! 0%nat)) with (Some x). change (mjoin ([Some x; f] !! 1%nat)) with f.
    change (commit_phase (mkDeviceRun _ _ _ _ _ _ _ _ _ _ _) (Some x)) with (commit_phase world (Some x)). rewrite Hc. cbn [fst snd]. f_equal.
    unfold acts. rewrite G8. reflexivity.
Qed.

Lemma pairing_step e p p' : exec e p = Some p' -> pairing_inv p -> pairing_inv p'.
Proof.
  intros He Hp. pose proof (pi_flow _ Hp) as Hfl. destruct e as [sends|data| |s|c|ok sdp enc| |ok data|fn| |timeout]; cbn in He.
  - destruct (p_stage p) eqn:Es, (p_remote p) as [sdp|] eqn:Er; try done. injection He as <-. by eapply pairing_open.
  - injection He as <-. by apply pairing_receives.
  - injection He as <-. by eapply pairing_frame; [exact Hp|..]; auto.
  - injection He as <-. unfold on_state. destruct (p_dcClosed p); [done|]. destruct s; try done; by eapply pairing_frame; [exact Hp|..]; auto.
  - destruct c; injection He as <-; [|done]. by eapply pairing_frame; [exact Hp|..]; auto.
  - destruct (p_checking p); [done|]. injection He as <-. unfold on_answer. destruct ok; [|done]. case_bool_decide as Hr; [|done]. cbn. rewrite Hfl.
    by eapply pairing_frame; [exact Hp|..]; auto.
  - destruct (p_checking p) as [[sdp enc]|]; [|done]. injection He as <-. by eapply pairing_frame; [exact Hp|..]; auto.
  - destruct (p_checking p); [done|]. injection He as <-. unfold AddICECandidate. destruct (CandidateInit line data); [|done]. destruct ok; [|done]. by eapply pairing_frame; [exact Hp|..]; auto.
  - destruct (p_checking p); [done|]. injection He as <-. by eapply pairing_frame; [exact Hp|..]; auto.
  - injection He as <-. by eapply pairing_frame; [exact Hp|..]; auto.
  - by eapply pairing_wait.
Qed.

Lemma pairing_setup client msg w p : setupConnection client msg Pairing w = Ok p -> pairing_inv p.
Proof. unfold setupConnection. destruct (pc_made w), (dc_made w), (offer_made w), (local_set w); try done. intros [= <-]. split; cbn; [done|lia|done|done]. Qed.

(** The shape of what the waits returned. *)
Lemma reads_shape p : at_stage p -> (length (p_reads p) <= 2)%nat /\ (forall i, p_reads p !! i = Some None -> p_reads p !! S i = None).
Proof.
  unfold at_stage. destruct (p_stage p) as [| |c rd|].
  - intros [-> _]. split; [cbn; lia|done].
  - intros (-> & _). split; [cbn; lia|done].
  - intros (_ & _ & f & -> & _). split; [cbn; lia|by intros [|i]].
  - by intros (_ & _ & _ & ? & ?).
Qed.

Lemma reads_in_order p i f : pairing_inv p -> p_reads p !! i = Some (Some f) -> p_arrived p !! i = Some f.
Proof.
  intros [_ _ Ho Hs] Hi. destruct (reads_shape p Hs) as [Hl Hn].
  assert (i < 2)%nat as Hlt by (apply lookup_lt_Some in Hi; lia).
  assert (omap id (p_reads p) !! i = Some f) as Hg.
  { clear Ho Hs. destruct (p_reads p) as [|[a|] [|b [|c l]]]; try (cbn in Hl; lia); destruct i as [|[|i]]; try lia; cbn in *; try congruence.
    - injection Hi as ->. done.
    - by specialize (Hn O eq_refl). }
  assert (take inbox_places (accepted p) !! i = Some f) as Ha by (rewrite lookup_take_lt by (unfold inbox_places; lia); unfold accepted; by apply lookup_app_l_Some).
  rewrite Ho in Ha. by rewrite lookup_take_lt in Ha by (unfold inbox_places; lia).
Qed.

(** A pairing on the device is the handshake, over its own channel: whatever else happens to the connection, and
    however many frames the connector sends and whenever, each frame that the handshake reads is the one
    that arrived in that place (none it would read is dropped or overtaken), a handshake that has returned did
    exactly what [handlePairRequestOnOpen] does of those frames and of the fingerprints of the two descriptions, and
    has closed the connection; and as long as it has not returned, it has approved nobody. *)
Theorem pairing_over_channel client msg w p0 es p : setupConnection client msg Pairing w = Ok p0 -> run es p0 = Some p ->
  (forall i f, p_reads p !! i = Some (Some f) -> p_arrived p !! i = Some f) /\
  (p_stage p = Ended -> p_actions p = handlePairRequestOnOpen (run_of p) /\ p_pcClosed p = true) /\
  (p_stage p <> Ended -> PairApproved ∉ p_actions p).
Proof.
  intros Hs Hr. assert (pairing_inv p) as Hp by (eapply (peer_run_invariant pairing_inv pairing_step); [exact Hr|by eapply pairing_setup]).
  split; [intros i f; by apply reads_in_order|]. destruct Hp as [_ _ _ H]. unfold at_stage in H. destruct (p_stage p) as [| |c rd|].
  - destruct H as [_ ->]. split; [done|]. intros _. apply not_elem_of_nil.
  - destruct H as (_ & -> & _). split; [done|]. intros _. apply not_elem_of_nil.
  - split; [done|]. intros _. destruct H as (_ & _ & f & _ & Hc). unfold commit_phase, reject in Hc.
    repeat case_match; try discriminate Hc. injection Hc as <- _ _. intros Hx%list_elem_of_singleton. discriminate Hx.
  - split; [|done]. by destruct H as (_ & Hc & Ha & _).
Qed.

(** * Where an honest connector loses *)

(** [HandleAnswer] installs the nonce after it has set the remote description, and from there on the channel may open: one
    that opens before the payload is decrypted finds no nonce, and the connection is closed without a reply, whatever
    the payload was, an honest connector's included. *)
Lemma open_beats_answer client msg ip w p0 sdp enc p : setupConnection client msg (Regular ip) w = Ok p0 ->
  run [Answers true sdp enc; Opens true; Checks] p0 = Some p ->
  p_pcClosed p = true /\ frames (p_core p) = [].
Proof.
  intros Hs Hr. unfold setupConnection in Hs. destruct (pc_made w), (dc_made w), (offer_made w), (local_set w) as [l|]; try done. injection Hs as <-.
  cbn -[HandleAnswer handleRequestOnOpen] in Hr. injection Hr as <-. unfold on_check. cbn -[HandleAnswer handleRequestOnOpen]. split; [done|].
  unfold frames. match goal with |- context [HandleAnswer _ _ _ true sdp enc ?c] => rewrite (proj1 (HandleAnswer_spec Decrypt Authorize own_code true sdp enc c)) end.
  reflexivity.
Qed.

End Life.

(** * On paper *)

Definition paper_webrtc : webrtc := mkWebRTC true true true (Some demo_sdp) [].
Definition paper_operator (k : nat) : bytes * PromptStatus := ([], PromptAbort).
Definition paper_world : device_run := mkDeviceRun [] [] None (Some nonce_b) true None paper_operator None $"dev" $"key" $"code".
Definition paper_request : message := [($"client_id", JString $"c1")].

Definition paper_run (es : list event) (p : peerConn) : option peerConn := PeerLife.run demo_decrypt None $"swordfish" paper_world (fun _ => 0) es p.

Lemma paper_runs f es (view : peerConn -> bool) :
  match setupConnection $"c1" paper_request f paper_webrtc with Ok p0 => match paper_run es p0 with Some p => view p | None => false end | Err _ => false end = true ->
  exists p0 p, setupConnection $"c1" paper_request f paper_webrtc = Ok p0 /\ paper_run es p0 = Some p /\ view p = true.
Proof.
  destruct (setupConnection _ _ _ _) as [p0|]; [|done]. destruct (paper_run es p0) as [p|] eqn:E; [|done]. intros H. exists p0, p. by split_and!.
Qed.

(** A connector that answers and dies before its channel opens. *)
Lemma peer_torn_down_once_witness : exists p, setupConnection $"c1" paper_request (Regular []) paper_webrtc <> Err (NoOffer, true) /\
  p_pcClosed p = true /\ p_installed p = true /\ p_stage p = NotOpen /\ teardowns (p_core p) = 1%nat.
Proof.
  destruct (paper_runs (Regular []) [Installs true; Answers true demo_sdp demo_enc; Checks; State StateFailed; Closes]
    (fun p => p_pcClosed p && p_installed p && match p_stage p with NotOpen => true | _ => false end)) as (p0 & p & E0 & E & Hv); [vm_compute; reflexivity|].
  apply andb_true_iff in Hv as [[Hc Hi]%andb_true_iff Hst].
  pose proof (proj1 (proj2 (peer_torn_down_once demo_decrypt None $"swordfish" paper_world (fun _ => 0) _ _ _ _ p0 _ p E0 E))) as H. rewrite Hc, Hi in H.
  exists p. split; [rewrite E0; discriminate|]. split; [exact Hc|]. split; [exact Hi|]. split; [|exact H]. destruct (p_stage p); first [reflexivity|discriminate Hst].
Defined.

Definition paper_pairing : list event :=
  [Receives (BuildPairCommit (Commitment nonce_a)); Answers true demo_sdp []; Opens true] ++ replicate 9 (Receives (BuildPairReveal nonce_a)) ++ [Waits false; Waits false].

Lemma pairing_over_channel_witness : exists p, p_reads p = [Some (BuildPairCommit (Commitment nonce_a)); Some (BuildPairReveal nonce_a)] /\
  p_actions p = handlePairRequestOnOpen (run_of paper_world p) /\ p_pcClosed p = true.
Proof.
  destruct (paper_runs Pairing paper_pairing (fun p => bool_decide (p_reads p = [Some (BuildPairCommit (Commitment nonce_a)); Some (BuildPairReveal nonce_a)]) &&
    match p_stage p with Ended => true | _ => false end)) as (p0 & p & E0 & E & Hv); [vm_compute; reflexivity|].
  apply andb_true_iff in Hv as [Hrd Hst]. apply bool_decide_eq_true in Hrd. assert (p_stage p = Ended) as He by (destruct (p_stage p); first [reflexivity|discriminate Hst]).
  exists p. split; [exact Hrd|]. exact (proj1 (proj2 (pairing_over_channel demo_decrypt None $"swordfish" paper_world (fun _ => 0) _ _ _ p0 _ p E0 E)) He).
Defined.
