(* ===== verification/PairConnect.v ===== *)
(** Pairing on the connector from its socket to its outcome (cmd/bitbang/connect_pair.go over internal/client's
    Signaling and Peer in pair mode): [runPairConnect] with the read loop that feeds it, the drain of candidates and
    WebRTC's callbacks, interleaved. Pairing.v has what it does once the channel is open; WebRTC and the nonces are
    inputs. *)

From S2P Require Import Prelude GoLib Json Wire Signaling Ice Pairing Handshake Dial.

(** [pairOutcome], of which only rejections come through signaling. *)
Definition unknown_code : bytes := $"unknown_code".

(** The read loop: at its next message, waiting for a place in a channel, or gone. *)
Inductive pair_reader := Idle | Reads | GivesOffer (m : message) | GivesCandidate (m : message) | GivesRouted | GivesOutcome (reason : bytes) | Over.

Inductive pair_error :=
| BadCode | Unconnected | NotSent | Rejected (reason : bytes) | SignalingError (e : bytes) | DeadlineAt (what : bytes)
| NoPairPeer | OfferRefused | AnswerNotSent | NonceFailed | CommitNotSent | BadChallenge | RevealNotSent | NoFingerprints | Unexpected | BadCredentials.

(** Where [runPairConnect] is. *)
Inductive pair_phase :=
| ToConnect | ToInit | WaitRouted | WaitOffer | ToBuild (offer : message) | ToAnswer (offer : message) | ToSend (sdp : bytes)
| WaitChannel | ToCommit | WaitChallenge (rc : bytes) | ToReveal (rc rd : bytes) | WaitVerdict (rc : bytes)
| Ended (e : pair_error) | PairedWith (uid code : bytes).

Record pair_run := mkPairRun {
  pr_at : pair_phase; pr_reader : pair_reader; pr_draining : bool;
  pr_routed : nat; pr_offers : list message; pr_cands : list message; pr_errs : list bytes; pr_outcomes : list bytes;
  pr_sent : list message; pr_ice : list ICEServer; pr_described : option (bytes * bytes); pr_added : list message;
  pr_ready : bool; pr_inbox : list bytes; pr_acts : list connector_action; pr_arrived : list bytes
}.
(** [pr_described]: the two descriptions, the connector's own first. [pr_inbox]: the frames of the channel; a full
    queue makes WebRTC wait, so none is lost. [pr_acts]: what was sent on the channel and shown. *)

#[export] Instance eta_pair_run : Eta pair_run := fun r =>
  mkPairRun (pr_at r) (pr_reader r) (pr_draining r) (pr_routed r) (pr_offers r) (pr_cands r) (pr_errs r) (pr_outcomes r) (pr_sent r) (pr_ice r)
    (pr_described r) (pr_added r) (pr_ready r) (pr_inbox r) (pr_acts r) (pr_arrived r).

Definition pair_start : pair_run := mkPairRun ToConnect Idle false 0 [] [] [] [] [] [] None [] false [] [] [].

(** [SendPairInit]; an answer without a payload. *)
Definition init_message (code : bytes) (forceRelay : bool) : message :=
  [($"type", JString $"pair_init"); ($"code", JString code)] ++ (if forceRelay then [($"force_relay", JBool true)] else []).

Definition is_pair_code (code : bytes) : bool := (length code =? 6)%nat && forallb is_digit code.

(** * The callbacks *)

Definition on_routed (r : pair_run) : pair_run := if (pr_routed r <? 1)%nat then r <| pr_routed := S (pr_routed r) |> else r <| pr_reader := GivesRouted |>.
Definition on_outcome (reason : bytes) (r : pair_run) : pair_run :=
  if (length (pr_outcomes r) <? 1)%nat then r <| pr_outcomes := pr_outcomes r ++ [reason] |> else r <| pr_reader := GivesOutcome reason |>.
Definition on_pair_offer (m : message) (r : pair_run) : pair_run :=
  if (length (pr_offers r) <? 1)%nat then r <| pr_offers := pr_offers r ++ [m] |> else r <| pr_reader := GivesOffer m |>.
Definition on_pair_candidate (m : message) (r : pair_run) : pair_run :=
  if (length (pr_cands r) <? 16)%nat then r <| pr_cands := pr_cands r ++ [m] |> else r <| pr_reader := GivesCandidate m |>.
(** An error waits for no place; a code that the server does not know is an outcome. *)
Definition on_pair_error (e : bytes) (r : pair_run) : pair_run :=
  if bool_decide (e = unknown_code) then on_outcome unknown_code r
  else if (length (pr_errs r) <? 1)%nat then r <| pr_errs := pr_errs r ++ [e] |> else r.

(** The read loop's dispatch; the table of releases is not looked at here. *)
Definition pair_dispatch (m : message) (r : pair_run) : pair_run :=
  let type := default [] (string_member $"type" m) in
  if bool_decide (type = $"offer") then on_pair_offer m r
  else if bool_decide (type = $"candidate") then on_pair_candidate m r
  else if bool_decide (type = $"error") then on_pair_error (default [] (string_member $"message" m)) r
  else if bool_decide (type = $"pair_routed") then on_routed r
  else if bool_decide (type = $"pair_rejected") then on_outcome (default [] (string_member $"reason" m)) r
  else r.

(** * The steps *)

Inductive pair_event :=
| Dials (ok : bool) | Inits (ok : bool) | TakesRouted | TakesOffer | TakesOutcome | TakesError | Deadline
| Builds (ok : bool) | HandlesOffer (local : option bytes) | SendsAnswer (ok : bool)
| TakesReady | Commits (drawn : option bytes) (ok : bool) | TakesFrame | Reveals (ok : bool)
| Hears (m : message) | SocketFails (e : bytes) | GivesOver | DrainsOne
| Finds (c : message) | ChannelOpens | Frame_ (data : bytes).

Definition ended (e : pair_error) (r : pair_run) : pair_run := r <| pr_at := Ended e |>.
Definition does (a : connector_action) (r : pair_run) : pair_run := r <| pr_acts := pr_acts r ++ [a] |>.
Definition says (m : message) (r : pair_run) : pair_run := r <| pr_sent := pr_sent r ++ [m] |>.

(** The other cases of a wait: an outcome, where the wait looks for one, an error, the deadline. *)
Definition interrupted (outcomes : bool) (what : bytes) (e : pair_event) (r : pair_run) : option pair_run :=
  match e with
  | TakesOutcome => if outcomes then match pr_outcomes r with x :: l => Some (ended (Rejected x) (r <| pr_outcomes := l |>)) | [] => None end else None
  | TakesError => match pr_errs r with x :: l => Some (ended (SignalingError x) (r <| pr_errs := l |>)) | [] => None end
  | Deadline => Some (ended (DeadlineAt what) r)
  | _ => None
  end.

(** A step of [runPairConnect]. *)
Definition pair_step (code : bytes) (relay : bool) (e : pair_event) (r : pair_run) : option pair_run :=
  match pr_at r, e with
  | ToConnect, Dials ok =>
    Some (if negb (is_pair_code code) then ended BadCode r else if ok then r <| pr_at := ToInit |> <| pr_reader := Reads |> else ended Unconnected r)
  | ToInit, Inits ok => Some (if ok then says (init_message code relay) r <| pr_at := WaitRouted |> else ended NotSent r)
  | WaitRouted, TakesRouted => match pr_routed r with S n => Some (r <| pr_routed := n |> <| pr_at := WaitOffer |>) | O => None end
  | WaitRouted, _ => interrupted true $"routing" e r
  | WaitOffer, TakesOffer => match pr_offers r with m :: l => Some (r <| pr_offers := l |> <| pr_at := ToBuild m |>) | [] => None end
  | WaitOffer, _ => interrupted true $"offer" e r
  | ToBuild m, Builds ok => Some (if ok then r <| pr_ice := FromMessage m |> <| pr_at := ToAnswer m |> else ended NoPairPeer r)
  | ToAnswer m, HandlesOffer local =>
    Some (match HandleOffer (fun _ => false) (fun _ _ => None) ModePair [] [] m local None with
          | Err _ => ended OfferRefused r
          | Ok (sdp, _, _) => r <| pr_described := Some (sdp, default [] (string_member $"sdp" m)) |> <| pr_at := ToSend sdp |>
          end)
  | ToSend sdp, SendsAnswer ok => Some (if ok then says (answer_message sdp []) r <| pr_draining := true |> <| pr_at := WaitChannel |> else ended AnswerNotSent r)
  | WaitChannel, TakesReady => if pr_ready r then Some (r <| pr_at := ToCommit |>) else None
  | WaitChannel, _ => interrupted false $"data channel" e r
  | ToCommit, Commits drawn ok =>
    Some (match drawn with
          | None => ended NonceFailed r
          | Some rc => if ok then does (Sent (BuildPairCommit (Commitment rc))) r <| pr_at := WaitChallenge rc |> else ended CommitNotSent r
          end)
  | WaitChallenge rc, TakesFrame =>
    match pr_inbox r with
    | [] => None
    | data :: l =>
      let r := r <| pr_inbox := l |> in
      Some (match ParsePairChallenge data with
            | Some rd => if bool_decide (PairMessageType data = MsgPairChallenge) then r <| pr_at := ToReveal rc rd |> else ended BadChallenge r
            | None => ended BadChallenge r
            end)
    end
  | WaitChallenge _, _ => interrupted true $"challenge" e r
  | ToReveal rc rd, Reveals ok =>
    Some (if negb ok then ended RevealNotSent r else
          let r := does (Sent (BuildPairReveal rc)) r in
          let '(mine, theirs) := default ([], []) (pr_described r) in
          let '(l, t) := (ExtractFingerprint mine, ExtractFingerprint theirs) in
          if bool_decide (l = [] \/ t = []) then ended NoFingerprints r else does (Display (ComputeSAS rc rd l t)) r <| pr_at := WaitVerdict rc |>)
  | WaitVerdict _, TakesFrame =>
    match pr_inbox r with
    | [] => None
    | data :: l =>
      let r := r <| pr_inbox := l |> in
      Some (if negb (bool_decide (PairMessageType data = MsgPairCredentials)) then ended Unexpected r
            else match ParsePairCredentials data with Some (uid, _, ac) => r <| pr_at := PairedWith uid ac |> | None => ended BadCredentials r end)
    end
  | WaitVerdict _, _ => interrupted true $"approval" e r
  | _, _ => None
  end.

Definition is_over (p : pair_phase) : bool := match p with Ended _ | PairedWith _ _ => true | _ => false end.

(** A step of the read loop, of the drain, or of WebRTC. *)
Definition around_step (e : pair_event) (r : pair_run) : option pair_run :=
  match e with
  | Hears m => match pr_reader r with Reads => Some (pair_dispatch m r) | _ => None end
  | SocketFails x => match pr_reader r with Reads => Some (on_pair_error x r <| pr_reader := Over |>) | _ => None end
  | GivesOver =>
    match pr_reader r with
    | GivesOffer m => if (length (pr_offers r) <? 1)%nat then Some (r <| pr_offers := pr_offers r ++ [m] |> <| pr_reader := Reads |>) else None
    | GivesCandidate m => if (length (pr_cands r) <? 16)%nat then Some (r <| pr_cands := pr_cands r ++ [m] |> <| pr_reader := Reads |>) else None
    | GivesRouted => if (pr_routed r <? 1)%nat then Some (r <| pr_routed := S (pr_routed r) |> <| pr_reader := Reads |>) else None
    | GivesOutcome x => if (length (pr_outcomes r) <? 1)%nat then Some (r <| pr_outcomes := pr_outcomes r ++ [x] |> <| pr_reader := Reads |>) else None
    | _ => None
    end
  | DrainsOne => if pr_draining r then match pr_cands r with m :: l => Some (r <| pr_cands := l |> <| pr_added := pr_added r ++ candidate_of m |>) | [] => None end else None
  | Finds c => match pr_described r with Some _ => Some (says (candidate_message c) r) | None => None end
  | ChannelOpens => match pr_described r with Some _ => Some (r <| pr_ready := true |>) | None => None end
  | Frame_ data => if pr_ready r then Some (r <| pr_inbox := pr_inbox r ++ [data] |> <| pr_arrived := pr_arrived r ++ [data] |>) else None
  | _ => None
  end.

(** Nothing happens after the end, which ends the process or leaves the connection. *)
Definition pair_exec (code : bytes) (relay : bool) (e : pair_event) (r : pair_run) : option pair_run :=
  if is_over (pr_at r) then None else match pair_step code relay e r with Some r' => Some r' | None => around_step e r end.

Fixpoint pair_runs (code : bytes) (relay : bool) (es : list pair_event) (r : pair_run) : option pair_run :=
  match es with [] => Some r | e :: es' => r' ← pair_exec code relay e r; pair_runs code relay es' r' end.

(** What pairing on the connector promises whatever the order of events: that it is the handshake of Pairing.v over
    the frames in the order they came and the descriptions it exchanged, that it has an end in sight, and where a
    rejection goes unheard. *)

#[local] Opaque ComputeSAS Commitment BuildPairCommit BuildPairReveal.

Section Run.
Variable code : bytes.
Variable relay : bool.

Abbreviation exec := (pair_exec code relay) (only parsing).
Abbreviation runs := (pair_runs code relay) (only parsing).

(** The fingerprints of the two descriptions. *)
Definition prints (d : option (bytes * bytes)) : bytes * bytes :=
  let '(mine, theirs) := default ([], []) d in (ExtractFingerprint mine, ExtractFingerprint theirs).

Definition challenged (ch rd : bytes) : Prop := ParsePairChallenge ch = Some rd /\ PairMessageType ch = MsgPairChallenge.

(** The description that the SAS is computed from went out as the answer, without a payload. *)
Definition answered (r : pair_run) : Prop := exists mine theirs, pr_described r = Some (mine, theirs) /\ answer_message mine [] ∈ pr_sent r.

(** What has been done, and with which frames, by each place of [runPairConnect]. *)
Definition at_phase (r : pair_run) : Prop :=
  match pr_at r with
  | ToConnect | ToInit | WaitRouted | WaitOffer | ToBuild _ | ToAnswer _ => pr_acts r = [] /\ pr_inbox r = pr_arrived r /\ pr_described r = None
  | ToSend sdp => pr_acts r = [] /\ pr_inbox r = pr_arrived r /\ exists theirs, pr_described r = Some (sdp, theirs)
  | WaitChannel | ToCommit => pr_acts r = [] /\ pr_inbox r = pr_arrived r /\ answered r
  | WaitChallenge rc => pr_acts r = [Sent (BuildPairCommit (Commitment rc))] /\ pr_inbox r = pr_arrived r /\ answered r
  | ToReveal rc rd => pr_acts r = [Sent (BuildPairCommit (Commitment rc))] /\ answered r /\ exists ch, pr_arrived r = ch :: pr_inbox r /\ challenged ch rd
  | WaitVerdict rc => answered r /\ exists ch rd, pr_arrived r = ch :: pr_inbox r /\ challenged ch rd /\
      ((prints (pr_described r)).1 <> [] /\ (prints (pr_described r)).2 <> []) /\
      pr_acts r = [Sent (BuildPairCommit (Commitment rc)); Sent (BuildPairReveal rc); Display (ComputeSAS rc rd (prints (pr_described r)).1 (prints (pr_described r)).2)]
  | PairedWith uid ac => answered r /\ exists rc ch v, pr_arrived r = ch :: v :: pr_inbox r /\
      runPairConnect rc (Some ch) (prints (pr_described r)).1 (prints (pr_described r)).2 (Some v) = (pr_acts r, Paired uid ac)
  | Ended _ => pr_acts r = [] \/ answered r /\ exists rc ch v,
      runPairConnect rc ch (prints (pr_described r)).1 (prints (pr_described r)).2 v = (pr_acts r, Pairing.Failed)
  end.

(** Steps that touch none of this. *)
Lemma at_phase_frame r r' : at_phase r -> pr_at r' = pr_at r -> pr_acts r' = pr_acts r -> pr_inbox r' = pr_inbox r -> pr_arrived r' = pr_arrived r ->
  pr_described r' = pr_described r -> (forall m, m ∈ pr_sent r -> m ∈ pr_sent r') -> at_phase r'.
Proof.
  unfold at_phase, answered. intros H -> -> -> -> -> Hs. destruct (pr_at r); try done.
  - destruct H as (H1 & H2 & mine & theirs & H3 & H4). split_and!; [done|done|]. exists mine, theirs. auto.
  - destruct H as (H1 & H2 & mine & theirs & H3 & H4). split_and!; [done|done|]. exists mine, theirs. auto.
  - destruct H as (H1 & H2 & mine & theirs & H3 & H4). split_and!; [done|done|]. exists mine, theirs. auto.
  - destruct H as (H1 & (mine & theirs & H3 & H4) & H5). split_and!; [done| |done]. exists mine, theirs. auto.
  - destruct H as ((mine & theirs & H3 & H4) & H5). split; [|done]. exists mine, theirs. auto.
  - destruct H as [H|((mine & theirs & H3 & H4) & H5)]; [by left|]. right. split; [|done]. exists mine, theirs. auto.
  - destruct H as ((mine & theirs & H3 & H4) & H5). split; [|done]. exists mine, theirs. auto.
Qed.

(** An interruption ends what has been done so far, which is the handshake without what was awaited. *)
Lemma interrupted_ends outcomes what e r r' : interrupted outcomes what e r = Some r' ->
  exists x, pr_at r' = Ended x /\ pr_acts r' = pr_acts r /\ pr_described r' = pr_described r /\ pr_sent r' = pr_sent r.
Proof. unfold interrupted. destruct e; try done; [destruct outcomes; [|done]; destruct (pr_outcomes r)|destruct (pr_errs r)|]; try done; intros [= <-]; by eexists. Qed.

Lemma interrupted_nothing outcomes what e r r' : interrupted outcomes what e r = Some r' -> pr_acts r = [] -> at_phase r'.
Proof. intros (x & E1 & E2 & _)%interrupted_ends Ha. unfold at_phase. rewrite E1, E2. by left. Qed.

(** The same at a wait of the handshake. *)
Lemma ends_failed r r' x rc ch v : pr_at r' = Ended x -> pr_described r' = pr_described r -> pr_sent r' = pr_sent r -> answered r ->
  runPairConnect rc ch (prints (pr_described r)).1 (prints (pr_described r)).2 v = (pr_acts r', Pairing.Failed) -> at_phase r'.
Proof.
  intros E1 E3 E4 Ha Hr. unfold at_phase. rewrite E1. right. split; [unfold answered in *; by rewrite E3, E4|]. exists rc, ch, v. by rewrite E3.
Qed.

Lemma handshake_shown rc ch rd l t v : challenged ch rd -> l <> [] -> t <> [] ->
  runPairConnect rc (Some ch) l t v =
    (let acts := [Sent (BuildPairCommit (Commitment rc)); Sent (BuildPairReveal rc); Display (ComputeSAS rc rd l t)] in
     match v with
     | None => (acts, Pairing.Failed)
     | Some data => if negb (bool_decide (PairMessageType data = MsgPairCredentials)) then (acts, Pairing.Failed)
                    else match ParsePairCredentials data with None => (acts, Pairing.Failed) | Some (uid, _, code) => (acts, Paired uid code) end
     end).
Proof.
  intros [H1 H2] Hl Ht. unfold runPairConnect. rewrite H1, H2, bool_decide_true by done. cbn [negb]. rewrite bool_decide_false by (by intros [?|?]). reflexivity.
Qed.

Lemma around_keeps e r r' : around_step e r = Some r' -> is_over (pr_at r) = false -> at_phase r -> at_phase r'.
Proof.
  assert (forall f : pair_run -> pair_run, at_phase r -> (pr_at (f r) = pr_at r /\ pr_acts (f r) = pr_acts r /\ pr_inbox (f r) = pr_inbox r /\ pr_arrived (f r) = pr_arrived r /\
    pr_described (f r) = pr_described r /\ pr_sent (f r) = pr_sent r) -> at_phase (f r)) as K.
  { intros f H (E1 & E2 & E3 & E4 & E5 & E6). eapply at_phase_frame; [exact H|done..|by rewrite E6]. }
  intros He Ho Hp. destruct e; cbn in He; try done.
  - destruct (pr_reader r); try done. injection He as <-. apply (K (pair_dispatch m) Hp). unfold pair_dispatch, on_pair_offer, on_pair_candidate, on_pair_error, on_routed, on_outcome.
    repeat case_match; by split_and!.
  - destruct (pr_reader r); try done. injection He as <-. refine (K (fun r => on_pair_error e r <| pr_reader := Over |>) Hp _). unfold on_pair_error, on_outcome. repeat case_match; by split_and!.
  - destruct (pr_reader r); try done; case_match; try done; injection He as <-; (eapply at_phase_frame; [exact Hp|done..|done]).
  - destruct (pr_draining r); [|done]. destruct (pr_cands r); [done|]. injection He as <-. by eapply at_phase_frame; [exact Hp|..].
  - destruct (pr_described r); [|done]. injection He as <-. eapply at_phase_frame; [exact Hp|done..|]. intros m Hm. apply elem_of_app. by left.
  - destruct (pr_described r) as [d|] eqn:Ed; [|done]. injection He as <-. eapply at_phase_frame; [exact Hp|..]; cbn; rewrite ?Ed; done.
  - destruct (pr_ready r); [|done]. injection He as <-. unfold at_phase, answered in *. cbn [pr_at pr_acts pr_inbox pr_arrived pr_described pr_sent upd].
    destruct (pr_at r); try done.
    all: try (destruct Hp as (H1 & -> & H3); by split_and!).
    + destruct Hp as (H1 & H2 & ch & -> & H3). split_and!; [done|done|]. by exists ch.
    + destruct Hp as (H1 & ch & rd & -> & H3). split; [done|]. by exists ch, rd.
Qed.

#[local] Opaque HandleOffer ExtractFingerprint runPairConnect.

Lemma waits_end outcomes what e r r' rc ch v : interrupted outcomes what e r = Some r' -> answered r ->
  runPairConnect rc ch (prints (pr_described r)).1 (prints (pr_described r)).2 v = (pr_acts r, Pairing.Failed) -> at_phase r'.
Proof. intros (x & E1 & E2 & E3 & E4)%interrupted_ends Ha Hr. eapply ends_failed; [exact E1|exact E3|exact E4|exact Ha|]. by rewrite E2. Qed.

#[local] Transparent runPairConnect.

Lemma step_keeps e r r' : pair_step code relay e r = Some r' -> at_phase r -> at_phase r'.
Proof.
  intros He Hp. unfold at_phase in Hp. unfold pair_step in He. destruct (pr_at r) as [| | | |m|m|sdp| | |rc|rc rd|rc|x|uid ac] eqn:Ea.
  - destruct e; try done. injection He as <-. destruct Hp as (H1 & H2 & H3). destruct (negb _); [by left|]. destruct ok; [by unfold at_phase|by left].
  - destruct e; try done. injection He as <-. destruct Hp as (H1 & H2 & H3). destruct ok; [by unfold at_phase|by left].
  - destruct Hp as (H1 & H2 & H3). destruct e; try (by eapply interrupted_nothing). destruct (pr_routed r); [done|]. injection He as <-. by unfold at_phase.
  - destruct Hp as (H1 & H2 & H3). destruct e; try (by eapply interrupted_nothing). destruct (pr_offers r); [done|]. injection He as <-. by unfold at_phase.
  - destruct e; try done. injection He as <-. destruct Hp as (H1 & H2 & H3). destruct ok; [by unfold at_phase|by left].
  - destruct e; try done. injection He as <-. destruct Hp as (H1 & H2 & H3). destruct (HandleOffer _ _ _ _ _ _ _ _) as [[[sdp enc] kn]|]; [|by left].
    unfold at_phase. cbn [pr_at pr_acts pr_inbox pr_arrived pr_described upd]. split_and!; [done|done|]. by eexists.
  - destruct e; try done. injection He as <-. destruct Hp as (H1 & H2 & theirs & H3). destruct ok; [|by left].
    unfold at_phase. cbn [pr_at pr_acts pr_inbox pr_arrived pr_described pr_sent upd says]. split_and!; [done|done|]. exists sdp, theirs. split; [done|]. apply elem_of_app. right. by left.
  - destruct Hp as (H1 & H2 & H3). destruct e; try (by eapply interrupted_nothing). destruct (pr_ready r); [|done]. injection He as <-. by unfold at_phase.
  - destruct e; try done. injection He as <-. destruct Hp as (H1 & H2 & H3). destruct drawn as [rc|]; [|by left]. destruct ok; [|by left].
    unfold at_phase. cbn [pr_at pr_acts pr_inbox pr_arrived pr_described pr_sent upd does]. by rewrite H1.
  - destruct Hp as (H1 & H2 & H3).
    destruct e; try (by eapply waits_end; [exact He|exact H3|]; rewrite H1; exact (eq_refl : runPairConnect rc None _ _ None = _)).
    destruct (pr_inbox r) as [|data l] eqn:Ei; [done|]. injection He as <-. destruct (ParsePairChallenge data) as [rd|] eqn:Ep.
    + case_bool_decide as Ht.
      * unfold at_phase, answered. cbn [pr_at pr_acts pr_inbox pr_arrived pr_described pr_sent upd]. split_and!; [done|done|]. exists data. by split.
      * eapply (ends_failed r _ _ rc (Some data) None); [reflexivity..|exact H3|]. cbn. rewrite H1, Ep. rewrite bool_decide_false by done. reflexivity.
    + eapply (ends_failed r _ _ rc (Some data) None); [reflexivity..|exact H3|]. cbn. by rewrite H1, Ep.
  - destruct e; try done. injection He as <-. destruct Hp as (H1 & H2 & ch & H3 & H4). destruct ok; cbn [negb].
    + unfold answered in H2. destruct H2 as (mine & theirs & Hd & Hs). rewrite Hd. cbn [default from_option id]. case_bool_decide as Hf.
      * eapply (ends_failed r _ _ rc (Some ch) None); [reflexivity..|by exists mine, theirs|]. rewrite Hd. cbn [prints default from_option fst snd]. unfold runPairConnect. destruct H4 as [-> ->].
        rewrite (bool_decide_true (_ = _)) by done. cbn [negb]. rewrite bool_decide_true by done. cbn. by rewrite H1.
      * unfold at_phase, answered. cbn [pr_at pr_acts pr_inbox pr_arrived pr_described pr_sent upd does]. split; [by exists mine, theirs|]. exists ch, rd. rewrite ?Hd. cbn [prints default from_option fst snd].
        split_and!; [done|done|intros E; by apply Hf; left|intros E; by apply Hf; right|by rewrite H1].
    + eapply (ends_failed r _ _ rc None None); [reflexivity..|exact H2|]. by cbn; rewrite H1.
  - destruct Hp as (H1 & ch & rd & H2 & H3 & [Hl Ht] & H4).
    destruct e; try (by eapply (waits_end _ _ _ _ _ rc (Some ch) None); [exact He|exact H1|]; rewrite (handshake_shown rc ch rd) by done; by rewrite H4).
    destruct (pr_inbox r) as [|data l] eqn:Ei; [done|]. injection He as <-. pose proof (handshake_shown rc ch rd _ _ (Some data) H3 Hl Ht) as Hr. cbn zeta in Hr. rewrite <- H4 in Hr.
    destruct (negb _); [by eapply (ends_failed r _ _ rc (Some ch) (Some data)); [reflexivity..|exact H1|]|].
    destruct (ParsePairCredentials data) as [[[uid pk] ac]|]; [|by eapply (ends_failed r _ _ rc (Some ch) (Some data)); [reflexivity..|exact H1|]].
    unfold at_phase, answered. cbn [pr_at pr_acts pr_inbox pr_arrived pr_described pr_sent upd]. split; [done|]. by exists rc, ch, data.
  - by destruct e.
  - by destruct e.
Qed.

Lemma exec_keeps e r r' : exec e r = Some r' -> at_phase r -> at_phase r'.
Proof.
  unfold pair_exec. destruct (is_over (pr_at r)) eqn:Eo; [done|]. destruct (pair_step code relay e r) as [r1|] eqn:Es.
  - intros [= <-]. by eapply step_keeps.
  - intros He. by eapply around_keeps.
Qed.

Lemma runs_keep es : forall r r', runs es r = Some r' -> at_phase r -> at_phase r'.
Proof.
  induction es as [|e es IH]; intros r r'; cbn; [by intros [= ->]|]. destruct (pair_exec code relay e r) as [r1|] eqn:E; [|done].
  intros H Hp. eapply IH; [exact H|]. by eapply exec_keeps.
Qed.

(** C26: Pairing on the connector is the handshake over its own channel: in every order of messages, callbacks and timers, a run
    that hands out a device and a code did exactly what [runPairConnect] does of the first two frames that arrived and
    of the two descriptions, of which its own is the one it answered with; the number it showed is computed from
    these, after its commitment; and a run that ended otherwise did what the handshake does up to there and hands out
    nothing. *)
Theorem pair_connect_is_handshake es r : runs es pair_start = Some r ->
  match pr_at r with
  | PairedWith uid ac => answered r /\ exists rc ch v, take 2 (pr_arrived r) = [ch; v] /\
      runPairConnect rc (Some ch) (prints (pr_described r)).1 (prints (pr_described r)).2 (Some v) = (pr_acts r, Paired uid ac)
  | Ended _ => pr_acts r = [] \/ answered r /\ exists rc ch v, runPairConnect rc ch (prints (pr_described r)).1 (prints (pr_described r)).2 v = (pr_acts r, Pairing.Failed)
  | WaitVerdict rc => exists ch rd, take 1 (pr_arrived r) = [ch] /\ challenged ch rd /\
      pr_acts r = [Sent (BuildPairCommit (Commitment rc)); Sent (BuildPairReveal rc); Display (ComputeSAS rc rd (prints (pr_described r)).1 (prints (pr_described r)).2)]
  | _ => forall sas, Display sas ∉ pr_acts r
  end.
Proof.
  intros Hr. assert (at_phase r) as H by (eapply runs_keep; [exact Hr|done]). unfold at_phase in H.
  destruct (pr_at r) as [| | | |m|m|sdp| | |rc|rc rd|rc|x|uid ac].
  1-9: destruct H as (-> & _); intros sas; apply not_elem_of_nil.
  - destruct H as (-> & _). intros sas E%list_elem_of_singleton. discriminate E.
  - destruct H as (-> & _). intros sas E%list_elem_of_singleton. discriminate E.
  - destruct H as (_ & ch & rd & -> & Hc & _ & Ha). exists ch, rd. by split_and!.
  - done.
  - destruct H as (Ha & rc & ch & v & -> & Hr'). split; [done|]. exists rc, ch, v. by split.
Qed.

(** Places in the order of [runPairConnect]. *)
Definition rank (p : pair_phase) : nat :=
  match p with
  | ToConnect => 12 | ToInit => 11 | WaitRouted => 10 | WaitOffer => 9 | ToBuild _ => 8 | ToAnswer _ => 7 | ToSend _ => 6
  | WaitChannel => 5 | ToCommit => 4 | WaitChallenge _ => 3 | ToReveal _ _ => 2 | WaitVerdict _ => 1 | Ended _ | PairedWith _ _ => 0
  end.

(** A pairing has an end in sight: wherever it is, the deadline or its next call brings it closer, whatever the read loop
    and WebRTC are doing; and each of its own steps does. *)
Lemma pair_connect_returns r : is_over (pr_at r) = false -> exists e r', exec e r = Some r' /\ (rank (pr_at r') < rank (pr_at r))%nat.
Proof.
  intros Ho. unfold pair_exec. rewrite Ho.
  destruct (pr_at r) as [| | | |m|m|sdp| | |rc|rc rd|rc|x|uid ac] eqn:Ea; try done;
    [exists (Dials false)|exists (Inits false)|exists Deadline|exists Deadline|exists (Builds false)|exists (HandlesOffer None)|exists (SendsAnswer false)|exists Deadline
    |exists (Commits None false)|exists Deadline|exists (Reveals false)|exists Deadline];
    unfold pair_step; rewrite Ea; cbn [interrupted]; try (eexists; split; [reflexivity|cbn; lia]).
  - destruct (negb (is_pair_code code)); eexists; (split; [reflexivity|cbn; lia]).
  - destruct (HandleOffer _ _ _ _ _ _ _ _) as [[[s enc] kn]|]; eexists; (split; [reflexivity|cbn; lia]).
Qed.

Lemma own_step_closer e r r' : pair_step code relay e r = Some r' -> (rank (pr_at r') < rank (pr_at r))%nat.
Proof.
  intros He. unfold pair_step in He. destruct (pr_at r) as [| | | |m|m|sdp| | |rc|rc rd|rc|x|uid ac] eqn:Ea; try (by destruct e);
    destruct e; cbn in He; try done; repeat (case_match; try done); injection He as <-; cbn; lia.
Qed.

(** Where a rejection goes unheard: it is documented to end the run, but while the channel is awaited nobody takes it, and
    only the deadline, an error or the channel itself gets the run any further. *)
Lemma rejection_unheard r e r' : pr_at r = WaitChannel -> pr_ready r = false -> pr_errs r = [] -> exec e r = Some r' ->
  pr_at r' = WaitChannel \/ pr_at r' = Ended (DeadlineAt $"data channel").
Proof.
  intros Ea Hr He. unfold pair_exec. rewrite Ea. cbn [is_over]. destruct (pair_step code relay e r) as [r1|] eqn:Es.
  - intros [= <-]. unfold pair_step in Es. rewrite Ea in Es. destruct e; cbn in Es; try done; [by rewrite He in Es|by injection Es as <-; right|by rewrite Hr in Es].
  - intros Hx. left. rewrite <- Ea. destruct e; cbn in Hx; try done.
    + destruct (pr_reader r); try done. injection Hx as <-. unfold pair_dispatch, on_pair_offer, on_pair_candidate, on_pair_error, on_routed, on_outcome. by repeat case_match.
    + destruct (pr_reader r); try done. injection Hx as <-. unfold on_pair_error, on_outcome. by repeat case_match.
    + destruct (pr_reader r); try done; case_match; try done; by injection Hx as <-.
    + destruct (pr_draining r); [|done]. destruct (pr_cands r); [done|]. by injection Hx as <-.
    + destruct (pr_described r); [|done]. by injection Hx as <-.
    + destruct (pr_described r); [|done]. by injection Hx as <-.
    + destruct (pr_ready r); [|done]. by injection Hx as <-.
Qed.

End Run.

(** * On paper *)

Definition paper_pair_offer : message := [($"type", JString $"offer"); ($"sdp", JString demo_sdp)].
Definition paper_pair_events : list pair_event :=
  [Dials true; Inits true; Hears [($"type", JString $"pair_routed")]; Hears paper_pair_offer; TakesRouted; TakesOffer; Builds true; HandlesOffer (Some demo_sdp); SendsAnswer true;
   ChannelOpens; TakesReady; Commits (Some nonce_a) true; Frame_ (BuildPairChallenge nonce_b); TakesFrame; Reveals true;
   Frame_ (BuildPairCredentials $"dev" $"key" $"code"); TakesFrame].

Lemma paper_pair_ends : exists r, pair_runs $"123456" false paper_pair_events pair_start = Some r /\ pr_at r = PairedWith $"dev" $"code" /\ length (pr_acts r) = 3%nat.
Proof.
  assert (match pair_runs $"123456" false paper_pair_events pair_start with
          | Some r => match pr_at r with PairedWith uid ac => bool_decide (uid = $"dev" /\ ac = $"code" /\ length (pr_acts r) = 3%nat) | _ => false end
          | None => false end = true) as H by (vm_compute; reflexivity).
  destruct (pair_runs _ _ _ _) as [r|]; [|done]. exists r. split; [done|]. destruct (pr_at r); try done. apply bool_decide_eq_true in H as (-> & -> & ->). done.
Qed.

Lemma pair_connect_is_handshake_witness : exists r rc ch v, pair_runs $"123456" false paper_pair_events pair_start = Some r /\ take 2 (pr_arrived r) = [ch; v] /\
  runPairConnect rc (Some ch) (prints (pr_described r)).1 (prints (pr_described r)).2 (Some v) = (pr_acts r, Paired $"dev" $"code").
Proof.
  destruct paper_pair_ends as (r & E & Ea & _). pose proof (pair_connect_is_handshake $"123456" false paper_pair_events r E) as H. rewrite Ea in H.
  destruct H as (_ & rc & ch & v & H1 & H2). exists r, rc, ch, v. exact (conj E (conj H1 H2)).
Defined.
