(* ===== verification/LocalDNS.v ===== *)
(** Reaching .local names (internal/localdns): the cache of answers, and [Resolver.DialContext], which asks the
    system first and multicast only where the system does not know the name. Dialing, multicast and the clock are
    inputs. *)

From S2P Require Import Prelude GoLib GoTime GoNet.

Definition minCacheTTL : Z := 30 * Second.
Definition maxCacheTTL : Z := 5 * Minute.

(** Lower-casing is that of ASCII: no other letter becomes one of .local. *)
Definition IsLocalName (host : bytes) : bool := HasSuffix (ToLower (TrimSuffix host $".")) $".local".

(** Addresses are their texts. *)
Record cacheEntry := mkCached { addr : bytes; expires : Z }.

Abbreviation Cache := (gmap bytes cacheEntry) (only parsing).

Definition cached (now : Z) (c : Cache) (host : bytes) : option bytes :=
  match c !! ToLower host with Some e => if now >? expires e then None else Some (addr e) | None => None end.

Definition clamp_ttl (ttl : Z) : Z := if ttl <? minCacheTTL then minCacheTTL else if ttl >? maxCacheTTL then maxCacheTTL else ttl.
Definition store (now : Z) (c : Cache) (host a : bytes) (ttl : Z) : Cache := <[ToLower host := mkCached a (now + clamp_ttl ttl)]> c.
Definition invalidate (c : Cache) (host : bytes) : Cache := delete (ToLower host) c.

(** How a dial ends: [NoSuchName] is a [net.DNSError]. *)
Inductive dialed {conn : Type} := Connected_ (c : conn) | NoSuchName | Refused.
Arguments dialed : clear implicits.

(** What a call does, in order: each is one call of the outside world or one critical section of the cache. *)
Inductive step := Dials (target : bytes) | Asks (host : bytes) | Stores (host a : bytes) (ttl : Z) | Drops (host : bytes).

Section Dial.
Context {conn : Type}.
(** The outcome of the n-th dial of the call, what multicast answers, and the cache as the call finds it. *)
Variable dial : nat -> bytes -> dialed conn.
Variable lookup : option (bytes * Z).
Variable hit : bytes -> option bytes.

(** [DialContext] from the system's resolver on; [n] dials have been made. *)
Definition system_first (n : nat) (host port target : bytes) : dialed conn * list step :=
  match dial n target with
  | NoSuchName =>
    match lookup with
    | None => (NoSuchName, [Dials target; Asks host])
    | Some (ip, ttl) => (dial (S n) (JoinHostPort ip port), [Dials target; Asks host; Stores host ip ttl; Dials (JoinHostPort ip port)])
    end
  | r => (r, [Dials target])
  end.

Definition DialContext (target : bytes) : dialed conn * list step :=
  match SplitHostPort target with
  | Err _ => (dial O target, [Dials target])
  | Ok (host, port) =>
    if negb (IsLocalName host) then (dial O target, [Dials target]) else
    match hit host with
    | None => system_first O host port target
    | Some ip =>
      let known := JoinHostPort ip port in
      match dial O known with
      | Connected_ c => (Connected_ c, [Dials known])
      | _ => let '(r, l) := system_first 1 host port target in (r, Dials known :: Drops host :: l)
      end
    end
  end.
End Dial.

(** What the steps do to the cache, at the time each is taken. *)
Definition cache_step (now : Z) (s : step) (c : Cache) : Cache :=
  match s with Stores host a ttl => store now c host a ttl | Drops host => invalidate c host | _ => c end.

(** A history of the cache: the steps of any number of calls, in the order their critical sections ran. *)
Definition cache_after (l : list (Z * step)) : Cache := foldl (fun c ts => cache_step ts.1 ts.2 c) ∅ l.

Definition touches (h : bytes) (s : step) : Prop := match s with Stores host _ _ | Drops host => ToLower host = h | _ => False end.

(** * What is promised *)

(** Which names a list of steps asks about. *)
#[local] Ltac asked := let h := fresh "h" in let Hx := fresh "Hx" in
  intros h Hx; repeat (apply elem_of_cons in Hx as [Hx|Hx]; [first [discriminate Hx|injection Hx as ->; by split]|]); by apply elem_of_nil in Hx.

Lemma clamp_bounds ttl : minCacheTTL <= clamp_ttl ttl <= maxCacheTTL.
Proof. unfold clamp_ttl, minCacheTTL, maxCacheTTL. change Minute with (60 * Second). change Second with 1000000000. repeat case_match; lia. Qed.

Lemma cache_history l h e : cache_after l !! h = Some e ->
  exists l1 t host a ttl l2, l = l1 ++ (t, Stores host a ttl) :: l2 /\ ToLower host = h /\ e = mkCached a (t + clamp_ttl ttl) /\ Forall (fun ts => ~ touches h ts.2) l2.
Proof.
  induction l as [|[t s] l IH] using rev_ind; [done|]. unfold cache_after. rewrite foldl_app. cbn [foldl fst snd]. fold (cache_after l).
  intros He. assert (cache_after l !! h = Some e /\ ~ touches h s \/ exists host a ttl, s = Stores host a ttl /\ ToLower host = h /\ e = mkCached a (t + clamp_ttl ttl)) as [[H Hn]|(host & a & ttl & -> & Hh & ->)].
  { destruct s as [target|host|host a ttl|host]; cbn [cache_step touches] in *; [left; split; [done|by intros []]|left; split; [done|by intros []]| |].
    - unfold store in He. destruct (decide (ToLower host = h)) as [<-|Hne].
      + rewrite lookup_insert_eq in He. injection He as <-. right. by exists host, a, ttl.
      + rewrite lookup_insert_ne in He by done. by left.
    - unfold invalidate in He. destruct (decide (ToLower host = h)) as [<-|Hne]; [by rewrite lookup_delete_eq in He|].
      rewrite lookup_delete_ne in He by done. by left. }
  - destruct (IH H) as (l1 & t' & host & a & ttl & l2 & -> & Hh & -> & HF). exists l1, t', host, a, ttl, (l2 ++ [(t, s)]). rewrite <- app_assoc. split_and!; try done.
    apply Forall_app. split; [done|]. by constructor.
  - by exists l, t, host, a, ttl, [].
Qed.

(** An address is taken from the cache only where it is the last answer stored for the name, in any case of its
    letters, and not dropped since; and at most five minutes after that. *)
Lemma cached_answer_recent l now host a : cached now (cache_after l) host = Some a ->
  exists l1 t host' ttl l2, l = l1 ++ (t, Stores host' a ttl) :: l2 /\ ToLower host' = ToLower host /\ now <= t + maxCacheTTL /\
  Forall (fun ts => ~ touches (ToLower host) ts.2) l2.
Proof.
  unfold cached. destruct (cache_after l !! ToLower host) as [e|] eqn:E; [|done]. destruct (now >? expires e) eqn:En; [done|]. intros [= <-].
  destruct (cache_history _ _ _ E) as (l1 & t & host' & a & ttl & l2 & -> & Hh & -> & HF). exists l1, t, host', ttl, l2. cbn in *. split_and!; try done.
  rewrite Z.gtb_ltb in En. apply Z.ltb_ge in En. pose proof (clamp_bounds ttl). lia.
Qed.

(** A new answer holds for half a minute. *)
Lemma new_answer_held c t host a ttl now : now <= t + minCacheTTL -> cached now (store t c host a ttl) host = Some a.
Proof.
  intros Hn. unfold cached, store. rewrite lookup_insert_eq. cbn. rewrite Z.gtb_ltb. pose proof (clamp_bounds ttl).
  by rewrite (proj2 (Z.ltb_ge _ _)) by lia.
Qed.

Section Dialing.
Context {conn : Type}.
Variable dial : nat -> bytes -> dialed conn.
Variable lookup : option (bytes * Z).
Variable hit : bytes -> option bytes.

Abbreviation DialContext' := (DialContext dial lookup hit) (only parsing).

Definition dials (l : list step) : list bytes := omap (fun s => match s with Dials t => Some t | _ => None end) l.

(** What a call of the system's resolver leaves: [l] are the steps from there on, after [n] dials. *)
Lemma system_first_spec n host port target r l : system_first dial lookup n host port target = (r, l) ->
  (length (dials l) <= 2)%nat /\ (forall c, r = Connected_ c -> exists t, last (dials l) = Some t /\ dial (n + length (dials l) - 1) t = Connected_ c) /\
  (forall h, Asks h ∈ l -> h = host /\ dial n target = NoSuchName) /\ head l = Some (Dials target) /\ Forall (fun s => forall h, s <> Drops h) l.
Proof.
  unfold system_first. destruct (dial n target) as [c| |] eqn:Ed.
  - intros [= <- <-]. cbn. split_and!; [lia| |asked|done|by repeat constructor]. intros c' [= <-]. exists target. split; [done|]. by replace (n + 1 - 1)%nat with n by lia.
  - destruct lookup as [[ip ttl]|]; intros [= <- <-]; cbn.
    + split_and!; [lia| |asked|done|by repeat constructor]. intros c Hc. eexists. split; [done|]. by replace (n + 2 - 1)%nat with (S n) by lia.
    + split_and!; [lia|done|asked|done|by repeat constructor].
  - intros [= <- <-]. cbn. split_and!; [lia|done|asked|done|by repeat constructor].
Qed.

(** Dialing a .local name: any other target is dialed as it is, once. For a .local one, at most three dials are made and the
    last is the one whose connection is returned; multicast is asked only about the name, and only where the system
    reported that it does not know it, never after a refusal; and an address from the cache that does not
    connect is dropped before anything else is tried. *)
Theorem dial_local_sound target r l : DialContext' target = (r, l) ->
  (forall host port, SplitHostPort target = Ok (host, port) -> IsLocalName host = true \/ (r = dial O target /\ l = [Dials target])) /\
  (1 <= length (dials l) <= 3)%nat /\
  (forall c, r = Connected_ c -> exists t, last (dials l) = Some t /\ dial (length (dials l) - 1) t = Connected_ c) /\
  (forall h, Asks h ∈ l -> exists port n, SplitHostPort target = Ok (h, port) /\ IsLocalName h = true /\ dial n target = NoSuchName) /\
  (forall host port ip, SplitHostPort target = Ok (host, port) -> IsLocalName host = true -> hit host = Some ip ->
    l = [Dials (JoinHostPort ip port)] /\ (exists c, r = Connected_ c) \/ take 3 l = [Dials (JoinHostPort ip port); Drops host; Dials target]).
Proof.
  unfold DialContext. destruct (SplitHostPort target) as [[host port]|] eqn:Es.
  2:{ intros [= <- <-]. cbn. split_and!; [done|lia|lia| |asked|done]. intros c Hc. by exists target. }
  destruct (IsLocalName host) eqn:El; cbn [negb].
  2:{ intros [= <- <-]. cbn. split_and!; [|lia|lia| |asked|]; [by intros ? ? [= <- <-]; right| |by intros ? ? ? [= <- <-] ?; congruence]. intros c Hc. by exists target. }
  destruct (hit host) as [ip|] eqn:Eh.
  - assert (forall r l, (let '(r, l) := system_first dial lookup 1 host port target in (r, Dials (JoinHostPort ip port) :: Drops host :: l)) = (r, l) ->
      (1 <= length (dials l) <= 3)%nat /\ (forall c, r = Connected_ c -> exists t, last (dials l) = Some t /\ dial (length (dials l) - 1) t = Connected_ c) /\
      (forall h, Asks h ∈ l -> exists p n, Ok (host, port) = Ok (h, p) :> result addr_error (bytes * bytes) /\ IsLocalName h = true /\ dial n target = NoSuchName) /\
      take 3 l = [Dials (JoinHostPort ip port); Drops host; Dials target]) as K.
    { clear r l. intros r l. destruct (system_first _ _ _ _ _ _) as [r0 l0] eqn:Ef. intros [= -> <-]. destruct (system_first_spec _ _ _ _ _ _ Ef) as (H1 & H2 & H3 & H4 & _).
      destruct l0 as [|s0 l0]; [done|]. injection H4 as ->. cbn in *. split_and!; [lia|lia| | |done].
      - intros c Hc. destruct (H2 c Hc) as (t & Ht & Hd). exists t. split; [done|]. by replace (S (S (length (dials l0))) - 1)%nat with (1 + S (length (dials l0)) - 1)%nat by lia.
      - intros h [Hx|[Hx|Hx]%elem_of_cons]%elem_of_cons; [discriminate Hx|discriminate Hx|]. destruct (H3 h Hx) as [-> Hn]. by exists port, 1%nat. }
    destruct (dial O (JoinHostPort ip port)) as [c| |] eqn:Ed.
    + intros [= <- <-]. cbn. split_and!; [intros ? ? [= <- <-]; by left|lia|lia| |asked|].
      * intros c' [= <-]. eexists. by split.
      * intros ? ? ip' [= <- <-] _ Hi. rewrite Eh in Hi. injection Hi as <-. left. split; [done|by eexists].
    + intros Hx. destruct (K _ _ Hx) as (K1 & K2 & K3 & K4). split_and!; [intros ? ? [= <- <-]; by left|apply K1|apply K1|exact K2|exact K3|]. intros ? ? ip' [= <- <-] _ Hi. rewrite Eh in Hi. injection Hi as <-. by right.
    + intros Hx. destruct (K _ _ Hx) as (K1 & K2 & K3 & K4). split_and!; [intros ? ? [= <- <-]; by left|apply K1|apply K1|exact K2|exact K3|]. intros ? ? ip' [= <- <-] _ Hi. rewrite Eh in Hi. injection Hi as <-. by right.
  - intros Hx. destruct (system_first_spec _ _ _ _ _ _ Hx) as (H1 & H2 & H3 & H4 & _). split_and!; [intros ? ? [= <- <-]; by left| |lia| | |].
    + destruct l as [|s0 l]; [done|]. injection H4 as ->. cbn. lia.
    + intros c Hc. destruct (H2 c Hc) as (t & Ht & Hd). exists t. by split.
    + intros h Hh. destruct (H3 h Hh) as [-> Hn]. by exists port, O.
    + intros ? ? ? [= <- <-] _ Hi. congruence.
Qed.

End Dialing.

Example DialContext_sample :
  DialContext (fun n t => if bool_decide (t = $"10.0.0.7:80") then Connected_ n else NoSuchName) (Some ($"10.0.0.7", 0)) (fun _ => Some $"10.0.0.9") $"NAS.Local.:80" =
  (Connected_ 2%nat, [Dials $"10.0.0.9:80"; Drops $"NAS.Local."; Dials $"NAS.Local.:80"; Asks $"NAS.Local."; Stores $"NAS.Local." $"10.0.0.7" 0; Dials $"10.0.0.7:80"]).
Proof. reflexivity. Qed.
