(* ===== verification/Mirror.v ===== *)
(** What a listener shows of its remote shells on its own terminal (internal/streamtype/shell.go: [lineMirror]): the
    escape sequences and control characters taken out, a line at a time. The regular expressions are executed byte by
    byte, which agrees with their reading of runes: their classes hold ASCII characters, or all but two of these. *)

From S2P Require Import Prelude GoLib.

Definition esc : ascii := chr 27.
Definition newline : ascii := chr 10.
Definition carriage_return : ascii := chr 13.

Definition mirrorPrefix : bytes := map chr [226; 148; 130; 32].
Definition ansiDim : bytes := esc :: $"[2m".
Definition ansiReset : bytes := esc :: $"[0m".

(** The three alternatives of [ansiEscape], each on what follows its first two bytes; the result is what follows the match. *)
Definition csi (s : bytes) : option bytes :=
  let s := (span (fun c => between 48 63 (code c)) s).2 in
  match (span (fun c => between 32 47 (code c)) s).2 with c :: s => if between 64 126 (code c) then Some s else None | [] => None end.

Definition osc (s : bytes) : option bytes :=
  match (span (fun c => negb (bool_decide (code c = 7 \/ c = esc))) s).2 with
  | c :: s => if bool_decide (code c = 7) then Some s else match s with "\"%char :: s => Some s | _ => None end
  | [] => None
  end.

(** [[@-Z\\-_]]: the bracket that opens a CSI is not among them, the one that opens an OSC is. *)
Definition two_byte (c : ascii) : bool := between 64 90 (code c) || between 92 95 (code c).

Definition escape (s : bytes) : option bytes :=
  match s with
  | "["%char :: s => csi s
  | c :: s => match (if bool_decide (c = "]"%char) then osc s else None) with Some r => Some r | None => if two_byte c then Some s else None end
  | [] => None
  end.

(** [ansiEscape.ReplaceAll] by nothing; a match or a byte a turn. *)
Fixpoint strip_escapes (fuel : nat) (s : bytes) : bytes :=
  match fuel, s with
  | S n, c :: s => match (if bool_decide (c = esc) then escape s else None) with Some r => strip_escapes n r | None => c :: strip_escapes n s end
  | _, _ => []
  end.

(** [otherControl]. *)
Definition other_control (c : ascii) : bool := between 0 8 (code c) || between 11 31 (code c) || (code c =? 127).

Definition cleaned (line : bytes) : bytes := List.filter (fun c => negb (other_control c)) (strip_escapes (length line) line).

(** A mirror, with the calls of its writer so far: three a line, each by itself. *)
Record lineMirror := mkMirror { buf : bytes; color : bool; lastRedraw : bytes; writes : list bytes }.
#[export] Instance eta_lineMirror : Eta lineMirror := fun r => mkMirror (buf r) (color r) (lastRedraw r) (writes r).

(** [newLineMirror]: colored where the writer is a file that is a terminal. *)
Definition newLineMirror (terminal_file : bool) : lineMirror := mkMirror [] terminal_file [] [].

Definition decorated (col : bool) (text : bytes) : list bytes :=
  if col then [ansiDim ++ mirrorPrefix; text; ansiReset ++ [newline]] else [mirrorPrefix; text; [newline]].

Definition flushLine (isRedraw : bool) (m : lineMirror) : lineMirror :=
  match buf m with
  | [] => m
  | line =>
    let m := m <| buf := [] |> in
    match cleaned line with
    | [] => m
    | text =>
      if isRedraw && bool_decide (text = lastRedraw m) then m else
      m <| lastRedraw := (if isRedraw then text else []) |> <| writes := writes m ++ decorated (color m) text |>
    end
  end.

Definition mirror_byte (m : lineMirror) (b : ascii) : lineMirror :=
  if bool_decide (b = newline) then flushLine false m
  else if bool_decide (b = carriage_return) then flushLine true m
  else m <| buf := buf m ++ [b] |>.

(** [lineMirror.Write]; the pump calls it with each chunk of the output. *)
Definition Write (m : lineMirror) (p : bytes) : lineMirror := foldl mirror_byte m p.

(** * What is shown *)

(** The lines of an output, each with whether a carriage return ended it, and what no end of line has followed. *)
Fixpoint lines_of (acc s : bytes) : list (bytes * bool) * bytes :=
  match s with
  | [] => ([], acc)
  | b :: s =>
    if bool_decide (b = newline) then let '(l, r) := lines_of [] s in ((acc, false) :: l, r)
    else if bool_decide (b = carriage_return) then let '(l, r) := lines_of [] s in ((acc, true) :: l, r)
    else lines_of (acc ++ [b]) s
  end.

(** The texts shown of such lines: all but the empty ones and redraws that show the same again. *)
Fixpoint shown (last : bytes) (l : list (bytes * bool)) : list bytes :=
  match l with
  | [] => []
  | (line, redraw) :: l =>
    match cleaned line with
    | [] => shown last l
    | text => if redraw && bool_decide (text = last) then shown last l else text :: shown (if redraw then text else []) l
    end
  end.

Lemma flushLine_spec r m : let m' := flushLine r m in
  buf m' = [] /\ color m' = color m /\
  exists texts, writes m' = writes m ++ (texts ≫= decorated (color m)) /\ forall l, shown (lastRedraw m) ((buf m, r) :: l) = texts ++ shown (lastRedraw m') l.
Proof.
  unfold flushLine. destruct (buf m) as [|b line] eqn:Eb; cbn [shown].
  - split_and!; [done|done|]. exists []. by rewrite app_nil_r.
  - destruct (cleaned (b :: line)) as [|c text]; [split_and!; [done|done|]; exists []; by rewrite app_nil_r|].
    destruct (r && _)%bool; (split_and!; [done|done|]); [exists []; by rewrite app_nil_r|]. exists [c :: text]. cbn. by rewrite app_nil_r.
Qed.

Lemma Write_spec p m : let m' := Write m p in
  buf m' = (lines_of (buf m) p).2 /\ color m' = color m /\
  writes m' = writes m ++ (shown (lastRedraw m) (lines_of (buf m) p).1 ≫= decorated (color m)).
Proof.
  revert m. induction p as [|b p IH]; intros m; cbn [lines_of].
  - split_and!; [done|done|]. cbn. by rewrite app_nil_r.
  - cbn [Write foldl]. change (foldl mirror_byte (mirror_byte m b) p) with (Write (mirror_byte m b) p). destruct (IH (mirror_byte m b)) as (H1 & H2 & H3).
    assert (forall r, mirror_byte m b = flushLine r m -> (let '(l, x) := lines_of [] p in ((buf m, r) :: l, x)) = lines_of (buf m) (b :: p) ->
      buf (Write (mirror_byte m b) p) = (lines_of (buf m) (b :: p)).2 /\ color (Write (mirror_byte m b) p) = color m /\
      writes (Write (mirror_byte m b) p) = writes m ++ (shown (lastRedraw m) (lines_of (buf m) (b :: p)).1 ≫= decorated (color m))) as K.
    { intros r Hf <-. destruct (flushLine_spec r m) as (F1 & F2 & texts & F3 & F4). rewrite <- Hf in *. rewrite F1 in *. destruct (lines_of [] p) as [l x].
      cbn [fst snd] in *. split_and!; [done|by rewrite H2|]. by rewrite H3, F2, F3, F4, bind_app, app_assoc. }
    cbn [lines_of] in K. revert K H1 H2 H3. unfold mirror_byte. case_bool_decide; [|case_bool_decide].
    + intros K _ _ _. by apply (K false).
    + intros K _ _ _. by apply (K true).
    + intros _ H1 H2 H3. by split_and!.
Qed.

Lemma shown_lines l : forall last, Forall (fun t => exists line r, (line, r) ∈ l /\ t = cleaned line) (shown last l).
Proof.
  induction l as [|[line r] l IH]; intros last; cbn [shown]; [constructor|].
  assert (forall last, Forall (fun t => exists line' r', (line', r') ∈ (line, r) :: l /\ t = cleaned line') (shown last l)) as IH'.
  { intros la. eapply Forall_impl; [apply IH|]. intros t (li & r' & H & ->). exists li, r'. split; [by right|done]. }
  destruct (cleaned line) as [|c text] eqn:Ec; [apply IH'|]. destruct (_ && _)%bool; [apply IH'|]. constructor; [|apply IH'].
  exists line, r. split; [by left|done].
Qed.

Lemma cleaned_tame line : Forall (fun c => other_control c = false) (cleaned line).
Proof. unfold cleaned. apply Forall_forall. intros c [_ H]%list_elem_of_In%filter_In. by apply negb_true_iff in H. Qed.

Lemma span_suffix f s : (span f s).2 `suffix_of` s.
Proof.
  induction s as [|c s IH]; [done|]. cbn. destruct (f c); [|done]. destruct (span f s) as [a b]. cbn in *. by apply suffix_cons_r.
Qed.

Lemma escape_suffix s r : escape s = Some r -> r `suffix_of` s.
Proof.
  unfold escape. destruct s as [|c s]; [done|].
  assert (forall x, csi s = Some x -> x `suffix_of` s) as Hc.
  { unfold csi. intros x. destruct (span _ (span _ s).2).2 as [|d t] eqn:E; [done|]. destruct (between _ _ _); [|done]. intros [= <-].
    etrans; [|apply (span_suffix (fun c => between 48 63 (code c)))]. etrans; [|apply (span_suffix (fun c => between 32 47 (code c)))]. rewrite E. by apply suffix_cons_r. }
  assert (forall x, osc s = Some x -> x `suffix_of` s) as Ho.
  { unfold osc. intros x. set (f := fun c => _). destruct (span f s).2 as [|d t] eqn:E; [done|]. pose proof (span_suffix f s) as Hs. rewrite E in Hs.
    case_bool_decide; [intros [= <-]|destruct t as [|e t]; [done|intros Hx; assert (x = t) as -> by (repeat case_match; congruence)]].
    - etrans; [|exact Hs]. by apply suffix_cons_r.
    - etrans; [|exact Hs]. by apply suffix_cons_r, suffix_cons_r. }
  intros H. apply suffix_cons_r.
  assert (csi s = Some r \/ osc s = Some r \/ r = s) as [K|[K| -> ]]; [|by apply Hc|by apply Ho|done].
  destruct (decide (c = "["%char)) as [->|Hn]; [by left|right].
  assert (match (if bool_decide (c = "]"%char) then osc s else None) with Some r => Some r | None => if two_byte c then Some s else None end = Some r) as H'.
  { rewrite <- H. destruct c as [[] [] [] [] [] [] [] []]; try reflexivity; by destruct Hn. }
  case_bool_decide; [destruct (osc s); [left; congruence|]|]; right; destruct (two_byte c); congruence.
Qed.

Lemma strip_sublist n s : strip_escapes n s `sublist_of` s.
Proof.
  revert s. induction n as [|n IH]; intros [|c s]; cbn; try apply sublist_nil_l. case_bool_decide; [|by apply sublist_skip].
  destruct (escape s) as [r|] eqn:E; [|by apply sublist_skip]. apply sublist_cons. etrans; [apply IH|].
  destruct (escape_suffix _ _ E) as [k ->]. by apply sublist_inserts_l.
Qed.

Lemma filter_sublist (f : ascii -> bool) s : List.filter f s `sublist_of` s.
Proof. induction s as [|c s IH]; cbn; [done|]. destruct (f c); [by apply sublist_skip|by apply sublist_cons]. Qed.

Lemma cleaned_sublist line : cleaned line `sublist_of` line.
Proof. unfold cleaned. etrans; [apply filter_sublist|apply strip_sublist]. Qed.

Lemma strip_plain s n : (length s <= n)%nat -> esc ∉ s -> strip_escapes n s = s.
Proof.
  revert n. induction s as [|c s IH]; intros [|n] Hn He; cbn in *; try done; [lia|]. apply not_elem_of_cons in He as [Hc He].
  rewrite bool_decide_eq_false_2 by congruence. f_equal. apply IH; [lia|done].
Qed.

(** A line without control characters is shown as it is. *)
Lemma cleaned_plain line : Forall (fun c => other_control c = false) line -> cleaned line = line.
Proof.
  intros HF. unfold cleaned. rewrite strip_plain; [|done|].
  - induction HF as [|c l Hc _ IH]; cbn; [done|]. by rewrite Hc, IH.
  - intros He. rewrite Forall_forall in HF. by specialize (HF _ He).
Qed.

(** What the mirror may show: a tab or a byte from the space on, and no DEL. *)
Definition text_byte (c : ascii) : Prop := (code c = 9 \/ 32 <= code c) /\ code c <> 127.

(** A line of such bytes with complete escape sequences among them, and its text: CSI sequences (parameters, then
    intermediates, then the final byte), OSC sequences up to their BEL or ST, and the short ones of two bytes. *)
Inductive decodes : bytes -> bytes -> Prop :=
| dec_nil : decodes [] []
| dec_byte c l t : text_byte c -> decodes l t -> decodes (c :: l) (c :: t)
| dec_csi params inter final l t :
    Forall (fun c => 48 <= code c <= 63) params -> Forall (fun c => 32 <= code c <= 47) inter -> 64 <= code final <= 126 ->
    decodes l t -> decodes (esc :: "["%char :: params ++ inter ++ final :: l) t
| dec_osc body st l t :
    Forall (fun c => code c <> 7 /\ code c <> 27) body -> st = [chr 7] \/ st = [esc; "\"%char] ->
    decodes l t -> decodes (esc :: "]"%char :: body ++ st ++ l) t
| dec_short c l t : 64 <= code c <= 90 \/ code c = 92 \/ code c = 94 \/ code c = 95 -> decodes l t -> decodes (esc :: c :: l) t.

Lemma between_spec lo hi z : between lo hi z = true <-> lo <= z <= hi.
Proof. unfold between. rewrite andb_true_iff, !Z.leb_le. done. Qed.

Lemma text_byte_spec c : text_byte c -> other_control c = false /\ c <> esc.
Proof.
  intros [H1 H2]. split; [|intros ->; change (code esc) with 27 in H1; lia]. unfold other_control. apply not_true_iff_false.
  rewrite !orb_true_iff, !between_spec, Z.eqb_eq. lia.
Qed.

Lemma span_app f s r : Forall (fun x => f x = true) s -> (match r with c :: _ => f c = false | [] => True end) -> (span f (s ++ r)).2 = r.
Proof.
  intros Hs Hr. induction Hs as [|x s Hx _ IH]; cbn.
  - destruct r as [|c r]; [done|]. cbn. by rewrite Hr.
  - rewrite Hx. by destruct (span f (s ++ r)).
Qed.

Lemma csi_match params inter final l :
  Forall (fun c => 48 <= code c <= 63) params -> Forall (fun c => 32 <= code c <= 47) inter -> 64 <= code final <= 126 ->
  csi (params ++ inter ++ final :: l) = Some l.
Proof.
  intros Hp Hi Hf. assert (forall lo hi z, ~ lo <= z <= hi -> between lo hi z = false) as Hb.
  { intros lo hi z Hz. apply not_true_iff_false. by rewrite between_spec. }
  unfold csi. rewrite (span_app (fun c => between 48 63 (code c)) params).
  - rewrite (span_app (fun c => between 32 47 (code c)) inter).
    + by rewrite (proj2 (between_spec 64 126 _) Hf).
    + eapply Forall_impl; [exact Hi|]. intros c Hc. by apply between_spec.
    + apply Hb. lia.
  - eapply Forall_impl; [exact Hp|]. intros c Hc. by apply between_spec.
  - destruct Hi as [|c inter Hc _]; cbn [app]; apply Hb; lia.
Qed.

Lemma osc_match body st l :
  Forall (fun c => code c <> 7 /\ code c <> 27) body -> st = [chr 7] \/ st = [esc; "\"%char] -> osc (body ++ st ++ l) = Some l.
Proof.
  intros Hb Hst. unfold osc. rewrite (span_app _ body).
  - by destruct Hst as [->| ->].
  - eapply Forall_impl; [exact Hb|]. intros c [H7 H27]. rewrite bool_decide_false; [done|]. intros [?| ->]; [done|]. by vm_compute in H27.
  - by destruct Hst as [->| ->].
Qed.

Lemma escape_short c l : 64 <= code c <= 90 \/ code c = 92 \/ code c = 94 \/ code c = 95 -> escape (c :: l) = Some l.
Proof.
  intros H. assert (code "["%char = 91 /\ code "]"%char = 93) as [E1 E2] by by vm_compute.
  assert (c <> "["%char /\ c <> "]"%char) as [N1 N2] by (split; intros ->; lia).
  assert (two_byte c = true) as Ht by (unfold two_byte; rewrite orb_true_iff, !between_spec; lia).
  assert (escape (c :: l) = match (if bool_decide (c = "]"%char) then osc l else None) with Some r => Some r | None => if two_byte c then Some l else None end) as ->
    by (destruct c as [[] [] [] [] [] [] [] []]; try reflexivity; by destruct N1).
  by rewrite bool_decide_false, Ht.
Qed.

(** Complete sequences leave the text. *)
Lemma decodes_cleaned l t : decodes l t -> cleaned l = t.
Proof.
  intros H. unfold cleaned. generalize (le_n (length l)). generalize (length l) at 2 3 as n.
  induction H as [|c l t Hc _ IH|params inter final l t Hp Hi Hf _ IH|body st l t Hb Hst _ IH|c l t Hc _ IH]; intros [|n] Hn; cbn [length] in Hn; try lia; try done.
  - destruct (text_byte_spec c Hc) as [Ho He]. cbn [strip_escapes]. rewrite bool_decide_false by done. cbn [List.filter]. rewrite Ho. cbn.
    f_equal. apply IH. lia.
  - rewrite !length_app in Hn. cbn [length] in Hn. cbn [strip_escapes]. rewrite bool_decide_true by done. cbn [escape]. rewrite csi_match by done. apply IH. lia.
  - rewrite !length_app in Hn. cbn [strip_escapes]. rewrite bool_decide_true by done.
    change (escape ("]"%char :: body ++ st ++ l)) with (match osc (body ++ st ++ l) with Some r => Some r | None => Some (body ++ st ++ l) end).
    rewrite osc_match by done. apply IH. lia.
  - cbn [strip_escapes]. rewrite bool_decide_true by done. rewrite escape_short by done. apply IH. lia.
Qed.

Lemma lines_no_newline s : forall acc line r, newline ∉ acc -> (line, r) ∈ (lines_of acc s).1 -> newline ∉ line.
Proof.
  induction s as [|b s IH]; intros acc line r Ha; cbn; [by intros ?%elem_of_nil|].
  assert (forall x, (line, r) ∈ (let '(l, rest) := lines_of [] s in ((acc, x) :: l, rest)).1 -> newline ∉ line) as Hend.
  { intros x. pose proof (IH [] line r (not_elem_of_nil _)) as Hi. destruct (lines_of [] s) as [l rest]. cbn in *.
    intros [[= -> ->]|?]%elem_of_cons; auto. }
  case_bool_decide as E; [apply Hend|]. case_bool_decide; [apply Hend|]. apply IH. rewrite not_elem_of_app. split; [done|].
  intros ?%list_elem_of_singleton. congruence.
Qed.

Lemma cleaned_text line : newline ∉ line -> Forall text_byte (cleaned line).
Proof.
  intros Hn. apply Forall_forall. intros c Hc. pose proof (cleaned_tame line) as HF. rewrite Forall_forall in HF. specialize (HF c Hc).
  assert (code c <> 10) as H10.
  { intros E. apply Hn. replace newline with c; [by eapply elem_of_sublist, cleaned_sublist|]. rewrite <- (byte_of_Z_of_byte c). unfold code in E. by rewrite E. }
  unfold other_control in HF. apply orb_false_iff in HF as [[H1 H2]%orb_false_iff H3]. apply Z.eqb_neq in H3.
  apply not_true_iff_false in H1, H2. rewrite between_spec in H1, H2. pose proof (Z_of_byte_range c). unfold text_byte, code in *. lia.
Qed.

(** C37: No escape sequence that begins with ESC reaches the terminal of the listener from a remote shell, and of the control
    characters below the space only the tab does: whatever a process writes, in whatever pieces, the mirror writes
    whole lines in the listener's own decoration; each text is made from one finished line of the process by leaving
    bytes out, and every byte of it is a tab or at least 32, and not 127. Nothing else is changed: a line of such
    bytes and complete escape sequences is shown as just those bytes; lines come in order, a line without text and a redraw equal
    to the one before left out; and how the output was cut into pieces makes no difference. The controls of C1, which have bytes above 127,
    are not among what is taken out ([c1_control_passes]). *)
Theorem mirror_output_tame tty chunks :
  let m := foldl Write (newLineMirror tty) chunks in
  let '(ls, rest) := lines_of [] (concat chunks) in
  buf m = rest /\ exists texts, writes m = texts ≫= decorated tty /\ texts = shown [] ls /\
  forall t, t ∈ texts ->
    (forall c, c ∈ t -> (code c = 9 \/ 32 <= code c) /\ code c <> 127) /\
    exists line redraw, (line, redraw) ∈ ls /\ t `sublist_of` line /\ forall t', decodes line t' -> t = t'.
Proof.
  assert (foldl Write (newLineMirror tty) chunks = Write (newLineMirror tty) (concat chunks)) as ->.
  { generalize (newLineMirror tty) as m. induction chunks as [|p l IH]; intros m; cbn; [done|]. rewrite IH. unfold Write. by rewrite foldl_app. }
  destruct (Write_spec (concat chunks) (newLineMirror tty)) as (H1 & _ & H3). cbn zeta. cbn [buf newLineMirror color lastRedraw writes app] in *.
  pose proof (lines_no_newline (concat chunks) []) as Hnl.
  destruct (lines_of [] (concat chunks)) as [ls rest]. cbn [fst snd] in *. split; [done|]. exists (shown [] ls). split_and!; [done|done|].
  intros t Ht. pose proof (shown_lines ls []) as HF. rewrite Forall_forall in HF. destruct (HF t Ht) as (line & r & Hl & ->). split.
  - pose proof (cleaned_text line (Hnl line r (not_elem_of_nil _) Hl)) as Hc. rewrite Forall_forall in Hc. exact Hc.
  - exists line, r. split_and!; [done|apply cleaned_sublist|apply decodes_cleaned].
Qed.

(** * Where it falls short *)

(** The controls of C1 pass, in the two bytes that encode them: U+009B is another spelling of the CSI. *)
Lemma c1_control_passes : writes (Write (newLineMirror false) (map chr [194; 155] ++ $"2J" ++ [newline])) = [mirrorPrefix; map chr [194; 155] ++ $"2J"; [newline]].
Proof. reflexivity. Qed.

(** What reaches a writer that two mirrors share: any interleaving of the calls of each. *)
Inductive interleaved : list bytes -> list bytes -> list bytes -> Prop :=
| interleaved_nil : interleaved [] [] []
| interleaved_left x a b c : interleaved a b c -> interleaved (x :: a) b (x :: c)
| interleaved_right x a b c : interleaved a b c -> interleaved a (x :: b) (x :: c).

(** The lines of two shells mix: three calls of the writer make a line, and the lock is the mirror's own. *)
Lemma mirrors_mix_within_lines : exists out,
  interleaved (writes (Write (newLineMirror false) ($"ab" ++ [newline]))) (writes (Write (newLineMirror false) ($"cd" ++ [newline]))) out /\
  concat out = mirrorPrefix ++ mirrorPrefix ++ $"abcd" ++ [newline; newline].
Proof. exists [mirrorPrefix; mirrorPrefix; $"ab"; $"cd"; [newline]; [newline]]. split; [repeat constructor|reflexivity]. Qed.

Example mirror_sample :
  writes (foldl Write (newLineMirror true) [esc :: $"[1;3"; $"1mred" ++ esc :: $"[0" ; $"m (END)" ++ [carriage_return]; $"red (END)" ++ [carriage_return; chr 7; newline]; $"a" ++ esc :: $"]0;title" ++ [chr 7] ++ $"b" ++ [newline] ++ $"$ "]) =
  decorated true $"red (END)" ++ decorated true $"ab".
Proof. reflexivity. Qed.
