(* ===== verification/HttpRelay.v ===== *)
(** One request through the proxy (internal/streamtype/http.go: [OnSYN] and [proxyRequestContext] around what Proxy.v
    decides): how the request is read, what the target gets of its body, and what the browser gets of the answer, on
    every path. The target and Go's HTTP client are inputs; the frames are those of HttpLocal.v. *)

From S2P Require Import Prelude GoLib Protocol Json JsonRoundTrip GoNet Proxy HttpLocal.

(** * The request *)

Definition decode_headers : decoder (option (gmap bytes bytes)) := fun old j =>
  match j with
  | JObject ms => foldl (fun '(m, ok) '(k, x) => let '(v, ok') := decode_string [] x in (Some (<[k := v]> (default ∅ m)), ok && ok')) (Some (default ∅ old), true) ms
  | JNull => (None, true)
  | _ => (old, false)
  end.

Definition sniffBodyBytes : nat := Z.to_nat (64 * 1024).

(** How the body of a request ends: by its FIN, or by a reset. *)
Inductive body_end := BodyEOF | BodyCanceled.

(** The body that the target is sent: its length where one is declared (chunked otherwise), and what reading it gives. *)
Record upstream_body := mkUpstream { u_length : option Z; u_data : bytes; u_end : body_end }.

(** A body that ends within the sniff buffer is sent with its length. *)
Definition peek (contentLength : Z) (data : bytes) (e : body_end) : upstream_body :=
  if contentLength >? 0 then mkUpstream (Some contentLength) data e else
  match e with
  | BodyEOF => mkUpstream (if (length data <? sniffBodyBytes)%nat then Some (zlen data) else None) data e
  | BodyCanceled => mkUpstream None data e
  end.

(** * The answer *)

(** What the client makes of the target: it fails, perhaps as the request was canceled; or it answers, with the pieces
    that its body is read in, each with whether the request is canceled while the piece waits for room in the
    data channel, and with whether the body broke off. *)
Inductive answer := Fails (canceled : bool) | Answers (status : Z) (header : list (bytes * list bytes)) (reads : list (bytes * bool)) (broke : bool).

Section Relay.
Variable range : gmap bytes bytes -> list (bytes * bytes).
Variable url_valid : bytes -> bool.
Variable request_uri : bytes -> option bytes.
(** The text of the landing page. *)
Variable landingPage : bytes.
Variable takes : list reply -> bool.

(** [ParseRequest], in the order in which the headers are ranged over. *)
Definition ParseRequest (payload : bytes) : option (Request * Z) :=
  j ← parse_json payload;
  let text name := field decode_string [] name j in
  let len := field decode_int 0 $"contentLength" j in
  let headers := field decode_headers None $"headers" j in
  if (text $"type").2 && (text $"method").2 && (text $"pathname").2 && (text $"contentType").2 && len.2 && headers.2
  then Some (mkRequest (text $"method").1 (text $"pathname").1 (text $"contentType").1 (range <$> headers.1), len.1) else None.

Definition page_meta : bytes := response_meta 200 [($"Content-Type", [$"text/html"])].

Definition serveLandingPage (req : Request) : list reply :=
  if bool_decide (r_Pathname req = $"/favicon.ico") then sendStreamError 404 $"Not found"
  else WriteSYN page_meta :: match landingPage with [] => [] | _ => [WriteDAT landingPage] end ++ [WriteFIN []].

Definition relay_meta (status : Z) (header : list (bytes * list bytes)) : bytes :=
  print_json (JObject [($"headers", JObject (sort_by (fun a b => bytes_leb a.1 b.1) (response_headers request_uri header))); ($"status", JInt status)]).

(** The copying of the body, and whether it reached the end of the reads. *)
Fixpoint relay_body (sent : list reply) (reads : list (bytes * bool)) : list reply * bool :=
  match reads with
  | [] => (sent, true)
  | ([], _) :: rest => relay_body sent rest
  | (chunk, canceled) :: rest =>
    if canceled then (sent, false) else
    let sent := sent ++ [WriteDAT chunk] in
    if takes sent then relay_body sent rest else (sent, false)
  end.

Definition relay (a : answer) : list reply :=
  match a with
  | Fails canceled => if canceled then [] else sendStreamError 502 $"Target unreachable"
  | Answers status header reads broke =>
    let meta := relay_meta status header in
    match ValidateFramePayload meta with
    | Err _ => sendStreamError 502 $"Response headers are too large"
    | Ok _ =>
      let sent := [WriteSYN meta] in
      if takes sent then let '(sent, ended) := relay_body sent reads in if ended then sent ++ [WriteFIN []] else sent
      else sent
    end
  end.

(** What a request comes to: the session, what the target was sent, and the frames of the stream. *)
Definition proxyRequestContext (h : HTTPHandler) (req : Request) (contentLength : Z) (body : option (bytes * body_end)) (hops : list bytes) (a : answer) :
  HTTPHandler * option (bytes * Header * option upstream_body) * list reply :=
  let '(h', o) := proxyRequest url_valid h req hops in
  match o with
  | Landing => (h', None, serveLandingPage req)
  | BadURL => (h', None, sendStreamError 500 $"Internal error")
  | Sent host header => (h', Some (host, header, (fun b => peek contentLength b.1 b.2) <$> body), relay a)
  end.

(** [OnSYN] and the goroutine it starts; [body] is what the frames of the stream bring where the SYN is not its end. *)
Definition serve_request (h : HTTPHandler) (payload : bytes) (final : bool) (body : bytes * body_end) (hops : list bytes) (a : answer) :
  HTTPHandler * option (bytes * Header * option upstream_body) * list reply :=
  match ParseRequest payload with
  | None => (h, None, sendStreamError 400 $"Bad request")
  | Some (req, len) => proxyRequestContext h req len (if final then None else Some body) hops a
  end.
End Relay.

(** * What a request comes to *)

(** The frames of a response: one SYN, its body, and one FIN where it is complete. *)
Definition response_frames (l : list reply) (meta : bytes) (chunks : list bytes) (complete : bool) : Prop :=
  l = WriteSYN meta :: map WriteDAT chunks ++ (if complete then [WriteFIN []] else []).

#[local] Opaque MaxChunkSize print_json.

Lemma error_frames status msg : exists meta chunks, response_frames (sendStreamError status msg) meta chunks true /\ concat chunks = msg.
Proof. destruct msg as [|c msg]; [by exists (error_meta status), []|]. exists (error_meta status), [c :: msg]. split; [done|]. cbn. by rewrite app_nil_r. Qed.

Lemma relay_body_spec takes reads : forall sent, exists chunks, (relay_body takes sent reads).1 = sent ++ map WriteDAT chunks /\
  Forall (fun c => c <> [] /\ exists b, (c, b) ∈ reads) chunks /\ concat chunks `prefix_of` concat (map fst reads) /\
  ((relay_body takes sent reads).2 = true -> concat chunks = concat (map fst reads)).
Proof.
  induction reads as [|[[|c chunk] canceled] rest IH]; intros sent; cbn [relay_body].
  - exists []. cbn. by rewrite app_nil_r.
  - destruct (IH sent) as (chunks & E & HF & Hp & Hc). exists chunks. split_and!; [done| |done|done].
    eapply Forall_impl; [exact HF|]. intros x (Hx & b & Hb). split; [done|]. exists b. by right.
  - set (s := c :: chunk) in *. assert (s <> []) as Hs by done. clearbody s. destruct canceled.
    { exists []. cbn. rewrite app_nil_r. split_and!; [done|constructor|apply prefix_nil|done]. }
    destruct (takes _).
    + destruct (IH (sent ++ [WriteDAT s])) as (chunks & E & HF & Hp & Hc). exists (s :: chunks). split_and!.
      * rewrite E. cbn. by rewrite <- app_assoc.
      * constructor; [split; [done|exists false; by left]|]. eapply Forall_impl; [exact HF|]. intros x (Hx & b & Hb). split; [done|]. exists b. by right.
      * cbn. by apply prefix_app.
      * intros H. cbn. by rewrite Hc.
    + exists [s]. cbn. rewrite app_nil_r. split_and!; [done|by constructor; [split; [done|exists false; left]|]| |done]. by exists (concat (map fst rest)).
Qed.

(** What reaches the target of a body is the body; its length is declared where the browser gave one, and is exact
    where it gave none and the body ends within the sniff buffer; a body that is cut off has none. *)
Lemma peek_faithful len data e : let u := peek len data e in
  u_data u = data /\ u_end u = e /\ forall n, u_length u = Some n -> (0 < len /\ n = len) \/ (len <= 0 /\ n = zlen data /\ e = BodyEOF /\ zlen data < 65536).
Proof.
  unfold peek. destruct (len >? 0) eqn:El; bool_to_prop.
  - split_and!; [done|done|]. intros n [= <-]. left. lia.
  - destruct e; cbn [u_data u_end u_length]; (split_and!; [done|done|intros n]); [|done]. destruct (length data <? sniffBodyBytes)%nat eqn:Es; [|done]. intros [= <-]. right.
    apply Nat.ltb_lt in Es. assert (zlen data < 65536) by (unfold sniffBodyBytes, zlen in *; lia). by split_and!.
Qed.

(** An answer of the proxy itself. *)
#[local] Ltac errs := match goal with |- context [sendStreamError ?s ?m] =>
  let H := fresh in destruct (error_frames s m) as (? & ? & H & _); do 2 eexists; exists true; split; [exact H|] end.
#[local] Ltac refused := split_and!; [done|intros _; errs; split; by intros|done].

(** Which header of a response the browser gets, and as what: all but the three that forbid frames and scripts; a
    repeated [Set-Cookie] as a list, any other by its first value; a location as its path, where it is a URL. *)
Inductive relays (request_uri : bytes -> option bytes) (header : list (bytes * list bytes)) : bytes -> json -> Prop :=
| relays_first key v vs :
    (key, v :: vs) ∈ header -> key <> $"X-Frame-Options" -> key <> $"Content-Security-Policy" -> key <> $"Content-Security-Policy-Report-Only" ->
    key <> $"Set-Cookie" \/ vs = [] -> key <> $"Location" \/ v = [] -> relays request_uri header key (JString v)
| relays_cookies v w vs :
    ($"Set-Cookie", v :: w :: vs) ∈ header -> relays request_uri header $"Set-Cookie" (JArray (map JString (v :: w :: vs)))
| relays_location v vs :
    ($"Location", v :: vs) ∈ header -> v <> [] ->
    relays request_uri header $"Location" (JString match request_uri v with Some path => path | None => v end).

Lemma response_headers_relays request_uri header k j : (k, j) ∈ response_headers request_uri header <-> relays request_uri header k j.
Proof.
  unfold response_headers. rewrite list_elem_of_bind. split.
  - intros ([key values] & Hin & Hh). case_bool_decide as Hd; [by apply elem_of_nil in Hin|].
    assert (key <> $"X-Frame-Options" /\ key <> $"Content-Security-Policy" /\ key <> $"Content-Security-Policy-Report-Only") as (D1 & D2 & D3)
      by (split_and!; intros ->; apply Hd; apply (bool_decide_unpack _); vm_compute; done).
    destruct values as [|v vs]; [by apply elem_of_nil in Hin|].
    destruct ((1 <? length (v :: vs))%nat && bool_decide (key = $"Set-Cookie")) eqn:E1.
    + apply andb_true_iff in E1 as [E1 ->%bool_decide_eq_true]. apply list_elem_of_singleton in Hin as [= -> ->].
      destruct vs as [|w vs]; [done|]. by apply relays_cookies.
    + destruct (bool_decide (key = $"Location") && negb (bool_decide (v = []))) eqn:E2; apply list_elem_of_singleton in Hin as [= -> ->].
      * apply andb_true_iff in E2 as [->%bool_decide_eq_true E2]. apply negb_true_iff, bool_decide_eq_false in E2.
        unfold default. by apply (relays_location _ _ v vs).
      * apply (relays_first _ _ _ _ vs); try done.
        -- apply andb_false_iff in E1 as [E1|E1%bool_decide_eq_false]; [right|by left]. by destruct vs.
        -- apply andb_false_iff in E2 as [E2%bool_decide_eq_false|E2]; [by left|right]. by apply negb_false_iff, bool_decide_eq_true in E2.
  - intros [key v vs Hin D1 D2 D3 H1 H2|v w vs Hin|v vs Hin Hv].
    + exists (key, v :: vs). split; [|done]. rewrite bool_decide_false.
      2:{ intros Hd. unfold droppedHeaders in Hd. repeat (apply elem_of_cons in Hd as [?|Hd]; [done|]). by apply elem_of_nil in Hd. }
      replace ((1 <? length (v :: vs))%nat && bool_decide (key = $"Set-Cookie")) with false.
      2:{ destruct H1 as [?| ->]; [by rewrite bool_decide_false, andb_false_r|done]. }
      replace (bool_decide (key = $"Location") && negb (bool_decide (v = []))) with false; [by apply list_elem_of_singleton|].
      destruct H2 as [?| ->]; [by rewrite bool_decide_false|by rewrite andb_false_r].
    + exists ($"Set-Cookie", v :: w :: vs). split; [|done]. by apply list_elem_of_singleton.
    + exists ($"Location", v :: vs). split; [|done]. cbn [length]. rewrite (bool_decide_false (v = [])) by done.
      change (bool_decide ($"Location" = $"Set-Cookie")) with false. rewrite andb_false_r. by apply list_elem_of_singleton.
Qed.

Lemma relays_simple request_uri header k j : relays request_uri header k j -> json_ok j /\ json_depth j <= 1.
Proof.
  intros [key v vs _ _ _ _ _ _|v w vs _|v vs _ _]; [split; [constructor|done]| |split; [constructor|done]].
  generalize (v :: w :: vs). clear. intros l. split.
  - constructor. induction l; constructor; [constructor|done].
  - cbn. induction l; cbn in *; lia.
Qed.

(** The payload of a response's SYN read back. *)
Lemma relay_meta_read request_uri status header : exists hs,
  parse_json (relay_meta request_uri status header) = Some (JObject [($"headers", JObject hs); ($"status", JInt status)]) /\
  forall k j, (k, j) ∈ hs <-> exists k0 j0, relays request_uri header k0 j0 /\ k = coerce k0 /\ j = coerce_json j0.
Proof.
  unfold relay_meta. set (l := sort_by _ _).
  assert (forall k j, (k, j) ∈ l <-> relays request_uri header k j) as Hl.
  { intros k j. unfold l. rewrite sort_by_perm. apply response_headers_relays. }
  clearbody l. assert (Forall (fun kv => json_ok kv.2 /\ json_depth kv.2 <= 1) l) as Hok.
  { apply Forall_forall. intros [k j] Hin. by eapply relays_simple, Hl. }
  exists (map (fun '(k, v) => (coerce k, coerce_json v)) l). split.
  - rewrite parse_print_json; [reflexivity| |].
    + constructor. constructor; [|by repeat constructor]. constructor. eapply Forall_impl; [exact Hok|]. by intros ? [? _].
    + assert (foldr (fun kv d => Z.max (json_depth kv.2) d) 0 l <= 1) as Hd.
      { clear Hl. induction Hok as [|kv l [_ Hk] _ IH]; cbn in *; lia. }
      cbn. change maxNestingDepth with 10000. lia.
  - intros k j. rewrite <- list_elem_of_In, in_map_iff || rewrite list_elem_of_In, in_map_iff. split.
    + intros ([k0 j0] & [= <- <-] & Hin). exists k0, j0. split_and!; [|done|done]. by apply Hl, list_elem_of_In.
    + intros (k0 & j0 & Hr & -> & ->). exists (k0, j0). split; [done|]. by apply list_elem_of_In, Hl.
Qed.

(** C38: The proxy answers every request, with the target's answer or with a status of its own: whatever the request, its
    body, the session, the target and the data channel do, the stream gets one SYN, then body, then at most one FIN,
    and nothing at all only where the request was canceled before an answer; a target that fails otherwise is
    reported with status 502, and so is an answer whose headers fill more than a frame. Any other answer is passed
    on: the SYN reads back as its status and its headers (those of [relays], invalid UTF-8 replaced), the body is a
    beginning of the bytes read of the target's, in whatever pieces, and all of them where the stream ends with its
    FIN, which it does unless it breaks or the request is canceled. A FIN says no more than that: a body that breaks
    off while it is read is finished in the same way ([broken_response_completes]). The target gets the body of the
    request byte for byte, and the only length it is told, other than one of the browser's, is the true one. *)
Theorem proxy_exchange_faithful range url_valid request_uri page takes h payload final body hops a :
  let '(h', sent, l) := serve_request range url_valid request_uri page takes h payload final body hops a in
  (l = [] -> a = Fails true /\ sent <> None) /\
  (l <> [] -> exists meta chunks complete, response_frames l meta chunks complete /\
    (a = Fails false -> sent <> None -> l = sendStreamError 502 $"Target unreachable") /\
    forall status header reads broke, sent <> None -> a = Answers status header reads broke ->
      (MaxChunkSize < zlen (relay_meta request_uri status header) -> l = sendStreamError 502 $"Response headers are too large") /\
      (zlen (relay_meta request_uri status header) <= MaxChunkSize ->
        (exists hs, parse_json meta = Some (JObject [($"headers", JObject hs); ($"status", JInt status)]) /\
          forall k j, (k, j) ∈ hs <-> exists k0 j0, relays request_uri header k0 j0 /\ k = coerce k0 /\ j = coerce_json j0) /\
        concat chunks `prefix_of` concat (map fst reads) /\ (complete = true -> concat chunks = concat (map fst reads)) /\
        ((forall l, takes l = true) -> Forall (fun r => r.2 = false) reads -> complete = true))) /\
  (forall host header u, sent = Some (host, header, Some u) -> final = false /\ u_data u = body.1 /\ u_end u = body.2 /\
    forall n req len, ParseRequest range payload = Some (req, len) -> u_length u = Some n -> n = len \/ n = zlen body.1).
Proof.
  unfold serve_request. destruct (ParseRequest range payload) as [[req len]|]; [|refused].
  unfold proxyRequestContext. destruct (proxyRequest url_valid h req hops) as [h' [| |host header]].
  - unfold serveLandingPage. case_bool_decide; [refused|].
    split_and!; [done| |done]. intros _. destruct page as [|c page]; [exists page_meta, [], true|exists page_meta, [c :: page], true]; (split_and!; [reflexivity|by intros|by intros]).
  - refused.
  - split_and!.
    + destruct a as [[]|status hd reads broke]; cbn; [done|done|]. destruct (ValidateFramePayload _); [|done]. destruct (takes _); [|done].
      destruct (relay_body_spec takes reads [WriteSYN (relay_meta request_uri status hd)]) as (chunks & E & _). destruct (relay_body _ _ _) as [s []]; cbn in E; by subst s.
    + intros Hl. destruct a as [[]|status hd reads broke]; cbn [relay] in *; [done| |].
      { by errs. }
      unfold ValidateFramePayload in *. destruct (_ >? _) eqn:Ev.
      { errs. split; [done|]. intros st hd' rd br _ [= <- <- <- <-]. split; [done|]. intros Hfit. bool_to_prop. lia. }
      pose proof (relay_meta_read request_uri status hd) as Hread. bool_to_prop.
      set (meta := relay_meta _ _ _) in *. destruct (takes [WriteSYN meta]) eqn:Et.
      2:{ exists meta, [], false. split; [reflexivity|]. split; [done|]. intros st hd' rd br _ [= <- <- <- <-]. split; [intros; unfold meta in *; lia|]. intros _.
          split_and!; [exact Hread|apply prefix_nil|done|]. intros Ht. by rewrite Ht in Et. }
      destruct (relay_body_spec takes reads [WriteSYN meta]) as (chunks & E & _ & Hp & Hc).
      assert ((forall l, takes l = true) -> Forall (fun r => r.2 = false) reads -> forall s, (relay_body takes s reads).2 = true) as Hall.
      { clear. intros Ht HF. induction HF as [|[[|c x] b] rest Hb _ IH]; intros s; cbn in *; [done|apply IH|]. subst b. rewrite Ht. apply IH. }
      destruct (relay_body takes _ reads) as [s ended] eqn:Er. cbn in E, Hc. subst s. exists meta, chunks, ended. split; [destruct ended; unfold response_frames; cbn; by rewrite ?app_nil_r|].
      split; [done|]. intros st hd' rd br _ [= <- <- <- <-]. split; [intros; unfold meta in *; lia|]. intros _.
      split_and!; [exact Hread|done|done|]. intros Ht HF. specialize (Hall Ht HF [WriteSYN meta]). by rewrite Er in Hall.
    + intros host' header' u [= _ _ Hu]. destruct final; [done|]. cbn in Hu. injection Hu as <-. destruct (peek_faithful len body.1 body.2) as (E1 & E2 & E3). split_and!; [done|done|done|].
      intros n req' len' [= <- <-] Hn. destruct (E3 _ Hn) as [[_ ->]|(_ & -> & _)]; [by left|by right].
Qed.

(** A response whose body broke off is completed like any other: the browser cannot tell it from the whole. *)
Lemma broken_response_completes request_uri takes status header reads : relay request_uri takes (Answers status header reads true) = relay request_uri takes (Answers status header reads false).
Proof. unfold relay. exact eq_refl. Qed.

(** * Runs *)

#[local] Transparent MaxChunkSize print_json.

Definition no_uri (s : bytes) : option bytes := None.

Example exchange_sample :
  let '(h', sent, l) := serve_request map_to_list any_url no_uri $"page" always (connected pinned $"/") (json_text $"{'method':'POST','pathname':'/x','headers':{'A':'1'}}") false ($"abc", BodyEOF) []
    (Answers 201 [($"X-Frame-Options", [$"DENY"]); ($"B", [$"2"])] [($"o", false); ([], false); ($"k", false)] false) in
  ((fun x => (x.1.1, x.1.2 !! $"A", x.2)) <$> sent, l) =
  (Some ($"localhost:8080", Some $"1", Some (mkUpstream (Some 3) $"abc" BodyEOF)),
   [WriteSYN (json_text $"{'headers':{'B':'2'},'status':201}"); WriteDAT $"o"; WriteDAT $"k"; WriteFIN []]).
Proof. vm_compute. reflexivity. Qed.
