(* ===== verification/WsBridge.v ===== *)
(** The goroutine of a WebSocket stream (internal/streamtype/websocket.go: [bridge]) among the frames of the browser:
    from the dial to the end of the read loop, over the table and the sockets of WebSocket.v. *)

From S2P Require Import Prelude GoLib Protocol Json GoNet WebSocket.

(** The request of [OnSYN]. *)
Definition decode_ws_open (payload : bytes) : option (bytes * bytes) :=
  j ← parse_json payload;
  let text name := field decode_string [] name j in
  if (text $"pathname").2 && (text $"cookies").2 then Some ((text $"pathname").1, (text $"cookies").1) else None.

(** The headers of the handshake with the target. *)
Definition handshake_headers (browserIP cookies : bytes) : Header :=
  let h := match cookies with [] => ∅ | c => hSet ∅ $"Cookie" c end in
  match ParseIP browserIP with Some ip => hSet h $"X-Forwarded-For" (IPString ip) | None => h end.

Inductive ws_sent := WsSYN | WsFrame (f : frame) | WsFIN.
Inductive ws_phase := Dialing | Reading | Over.

(** A bridge: its stream, what it has sent, and the messages that it has read and sent whole. *)
Record ws_run := mkRun { w_id : Z; w_phase : ws_phase; w_sent : list ws_sent; w_read : list (Z * bytes) }.
#[export] Instance eta_ws_run : Eta ws_run := fun r => mkRun (w_id r) (w_phase r) (w_sent r) (w_read r).

(** The handler with its bridges, each under the reference of its socket. *)
Record ws_world := mkWorld { w_handler : WSHandler; w_runs : list ws_run }.
#[export] Instance eta_ws_world : Eta ws_world := fun w => mkWorld (w_handler w) (w_runs w).

Definition set_run (ref : nat) (r : ws_run) (w : ws_world) : ws_world := w <| w_runs := <[ref := r]> (w_runs w) |>.
Definition on_handler (f : WSHandler -> WSHandler) (w : ws_world) : ws_world := w <| w_handler := f (w_handler w) |>.

Definition ws_open (id : Z) (payload : bytes) (w : ws_world) : ws_world :=
  match decode_ws_open payload with
  | None => w
  | Some _ => (on_handler (fun h => OnSYN h id true) w) <| w_runs := w_runs w ++ [mkRun id Dialing [] []] |>
  end.

(** The dial has failed; [c]: the socket is canceled. *)
Definition dial_failed (ref : nat) (r : ws_run) (c : bool) (w : ws_world) : ws_world :=
  on_handler (fun h => remove h (w_id r) ref) (set_run ref (r <| w_phase := Over |> <| w_sent := w_sent r ++ if c then [] else [WsFIN] |>) w).

Definition dial_opened (ref : nat) (r : ws_run) (ws : wsStream) (w : ws_world) : ws_world :=
  let '(ws, ok) := setConn ws in
  if ok then on_handler (fun h => h <| sockets := <[ref := ws]> (sockets h) |>) (set_run ref (r <| w_phase := Reading |> <| w_sent := w_sent r ++ [WsSYN] |>) w)
  else on_handler (fun h => remove h (w_id r) ref) (set_run ref (r <| w_phase := Over |>) w).

(** A message of the target whose frames the stream takes. *)
Definition read_message (ref : nat) (r : ws_run) (kind : Z) (data : bytes) (w : ws_world) : ws_world :=
  set_run ref (r <| w_sent := w_sent r ++ map WsFrame (writeWSReader kind data) |> <| w_read := w_read r ++ [(kind, data)] |>) w.

(** The loop ends: [cut] is the message that a read or a frame failed in, with how many of its frames went out. *)
Definition loop_ended (ref : nat) (r : ws_run) (cut : option (Z * bytes * nat)) (w : ws_world) : ws_world :=
  let part := match cut with Some (kind, data, n) => map WsFrame (take n (writeWSReader kind data)) | None => [] end in
  on_handler (fun h => remove (close_ref h ref) (w_id r) ref) (set_run ref (r <| w_phase := Over |> <| w_sent := w_sent r ++ part ++ [WsFIN] |>) w).

(** Frames of the browser, and what the bridges do, in any order. *)
Inductive ws_step : ws_world -> ws_world -> Prop :=
| ws_syn w id payload : ws_step w (ws_open id payload w)
| ws_fragment w take_some id payload more next closing : ws_step w (on_handler (fun h => (OnFragment take_some h id payload more next closing).1) w)
| ws_fin w id : ws_step w (on_handler (fun h => OnFIN h id) w)
| ws_reset w id : ws_step w (on_handler (fun h => OnReset h id) w)
| ws_failed w ref r s : w_runs w !! ref = Some r -> w_phase r = Dialing -> sockets (w_handler w) !! ref = Some s -> ws_step w (dial_failed ref r (canceled s) w)
| ws_opened w ref r s : w_runs w !! ref = Some r -> w_phase r = Dialing -> sockets (w_handler w) !! ref = Some s -> ws_step w (dial_opened ref r s w)
| ws_message w ref r kind data : w_runs w !! ref = Some r -> w_phase r = Reading -> ws_step w (read_message ref r kind data w)
| ws_ended w ref r cut : w_runs w !! ref = Some r -> w_phase r = Reading -> ws_step w (loop_ended ref r cut w).

Definition ws_start : ws_world := mkWorld NewWebSocket [].
Definition ws_running : ws_world -> Prop := steps ws_step ws_start.

(** * What is kept *)

(** The frames of messages. *)
Definition frames_of (l : list (Z * bytes)) : list ws_sent := l ≫= fun m => map WsFrame (writeWSReader m.1 m.2).

Definition run_ok (r : ws_run) (s : wsStream) : Prop :=
  match w_phase r with
  | Dialing => w_sent r = [] /\ w_read r = [] /\ connected s = false
  | Reading => w_sent r = WsSYN :: frames_of (w_read r) /\ connected s = true
  | Over => (connected s = false /\ w_read r = [] /\ (w_sent r = [] \/ w_sent r = [WsFIN])) \/
            (connected s = true /\ canceled s = true /\ exists kind data n, w_sent r = WsSYN :: frames_of (w_read r) ++ map WsFrame (take n (writeWSReader kind data)) ++ [WsFIN])
  end.

Definition ws_ok (w : ws_world) : Prop :=
  Forall2 run_ok (w_runs w) (sockets (w_handler w)) /\
  forall id ref, streams (w_handler w) !! id = Some ref -> exists r, w_runs w !! ref = Some r /\ w_id r = id /\ w_phase r <> Over.

(** What a browser's frame does to a socket. *)
Definition kept_socket (s s' : wsStream) : Prop := connected s' = connected s /\ (canceled s = true -> canceled s' = true).

Lemma run_ok_kept r s s' : kept_socket s s' -> run_ok r s -> run_ok r s'.
Proof. intros [Hc Hx]. unfold run_ok. rewrite Hc. destruct (w_phase r); [done|done|]. intros [?|(H1 & H2 & H3)]; [by left|right; split_and!; auto]. Qed.

Lemma kept_close s : kept_socket s (close s).
Proof. by split. Qed.

Lemma kept_fragment take_some s p more next closing : kept_socket s (writeFragment take_some s p more next closing).1.
Proof. unfold writeFragment. repeat case_match; simplify_eq; by split. Qed.

(** Sockets that are kept leave the runs as they are. *)
Lemma ws_ok_kept w h : ws_ok w -> Forall2 kept_socket (sockets (w_handler w)) (sockets h) ->
  (forall id ref, streams h !! id = Some ref -> streams (w_handler w) !! id = Some ref) -> ws_ok (w <| w_handler := h |>).
Proof.
  intros [HF Ht] Hk Hs. split; [|intros id ref H; by apply Ht, Hs]. cbn. apply Forall2_same_length_lookup_2.
  - by rewrite (Forall2_length _ _ _ HF), (Forall2_length _ _ _ Hk).
  - intros i r s' Hr Hs'. destruct (Forall2_lookup_l _ _ _ _ _ HF Hr) as (s & Hi & Ho). destruct (Forall2_lookup_l _ _ _ _ _ Hk Hi) as (s2 & Hi2 & Hk2).
    rewrite Hs' in Hi2. injection Hi2 as <-. by eapply run_ok_kept.
Qed.

Lemma kept_refl l : Forall2 kept_socket l l.
Proof. induction l; by constructor. Qed.

Lemma kept_alter f l ref : (forall s, kept_socket s (f s)) -> Forall2 kept_socket l (alter f ref l).
Proof. intros Hf. revert ref. induction l as [|s l IH]; intros ref; [apply kept_refl|]. destruct ref; constructor; [apply Hf|apply kept_refl|done|apply IH]. Qed.

Lemma alter_at {A} (f : A -> A) (l : list A) (ref : nat) x : l !! ref = Some x -> alter f ref l = <[ref := f x]> l.
Proof. revert ref. induction l as [|y l IH]; intros [|ref] H; try done; cbn in *; [by injection H as -> |f_equal; by apply IH]. Qed.

Lemma kept_insert l ref s s' : l !! ref = Some s -> kept_socket s s' -> Forall2 kept_socket l (<[ref := s']> l).
Proof. revert ref. induction l as [|x l IH]; intros [|ref] Hl Hk; try done; cbn in *; [injection Hl as ->; constructor; [done|apply kept_refl]|constructor; [done|by apply IH]]. Qed.

Lemma remove_streams h id ref : sockets (remove h id ref) = sockets h /\ forall i x, streams (remove h id ref) !! i = Some x -> streams h !! i = Some x /\ (i = id -> x <> ref).
Proof.
  unfold remove. destruct (decide _) as [E|E]; (split; [done|]).
  - intros i x H. cbn in H. apply lookup_delete_Some in H as [Hne H]. by split; [|intros ->].
  - intros i x H. split; [done|]. intros -> ->. done.
Qed.

(** A bridge that is over or not, with its entry gone where it is. *)
Lemma ws_ok_run w ref r s r' s' h :
  ws_ok w -> w_runs w !! ref = Some r -> sockets (w_handler w) !! ref = Some s -> run_ok r' s' -> w_id r' = w_id r ->
  sockets h = <[ref := s']> (sockets (w_handler w)) -> (forall id x, streams h !! id = Some x -> streams (w_handler w) !! id = Some x /\ (w_phase r' = Over -> id = w_id r -> x <> ref)) ->
  ws_ok (mkWorld h (<[ref := r']> (w_runs w))).
Proof.
  intros [HF Ht] Hr Hs Hok Hid Hk Hst. split; cbn.
  - rewrite Hk. by apply Forall2_insert.
  - intros id x Hx. destruct (Hst _ _ Hx) as [Hx' Hne]. destruct (Ht _ _ Hx') as (r0 & Hr0 & Hid0 & Hp). destruct (decide (x = ref)) as [->|Hn].
    + assert (r0 = r) as -> by congruence. exists r'. rewrite list_lookup_insert_eq by by eapply lookup_lt_Some. split_and!; [done|congruence|]. intros Ho. by apply (Hne Ho).
    + exists r0. by rewrite list_lookup_insert_ne by done.
Qed.

Lemma ws_ok_step w w' : ws_ok w -> ws_step w w' -> ws_ok w'.
Proof.
  intros Hw Hst. pose proof Hw as [HF Ht]. destruct Hst as [w id payload|w ts id p more next closing|w id|w id|w ref r s Hr Hp Hs|w ref r s Hr Hp Hs|w ref r kind data Hr Hp|w ref r cut Hr Hp].
  - unfold ws_open. destruct (decode_ws_open payload); [|done]. unfold on_handler, OnSYN. cbn [negb].
    cbn zeta. set (h1 := (w_handler w) <| streams := <[id := length (sockets (w_handler w))]> (streams (w_handler w)) |> <| sockets := sockets (w_handler w) ++ [mkWs false false None []] |>).
    assert (ws_ok (mkWorld h1 (w_runs w ++ [mkRun id Dialing [] []]))) as H1.
    { split; cbn; [apply Forall2_app; [done|by constructor; [|constructor]]|]. pose proof (Forall2_length _ _ _ HF) as Hlen.
      intros i ref [[<- <-]|[Hne Hi]]%lookup_insert_Some.
      - exists (mkRun id Dialing [] []). rewrite <- Hlen, lookup_app_r, Nat.sub_diag by lia. done.
      - destruct (Ht _ _ Hi) as (r & Hr & ?). exists r. by rewrite (lookup_app_l_Some _ _ _ _ Hr). }
    destruct (streams (w_handler w) !! id) as [old|]; [|exact H1]. refine (ws_ok_kept _ (close_ref h1 old) H1 _ _); [|done]. apply kept_alter, kept_close.
  - unfold on_handler. refine (ws_ok_kept _ _ Hw _ _); unfold OnFragment; (destruct (streams _ !! id) as [ref|]; [|try done; apply kept_refl]);
      (destruct (sockets _ !! ref) as [s|] eqn:Es; [|try done; apply kept_refl]); pose proof (kept_fragment ts s p more next closing) as Hk;
      destruct (writeFragment _ _ _ _ _ _) as [s1 [e|]]; cbn in *; try done; (eapply kept_insert; [exact Es|]); [destruct Hk; by split|done].
  - refine (ws_ok_kept _ _ Hw _ _); unfold OnFIN; destruct (streams _ !! id) as [ref|]; cbn; try apply kept_refl; try (apply kept_alter, kept_close); by intros i x [_ H]%lookup_delete_Some.
  - refine (ws_ok_kept _ _ Hw _ _); unfold OnReset, OnFIN; destruct (streams _ !! id) as [ref|]; cbn; try apply kept_refl; try (apply kept_alter, kept_close); by intros i x [_ H]%lookup_delete_Some.
  - pose proof (Forall2_lookup_lr _ _ _ _ _ _ HF Hr Hs) as Ho. unfold run_ok in Ho. rewrite Hp in Ho. destruct Ho as (E1 & E2 & E3).
    destruct (remove_streams (w_handler w) (w_id r) ref) as [R1 R2].
    refine (ws_ok_run w ref r s _ s (remove (w_handler w) (w_id r) ref) Hw Hr Hs _ _ _ _); [|done|by rewrite R1, list_insert_id|intros i x Hi; destruct (R2 _ _ Hi); by split].
    unfold run_ok. cbn. left. rewrite E1. split_and!; [done|done|]. destruct (canceled s); [by left|by right].
  - pose proof (Forall2_lookup_lr _ _ _ _ _ _ HF Hr Hs) as Ho. unfold run_ok in Ho. rewrite Hp in Ho. destruct Ho as (E1 & E2 & E3).
    unfold dial_opened, setConn. destruct (canceled s) eqn:Ec.
    + destruct (remove_streams (w_handler w) (w_id r) ref) as [R1 R2].
      refine (ws_ok_run w ref r s _ s (remove (w_handler w) (w_id r) ref) Hw Hr Hs _ _ _ _); [|done|by rewrite R1, list_insert_id|intros i x Hi; destruct (R2 _ _ Hi); by split].
      unfold run_ok. cbn. left. rewrite E1. split_and!; [done|done|by left].
    + refine (ws_ok_run w ref r s _ (s <| connected := true |>) _ Hw Hr Hs _ _ _ _); [|done|done|by intros i x Hi]. unfold run_ok. cbn. by rewrite E1, E2.
  - destruct (Forall2_lookup_l _ _ _ _ _ HF Hr) as (s & Hs & Ho). unfold run_ok in Ho. rewrite Hp in Ho. destruct Ho as [E1 E2].
    refine (ws_ok_run w ref r s _ s (w_handler w) Hw Hr Hs _ _ _ _); [|done|by rewrite list_insert_id|intros i x Hi; split; [done|cbn; by rewrite Hp]].
    unfold run_ok. cbn. rewrite Hp, E1. split; [|done]. unfold frames_of. rewrite bind_app. cbn. by rewrite app_nil_r.
  - destruct (Forall2_lookup_l _ _ _ _ _ HF Hr) as (s & Hs & Ho). unfold run_ok in Ho. rewrite Hp in Ho. destruct Ho as [E1 E2].
    destruct (remove_streams (close_ref (w_handler w) ref) (w_id r) ref) as [R1 R2].
    refine (ws_ok_run w ref r s _ (close s) (remove (close_ref (w_handler w) ref) (w_id r) ref) Hw Hr Hs _ _ _ _); [|done|rewrite R1; cbn; by apply alter_at|intros i x Hi; destruct (R2 _ _ Hi); by split].
    unfold run_ok. cbn. right. split_and!; [done|done|]. rewrite E1. destruct cut as [[[kind data] n]|]; [by exists kind, data, n|]. by exists 0, [], O.
Qed.

(** A WebSocket stream carries its socket: in every order of the browser's frames, dials and messages, a bridge sends
    nothing before its socket is open, then a SYN and, for each message of the target in order, exactly the frames
    that [ws_message_round_trip] reads back, and after its end one FIN, before which at most one message is cut; a stream
    whose dial was answered after its end sends nothing. The table names running bridges of their streams only, and
    ending a stream takes it out of the table and cancels its socket, which then never opens. *)
Theorem ws_bridge_faithful w : ws_running w ->
  (forall ref r s, w_runs w !! ref = Some r -> sockets (w_handler w) !! ref = Some s -> run_ok r s) /\
  (forall id ref, streams (w_handler w) !! id = Some ref -> exists r, w_runs w !! ref = Some r /\ w_id r = id /\ w_phase r <> Over) /\
  (forall id ref, streams (w_handler w) !! id = Some ref -> let w' := on_handler (fun h => OnReset h id) w in
    streams (w_handler w') !! id = None /\ exists s, sockets (w_handler w') !! ref = Some s /\ canceled s = true /\ (setConn s).2 = false).
Proof.
  intros Hr. assert (ws_ok w) as [HF Ht].
  { refine (steps_invariant _ ws_ok _ _ _ Hr _); [apply ws_ok_step|]. by split; [constructor|]. }
  split_and!; [intros ref r s Hr' Hs; exact (Forall2_lookup_lr _ _ _ _ _ _ HF Hr' Hs)|done|].
  intros id ref Hi. cbn zeta. unfold on_handler, OnReset, OnFIN. cbn. rewrite Hi. cbn. split; [apply lookup_delete_eq|].
  destruct (Ht _ _ Hi) as (r0 & Hr0 & _). destruct (Forall2_lookup_l _ _ _ _ _ HF Hr0) as (s & Hs & _). exists (close s).
  by rewrite list_lookup_alter_eq, Hs.
Qed.
