(* ===== verification/VideoHelper.v ===== *)
(** The relay between the sessions of a listener and its video helper (internal/videohelper/client.go), and what a session
    makes of it (internal/session/video.go). Bridges live in a store; a section under the client's lock, or a call of
    the encoder, is one step, so the reader, the sessions and their teardowns interleave. *)

From stdpp Require Import gmap.
From S2P Require Import Prelude GoLib Json Tmux.

Record wireMsg := mkWire { Kind : bytes; Client : bytes; SDP : bytes; Candidate : list (bytes * json); IceServers : list json }.

(** A message as [json.Encoder] writes it; a nil map or list and an empty text are left out. *)
Definition wire_members (m : wireMsg) : list (bytes * option json) :=
  [($"kind", Some (JString (Kind m))); ($"client", Some (JString (Client m)));
   ($"sdp", match SDP m with [] => None | s => Some (JString s) end);
   ($"candidate", match Candidate m with [] => None | c => Some (JObject (sort_by (fun a b => bytes_leb a.1 b.1) c)) end);
   ($"ice_servers", match IceServers m with [] => None | l => Some (JArray l) end)].

Definition encode_wire (m : wireMsg) : bytes := print_json (JObject (present (wire_members m))) ++ [chr 10].

Definition decode_list : decoder (list json) := fun old j =>
  match j with
  | JArray l => (l, forallb (fun x => match x with JObject _ | JNull => true | _ => false end) l)
  | JNull => ([], true)
  | _ => (old, false)
  end.

Definition decode_wire (payload : bytes) : option wireMsg :=
  j ← parse_json payload;
  let text name := field decode_string [] name j in
  let cand := field decode_map None $"candidate" j in
  let ice := field decode_list [] $"ice_servers" j in
  if (text $"kind").2 && (text $"client").2 && (text $"sdp").2 && cand.2 && ice.2
  then Some (mkWire (text $"kind").1 (text $"client").1 (text $"sdp").1 (default [] cand.1) ice.1) else None.

(** What a session is called back with, and the frame it makes of it ([startVideo]). *)
Inductive video_event := OnOffer (sdp : bytes) | OnCandidate (candidate : list (bytes * json)).

Definition video_frame (e : video_event) : bytes :=
  print_json (match e with
              | OnOffer sdp => JObject [($"sdp", JString sdp); ($"type", JString $"video_offer")]
              | OnCandidate c => JObject [($"candidate", match c with [] => JNull | _ => JObject (sort_by (fun a b => bytes_leb a.1 b.1) c) end); ($"type", JString $"video_candidate")]
              end).

Definition event_of (m : wireMsg) : option video_event :=
  if decide (Kind m = $"offer") then Some (OnOffer (SDP m)) else if decide (Kind m = $"candidate") then Some (OnCandidate (Candidate m)) else None.

Record Bridge := mkBridge { b_client : bytes; b_ice : list json; b_callbacks : bool }.
#[export] Instance eta_Bridge : Eta Bridge := fun b => mkBridge (b_client b) (b_ice b) (b_callbacks b).

(** The client: its table, every bridge made, what the helper was sent; the message its reader is on, with the bridge it
    has looked up; what was called back, and the messages heard. [gone] are the bridges whose [Close] is done. *)
Record helper := mkHelper {
  bridges : gmap bytes nat;
  objects : list Bridge;
  to_helper : list wireMsg;
  reading : option (option nat * wireMsg);
  called : list (nat * video_event);
  heard : list wireMsg;
  gone : list nat
}.
#[export] Instance eta_helper : Eta helper := fun h => mkHelper (bridges h) (objects h) (to_helper h) (reading h) (called h) (heard h) (gone h).

(** [DialFD]. *)
Definition DialFD : helper := mkHelper ∅ [] [] None [] [] [].

Definition send (m : wireMsg) (h : helper) : helper := h <| to_helper := to_helper h ++ [m] |>.

(** [Client.Bridge]. *)
Definition new_bridge (client : bytes) (ice : list json) (h : helper) : helper :=
  h <| bridges := <[client := length (objects h)]> (bridges h) |> <| objects := objects h ++ [mkBridge client ice false] |>.

Definition UpdateICEServers (client : bytes) (ice : list json) (h : helper) : helper :=
  match bridges h !! client with Some b => h <| objects := alter (fun x => x <| b_ice := ice |>) b (objects h) |> | None => h end.

(** [Start]: the callbacks are set under the lock, and the servers read, which are sent after. *)
Definition start_set (b : nat) (h : helper) : helper := h <| objects := alter (fun x => x <| b_callbacks := true |>) b (objects h) |>.
Definition open_msg (client : bytes) (ice : list json) : wireMsg := mkWire $"open" client [] [] ice.
Definition answer_msg (client sdp : bytes) : wireMsg := mkWire $"answer" client sdp [] [].
Definition candidate_msg (client : bytes) (c : list (bytes * json)) : wireMsg := mkWire $"candidate" client [] c [].
Definition close_msg (client : bytes) : wireMsg := mkWire $"close" client [] [] [].

(** The rest of [Close]: whatever bridge is in the table for the client. *)
Definition close_drop (b : nat) (client : bytes) (h : helper) : helper := h <| bridges := delete client (bridges h) |> <| gone := b :: gone h |>.

(** The reader: looking up a bridge that has its callbacks, then calling. *)
Definition read_lookup (m : wireMsg) (h : helper) : helper :=
  let target := b ← bridges h !! Client m; x ← objects h !! b; if b_callbacks x then Some b else None in
  h <| reading := Some (target, m) |> <| heard := heard h ++ [m] |>.

Definition read_call (h : helper) : helper :=
  match reading h with
  | Some (target, m) =>
    h <| reading := None |> <| called := called h ++ match target, event_of m with Some b, Some e => [(b, e)] | _, _ => [] end |>
  | None => h
  end.

Inductive helper_step : helper -> helper -> Prop :=
| v_bridge h client ice : helper_step h (new_bridge client ice h)
| v_update h client ice : helper_step h (UpdateICEServers client ice h)
| v_start h b x : objects h !! b = Some x -> helper_step h (start_set b h)
| v_open h b x ice : objects h !! b = Some x -> helper_step h (send (open_msg (b_client x) ice) h)
| v_answer h b x sdp : objects h !! b = Some x -> helper_step h (send (answer_msg (b_client x) sdp) h)
| v_candidate h b x c : objects h !! b = Some x -> helper_step h (send (candidate_msg (b_client x) c) h)
| v_close h b x : objects h !! b = Some x -> helper_step h (send (close_msg (b_client x)) h)
| v_drop h b x : objects h !! b = Some x -> helper_step h (close_drop b (b_client x) h)
| v_read h m : reading h = None -> helper_step h (read_lookup m h)
| v_call h : helper_step h (read_call h).

(** * Who hears what *)

Definition of_client (h : helper) (b : nat) (c : bytes) : Prop := exists x, objects h !! b = Some x /\ b_client x = c.

Record routed (h : helper) : Prop := mkRouted {
  routed_table : forall c b, bridges h !! c = Some b -> of_client h b c /\ b ∉ gone h;
  routed_gone : Forall (fun b => (b < length (objects h))%nat) (gone h);
  routed_reading : forall t m, reading h = Some (t, m) -> m ∈ heard h /\ forall b, t = Some b -> of_client h b (Client m);
  routed_called : Forall (fun be => exists m, m ∈ heard h /\ of_client h be.1 (Client m) /\ event_of m = Some be.2) (called h);
  routed_sent : Forall (fun m => exists b, of_client h b (Client m)) (to_helper h)
}.

(** Bridges keep their clients. *)
Definition extends (h h' : helper) : Prop := forall b c, of_client h b c -> of_client h' b c.

Lemma extends_alter h f b : (forall x, b_client (f x) = b_client x) -> extends h (h <| objects := alter f b (objects h) |>).
Proof.
  intros Hf i c (x & Hx & <-). unfold of_client. cbn. destruct (decide (i = b)) as [->|Hn].
  - rewrite list_lookup_alter_eq, Hx. exists (f x). by split.
  - rewrite list_lookup_alter_ne by done. by exists x.
Qed.

Lemma routed_objects h l : extends h (h <| objects := l |>) -> (length (objects h) <= length l)%nat -> routed h -> routed (h <| objects := l |>).
Proof.
  intros He Hl [H1 H2 H3 H4 H5]. split.
  - intros c b Hb. destruct (H1 c b Hb) as [Hc Hg]. split; [by apply He|exact Hg].
  - eapply Forall_impl; [exact H2|]. cbn. lia.
  - intros t m Hr. destruct (H3 t m Hr) as [Hm Hb]. split; [exact Hm|]. intros b Ht. by apply He, Hb.
  - eapply Forall_impl; [exact H4|]. intros be (m & Hm & Hc & Hev). exists m. split_and!; [done|by apply He|done].
  - eapply Forall_impl; [exact H5|]. intros m (b & Hb). exists b. by apply He.
Qed.

Lemma routed_alter h f b : (forall x, b_client (f x) = b_client x) -> routed h -> routed (h <| objects := alter f b (objects h) |>).
Proof. intros Hf. apply routed_objects; [by apply extends_alter|]. by rewrite length_alter. Qed.

Lemma routed_send h b x m : objects h !! b = Some x -> Client m = b_client x -> routed h -> routed (send m h).
Proof.
  intros Hx Hm [H1 H2 H3 H4 H5]. split; [exact H1|exact H2|exact H3|exact H4|]. cbn. apply Forall_app. split; [exact H5|].
  constructor; [|constructor]. exists b, x. by split.
Qed.

Lemma routed_bridge h client ice : routed h -> routed (new_bridge client ice h).
Proof.
  intros Hr. assert (routed (h <| objects := objects h ++ [mkBridge client ice false] |>)) as [K1 K2 K3 K4 K5].
  { apply routed_objects; [|rewrite length_app; lia|done]. intros b c (x & Hx & <-). exists x. cbn. by rewrite (lookup_app_l_Some _ _ _ _ Hx). }
  split; [|exact K2|exact K3|exact K4|exact K5]. cbn. intros c b [[<- <-]|[Hne Hb]]%lookup_insert_Some; [|by apply K1].
  split; [exists (mkBridge client ice false); cbn; by rewrite lookup_app_r, Nat.sub_diag by lia|].
  intros Hg. destruct Hr as [_ H2 _ _ _]. rewrite Forall_forall in H2. specialize (H2 _ Hg). cbn in H2. lia.
Qed.

Lemma routed_drop h b x : objects h !! b = Some x -> routed h -> routed (close_drop b (b_client x) h).
Proof.
  intros Hx [H1 H2 H3 H4 H5]. split; [|constructor; [by eapply lookup_lt_Some|exact H2]|exact H3|exact H4|exact H5].
  cbn. intros c i [Hne Hi]%lookup_delete_Some. destruct (H1 c i Hi) as [(y & Hy & Hc) Hg]. split; [by exists y|].
  apply not_elem_of_cons. split; [|exact Hg]. intros ->. assert (y = x) as -> by congruence. done.
Qed.

Lemma routed_lookup h m : routed h -> routed (read_lookup m h).
Proof.
  intros [H1 H2 H3 H4 H5]. split; [exact H1|exact H2| | |exact H5]; cbn.
  - intros t m' [= <- <-]. split; [apply elem_of_app; right; by apply list_elem_of_singleton|]. intros b Hb.
    destruct (bridges h !! Client m) as [b'|] eqn:Eb; [|done]. cbn in Hb. destruct (objects h !! b') as [x|] eqn:Ex; [|done]. cbn in Hb.
    destruct (b_callbacks x); [|done]. injection Hb as <-. apply (H1 _ _ Eb).
  - eapply Forall_impl; [exact H4|]. intros be (m' & Hm & Hc & Hev). exists m'. split_and!; [apply elem_of_app; by left|exact Hc|exact Hev].
Qed.

Lemma routed_call h : routed h -> routed (read_call h).
Proof.
  intros Hr. pose proof Hr as [H1 H2 H3 H4 H5]. unfold read_call. destruct (reading h) as [[t m]|] eqn:Er; [|exact Hr].
  destruct (H3 _ _ eq_refl) as [Hm Ht]. split; [exact H1|exact H2|done| |exact H5]. cbn. apply Forall_app. split; [exact H4|].
  destruct t as [b|]; [|constructor]. destruct (event_of m) as [ev|] eqn:Ee; [|constructor]. constructor; [|constructor].
  exists m. split_and!; [done|by apply Ht|done].
Qed.

Lemma routed_step h h' : routed h -> helper_step h h' -> routed h'.
Proof.
  intros Hr Hs. destruct Hs as [h client ice|h client ice|h b x Hx|h b x ice Hx|h b x sdp Hx|h b x c Hx|h b x Hx|h b x Hx|h m Hn|h];
    try (eapply routed_send; by eauto); [by apply routed_bridge| |by apply routed_alter|by apply routed_drop|by apply routed_lookup|by apply routed_call].
  unfold UpdateICEServers. destruct (bridges h !! client); [by apply routed_alter|done].
Qed.

Definition helper_running : helper -> Prop := steps helper_step DialFD.

(** Sessions share one helper and do not hear each other: in every order of what the sessions, their teardowns and the
    reader do, a session is called back only with what the helper said of its own client, the
    helper is told only of clients that have had a bridge, and a bridge that is closed is never looked up again. *)
Theorem video_routed h : helper_running h ->
  Forall (fun be => exists m, m ∈ heard h /\ of_client h be.1 (Client m) /\ event_of m = Some be.2) (called h) /\
  Forall (fun m => exists b, of_client h b (Client m)) (to_helper h) /\
  forall b m, b ∈ gone h -> reading (read_lookup m h) <> Some (Some b, m).
Proof.
  intros Hh. assert (routed h) as [H1 H2 H3 H4 H5].
  { refine (steps_invariant _ routed _ _ _ Hh _); [intros a b; apply routed_step|]. split; [done|constructor|done|constructor|constructor]. }
  split_and!; [exact H4|exact H5|]. intros b m Hg. cbn. intros [= Hb].
  destruct (bridges h !! Client m) as [b'|] eqn:Eb; [|done]. cbn in Hb. destruct (objects h !! b') as [x|]; [|done]. cbn in Hb.
  destruct (b_callbacks x); [|done]. injection Hb as ->. by destruct (H1 _ _ Eb).
Qed.

(** * Where it falls short *)

(** [Close] drops whatever bridge the client has: a teardown that runs late takes the bridge of a later connection of the
    same client out of the table, and tells the helper to close its video. *)
Lemma late_close_unhooks_successor : exists h, helper_running h /\ length (objects h) = 2%nat /\ gone h = [O] /\ bridges h = ∅.
Proof.
  exists (close_drop O $"c" (new_bridge $"c" [] (new_bridge $"c" [] DialFD))). split; [|by split_and!; vm_compute].
  eapply steps_cons; [apply v_bridge|]. eapply steps_cons; [apply v_bridge|]. apply steps_one. by apply (v_drop _ O (mkBridge $"c" [] false)).
Qed.

(** [startVideo] runs on a goroutine of its own: where the session is torn down before it gets to send, the helper hears
    the open after the close, and nothing closes that video again. *)
Lemma open_after_close : exists h, helper_running h /\ map Kind (to_helper h) = [$"close"; $"open"] /\ bridges h = ∅ /\ gone h = [O].
Proof.
  exists (send (open_msg $"c" []) (close_drop O $"c" (send (close_msg $"c") (start_set O (new_bridge $"c" [] DialFD))))). split; [|by split_and!; vm_compute].
  eapply steps_cons; [apply v_bridge|]. eapply steps_cons; [by apply (v_start _ O (mkBridge $"c" [] false))|].
  eapply steps_cons; [by apply (v_close _ O (mkBridge $"c" [] true))|]. eapply steps_cons; [by apply (v_drop _ O (mkBridge $"c" [] true))|].
  apply steps_one. by apply (v_open _ O (mkBridge $"c" [] true) []).
Qed.

Example wire_sample :
  decode_wire (encode_wire (mkWire $"candidate" $"c1" [] [($"candidate", JString $"udp")] [])) = Some (mkWire $"candidate" $"c1" [] [($"candidate", JString $"udp")] []) /\
  encode_wire (open_msg $"c1" [JObject []]) = json_text $"{'kind':'open','client':'c1','ice_servers':[{}]}" ++ [chr 10].
Proof. by vm_compute. Qed.
