(* ===== verification/Serve.v ===== *)
(** The start of a listener (cmd/bitbang/serve.go: [runServe] and [startListener] up to the point where it serves;
    lock_unix.go; program.go; [newLinkState] of serve_links.go; and the dispatch of main.go). The pieces are those of the
    files required here; this one has the order they come in, and what each failure leaves on the disk. *)

From S2P Require Import Prelude GoLib GoTime Json Wire JsonRoundTrip GoFlag Connect Tmux ShareFlags Identity Allowlist Grant FileTree Fileshare Capability Links LinkState LinkFile LinkCmd Ice ShareLock.

(** * The command line *)

(** The flags of serve: those of the configuration of Capability.v, and the others; [o_set] are the names given. *)
Record serveOptions := mkOptions {
  o_cfg : serveConfig; o_pin : bytes; o_ephemeral : bool; o_verbose : bool; o_nocode : bool; o_noqr : bool; o_videoFD : Z;
  o_program : bytes; o_iceServersPath : bytes; o_set : list bytes
}.
#[export] Instance eta_serveOptions : Eta serveOptions := fun o =>
  mkOptions (o_cfg o) (o_pin o) (o_ephemeral o) (o_verbose o) (o_nocode o) (o_noqr o) (o_videoFD o) (o_program o) (o_iceServersPath o) (o_set o).

Definition default_options : serveOptions :=
  mkOptions (mkConfig default_server [] false no_spec ∅ [] defaultShellMaxSessions false [] false) [] false false false false (-1) [] [] [].

Definition serve_bools : list bytes := [$"ephemeral"; $"v"; $"nocode"; $"noqr"; $"disable-shell-mirror"; $"files-upload"; $"proxy-client-ip"].
Definition serve_values : list bytes := [$"server"; $"pin"; $"video-fd"; $"program"; $"ice-servers"; $"shell-max-sessions"].

Definition serve_formal (flag : bytes) : option bool :=
  if bool_decide (flag ∈ serve_bools) then Some true else if bool_decide (flag ∈ serve_values) then Some false else None.

Definition serve_set (flag value : bytes) (o : serveOptions) : option serveOptions :=
  let o := o <| o_set := flag :: o_set o |> in
  let c := o_cfg o in
  let bool_flag (f : bool -> serveOptions) := f <$> ParseBool value in
  let named name := bool_decide (flag = name) in
  if named $"server" then Some (o <| o_cfg := c <| cfg_server := value |> |>)
  else if named $"pin" then Some (o <| o_pin := value |>)
  else if named $"program" then Some (o <| o_program := value |>)
  else if named $"ice-servers" then Some (o <| o_iceServersPath := value |>)
  else if named $"video-fd" then (fun z => o <| o_videoFD := z |>) <$> ParseInt0 value
  else if named $"shell-max-sessions" then (fun z => o <| o_cfg := c <| cfg_shellMaxSessions := z |> |>) <$> ParseInt0 value
  else if named $"ephemeral" then bool_flag (fun b => o <| o_ephemeral := b |>)
  else if named $"v" then bool_flag (fun b => o <| o_verbose := b |>)
  else if named $"nocode" then bool_flag (fun b => o <| o_nocode := b |>)
  else if named $"noqr" then bool_flag (fun b => o <| o_noqr := b |>)
  else if named $"disable-shell-mirror" then bool_flag (fun b => o <| o_cfg := c <| cfg_disableShellMirror := b |> |>)
  else if named $"files-upload" then bool_flag (fun b => o <| o_cfg := c <| cfg_filesUpload := b |> |>)
  else bool_flag (fun b => o <| o_cfg := c <| cfg_proxyClientIP := b |> |>).

Inductive serve_refusal :=
| BadServeFlags (e : flag_error) | BadWords (e : grant_error) | BadTarget (word : scope) (e : target_error)
| WithoutCapability (flags : list (bytes * scope)) | NoWorkingDirectory.

(** [runServe]: what it starts the listener with, or why it exits. *)
Definition runServe (cwd : option bytes) (args : list bytes) : result serve_refusal serveOptions :=
  match GoFlag.Parse serve_formal serve_set (reorderArgs serve_formal args) default_options with
  | Err e => Err (BadServeFlags e)
  | Ok (o, words) =>
    match Grant.parse words with
    | Err e => Err (BadWords e)
    | Ok spec =>
      match applySpec (o_cfg o) spec with
      | Err (word, e) => Err (BadTarget word e)
      | Ok cfg =>
        match rejectFlagsWithoutCapability (o_set o) cfg with
        | (_ :: _) as l => Err (WithoutCapability l)
        | [] =>
          if cfg_has cfg ScopeFiles && bool_decide (cfg_filesPath cfg = [])
          then match cwd with None => Err NoWorkingDirectory | Some d => Ok (o <| o_cfg := cfg <| cfg_filesPath := d |> |>) end
          else Ok (o <| o_cfg := cfg |>)
        end
      end
    end
  end.

Definition defaultProgram : bytes := $"bitbang".
Definition deriveProgram (o : serveOptions) : bytes := match o_program o with [] => defaultProgram | p => p end.

(** [main]'s dispatch. *)
Inductive main_command := MainServe | MainShare | MainLink | MainCp | MainConnect | MainVersion | MainHelp | MainUnknown (name : bytes) | MainUsage.
Definition main (args : list bytes) : main_command * list bytes :=
  match args with
  | [] => (MainUsage, [])
  | cmd :: rest =>
    ((if bool_decide (cmd = $"serve") then MainServe else if bool_decide (cmd = $"share") then MainShare
      else if bool_decide (cmd = $"link") then MainLink else if bool_decide (cmd = $"cp") then MainCp
      else if bool_decide (cmd = $"connect") then MainConnect
      else if bool_decide (cmd ∈ [$"version"; $"--version"; $"-v"]) then MainVersion
      else if bool_decide (cmd ∈ [$"help"; $"--help"; $"-h"]) then MainHelp else MainUnknown cmd), rest)
  end.

(** * The lock of an identity *)

(** [acquireIdentityLock] in its two calls of the system, as those of ShareLock.v; a listener keeps the lock until its
    process ends, and nobody removes the file. *)
Inductive identity_lock := LockHeld | LockBusy (pid : Z) | LockError.

Definition acquireIdentityLock (p : nat) (dir_ok open_ok : bool) (s : files) : identity_lock * files :=
  if negb (dir_ok && open_ok) then (LockError, s) else
  let s := open_lock p s in
  match flock p s with
  | Some (Acquired, s) => (LockHeld, s)
  | Some (Busy pid, s) => (LockBusy pid, s)
  | None => (LockError, s)
  end.

(** * From the options to a listener *)

Inductive start_failure :=
| NoShare | NoICEPath | NoICEFile | BadICEFile (e : file_error) | AlreadyRunning (pid : Z) | IdentityLockError
| NoIdentity_ (e : identity_error) | NoVideoHelper | NoLinkTable (e : state_error).

Record started {key : Type} := mkStarted { st_share : option FileShare; st_ice : list ICEServer; st_id : Identity key; st_links : linkState }.
Arguments started : clear implicits.

(** What the start is given by the system: the tree and the working directory, the home directory, the ICE file by its
    path, the lock, what the identity draws, the video helper, and what the link table draws. *)
Record start_inputs {key : Type} := mkInputs {
  i_fs : tree; i_cwd : bytes; i_home : option bytes; i_ice : bytes -> option bytes; i_lock : identity_lock; i_draw : drawn key; i_video : bool; i_env : env
}.
Arguments start_inputs : clear implicits.

Section Start.
Context {key : Type}.
Variable MarshalPKIX MarshalPKCS8 : key -> option bytes.
Variable ParsePKCS8 : bytes -> option (option key).
Variable EncodePEM : bytes -> bytes -> bytes.
Variable blocks : bytes -> list (bytes * bytes).
Variable print_time : Time -> bytes.
Variable parse_time : bytes -> option Time.

Abbreviation identity_load := (Identity.Load MarshalPKIX MarshalPKCS8 ParsePKCS8 EncodePEM blocks) (only parsing).

(** The share of the files capability. *)
Definition start_share (i : start_inputs key) (cfg : serveConfig) : result start_failure (option FileShare) :=
  if cfg_has cfg ScopeFiles then
    match NewShare (i_fs i) (i_cwd i) (cfg_filesPath cfg) with
    | Some s => Ok (Some (s <| UploadEnabled := cfg_filesUpload cfg |>))
    | None => Err NoShare
    end
  else Ok None.

Definition start_ice (i : start_inputs key) (o : serveOptions) : result start_failure (list ICEServer) :=
  match o_iceServersPath o with
  | [] => Ok []
  | p =>
    match resolveFSPath (i_cwd i) (i_home i) p with
    | None => Err NoICEPath
    | Some path =>
      match i_ice i path with
      | None => Err NoICEFile
      | Some data => match ParseUserICEFile data with Ok l => Ok l | Err e => Err (BadICEFile e) end
      end
    end
  end.

Definition start_lock (i : start_inputs key) (o : serveOptions) : result start_failure unit :=
  if o_ephemeral o then Ok tt else
  match i_lock i with LockHeld => Ok tt | LockBusy pid => Err (AlreadyRunning pid) | LockError => Err IdentityLockError end.

(** [newLinkState], and what [reload] leaves of the bytes of the table. *)
Definition newLinkState (i : start_inputs key) (o : serveOptions) (code : bytes) (f : option (bytes * Time)) : linkState * result state_error unit :=
  reload (i_cwd i) (i_env i) (mkLinkState (cfg_offered (o_cfg o)) code (o_ephemeral o) None None (if o_ephemeral o then None else rows_on_disk parse_time f)).

Definition reload_bytes (e : env) (code : bytes) (f : option (bytes * Time)) : option (bytes * Time) :=
  match LinkState.Load (rows_on_disk parse_time f) with
  | Ok (es, m) =>
    match es with
    | [] => f
    | _ => match refresh es code e with Ok (es', _ :: _) => (SaveFile print_time e f es' m).1 | _ => f end
    end
  | Err _ => f
  end.

(** [startListener], up to the signaling client. *)
Definition startListener (i : start_inputs key) (o : serveOptions) (d : program_dir) : result start_failure (started key) * program_dir :=
  match (let! share := start_share i (o_cfg o) in let! ice := start_ice i o in let! _ := start_lock i o in Ok (share, ice)) with
  | Err e => (Err e, d)
  | Ok (share, ice) =>
    let '(id, pem) := identity_load (o_ephemeral o) (i_draw i) (identity_pem d) in
    let d := d <| identity_pem := pem |> in
    match id with
    | Err e => (Err (NoIdentity_ e), d)
    | Ok id =>
      if (0 <=? o_videoFD o) && negb (i_video i) then (Err NoVideoHelper, d) else
      let '(s, r) := newLinkState i o (Identity.Code id) (links_json d) in
      let d := if o_ephemeral o then d else d <| links_json := reload_bytes (i_env i) (Identity.Code id) (links_json d) |> in
      match r with
      | Err e => (Err (NoLinkTable e), d)
      | Ok _ => (Ok (mkStarted _ share ice id s), d)
      end
    end
  end.

(** * What a start leaves behind *)

Hypothesis times_back : forall t, parse_time (print_time t) = Some t.
Hypothesis times_valid : forall t, utf8_valid (print_time t).

(** The bytes of the table after a start are those of the rows that [reload] has on the disk. *)
Lemma reload_bytes_exact i o code f s r : o_ephemeral o = false ->
  (forall es m es' l, LinkState.Load (rows_on_disk parse_time f) = Ok (es, m) -> refresh es code (i_env i) = Ok (es', l) -> Forall terms_ok es') ->
  newLinkState i o code f = (s, r) -> rows_on_disk parse_time (reload_bytes (i_env i) code f) = disk s.
Proof using times_back times_valid.
  intros He Hok. unfold newLinkState, reload, reload_bytes. rewrite He. cbn [readOnly disk lsCode].
  assert (forall s0 es m s r, install (i_cwd i) s0 es m = (s, r) -> disk s = disk s0) as Hi by (intros s0 es m s1 r1; unfold install; repeat case_match; by intros [= <- <-]).
  destruct (LinkState.Load _) as [[es m]|err] eqn:El; [|by intros [= <- <-]]. destruct es as [|x es]; [by intros ->%Hi|].
  destruct (refresh (x :: es) code (i_env i)) as [[es' l]|err] eqn:Er; [|by intros [= <- <-]]. specialize (Hok _ _ _ _ eq_refl Er).
  destruct l as [|y l]; [by intros ->%Hi|]. unfold Save, SaveFile.
  assert (snd <$> rows_on_disk parse_time f = snd <$> f) as -> by by destruct f. case_bool_decide; [|by intros [= <- <-]].
  destruct (write_ok (i_env i)); [|by intros [= <- <-]]. intros ->%Hi. cbn [disk upd fst rows_on_disk fmap option_fmap option_map snd].
  by rewrite (Parse_file_text _ _ times_back times_valid _ Hok).
Qed.

(** C34: A start takes its lock first: one that does not get the lock of its identity ends before it has read or written the
    identity or the link table, which are the other listener's; one that fails later leaves the table as it was, up to
    the table itself; an ephemeral one never touches either. A start that succeeds holds the lock, serves what was
    offered by a table that is installed, under the code of its identity, and every later start with the files it
    leaves has that same identity. *)
Theorem start_in_order i o d r d' : startListener i o d = (r, d') ->
  (o_ephemeral o = true -> d' = d) /\
  (o_ephemeral o = false -> i_lock i <> LockHeld -> d' = d /\ exists e, r = Err e) /\
  (forall e, r = Err e -> match e with NoLinkTable _ => True | NoIdentity_ _ | NoVideoHelper => links_json d' = links_json d | _ => d' = d end) /\
  (forall s, r = Ok s ->
    (o_ephemeral o = true \/ i_lock i = LockHeld) /\ lsCode (st_links s) = Identity.Code (st_id s) /\ lsOffered (st_links s) = cfg_offered (o_cfg o) /\
    (exists t, table (st_links s) = Some t) /\
    (o_ephemeral o = false -> encodings MarshalPKCS8 ParsePKCS8 EncodePEM blocks -> draws_eight (i_draw i) ->
      forall e, identity_load false e (identity_pem d') = (Ok (st_id s), identity_pem d'))).
Proof.
  unfold startListener. destruct (start_share i (o_cfg o)) as [share|e0] eqn:Es; cbn [result_bind].
  2:{ intros [= <- <-]. split_and!; [done|by intros; split; [|by eexists]| |done]. intros e [= <-]. unfold start_share in Es. repeat case_match; by simplify_eq. }
  destruct (start_ice i o) as [ice|e0] eqn:Ei; cbn [result_bind].
  2:{ intros [= <- <-]. split_and!; [done|by intros; split; [|by eexists]| |done]. intros e [= <-]. unfold start_ice in Ei. repeat case_match; by simplify_eq. }
  destruct (start_lock i o) as [[]|e0] eqn:Ek; cbn [result_bind].
  2:{ intros [= <- <-]. split_and!; [done|by intros; split; [|by eexists]| |done]. intros e [= <-]. unfold start_lock in Ek. repeat case_match; by simplify_eq. }
  assert (o_ephemeral o = true \/ i_lock i = LockHeld) as Hl.
  { unfold start_lock in Ek. destruct (o_ephemeral o); [by left|right]. by destruct (i_lock i). }
  destruct (identity_load (o_ephemeral o) (i_draw i) (identity_pem d)) as [id pem] eqn:Eid.
  assert (o_ephemeral o = true -> d <| identity_pem := pem |> = d) as He.
  { intros E. rewrite E in Eid. cbn in Eid. injection Eid as _ <-. by destruct d. }
  assert (o_ephemeral o = false -> i_lock i <> LockHeld -> False) as Hno by (intros E Hn; destruct Hl as [E'|E']; congruence).
  destruct id as [id|err].
  2:{ intros [= <- <-]. split_and!; [exact He|by intros E Hn; destruct (Hno E Hn)| |done]. by intros e [= <-]. }
  destruct (_ && _).
  { intros [= <- <-]. split_and!; [exact He|by intros E Hn; destruct (Hno E Hn)| |done]. by intros e [= <-]. }
  destruct (newLinkState i o (Identity.Code id) _) as [s r0] eqn:En.
  assert (o_ephemeral o = true -> (if o_ephemeral o then d <| identity_pem := pem |> else d <| identity_pem := pem |> <| links_json := reload_bytes (i_env i) (Identity.Code id) (links_json (d <| identity_pem := pem |>)) |>) = d) as He'.
  { intros E. rewrite E. by apply He. }
  destruct r0 as [u|err].
  2:{ intros [= <- <-]. split_and!; [exact He'|by intros E Hn; destruct (Hno E Hn)|by intros e [= <-]|done]. }
  intros [= <- <-]. split_and!; [exact He'|by intros E Hn; destruct (Hno E Hn)|done|]. intros s' [= <-]. cbn [st_links st_id].
  assert (lsCode s = Identity.Code id /\ lsOffered s = cfg_offered (o_cfg o) /\ exists t, table s = Some t) as (K1 & K2 & K3).
  { clear -En. unfold newLinkState, reload in En.
    assert (forall s0 es m s, install (i_cwd i) s0 es m = (s, Ok u) -> lsCode s = lsCode s0 /\ lsOffered s = lsOffered s0 /\ exists t, table s = Some t) as Hi.
    { intros s0 es m s1. unfold install. destruct (Build _ _ _ _) as [[t l]|]; [|done]. intros [= <- _]. split_and!; [done|done|by eexists]. }
    repeat (case_match; simplify_eq; try done); match goal with H : install _ _ _ _ = _ |- _ => by apply Hi in H end. }
  split_and!; [exact Hl|exact K1|exact K2|exact K3|]. intros E Henc Hd e. rewrite E in Eid |- *.
  exact (proj1 (identity_outlives_process _ _ _ _ _ _ e _ _ _ Henc Hd Eid)).
Qed.
End Start.

(** Two listeners of one identity: a lock that is acquired is held as in [lock_excludes], by the steps of [TryLock]. *)
Lemma acquired_holds p s s' : procs s !! p = None -> acquireIdentityLock p true true s = (LockHeld, s') ->
  ShareLock.run [Opens p; Locks p] s = Some s' /\ holds s' p.
Proof.
  intros Hp. unfold acquireIdentityLock. cbn [andb negb ShareLock.run ShareLock.step]. rewrite Hp. destruct (flock p (open_lock p s)) as [[[|pid] s1]|] eqn:Ef; try done.
  intros [= <-]. cbn. split; [done|]. unfold flock in Ef. destruct (procs (open_lock p s) !! p) as [[j|j]|] eqn:Eo; [|done..].
  destruct (locked _ !! j); [done|]. injection Ef as <-. exists j. cbn. apply lookup_insert_eq.
Qed.

(** * Runs *)

Definition shown_options (r : result serve_refusal serveOptions) : result serve_refusal (bytes * list scope * Z * bytes * list bytes) :=
  let! o := r in Ok (cfg_target (o_cfg o), base.elements (cfg_caps (o_cfg o)), cfg_shellMaxSessions (o_cfg o), cfg_filesPath (o_cfg o), o_set o).

Example runServe_sample :
  map shown_options [runServe None [$"files"]; runServe (Some $"/w") [$"forward"; $"-files-upload"]; runServe (Some $"/w") [];
                     runServe None [$"-shell-max-sessions=0x2"; $"-v"; $"shell"; $"proxy"; $"a:80"; $"-pin"; $"1"]; runServe None [$"-video-fd"; $"3"; $"no"]] =
  [Err NoWorkingDirectory; Err (WithoutCapability [($"files-upload", ScopeFiles)]);
   Ok ([], base.elements (caps Everything), 10, $"/w", []); Ok ($"a:80", [ScopeShell; ScopeProxy], 2, [], [$"pin"; $"v"; $"shell-max-sessions"]); Err (BadWords (NotAWord $"no"))].
Proof. vm_compute. reflexivity. Qed.

Definition paper_inputs (lock : identity_lock) : start_inputs bytes :=
  mkInputs _ ∅ $"/" None (fun _ => None) lock (paper_drawn $"key") false (mkEnv 0 (map Some [$"N1"; $"N2"]) true 7).
Definition forward_only : serveOptions := from_result default_options (runServe None [$"forward"; $"db:5432"]).
Definition paper_start (lock : identity_lock) := startListener Some Some (fun d => Some (Some d)) paper_armour (paper_blocks 3) print_Z parse_signed (paper_inputs lock) forward_only.

(** A first start, a second listener beside it, and a start after it. *)
Lemma start_in_order_witness : exists s d,
  paper_start LockHeld (mkDir Missing None) = (Ok s, d) /\ paper_start (LockBusy 7) d = (Err (AlreadyRunning 7), d) /\
  paper_Load false (paper_drawn $"other") (identity_pem d) = (Ok (st_id s), identity_pem d).
Proof.
  assert (exists s d, paper_start LockHeld (mkDir Missing None) = (Ok s, d)) as (s & d & E).
  { destruct (paper_start LockHeld (mkDir Missing None)) as [[s|e] d] eqn:E; [by exists s, d|]. exfalso. revert E. vm_compute. discriminate. }
  exists s, d. split; [exact E|]. split; [reflexivity|].
  refine (proj2 (proj2 (proj2 (proj2 (proj2 (proj2 (proj2 (start_in_order Some Some (fun d => Some (Some d)) paper_armour (paper_blocks 3) print_Z parse_signed
    (paper_inputs LockHeld) forward_only (mkDir Missing None) (Ok s) d E))) s eq_refl)))) _ paper_encodings _ _); [reflexivity|].
  intros raw H. injection H as <-. reflexivity.
Defined.
