(* ===== verification/Display.v ===== *)
(** What a listener shows when it is ready (cmd/bitbang/serve_display.go, and [smallQR] of serve.go): the QR code in half
    blocks, the banner beside or above it, the URL and the pairing code. The bitmap is go-qrcode's. *)

From S2P Require Import Prelude GoLib Json Grant LinkCmd.

Definition full_block : bytes := map chr [226; 150; 136].
Definition upper_half : bytes := map chr [226; 150; 128].
Definition lower_half : bytes := map chr [226; 150; 132].
Definition blank : bytes := [chr 32].
Definition newline : ascii := chr 10.

(** One light module of quiet zone on every side; a dark module is true. *)
Definition quiet_zone (bits : list (list bool)) : list (list bool) :=
  let n := length bits in
  let row r := take (n + 2) (false :: r ++ replicate (n + 1) false) in
  replicate (n + 2) false :: map row bits ++ [replicate (n + 2) false].

(** Two modules in one place of the terminal, whose ground is dark. *)
Definition glyph (top bot : bool) : bytes :=
  match top, bot with
  | false, false => full_block
  | true, true => blank
  | false, true => upper_half
  | true, false => lower_half
  end.

Definition pair_line (top bot : list bool) : bytes := concat (zip_with glyph top bot) ++ [newline].

(** A last row of its own is the upper half of its places. *)
Definition last_line (row : list bool) : bytes := concat (map (fun dark => if dark : bool then blank else upper_half) row) ++ [newline].

Fixpoint half_blocks (rows : list (list bool)) : bytes :=
  match rows with
  | top :: bot :: rest => pair_line top bot ++ half_blocks rest
  | [row] => last_line row
  | [] => []
  end.

(** [smallQR], of the bitmap where one could be made. *)
Definition smallQR (bitmap : option (list (list bool))) : bytes := match bitmap with Some bits => half_blocks (quiet_zone bits) | None => [] end.

(** * The startup block *)

Definition version : bytes := $"0.5.2".

Definition banner : list bytes :=
  [$"   ___         ___"; $"  / __\_ _    / __\"; $" /__\/(_) |_ /__\// ___ ____  ___ _"; $"/ \/  \ |  _/ \/  \/ _ ` / _ \/ _ `/";
   $"\_____/_|\__\_____/\_,_/_//_/\_, /"; $"                            /___/  "].

(** [width]: 0 where the terminal does not say. *)
Record display := mkDisplay { url : bytes; isTTY : bool; width : nat; noqr : bool; bold : bytes; reset : bytes }.

(** [newDisplay]: [vt], the terminal interprets escapes. *)
Definition newDisplay (u : bytes) (n tty vt : bool) (w : option nat) : display :=
  mkDisplay u tty (default O w) n (if tty && vt then chr 27 :: $"[1m" else []) (if tty && vt then chr 27 :: $"[0m" else []).

Definition line (s : bytes) : bytes := s ++ [newline].

(** The lines of a text that ends in newlines. *)
Definition lines_without_end (s : bytes) : list bytes := Split (rev (trim_left [newline] (rev s))) newline.

Definition bannerLines (d : display) : list bytes := (if isTTY d then banner else []) ++ [$"bitbang-cli v" ++ version].

Definition gap : bytes := $"   ".

Definition widest_runes (l : list bytes) : nat := foldr (fun s w => Nat.max (RuneCount s) w) O l.

(** The QR code with the banner beside it, from line [i] of the code on. *)
Fixpoint beside (i off : nat) (qr b : list bytes) : list bytes :=
  match qr with
  | [] => []
  | q :: rest => (if (off <=? i)%nat then match b !! (i - off)%nat with Some l => q ++ gap ++ l | None => q end else q) :: beside (S i) off rest b
  end.

Definition side_by_side (d : display) (qrLines : list bytes) : bool :=
  match qrLines with
  | [] => false
  | q :: _ => isTTY d && (RuneCount q + length gap + widest_runes (bannerLines d) <=? width d)%nat
  end.

(** [readyBlock], of the code as drawn. *)
Definition readyBlock (d : display) (drawn : bytes) : bytes :=
  let qr := if noqr d then [] else drawn in
  let qrLines := match qr with [] => [] | _ => lines_without_end qr end in
  (if side_by_side d qrLines then concat (map line (beside O ((length qrLines - length (bannerLines d)) / 2) qrLines (bannerLines d)))
   else concat (map line (bannerLines d)) ++ match qr with [] => [] | _ => newline :: qr end) ++
  line ($"URL: " ++ bold d ++ url d ++ reset d).

Definition pairCode (d : display) (code : bytes) : bytes :=
  match code with [] => [] | _ => line (bold d ++ $"Pairing code: " ++ code ++ reset d ++ $" (valid 5 minutes)") end.

(** * Reading it back *)

(** What a reader sees in a line: the two modules of each place. *)
Fixpoint places (fuel : nat) (s : bytes) : option (list (bool * bool)) :=
  match fuel, s with
  | _, [] => Some []
  | O, _ => None
  | S n, c :: r =>
    if bool_decide (c = chr 32) then cons (true, true) <$> places n r
    else let g := take 3 s in
         p ← (if decide (g = full_block) then Some (false, false) else if decide (g = upper_half) then Some (false, true)
              else if decide (g = lower_half) then Some (true, false) else None);
         cons p <$> places n (drop 3 s)
  end.

Definition scan_line (s : bytes) : option (list (list bool)) := (fun l => [map fst l; map snd l]) <$> places (length s) s.

(** The rows of modules in a text of whole lines. *)
Definition scan (s : bytes) : option (list (list bool)) := (fun l => concat l) <$> mapM scan_line (removelast (Split s newline)).

Lemma glyph_no_newline a b : newline ∉ glyph a b.
Proof. destruct a, b; intros H; repeat (apply elem_of_cons in H as [H|H]; [discriminate H|]); by apply elem_of_nil in H. Qed.

Lemma places_glyph n a b s : places (S n) (glyph a b ++ s) = cons (a, b) <$> places n s.
Proof. destruct a, b; reflexivity. Qed.

Lemma places_more l : forall n, (length l <= n)%nat -> places n (concat (map (fun p => glyph p.1 p.2) l)) = Some l.
Proof.
  induction l as [|[a b] l IH]; intros [|n] Hn; cbn in Hn; try (cbn; done); [lia|]. cbn [map concat fst snd]. rewrite places_glyph, IH by lia. done.
Qed.

Lemma length_glyphs l : (length l <= length (concat (map (fun p => glyph p.1 p.2) l)))%nat.
Proof. induction l as [|[[] []] l IH]; cbn; lia. Qed.

Lemma scan_glyphs l : scan_line (concat (map (fun p => glyph p.1 p.2) l)) = Some [map fst l; map snd l].
Proof. unfold scan_line. by rewrite places_more by apply length_glyphs. Qed.

Lemma Split_line s rest : newline ∉ s -> Split (s ++ newline :: rest) newline = s :: Split rest newline.
Proof.
  induction s as [|c s IH]; intros H; cbn [app Split]; [by rewrite decide_True|]. apply not_elem_of_cons in H as [Hc H].
  rewrite decide_False by congruence. by rewrite (IH H).
Qed.

Lemma concat_no_newline l : newline ∉ concat (map (fun p : bool * bool => glyph p.1 p.2) l).
Proof. induction l as [|p l IH]; cbn; [apply not_elem_of_nil|]. rewrite elem_of_app. intros [H|H]; [by apply glyph_no_newline in H|done]. Qed.

Lemma Split_not_nil s sep : Split s sep <> [].
Proof. induction s as [|c s IH]; cbn; [done|]. destruct (decide _); [done|]. by destruct (Split s sep). Qed.

Lemma scan_cons l rest : scan (concat (map (fun p => glyph p.1 p.2) l) ++ newline :: rest) = (fun r => map fst l :: map snd l :: r) <$> scan rest.
Proof.
  unfold scan. rewrite Split_line by apply concat_no_newline. pose proof (Split_not_nil rest newline) as Hn. destruct (Split rest newline) as [|x k]; [done|].
  change (removelast (?a :: x :: k)) with (a :: removelast (x :: k)). cbn [mapM]. rewrite scan_glyphs. cbn [mbind option_bind]. by destruct (mapM scan_line _).
Qed.

Lemma zip_glyphs top bot : zip_with glyph top bot = map (fun p => glyph p.1 p.2) (zip top bot).
Proof. revert bot. induction top as [|a top IH]; intros [|b bot]; cbn; [done|done|done|]. by rewrite IH. Qed.

Lemma last_glyphs row : map (fun dark : bool => if dark then blank else upper_half) row = map (fun p => glyph p.1 p.2) (map (fun a => (a, true)) row).
Proof. rewrite map_map. apply map_ext. by intros []. Qed.

Lemma scan_half_blocks w n : forall rows, (length rows <= n)%nat -> Forall (fun r => length r = w) rows ->
  scan (half_blocks rows) = Some (rows ++ if Nat.odd (length rows) then [replicate w true] else []).
Proof.
  induction n as [|n IH]; intros [|top [|bot rows]] Hn HF; cbn in Hn; try lia; try reflexivity.
  - cbn [half_blocks]. unfold last_line. rewrite last_glyphs. change [newline] with (newline :: []). rewrite scan_cons. cbn.
    rewrite !map_map. cbn. rewrite map_id. apply Forall_cons in HF as [<- _]. do 3 f_equal. clear. induction top; cbn; congruence.
  - apply Forall_cons in HF as [Ht HF]. apply Forall_cons in HF as [Hb HF]. cbn [half_blocks]. unfold pair_line. rewrite zip_glyphs, <- app_assoc. cbn [app]. rewrite scan_cons.
    rewrite (IH rows) by (try done; lia). cbn [fmap option_fmap option_map length Nat.odd]. do 2 f_equal; [|f_equal].
    + apply fst_zip. lia.
    + apply snd_zip. lia.
Qed.

(** A QR code survives the terminal: reading every place of the text as the two modules it stands for gives the bitmap
    back, in a quiet zone of one light module, with below it, where the height is odd, as it is for every QR code, the
    dark ground. *)
Theorem small_qr_reads_back bits : Forall (fun r => length r = length bits) bits ->
  scan (smallQR (Some bits)) = Some (quiet_zone bits ++ if Nat.odd (length bits) then [replicate (length bits + 2) true] else []) /\
  quiet_zone bits = replicate (length bits + 2) false :: map (fun r => false :: r ++ [false]) bits ++ [replicate (length bits + 2) false].
Proof.
  intros HF. assert (quiet_zone bits = replicate (length bits + 2) false :: map (fun r => false :: r ++ [false]) bits ++ [replicate (length bits + 2) false]) as E.
  { unfold quiet_zone. do 2 f_equal. apply map_ext_Forall. eapply Forall_impl; [exact HF|]. intros r Hr. cbn beta in Hr. cbn.
    replace (length bits + 2)%nat with (S (length r + 1)) by lia. cbn [take]. f_equal. rewrite take_app_add'; [|done].
    replace (length bits + 1)%nat with (S (length bits)) by lia. done. }
  split; [|exact E]. cbn [smallQR]. rewrite (scan_half_blocks (length bits + 2) (length (quiet_zone bits))); [|done|].
  - do 3 f_equal. rewrite E. cbn [length]. rewrite length_app, length_map. cbn. replace (S (length bits + 1)) with (S (S (length bits))) by lia. done.
  - rewrite E. constructor; [by rewrite length_replicate|]. apply Forall_app. split; [|constructor; [by rewrite length_replicate|constructor]].
    apply Forall_map. eapply Forall_impl; [exact HF|]. intros r Hr. cbn beta in *. cbn. rewrite length_app. cbn. lia.
Qed.

(** * The block *)

Lemma beside_lookup qr b off : forall i k q, qr !! k = Some q ->
  beside i off qr b !! k = Some (if (off <=? i + k)%nat then match b !! (i + k - off)%nat with Some l => q ++ gap ++ l | None => q end else q).
Proof.
  induction qr as [|x qr IH]; intros i [|k] q Hq; try done; cbn [beside lookup list_lookup] in *.
  - injection Hq as ->. by rewrite Nat.add_0_r.
  - change (beside (S i) off qr b !! k = Some (if (off <=? i + S k)%nat then match b !! (i + S k - off)%nat with Some l => q ++ gap ++ l | None => q end else q)).
    rewrite (IH _ _ _ Hq). by replace (i + S k)%nat with (S i + k)%nat by lia.
Qed.

Lemma length_beside qr b off : forall i, length (beside i off qr b) = length qr.
Proof. induction qr as [|x qr IH]; intros i; cbn; [done|]. by rewrite IH. Qed.

(** The block ends with the URL. Beside the banner, the lines of the QR code stay the beginnings of its lines, and every line
    of a banner that is no taller than the code is there, after the gap; otherwise the code is there as drawn, under the
    banner. Off a terminal there is no banner and no escape, only the version, the code unless it is left out, and the
    URL. *)
Theorem ready_block_shape d drawn : exists body,
  readyBlock d drawn = body ++ line ($"URL: " ++ bold d ++ url d ++ reset d) /\
  let qr := if noqr d then [] else drawn in
  (isTTY d = false -> body = line ($"bitbang-cli v" ++ version) ++ match qr with [] => [] | _ => newline :: qr end) /\
  (qr <> [] -> (exists above, body = above ++ newline :: qr) \/
    exists ls, body = concat (map line ls) /\ length ls = length (lines_without_end qr) /\
      (forall k q, lines_without_end qr !! k = Some q -> exists tail, ls !! k = Some (q ++ tail)) /\
      ((length (bannerLines d) <= length (lines_without_end qr))%nat -> forall j l, bannerLines d !! j = Some l -> exists k q, lines_without_end qr !! k = Some q /\ ls !! k = Some (q ++ gap ++ l))).
Proof.
  unfold readyBlock. set (qr := if noqr d then [] else drawn). set (ql := match qr with [] => [] | _ => lines_without_end qr end). cbn zeta.
  eexists. split; [reflexivity|]. destruct (side_by_side d ql) eqn:Es.
  - split; [intros Ht; unfold side_by_side in Es; rewrite Ht in Es; by destruct ql|]. intros Hq. right. assert (ql = lines_without_end qr) as <- by (subst ql; by destruct qr).
    set (off := ((length ql - length (bannerLines d)) / 2)%nat). exists (beside O off ql (bannerLines d)).
    split_and!; [done|apply length_beside| |].
    + intros k q Hk. rewrite (beside_lookup _ _ _ _ _ _ Hk). destruct (off <=? 0 + k)%nat; [|exists []; by rewrite app_nil_r].
      destruct (bannerLines d !! _) as [l|]; [by exists (gap ++ l)|exists []; by rewrite app_nil_r].
    + intros Hlen j l Hj. pose proof (lookup_lt_Some _ _ _ Hj) as Hlt.
      assert (off + j < length ql)%nat as Hk by (subst off; pose proof (Nat.Div0.mul_div_le (length ql - length (bannerLines d)) 2); lia).
      destruct (lookup_lt_is_Some_2 ql (off + j) Hk) as [q Hq']. exists (off + j)%nat, q. split; [done|]. rewrite (beside_lookup _ _ _ _ _ _ Hq').
      rewrite (proj2 (Nat.leb_le _ _)) by lia. replace (0 + (off + j) - off)%nat with j by lia. by rewrite Hj.
  - split.
    + intros Ht. unfold bannerLines. rewrite Ht. cbn [map concat app]. by rewrite app_nil_r.
    + intros Hq. left. destruct qr as [|c qr'] eqn:Eq; [done|]. by eexists.
Qed.

Definition corner : list (list bool) := [[true; false; true]; [true; true; false]; [false; false; true]].

Lemma small_qr_reads_back_witness :
  scan (smallQR (Some corner)) = Some ([replicate 5 false; [false; true; false; true; false]; [false; true; true; false; false]; [false; false; false; true; false]; replicate 5 false] ++ [replicate 5 true]).
Proof. refine (proj1 (small_qr_reads_back corner _)). repeat constructor. Defined.

Example ready_block_sample :
  readyBlock (newDisplay $"https://bitba.ng/U#C" false false true (Some 80%nat)) (smallQR (Some [[true]])) =
  line ($"bitbang-cli v" ++ version) ++ [newline] ++ full_block ++ upper_half ++ full_block ++ [newline] ++ concat (replicate 3 upper_half) ++ [newline] ++ line $"URL: https://bitba.ng/U#C".
Proof. reflexivity. Qed.
