(* ===== verification/ShareInfo.v ===== *)
(** What the pages of a shared directory are told about its files (internal/fileshare/fileshare.go and format.go): the
    name a download is saved under, sizes and icons, and the totals of /api/info. Paths and listings are in
    Fileshare.v. *)

From S2P Require Import Prelude GoLib Json JsonRoundTrip GoNet GoHttp Wire Grant GrantRoundTrip FileTree Fileshare.

(** * Names of downloads *)

Definition printable (c : ascii) : bool := between 32 126 (code c).
Definition underscore : ascii := chr 95.
Definition backslash_ : ascii := chr 92.
Definition quote_mark : ascii := chr 34.

(** The name in printable ASCII: any other character, and any byte that belongs to none, is replaced. *)
Definition plain_rune (r : bytes) : ascii := match r with [c] => if printable c then c else underscore | _ => underscore end.
Definition plain_name (name : bytes) : bytes := map plain_rune (runes (length name) name).

(** [mime.FormatMediaType] of "attachment" with a file name of printable characters. *)
Definition tspecials : bytes := $"()<>@,;:/[]?=" ++ [backslash_; quote_mark].
Definition token_char (c : ascii) : bool := between 33 126 (code c) && negb (bool_decide (c ∈ tspecials)).
Definition is_token (s : bytes) : bool := negb (bool_decide (s = [])) && forallb token_char s.

Definition escaped (c : ascii) : bytes := if bool_decide (c = quote_mark) || bool_decide (c = backslash_) then [backslash_; c] else [c].

Definition FormatMediaType (value : bytes) : bytes :=
  $"attachment; filename=" ++ if is_token value then value else [quote_mark] ++ concat (map escaped value) ++ [quote_mark].

Definition attr_char (c : ascii) : bool := alnum c || bool_decide (c ∈ $"!#$&+-.^_`|~").

Definition upper_hex (z : Z) : ascii := upper_char (to_hex z).

Fixpoint rfc5987Escape (s : bytes) : bytes :=
  match s with
  | [] => []
  | c :: r => (if attr_char c then [c] else ["%"%char; upper_hex (code c / 16); upper_hex (code c mod 16)]) ++ rfc5987Escape r
  end.

Definition contentDisposition (name : bytes) : bytes :=
  let plain := plain_name name in
  FormatMediaType plain ++ (if bool_decide (plain <> name) then $"; filename*=UTF-8''" ++ rfc5987Escape name else []).

(** A reader of the header (RFC 6266): a quoted string or a token, then an extended parameter or nothing. *)
Fixpoint read_quoted (s : bytes) : option (bytes * bytes) :=
  match s with
  | [] => None
  | c :: r =>
    if bool_decide (c = quote_mark) then Some ([], r)
    else if bool_decide (c = backslash_) then match r with d :: r' => (fun x => (d :: x.1, x.2)) <$> read_quoted r' | [] => None end
    else (fun x => (c :: x.1, x.2)) <$> read_quoted r
  end.

Fixpoint read_token (s : bytes) : bytes * bytes :=
  match s with
  | c :: r => if token_char c then let '(t, k) := read_token r in (c :: t, k) else ([], s)
  | [] => ([], [])
  end.

Definition read_disposition (s : bytes) : option (bytes * option bytes) :=
  match strip $"attachment; filename=" s with
  | None => None
  | Some s =>
    match match s with c :: r => if bool_decide (c = quote_mark) then read_quoted r else Some (read_token s) | [] => None end with
    | None => None
    | Some (plain, []) => Some (plain, None)
    | Some (plain, rest) => match strip $"; filename*=UTF-8''" rest with
                            | Some e => (fun n => (plain, Some n)) <$> unescape e
                            | None => None
                            end
    end
  end.

(** The name a browser saves under: the extended one if there is one. *)
Definition saved_name (x : bytes * option bytes) : bytes := default x.1 x.2.

Lemma hex_char z : 0 <= z < 16 -> hex_digit (upper_hex z) = Some z /\ printable (upper_hex z) = true.
Proof.
  intros Hz. assert (forallb (fun n => let z := Z.of_nat n in bool_decide (hex_digit (upper_hex z) = Some z) && printable (upper_hex z)) (seq 0 16) = true) as Hall by by vm_compute.
  rewrite forallb_forall in Hall. specialize (Hall (Z.to_nat z)). rewrite in_seq in Hall. specialize (Hall ltac:(lia)). cbn zeta in Hall.
  rewrite Z2Nat.id in Hall by lia. apply andb_prop in Hall as [H1 H2]. by apply bool_decide_eq_true in H1.
Qed.

Lemma code_byte c : 0 <= code c / 16 < 16 /\ 0 <= code c mod 16 < 16 /\ chr (code c / 16 * 16 + code c mod 16) = c.
Proof.
  pose proof (code_range c) as Hc. split_and!; try (apply Z.mod_pos_bound; lia); try (apply Z.div_pos; lia); try (apply Z.div_lt_upper_bound; lia).
  replace (code c / 16 * 16 + code c mod 16) with (code c) by (pose proof (Z.div_mod (code c) 16); lia). by apply chr_code.
Qed.

Lemma attr_printable c : attr_char c = true -> printable c = true /\ c <> "%"%char.
Proof.
  intros H. assert (forallb (fun n => let c := ascii_of_nat n in implb (attr_char c) (printable c && negb (bool_decide (c = "%"%char)))) (seq 0 256) = true) as Hall by by vm_compute.
  rewrite forallb_forall in Hall. specialize (Hall (nat_of_ascii c)). rewrite in_seq in Hall.
  pose proof (nat_ascii_bounded c). specialize (Hall ltac:(lia)). cbn zeta in Hall. rewrite ascii_nat_embedding, H in Hall. cbn [implb] in Hall.
  apply andb_prop in Hall as [-> Hn]. split; [done|]. by apply negb_true_iff, bool_decide_eq_false in Hn.
Qed.

(** The escaped name reads back, and is printable. *)
Lemma unescape_rfc5987 s : unescape (rfc5987Escape s) = Some s /\ forallb printable (rfc5987Escape s) = true.
Proof.
  induction s as [|c s [IH1 IH2]]; [done|]. cbn [rfc5987Escape]. destruct (attr_char c) eqn:E; cbn [app].
  - destruct (attr_printable c E) as [Hp Hn]. split; [|cbn [forallb]; by rewrite Hp].
    transitivity ((fun t => c :: t) <$> unescape (rfc5987Escape s)); [|by rewrite IH1].
    clear -Hn. by destruct c as [[] [] [] [] [] [] [] []]; try reflexivity; cbn.
  - destruct (code_byte c) as (H1 & H2 & H3). destruct (hex_char _ H1) as [X1 P1], (hex_char _ H2) as [X2 P2].
    cbn [unescape forallb]. rewrite X1, X2, IH1, P1, P2, IH2. cbn. by rewrite H3.
Qed.

Lemma plain_printable name : forallb printable (plain_name name) = true.
Proof.
  unfold plain_name. generalize (runes (length name) name) as l. induction l as [|r l IH]; [done|]. cbn [map forallb]. rewrite IH, andb_true_r.
  destruct r as [|c [|]]; cbn; [done| |done]. by destruct (printable c) eqn:E.
Qed.

Lemma token_printable c : token_char c = true -> printable c = true /\ c <> quote_mark.
Proof.
  unfold token_char, printable. intros H. apply andb_prop in H as [H1 H2]. split.
  - unfold between in *. apply andb_prop in H1 as [A B]. apply andb_true_intro. split; [apply Z.leb_le in A; apply Z.leb_le; lia|done].
  - intros ->. by vm_compute in H2.
Qed.

Lemma escaped_printable value : forallb printable value = true -> forallb printable (concat (map escaped value)) = true.
Proof.
  induction value as [|c v IH]; [done|]. cbn [forallb map concat]. intros [Hc Hv]%andb_prop. rewrite forallb_app.
  rewrite (IH Hv), andb_true_r. unfold escaped. destruct (_ || _); cbn; by rewrite Hc.
Qed.

Lemma read_escaped value rest : read_quoted (concat (map escaped value) ++ quote_mark :: rest) = Some (value, rest).
Proof.
  induction value as [|c v IH]; [done|]. cbn [map concat]. rewrite <- app_assoc.
  unfold escaped at 1. case_bool_decide as H1; [|case_bool_decide as H2]; cbn [orb app].
  - cbn [read_quoted]. change (bool_decide (backslash_ = quote_mark)) with false. change (bool_decide (backslash_ = backslash_)) with true.
    cbv iota. rewrite IH. done.
  - cbn [read_quoted]. change (bool_decide (backslash_ = quote_mark)) with false. change (bool_decide (backslash_ = backslash_)) with true.
    cbv iota. rewrite IH. done.
  - cbn [read_quoted]. rewrite bool_decide_eq_false_2, bool_decide_eq_false_2 by done. rewrite IH. done.
Qed.

Lemma read_token_app value rest : forallb token_char value = true -> match rest with c :: _ => token_char c = false | [] => True end ->
  read_token (value ++ rest) = (value, rest).
Proof.
  intros H Hr. induction value as [|c v IH]; cbn [app].
  - destruct rest as [|c r]; [done|]. cbn [read_token]. by rewrite Hr.
  - cbn [forallb] in H. apply andb_prop in H as [Hc Hv]. cbn [read_token]. by rewrite Hc, (IH Hv).
Qed.

Lemma strip_prefix p s : strip p (p ++ s) = Some s.
Proof. induction p as [|c p IH]; [done|]. cbn [app strip]. by rewrite Z.eqb_refl. Qed.

(** C9: What a download is saved under: whatever bytes a file's name holds, the header is one line of printable ASCII that no
    name can break out of, and it reads back as the name in printable ASCII and, where that lost anything, the name
    itself, so that a browser that reads the extended form saves every file under its own name. *)
Theorem download_keeps_name name :
  forallb printable (contentDisposition name) = true /\
  exists x, read_disposition (contentDisposition name) = Some x /\ x.1 = plain_name name /\ saved_name x = name.
Proof.
  pose proof (plain_printable name) as Hp. unfold contentDisposition. cbn zeta. set (plain := plain_name name) in *.
  destruct (unescape_rfc5987 name) as [Hu Hq].
  assert (forallb printable (FormatMediaType plain) = true /\ forall rest, (rest = [] \/ exists r, rest = ";"%char :: r) ->
    read_disposition (FormatMediaType plain ++ rest) =
    match rest with [] => Some (plain, None) | _ => match strip $"; filename*=UTF-8''" rest with Some e => (fun n => (plain, Some n)) <$> unescape e | None => None end end) as [HF HR].
  { unfold FormatMediaType. destruct (is_token plain) eqn:Et.
    - unfold is_token in Et. apply andb_prop in Et as [Hne Hall]. apply negb_true_iff, bool_decide_eq_false in Hne. split.
      + rewrite forallb_app, Hp. by vm_compute.
      + intros rest Hr. unfold read_disposition. rewrite <- app_assoc, strip_prefix.
        destruct plain as [|c pl]; [done|]. cbn [app]. assert (token_char c = true) as Hc by (cbn [forallb] in Hall; by apply andb_prop in Hall as [? _]).
        destruct (token_printable c Hc) as [_ Hnq]. rewrite bool_decide_eq_false_2 by done. change (c :: pl ++ rest) with ((c :: pl) ++ rest).
        rewrite read_token_app; [|done|by destruct Hr as [-> |[r ->]]]. by destruct rest.
    - split.
      + rewrite !forallb_app, escaped_printable by done. by vm_compute.
      + intros rest Hr. unfold read_disposition. rewrite <- !app_assoc, strip_prefix. cbn [app]. change (bool_decide (quote_mark = quote_mark)) with true. cbv iota.
        rewrite read_escaped. by destruct rest. }
  case_bool_decide as Hd.
  - split; [rewrite forallb_app, HF, forallb_app, Hq; by vm_compute|]. exists (plain, Some name). split; [|done].
    rewrite HR by (right; by eexists). change ($"; filename*=UTF-8''" ++ rfc5987Escape name) with (";"%char :: ($" filename*=UTF-8''" ++ rfc5987Escape name)) at 1.
    cbv iota. rewrite strip_prefix, Hu. done.
  - assert (plain = name) as E by (by destruct (decide (plain = name))). split; [by rewrite app_nil_r|]. exists (plain, None).
    rewrite HR by (by left). done.
Qed.

Example disposition_sample :
  map contentDisposition [$"a.txt"; $"my notes.txt"; chr 13 :: chr 10 :: $"X: y"] =
  [$"attachment; filename=a.txt"; $"attachment; filename=" ++ [quote_mark] ++ $"my notes.txt" ++ [quote_mark];
   $"attachment; filename=" ++ [quote_mark] ++ $"__X: y" ++ [quote_mark] ++ $"; filename*=UTF-8''%0D%0AX%3A%20y"].
Proof. vm_compute. reflexivity. Qed.

(** * Sizes and icons *)

(** Division to the nearest integer, a tie to the even one. *)
Definition round_even (a b : Z) : Z :=
  let q := a / b in let r := a mod b in
  if 2 * r <? b then q else if 2 * r >? b then q + 1 else if Z.even q then q else q + 1.

(** [float64] of an integer: 53 significant bits. *)
Definition float64 (z : Z) : Z := let e := Z.log2 z - 52 in if e <=? 0 then z else round_even z (2 ^ e) * 2 ^ e.

(** [%.1f] of a number of tenths. *)
Definition print_tenths (t : Z) : bytes := print_Z (t / 10) ++ $"." ++ print_Z (t mod 10).

(** The first unit, of 1024 of the one before, in which the size is less than 1024. Dividing a float by 1024 is exact, so
    the quotient is [f] over the unit. *)
Fixpoint in_units (f unit : Z) (units : list bytes) : bytes :=
  match units with
  | [] => print_tenths (round_even (10 * f) (unit * 1024)) ++ $" PB"
  | u :: us => let unit := unit * 1024 in if f <? 1024 * unit then print_tenths (round_even (10 * f) unit) ++ $" " ++ u else in_units f unit us
  end.

Definition FormatSize (size : Z) : bytes :=
  if size <? 1024 then print_Z size ++ $" B" else in_units (float64 size) 1 [$"KB"; $"MB"; $"GB"; $"TB"].

Example FormatSize_sample :
  map FormatSize [0; 1023; 1024; 1536; 1126; 1048575; 1048576; 5 * 2 ^ 40; 2 ^ 50 - 1; 2 ^ 50; 2 ^ 63 - 1] =
  [$"0 B"; $"1023 B"; $"1.0 KB"; $"1.5 KB"; $"1.1 KB"; $"1024.0 KB"; $"1.0 MB"; $"5.0 TB"; $"1024.0 TB"; $"1.0 PB"; $"8192.0 PB"].
Proof. vm_compute. reflexivity. Qed.

Lemma round_even_near a b : 0 < b -> 2 * Z.abs (b * round_even a b - a) <= b.
Proof.
  intros Hb. unfold round_even. pose proof (Z.div_mod a b ltac:(lia)) as E. pose proof (Z.mod_pos_bound a b Hb) as Hr.
  set (q := a / b) in *. set (r := a mod b) in *. cbn zeta.
  destruct (2 * r <? b) eqn:E1; [apply Z.ltb_lt in E1; lia|apply Z.ltb_ge in E1].
  destruct (2 * r >? b) eqn:E2; [rewrite Z.gtb_ltb in E2; apply Z.ltb_lt in E2; lia|rewrite Z.gtb_ltb in E2; apply Z.ltb_ge in E2].
  destruct (Z.even q); lia.
Qed.

(** What is shown of a size of at least 1024 bytes: a number of tenths of a unit, which is the nearest to the size, and
    which is at least 1 and at most 1024, up to a petabyte. *)
Lemma in_units_spec f : forall units unit, 0 < unit -> unit * 1024 <= f ->
  exists u t name, in_units f unit units = print_tenths t ++ $" " ++ name /\ 0 < u /\ 2 * Z.abs (u * t - 10 * f) <= u /\ 10 <= t /\
    (t <= 10240 \/ name = $"PB").
Proof.
  induction units as [|name us IH]; intros unit Hu Hf; cbn [in_units]; cbn zeta.
  - exists (unit * 1024), (round_even (10 * f) (unit * 1024)), $"PB". pose proof (round_even_near (10 * f) (unit * 1024) ltac:(lia)) as Hn.
    split_and!; [done|lia|done|nia|by right].
  - destruct (f <? 1024 * (unit * 1024)) eqn:E.
    + apply Z.ltb_lt in E. pose proof (round_even_near (10 * f) (unit * 1024) ltac:(lia)) as Hn.
      eexists (unit * 1024), _, name. split_and!; [done|lia|exact Hn|nia|left; nia].
    + apply Z.ltb_ge in E. apply IH; lia.
Qed.

(** [FileIcon]. *)
Definition page : bytes := map chr [240; 159; 147; 132].
Definition icon_of (ext : bytes) : bytes :=
  let is_one (l : list bytes) := bool_decide (ext ∈ l) in
  if is_one [$"pdf"] then map chr [240; 159; 147; 149]
  else if is_one [$"doc"; $"docx"] then map chr [240; 159; 147; 152]
  else if is_one [$"xls"; $"xlsx"] then map chr [240; 159; 147; 151]
  else if is_one [$"ppt"; $"pptx"] then map chr [240; 159; 147; 153]
  else if is_one [$"zip"; $"tar"; $"gz"; $"rar"; $"7z"] then map chr [240; 159; 147; 166]
  else if is_one [$"jpg"; $"jpeg"; $"png"; $"gif"; $"webp"] then map chr [240; 159; 150; 188; 239; 184; 143]
  else if is_one [$"mp4"; $"mov"; $"avi"; $"mkv"; $"webm"] then map chr [240; 159; 142; 172]
  else if is_one [$"mp3"; $"wav"; $"flac"; $"ogg"] then map chr [240; 159; 142; 181]
  else if is_one [$"py"] then map chr [240; 159; 144; 141]
  else if is_one [$"js"; $"ts"] then map chr [240; 159; 147; 156]
  else if is_one [$"html"] then map chr [240; 159; 140; 144]
  else if is_one [$"css"] then map chr [240; 159; 142; 168]
  else if is_one [$"txt"] then page
  else if is_one [$"md"] then map chr [240; 159; 147; 157]
  else page.

(** [strings.ToLower] where its result can be one of the extensions: the Kelvin sign and the dotted capital I fold to
    ASCII letters too. *)
Definition lower_rune (r : bytes) : bytes :=
  if bool_decide (r = map chr [226; 132; 170]) then $"k" else if bool_decide (r = map chr [196; 176]) then $"i" else ToLower r.

Definition FileIcon (filename : bytes) : bytes :=
  match LastIndexByte filename dot with
  | None => page
  | Some i => let ext := drop (S i) filename in icon_of (concat (map lower_rune (runes (length ext) ext)))
  end.

(** An icon is that of the extension, however it is cased. *)
Lemma icon_of_name base ext : dot ∉ ext -> ascii_text ext -> FileIcon (base ++ dot :: ext) = icon_of (ToLower ext).
Proof.
  intros Hd Ha. unfold FileIcon. rewrite LastIndexByte_app by done. cbn zeta.
  assert (drop (S (length base)) (base ++ dot :: ext) = ext) as -> by (by rewrite drop_app_ge, Nat.sub_succ_l, Nat.sub_diag by lia).
  rewrite runes_ascii by done. f_equal. clear. induction ext as [|c e IH]; [done|]. cbn [map concat]. rewrite IH. unfold lower_rune.
  by rewrite !bool_decide_eq_false_2 by done.
Qed.

(** * The totals of /api/info *)

Section Info.
Variable fs : tree.

(** [os.Lstat] of a rooted, clean path: links are followed up to its last element. *)
Definition Lstat (path : bytes) : option (list bytes * node) :=
  match rev (elements path) with
  | [] => Some ([], NDir 0)
  | e :: d => p ← walk fs kernel_links [] (rev d); (fun n => (p ++ [e], n)) <$> node_at fs (p ++ [e])
  end.

(** [Info] of an entry, which follows no link. *)
Definition node_size (n : node) : Z := match n with NDir _ => 0 | NFile data _ => zlen data | NLink t => zlen t end.

(** What [filepath.WalkDir] shows [serveInfo] below an entry that counts: it skips the entries that are not shown, with
    all that is in them, counts those that are not directories, and follows no link. *)
Fixpoint walk_files (fuel : nat) (p : list bytes) (name : bytes) (n : node) : list (list bytes * Z) :=
  if negb (ShouldShow name false) then [] else
  match n, fuel with
  | NDir _, S k => concat (map (fun e => match node_at fs (p ++ [e]) with Some m => walk_files k (p ++ [e]) e m | None => [] end) (Readdirnames fs p))
  | NDir _, O => []
  | _, _ => [(p, node_size n)]
  end.

Inductive info := InfoFailed | SendInfo (filename : bytes) (size : Z) | BrowseInfo (root : bytes) (upload_enabled : bool) (total_files total_size : Z).

(** [serveInfo]; no path in the tree is longer than the tree is large. *)
Definition serveInfo (f : FileShare) : info :=
  match ShareMode f with
  | ModeSend => match Stat fs (BasePath f) with Some n => SendInfo (FileName f) (node_size n) | None => InfoFailed end
  | ModeBrowse =>
    let counted := match Lstat (BasePath f) with Some (p, n) => walk_files (S (size fs)) p (Base (BasePath f)) n | None => [] end in
    let root := Base (BasePath f) in
    BrowseInfo (if bool_decide (root = [] \/ root = $"." \/ root = $"/") then $"Files" else root) (UploadEnabled f)
      (zlen counted) (foldr Z.add 0 (map snd counted))
  end.

(** The path [rel] below [p] counts: it is a file or a link, in directories, and every name on it is shown. *)
Fixpoint counts (p : list bytes) (rel : list bytes) (z : Z) : Prop :=
  match rel with
  | [] => False
  | [e] => ShouldShow e false = true /\ exists n, fs !! (p ++ [e]) = Some n /\ is_dir n = false /\ z = node_size n
  | e :: rest => ShouldShow e false = true /\ (exists m, fs !! (p ++ [e]) = Some (NDir m)) /\ counts (p ++ [e]) rest z
  end.

Lemma node_at_snoc p e : node_at fs (p ++ [e]) = fs !! (p ++ [e]).
Proof. by destruct p. Qed.

Lemma walk_files_dir k p name m : ShouldShow name false = true ->
  walk_files (S k) p name (NDir m) = concat (map (fun e => match node_at fs (p ++ [e]) with Some x => walk_files k (p ++ [e]) e x | None => [] end) (Readdirnames fs p)).
Proof. intros E. cbn [walk_files]. by rewrite E. Qed.

Lemma walk_files_leaf k p name n : is_dir n = false -> walk_files k p name n = if ShouldShow name false then [(p, node_size n)] else [].
Proof. intros E. by destruct k, n; cbn; try done; destruct (ShouldShow name false). Qed.

Lemma walk_files_hidden k p name n : ShouldShow name false = false -> walk_files k p name n = [].
Proof. intros E. destruct k; cbn; by rewrite E. Qed.

(** What is counted below a directory, of paths within the depth of the walk. *)
Lemma walk_files_spec k : forall p name m q z, ShouldShow name false = true ->
  (q, z) ∈ walk_files (S k) p name (NDir m) <-> exists rel, q = p ++ rel /\ (length rel <= S k)%nat /\ counts p rel z.
Proof.
  induction k as [|k IH]; intros p name m q z Hn; rewrite walk_files_dir, list_elem_of_In, in_concat by done.
  all: split; [intros (l & Hl & Hq)|intros (rel & -> & Hlen & Hc)].
  all: try (apply in_map_iff in Hl as (e & <- & He); rewrite <- list_elem_of_In in Hq; rewrite node_at_snoc in Hq).
  - destruct (fs !! (p ++ [e])) as [x|] eqn:Ex; [|by apply elem_of_nil in Hq]. destruct (is_dir x) eqn:Ed.
    + destruct x; try done. cbn [walk_files] in Hq. destruct (negb _) in Hq; by apply elem_of_nil in Hq.
    + rewrite walk_files_leaf in Hq by done. destruct (ShouldShow e false) eqn:Es; [|by apply elem_of_nil in Hq].
      apply list_elem_of_singleton in Hq as [= -> ->]. exists [e]. split_and!; [done|cbn; lia|]. cbn. split; [done|]. by exists x.
  - destruct rel as [|e [|e' rest]]; [done| |cbn in Hlen; lia]. destruct Hc as (Hs & n & Hx & Hd & ->).
    exists (walk_files 0 (p ++ [e]) e n). split; [|rewrite walk_files_leaf, Hs by done; by left].
    apply in_map_iff. exists e. split; [by rewrite node_at_snoc, Hx|]. apply list_elem_of_In, Readdirnames_spec. by rewrite Hx.
  - destruct (fs !! (p ++ [e])) as [x|] eqn:Ex; [|by apply elem_of_nil in Hq].
    destruct (ShouldShow e false) eqn:Es; [|by rewrite walk_files_hidden in Hq by done; apply elem_of_nil in Hq].
    destruct (is_dir x) eqn:Ed.
    + destruct x as [mt| |]; try done. apply IH in Hq as (rel & -> & Hlen & Hc); [|done]. exists (e :: rel). split_and!.
      * by rewrite <- app_assoc.
      * cbn. lia.
      * destruct rel; [done|]. split; [done|]. split; [by exists mt|exact Hc].
    + rewrite walk_files_leaf, Es in Hq by done. apply list_elem_of_singleton in Hq as [= -> ->]. exists [e]. split_and!; [done|cbn; lia|].
      cbn. split; [done|]. by exists x.
  - destruct rel as [|e [|e' rest]]; [done| |].
    + destruct Hc as (Hs & n & Hx & Hd & ->). exists (walk_files (S k) (p ++ [e]) e n). split; [|rewrite walk_files_leaf, Hs by done; by left].
      apply in_map_iff. exists e. split; [by rewrite node_at_snoc, Hx|]. apply list_elem_of_In, Readdirnames_spec. by rewrite Hx.
    + destruct Hc as (Hs & (mt & Hx) & Hc). exists (walk_files (S k) (p ++ [e]) e (NDir mt)). split.
      * apply in_map_iff. exists e. split; [by rewrite node_at_snoc, Hx|]. apply list_elem_of_In, Readdirnames_spec. by rewrite Hx.
      * apply list_elem_of_In, IH; [done|]. exists (e' :: rest). split_and!; [by rewrite <- app_assoc|cbn in *; lia|exact Hc].
Qed.

(** A path that counts is no longer than the tree is large: its beginnings are different nodes. *)
Lemma counts_in rel : forall p z j, counts p rel z -> (0 < j <= length rel)%nat -> is_Some (fs !! (p ++ take j rel)).
Proof.
  induction rel as [|e [|e' rest] IH]; intros p z j H Hj; [done| |].
  - destruct H as (_ & n & Hn & _). assert (j = 1%nat) as -> by (cbn in Hj; lia). cbn. by rewrite Hn.
  - destruct H as (_ & (m & Hm) & H). destruct j as [|j]; [lia|]. cbn [take]. destruct j as [|j]; [cbn; by rewrite Hm|].
    replace (p ++ e :: take (S j) (e' :: rest)) with ((p ++ [e]) ++ take (S j) (e' :: rest)) by by rewrite <- app_assoc.
    eapply IH; [exact H|]. cbn in *. lia.
Qed.

Lemma counts_short p rel z : counts p rel z -> (length rel <= size fs)%nat.
Proof.
  intros H. rewrite <- (length_map_to_list fs), <- (length_fmap fst).
  rewrite <- (length_seq (length rel) 1), <- (length_fmap (fun j => p ++ take j rel)). apply submseteq_length, NoDup_submseteq.
  - apply NoDup_fmap_2_strong; [|apply NoDup_seq]. intros i j Hi Hj E. rewrite elem_of_seq in Hi, Hj. apply (app_inv_head p) in E.
    apply (f_equal length) in E. rewrite !length_take in E. lia.
  - intros q Hq. apply list_elem_of_fmap in Hq as (j & -> & Hj). rewrite elem_of_seq in Hj.
    destruct (counts_in rel p z j H) as [n Hn]; [lia|]. apply list_elem_of_fmap. exists (p ++ take j rel, n). split; [done|]. by apply elem_of_map_to_list.
Qed.

Lemma Readdirnames_NoDup p : NoDup (Readdirnames fs p).
Proof.
  unfold Readdirnames. pose proof (NoDup_fst_map_to_list fs) as Hnd. induction (map_to_list fs) as [|[q n] l IH]; [constructor|].
  cbn [fmap list_fmap fst] in Hnd. apply NoDup_cons in Hnd as [Hq Hnd]. specialize (IH Hnd). cbn [omap list_omap fst].
  pose proof (strip_common_spec p q) as Hs. destruct (strip_common p q) as [x y]. destruct Hs as (r & Ep & Eq & _).
  destruct x; [|exact IH]. destruct y as [|e [|]]; [exact IH| |exact IH]. apply NoDup_cons. split; [|exact IH].
  intros Hin. apply list_elem_of_omap in Hin as ([q' n'] & Hq' & He). cbn in He. pose proof (strip_common_spec p q') as Hs'.
  destruct (strip_common p q') as [x' y']. destruct Hs' as (r' & Ep' & Eq' & _). destruct x'; [|done]. destruct y' as [|e2 [|]]; [done| |done].
  injection He as ->. rewrite app_nil_r in Ep, Ep'. apply Hq. apply list_elem_of_fmap. exists (q', n'). split; [|done]. cbn. congruence.
Qed.

Lemma NoDup_concat_map {A B} (f : A -> list B) (g : B -> A) l : NoDup l -> (forall a, a ∈ l -> NoDup (f a) /\ forall b, b ∈ f a -> g b = a) ->
  NoDup (concat (map f l)).
Proof.
  induction l as [|a l IH]; intros Hl H; [constructor|]. apply NoDup_cons in Hl as [Ha Hl]. cbn [map concat]. apply NoDup_app. split_and!.
  - apply H. by left.
  - intros b Hb Hin. apply list_elem_of_In, in_concat in Hin as (k & Hk & Hbk). apply in_map_iff in Hk as (a' & <- & Ha').
    apply list_elem_of_In in Hbk, Ha'. destruct (H a) as [_ H1]; [by left|]. destruct (H a') as [_ H2]; [by right|].
    apply Ha. by rewrite <- (H1 b Hb), (H2 b Hbk).
  - apply IH; [done|]. intros x Hx. apply H. by right.
Qed.

(** The walk stays below where it is. *)
Lemma walk_files_below k : forall p name n q z, (q, z) ∈ walk_files k p name n -> p `prefix_of` q.
Proof.
  induction k as [|k IH]; intros p name n q z H; cbn [walk_files] in H; (destruct (negb _); [by apply elem_of_nil in H|]).
  - destruct n; [by apply elem_of_nil in H|..]; apply list_elem_of_singleton in H as [= -> _]; done.
  - destruct n; [|apply list_elem_of_singleton in H as [= -> _]; done..]. apply list_elem_of_In, in_concat in H as (l & Hl & Hq).
    apply in_map_iff in Hl as (e & <- & _). apply list_elem_of_In in Hq. destruct (node_at fs (p ++ [e])); [|by apply elem_of_nil in Hq].
    apply IH in Hq. etransitivity; [|exact Hq]. by exists [e].
Qed.

Lemma walk_files_NoDup k : forall p name n, NoDup (walk_files k p name n).
Proof.
  induction k as [|k IH]; intros p name n; cbn [walk_files]; (destruct (negb _); [constructor|]).
  - destruct n; [constructor|apply NoDup_singleton..].
  - destruct n; [|apply NoDup_singleton..]. apply (NoDup_concat_map _ (fun x => default [] (head (drop (length p) x.1)))); [apply Readdirnames_NoDup|].
    intros e _. destruct (node_at fs (p ++ [e])); [|split; [constructor|intros b Hb; by apply elem_of_nil in Hb]]. split; [apply IH|].
    intros [q z] Hq. apply walk_files_below in Hq as [r ->]. cbn. by rewrite <- app_assoc, drop_app_length.
Qed.

(** The totals of /api/info: of a directory whose own name is shown, exactly the files and links below it that are shown,
    through directories that are, each counted once and with its own size. *)
Theorem info_counts_exact f p m : ShareMode f = ModeBrowse -> Lstat (BasePath f) = Some (p, NDir m) -> ShouldShow (Base (BasePath f)) false = true ->
  exists l root, serveInfo f = BrowseInfo root (UploadEnabled f) (zlen l) (foldr Z.add 0 (map snd l)) /\ NoDup l /\
    forall q z, (q, z) ∈ l <-> exists rel, q = p ++ rel /\ counts p rel z.
Proof.
  intros Hm Hl Hs. unfold serveInfo. rewrite Hm, Hl. cbn zeta. eexists _, _. split; [reflexivity|]. split; [apply walk_files_NoDup|].
  intros q z. rewrite walk_files_spec by done. split; intros (rel & H); exists rel; [tauto|]. destruct H as [-> Hc]. split_and!; [done| |done].
  pose proof (counts_short p rel z Hc). lia.
Qed.
End Info.

(** A share of one file in a directory, with a hidden file and a hidden directory beside it. *)
Definition info_tree : tree := list_to_map [
  elems [$"srv"] (NDir 1); elems [$"srv"; $"d"] (NDir 1); elems [$"srv"; $"d"; $"a.txt"] (NFile $"hello" 5); elems [$"srv"; $".env"] (NFile $"KEY=1" 5);
  elems [$"srv"; $".git"] (NDir 1); elems [$"srv"; $".git"; $"HEAD"] (NFile $"ref" 1); elems [$"pub"] (NLink $"srv")].

Lemma info_counts_exact_witness : exists l, serveInfo info_tree (mkFileShare $"/srv" ModeBrowse [] true) = BrowseInfo $"srv" true (zlen l) 5 /\
  ([$"srv"; $"d"; $"a.txt"], 5) ∈ l.
Proof.
  assert (serveInfo info_tree (mkFileShare $"/srv" ModeBrowse [] true) = BrowseInfo $"srv" true 1 5) as E by by vm_compute.
  destruct (info_counts_exact info_tree (mkFileShare $"/srv" ModeBrowse [] true) [$"srv"] 1) as (l & root & Hi & _ & Hq); [reflexivity|vm_compute; reflexivity|vm_compute; reflexivity|].
  exists l. rewrite E in Hi. injection Hi as _ H1 _. rewrite <- H1. split; [exact E|]. apply Hq. exists [$"d"; $"a.txt"]. split; [reflexivity|].
  split; [reflexivity|]. split; [exists 1; vm_compute; reflexivity|]. split; [reflexivity|]. exists (NFile $"hello" 5). split_and!; [vm_compute; reflexivity|reflexivity|reflexivity].
Defined.

(** A directory shared under a hidden name, whose files are listed, is said to hold none. *)
Lemma hidden_share_counts_nothing :
  let f := mkFileShare $"/srv/.git" ModeBrowse [] false in
  serveInfo info_tree f = BrowseInfo $".git" false 0 0 /\ map StatName (from_result [] (ListPath info_tree $"/" no_types f [])) = [$"HEAD"].
Proof. split; vm_compute; reflexivity. Qed.

(** A directory shared through a link is said to hold one file, which is the link. *)
Lemma linked_share_counts_the_link :
  let f := mkFileShare $"/pub" ModeBrowse [] false in
  serveInfo info_tree f = BrowseInfo $"pub" false 1 3 /\ map StatName (from_result [] (ListPath info_tree $"/" no_types f $"d")) = [$"a.txt"].
Proof. split; vm_compute; reflexivity. Qed.
