(* ===== verification/ShellInput.v ===== *)
(** The input of a shell stream from the connector to the process (internal/client/shellops.go: [pumpStdin],
    [pumpResizes], [pumpSignals]; internal/streamtype/shell.go: [OnDAT], [OnFIN], of Shell.v). The three pumps write to
    one stream, so their frames arrive in any interleaving. *)

From S2P Require Import Prelude GoLib Protocol Json Shell.

(** What the pumps are given: a chunk read from the terminal, the end of the input, a size, or a signal. *)
Inductive input_act := Types (chunk : bytes) | EndOfInput | Resizes (cols rows : Z) | Signals (name : bytes).

(** What a pump writes for it: a DAT frame, or the FIN. *)
Inductive input_frame := DAT (payload : bytes) | FIN.

Definition frame_of_input (a : input_act) : input_frame :=
  match a with
  | Types chunk => DAT (chr 0 :: chunk)
  | EndOfInput => FIN
  | Resizes cols rows => DAT (chr 4 :: put_le 2 cols ++ put_le 2 rows)
  | Signals name => DAT (chr 3 :: name)
  end.

(** [pumpStdin] on what its reader returns, at most a frame's worth at a time, and whether it ended with EOF. *)
Definition pumpStdin (reads : list bytes) (eof : bool) : list input_act :=
  map Types (filter (fun r => r <> []) reads) ++ if eof then [EndOfInput] else [].

Definition pumpResizes (sizes : list (Z * Z)) : list input_act := map (fun s => Resizes s.1 s.2) sizes.
Definition pumpSignals (names : list bytes) : list input_act := map Signals names.

(** The listener's handler on a frame. *)
Definition feed (h : nat) (id : Z) (w : Shells) (a : input_act) : Shells :=
  match frame_of_input a with DAT payload => OnDAT w h id payload | FIN => OnFIN w h id end.

Definition is_typing (a : input_act) : bool := match a with Types _ | EndOfInput => true | _ => false end.
Definition is_signal (a : input_act) : bool := match a with Signals _ => true | _ => false end.

(** What each kind of act does to a session that takes input. *)
Definition takes (a : input_act) (x : shellSession) : shellSession :=
  match a with
  | Types chunk => writeInput chunk x
  | EndOfInput => closeInput x
  | Resizes cols rows => resize (u16 cols) (u16 rows) x
  | Signals name => match signalFromName name with Some sig => x <| signals := signals x ++ [sig] |> | None => x end
  end.

Definition only_resizes (a : input_act) (x : shellSession) : shellSession := match a with Resizes _ _ => takes a x | _ => x end.

Lemma resize_frame cols rows : let p := put_le 2 cols ++ put_le 2 rows in
  (length p <? 4)%nat = false /\ get_le (take 2 p) = u16 cols /\ get_le (take 2 (drop 2 p)) = u16 rows.
Proof.
  cbn zeta. assert (length (put_le 2 cols) = 2%nat /\ length (put_le 2 rows) = 2%nat) as [L1 L2] by (split; apply length_put_le).
  split; [apply Nat.ltb_ge; rewrite length_app; lia|]. rewrite take_app_length' by done. rewrite drop_app_length' by done.
  rewrite (take_ge (put_le 2 rows)) by lia. rewrite !get_put_le. done.
Qed.

Lemma lookup_session_on w s f h id : lookup_session (on_session s f w) h id = lookup_session w h id.
Proof. reflexivity. Qed.

Lemma view_only_on w s f h : view_only (on_session s f w) h = view_only w h.
Proof. reflexivity. Qed.

Lemma on_session_id w s : on_session s (fun x => x) w = w.
Proof.
  unfold on_session. destruct w. cbn. f_equal. match goal with |- alter _ _ ?l = _ => apply list_eq; intros i; destruct (decide (i = s)) as [->|] end;
    [rewrite list_lookup_alter_eq; by rewrite option_fmap_id|by rewrite list_lookup_alter_ne].
Qed.

Lemma feed_takes h id s w a : lookup_session w h id = Some s ->
  feed h id w a = on_session s (if view_only w h then only_resizes a else takes a) w.
Proof.
  intros Hs. unfold feed, only_resizes. destruct a as [chunk| |cols rows|name]; cbn [frame_of_input takes].
  - unfold OnDAT. rewrite Hs. cbn. destruct (view_only w h); [by rewrite on_session_id|done].
  - unfold OnFIN, closeStdin. rewrite Hs. destruct (view_only w h); [by rewrite on_session_id|done].
  - unfold OnDAT. rewrite Hs. destruct (resize_frame cols rows) as (E1 & E2 & E3). change (code (chr 4) =? 0) with false. change (code (chr 4) =? 3) with false.
    change (code (chr 4) =? 4) with true. rewrite E1, E2, E3. by destruct (view_only w h).
  - unfold OnDAT. rewrite Hs. change (code (chr 3) =? 0) with false. change (code (chr 3) =? 3) with true. cbv iota.
    destruct (view_only w h); [by rewrite on_session_id|]. unfold takes. destruct (signalFromName name); [done|by rewrite on_session_id].
Qed.

Lemma feed_all h id s acts : forall w x, lookup_session w h id = Some s -> sessions w !! s = Some x ->
  let w' := foldl (feed h id) w acts in
  lookup_session w' h id = Some s /\ view_only w' h = view_only w h /\
  sessions w' !! s = Some (foldl (fun x a => (if view_only w h then only_resizes a else takes a) x) x acts) /\
  forall i, i <> s -> sessions w' !! i = sessions w !! i.
Proof.
  induction acts as [|a acts IH]; intros w x Hs Hx; cbn [foldl]; [by split_and!|]. rewrite (feed_takes _ _ _ _ _ Hs).
  set (f := if view_only w h then only_resizes a else takes a).
  destruct (IH (on_session s f w) (f x)) as (I1 & I2 & I3 & I4); [by rewrite lookup_session_on|cbn; by rewrite list_lookup_alter_eq, Hx|].
  rewrite view_only_on in I2, I3. split_and!; [exact I1|exact I2|by rewrite I3; subst f; destruct (view_only w h)|].
  intros i Hi. rewrite (I4 i Hi). cbn. by rewrite list_lookup_alter_ne.
Qed.

Definition signal_of (a : input_act) : option bytes := match a with Signals name => signalFromName name | _ => None end.

(** What is left alone by acts other than typing. *)
Definition same_input (x x' : shellSession) : Prop := input x' = input x /\ stdin x' = stdin x /\ (terminal x = None <-> terminal x' = None).

Lemma quiet_act a x : is_typing a = false -> same_input x (takes a x) /\ signals (takes a x) = signals x ++ option_list (signal_of a).
Proof.
  destruct a as [chunk| |cols rows|name]; intros Ha; try discriminate Ha; cbn [takes signal_of].
  - unfold resize. destruct (terminal x) as [[c r]|] eqn:E; cbn; rewrite app_nil_r; split; try done. unfold same_input. cbn. by rewrite E.
  - destruct (signalFromName name); cbn; [by split|]. rewrite app_nil_r. by split.
Qed.

Lemma typing_signals a x : is_typing a = true -> signals (takes a x) = signals x /\ signal_of a = None.
Proof. destruct a as [chunk| |cols rows|name]; intros Ha; try discriminate Ha; cbn [takes signal_of]; [|done]. unfold writeInput. by destruct (terminal x), (stdin x). Qed.

(** What a session has of acts, in terms of what each pump was given. *)
Lemma takes_all acts : forall x (reads : list bytes) (eof : bool), List.filter is_typing acts = map Types reads ++ (if eof then [EndOfInput] else []) ->
  (terminal x <> None \/ stdin x = true) \/ reads = [] ->
  let x' := foldl (fun x a => takes a x) x acts in
  input x' = input x ++ concat reads /\ stdin x' = (if eof then false else stdin x) /\ signals x' = signals x ++ omap signal_of acts.
Proof.
  induction acts as [|a acts IH]; intros x reads eof Hf Ho; cbn [foldl].
  - destruct reads, eof; try done. cbn. by rewrite !app_nil_r.
  - cbn [List.filter] in Hf. destruct (is_typing a) eqn:Ea.
    + destruct (typing_signals a x Ea) as [Es En]. destruct a as [chunk| |cols rows|name]; try discriminate Ea; cbn [omap list_omap]; rewrite En.
      * destruct reads as [|r reads]; [by destruct eof|]. cbn in Hf. injection Hf as <- Hf. destruct Ho as [Ho|Ho]; [|done]. cbn beta. cbn [takes].
        assert (writeInput chunk x = x <| input := input x ++ chunk |>) as E by (unfold writeInput; destruct (terminal x); [done|]; destruct Ho as [Ho|Ho]; [done|by rewrite Ho]).
        destruct (IH (writeInput chunk x) reads eof Hf) as (I1 & I2 & I3); [left; by rewrite E|]. rewrite I1, I2, I3, E. split_and!; [|done|done].
        cbn. by rewrite <- app_assoc.
      * destruct reads as [|r reads]; [|done]. destruct eof; [|done]. injection Hf as Hf. cbn beta. cbn [takes].
        destruct (IH (closeInput x) [] false Hf (or_intror eq_refl)) as (I1 & I2 & I3). rewrite I1, I2, I3. by split_and!.
    + destruct (quiet_act a x Ea) as [(Q1 & Q2 & Q3) Q4].
      destruct (IH (takes a x) reads eof Hf) as (I1 & I2 & I3); [rewrite Q2; destruct Ho as [[Ho|Ho]|Ho]; [left; left; by rewrite <- Q3|left; by right|by right]|].
      split_and!; [by rewrite I1, Q1|by rewrite I2, Q2|]. rewrite I3, Q4, <- app_assoc. f_equal. cbn [omap list_omap]. by destruct (signal_of a).
Qed.

Lemma filter_typing reads eof : List.filter is_typing (pumpStdin reads eof) = pumpStdin reads eof.
Proof.
  unfold pumpStdin. rewrite List.filter_app. f_equal; [|by destruct eof]. induction (filter _ reads) as [|r l IH]; [done|]. cbn. by rewrite IH.
Qed.

Lemma concat_nonempty (reads : list bytes) : concat (filter (fun r => r <> []) reads) = concat reads.
Proof. induction reads as [|r reads IH]; [done|]. destruct r; [by rewrite filter_cons_False by auto|]. rewrite filter_cons_True by done. cbn. by rewrite IH. Qed.

(** What is typed reaches the process: the frames of the three pumps may arrive in any interleaving, among those of the other
    streams, and the input of the process grows by exactly the bytes that were read, in their order; it is closed when the
    reader was at its end, and not before; every known signal is delivered in order; and no other session is touched.
    A connector that may only watch changes nothing of this, but for the size of the terminal. *)
Theorem input_reaches_process h id s w x acts reads eof :
  lookup_session w h id = Some s -> sessions w !! s = Some x -> List.filter is_typing acts = pumpStdin reads eof -> terminal x <> None \/ stdin x = true ->
  exists x', sessions (foldl (feed h id) w acts) !! s = Some x' /\
  (forall i, i <> s -> sessions (foldl (feed h id) w acts) !! i = sessions w !! i) /\
  if view_only w h then input x' = input x /\ stdin x' = stdin x /\ signals x' = signals x
  else input x' = input x ++ concat reads /\ stdin x' = (if eof then false else stdin x) /\ signals x' = signals x ++ omap signal_of acts.
Proof.
  intros Hs Hx Hf Ho. destruct (feed_all h id s acts w x Hs Hx) as (_ & _ & H3 & H4). eexists. split; [exact H3|]. split; [exact H4|].
  destruct (view_only w h).
  - clear -x. revert x. induction acts as [|a acts IH]; intros x; cbn [foldl]; [done|]. destruct (IH (only_resizes a x)) as (I1 & I2 & I3). rewrite I1, I2, I3.
    destruct a as [chunk| |cols rows|name]; cbn [only_resizes takes]; try done. unfold resize. by destruct (terminal x).
  - unfold pumpStdin in Hf. destruct (takes_all acts x _ eof Hf (or_introl Ho)) as (T1 & T2 & T3). split_and!; [by rewrite T1, concat_nonempty|exact T2|exact T3].
Qed.

(** Sizes cross at sixteen bits. *)
Lemma sizes_cross h id s w x cols rows : lookup_session w h id = Some s -> sessions w !! s = Some x -> terminal x <> None ->
  terminal <$> sessions (feed h id w (Resizes cols rows)) !! s = Some (Some (cols mod 65536, rows mod 65536)).
Proof.
  intros Hs Hx Ht. rewrite (feed_takes _ _ _ _ _ Hs). cbn. rewrite list_lookup_alter_eq, Hx. cbn. do 1 f_equal.
  destruct (view_only w h); unfold only_resizes, takes, resize; destruct (terminal x) as [[c r]|]; done.
Qed.

Example input_sample :
  let w := foldl (feed 0 1) (default (start []) (syn_spawn [] [] (syn_admit (start [NewShell []]) 0 1 (json_text $"{'argv':['cat']}") false None []) 0 None))
    [Types $"ab"; Signals $"SIGINT"; Resizes 80 65560; Types $"c"; Signals $"NOPE"; EndOfInput] in
  map (fun x => (input x, stdin x, signals x)) (sessions w) = [($"abc", false, [$"INT"])].
Proof. vm_compute. reflexivity. Qed.
